(* ===== verification/_CoqProject ===== *)
-Q . S2P
Prelude.v
Handler.v
IntMath.v
Clocks.v
Dvfs.v
AddrRange.v
Packet.v
EventQueue.v
CacheBlk.v
TagStore.v
SatCounter.v
LruTags.v
Flip.v
Cache.v
CacheSpec.v
CacheAtomic.v
CacheAtomicSpec.v
BPred.v
BPredUnit.v
Mshr.v
MshrQueue.v
CacheTiming.v
CacheTimingSpec.v
Prefetch.v
SnoopFilter.v
PageTable.v
MultiLevelPageTable.v
PacketQueue.v
XBar.v
CoherentXBar.v
CoherentXBarSys.v
CoherentXBarAtomic.v
NoncoherentXBar.v
Bridge.v
Memory.v
DramCtrl.v
DramCtrlSpec.v
DramTiming.v
CacheCoherence.v
FaLru.v
RegRename.v
RegRenameSys.v
StackDist.v
StackDistSpec.v
