(* ===== verification/Prelude.v ===== *)
(** * Verification of the core of a gem5 simulator: root of the development

    The program is a discrete-event simulator of computer systems.  This
    development models, in executable definitions translated from the C++
    sources under [src/src], the parts on which every simulation rests, and
    proves that they do what the rest of the simulator relies on:

    - the event queue that orders all activity, and the clocks of the objects
      with the voltage and frequency domains that change them;
    - the memory system: packets, coherent and non-coherent crossbars with their
      layers, routing and snoop filter, bridges, the packet queues of ports,
      memories and the DRAM controller, and the classic caches with their blocks, tag stores, replacement
      policies, prefetchers, miss-status registers and coherence protocol;
    - the page tables of emulated processes;
    - the branch predictors and the register renaming of the processor models;
    - the integer, bit-field and address-range helpers they all use.

    ** How the parts interact

    Components are driven by events.  A processor sends packets to a cache; the
    cache looks them up in its tag store, which is one of several replacement
    policies; a miss allocates a miss-status register, whose request is sent
    through a packet queue to a crossbar; the crossbar routes it by address
    through one of its layers and asks its snoop filter which caches to disturb;
    a memory at the end serves it; the response fills the block and may evict
    another one.  A cache whose buffers are full refuses requests and owes its
    processor a retry.  In atomic mode a request is one call through all of these
    parts.  Addresses come from
    the page tables, instruction addresses from the branch predictor.

    ** Files

    - [Prelude.v] (this file): outcomes of C++ code ([res], a result or the way
      the program stops), machine words (a [w]-bit unsigned value is a [Z] below
      [2^w], with [wrap] written where the source wraps), vectors, tactics and
      shared lemmas.
    - [Handler.v]: handlers of simulation objects as functions in a monad of
      state, failures and the calls they make, with a weakest-precondition rule
      per construct; used by the timing-mode caches and the DRAM controller.
    - [IntMath.v]: [base/intmath.hh], [base/intmath.cc], [base/bitfield.hh].
    - [Clocks.v], [Dvfs.v]: [sim/clocked_object.hh], [sim/clock_domain.cc],
      [sim/voltage_domain.cc], [sim/dvfs_handler.cc].
    - [AddrRange.v]: [base/addr_range.hh], [base/addr_range_map.hh].
    - [Packet.v]: [mem/request.hh], [mem/packet.hh], [mem/packet.cc].
    - [EventQueue.v]: [sim/eventq.hh], [sim/eventq.cc], [sim/eventq_impl.hh] and
      the loop of [sim/simulate.cc], on a heap of events with pointers.
    - [CacheBlk.v]: [mem/cache/blk.hh], [mem/cache/tags/cacheset.hh].
    - [TagStore.v]: [mem/cache/tags/base_set_assoc.hh] and [base.hh]; the class
      [TagPolicy] is what a cache calls, [TagPolicyOk] what it relies on.
    - [SatCounter.v], [LruTags.v], [Flip.v]: the policies LRU, random, BIP, DIP
      and FLIP of [mem/cache/tags] and their counters.
    - [Cache.v], [CacheSpec.v]: the data path of [mem/cache/cache_impl.hh], and
      its theorems, proved for every tag policy.
    - [CacheAtomic.v], [CacheAtomicSpec.v]: requests and snoops in atomic mode
      ([recvAtomic], [recvAtomicSnoop], [handleSnoop], [getBusPacket]), and what
      each does to the blocks of the cache.
    - [Mshr.v], [MshrQueue.v]: [mem/cache/mshr.cc], [mem/cache/mshr_queue.cc].
    - [CacheTiming.v], [CacheTimingSpec.v]: requests, responses and snoops in
      timing mode, the choice and sending of the next request, blocking, retries
      and functional accesses, of [mem/cache/cache_impl.hh], [base.hh] and
      [base.cc].
    - [Prefetch.v]: [mem/cache/prefetch].
    - [SnoopFilter.v], [XBar.v], [PacketQueue.v]: [mem/snoop_filter.cc],
      [mem/xbar.cc], [mem/packet_queue.cc] and [mem/qport.hh].
    - [CoherentXBar.v], [CoherentXBarSys.v], [CoherentXBarAtomic.v],
      [NoncoherentXBar.v], [Bridge.v]: [mem/coherent_xbar.cc] (timing mode, its
      runs against arbitrary neighbours, and atomic and functional mode),
      [mem/noncoherent_xbar.cc], [mem/bridge.cc].
    - [CacheCoherence.v]: several caches, the crossbar and a memory composed, in
      atomic mode.
    - [PageTable.v], [MultiLevelPageTable.v]: [mem/page_table.cc] and
      [mem/multi_level_page_table_impl.hh] with the x86 entries.
    - [BPred.v], [BPredUnit.v]: [cpu/pred]; the class [DirPred] is the interface
      between the unit and the direction predictors.
    - [Memory.v]: [mem/abstract_mem.cc] and [mem/simple_mem.cc], the end of every
      request.
    - [DramCtrl.v], [DramCtrlSpec.v], [DramTiming.v]: [mem/dram_ctrl.cc], its
      queues, scheduler, banks, refreshes and power states; its invariant in every
      reachable state; the timing of the commands it tells its devices.
    - [StackDist.v], [StackDistSpec.v]: [mem/stack_dist_calc.cc], the tree that
      measures the reuse of addresses beside a memory, and the naive stack.
    - [FaLru.v]: [mem/cache/tags/fa_lru.cc], on a heap of linked blocks.
    - [RegRename.v], [RegRenameSys.v]: the rename maps, free lists and history of
      [cpu/o3], and the runs of the rename stage.

    A state is a record with the fields of the C++ class, an operation a function
    from the state to its outcome and the next state.  Pointers between objects
    are indices into a store when objects are shared (events, cache blocks,
    miss-status registers).  What the program asks of its environment (does the
    receiver accept the packet, which random number is drawn, what does an event
    do) is an argument.

    ** What the theorems show

    - Event queue: events run in order of tick and priority and time never runs
      backwards; servicing ends; the pointer code implements a sorted queue.
    - Caches: what a read hit, a write hit, a fill and a flush do to the abstract
      view of the cache, for every policy; every policy implements the interface;
      the LRU victim is the oldest way; load-locked and store-conditional.
    - Coherence: any number of caches above a coherent crossbar and a memory
      answer every sequence of loads and stores as one memory would.
    - Blocking: in every reachable state of a cache in timing mode its port is
      blocked exactly while a buffer is full or a register has no room, requests
      are refused exactly then or while a retry is owed, and no retry is lost.
    - Misses: the registers and lists of the miss-status queue stay consistent,
      targets are served in order, and the flag shared between levels of the
      hierarchy is right in every reachable state.
    - Interconnect: no packet of a port queue is lost or stalls, queues drain; a
      crossbar layer serves the ports it turned away in order; the routing cache
      is invisible; the snoop filter never loses a copy; the crossbars return
      every response to where its request came from and snoop every copy; the
      non-coherent crossbar is the coherent one without snooping; a bridge keeps
      its reservations and its order.
    - Clocks: edges and cycles are exact whatever the order of the calls, and the
      last request for a performance level wins.
    - Prefetchers: the queue stays ordered and filtered, a stride is learned.
    - Renaming: no register is freed while it is in use, and after a squash the
      map is the one of the instructions that remain.
    - Page tables: the tables, cached or in simulated memory, implement a map.
    - Branch prediction: squashing undoes speculation, training and correction;
      every predictor implements the interface of the unit.
    - Helpers (as lemmas the rest uses): logarithms, bit fields, ranges and their
      merging, the command table, functional accesses.
    - Memories: a memory implements the abstract memory with reservations, and in
      timing mode answers the accepted requests in order under any interleaving.
    - DRAM controller: its queues, events, split reads and retries are consistent
      in every reachable state; the scheduler finds a burst that can go whenever
      there is one; every two commands between refreshes are as far apart as the
      timing of the device asks.
    - Stack distances: the growing tree of partial sums, with its deletion of nodes,
      answers as the naive stack of addresses.
    - Fully associative tags: one pass counts the hits of every cache size.

    Theorems whose comment starts with a number C<n> are the listed properties;
    a theorem with hypotheses is followed by a witness that applies it to a
    concrete input.  Where the code does not do what it means to do, a theorem
    states what it does on an input that shows it.

    ** Bounds and fuel

    Integers have the width of their C++ types.  Recursion is structural on lists
    wherever the C++ loop runs over a container; other loops take fuel
    ([OutOfFuel] is an outcome of its own) and the theorems show that the fuel the
    definitions pass, such as the number of events for servicing a queue or the
    number of bits for a logarithm, is enough.  The timing of the DRAM commands is
    stated for parameters below [2^58] and ticks below [2^62] picoseconds, 53 days of
    simulated time, so that no sum wraps around.  A walk in the tree of stack distances has one
    step per layer, and at most 31 layers for fewer than [2^31] operations.

    ** Not modelled

    Statistics, tracing, printing and checkpoint files, which the behaviour does
    not depend on; threads and the barrier between queues of a parallel
    simulation; configuration in Python; instruction sets, processor pipelines,
    devices and the Ruby memory system, which are further programs of the same size
    each; the libraries DRAMSim2 and DRAMPower, which are not part of the sources; the draining of the caches and the composition
    of several caches in timing mode (each cache, crossbar and memory is modelled
    there against arbitrary neighbours).  The components of the manifest list them one by one. *)

From Stdlib Require Export ZArith Lia.
From stdpp Require Export prelude.

(** ** Outcomes of C++ code

    The simulator reports errors by stopping: [assert] (a failed
    assertion), [fatal] (a user error) and [panic] (a simulator error) never
    return.  Undefined behaviour of C++ that the models can reach (an index
    past the end of an array, a division by zero, a signed overflow, a
    floating-point value converted to an integer type that cannot hold it) is a further outcome, so
    that a theorem [f x = Ret y] also says that it does not happen. *)

Inductive failure :=
  | AssertFailed
  | Fatal
  | Panic
  | OutOfBounds
  | DivByZero
  | SignedOverflow
  | BadConversion
  | OutOfFuel.   (* a loop of the model was cut short; no theorem ends here *)

Inductive res (A : Type) :=
  | Ret (a : A)
  | Err (e : failure).
Arguments Ret {_} _.
Arguments Err {_} _.

#[export] Instance failure_eq_dec : EqDecision failure.
Proof. solve_decision. Defined.

#[export] Instance res_ret : MRet res := fun A a => Ret a.
#[export] Instance res_bind : MBind res := fun A B f m =>
  match m with
  | Ret a => f a
  | Err e => Err e
  end.
#[export] Instance res_fmap : FMap res := fun A B f m =>
  match m with
  | Ret a => Ret (f a)
  | Err e => Err e
  end.

(** [cassert b] is C's [assert(b)]. *)
Definition cassert (b : bool) : res unit :=
  if b then Ret tt else Err AssertFailed.

(** Array accesses of C++ code, with the out-of-range case made explicit. *)
Definition vread {A} (l : list A) (i : nat) : res A :=
  match l !! i with
  | Some a => Ret a
  | None => Err OutOfBounds
  end.

Definition vwrite {A} (l : list A) (i : nat) (a : A) : res (list A) :=
  match l !! i with
  | Some _ => Ret (<[i:=a]> l)
  | None => Err OutOfBounds
  end.

(** [empty()] of a container. *)
Definition is_nil {A} (l : list A) : bool :=
  match l with
  | [] => true
  | _ :: _ => false
  end.

Definition is_ret {A} (m : res A) : bool :=
  match m with
  | Ret _ => true
  | Err _ => false
  end.

(** ** Machine integers

    A w-bit unsigned value is a [Z] in [0, 2^w); [wrap] is the reduction
    that every arithmetic operation of the C++ type applies. *)

Definition wrap (w x : Z) : Z := (x `mod` 2 ^ w)%Z.
Abbreviation u8 := (wrap 8).
Abbreviation u32 := (wrap 32).
Abbreviation u64 := (wrap 64).

(** Bitwise complement of a w-bit word. *)
Definition wnot (w x : Z) : Z := wrap w (Z.lnot x).

Definition inword (w x : Z) : Prop := (0 <= x < 2 ^ w)%Z.

(** C++ [int] (32 bits, two's complement) from a mathematical integer. *)
Definition s32 (x : Z) : Z :=
  let y := u32 x in (if y <? 2 ^ 31 then y else y - 2 ^ 32)%Z.

(** The largest [Tick] ([base/types.hh]). *)
Definition MaxTick : Z := (2 ^ 64 - 1)%Z.

(** ** Automation *)

Create HintDb s2p.
Create HintDb word.

(** Case analysis on the scrutinee of the first [match] or [if] in sight. *)
Ltac case_head :=
  match goal with
  | |- context [match ?x with _ => _ end] =>
      lazymatch x with
      | context [match _ with _ => _ end] => fail
      | _ => destruct x eqn:?
      end
  end.
Ltac case_head_in H :=
  match type of H with
  | context [match ?x with _ => _ end] =>
      lazymatch x with
      | context [match _ with _ => _ end] => fail
      | _ => destruct x eqn:?
      end
  end.

(** Boolean tests of the code, turned into propositions. *)
Ltac reflect_step :=
  match goal with
  | H : (_ && _)%bool = true |- _ => apply andb_true_iff in H; destruct H
  | H : (_ || _)%bool = false |- _ => apply orb_false_iff in H; destruct H
  | H : (_ && _)%bool = false |- _ => apply andb_false_iff in H
  | H : (_ || _)%bool = true |- _ => apply orb_true_iff in H
  | H : negb _ = true |- _ => apply negb_true_iff in H
  | H : negb _ = false |- _ => apply negb_false_iff in H
  | H : (_ =? _)%nat = true |- _ => apply Nat.eqb_eq in H
  | H : (_ =? _)%nat = false |- _ => apply Nat.eqb_neq in H
  | H : (_ <? _)%nat = true |- _ => apply Nat.ltb_lt in H
  | H : (_ <? _)%nat = false |- _ => apply Nat.ltb_ge in H
  | H : (_ <=? _)%nat = true |- _ => apply Nat.leb_le in H
  | H : (_ <=? _)%nat = false |- _ => apply Nat.leb_gt in H
  | H : (_ =? _)%Z = true |- _ => apply Z.eqb_eq in H
  | H : (_ =? _)%Z = false |- _ => apply Z.eqb_neq in H
  | H : (_ <? _)%Z = true |- _ => apply Z.ltb_lt in H
  | H : (_ <? _)%Z = false |- _ => apply Z.ltb_ge in H
  | H : (_ <=? _)%Z = true |- _ => apply Z.leb_le in H
  | H : (_ <=? _)%Z = false |- _ => apply Z.leb_gt in H
  | H : bool_decide _ = true |- _ => apply bool_decide_eq_true in H
  | H : bool_decide _ = false |- _ => apply bool_decide_eq_false in H
  end.
Ltac reflect := repeat reflect_step.

(** Unfolds the results of monadic code in hypotheses. *)
Ltac res_inv :=
  repeat match goal with
  | H : Ret _ = Ret _ |- _ => injection H as H; try subst
  | H : Ret _ = Err _ |- _ => discriminate H
  | H : Err _ = Ret _ |- _ => discriminate H
  | H : Err _ = Err _ |- _ => injection H as H; try subst
  end.

(** Linear arithmetic with the range of words unfolded. *)
Ltac word_lia := unfold inword in *; lia.

(** One step of monadic evaluation, without unfolding the operations. *)
Ltac bsimpl := cbn [mbind res_bind mret res_ret fmap res_fmap fst snd].

(** ** Outcomes: lemmas *)

Lemma bind_Ret {A B} (m : res A) (f : A -> res B) b :
  (m ≫= f) = Ret b <-> exists a, m = Ret a /\ f a = Ret b.
Proof.
  split.
  - destruct m; [|discriminate]. intros ?. by eexists.
  - by intros (a & -> & ?).
Qed.

Lemma cassert_Ret b u : cassert b = Ret u <-> b = true.
Proof. destruct u, b; by split. Qed.

Lemma cassert_true b : b = true -> cassert b = Ret tt.
Proof. by intros ->. Qed.

Lemma vread_Ret {A} (l : list A) i a : vread l i = Ret a <-> l !! i = Some a.
Proof. unfold vread. destruct (l !! i); naive_solver. Qed.

Lemma vread_some {A} (l : list A) i a : l !! i = Some a -> vread l i = Ret a.
Proof. apply vread_Ret. Qed.

Lemma vread_none {A} (l : list A) i : length l <= i -> vread l i = Err OutOfBounds.
Proof. intros E. apply lookup_ge_None in E. unfold vread. by rewrite E. Qed.

Lemma vwrite_lt {A} (l : list A) i a :
  i < length l -> vwrite l i a = Ret (<[i:=a]> l).
Proof.
  intros [b Hb]%lookup_lt_is_Some. unfold vwrite. by rewrite Hb.
Qed.

Lemma vwrite_ge {A} (l : list A) i a :
  length l <= i -> vwrite l i a = Err OutOfBounds.
Proof. intros E. apply lookup_ge_None in E. unfold vwrite. by rewrite E. Qed.

Lemma vwrite_Ret {A} (l l' : list A) i a :
  vwrite l i a = Ret l' <-> i < length l /\ l' = <[i:=a]> l.
Proof.
  destruct (decide (i < length l)) as [Hi|Hi].
  - rewrite vwrite_lt by done. naive_solver.
  - rewrite vwrite_ge by lia. naive_solver lia.
Qed.

(** ** Lists *)

Lemma length_snoc {A} (l : list A) x : length (l ++ [x]) = S (length l).
Proof. rewrite length_app. cbn. lia. Qed.

Lemma NoDup_middle {A} (pre post : list A) x :
  NoDup (pre ++ x :: post) -> x ∉ pre /\ x ∉ post /\ NoDup (pre ++ post).
Proof.
  rewrite <- Permutation_middle, NoDup_cons, not_elem_of_app. tauto.
Qed.

Lemma alter_as_insert {A} (f : A -> A) (l : list A) i a :
  l !! i = Some a -> alter f i l = <[i:=f a]> l.
Proof.
  intros Hi. apply list_eq. intros j. rewrite list_lookup_alter. case_decide as E.
  - subst j. rewrite Hi. symmetry. apply list_lookup_insert_eq. by eapply lookup_lt_Some.
  - symmetry. by apply list_lookup_insert_ne.
Qed.

Lemma is_nil_true {A} (l : list A) : is_nil l = true <-> l = [].
Proof. by destruct l. Qed.

Lemma is_nil_false {A} (l : list A) : is_nil l = false <-> l <> [].
Proof. by destruct l. Qed.

Lemma filter_agree {A} (P Q : A -> Prop) `{!forall x, Decision (P x), !forall x, Decision (Q x)} (l : list A) :
  (forall x, x ∈ l -> (P x <-> Q x)) -> filter P l = filter Q l.
Proof.
  induction l as [|a l IH]; intros Hl; [done|]. rewrite !filter_cons.
  rewrite IH by (intros; apply Hl; by apply list_elem_of_further).
  pose proof (Hl a (list_elem_of_here _ _)) as Ha.
  destruct (decide (P a)), (decide (Q a)); tauto.
Qed.

#[export] Hint Resolve vread_some vwrite_lt cassert_true : s2p.

(** ** Machine integers: lemmas *)

Section words.
Local Open Scope Z_scope.

Lemma pow2_pos w : 0 <= w -> 0 < 2 ^ w.
Proof. intros. by apply Z.pow_pos_nonneg. Qed.

Lemma wrap_range w x : 0 <= w -> inword w (wrap w x).
Proof. intros. apply Z.mod_pos_bound, pow2_pos. done. Qed.

Lemma wrap_small w x : inword w x -> wrap w x = x.
Proof. intros. by apply Z.mod_small. Qed.

Lemma wrap_wrap w x : wrap w (wrap w x) = wrap w x.
Proof. apply Zmod_mod. Qed.

Lemma wrap_add_l w x y : wrap w (wrap w x + y) = wrap w (x + y).
Proof. apply Zplus_mod_idemp_l. Qed.

Lemma wrap_add_r w x y : wrap w (x + wrap w y) = wrap w (x + y).
Proof. apply Zplus_mod_idemp_r. Qed.

Lemma wrap_sub_l w x y : wrap w (wrap w x - y) = wrap w (x - y).
Proof. apply Zminus_mod_idemp_l. Qed.

Lemma wrap_sub_r w x y : wrap w (x - wrap w y) = wrap w (x - y).
Proof. apply Zminus_mod_idemp_r. Qed.

Lemma wrap_sub_neg w x y :
  inword w x -> inword w y -> x < y -> wrap w (x - y) = x - y + 2 ^ w.
Proof.
  intros [] [] ?. unfold wrap. rewrite <- (Z_mod_plus_full _ 1), Z.mul_1_l.
  apply Z.mod_small. lia.
Qed.

Lemma wnot_eq w x : 0 <= w -> inword w x -> wnot w x = 2 ^ w - 1 - x.
Proof.
  intros ? []. unfold wnot, wrap. rewrite <- (Z_mod_plus_full _ 1), Z.mul_1_l.
  unfold Z.lnot. rewrite Z.mod_small; lia.
Qed.

Lemma wrap_testbit w x i :
  0 <= w -> 0 <= i -> Z.testbit (wrap w x) i = Z.testbit x i && (i <? w).
Proof.
  intros. unfold wrap. destruct (Z.ltb_spec i w).
  - rewrite Z.mod_pow2_bits_low by lia. by rewrite andb_true_r.
  - rewrite Z.mod_pow2_bits_high by lia. by rewrite andb_false_r.
Qed.

Lemma inword_testbit_high w x i :
  0 <= w -> inword w x -> w <= i -> Z.testbit x i = false.
Proof.
  intros ? Hx ?. rewrite <- (wrap_small w x Hx), wrap_testbit by lia.
  destruct (Z.ltb_spec i w); [lia|]. apply andb_false_r.
Qed.

Lemma inword_mono w w' x : 0 <= w <= w' -> inword w x -> inword w' x.
Proof.
  intros ? []. pose proof (Z.pow_le_mono_r 2 w w'). unfold inword. lia.
Qed.

Lemma inword_land w x y : 0 <= w -> inword w x -> 0 <= y -> inword w (Z.land x y).
Proof.
  intros ? Hx ?. split; [apply Z.land_nonneg; unfold inword in *; lia|].
  destruct (Z.eq_dec (Z.land x y) 0) as [->|]; [by apply pow2_pos|].
  assert (0 <= Z.land x y) by (apply Z.land_nonneg; unfold inword in *; lia).
  apply Z.log2_lt_pow2; [lia|].
  apply Z.nle_gt. intros Hle.
  pose proof (Z.bit_log2 (Z.land x y) ltac:(lia)) as Hb.
  rewrite Z.land_spec, (inword_testbit_high w x) in Hb by done. discriminate.
Qed.

Lemma inword_lor w x y : 0 <= w -> inword w x -> inword w y -> inword w (Z.lor x y).
Proof.
  intros ? Hx Hy.
  assert (0 <= Z.lor x y) by (apply Z.lor_nonneg; unfold inword in *; lia).
  split; [done|].
  destruct (Z.eq_dec (Z.lor x y) 0) as [->|]; [by apply pow2_pos|].
  apply Z.log2_lt_pow2; [lia|].
  apply Z.nle_gt. intros Hle.
  pose proof (Z.bit_log2 (Z.lor x y) ltac:(lia)) as Hb.
  rewrite Z.lor_spec, (inword_testbit_high w x), (inword_testbit_high w y) in Hb
    by done. discriminate.
Qed.

Lemma shiftr_range w x k :
  0 <= k <= w -> inword w x -> inword (w - k) (Z.shiftr x k).
Proof.
  intros ? []. rewrite Z.shiftr_div_pow2 by lia.
  split; [apply Z.div_pos; [lia|apply pow2_pos; lia]|].
  apply Z.div_lt_upper_bound; [apply pow2_pos; lia|].
  rewrite <- Z.pow_add_r by lia. by replace (k + (w - k)) with w by lia.
Qed.

End words.

#[export] Hint Resolve wrap_range inword_lor inword_land pow2_pos : word.
