(* ===== verification/Handler.v ===== *)
(** * Handlers of simulation objects

    An object of the simulator reacts to calls and events: a handler changes the state
    of the object, may stop the program, and makes calls to its neighbours, which are
    listed in their order.  The rules of a weakest precondition for runs that end, one
    per construct, are the way through handlers in the proofs. *)

From S2P Require Import Prelude.

Definition handler (St O A : Type) : Type := St -> res (A * St * list O).

#[export] Instance handler_ret {St O} : MRet (handler St O) := fun A a s => Ret (a, s, []).
#[export] Instance handler_bind {St O} : MBind (handler St O) := fun A B f m s =>
  match m s with
  | Ret (a, s, o) => match f a s with Ret (b, s, o') => Ret (b, s, o ++ o') | Err e => Err e end
  | Err e => Err e
  end.

Section handlers.
Context {St O : Type}.
Abbreviation M := (handler St O).

Definition ret {A} (a : A) : M A := mret a.
Definition lift {A} (r : res A) : M A := fun s => match r with Ret a => Ret (a, s, []) | Err e => Err e end.
Definition get : M St := fun s => Ret (s, s, []).
Definition put (s : St) : M unit := fun _ => Ret (tt, s, []).
Definition emit (o : O) : M unit := fun s => Ret (tt, s, [o]).
Definition emit_all (l : list O) : M unit := fun s => Ret (tt, s, l).
Definition check (b : bool) : M unit := lift (cassert b).

(** Every completed run of [m] from [s] ends in [Phi]. *)
Definition wp {A} (m : M A) (Phi : A -> St -> Prop) (s : St) : Prop := forall a s' o, m s = Ret (a, s', o) -> Phi a s'.

Lemma wp_ret {A} (a : A) Phi s : Phi a s -> wp (ret a) Phi s.
Proof. by intros H ? ? ? [= <- <- <-]. Qed.
Lemma wp_lift {A} (r : res A) Phi s : (forall a, r = Ret a -> Phi a s) -> wp (lift r) Phi s.
Proof. intros H a s' o. unfold lift. destruct r eqn:E; [|done]. intros [= <- <- <-]. by apply H. Qed.
Lemma wp_get Phi s : Phi s s -> wp get Phi s.
Proof. by intros H ? ? ? [= <- <- <-]. Qed.
Lemma wp_put s' Phi s : Phi tt s' -> wp (put s') Phi s.
Proof. by intros H ? ? ? [= <- <- <-]. Qed.
Lemma wp_emit x Phi s : Phi tt s -> wp (emit x) Phi s.
Proof. by intros H ? ? ? [= <- <- <-]. Qed.
Lemma wp_emit_all x Phi s : Phi tt s -> wp (emit_all x) Phi s.
Proof. by intros H ? ? ? [= <- <- <-]. Qed.
Lemma wp_check b Phi s : (b = true -> Phi tt s) -> wp (check b) Phi s.
Proof. intros H. apply wp_lift. intros [] E. apply H. by apply cassert_Ret in E. Qed.
Lemma wp_bind {A B} (m : M A) (f : A -> M B) Phi s : wp m (fun a s' => wp (f a) Phi s') s -> wp (mbind f m) Phi s.
Proof.
  intros H b s' o. unfold mbind, handler_bind. destruct (m s) as [[[a s1] o1]|] eqn:E; [|done]. destruct (f a s1) as [[[b' s2] o2]|] eqn:E2; [|done].
  intros [= <- <- <-]. by eapply H.
Qed.
Lemma wp_mono {A} (m : M A) (Phi Psi : A -> St -> Prop) s : wp m Phi s -> (forall a s', Phi a s' -> Psi a s') -> wp m Psi s.
Proof. intros H HP a s' o E. apply HP. by eapply H. Qed.
Lemma wp_any {A} (m : M A) Phi s : (forall a s', Phi a s') -> wp m Phi s.
Proof. intros H a s' o _. apply H. Qed.

(** Only the state in which a continuation runs matters. *)
Lemma bind_ext {A B} (m : M A) (f g : A -> M B) s : (forall a s' o, m s = Ret (a, s', o) -> f a s' = g a s') -> mbind f m s = mbind g m s.
Proof. intros H. unfold mbind, handler_bind. destruct (m s) as [[[a s'] o]|] eqn:E; [|done]. by rewrite (H _ _ _ eq_refl). Qed.

(** Binds from the left, as equations: what a handler does when its first part is known. *)
Lemma bind_done {A B} (m : M A) (f : A -> M B) s a s' o : m s = Ret (a, s', o) ->
  mbind f m s = match f a s' with Ret (b, s2, o') => Ret (b, s2, o ++ o') | Err e => Err e end.
Proof. intros E. unfold mbind, handler_bind. by rewrite E. Qed.

(** Completed runs, taken apart: with the calls that were made. *)
Lemma bind_run {A B} (m : M A) (f : A -> M B) s b s' o : mbind f m s = Ret (b, s', o) ->
  exists a s1 o1 o2, m s = Ret (a, s1, o1) /\ f a s1 = Ret (b, s', o2) /\ o = o1 ++ o2.
Proof.
  unfold mbind, handler_bind. destruct (m s) as [[[a s1] o1]|] eqn:E; [|done]. destruct (f a s1) as [[[b' s2] o2]|] eqn:E2; [|done].
  intros [= <- <- <-]. by exists a, s1, o1, o2.
Qed.
Lemma lift_run {A} (r : res A) s a s' o : lift r s = Ret (a, s', o) -> r = Ret a /\ s' = s /\ o = [].
Proof. unfold lift. destruct r; [|done]. by intros [= -> -> ->]. Qed.
End handlers.

(** One construct of a handler. *)
Ltac wstep :=
  lazymatch goal with
  | |- wp (mbind _ _) _ _ => apply wp_bind
  | |- wp (ret _) _ _ => apply wp_ret
  | |- wp get _ _ => apply wp_get
  | |- wp (put _) _ _ => apply wp_put
  | |- wp (emit _) _ _ => apply wp_emit
  | |- wp (emit_all _) _ _ => apply wp_emit_all
  | |- wp (check _) _ _ => apply wp_check; intros ?
  | |- wp (lift _) _ _ => apply wp_lift; intros ? ?
  | |- wp (let '_ := ?x in _) _ _ => destruct x eqn:?
  | |- wp (if ?b then _ else _) _ _ => destruct b eqn:?
  end.
