(* ===== verification/IntMath.v ===== *)
(** * Integer helpers: [base/intmath.hh], [base/intmath.cc], [base/bitfield.hh]

    Powers of two, logarithms, alignment, the primality helpers and the bit
    field accessors every other component indexes with.  The templates are
    modelled at an explicit width [w] of an unsigned type; the primality
    helpers at C++ [int], with its overflow. *)

From Stdlib Require Import Znumtheory.
From S2P Require Import Prelude.
Local Open Scope Z_scope.

(** ** [base/intmath.hh] *)

(** The loop of [isPrime]: [for (i = 5; i*i <= n; i += 6)], at type [int].
    [i*i] is evaluated before it is compared, so it may overflow. *)
Fixpoint isPrime_loop (fuel : nat) (n i : Z) : res bool :=
  match fuel with
  | O => Ret true
  | S fuel =>
      if 2 ^ 31 <=? i * i then Err SignedOverflow
      else if i * i <=? n then
        if (Z.rem n i =? 0) || (Z.rem n (i + 2) =? 0) then Ret false
        else isPrime_loop fuel n (i + 6)
      else Ret true
  end.

(** One more iteration than [n] always reaches the exit test. *)
Definition isPrime (n : Z) : res bool :=
  if (n =? 2) || (n =? 3) then Ret true
  else isPrime_loop (S (Z.to_nat n)) n 5.

(** The loop of [prevPrime]. *)
Fixpoint prevPrime_loop (fuel : nat) (n decr : Z) : res Z :=
  match fuel with
  | O => Ret n
  | S fuel =>
      p ← isPrime n;
      if (p : bool) then Ret n else prevPrime_loop fuel (n - decr) (6 - decr)
  end.

Definition prevPrime (n : Z) : res Z :=
  if n =? - 2 ^ 31 then Err SignedOverflow else
  let n := if Z.land n 1 =? 0 then n - 1 else n in
  let decr := Z.rem n 3 in
  let '(n, decr) :=
    if decr =? 0 then (n - 2, 2)
    else if decr =? 1 then (n, 4) else (n, decr) in
  prevPrime_loop (S (Z.to_nat n)) n decr.

Definition leastSigBit (w n : Z) : Z := Z.land n (wnot w (wrap w (n - 1))).

Definition isPowerOf2 (w n : Z) : bool :=
  negb (n =? 0) && (leastSigBit w n =? n).

(** The multiplication loop of [power]; the overflow test only warns. *)
Fixpoint power_loop (k : nat) (n result : Z) : Z :=
  match k with
  | O => result
  | S k => power_loop k n (u64 (result * n))
  end.

Definition power (n e : Z) : Z :=
  if e =? 0 then 1 else power_loop (Z.to_nat (e - 1)) n n.

(** One line [if (x & m) { y += k; x >>= k; }] of [floorLog2]. *)
Definition log2_step (m k : Z) (s : Z * Z) : Z * Z :=
  let '(y, x) := s in
  if Z.land x m =? 0 then (y, x) else (y + k, Z.shiftr x k).

(** [floorLog2(unsigned)] *)
Definition floorLog2_u32 (x : Z) : res Z :=
  _ ← cassert (0 <? x);
  let s := (0, x) in
  let s := log2_step 0xffff0000 16 s in
  let s := log2_step 0x0000ff00 8 s in
  let s := log2_step 0x000000f0 4 s in
  let s := log2_step 0x0000000c 2 s in
  let '(y, x) := s in
  Ret (if Z.land x 0x00000002 =? 0 then y else y + 1).

(** [floorLog2(unsigned long)] on LP64 and [floorLog2(unsigned long long)] *)
Definition floorLog2_u64 (x : Z) : res Z :=
  _ ← cassert (0 <? x);
  let s := (0, x) in
  let s := log2_step 0xffffffff00000000 32 s in
  let s := log2_step 0x00000000ffff0000 16 s in
  let s := log2_step 0x000000000000ff00 8 s in
  let s := log2_step 0x00000000000000f0 4 s in
  let s := log2_step 0x000000000000000c 2 s in
  let '(y, x) := s in
  Ret (if Z.land x 0x0000000000000002 =? 0 then y else y + 1).

(** [floorLog2(int)] and [floorLog2(long)]: the assertion is made on the
    signed value before the conversion. *)
Definition floorLog2_s32 (x : Z) : res Z :=
  _ ← cassert (0 <? x); floorLog2_u32 (u32 x).

Definition floorLog2_s64 (x : Z) : res Z :=
  _ ← cassert (0 <? x); floorLog2_u64 (u64 x).

(** [ceilLog2], [floorPow2], [ceilPow2] at [uint64_t]. *)
Definition ceilLog2 (n : Z) : res Z :=
  if n =? 1 then Ret 0
  else y ← floorLog2_u64 (u64 (n - 1)); Ret (y + 1).

Definition floorPow2 (n : Z) : res Z :=
  y ← floorLog2_u64 n; Ret (u64 (Z.shiftl 1 y)).

Definition ceilPow2 (n : Z) : res Z :=
  y ← ceilLog2 n; Ret (u64 (Z.shiftl 1 y)).

Definition divCeil (w a b : Z) : res Z :=
  if b =? 0 then Err DivByZero else Ret (wrap w (wrap w (a + b) - 1) / b).

Definition roundUp (w val align : Z) : Z :=
  let mask := wrap w (align - 1) in
  Z.land (wrap w (val + mask)) (wnot w mask).

Definition roundDown (w val align : Z) : Z :=
  let mask := wrap w (align - 1) in
  Z.land val (wnot w mask).

(** Characters are their codes. *)
Definition isHex (c : Z) : bool :=
  ((48 <=? c) && (c <=? 57)) || ((65 <=? c) && (c <=? 70))
  || ((97 <=? c) && (c <=? 102)).

Definition isOct (c : Z) : bool := (48 <=? c) && (c <=? 55).

Definition isDec (c : Z) : bool := (48 <=? c) && (c <=? 57).

Definition hex2Int (c : Z) : Z :=
  if (48 <=? c) && (c <=? 57) then c - 48
  else if (65 <=? c) && (c <=? 70) then c - 65 + 10
  else if (97 <=? c) && (c <=? 102) then c - 97 + 10
  else 0.

(** ** [base/bitfield.hh] *)

Definition mask (nbits : Z) : Z :=
  if nbits =? 64 then 2 ^ 64 - 1 else u64 (u64 (Z.shiftl 1 nbits) - 1).

Definition bits (val first last : Z) : Z :=
  let nbits := first - last + 1 in
  Z.land (Z.shiftr val last) (mask nbits).

(** Overload for a single bit. *)
Definition bits1 (val bit : Z) : Z := bits val bit bit.

Definition mbits (val first last : Z) : Z :=
  Z.land val (Z.land (mask (first + 1)) (wnot 64 (mask last))).

(** [mask(first, last)] *)
Definition mask_range (first last : Z) : Z := mbits (2 ^ 64 - 1) first last.

Definition sext (N val : Z) : Z :=
  if bits val (N - 1) (N - 1) =? 0 then val else Z.lor val (wnot 64 (mask N)).

(** [insertBits] at a [w]-bit type [T]. *)
Definition insertBits (w val first last bit_val : Z) : Z :=
  let t_bit_val := wrap w bit_val in
  let bmask := wrap w (u64 (Z.shiftl (mask (first - last + 1)) last)) in
  Z.lor (Z.land (wrap w (Z.shiftl t_bit_val last)) bmask)
        (Z.land val (wnot w bmask)).

Definition insertBits1 (w val bit bit_val : Z) : Z :=
  insertBits w val bit bit bit_val.

(** One line [if (bits(val, hi, lo)) { msb += k; val >>= k; }]. *)
Definition msb_step (hi lo k : Z) (s : Z * Z) : Z * Z :=
  let '(msb, val) := s in
  if bits val hi lo =? 0 then (msb, val) else (msb + k, Z.shiftr val k).

Definition findMsbSet (val : Z) : Z :=
  if val =? 0 then 0
  else
    let s := (0, val) in
    let s := msb_step 63 32 32 s in
    let s := msb_step 31 16 16 s in
    let s := msb_step 15 8 8 s in
    let s := msb_step 7 4 4 s in
    let s := msb_step 3 2 2 s in
    let '(msb, val) := s in
    if bits val 1 1 =? 0 then msb else msb + 1.

(** One line [if (!bits(val, k-1, 0)) { lsb += k; val >>= k; }]. *)
Definition lsb_step (k : Z) (s : Z * Z) : Z * Z :=
  let '(lsb, val) := s in
  if bits val (k - 1) 0 =? 0 then (lsb + k, Z.shiftr val k) else (lsb, val).

Definition findLsbSet (val : Z) : Z :=
  if val =? 0 then 64
  else
    let s := (0, val) in
    let s := lsb_step 32 s in
    let s := lsb_step 16 s in
    let s := lsb_step 8 s in
    let s := lsb_step 4 s in
    let s := lsb_step 2 s in
    let '(lsb, val) := s in
    if bits val 0 0 =? 0 then lsb + 1 else lsb.

Definition isPow2 (w v : Z) : bool := Z.land v (wrap w (v - 1)) =? 0.

(** ** Powers of two and logarithms *)

Lemma log2_step_spec lo k m y x :
  0 < k -> m = Z.shiftl (Z.ones k) k -> lo = 2 * k ->
  0 < x < 2 ^ lo ->
  let '(y', x') := log2_step m k (y, x) in
  y' + Z.log2 x' = y + Z.log2 x /\ 0 < x' < 2 ^ k.
Proof.
  intros Hk -> -> Hx. cbn [log2_step].
  assert (Hr : Z.land x (Z.shiftl (Z.ones k) k) = Z.shiftl (Z.shiftr x k) k).
  { apply Z.bits_inj'. intros i Hi.
    rewrite Z.land_spec, !Z.shiftl_spec by done.
    destruct (Z.lt_ge_cases i k).
    - rewrite !(Z.testbit_neg_r _ (i - k)) by lia. by rewrite andb_false_r.
    - rewrite Z.shiftr_spec by lia. replace (i - k + k) with i by lia.
      destruct (Z.lt_ge_cases i (2 * k)).
      + rewrite Z.ones_spec_low by lia. apply andb_true_r.
      + rewrite (inword_testbit_high (2 * k) x i) by (unfold inword; lia). done. }
  rewrite Hr. clear Hr.
  assert (Hs : Z.shiftr x k = x / 2 ^ k) by (apply Z.shiftr_div_pow2; lia).
  assert (Hp : 0 < 2 ^ k) by (apply pow2_pos; lia).
  destruct (Z.lt_ge_cases x (2 ^ k)) as [Hlt|Hge].
  - rewrite Hs, Z.div_small, Z.shiftl_0_l by lia. cbn. lia.
  - assert (1 <= Z.shiftr x k).
    { rewrite Hs. apply Z.div_le_lower_bound; lia. }
    assert (Z.shiftr x k < 2 ^ k).
    { rewrite Hs. apply Z.div_lt_upper_bound; [lia|].
      rewrite <- Z.pow_add_r by lia. replace (k + k) with (2 * k) by lia. lia. }
    destruct (Z.eqb_spec (Z.shiftl (Z.shiftr x k) k) 0) as [E|_].
    { apply Z.shiftl_eq_0_iff in E; lia. }
    rewrite Z.log2_shiftr by lia.
    assert (k <= Z.log2 x) by (apply Z.log2_le_pow2; lia). lia.
Qed.

(** Folds the lemma over the chain of steps, then the last one-bit step. *)
Ltac log2_chain :=
  repeat match goal with
  | Hx : 0 < ?x < 2 ^ ?lo |- context [log2_step ?m ?k (?y, ?x)] =>
      let H := fresh "Hstep" in
      pose proof (log2_step_spec lo k m y x ltac:(lia) eq_refl eq_refl Hx) as H;
      destruct (log2_step m k (y, x)) as [? ?]; destruct H as [? ?]; clear Hx
  end.

Lemma log2_last y x :
  0 < x < 2 ^ 2 -> (if Z.land x 2 =? 0 then y else y + 1) = y + Z.log2 x.
Proof.
  intros. assert (x = 1 \/ x = 2 \/ x = 3) as [->|[->| ->]] by lia.
  - change (Z.land 1 2 =? 0) with true. change (Z.log2 1) with 0. cbn. lia.
  - done.
  - done.
Qed.

Lemma floorLog2_u32_log2 x :
  0 < x < 2 ^ 32 -> floorLog2_u32 x = Ret (Z.log2 x).
Proof.
  intros Hx. unfold floorLog2_u32. rewrite cassert_true by lia. cbn zeta.
  change (mbind ?f (Ret tt)) with (f tt). cbn beta.
  log2_chain. f_equal. rewrite log2_last by lia. lia.
Qed.

Lemma floorLog2_u64_log2 x :
  0 < x < 2 ^ 64 -> floorLog2_u64 x = Ret (Z.log2 x).
Proof.
  intros Hx. unfold floorLog2_u64. rewrite cassert_true by lia. cbn zeta.
  change (mbind ?f (Ret tt)) with (f tt). cbn beta.
  log2_chain. f_equal. rewrite log2_last by lia. lia.
Qed.

(** ** Primality *)

Lemma mod6_next i j : i mod 6 = 5 -> j mod 6 = 5 -> i <= j -> i <> j -> i + 6 <= j.
Proof. intros. Z.div_mod_to_equations; lia. Qed.

Lemma isPrime_loop_spec fuel n i :
  5 <= i -> i mod 6 = 5 -> i <= 46337 \/ n < i * i -> n < 46337 * 46337 ->
  n < i + 6 * Z.of_nat fuel ->
  (i = 5 \/ (i - 6) * (i - 6) <= n) ->
  exists b, isPrime_loop fuel n i = Ret b /\
    (b = false <-> exists j, i <= j /\ j mod 6 = 5 /\ j * j <= n /\
                     (n mod j = 0 \/ n mod (j + 2) = 0)).
Proof.
  revert i. induction fuel as [|fuel IH]; intros i Hi Hmod Hov Hn Hfuel Hprev; cbn.
  { exists true. split; [done|]. split; [done|]. intros (j & ? & ? & ? & _). nia. }
  destruct (Z.leb_spec (2 ^ 31) (i * i)) as [Hbig|Hsmall].
  { exfalso. destruct Hprev as [->|Hprev]; [lia|].
    assert (i - 6 < 46337) by nia.
    assert (i <= 46337) by (Z.div_mod_to_equations; lia). nia. }
  destruct (Z.leb_spec (i * i) n) as [Hin|Hout].
  2:{ exists true. split; [done|]. split; [done|]. intros (j & ? & ? & ? & _). nia. }
  rewrite !Z.rem_mod_nonneg by lia.
  destruct ((n mod i =? 0) || (n mod (i + 2) =? 0)) eqn:E; reflect.
  - exists false. split; [done|]. split; [|done]. intros _. exists i.
    repeat split; lia.
  - assert ((i + 6) mod 6 = 5) by (Z.div_mod_to_equations; lia).
    assert (i + 6 <= 46337 \/ n < (i + 6) * (i + 6)) by nia.
    destruct (IH (i + 6)) as (b & Hb & Hspec); try lia.
    exists b. split; [done|]. rewrite Hspec. split.
    + intros (j & ? & ?). exists j. split; [lia|done].
    + intros (j & Hij & Hj & ? & Hdiv). exists j. split; [|done].
      destruct (Z.eq_dec i j) as [->|]; [lia|]. by apply mod6_next.
Qed.

(** A composite has a proper divisor no larger than its square root. *)
Lemma composite_small_divisor n :
  1 < n -> ~ prime n -> exists e, 1 < e /\ (e | n) /\ e * e <= n.
Proof.
  intros Hn Hnp.
  destruct (not_prime_divide n ltac:(lia) Hnp) as (d & Hd & c & Hc).
  destruct (Z.le_gt_cases (d * d) n).
  - exists d. repeat split; try lia. by exists c.
  - exists c. repeat split; try nia. exists d. lia.
Qed.

Lemma divisor_not_prime n d : 1 < d < n -> n mod d = 0 -> ~ prime n.
Proof.
  intros Hd Hmod Hp. apply Z.mod_divide in Hmod; [|lia].
  destruct Hp as [_ Hp]. destruct (Hp d ltac:(lia)) as [_ _ Hgcd].
  assert (d | 1) as H1 by (apply Hgcd; [reflexivity|done]).
  apply Z.divide_pos_le in H1; lia.
Qed.

Lemma coprime6_divisor n e :
  n mod 2 <> 0 -> n mod 3 <> 0 -> (e | n) -> 1 < e ->
  5 <= e /\ (e mod 6 = 1 \/ e mod 6 = 5).
Proof.
  intros H2 H3 [c ->] He.
  assert (e mod 2 <> 0).
  { intros E. apply H2. rewrite Z.mul_mod, E, Z.mul_0_r by lia. done. }
  assert (e mod 3 <> 0).
  { intros E. apply H3. rewrite Z.mul_mod, E, Z.mul_0_r by lia. done. }
  Z.div_mod_to_equations; lia.
Qed.

Lemma isPrime_coprime6 n :
  5 <= n < 46337 * 46337 -> n mod 2 <> 0 -> n mod 3 <> 0 ->
  exists b, isPrime n = Ret b /\ (b = true <-> prime n).
Proof.
  intros Hn H2 H3. unfold isPrime.
  destruct (Z.eqb_spec n 2), (Z.eqb_spec n 3); try lia. cbn [orb].
  destruct (isPrime_loop_spec (S (Z.to_nat n)) n 5) as (b & -> & Hb); try lia.
  { done. }
  exists b. split; [done|]. destruct b.
  - split; [|done]. intros _. destruct (prime_dec n) as [|Hnp]; [done|exfalso].
    destruct (composite_small_divisor n ltac:(lia) Hnp) as (e & He & Hen & Hee).
    destruct (coprime6_divisor n e H2 H3 Hen He) as [? Hmod].
    assert (n mod e = 0) by (apply Z.mod_divide; [lia|done]).
    destruct Hb as [_ Hb]. discriminate Hb.
    destruct Hmod as [Hmod|Hmod].
    + exists (e - 2). replace (e - 2 + 2) with e by lia.
      repeat split; try nia; Z.div_mod_to_equations; lia.
    + exists e. repeat split; try lia; auto.
  - split; [done|]. intros Hp. destruct (proj1 Hb eq_refl) as (j & ? & ? & ? & Hdiv).
    destruct Hdiv as [Hdiv|Hdiv]; apply divisor_not_prime in Hdiv; [done|nia|done|nia].
Qed.

(** ** Words as bit vectors *)

Lemma wnot_testbit w x i :
  0 <= w -> 0 <= i -> Z.testbit (wnot w x) i = negb (Z.testbit x i) && (i <? w).
Proof.
  intros. unfold wnot. rewrite wrap_testbit by done. by rewrite Z.lnot_spec by done.
Qed.

Lemma mask_ones nbits : 0 <= nbits <= 64 -> mask nbits = Z.ones nbits.
Proof.
  intros. unfold mask. rewrite Z.ones_equiv.
  destruct (Z.eqb_spec nbits 64) as [->|]; [done|].
  rewrite Z.shiftl_1_l.
  pose proof (Z.pow_lt_mono_r 2 nbits 64). pose proof (pow2_pos nbits).
  rewrite (wrap_small 64 (2 ^ nbits)) by word_lia.
  rewrite wrap_small by word_lia. lia.
Qed.

Lemma ones_testbit n i : 0 <= n -> 0 <= i -> Z.testbit (Z.ones n) i = (i <? n).
Proof.
  intros. destruct (Z.ltb_spec i n).
  - apply Z.ones_spec_low. lia.
  - apply Z.ones_spec_high. lia.
Qed.

Lemma bits_testbit val first last i :
  0 <= last <= first -> first < 64 -> 0 <= i ->
  Z.testbit (bits val first last) i = Z.testbit val (i + last) && (i <? first - last + 1).
Proof.
  intros. unfold bits. rewrite mask_ones by lia.
  rewrite Z.land_spec, Z.shiftr_spec, ones_testbit by lia. done.
Qed.

Lemma bits_div_mod val first last :
  0 <= last <= first -> first < 64 ->
  bits val first last = (val / 2 ^ last) mod 2 ^ (first - last + 1).
Proof.
  intros. unfold bits. rewrite mask_ones by lia.
  rewrite Z.land_ones, Z.shiftr_div_pow2 by lia. done.
Qed.

Lemma insertBits_testbit w val first last bit_val i :
  0 <= last <= first -> first < w -> w <= 64 -> inword w val -> 0 <= i ->
  Z.testbit (insertBits w val first last bit_val) i =
  if (last <=? i) && (i <=? first) then Z.testbit bit_val (i - last)
  else Z.testbit val i.
Proof.
  intros Hl Hf Hw Hval Hi. unfold insertBits. rewrite mask_ones by lia.
  rewrite Z.lor_spec, !Z.land_spec, wnot_testbit, !wrap_testbit,
    !Z.shiftl_spec by lia.
  destruct (Z.ltb_spec i w) as [Hiw|Hiw].
  2:{ rewrite (inword_testbit_high w val i) by word_lia.
      destruct (Z.leb_spec i first); [lia|]. by rewrite !andb_false_r. }
  destruct (Z.ltb_spec i 64); [|lia]. rewrite !andb_true_r.
  destruct (Z.leb_spec last i) as [Hli|Hli]; cbn [andb].
  - rewrite wrap_testbit, ones_testbit by lia.
    destruct (Z.ltb_spec (i - last) w); [|lia].
    destruct (Z.ltb_spec (i - last) (first - last + 1)), (Z.leb_spec i first);
      try lia; by rewrite ?andb_true_r, ?andb_false_r, ?orb_false_r.
  - rewrite !(Z.testbit_neg_r _ (i - last)) by lia. cbn. by rewrite andb_true_r.
Qed.

(** Reading the field just written gives the value written, at the width of
    the field. *)
Lemma bits_insertBits_same w val first last bit_val :
  0 <= last <= first -> first < w -> w <= 64 -> inword w val ->
  bits (insertBits w val first last bit_val) first last =
  bit_val mod 2 ^ (first - last + 1).
Proof.
  intros. apply Z.bits_inj'. intros i Hi.
  rewrite bits_testbit, insertBits_testbit by word_lia.
  fold (wrap (first - last + 1) bit_val). rewrite wrap_testbit by lia.
  replace (i + last - last) with i by lia.
  destruct (Z.leb_spec last (i + last)), (Z.leb_spec (i + last) first),
    (Z.ltb_spec i (first - last + 1)); try lia; cbn; by rewrite ?andb_false_r.
Qed.

(** A field disjoint from the one written is unchanged. *)
Lemma bits_insertBits_other w val first last bit_val f l :
  0 <= last <= first -> first < w -> w <= 64 -> inword w val ->
  0 <= l <= f -> f < 64 -> f < last \/ first < l ->
  bits (insertBits w val first last bit_val) f l = bits val f l.
Proof.
  intros. apply Z.bits_inj'. intros i Hi.
  rewrite !bits_testbit, insertBits_testbit by word_lia.
  destruct (Z.ltb_spec i (f - l + 1)); [|by rewrite !andb_false_r].
  destruct (Z.leb_spec last (i + l)), (Z.leb_spec (i + l) first); try lia; done.
Qed.

(** ** Alignment *)

Lemma land_wnot_mask w val k :
  0 <= k <= w -> inword w val ->
  Z.land val (wnot w (2 ^ k - 1)) = val - val mod 2 ^ k.
Proof.
  intros Hk Hval.
  rewrite (Z.div_mod val (2 ^ k)) at 2 by (apply Z.pow_nonzero; lia).
  replace (2 ^ k * (val / 2 ^ k) + val mod 2 ^ k - val mod 2 ^ k)
    with (val / 2 ^ k * 2 ^ k) by ring.
  rewrite <- Z.shiftl_mul_pow2, <- Z.shiftr_div_pow2 by lia.
  replace (2 ^ k - 1) with (Z.ones k) by (rewrite Z.ones_equiv; lia).
  apply Z.bits_inj'. intros i Hi.
  rewrite Z.land_spec, wnot_testbit, ones_testbit, Z.shiftl_spec by lia.
  destruct (Z.ltb_spec i k).
  - rewrite (Z.testbit_neg_r _ (i - k)) by lia. by rewrite andb_false_r.
  - rewrite Z.shiftr_spec by lia. replace (i - k + k) with i by lia. cbn.
    destruct (Z.ltb_spec i w); [by rewrite andb_true_r|].
    by rewrite (inword_testbit_high w val i) by word_lia.
Qed.

Lemma roundDown_pow2 w val k :
  0 <= k <= w -> inword w val ->
  roundDown w val (2 ^ k) = val - val mod 2 ^ k.
Proof.
  intros. unfold roundDown. pose proof (pow2_pos k).
  pose proof (Z.pow_le_mono_r 2 k w).
  rewrite (wrap_small w (2 ^ k - 1)) by word_lia.
  by apply land_wnot_mask.
Qed.

Lemma roundUp_pow2 w val k :
  0 <= k <= w -> inword w val -> inword w (val + (2 ^ k - 1)) ->
  roundUp w val (2 ^ k) = (val + (2 ^ k - 1)) - (val + (2 ^ k - 1)) mod 2 ^ k.
Proof.
  intros. unfold roundUp. pose proof (pow2_pos k).
  pose proof (Z.pow_le_mono_r 2 k w).
  rewrite (wrap_small w (2 ^ k - 1)) by word_lia.
  rewrite (wrap_small w (val + _)) by done. by apply land_wnot_mask.
Qed.

(** ** Powers of two *)

(** Unless [n] is a power of two, its top bit is also set in [n - 1]. *)
Lemma pred_top_bit n :
  0 < n -> n = 2 ^ Z.log2 n \/ Z.testbit (n - 1) (Z.log2 n) = true.
Proof.
  intros Hn. destruct (Z.eq_dec n (2 ^ Z.log2 n)) as [|Hne]; [by left|right].
  pose proof (Z.log2_spec n Hn) as [Hlo Hhi].
  assert (Z.log2 (n - 1) = Z.log2 n) as <-.
  { apply Z.log2_unique; [apply Z.log2_nonneg|lia]. }
  apply Z.bit_log2. pose proof (pow2_pos (Z.log2 n) (Z.log2_nonneg n)). lia.
Qed.

Lemma wrap_pred_small w n : inword w n -> n <> 0 -> wrap w (n - 1) = n - 1.
Proof. intros. apply wrap_small. word_lia. Qed.

Lemma isPowerOf2_spec w n :
  0 <= w -> inword w n ->
  isPowerOf2 w n = true <-> exists k, 0 <= k < w /\ n = 2 ^ k.
Proof.
  intros Hw Hn. unfold isPowerOf2, leastSigBit. split.
  - intros Ht. reflect. rewrite wrap_pred_small in * by done.
    exists (Z.log2 n). assert (0 < n) by word_lia.
    assert (Z.log2 n < w) by (apply Z.log2_lt_pow2; word_lia).
    split; [pose proof (Z.log2_nonneg n); lia|].
    destruct (pred_top_bit n) as [|Hbit]; [done..|exfalso].
    rename select (Z.land _ _ = n) into Heq.
    pose proof (Z.bit_log2 n ltac:(lia)) as Hb. rewrite <- Heq in Hb at 1.
    rewrite Z.land_spec, wnot_testbit, Hbit in Hb
      by (done || apply Z.log2_nonneg). by rewrite andb_false_r in Hb.
  - intros (k & Hk & ->). pose proof (pow2_pos k).
    rewrite wrap_pred_small, land_wnot_mask by (done || lia).
    rewrite Z.mod_same, Z.sub_0_r, Z.eqb_refl by lia.
    by destruct (Z.eqb_spec (2 ^ k) 0); [lia|].
Qed.

Lemma isPow2_spec w v :
  0 <= w -> inword w v ->
  isPow2 w v = true <-> v = 0 \/ exists k, 0 <= k < w /\ v = 2 ^ k.
Proof.
  intros Hw Hv. unfold isPow2. split.
  - intros Ht. reflect. destruct (Z.eq_dec v 0) as [|Hv0]; [by left|right].
    rewrite wrap_pred_small in Ht by done. assert (0 < v) by word_lia.
    exists (Z.log2 v). assert (Z.log2 v < w) by (apply Z.log2_lt_pow2; word_lia).
    split; [pose proof (Z.log2_nonneg v); lia|].
    destruct (pred_top_bit v) as [|Hbit]; [done..|exfalso].
    assert (Z.testbit 0 (Z.log2 v) = true) as Hb.
    { rewrite <- Ht, Z.land_spec, Hbit, Z.bit_log2 by done. done. }
    by rewrite Z.testbit_0_l in Hb.
  - intros [->|(k & Hk & ->)]; [done|]. pose proof (pow2_pos k).
    rewrite wrap_pred_small by (done || lia).
    replace (2 ^ k - 1) with (Z.ones k) by (rewrite Z.ones_equiv; lia).
    rewrite Z.land_ones, Z.mod_same by lia. done.
Qed.

(** ** First and last set bits *)

Lemma msb_step_spec k msb val :
  0 < k -> 2 * k <= 64 -> 0 < val < 2 ^ (2 * k) ->
  let '(msb', val') := msb_step (2 * k - 1) k k (msb, val) in
  msb' + Z.log2 val' = msb + Z.log2 val /\ 0 < val' < 2 ^ k.
Proof.
  intros Hk Hk2 Hval. cbn [msb_step].
  pose proof (log2_step_spec (2 * k) k _ msb val Hk eq_refl eq_refl Hval) as H.
  cbn [log2_step] in H.
  rewrite bits_div_mod by lia. replace (2 * k - 1 - k + 1) with k by lia.
  assert (Hs : Z.shiftr val k = val / 2 ^ k) by (apply Z.shiftr_div_pow2; lia).
  assert (Hp : 0 < 2 ^ k) by (apply pow2_pos; lia).
  assert (val / 2 ^ k < 2 ^ k).
  { apply Z.div_lt_upper_bound; [lia|]. rewrite <- Z.pow_add_r by lia.
    replace (k + k) with (2 * k) by lia. lia. }
  rewrite Z.mod_small by (split; [apply Z.div_pos|]; lia).
  destruct (Z.eqb_spec (val / 2 ^ k) 0) as [E|E].
  - apply Z.div_small_iff in E; lia.
  - assert (2 ^ k <= val).
    { apply Z.nlt_ge. intros ?. apply E, Z.div_small. lia. }
    rewrite Z.log2_shiftr by lia.
    assert (k <= Z.log2 val) by (apply Z.log2_le_pow2; lia).
    rewrite Hs. pose proof (Z.div_pos val (2 ^ k)). lia.
Qed.

Lemma msb_last y x :
  0 < x < 2 ^ 2 -> (if bits x 1 1 =? 0 then y else y + 1) = y + Z.log2 x.
Proof.
  intros. assert (x = 1 \/ x = 2 \/ x = 3) as [->|[->| ->]] by lia.
  - change (bits 1 1 1 =? 0) with true. change (Z.log2 1) with 0. cbn. lia.
  - done.
  - done.
Qed.

Lemma findMsbSet_log2 val :
  0 < val < 2 ^ 64 -> findMsbSet val = Z.log2 val.
Proof.
  intros Hx. unfold findMsbSet. destruct (Z.eqb_spec val 0); [lia|]. cbn zeta.
  repeat match goal with
  | Hx : 0 < ?x < 2 ^ ?lo |- context [msb_step ?hi ?k ?k (?y, ?x)] =>
      let H := fresh "Hstep" in
      pose proof (msb_step_spec k y x ltac:(lia) ltac:(lia) Hx) as H;
      change (2 * k - 1) with hi in H;
      destruct (msb_step hi k k (y, x)) as [? ?]; destruct H as [? ?]; clear Hx
  end.
  rewrite msb_last by done. lia.
Qed.

Lemma lsb_step_spec k lsb val :
  0 < k -> k < 64 -> 0 <= lsb -> val mod 2 ^ (2 * k) <> 0 ->
  let '(lsb', val') := lsb_step k (lsb, val) in
  val' * 2 ^ lsb' = val * 2 ^ lsb /\ 0 <= lsb' /\ val' mod 2 ^ k <> 0.
Proof.
  intros Hk Hk64 Hlsb Hval. cbn [lsb_step].
  assert (Hp : 0 < 2 ^ k) by (apply pow2_pos; lia).
  rewrite bits_div_mod by lia.
  replace (k - 1 - 0 + 1) with k by lia. rewrite Z.pow_0_r, Z.div_1_r.
  destruct (Z.eqb_spec (val mod 2 ^ k) 0) as [E|E]; [|lia].
  rewrite Z.shiftr_div_pow2, Z.pow_add_r by lia.
  assert (val = 2 ^ k * (val / 2 ^ k)) as Hv by (apply Z_div_exact_full_2; lia).
  repeat split; [rewrite Hv at 2; ring|lia|].
  intros E'. apply Hval. rewrite Hv.
  replace (2 * k) with (k + k) by lia. rewrite Z.pow_add_r by lia.
  rewrite Z.mul_mod_distr_l, E' by lia. lia.
Qed.

Lemma lsb_last lsb val :
  0 <= lsb -> val mod 2 ^ 2 <> 0 ->
  exists odd, val * 2 ^ lsb = odd * 2 ^ (if bits val 0 0 =? 0 then lsb + 1 else lsb)
    /\ odd mod 2 <> 0.
Proof.
  intros Hl Hval. pose proof (lsb_step_spec 1 lsb val ltac:(lia) ltac:(lia) Hl Hval) as H.
  cbn [lsb_step] in H. change (1 - 1) with 0 in H.
  destruct (Z.eqb_spec (bits val 0 0) 0); destruct H as (? & _ & ?); by eexists.
Qed.

Lemma findLsbSet_spec val :
  0 < val < 2 ^ 64 -> exists odd, val = odd * 2 ^ findLsbSet val /\ odd mod 2 <> 0.
Proof.
  intros Hx. unfold findLsbSet. destruct (Z.eqb_spec val 0); [lia|]. cbn zeta.
  assert (H0 : val mod 2 ^ (2 * 32) <> 0) by (rewrite Z.mod_small; lia).
  assert (Hz : 0 <= 0) by lia.
  repeat match goal with
  | H0 : ?x mod 2 ^ _ <> 0, Hz : 0 <= ?y |- context [lsb_step ?k (?y, ?x)] =>
      let H := fresh "Hstep" in
      pose proof (lsb_step_spec k y x ltac:(lia) ltac:(lia) Hz H0) as H;
      destruct (lsb_step k (y, x)) as [? ?]; destruct H as (? & ? & ?); clear H0
  end.
  match goal with |- context [bits ?v 0 0] =>
    match goal with H : v * 2 ^ ?l = _ |- _ =>
      destruct (lsb_last l v) as (odd & Hodd & ?); [lia|done|] end end.
  exists odd. split; [|done]. rewrite <- Hodd. lia.
Qed.

Lemma ceilLog2_spec n :
  0 < n < 2 ^ 64 -> ceilLog2 n = Ret (Z.log2_up n).
Proof.
  intros. unfold ceilLog2. destruct (Z.eqb_spec n 1) as [->|]; [done|].
  rewrite wrap_small, floorLog2_u64_log2 by word_lia. cbn.
  rewrite (Z.log2_up_eqn n) by lia. done.
Qed.

Lemma power_loop_wrap k n result :
  power_loop k n result = u64 (result * n ^ Z.of_nat k) \/ k = O.
Proof.
  destruct k as [|k]; [by right|left].
  revert result. induction k as [|k IH]; intros result.
  - cbn. by rewrite Z.pow_1_r.
  - change (power_loop (S (S k)) n result) with (power_loop (S k) n (u64 (result * n))).
    rewrite IH. unfold wrap. rewrite Zmult_mod_idemp_l. f_equal.
    rewrite (Nat2Z.inj_succ (S k)), Z.pow_succ_r by lia. ring.
Qed.

(** ** Properties *)

(** [floorLog2] is the base-two logarithm, rounded down, on every
    positive value of its argument type, at both widths and through the
    signed overloads; on zero and on negative values the assertion fails.
    [ceilLog2] is the logarithm rounded up. *)
Theorem floorLog2_correct x :
  (0 < x < 2 ^ 32 -> floorLog2_u32 x = Ret (Z.log2 x)) /\
  (0 < x < 2 ^ 64 -> floorLog2_u64 x = Ret (Z.log2 x)) /\
  (0 < x < 2 ^ 31 -> floorLog2_s32 x = Ret (Z.log2 x)) /\
  (0 < x < 2 ^ 63 -> floorLog2_s64 x = Ret (Z.log2 x)) /\
  (x <= 0 -> floorLog2_u64 x = Err AssertFailed /\ floorLog2_s32 x = Err AssertFailed) /\
  (0 < x < 2 ^ 64 -> ceilLog2 x = Ret (Z.log2_up x)).
Proof.
  split; [apply floorLog2_u32_log2|]. split; [apply floorLog2_u64_log2|].
  split; [|split; [|split; [|apply ceilLog2_spec]]].
  - intros. unfold floorLog2_s32. rewrite cassert_true by lia. cbn.
    rewrite wrap_small by word_lia. apply floorLog2_u32_log2. lia.
  - intros. unfold floorLog2_s64. rewrite cassert_true by lia. cbn.
    rewrite wrap_small by word_lia. apply floorLog2_u64_log2. lia.
  - intros. unfold floorLog2_u64, floorLog2_s32.
    by destruct (Z.ltb_spec 0 x); [lia|].
Qed.

Lemma floorLog2_correct_witness :
  floorLog2_u64 (2 ^ 40 + 5) = Ret 40 /\ ceilLog2 (2 ^ 40 + 5) = Ret 41.
Proof.
  split.
  - apply (floorLog2_correct (2 ^ 40 + 5)). split; reflexivity.
  - apply (floorLog2_correct (2 ^ 40 + 5)). split; reflexivity.
Defined.

(** Writing the bit field [first:last] of a word with [insertBits] and
    reading it back with [bits] gives the value written, truncated to the
    field; every disjoint field keeps its value; and bit by bit the result is
    the new value inside the field and the old word outside it. *)
Theorem insertBits_bits w val first last bit_val :
  0 <= last <= first -> first < w -> w <= 64 -> inword w val ->
  bits (insertBits w val first last bit_val) first last
    = bit_val mod 2 ^ (first - last + 1) /\
  (forall f l, 0 <= l <= f -> f < 64 -> f < last \/ first < l ->
     bits (insertBits w val first last bit_val) f l = bits val f l) /\
  (forall i, 0 <= i ->
     Z.testbit (insertBits w val first last bit_val) i =
     if (last <=? i) && (i <=? first) then Z.testbit bit_val (i - last)
     else Z.testbit val i).
Proof.
  intros. split; [by apply bits_insertBits_same|]. split.
  - intros. by apply bits_insertBits_other.
  - intros. by apply insertBits_testbit.
Qed.

Lemma insertBits_bits_witness :
  bits (insertBits 32 0xdeadbeef 15 8 0x42) 15 8 = 0x42 /\
  bits (insertBits 32 0xdeadbeef 15 8 0x42) 7 0 = 0xef.
Proof.
  destruct (insertBits_bits 32 0xdeadbeef 15 8 0x42) as (E & F & _);
    [lia|lia|lia|unfold inword; lia|].
  split; [exact E|]. rewrite F by lia. reflexivity.
Defined.

(** [isPrime] decides primality on numbers divisible neither by two nor
    by three, up to the bound where its [int] product [i*i] would overflow;
    it never tests those two divisors itself. *)
Theorem isPrime_correct n :
  5 <= n < 46337 * 46337 -> n mod 2 <> 0 -> n mod 3 <> 0 ->
  exists b, isPrime n = Ret b /\ (b = true <-> prime n).
Proof. apply isPrime_coprime6. Qed.

Lemma isPrime_correct_witness : exists b, isPrime 91 = Ret b /\ (b = true <-> prime 91).
Proof. apply (isPrime_correct 91); [lia|discriminate|discriminate]. Defined.

(** [prevPrime], documented to return a prime, returns the composite 21
    on 26: it steps from 25 by 4, onto the multiples of three its comment says
    it avoids, and [isPrime], which skips 2 and 3, accepts 21 (and 4). *)
Theorem prevPrime_composite :
  prevPrime 26 = Ret 21 /\ ~ prime 21 /\ isPrime 4 = Ret true /\ ~ prime 4.
Proof.
  split; [reflexivity|]. split; [apply (divisor_not_prime 21 3); [lia|done]|].
  split; [reflexivity|]. apply (divisor_not_prime 4 2); [lia|done].
Qed.
