(* ===== verification/Clocks.v ===== *)
(** * Clocks: [sim/clocked_object.hh], [sim/clock_domain.hh], [sim/clock_domain.cc],
    [sim/voltage_domain.cc], [sim/dvfs_handler.cc]

    A clocked object remembers the tick and the number of one clock edge and moves
    them forward only when it is asked.  Its period is that of its clock domain;
    source domains choose theirs from a list by their performance level, derived
    domains multiply the period of their parent, and a change is passed down the
    tree after the objects have been aligned.  Objects, domains and voltage
    domains refer to each other by their index in the order of construction. *)

From stdpp Require Import gmap.
From S2P Require Import Prelude IntMath.
Local Open Scope Z_scope.

(** ** Data *)

Record ClockedObject := mkClockedObject { clk_tick : Z; clk_cycle : Z; clockDomain : nat }.

Inductive DomainKind :=
  | SrcClockDomain (freqOpPoints : list Z) (domainID : Z)
  | DerivedClockDomain (parent : nat) (clockDivider : Z).

(** [_perfLevel] has a meaning for source domains only. *)
Record ClockDomain := mkClockDomain {
  _clockPeriod : Z;
  _voltageDomain : nat;
  children : list nat;
  members : list nat;
  dom_kind : DomainKind;
  _perfLevel : Z
}.

(** Voltages are compared and copied only. *)
Record VoltageDomain := mkVoltageDomain {
  voltageOpPoints : list Z;
  v_perfLevel : Z;
  srcClockChildren : list nat
}.

Record Clocks := mkClocks {
  clk_objects : list ClockedObject;
  clk_domains : list ClockDomain;
  clk_voltages : list VoltageDomain
}.

Definition with_objects (w : Clocks) (l : list ClockedObject) : Clocks := mkClocks l (clk_domains w) (clk_voltages w).
Definition with_domains (w : Clocks) (l : list ClockDomain) : Clocks := mkClocks (clk_objects w) l (clk_voltages w).
Definition with_voltages (w : Clocks) (l : list VoltageDomain) : Clocks := mkClocks (clk_objects w) (clk_domains w) l.

Definition set_period (p : Z) (d : ClockDomain) : ClockDomain :=
  mkClockDomain p (_voltageDomain d) (children d) (members d) (dom_kind d) (_perfLevel d).
Definition set_level (l : Z) (d : ClockDomain) : ClockDomain :=
  mkClockDomain (_clockPeriod d) (_voltageDomain d) (children d) (members d) (dom_kind d) l.
Definition add_child (c : nat) (d : ClockDomain) : ClockDomain :=
  mkClockDomain (_clockPeriod d) (_voltageDomain d) (children d ++ [c]) (members d) (dom_kind d) (_perfLevel d).
Definition add_member (o : nat) (d : ClockDomain) : ClockDomain :=
  mkClockDomain (_clockPeriod d) (_voltageDomain d) (children d) (members d ++ [o]) (dom_kind d) (_perfLevel d).

(** ** Clocked objects *)

(** [update()] of an object whose domain has period [clockPeriod]. *)
Definition update (o : ClockedObject) (clockPeriod curTick : Z) : res ClockedObject :=
  if curTick <=? clk_tick o then Ret o
  else
    let o := mkClockedObject (u64 (clk_tick o + clockPeriod)) (u64 (clk_cycle o + 1)) (clockDomain o) in
    if curTick <=? clk_tick o then Ret o
    else
      elapsedCycles ← divCeil 64 (u64 (curTick - clk_tick o)) clockPeriod;
      Ret (mkClockedObject (u64 (clk_tick o + elapsedCycles * clockPeriod)) (u64 (clk_cycle o + elapsedCycles))
             (clockDomain o)).

(** [clockPeriod()] of object [i], and the object. *)
Definition object_period (w : Clocks) (i : nat) : res (ClockedObject * Z) :=
  o ← vread (clk_objects w) i;
  d ← vread (clk_domains w) (clockDomain o);
  Ret (o, _clockPeriod d).

Definition update_object (w : Clocks) (curTick : Z) (i : nat) : res Clocks :=
  '(o, p) ← object_period w i;
  o ← update o p curTick;
  Ret (with_objects w (<[i := o]> (clk_objects w))).

Definition clockEdge (w : Clocks) (curTick : Z) (i : nat) (cycles : Z) : res (Z * Clocks) :=
  w ← update_object w curTick i;
  '(o, p) ← object_period w i;
  Ret (u64 (clk_tick o + p * cycles), w).

Definition curCycle (w : Clocks) (curTick : Z) (i : nat) : res (Z * Clocks) :=
  w ← update_object w curTick i;
  '(o, _) ← object_period w i;
  Ret (clk_cycle o, w).

Definition nextCycle (w : Clocks) (curTick : Z) (i : nat) : res (Z * Clocks) := clockEdge w curTick i 1.

Definition resetClock (w : Clocks) (curTick : Z) (i : nat) : res Clocks :=
  '(o, p) ← object_period w i;
  elapsedCycles ← divCeil 64 curTick p;
  Ret (with_objects w (<[i := mkClockedObject (u64 (elapsedCycles * p)) elapsedCycles (clockDomain o)]> (clk_objects w))).

Definition frequency (Frequency : Z) (w : Clocks) (i : nat) : res Z :=
  '(_, p) ← object_period w i;
  if p =? 0 then Err DivByZero else Ret (Frequency / p).

(** The constructor registers the object with its domain; it is a new object, so
    the assertion that it is not yet registered is the one of the code. *)
Definition registerWithClockDomain (w : Clocks) (d i : nat) : res Clocks :=
  dom ← vread (clk_domains w) d;
  _ ← cassert (bool_decide (i ∉ members dom));
  Ret (with_domains w (<[d := add_member i dom]> (clk_domains w))).

Definition ClockedObject_new (w : Clocks) (clk_domain : nat) : res Clocks :=
  let i := length (clk_objects w) in
  registerWithClockDomain (with_objects w (clk_objects w ++ [mkClockedObject 0 0 clk_domain])) clk_domain i.

(** ** Clock domains *)

(** A loop over the elements of a vector, in order. *)
Fixpoint for_each {A} (f : Clocks -> A -> res Clocks) (w : Clocks) (l : list A) : res Clocks :=
  match l with
  | [] => Ret w
  | x :: l => w ← f w x; for_each f w l
  end.

(** [DerivedClockDomain::updateClockPeriod]; the fuel is the number of domains,
    children being constructed after their parent. *)
Fixpoint updateClockPeriod (fuel : nat) (curTick : Z) (w : Clocks) (d : nat) : res Clocks :=
  match fuel with
  | O => Err OutOfFuel
  | S fuel =>
      dom ← vread (clk_domains w) d;
      w ← for_each (fun w => update_object w curTick) w (members dom);
      match dom_kind dom with
      | SrcClockDomain _ _ => Err AssertFailed
      | DerivedClockDomain parent clockDivider =>
          p ← vread (clk_domains w) parent;
          dom ← vread (clk_domains w) d;
          let w := with_domains w (<[d := set_period (u64 (_clockPeriod p * clockDivider)) dom]> (clk_domains w)) in
          for_each (updateClockPeriod fuel curTick) w (children dom)
      end
  end.

(** [SrcClockDomain::clockPeriod(Tick)] *)
Definition setClockPeriod (w : Clocks) (curTick : Z) (d : nat) (clock_period : Z) : res Clocks :=
  if clock_period =? 0 then Err Fatal
  else
    dom ← vread (clk_domains w) d;
    w ← for_each (fun w => update_object w curTick) w (members dom);
    dom ← vread (clk_domains w) d;
    let w := with_domains w (<[d := set_period clock_period dom]> (clk_domains w)) in
    for_each (updateClockPeriod (length (clk_domains w)) curTick) w (children dom).

Definition freq_points (d : ClockDomain) : list Z :=
  match dom_kind d with
  | SrcClockDomain f _ => f
  | DerivedClockDomain _ _ => []
  end.

Definition numPerfLevels (d : ClockDomain) : Z := u32 (Z.of_nat (length (freq_points d))).
Definition validPerfLevel (d : ClockDomain) (perf_level : Z) : bool := perf_level <? numPerfLevels d.
Definition clkPeriodAtPerfLevel (d : ClockDomain) : res Z := vread (freq_points d) (Z.to_nat (_perfLevel d)).

(** ** Voltage domains *)

Definition numVoltages (v : VoltageDomain) : Z := u32 (Z.of_nat (length (voltageOpPoints v))).

Definition voltage (v : VoltageDomain) : res Z := vread (voltageOpPoints v) (Z.to_nat (v_perfLevel v)).
Definition voltage_at (v : VoltageDomain) (perf_level : Z) : res Z :=
  _ ← cassert (perf_level <? numVoltages v);
  vread (voltageOpPoints v) (Z.to_nat perf_level).

Definition setVoltageLevel (v : VoltageDomain) (perf_level : Z) : res VoltageDomain :=
  _ ← cassert (perf_level <? Z.of_nat (length (voltageOpPoints v)));
  if perf_level =? v_perfLevel v then Ret v
  else Ret (mkVoltageDomain (voltageOpPoints v) perf_level (srcClockChildren v)).

(** The loop of [sanitiseVoltages] over the registered source domains. *)
Fixpoint perf_max_loop (ds : list ClockDomain) (v : nat) (perf_max : Z) (l : list nat) : res Z :=
  match l with
  | [] => Ret perf_max
  | i :: l =>
      d ← vread ds i;
      _ ← cassert (_voltageDomain d =? v)%nat;
      perf_max_loop ds v (if _perfLevel d <? perf_max then _perfLevel d else perf_max) l
  end.

Definition sanitiseVoltages (w : Clocks) (v : nat) : res (bool * Clocks) :=
  vd ← vread (clk_voltages w) v;
  if numVoltages vd =? 1 then Ret (false, w)
  else
    perf_max ← perf_max_loop (clk_domains w) v (u32 (-1)) (srcClockChildren vd);
    if negb (perf_max =? v_perfLevel vd) then
      vd ← setVoltageLevel vd perf_max;
      Ret (true, with_voltages w (<[v := vd]> (clk_voltages w)))
    else Ret (false, w).

(** [std::is_sorted]: no element is before its predecessor. *)
Fixpoint is_sorted (before : Z -> Z -> bool) (l : list Z) : bool :=
  match l with
  | x :: ((y :: _) as t) => negb (before y x) && is_sorted before t
  | _ => true
  end.
Definition descending (l : list Z) : bool := is_sorted Z.gtb l.
Definition ascending (l : list Z) : bool := is_sorted Z.ltb l.

Definition VoltageDomain_new (w : Clocks) (voltages : list Z) : res Clocks :=
  if is_nil voltages then Err Fatal
  else if negb (descending voltages) then Err Fatal
  else Ret (with_voltages w (clk_voltages w ++ [mkVoltageDomain voltages 0 []])).

Definition registerSrcClockDom (w : Clocks) (v d : nat) : res Clocks :=
  dom ← vread (clk_domains w) d;
  _ ← cassert (_voltageDomain dom =? v)%nat;
  vd ← vread (clk_voltages w) v;
  Ret (with_voltages w (<[v := mkVoltageDomain (voltageOpPoints vd) (v_perfLevel vd) (srcClockChildren vd ++ [d])]>
         (clk_voltages w))).

(** ** Source and derived domains *)

Definition SrcClockDomain_new (w : Clocks) (curTick : Z) (clock : list Z) (domain_id init_perf_level : Z) (vdom : nat)
    : res Clocks :=
  let d := length (clk_domains w) in
  if is_nil clock then Err Fatal
  else
    vd ← vread (clk_voltages w) vdom;
    if (1 <? numVoltages vd) && negb (numVoltages vd =? Z.of_nat (length clock)) then Err Fatal
    else if negb (ascending clock) then Err Fatal
    else if Z.of_nat (length clock) <=? init_perf_level then Err Fatal
    else
      let w := with_domains w (clk_domains w ++
                 [mkClockDomain 0 vdom [] [] (SrcClockDomain clock (u32 domain_id)) init_perf_level]) in
      p ← vread clock (Z.to_nat init_perf_level);
      w ← setClockPeriod w curTick d p;
      registerSrcClockDom w vdom d.

Definition DerivedClockDomain_new (w : Clocks) (curTick : Z) (clk_domain : nat) (clk_divider : Z) : res Clocks :=
  let d := length (clk_domains w) in
  p ← vread (clk_domains w) clk_domain;
  if clk_divider <? 1 then Err Fatal
  else
    let ds := <[clk_domain := add_child d p]> (clk_domains w) in
    let w := with_domains w (ds ++ [mkClockDomain 0 (_voltageDomain p) [] [] (DerivedClockDomain clk_domain clk_divider) 0]) in
    updateClockPeriod (length (clk_domains w)) curTick w d.

(** [SrcClockDomain::perfLevel(PerfLevel)] *)
Definition setPerfLevel (w : Clocks) (curTick : Z) (d : nat) (perf_level : Z) : res Clocks :=
  dom ← vread (clk_domains w) d;
  _ ← cassert (validPerfLevel dom perf_level);
  if perf_level =? _perfLevel dom then Ret w
  else
    let w := with_domains w (<[d := set_level perf_level dom]> (clk_domains w)) in
    '(_, w) ← sanitiseVoltages w (_voltageDomain dom);
    dom ← vread (clk_domains w) d;
    p ← clkPeriodAtPerfLevel dom;
    setClockPeriod w curTick d p.

(** Restoring a checkpoint sets the level; [startup] follows. *)
Definition SrcClockDomain_unserialize (w : Clocks) (d : nat) (level : Z) : res Clocks :=
  dom ← vread (clk_domains w) d;
  Ret (with_domains w (<[d := set_level level dom]> (clk_domains w))).

Definition SrcClockDomain_startup (w : Clocks) (curTick : Z) (d : nat) : res Clocks :=
  dom ← vread (clk_domains w) d;
  setPerfLevel w curTick d (_perfLevel dom).

Definition VoltageDomain_unserialize (w : Clocks) (v : nat) (level : Z) : res Clocks :=
  vd ← vread (clk_voltages w) v;
  vd ← setVoltageLevel (mkVoltageDomain (voltageOpPoints vd) level (srcClockChildren vd)) level;
  Ret (with_voltages w (<[v := vd]> (clk_voltages w))).

Definition VoltageDomain_startup (w : Clocks) (v : nat) : res Clocks :=
  '(_, w) ← sanitiseVoltages w v;
  Ret w.

(** ** The reference: edges counted from a known one *)

(** How many edges of period [p] have passed at [now], counted from one at [t0]. *)
Definition edges_since (t0 p now : Z) : Z := if now <=? t0 then 0 else (now - t0 + p - 1) / p.

(** The edge that an object shows at [now], and its number, when the edge
    [base = (tick, number)] belongs to it and its period has been [p] since. *)
Definition edge_ref (base : Z * Z) (p now : Z) : Z * Z :=
  let k := edges_since base.1 p now in (base.1 + k * p, base.2 + k).

Definition base_ok (base : Z * Z) : Prop := 0 <= base.2 <= base.1 /\ base.1 < 2 ^ 63.

(** The object remembers an edge that is not beyond the next one. *)
Definition obj_ok (o : ClockedObject) (base : Z * Z) (p now : Z) : Prop :=
  exists k, 0 <= k /\ clk_tick o = base.1 + k * p /\ clk_cycle o = base.2 + k /\ (k = 0 \/ clk_tick o - p < now).

Lemma ceil_spec a p k : 0 < p -> k * p - p < a <= k * p -> (a + p - 1) / p = k.
Proof. intros Hp Ha. symmetry. apply (Z.div_unique_pos _ _ _ (a + p - 1 - p * k)); nia. Qed.

Lemma edges_since_spec t0 p now k :
  0 < p -> 0 <= k -> now <= t0 + k * p -> (k = 0 \/ t0 + k * p - p < now) -> edges_since t0 p now = k.
Proof.
  intros Hp Hk Hle Hlt. unfold edges_since. destruct (Z.leb_spec now t0) as [H | H]; [nia|].
  apply ceil_spec; [done|]. nia.
Qed.

Lemma edges_since_bounds t0 p now :
  0 < p -> let k := edges_since t0 p now in
  0 <= k /\ now <= t0 + k * p /\ (k = 0 \/ t0 + k * p - p < now).
Proof.
  intros Hp. cbn. unfold edges_since. destruct (Z.leb_spec now t0) as [H | H]; [lia|].
  pose proof (Z.div_mod (now - t0 + p - 1) p ltac:(lia)) as Hd.
  pose proof (Z.mod_pos_bound (now - t0 + p - 1) p Hp) as Hm. set (q := (now - t0 + p - 1) / p) in *. nia.
Qed.

Lemma divCeil_small a p : 0 < p -> 0 <= a -> a + p < 2 ^ 64 -> divCeil 64 a p = Ret ((a + p - 1) / p).
Proof.
  intros Hp Ha Hs. unfold divCeil. rewrite (proj2 (Z.eqb_neq p 0)) by lia.
  rewrite (wrap_small 64 (a + p)) by (unfold inword; lia). rewrite wrap_small by (unfold inword; lia). done.
Qed.

Lemma update_ref o base p now :
  0 < p < 2 ^ 62 -> 0 <= now < 2 ^ 62 -> base_ok base -> obj_ok o base p now ->
  update o p now = Ret (mkClockedObject (edge_ref base p now).1 (edge_ref base p now).2 (clockDomain o)).
Proof.
  intros Hp Hn [Hb1 Hb2] (k & Hk & Ht & Hc & Hlast). destruct o as [t c d]; cbn in Ht, Hc, Hlast. subst t c.
  destruct base as [t0 c0]; cbn in Hb1, Hb2, Hlast |- *. unfold edge_ref, update; cbn.
  destruct (Z.leb_spec now (t0 + k * p)) as [H | H].
  { rewrite (edges_since_spec t0 p now k) by (lia || tauto). done. }
  rewrite (wrap_small 64 (t0 + k * p + p)), (wrap_small 64 (c0 + k + 1)) by (unfold inword; nia).
  destruct (Z.leb_spec now (t0 + k * p + p)) as [H1 | H1].
  { rewrite (edges_since_spec t0 p now (k + 1)) by lia. do 2 f_equal; lia. }
  rewrite (wrap_small 64 (now - _)) by (unfold inword; lia).
  rewrite divCeil_small by lia. cbn.
  pose proof (edges_since_bounds (t0 + k * p + p) p now ltac:(lia)) as He. cbn in He.
  assert (edges_since (t0 + k * p + p) p now = (now - (t0 + k * p + p) + p - 1) / p) as Ee.
  { unfold edges_since. by rewrite (proj2 (Z.leb_gt _ _)) by lia. }
  rewrite Ee in He. set (e := (now - (t0 + k * p + p) + p - 1) / p) in *.
  rewrite (edges_since_spec t0 p now (k + 1 + e)) by nia.
  rewrite !wrap_small by (unfold inword; nia). do 2 f_equal; lia.
Qed.

(** ** The tree of domains *)

(** What construction fixes: for every domain its children, its members and its
    kind; for every object its domain. *)
Definition shape (d : ClockDomain) : list nat * list nat * DomainKind := (children d, members d, dom_kind d).
Definition shapes (w : Clocks) : list (list nat * list nat * DomainKind) := shape <$> clk_domains w.
Definition homes (w : Clocks) : list nat := clockDomain <$> clk_objects w.
Definition period (w : Clocks) (d : nat) : option Z := _clockPeriod <$> clk_domains w !! d.

Section tree.
Context (S : list (list nat * list nat * DomainKind)) (H : list nat).

Definition derives (c p : nat) : Prop := exists cs ms v, S !! c = Some (cs, ms, DerivedClockDomain p v).

Record tree_ok : Prop := {
  to_children d cs ms k : S !! d = Some (cs, ms, k) -> NoDup cs /\ forall c, c ∈ cs <-> derives c d;
  to_members d cs ms k : S !! d = Some (cs, ms, k) -> NoDup ms /\ forall i, i ∈ ms <-> H !! i = Some d;
  to_parent c cs ms p v : S !! c = Some (cs, ms, DerivedClockDomain p v) -> (p < c)%nat /\ 1 <= v;
  to_homes i d : H !! i = Some d -> is_Some (S !! d)
}.

(** [below c d]: domain [d] is in the subtree of [c]. *)
Inductive below (c : nat) : nat -> Prop :=
  | below_refl : below c c
  | below_step d p : derives d p -> below c p -> below c d.

(** [rooted d r k]: the source domain of [d] is [r], and the dividers on the way
    multiply to [k]. *)
Inductive rooted : nat -> nat -> Z -> Prop :=
  | rooted_src d cs ms f id : S !! d = Some (cs, ms, SrcClockDomain f id) -> rooted d d 1
  | rooted_derived d cs ms p v r k :
      S !! d = Some (cs, ms, DerivedClockDomain p v) -> rooted p r k -> rooted d r (k * v).

Context (Ht : tree_ok).

Lemma derives_lt c p : derives c p -> (p < c)%nat.
Proof. intros (cs & ms & v & Hc). by apply (to_parent Ht) in Hc as [? _]. Qed.

Lemma derives_fun c p p' : derives c p -> derives c p' -> p = p'.
Proof. intros (cs & ms & v & Hc) (cs' & ms' & v' & Hc'). congruence. Qed.

Lemma below_le c d : below c d -> (c <= d)%nat.
Proof. induction 1 as [|d p Hd _ IH]; [done|]. apply derives_lt in Hd. lia. Qed.

Lemma below_inv c d p : below c d -> derives d p -> d = c \/ below c p.
Proof. intros Hb Hd. destruct Hb as [|d p' Hd' Hb]; [by left|]. right. by rewrite (derives_fun _ _ _ Hd Hd'). Qed.

Lemma below_child c d : below c d <-> d = c \/ exists e, derives e c /\ below e d.
Proof.
  split.
  - induction 1 as [|d p Hd Hb IH]; [by left|]. right. destruct IH as [-> | (e & He & Hep)].
    + exists d. split; [done|constructor].
    + exists e. split; [done|by econstructor].
  - intros [-> | (e & He & Hd)]; [constructor|].
    induction Hd as [|d p Hd _ IH]; [econstructor; [done|constructor]|by econstructor].
Qed.

Lemma siblings_apart d c1 c2 x : derives c1 d -> derives c2 d -> below c1 x -> below c2 x -> c1 = c2.
Proof.
  intros H1 H2 Hb1 Hb2. induction Hb1 as [|x p Hd Hb1 IH].
  - destruct (below_inv _ _ _ Hb2 H1) as [? | Hb]; [done|]. apply below_le in Hb. apply derives_lt in H2. lia.
  - destruct (below_inv _ _ _ Hb2 Hd) as [-> | Hb]; [|by auto].
    assert (p = d) as -> by (by eapply derives_fun). apply below_le in Hb1. apply derives_lt in H1. lia.
Qed.

Lemma rooted_fun d r k r' k' : rooted d r k -> rooted d r' k' -> r = r' /\ k = k'.
Proof.
  intros Hr. revert r' k'. induction Hr as [d cs ms f id Hd|d cs ms p v r k Hd _ IH]; intros r' k' Hr'.
  - destruct Hr'; [done|congruence].
  - destruct Hr' as [|d cs' ms' p' v' r' k' Hd' Hr']; [congruence|].
    rewrite Hd in Hd'. injection Hd' as -> -> -> ->. destruct (IH _ _ Hr') as [-> ->]. done.
Qed.

Lemma rooted_exists d : is_Some (S !! d) -> exists r k, rooted d r k.
Proof.
  induction d as [d IH] using lt_wf_ind. intros [[[cs ms] k] Hd]. destruct k as [f id | p v].
  - by eexists _, _; econstructor.
  - destruct (to_parent Ht _ _ _ _ _ Hd) as [Hp _].
    destruct (IH p Hp) as (r & k & Hr); [|by eexists _, _; eapply rooted_derived].
    apply lookup_lt_is_Some_2. apply lookup_lt_Some in Hd. lia.
Qed.

(** The subtree of a source domain: what is rooted there. *)
Lemma below_rooted s cs ms f id d r k :
  S !! s = Some (cs, ms, SrcClockDomain f id) -> rooted d r k -> (below s d <-> r = s).
Proof.
  intros Hs Hr. induction Hr as [d cs' ms' f' id' Hd|d cs' ms' p v r k Hd Hr IH].
  - split; [|intros ->; constructor]. intros Hb. destruct Hb as [|d p Hdp _]; [done|].
    destruct Hdp as (? & ? & ? & ?). congruence.
  - rewrite <- IH. assert (Hdp : derives d p) by (by eexists _, _, _). split.
    + intros Hb. destruct (below_inv _ _ _ Hb Hdp) as [-> | ?]; [|done].
      congruence.
    + intros Hb. by econstructor.
Qed.
End tree.

(** ** Propagation of a change *)

(** Two states that differ in periods and object clocks only. *)
Record frame (w w' : Clocks) : Prop := {
  fr_shapes : shapes w' = shapes w;
  fr_homes : homes w' = homes w;
  fr_levels : _perfLevel <$> clk_domains w' = _perfLevel <$> clk_domains w;
  fr_volts : clk_voltages w' = clk_voltages w;
  fr_vdoms : _voltageDomain <$> clk_domains w' = _voltageDomain <$> clk_domains w
}.

#[global] Instance frame_refl : Reflexive frame.
Proof. by intros w. Qed.
#[global] Instance frame_trans : Transitive frame.
Proof. intros w1 w2 w3 [] []. split; congruence. Qed.

Lemma home_lookup w i d : homes w !! i = Some d <-> exists o, clk_objects w !! i = Some o /\ clockDomain o = d.
Proof. unfold homes. rewrite list_lookup_fmap, fmap_Some. naive_solver. Qed.

Lemma dom_lookup w d sh : shapes w !! d = Some sh -> exists dom, clk_domains w !! d = Some dom /\ shape dom = sh.
Proof. unfold shapes. rewrite list_lookup_fmap, fmap_Some. naive_solver. Qed.

Section propagation.
Context (base : nat -> Z * Z) (now : Z) (Hnow : 0 <= now < 2 ^ 62).

(** The objects of a domain are where their base says. *)
Definition dom_ready (w : Clocks) (d : nat) : Prop :=
  exists q, period w d = Some q /\ 0 < q < 2 ^ 62 /\
    forall i o, clk_objects w !! i = Some o -> clockDomain o = d -> obj_ok o (base i) q now /\ base_ok (base i).

Definition obj_aligned (w w' : Clocks) (d : nat) : Prop :=
  forall i o q, clk_objects w !! i = Some o -> clockDomain o = d -> period w d = Some q ->
    clk_objects w' !! i = Some (mkClockedObject (edge_ref (base i) q now).1 (edge_ref (base i) q now).2 d).

Definition obj_same (w w' : Clocks) (d : nat) : Prop :=
  forall i o, clk_objects w !! i = Some o -> clockDomain o = d -> clk_objects w' !! i = Some o.

Lemma update_object_ok w d q i o :
  clk_objects w !! i = Some o -> clockDomain o = d -> period w d = Some q -> 0 < q < 2 ^ 62 ->
  obj_ok o (base i) q now -> base_ok (base i) ->
  update_object w now i
  = Ret (with_objects w (<[i := mkClockedObject (edge_ref (base i) q now).1 (edge_ref (base i) q now).2 d]>
      (clk_objects w))).
Proof.
  intros Ho Hd Hq Hpos Hok Hb. unfold update_object, object_period. rewrite (vread_some _ _ _ Ho). cbn.
  unfold period in Hq. apply fmap_Some in Hq as (dom & Hdom & ->). rewrite Hd, (vread_some _ _ _ Hdom). cbn.
  rewrite (update_ref o (base i)) by done. cbn. by rewrite Hd.
Qed.

(** The loop over the members aligns exactly these. *)
Lemma align_ok ms : forall w d q,
  NoDup ms -> (forall i, i ∈ ms -> exists o, clk_objects w !! i = Some o /\ clockDomain o = d /\
                         obj_ok o (base i) q now /\ base_ok (base i)) ->
  period w d = Some q -> 0 < q < 2 ^ 62 ->
  exists l, for_each (fun w => update_object w now) w ms = Ret (with_objects w l) /\
    (forall i, l !! i = if decide (i ∈ ms)
                        then Some (mkClockedObject (edge_ref (base i) q now).1 (edge_ref (base i) q now).2 d)
                        else clk_objects w !! i).
Proof.
  induction ms as [|i ms IH]; intros w d q Hnd Hms Hq Hpos.
  - exists (clk_objects w). split; [by destruct w|]. intros i. by rewrite decide_False by set_solver.
  - apply NoDup_cons in Hnd as [Hi Hnd]. destruct (Hms i) as (o & Ho & Hd & Hok & Hb); [set_solver|].
    cbn [for_each]. rewrite (update_object_ok w d q i o) by done. cbn [mbind res_bind].
    set (o' := mkClockedObject _ _ _). set (w1 := with_objects w _).
    destruct (IH w1 d q) as (l & Hl & Hlook); [done| |done|done|].
    + intros j Hj. destruct (Hms j) as (oj & Hoj & ? & ?); [set_solver|]. exists oj. split; [|done].
      cbn. rewrite list_lookup_insert_ne by (by intros ->). done.
    + exists l. split; [by rewrite Hl; destruct w|]. intros j. rewrite Hlook. cbn.
      destruct (decide (j ∈ ms)) as [Hj | Hj]; [by rewrite decide_True by set_solver|].
      destruct (decide (j = i)) as [-> | Hne].
      * rewrite decide_True by set_solver. apply list_lookup_insert_eq. by eapply lookup_lt_Some.
      * rewrite decide_False by set_solver. by apply list_lookup_insert_ne.
Qed.

Lemma homes_aligned w l d (ms : list nat) q :
  (forall i, i ∈ ms -> exists o, clk_objects w !! i = Some o /\ clockDomain o = d) ->
  (forall i, l !! i = if decide (i ∈ ms)
                      then Some (mkClockedObject (edge_ref (base i) q now).1 (edge_ref (base i) q now).2 d)
                      else clk_objects w !! i) ->
  clockDomain <$> l = homes w.
Proof.
  intros Hms Hl. apply list_eq. intros i. unfold homes. rewrite !list_lookup_fmap, Hl.
  case_decide as Hi; [|done]. destruct (Hms i Hi) as (o & -> & <-). done.
Qed.

Context (S : list (list nat * list nat * DomainKind)) (H : list nat) (Ht : tree_ok S H).

(** Aligning the members of a domain and giving it a new period. *)
Lemma set_domain_ok w d p dom :
  shapes w = S -> homes w = H -> dom_ready w d -> clk_domains w !! d = Some dom ->
  exists l, for_each (fun w => update_object w now) w (members dom) = Ret (with_objects w l) /\
    let w' := mkClocks l (<[d := set_period p dom]> (clk_domains w)) (clk_voltages w) in
    frame w w' /\ obj_aligned w w' d /\ (forall x, x <> d -> obj_same w w' x) /\
    (forall x, period w' x = if decide (x = d) then Some p else period w x).
Proof.
  intros HS HH (q & Hq & Hpos & Hobj) Hdom.
  assert (Hsh : S !! d = Some (children dom, members dom, dom_kind dom)).
  { rewrite <- HS. unfold shapes. by rewrite list_lookup_fmap, Hdom. }
  destruct (to_members _ _ Ht _ _ _ _ Hsh) as [Hnd Hmem].
  assert (Hms : forall i, i ∈ members dom -> exists o, clk_objects w !! i = Some o /\ clockDomain o = d).
  { intros i Hi. apply Hmem in Hi. by rewrite <- HH in Hi; apply home_lookup in Hi. }
  destruct (align_ok (members dom) w d q) as (l & Hl & Hlook); [done| |done|done|].
  { intros i Hi. destruct (Hms i Hi) as (o & Ho & Hd). exists o. destruct (Hobj i o Ho Hd). done. }
  exists l. split; [done|]. cbn. split_and!.
  - split; cbn; try done.
    + unfold shapes; cbn. rewrite list_fmap_insert. apply list_insert_id. by rewrite list_lookup_fmap, Hdom.
    + unfold homes at 1; cbn. by eapply homes_aligned.
    + rewrite list_fmap_insert. apply list_insert_id. by rewrite list_lookup_fmap, Hdom.
    + rewrite list_fmap_insert. apply list_insert_id. by rewrite list_lookup_fmap, Hdom.
  - intros i o q' Ho Hd Hq'. assert (q' = q) as -> by congruence. cbn. rewrite Hlook, decide_True; [done|].
    apply Hmem. rewrite <- HH. apply home_lookup. eauto.
  - intros x Hx i o Ho Hd. cbn. rewrite Hlook, decide_False; [done|]. intros Hi.
    destruct (Hms i Hi) as (o' & Ho' & Hd'). congruence.
  - intros x. unfold period; cbn. case_decide as Hx.
    + subst x. rewrite list_lookup_insert_eq; [done|]. by eapply lookup_lt_Some.
    + by rewrite list_lookup_insert_ne.
Qed.

(** The objects of the domains in [In] are aligned and their periods follow from
    those of their parents; nothing else has changed. *)
Record change (w w' : Clocks) (In : nat -> Prop) : Prop := {
  ch_frame : frame w w';
  ch_aligned x : In x -> obj_aligned w w' x;
  ch_period x cs ms p v : In x -> S !! x = Some (cs, ms, DerivedClockDomain p v) ->
    period w' x = (fun q => u64 (q * v)) <$> period w' p;
  ch_same x : ~ In x -> obj_same w w' x;
  ch_rest x : ~ In x -> period w' x = period w x
}.

Lemma change_trans w w1 w2 (I1 I2 : nat -> Prop) :
  change w w1 I1 -> change w1 w2 I2 -> (forall x, I1 x -> ~ I2 x) -> (forall x p, I1 x -> derives S x p -> ~ I2 p) ->
  change w w2 (fun x => I1 x \/ I2 x).
Proof.
  intros [F1 A1 P1 S1 R1] [F2 A2 P2 S2 R2] Hdis Hpar.
  assert (Hdis' : forall x, I2 x -> ~ I1 x) by (intros x H2 H1; by apply (Hdis x)).
  split.
  - by etrans.
  - intros x [Hx | Hx] i o q Ho Hd Hq.
    + eapply (S2 x); [by auto|by eapply A1|done].
    + eapply (A2 x); [done|by eapply (S1 x); auto|done|]. by rewrite R1 by auto.
  - intros x cs ms p v [Hx | Hx] Hsh; [|by eapply P2].
    rewrite (R2 x), (R2 p); [by eapply P1| |by auto]. eapply Hpar; [done|]. by eexists _, _, _.
  - intros x Hx i o Ho Hd. eapply (S2 x); [tauto| |done]. eapply (S1 x); [tauto|done|done].
  - intros x Hx. rewrite R2, R1 by tauto. done.
Qed.

Lemma change_ext w w' (I J : nat -> Prop) : (forall x, I x <-> J x) -> change w w' I -> change w w' J.
Proof. intros Hij [? A P Sa R]. split; [done|..]; intros x *; rewrite <- ?Hij; eauto. Qed.

Lemma change_refl w : change w w (fun _ => False).
Proof. split; [reflexivity|done|done|by intros x _ i o Ho _|done]. Qed.

Lemma dom_ready_same w w' x :
  homes w' = homes w -> obj_same w w' x -> period w' x = period w x -> dom_ready w x -> dom_ready w' x.
Proof.
  intros Hh Hs Hp (q & Hq & Hpos & Ho). exists q. split_and!; [congruence|lia|lia|].
  intros i o Hi Hx. assert (Hhome : homes w !! i = Some x) by (rewrite <- Hh; apply home_lookup; eauto).
  apply home_lookup in Hhome as (o' & Ho' & Hx'). pose proof (Hs i o' Ho' Hx'). assert (o = o') as -> by congruence. by apply Ho.
Qed.

Definition below_any (cs : list nat) (x : nat) : Prop := exists c, c ∈ cs /\ below S c x.

(** The loop over children, from the correctness of one child. *)
Lemma children_ok (f : Clocks -> nat -> res Clocks) d cs :
  (forall w c, shapes w = S -> homes w = H -> derives S c d -> (forall x, below S c x -> dom_ready w x) ->
     exists w', f w c = Ret w' /\ change w w' (below S c)) ->
  NoDup cs -> (forall c, c ∈ cs -> derives S c d) ->
  forall w, shapes w = S -> homes w = H -> (forall x, below_any cs x -> dom_ready w x) ->
  exists w', for_each f w cs = Ret w' /\ change w w' (below_any cs).
Proof.
  intros Hf. induction cs as [|c cs IH]; intros Hnd Hcs w HS HH Hr.
  - exists w. split; [done|]. eapply change_ext, change_refl. unfold below_any. set_solver.
  - apply NoDup_cons in Hnd as [Hc Hnd]. assert (Hcd : derives S c d) by (apply Hcs; set_solver).
    destruct (Hf w c) as (w1 & E1 & C1); [done..| |].
    { intros x Hx. apply Hr. exists c. set_solver. }
    assert (Hapart : forall x, below S c x -> ~ below_any cs x).
    { intros x Hx (c' & Hc' & Hx'). assert (c = c') as -> by (eapply siblings_apart; eauto; set_solver). done. }
    destruct IH with (w := w1) as (w2 & E2 & C2); [done|set_solver|by rewrite (fr_shapes _ _ (ch_frame _ _ _ C1))|
      by rewrite (fr_homes _ _ (ch_frame _ _ _ C1))| |].
    { intros x Hx. assert (~ below S c x) by (intros Hb; by apply (Hapart x)).
      eapply dom_ready_same; [apply C1|by apply C1|by apply C1|]. apply Hr. destruct Hx as (c' & ? & ?).
      exists c'. set_solver. }
    exists w2. split; [by cbn; rewrite E1|].
    eapply change_ext; [|eapply change_trans; [exact C1|exact C2|exact Hapart|]].
    + intros x. unfold below_any. set_solver.
    + intros x p Hx Hp (c' & Hc' & Hb). destruct (below_inv _ _ _ _ Hx Hp) as [-> | Hx'].
      * assert (p = d) as -> by (by eapply derives_fun). apply (below_le _ _ Ht) in Hb.
        assert (Hlt : derives S c' d) by (apply Hcs; set_solver). apply (derives_lt _ _ Ht) in Hlt. lia.
      * apply (Hapart p); [done|]. by exists c'.
Qed.

Lemma with_objects_domains w l dom d : with_domains (with_objects w l) (<[d := dom]> (clk_domains w))
  = mkClocks l (<[d := dom]> (clk_domains w)) (clk_voltages w).
Proof. done. Qed.

(** The common end of both operations that set a period: the children follow. *)
Lemma children_follow fuel w w' d cs ms k p :
  S !! d = Some (cs, ms, k) -> shapes w = S -> homes w = H -> frame w w' -> obj_aligned w w' d ->
  (forall x, x <> d -> obj_same w w' x) -> (forall x, period w' x = if decide (x = d) then Some p else period w x) ->
  (match k with
   | SrcClockDomain _ _ => True
   | DerivedClockDomain r v => Some p = (fun q => u64 (q * v)) <$> period w r
   end) ->
  (forall x, below S d x -> dom_ready w x) ->
  (forall w c, shapes w = S -> homes w = H -> derives S c d -> (forall x, below S c x -> dom_ready w x) ->
     exists w', updateClockPeriod fuel now w c = Ret w' /\ change w w' (below S c)) ->
  exists w'', for_each (updateClockPeriod fuel now) w' cs = Ret w'' /\ change w w'' (below S d) /\ period w'' d = Some p.
Proof.
  intros Hd HS HH F A Sm P Hk Hr Hf. destruct (to_children _ _ Ht _ _ _ _ Hd) as [Hnd Hcs].
  assert (Hnot : ~ below_any cs d).
  { intros (c & Hc & Hb). apply Hcs in Hc. apply (derives_lt _ _ Ht) in Hc. apply (below_le _ _ Ht) in Hb. lia. }
  assert (Hb : forall x, below S d x <-> x = d \/ below_any cs x).
  { intros x. rewrite below_child. unfold below_any. split; intros [? | (c & ? & ?)]; eauto; right; exists c;
      [by rewrite Hcs|by rewrite <- Hcs]. }
  destruct (children_ok (updateClockPeriod fuel now) d cs) with (w := w') as (w2 & E2 & C2);
    [done|done|by intros c; rewrite Hcs|by rewrite (fr_shapes _ _ F)|by rewrite (fr_homes _ _ F)| |].
  { intros x Hx. assert (x <> d) by (by intros ->). eapply dom_ready_same; [apply F|by apply Sm| |].
    - by rewrite P, decide_False.
    - apply Hr, Hb. by right. }
  assert (C1 : change w w' (fun x => x = d)).
  { split; [done|by intros x ->| |by auto|].
    - intros x cs' ms' r v -> Hd'. rewrite Hd in Hd'. injection Hd' as <- <- ->.
      destruct (to_parent _ _ Ht _ _ _ _ _ Hd). rewrite !P, decide_True, decide_False by (done || lia). done.
    - intros x Hx. by rewrite P, decide_False. }
  exists w2. split; [done|]. split.
  - eapply change_ext; [symmetry; apply Hb|]. eapply change_trans; [exact C1|exact C2|by intros x ->|].
    intros x r -> Hdr (c & Hc & Hbc). apply Hcs in Hc. apply (derives_lt _ _ Ht) in Hc, Hdr.
    apply (below_le _ _ Ht) in Hbc. lia.
  - rewrite (ch_rest _ _ _ C2) by done. by rewrite P, decide_True.
Qed.

(** Enough fuel for the subtree: the domains after [c]. *)
Lemma updateClockPeriod_ok fuel : forall w c p,
  shapes w = S -> homes w = H -> (length S <= fuel + c)%nat -> derives S c p ->
  (forall x, below S c x -> dom_ready w x) ->
  exists w', updateClockPeriod fuel now w c = Ret w' /\ change w w' (below S c).
Proof.
  induction fuel as [|fuel IH]; intros w c p HS HH Hfuel Hc Hr.
  { destruct Hc as (cs & ms & v & Hc). apply lookup_lt_Some in Hc. lia. }
  destruct Hc as (cs & ms & v & Hc). pose proof Hc as Hc'. rewrite <- HS in Hc'.
  apply dom_lookup in Hc' as (dom & Hdom & Hsh). unfold shape in Hsh.
  destruct (to_parent _ _ Ht _ _ _ _ _ Hc) as [Hlt Hv].
  assert (Hpp : is_Some (clk_domains w !! p)).
  { apply lookup_lt_is_Some. apply lookup_lt_Some in Hdom. lia. }
  destruct Hpp as [pd Hpd].
  destruct (set_domain_ok w c (u64 (_clockPeriod pd * v)) dom) as (l & El & F & A & Sm & P); [done..| |done|].
  { apply Hr. constructor. }
  cbn [updateClockPeriod]. rewrite (vread_some _ _ _ Hdom). cbn [mbind res_bind]. rewrite El. cbn [mbind res_bind].
  replace (dom_kind dom) with (DerivedClockDomain p v) by congruence. cbn [clk_domains with_objects].
  rewrite (vread_some _ _ _ Hpd), (vread_some _ _ _ Hdom). cbn [mbind res_bind].
  replace (children dom) with cs by congruence.
  edestruct (children_follow fuel w) as (w2 & E2 & C2 & _); [exact Hc|done|done|exact F|exact A|exact Sm|exact P| |done| |].
  - cbn. unfold period. by rewrite Hpd.
  - intros w0 e HS0 HH0 He Hre. apply (IH w0 e c); [done|done| |done|done].
    apply (derives_lt _ _ Ht) in He. lia.
  - exists w2. split; [exact E2|done].
Qed.

Lemma setClockPeriod_ok w d p cs ms f id :
  shapes w = S -> homes w = H -> S !! d = Some (cs, ms, SrcClockDomain f id) -> p <> 0 ->
  (forall x, below S d x -> dom_ready w x) ->
  exists w', setClockPeriod w now d p = Ret w' /\ change w w' (below S d) /\ period w' d = Some p.
Proof.
  intros HS HH Hd Hp Hr. pose proof Hd as Hd'. rewrite <- HS in Hd'.
  apply dom_lookup in Hd' as (dom & Hdom & Hsh). unfold shape in Hsh.
  destruct (set_domain_ok w d p dom) as (l & El & F & A & Sm & P); [done..| |done|].
  { apply Hr. constructor. }
  unfold setClockPeriod. rewrite (proj2 (Z.eqb_neq p 0)) by done.
  rewrite (vread_some _ _ _ Hdom). cbn [mbind res_bind]. rewrite El. cbn [mbind res_bind clk_domains with_objects].
  rewrite (vread_some _ _ _ Hdom). cbn [mbind res_bind]. replace (children dom) with cs by congruence.
  set (w1 := with_domains _ _).
  assert (Hlen : length (clk_domains w1) = length S).
  { subst w1. cbn. rewrite length_insert. rewrite <- HS. unfold shapes. by rewrite length_fmap. }
  edestruct (children_follow (length (clk_domains w1)) w) as (w2 & E2 & C2 & P2);
    [exact Hd|done|done|exact F|exact A|exact Sm|exact P|done|done| |].
  - intros w0 e HS0 HH0 He Hre. apply (updateClockPeriod_ok _ w0 e d); [done|done|lia|done|done].
  - exists w2. split; [exact E2|done].
Qed.
End propagation.

(** ** Runs *)

(** The source domain of a domain. *)
Fixpoint root_of (fuel : nat) (S : list (list nat * list nat * DomainKind)) (d : nat) : nat :=
  match fuel, S !! d with
  | Datatypes.S fuel, Some (_, _, DerivedClockDomain p _) => root_of fuel S p
  | _, _ => d
  end.

(** Beside the clocks, the time and for each object the edge it counts from: the
    one at its last change of period, or tick 0. *)
Record Run := mkRun { r_now : Z; r_clocks : Clocks; r_base : list (Z * Z) }.

Definition base_of (l : list (Z * Z)) (i : nat) : Z * Z := default (0, 0) (l !! i).

(** A change at source domain [d] gives each object of its tree a new edge to
    count from. *)
Definition rebase (w : Clocks) (d : nat) (now : Z) (l : list (Z * Z)) : list (Z * Z) :=
  imap (fun i b =>
          match homes w !! i with
          | Some x =>
              if decide (root_of (length (shapes w)) (shapes w) x = d)
              then match period w x with Some q => edge_ref b q now | None => b end else b
          | None => b
          end) l.

Inductive ClockEv :=
  | EvAdvance (t : Z)
  | EvClockEdge (i : nat) (cycles : Z)
  | EvCurCycle (i : nat)
  | EvPerfLevel (d : nat) (level : Z)
  | EvNewObject (d : nat)
  | EvNewVoltage (voltages : list Z)
  | EvNewSrc (clock : list Z) (id level : Z) (v : nat)
  | EvNewDerived (p : nat) (divider : Z).

Definition clock_step (s : Run) (e : ClockEv) : res Run :=
  let w := r_clocks s in
  let now := r_now s in
  match e with
  | EvAdvance t => Ret (mkRun t w (r_base s))
  | EvClockEdge i n => '(_, w) ← clockEdge w now i n; Ret (mkRun now w (r_base s))
  | EvCurCycle i => '(_, w) ← curCycle w now i; Ret (mkRun now w (r_base s))
  | EvPerfLevel d l =>
      w' ← setPerfLevel w now d l;
      Ret (mkRun now w' (if decide (_perfLevel <$> clk_domains w !! d = Some l) then r_base s
                         else rebase w d now (r_base s)))
  | EvNewObject d => w ← ClockedObject_new w d; Ret (mkRun now w (r_base s ++ [(0, 0)]))
  | EvNewVoltage v => w ← VoltageDomain_new w v; Ret (mkRun now w (r_base s))
  | EvNewSrc c id l v => w ← SrcClockDomain_new w now c id l v; Ret (mkRun now w (r_base s))
  | EvNewDerived p k => w ← DerivedClockDomain_new w now p k; Ret (mkRun now w (r_base s))
  end.

(** What the configuration and the callers guarantee.  Ticks and periods are kept
    below 2^62, so that no sum of two wraps. *)
Definition clock_enabled (s : Run) (e : ClockEv) : Prop :=
  let w := r_clocks s in
  match e with
  | EvAdvance t => r_now s <= t < 2 ^ 62
  | EvClockEdge i _ => (i < length (clk_objects w))%nat
  | EvCurCycle i => (i < length (clk_objects w))%nat
  | EvPerfLevel d l => exists dom f id, clk_domains w !! d = Some dom /\ dom_kind dom = SrcClockDomain f id /\
      0 <= l < Z.of_nat (length f)
  | EvNewObject d => (d < length (clk_domains w))%nat
  | EvNewVoltage v => v <> [] /\ descending v = true /\ Z.of_nat (length v) < 2 ^ 32
  | EvNewSrc f _ l v => Forall (fun x => 0 < x < 2 ^ 62) f /\ ascending f = true /\ Z.of_nat (length f) < 2 ^ 32 /\
      0 <= l < Z.of_nat (length f) /\
      exists vd, clk_voltages w !! v = Some vd /\
        (length (voltageOpPoints vd) = 1%nat \/ length (voltageOpPoints vd) = length f)
  | EvNewDerived p v => 1 <= v /\ (p < length (clk_domains w))%nat /\
      forall r k f id cs ms, rooted (shapes w) p r k -> shapes w !! r = Some (cs, ms, SrcClockDomain f id) ->
        Forall (fun x => x * (k * v) < 2 ^ 62) f
  end.

Inductive clock_reach : Run -> Prop :=
  | cr_init : clock_reach (mkRun 0 (mkClocks [] [] []) [])
  | cr_step s e s' : clock_reach s -> clock_enabled s e -> clock_step s e = Ret s' -> clock_reach s'.

Record clock_inv (s : Run) : Prop := {
  ci_now : 0 <= r_now s < 2 ^ 62;
  ci_tree : tree_ok (shapes (r_clocks s)) (homes (r_clocks s));
  ci_len : length (r_base s) = length (clk_objects (r_clocks s));
  ci_src d dom f id : clk_domains (r_clocks s) !! d = Some dom -> dom_kind dom = SrcClockDomain f id ->
    0 <= _perfLevel dom /\ f !! Z.to_nat (_perfLevel dom) = Some (_clockPeriod dom) /\ Z.of_nat (length f) < 2 ^ 32;
  ci_derived d p v cs ms : shapes (r_clocks s) !! d = Some (cs, ms, DerivedClockDomain p v) ->
    period (r_clocks s) d = (fun q => q * v) <$> period (r_clocks s) p;
  ci_sized d r k cs ms f id : rooted (shapes (r_clocks s)) d r k ->
    shapes (r_clocks s) !! r = Some (cs, ms, SrcClockDomain f id) -> Forall (fun x => 0 < x /\ x * k < 2 ^ 62) f;
  ci_obj i o q : clk_objects (r_clocks s) !! i = Some o -> period (r_clocks s) (clockDomain o) = Some q ->
    obj_ok o (base_of (r_base s) i) q (r_now s) /\ base_ok (base_of (r_base s) i);
  ci_volt v vd : clk_voltages (r_clocks s) !! v = Some vd ->
    (0 < length (voltageOpPoints vd))%nat /\ Z.of_nat (length (voltageOpPoints vd)) < 2 ^ 32 /\
    forall d, d ∈ srcClockChildren vd <->
      exists dom f id, clk_domains (r_clocks s) !! d = Some dom /\ dom_kind dom = SrcClockDomain f id /\ _voltageDomain dom = v;
  ci_vsrc d dom f id : clk_domains (r_clocks s) !! d = Some dom -> dom_kind dom = SrcClockDomain f id ->
    exists vd, clk_voltages (r_clocks s) !! _voltageDomain dom = Some vd /\
      (length (voltageOpPoints vd) = 1%nat \/ length (voltageOpPoints vd) = length f)
}.

Section inv.
Context (s : Run) (Hs : clock_inv s).
Local Abbreviation w := (r_clocks s).
Local Abbreviation St := (shapes (r_clocks s)).

Lemma rooted_pos d r k : rooted St d r k -> 1 <= k.
Proof.
  induction 1 as [|d cs ms p v r k Hd _ IH]; [lia|]. apply (to_parent _ _ (ci_tree s Hs)) in Hd as [_ ?]. nia.
Qed.

Lemma rooted_is_src d r k : rooted St d r k -> exists cs ms f id, St !! r = Some (cs, ms, SrcClockDomain f id).
Proof. induction 1; [by eexists _, _, _, _|done]. Qed.

(** The period of a domain in closed form. *)
Lemma period_rooted d r k : rooted St d r k -> period w d = (fun q => q * k) <$> period w r.
Proof.
  induction 1 as [d cs ms f id Hd|d cs ms p v r k Hd _ IH].
  - destruct (period w d); cbn; [|done]. f_equal; lia.
  - rewrite (ci_derived s Hs _ _ _ _ _ Hd), IH. destruct (period w r); cbn; [|done]. f_equal; lia.
Qed.

Lemma src_period r cs ms f id :
  St !! r = Some (cs, ms, SrcClockDomain f id) -> exists dom q, clk_domains w !! r = Some dom /\
    dom_kind dom = SrcClockDomain f id /\ period w r = Some q /\ f !! Z.to_nat (_perfLevel dom) = Some q.
Proof.
  intros Hr. apply dom_lookup in Hr as (dom & Hd & Hsh). unfold shape in Hsh.
  assert (Hk : dom_kind dom = SrcClockDomain f id) by congruence.
  exists dom, (_clockPeriod dom). destruct (ci_src s Hs _ _ _ _ Hd Hk) as (? & ? & _).
  unfold period. by rewrite Hd.
Qed.

Lemma period_pos d : is_Some (St !! d) -> exists q, period w d = Some q /\ 0 < q < 2 ^ 62.
Proof.
  intros Hd. destruct (rooted_exists _ _ (ci_tree s Hs) d Hd) as (r & k & Hr).
  destruct (rooted_is_src _ _ _ Hr) as (cs & ms & f & id & Hrs).
  destruct (src_period _ _ _ _ _ Hrs) as (dom & q & _ & _ & Hq & Hf).
  rewrite (period_rooted _ _ _ Hr), Hq. cbn. eexists; split; [done|].
  pose proof (ci_sized s Hs _ _ _ _ _ _ _ Hr Hrs) as Hall. rewrite Forall_lookup in Hall. apply Hall in Hf.
  pose proof (rooted_pos _ _ _ Hr). nia.
Qed.

Lemma all_ready d : is_Some (St !! d) -> dom_ready (base_of (r_base s)) (r_now s) w d.
Proof.
  intros Hd. destruct (period_pos d Hd) as (q & Hq & Hp). exists q. split_and!; [done|lia|lia|].
  intros i o Ho <-. by apply (ci_obj s Hs).
Qed.
End inv.

Lemma obj_ok_later o b p now now' : now <= now' -> obj_ok o b p now -> obj_ok o b p now'.
Proof. intros Hle (k & ? & ? & ? & ?). exists k. split_and!; [done..|lia]. Qed.

Lemma edge_ref_ok b p now d :
  0 < p < 2 ^ 62 -> now < 2 ^ 62 -> base_ok b ->
  obj_ok (mkClockedObject (edge_ref b p now).1 (edge_ref b p now).2 d) b p now /\ base_ok (edge_ref b p now).
Proof.
  intros Hp Hn [Hb Hb']. pose proof (edges_since_bounds b.1 p now ltac:(lia)) as (Hk & Hle & Hlast).
  unfold edge_ref, base_ok, obj_ok; cbn. split; [by exists (edges_since b.1 p now)|]. nia.
Qed.

Lemma obj_ok_base b p now d : obj_ok (mkClockedObject b.1 b.2 d) b p now.
Proof. exists 0. cbn. lia. Qed.

Section steps.
Context (s : Run) (Hs : clock_inv s).
Local Abbreviation w := (r_clocks s).
Local Abbreviation now := (r_now s).

(** The answer of an object, and its new state. *)
Lemma query_ok i :
  (i < length (clk_objects w))%nat ->
  exists o q, clk_objects w !! i = Some o /\ period w (clockDomain o) = Some q /\ 0 < q < 2 ^ 62 /\
    let b := base_of (r_base s) i in
    let o' := mkClockedObject (edge_ref b q now).1 (edge_ref b q now).2 (clockDomain o) in
    let w' := with_objects w (<[i := o']> (clk_objects w)) in
    update_object w now i = Ret w' /\ object_period w' i = Ret (o', q) /\ clock_inv (mkRun now w' (r_base s)).
Proof.
  intros Hi. apply lookup_lt_is_Some in Hi as [o Ho].
  assert (Hh : homes w !! i = Some (clockDomain o)) by (apply home_lookup; eauto).
  pose proof (to_homes _ _ (ci_tree s Hs) _ _ Hh) as Hd.
  destruct (period_pos s Hs _ Hd) as (q & Hq & Hp). pose proof (ci_now s Hs) as Hn. destruct (ci_obj s Hs i o q Ho Hq) as [Hok Hb].
  exists o, q. split_and!; [done|done|lia|lia|]. cbn zeta.
  rewrite (update_object_ok (base_of (r_base s)) now (ci_now s Hs) w (clockDomain o) q i o) by done.
  set (b := base_of (r_base s) i) in *. set (o' := mkClockedObject _ _ _). set (w' := with_objects w _).
  assert (Hi : clk_objects w' !! i = Some o').
  { apply list_lookup_insert_eq. by eapply lookup_lt_Some. }
  assert (Hhomes : homes w' = homes w).
  { unfold homes, w'; cbn. rewrite list_fmap_insert. apply list_insert_id. rewrite list_lookup_fmap, Ho. done. }
  split_and!; [done| |].
  - unfold object_period. rewrite (vread_some _ _ _ Hi). cbn.
    unfold period in Hq. apply fmap_Some in Hq as (dom & Hdom & ->). by rewrite (vread_some _ _ _ Hdom).
  - destruct Hs as [H1 H2 H3 H4 H5 H6 H7 H8 H9]. split; cbn [r_now r_clocks r_base]; try done.
    + by rewrite Hhomes.
    + rewrite H3. unfold w'; cbn. by rewrite length_insert.
    + intros j oj qj Hj Hqj. destruct (decide (j = i)) as [-> | Hne].
      * rewrite Hi in Hj. injection Hj as <-. cbn in Hqj.
        assert (qj = q) as -> by (unfold w', period in *; cbn in *; congruence).
        split; [|done]. apply edge_ref_ok; [done|lia|done].
      * unfold w' in Hj; cbn in Hj. rewrite list_lookup_insert_ne in Hj by done. by apply H7.
Qed.

Lemma step_advance t : now <= t < 2 ^ 62 -> clock_inv (mkRun t w (r_base s)).
Proof.
  intros Ht. pose proof (ci_now s Hs). destruct Hs as [H1 H2 H3 H4 H5 H6 H7 H8 H9].
  split; cbn [r_now r_clocks r_base]; try done; [lia|].
  intros i o q Ho Hq. destruct (H7 i o q Ho Hq) as [? ?]. split; [|done]. eapply obj_ok_later; [|done]. lia.
Qed.
End steps.

(** ** Voltages *)

(** [m] is the best (least) level requested by the source domains [l]. *)
Definition best_level (ds : list ClockDomain) (l : list nat) (m : Z) : Prop :=
  (exists i d, i ∈ l /\ ds !! i = Some d /\ m = _perfLevel d) /\
  (forall i d, i ∈ l -> ds !! i = Some d -> m <= _perfLevel d).

Lemma perf_max_loop_ok ds v l : forall m,
  (forall i, i ∈ l -> exists d, ds !! i = Some d /\ _voltageDomain d = v) ->
  exists r, perf_max_loop ds v m l = Ret r /\ r <= m /\ (forall i d, i ∈ l -> ds !! i = Some d -> r <= _perfLevel d) /\
    (r = m \/ exists i d, i ∈ l /\ ds !! i = Some d /\ r = _perfLevel d).
Proof.
  induction l as [|i l IH]; intros m Hl.
  - exists m. split_and!; [done|lia|set_solver|by left].
  - destruct (Hl i) as (d & Hd & Hv); [set_solver|]. cbn [perf_max_loop]. rewrite (vread_some _ _ _ Hd).
    cbn [mbind res_bind]. rewrite cassert_true by (by apply Nat.eqb_eq). cbn [mbind res_bind].
    destruct (IH (if _perfLevel d <? m then _perfLevel d else m)) as (r & Er & Hle & Hall & Hex); [set_solver|].
    exists r. split; [done|]. destruct (Z.ltb_spec (_perfLevel d) m) as [Hm | Hm].
    + split_and!; [lia| |].
      * intros j dj [-> | Hj]%elem_of_cons Hdj; [|by eapply Hall]. replace dj with d by congruence. lia.
      * right. destruct Hex as [-> | (j & dj & ? & ? & ->)]; [exists i, d|exists j, dj]; set_solver.
    + split_and!; [lia| |].
      * intros j dj [-> | Hj]%elem_of_cons Hdj; [|by eapply Hall]. replace dj with d by congruence. lia.
      * destruct Hex as [-> | (j & dj & ? & ? & ->)]; [by left|]. right. exists j, dj. set_solver.
Qed.

Lemma sanitise_ok w v vd :
  clk_voltages w !! v = Some vd -> (0 < length (voltageOpPoints vd))%nat -> Z.of_nat (length (voltageOpPoints vd)) < 2 ^ 32 ->
  (length (voltageOpPoints vd) <> 1%nat ->
   srcClockChildren vd <> [] /\
   forall i, i ∈ srcClockChildren vd -> exists d, clk_domains w !! i = Some d /\ _voltageDomain d = v /\
     0 <= _perfLevel d < Z.of_nat (length (voltageOpPoints vd))) ->
  exists b lvl, sanitiseVoltages w v
    = Ret (b, with_voltages w (<[v := mkVoltageDomain (voltageOpPoints vd) lvl (srcClockChildren vd)]> (clk_voltages w))) /\
    (length (voltageOpPoints vd) <> 1%nat -> best_level (clk_domains w) (srcClockChildren vd) lvl).
Proof.
  intros Hv Hpos Hlt Hch. unfold sanitiseVoltages. rewrite (vread_some _ _ _ Hv). cbn [mbind res_bind].
  assert (Hid : w = with_voltages w (<[v := mkVoltageDomain (voltageOpPoints vd) (v_perfLevel vd) (srcClockChildren vd)]>
    (clk_voltages w))).
  { rewrite list_insert_id; [by destruct w|]. rewrite Hv. by destruct vd. }
  unfold numVoltages. rewrite wrap_small by (unfold inword; lia).
  destruct (Z.eqb_spec (Z.of_nat (length (voltageOpPoints vd))) 1) as [H1 | H1].
  { exists false, (v_perfLevel vd). split; [by rewrite <- Hid|lia]. }
  destruct Hch as [Hne Hch]; [lia|].
  destruct (perf_max_loop_ok (clk_domains w) v (srcClockChildren vd) (u32 (-1))) as (r & Er & Hle & Hall & Hex).
  { intros i Hi. destruct (Hch i Hi) as (d & ? & ? & _). eauto. }
  assert (Hbest : best_level (clk_domains w) (srcClockChildren vd) r).
  { split; [|done]. destruct Hex as [-> | ?]; [|done]. destruct (srcClockChildren vd) as [|i l]; [done|].
    destruct (Hch i) as (d & Hd & _ & Hb); [set_solver|].
    specialize (Hall i d ltac:(set_solver) Hd). change (u32 (-1)) with (2 ^ 32 - 1) in Hall. lia. }
  rewrite Er. cbn [mbind res_bind]. destruct (Z.eqb_spec r (v_perfLevel vd)) as [-> | Hr]; cbn [negb].
  { exists false, (v_perfLevel vd). split; [by rewrite <- Hid|done]. }
  destruct Hbest as [(i & d & Hi & Hd & ->) Hb]. destruct (Hch i Hi) as (d' & Hd' & _ & Hbd).
  assert (d' = d) as -> by congruence. unfold setVoltageLevel.
  rewrite cassert_true by (apply Z.ltb_lt; lia). cbn [mbind res_bind].
  rewrite (proj2 (Z.eqb_neq _ _)) by done. cbn [mbind res_bind].
  exists true, (_perfLevel d). split; [done|]. intros _. split; [|done]. by exists i, d.
Qed.

(** ** A change of performance level *)

Lemma root_of_rooted S H d r k : tree_ok S H -> rooted S d r k -> forall fuel, (d < fuel)%nat -> root_of fuel S d = r.
Proof.
  intros Ht Hr. induction Hr as [d cs ms f id Hd|d cs ms p v r k Hd Hr IH]; intros [|fuel] Hf; try lia; cbn; rewrite Hd.
  - done.
  - destruct (to_parent _ _ Ht _ _ _ _ _ Hd). apply IH. lia.
Qed.

Lemma base_of_rebase w d now l i b x q :
  l !! i = Some b -> homes w !! i = Some x -> period w x = Some q ->
  base_of (rebase w d now l) i
  = if decide (root_of (length (shapes w)) (shapes w) x = d) then edge_ref b q now else b.
Proof.
  intros Hb Hx Hq. unfold base_of, rebase. rewrite list_lookup_imap, Hb. cbn. rewrite Hx, Hq. by case_decide.
Qed.

(** States that agree but for levels and voltages. *)
Lemma dom_ready_agree base now w w' d :
  clk_objects w' = clk_objects w -> period w' d = period w d -> dom_ready base now w d -> dom_ready base now w' d.
Proof. intros Ho Hp (q & ? & ? & ?). exists q. by rewrite Ho, Hp. Qed.

Section perf.
Context (s : Run) (Hs : clock_inv s).
Local Abbreviation w := (r_clocks s).
Local Abbreviation now := (r_now s).
Local Abbreviation S := (shapes (r_clocks s)).
Context (d : nat) (dom : ClockDomain) (f : list Z) (id l q : Z).
Context (Hd : clk_domains w !! d = Some dom) (Hk : dom_kind dom = SrcClockDomain f id).
Context (Hl : 0 <= l) (Hq : f !! Z.to_nat l = Some q).

Lemma dom_shape : S !! d = Some (children dom, members dom, SrcClockDomain f id).
Proof. unfold shapes. rewrite list_lookup_fmap, Hd. cbn. unfold shape. by rewrite Hk. Qed.

(** The state between the change of the level and that of the period. *)
Definition relevelled (vs : list VoltageDomain) : Clocks :=
  mkClocks (clk_objects w) (<[d := set_level l dom]> (clk_domains w)) vs.

Lemma relevelled_shapes vs : shapes (relevelled vs) = S.
Proof. unfold shapes; cbn. rewrite list_fmap_insert. apply list_insert_id. by rewrite list_lookup_fmap, Hd. Qed.

Lemma relevelled_period vs x : period (relevelled vs) x = period w x.
Proof.
  unfold period; cbn. destruct (decide (x = d)) as [-> | Hx].
  - rewrite list_lookup_insert_eq by (by eapply lookup_lt_Some). by rewrite Hd.
  - by rewrite list_lookup_insert_ne.
Qed.

Lemma relevelled_ready vs x : is_Some (S !! x) -> dom_ready (base_of (r_base s)) now (relevelled vs) x.
Proof. intros Hx. apply (dom_ready_agree _ _ w); [done|apply relevelled_period|]. by apply all_ready. Qed.

Lemma below_is_some x : below S d x -> is_Some (S !! x).
Proof. intros [|y p Hy _]; [by rewrite dom_shape|]. destruct Hy as (? & ? & ? & ->). done. Qed.

Lemma below_root x r k : rooted S x r k -> (below S d x <-> r = d).
Proof. intros Hr. eapply below_rooted; [apply dom_shape|done]. Qed.

Section after.
Context (vs : list VoltageDomain) (w' : Clocks).
Context (Hch : change (base_of (r_base s)) now S (relevelled vs) w' (below S d)) (Hp : period w' d = Some q).

Lemma after_shapes : shapes w' = S.
Proof. rewrite (fr_shapes _ _ (ch_frame _ _ _ _ _ _ Hch)). apply relevelled_shapes. Qed.
Lemma after_homes : homes w' = homes w.
Proof. by rewrite (fr_homes _ _ (ch_frame _ _ _ _ _ _ Hch)). Qed.

(** The new periods: those of the tree of [d] in closed form, the others as before. *)
Lemma after_period x r k : rooted S x r k -> period w' x = if decide (r = d) then Some (q * k) else period w x.
Proof.
  intros Hr. case_decide as Hrd.
  - revert Hrd. induction Hr as [x cs ms g id' Hx|x cs ms p v r k Hx Hr IH]; intros Hrd.
    + rewrite Hrd, Hp. f_equal; lia.
    + pose proof (rooted_derived _ _ _ _ _ _ _ _ Hx Hr) as Hr'.
      rewrite (ch_period _ _ _ _ _ _ Hch x cs ms p v); [|by eapply below_root|done].
      rewrite IH by done. cbn. f_equal. rewrite wrap_small; [lia|].
      pose proof Hr' as Hr2. rewrite Hrd in Hr2. pose proof (ci_sized s Hs x d (k * v) _ _ _ _ Hr2 dom_shape) as Hall.
      rewrite Forall_lookup in Hall. pose proof (Hall _ _ Hq). pose proof (rooted_pos s Hs _ _ _ Hr').
      unfold inword. nia.
  - rewrite (ch_rest _ _ _ _ _ _ Hch); [apply relevelled_period|]. by rewrite below_root.
Qed.

Lemma after_obj i o qo :
  clk_objects w' !! i = Some o -> period w' (clockDomain o) = Some qo ->
  obj_ok o (base_of (rebase w d now (r_base s)) i) qo now /\ base_ok (base_of (rebase w d now (r_base s)) i).
Proof.
  intros Ho Hqo. assert (Hh : homes w !! i = Some (clockDomain o)) by (rewrite <- after_homes; apply home_lookup; eauto).
  remember (clockDomain o) as x eqn:Ex. pose proof Hh as Hh'. apply home_lookup in Hh' as (o0 & Ho0 & Hx0).
  pose proof (to_homes _ _ (ci_tree s Hs) _ _ Hh) as Hx.
  destruct (rooted_exists _ _ (ci_tree s Hs) x Hx) as (r & k & Hr).
  destruct (period_pos s Hs x Hx) as (q0 & Hq0 & Hp0).
  assert (Hbi : exists b, r_base s !! i = Some b).
  { apply lookup_lt_is_Some. rewrite (ci_len s Hs). by eapply lookup_lt_Some. }
  destruct Hbi as [b Hbi]. assert (Eb : base_of (r_base s) i = b) by (unfold base_of; by rewrite Hbi).
  destruct (ci_obj s Hs i o0 q0 Ho0) as [Hok Hb]; [by rewrite Hx0|]. rewrite Eb in Hok, Hb.
  rewrite (base_of_rebase w d now _ i b x q0) by done.
  rewrite (root_of_rooted _ _ _ _ _ (ci_tree s Hs) Hr) by (by apply lookup_lt_is_Some).
  pose proof (ci_now s Hs). case_decide as Hrd.
  - assert (Hbel : below S d x) by (by eapply below_root).
    pose proof (ch_aligned _ _ _ _ _ _ Hch x Hbel i o0 q0 Ho0 Hx0) as Hal.
    rewrite relevelled_period, Eb in Hal. specialize (Hal Hq0). rewrite Ho in Hal. injection Hal as Hal. rewrite Hal.
    split; [apply (obj_ok_base (edge_ref b q0 now))|]. apply (edge_ref_ok b q0 now x); [done|lia|done].
  - assert (Hbel : ~ below S d x) by (by rewrite below_root).
    pose proof (ch_same _ _ _ _ _ _ Hch x Hbel i o0 Ho0 Hx0) as Hsame. rewrite Ho in Hsame. injection Hsame as <-.
    rewrite (after_period x r k Hr), decide_False in Hqo by done. replace qo with q0 by congruence. done.
Qed.

(** A domain after the change, from the one before. *)
Lemma after_dom x dx :
  clk_domains w' !! x = Some dx ->
  exists d0, clk_domains w !! x = Some d0 /\ shape dx = shape d0 /\ _voltageDomain dx = _voltageDomain d0 /\
    _perfLevel dx = (if decide (x = d) then l else _perfLevel d0).
Proof.
  intros Hx. pose proof (ch_frame _ _ _ _ _ _ Hch) as [Fs _ Fl _ Fv].
  apply (f_equal (lookup x)) in Fl. apply (f_equal (lookup x)) in Fv.
  rewrite !list_lookup_fmap, Hx in Fl. rewrite !list_lookup_fmap, Hx in Fv.
  pose proof (f_equal (lookup x) after_shapes) as Fs'. unfold shapes in Fs'.
  rewrite !list_lookup_fmap, Hx in Fs'. cbn in Fs', Fl, Fv.
  destruct (clk_domains w !! x) as [d0|] eqn:E0; [|done]. exists d0. cbn in Fs'.
  destruct (decide (x = d)) as [-> | Hne].
  - rewrite list_lookup_insert_eq in Fl by (by eapply lookup_lt_Some).
    rewrite list_lookup_insert_eq in Fv by (by eapply lookup_lt_Some). cbn in *.
    assert (d0 = dom) as -> by congruence. split_and!; congruence.
  - rewrite list_lookup_insert_ne, E0 in Fl by done. rewrite list_lookup_insert_ne, E0 in Fv by done. cbn in *. split_and!; congruence.
Qed.

Lemma after_inv :
  (forall v vd, vs !! v = Some vd -> exists vd0, clk_voltages w !! v = Some vd0 /\
     voltageOpPoints vd = voltageOpPoints vd0 /\ srcClockChildren vd = srcClockChildren vd0) ->
  length vs = length (clk_voltages w) ->
  clock_inv (mkRun now w' (rebase w d now (r_base s))).
Proof.
  intros Hvs Hlen. pose proof (ch_frame _ _ _ _ _ _ Hch) as [_ Fh _ Fvs _]. cbn in Fvs.
  assert (Hkind : forall x dx d0, clk_domains w' !! x = Some dx -> clk_domains w !! x = Some d0 -> shape dx = shape d0 ->
            dom_kind dx = dom_kind d0) by (unfold shape; congruence).
  split; cbn [r_now r_clocks r_base].
  - apply Hs.
  - rewrite after_shapes, after_homes. apply Hs.
  - unfold rebase. rewrite length_imap, (ci_len s Hs). apply (f_equal length) in Fh. unfold homes in Fh.
    rewrite !length_fmap in Fh. by rewrite Fh.
  - intros x dx g idx Hx Hkx. destruct (after_dom x dx Hx) as (d0 & H0 & Hsh & Hvd & Hlv).
    pose proof (Hkind _ _ _ Hx H0 Hsh) as Hk0. rewrite Hkx in Hk0. symmetry in Hk0.
    destruct (ci_src s Hs x d0 g idx H0 Hk0) as (? & ? & ?). rewrite Hlv.
    assert (Hr : rooted S x x 1).
    { eapply rooted_src. unfold shapes. rewrite list_lookup_fmap, H0. cbn. unfold shape. by rewrite Hk0. }
    pose proof (after_period x x 1 Hr) as Hper. unfold period in Hper. rewrite Hx, H0 in Hper. cbn in Hper.
    case_decide as Hxd; injection Hper as Hper.
    + subst x. assert (d0 = dom) as -> by congruence. assert (g = f) as -> by congruence. rewrite Hper, Hq.
      split_and!; [done|f_equal; lia|done].
    + rewrite Hper. done.
  - intros x p v cs ms Hx. rewrite after_shapes in Hx.
    assert (HpS : is_Some (S !! p)).
    { apply lookup_lt_is_Some. destruct (to_parent _ _ (ci_tree s Hs) _ _ _ _ _ Hx).
      apply lookup_lt_Some in Hx. lia. }
    destruct (rooted_exists _ _ (ci_tree s Hs) p HpS) as (r & k & Hr).
    pose proof (rooted_derived _ _ _ _ _ _ _ _ Hx Hr) as Hrx.
    rewrite (after_period _ _ _ Hr), (after_period _ _ _ Hrx).
    case_decide; [cbn; f_equal; lia|]. by eapply ci_derived.
  - rewrite after_shapes. apply Hs.
  - apply after_obj.
  - intros v vd Hv. rewrite Fvs in Hv. destruct (Hvs v vd Hv) as (vd0 & Hv0 & -> & ->).
    destruct (ci_volt s Hs v vd0 Hv0) as (Hvp & Hvl & Hiff). split_and!; [done|done|]. intros x. rewrite Hiff. split.
    + intros (d0 & g & idx & H0 & Hk0 & Hvx). assert (Hex : is_Some (clk_domains w' !! x)).
      { pose proof (f_equal (lookup x) after_shapes) as Fs'. unfold shapes in Fs'.
        rewrite !list_lookup_fmap, H0 in Fs'. destruct (clk_domains w' !! x); done. }
      destruct Hex as [dx Hx]. destruct (after_dom x dx Hx) as (d1 & H1 & Hsh & Hvd & _).
      assert (d1 = d0) as -> by congruence. exists dx, g, idx. rewrite (Hkind _ _ _ Hx H0 Hsh). split_and!; congruence.
    + intros (dx & g & idx & Hx & Hkx & Hvx). destruct (after_dom x dx Hx) as (d0 & H0 & Hsh & Hvd & _).
      exists d0, g, idx. rewrite <- (Hkind _ _ _ Hx H0 Hsh). split_and!; congruence.
  - intros x dx g idx Hx Hkx. destruct (after_dom x dx Hx) as (d0 & H0 & Hsh & Hvd & _).
    pose proof (Hkind _ _ _ Hx H0 Hsh) as Hk0. rewrite Hkx in Hk0. symmetry in Hk0.
    destruct (ci_vsrc s Hs x d0 g idx H0 Hk0) as (vd0 & Hv0 & Hor). rewrite Hvd, Fvs.
    assert (Hv : is_Some (vs !! _voltageDomain d0)).
    { apply lookup_lt_is_Some. rewrite Hlen. by eapply lookup_lt_Some. }
    destruct Hv as [vd Hv]. destruct (Hvs _ _ Hv) as (vd1 & Hv1 & Eo & _). exists vd. split; [done|].
    assert (vd1 = vd0) as -> by congruence. by rewrite Eo.
Qed.
End after.
End perf.

Lemma set_level_dom w d l x dx :
  clk_domains w !! d = Some dx ->
  (<[d := set_level l dx]> (clk_domains w)) !! x
  = if decide (x = d) then Some (set_level l dx) else clk_domains w !! x.
Proof.
  intros Hd. case_decide as Hx; [subst; apply list_lookup_insert_eq; by eapply lookup_lt_Some|].
  by apply list_lookup_insert_ne.
Qed.

Lemma perf_ok s d dom f id l :
  clock_inv s -> clk_domains (r_clocks s) !! d = Some dom -> dom_kind dom = SrcClockDomain f id ->
  0 <= l < Z.of_nat (length f) -> l <> _perfLevel dom ->
  exists w', setPerfLevel (r_clocks s) (r_now s) d l = Ret w' /\
    clock_inv (mkRun (r_now s) w' (rebase (r_clocks s) d (r_now s) (r_base s))) /\
    shapes w' = shapes (r_clocks s) /\ period w' d = f !! Z.to_nat l /\
    (forall x d0, clk_domains (r_clocks s) !! x = Some d0 -> exists dx, clk_domains w' !! x = Some dx /\
       dom_kind dx = dom_kind d0 /\ _perfLevel dx = if decide (x = d) then l else _perfLevel d0) /\
    (forall x r k, rooted (shapes (r_clocks s)) x r k -> r <> d -> period w' x = period (r_clocks s) x) /\
    (forall vd, clk_voltages w' !! _voltageDomain dom = Some vd -> length (voltageOpPoints vd) <> 1%nat ->
       best_level (clk_domains w') (srcClockChildren vd) (v_perfLevel vd)).
Proof.
  intros Hs Hd Hk Hl Hne. set (w := r_clocks s) in *.
  destruct (ci_src s Hs d dom f id Hd Hk) as (Hlv & _ & Hlen).
  assert (Hf : exists q, f !! Z.to_nat l = Some q) by (apply lookup_lt_is_Some; lia). destruct Hf as [q Hq].
  destruct (ci_vsrc s Hs d dom f id Hd Hk) as (vd & Hv & Hvl).
  destruct (ci_volt s Hs _ vd Hv) as (Hvpos & Hvlt & Hch).
  assert (Hdl : forall x, (<[d := set_level l dom]> (clk_domains w)) !! x
            = if decide (x = d) then Some (set_level l dom) else clk_domains w !! x).
  { intros x. by apply set_level_dom. }
  unfold setPerfLevel. rewrite (vread_some _ _ _ Hd). cbn [mbind res_bind].
  rewrite cassert_true; cycle 1.
  { unfold validPerfLevel, numPerfLevels, freq_points. rewrite Hk, wrap_small by (unfold inword; lia). apply Z.ltb_lt; lia. }
  cbn [mbind res_bind]. rewrite (proj2 (Z.eqb_neq _ _)) by done.
  destruct (sanitise_ok (with_domains w (<[d := set_level l dom]> (clk_domains w))) (_voltageDomain dom) vd)
    as (b & lvl & Es & Hbest); [done|done|done| |].
  { intros Hn1. assert (Hlf : length (voltageOpPoints vd) = length f) by tauto.
    split.
    - assert (Hin : d ∈ srcClockChildren vd) by (apply Hch; by exists dom, f, id). intros E. rewrite E in Hin. set_solver.
    - intros i Hi. apply Hch in Hi as (di & g & idi & Hi & Hki & Hvi). cbn. rewrite Hdl. case_decide as Hid.
      + subst i. exists (set_level l dom). cbn. split_and!; [done|done|lia|lia].
      + exists di. destruct (ci_vsrc s Hs i di g idi Hi Hki) as (vdi & Hvdi & Hor). rewrite Hvi in Hvdi.
        assert (vdi = vd) as -> by congruence. destruct (ci_src s Hs i di g idi Hi Hki) as (Hp0 & Hlk & _).
        apply lookup_lt_Some in Hlk. split_and!; [done|done|done|]. destruct Hor as [? | ->]; lia. }
  rewrite Es. cbn [mbind res_bind]. change (clk_domains (with_voltages _ _)) with (<[d := set_level l dom]> (clk_domains w)).
  rewrite (vread_some _ d (set_level l dom)); cycle 1.
  { by rewrite Hdl, decide_True. }
  cbn [mbind res_bind]. unfold clkPeriodAtPerfLevel, freq_points. cbn [dom_kind set_level _perfLevel]. rewrite Hk.
  rewrite (vread_some _ _ _ Hq). cbn [mbind res_bind]. 
  match goal with |- context [with_voltages _ ?x] => set (vs := x) end.
  change (with_voltages _ _) with (relevelled s d dom l vs).
  assert (Hqpos : q <> 0).
  { pose proof (ci_sized s Hs d d 1 _ _ f id (rooted_src _ _ _ _ _ _ (dom_shape s d dom f id Hd Hk))
      (dom_shape s d dom f id Hd Hk)) as Hall. rewrite Forall_lookup in Hall. apply Hall in Hq. lia. }
  destruct (setClockPeriod_ok (base_of (r_base s)) (r_now s) (ci_now s Hs) (shapes w) (homes w) (ci_tree s Hs)
    (relevelled s d dom l vs) d q (children dom) (members dom) f id) as (w' & E' & C' & P');
    [by apply relevelled_shapes|done|exact (dom_shape s d dom f id Hd Hk)|done| |].
  { intros x Hx. eapply relevelled_ready; [done|done|]. by eapply below_is_some. }
  exists w'. split; [exact E'|]. split_and!.
  - eapply (after_inv s Hs d dom f id l q); [done|done|lia|done|exact C'|done| |].
    + intros v vd' Hv'. unfold vs in Hv'. destruct (decide (v = _voltageDomain dom)) as [-> | Hvv].
      * rewrite list_lookup_insert_eq in Hv' by (by eapply lookup_lt_Some). injection Hv' as <-. by exists vd.
      * rewrite list_lookup_insert_ne in Hv' by done. by exists vd'.
    + unfold vs. by rewrite length_insert.
  - by eapply after_shapes.
  - congruence.
  - intros x d0 H0. assert (Hx : is_Some (clk_domains w' !! x)).
    { pose proof (after_shapes s d dom l Hd vs w' C') as Esh. apply (f_equal (lookup x)) in Esh. unfold shapes in Esh.
      change (r_clocks s) with w in Esh. rewrite !list_lookup_fmap, H0 in Esh. destruct (clk_domains w' !! x); done. }
    destruct Hx as [dx Hx]. destruct (after_dom s d dom l Hd vs w' C' x dx Hx) as (d1 & H1 & Hsh & _ & Hlev).
    change (r_clocks s) with w in H1. assert (d1 = d0) as -> by congruence. exists dx. unfold shape in Hsh.
    split_and!; congruence.
  - intros x r k Hx Hr. rewrite (after_period s Hs d dom f id l q Hd Hk Hq vs w' C' P' x r k Hx). by rewrite decide_False.
  - pose proof (ch_frame _ _ _ _ _ _ C') as [_ _ Fl Fv _]. cbn in Fl, Fv. rewrite Fv. intros vd' Hv'.
    unfold vs in Hv'. rewrite list_lookup_insert_eq in Hv' by (by eapply lookup_lt_Some). injection Hv' as <-. cbn.
    intros Hn1. destruct (Hbest Hn1) as [(i & di & Hi & Hdi & Elv) Hmin]. cbn in Hdi, Hmin.
    assert (Hlev : forall x, _perfLevel <$> clk_domains w' !! x
              = _perfLevel <$> (<[d := set_level l dom]> (clk_domains w)) !! x).
    { intros x. rewrite <- !list_lookup_fmap. by rewrite Fl. }
    split.
    + pose proof (Hlev i) as Hi'. rewrite Hdi in Hi'. apply fmap_Some in Hi' as (dx & Hx & Ex). exists i, dx.
      split_and!; [done|done|congruence].
    + intros j dj Hj Hdj. pose proof (Hlev j) as Hj'. rewrite Hdj in Hj'. symmetry in Hj'.
      apply fmap_Some in Hj' as (dx & Hx & ->). by eapply Hmin.
Qed.

(** ** Construction *)

Definition kind_at (S : list (list nat * list nat * DomainKind)) (d : nat) : option DomainKind := snd <$> S !! d.

Lemma derives_kind S c p : derives S c p <-> exists v, kind_at S c = Some (DerivedClockDomain p v).
Proof.
  unfold derives, kind_at. split.
  - intros (cs & ms & v & ->). by exists v.
  - intros (v & Hv). apply fmap_Some in Hv as ([[cs ms] k] & -> & Hk). cbn in Hk. subst k. by eexists _, _, _.
Qed.

Lemma kind_at_lookup S d k : kind_at S d = Some k <-> exists cs ms, S !! d = Some (cs, ms, k).
Proof.
  unfold kind_at. split.
  - intros Hk. apply fmap_Some in Hk as ([[cs ms] k'] & -> & ->). by eexists _, _.
  - by intros (cs & ms & ->).
Qed.

(** Roots and factors depend on the kinds of a domain and its ancestors only. *)
Lemma rooted_agree S S' H d r k :
  tree_ok S H -> (forall x, (x <= d)%nat -> kind_at S' x = kind_at S x) -> rooted S d r k -> rooted S' d r k.
Proof.
  intros Ht Hk Hr. induction Hr as [d cs ms f id Hd|d cs ms p v r k Hd Hr IH].
  - destruct (proj1 (kind_at_lookup S' d (SrcClockDomain f id))) as (cs' & ms' & Hd'); [|by eapply rooted_src].
    rewrite Hk by lia. unfold kind_at. by rewrite Hd.
  - destruct (proj1 (kind_at_lookup S' d (DerivedClockDomain p v))) as (cs' & ms' & Hd'); [|eapply rooted_derived; [done|]].
    + rewrite Hk by lia. unfold kind_at. by rewrite Hd.
    + apply IH. intros x Hx. apply Hk. destruct (to_parent _ _ Ht _ _ _ _ _ Hd). lia.
Qed.

(** A new object. *)
Lemma tree_ok_object S H d cs ms k :
  tree_ok S H -> S !! d = Some (cs, ms, k) -> tree_ok (<[d := (cs, ms ++ [length H], k)]> S) (H ++ [d]).
Proof.
  intros Ht Hd. set (S' := <[d := _]> S). assert (Hlt : (d < length S)%nat) by (by eapply lookup_lt_Some).
  assert (Hk : forall x, kind_at S' x = kind_at S x).
  { intros x. unfold kind_at, S'. destruct (decide (x = d)) as [-> | Hx];
      [rewrite list_lookup_insert_eq by done; by rewrite Hd|by rewrite list_lookup_insert_ne]. }
  assert (Hder : forall c p, derives S' c p <-> derives S c p) by (intros; rewrite !derives_kind; by rewrite Hk).
  assert (Hlook : forall x cs' ms' k', S' !! x = Some (cs', ms', k') -> exists ms0, S !! x = Some (cs', ms0, k') /\
            ms' = if decide (x = d) then ms0 ++ [length H] else ms0).
  { intros x cs' ms' k'. unfold S'. destruct (decide (x = d)) as [-> | Hx].
    - rewrite list_lookup_insert_eq by done. intros [= <- <- <-]. by exists ms.
    - rewrite list_lookup_insert_ne by done. intros ->. by exists ms'. }
  split.
  - intros x cs' ms' k' Hx. destruct (Hlook _ _ _ _ Hx) as (ms0 & Hx0 & _).
    destruct (to_children _ _ Ht _ _ _ _ Hx0) as [? Hc]. split; [done|]. intros c. by rewrite Hc, Hder.
  - intros x cs' ms' k' Hx. destruct (Hlook _ _ _ _ Hx) as (ms0 & Hx0 & ->).
    destruct (to_members _ _ Ht _ _ _ _ Hx0) as [Hnd Hm].
    assert (Hfresh : length H ∉ ms0) by (rewrite Hm; intros E; apply lookup_lt_Some in E; lia).
    split.
    + case_decide; [|done]. apply NoDup_app. split_and!; [done|set_solver|apply NoDup_singleton].
    + intros i. rewrite lookup_app. case_decide as Hxd.
      * rewrite elem_of_app, list_elem_of_singleton, Hm. destruct (H !! i) as [h|] eqn:Hi.
        -- split; [intros [? | ->]; [done|]|tauto]. apply lookup_lt_Some in Hi. lia.
        -- apply lookup_ge_None in Hi. split.
           ++ intros [E | ->]; [done|]. rewrite Nat.sub_diag. cbn. by subst.
           ++ intros E. right. destruct (i - length H)%nat eqn:Ei; [lia|done].
      * rewrite Hm. destruct (H !! i) as [h|] eqn:Hi; [done|]. split; [done|].
        intros E. destruct (i - length H)%nat; cbn in E; [|done]. injection E as E. by rewrite E in Hxd.
  - intros c cs' ms' p v Hc. destruct (Hlook _ _ _ _ Hc) as (ms0 & Hc0 & _). by eapply (to_parent _ _ Ht).
  - intros i h Hi. assert (Hh : is_Some (S !! h)).
    { apply lookup_app_Some in Hi as [Hi | [_ Hi]]; [by eapply (to_homes _ _ Ht)|].
      destruct (i - length H)%nat; cbn in Hi; [|done]. injection Hi as <-. by rewrite Hd. }
    apply lookup_lt_is_Some. unfold S'. rewrite length_insert. by apply lookup_lt_is_Some.
Qed.

(** A new source domain. *)
Lemma tree_ok_src S H f id : tree_ok S H -> tree_ok (S ++ [([], [], SrcClockDomain f id)]) H.
Proof.
  intros Ht. set (S' := S ++ _).
  assert (Hlook : forall x sh, S' !! x = Some sh -> S !! x = Some sh \/ (x = length S /\ sh = ([], [], SrcClockDomain f id))).
  { intros x sh Hx. apply lookup_app_Some in Hx as [? | [? Hx]]; [by left|]. right.
    destruct (x - length S)%nat eqn:E; cbn in Hx; [|done]. injection Hx as <-. split; [lia|done]. }
  assert (Hder : forall c p, derives S' c p <-> derives S c p).
  { intros c p. split; intros (cs & ms & v & Hc).
    - apply Hlook in Hc as [? | [_ ?]]; [by eexists _, _, _|done].
    - eexists _, _, _. by apply lookup_app_l_Some. }
  split.
  - intros d cs ms k Hd. apply Hlook in Hd as [Hd | [-> [= -> -> _]]].
    + destruct (to_children _ _ Ht _ _ _ _ Hd) as [? Hc]. split; [done|]. intros c. by rewrite Hc, Hder.
    + split; [apply NoDup_nil_2|]. intros c. rewrite Hder. split; [by intros ?%not_elem_of_nil|].
      intros Hc. pose proof (derives_lt _ _ Ht _ _ Hc). destruct Hc as (? & ? & ? & Hc). apply lookup_lt_Some in Hc. lia.
  - intros d cs ms k Hd. apply Hlook in Hd as [Hd | [-> [= -> -> _]]]; [by eapply (to_members _ _ Ht)|].
    split; [apply NoDup_nil_2|]. intros i. split; [by intros ?%not_elem_of_nil|]. intros Hi.
    apply (to_homes _ _ Ht) in Hi as [? Hi]. apply lookup_lt_Some in Hi. lia.
  - intros c cs ms p v Hc. apply Hlook in Hc as [Hc | [_ ?]]; [by eapply (to_parent _ _ Ht)|done].
  - intros i d Hi. apply (to_homes _ _ Ht) in Hi as [sh Hd]. exists sh. by apply lookup_app_l_Some.
Qed.

(** A new derived domain. *)
Lemma tree_ok_derived S H p cs ms k v :
  tree_ok S H -> S !! p = Some (cs, ms, k) -> 1 <= v ->
  tree_ok (<[p := (cs ++ [length S], ms, k)]> S ++ [([], [], DerivedClockDomain p v)]) H.
Proof.
  intros Ht Hp Hv. set (S' := _ ++ _). assert (Hlt : (p < length S)%nat) by (by eapply lookup_lt_Some).
  assert (Hlook : forall x cs' ms' k', S' !! x = Some (cs', ms', k') ->
            (exists cs0, S !! x = Some (cs0, ms', k') /\ cs' = if decide (x = p) then cs0 ++ [length S] else cs0) \/
            (x = length S /\ cs' = [] /\ ms' = [] /\ k' = DerivedClockDomain p v)).
  { intros x cs' ms' k' Hx. apply lookup_app_Some in Hx as [Hx | [Hge Hx]]; rewrite ?length_insert in *.
    - left. destruct (decide (x = p)) as [-> | Hne].
      + rewrite list_lookup_insert_eq in Hx by done. injection Hx as <- <- <-. by exists cs.
      + rewrite list_lookup_insert_ne in Hx by done. by exists cs'.
    - right. destruct (x - length S)%nat eqn:E; cbn in Hx; [|done]. injection Hx as <- <- <-. split; [lia|done]. }
  assert (Hold : forall x, (x < length S)%nat -> kind_at S' x = kind_at S x).
  { intros x Hx. unfold kind_at, S'. rewrite lookup_app_l by (by rewrite length_insert).
    destruct (decide (x = p)) as [-> | Hne]; [rewrite list_lookup_insert_eq by done; by rewrite Hp|
      by rewrite list_lookup_insert_ne]. }
  assert (Hnew : S' !! length S = Some ([], [], DerivedClockDomain p v)).
  { unfold S'. rewrite lookup_app_r by (by rewrite length_insert). by rewrite length_insert, Nat.sub_diag. }
  assert (Hder : forall c q, derives S' c q <-> derives S c q \/ (c = length S /\ q = p)).
  { intros c q. rewrite !derives_kind. split.
    - intros (v' & Hc). pose proof Hc as Hc'. apply kind_at_lookup in Hc' as (cs' & ms' & Hl).
      apply Hlook in Hl as [(cs0 & Hl & _) | (-> & _ & _ & [= -> ->])]; [|by right]. left. exists v'.
      apply kind_at_lookup. by eexists _, _.
    - intros [(v' & Hc) | [-> ->]].
      + exists v'. rewrite Hold; [done|]. apply kind_at_lookup in Hc as (? & ? & Hc). by eapply lookup_lt_Some.
      + exists v. apply kind_at_lookup. by eexists _, _. }
  assert (Hnone : forall c, ~ derives S c (length S)).
  { intros c Hc. pose proof (derives_lt _ _ Ht _ _ Hc). destruct Hc as (? & ? & ? & Hc). apply lookup_lt_Some in Hc. lia. }
  split.
  - intros d cs' ms' k' Hd. apply Hlook in Hd as [(cs0 & Hd & ->) | (-> & -> & _ & _)].
    + destruct (to_children _ _ Ht _ _ _ _ Hd) as [Hnd Hc].
      assert (Hfresh : length S ∉ cs0) by (rewrite Hc; intros (? & ? & ? & E); apply lookup_lt_Some in E; lia).
      case_decide as Hdp.
      * subst d. split; [apply NoDup_app; split_and!; [done|set_solver|apply NoDup_singleton]|].
        intros c. rewrite elem_of_app, list_elem_of_singleton, Hc, Hder. tauto.
      * split; [done|]. intros c. rewrite Hc, Hder. tauto.
    + split; [apply NoDup_nil_2|]. intros c. rewrite Hder. split; [by intros ?%not_elem_of_nil|].
      intros [Hc | [_ E]]; [by apply Hnone in Hc|lia].
  - intros d cs' ms' k' Hd. apply Hlook in Hd as [(cs0 & Hd & ->) | (-> & _ & -> & _)]; [by eapply (to_members _ _ Ht)|].
    split; [apply NoDup_nil_2|]. intros i. split; [by intros ?%not_elem_of_nil|]. intros Hi.
    apply (to_homes _ _ Ht) in Hi as [? Hi]. apply lookup_lt_Some in Hi. lia.
  - intros c cs' ms' q v' Hc. apply Hlook in Hc as [(cs0 & Hc & _) | (-> & _ & _ & [= -> ->])];
      [by eapply (to_parent _ _ Ht)|done].
  - intros i d Hi. apply (to_homes _ _ Ht) in Hi. apply lookup_lt_is_Some. apply lookup_lt_is_Some in Hi.
    unfold S'. rewrite length_app, length_insert. lia.
Qed.

Section construct.
Context (s : Run) (Hs : clock_inv s).
Local Abbreviation w := (r_clocks s).
Local Abbreviation now := (r_now s).

Lemma base_of_app l b i : (i < length l)%nat -> base_of (l ++ [b]) i = base_of l i.
Proof. intros Hi. unfold base_of. by rewrite lookup_app_l. Qed.

Lemma new_object d :
  (d < length (clk_domains w))%nat ->
  exists w', ClockedObject_new w d = Ret w' /\ clock_inv (mkRun now w' (r_base s ++ [(0, 0)])).
Proof.
  intros Hd. apply lookup_lt_is_Some in Hd as [dom Hd].
  assert (Hsh : shapes w !! d = Some (children dom, members dom, dom_kind dom)).
  { unfold shapes. by rewrite list_lookup_fmap, Hd. }
  assert (Hlen : length (homes w) = length (clk_objects w)) by (unfold homes; by rewrite length_fmap).
  unfold ClockedObject_new, registerWithClockDomain. cbn [clk_domains with_objects]. rewrite (vread_some _ _ _ Hd).
  cbn [mbind res_bind]. rewrite cassert_true; cycle 1.
  { apply bool_decide_true. destruct (to_members _ _ (ci_tree s Hs) _ _ _ _ Hsh) as [_ ->].
    intros E. apply lookup_lt_Some in E. lia. }
  cbn [mbind res_bind]. set (w' := with_domains _ _). exists w'. split; [done|].
  assert (Eh : homes w' = homes w ++ [d]) by (unfold homes, w'; cbn; by rewrite fmap_app).
  assert (Es : shapes w' = <[d := (children dom, members dom ++ [length (homes w)], dom_kind dom)]> (shapes w)).
  { unfold shapes, w'; cbn. by rewrite list_fmap_insert, Hlen. }
  assert (Hk : forall x, kind_at (shapes w') x = kind_at (shapes w) x).
  { intros x. rewrite Es. unfold kind_at. destruct (decide (x = d)) as [-> | Hx].
    - rewrite list_lookup_insert_eq by (by eapply lookup_lt_Some). by rewrite Hsh.
    - by rewrite list_lookup_insert_ne. }
  assert (Hdom : forall x dx, clk_domains w' !! x = Some dx -> exists d0, clk_domains w !! x = Some d0 /\
            _clockPeriod dx = _clockPeriod d0 /\ dom_kind dx = dom_kind d0 /\ _perfLevel dx = _perfLevel d0 /\
            _voltageDomain dx = _voltageDomain d0).
  { intros x dx. unfold w'; cbn. destruct (decide (x = d)) as [-> | Hx].
    - rewrite list_lookup_insert_eq by (by eapply lookup_lt_Some). intros [= <-]. by exists dom.
    - rewrite list_lookup_insert_ne by done. intros ->. by exists dx. }
  assert (Hper : forall x, period w' x = period w x).
  { intros x. unfold period, w'; cbn. destruct (decide (x = d)) as [-> | Hx].
    - rewrite list_lookup_insert_eq by (by eapply lookup_lt_Some). by rewrite Hd.
    - by rewrite list_lookup_insert_ne. }
  assert (Hback : forall x d0, clk_domains w !! x = Some d0 -> exists dx, clk_domains w' !! x = Some dx /\
            dom_kind dx = dom_kind d0 /\ _voltageDomain dx = _voltageDomain d0).
  { intros x d0. unfold w'; cbn. destruct (decide (x = d)) as [-> | Hx].
    - rewrite list_lookup_insert_eq by (by eapply lookup_lt_Some). rewrite Hd. intros [= <-]. eexists; split; [done|done].
    - rewrite list_lookup_insert_ne by done. intros ->. by exists d0. }
  pose proof (tree_ok_object _ _ _ _ _ _ (ci_tree s Hs) Hsh) as Ht'. rewrite <- Eh, <- Es in Ht'.
  split; cbn [r_now r_clocks r_base].
  - apply Hs.
  - done.
  - rewrite length_app, (ci_len s Hs). unfold w'; cbn. rewrite length_app. done.
  - intros x dx f id Hx Hkx. destruct (Hdom x dx Hx) as (d0 & H0 & -> & E2 & -> & _). rewrite E2 in Hkx.
    by apply (ci_src s Hs x d0 f id).
  - intros x p v cs ms Hx. rewrite !Hper. pose proof (Hk x) as E. unfold kind_at in E. rewrite Hx in E. symmetry in E.
    apply kind_at_lookup in E as (cs0 & ms0 & E). by eapply (ci_derived s Hs).
  - intros x r k cs ms f id Hr Hrs. pose proof (Hk r) as E. unfold kind_at in E. rewrite Hrs in E. symmetry in E.
    apply kind_at_lookup in E as (cs0 & ms0 & E). eapply (ci_sized s Hs x r k); [|exact E].
    eapply rooted_agree; [exact Ht'| |exact Hr]. intros; by rewrite Hk.
  - intros i o q Ho Hq. rewrite Hper in Hq. unfold w' in Ho; cbn in Ho. apply lookup_app_Some in Ho as [Ho | [Hge Ho]].
    + rewrite base_of_app by (rewrite (ci_len s Hs); by eapply lookup_lt_Some). by apply (ci_obj s Hs).
    + destruct (i - length (clk_objects w))%nat eqn:E; cbn in Ho; [|done]. injection Ho as <-.
      unfold base_of. rewrite lookup_app_r by (rewrite (ci_len s Hs); lia). rewrite (ci_len s Hs), E. cbn.
      split; [exists 0; cbn; lia|unfold base_ok; cbn; lia].
  - intros v vd Hv. destruct (ci_volt s Hs v vd Hv) as (? & ? & Hiff). split_and!; [done|done|]. intros x.
    rewrite Hiff. split.
    + intros (d0 & f & id & H0' & Hk0 & Hv0). destruct (Hback x d0 H0') as (dx & Hx & E1 & E2). exists dx, f, id.
      split_and!; congruence.
    + intros (dx & f & id & Hx & Hk0 & Hv0). destruct (Hdom x dx Hx) as (d0 & H0' & _ & E2 & _ & E4). exists d0, f, id.
      split_and!; congruence.
  - intros x dx f id Hx Hkx. destruct (Hdom x dx Hx) as (d0 & H0 & _ & E2 & _ & ->). rewrite E2 in Hkx.
    by apply (ci_vsrc s Hs x d0 f id).
Qed.

Lemma new_voltage v :
  v <> [] -> descending v = true -> Z.of_nat (length v) < 2 ^ 32 ->
  exists w', VoltageDomain_new w v = Ret w' /\ clock_inv (mkRun now w' (r_base s)).
Proof.
  intros Hne Hdesc Hlen. unfold VoltageDomain_new. rewrite (proj2 (is_nil_false v)) by done. rewrite Hdesc. cbn [negb].
  eexists; split; [done|]. destruct Hs as [H1 H2 H3 H4 H5 H6 H7 H8 H9].
  split; cbn [r_now r_clocks r_base with_voltages clk_voltages clk_domains clk_objects]; try done.
  - intros u vd Hu. apply lookup_app_Some in Hu as [Hu | [Hge Hu]]; [by apply H8|].
    destruct (u - _)%nat eqn:E; cbn in Hu; [|done]. injection Hu as <-. cbn. split_and!; [by destruct v; cbn; [|lia]|done|].
    intros d. split; [by intros ?%not_elem_of_nil|]. intros (dom & f & id & Hd & Hk & Hv).
    destruct (H9 d dom f id Hd Hk) as (vd & Hvd & _). apply lookup_lt_Some in Hvd. lia.
  - intros d dom f id Hd Hk. destruct (H9 d dom f id Hd Hk) as (vd & Hvd & ?). exists vd. split; [|done].
    by apply lookup_app_l_Some.
Qed.

Definition same_dom (d d0 : ClockDomain) : Prop :=
  _clockPeriod d = _clockPeriod d0 /\ dom_kind d = dom_kind d0 /\ _perfLevel d = _perfLevel d0 /\
  _voltageDomain d = _voltageDomain d0.

Lemma period_same w1 w2 x d d0 :
  clk_domains w1 !! x = Some d -> clk_domains w2 !! x = Some d0 -> same_dom d d0 -> period w1 x = period w2 x.
Proof. intros H1 H2 (E & _). unfold period. rewrite H1, H2. cbn. congruence. Qed.

(** What a new domain must satisfy. *)
Definition new_dom_ok (w' : Clocks) (dn : ClockDomain) : Prop :=
  match dom_kind dn with
  | SrcClockDomain f _ =>
      0 <= _perfLevel dn /\ f !! Z.to_nat (_perfLevel dn) = Some (_clockPeriod dn) /\ Z.of_nat (length f) < 2 ^ 32 /\
      Forall (fun x => 0 < x < 2 ^ 62) f /\
      exists vd, clk_voltages w' !! _voltageDomain dn = Some vd /\
        (length (voltageOpPoints vd) = 1%nat \/ length (voltageOpPoints vd) = length f)
  | DerivedClockDomain p v =>
      Some (_clockPeriod dn) = (fun q => q * v) <$> period w p /\
      forall r k f id cs ms, rooted (shapes w) p r k -> shapes w !! r = Some (cs, ms, SrcClockDomain f id) ->
        Forall (fun x => x * (k * v) < 2 ^ 62) f
  end.

(** Appending a domain to a consistent state. *)
Lemma append_inv w' dn (n := length (clk_domains w)) :
  clk_objects w' = clk_objects w -> tree_ok (shapes w') (homes w') ->
  clk_domains w' !! n = Some dn ->
  (forall x dx, clk_domains w' !! x = Some dx -> x <> n -> exists d0, clk_domains w !! x = Some d0 /\ same_dom dx d0) ->
  (forall x d0, clk_domains w !! x = Some d0 -> exists dx, clk_domains w' !! x = Some dx /\ same_dom dx d0) ->
  new_dom_ok w' dn ->
  (forall v vd, clk_voltages w' !! v = Some vd -> exists vd0, clk_voltages w !! v = Some vd0 /\
     voltageOpPoints vd = voltageOpPoints vd0 /\
     forall d, d ∈ srcClockChildren vd <->
       d ∈ srcClockChildren vd0 \/ (d = n /\ (exists f id, dom_kind dn = SrcClockDomain f id) /\ _voltageDomain dn = v)) ->
  (forall v vd0, clk_voltages w !! v = Some vd0 -> exists vd, clk_voltages w' !! v = Some vd /\
     voltageOpPoints vd = voltageOpPoints vd0) ->
  clock_inv (mkRun now w' (r_base s)).
Proof.
  intros Ho Ht' Hn Hdom Hback Hok Hv1 Hv2.
  assert (Hlt : forall x d0, clk_domains w !! x = Some d0 -> x <> n) by (intros x d0 Hx ->; apply lookup_lt_Some in Hx; lia).
  assert (Hper : forall x, x <> n -> period w' x = period w x).
  { intros x Hx. destruct (clk_domains w' !! x) as [dx|] eqn:E.
    - destruct (Hdom x dx E Hx) as (d0 & H0 & Hsame). by eapply period_same.
    - destruct (clk_domains w !! x) as [d0|] eqn:E0; [destruct (Hback x d0 E0) as (? & ? & _); congruence|].
      unfold period. by rewrite E, E0. }
  assert (Hk : forall x, x <> n -> kind_at (shapes w') x = kind_at (shapes w) x).
  { intros x Hx. unfold kind_at, shapes. rewrite !list_lookup_fmap. destruct (clk_domains w' !! x) as [dx|] eqn:E.
    - destruct (Hdom x dx E Hx) as (d0 & -> & _ & E2 & _). cbn. by rewrite E2.
    - destruct (clk_domains w !! x) as [d0|] eqn:E0; [destruct (Hback x d0 E0) as (? & ? & _); congruence|done]. }
  assert (Hkn : kind_at (shapes w') n = Some (dom_kind dn)) by (unfold kind_at, shapes; by rewrite list_lookup_fmap, Hn).
  assert (Hlow : forall x r k, rooted (shapes w') x r k -> (x < n)%nat -> rooted (shapes w) x r k).
  { intros x r k Hr Hx. eapply rooted_agree; [exact Ht'| |exact Hr]. intros y Hy. symmetry. apply Hk. lia. }
  split; cbn [r_now r_clocks r_base].
  - apply Hs.
  - done.
  - rewrite Ho. apply Hs.
  - intros x dx f id Hx Hkx. destruct (decide (x = n)) as [-> | Hne].
    + assert (dx = dn) as -> by congruence. unfold new_dom_ok in Hok. rewrite Hkx in Hok. tauto.
    + destruct (Hdom x dx Hx Hne) as (d0 & H0 & -> & E2 & -> & _). rewrite E2 in Hkx. by apply (ci_src s Hs x d0 f id).
  - intros x p v cs ms Hx. destruct (to_parent _ _ Ht' _ _ _ _ _ Hx) as [Hp _].
    assert (Hxn : (x <= n)%nat).
    { destruct (decide (x = n)) as [-> | Hne]; [done|]. pose proof (Hk x Hne) as E. unfold kind_at in E at 1.
      rewrite Hx in E. symmetry in E. apply kind_at_lookup in E as (? & ? & E). apply lookup_lt_Some in E.
      unfold shapes in E. rewrite length_fmap in E. unfold n. lia. }
    rewrite (Hper p) by lia. destruct (decide (x = n)) as [-> | Hne].
    + pose proof Hkn as E. unfold kind_at in E. rewrite Hx in E. cbn in E. injection E as E. unfold new_dom_ok in Hok.
      rewrite <- E in Hok. destruct Hok as [Hok _]. unfold period at 1. by rewrite Hn.
    + rewrite Hper by done. pose proof (Hk x Hne) as E. unfold kind_at in E at 1. rewrite Hx in E. symmetry in E.
      apply kind_at_lookup in E as (? & ? & E). by eapply (ci_derived s Hs).
  - intros x r k cs ms f id Hr Hrs. destruct (decide (x = n)) as [Hxn | Hne].
    + destruct Hr as [x cs' ms' g id' Hd|x cs' ms' p v r k Hd Hr]; rewrite Hxn in *.
      * pose proof Hkn as E. unfold kind_at in E. rewrite Hrs in E. cbn in E. injection E as E.
        unfold new_dom_ok in Hok. rewrite <- E in Hok. destruct Hok as (_ & _ & _ & Hall & _).
        eapply Forall_impl; [exact Hall|]. cbn. intros; lia.
      * pose proof Hkn as E. unfold kind_at in E. rewrite Hd in E. cbn in E. injection E as E.
        unfold new_dom_ok in Hok. rewrite <- E in Hok. destruct Hok as [_ Hsz].
        destruct (to_parent _ _ Ht' _ _ _ _ _ Hd) as [Hp _]. pose proof (Hlow _ _ _ Hr Hp) as Hr0.
        destruct (rooted_is_src s _ _ _ Hr0) as (cs0 & ms0 & g & idg & Hg).
        assert (Hrn : r <> n).
        { intros ->. apply lookup_lt_Some in Hg. unfold shapes in Hg. rewrite length_fmap in Hg. unfold n in Hg. lia. }
        pose proof (Hk r Hrn) as Er. unfold kind_at in Er. rewrite Hrs, Hg in Er. cbn in Er. injection Er as <- <-.
        specialize (Hsz r k f id cs0 ms0 Hr0 Hg). pose proof (ci_sized s Hs p r k _ _ _ _ Hr0 Hg) as Hs0.
        rewrite Forall_forall in *. intros y Hy. specialize (Hsz y Hy). specialize (Hs0 y Hy). cbn in *. lia.
    + assert (Hxlt : (x < n)%nat).
      { assert (Hxk : is_Some (kind_at (shapes w') x)) by (unfold kind_at; destruct Hr as [? ? ? ? ? E|? ? ? ? ? ? ? E]; by rewrite E).
        rewrite Hk in Hxk by done. unfold kind_at in Hxk. apply fmap_is_Some in Hxk. apply lookup_lt_is_Some in Hxk.
        unfold shapes in Hxk. by rewrite length_fmap in Hxk. }
      pose proof (Hlow _ _ _ Hr Hxlt) as Hr0. destruct (rooted_is_src s _ _ _ Hr0) as (cs0 & ms0 & g & idg & Hg).
      assert (Hrn : r <> n).
      { intros ->. apply lookup_lt_Some in Hg. unfold shapes in Hg. rewrite length_fmap in Hg. unfold n in Hg. lia. }
      pose proof (Hk r Hrn) as Er. unfold kind_at in Er. rewrite Hrs, Hg in Er. cbn in Er. injection Er as <- <-.
      by eapply (ci_sized s Hs).
  - intros i o q Hi Hq. rewrite Ho in Hi. apply (ci_obj s Hs); [done|]. rewrite <- Hper; [done|].
    assert (Hh : homes w !! i = Some (clockDomain o)) by (apply home_lookup; eauto).
    apply (to_homes _ _ (ci_tree s Hs)) in Hh as [? Hh]. apply lookup_lt_Some in Hh. unfold shapes in Hh.
    rewrite length_fmap in Hh. unfold n. lia.
  - intros v vd Hv. destruct (Hv1 v vd Hv) as (vd0 & Hv0 & -> & Hch). destruct (ci_volt s Hs v vd0 Hv0) as (? & ? & Hiff).
    split_and!; [done|done|]. intros d. rewrite Hch, Hiff. split.
    + intros [(d0 & f & id & Hd0 & Hk0 & Hvd) | (-> & (f & id & Hk0) & Hvd)]; [|by exists dn, f, id].
      destruct (Hback d d0 Hd0) as (dx & Hx & _ & E2 & _ & E4). exists dx, f, id. split_and!; congruence.
    + intros (dx & f & id & Hx & Hk0 & Hvd). destruct (decide (d = n)) as [-> | Hne].
      * right. assert (dx = dn) as -> by congruence. eauto.
      * left. destruct (Hdom d dx Hx Hne) as (d0 & Hd0 & _ & E2 & _ & E4). exists d0, f, id. split_and!; congruence.
  - intros x dx f id Hx Hkx. destruct (decide (x = n)) as [-> | Hne].
    + assert (dx = dn) as -> by congruence. unfold new_dom_ok in Hok. rewrite Hkx in Hok. tauto.
    + destruct (Hdom x dx Hx Hne) as (d0 & H0 & _ & E2 & _ & ->). rewrite E2 in Hkx.
      destruct (ci_vsrc s Hs x d0 f id H0 Hkx) as (vd0 & Hv0 & Hor). destruct (Hv2 _ _ Hv0) as (vd & Hv & E).
      exists vd. by rewrite E.
Qed.

Lemma insert_last {A} (l : list A) a b n : n = length l -> <[n := b]> (l ++ [a]) = l ++ [b].
Proof. intros ->. rewrite insert_app_r_alt by lia. by rewrite Nat.sub_diag. Qed.

Lemma lookup_last {A} (l : list A) a n : n = length l -> (l ++ [a]) !! n = Some a.
Proof. intros ->. rewrite lookup_app_r by lia. by rewrite Nat.sub_diag. Qed.

Lemma new_src f id l v vd :
  Forall (fun x => 0 < x < 2 ^ 62) f -> ascending f = true -> Z.of_nat (length f) < 2 ^ 32 -> 0 <= l < Z.of_nat (length f) ->
  clk_voltages w !! v = Some vd -> (length (voltageOpPoints vd) = 1%nat \/ length (voltageOpPoints vd) = length f) ->
  exists w', SrcClockDomain_new w now f id l v = Ret w' /\ clock_inv (mkRun now w' (r_base s)).
Proof.
  intros Hf Hasc Hlen Hl Hv Hvl. destruct (ci_volt s Hs v vd Hv) as (Hvpos & Hvlt & _).
  assert (Hq : exists q, f !! Z.to_nat l = Some q) by (apply lookup_lt_is_Some; lia). destruct Hq as [q Hq].
  assert (Hqpos : q <> 0) by (rewrite Forall_lookup in Hf; apply Hf in Hq; lia).
  unfold SrcClockDomain_new. rewrite (proj2 (is_nil_false f)) by (by destruct f).
  rewrite (vread_some _ _ _ Hv). cbn [mbind res_bind]. unfold numVoltages. rewrite wrap_small by (unfold inword; lia).
  replace ((1 <? Z.of_nat (length (voltageOpPoints vd))) && negb (Z.of_nat (length (voltageOpPoints vd)) =? Z.of_nat (length f)))
    with false; cycle 1.
  { symmetry. destruct Hvl as [-> | ->]; [done|]. by rewrite Z.eqb_refl, andb_false_r. }
  rewrite Hasc. cbn [negb]. rewrite (proj2 (Z.leb_gt _ _)) by lia. rewrite (vread_some _ _ _ Hq). cbn [mbind res_bind].
  unfold setClockPeriod. rewrite (proj2 (Z.eqb_neq q 0)) by done. cbn [clk_domains with_domains].
  rewrite (vread_some _ _ _ (lookup_last (clk_domains w) _ _ eq_refl)). cbn [mbind res_bind members for_each clk_domains with_domains].
  rewrite (vread_some _ _ _ (lookup_last (clk_domains w) _ _ eq_refl)). cbn [mbind res_bind children for_each set_period
    _voltageDomain members dom_kind _perfLevel].
  rewrite insert_last by done. unfold registerSrcClockDom. cbn [clk_domains with_domains clk_voltages].
  rewrite (vread_some _ _ _ (lookup_last (clk_domains w) _ _ eq_refl)). cbn [mbind res_bind _voltageDomain].
  rewrite cassert_true by (apply Nat.eqb_refl). cbn [mbind res_bind]. rewrite (vread_some _ _ _ Hv). cbn [mbind res_bind].
  set (dn := mkClockDomain q v [] [] (SrcClockDomain f (u32 id)) l). set (w' := with_voltages _ _).
  exists w'. split; [done|]. apply (append_inv w' dn).
  - done.
  - assert (Es : shapes w' = shapes w ++ [([], [], SrcClockDomain f (u32 id))]) by (unfold shapes; cbn; by rewrite fmap_app).
    rewrite Es. apply tree_ok_src, Hs.
  - apply (lookup_last (clk_domains w)). done.
  - intros x dx Hx Hne. cbn in Hx. apply lookup_app_Some in Hx as [Hx | [Hge Hx]]; [by exists dx|].
    destruct (x - _)%nat eqn:E; cbn in Hx; [|done]. lia.
  - intros x d0 Hx. exists d0. split; [|done]. by apply lookup_app_l_Some.
  - unfold new_dom_ok; cbn. split_and!; [lia|done|done|done|]. eexists; split;
      [apply list_lookup_insert_eq; by eapply lookup_lt_Some|done].
  - intros u vu Hu. cbn in Hu. destruct (decide (u = v)) as [-> | Hne].
    + rewrite list_lookup_insert_eq in Hu by (by eapply lookup_lt_Some). injection Hu as <-. exists vd. cbn.
      split_and!; [done|done|]. intros d. rewrite elem_of_app, list_elem_of_singleton. naive_solver.
    + rewrite list_lookup_insert_ne in Hu by done. exists vu. split_and!; [done|done|]. intros d. cbn.
      split; [by left|]. intros [? | (_ & _ & E)]; [done|congruence].
  - intros u vu Hu. cbn. destruct (decide (u = v)) as [-> | Hne].
    + rewrite list_lookup_insert_eq by (by eapply lookup_lt_Some). eexists; split; [done|]. cbn. congruence.
    + rewrite list_lookup_insert_ne by done. by exists vu.
Qed.

Lemma new_derived p v :
  1 <= v -> (p < length (clk_domains w))%nat ->
  (forall r k f id cs ms, rooted (shapes w) p r k -> shapes w !! r = Some (cs, ms, SrcClockDomain f id) ->
     Forall (fun x => x * (k * v) < 2 ^ 62) f) ->
  exists w', DerivedClockDomain_new w now p v = Ret w' /\ clock_inv (mkRun now w' (r_base s)).
Proof.
  intros Hv Hp Hsz. pose proof Hp as Hp'. apply lookup_lt_is_Some in Hp' as [pd Hpd].
  assert (Hsh : shapes w !! p = Some (children pd, members pd, dom_kind pd)).
  { unfold shapes. by rewrite list_lookup_fmap, Hpd. }
  assert (Hlen : length (shapes w) = length (clk_domains w)) by (unfold shapes; by rewrite length_fmap).
  unfold DerivedClockDomain_new. rewrite (vread_some _ _ _ Hpd). cbn [mbind res_bind].
  rewrite (proj2 (Z.ltb_ge v 1)) by lia. set (ds := <[p := _]> (clk_domains w)).
  assert (Hn : length (clk_domains w) = length ds) by (unfold ds; by rewrite length_insert).
  assert (Hdsp : ds !! p = Some (add_child (length (clk_domains w)) pd)) by (by apply list_lookup_insert_eq).
  cbn [clk_domains with_domains]. rewrite length_app. replace (length ds + length [_])%nat with (S (length ds)) by (cbn; lia).
  cbn [updateClockPeriod clk_domains with_domains]. rewrite (vread_some _ _ _ (lookup_last ds _ _ Hn)).
  cbn [mbind res_bind members for_each dom_kind clk_domains with_domains].
  rewrite (vread_some (ds ++ _) p (add_child (length (clk_domains w)) pd)) by (by apply lookup_app_l_Some).
  rewrite (vread_some _ _ _ (lookup_last ds _ _ Hn)).
  cbn [mbind res_bind children for_each set_period _voltageDomain members dom_kind _perfLevel _clockPeriod add_child].
  rewrite insert_last by done.
  match goal with |- context [with_domains _ (ds ++ [?x])] => set (dn := x) end. set (w' := with_domains _ _).
  exists w'. split; [done|]. apply (append_inv w' dn).
  - done.
  - assert (Es : shapes w' = <[p := (children pd ++ [length (shapes w)], members pd, dom_kind pd)]> (shapes w)
                             ++ [([], [], DerivedClockDomain p v)]).
    { unfold shapes at 1; cbn. rewrite fmap_app. unfold ds. rewrite list_fmap_insert, Hlen. done. }
    rewrite Es. apply tree_ok_derived; [apply Hs|done|done].
  - cbn. rewrite Hn. by apply lookup_last.
  - intros x dx Hx Hne. cbn in Hx. apply lookup_app_Some in Hx as [Hx | [Hge Hx]].
    + unfold ds in Hx. destruct (decide (x = p)) as [-> | Hxp].
      * rewrite list_lookup_insert_eq in Hx by done. injection Hx as <-. by exists pd.
      * rewrite list_lookup_insert_ne in Hx by done. by exists dx.
    + destruct (x - _)%nat eqn:E; cbn in Hx; [|done]. lia.
  - intros x d0 Hx. cbn. destruct (decide (x = p)) as [-> | Hxp].
    + exists (add_child (length (clk_domains w)) pd). split; [by apply lookup_app_l_Some|]. by assert (d0 = pd) as -> by congruence.
    + exists d0. split; [|done]. apply lookup_app_l_Some. unfold ds. by rewrite list_lookup_insert_ne.
  - unfold new_dom_ok; cbn. split; [|done]. unfold period. rewrite Hpd. cbn. f_equal.
    destruct (rooted_exists _ _ (ci_tree s Hs) p ltac:(by rewrite Hsh)) as (r & k & Hr).
    destruct (rooted_is_src s _ _ _ Hr) as (cs & ms & f & id & Hrs).
    destruct (src_period s Hs _ _ _ _ _ Hrs) as (dr & q & _ & _ & Hq & Hf).
    pose proof (period_rooted s Hs _ _ _ Hr) as Hpr. unfold period in Hpr at 1. rewrite Hpd, Hq in Hpr. cbn in Hpr.
    injection Hpr as ->. specialize (Hsz r k f id cs ms Hr Hrs). rewrite Forall_lookup in Hsz. apply Hsz in Hf as Hf1.
    pose proof (ci_sized s Hs p r k _ _ _ _ Hr Hrs) as Hs0. rewrite Forall_lookup in Hs0. apply Hs0 in Hf as Hf2.
    pose proof (rooted_pos s Hs _ _ _ Hr). apply wrap_small. unfold inword. nia.
  - intros u vu Hu. exists vu. split_and!; [done|done|]. intros d. split; [by left|].
    intros [? | (_ & (f & id & E) & _)]; [done|discriminate].
  - intros u vu Hu. by exists vu.
Qed.
End construct.

Lemma clock_init : clock_inv (mkRun 0 (mkClocks [] [] []) []).
Proof.
  split; cbn; try done; try (intros; by rewrite lookup_nil in *).
Qed.

(** No enabled step fails, and every step keeps the invariant. *)
Lemma clock_step_ok s e : clock_inv s -> clock_enabled s e -> exists s', clock_step s e = Ret s' /\ clock_inv s'.
Proof.
  intros Hs He. destruct e as [t|i n|i|d l|d|v|f id l v|p v]; cbn in He |- *.
  - eexists; split; [done|]. by apply step_advance.
  - destruct (query_ok s Hs i He) as (o & q & _ & _ & _ & E1 & E2 & Hi). unfold clockEdge. rewrite E1. cbn [mbind res_bind].
    rewrite E2. by eexists.
  - destruct (query_ok s Hs i He) as (o & q & _ & _ & _ & E1 & E2 & Hi). unfold curCycle. rewrite E1. cbn [mbind res_bind].
    rewrite E2. by eexists.
  - destruct He as (dom & f & id & Hd & Hk & Hl). rewrite Hd. cbn [fmap option_fmap option_map].
    case_decide as Hlev.
    + injection Hlev as Hlev. destruct (ci_src s Hs d dom f id Hd Hk) as (_ & _ & Hlen).
      unfold setPerfLevel. rewrite (vread_some _ _ _ Hd). cbn [mbind res_bind]. rewrite cassert_true; cycle 1.
      { unfold validPerfLevel, numPerfLevels, freq_points. rewrite Hk, wrap_small by (unfold inword; lia). apply Z.ltb_lt; lia. }
      cbn [mbind res_bind]. rewrite Hlev, Z.eqb_refl. cbn. eexists; split; [done|]. by destruct s.
    + destruct (perf_ok s d dom f id l Hs Hd Hk Hl) as (w' & E & Hi & _); [congruence|].
      rewrite E. by eexists.
  - destruct (new_object s Hs d He) as (w' & E & Hi). rewrite E. by eexists.
  - destruct He as (? & ? & ?). destruct (new_voltage s Hs v) as (w' & E & Hi); [done..|]. rewrite E. by eexists.
  - destruct He as (? & ? & ? & ? & vd & ? & ?). destruct (new_src s Hs f id l v vd) as (w' & E & Hi); [done..|].
    rewrite E. by eexists.
  - destruct He as (? & ? & ?). destruct (new_derived s Hs p v) as (w' & E & Hi); [done..|]. rewrite E. by eexists.
Qed.

Lemma clock_reach_inv s : clock_reach s -> clock_inv s.
Proof.
  induction 1 as [|s e s' _ IH He E]; [apply clock_init|].
  destruct (clock_step_ok s e IH He) as (s1 & E1 & Hi). rewrite E in E1. by injection E1 as <-.
Qed.

(** ** Theorems *)

(** C26. Clocked objects refine a clock that is never advanced lazily.  In every
    state reached by construction, the passing of time, questions of objects and
    changes of performance level, whatever object asked what before: the next
    clock edge an object reports is the first edge, counted in its current period
    from the edge at its last change of period, that is not in the past; its cycle
    number counts these edges; the edge is less than a period away, unless no edge
    has passed since the change; and no enabled step fails. *)
Theorem clock_edges_exact s i :
  clock_reach s -> (i < length (clk_objects (r_clocks s)))%nat ->
  exists o q b, clk_objects (r_clocks s) !! i = Some o /\ period (r_clocks s) (clockDomain o) = Some q /\
    r_base s !! i = Some b /\
    let k := edges_since b.1 q (r_now s) in
    (exists w', clockEdge (r_clocks s) (r_now s) i 0 = Ret (b.1 + k * q, w')) /\
    (forall n, exists w', clockEdge (r_clocks s) (r_now s) i n = Ret (u64 (b.1 + k * q + q * n), w')) /\
    (exists w', curCycle (r_clocks s) (r_now s) i = Ret (b.2 + k, w')) /\
    0 <= k /\ r_now s <= b.1 + k * q /\ (k = 0 \/ b.1 + k * q < r_now s + q) /\
    (forall e, clock_enabled s e -> exists s', clock_step s e = Ret s').
Proof.
  intros Hr Hi. apply clock_reach_inv in Hr as Hs. destruct (query_ok s Hs i Hi) as (o & q & Ho & Hq & Hp & E1 & E2 & Hs').
  assert (Hb : exists b, r_base s !! i = Some b) by (apply lookup_lt_is_Some; by rewrite (ci_len s Hs)).
  destruct Hb as [b Hb]. assert (Eb : base_of (r_base s) i = b) by (unfold base_of; by rewrite Hb).
  rewrite Eb in E1, E2. pose proof (edges_since_bounds b.1 q (r_now s) ltac:(lia)) as (Hk & Hle & Hlast).
  exists o, q, b. split_and!; [done|done|done|]. cbn zeta.
  assert (Hedge : forall n, exists w', clockEdge (r_clocks s) (r_now s) i n
            = Ret (u64 (b.1 + edges_since b.1 q (r_now s) * q + q * n), w')).
  { intros n. unfold clockEdge. rewrite E1. cbn [mbind res_bind]. rewrite E2. by eexists. }
  split_and!; [|exact Hedge| |done|done|lia|].
  - destruct (Hedge 0) as (w' & ->). exists w'. do 2 f_equal. rewrite Z.mul_0_r, Z.add_0_r. apply wrap_small.
    destruct (ci_obj s Hs i o q Ho Hq) as [_ Hbok]. rewrite Eb in Hbok. pose proof (ci_now s Hs).
    destruct Hbok. unfold inword. nia.
  - unfold curCycle. rewrite E1. cbn [mbind res_bind]. rewrite E2. by eexists.
  - intros e He. destruct (clock_step_ok s e Hs He) as (s' & ? & _). eauto.
Qed.

(** The periods of the domains.  In every reachable state a source domain has
    the period its performance level selects, and a derived domain that of its
    source times the dividers on the way, exactly and without overflow.  Setting
    the level of a source domain sets its period, leaves the domains of other
    sources alone, and leaves a voltage domain with several operating points at
    the best level that one of its source domains requests. *)
Theorem clock_periods_consistent s :
  clock_reach s ->
  (forall d r k, rooted (shapes (r_clocks s)) d r k ->
     exists dom f id q, clk_domains (r_clocks s) !! r = Some dom /\ dom_kind dom = SrcClockDomain f id /\
       f !! Z.to_nat (_perfLevel dom) = Some q /\ period (r_clocks s) d = Some (q * k) /\ 0 < q * k < 2 ^ 62) /\
  (forall d l s', clock_enabled s (EvPerfLevel d l) -> clock_step s (EvPerfLevel d l) = Ret s' ->
     shapes (r_clocks s') = shapes (r_clocks s) /\
     (exists dom f id q, clk_domains (r_clocks s') !! d = Some dom /\ dom_kind dom = SrcClockDomain f id /\
        _perfLevel dom = l /\ f !! Z.to_nat l = Some q /\ period (r_clocks s') d = Some q) /\
     (forall x r k, rooted (shapes (r_clocks s)) x r k -> r <> d -> period (r_clocks s') x = period (r_clocks s) x) /\
     (_perfLevel <$> clk_domains (r_clocks s) !! d <> Some l ->
      forall v vd, _voltageDomain <$> clk_domains (r_clocks s) !! d = Some v ->
        clk_voltages (r_clocks s') !! v = Some vd -> length (voltageOpPoints vd) <> 1%nat ->
        best_level (clk_domains (r_clocks s')) (srcClockChildren vd) (v_perfLevel vd))).
Proof.
  intros Hr. apply clock_reach_inv in Hr as Hs. split.
  - intros d r k Hd. destruct (rooted_is_src s _ _ _ Hd) as (cs & ms & f & id & Hrs).
    destruct (src_period s Hs _ _ _ _ _ Hrs) as (dom & q & Hdom & Hk & Hq & Hf).
    exists dom, f, id, q. rewrite (period_rooted s Hs _ _ _ Hd), Hq.
    pose proof (ci_sized s Hs _ _ _ _ _ _ _ Hd Hrs) as Hall. rewrite Forall_lookup in Hall. apply Hall in Hf as Hfq.
    pose proof (rooted_pos s Hs _ _ _ Hd). split_and!; try done; nia.
  - intros d l s' He Es. destruct (clock_step_ok s _ Hs He) as (s1 & E1 & Hs1). rewrite E1 in Es. injection Es as ->.
    destruct He as (dom & f & id & Hd & Hk & Hl). 
    cbn in E1. rewrite Hd in E1 |- *. cbn in E1 |- *. destruct (decide (Some (_perfLevel dom) = Some l)) as [Hlev | Hlev].
    + injection Hlev as Hlev. assert (Ew : r_clocks s' = r_clocks s).
      { apply bind_Ret in E1 as (w' & E1 & E2). injection E2 as <-. cbn. unfold setPerfLevel in E1.
        rewrite (vread_some _ _ _ Hd) in E1. cbn in E1. apply bind_Ret in E1 as (u & _ & E1).
        rewrite Hlev, Z.eqb_refl in E1. by injection E1 as <-. }
      rewrite Ew. destruct (ci_src s Hs d dom f id Hd Hk) as (_ & Hf & _).
      split_and!; [done| |done|congruence]. exists dom, f, id, (_clockPeriod dom). unfold period. rewrite Hd, <- Hlev. done.
    + destruct (perf_ok s d dom f id l Hs Hd Hk Hl) as (w' & E & _ & Hsh & Hper & Hdx & Hrest & Hbest); [congruence|].
      rewrite E in E1. cbn in E1. injection E1 as <-. cbn [r_clocks].
      assert (Hf : exists q, f !! Z.to_nat l = Some q) by (apply lookup_lt_is_Some; lia). destruct Hf as [q Hq].
      split_and!; [done| |done|].
      * destruct (Hdx d dom Hd) as (dx & ? & ? & Elev). rewrite decide_True in Elev by done. exists dx, f, id, q.
        split_and!; congruence.
      * intros _ v vd [= <-]. apply Hbest.
Qed.

(** A voltage domain, a source clock, one derived by 2, an object in each. *)
Definition demo_run (es : list ClockEv) : Run :=
  foldl (fun s e => match clock_step s e with Ret s => s | Err _ => s end) (mkRun 0 (mkClocks [] [] []) []) es.

Definition demo_config : list ClockEv :=
  [EvNewVoltage [12; 10]; EvNewSrc [500; 800] 1 0 0; EvNewDerived 0 2; EvNewObject 0; EvNewObject 1].
Definition demo_setup : Run := Eval vm_compute in demo_run demo_config.
Definition demo_later : Run := Eval vm_compute in demo_run (demo_config ++ [EvAdvance 1300]).
Definition demo_slow : Run := Eval vm_compute in demo_run (demo_config ++ [EvAdvance 1300; EvPerfLevel 0 1; EvAdvance 1500]).

Lemma demo_setup_reach : clock_reach demo_setup.
Proof.
  eapply (cr_step (demo_run (take 4 demo_config)) (EvNewObject 1)); [|vm_compute; lia|vm_compute; reflexivity].
  eapply (cr_step (demo_run (take 3 demo_config)) (EvNewObject 0)); [|vm_compute; lia|vm_compute; reflexivity].
  eapply (cr_step (demo_run (take 2 demo_config)) (EvNewDerived 0 2)); [| |vm_compute; reflexivity].
  2: { split_and!; [lia|vm_compute; lia|]. intros r k f id cs ms Hr Hrs. destruct Hr as [d ? ? ? ? Hd|d ? ? ? ? ? ? Hd _];
         destruct d as [|d]; try discriminate. injection Hrs as <- <- <- <-. repeat constructor; lia. }
  eapply (cr_step (demo_run (take 1 demo_config)) (EvNewSrc [500; 800] 1 0 0)); [| |vm_compute; reflexivity].
  2: { split_and!; [repeat constructor; lia|reflexivity|cbn; lia|lia|cbn; lia|]. eexists; split; [reflexivity|by right]. }
  eapply (cr_step _ (EvNewVoltage [12; 10])); [apply cr_init| |vm_compute; reflexivity].
  split_and!; [done|reflexivity|cbn; lia].
Qed.

Lemma clock_edges_exact_witness :
  clock_reach demo_slow /\ exists w, clockEdge (r_clocks demo_slow) 1500 1 0 = Ret (2000, w).
Proof.
  assert (H : clock_reach demo_slow).
  { eapply (cr_step (demo_run (demo_config ++ [EvAdvance 1300; EvPerfLevel 0 1])) (EvAdvance 1500));
      [|vm_compute; split; congruence|vm_compute; reflexivity].
    eapply (cr_step demo_later (EvPerfLevel 0 1)); [| |vm_compute; reflexivity].
    2: { eexists _, _, _. split_and!; [reflexivity|reflexivity|lia|cbn; lia]. }
    eapply (cr_step demo_setup (EvAdvance 1300)); [apply demo_setup_reach|vm_compute; split; congruence|vm_compute; reflexivity]. }
  split; [exact H|].
  destruct (clock_edges_exact demo_slow 1 H ltac:(cbn; lia)) as (o & q & b & Ho & Hq & Hb & (w & Hw) & _).
  injection Ho as <-. injection Hq as <-. injection Hb as <-. exists w. exact Hw.
Defined.

Lemma clock_periods_consistent_witness :
  period (r_clocks demo_later) 1 = Some 1000 /\ period (r_clocks demo_slow) 1 = Some 1600.
Proof.
  assert (H : clock_reach demo_later).
  { eapply (cr_step demo_setup (EvAdvance 1300)); [apply demo_setup_reach|vm_compute; split; congruence|vm_compute; reflexivity]. }
  destruct (clock_periods_consistent demo_later H) as [Hp _]. split; [|vm_compute; reflexivity].
  destruct (Hp 1%nat 0%nat 2) as (dom & f & id & q & Hd & Hk & Hf & Hper & _).
  - apply (rooted_derived _ 1 [] [1%nat] 0 2 0 1); [reflexivity|]. by eapply rooted_src.
  - injection Hd as <-. injection Hk as <- <-. injection Hf as <-. exact Hper.
Defined.

(** Restoring a checkpoint.  [startup] is meant to apply the restored level, but
    the level is already the restored one, so that the change is ignored: the
    domain keeps the period of the level it was constructed with. *)

(** A restored performance level is not applied: restoring another valid level
    of a source domain and starting up succeeds, the domain reports the restored
    level, and its period stays that of the old level, which differs whenever the
    two operating points do. *)
Theorem restored_level_ignored s d dom f id l :
  clock_reach s -> clk_domains (r_clocks s) !! d = Some dom -> dom_kind dom = SrcClockDomain f id ->
  0 <= l < Z.of_nat (length f) -> f !! Z.to_nat l <> f !! Z.to_nat (_perfLevel dom) ->
  exists w1 w2 dom2, SrcClockDomain_unserialize (r_clocks s) d l = Ret w1 /\ SrcClockDomain_startup w1 (r_now s) d = Ret w2 /\
    clk_domains w2 !! d = Some dom2 /\ _perfLevel dom2 = l /\
    period w2 d = f !! Z.to_nat (_perfLevel dom) /\ period w2 d <> f !! Z.to_nat l.
Proof.
  intros Hr Hd Hk Hl Hne. apply clock_reach_inv in Hr as Hs. destruct (ci_src s Hs d dom f id Hd Hk) as (_ & Hf & Hlen).
  unfold SrcClockDomain_unserialize, SrcClockDomain_startup. rewrite (vread_some _ _ _ Hd). cbn [mbind res_bind].
  set (w1 := with_domains _ _).
  assert (Hd1 : clk_domains w1 !! d = Some (set_level l dom)).
  { apply list_lookup_insert_eq. by eapply lookup_lt_Some. }
  exists w1, w1, (set_level l dom). split; [done|]. split.
  - rewrite (vread_some _ _ _ Hd1). cbn [mbind res_bind]. unfold setPerfLevel. rewrite (vread_some _ _ _ Hd1).
    cbn [mbind res_bind _perfLevel set_level]. rewrite cassert_true; [by cbn; rewrite Z.eqb_refl|].
    unfold validPerfLevel, numPerfLevels, freq_points. cbn [dom_kind set_level]. rewrite Hk, wrap_small by (unfold inword; lia).
    apply Z.ltb_lt; lia.
  - unfold period. rewrite Hd1. cbn. rewrite Hf. split_and!; congruence.
Qed.

Lemma restored_level_ignored_witness :
  exists w1 w2, SrcClockDomain_unserialize (r_clocks demo_setup) 0 1 = Ret w1 /\
    SrcClockDomain_startup w1 0 0 = Ret w2 /\ period w2 0 = Some 500.
Proof.
  destruct (restored_level_ignored demo_setup 0 (mkClockDomain 500 0 [1%nat] [0%nat] (SrcClockDomain [500; 800] 1) 0)
    [500; 800] 1 1 demo_setup_reach) as (w1 & w2 & dom2 & E1 & E2 & _ & _ & Hp & _);
    [reflexivity|reflexivity|cbn; lia|discriminate|].
  exists w1, w2. split; [exact E1|]. split; [exact E2|exact Hp].
Defined.

(** The documentation of [clockEdge] bounds the distance of the edge by one period.
    After a change to a faster clock the next edge is still the one of the slow
    clock. *)
Definition fast_config : list ClockEv :=
  [EvNewVoltage [12; 10]; EvNewSrc [500; 800] 1 1 0; EvNewObject 0; EvAdvance 1; EvPerfLevel 0 0].

Lemma edge_beyond_period :
  exists s w, clock_reach s /\ period (r_clocks s) 0 = Some 500 /\ r_now s = 1 /\
    clockEdge (r_clocks s) (r_now s) 0 0 = Ret (800, w).
Proof.
  exists (demo_run fast_config). eexists. split; [|vm_compute; by split_and!].
  eapply (cr_step (demo_run (take 4 fast_config)) (EvPerfLevel 0 0)); [| |vm_compute; reflexivity].
  2: { eexists _, _, _. split_and!; [vm_compute; reflexivity|reflexivity|lia|cbn; lia]. }
  eapply (cr_step (demo_run (take 3 fast_config)) (EvAdvance 1)); [|vm_compute; split; congruence|vm_compute; reflexivity].
  eapply (cr_step (demo_run (take 2 fast_config)) (EvNewObject 0)); [|vm_compute; lia|vm_compute; reflexivity].
  eapply (cr_step (demo_run (take 1 fast_config)) (EvNewSrc [500; 800] 1 1 0)); [| |vm_compute; reflexivity].
  2: { split_and!; [repeat constructor; lia|reflexivity|cbn; lia|lia|cbn; lia|]. eexists; split; [reflexivity|by right]. }
  eapply (cr_step _ (EvNewVoltage [12; 10])); [apply cr_init| |vm_compute; reflexivity].
  split_and!; [done|reflexivity|cbn; lia].
Qed.
