(* ===== verification/Dvfs.v ===== *)
(** * The DVFS handler: [sim/dvfs_handler.hh], [sim/dvfs_handler.cc]

    Software asks the handler for a performance level of a clock domain; the
    change happens after the transition latency, by an event of which there is one
    per domain.  The handler is run beside the clocks of [Clocks.v]. *)

From stdpp Require Import gmap.
From S2P Require Import Prelude IntMath Clocks.
Local Open Scope Z_scope.

(** ** Data and operations *)

(** [ue_when] is the tick the event is scheduled for. *)
Record UpdateEvent := mkUpdateEvent { domainIDToSet : Z; perfLevelToSet : Z; ue_when : option Z }.

Record DVFSHandler := mkDVFSHandler {
  domains : gmap Z nat;
  domainIDList : list Z;
  sysClkDomain : nat;
  enableHandler : bool;
  _transLatency : Z;
  updatePerfLevelEvents : gmap Z UpdateEvent
}.

Definition with_events (h : DVFSHandler) (m : gmap Z UpdateEvent) : DVFSHandler :=
  mkDVFSHandler (domains h) (domainIDList h) (sysClkDomain h) (enableHandler h) (_transLatency h) m.

Definition emptyDomainID : Z := -1.

(** [domainID()] is unsigned; the handler keeps it as a signed number. *)
Definition domain_id (d : ClockDomain) : Z :=
  match dom_kind d with
  | SrcClockDomain _ id => s32 id
  | DerivedClockDomain _ _ => emptyDomainID
  end.

(** The element [m[k]] of a map, created if it is absent. *)
Definition event_slot (h : DVFSHandler) (id : Z) : UpdateEvent :=
  default (mkUpdateEvent 0 0 None) (updatePerfLevelEvents h !! id).

Fixpoint add_domains (w : Clocks) (h : DVFSHandler) (l : list nat) : res DVFSHandler :=
  match l with
  | [] => Ret h
  | d :: l =>
      dom ← vread (clk_domains w) d;
      let id := domain_id dom in
      if (sysClkDomain h =? d)%nat then Err Fatal
      else if id =? emptyDomainID then Err Fatal
      else
        match domains h !! id with
        | Some _ => Err Fatal
        | None =>
            let ev := event_slot h id in
            add_domains w
              (mkDVFSHandler (<[id := d]> (domains h)) (domainIDList h ++ [id]) (sysClkDomain h) (enableHandler h)
                 (_transLatency h) (<[id := mkUpdateEvent id (perfLevelToSet ev) (ue_when ev)]> (updatePerfLevelEvents h))) l
        end
  end.

Definition DVFSHandler_new (w : Clocks) (sys_clk_domain : nat) (enable : bool) (transition_latency : Z)
    (l : list nat) : res DVFSHandler :=
  add_domains w (mkDVFSHandler ∅ [] sys_clk_domain enable transition_latency ∅) l.

Definition findDomain (h : DVFSHandler) (id : Z) : res nat :=
  match domains h !! id with
  | Some d => Ret d
  | None => Err Panic
  end.

Definition numDomains (h : DVFSHandler) : Z := u32 (Z.of_nat (length (domainIDList h))).

Definition dvfs_domainID (h : DVFSHandler) (index : Z) : res Z :=
  if numDomains h <=? index then Err Fatal
  else
    id ← vread (domainIDList h) (Z.to_nat index);
    _ ← cassert (bool_decide (is_Some (domains h !! id)));
    Ret id.

Definition validDomainID (h : DVFSHandler) (id : Z) : res bool :=
  _ ← cassert (enableHandler h);
  Ret (bool_decide (is_Some (domains h !! id))).

(** [perfLevel(domain_id)] *)
Definition dvfs_getLevel (w : Clocks) (h : DVFSHandler) (id : Z) : res Z :=
  _ ← cassert (enableHandler h);
  d ← findDomain h id;
  dom ← vread (clk_domains w) d;
  Ret (_perfLevel dom).

Definition dvfs_clkPeriodAtPerfLevel (w : Clocks) (h : DVFSHandler) (id perf_level : Z) : res Z :=
  d ← findDomain h id;
  dom ← vread (clk_domains w) d;
  if perf_level <? numPerfLevels dom then vread (freq_points dom) (Z.to_nat perf_level) else Ret 0.

Definition voltageAtPerfLevel (w : Clocks) (h : DVFSHandler) (id perf_level : Z) : res Z :=
  d ← findDomain h id;
  dom ← vread (clk_domains w) d;
  vd ← vread (clk_voltages w) (_voltageDomain dom);
  let n := numVoltages vd in
  if perf_level <? n then voltage_at vd perf_level
  else if n =? 1 then voltage_at vd 0
  else Ret 0.

Definition dvfs_numPerfLevels (w : Clocks) (h : DVFSHandler) (id : Z) : res Z :=
  d ← findDomain h id;
  dom ← vread (clk_domains w) d;
  Ret (numPerfLevels dom).

(** [perfLevel(domain_id, perf_level)]: whether a change was scheduled. *)
Definition dvfs_perfLevel (w : Clocks) (h : DVFSHandler) (curTick id perf_level : Z) : res (bool * DVFSHandler) :=
  _ ← cassert (enableHandler h);
  d ← findDomain h id;
  dom ← vread (clk_domains w) d;
  if negb (validPerfLevel dom perf_level) then Ret (false, h)
  else
    let ev := event_slot h id in
    let ev := mkUpdateEvent (domainIDToSet ev) perf_level None in
    if _perfLevel dom =? perf_level then Ret (false, with_events h (<[id := ev]> (updatePerfLevelEvents h)))
    else
      let t := u64 (curTick + _transLatency h) in
      _ ← cassert (curTick <=? t);
      Ret (true, with_events h (<[id := mkUpdateEvent (domainIDToSet ev) perf_level (Some t)]> (updatePerfLevelEvents h))).

(** [UpdateEvent::updatePerfLevel] of the event of slot [id], which has left the
    event queue. *)
Definition updatePerfLevel (w : Clocks) (h : DVFSHandler) (curTick id : Z) : res (DVFSHandler * Clocks) :=
  let ev := event_slot h id in
  let h := with_events h (<[id := mkUpdateEvent (domainIDToSet ev) (perfLevelToSet ev) None]> (updatePerfLevelEvents h)) in
  d ← findDomain h (domainIDToSet ev);
  dom ← vread (clk_domains w) d;
  _ ← cassert (negb (_perfLevel dom =? perfLevelToSet ev));
  w ← setPerfLevel w curTick d (perfLevelToSet ev);
  Ret (h, w).

(** The arrays of a checkpoint: identifier, level and tick of each event, a tick of
    0 for an event that is not scheduled.  (The map is traversed in some order;
    restoring does not depend on it.) *)
Definition dvfs_serialize (h : DVFSHandler) : res (bool * list (Z * Z * Z)) :=
  l ← (fix go (l : list (Z * UpdateEvent)) : res (list (Z * Z * Z)) :=
         match l with
         | [] => Ret []
         | (id, ev) :: l =>
             _ ← cassert (id =? domainIDToSet ev);
             r ← go l;
             Ret ((id, perfLevelToSet ev, default 0 (ue_when ev)) :: r)
         end) (map_to_list (updatePerfLevelEvents h));
  Ret (enableHandler h, l).

(** A restored event is scheduled by the event queue, which accepts no tick in the
    past and no event that is already scheduled. *)
Fixpoint restore_events (curTick : Z) (m : gmap Z UpdateEvent) (l : list (Z * Z * Z)) : res (gmap Z UpdateEvent) :=
  match l with
  | [] => Ret m
  | (id, lvl, t) :: l =>
      let ev := default (mkUpdateEvent 0 0 None) (m !! id) in
      w ← (if t =? 0 then Ret (ue_when ev)
           else _ ← cassert (curTick <=? t); _ ← cassert (bool_decide (ue_when ev = None)); Ret (Some t));
      restore_events curTick (<[id := mkUpdateEvent id lvl w]> m) l
  end.

Definition dvfs_unserialize (h : DVFSHandler) (curTick : Z) (cp : bool * list (Z * Z * Z)) : res DVFSHandler :=
  m ← restore_events curTick (updatePerfLevelEvents h) cp.2;
  Ret (mkDVFSHandler (domains h) (domainIDList h) (sysClkDomain h) cp.1 (_transLatency h) m).

(** ** Runs of the handler beside the clocks

    [d_target] is the last valid level that software asked for, per domain. *)
Record DRun := mkDRun { d_run : Run; d_handler : DVFSHandler; d_target : gmap Z Z }.

Inductive DvfsEv :=
  | DvAdvance (t : Z)
  | DvClockEdge (i : nat) (cycles : Z)
  | DvRequest (id level : Z)
  | DvUpdate (id : Z).

Definition level_of (w : Clocks) (d : nat) : Z :=
  match clk_domains w !! d with
  | Some dom => _perfLevel dom
  | None => 0
  end.

Definition valid_request (s : DRun) (id level : Z) : bool :=
  match domains (d_handler s) !! id with
  | Some d => match clk_domains (r_clocks (d_run s)) !! d with
              | Some dom => validPerfLevel dom level
              | None => false
              end
  | None => false
  end.

Definition dvfs_step (s : DRun) (e : DvfsEv) : res DRun :=
  let w := r_clocks (d_run s) in
  let now := r_now (d_run s) in
  match e with
  | DvAdvance t => r ← clock_step (d_run s) (EvAdvance t); Ret (mkDRun r (d_handler s) (d_target s))
  | DvClockEdge i n => r ← clock_step (d_run s) (EvClockEdge i n); Ret (mkDRun r (d_handler s) (d_target s))
  | DvRequest id l =>
      '(_, h) ← dvfs_perfLevel w (d_handler s) now id l;
      Ret (mkDRun (d_run s) h (if valid_request s id l then <[id := l]> (d_target s) else d_target s))
  | DvUpdate id =>
      '(h, w') ← updatePerfLevel w (d_handler s) now id;
      let d := default 0%nat (domains h !! id) in
      Ret (mkDRun (mkRun now w' (rebase w d now (r_base (d_run s)))) h (d_target s))
  end.

Definition dvfs_enabled (s : DRun) (e : DvfsEv) : Prop :=
  match e with
  | DvAdvance t => clock_enabled (d_run s) (EvAdvance t) /\
      forall id ev u, updatePerfLevelEvents (d_handler s) !! id = Some ev -> ue_when ev = Some u -> t <= u
  | DvClockEdge i n => clock_enabled (d_run s) (EvClockEdge i n)
  | DvRequest id l => is_Some (domains (d_handler s) !! id) /\ 0 <= l
  | DvUpdate id => exists ev, updatePerfLevelEvents (d_handler s) !! id = Some ev /\ ue_when ev = Some (r_now (d_run s))
  end.

(** The handler is created, enabled, for source domains of a configured system. *)
Inductive dvfs_reach (lat : Z) : DRun -> Prop :=
  | dr_init r sys l h :
      clock_reach r -> DVFSHandler_new (r_clocks r) sys true lat l = Ret h ->
      (forall d, d ∈ l -> exists dom f id, clk_domains (r_clocks r) !! d = Some dom /\ dom_kind dom = SrcClockDomain f id) ->
      dvfs_reach lat (mkDRun r h (level_of (r_clocks r) <$> domains h))
  | dr_step s e s' : dvfs_reach lat s -> dvfs_enabled s e -> dvfs_step s e = Ret s' -> dvfs_reach lat s'.

(** A handled domain, its event and its target. *)
Record slot_ok (now lat : Z) (w : Clocks) (id : Z) (d : nat) (ev : UpdateEvent) (target : Z) : Prop := {
  so_dom : exists dom f i, clk_domains w !! d = Some dom /\ dom_kind dom = SrcClockDomain f i /\ domain_id dom = id /\
    0 <= target < Z.of_nat (length f) /\
    match ue_when ev with
    | None => _perfLevel dom = target
    | Some t => now <= t <= now + lat /\ perfLevelToSet ev = target /\ _perfLevel dom <> target
    end;
  so_id : domainIDToSet ev = id
}.

Record dvfs_inv (lat : Z) (s : DRun) : Prop := {
  di_clock : clock_inv (d_run s);
  di_lat : 0 <= lat < 2 ^ 62 /\ _transLatency (d_handler s) = lat /\ enableHandler (d_handler s) = true;
  di_slot id d : domains (d_handler s) !! id = Some d ->
    exists ev t, updatePerfLevelEvents (d_handler s) !! id = Some ev /\ d_target s !! id = Some t /\
      slot_ok (r_now (d_run s)) lat (r_clocks (d_run s)) id d ev t;
  di_keys id : is_Some (updatePerfLevelEvents (d_handler s) !! id) -> is_Some (domains (d_handler s) !! id)
}.

Lemma add_domains_ok w sys lat l : forall h h',
  sysClkDomain h = sys -> enableHandler h = true -> _transLatency h = lat ->
  (forall id, updatePerfLevelEvents h !! id = (fun d => mkUpdateEvent id 0 None) <$> domains h !! id) ->
  (forall id d, domains h !! id = Some d -> exists dom f i, clk_domains w !! d = Some dom /\ dom_kind dom = SrcClockDomain f i /\
     domain_id dom = id) ->
  (forall d, d ∈ l -> exists dom f i, clk_domains w !! d = Some dom /\ dom_kind dom = SrcClockDomain f i) ->
  add_domains w h l = Ret h' ->
  enableHandler h' = true /\ _transLatency h' = lat /\
  (forall id, updatePerfLevelEvents h' !! id = (fun d => mkUpdateEvent id 0 None) <$> domains h' !! id) /\
  (forall id d, domains h' !! id = Some d -> exists dom f i, clk_domains w !! d = Some dom /\
     dom_kind dom = SrcClockDomain f i /\ domain_id dom = id).
Proof.
  induction l as [|d l IH]; intros h h' Hsys Hen Hlat Hev Hdom Hl; cbn [add_domains].
  - intros [= <-]. done.
  - destruct (Hl d) as (dom & f & i & Hd & Hk); [set_solver|]. rewrite (vread_some _ _ _ Hd). cbn [mbind res_bind].
    destruct (_ =? d)%nat; [done|]. destruct (domain_id dom =? emptyDomainID); [done|].
    destruct (domains h !! domain_id dom) as [d0|] eqn:E; [done|]. apply IH; cbn; [done..| | |].
    + intros id. unfold event_slot. rewrite Hev, E. cbn. destruct (decide (id = domain_id dom)) as [-> | Hne].
      * by rewrite !lookup_insert_eq.
      * by rewrite !lookup_insert_ne.
    + intros id d1. destruct (decide (id = domain_id dom)) as [-> | Hne].
      * rewrite lookup_insert_eq. intros [= <-]. by exists dom, f, i.
      * rewrite lookup_insert_ne by done. apply Hdom.
    + set_solver.
Qed.

Lemma dvfs_init lat r sys l h :
  0 <= lat < 2 ^ 62 -> clock_inv r -> DVFSHandler_new (r_clocks r) sys true lat l = Ret h ->
  (forall d, d ∈ l -> exists dom f id, clk_domains (r_clocks r) !! d = Some dom /\ dom_kind dom = SrcClockDomain f id) ->
  dvfs_inv lat (mkDRun r h (level_of (r_clocks r) <$> domains h)).
Proof.
  intros Hlat Hr E Hl.
  unfold DVFSHandler_new in E.
  apply (add_domains_ok (r_clocks r) sys lat l) in E as (Hen & Htr & Hev & Hdom); cbn; try done.
  - split; cbn [d_run d_handler d_target]; [done|done| |].
    + intros id d Hd. destruct (Hdom id d Hd) as (dom & f & i & Hdm & Hk & Hid).
      destruct (ci_src r Hr d dom f i Hdm Hk) as (Hp & Hf & _). apply lookup_lt_Some in Hf.
      exists (mkUpdateEvent id 0 None), (_perfLevel dom). rewrite Hev, lookup_fmap, Hd. cbn. unfold level_of. rewrite Hdm.
      split_and!; [done|done|]. split; [|done]. exists dom, f, i. split_and!; try done. lia.
    + intros id. rewrite Hev, fmap_is_Some. done.
Qed.

Section steps.
Context (lat : Z) (s : DRun) (Hs : dvfs_inv lat s).
Local Abbreviation h := (d_handler s).
Local Abbreviation r := (d_run s).

(** A step of the clocks that touches no domain. *)
Lemma same_domains_inv r' :
  clock_inv r' -> clk_domains (r_clocks r') = clk_domains (r_clocks r) -> r_now r <= r_now r' ->
  (forall id ev u, updatePerfLevelEvents h !! id = Some ev -> ue_when ev = Some u -> r_now r' <= u) ->
  dvfs_inv lat (mkDRun r' h (d_target s)).
Proof.
  intros Hr Hd Hn Hu. destruct Hs as [H1 H2 H3 H4]. split; cbn [d_run d_handler d_target]; try done.
  intros id d Hid. destruct (H3 id d Hid) as (ev & t & Hev & Ht & [(dom & f & i & Hdm & Hk & Hi & Hb & Hw) Hi']).
  exists ev, t. split_and!; [done|done|]. split; [|done]. exists dom, f, i. rewrite Hd. split_and!; try done.
  - lia.
  - lia.
  - destruct (ue_when ev) as [u|] eqn:E; [|done]. specialize (Hu id ev u Hev E). destruct Hw as (? & ? & ?). split_and!; try done; lia.
Qed.

(** A change of one slot. *)
Lemma slot_inv id d ev t h' m :
  domains h !! id = Some d -> slot_ok (r_now r) lat (r_clocks r) id d ev t ->
  h' = with_events h (<[id := ev]> (updatePerfLevelEvents h)) ->
  m !! id = Some t -> (forall j, j <> id -> m !! j = d_target s !! j) ->
  dvfs_inv lat (mkDRun r h' m).
Proof.
  intros Hid Hslot -> Hm Hmo. destruct Hs as [H1 H2 H3 H4]. split; cbn [d_run d_handler d_target]; try done.
  - intros j dj. cbn. intros Hj. destruct (decide (j = id)) as [-> | Hne].
    + rewrite lookup_insert_eq. assert (dj = d) as -> by congruence. eauto.
    + rewrite lookup_insert_ne by done. rewrite Hmo by done. by apply H3.
  - intros j. cbn. destruct (decide (j = id)) as [-> | Hne]; [by rewrite Hid|]. rewrite lookup_insert_ne by done. apply H4.
Qed.

(** What a request does, in its three cases. *)
Lemma dvfs_request_ok id l d :
  domains h !! id = Some d -> 0 <= l ->
  exists b h', dvfs_perfLevel (r_clocks r) h (r_now r) id l = Ret (b, h') /\
    b = (valid_request s id l && negb (level_of (r_clocks r) d =? l)) /\
    (valid_request s id l = false -> h' = h) /\
    dvfs_inv lat (mkDRun r h' (if valid_request s id l then <[id := l]> (d_target s) else d_target s)).
Proof.
  intros Hid Hl. destruct (di_slot lat s Hs id d Hid) as (ev & t & Hev & Ht & [(dom & f & i & Hdm & Hk & Hi & Hb & Hw) Hi']).
  destruct (di_lat lat s Hs) as (Hlat & Htr & Hen). pose proof (ci_now _ (di_clock lat s Hs)) as Hnow.
  destruct (ci_src _ (di_clock lat s Hs) d dom f i Hdm Hk) as (_ & _ & Hlen).
  assert (Evalid : valid_request s id l = (l <? Z.of_nat (length f))).
  { unfold valid_request, validPerfLevel, numPerfLevels, freq_points. rewrite Hid, Hdm, Hk, wrap_small by (unfold inword; lia). done. }
  unfold dvfs_perfLevel, findDomain. rewrite Hen. cbn [cassert mbind res_bind]. rewrite Hid. cbn [mbind res_bind].
  rewrite (vread_some _ _ _ Hdm). cbn [mbind res_bind]. unfold level_of. rewrite Hdm.
  assert (Ev : validPerfLevel dom l = valid_request s id l) by (unfold valid_request; by rewrite Hid, Hdm).
  rewrite Ev. destruct (valid_request s id l) eqn:E; cbn [negb andb].
  2: { exists false, h. split_and!; try done. by destruct s. }
  symmetry in Evalid. apply Z.ltb_lt in Evalid. unfold event_slot. rewrite Hev. cbn. rewrite Hi'.
  destruct (Z.eqb_spec (_perfLevel dom) l) as [El | Hne]; cbn [negb].
  - eexists _, _. split_and!; [done|done|done|]. eapply (slot_inv id d (mkUpdateEvent id l None) l).
    + done.
    + split; [|done]. exists dom, f, i. split_and!; done.
    + done.
    + apply lookup_insert_eq.
    + intros j Hj. by apply lookup_insert_ne.
  - rewrite Htr, wrap_small by (unfold inword; lia). rewrite cassert_true by (apply Z.leb_le; lia). cbn [mbind res_bind].
    eexists _, _. split_and!; [done|done|done|].
    eapply (slot_inv id d (mkUpdateEvent id l (Some (r_now r + lat))) l).
    + done.
    + split; [|done]. exists dom, f, i. split_and!; cbn; try done. lia.
    + done.
    + apply lookup_insert_eq.
    + intros j Hj. by apply lookup_insert_ne.
Qed.

(** The event takes effect. *)
Lemma dvfs_update_ok id ev d :
  updatePerfLevelEvents h !! id = Some ev -> ue_when ev = Some (r_now r) -> domains h !! id = Some d ->
  exists h' w', updatePerfLevel (r_clocks r) h (r_now r) id = Ret (h', w') /\ domains h' = domains h /\
    Some (level_of w' d) = d_target s !! id /\ ue_when (event_slot h' id) = None /\
    dvfs_inv lat (mkDRun (mkRun (r_now r) w' (rebase (r_clocks r) d (r_now r) (r_base r))) h' (d_target s)).
Proof.
  intros Hev Hw Hid. destruct (di_slot lat s Hs id d Hid) as (ev' & t & Hev' & Ht & [(dom & f & i & Hdm & Hk & Hi & Hb & Hwt) Hi']).
  assert (ev' = ev) as -> by congruence. rewrite Hw in Hwt. destruct Hwt as (_ & Hlv & Hne).
  destruct (perf_ok r d dom f i t (di_clock lat s Hs) Hdm Hk Hb) as (w' & Ew & Hinv & _ & _ & Hlev & _ & _); [congruence|].
  unfold updatePerfLevel, findDomain, event_slot. rewrite Hev. cbn. rewrite Hi', Hid. cbn. rewrite (vread_some _ _ _ Hdm). cbn [mbind res_bind]. rewrite cassert_true; cycle 1.
  { apply negb_true_iff, Z.eqb_neq. congruence. }
  cbn [mbind res_bind]. rewrite Hlv, Ew. cbn [mbind res_bind]. eexists _, w'. split; [done|]. cbn [domains with_events].
  destruct (Hlev d dom Hdm) as (dx & Hdx & Hkx & Hlx). rewrite decide_True in Hlx by done.
  split_and!; [done| | |].
  - unfold level_of. rewrite Hdx. congruence.
  - cbn. by rewrite lookup_insert_eq.
  - destruct Hs as [H1 H2 H3 H4]. split; cbn [d_run d_handler d_target r_now r_clocks]; try done.
    + intros j dj. cbn. intros Hj. destruct (decide (j = id)) as [-> | Hjne].
      * rewrite lookup_insert_eq. assert (dj = d) as -> by congruence. eexists _, t. split_and!; [done|done|].
        split; [|done]. exists dx, f, i. cbn. split_and!; try done; try congruence; try lia. unfold domain_id in *. by rewrite Hkx.
      * rewrite lookup_insert_ne by done.
        destruct (H3 j dj Hj) as (ej & tj & Hej & Htj & [(dm & g & k & Hdj & Hkj & Hij & Hbj & Hwj) Hij']).
        exists ej, tj. split_and!; [done|done|]. split; [|done]. destruct (Hlev dj dm Hdj) as (dy & Hdy & Hky & Hly).
        assert (dj <> d).
        { intros ->. assert (dm = dom) as -> by congruence. congruence. }
        rewrite decide_False in Hly by done. exists dy, g, k. rewrite Hly. split_and!; try done; try congruence; try lia.
        unfold domain_id in *. by rewrite Hky.
    + intros j. cbn. destruct (decide (j = id)) as [-> | Hjne]; [by rewrite Hid|]. rewrite lookup_insert_ne by done. apply H4.
Qed.

Lemma dvfs_step_ok e : dvfs_enabled s e -> exists s', dvfs_step s e = Ret s' /\ dvfs_inv lat s'.
Proof.
  intros He. destruct e as [t|i n|id l|id]; cbn in He.
  - destruct He as [Ht Hu]. eexists; split; [done|].
    apply same_domains_inv; [by apply step_advance; [apply Hs|]|done|cbn; lia|done].
  - destruct (query_ok r (di_clock lat s Hs) i He) as (o & q & _ & _ & _ & E1 & E2 & Hi).
    unfold dvfs_step. cbn [clock_step]. unfold clockEdge. rewrite E1. cbn [mbind res_bind]. rewrite E2.
    eexists; split; [done|]. apply same_domains_inv; [done|done|cbn; lia|]. cbn. intros id ev u Hev Hu.
    destruct (di_keys lat s Hs id) as [d Hd]; [by rewrite Hev|].
    destruct (di_slot lat s Hs id d Hd) as (ev' & t & Hev' & _ & [(dom & f & j & _ & _ & _ & _ & Hw) _]).
    assert (ev' = ev) as -> by congruence. rewrite Hu in Hw. lia.
  - destruct He as [[d Hd] Hl]. destruct (dvfs_request_ok id l d Hd Hl) as (b & h' & E & _ & _ & Hi).
    unfold dvfs_step. rewrite E. by eexists.
  - destruct He as (ev & Hev & Hw). destruct (di_keys lat s Hs id) as [d Hd]; [by rewrite Hev|].
    destruct (dvfs_update_ok id ev d Hev Hw Hd) as (h' & w' & E & Ed & _ & _ & Hi).
    unfold dvfs_step. rewrite E. cbn [mbind res_bind]. rewrite Ed, Hd. by eexists.
Qed.
End steps.

Lemma dvfs_reach_inv lat s : 0 <= lat < 2 ^ 62 -> dvfs_reach lat s -> dvfs_inv lat s.
Proof.
  intros Hlat. induction 1 as [r sys l h Hr E Hl|s e s' _ IH He E].
  - by eapply dvfs_init; [|apply clock_reach_inv|..].
  - destruct (dvfs_step_ok lat s IH e He) as (s1 & E1 & Hi). rewrite E in E1. by injection E1 as <-.
Qed.

(** ** Theorems *)

(** C27. The last request wins.  In every state of the handler, whatever requests,
    updates and clock questions came before: a domain without a scheduled update
    is at the level software last asked for (or its first level), with the period
    of that level; a scheduled update is due within the transition latency, asks
    for the last requested level, and when it is processed the domain has that
    level; a request for a level the domain does not have changes nothing; a
    request reports a transition exactly when the level is valid and not the
    current one; and no assertion fails. *)
Theorem dvfs_last_request_wins lat s id d :
  0 <= lat < 2 ^ 62 -> dvfs_reach lat s -> domains (d_handler s) !! id = Some d ->
  let w := r_clocks (d_run s) in
  let now := r_now (d_run s) in
  (exists ev target f i dom, updatePerfLevelEvents (d_handler s) !! id = Some ev /\ d_target s !! id = Some target /\
     clk_domains w !! d = Some dom /\ dom_kind dom = SrcClockDomain f i /\
     match ue_when ev with
     | None => _perfLevel dom = target /\ period w d = f !! Z.to_nat target
     | Some t => now <= t <= now + lat /\ perfLevelToSet ev = target
     end) /\
  (forall s', dvfs_enabled s (DvUpdate id) -> dvfs_step s (DvUpdate id) = Ret s' ->
     Some (level_of (r_clocks (d_run s')) d) = d_target s' !! id /\ d_target s' = d_target s /\
     ue_when (event_slot (d_handler s') id) = None) /\
  (forall l, 0 <= l -> exists b h', dvfs_perfLevel w (d_handler s) now id l = Ret (b, h') /\
     b = (valid_request s id l && negb (level_of w d =? l)) /\ (valid_request s id l = false -> h' = d_handler s)) /\
  (forall e, dvfs_enabled s e -> exists s', dvfs_step s e = Ret s').
Proof.
  intros Hlat Hr Hid. pose proof (dvfs_reach_inv lat s Hlat Hr) as Hs. cbn zeta. split_and!.
  - destruct (di_slot lat s Hs id d Hid) as (ev & t & Hev & Ht & [(dom & f & i & Hdm & Hk & Hi & Hb & Hw) Hi']).
    exists ev, t, f, i, dom. split_and!; [done..|]. destruct (ue_when ev) as [u|]; [tauto|]. split; [done|].
    destruct (ci_src _ (di_clock lat s Hs) d dom f i Hdm Hk) as (_ & Hf & _). unfold period. rewrite Hdm, <- Hw. done.
  - intros s' (ev & Hev & Hw) E. destruct (dvfs_update_ok lat s Hs id ev d Hev Hw Hid) as (h' & w' & E' & Ed & Hl & Hn & _).
    unfold dvfs_step in E. rewrite E' in E. cbn [mbind res_bind] in E. injection E as <-. done.
  - intros l Hl. destruct (dvfs_request_ok lat s Hs id l d Hid Hl) as (b & h' & E & Eb & Hno & _). by exists b, h'.
  - intros e He. destruct (dvfs_step_ok lat s Hs e He) as (s' & E & _). eauto.
Qed.

(** The event slots survive a checkpoint. *)
Definition slots_of (m : gmap Z UpdateEvent) (l : list (Z * UpdateEvent)) : list (Z * Z * Z) :=
  (fun p => (p.1, perfLevelToSet p.2, default 0 (ue_when p.2))) <$> l.

Lemma serialize_slots h :
  (forall id ev, updatePerfLevelEvents h !! id = Some ev -> domainIDToSet ev = id) ->
  dvfs_serialize h = Ret (enableHandler h, slots_of (updatePerfLevelEvents h) (map_to_list (updatePerfLevelEvents h))).
Proof.
  intros Hid. unfold dvfs_serialize.
  assert (Hl : forall p, p ∈ map_to_list (updatePerfLevelEvents h) -> domainIDToSet p.2 = p.1).
  { intros [id ev] Hp. apply elem_of_map_to_list in Hp. by apply Hid. }
  induction (map_to_list (updatePerfLevelEvents h)) as [|[id ev] l IH]; [done|].
  assert (Hh : domainIDToSet ev = id) by (apply (Hl (id, ev)); set_solver).
  rewrite cassert_true by (apply Z.eqb_eq; congruence). cbn [mbind res_bind].
  apply bind_Ret in IH as (r & Er & E); [|set_solver]. rewrite Er. cbn. injection E as ->. done.
Qed.

(** Restoring distinct slots into a map without scheduled events. *)
Lemma restore_slots now m0 l : forall m,
  NoDup l.*1 ->
  (forall p, p ∈ l -> domainIDToSet p.2 = p.1 /\ forall t, ue_when p.2 = Some t -> t <> 0 /\ now <= t) ->
  (forall id ev, m !! id = Some ev -> id ∈ l.*1 -> ue_when ev = None) ->
  exists m', restore_events now m (slots_of m0 l) = Ret m' /\
    (forall id ev, (id, ev) ∈ l -> m' !! id = Some ev) /\ (forall id, id ∉ l.*1 -> m' !! id = m !! id).
Proof.
  induction l as [|[id ev] l IH]; intros m Hnd Hl Hm.
  - exists m. split_and!; [done|set_solver|done].
  - cbn in Hnd. apply NoDup_cons in Hnd as [Hid Hnd]. destruct (Hl (id, ev)) as [Hi Hw]; [set_solver|]. cbn in Hi, Hw.
    cbn [slots_of fmap list_fmap restore_events fst snd].
    assert (Hslot : ue_when (default (mkUpdateEvent 0 0 None) (m !! id)) = None).
    { destruct (m !! id) as [e|] eqn:E; [|done]. apply (Hm id e E). set_solver. }
    assert (Ew : (if default 0 (ue_when ev) =? 0 then Ret (ue_when (default (mkUpdateEvent 0 0 None) (m !! id)))
                  else _ ← cassert (now <=? default 0 (ue_when ev));
                       _ ← cassert (bool_decide (ue_when (default (mkUpdateEvent 0 0 None) (m !! id)) = None));
                       Ret (Some (default 0 (ue_when ev)))) = Ret (ue_when ev)).
    { rewrite Hslot. destruct (ue_when ev) as [t|]; cbn; [|done]. destruct (Hw t eq_refl) as [Ht0 Htn].
      rewrite (proj2 (Z.eqb_neq t 0)) by done. by rewrite (cassert_true (now <=? t)) by (by apply Z.leb_le). }
    rewrite Ew. cbn [mbind res_bind].
    destruct (IH (<[id := mkUpdateEvent id (perfLevelToSet ev) (ue_when ev)]> m)) as (m' & E & Hin & Hout); [done|set_solver| |].
    + intros j ej Hj Hjl. rewrite lookup_insert_ne in Hj by (by intros ->). apply (Hm j ej Hj). set_solver.
    + exists m'. split_and!; [done| |].
      * intros j ej [[= -> ->] | Hj]%elem_of_cons; [|by apply Hin]. rewrite Hout, lookup_insert_eq by done.
        destruct ev; cbn in *; congruence.
      * intros j Hj. cbn in Hj. rewrite Hout, lookup_insert_ne by set_solver. done.
Qed.

(** C28. Checkpoints of the handler: restoring what a reachable handler wrote into
    a handler with the same slots and nothing scheduled gives back every event
    with its level and its tick, provided no event is scheduled for tick 0 (which
    a checkpoint cannot tell from an event that is not scheduled). *)
Theorem dvfs_checkpoint_roundtrip lat s h0 :
  0 <= lat < 2 ^ 62 -> dvfs_reach lat s ->
  (forall id ev, updatePerfLevelEvents (d_handler s) !! id = Some ev -> ue_when ev <> Some 0) ->
  dom (updatePerfLevelEvents h0) = dom (updatePerfLevelEvents (d_handler s)) ->
  (forall id ev, updatePerfLevelEvents h0 !! id = Some ev -> ue_when ev = None) ->
  exists cp h', dvfs_serialize (d_handler s) = Ret cp /\ dvfs_unserialize h0 (r_now (d_run s)) cp = Ret h' /\
    updatePerfLevelEvents h' = updatePerfLevelEvents (d_handler s) /\ enableHandler h' = enableHandler (d_handler s) /\
    domains h' = domains h0.
Proof.
  intros Hlat Hr Hz Hdom Hnone. pose proof (dvfs_reach_inv lat s Hlat Hr) as Hs.
  set (M := updatePerfLevelEvents (d_handler s)) in *.
  assert (Hslot : forall id ev, M !! id = Some ev -> domainIDToSet ev = id /\
            forall t, ue_when ev = Some t -> t <> 0 /\ r_now (d_run s) <= t).
  { intros id ev Hev. destruct (di_keys lat s Hs id) as [d Hd]; [by unfold M in Hev; rewrite Hev|].
    destruct (di_slot lat s Hs id d Hd) as (ev' & t & Hev' & _ & [(dom & f & j & _ & _ & _ & _ & Hw) Hi]).
    assert (ev' = ev) as -> by (unfold M in Hev; congruence). split; [done|]. intros u Hu. rewrite Hu in Hw.
    split; [|lia]. intros ->. by apply (Hz id ev). }
  rewrite serialize_slots by (intros id ev Hev; by apply Hslot). fold M.
  destruct (restore_slots (r_now (d_run s)) M (map_to_list M) (updatePerfLevelEvents h0)) as (m' & E & Hin & Hout).
  - apply NoDup_fst_map_to_list.
  - intros [id ev] Hp. apply elem_of_map_to_list in Hp. by apply Hslot.
  - intros id ev Hev _. by eapply Hnone.
  - eexists _, _. split; [done|]. unfold dvfs_unserialize. cbn [fst snd]. rewrite E. cbn [mbind res_bind].
    split_and!; try done. cbn. apply map_eq. intros id. destruct (M !! id) as [ev|] eqn:Em.
    + apply Hin. by apply elem_of_map_to_list.
    + rewrite Hout.
      * apply not_elem_of_dom. rewrite Hdom. by apply not_elem_of_dom.
      * intros Hid. apply list_elem_of_fmap in Hid as ([j ej] & -> & Hj). apply elem_of_map_to_list in Hj. cbn in Em. congruence.
Qed.

(** A system clock and a scalable clock; software asks for the slow level. *)
Definition dvfs_config : list ClockEv :=
  [EvNewVoltage [12; 10]; EvNewVoltage [12]; EvNewSrc [100] (-1) 0 1; EvNewSrc [500; 800] 1 0 0; EvAdvance 1000].
Definition dvfs_clocks : Run := Eval vm_compute in demo_run dvfs_config.

Lemma dvfs_clocks_reach : clock_reach dvfs_clocks.
Proof.
  eapply (cr_step (demo_run (take 4 dvfs_config)) (EvAdvance 1000)); [|vm_compute; split; congruence|vm_compute; reflexivity].
  eapply (cr_step (demo_run (take 3 dvfs_config)) (EvNewSrc [500; 800] 1 0 0)); [| |vm_compute; reflexivity].
  2: { split_and!; [repeat constructor; lia|reflexivity|cbn; lia|lia|cbn; lia|]. eexists; split; [reflexivity|by right]. }
  eapply (cr_step (demo_run (take 2 dvfs_config)) (EvNewSrc [100] (-1) 0 1)); [| |vm_compute; reflexivity].
  2: { split_and!; [repeat constructor; lia|reflexivity|cbn; lia|lia|cbn; lia|]. eexists; split; [reflexivity|by left]. }
  eapply (cr_step (demo_run (take 1 dvfs_config)) (EvNewVoltage [12])); [| |vm_compute; reflexivity].
  2: { split_and!; [done|reflexivity|cbn; lia]. }
  eapply (cr_step _ (EvNewVoltage [12; 10])); [apply cr_init| |vm_compute; reflexivity].
  split_and!; [done|reflexivity|cbn; lia].
Qed.

Definition dvfs_after (r : res DRun) (s : DRun) : DRun := match r with Ret s => s | Err _ => s end.
Definition dvfs_demo0 : DRun :=
  Eval vm_compute in
    match DVFSHandler_new (r_clocks dvfs_clocks) 0 true 50 [1%nat] with
    | Ret h => mkDRun dvfs_clocks h (level_of (r_clocks dvfs_clocks) <$> domains h)
    | Err _ => mkDRun dvfs_clocks (mkDVFSHandler ∅ [] 0 false 0 ∅) ∅
    end.
Definition dvfs_demo1 : DRun := Eval vm_compute in dvfs_after (dvfs_step dvfs_demo0 (DvRequest 1 1)) dvfs_demo0.

Lemma dvfs_demo1_reach : dvfs_reach 50 dvfs_demo1.
Proof.
  eapply (dr_step 50 dvfs_demo0 (DvRequest 1 1)); [|split; [by eexists|lia]|vm_compute; reflexivity].
  apply (dr_init 50 dvfs_clocks 0 [1%nat]); [exact dvfs_clocks_reach|vm_compute; reflexivity|].
  intros d Hd. apply list_elem_of_singleton in Hd as ->. eexists _, _, _. split; reflexivity.
Qed.

Lemma dvfs_last_request_wins_witness :
  dvfs_reach 50 dvfs_demo1 /\ exists b h,
    dvfs_perfLevel (r_clocks (d_run dvfs_demo1)) (d_handler dvfs_demo1) 1000 1 0 = Ret (b, h) /\ b = false.
Proof.
  split; [exact dvfs_demo1_reach|].
  destruct (dvfs_last_request_wins 50 dvfs_demo1 1 1 ltac:(lia) dvfs_demo1_reach eq_refl) as (_ & _ & Hreq & _).
  destruct (Hreq 0 ltac:(lia)) as (b & h & E & Eb & _). exists b, h. split; [exact E|exact Eb].
Defined.

Lemma dvfs_checkpoint_roundtrip_witness :
  exists cp h', dvfs_serialize (d_handler dvfs_demo1) = Ret cp /\ cp.2 = [(1, 1, 1050)] /\
    dvfs_unserialize (d_handler dvfs_demo0) 1000 cp = Ret h' /\
    updatePerfLevelEvents h' = updatePerfLevelEvents (d_handler dvfs_demo1).
Proof.
  destruct (dvfs_checkpoint_roundtrip 50 dvfs_demo1 (d_handler dvfs_demo0) ltac:(lia) dvfs_demo1_reach)
    as (cp & h' & E1 & E2 & E3 & _).
  - intros id ev Hev. change (updatePerfLevelEvents (d_handler dvfs_demo1)) with
      ({[1 := mkUpdateEvent 1 1 (Some 1050)]} : gmap Z UpdateEvent) in Hev.
    apply lookup_singleton_Some in Hev as [_ <-]. discriminate.
  - reflexivity.
  - intros id ev Hev. change (updatePerfLevelEvents (d_handler dvfs_demo0)) with
      ({[1 := mkUpdateEvent 1 0 None]} : gmap Z UpdateEvent) in Hev.
    apply lookup_singleton_Some in Hev as [_ <-]. reflexivity.
  - exists cp, h'. split; [exact E1|]. split; [|split; [exact E2|exact E3]].
    assert (Hv : dvfs_serialize (d_handler dvfs_demo1) = Ret (true, [(1, 1, 1050)])) by (vm_compute; reflexivity).
    rewrite Hv in E1. injection E1 as <-. reflexivity.
Defined.
