(* ===== verification/AddrRange.v ===== *)
(** * Address ranges and address decoding: [base/addr_range.hh],
    [base/addr_range_map.hh]

    An address range may be interleaved: then only the addresses whose
    selected bits, possibly hashed with a second slice, equal the match value
    belong to it.  The range map is the address decoder of the crossbars and
    of the physical memory.  [std::map] is modelled by the list of its
    elements in key order, iterators by positions in it, [end()] by [None]. *)

From S2P Require Import Prelude IntMath.
Local Open Scope Z_scope.

(** ** [class AddrRange] *)

Record AddrRange := mkAddrRange {
  _start : Z;          (* Addr: 64 bits *)
  _end : Z;
  intlvHighBit : Z;    (* uint8_t *)
  xorHighBit : Z;
  intlvBits : Z;
  intlvMatch : Z
}.

#[export] Instance AddrRange_eq_dec : EqDecision AddrRange.
Proof. solve_decision. Defined.

(** The default constructor: an invalid range. *)
Definition AddrRange_default : AddrRange := mkAddrRange 1 0 0 0 0 0.

(** The constructor of an interleaved range, with its sanity checks. *)
Definition AddrRange_intlv (start end_ intlv_high_bit xor_high_bit intlv_bits
    intlv_match : Z) : res AddrRange :=
  let r := mkAddrRange start end_ intlv_high_bit xor_high_bit intlv_bits intlv_match in
  if negb (intlv_bits =? 0) && (u64 (Z.shiftl 1 intlv_bits) <=? intlv_match)
  then Err Fatal
  else if negb (intlv_bits =? 0) && negb (xor_high_bit =? 0) then
    if xor_high_bit =? intlv_high_bit then Err Fatal
    else if intlv_high_bit <? xor_high_bit then
      if xor_high_bit - intlv_high_bit <? intlv_bits then Err Fatal else Ret r
    else
      if intlv_high_bit - xor_high_bit <? intlv_bits then Err Fatal else Ret r
  else Ret r.

(** The constructor of a plain range. *)
Definition AddrRange_plain (start end_ : Z) : AddrRange :=
  mkAddrRange start end_ 0 0 0 0.

Definition interleaved (r : AddrRange) : bool := negb (intlvBits r =? 0).

Definition hashed (r : AddrRange) : bool :=
  interleaved r && negb (xorHighBit r =? 0).

Definition granularity (r : AddrRange) : Z :=
  u64 (Z.shiftl 1 (intlvHighBit r - intlvBits r + 1)).

Definition stripes (r : AddrRange) : Z := u32 (u64 (Z.shiftl 1 (intlvBits r))).

Definition AddrRange_size (r : AddrRange) : Z :=
  Z.shiftr (u64 (_end r - _start r + 1)) (intlvBits r).

Definition AddrRange_valid (r : AddrRange) : bool := _start r <=? _end r.

Definition mergesWith (this r : AddrRange) : bool :=
  (_start r =? _start this) && (_end r =? _end this)
  && (intlvHighBit r =? intlvHighBit this)
  && (xorHighBit r =? xorHighBit this)
  && (intlvBits r =? intlvBits this).

(** The value compared with [intlvMatch]: the selected slice of the address,
    hashed with the XOR slice if there is one. *)
Definition intlvSlice (r : AddrRange) (a : Z) : Z :=
  if hashed r then
    Z.lxor (bits a (intlvHighBit r) (intlvHighBit r - intlvBits r + 1))
           (bits a (xorHighBit r) (xorHighBit r - intlvBits r + 1))
  else bits a (intlvHighBit r) (intlvHighBit r - intlvBits r + 1).

Definition contains (r : AddrRange) (a : Z) : bool :=
  let in_range := (_start r <=? a) && (a <=? _end r) in
  if negb (interleaved r) then in_range
  else if in_range then intlvSlice r a =? intlvMatch r
  else false.

Definition intersects (this r : AddrRange) : res bool :=
  if (_end r <? _start this) || (_end this <? _start r) then Ret false
  else if negb (interleaved this) && negb (interleaved r) then Ret true
  else if AddrRange_size r =? 1 then Ret (contains this (_start r))
  else if mergesWith this r then Ret (intlvMatch this =? intlvMatch r)
  else Err Panic.

Definition isSubset (this r : AddrRange) : res bool :=
  if interleaved this then Err Panic
  else Ret ((_start r <=? _start this) && (_end this <=? _end r)).

(** [operator<] *)
Definition AddrRange_lt (this r : AddrRange) : bool :=
  if negb (_start this =? _start r) then _start this <? _start r
  else intlvMatch this <? intlvMatch r.

(** [operator==] *)
Definition AddrRange_eq (this r : AddrRange) : bool :=
  if negb (_start this =? _start r) then false
  else if negb (_end this =? _end r) then false
  else if negb (intlvBits this =? intlvBits r) then false
  else if negb (intlvBits this =? 0) then
    if negb (intlvHighBit this =? intlvHighBit r) then false
    else if negb (intlvMatch this =? intlvMatch r) then false
    else true
  else true.

(** The loop of the merging constructor: the ranges must carry the match
    values 0, 1, 2, ... ([uint8_t match]) in order. *)
Fixpoint merge_loop (this : AddrRange) (ranges : list AddrRange) (match_ : Z) : res unit :=
  match ranges with
  | [] => Ret tt
  | r :: ranges =>
      if negb (mergesWith this r) then Err Fatal
      else if negb (intlvMatch r =? match_) then Err Fatal
      else merge_loop this ranges (u8 (match_ + 1))
  end.

Definition AddrRange_merge (ranges : list AddrRange) : res AddrRange :=
  match ranges with
  | [] => Ret AddrRange_default
  | front :: _ =>
      let this := mkAddrRange (_start front) (_end front) (intlvHighBit front)
                    (xorHighBit front) (intlvBits front) 0 in
      if negb (Z.of_nat (length ranges) =? u64 (Z.shiftl 1 (intlvBits this)))
      then Err Fatal
      else
        _ ← merge_loop this ranges 0;
        Ret (mkAddrRange (_start this) (_end this) 0 0 0 0)
  end.

Definition RangeEx (start end_ : Z) : AddrRange := AddrRange_plain start (u64 (end_ - 1)).

Definition RangeIn (start end_ : Z) : AddrRange := AddrRange_plain start end_.

Definition RangeSize (start size : Z) : AddrRange :=
  AddrRange_plain start (u64 (u64 (start + size) - 1)).

(** ** [class AddrRangeMap] *)

Section range_map.
Context {V : Type}.

(** [tree.upper_bound(r)]: the position of the first key greater than [r]. *)
Fixpoint upper_bound (tree : list (AddrRange * V)) (r : AddrRange) : nat :=
  match tree with
  | [] => O
  | (k, _) :: tree => if AddrRange_lt r k then O else S (upper_bound tree r)
  end.

(** [i->first.intersects(r)] *)
Definition intersects_at (tree : list (AddrRange * V)) (i : nat) (r : AddrRange) : res bool :=
  kv ← vread tree i; intersects (fst kv) r.

(** The backwards walk over one interleaved chunk. *)
Fixpoint find_back (tree : list (AddrRange * V)) (orig_range r : AddrRange) (i : nat) :
    res (option nat) :=
  kv ← vread tree i;
  match i with
  | S i' =>
      if mergesWith (fst kv) orig_range then
        b ← intersects_at tree i' r;
        if (b : bool) then Ret (Some i') else find_back tree orig_range r i'
      else
        b ← intersects (fst kv) r;
        Ret (if (b : bool) then Some i else None)
  | O =>
      b ← intersects (fst kv) r;
      Ret (if (b : bool) then Some i else None)
  end.

Definition RangeMap_find (tree : list (AddrRange * V)) (r : AddrRange) : res (option nat) :=
  match tree with
  | [] => Ret None
  | _ =>
      match upper_bound tree r with
      | O =>
          b ← intersects_at tree 0 r;
          Ret (if (b : bool) then Some O else None)
      | S i =>
          kv ← vread tree i;
          b ← intersects (fst kv) r;
          if (b : bool) then Ret (Some i)
          else if interleaved (fst kv) then find_back tree (fst kv) r i
          else Ret None
      end
  end.

(** [find(const Addr&)] *)
Definition RangeMap_find_addr (tree : list (AddrRange * V)) (a : Z) : res (option nat) :=
  RangeMap_find tree (RangeSize a 1).

Definition RangeMap_intersect (tree : list (AddrRange * V)) (r : AddrRange) : res bool :=
  i ← RangeMap_find tree r; Ret (bool_decide (is_Some i)).

(** [tree.insert]: no effect if an equivalent key is already present. *)
Fixpoint tree_insert (tree : list (AddrRange * V)) (r : AddrRange) (d : V) :
    list (AddrRange * V) * nat :=
  match tree with
  | [] => ([(r, d)], O)
  | (k, v) :: tree' =>
      if AddrRange_lt r k then ((r, d) :: tree, O)
      else if AddrRange_lt k r then
        let '(t, i) := tree_insert tree' r d in ((k, v) :: t, S i)
      else (tree, O)
  end.

(** [insert]: the new tree and the iterator returned. *)
Definition RangeMap_insert (tree : list (AddrRange * V)) (r : AddrRange) (d : V) :
    res (list (AddrRange * V) * option nat) :=
  b ← RangeMap_intersect tree r;
  if (b : bool) then Ret (tree, None)
  else let '(t, i) := tree_insert tree r d in Ret (t, Some i).

(** [erase(iterator)] *)
Definition RangeMap_erase (tree : list (AddrRange * V)) (p : nat) : list (AddrRange * V) :=
  base.delete p tree.

(** [clear()] *)
Definition RangeMap_clear (tree : list (AddrRange * V)) : list (AddrRange * V) := [].

End range_map.

(** ** Ranges: lemmas *)

(** Well-formed interleaving parameters: the slices lie within the address
    and the match value fits. *)
Definition range_wf (r : AddrRange) : Prop :=
  inword 64 (_start r) /\ inword 64 (_end r) /\
  0 <= intlvBits r /\ 0 <= intlvHighBit r < 64 /\ 0 <= xorHighBit r < 64 /\
  intlvBits r <= intlvHighBit r + 1 /\
  (hashed r = true -> intlvBits r <= xorHighBit r + 1) /\
  0 <= intlvMatch r.

Lemma bits_range a f l : 0 <= l <= f -> f < 64 -> 0 <= bits a f l < 2 ^ (f - l + 1).
Proof. intros. rewrite bits_div_mod by lia. apply Z.mod_pos_bound, pow2_pos. lia. Qed.

Lemma lxor_range w x y : 0 <= w -> inword w x -> inword w y -> inword w (Z.lxor x y).
Proof.
  intros Hw Hx Hy.
  assert (0 <= Z.lxor x y) by (apply Z.lxor_nonneg; word_lia).
  split; [done|].
  destruct (Z.eq_dec (Z.lxor x y) 0) as [->|]; [by apply pow2_pos|].
  apply Z.log2_lt_pow2; [lia|]. apply Z.nle_gt. intros Hle.
  pose proof (Z.bit_log2 (Z.lxor x y) ltac:(lia)) as Hb.
  rewrite Z.lxor_spec, (inword_testbit_high w x), (inword_testbit_high w y) in Hb
    by done. discriminate.
Qed.

Lemma intlvSlice_range r a :
  range_wf r -> interleaved r = true -> inword (intlvBits r) (intlvSlice r a).
Proof.
  intros (? & ? & ? & ? & ? & ? & Hx & ?) Hi. unfold intlvSlice, interleaved in *. reflect.
  pose proof (bits_range a (intlvHighBit r) (intlvHighBit r - intlvBits r + 1)).
  replace (intlvHighBit r - (intlvHighBit r - intlvBits r + 1) + 1)
    with (intlvBits r) in * by lia.
  destruct (hashed r); [|word_lia].
  pose proof (bits_range a (xorHighBit r) (xorHighBit r - intlvBits r + 1)).
  replace (xorHighBit r - (xorHighBit r - intlvBits r + 1) + 1)
    with (intlvBits r) in * by lia.
  apply lxor_range; [lia|..]; specialize (Hx eq_refl); word_lia.
Qed.

Lemma mergesWith_spec this r :
  mergesWith this r = true <->
  _start this = _start r /\ _end this = _end r /\
  intlvHighBit this = intlvHighBit r /\ xorHighBit this = xorHighBit r /\
  intlvBits this = intlvBits r.
Proof. unfold mergesWith. rewrite !andb_true_iff, !Z.eqb_eq. intuition congruence. Qed.

(** Ranges of one chunk select addresses with the same slice. *)
Lemma mergesWith_slice this r a :
  mergesWith this r = true ->
  interleaved this = interleaved r /\ intlvSlice this a = intlvSlice r a.
Proof.
  rewrite mergesWith_spec. intros (_ & _ & E1 & E2 & E3).
  unfold intlvSlice, hashed, interleaved. by rewrite E1, E2, E3.
Qed.

Lemma contains_span r a : contains r a = true -> _start r <= a <= _end r.
Proof.
  unfold contains. destruct (interleaved r); cbn; intros H.
  - destruct ((_start r <=? a) && (a <=? _end r)) eqn:E; [reflect; lia|done].
  - reflect; lia.
Qed.

Lemma contains_spec r a :
  contains r a = true <->
  _start r <= a <= _end r /\ (interleaved r = true -> intlvSlice r a = intlvMatch r).
Proof.
  split.
  - intros H. split; [by apply contains_span|]. intros Hi. unfold contains in H.
    rewrite Hi in H. cbn in H.
    destruct ((_start r <=? a) && (a <=? _end r)); [by reflect|done].
  - intros [Hs Hi]. unfold contains. destruct (interleaved r); cbn.
    + destruct (Z.leb_spec (_start r) a), (Z.leb_spec a (_end r)); try lia. cbn.
      apply Z.eqb_eq. auto.
    + destruct (Z.leb_spec (_start r) a), (Z.leb_spec a (_end r)); lia.
Qed.

(** Testing a range against one address is [contains], and never panics. *)
Lemma intersects_point r a :
  inword 64 a ->
  intersects r (RangeSize a 1) = Ret (contains r a).
Proof.
  intros Ha. unfold RangeSize. rewrite wrap_sub_l.
  replace (a + 1 - 1) with a by lia. rewrite (wrap_small 64 a) by done.
  set (p := AddrRange_plain a a).
  assert (Hp : AddrRange_size p = 1).
  { unfold AddrRange_size, p. cbn. replace (a - a + 1) with 1 by lia. done. }
  unfold intersects. rewrite Hp. change (_start p) with a. change (_end p) with a.
  change (interleaved p) with false.
  destruct (contains r a) eqn:Hc.
  - pose proof (contains_span r a Hc).
    destruct (Z.ltb_spec a (_start r)), (Z.ltb_spec (_end r) a); try lia. cbn [orb].
    destruct (interleaved r) eqn:Hi; cbn [negb andb]; [|done].
    by rewrite Z.eqb_refl, ?Hc.
  - destruct ((a <? _start r) || (_end r <? a)) eqn:E; [done|]. reflect.
    assert (interleaved r = true) as Hi.
    { destruct (interleaved r) eqn:Hi; [done|]. exfalso.
      rewrite <- not_true_iff_false, contains_spec in Hc. apply Hc. split; [lia|congruence]. }
    rewrite Hi. cbn [negb andb]. by rewrite Z.eqb_refl, ?Hc.
Qed.

(** ** Merging: lemmas *)

Lemma merge_loop_spec this ranges m :
  0 <= m -> m + Z.of_nat (length ranges) <= 256 ->
  merge_loop this ranges m = Ret tt ->
  Forall (fun r => mergesWith this r = true) ranges /\
  forall k r, ranges !! k = Some r -> intlvMatch r = m + Z.of_nat k.
Proof.
  revert m. induction ranges as [|r0 ranges IH]; intros m Hm Hlen H; [done|].
  cbn [merge_loop length] in *.
  destruct (mergesWith this r0) eqn:Hmw; [cbn [negb] in H|done].
  destruct (Z.eqb_spec (intlvMatch r0) m) as [Hm0|]; [cbn [negb] in H|done].
  destruct ranges as [|r1 ranges'] eqn:Er.
  { split; [by constructor|]. intros [|k] r; cbn; [|done]. intros [= <-]. lia. }
  rewrite <- Er in *. rewrite wrap_small in H by (subst; cbn in Hlen; word_lia).
  destruct (IH (m + 1)) as [HF Hk]; [lia|lia|done|].
  split; [by constructor|].
  intros [|k] r; cbn; [intros [= <-]; lia|]. intros Hr. rewrite (Hk k r Hr). lia.
Qed.

(** ** The range map: lemmas *)

Lemma AddrRange_lt_spec x y :
  AddrRange_lt x y = true <->
  _start x < _start y \/ (_start x = _start y /\ intlvMatch x < intlvMatch y).
Proof.
  unfold AddrRange_lt. destruct (Z.eqb_spec (_start x) (_start y)); cbn;
  rewrite Z.ltb_lt; lia.
Qed.

Lemma AddrRange_lt_trans x y z :
  AddrRange_lt x y = true -> AddrRange_lt y z = true -> AddrRange_lt x z = true.
Proof. rewrite !AddrRange_lt_spec. lia. Qed.


Section range_map_lemmas.
Context {V : Type}.
Implicit Types tree : list (AddrRange * V).

(** What the map's clients maintain: keys in increasing order, any two ranges
    either apart or in one chunk with different match values. *)
Record tree_wf (tree : list (AddrRange * V)) : Prop := {
  tw_sorted : forall i j ri rj, (i < j)%nat ->
    fst <$> tree !! i = Some ri -> fst <$> tree !! j = Some rj ->
    AddrRange_lt ri rj = true;
  tw_apart : forall i j ri rj, (i < j)%nat ->
    fst <$> tree !! i = Some ri -> fst <$> tree !! j = Some rj ->
    _end ri < _start rj \/
    (mergesWith ri rj = true /\ interleaved ri = true /\ intlvMatch ri <> intlvMatch rj);
  tw_valid : forall i ri, fst <$> tree !! i = Some ri ->
    _start ri <= _end ri /\ 0 <= intlvMatch ri /\ (interleaved ri = false -> intlvMatch ri = 0)
}.

Lemma upper_bound_length tree r : (upper_bound tree r <= length tree)%nat.
Proof.
  induction tree as [|[k v] tree IH]; cbn; [done|]. destruct (AddrRange_lt r k); lia.
Qed.

Lemma upper_bound_before tree r i ri :
  (i < upper_bound tree r)%nat -> fst <$> tree !! i = Some ri -> AddrRange_lt r ri = false.
Proof.
  revert i. induction tree as [|[k v] tree IH]; intros i Hi Hr; cbn in *; [lia|].
  destruct (AddrRange_lt r k) eqn:E; [lia|].
  destruct i as [|i]; cbn in *; [by simplify_eq|]. apply (IH i); [lia|done].
Qed.

Lemma upper_bound_after tree r i ri :
  tree_wf tree -> (upper_bound tree r <= i)%nat -> fst <$> tree !! i = Some ri ->
  AddrRange_lt r ri = true.
Proof.
  intros [Hs _ _].
  assert (Hub : forall ru, fst <$> tree !! upper_bound tree r = Some ru ->
                AddrRange_lt r ru = true).
  { clear Hs. induction tree as [|[k v] tree IH]; intros ru; cbn; [done|].
    destruct (AddrRange_lt r k) eqn:E; cbn; [by intros [= <-]|apply IH]. }
  intros Hi Hr. destruct (decide (i = upper_bound tree r)) as [->|Hne]; [by apply Hub|].
  assert (is_Some (tree !! upper_bound tree r)) as [ku Hku].
  { apply lookup_lt_is_Some. transitivity i; [lia|].
    apply lookup_lt_is_Some. destruct (tree !! i); [by eexists|done]. }
  specialize (Hub (fst ku)). rewrite Hku in Hub. cbn in Hub.
  apply (AddrRange_lt_trans r (fst ku) ri); [by apply Hub|].
  apply (Hs (upper_bound tree r) i); [lia|by rewrite Hku|done].
Qed.

Lemma fst_lookup tree i ri :
  fst <$> tree !! i = Some ri -> exists v, vread tree i = Ret (ri, v).
Proof.
  intros H. destruct (tree !! i) as [[r v]|] eqn:E; [|done]. cbn in H. simplify_eq.
  exists v. by apply vread_some.
Qed.

Lemma find_back_hit tree orig a j i rj :
  inword 64 a -> (j < i)%nat -> fst <$> tree !! j = Some rj -> contains rj a = true ->
  (forall k rk, (j < k <= i)%nat -> fst <$> tree !! k = Some rk ->
     mergesWith rk orig = true /\ contains rk a = false) ->
  (i < length tree)%nat ->
  find_back tree orig (RangeSize a 1) i = Ret (Some j).
Proof.
  intros Ha Hji Hj Hc. revert Hji. induction i as [|i IH]; intros Hji Hk Hlen; [lia|].
  cbn [find_back].
  assert (forall k, (k < length tree)%nat -> exists r, fst <$> tree !! k = Some r) as Hlk.
  { intros k [x Hx]%lookup_lt_is_Some. rewrite Hx. by eexists. }
  destruct (Hlk (S i) Hlen) as [r Hr]. destruct (fst_lookup _ _ _ Hr) as [v ->].
  destruct (Hk (S i) r ltac:(lia) Hr) as [Hm _]. cbn. rewrite Hm.
  unfold intersects_at. destruct (decide (i = j)) as [->|Hne].
  - destruct (fst_lookup _ _ _ Hj) as [v' ->]. cbn. rewrite intersects_point by done.
    by rewrite Hc.
  - destruct (Hlk i ltac:(lia)) as [r' Hr']. destruct (fst_lookup _ _ _ Hr') as [v' ->].
    cbn. rewrite intersects_point by done.
    destruct (Hk i r' ltac:(lia) Hr') as [_ ->]. cbn.
    apply IH; [lia| |lia]. intros k rk ? Hrk. apply (Hk k rk); [lia|done].
Qed.

Lemma find_back_miss tree orig a i :
  inword 64 a -> (i < length tree)%nat ->
  (forall k rk, fst <$> tree !! k = Some rk -> contains rk a = false) ->
  find_back tree orig (RangeSize a 1) i = Ret None.
Proof.
  intros Ha Hlen Hno. induction i as [|i IH]; cbn [find_back];
  (destruct (lookup_lt_is_Some_2 tree _ Hlen) as [[r v] Hr];
   assert (contains r a = false) as Hc by exact (Hno _ _ (f_equal (fmap fst) Hr));
   rewrite (vread_some _ _ _ Hr); cbn).
  - rewrite intersects_point by done. by rewrite Hc.
  - destruct (mergesWith r orig); [|rewrite intersects_point by done; by rewrite Hc].
    destruct (lookup_lt_is_Some_2 tree i ltac:(lia)) as [[r' v'] Hr'].
    assert (contains r' a = false) as Hc' by (apply (Hno i r'); by rewrite Hr').
    unfold intersects_at. rewrite (vread_some _ _ _ Hr'). cbn.
    rewrite intersects_point by done. rewrite Hc'. cbn. apply IH. lia.
Qed.

Lemma find_addr_miss tree a :
  inword 64 a ->
  (forall k rk, fst <$> tree !! k = Some rk -> contains rk a = false) ->
  RangeMap_find_addr tree a = Ret None.
Proof.
  intros Ha Hno. unfold RangeMap_find_addr, RangeMap_find.
  destruct tree as [|kv0 tree0] eqn:Et; [done|]. rewrite <- Et in *.
  pose proof (upper_bound_length tree (RangeSize a 1)) as Hub.
  destruct (upper_bound tree (RangeSize a 1)) as [|i]; cbn.
  - unfold intersects_at. rewrite Et. cbn. rewrite intersects_point by done.
    rewrite (Hno O (fst kv0)) by (by rewrite Et). done.
  - destruct (lookup_lt_is_Some_2 tree i ltac:(lia)) as [[r v] Hr].
    rewrite (vread_some _ _ _ Hr). cbn. rewrite intersects_point by done.
    rewrite (Hno i r) by (by rewrite Hr). cbn.
    destruct (interleaved r); [|done]. apply find_back_miss; [done|lia|done].
Qed.

(** The keys between a range that contains [a] and the last key not greater
    than [a] belong to the same chunk and do not contain [a]. *)
Lemma same_chunk tree a j k rj rk :
  tree_wf tree -> inword 64 a -> (j < k)%nat ->
  fst <$> tree !! j = Some rj -> fst <$> tree !! k = Some rk ->
  contains rj a = true -> _start rk <= a ->
  mergesWith rj rk = true /\ interleaved rk = true /\ contains rk a = false.
Proof.
  intros Hwf Ha Hjk Hj Hk Hc Hle.
  destruct (tw_apart tree Hwf j k rj rk Hjk Hj Hk) as [Hap|(Hm & Hi & Hne)].
  { apply contains_span in Hc. lia. }
  destruct (mergesWith_slice rj rk a Hm) as [Hi' Hs].
  split; [done|]. split; [congruence|].
  apply not_true_iff_false. rewrite contains_spec. intros [_ Hs'].
  apply contains_spec in Hc as [_ Hc]. apply Hne.
  rewrite <- Hc by done. rewrite <- Hs' by congruence. done.
Qed.

Lemma mergesWith_trans x y z :
  mergesWith x y = true -> mergesWith x z = true -> mergesWith y z = true.
Proof. rewrite !mergesWith_spec. intuition congruence. Qed.

Lemma find_addr_hit tree a j rj :
  tree_wf tree -> inword 64 a ->
  fst <$> tree !! j = Some rj -> contains rj a = true ->
  (a = _start rj -> intlvMatch rj = 0) ->
  RangeMap_find_addr tree a = Ret (Some j).
Proof.
  intros Hwf Ha Hj Hc H0. unfold RangeMap_find_addr, RangeMap_find.
  set (p := RangeSize a 1).
  assert (Hps : _start p = a) by done.
  assert (Hjub : (j < upper_bound tree p)%nat).
  { apply Nat.nle_gt. intros Hge.
    pose proof (upper_bound_after tree p j rj Hwf Hge Hj) as Hlt.
    apply AddrRange_lt_spec in Hlt. pose proof (contains_span rj a Hc).
    change (intlvMatch p) with 0 in Hlt. lia. }
  destruct tree as [|kv0 tree0] eqn:Et; [done|]. rewrite <- Et in *. clear Et.
  pose proof (upper_bound_length tree p) as Hub.
  assert (Hchunk : forall k rk, (j < k < upper_bound tree p)%nat ->
            fst <$> tree !! k = Some rk ->
            mergesWith rj rk = true /\ interleaved rk = true /\ contains rk a = false).
  { intros k rk Hk Hrk. apply (same_chunk tree a j k); try done; [lia|].
    pose proof (upper_bound_before tree p k rk ltac:(lia) Hrk) as Hlt.
    rewrite <- not_true_iff_false, AddrRange_lt_spec in Hlt. lia. }
  destruct (upper_bound tree p) as [|i]; [lia|].
  destruct (lookup_lt_is_Some_2 tree i ltac:(lia)) as [[ri vi] Hri].
  rewrite (vread_some _ _ _ Hri). cbn. unfold p. rewrite intersects_point by done.
  assert (Hri' : fst <$> tree !! i = Some ri) by (by rewrite Hri).
  destruct (decide (i = j)) as [->|Hne].
  { rewrite Hj in Hri'. simplify_eq. by rewrite Hc. }
  destruct (Hchunk i ri ltac:(lia) Hri') as (Hm & Hi & Hci). rewrite Hci, Hi. cbn.
  apply (find_back_hit _ _ _ _ _ rj); try done || lia.
  intros k rk Hk Hrk. destruct (Hchunk k rk ltac:(lia) Hrk) as (Hm' & _ & ?).
  split; [by apply (mergesWith_trans rj)|done].
Qed.

End range_map_lemmas.

Lemma merge_contains ranges m a :
  Forall range_wf ranges -> (forall r, r ∈ ranges -> 0 < intlvBits r <= 8) ->
  AddrRange_merge ranges = Ret m -> ranges <> [] ->
  contains m a = true <->
  exists k r, ranges !! k = Some r /\ contains r a = true /\
    forall k' r', ranges !! k' = Some r' -> contains r' a = true -> k' = k.
Proof.
  intros Hwf Hbits Hm Hne.
  assert (exists front rest, ranges = front :: rest) as (front & rest & Er)
    by (destruct ranges; [done|eauto]).
  unfold AddrRange_merge in Hm. rewrite Er in Hm. rewrite <- Er in Hm.
  assert (Hf : front ∈ ranges) by (rewrite Er; left).
  pose proof (Hbits front Hf) as Hfb.
  assert (Hfw : range_wf front) by (rewrite Forall_forall in Hwf; by apply Hwf).
  cbn [intlvBits] in Hm.
  pose proof (Z.pow_le_mono_r 2 (intlvBits front) 8).
  rewrite Z.shiftl_1_l, wrap_small in Hm by word_lia.
  destruct (Z.eqb_spec (Z.of_nat (length ranges)) (2 ^ intlvBits front)) as [Hlen|];
    [cbn [negb] in Hm|done].
  apply bind_Ret in Hm as ([] & Hloop & [= <-]).
  apply merge_loop_spec in Hloop as [HF Hk]; [|lia..].
  set (this := mkAddrRange _ _ _ _ _ 0) in *.
  assert (Hmw : forall k r, ranges !! k = Some r ->
            interleaved r = true /\ intlvSlice r a = intlvSlice front a /\
            _start r = _start front /\ _end r = _end front).
  { intros k r Hr. rewrite Forall_forall in HF.
    pose proof (HF r (list_elem_of_lookup_2 _ _ _ Hr)) as Hmr.
    pose proof (HF front Hf) as Hmf.
    destruct (mergesWith_slice _ _ a Hmr) as [? ?], (mergesWith_slice _ _ a Hmf) as [? ?].
    apply mergesWith_spec in Hmr. assert (interleaved this = true).
    { unfold interleaved. cbn. destruct (Z.eqb_spec (intlvBits front) 0); [lia|done]. }
    destruct Hmr as (? & ? & _). cbn in *. repeat split; congruence. }
  rewrite contains_spec. cbn [_start _end]. split.
  - intros [Hspan _].
    assert (Hfi : interleaved front = true)
      by (apply (Hmw 0%nat front); by rewrite Er).
    pose proof (intlvSlice_range front a Hfw Hfi) as Hs.
    destruct (lookup_lt_is_Some_2 ranges (Z.to_nat (intlvSlice front a))) as [r Hr];
      [word_lia|].
    exists (Z.to_nat (intlvSlice front a)), r. destruct (Hmw _ _ Hr) as (Hi & Hsl & ? & ?).
    split; [done|]. split.
    + apply contains_spec. split; [lia|]. intros _. rewrite Hsl, (Hk _ _ Hr). word_lia.
    + intros k' r' Hr' [_ Hc']%contains_spec. destruct (Hmw _ _ Hr') as (Hi' & Hsl' & _).
      specialize (Hc' Hi'). rewrite Hsl', (Hk _ _ Hr') in Hc'. lia.
  - intros (k & r & Hr & [Hspan _]%contains_spec & _).
    destruct (Hmw _ _ Hr) as (_ & _ & ? & ?). split; [lia|done].
Qed.

(** ** Properties *)

(** Coalescing interleaved ranges: when the merging constructor accepts a
    list of well-formed ranges interleaved over at most eight bits, an address
    lies in the merged range exactly if it lies in one of them, and then in
    exactly one; so the stripes partition the merged range. *)
Theorem AddrRange_merge_correct ranges m a :
  Forall range_wf ranges -> (forall r, r ∈ ranges -> 0 < intlvBits r <= 8) ->
  AddrRange_merge ranges = Ret m -> ranges <> [] ->
  contains m a = true <->
  exists k r, ranges !! k = Some r /\ contains r a = true /\
    forall k' r', ranges !! k' = Some r' -> contains r' a = true -> k' = k.
Proof. apply merge_contains. Qed.

Definition two_stripes : list AddrRange :=
  [mkAddrRange 0 1023 6 12 1 0; mkAddrRange 0 1023 6 12 1 1].

Lemma AddrRange_merge_correct_witness :
  contains (AddrRange_plain 0 1023) 100 = true <->
  exists k r, two_stripes !! k = Some r /\ contains r 100 = true /\
    forall k' r', two_stripes !! k' = Some r' -> contains r' 100 = true -> k' = k.
Proof.
  apply (AddrRange_merge_correct two_stripes (AddrRange_plain 0 1023) 100).
  - repeat constructor; cbn; lia.
  - intros r Hr. apply list_elem_of_In in Hr.
    destruct Hr as [<-|[<-|[]]]; cbn; lia.
  - reflexivity.
  - discriminate.
Defined.

(** Address decoding: in a map whose ranges are pairwise apart or stripes
    of one chunk, looking up an address never panics, finds nothing if no
    range contains it, and otherwise returns the range that contains it, unless
    the address is the start of a chunk and belongs to a stripe with a non-zero
    match value. *)
Theorem RangeMap_find_addr_correct {V} (tree : list (AddrRange * V)) a :
  tree_wf tree -> inword 64 a ->
  (forall j rj, fst <$> tree !! j = Some rj -> contains rj a = true ->
     (a = _start rj -> intlvMatch rj = 0) ->
     RangeMap_find_addr tree a = Ret (Some j)) /\
  ((forall k rk, fst <$> tree !! k = Some rk -> contains rk a = false) ->
   RangeMap_find_addr tree a = Ret None).
Proof.
  intros Hwf Ha. split; intros.
  - by apply (find_addr_hit tree a j rj).
  - by apply find_addr_miss.
Qed.

(** A decoder with one plain range and two stripes. *)
Definition decoder : list (AddrRange * nat) :=
  [(AddrRange_plain 0 255, 7%nat);
   (mkAddrRange 256 1279 6 0 1 0, 8%nat); (mkAddrRange 256 1279 6 0 1 1, 9%nat)].

Lemma decoder_wf : tree_wf decoder.
Proof.
  split.
  - intros [|[|[|i]]] [|[|[|j]]] ri rj Hij Hi Hj; try lia; cbn in *; simplify_eq; done.
  - intros [|[|[|i]]] [|[|[|j]]] ri rj Hij Hi Hj; try lia; cbn in *; simplify_eq;
      cbn; [left; lia|left; lia|right; done].
  - intros [|[|[|i]]] ri Hi; cbn in *; simplify_eq; cbn; repeat split; try lia; done.
Qed.

Lemma RangeMap_find_addr_correct_witness :
  RangeMap_find_addr decoder 320 = Ret (Some 2%nat) /\
  RangeMap_find_addr decoder 5000 = Ret None.
Proof.
  split.
  - apply (proj1 (RangeMap_find_addr_correct decoder 320 decoder_wf ltac:(unfold inword; lia))
             2%nat (mkAddrRange 256 1279 6 0 1 1)); [reflexivity..|].
    intros E. discriminate E.
  - apply (proj2 (RangeMap_find_addr_correct decoder 5000 decoder_wf ltac:(unfold inword; lia))).
    intros [|[|[|k]]] rk Hk; cbn in Hk; simplify_eq; reflexivity.
Defined.

(** What the map does not guarantee.  [insert] accepts a range that
    overlaps a stored one, because [find] only looks at the predecessor of the
    new key: the stored range starting inside the new one is missed.  A lookup
    of the first address of a chunk whose start is not stripe-aligned finds no
    range although one contains it.  And [operator==] identifies two ranges
    that differ in the XOR bits and so contain different addresses. *)
Theorem RangeMap_gaps :
  (exists (tree : list (AddrRange * nat)) r tree',
     tree_wf tree /\ RangeMap_insert tree r 3%nat = Ret (tree', Some 1%nat) /\
     exists k rk, (k <> 1)%nat /\ fst <$> tree' !! k = Some rk /\
       intersects rk r = Ret true) /\
  (exists (tree : list (AddrRange * nat)) a j rj,
     tree_wf tree /\ fst <$> tree !! j = Some rj /\ contains rj a = true /\
     RangeMap_find_addr tree a = Ret None) /\
  (exists r r' a, range_wf r /\ range_wf r' /\ AddrRange_eq r r' = true /\
     contains r a = true /\ contains r' a = false).
Proof.
  split; [|split].
  - exists [(AddrRange_plain 0 15, 1%nat); (AddrRange_plain 64 79, 2%nat)],
      (AddrRange_plain 32 127),
      [(AddrRange_plain 0 15, 1%nat); (AddrRange_plain 32 127, 3%nat);
       (AddrRange_plain 64 79, 2%nat)].
    split; [|split; [reflexivity|]].
    + split.
      * intros [|[|i]] [|[|j]] ri rj Hij Hi Hj; try lia; cbn in *; simplify_eq; done.
      * intros [|[|i]] [|[|j]] ri rj Hij Hi Hj; try lia; cbn in *; simplify_eq;
          cbn; left; lia.
      * intros [|[|i]] ri Hi; cbn in *; simplify_eq; cbn; repeat split; lia.
    + exists 2%nat, (AddrRange_plain 64 79). by repeat split.
  - exists [(mkAddrRange 64 127 6 0 1 0, 1%nat); (mkAddrRange 64 127 6 0 1 1, 2%nat)],
      64, 1%nat, (mkAddrRange 64 127 6 0 1 1).
    split; [|by repeat split].
    split.
    + intros [|[|i]] [|[|j]] ri rj Hij Hi Hj; try lia; cbn in *; simplify_eq; done.
    + intros [|[|i]] [|[|j]] ri rj Hij Hi Hj; try lia; cbn in *; simplify_eq;
        cbn; right; done.
    + intros [|[|i]] ri Hi; cbn in *; simplify_eq; cbn; repeat split; try lia; done.
  - exists (mkAddrRange 0 (2 ^ 14 - 1) 6 12 1 0), (mkAddrRange 0 (2 ^ 14 - 1) 6 0 1 0),
      (2 ^ 12 + 64).
    repeat split; cbn; try lia; done.
Qed.
