(* ===== verification/Packet.v ===== *)
(** * Memory requests and packets: [mem/request.hh], [mem/packet.hh],
    [mem/packet.cc]

    The command table with its attributes, the packet and the operations the
    caches apply to it, and functional accesses that are satisfied from the
    data of another packet or block.  A packet owns its payload ([pkt_data] stands for
    the data pointer and the flags that say whether it is set): the sharing
    of a [STATIC_DATA] buffer between sender and receiver is not modelled. *)

From S2P Require Import Prelude.
Local Open Scope Z_scope.

(** ** Requests *)

Record Request := mkRequest {
  req_contextId : Z;
  req_paddr : Z;
  req_size : Z;
  req_masterId : Z;
  req_taskId : Z;
  req_extraData : Z;
  req_flags : Z
}.

Definition setExtraData (req : Request) (d : Z) : Request :=
  mkRequest (req_contextId req) (req_paddr req) (req_size req) (req_masterId req)
    (req_taskId req) d (req_flags req).

Definition INST_FETCH : Z := 0x00000100.
Definition UNCACHEABLE : Z := 0x00000400.
Definition CLEAR_LL : Z := 0x00004000.
Definition LLSC : Z := 0x00200000.
Definition MEM_SWAP : Z := 0x00400000.
Definition MEM_SWAP_COND : Z := 0x00800000.
Definition PREFETCH : Z := 0x01000000.
Definition SECURE : Z := 0x10000000.

Definition wbMasterId : Z := 0.
Definition funcMasterId : Z := 1.
(** [std::numeric_limits<MasterID>::max()], a 16-bit type. *)
Definition invldMasterId : Z := 2 ^ 16 - 1.

(** [ContextSwitchTaskId::Unknown] and [NumTaskId] *)
Definition TaskId_Unknown : Z := 1024.
Definition NumTaskId : nat := 1025.

(** [Flags::isSet] *)
Definition isSet (flags f : Z) : bool := negb (Z.land flags f =? 0).

Definition req_isUncacheable (r : Request) : bool := isSet (req_flags r) UNCACHEABLE.
Definition req_isInstFetch (r : Request) : bool := isSet (req_flags r) INST_FETCH.
Definition req_isPrefetch (r : Request) : bool := isSet (req_flags r) PREFETCH.
Definition req_isLLSC (r : Request) : bool := isSet (req_flags r) LLSC.
Definition req_isSwap (r : Request) : bool :=
  isSet (req_flags r) (Z.lor MEM_SWAP MEM_SWAP_COND).
Definition req_isCondSwap (r : Request) : bool := isSet (req_flags r) MEM_SWAP_COND.
Definition req_isClearLL (r : Request) : bool := isSet (req_flags r) CLEAR_LL.
Definition req_isSecure (r : Request) : bool := isSet (req_flags r) SECURE.

(** ** Commands *)

Inductive Command :=
  | InvalidCmd | ReadReq | ReadResp | ReadRespWithInvalidate | WriteReq | WriteResp
  | Writeback | SoftPFReq | HardPFReq | SoftPFResp | HardPFResp | WriteInvalidateReq
  | WriteInvalidateResp | UpgradeReq | SCUpgradeReq | UpgradeResp | SCUpgradeFailReq
  | UpgradeFailResp | ReadExReq | ReadExResp | LoadLockedReq | StoreCondReq
  | StoreCondFailReq | StoreCondResp | SwapReq | SwapResp | MessageReq | MessageResp
  | InvalidDestError | BadAddressError | FunctionalReadError | FunctionalWriteError
  | PrintReq | FlushReq | InvalidationReq.

#[export] Instance Command_eq_dec : EqDecision Command.
Proof. solve_decision. Defined.

Inductive Attribute :=
  | IsRead | IsWrite | IsUpgrade | IsInvalidate | NeedsExclusive | IsRequest | IsResponse
  | NeedsResponse | IsSWPrefetch | IsHWPrefetch | IsLlsc | HasData | IsError | IsPrint
  | IsFlush.

#[export] Instance Attribute_eq_dec : EqDecision Attribute.
Proof. solve_decision. Defined.

(** [MemCmd::commandInfo]: the attributes and the response of each command; a
    bit set is the list of its members. *)
Definition commandInfo (cmd : Command) : list Attribute * Command :=
  match cmd with
  | InvalidCmd => ([], InvalidCmd)
  | ReadReq => ([IsRead; IsRequest; NeedsResponse], ReadResp)
  | ReadResp => ([IsRead; IsResponse; HasData], InvalidCmd)
  | ReadRespWithInvalidate => ([IsRead; IsResponse; HasData; IsInvalidate], InvalidCmd)
  | WriteReq => ([IsWrite; NeedsExclusive; IsRequest; NeedsResponse; HasData], WriteResp)
  | WriteResp => ([IsWrite; NeedsExclusive; IsResponse], InvalidCmd)
  | Writeback => ([IsWrite; NeedsExclusive; IsRequest; HasData], InvalidCmd)
  | SoftPFReq => ([IsRead; IsRequest; IsSWPrefetch; NeedsResponse], SoftPFResp)
  | HardPFReq => ([IsRead; IsRequest; IsHWPrefetch; NeedsResponse], HardPFResp)
  | SoftPFResp => ([IsRead; IsResponse; IsSWPrefetch; HasData], InvalidCmd)
  | HardPFResp => ([IsRead; IsResponse; IsHWPrefetch; HasData], InvalidCmd)
  | WriteInvalidateReq =>
      ([IsWrite; NeedsExclusive; IsInvalidate; IsRequest; HasData; NeedsResponse],
       WriteInvalidateResp)
  | WriteInvalidateResp => ([IsWrite; NeedsExclusive; IsResponse], InvalidCmd)
  | UpgradeReq =>
      ([IsInvalidate; NeedsExclusive; IsUpgrade; IsRequest; NeedsResponse], UpgradeResp)
  | SCUpgradeReq =>
      ([IsInvalidate; NeedsExclusive; IsUpgrade; IsLlsc; IsRequest; NeedsResponse],
       UpgradeResp)
  | UpgradeResp => ([NeedsExclusive; IsUpgrade; IsResponse], InvalidCmd)
  | SCUpgradeFailReq =>
      ([IsRead; NeedsExclusive; IsInvalidate; IsLlsc; IsRequest; NeedsResponse],
       UpgradeFailResp)
  | UpgradeFailResp => ([IsRead; NeedsExclusive; IsResponse; HasData], InvalidCmd)
  | ReadExReq =>
      ([IsRead; NeedsExclusive; IsInvalidate; IsRequest; NeedsResponse], ReadExResp)
  | ReadExResp => ([IsRead; NeedsExclusive; IsResponse; HasData], InvalidCmd)
  | LoadLockedReq => ([IsRead; IsLlsc; IsRequest; NeedsResponse], ReadResp)
  | StoreCondReq =>
      ([IsWrite; NeedsExclusive; IsLlsc; IsRequest; NeedsResponse; HasData], StoreCondResp)
  | StoreCondFailReq =>
      ([IsWrite; NeedsExclusive; IsLlsc; IsRequest; NeedsResponse; HasData], StoreCondResp)
  | StoreCondResp => ([IsWrite; NeedsExclusive; IsLlsc; IsResponse], InvalidCmd)
  | SwapReq =>
      ([IsRead; IsWrite; NeedsExclusive; IsRequest; HasData; NeedsResponse], SwapResp)
  | SwapResp => ([IsRead; IsWrite; NeedsExclusive; IsResponse; HasData], InvalidCmd)
  | MessageReq => ([IsWrite; IsRequest; NeedsResponse; HasData], MessageResp)
  | MessageResp => ([IsWrite; IsResponse], InvalidCmd)
  | InvalidDestError => ([IsResponse; IsError], InvalidCmd)
  | BadAddressError => ([IsResponse; IsError], InvalidCmd)
  | FunctionalReadError => ([IsRead; IsResponse; IsError], InvalidCmd)
  | FunctionalWriteError => ([IsWrite; IsResponse; IsError], InvalidCmd)
  | PrintReq => ([IsRequest; IsPrint], InvalidCmd)
  | FlushReq => ([IsRequest; IsFlush; NeedsExclusive], InvalidCmd)
  | InvalidationReq => ([NeedsExclusive; IsInvalidate; IsRequest], InvalidCmd)
  end.

Definition testCmdAttrib (cmd : Command) (a : Attribute) : bool :=
  bool_decide (a ∈ (commandInfo cmd).1).

Definition cmd_isRead (c : Command) : bool := testCmdAttrib c IsRead.
Definition cmd_isWrite (c : Command) : bool := testCmdAttrib c IsWrite.
Definition cmd_isUpgrade (c : Command) : bool := testCmdAttrib c IsUpgrade.
Definition cmd_isRequest (c : Command) : bool := testCmdAttrib c IsRequest.
Definition cmd_isResponse (c : Command) : bool := testCmdAttrib c IsResponse.
Definition cmd_needsExclusive (c : Command) : bool := testCmdAttrib c NeedsExclusive.
Definition cmd_needsResponse (c : Command) : bool := testCmdAttrib c NeedsResponse.
Definition cmd_isInvalidate (c : Command) : bool := testCmdAttrib c IsInvalidate.
Definition cmd_isWriteInvalidate (c : Command) : bool :=
  testCmdAttrib c IsWrite && testCmdAttrib c IsInvalidate.
Definition cmd_hasData (c : Command) : bool := testCmdAttrib c HasData.
Definition cmd_isLLSC (c : Command) : bool := testCmdAttrib c IsLlsc.
Definition cmd_isPrefetch (c : Command) : bool :=
  testCmdAttrib c IsSWPrefetch || testCmdAttrib c IsHWPrefetch.
Definition cmd_isError (c : Command) : bool := testCmdAttrib c IsError.
Definition cmd_isPrint (c : Command) : bool := testCmdAttrib c IsPrint.
Definition cmd_isFlush (c : Command) : bool := testCmdAttrib c IsFlush.

Definition responseCommand (c : Command) : Command := (commandInfo c).2.

(** ** Packets *)

Definition SHARED : Z := 0x00000001.
Definition EXPRESS_SNOOP : Z := 0x00000002.
Definition SUPPLY_EXCLUSIVE : Z := 0x00000004.
Definition MEM_INHIBIT : Z := 0x00000008.
Definition VALID_ADDR : Z := 0x00000100.
Definition VALID_SIZE : Z := 0x00000200.

(** [pkt_data] is the payload, if one is set. *)
Record Packet := mkPacket {
  pkt_cmd : Command;
  pkt_req : Request;
  pkt_addr : Z;
  pkt_isSecure : bool;
  pkt_size : Z;
  pkt_data : option (list Z);
  pkt_flags : Z;
  pkt_payloadDelay : Z;
  bytesValid : list bool;
  pkt_origCmd : Command
}.

Definition with_cmd (p : Packet) (c : Command) : Packet :=
  mkPacket c (pkt_req p) (pkt_addr p) (pkt_isSecure p) (pkt_size p) (pkt_data p)
    (pkt_flags p) (pkt_payloadDelay p) (bytesValid p) (pkt_origCmd p).
Definition with_req (p : Packet) (r : Request) : Packet :=
  mkPacket (pkt_cmd p) r (pkt_addr p) (pkt_isSecure p) (pkt_size p) (pkt_data p)
    (pkt_flags p) (pkt_payloadDelay p) (bytesValid p) (pkt_origCmd p).
Definition with_data (p : Packet) (d : list Z) (bv : list bool) : Packet :=
  mkPacket (pkt_cmd p) (pkt_req p) (pkt_addr p) (pkt_isSecure p) (pkt_size p) (Some d)
    (pkt_flags p) (pkt_payloadDelay p) bv (pkt_origCmd p).
Definition with_flags (p : Packet) (f : Z) : Packet :=
  mkPacket (pkt_cmd p) (pkt_req p) (pkt_addr p) (pkt_isSecure p) (pkt_size p) (pkt_data p)
    f (pkt_payloadDelay p) (bytesValid p) (pkt_origCmd p).
Definition with_payloadDelay (p : Packet) (d : Z) : Packet :=
  mkPacket (pkt_cmd p) (pkt_req p) (pkt_addr p) (pkt_isSecure p) (pkt_size p) (pkt_data p) (pkt_flags p) d (bytesValid p) (pkt_origCmd p).

(** [Packet(req, cmd)] for a request with a physical address and a size. *)
Definition Packet_new (r : Request) (c : Command) : Packet :=
  mkPacket c r (req_paddr r) (req_isSecure r) (req_size r) None (Z.lor VALID_ADDR VALID_SIZE)
    0 [] InvalidCmd.

(** [Packet(req, cmd, blkSize)]: the address of the whole block. *)
Definition Packet_new_blk (r : Request) (c : Command) (blkSize : Z) : Packet :=
  mkPacket c r (Z.land (req_paddr r) (wnot 64 (blkSize - 1))) (req_isSecure r) blkSize None
    (Z.lor VALID_ADDR VALID_SIZE) 0 [] InvalidCmd.

Definition makeReadCmd (r : Request) : Command :=
  if req_isLLSC r then LoadLockedReq
  else if req_isPrefetch r then SoftPFReq
  else ReadReq.

Definition makeWriteCmd (r : Request) : Command :=
  if req_isLLSC r then StoreCondReq
  else if req_isSwap r then SwapReq
  else WriteReq.

Definition createRead (r : Request) : Packet := Packet_new r (makeReadCmd r).
Definition createWrite (r : Request) : Packet := Packet_new r (makeWriteCmd r).

Definition pkt_isLLSC (p : Packet) : bool := cmd_isLLSC (pkt_cmd p).

Definition memInhibitAsserted (p : Packet) : bool := isSet (pkt_flags p) MEM_INHIBIT.
Definition isExpressSnoop (p : Packet) : bool := isSet (pkt_flags p) EXPRESS_SNOOP.
Definition sharedAsserted (p : Packet) : bool := isSet (pkt_flags p) SHARED.
Definition isSupplyExclusive (p : Packet) : bool := isSet (pkt_flags p) SUPPLY_EXCLUSIVE.

Definition assertMemInhibit (p : Packet) : res Packet :=
  _ ← cassert (cmd_isRequest (pkt_cmd p));
  _ ← cassert (negb (memInhibitAsserted p));
  Ret (with_flags p (Z.lor (pkt_flags p) MEM_INHIBIT)).

Definition assertShared (p : Packet) : Packet := with_flags p (Z.lor (pkt_flags p) SHARED).
Definition setSupplyExclusive (p : Packet) : Packet :=
  with_flags p (Z.lor (pkt_flags p) SUPPLY_EXCLUSIVE).

Definition getOffset (p : Packet) (blkSize : Z) : Z := Z.land (pkt_addr p) (blkSize - 1).

Definition convertScToWrite (p : Packet) : res Packet :=
  _ ← cassert (pkt_isLLSC p);
  _ ← cassert (cmd_isWrite (pkt_cmd p));
  Ret (with_cmd p WriteReq).

Definition convertLlToRead (p : Packet) : res Packet :=
  _ ← cassert (pkt_isLLSC p);
  _ ← cassert (cmd_isRead (pkt_cmd p));
  Ret (with_cmd p ReadReq).

Definition makeResponse (p : Packet) : res Packet :=
  _ ← cassert (cmd_needsResponse (pkt_cmd p));
  _ ← cassert (cmd_isRequest (pkt_cmd p));
  Ret (mkPacket (responseCommand (pkt_cmd p)) (pkt_req p) (pkt_addr p) (pkt_isSecure p)
         (pkt_size p) (pkt_data p) (Z.land (pkt_flags p) (wnot 32 EXPRESS_SNOOP))
         (pkt_payloadDelay p) (bytesValid p) (pkt_cmd p)).

Definition setFunctionalResponseStatus (p : Packet) (success : bool) : Packet :=
  if success then p
  else if cmd_isWrite (pkt_cmd p) then with_cmd p FunctionalWriteError
  else with_cmd p FunctionalReadError.

(** [getPtr()]: the payload must be set. *)
Definition getPtr (p : Packet) : res (list Z) :=
  match pkt_data p with
  | Some d => Ret d
  | None => Err AssertFailed
  end.

(** *** Copying bytes *)

(** [n] bytes from offset [off] of an array. *)
Definition mem_read (src : list Z) (off n : Z) : res (list Z) :=
  if (0 <=? off) && (0 <=? n) && (off + n <=? Z.of_nat (length src))
  then Ret (take (Z.to_nat n) (drop (Z.to_nat off) src))
  else Err OutOfBounds.

(** [memcpy(dst + off, src, length src)] *)
Definition mem_write (dst : list Z) (off : Z) (src : list Z) : res (list Z) :=
  if (0 <=? off) && (off + Z.of_nat (length src) <=? Z.of_nat (length dst))
  then Ret (take (Z.to_nat off) dst ++ src ++ drop (Z.to_nat off + length src) dst)
  else Err OutOfBounds.

(** The [n] least significant bytes of a word, little-endian. *)
Definition le_bytes (n : nat) (x : Z) : list Z :=
  (fun i => Z.land (Z.shiftr x (8 * Z.of_nat i)) 0xff) <$> seq 0 n.

(** [setData(p + off)]: fills the payload from memory. *)
Definition setData (p : Packet) (src : list Z) (off : Z) : res Packet :=
  d ← getPtr p;
  bytes ← mem_read src off (pkt_size p);
  d ← mem_write d 0 bytes;
  Ret (with_data p d (bytesValid p)).

Definition setDataFromBlock (p : Packet) (blk_data : list Z) (blkSize : Z) : res Packet :=
  setData p blk_data (getOffset p blkSize).

(** [writeData(p + off)]: copies the payload to memory. *)
Definition writeData (p : Packet) (dst : list Z) (off : Z) : res (list Z) :=
  d ← getPtr p;
  bytes ← mem_read d 0 (pkt_size p);
  mem_write dst off bytes.

Definition writeDataToBlock (p : Packet) (blk_data : list Z) (blkSize : Z) : res (list Z) :=
  writeData p blk_data (getOffset p blkSize).

(** *** Functional accesses *)

(** The offsets of a partial overlap: into the packet, into the value, and the
    number of bytes. *)
Definition overlap_region (func_start func_end val_start val_end size : Z) : res (Z * Z * Z) :=
  if (val_start <? func_start) && (val_end <=? func_end) then
    Ret (0, s32 (func_start - val_start), s32 (val_end - func_start))
  else if (func_start <=? val_start) && (func_end <? val_end) then
    Ret (s32 (val_start - func_start), 0, s32 (func_end - val_start))
  else if (func_start <=? val_start) && (val_end <=? func_end) then
    Ret (s32 (val_start - func_start), 0, size)
  else if (val_start <? func_start) && (func_end <? val_end) then
    Ret (0, s32 (func_start - val_start), s32 (func_end - func_start))
  else Err Panic.

(** [all_bytes_valid] over the bits from [i] on, [n] of them. *)
Fixpoint all_valid (bv : list bool) (n i : nat) : res bool :=
  match n with
  | O => Ret true
  | S n => b ← vread bv i; if (b : bool) then all_valid bv n (S i) else Ret false
  end.

(** [bytesValid[i] = true] for [n] bits from [i] on. *)
Fixpoint set_valid (bv : list bool) (n i : nat) : res (list bool) :=
  match n with
  | O => Ret bv
  | S n => bv ← vwrite bv i true; set_valid bv n (S i)
  end.

Definition resized (bv : list bool) (n : Z) (x : bool) : list bool :=
  match bv with
  | [] => replicate (Z.to_nat n) x
  | _ => bv
  end.

(** The read branch for a partial overlap. *)
Definition partial_read (p : Packet) (data : list Z)
    (func_start func_end val_start val_end size : Z) : res (bool * Packet) :=
  '(func_offset, val_offset, overlap_size) ←
     overlap_region func_start func_end val_start val_end size;
  d ← getPtr p;
  bytes ← mem_read data val_offset overlap_size;
  d ← mem_write d func_offset bytes;
  let bv := resized (bytesValid p) (pkt_size p) false in
  before ← all_valid bv (Z.to_nat func_offset) 0;
  bv ← set_valid bv (Z.to_nat overlap_size) (Z.to_nat func_offset);
  complete ← (if (before : bool)
    then all_valid bv (Z.to_nat (pkt_size p - (func_offset + overlap_size)))
           (Z.to_nat (func_offset + overlap_size))
    else Ret false);
  Ret (complete, with_data p d bv).

(** [checkFunctional(obj, addr, is_secure, size, _data)]: whether the access is
    complete, the packet, and the other object's data. *)
Definition checkFunctional (p : Packet) (addr : Z) (is_secure : bool) (size : Z)
    (data : option (list Z)) : res (bool * Packet * option (list Z)) :=
  let func_start := pkt_addr p in
  let func_end := u64 (pkt_addr p + pkt_size p - 1) in
  let val_start := addr in
  let val_end := u64 (val_start + size - 1) in
  if negb (eqb is_secure (pkt_isSecure p)) || (val_end <? func_start) || (func_end <? val_start)
  then Ret (false, p, data)
  else if cmd_isPrint (pkt_cmd p) then
    _ ← cassert (match data with None => true | Some _ => false end);
    Ret (false, p, data)
  else
    match data with
    | None => Ret (false, p, data)
    | Some val =>
        let offset := s32 (func_start - val_start) in
        if cmd_isRead (pkt_cmd p) then
          if (val_start <=? func_start) && (func_end <=? val_end) then
            d ← getPtr p;
            bytes ← mem_read val offset (pkt_size p);
            d ← mem_write d 0 bytes;
            Ret (true, with_data p d (resized (bytesValid p) (pkt_size p) true), data)
          else
            '(done, p) ← partial_read p val func_start func_end val_start val_end size;
            Ret (done, p, data)
        else if cmd_isWrite (pkt_cmd p) then
          d ← getPtr p;
          if 0 <=? offset then
            bytes ← mem_read d 0 (u64 (Z.min func_end val_end - func_start + 1));
            val ← mem_write val offset bytes;
            Ret (false, p, Some val)
          else
            bytes ← mem_read d (- offset) (u64 (Z.min func_end val_end - val_start + 1));
            val ← mem_write val 0 bytes;
            Ret (false, p, Some val)
        else Err Panic
    end.

(** ** Copying bytes: lemmas *)

Lemma mem_read_spec src off n :
  0 <= off -> 0 <= n -> off + n <= Z.of_nat (length src) ->
  exists l, mem_read src off n = Ret l /\ Z.of_nat (length l) = n /\
    forall i, 0 <= i < n -> l !! Z.to_nat i = src !! Z.to_nat (off + i).
Proof.
  intros Ho Hn Hl. unfold mem_read.
  rewrite (proj2 (Z.leb_le 0 off)), (proj2 (Z.leb_le 0 n)),
    (proj2 (Z.leb_le (off + n) _)) by lia.
  eexists. split; [reflexivity|]. split.
  - rewrite length_take, length_drop. lia.
  - intros i Hi. rewrite lookup_take_lt, lookup_drop by lia. f_equal. lia.
Qed.

Lemma mem_write_spec dst off src :
  0 <= off -> off + Z.of_nat (length src) <= Z.of_nat (length dst) ->
  exists l, mem_write dst off src = Ret l /\ length l = length dst /\
    forall i, 0 <= i ->
      l !! Z.to_nat i =
      if decide (off <= i < off + Z.of_nat (length src)) then src !! Z.to_nat (i - off)
      else dst !! Z.to_nat i.
Proof.
  intros Ho Hl. unfold mem_write.
  rewrite (proj2 (Z.leb_le 0 off)), (proj2 (Z.leb_le _ (Z.of_nat (length dst)))) by lia.
  eexists. split; [reflexivity|]. split.
  - rewrite !length_app, length_take, length_drop. lia.
  - intros i Hi. case_decide as Hd.
    + rewrite lookup_app_r, length_take by (rewrite length_take; lia).
      rewrite lookup_app_l by lia. f_equal. lia.
    + destruct (Z.lt_ge_cases i off).
      * rewrite lookup_app_l, lookup_take_lt by (rewrite ?length_take; lia). done.
      * rewrite lookup_app_r, length_take by (rewrite length_take; lia).
        rewrite lookup_app_r by lia. rewrite lookup_drop. f_equal. lia.
Qed.

Lemma mem_read_all d n : Z.of_nat (length d) = n -> mem_read d 0 n = Ret d.
Proof.
  intros <-. unfold mem_read.
  replace (_ && _ && _)%bool with true
    by (symmetry; rewrite !andb_true_iff, !Z.leb_le; lia).
  rewrite drop_0, Nat2Z.id, take_ge by lia. done.
Qed.

Lemma mem_write_all old d : length d = length old -> mem_write old 0 d = Ret d.
Proof.
  intros E. unfold mem_write. rewrite E, Z.add_0_l, !Z.leb_refl. cbn [andb].
  rewrite take_0, <- E, drop_ge by lia. cbn. by rewrite app_nil_r.
Qed.

Lemma s32_small x : - 2 ^ 31 <= x < 2 ^ 31 -> s32 x = x.
Proof.
  intros Hx. unfold s32. destruct (Z.lt_ge_cases x 0).
  - assert (E : u32 x = x + 2 ^ 32).
    { unfold wrap. rewrite <- (Z_mod_plus_full _ 1), Z.mul_1_l. apply Z.mod_small. lia. }
    rewrite E. destruct (Z.ltb_spec (x + 2 ^ 32) (2 ^ 31)); lia.
  - rewrite wrap_small by word_lia. destruct (Z.ltb_spec x (2 ^ 31)); lia.
Qed.

(** An access of at most 2^31 bytes that does not wrap around the address space. *)
Definition extent_ok (a n : Z) : Prop := 0 <= a /\ 0 < n < 2 ^ 31 /\ a + n <= 2 ^ 64.

Lemma extent_end a n : extent_ok a n -> u64 (a + n - 1) = a + n - 1.
Proof. intros (? & ? & ?). apply wrap_small. word_lia. Qed.

(** ** Properties *)

(** The command table is consistent.  A command needs a response exactly when
    it names one; it is then a request, turning the packet into its response
    never fails, and the response is a response that needs none itself, is a
    read, a write, an upgrade or exclusive exactly when the request is, and
    carries data exactly when the request reads. *)
Theorem command_table_consistent p :
  let c := pkt_cmd p in
  (cmd_needsResponse c = true <-> responseCommand c <> InvalidCmd) /\
  (cmd_isRequest c && cmd_isResponse c)%bool = false /\
  (cmd_needsResponse c = true ->
     exists p', makeResponse p = Ret p' /\ pkt_cmd p' = responseCommand c /\
       pkt_origCmd p' = c /\ isSet (pkt_flags p') EXPRESS_SNOOP = false /\
       cmd_isRequest c = true /\ cmd_isResponse (pkt_cmd p') = true /\
       cmd_needsResponse (pkt_cmd p') = false /\
       cmd_isRead (pkt_cmd p') = cmd_isRead c /\ cmd_isWrite (pkt_cmd p') = cmd_isWrite c /\
       cmd_isUpgrade (pkt_cmd p') = cmd_isUpgrade c /\
       cmd_needsExclusive (pkt_cmd p') = cmd_needsExclusive c /\
       cmd_hasData (pkt_cmd p') = cmd_isRead c).
Proof.
  intros c. split; [|split].
  - destruct c; vm_compute; split; congruence.
  - by destruct c.
  - intros Hn. unfold makeResponse. fold c. rewrite Hn. bsimpl.
    assert (Hreq : cmd_isRequest c = true) by (clear - Hn; by destruct c).
    rewrite Hreq. bsimpl. eexists. split; [reflexivity|].
    cbn [pkt_cmd pkt_origCmd pkt_flags].
    split; [done|]. split; [done|]. split.
    + unfold isSet. apply negb_false_iff, Z.eqb_eq.
      rewrite <- Z.land_assoc. change (Z.land (wnot 32 EXPRESS_SNOOP) EXPRESS_SNOOP) with 0.
      apply Z.land_0_r.
    + clear - Hn. by destruct c.
Qed.

Lemma command_table_consistent_witness :
  exists p', makeResponse (Packet_new (mkRequest 0 64 8 1 5 0 0) ReadReq) = Ret p' /\
    pkt_cmd p' = ReadResp.
Proof.
  destruct (command_table_consistent (Packet_new (mkRequest 0 64 8 1 5 0 0) ReadReq))
    as (_ & _ & H).
  destruct (H eq_refl) as (p' & E & Ec & _). exists p'. split; [exact E|exact Ec].
Defined.

(** A functional write updates exactly the overlap.  Against a value it
    overlaps, the write never fails, the packet is unchanged and the search goes
    on; a byte of the value is the packet's byte where the two ranges meet and
    the old byte elsewhere. *)
Theorem functional_write_exact p d addr val size :
  pkt_data p = Some d -> Z.of_nat (length d) = pkt_size p -> Z.of_nat (length val) = size ->
  extent_ok (pkt_addr p) (pkt_size p) -> extent_ok addr size ->
  cmd_isWrite (pkt_cmd p) = true -> cmd_isRead (pkt_cmd p) = false ->
  pkt_addr p < addr + size -> addr < pkt_addr p + pkt_size p ->
  exists val', checkFunctional p addr (pkt_isSecure p) size (Some val) = Ret (false, p, Some val') /\
    length val' = length val /\
    forall a, addr <= a < addr + size ->
      val' !! Z.to_nat (a - addr) =
      if decide (pkt_addr p <= a < pkt_addr p + pkt_size p)
      then d !! Z.to_nat (a - pkt_addr p) else val !! Z.to_nat (a - addr).
Proof.
  intros Hd Hld Hlv Hf Hv Hw Hr Ho1 Ho2. unfold checkFunctional.
  rewrite !extent_end by done.
  assert (Hp : cmd_isPrint (pkt_cmd p) = false).
  { clear - Hw. by destruct (pkt_cmd p). }
  rewrite eqb_reflx, Hp, Hr, Hw. cbn [negb orb].
  destruct Hf as (Hf0 & Hfn & Hfe). destruct Hv as (Hv0 & Hvn & Hve).
  destruct (Z.ltb_spec (addr + size - 1) (pkt_addr p)); [lia|].
  destruct (Z.ltb_spec (pkt_addr p + pkt_size p - 1) addr); [lia|]. cbn [orb].
  unfold getPtr. rewrite Hd. bsimpl. rewrite s32_small by lia.
  set (fe := pkt_addr p + pkt_size p - 1). set (ve := addr + size - 1).
  destruct (Z.leb_spec 0 (pkt_addr p - addr)).
  - rewrite (wrap_small 64) by word_lia.
    destruct (mem_read_spec d 0 (Z.min fe ve - pkt_addr p + 1)) as (bytes & -> & Hlb & Hb); [lia..|].
    bsimpl.
    destruct (mem_write_spec val (pkt_addr p - addr) bytes) as (val' & -> & Hl' & Hval); [lia..|].
    bsimpl. exists val'. split; [done|]. split; [done|]. intros a Ha.
    rewrite Hval by lia. repeat case_decide; try lia; [|done].
    rewrite Hb by lia. f_equal. lia.
  - rewrite (wrap_small 64) by word_lia.
    destruct (mem_read_spec d (- (pkt_addr p - addr)) (Z.min fe ve - addr + 1))
      as (bytes & -> & Hlb & Hb); [lia..|]. bsimpl.
    destruct (mem_write_spec val 0 bytes) as (val' & -> & Hl' & Hval); [lia..|].
    bsimpl. exists val'. split; [done|]. split; [done|]. intros a Ha.
    rewrite Hval by lia. repeat case_decide; try lia; [|done].
    rewrite Hb by lia. f_equal. lia.
Qed.

Definition demo_write : Packet :=
  with_data (Packet_new (mkRequest 0 2 4 1 5 0 0) WriteReq) [7; 8; 9; 10] [].

Lemma functional_write_exact_witness :
  exists val', checkFunctional demo_write 0 false 4 (Some [1; 2; 3; 4]) =
    Ret (false, demo_write, Some val') /\ val' !! 3%nat = Some 8.
Proof.
  destruct (functional_write_exact demo_write [7; 8; 9; 10] 0 [1; 2; 3; 4] 4)
    as (val' & E & _ & H); try reflexivity; try (unfold extent_ok; cbn; lia); try (cbn; lia).
  exists val'. split; [exact E|]. exact (H 3 ltac:(lia)).
Defined.

(** A functional read of a covered range is complete.  When the value
    covers the packet, the read finishes and every byte of the payload is the
    value's byte at that address; the value is unchanged. *)
Theorem functional_read_full p d addr val size :
  pkt_data p = Some d -> Z.of_nat (length d) = pkt_size p -> Z.of_nat (length val) = size ->
  extent_ok (pkt_addr p) (pkt_size p) -> extent_ok addr size ->
  cmd_isRead (pkt_cmd p) = true ->
  addr <= pkt_addr p -> pkt_addr p + pkt_size p <= addr + size ->
  exists p' d', checkFunctional p addr (pkt_isSecure p) size (Some val) = Ret (true, p', Some val) /\
    pkt_data p' = Some d' /\ length d' = length d /\
    forall a, pkt_addr p <= a < pkt_addr p + pkt_size p ->
      d' !! Z.to_nat (a - pkt_addr p) = val !! Z.to_nat (a - addr).
Proof.
  intros Hd Hld Hlv Hf Hv Hr Ho1 Ho2. unfold checkFunctional.
  rewrite !extent_end by done.
  assert (Hp : cmd_isPrint (pkt_cmd p) = false).
  { clear - Hr. by destruct (pkt_cmd p). }
  rewrite eqb_reflx, Hp, Hr. cbn [negb orb].
  destruct Hf as (Hf0 & Hfn & Hfe). destruct Hv as (Hv0 & Hvn & Hve).
  destruct (Z.ltb_spec (addr + size - 1) (pkt_addr p)); [lia|].
  destruct (Z.ltb_spec (pkt_addr p + pkt_size p - 1) addr); [lia|]. cbn [orb].
  rewrite (proj2 (Z.leb_le addr _)), (proj2 (Z.leb_le (_ - 1) (_ - 1))) by lia. cbn [andb].
  unfold getPtr. rewrite Hd. bsimpl. rewrite s32_small by lia.
  destruct (mem_read_spec val (pkt_addr p - addr) (pkt_size p)) as (bytes & -> & Hlb & Hb); [lia..|].
  bsimpl.
  destruct (mem_write_spec d 0 bytes) as (d' & -> & Hl' & Hd'); [lia..|].
  bsimpl. eexists _, d'. split; [reflexivity|]. split; [done|]. split; [done|].
  intros a Ha. rewrite Hd' by lia. rewrite decide_True by lia. rewrite Hb by lia. f_equal. lia.
Qed.

Definition demo_read (addr size : Z) : Packet :=
  with_data (Packet_new (mkRequest 0 addr size 1 5 0 0) ReadReq) (replicate (Z.to_nat size) 0) [].

Lemma functional_read_full_witness :
  exists p' d', checkFunctional (demo_read 2 2) 0 false 4 (Some [1; 2; 3; 4]) =
    Ret (true, p', Some [1; 2; 3; 4]) /\ pkt_data p' = Some d' /\ d' !! 0%nat = Some 3.
Proof.
  destruct (functional_read_full (demo_read 2 2) [0; 0] 0 [1; 2; 3; 4] 4)
    as (p' & d' & E & Ed & _ & H); try reflexivity; try (unfold extent_ok; cbn; lia); try (cbn; lia).
  exists p', d'. split; [exact E|]. split; [exact Ed|]. exact (H 2 ltac:(cbn; lia)).
Defined.

(** Partial functional reads lose a byte.  A read of addresses 4 to 7 is
    checked against a value at 0 to 5 and then against one at 6 to 9.  Together
    they cover the read, but the overlap with the first is computed one byte
    short: address 5 is neither copied nor marked valid, and the read is never
    complete. *)
Theorem functional_read_gap :
  exists p1 p2 d,
    checkFunctional (demo_read 4 4) 0 false 6 (Some [10; 11; 12; 13; 14; 15]) =
      Ret (false, p1, Some [10; 11; 12; 13; 14; 15]) /\
    checkFunctional p1 6 false 4 (Some [16; 17; 18; 19]) = Ret (false, p2, Some [16; 17; 18; 19]) /\
    pkt_data p2 = Some d /\ d !! 1%nat = Some 0 /\ bytesValid p2 !! 1%nat = Some false.
Proof.
  eexists _, _, _. split; [vm_compute; reflexivity|]. split; [vm_compute; reflexivity|].
  split; [reflexivity|]. by split.
Qed.
