(* ===== verification/EventQueue.v ===== *)
(** * The event queue: [sim/eventq.hh], [sim/eventq.cc], [sim/eventq_impl.hh]
    and the simulation loop of [sim/simulate.cc]

    The queue is a linked list of bins, one per pair of tick and priority; a bin
    is a stack linked by [nextInBin], and only the [nextBin] pointer of its top
    event is meaningful.  The model keeps the C++ object graph: a heap of events
    addressed by pointers, in which freed events are gone, so that a use after
    [delete] or of a null pointer is [OutOfBounds].  The actions of events
    ([process()]) are an argument.

    The abstract view is the list of bins; the theorems show that the pointer
    code implements insertion and removal on it, that events are serviced in
    order of tick and priority, and that time never runs backwards. *)

From Stdlib Require Export Sorting.Sorted.
From stdpp Require Export gmap.
From S2P Require Import Prelude Packet.
Local Open Scope Z_scope.

(** ** Events *)

Definition Squashed : Z := 0x0001.
Definition Scheduled : Z := 0x0002.
Definition AutoDelete : Z := 0x0004.
Definition AutoSerialize : Z := 0x0008.
Definition IsExitEvent : Z := 0x0010.
Definition IsMainQueue : Z := 0x0020.
Definition PublicWrite : Z := 0x001d.
Definition Initialized : Z := 0x7a40.
Definition InitMask : Z := 0xffc0.

Definition Default_Pri : Z := 0.

Record Event := mkEvent {
  nextBin : option nat;
  nextInBin : option nat;
  ev_when : Z;
  ev_priority : Z;
  ev_flags : Z;
  ev_queue : option nat
}.

Definition set_nextBin (e : Event) (p : option nat) : Event :=
  mkEvent p (nextInBin e) (ev_when e) (ev_priority e) (ev_flags e) (ev_queue e).
Definition set_nextInBin (e : Event) (p : option nat) : Event :=
  mkEvent (nextBin e) p (ev_when e) (ev_priority e) (ev_flags e) (ev_queue e).
Definition setWhen (e : Event) (when : Z) (q : nat) : Event :=
  mkEvent (nextBin e) (nextInBin e) when (ev_priority e) (ev_flags e) (Some q).
Definition flags_set (f : Z) (e : Event) : Event :=
  mkEvent (nextBin e) (nextInBin e) (ev_when e) (ev_priority e) (Z.lor (ev_flags e) f)
    (ev_queue e).
Definition flags_clear (f : Z) (e : Event) : Event :=
  mkEvent (nextBin e) (nextInBin e) (ev_when e) (ev_priority e)
    (Z.land (ev_flags e) (wnot 16 f)) (ev_queue e).

Definition Event_new (p f : Z) : res Event :=
  _ ← cassert (negb (isSet f (wnot 16 PublicWrite)));
  Ret (mkEvent None None 0 p (Z.lor Initialized f) None).

Definition initialized (e : Event) : bool := Z.land (ev_flags e) InitMask =? Initialized.
Definition scheduled (e : Event) : bool := isSet (ev_flags e) Scheduled.
Definition squashed (e : Event) : bool := isSet (ev_flags e) Squashed.
Definition isExitEvent (e : Event) : bool := isSet (ev_flags e) IsExitEvent.
Definition squash (e : Event) : Event := flags_set Squashed e.

(** [operator<], [operator<=] and [operator==] *)
Definition ev_lt (l r : Event) : bool :=
  (ev_when l <? ev_when r) ||
  ((ev_when l =? ev_when r) && (ev_priority l <? ev_priority r)).
Definition ev_le (l r : Event) : bool :=
  (ev_when l <? ev_when r) ||
  ((ev_when l =? ev_when r) && (ev_priority l <=? ev_priority r)).
Definition ev_eq (l r : Event) : bool :=
  (ev_when l =? ev_when r) && (ev_priority l =? ev_priority r).

(** ** The heap *)

Abbreviation heap := (gmap nat Event).

Definition deref (h : heap) (p : nat) : res Event :=
  match h !! p with
  | Some e => Ret e
  | None => Err OutOfBounds
  end.

Definition store (h : heap) (p : nat) (f : Event -> Event) : res heap :=
  e ← deref h p; Ret (<[p := f e]> h).

(** [delete event], with the assertion of the destructor. *)
Definition free (h : heap) (p : nat) : res heap :=
  e ← deref h p;
  _ ← cassert (negb (scheduled e));
  Ret (delete p h).

(** ** The queue *)

Record EventQueue := mkEventQueue {
  eq_id : nat;
  eq_head : option nat;
  eq_curTick : Z;
  async_queue : list nat
}.

Definition EventQueue_new (id : nat) : EventQueue := mkEventQueue id None 0 [].
Definition set_head (q : EventQueue) (p : option nat) : EventQueue :=
  mkEventQueue (eq_id q) p (eq_curTick q) (async_queue q).
Definition setCurTick (q : EventQueue) (t : Z) : EventQueue :=
  mkEventQueue (eq_id q) (eq_head q) t (async_queue q).
Definition set_async (q : EventQueue) (l : list nat) : EventQueue :=
  mkEventQueue (eq_id q) (eq_head q) (eq_curTick q) l.
Definition eq_empty (q : EventQueue) : bool :=
  match eq_head q with None => true | Some _ => false end.

Definition nextTick (h : heap) (q : EventQueue) : res Z :=
  match eq_head q with
  | None => Err OutOfBounds
  | Some p => e ← deref h p; Ret (ev_when e)
  end.

Definition insertBefore (h : heap) (event : nat) (curr : option nat) : res heap :=
  e ← deref h event;
  match curr with
  | None => Ret (<[event := set_nextInBin (set_nextBin e None) None]> h)
  | Some c =>
      ce ← deref h c;
      if ev_lt e ce then Ret (<[event := set_nextInBin (set_nextBin e (Some c)) None]> h)
      else Ret (<[event := set_nextInBin (set_nextBin e (nextBin ce)) (Some c)]> h)
  end.

(** [while (curr && *curr < *event)], at most once per event. *)
Fixpoint find_bin (h : heap) (event : nat) (fuel prev : nat) (curr : option nat) :
    res (nat * option nat) :=
  match curr with
  | None => Ret (prev, None)
  | Some c =>
      ce ← deref h c;
      e ← deref h event;
      if ev_lt ce e then
        match fuel with
        | O => Err OutOfFuel
        | S fuel => find_bin h event fuel c (nextBin ce)
        end
      else Ret (prev, Some c)
  end.

Definition EventQueue_insert (h : heap) (q : EventQueue) (event : nat) :
    res (heap * EventQueue) :=
  match eq_head q with
  | None =>
      h ← insertBefore h event None;
      Ret (h, set_head q (Some event))
  | Some hd =>
      e ← deref h event;
      he ← deref h hd;
      if ev_le e he then
        h ← insertBefore h event (Some hd);
        Ret (h, set_head q (Some event))
      else
        '(prev, curr) ← find_bin h event (size h) hd (nextBin he);
        h ← insertBefore h event curr;
        h ← store h prev (fun e => set_nextBin e (Some event));
        Ret (h, q)
  end.

(** [while (event != next)] *)
Fixpoint find_in_bin (h : heap) (event : nat) (fuel curr : nat) (next : option nat) :
    res (nat * nat) :=
  match next with
  | None => Err Panic
  | Some n =>
      if bool_decide (event = n) then Ret (curr, n)
      else
        match fuel with
        | O => Err OutOfFuel
        | S fuel => ne ← deref h n; find_in_bin h event fuel n (nextInBin ne)
        end
  end.

(** The new heap and the new top of the bin. *)
Definition removeItem (h : heap) (event top : nat) : res (heap * option nat) :=
  te ← deref h top;
  if bool_decide (event = top) then
    match nextInBin te with
    | None => Ret (h, nextBin te)
    | Some n => h ← store h n (fun e => set_nextBin e (nextBin te)); Ret (h, Some n)
    end
  else
    '(curr, n) ← find_in_bin h event (size h) top (nextInBin te);
    ne ← deref h n;
    h ← store h curr (fun e => set_nextInBin e (nextInBin ne));
    Ret (h, Some top).

Definition EventQueue_remove (h : heap) (q : EventQueue) (event : nat) :
    res (heap * EventQueue) :=
  match eq_head q with
  | None => Err Panic
  | Some hd =>
      e ← deref h event;
      _ ← cassert (bool_decide (ev_queue e = Some (eq_id q)));
      he ← deref h hd;
      if ev_eq he e then
        '(h, top) ← removeItem h event hd;
        Ret (h, set_head q top)
      else
        '(prev, curr) ← find_bin h event (size h) hd (nextBin he);
        match curr with
        | None => Err Panic
        | Some c =>
            ce ← deref h c;
            if negb (ev_eq ce e) then Err Panic
            else
              '(h, top) ← removeItem h event c;
              h ← store h prev (fun e => set_nextBin e top);
              Ret (h, q)
        end
  end.

Definition asyncInsert (q : EventQueue) (event : nat) : EventQueue :=
  set_async q (async_queue q ++ [event]).

Fixpoint insert_all (h : heap) (q : EventQueue) (l : list nat) : res (heap * EventQueue) :=
  match l with
  | [] => Ret (h, q)
  | e :: l => '(h, q) ← EventQueue_insert h q e; insert_all h q l
  end.

(** [isCurrent] is [this == curEventQueue()]. *)
Definition handleAsyncInsertions (isCurrent : bool) (h : heap) (q : EventQueue) :
    res (heap * EventQueue) :=
  _ ← cassert isCurrent;
  '(h, q') ← insert_all h q (async_queue q);
  Ret (h, set_async q' []).

Definition schedule (parallel isCurrent : bool) (h : heap) (q : EventQueue) (event : nat)
    (when : Z) (global : bool) : res (heap * EventQueue) :=
  _ ← cassert (eq_curTick q <=? when);
  e ← deref h event;
  _ ← cassert (negb (scheduled e));
  _ ← cassert (initialized e);
  h ← store h event (fun e => setWhen e when (eq_id q));
  '(h, q) ← (if parallel && (negb isCurrent || global) then Ret (h, asyncInsert q event)
             else EventQueue_insert h q event);
  h ← store h event (flags_set Scheduled);
  Ret (h, q).

Definition deschedule (parallel isCurrent : bool) (h : heap) (q : EventQueue) (event : nat) :
    res (heap * EventQueue) :=
  e ← deref h event;
  _ ← cassert (scheduled e);
  _ ← cassert (initialized e);
  _ ← cassert (negb parallel || isCurrent);
  '(h, q) ← EventQueue_remove h q event;
  h ← store h event (flags_clear Squashed);
  h ← store h event (flags_clear Scheduled);
  e ← deref h event;
  h ← (if isSet (ev_flags e) AutoDelete then free h event else Ret h);
  Ret (h, q).

Definition reschedule (parallel isCurrent : bool) (h : heap) (q : EventQueue) (event : nat)
    (when : Z) (always : bool) : res (heap * EventQueue) :=
  _ ← cassert (eq_curTick q <=? when);
  e ← deref h event;
  _ ← cassert (always || scheduled e);
  _ ← cassert (initialized e);
  _ ← cassert (negb parallel || isCurrent);
  '(h, q) ← (if scheduled e then EventQueue_remove h q event else Ret (h, q));
  h ← store h event (fun e => setWhen e when (eq_id q));
  '(h, q) ← EventQueue_insert h q event;
  h ← store h event (flags_clear Squashed);
  h ← store h event (flags_set Scheduled);
  Ret (h, q).

Section service.
(** The state of the simulated system and the actions of the events. *)
Context {W : Type}.
Context (process : nat -> W -> heap -> EventQueue -> res (W * heap * EventQueue)).

(** The exit event returned, if any, and the rest of the state. *)
Definition serviceOne (w : W) (h : heap) (q : EventQueue) :
    res (option nat * W * heap * EventQueue) :=
  match eq_head q with
  | None => Err OutOfBounds
  | Some event =>
      he ← deref h event;
      h ← store h event (flags_clear Scheduled);
      '(h, q) ← match nextInBin he with
        | Some n =>
            h ← store h n (fun e => set_nextBin e (nextBin he));
            Ret (h, set_head q (Some n))
        | None => Ret (h, set_head q (nextBin he))
        end;
      e ← deref h event;
      '(stop, w, h, q) ← (if negb (squashed e) then
          let q := setCurTick q (ev_when e) in
          '(w, h, q) ← process event w h q;
          e ← deref h event;
          if isExitEvent e then
            _ ← cassert (negb (isSet (ev_flags e) AutoDelete) ||
                         negb (isSet (ev_flags e) IsMainQueue));
            Ret (Some event, w, h, q)
          else Ret (None, w, h, q)
        else
          h ← store h event (flags_clear Squashed);
          Ret (None, w, h, q));
      match stop with
      | Some x => Ret (Some x, w, h, q)
      | None =>
          e ← deref h event;
          h ← (if isSet (ev_flags e) AutoDelete && negb (scheduled e) then free h event
               else Ret h);
          Ret (None, w, h, q)
      end
  end.

Fixpoint serviceEvents (fuel : nat) (when : Z) (w : W) (h : heap) (q : EventQueue) :
    res (W * heap * EventQueue) :=
  if eq_empty q then Ret (w, h, setCurTick q when)
  else
    t ← nextTick h q;
    if when <? t then Ret (w, h, setCurTick q when)
    else
      match fuel with
      | O => Err OutOfFuel
      | S fuel => '(_, w, h, q) ← serviceOne w h q; serviceEvents fuel when w h q
      end.

(** [doSimLoop] without asynchronous signals: the exit event it returns. *)
Fixpoint sim_loop (fuel : nat) (w : W) (h : heap) (q : EventQueue) :
    res (nat * W * heap * EventQueue) :=
  _ ← cassert (negb (eq_empty q));
  t ← nextTick h q;
  _ ← cassert (eq_curTick q <=? t);
  '(stop, w, h, q) ← serviceOne w h q;
  match stop with
  | Some x => Ret (x, w, h, q)
  | None =>
      match fuel with
      | O => Err OutOfFuel
      | S fuel => sim_loop fuel w h q
      end
  end.

Definition doSimLoop (fuel : nat) (w : W) (h : heap) (q : EventQueue) :
    res (nat * W * heap * EventQueue) :=
  '(h, q) ← handleAsyncInsertions true h q;
  sim_loop fuel w h q.
End service.

(** ** [debugVerify] *)

(** One bin from [p] on: the tick, the priority and the events seen so far, or
    [None] when the check fails. *)
Fixpoint verify_bin (h : heap) (fuel : nat) (p : option nat) (time pri : Z) (seen : list nat) :
    res (option (Z * Z * list nat)) :=
  match p with
  | None => Ret (Some (time, pri, seen))
  | Some x =>
      e ← deref h x;
      if ev_when e <? time then Ret None
      else if (ev_when e =? time) && (ev_priority e <? pri) then Ret None
      else if bool_decide (x ∈ seen) then Ret None
      else
        match fuel with
        | O => Err OutOfFuel
        | S fuel => verify_bin h fuel (nextInBin e) (ev_when e) (ev_priority e) (x :: seen)
        end
  end.

Fixpoint verify_bins (h : heap) (fuel : nat) (p : option nat) (time pri : Z) (seen : list nat) :
    res bool :=
  match p with
  | None => Ret true
  | Some x =>
      r ← verify_bin h (size h) (Some x) time pri seen;
      match r with
      | None => Ret false
      | Some (time, pri, seen) =>
          e ← deref h x;
          match fuel with
          | O => Err OutOfFuel
          | S fuel => verify_bins h fuel (nextBin e) time pri seen
          end
      end
  end.

Definition debugVerify (h : heap) (q : EventQueue) : res bool :=
  verify_bins h (size h) (eq_head q) 0 0 [].

Definition replaceHead (q : EventQueue) (s : option nat) : EventQueue * option nat :=
  (set_head q s, eq_head q).

(** ** [Event::unserialize]: the state of an event from a checkpoint *)
Definition unserialize (parallel isCurrent : bool) (h : heap) (q : EventQueue) (event : nat)
    (when pri flags : Z) : res (heap * EventQueue) :=
  e ← deref h event;
  '(h, q) ← (if scheduled e then deschedule parallel isCurrent h q event else Ret (h, q));
  e ← deref h event;
  _ ← cassert (initialized e);
  let f := Z.lor flags Initialized in
  let wasScheduled := isSet f Scheduled && negb (isSet f Squashed) in
  let f := Z.land f (wnot 16 (Z.lor Squashed Scheduled)) in
  h ← store h event (fun e => mkEvent (nextBin e) (nextInBin e) when pri f (ev_queue e));
  if wasScheduled then schedule parallel isCurrent h q event when false else Ret (h, q).

(** ** The abstract queue: sorted bins *)

Record bin := mkBin { b_when : Z; b_pri : Z; b_top : nat; b_rest : list nat }.

Definition klt (w p w' p' : Z) : bool := (w <? w') || ((w =? w') && (p <? p')).
Definition bin_lt (a b : bin) : Prop := klt (b_when a) (b_pri a) (b_when b) (b_pri b) = true.

(** The events of the queue in the order in which they are serviced. *)
Definition bin_events (b : bin) : list nat := b_top b :: b_rest b.
Definition events (bs : list bin) : list nat := concat (bin_events <$> bs).

Fixpoint ins_bins (w p : Z) (x : nat) (bs : list bin) : list bin :=
  match bs with
  | [] => [mkBin w p x []]
  | b :: bs' =>
      if klt w p (b_when b) (b_pri b) then mkBin w p x [] :: bs
      else if klt (b_when b) (b_pri b) w p then b :: ins_bins w p x bs'
      else mkBin w p x (bin_events b) :: bs'
  end.

(** The bin without [x], if anything is left. *)
Definition rem_bin (x : nat) (b : bin) : option bin :=
  if bool_decide (x = b_top b) then
    match b_rest b with
    | [] => None
    | y :: l => Some (mkBin (b_when b) (b_pri b) y l)
    end
  else Some (mkBin (b_when b) (b_pri b) (b_top b) (filter (.≠ x) (b_rest b))).

Fixpoint rem_bins (x : nat) (bs : list bin) : list bin :=
  match bs with
  | [] => []
  | b :: bs' =>
      if bool_decide (x ∈ bin_events b) then option_list (rem_bin x b) ++ bs'
      else b :: rem_bins x bs'
  end.

(** *** Representation *)

Fixpoint in_bin (h : heap) (w pr : Z) (p : option nat) (l : list nat) : Prop :=
  match l with
  | [] => p = None
  | x :: l => p = Some x /\ exists e, h !! x = Some e /\ ev_when e = w /\ ev_priority e = pr /\
                in_bin h w pr (nextInBin e) l
  end.

Fixpoint bins_at (h : heap) (p : option nat) (bs : list bin) : Prop :=
  match bs with
  | [] => p = None
  | b :: bs => p = Some (b_top b) /\
      exists e, h !! b_top b = Some e /\ ev_when e = b_when b /\ ev_priority e = b_pri b /\
        in_bin h (b_when b) (b_pri b) (nextInBin e) (b_rest b) /\ bins_at h (nextBin e) bs
  end.

(** Everything but the links. *)
Definition ev_data (e : Event) : Z * Z * Z * option nat :=
  (ev_when e, ev_priority e, ev_flags e, ev_queue e).
Definition same_data (h h' : heap) : Prop := forall x, ev_data <$> h' !! x = ev_data <$> h !! x.

#[export] Instance same_data_refl : Reflexive same_data.
Proof. by intros h x. Qed.
#[export] Instance same_data_trans : Transitive same_data.
Proof. intros a b c H1 H2 x. by rewrite H2. Qed.

Lemma same_data_insert (h : heap) x e e' :
  h !! x = Some e -> ev_data e' = ev_data e -> same_data h (<[x:=e']> h).
Proof.
  intros Hx He y. destruct (decide (y = x)) as [->|].
  - rewrite lookup_insert_eq, Hx. by apply (f_equal Some).
  - by rewrite lookup_insert_ne.
Qed.

Lemma events_cons b bs : events (b :: bs) = bin_events b ++ events bs.
Proof. done. Qed.

Lemma in_bin_frame h h' w pr l : forall p,
  in_bin h w pr p l -> (forall x, x ∈ l -> h' !! x = h !! x) -> in_bin h' w pr p l.
Proof.
  induction l as [|x l IH]; intros p; [done|].
  intros (Hp & e & He & Hw & Hpr & Hl) Hf. split; [done|]. exists e.
  split_and!; try done; [by rewrite Hf by left|]. apply IH; [done|]. intros y Hy. apply Hf. by right.
Qed.

Lemma bins_frame h h' bs : forall p,
  bins_at h p bs -> (forall x, x ∈ events bs -> h' !! x = h !! x) -> bins_at h' p bs.
Proof.
  induction bs as [|b bs IH]; intros p; [done|].
  intros (Hp & e & He & Hw & Hpr & Hl & Hb) Hf. rewrite events_cons in Hf.
  split; [done|]. exists e. split_and!; try done.
  - rewrite Hf; [done|]. apply elem_of_app. left. by left.
  - eapply in_bin_frame; [done|]. intros x Hx. apply Hf. apply elem_of_app. left. by right.
  - apply IH; [done|]. intros x Hx. apply Hf. apply elem_of_app. by right.
Qed.

Lemma in_bin_dom h w pr l : forall p x, in_bin h w pr p l -> x ∈ l ->
  exists e, h !! x = Some e /\ ev_when e = w /\ ev_priority e = pr.
Proof.
  induction l as [|y l IH]; intros p x; [by intros _ ?%not_elem_of_nil|].
  intros (_ & e & He & Hw & Hpr & Hl) [->|Hx]%elem_of_cons; [by exists e|by eapply IH].
Qed.

Lemma bins_dom h bs : forall p x, bins_at h p bs -> x ∈ events bs ->
  exists b e, b ∈ bs /\ x ∈ bin_events b /\ h !! x = Some e /\ ev_when e = b_when b /\
    ev_priority e = b_pri b.
Proof.
  induction bs as [|b bs IH]; intros p x; [by intros _ ?%not_elem_of_nil|].
  intros (_ & e & He & Hw & Hpr & Hl & Hb). rewrite events_cons, elem_of_app.
  intros [[->|Hx]%elem_of_cons|Hx].
  - exists b, e. split_and!; try done; by left.
  - destruct (in_bin_dom _ _ _ _ _ _ Hl Hx) as (f & Hf & ? & ?). exists b, f.
    split_and!; try done; [by left|by right].
  - destruct (IH _ _ Hb Hx) as (b' & f & Hin & ?). exists b', f. split; [by right|done].
Qed.

(** There are at least as many events in the heap as in the queue. *)
Lemma events_size h bs p :
  bins_at h p bs -> NoDup (events bs) -> (length (events bs) <= size h)%nat.
Proof.
  intros Hb Hnd. rewrite <- size_dom, <- (size_list_to_set (C:=gset nat) (events bs)) by done.
  apply subseteq_size. intros x Hx%elem_of_list_to_set.
  destruct (bins_dom _ _ _ _ Hb Hx) as (b & e & _ & _ & He & _). by apply elem_of_dom_2 with e.
Qed.

Lemma bins_length bs : (length bs <= length (events bs))%nat.
Proof. induction bs as [|b bs IH]; [done|]. rewrite events_cons, length_app. cbn. lia. Qed.

(** *** Insertion *)

Lemma deref_some h x e : h !! x = Some e -> deref h x = Ret e.
Proof. unfold deref. by intros ->. Qed.

Lemma store_some h x e f : h !! x = Some e -> store h x f = Ret (<[x := f e]> h).
Proof. intros H. unfold store. by rewrite (deref_some _ _ _ H). Qed.

Lemma ev_lt_klt e f : ev_lt e f = klt (ev_when e) (ev_priority e) (ev_when f) (ev_priority f).
Proof. done. Qed.

Lemma klt_spec w p w' p' : klt w p w' p' = true <-> w < w' \/ (w = w' /\ p < p').
Proof.
  unfold klt. rewrite orb_true_iff, andb_true_iff, !Z.ltb_lt, Z.eqb_eq. done.
Qed.

Lemma klt_false w p w' p' : klt w p w' p' = false <-> w' < w \/ (w = w' /\ p' <= p).
Proof.
  rewrite <- not_true_iff_false, klt_spec. lia.
Qed.

(** The heap after an operation that relinks only [l]. *)
Definition changes_only (l : list nat) (h h' : heap) : Prop :=
  forall x, x ∉ l -> h' !! x = h !! x.

Lemma insertBefore_ok h event e curr bs :
  h !! event = Some e -> event ∉ events bs -> bins_at h curr bs ->
  (forall b, head bs = Some b -> klt (b_when b) (b_pri b) (ev_when e) (ev_priority e) = false) ->
  exists e', insertBefore h event curr = Ret (<[event:=e']> h) /\ ev_data e' = ev_data e /\
    bins_at (<[event:=e']> h) (Some event) (ins_bins (ev_when e) (ev_priority e) event bs).
Proof.
  intros He Hn Hb Hge. unfold insertBefore. rewrite (deref_some _ _ _ He). bsimpl.
  assert (Hfr : forall e' x, x ∈ events bs -> <[event:=e']> h !! x = h !! x).
  { intros e' x Hx. rewrite lookup_insert_ne; [done|]. by intros <-. }
  destruct bs as [|b bs].
  - cbn in Hb. subst curr. eexists. split; [done|]. split; [done|].
    split; [done|]. eexists. by rewrite lookup_insert_eq.
  - pose proof Hb as Hb0. destruct Hb as (-> & be & Hbe & Hw & Hp & Hl & Hb).
    rewrite (deref_some _ _ _ Hbe). bsimpl. rewrite ev_lt_klt, Hw, Hp. cbn [ins_bins].
    rewrite (Hge b eq_refl). destruct (klt (ev_when e) _ _ _) eqn:E; eexists.
    + split; [done|]. split; [done|]. split; [done|]. eexists. rewrite lookup_insert_eq.
      split_and!; try done. cbn [nextBin set_nextInBin set_nextBin].
      eapply bins_frame; [exact Hb0|]. apply Hfr.
    + split; [done|]. split; [done|].
      assert (E1 : b_when b = ev_when e /\ b_pri b = ev_priority e).
      { pose proof (Hge b eq_refl) as E2. apply klt_false in E, E2. lia. }
      destruct E1 as [E1 E2]. split; [done|]. eexists. rewrite lookup_insert_eq.
      split_and!; try done; cbn [b_rest b_when b_pri nextBin nextInBin set_nextInBin set_nextBin].
      * split; [done|]. exists be. split_and!; try congruence.
        -- rewrite Hfr; [done|]. by left.
        -- rewrite <- E1, <- E2. eapply in_bin_frame; [done|]. intros x Hx. apply Hfr.
           rewrite events_cons. apply elem_of_app. left. by right.
      * eapply bins_frame; [done|]. intros x Hx. apply Hfr.
        rewrite events_cons. apply elem_of_app. by right.
Qed.

Lemma events_ins w p x y bs :
  y ∈ events (ins_bins w p x bs) <-> y = x \/ y ∈ events bs.
Proof.
  induction bs as [|b bs IH]; [cbn; set_solver|]. cbn [ins_bins].
  destruct (klt w p _ _); [|destruct (klt _ _ w p)]; rewrite !events_cons, !elem_of_app.
  - cbn. set_solver.
  - rewrite IH. tauto.
  - unfold bin_events. cbn. rewrite !elem_of_cons. tauto.
Qed.

(** Insertion behind [prev], just before [bs]. *)
Lemma insert_here h event e bs prev pe :
  h !! event = Some e -> h !! prev = Some pe -> prev <> event ->
  prev ∉ events bs -> event ∉ events bs -> bins_at h (nextBin pe) bs ->
  (forall b, head bs = Some b -> klt (b_when b) (b_pri b) (ev_when e) (ev_priority e) = false) ->
  exists h1 h2, insertBefore h event (nextBin pe) = Ret h1 /\
    store h1 prev (fun e => set_nextBin e (Some event)) = Ret h2 /\
    h2 !! prev = Some (set_nextBin pe (Some event)) /\
    bins_at h2 (Some event) (ins_bins (ev_when e) (ev_priority e) event bs) /\
    changes_only [prev; event] h h2 /\ same_data h h2.
Proof.
  intros He Hpe Hne Hnp Hn Hb Hge.
  destruct (insertBefore_ok h event e (nextBin pe) bs He Hn Hb Hge) as (e' & E1 & Hd & Hb').
  assert (Hp1 : <[event:=e']> h !! prev = Some pe) by (by rewrite lookup_insert_ne).
  do 2 eexists. split_and!; [exact E1|exact (store_some _ _ _ _ Hp1)|apply lookup_insert_eq| | |].
  - eapply bins_frame; [exact Hb'|]. intros x Hx. rewrite lookup_insert_ne; [done|].
    intros <-. apply events_ins in Hx as [|]; done.
  - intros x Hx. rewrite !lookup_insert_ne; set_solver.
  - transitivity (<[event:=e']> h); [by apply (same_data_insert h event e e')|].
    by apply (same_data_insert _ prev pe).
Qed.

Lemma changes_only_mono l l' h h' :
  changes_only l h h' -> (forall x, x ∈ l -> x ∈ l') -> changes_only l' h h'.
Proof. intros H Hs x Hx. apply H. intros Hl. by apply Hx, Hs. Qed.

(** The events of a bin are apart from those of the later bins. *)
Lemma bins_apart prev b bs :
  NoDup (prev :: events (b :: bs)) ->
  prev ∉ events (b :: bs) /\ NoDup (b_top b :: events bs) /\
  (forall x, x ∈ b_rest b -> x <> b_top b /\ x ∉ events bs) /\ NoDup (events bs) /\
  prev <> b_top b /\ NoDup (bin_events b).
Proof.
  intros [Hp Hnd]%NoDup_cons. rewrite events_cons in *. cbn [bin_events app] in *.
  apply NoDup_cons in Hnd as [Ht Hnd]. pose proof Hnd as (Hr & Hd & Hb)%NoDup_app.
  split_and!; try done.
  - apply NoDup_cons. set_solver.
  - intros x Hx. split; [set_solver|]. by apply Hd.
  - set_solver.
  - apply NoDup_cons. set_solver.
Qed.

(** Insertion somewhere behind [prev], the top of a bin that comes earlier. *)
Lemma insert_after h event e bs : forall prev pe fuel,
  h !! event = Some e -> h !! prev = Some pe -> prev <> event ->
  NoDup (prev :: events bs) -> event ∉ events bs -> bins_at h (nextBin pe) bs ->
  (length bs <= fuel)%nat ->
  exists p c h1 h2 n, find_bin h event fuel prev (nextBin pe) = Ret (p, c) /\
    insertBefore h event c = Ret h1 /\
    store h1 p (fun e => set_nextBin e (Some event)) = Ret h2 /\
    h2 !! prev = Some (set_nextBin pe n) /\
    bins_at h2 n (ins_bins (ev_when e) (ev_priority e) event bs) /\
    changes_only (prev :: event :: events bs) h h2 /\ same_data h h2.
Proof.
  induction bs as [|b bs IH]; intros prev pe fuel He Hpe Hne Hnd Hn Hb Hf.
  - destruct (insert_here h event e [] prev pe) as (h1 & h2 & E1 & E2 & Hp2 & Hb2 & Hch & Hsd);
      try done; [by apply not_elem_of_nil|].
    cbn in Hb. rewrite Hb in *. exists prev, None, h1, h2, (Some event).
    split_and!; try done. by destruct fuel.
  - destruct (bins_apart prev b bs Hnd) as (Hnp & Hnd' & Hap & _ & Hpt & _).
    pose proof Hb as (Hp0 & be & Hbe & Hw & Hpr & Hl & Hbs).
    destruct (klt (b_when b) (b_pri b) (ev_when e) (ev_priority e)) eqn:E.
    + destruct fuel as [|fuel]; [cbn in Hf; lia|]. rewrite events_cons in *.
      destruct (IH (b_top b) be fuel He Hbe) as
        (p & c & h1 & h2 & n & E1 & E2 & E3 & Hbt & Hb2 & Hch & Hsd);
        [set_solver|done|set_solver|done|cbn in Hf; lia|].
      rewrite Hp0.
      exists p, c, h1, h2, (Some (b_top b)). cbn [find_bin].
      rewrite (deref_some _ _ _ Hbe), (deref_some _ _ _ He). bsimpl.
      rewrite ev_lt_klt, Hw, Hpr, E. split_and!; try done.
      * rewrite Hch, Hpe by set_solver. destruct pe. cbn in *. by subst.
      * cbn [ins_bins]. rewrite E, (proj2 (klt_false _ _ _ _)) by (apply klt_spec in E; lia).
        split; [done|]. exists (set_nextBin be n). split_and!; try done.
        cbn [nextInBin set_nextBin]. eapply in_bin_frame; [exact Hl|]. intros x Hx. apply Hch.
        destruct (Hap x Hx). set_solver.
      * eapply changes_only_mono; [exact Hch|]. set_solver.
    + assert (Hge : forall b0, head (b :: bs) = Some b0 ->
        klt (b_when b0) (b_pri b0) (ev_when e) (ev_priority e) = false)
        by (by intros b0 [= <-]).
      destruct (insert_here h event e (b :: bs) prev pe)
        as (h1 & h2 & E1 & E2 & Hp2 & Hb2 & Hch & Hsd); try done.
      exists prev, (nextBin pe), h1, h2, (Some event). split_and!; try done.
      * rewrite Hp0. destruct fuel; cbn [find_bin];
          rewrite (deref_some _ _ _ Hbe), (deref_some _ _ _ He); bsimpl;
          by rewrite ev_lt_klt, Hw, Hpr, E.
      * eapply changes_only_mono; [exact Hch|]. set_solver.
Qed.

Lemma EventQueue_insert_ok h q event e bs :
  bins_at h (eq_head q) bs -> NoDup (events bs) -> h !! event = Some e -> event ∉ events bs ->
  exists h' p, EventQueue_insert h q event = Ret (h', set_head q p) /\
    bins_at h' p (ins_bins (ev_when e) (ev_priority e) event bs) /\
    changes_only (event :: events bs) h h' /\ same_data h h'.
Proof.
  intros Hb Hnd He Hn. unfold EventQueue_insert. destruct bs as [|b bs].
  - pose proof Hb as E0. cbn in E0. rewrite E0 in *.
    destruct (insertBefore_ok h event e None [] He Hn eq_refl) as (e' & -> & Hd & Hb'); [done|].
    bsimpl. do 2 eexists. split_and!; [done|exact Hb'| |by eapply same_data_insert].
    intros x Hx. rewrite lookup_insert_ne; set_solver.
  - pose proof Hb as (E0 & be & Hbe & Hw & Hpr & Hl & Hbs). rewrite E0 in *.
    rewrite (deref_some _ _ _ He), (deref_some _ _ _ Hbe). bsimpl.
    assert (Ele : ev_le e be = negb (klt (b_when b) (b_pri b) (ev_when e) (ev_priority e))).
    { apply eq_bool_prop_intro. rewrite !Is_true_true, negb_true_iff, klt_false.
      unfold ev_le. rewrite Hw, Hpr, orb_true_iff, andb_true_iff, Z.ltb_lt, Z.eqb_eq, Z.leb_le.
      lia. }
    rewrite Ele. destruct (klt (b_when b) _ _ _) eqn:E; cbn [negb].
    + assert (Hnd' : NoDup (b_top b :: events bs)).
      { rewrite events_cons in Hnd. cbn in Hnd. apply NoDup_cons in Hnd as [? (_ & _ & ?)%NoDup_app].
        apply NoDup_cons. set_solver. }
      rewrite events_cons in Hn.
      destruct (insert_after h event e bs (b_top b) be (size h)) as
        (p & c & h1 & h2 & n & E1 & E2 & E3 & Hp2 & Hb2 & Hch & Hsd); try done;
        [set_solver|set_solver| |].
      { pose proof (events_size _ _ _ Hb Hnd) as Hsz. rewrite events_cons, length_app in Hsz.
        pose proof (bins_length bs). lia. }
      rewrite E1. bsimpl. rewrite E2. bsimpl. rewrite E3. bsimpl.
      exists h2, (eq_head q). split; [by destruct q|]. rewrite E0. split_and!; [| |done].
      * cbn [ins_bins]. rewrite E, (proj2 (klt_false _ _ _ _)) by (apply klt_spec in E; lia).
        split; [done|]. exists (set_nextBin be n). split_and!; try done.
        eapply in_bin_frame; [exact Hl|]. intros x Hx. apply Hch.
        rewrite events_cons in Hnd. cbn in Hnd. apply NoDup_cons in Hnd as [? (_ & H2 & _)%NoDup_app].
        specialize (H2 x Hx). set_solver.
      * eapply changes_only_mono; [exact Hch|]. rewrite events_cons. unfold bin_events. set_solver.
    + destruct (insertBefore_ok h event e (Some (b_top b)) (b :: bs) He Hn Hb)
        as (e' & -> & Hd & Hb'); [by intros b0 [= <-]|].
      bsimpl. do 2 eexists. split_and!; [done|exact Hb'| |by eapply same_data_insert].
      intros x Hx. rewrite lookup_insert_ne; set_solver.
Qed.

(** *** Removal *)

Lemma filter_absent (x : nat) (l : list nat) : x ∉ l -> filter (.≠ x) l = l.
Proof.
  induction l as [|y l IH]; [done|]. intros [Hne Hn]%not_elem_of_cons.
  rewrite filter_cons_True by auto. by rewrite IH.
Qed.

Lemma find_in_bin_ok h w pr event l : forall curr ce fuel,
  h !! curr = Some ce -> in_bin h w pr (nextInBin ce) l -> event ∈ l -> NoDup (curr :: l) ->
  (length l <= fuel)%nat ->
  exists c ne h2 n, find_in_bin h event fuel curr (nextInBin ce) = Ret (c, event) /\
    h !! event = Some ne /\
    store h c (fun e => set_nextInBin e (nextInBin ne)) = Ret h2 /\
    h2 !! curr = Some (set_nextInBin ce n) /\ in_bin h2 w pr n (filter (.≠ event) l) /\
    changes_only (curr :: l) h h2 /\ same_data h h2.
Proof.
  induction l as [|x l IH]; intros curr ce fuel Hc Hl Hin Hnd Hf; [by apply not_elem_of_nil in Hin|].
  destruct Hl as (Ex & xe & Hx & Hw & Hpr & Hl).
  pose proof Hnd as [Hcn [Hxn Hnd']%NoDup_cons]%NoDup_cons.
  destruct (decide (event = x)) as [->|Hne].
  - exists curr, xe. do 2 eexists. split_and!; [|done|by apply store_some|apply lookup_insert_eq| | |].
    + rewrite Ex. destruct fuel; cbn; by rewrite bool_decide_true.
    + rewrite filter_cons_False, filter_absent by auto.
      eapply in_bin_frame; [exact Hl|]. intros y Hy. rewrite lookup_insert_ne; [done|set_solver].
    + intros y Hy. rewrite lookup_insert_ne; set_solver.
    + by eapply same_data_insert.
  - destruct fuel as [|fuel]; [cbn in Hf; lia|].
    destruct (IH x xe fuel Hx Hl) as (c & ne & h2 & n & E1 & Hev & E2 & Hx2 & Hl2 & Hch & Hsd);
      [set_solver|by apply NoDup_cons|cbn in Hf; lia|].
    exists c, ne, h2, (Some x). split_and!; try done.
    + rewrite Ex. cbn. rewrite bool_decide_false by done. rewrite (deref_some _ _ _ Hx). done.
    + rewrite Hch by done. rewrite Hc. destruct ce. cbn in *. by subst.
    + rewrite filter_cons_True by done. split; [done|]. by exists (set_nextInBin xe n).
    + eapply changes_only_mono; [exact Hch|]. set_solver.
Qed.

Lemma removeItem_ok h event b bs :
  bins_at h (Some (b_top b)) (b :: bs) -> NoDup (events (b :: bs)) -> event ∈ bin_events b ->
  exists h' r, removeItem h event (b_top b) = Ret (h', r) /\
    bins_at h' r (option_list (rem_bin event b) ++ bs) /\
    changes_only (bin_events b) h h' /\ same_data h h'.
Proof.
  intros Hb Hnd Hin. pose proof Hb as (_ & be & Hbe & Hw & Hpr & Hl & Hbs).
  pose proof (events_size _ _ _ Hb Hnd) as Hsz. rewrite events_cons in Hnd, Hsz.
  apply NoDup_app in Hnd as (Hnb & Hdis & Hnbs). unfold removeItem, rem_bin.
  rewrite (deref_some _ _ _ Hbe). bsimpl. destruct (decide (event = b_top b)) as [->|Hne].
  - rewrite !bool_decide_true by done. destruct (b_rest b) as [|y l] eqn:Er; cbn [in_bin] in Hl.
    + rewrite Hl. do 2 eexists. split_and!; try done.
    + destruct Hl as (-> & ye & Hy & Hyw & Hyp & Hl). rewrite (store_some _ _ _ _ Hy). bsimpl.
      do 2 eexists. split; [done|]. cbn [option_list app]. unfold bin_events in *. rewrite Er in *.
      apply NoDup_cons in Hnb as [Ht Hnb]. apply NoDup_cons in Hnb as [Hyn Hnb].
      split; [split; [done|]|split; [by intros x Hx; rewrite lookup_insert_ne; set_solver|
        by eapply same_data_insert]].
      cbn [b_top b_when b_pri b_rest]. eexists. rewrite lookup_insert_eq. split_and!; try done.
      * cbn. eapply in_bin_frame; [exact Hl|]. intros x Hx. rewrite lookup_insert_ne; set_solver.
      * cbn. eapply bins_frame; [exact Hbs|]. intros x Hx. rewrite lookup_insert_ne; [done|].
        intros <-. eapply Hdis; [|exact Hx]. set_solver.
  - rewrite !bool_decide_false by done.
    destruct (find_in_bin_ok h (b_when b) (b_pri b) event (b_rest b) (b_top b) be (size h))
      as (c & ne & h2 & n & E1 & Hev & E2 & Hx2 & Hl2 & Hch & Hsd); try done.
    { unfold bin_events in Hin. set_solver. }
    { rewrite length_app in Hsz. cbn in Hsz. lia. }
    rewrite E1. bsimpl. rewrite (deref_some _ _ _ Hev). bsimpl. rewrite E2. bsimpl.
    do 2 eexists. split; [done|]. cbn [option_list app].
    split; [|done]. split; [done|]. exists (set_nextInBin be n). split_and!; try done. cbn.
    eapply bins_frame; [exact Hbs|]. intros x Hx. apply Hch. intros Hxb. by apply (Hdis x).
Qed.

Lemma klt_irrefl w p : klt w p w p = false.
Proof. apply klt_false. lia. Qed.

Lemma klt_asym w p w' p' : klt w p w' p' = true -> klt w' p' w p = false.
Proof. rewrite klt_spec, klt_false. lia. Qed.

(** The key of a queued event is the key of its bin. *)
Lemma bin_key h p b bs x e :
  bins_at h p (b :: bs) -> x ∈ bin_events b -> h !! x = Some e ->
  ev_when e = b_when b /\ ev_priority e = b_pri b.
Proof.
  intros (_ & be & Hbe & Hw & Hpr & Hl & _) [->|Hx]%elem_of_cons Hxe; [by simplify_eq|].
  destruct (in_bin_dom _ _ _ _ _ _ Hl Hx) as (e' & ? & ? & ?). by simplify_eq.
Qed.

(** An event of a later bin comes strictly later. *)
Lemma later_key h p b bs x e :
  bins_at h p (b :: bs) -> StronglySorted bin_lt (b :: bs) -> x ∈ events bs -> h !! x = Some e ->
  klt (b_when b) (b_pri b) (ev_when e) (ev_priority e) = true.
Proof.
  intros (_ & be & Hbe & Hw & Hpr & Hl & Hbs) [_ Hs]%StronglySorted_inv Hx Hxe.
  destruct (bins_dom _ _ _ _ Hbs Hx) as (b' & e' & Hb' & _ & He' & Hw' & Hp'). simplify_eq.
  rewrite Hw', Hp'. exact (proj1 (Forall_forall _ _) Hs b' Hb').
Qed.

Lemma events_rem_bin x b bs :
  NoDup (bin_events b) ->
  events (option_list (rem_bin x b) ++ bs) = filter (.≠ x) (bin_events b) ++ events bs.
Proof.
  intros [Hn _]%NoDup_cons. unfold rem_bin, bin_events.
  destruct (decide (x = b_top b)) as [->|Hne].
  - rewrite bool_decide_true, filter_cons_False, filter_absent by auto.
    by destruct (b_rest b).
  - by rewrite bool_decide_false, filter_cons_True by auto.
Qed.

(** Removing an event leaves the others in their order. *)
Lemma events_rem x bs :
  NoDup (events bs) -> events (rem_bins x bs) = filter (.≠ x) (events bs).
Proof.
  induction bs as [|b bs IH]; [done|]. rewrite events_cons. cbn [rem_bins].
  intros (Hb & Hd & Hbs)%NoDup_app. rewrite filter_app.
  destruct (decide (x ∈ bin_events b)) as [Hin|Hin].
  - rewrite bool_decide_true, events_rem_bin, (filter_absent x (events bs)) by auto. done.
  - rewrite bool_decide_false, events_cons, IH, (filter_absent x (bin_events b)) by auto. done.
Qed.

Lemma remove_after h event e bs : forall prev pe fuel,
  h !! event = Some e -> h !! prev = Some pe ->
  NoDup (prev :: events bs) -> StronglySorted bin_lt bs -> event ∈ events bs ->
  bins_at h (nextBin pe) bs -> (length bs <= fuel)%nat ->
  exists p c ce h1 r h2 n, find_bin h event fuel prev (nextBin pe) = Ret (p, Some c) /\
    deref h c = Ret ce /\ ev_eq ce e = true /\ removeItem h event c = Ret (h1, r) /\
    store h1 p (fun e => set_nextBin e r) = Ret h2 /\
    h2 !! prev = Some (set_nextBin pe n) /\ bins_at h2 n (rem_bins event bs) /\
    changes_only (prev :: events bs) h h2 /\ same_data h h2.
Proof.
  induction bs as [|b bs IH]; intros prev pe fuel He Hpe Hnd Hs Hin Hb Hf;
    [by apply not_elem_of_nil in Hin|].
  destruct (bins_apart prev b bs Hnd) as (Hnp & Hnd' & Hap & Hnbs & Hpt & _).
  pose proof Hb as (Hp0 & be & Hbe & Hw & Hpr & Hl & Hbs). rewrite Hp0. cbn [rem_bins].
  destruct (decide (event ∈ bin_events b)) as [Hev|Hev].
  - destruct (bin_key _ _ _ _ _ _ Hb Hev He) as [Ew Ep]. rewrite Hp0 in Hb.
    destruct (removeItem_ok h event b bs Hb) as (h1 & r & E1 & Hb1 & Hch & Hsd); [|done|].
    { by apply NoDup_cons in Hnd as [_ ?]. }
    assert (Hp1 : h1 !! prev = Some pe).
    { rewrite Hch; [done|]. rewrite events_cons in Hnp. set_solver. }
    exists prev, (b_top b), be, h1, r. do 2 eexists. rewrite bool_decide_true by done.
    split_and!; [|by apply deref_some| |exact E1|by apply store_some|apply lookup_insert_eq| | |].
    + destruct fuel; cbn [find_bin]; rewrite (deref_some _ _ _ Hbe), (deref_some _ _ _ He); bsimpl;
        by rewrite ev_lt_klt, Hw, Hpr, Ew, Ep, klt_irrefl.
    + unfold ev_eq. by rewrite Hw, Hpr, Ew, Ep, !Z.eqb_refl.
    + eapply bins_frame; [exact Hb1|]. intros x Hx. rewrite lookup_insert_ne; [done|].
      intros <-. rewrite events_cons in Hnp.
      rewrite events_rem_bin in Hx by (by destruct (bins_apart prev b bs Hnd) as (_ & _ & _ & _ & _ & ?)).
      apply Hnp. rewrite elem_of_app in Hx |- *. rewrite list_elem_of_filter in Hx. tauto.
    + intros x Hx. rewrite events_cons in Hx. rewrite lookup_insert_ne by set_solver.
      apply Hch. set_solver.
    + etrans; [exact Hsd|]. by eapply same_data_insert.
  - rewrite bool_decide_false by done. rewrite events_cons in Hin.
    assert (Hin' : event ∈ events bs) by set_solver.
    pose proof (later_key _ _ _ _ _ _ Hb Hs Hin' He) as E.
    destruct fuel as [|fuel]; [cbn in Hf; lia|].
    destruct (IH (b_top b) be fuel He Hbe) as
      (p & c & ce & h1 & r & h2 & n & E1 & E2 & E3 & E4 & E5 & Hx2 & Hb2 & Hch & Hsd); try done.
    { by apply StronglySorted_inv in Hs as [? _]. }
    { cbn in Hf. lia. }
    exists p, c, ce, h1, r, h2, (Some (b_top b)). split_and!; try done.
    + cbn [find_bin]. rewrite (deref_some _ _ _ Hbe), (deref_some _ _ _ He). bsimpl.
      by rewrite ev_lt_klt, Hw, Hpr, E.
    + rewrite Hch, Hpe by (rewrite events_cons in Hnp; set_solver). destruct pe. cbn in *. by subst.
    + split; [done|]. exists (set_nextBin be n). split_and!; try done.
      eapply in_bin_frame; [exact Hl|]. intros x Hx. apply Hch. destruct (Hap x Hx). set_solver.
    + eapply changes_only_mono; [exact Hch|]. rewrite events_cons. unfold bin_events. set_solver.
Qed.

Lemma EventQueue_remove_ok h q event e bs :
  bins_at h (eq_head q) bs -> NoDup (events bs) -> StronglySorted bin_lt bs ->
  h !! event = Some e -> event ∈ events bs -> ev_queue e = Some (eq_id q) ->
  exists h' p, EventQueue_remove h q event = Ret (h', set_head q p) /\
    bins_at h' p (rem_bins event bs) /\ changes_only (events bs) h h' /\ same_data h h'.
Proof.
  intros Hb Hnd Hs He Hin Hq. unfold EventQueue_remove.
  destruct bs as [|b bs]; [by apply not_elem_of_nil in Hin|].
  pose proof Hb as (E0 & be & Hbe & Hw & Hpr & Hl & Hbs). rewrite E0 in *.
  rewrite (deref_some _ _ _ He), (deref_some _ _ _ Hbe). bsimpl.
  rewrite bool_decide_true by done. cbn [cassert]. bsimpl. cbn [rem_bins].
  rewrite events_cons in Hin. destruct (decide (event ∈ bin_events b)) as [Hev|Hev].
  - destruct (bin_key _ _ _ _ _ _ Hb Hev He) as [Ew Ep]. rewrite bool_decide_true by done.
    replace (ev_eq be e) with true
      by (unfold ev_eq; by rewrite Hw, Hpr, Ew, Ep, !Z.eqb_refl).
    destruct (removeItem_ok h event b bs Hb Hnd Hev) as (h1 & r & -> & Hb1 & Hch & Hsd). bsimpl.
    exists h1, r. split_and!; try done. eapply changes_only_mono; [exact Hch|].
    rewrite events_cons. set_solver.
  - assert (Hin' : event ∈ events bs) by set_solver. rewrite bool_decide_false by done.
    pose proof (later_key _ _ _ _ _ _ Hb Hs Hin' He) as E.
    replace (ev_eq be e) with false.
    2:{ symmetry. unfold ev_eq. apply klt_spec in E. rewrite Hw, Hpr.
        destruct (_ =? _) eqn:E1; [|done]. destruct (_ =? ev_priority e) eqn:E2; [|done].
        apply Z.eqb_eq in E1, E2. lia. }
    pose proof (events_size _ _ _ Hb Hnd) as Hsz. pose proof Hnd as Hnd0.
    rewrite events_cons in Hnd, Hsz.
    apply NoDup_app in Hnd as (Hnb & Hdis & Hnbs). rewrite length_app in Hsz.
    pose proof (bins_length bs). pose proof Hs as [Hs' _]%StronglySorted_inv.
    destruct (remove_after h event e bs (b_top b) be (size h)) as
      (p & c & ce & h1 & r & h2 & n & E1 & E2 & E3 & E4 & E5 & Hx2 & Hb2 & Hch & Hsd); try done.
    { apply NoDup_cons. split; [|done]. apply Hdis. by left. }
    { lia. }
    rewrite E1. bsimpl. rewrite E2. bsimpl. rewrite E3. cbn [negb]. rewrite E4. bsimpl.
    rewrite E5. bsimpl. exists h2, (eq_head q). split; [by destruct q|]. rewrite E0.
    split_and!; [|..|done].
    + split; [done|]. exists (set_nextBin be n). split_and!; try done.
      eapply in_bin_frame; [exact Hl|]. intros x Hx. apply Hch.
      apply NoDup_cons in Hnb as [Ht _]. specialize (Hdis x). unfold bin_events in Hdis. set_solver.
    + eapply changes_only_mono; [exact Hch|]. rewrite events_cons. unfold bin_events. set_solver.
Qed.

(** *** The abstract operations keep the order *)

Lemma ins_bins_lt a w p x bs :
  klt (b_when a) (b_pri a) w p = true -> Forall (bin_lt a) bs -> Forall (bin_lt a) (ins_bins w p x bs).
Proof.
  intros Ha. induction bs as [|b bs IH]; intros Hf; cbn [ins_bins]; [by constructor|].
  apply Forall_cons in Hf as [Hb Hf].
  destruct (klt w p (b_when b) (b_pri b)); [|destruct (klt (b_when b) (b_pri b) w p)];
    repeat apply Forall_cons_2; auto.
Qed.

Lemma ins_bins_sorted w p x bs :
  StronglySorted bin_lt bs -> StronglySorted bin_lt (ins_bins w p x bs).
Proof.
  induction 1 as [|b bs Hs IH Hf]; cbn [ins_bins]; [repeat constructor|].
  destruct (klt w p (b_when b) (b_pri b)) eqn:E; [|destruct (klt (b_when b) (b_pri b) w p) eqn:E'].
  - constructor; [by constructor|]. constructor; [done|]. eapply Forall_impl; [exact Hf|].
    intros c Hc. unfold bin_lt in *. cbn in *. rewrite klt_spec in *. lia.
  - constructor; [done|]. by apply ins_bins_lt.
  - constructor; [done|]. eapply Forall_impl; [exact Hf|].
    intros c Hc. unfold bin_lt in *. cbn in *. rewrite klt_spec, klt_false in *. lia.
Qed.

Lemma rem_bins_sub x a bs : Forall (bin_lt a) bs -> Forall (bin_lt a) (rem_bins x bs).
Proof.
  induction 1 as [|b bs Hb Hf IH]; cbn [rem_bins]; [done|]. case_bool_decide; [|by constructor].
  apply Forall_app. split; [|done]. unfold rem_bin. case_bool_decide; [destruct (b_rest b)|];
    cbn; repeat apply Forall_cons_2; auto.
Qed.

Lemma rem_bins_sorted x bs :
  StronglySorted bin_lt bs -> StronglySorted bin_lt (rem_bins x bs).
Proof.
  induction 1 as [|b bs Hs IH Hf]; cbn [rem_bins]; [constructor|]. case_bool_decide.
  - unfold rem_bin. case_bool_decide; [destruct (b_rest b)|]; cbn; try done;
      (constructor; [done|exact Hf]).
  - constructor; [done|]. by apply rem_bins_sub.
Qed.

(** ** The invariant *)

Lemma isSet_bit f k : 0 <= k -> isSet f (2 ^ k) = Z.testbit f k.
Proof.
  intros Hk. unfold isSet. apply eq_bool_prop_intro. rewrite !Is_true_true, negb_true_iff, Z.eqb_neq.
  split.
  - intros H. destruct (Z.testbit f k) eqn:E; [done|]. destruct H. apply Z.bits_inj'.
    intros i Hi. rewrite Z.land_spec, Z.testbit_0_l, Z.pow2_bits_eqb by lia.
    destruct (Z.eqb_spec k i) as [<-|]; [by rewrite E|by rewrite andb_false_r].
  - intros E H. apply (f_equal (fun z => Z.testbit z k)) in H.
    by rewrite Z.land_spec, Z.testbit_0_l, Z.pow2_bits_true, E in H by lia.
Qed.

Lemma isSet_set f g k : 0 <= k -> isSet (Z.lor f g) (2 ^ k) = isSet f (2 ^ k) || Z.testbit g k.
Proof. intros Hk. by rewrite !isSet_bit, Z.lor_spec by done. Qed.

Lemma isSet_clear f g k : 0 <= k -> isSet (Z.land f g) (2 ^ k) = isSet f (2 ^ k) && Z.testbit g k.
Proof. intros Hk. by rewrite !isSet_bit, Z.land_spec by done. Qed.

(** What setting and clearing the status flags does. *)
Lemma flags_set_scheduled e :
  scheduled (flags_set Scheduled e) = true /\ squashed (flags_set Scheduled e) = squashed e /\
  initialized (flags_set Scheduled e) = initialized e.
Proof.
  unfold scheduled, squashed, initialized, flags_set. cbn [ev_flags].
  change Scheduled with (2 ^ 1). change Squashed with (2 ^ 0). rewrite !isSet_set by lia.
  change (Z.testbit (2 ^ 1) 1) with true. change (Z.testbit (2 ^ 1) 0) with false.
  rewrite orb_true_r, orb_false_r, Z.land_lor_distr_l.
  change (Z.land (2 ^ 1) InitMask) with 0. by rewrite Z.lor_0_r.
Qed.

Lemma flags_clear_bit k e j :
  0 <= j -> isSet (ev_flags (flags_clear (2 ^ k) e)) (2 ^ j) =
    isSet (ev_flags e) (2 ^ j) && Z.testbit (wnot 16 (2 ^ k)) j.
Proof. intros Hj. cbn [flags_clear ev_flags]. by rewrite isSet_clear. Qed.

Lemma flags_clear_scheduled e :
  scheduled (flags_clear Scheduled e) = false /\ squashed (flags_clear Scheduled e) = squashed e /\
  initialized (flags_clear Scheduled e) = initialized e /\
  isSet (ev_flags (flags_clear Scheduled e)) AutoDelete = isSet (ev_flags e) AutoDelete /\
  isExitEvent (flags_clear Scheduled e) = isExitEvent e.
Proof.
  unfold scheduled, squashed, isExitEvent. change Scheduled with (2 ^ 1). change Squashed with (2 ^ 0).
  change AutoDelete with (2 ^ 2). change IsExitEvent with (2 ^ 4). rewrite !flags_clear_bit by lia.
  change (Z.testbit (wnot 16 (2 ^ 1)) 1) with false. change (Z.testbit (wnot 16 (2 ^ 1)) 0) with true.
  change (Z.testbit (wnot 16 (2 ^ 1)) 2) with true. change (Z.testbit (wnot 16 (2 ^ 1)) 4) with true.
  rewrite andb_false_r, !andb_true_r. split_and!; try done.
  unfold initialized. cbn [ev_flags flags_clear]. rewrite <- Z.land_assoc.
  by change (Z.land (wnot 16 (2 ^ 1)) InitMask) with InitMask.
Qed.

Lemma flags_clear_squashed e :
  scheduled (flags_clear Squashed e) = scheduled e /\ squashed (flags_clear Squashed e) = false /\
  initialized (flags_clear Squashed e) = initialized e /\
  isSet (ev_flags (flags_clear Squashed e)) AutoDelete = isSet (ev_flags e) AutoDelete.
Proof.
  unfold scheduled, squashed. change Scheduled with (2 ^ 1). change Squashed with (2 ^ 0).
  change AutoDelete with (2 ^ 2). rewrite !flags_clear_bit by lia.
  change (Z.testbit (wnot 16 (2 ^ 0)) 1) with true. change (Z.testbit (wnot 16 (2 ^ 0)) 0) with false.
  change (Z.testbit (wnot 16 (2 ^ 0)) 2) with true.
  rewrite andb_false_r, !andb_true_r. split_and!; try done.
  unfold initialized. cbn [ev_flags flags_clear]. rewrite <- Z.land_assoc.
  by change (Z.land (wnot 16 (2 ^ 0)) InitMask) with InitMask.
Qed.

(** The queue holds the bins [bs]: the links spell them out, they are sorted,
    no event is queued twice, the events marked as scheduled on this queue are
    exactly the queued ones, and none of them is in the past. *)
Record queue_inv (h : heap) (q : EventQueue) (bs : list bin) : Prop := {
  qi_rep : bins_at h (eq_head q) bs;
  qi_sorted : StronglySorted bin_lt bs;
  qi_nodup : NoDup (events bs ++ async_queue q);
  qi_async : forall x, x ∈ async_queue q -> is_Some (h !! x);
  qi_queued : forall x e, h !! x = Some e -> x ∈ events bs ++ async_queue q ->
    scheduled e = true /\ initialized e = true /\ ev_queue e = Some (eq_id q);
  qi_all : forall x e, h !! x = Some e -> scheduled e = true -> ev_queue e = Some (eq_id q) ->
    x ∈ events bs ++ async_queue q;
  qi_time : forall x e, h !! x = Some e -> x ∈ events bs -> eq_curTick q <= ev_when e
}.

(** An operation that concerns [x] only and leaves the asynchronous queue alone. *)
Lemma queue_inv_change h h' q p bs bs' x :
  queue_inv h q bs -> bins_at h' p bs' -> StronglySorted bin_lt bs' -> NoDup (events bs') ->
  x ∉ async_queue q ->
  (forall y, y <> x -> ev_data <$> h' !! y = ev_data <$> h !! y) ->
  (forall y, y <> x -> y ∈ events bs' <-> y ∈ events bs) ->
  (forall e, h' !! x = Some e ->
     (x ∈ events bs' -> scheduled e = true /\ initialized e = true /\
        ev_queue e = Some (eq_id q) /\ eq_curTick q <= ev_when e) /\
     (scheduled e = true -> ev_queue e = Some (eq_id q) -> x ∈ events bs')) ->
  queue_inv h' (set_head q p) bs'.
Proof.
  intros [Hrep Hs Hnd Has Hq Hall Ht] Hrep' Hs' Hnd' Hxa Hdat Hev Hx.
  assert (Hback : forall y e', y <> x -> h' !! y = Some e' -> exists e, h !! y = Some e /\
    scheduled e' = scheduled e /\ initialized e' = initialized e /\ ev_queue e' = ev_queue e /\
    ev_when e' = ev_when e).
  { intros y e' Hy He'. pose proof (Hdat y Hy) as E. rewrite He' in E.
    destruct (h !! y) as [e|]; [|done]. exists e. injection E as E1 E2 E3 E4.
    unfold scheduled, initialized. by rewrite E3. }
  apply NoDup_app in Hnd as (_ & Hdis & Hna). split; cbn; try done.
  - apply NoDup_app. split_and!; try done. intros y Hy Hya. destruct (decide (y = x)) as [->|Hne];
      [done|]. apply (Hdis y); [by apply Hev|done].
  - intros y Hy. assert (y <> x) by (by intros ->). destruct (Has y Hy) as [e He].
    pose proof (Hdat y H) as E. rewrite He in E. by destruct (h' !! y).
  - intros y e' He' Hy. destruct (decide (y = x)) as [->|Hne].
    + destruct (Hx e' He') as [H _]. apply elem_of_app in Hy as [Hy|Hy]; [|done]. naive_solver.
    + destruct (Hback y e' Hne He') as (e & He & -> & -> & -> & _). apply (Hq y e He).
      rewrite elem_of_app in Hy |- *. by rewrite <- Hev.
  - intros y e' He' Hsch Hqu. destruct (decide (y = x)) as [->|Hne].
    + apply elem_of_app. left. by apply (Hx e' He').
    + destruct (Hback y e' Hne He') as (e & He & E1 & E2 & E3 & _).
      rewrite elem_of_app, Hev by done. rewrite <- elem_of_app. apply (Hall y e He); congruence.
  - intros y e' He' Hy. destruct (decide (y = x)) as [->|Hne].
    + by apply (Hx e' He').
    + destruct (Hback y e' Hne He') as (e & He & _ & _ & _ & ->). apply (Ht y e He). by apply Hev.
Qed.

(** ** Operations against the abstract queue *)

(** Flags are not part of the links. *)
Definition ev_links (e : Event) : option nat * option nat * Z * Z :=
  (nextBin e, nextInBin e, ev_when e, ev_priority e).

Lemma bins_relabel h p bs x e e' :
  h !! x = Some e -> ev_links e' = ev_links e -> bins_at h p bs -> bins_at (<[x:=e']> h) p bs.
Proof.
  intros Hx [= E1 E2 E3 E4].
  assert (Hlk : forall y f, h !! y = Some f -> exists f', <[x:=e']> h !! y = Some f' /\
    nextBin f' = nextBin f /\ nextInBin f' = nextInBin f /\ ev_when f' = ev_when f /\
    ev_priority f' = ev_priority f).
  { intros y f Hy. destruct (decide (y = x)) as [->|Hne].
    - exists e'. rewrite lookup_insert_eq. by simplify_eq.
    - exists f. by rewrite lookup_insert_ne. }
  assert (Hin : forall w pr l p, in_bin h w pr p l -> in_bin (<[x:=e']> h) w pr p l).
  { intros w pr l. induction l as [|y l IH]; intros p'; [done|].
    intros (Hp & f & Hf & Hw & Hpr & Hl). split; [done|].
    destruct (Hlk y f Hf) as (f' & ? & ? & F2 & ? & ?). exists f'. rewrite F2.
    split_and!; try congruence. by apply IH. }
  revert p. induction bs as [|b bs IH]; intros p; [done|].
  intros (Hp & f & Hf & Hw & Hpr & Hl & Hb). split; [done|].
  destruct (Hlk _ f Hf) as (f' & ? & F1 & F2 & ? & ?). exists f'. rewrite F1, F2.
  split_and!; try congruence; [by apply Hin|by apply IH].
Qed.

Lemma queued_not_async h q bs x : queue_inv h q bs -> x ∈ events bs -> x ∉ async_queue q.
Proof. intros Hi Hx Ha. apply (qi_nodup _ _ _) in Hi as (_ & Hd & _)%NoDup_app. by apply (Hd x). Qed.

Lemma events_nodup h q bs : queue_inv h q bs -> NoDup (events bs).
Proof. intros Hi. by apply (qi_nodup _ _ _) in Hi as (? & _ & _)%NoDup_app. Qed.

Lemma unscheduled_absent h q bs x e :
  queue_inv h q bs -> h !! x = Some e -> scheduled e = false -> x ∉ events bs ++ async_queue q.
Proof. intros Hi Hx Hs Hin. destruct (qi_queued _ _ _ Hi x e Hx Hin). congruence. Qed.

Lemma ins_nodup w p x bs :
  NoDup (events bs) -> x ∉ events bs -> NoDup (events (ins_bins w p x bs)).
Proof.
  induction bs as [|b bs IH]; intros Hnd Hn; cbn [ins_bins].
  - cbn. apply NoDup_singleton.
  - destruct (klt w p (b_when b) (b_pri b)); [|destruct (klt (b_when b) (b_pri b) w p)].
    + rewrite events_cons. by apply NoDup_cons.
    + rewrite events_cons in *. apply NoDup_app in Hnd as (H1 & H2 & H3).
      apply NoDup_app. rewrite elem_of_app in Hn. split_and!; [done| |apply IH; [done|tauto]].
      intros y Hy Hy2. apply events_ins in Hy2 as [->|Hy2]; [tauto|by apply (H2 y)].
    + rewrite events_cons in *. by apply NoDup_cons.
Qed.

(** Both [schedule] and [reschedule] set the time of an event that is not linked
    into the queue, insert it and mark it.  The queue held [bs0] before the
    operation, and holds [bs] without [x] now. *)
Lemma insert_marked h0 q0 bs0 h hd bs x e when f :
  queue_inv h0 q0 bs0 -> bins_at h hd bs -> StronglySorted bin_lt bs -> NoDup (events bs) ->
  x ∉ events bs -> x ∉ async_queue q0 ->
  (forall y, y <> x -> y ∈ events bs <-> y ∈ events bs0) ->
  (forall y, y <> x -> ev_data <$> h !! y = ev_data <$> h0 !! y) ->
  h !! x = Some e -> initialized e = true -> eq_curTick q0 <= when ->
  (forall e0, ev_links (f e0) = ev_links e0 /\ ev_queue (f e0) = ev_queue e0 /\
     (initialized e0 = true -> initialized (f e0) = true) /\ scheduled (f e0) = true) ->
  let q := set_head q0 hd in
  exists h1 h2 p e2,
    store h x (fun e => setWhen e when (eq_id q)) = Ret h1 /\
    EventQueue_insert h1 q x = Ret (h2, set_head q0 p) /\ h2 !! x = Some e2 /\
    ev_data e2 = ev_data (setWhen e when (eq_id q)) /\
    queue_inv (<[x := f e2]> h2) (set_head q0 p) (ins_bins when (ev_priority e) x bs) /\
    (forall y, y <> x -> ev_data <$> h2 !! y = ev_data <$> h0 !! y).
Proof.
  intros Hi Hb Hst Hnd Hn Hna Hev Hdat Hx Hini Ht Hf q.
  set (e1 := setWhen e when (eq_id q)). set (h1 := <[x:=e1]> h).
  assert (Hb1 : bins_at h1 (eq_head q) bs).
  { eapply bins_frame; [exact Hb|]. intros y Hy. apply lookup_insert_ne. by intros <-. }
  assert (Hx1 : h1 !! x = Some e1) by apply lookup_insert_eq.
  destruct (EventQueue_insert_ok h1 q x e1 bs Hb1 Hnd Hx1 Hn) as (h2 & p & E & Hb2 & _ & Hsd).
  pose proof (Hsd x) as Ed. rewrite Hx1 in Ed.
  destruct (h2 !! x) as [e2|] eqn:Hx2; [|done]. apply (inj Some) in Ed.
  exists h1, h2, p, e2. destruct (Hf e2) as (F1 & F2 & F3 & F4).
  assert (Hoth : forall y, y <> x -> ev_data <$> h2 !! y = ev_data <$> h0 !! y).
  { intros y Hy. rewrite Hsd. unfold h1. rewrite lookup_insert_ne by done. by apply Hdat. }
  split; [exact (store_some h x e _ Hx)|]. split; [done|]. split; [done|]. split; [done|].
  split; [|done].
  assert (E2 : ev_when e2 = when /\ initialized e2 = true /\ ev_queue e2 = Some (eq_id q)).
  { injection Ed as -> _ Ef ->. unfold initialized. by rewrite Ef. }
  destruct E2 as (Ew & Ein & Eq). pose proof F1 as [= _ _ Fw _].
  apply (queue_inv_change h0 _ q0 p bs0 _ x Hi); try done.
  - by apply (bins_relabel h2 p _ x e2).
  - by apply ins_bins_sorted.
  - by apply ins_nodup.
  - intros y Hy. rewrite lookup_insert_ne by done. by apply Hoth.
  - intros y Hy. rewrite events_ins, Hev by done. tauto.
  - intros e' [= <-]%lookup_insert_rev. rewrite events_ins. split; [|by auto].
    intros _. split_and!; [done|by apply F3|by rewrite F2|lia].
Qed.

Lemma rem_bins_absent x bs : x ∉ events bs -> rem_bins x bs = bs.
Proof.
  induction bs as [|b bs IH]; [done|]. rewrite events_cons. intros [H1 H2]%not_elem_of_app.
  cbn [rem_bins]. rewrite bool_decide_false by done. by rewrite IH.
Qed.

Lemma schedule_ok par cur h q bs x e when glob :
  queue_inv h q bs -> h !! x = Some e -> scheduled e = false -> initialized e = true ->
  eq_curTick q <= when -> par && (negb cur || glob) = false ->
  exists h' p, schedule par cur h q x when glob = Ret (h', set_head q p) /\
    queue_inv h' (set_head q p) (ins_bins when (ev_priority e) x bs) /\
    ev_data <$> h' !! x =
      Some (when, ev_priority e, Z.lor (ev_flags e) Scheduled, Some (eq_id q)) /\
    forall y, y <> x -> ev_data <$> h' !! y = ev_data <$> h !! y.
Proof.
  intros Hi Hx Hs Hini Ht Hpar.
  pose proof (unscheduled_absent _ _ _ _ _ Hi Hx Hs) as [Hn Hna]%not_elem_of_app.
  destruct (insert_marked h q bs h (eq_head q) bs x e when (flags_set Scheduled) Hi
    (qi_rep _ _ _ Hi) (qi_sorted _ _ _ Hi) (events_nodup _ _ _ Hi)) as
    (h1 & h2 & p & e2 & E1 & E2 & Hx2 & Hd2 & Hi2 & Hoth); try done.
  { intros e0. destruct (flags_set_scheduled e0) as (? & ? & E). rewrite E. by split_and!. }
  unfold schedule. rewrite (proj2 (Z.leb_le _ _) Ht). cbn [cassert]. bsimpl.
  rewrite (deref_some _ _ _ Hx). bsimpl. rewrite Hs, Hini. cbn [negb cassert]. bsimpl.
  assert (Eqq : set_head q (eq_head q) = q) by (by destruct q). rewrite Eqq in E1, E2.
  rewrite E1. bsimpl. rewrite Hpar, E2. bsimpl. rewrite (store_some _ _ _ _ Hx2). bsimpl.
  exists (<[x:=flags_set Scheduled e2]> h2), p. split_and!; [done|done| |].
  - rewrite lookup_insert_eq. cbn. injection Hd2 as E3 E4 E5 E6.
    unfold ev_data. cbn. by rewrite E3, E4, E5, E6.
  - intros y Hy. rewrite lookup_insert_ne by done. by apply Hoth.
Qed.

(** An event taken out of the queue. *)
Lemma queue_inv_removed h h' q p bs x :
  queue_inv h q bs -> x ∈ events bs -> bins_at h' p (rem_bins x bs) ->
  (forall y, y <> x -> ev_data <$> h' !! y = ev_data <$> h !! y) ->
  (forall e, h' !! x = Some e -> scheduled e = false) ->
  queue_inv h' (set_head q p) (rem_bins x bs).
Proof.
  intros Hi Hin Hb Hoth Hx. pose proof (events_nodup _ _ _ Hi) as Hnd.
  apply (queue_inv_change h h' q p bs _ x Hi Hb); try done.
  - apply rem_bins_sorted, (qi_sorted _ _ _ Hi).
  - rewrite events_rem by done. by apply NoDup_filter.
  - by eapply queued_not_async.
  - intros y Hy. rewrite events_rem, list_elem_of_filter by done. tauto.
  - intros e He. specialize (Hx e He). split; [|congruence].
    rewrite events_rem, list_elem_of_filter by done. tauto.
Qed.

Lemma deschedule_ok par cur h q bs x e :
  queue_inv h q bs -> h !! x = Some e -> x ∈ events bs -> negb par || cur = true ->
  exists h' p, deschedule par cur h q x = Ret (h', set_head q p) /\
    queue_inv h' (set_head q p) (rem_bins x bs) /\
    (forall y, y <> x -> ev_data <$> h' !! y = ev_data <$> h !! y) /\
    (if isSet (ev_flags e) AutoDelete then h' !! x = None
     else exists e', h' !! x = Some e' /\ scheduled e' = false /\ squashed e' = false).
Proof.
  intros Hi Hx Hin Hpar.
  destruct (qi_queued _ _ _ Hi x e Hx) as (Hs & Hini & Hq); [apply elem_of_app; by left|].
  destruct (EventQueue_remove_ok h q x e bs (qi_rep _ _ _ Hi) (events_nodup _ _ _ Hi)
    (qi_sorted _ _ _ Hi) Hx Hin Hq) as (h1 & p & E1 & Hb1 & _ & Hsd).
  pose proof (Hsd x) as Ed. rewrite Hx in Ed. destruct (h1 !! x) as [e1|] eqn:Hx1; [|done].
  apply (inj Some) in Ed. pose proof Ed as [= _ _ Ef _].
  set (e2 := flags_clear Squashed e1). set (e3 := flags_clear Scheduled e2).
  assert (Hx3 : <[x:=e3]> (<[x:=e2]> h1) !! x = Some e3) by apply lookup_insert_eq.
  destruct (flags_clear_squashed e1) as (_ & Q2 & _ & Q4).
  destruct (flags_clear_scheduled e2) as (S1 & S2 & _ & S4 & _).
  assert (Hb3 : bins_at (<[x:=e3]> (<[x:=e2]> h1)) p (rem_bins x bs)).
  { rewrite insert_insert_eq. by apply (bins_relabel h1 p _ x e1). }
  assert (Hoth : forall y, y <> x ->
    ev_data <$> <[x:=e3]> (<[x:=e2]> h1) !! y = ev_data <$> h !! y).
  { intros y Hy. rewrite !lookup_insert_ne by done. apply Hsd. }
  unfold deschedule. rewrite (deref_some _ _ _ Hx). bsimpl. rewrite Hs, Hini, Hpar.
  cbn [cassert]. bsimpl. rewrite E1. bsimpl. rewrite (store_some _ _ _ _ Hx1). bsimpl.
  rewrite (store_some _ _ e2) by apply lookup_insert_eq. bsimpl. fold e2 e3.
  rewrite (deref_some _ _ _ Hx3). bsimpl.
  assert (Ead : isSet (ev_flags e3) AutoDelete = isSet (ev_flags e) AutoDelete)
    by (unfold e3; rewrite S4; unfold e2; by rewrite Q4, Ef).
  rewrite Ead. destruct (isSet (ev_flags e) AutoDelete).
  - unfold free. rewrite (deref_some _ _ _ Hx3). bsimpl. unfold e3 at 2. rewrite S1.
    cbn [negb cassert]. bsimpl. do 2 eexists. split_and!; [done| | |apply lookup_delete_eq].
    + apply (queue_inv_removed h _ q p bs x Hi Hin).
      * eapply bins_frame; [exact Hb3|]. intros y Hy. apply lookup_delete_ne. intros <-.
        rewrite events_rem, list_elem_of_filter in Hy by (by eapply events_nodup). tauto.
      * intros y Hy. rewrite lookup_delete_ne by done. by apply Hoth.
      * intros e' He'. by rewrite lookup_delete_eq in He'.
    + intros y Hy. rewrite lookup_delete_ne by done. by apply Hoth.
  - bsimpl. do 2 eexists. split_and!; [done| |done|].
    + apply (queue_inv_removed h _ q p bs x Hi Hin Hb3 Hoth).
      intros e'. rewrite Hx3. by intros [= <-].
    + exists e3. unfold e3. rewrite S2. by split_and!.
Qed.

Lemma reschedule_ok par cur h q bs x e when always :
  queue_inv h q bs -> h !! x = Some e -> initialized e = true -> eq_curTick q <= when ->
  negb par || cur = true -> always || scheduled e = true ->
  (scheduled e = true -> x ∈ events bs) ->
  exists h' p, reschedule par cur h q x when always = Ret (h', set_head q p) /\
    queue_inv h' (set_head q p) (ins_bins when (ev_priority e) x (rem_bins x bs)) /\
    (exists e', h' !! x = Some e' /\ ev_when e' = when /\ scheduled e' = true /\
       squashed e' = false) /\
    forall y, y <> x -> ev_data <$> h' !! y = ev_data <$> h !! y.
Proof.
  intros Hi Hx Hini Ht Hpar Hal Hsch. pose proof (events_nodup _ _ _ Hi) as Hnd.
  set (f := fun e => flags_set Scheduled (flags_clear Squashed e)).
  assert (Hf : forall e0, ev_links (f e0) = ev_links e0 /\ ev_queue (f e0) = ev_queue e0 /\
    (initialized e0 = true -> initialized (f e0) = true) /\ scheduled (f e0) = true).
  { intros e0. destruct (flags_set_scheduled (flags_clear Squashed e0)) as (S1 & _ & S3).
    destruct (flags_clear_squashed e0) as (_ & _ & Q3 & _). unfold f. rewrite S3, Q3.
    by split_and!. }
  assert (Hrem : exists h1 p1 e1, (if scheduled e then EventQueue_remove h q x else Ret (h, q)) =
      Ret (h1, set_head q p1) /\ bins_at h1 p1 (rem_bins x bs) /\ h1 !! x = Some e1 /\
      ev_data e1 = ev_data e /\ x ∉ async_queue q /\
      forall y, y <> x -> ev_data <$> h1 !! y = ev_data <$> h !! y).
  { destruct (scheduled e) eqn:Hs.
    - specialize (Hsch eq_refl).
      destruct (qi_queued _ _ _ Hi x e Hx) as (_ & _ & Hq); [apply elem_of_app; by left|].
      destruct (EventQueue_remove_ok h q x e bs (qi_rep _ _ _ Hi) Hnd (qi_sorted _ _ _ Hi) Hx
        Hsch Hq) as (h1 & p1 & E1 & Hb1 & _ & Hsd).
      pose proof (Hsd x) as Ed. rewrite Hx in Ed. destruct (h1 !! x) as [e1|] eqn:Hx1; [|done].
      apply (inj Some) in Ed. exists h1, p1, e1. split_and!; try done.
      by eapply queued_not_async.
    - pose proof (unscheduled_absent _ _ _ _ _ Hi Hx Hs) as [Hn Hna]%not_elem_of_app.
      exists h, (eq_head q), e. split_and!; try done; [by destruct q|].
      rewrite (rem_bins_absent x bs Hn). apply (qi_rep _ _ _ Hi). }
  destruct Hrem as (h1 & p1 & e1 & E1 & Hb1 & Hx1 & Hd1 & Hna & Hoth1).
  pose proof Hd1 as [= Ew Ep Ef Eq].
  assert (Hini1 : initialized e1 = true) by (unfold initialized; by rewrite Ef).
  destruct (insert_marked h q bs h1 p1 (rem_bins x bs) x e1 when f Hi Hb1) as
    (h2 & h3 & p & e3 & E2 & E3 & Hx3 & Hd3 & Hi3 & Hoth); try done.
  { apply rem_bins_sorted, (qi_sorted _ _ _ Hi). }
  { rewrite events_rem by done. by apply NoDup_filter. }
  { rewrite events_rem, list_elem_of_filter by done. tauto. }
  { intros y Hy. rewrite events_rem, list_elem_of_filter by done. tauto. }
  rewrite Ep in Hi3. unfold reschedule. rewrite (proj2 (Z.leb_le _ _) Ht). cbn [cassert]. bsimpl.
  rewrite (deref_some _ _ _ Hx). bsimpl. rewrite Hal, Hini, Hpar. cbn [cassert]. bsimpl.
  rewrite E1. bsimpl. rewrite E2. bsimpl. rewrite E3. bsimpl.
  rewrite (store_some _ _ _ _ Hx3). bsimpl. rewrite (store_some _ _ (flags_clear Squashed e3))
    by apply lookup_insert_eq. bsimpl. rewrite insert_insert_eq. fold (f e3).
  exists (<[x:=f e3]> h3), p. split_and!; [done|done| |].
  - exists (f e3). rewrite lookup_insert_eq. injection Hd3 as Ew3 _ _ _.
    destruct (flags_set_scheduled (flags_clear Squashed e3)) as (S1 & S2 & _).
    destruct (flags_clear_squashed e3) as (_ & Q2 & _ & _). unfold f. rewrite S2. by split_and!.
  - intros y Hy. rewrite lookup_insert_ne by done. by apply Hoth.
Qed.

(** ** Servicing *)

Lemma queue_inv_tick h q bs t :
  queue_inv h q bs -> (forall x e, h !! x = Some e -> x ∈ events bs -> t <= ev_when e) ->
  queue_inv h (setCurTick q t) bs.
Proof. intros [] Ht. by split. Qed.

(** Freeing an event that is not queued, or changing its flags. *)
Lemma queue_inv_free h q bs x e :
  queue_inv h q bs -> h !! x = Some e -> scheduled e = false -> queue_inv (delete x h) q bs.
Proof.
  intros Hi Hx Hs. pose proof (unscheduled_absent _ _ _ _ _ Hi Hx Hs) as [Hn Hna]%not_elem_of_app.
  assert (Eq : set_head q (eq_head q) = q) by (by destruct q). rewrite <- Eq.
  apply (queue_inv_change h _ q (eq_head q) bs bs x Hi); try done.
  - eapply bins_frame; [exact (qi_rep _ _ _ Hi)|]. intros y Hy. apply lookup_delete_ne. by intros <-.
  - apply (qi_sorted _ _ _ Hi).
  - by eapply events_nodup.
  - intros y Hy. by rewrite lookup_delete_ne.
  - intros e'. by rewrite lookup_delete_eq.
Qed.

Lemma queue_inv_flags h q bs x e e' :
  queue_inv h q bs -> h !! x = Some e -> scheduled e = false -> scheduled e' = false ->
  ev_links e' = ev_links e -> queue_inv (<[x:=e']> h) q bs.
Proof.
  intros Hi Hx Hs Hs' Hl.
  pose proof (unscheduled_absent _ _ _ _ _ Hi Hx Hs) as [Hn Hna]%not_elem_of_app.
  assert (Eq : set_head q (eq_head q) = q) by (by destruct q). rewrite <- Eq.
  apply (queue_inv_change h _ q (eq_head q) bs bs x Hi); try done.
  - apply (bins_relabel h _ bs x e e'); try done. apply (qi_rep _ _ _ Hi).
  - apply (qi_sorted _ _ _ Hi).
  - by eapply events_nodup.
  - intros y Hy. by rewrite lookup_insert_ne.
  - intros f [= <-]%lookup_insert_rev. split; [done|congruence].
Qed.

(** Taking the first event off the queue. *)
Lemma pop_ok h q b bs :
  queue_inv h q (b :: bs) ->
  exists he h1 h2 p e2,
    eq_head q = Some (b_top b) /\ deref h (b_top b) = Ret he /\
    store h (b_top b) (flags_clear Scheduled) = Ret h1 /\
    match nextInBin he with
    | Some n => h ← store h1 n (fun e => set_nextBin e (nextBin he));
                Ret (h, set_head q (Some n))
    | None => Ret (h1, set_head q (nextBin he))
    end = Ret (h2, set_head q p) /\
    h2 !! b_top b = Some e2 /\ ev_data e2 = ev_data (flags_clear Scheduled he) /\
    queue_inv h2 (set_head q p) (rem_bins (b_top b) (b :: bs)) /\
    (forall y, y <> b_top b -> ev_data <$> h2 !! y = ev_data <$> h !! y).
Proof.
  intros Hi. pose proof (qi_rep _ _ _ Hi) as Hb. pose proof (events_nodup _ _ _ Hi) as Hnd.
  pose proof Hb as (E0 & he & Hhe & Hw & Hpr & Hl & Hbs).
  set (x := b_top b) in *. set (e2 := flags_clear Scheduled he). set (h1 := <[x:=e2]> h).
  assert (Hb1 : bins_at h1 (Some x) (b :: bs)).
  { rewrite E0 in Hb. by apply (bins_relabel h (Some x) (b :: bs) x he e2). }
  assert (Hin : x ∈ bin_events b) by (by left).
  destruct (removeItem_ok h1 x b bs Hb1 Hnd Hin) as (h2 & r & E2 & Hb2 & Hch & Hsd).
  assert (Hx1 : h1 !! x = Some e2) by apply lookup_insert_eq.
  assert (Erm : rem_bins x (b :: bs) = option_list (rem_bin x b) ++ bs).
  { cbn [rem_bins]. by rewrite bool_decide_true. }
  pose proof (Hsd x) as Ed. rewrite Hx1 in Ed. destruct (h2 !! x) as [e3|] eqn:Hx2; [|done].
  apply (inj Some) in Ed.
  assert (Hoth : forall y, y <> x -> ev_data <$> h2 !! y = ev_data <$> h !! y).
  { intros y Hy. rewrite Hsd. unfold h1. by rewrite lookup_insert_ne. }
  exists he, h1, h2, r, e3. split; [done|]. split; [by apply deref_some|].
  split; [exact (store_some h x he _ Hhe)|]. split_and!; try done.
  - unfold removeItem in E2. fold x in E2. rewrite (deref_some _ _ _ Hx1) in E2. cbn [mbind res_bind] in E2.
    rewrite bool_decide_true in E2 by done. change (nextInBin e2) with (nextInBin he) in E2.
    change (nextBin e2) with (nextBin he) in E2. destruct (nextInBin he) as [n|].
    + destruct (store h1 n _) as [h3|]; [|done]. cbn in E2 |- *. by injection E2 as <- <-.
    + by injection E2 as <- <-.
  - apply (queue_inv_removed h h2 q r (b :: bs) x Hi); try done.
    + rewrite events_cons. apply elem_of_app. by left.
    + by rewrite Erm.
    + intros e. rewrite Hx2. intros [= <-]. injection Ed as _ _ Ef _. unfold scheduled.
      rewrite Ef. apply (flags_clear_scheduled he).
Qed.

(** The exit events that [serviceOne] accepts. *)
Definition exit_ok (e : Event) : bool :=
  negb (isExitEvent e && isSet (ev_flags e) AutoDelete && isSet (ev_flags e) IsMainQueue).

(** What the queue expects of the action of an event: it may use the queue as it
    likes through its operations, but leaves the current tick alone and does
    not free the event. *)
Definition handler_ok {W} (process : nat -> W -> heap -> EventQueue -> res (W * heap * EventQueue)) :=
  forall x w h q bs e,
    queue_inv h q bs -> h !! x = Some e -> scheduled e = false -> exit_ok e = true ->
    exists w' h' q' bs' e', process x w h q = Ret (w', h', q') /\ queue_inv h' q' bs' /\
      eq_curTick q' = eq_curTick q /\ h' !! x = Some e' /\ exit_ok e' = true.

(** An event in no later bin than another. *)
Lemma first_is_least h q b bs y f e :
  queue_inv h q (b :: bs) -> h !! b_top b = Some e -> y ∈ events (b :: bs) -> h !! y = Some f ->
  ev_le e f = true.
Proof.
  intros Hi He Hy Hf. pose proof (qi_rep _ _ _ Hi) as Hb.
  destruct (bin_key _ _ _ _ _ _ Hb ltac:(by left) He) as [Ew Ep].
  unfold ev_le. rewrite Ew, Ep, orb_true_iff, andb_true_iff, Z.ltb_lt, Z.eqb_eq, Z.leb_le.
  rewrite events_cons in Hy. apply elem_of_app in Hy as [Hy|Hy].
  - destruct (bin_key _ _ _ _ _ _ Hb Hy Hf). lia.
  - pose proof (later_key _ _ _ _ _ _ Hb (qi_sorted _ _ _ Hi) Hy Hf) as E. apply klt_spec in E. lia.
Qed.

Lemma ev_le_when e f : ev_le e f = true -> ev_when e <= ev_when f.
Proof. unfold ev_le. rewrite orb_true_iff, andb_true_iff, Z.ltb_lt, Z.eqb_eq. lia. Qed.

(** The end of [serviceOne]. *)
Lemma autodelete_ok x h f :
  h !! x = Some f ->
  exists h', (if isSet (ev_flags f) AutoDelete && negb (scheduled f) then free h x else Ret h) =
    Ret h' /\ (forall q bs, queue_inv h q bs -> queue_inv h' q bs) /\
    forall y, y <> x -> h' !! y = h !! y.
Proof.
  intros Hf. destruct (scheduled f) eqn:Hsf; [rewrite andb_false_r; eauto|].
  rewrite andb_true_r. destruct (isSet (ev_flags f) AutoDelete); [|eauto].
  exists (delete x h). unfold free. rewrite (deref_some _ _ _ Hf). bsimpl. rewrite Hsf.
  split; [done|]. split; [|intros y Hy; by apply lookup_delete_ne].
  intros q bs Hi. by eapply queue_inv_free.
Qed.

Lemma exit_ok_clear e : exit_ok (flags_clear Scheduled e) = exit_ok e.
Proof.
  unfold exit_ok, isExitEvent. change Scheduled with (2 ^ 1). change IsExitEvent with (2 ^ 4).
  change AutoDelete with (2 ^ 2). change IsMainQueue with (2 ^ 5). rewrite !flags_clear_bit by lia.
  change (Z.testbit (wnot 16 (2 ^ 1)) 4) with true. change (Z.testbit (wnot 16 (2 ^ 1)) 2) with true.
  change (Z.testbit (wnot 16 (2 ^ 1)) 5) with true. by rewrite !andb_true_r.
Qed.

(** The current tick moves to the time of the first event. *)
Lemma tick_forward h h2 q p b bs e :
  queue_inv h q (b :: bs) -> h !! b_top b = Some e ->
  (forall y, y <> b_top b -> ev_data <$> h2 !! y = ev_data <$> h !! y) ->
  queue_inv h2 (set_head q p) (rem_bins (b_top b) (b :: bs)) ->
  queue_inv h2 (setCurTick (set_head q p) (ev_when e)) (rem_bins (b_top b) (b :: bs)).
Proof.
  intros Hi He Hoth Hi2. apply queue_inv_tick; [done|]. intros y f Hf Hy.
  assert (Hnd : NoDup (events (b :: bs))) by (by eapply events_nodup).
  rewrite events_rem, list_elem_of_filter in Hy by done. destruct Hy as [Hne Hy].
  pose proof (Hoth y Hne) as Ed. rewrite Hf in Ed. destruct (h !! y) as [f0|] eqn:Hf0; [|done].
  injection Ed as -> _ _ _. apply ev_le_when. by eapply first_is_least.
Qed.

Lemma serviceOne_ok {W} process (w : W) h q b bs e :
  handler_ok process -> queue_inv h q (b :: bs) -> h !! b_top b = Some e -> exit_ok e = true ->
  exists stop w' h' q' bs', serviceOne process w h q = Ret (stop, w', h', q') /\
    queue_inv h' q' bs' /\ eq_curTick q <= eq_curTick q' /\
    if squashed e
    then w' = w /\ stop = None /\ eq_curTick q' = eq_curTick q /\
         bs' = rem_bins (b_top b) (b :: bs) /\
         (forall y, y <> b_top b -> ev_data <$> h' !! y = ev_data <$> h !! y)
    else eq_curTick q' = ev_when e /\
         exists h1 q1 h2 e2, queue_inv h1 q1 (rem_bins (b_top b) (b :: bs)) /\
           eq_curTick q1 = ev_when e /\ process (b_top b) w h1 q1 = Ret (w', h2, q') /\
           (forall y, y <> b_top b -> ev_data <$> h1 !! y = ev_data <$> h !! y) /\
           h2 !! b_top b = Some e2 /\ (forall bs2, queue_inv h2 q' bs2 -> queue_inv h' q' bs2) /\
           stop = (if isExitEvent e2 then Some (b_top b) else None) /\
           forall y, y <> b_top b -> h' !! y = h2 !! y.
Proof.
  intros Hp Hi He Hex.
  destruct (pop_ok h q b bs Hi) as (he & h1 & h2 & p & e2 & E0 & E1 & E2 & E3 & Hx2 & Hd2 & Hi2 & Hoth).
  set (x := b_top b) in *. assert (he = e) as -> by (unfold deref in E1; rewrite He in E1; congruence).
  destruct (flags_clear_scheduled e) as (S1 & S2 & S3 & S4 & S5). injection Hd2 as Dw Dp Df Dq.
  assert (Hs2 : scheduled e2 = false) by (unfold scheduled; rewrite Df; exact S1).
  assert (Hsq2 : squashed e2 = squashed e) by (unfold squashed at 1; rewrite Df; exact S2).
  unfold serviceOne. rewrite E0, E1. bsimpl. rewrite E2. bsimpl. rewrite E3. bsimpl.
  rewrite (deref_some _ _ _ Hx2). bsimpl. rewrite Hsq2. destruct (squashed e) eqn:Hsq; cbn [negb].
  - rewrite (store_some _ _ _ _ Hx2). bsimpl. rewrite (deref_some _ _ (flags_clear Squashed e2))
      by apply lookup_insert_eq. bsimpl.
    destruct (flags_clear_squashed e2) as (Q1 & _).
    assert (Hi3 : queue_inv (<[x:=flags_clear Squashed e2]> h2) (set_head q p)
                    (rem_bins x (b :: bs))).
    { apply (queue_inv_flags h2 _ _ x e2); try done. congruence. }
    destruct (autodelete_ok x (<[x:=flags_clear Squashed e2]> h2) (flags_clear Squashed e2))
      as (h' & -> & Hi' & Hy); [apply lookup_insert_eq|]. bsimpl.
    do 5 eexists. split; [done|]. split; [exact (Hi' _ _ Hi3)|]. split; [done|]. split_and!; try done.
    intros y Hne. rewrite Hy, lookup_insert_ne by done. by apply Hoth.
  - assert (Ew : ev_when e2 = ev_when e) by done. rewrite Ew.
    set (q1 := setCurTick (set_head q p) (ev_when e)).
    assert (Hi1 : queue_inv h2 q1 (rem_bins x (b :: bs))).
    { by apply (tick_forward h h2 q p b bs e). }
    assert (Hex2 : exit_ok e2 = true).
    { rewrite <- (exit_ok_clear e) in Hex. unfold exit_ok, isExitEvent in *. by rewrite Df. }
    destruct (Hp x w h2 q1 _ e2 Hi1 Hx2 Hs2 Hex2) as (w' & h3 & q' & bs' & e3 & Ep & Hi3 & Ht & Hx3 & Hex3).
    rewrite Ep. bsimpl. rewrite (deref_some _ _ _ Hx3). bsimpl.
    assert (Htick : eq_curTick q <= eq_curTick q').
    { rewrite Ht. cbn. apply (qi_time _ _ _ Hi x e He). rewrite events_cons. apply elem_of_app. left. by left. }
    destruct (isExitEvent e3) eqn:Hexit.
    + assert (Ha : negb (isSet (ev_flags e3) AutoDelete) || negb (isSet (ev_flags e3) IsMainQueue) = true).
      { unfold exit_ok in Hex3. rewrite Hexit in Hex3. cbn [andb] in Hex3. by rewrite negb_andb in Hex3. }
      rewrite Ha. cbn [cassert]. bsimpl. do 5 eexists. split; [done|]. split; [exact Hi3|].
      split; [done|]. split; [done|]. exists h2, q1, h3, e3. rewrite Hexit. by split_and!.
    + bsimpl. rewrite (deref_some _ _ _ Hx3). bsimpl.
      destruct (autodelete_ok x h3 e3 Hx3) as (h' & -> & Hi' & Hy). bsimpl.
      do 5 eexists. split; [done|]. split; [exact (Hi' _ _ Hi3)|]. split; [done|]. split; [done|].
      exists h2, q1, h3, e3. rewrite Hexit. split_and!; try done. intros bs2. apply Hi'.
Qed.

(** ** Properties *)

(** C7. Events are serviced in order and time never runs backwards.  On a
    non-empty queue [serviceOne] takes the event that comes first by tick and
    priority.  An event that was not squashed is processed at its own tick, with
    itself already off the queue; a squashed one is dropped without an action
    and without a change of time.  Whatever a well-behaved action schedules, the
    queue is well formed again afterwards and the current tick has not
    decreased. *)
Theorem serviceOne_order {W} process (w : W) h q bs :
  handler_ok process -> queue_inv h q bs -> bs <> [] ->
  (forall x e, x ∈ events bs -> h !! x = Some e -> exit_ok e = true) ->
  exists x e, x ∈ events bs /\ h !! x = Some e /\
    (forall y f, y ∈ events bs -> h !! y = Some f -> ev_le e f = true) /\
    exists stop w' h' q' bs', serviceOne process w h q = Ret (stop, w', h', q') /\
      queue_inv h' q' bs' /\ eq_curTick q <= eq_curTick q' /\
      if squashed e
      then w' = w /\ stop = None /\ eq_curTick q' = eq_curTick q /\ bs' = rem_bins x bs
      else eq_curTick q' = ev_when e /\
           exists h1 q1 h2, queue_inv h1 q1 (rem_bins x bs) /\ eq_curTick q1 = ev_when e /\
             process x w h1 q1 = Ret (w', h2, q') /\ (stop = None \/ stop = Some x).
Proof.
  intros Hp Hi Hne Hex. destruct bs as [|b bs]; [done|].
  pose proof (qi_rep _ _ _ Hi) as (_ & e & He & _).
  assert (Hin : b_top b ∈ events (b :: bs)) by (rewrite events_cons; apply elem_of_app; left; by left).
  exists (b_top b), e. split_and!; try done.
  { intros y f Hy Hf. by eapply first_is_least. }
  destruct (serviceOne_ok process w h q b bs e Hp Hi He (Hex _ _ Hin He))
    as (stop & w' & h' & q' & bs' & E & Hi' & Ht & Hrest).
  exists stop, w', h', q', bs'. split_and!; try done. destruct (squashed e); [naive_solver|].
  destruct Hrest as (Ht' & h1 & q1 & h2 & e2 & H1 & H2 & H3 & _ & _ & _ & Hst & _).
  split; [done|]. exists h1, q1, h2. split_and!; try done. rewrite Hst.
  destruct (isExitEvent e2); [by right|by left].
Qed.

(** *** Draining the queue *)

(** An action that only records when it ran. *)
Definition log_process (x : nat) (w : list (nat * Z)) (h : heap) (q : EventQueue) :
    res (list (nat * Z) * heap * EventQueue) :=
  Ret (w ++ [(x, eq_curTick q)], h, q).

Lemma log_process_ok : handler_ok log_process.
Proof. intros x w h q bs e Hi Hx Hs Hex. do 5 eexists. by split_and!. Qed.

(** The bins up to tick [t], the later ones, and the record of a list of events. *)
Definition due (t : Z) (bs : list bin) : list bin := filter (fun b => b_when b <= t) bs.
Definition late (t : Z) (bs : list bin) : list bin := filter (fun b => t < b_when b) bs.
Definition record (h : heap) (l : list nat) : list (nat * Z) :=
  omap (fun x => e ← h !! x; if squashed e then None else Some (x, ev_when e)) l.

Lemma record_same h h' l :
  (forall x, x ∈ l -> ev_data <$> h' !! x = ev_data <$> h !! x) -> record h' l = record h l.
Proof.
  induction l as [|x l IH]; intros H; [done|]. unfold record in *. cbn.
  rewrite IH by (intros y Hy; apply H; by right). specialize (H x ltac:(by left)).
  destruct (h' !! x) as [e'|], (h !! x) as [e|]; try done. cbn in *. injection H as E1 E2 E3 E4.
  unfold squashed. by rewrite E1, E3.
Qed.

Lemma record_cons h x l : record h (x :: l) = record h [x] ++ record h l.
Proof. unfold record. cbn. by destruct (h !! x ≫= _). Qed.

Lemma rem_top b bs :
  rem_bins (b_top b) (b :: bs) =
  match b_rest b with [] => bs | y :: l => mkBin (b_when b) (b_pri b) y l :: bs end.
Proof.
  cbn [rem_bins]. rewrite bool_decide_true by (by left). unfold rem_bin.
  rewrite bool_decide_true by done. by destruct (b_rest b).
Qed.

Lemma due_late_top t b bs :
  b_when b <= t ->
  events (due t (b :: bs)) = b_top b :: events (due t (rem_bins (b_top b) (b :: bs))) /\
  late t (rem_bins (b_top b) (b :: bs)) = late t (b :: bs).
Proof.
  intros Ht. rewrite rem_top. unfold due, late. rewrite filter_cons_True by done.
  rewrite (filter_cons_False _ b) by lia. destruct (b_rest b) as [|y l] eqn:E.
  - rewrite events_cons. unfold bin_events. by rewrite E.
  - rewrite filter_cons_True by done. rewrite (filter_cons_False _ (mkBin _ _ _ _)) by (cbn; lia).
    rewrite !events_cons. unfold bin_events. by rewrite E.
Qed.

Lemma nothing_due h q t b bs :
  queue_inv h q (b :: bs) -> t < b_when b -> due t (b :: bs) = [] /\ late t (b :: bs) = b :: bs.
Proof.
  intros Hi Ht. pose proof (qi_sorted _ _ _ Hi) as [_ Hf]%StronglySorted_inv.
  assert (H : Forall (fun c => t < b_when c) (b :: bs)).
  { constructor; [done|]. eapply Forall_impl; [exact Hf|]. intros c Hc.
    unfold bin_lt in Hc. apply klt_spec in Hc. lia. }
  clear -H. unfold due, late. induction H as [|c l Hc Hl [IH1 IH2]]; [done|].
  rewrite filter_cons_False, filter_cons_True by lia. by rewrite IH1, IH2.
Qed.

Lemma events_due_sub t bs x : x ∈ events (due t bs) -> x ∈ events bs.
Proof.
  induction bs as [|b bs IH]; [done|]. unfold due. rewrite filter_cons. case_decide;
    rewrite !events_cons, ?elem_of_app; [|by auto]. intros [|]; [by left|right; by apply IH].
Qed.

(** One step of [serviceEvents] with the recording action. *)
Lemma log_step log h q b bs e :
  queue_inv h q (b :: bs) -> h !! b_top b = Some e -> exit_ok e = true ->
  let bs1 := rem_bins (b_top b) (b :: bs) in
  exists stop h' q', serviceOne log_process log h q =
      Ret (stop, log ++ record h [b_top b], h', q') /\
    queue_inv h' q' bs1 /\ (eq_curTick q' = eq_curTick q \/ eq_curTick q' = ev_when e) /\
    (forall y, y <> b_top b -> ev_data <$> h' !! y = ev_data <$> h !! y).
Proof.
  intros Hi He Hex bs1.
  destruct (serviceOne_ok log_process log h q b bs e log_process_ok Hi He Hex)
    as (stop & w' & h' & q' & bs' & Es & Hi' & Ht & Hrest).
  exists stop, h', q'. rewrite Es. unfold record. cbn. rewrite He. cbn.
  destruct (squashed e).
  - destruct Hrest as (-> & -> & Et & -> & Hoth). rewrite app_nil_r. split_and!; auto.
  - destruct Hrest as (Et & h1 & q1 & h2 & e2 & Hi1 & Et1 & Ep & Hoth & _ & Hbs & _ & Hy).
    injection Ep as <- <- <-. rewrite Et1. split_and!; auto. intros y Hne. rewrite Hy by done. auto.
Qed.

Lemma drain_empty t fuel log h q :
  queue_inv h q [] ->
  serviceEvents log_process fuel t log h q = Ret (log, h, setCurTick q t) /\
  queue_inv h (setCurTick q t) [].
Proof.
  intros Hi. pose proof (qi_rep _ _ _ Hi) as E. cbn in E. split.
  - destruct fuel; cbn [serviceEvents]; unfold eq_empty; by rewrite E.
  - apply queue_inv_tick; [done|]. by intros x e _ ?%not_elem_of_nil.
Qed.


(** *** The queue's own check *)

Lemma verify_bin_ok h w pr l : forall p time pri seen fuel,
  in_bin h w pr p l -> NoDup l -> (forall x, x ∈ l -> x ∉ seen) -> klt w pr time pri = false ->
  (length l <= fuel)%nat ->
  exists seen', verify_bin h fuel p time pri seen =
      Ret (Some (match l with [] => (time, pri, seen') | _ => (w, pr, seen') end)) /\
    forall x, x ∈ seen' <-> x ∈ seen \/ x ∈ l.
Proof.
  induction l as [|y l IH]; intros p time pri seen fuel Hl Hnd Hsn Hk Hf.
  - cbn in Hl. subst p. exists seen. split; [by destruct fuel|]. intros x. rewrite elem_of_nil. tauto.
  - destruct fuel as [|fuel]; [cbn in Hf; lia|]. destruct Hl as (-> & e & He & Hw & Hpr & Hl).
    apply NoDup_cons in Hnd as [Hy Hnd]. apply klt_false in Hk as Hk'.
    cbn [verify_bin]. rewrite (deref_some _ _ _ He). bsimpl. rewrite Hw, Hpr.
    rewrite (proj2 (Z.ltb_ge _ _)) by lia.
    replace ((w =? time) && (pr <? pri)) with false
      by (symmetry; apply andb_false_iff; rewrite Z.eqb_neq, Z.ltb_ge; lia).
    rewrite bool_decide_false by (apply Hsn; by left).
    destruct (IH (nextInBin e) w pr (y :: seen) fuel Hl Hnd) as (seen' & E & Hs);
      [set_solver|apply klt_irrefl|cbn in Hf; lia|].
    exists seen'. rewrite E. split; [by destruct l|]. intros x. rewrite Hs. set_solver.
Qed.

Lemma verify_bins_ok h bs : forall p time pri seen fuel,
  bins_at h p bs -> StronglySorted bin_lt bs -> NoDup (events bs) ->
  (forall x, x ∈ events bs -> x ∉ seen) ->
  (forall b, head bs = Some b -> klt (b_when b) (b_pri b) time pri = false) ->
  (length bs <= fuel)%nat -> (length (events bs) <= size h)%nat ->
  verify_bins h fuel p time pri seen = Ret true.
Proof.
  induction bs as [|b bs IH]; intros p time pri seen fuel Hb Hs Hnd Hsn Hk Hf Hsz.
  - cbn in Hb. subst p. by destruct fuel.
  - destruct fuel as [|fuel]; [cbn in Hf; lia|].
    pose proof Hb as (-> & e & He & Hw & Hpr & Hl & Hbs). cbn [verify_bins].
    rewrite events_cons in *. apply NoDup_app in Hnd as (Hn1 & Hd & Hn2).
    rewrite length_app in Hsz.
    assert (Hbin : in_bin h (b_when b) (b_pri b) (Some (b_top b)) (bin_events b)).
    { split; [done|]. by exists e. }
    destruct (verify_bin_ok h (b_when b) (b_pri b) (bin_events b) _ time pri seen (size h) Hbin Hn1)
      as (seen' & -> & Hsn'); [set_solver|by apply Hk|lia|]. bsimpl.
    rewrite (deref_some _ _ _ He). bsimpl. apply StronglySorted_inv in Hs as [Hs Hlt].
    apply IH; try done; [|..|cbn in Hf; lia|lia].
    + intros x Hx. rewrite Hsn'. intros [H|H]; [by apply (Hsn x); [set_solver|]|by apply (Hd x)].
    + intros c Hc. destruct bs as [|c' bs]; [done|]. injection Hc as ->.
      apply Forall_cons in Hlt as [Hlt _]. by apply klt_asym.
Qed.

(** The queue's own check accepts every well-formed queue but one kind.
    [debugVerify] always completes, and returns true unless the first event is
    at tick 0 with a negative priority: the check starts from priority 0 and
    reports a priority inversion for it. *)
Theorem debugVerify_exact h q bs :
  queue_inv h q bs -> 0 <= eq_curTick q ->
  debugVerify h q = Ret (match bs with
    | [] => true
    | b :: _ => negb ((b_when b =? 0) && (b_pri b <? 0))
    end).
Proof.
  intros Hi Ht. pose proof (qi_rep _ _ _ Hi) as Hb. pose proof (events_nodup _ _ _ Hi) as Hnd.
  pose proof (events_size _ _ _ Hb Hnd) as Hsz. pose proof (bins_length bs).
  unfold debugVerify. destruct bs as [|b bs].
  - cbn in Hb. rewrite Hb. by destruct (size h).
  - pose proof Hb as (E0 & e & He & Hw & Hpr & _).
    assert (Htop : 0 <= b_when b).
    { rewrite <- Hw. etrans; [exact Ht|]. apply (qi_time _ _ _ Hi (b_top b) e He).
      rewrite events_cons. by left. }
    destruct ((b_when b =? 0) && (b_pri b <? 0)) eqn:E.
    + assert (Ev : forall fuel, verify_bin h fuel (Some (b_top b)) 0 0 [] = Ret None).
      { intros fuel. destruct fuel; cbn [verify_bin]; rewrite (deref_some _ _ _ He); bsimpl;
          rewrite Hw, Hpr, E; by rewrite (proj2 (Z.ltb_ge _ _)) by lia. }
      rewrite E0. generalize (size h) at 1. intros fuel. by destruct fuel; cbn [verify_bins]; rewrite Ev.
    + apply verify_bins_ok with (bs := b :: bs); try done.
      * apply (qi_sorted _ _ _ Hi).
      * intros x _. apply not_elem_of_nil.
      * intros c [= <-]. apply klt_false. apply andb_false_iff in E.
        rewrite Z.eqb_neq, Z.ltb_ge in E. lia.
      * lia.
Qed.

(** *** Scheduling *)

Lemma rem_ins w p x bs : x ∉ events bs -> rem_bins x (ins_bins w p x bs) = bs.
Proof.
  assert (Hme : x ∈ bin_events (mkBin w p x [])) by (by left).
  induction bs as [|b bs IH]; intros Hn; cbn [ins_bins].
  - cbn [rem_bins]. rewrite bool_decide_true by done. unfold rem_bin. by rewrite bool_decide_true.
  - rewrite events_cons in Hn. apply not_elem_of_app in Hn as [Hb Hn].
    destruct (klt w p (b_when b) (b_pri b)) eqn:E1; [|destruct (klt (b_when b) (b_pri b) w p) eqn:E2].
    + cbn [rem_bins]. rewrite bool_decide_true by done. unfold rem_bin. by rewrite bool_decide_true.
    + cbn [rem_bins]. rewrite bool_decide_false by done. by rewrite IH.
    + cbn [rem_bins]. rewrite bool_decide_true by (by left). unfold rem_bin.
      rewrite bool_decide_true by done. cbn. apply klt_false in E1, E2.
      assert (w = b_when b) as -> by lia. assert (p = b_pri b) as -> by lia. by destruct b.
Qed.

(** C9. Scheduling refines insertion into sorted bins, and descheduling undoes
    it.  An initialised event that is not scheduled can be scheduled at any tick
    from the current one on: the queue then holds the old bins with the event
    on top of the bin of its tick and priority, no other event is touched, and
    descheduling the event gives the old bins back. *)
Theorem schedule_roundtrip par h q bs x e when :
  queue_inv h q bs -> h !! x = Some e -> scheduled e = false -> initialized e = true ->
  eq_curTick q <= when ->
  exists h1 q1 h2 q2,
    schedule par true h q x when false = Ret (h1, q1) /\
    queue_inv h1 q1 (ins_bins when (ev_priority e) x bs) /\
    (forall y, y <> x -> ev_data <$> h1 !! y = ev_data <$> h !! y) /\
    deschedule par true h1 q1 x = Ret (h2, q2) /\ queue_inv h2 q2 bs /\
    (forall y, y <> x -> ev_data <$> h2 !! y = ev_data <$> h !! y).
Proof.
  intros Hi Hx Hs Hini Ht. pose proof (unscheduled_absent _ _ _ _ _ Hi Hx Hs) as [Hn _]%not_elem_of_app.
  destruct (schedule_ok par true h q bs x e when false Hi Hx Hs Hini Ht) as
    (h1 & p1 & E1 & Hi1 & Hd1 & Ho1); [by destruct par|].
  destruct (h1 !! x) as [e1|] eqn:Hx1; [|done].
  destruct (deschedule_ok par true h1 (set_head q p1) _ x e1 Hi1 Hx1) as
    (h2 & p2 & E2 & Hi2 & Ho2 & _); [apply events_ins; by left|by destruct par|].
  rewrite (rem_ins _ _ _ _ Hn) in Hi2. exists h1, (set_head q p1), h2, (set_head (set_head q p1) p2).
  split_and!; try done. intros y Hy. rewrite Ho2 by done. by apply Ho1.
Qed.

(** Rescheduling moves an event.  A queued event, or any initialised one if
    [always] is given, is taken out of its bin and put on top of the bin of its
    new tick; it is scheduled and not squashed afterwards, and all other events
    keep their order. *)
Theorem reschedule_moves par h q bs x e when always :
  queue_inv h q bs -> h !! x = Some e -> initialized e = true -> eq_curTick q <= when ->
  (if scheduled e then x ∈ events bs else always = true) ->
  exists h' q' e', reschedule par true h q x when always = Ret (h', q') /\
    queue_inv h' q' (ins_bins when (ev_priority e) x (rem_bins x bs)) /\
    filter (.≠ x) (events (ins_bins when (ev_priority e) x (rem_bins x bs))) =
      filter (.≠ x) (events bs) /\
    h' !! x = Some e' /\ ev_when e' = when /\ scheduled e' = true /\ squashed e' = false.
Proof.
  intros Hi Hx Hini Ht Hc. pose proof (events_nodup _ _ _ Hi) as Hnd.
  destruct (reschedule_ok par true h q bs x e when always Hi Hx Hini Ht) as
    (h' & p & E & Hi' & (e' & Hx' & Hw' & Hs' & Hq') & _); [by destruct par| | |].
  - destruct (scheduled e); [apply orb_true_r|by rewrite Hc].
  - destruct (scheduled e); done.
  - exists h', (set_head q p), e'. split_and!; try done.
    assert (Hn : x ∉ events (rem_bins x bs)) by (rewrite events_rem, list_elem_of_filter by done; tauto).
    rewrite <- events_rem, rem_ins, events_rem by (done || by eapply events_nodup). done.
Qed.

(** ** Witnesses: two events on a fresh queue *)

Lemma queue_inv_new h id :
  (forall x e, h !! x = Some e -> scheduled e = false) -> queue_inv h (EventQueue_new id) [].
Proof.
  intros Hs. split; cbn; try done; try (by constructor).
  - by intros x ?%not_elem_of_nil.
  - by intros x e _ ?%not_elem_of_nil.
  - intros x e Hx. by rewrite (Hs x e Hx).
  - by intros x e _ ?%not_elem_of_nil.
Qed.

(** A new event of priority [p]. *)
Definition demo_event (p : Z) : Event := mkEvent None None 0 p Initialized None.
Definition demo_heap : heap := {[0%nat := demo_event 0; 1%nat := demo_event (-1)]}.

Lemma demo_event_new p : Event_new p 0 = Ret (demo_event p).
Proof. done. Qed.

Lemma demo_inv : queue_inv demo_heap (EventQueue_new 0) [].
Proof.
  apply queue_inv_new. unfold demo_heap.
  intros x e [[<- <-]|[_ [<- <-]%lookup_singleton_Some]]%lookup_insert_Some; reflexivity.
Qed.

Lemma schedule_roundtrip_witness :
  exists h1 q1 h2 q2, schedule false true demo_heap (EventQueue_new 0) 0 5 false = Ret (h1, q1) /\
    queue_inv h1 q1 [mkBin 5 0 0 []] /\ deschedule false true h1 q1 0 = Ret (h2, q2) /\
    queue_inv h2 q2 [].
Proof.
  destruct (schedule_roundtrip false demo_heap (EventQueue_new 0) [] 0 (demo_event 0) 5 demo_inv)
    as (h1 & q1 & h2 & q2 & E1 & Hi1 & _ & E2 & Hi2 & _); [reflexivity..|cbn; lia|].
  exists h1, q1, h2, q2. split; [exact E1|]. split; [exact Hi1|]. split; [exact E2|exact Hi2].
Defined.

(** Event 1, of priority -1, scheduled at tick [t]. *)
Lemma demo_queued t :
  0 <= t -> exists h q e, queue_inv h q [mkBin t (-1) 1 []] /\ eq_curTick q = 0 /\
    h !! 1%nat = Some e /\ ev_when e = t /\ exit_ok e = true /\ squashed e = false /\
    initialized e = true /\ scheduled e = true /\ ev_priority e = -1.
Proof.
  intros Ht. destruct (schedule_ok false true demo_heap (EventQueue_new 0) [] 1 (demo_event (-1)) t
    false demo_inv) as (h & p & _ & Hi & Hd & _); try done.
  destruct (h !! 1%nat) as [e|] eqn:Hx; [|done]. injection Hd as E1 E2 E3 E4.
  exists h, (set_head (EventQueue_new 0) p), e. split_and!; try done;
    unfold exit_ok, isExitEvent, squashed, initialized, scheduled; by rewrite E3.
Qed.

Lemma demo_one (h : heap) (y : nat) e f t (bs := [mkBin t (-1) 1%nat []]) :
  h !! 1%nat = Some e -> exit_ok e = true -> y ∈ events bs -> h !! y = Some f -> exit_ok f = true.
Proof. intros He Hex [->|Hy%not_elem_of_nil]%elem_of_cons Hf; [|done]. cbn in Hf. congruence. Qed.

Lemma serviceOne_order_witness :
  exists h q stop w h' q', serviceOne log_process [] h q = Ret (stop, w, h', q') /\
    eq_curTick q = 0 /\ eq_curTick q' = 7.
Proof.
  destruct (demo_queued 7 ltac:(lia)) as (h & q & e & Hi & Ht & He & Hw & Hex & Hsq & _).
  destruct (serviceOne_order log_process [] h q [mkBin 7 (-1) 1 []] log_process_ok Hi)
    as (x & e' & Hx & He' & _ & stop & w' & h' & q' & bs' & E & _ & _ & Hrest).
  - discriminate.
  - intros y f Hy Hf. exact (demo_one h y e f 7 He Hex Hy Hf).
  - exists h, q, stop, w', h', q'. split; [exact E|]. split; [exact Ht|].
    apply elem_of_cons in Hx as [->|Hx%not_elem_of_nil]; [|done]. cbn in He'.
    assert (e' = e) as -> by congruence. rewrite Hsq in Hrest. destruct Hrest as [-> _]. exact Hw.
Defined.


Lemma debugVerify_exact_witness :
  exists h q h0 q0, queue_inv h q [mkBin 7 (-1) 1 []] /\ debugVerify h q = Ret true /\
    queue_inv h0 q0 [mkBin 0 (-1) 1 []] /\ debugVerify h0 q0 = Ret false.
Proof.
  destruct (demo_queued 7 ltac:(lia)) as (h & q & e & Hi & Ht & _).
  destruct (demo_queued 0 ltac:(lia)) as (h0 & q0 & e0 & Hi0 & Ht0 & _).
  exists h, q, h0, q0. split; [exact Hi|]. split.
  - exact (debugVerify_exact h q _ Hi ltac:(lia)).
  - split; [exact Hi0|]. exact (debugVerify_exact h0 q0 _ Hi0 ltac:(lia)).
Defined.

Lemma reschedule_moves_witness :
  exists h q h' q', queue_inv h q [mkBin 7 (-1) 1 []] /\
    reschedule false true h q 1 3 false = Ret (h', q') /\ queue_inv h' q' [mkBin 3 (-1) 1 []].
Proof.
  destruct (demo_queued 7 ltac:(lia)) as (h & q & e & Hi & Ht & He & Hw & Hex & Hsq & Hini & Hs & Hp).
  destruct (reschedule_moves false h q _ 1 e 3 false Hi He Hini) as (h' & q' & e' & E & Hi' & _).
  - lia.
  - rewrite Hs. by left.
  - exists h, q, h', q'. split; [exact Hi|]. split; [exact E|]. rewrite Hp in Hi'. exact Hi'.
Defined.
