(* ===== verification/CacheBlk.v ===== *)
(** * Cache blocks and associative sets: [mem/cache/blk.hh],
    [mem/cache/tags/cacheset.hh]

    A block carries its tag, its status bits and the load-locked records of
    the contexts that hold a reservation on it.  Blocks live in one array and
    are referred to by their index (a [nat] plays the role of the pointer); a
    set is the array of the pointers of its ways, in recency order. *)

From S2P Require Import Prelude Packet.
Local Open Scope Z_scope.

(** ** [class CacheBlk] *)

(** [enum CacheBlkStatusBits] *)
Definition BlkValid : Z := 0x01.
Definition BlkWritable : Z := 0x02.
Definition BlkReadable : Z := 0x04.
Definition BlkDirty : Z := 0x08.
Definition BlkReferenced : Z := 0x10.
Definition BlkHWPrefetched : Z := 0x20.
Definition BlkSecure : Z := 0x40.

(** [class Lock] *)
Record Lock := mkLock {
  lock_contextId : Z;
  lowAddr : Z;
  highAddr : Z
}.

Record CacheBlk := mkCacheBlk {
  task_id : Z;
  asid : Z;
  tag : Z;
  data : Z;            (* offset of the block's bytes in the data array *)
  blk_size : Z;
  status : Z;
  whenReady : Z;
  blk_set : Z;
  isTouched : bool;
  refCount : Z;
  srcMasterId : Z;
  tickInserted : Z;
  tag_refcount : Z;
  lockList : list Lock
}.

(** The default constructor does not initialise [tag_refcount]: its value is
    the argument. *)
Definition CacheBlk_new (uninit : Z) : CacheBlk :=
  mkCacheBlk TaskId_Unknown (-1) 0 0 0 0 0 (-1) false 0 invldMasterId 0 uninit [].

(** Field updates. *)
Definition with_status (b : CacheBlk) (x : Z) : CacheBlk :=
  mkCacheBlk (task_id b) (asid b) (tag b) (data b) (blk_size b) x (whenReady b)
    (blk_set b) (isTouched b) (refCount b) (srcMasterId b) (tickInserted b)
    (tag_refcount b) (lockList b).
Definition with_locks (b : CacheBlk) (x : list Lock) : CacheBlk :=
  mkCacheBlk (task_id b) (asid b) (tag b) (data b) (blk_size b) (status b)
    (whenReady b) (blk_set b) (isTouched b) (refCount b) (srcMasterId b)
    (tickInserted b) (tag_refcount b) x.
Definition with_touched (b : CacheBlk) (x : bool) : CacheBlk :=
  mkCacheBlk (task_id b) (asid b) (tag b) (data b) (blk_size b) (status b)
    (whenReady b) (blk_set b) x (refCount b) (srcMasterId b)
    (tickInserted b) (tag_refcount b) (lockList b).
Definition with_refCount (b : CacheBlk) (x : Z) : CacheBlk :=
  mkCacheBlk (task_id b) (asid b) (tag b) (data b) (blk_size b) (status b)
    (whenReady b) (blk_set b) (isTouched b) x (srcMasterId b)
    (tickInserted b) (tag_refcount b) (lockList b).
Definition with_tag (b : CacheBlk) (x : Z) : CacheBlk :=
  mkCacheBlk (task_id b) (asid b) x (data b) (blk_size b) (status b)
    (whenReady b) (blk_set b) (isTouched b) (refCount b) (srcMasterId b)
    (tickInserted b) (tag_refcount b) (lockList b).
Definition with_owner (b : CacheBlk) (master task tick : Z) : CacheBlk :=
  mkCacheBlk task (asid b) (tag b) (data b) (blk_size b) (status b)
    (whenReady b) (blk_set b) (isTouched b) (refCount b) master
    tick (tag_refcount b) (lockList b).
Definition with_tag_refcount (b : CacheBlk) (x : Z) : CacheBlk :=
  mkCacheBlk (task_id b) (asid b) (tag b) (data b) (blk_size b) (status b)
    (whenReady b) (blk_set b) (isTouched b) (refCount b) (srcMasterId b)
    (tickInserted b) x (lockList b).

Definition isWritable (b : CacheBlk) : bool :=
  let needed_bits := Z.lor BlkWritable BlkValid in
  Z.land (status b) needed_bits =? needed_bits.

Definition isReadable (b : CacheBlk) : bool :=
  let needed_bits := Z.lor BlkReadable BlkValid in
  Z.land (status b) needed_bits =? needed_bits.

Definition isValid (b : CacheBlk) : bool := negb (Z.land (status b) BlkValid =? 0).

Definition isDirty (b : CacheBlk) : bool := negb (Z.land (status b) BlkDirty =? 0).

Definition isReferenced (b : CacheBlk) : bool :=
  negb (Z.land (status b) BlkReferenced =? 0).

Definition wasPrefetched (b : CacheBlk) : bool :=
  negb (Z.land (status b) BlkHWPrefetched =? 0).

Definition isSecure (b : CacheBlk) : bool := negb (Z.land (status b) BlkSecure =? 0).

(** The MOESI letter that [print()] computes from the state bits. *)
Inductive moesi := MOESI_M | MOESI_O | MOESI_E | MOESI_S | MOESI_I | MOESI_T.

Definition print_state (b : CacheBlk) : moesi :=
  match isWritable b, isDirty b, isValid b with
  | true, true, true => MOESI_M
  | false, true, true => MOESI_O
  | true, false, true => MOESI_E
  | false, false, true => MOESI_S
  | false, false, false => MOESI_I
  | _, _, _ => MOESI_T
  end.

(** *** Load-locked records *)

Definition Lock_of (req : Request) : Lock :=
  mkLock (req_contextId req) (req_paddr req)
    (u64 (u64 (req_paddr req + req_size req) - 1)).

Definition matchesContext (l : Lock) (req : Request) : bool :=
  let req_low := req_paddr req in
  let req_high := u64 (u64 (req_low + req_size req) - 1) in
  (lock_contextId l =? req_contextId req) && (lowAddr l <=? req_low)
  && (req_high <=? highAddr l).

Definition overlapping (l : Lock) (req : Request) : bool :=
  let req_low := req_paddr req in
  let req_high := u64 (u64 (req_low + req_size req) - 1) in
  (req_low <=? highAddr l) && (lowAddr l <=? req_high).

Definition trackLoadLocked (b : CacheBlk) (pkt : Packet) : res CacheBlk :=
  _ ← cassert (pkt_isLLSC pkt);
  Ret (with_locks b (Lock_of (pkt_req pkt) :: lockList b)).

(** The erasing loop of [clearLoadLocks(req)]. *)
Fixpoint clearLocks_loop (locks : list Lock) (req : Request) : list Lock :=
  match locks with
  | [] => []
  | l :: locks =>
      if overlapping l req then clearLocks_loop locks req
      else l :: clearLocks_loop locks req
  end.

Definition clearLoadLocks (b : CacheBlk) (req : option Request) : CacheBlk :=
  match req with
  | None => with_locks b []
  | Some req => with_locks b (clearLocks_loop (lockList b) req)
  end.

Definition CacheBlk_invalidate (b : CacheBlk) : CacheBlk :=
  clearLoadLocks (with_touched (with_status b 0) false) None.

(** [checkWrite]: whether the write proceeds, the block and the request
    afterwards. *)
Definition checkWrite (b : CacheBlk) (pkt : Packet) : bool * CacheBlk * Request :=
  let req := pkt_req pkt in
  if pkt_isLLSC pkt then
    let success := existsb (fun l => matchesContext l req) (lockList b) in
    let req := setExtraData req (if success then 1 else 0) in
    (success, clearLoadLocks b (Some req), req)
  else (true, clearLoadLocks b (Some req), req).

(** ** [class CacheSet] *)

Record CacheSet := mkCacheSet {
  set_assoc : nat;
  set_blks : list nat    (* [Blktype **blks]: pointers to blocks *)
}.

Definition with_blks (s : CacheSet) (b : list nat) : CacheSet :=
  mkCacheSet (set_assoc s) b.

Section cache_set.
(** The block array the pointers refer to. *)
Context (mem : list CacheBlk).

(** [findBlk]: the block found, and [way_id]. *)
Fixpoint findBlk_loop (blks : list nat) (tg : Z) (is_secure : bool) (fuel i assoc : nat) :
    res (option nat * nat) :=
  match fuel with
  | O => Ret (None, assoc)
  | S fuel =>
      p ← vread blks i;
      b ← vread mem p;
      if (tag b =? tg) && isValid b && Bool.eqb (isSecure b) is_secure
      then Ret (Some p, i)
      else findBlk_loop blks tg is_secure fuel (S i) assoc
  end.

Definition findBlk_way (s : CacheSet) (tg : Z) (is_secure : bool) : res (option nat * nat) :=
  findBlk_loop (set_blks s) tg is_secure (set_assoc s) 0 (set_assoc s).

Definition findBlk (s : CacheSet) (tg : Z) (is_secure : bool) : res (option nat) :=
  fst <$> findBlk_way s tg is_secure.
End cache_set.

(** The [do ... while (next != blk)] loop of [moveToHead], from way [i]; the
    assertion bounds it, so [assoc] iterations are enough. *)
Fixpoint moveToHead_loop (fuel : nat) (assoc i : nat) (next blk : nat) (blks : list nat) :
    res (list nat) :=
  match fuel with
  | O => Err AssertFailed
  | S fuel =>
      _ ← cassert (i <? assoc)%nat;
      tmp ← vread blks i;
      blks ← vwrite blks i next;
      if (tmp =? blk)%nat then Ret blks
      else moveToHead_loop fuel assoc (S i) tmp blk blks
  end.

Definition moveToHead (s : CacheSet) (blk : nat) : res CacheSet :=
  b0 ← vread (set_blks s) 0;
  if (b0 =? blk)%nat then Ret s
  else with_blks s <$>
    moveToHead_loop (S (set_assoc s)) (set_assoc s) 0 blk blk (set_blks s).

(** The downward loop shared by [moveToTail] (bound 0) and [moveTo]; [i] is a
    C++ [int], tested by the caller's assertion [ok]. *)
Fixpoint moveDown_loop (fuel : nat) (ok : Z -> bool) (i : Z) (next blk : nat)
    (blks : list nat) : res (list nat) :=
  match fuel with
  | O => Err AssertFailed
  | S fuel =>
      _ ← cassert (ok i);
      tmp ← vread blks (Z.to_nat i);
      blks ← vwrite blks (Z.to_nat i) next;
      if (tmp =? blk)%nat then Ret blks
      else moveDown_loop fuel ok (i - 1) tmp blk blks
  end.

Definition moveToTail (s : CacheSet) (blk : nat) : res CacheSet :=
  let assoc := set_assoc s in
  bl ← vread (set_blks s) (assoc - 1);
  if (bl =? blk)%nat then Ret s
  else with_blks s <$>
    moveDown_loop (S assoc) (fun i => 0 <=? i) (Z.of_nat assoc - 1) blk blk (set_blks s).

Fixpoint getLRUState_loop (fuel : nat) (blks : list nat) (lrustate blk : nat) : res nat :=
  match fuel with
  | O => Err Fatal
  | S fuel =>
      b ← vread blks lrustate;
      if (b =? blk)%nat then Ret lrustate
      else getLRUState_loop fuel blks (S lrustate) blk
  end.

Definition getLRUState (s : CacheSet) (blk : nat) : res nat :=
  getLRUState_loop (set_assoc s) (set_blks s) 0 blk.

(** [moveTo]: [assert(i <= lru)] compares as [unsigned], so it fails once
    [i] is negative. *)
Definition moveTo (s : CacheSet) (blk lru : nat) : res CacheSet :=
  bl ← vread (set_blks s) lru;
  if (bl =? blk)%nat then Ret s
  else
    s ← moveToHead s blk;
    s ← with_blks s <$>
      moveDown_loop (S (set_assoc s)) (fun i => u32 i <=? Z.of_nat lru)
        (Z.of_nat lru) blk blk (set_blks s);
    p ← getLRUState s blk;
    _ ← cassert (lru =? p)%nat;
    Ret s.

(** ** Moving a way: the loops *)

Lemma moveToHead_loop_spec assoc blk mid : forall pre n post fuel,
  blk ∉ mid -> (length mid < fuel)%nat ->
  length (pre ++ mid ++ blk :: post) = assoc ->
  moveToHead_loop fuel assoc (length pre) n blk (pre ++ mid ++ blk :: post) =
  Ret (pre ++ n :: mid ++ post).
Proof.
  induction mid as [|m mid IH]; intros pre n post [|fuel] Hnot Hfuel Hlen; cbn in Hfuel;
    try lia; cbn [moveToHead_loop].
  - rewrite cassert_true by (apply Nat.ltb_lt; rewrite length_app in Hlen; cbn in *; lia).
    cbn. rewrite (vread_some _ _ blk) by (by apply list_lookup_middle).
    cbn. rewrite vwrite_lt by (rewrite length_app; cbn; lia). cbn.
    rewrite Nat.eqb_refl. f_equal. by rewrite insert_app_r_alt, Nat.sub_diag by lia.
  - rewrite cassert_true by (apply Nat.ltb_lt; rewrite length_app in Hlen; cbn in *; lia).
    cbn. rewrite (vread_some _ _ m) by (by apply list_lookup_middle).
    cbn. rewrite vwrite_lt by (rewrite length_app; cbn; lia). cbn.
    apply not_elem_of_cons in Hnot as [Hm Hnot].
    destruct (Nat.eqb_spec m blk) as [->|_]; [done|].
    rewrite insert_app_r_alt, Nat.sub_diag by lia. cbn.
    specialize (IH (pre ++ [n]) m post fuel Hnot ltac:(lia)).
    rewrite <- !app_assoc in IH. cbn in IH. rewrite length_snoc in IH.
    rewrite IH; [done|]. rewrite !length_app in *. cbn in *. rewrite !length_app in *. done.
Qed.

Lemma moveDown_loop_spec ok blk mid : forall pre n post fuel i,
  blk ∉ mid -> (length mid < fuel)%nat ->
  i = Z.of_nat (length pre + length mid) ->
  (forall k, 0 <= k <= i -> ok k = true) ->
  moveDown_loop fuel ok i n blk (pre ++ blk :: mid ++ post) =
  Ret (pre ++ mid ++ n :: post).
Proof.
  induction mid as [|m mid IH] using rev_ind; intros pre n post [|fuel] i Hnot Hfuel -> Hok;
    try lia; cbn [moveDown_loop]; rewrite cassert_true by (apply Hok; lia); cbn;
    rewrite Nat2Z.id; cbn in *.
  - rewrite Nat.add_0_r.
    rewrite (vread_some _ _ blk) by (by apply list_lookup_middle).
    cbn. rewrite vwrite_lt by (rewrite length_app; cbn; lia). cbn.
    rewrite Nat.eqb_refl. f_equal. by rewrite insert_app_r_alt, Nat.sub_diag by lia.
  - rewrite length_app in *. cbn [length] in *.
    replace (pre ++ blk :: (mid ++ [m]) ++ post)
      with ((pre ++ blk :: mid) ++ m :: post) by (by rewrite <- !app_assoc).
    assert (Hl : length (pre ++ blk :: mid) = (length pre + (length mid + 1))%nat)
      by (rewrite length_app; cbn; lia).
    rewrite (vread_some _ _ m) by (apply list_lookup_middle; lia).
    cbn. rewrite vwrite_lt by (rewrite length_app; cbn; lia). cbn.
    apply not_elem_of_app in Hnot as [Hnot Hm]. rewrite list_elem_of_singleton in Hm.
    destruct (Nat.eqb_spec m blk) as [->|_]; [done|].
    rewrite insert_app_r_alt, <- Hl, Nat.sub_diag by lia. cbn.
    rewrite <- app_assoc. cbn.
    rewrite (IH pre m (n :: post) fuel); [by rewrite <- !app_assoc|done|lia|lia|].
    intros. apply Hok. lia.
Qed.

Lemma moveToHead_loop_missing assoc blk : forall fuel i n blks,
  (forall k b, (i <= k)%nat -> blks !! k = Some b -> b <> blk) -> length blks = assoc ->
  moveToHead_loop fuel assoc i n blk blks = Err AssertFailed.
Proof.
  induction fuel as [|fuel IH]; intros i n blks Hno Hlen; [done|]. cbn [moveToHead_loop].
  destruct (Nat.ltb_spec i assoc) as [Hi|Hi]; [|done]. cbn.
  rewrite <- Hlen in Hi. destruct (lookup_lt_is_Some_2 blks i Hi) as [b Hb].
  rewrite (vread_some _ _ _ Hb). cbn. rewrite vwrite_lt by done. cbn.
  destruct (Nat.eqb_spec b blk) as [->|_]; [by destruct (Hno i blk)|].
  apply IH; [|by rewrite length_insert].
  intros k b' Hk Hb'. rewrite list_lookup_insert_ne in Hb' by lia.
  apply (Hno k); [lia|done].
Qed.

Lemma getLRUState_loop_spec blk pre : forall fuel done_ post,
  blk ∉ pre -> (length pre < fuel)%nat ->
  getLRUState_loop fuel (done_ ++ pre ++ blk :: post) (length done_) blk =
  Ret (length done_ + length pre)%nat.
Proof.
  induction pre as [|p pre IH]; intros [|fuel] done_ post Hnot Hfuel; cbn in Hfuel;
    try lia; cbn [getLRUState_loop];
    (rewrite (vread_some _ (length done_) _) by (by apply list_lookup_middle)); cbn.
  - rewrite Nat.eqb_refl. f_equal. lia.
  - apply not_elem_of_cons in Hnot as [Hp Hnot].
    destruct (Nat.eqb_spec p blk) as [->|_]; [done|].
    specialize (IH fuel (done_ ++ [p]) post Hnot ltac:(lia)).
    rewrite <- !app_assoc in IH. cbn in IH. rewrite length_snoc in IH.
    rewrite IH. f_equal. lia.
Qed.

Lemma getLRUState_loop_missing blk : forall fuel i blks,
  blk ∉ blks -> (i + fuel = length blks)%nat ->
  getLRUState_loop fuel blks i blk = Err Fatal.
Proof.
  induction fuel as [|fuel IH]; intros i blks Hno Hlen; [done|]. cbn.
  destruct (lookup_lt_is_Some_2 blks i ltac:(lia)) as [b Hb].
  rewrite (vread_some _ _ _ Hb). cbn.
  destruct (Nat.eqb_spec b blk) as [->|_].
  { destruct Hno. by eapply list_elem_of_lookup_2. }
  apply IH; [done|lia].
Qed.

(** ** Moving a way: the operations *)

(** A set holds each of its [assoc] ways once. *)
Definition set_wf (s : CacheSet) : Prop :=
  length (set_blks s) = set_assoc s /\ NoDup (set_blks s).

Lemma moveToHead_spec s blk pre post :
  set_wf s -> set_blks s = pre ++ blk :: post ->
  moveToHead s blk = Ret (with_blks s (blk :: pre ++ post)).
Proof.
  intros [Hlen Hnd] Hs. unfold moveToHead.
  pose proof Hnd as Hnd'. rewrite Hs in Hnd'. apply NoDup_middle in Hnd' as (Hpre & _).
  destruct pre as [|p pre].
  - rewrite Hs. cbn. rewrite Nat.eqb_refl. destruct s; cbn in *. by subst.
  - rewrite (vread_some _ 0 p) by (by rewrite Hs). bsimpl.
    destruct (Nat.eqb_spec p blk) as [->|_]; [set_solver|].
    pose proof (moveToHead_loop_spec (set_assoc s) blk (p :: pre) [] blk post
                  (S (set_assoc s))) as Hl.
    cbn [app length] in Hl. rewrite Hs in Hlen. cbn in Hlen. rewrite length_app in Hlen.
    rewrite Hs. cbn [app]. rewrite Hl; [done|done|lia|]. cbn. rewrite length_app. cbn in *. lia.
Qed.

Lemma moveToHead_missing s blk :
  set_wf s -> (0 < set_assoc s)%nat -> blk ∉ set_blks s ->
  moveToHead s blk = Err AssertFailed.
Proof.
  intros [Hlen Hnd] Ha Hno. unfold moveToHead.
  destruct (lookup_lt_is_Some_2 (set_blks s) 0 ltac:(lia)) as [b0 Hb0].
  rewrite (vread_some _ _ _ Hb0). bsimpl.
  destruct (Nat.eqb_spec b0 blk) as [->|_].
  { destruct Hno. by eapply list_elem_of_lookup_2. }
  rewrite moveToHead_loop_missing; [done| |done].
  intros k b _ Hb ->. destruct Hno. by eapply list_elem_of_lookup_2.
Qed.

Lemma moveToTail_spec s blk pre post :
  set_wf s -> set_blks s = pre ++ blk :: post ->
  moveToTail s blk = Ret (with_blks s (pre ++ post ++ [blk])).
Proof.
  intros [Hlen Hnd] Hs. unfold moveToTail.
  pose proof Hnd as Hnd'. rewrite Hs in Hnd'. apply NoDup_middle in Hnd' as (_ & Hpost & _).
  assert (Hn : set_assoc s = (length pre + S (length post))%nat).
  { rewrite <- Hlen, Hs, length_app. done. }
  destruct (decide (post = [])) as [->|Hne].
  - cbn in Hn. rewrite Hs, (vread_some _ _ blk) by (apply list_lookup_middle; lia). bsimpl.
    rewrite Nat.eqb_refl. destruct s; cbn in *. by subst.
  - destruct (exists_last Hne) as (post' & l & ->).
    rewrite length_app in Hn. cbn in Hn.
    rewrite (vread_some _ _ l).
    2:{ rewrite Hs, app_comm_cons, app_assoc. apply list_lookup_middle.
        rewrite length_app. cbn. lia. }
    bsimpl. destruct (Nat.eqb_spec l blk) as [->|_]; [set_solver|].
    replace (set_blks s) with (pre ++ blk :: (post' ++ [l]) ++ [])
      by (by rewrite app_nil_r).
    rewrite moveDown_loop_spec; [done|done|rewrite length_app; cbn; lia|..].
    + rewrite length_app. cbn. lia.
    + intros. lia.
Qed.

Lemma getLRUState_spec s blk pre post :
  set_wf s -> set_blks s = pre ++ blk :: post ->
  getLRUState s blk = Ret (length pre).
Proof.
  intros [Hlen Hnd] Hs. unfold getLRUState.
  pose proof Hnd as Hnd'. rewrite Hs in Hnd'. apply NoDup_middle in Hnd' as (Hpre & _).
  pose proof (getLRUState_loop_spec blk pre (set_assoc s) [] post) as Hl.
  cbn in Hl. rewrite Hs, Hl; [done|done|].
  rewrite <- Hlen, Hs, length_app. cbn. lia.
Qed.

Lemma set_wf_perm s l :
  set_wf s -> l ≡ₚ set_blks s -> set_wf (with_blks s l).
Proof.
  intros [Hlen Hnd] Hp. split; cbn.
  - by rewrite Hp.
  - by rewrite Hp.
Qed.

Lemma moveTo_spec s blk lru pre post :
  set_wf s -> set_blks s = pre ++ blk :: post ->
  (lru < set_assoc s)%nat -> Z.of_nat (set_assoc s) < 2 ^ 31 ->
  moveTo s blk lru =
  Ret (with_blks s (take lru (pre ++ post) ++ blk :: drop lru (pre ++ post))).
Proof.
  intros Hwf Hs Hlru Hsz. pose proof Hwf as [Hlen Hnd]. unfold moveTo.
  assert (Hn : set_assoc s = S (length (pre ++ post))).
  { rewrite <- Hlen, Hs, !length_app. cbn. lia. }
  destruct (lookup_lt_is_Some_2 (set_blks s) lru ltac:(lia)) as [bl Hbl].
  rewrite (vread_some _ _ _ Hbl). bsimpl. destruct (Nat.eqb_spec bl blk) as [->|Hne].
  - assert (lru = length pre) as ->.
    { apply (NoDup_lookup (set_blks s) _ _ blk); [done|done|].
      rewrite Hs. by apply list_lookup_middle. }
    rewrite take_app_length, drop_app_length. destruct s; cbn in *. by subst.
  - rewrite (moveToHead_spec s blk pre post) by done. bsimpl.
    cbn [set_assoc set_blks with_blks].
    set (mid := take lru (pre ++ post)). set (rest := drop lru (pre ++ post)).
    assert (Hmr : pre ++ post = mid ++ rest) by (symmetry; apply take_drop).
    assert (Hlm : length mid = lru) by (apply length_take_le; lia).
    assert (Hnb : blk ∉ pre ++ post).
    { rewrite Hs in Hnd. apply NoDup_middle in Hnd as (? & ? & _).
      by rewrite not_elem_of_app. }
    rewrite Hmr. change (blk :: mid ++ rest) with ([] ++ blk :: mid ++ rest).
    rewrite (moveDown_loop_spec _ blk mid [] blk rest); bsimpl.
    + cbn [app]. set (s' := with_blks _ _).
      rewrite (getLRUState_spec s' blk mid rest); [| |done].
      * bsimpl. rewrite Hlm, Nat.eqb_refl. done.
      * apply (set_wf_perm s); [done|]. rewrite Hs, <- !Permutation_middle.
        by rewrite Hmr.
    + intros Hin. apply Hnb. rewrite Hmr. set_solver.
    + lia.
    + cbn. lia.
    + intros k Hk. rewrite wrap_small by word_lia. lia.
Qed.

(** ** Finding a block *)

(** The test of [findBlk] on one way. *)
Definition blk_match (mem : list CacheBlk) (tg : Z) (is_secure : bool) (p : nat) : bool :=
  match mem !! p with
  | Some b => (tag b =? tg) && isValid b && Bool.eqb (isSecure b) is_secure
  | None => false
  end.

Lemma findBlk_loop_spec mem tg sec assoc : forall blks done_ fuel,
  Forall (fun p => (p < length mem)%nat) blks -> fuel = length blks ->
  exists r w, findBlk_loop mem (done_ ++ blks) tg sec fuel (length done_) assoc = Ret (r, w) /\
    match r with
    | Some p => exists pre post, blks = pre ++ p :: post /\ w = (length done_ + length pre)%nat /\
                  blk_match mem tg sec p = true /\
                  Forall (fun q => blk_match mem tg sec q = false) pre
    | None => w = assoc /\ Forall (fun q => blk_match mem tg sec q = false) blks
    end.
Proof.
  induction blks as [|p blks IH]; intros done_ fuel Hin ->; cbn [length findBlk_loop].
  { exists None, assoc. done. }
  apply Forall_cons in Hin as [Hp Hin].
  destruct (lookup_lt_is_Some_2 mem p Hp) as [b Hb].
  rewrite (vread_some _ (length done_) p) by (by apply list_lookup_middle). bsimpl.
  rewrite (vread_some _ _ _ Hb). bsimpl.
  assert (Hm : blk_match mem tg sec p =
               (tag b =? tg) && isValid b && Bool.eqb (isSecure b) sec).
  { unfold blk_match. by rewrite Hb. }
  rewrite <- Hm. destruct (blk_match mem tg sec p) eqn:E.
  - exists (Some p), (length done_). split; [done|]. exists [], blks. cbn.
    split_and!; [done|lia|done|constructor].
  - destruct (IH (done_ ++ [p]) (length blks) Hin eq_refl) as (r & w & Hr & Hspec).
    rewrite <- app_assoc, length_snoc in Hr. cbn in Hr. exists r, w. split; [done|].
    destruct r as [q|].
    + destruct Hspec as (pre & post & -> & -> & Hq & Hpre).
      exists (p :: pre), post. rewrite length_snoc. cbn.
      split_and!; [done|lia|done|by constructor].
    + destruct Hspec as [-> Hall]. split; [done|]. by constructor.
Qed.

Lemma findBlk_spec mem s tg sec :
  set_wf s -> Forall (fun p => (p < length mem)%nat) (set_blks s) ->
  exists r, findBlk mem s tg sec = Ret r /\
    match r with
    | Some p => p ∈ set_blks s /\ blk_match mem tg sec p = true
    | None => forall p, p ∈ set_blks s -> blk_match mem tg sec p = false
    end.
Proof.
  intros [Hlen _] Hin. unfold findBlk, findBlk_way.
  destruct (findBlk_loop_spec mem tg sec (set_assoc s) (set_blks s) [] (set_assoc s))
    as (r & w & Hr & Hspec); [done|done|].
  cbn in Hr. rewrite Hr. bsimpl. exists r. split; [done|]. destruct r as [p|].
  - destruct Hspec as (pre & post & Hs & _ & Hp & _). split; [|done]. rewrite Hs. set_solver.
  - destruct Hspec as [_ Hall]. by rewrite Forall_forall in Hall.
Qed.

(** ** Reservations *)

(** The three kinds of access that touch the reservation list of a block. *)
Inductive llsc_event :=
  | EvLL (r : Request)
  | EvStore (r : Request)
  | EvSC (r : Request).

Definition llsc_step (b : CacheBlk) (e : llsc_event) : res CacheBlk :=
  match e with
  | EvLL r => trackLoadLocked b (Packet_new r LoadLockedReq)
  | EvStore r => Ret (snd (fst (checkWrite b (Packet_new r WriteReq))))
  | EvSC r => Ret (snd (fst (checkWrite b (Packet_new r StoreCondReq))))
  end.

Fixpoint llsc_run (b : CacheBlk) (tr : list llsc_event) : res CacheBlk :=
  match tr with
  | [] => Ret b
  | e :: tr => b ← llsc_step b e; llsc_run b tr
  end.

Definition write_of (e : llsc_event) : option Request :=
  match e with
  | EvLL _ => None
  | EvStore r | EvSC r => Some r
  end.

(** A reservation made by [r] survives the accesses [tr]: none of the writes
    overlaps its range. *)
Definition survives (r : Request) (tr : list llsc_event) : Prop :=
  forall e w, e ∈ tr -> write_of e = Some w -> overlapping (Lock_of r) w = false.

(** The specification of the monitor: the block holds, for each load-locked
    access still valid, its lock. *)
Definition reserved (tr : list llsc_event) (l : Lock) : Prop :=
  exists tr1 r tr2, tr = tr1 ++ EvLL r :: tr2 /\ l = Lock_of r /\ survives r tr2.

Lemma clearLocks_loop_elem locks req l :
  l ∈ clearLocks_loop locks req <-> l ∈ locks /\ overlapping l req = false.
Proof.
  induction locks as [|l0 locks IH]; cbn; [set_solver|].
  destruct (overlapping l0 req) eqn:E; rewrite ?elem_of_cons, IH; intuition congruence.
Qed.

Lemma llsc_step_locks b e :
  exists b', llsc_step b e = Ret b' /\
    forall l, l ∈ lockList b' <->
      match e with
      | EvLL r => l = Lock_of r \/ l ∈ lockList b
      | EvStore w | EvSC w => l ∈ lockList b /\ overlapping l w = false
      end.
Proof.
  destruct e as [r|r|r]; cbn [llsc_step].
  - eexists. split; [reflexivity|]. intros l. cbn. apply elem_of_cons.
  - eexists. split; [reflexivity|]. intros l. unfold checkWrite.
    change (pkt_isLLSC (Packet_new r WriteReq)) with false. apply clearLocks_loop_elem.
  - eexists. split; [reflexivity|]. intros l. unfold checkWrite.
    change (pkt_isLLSC (Packet_new r StoreCondReq)) with true.
    etransitivity; [apply clearLocks_loop_elem|done].
Qed.

Lemma reserved_snoc tr e l :
  reserved (tr ++ [e]) l <->
  match e with
  | EvLL r => l = Lock_of r \/ reserved tr l
  | EvStore w | EvSC w => reserved tr l /\ overlapping l w = false
  end.
Proof.
  assert (Hsnoc : forall tr1 r tr2, tr ++ [e] = tr1 ++ EvLL r :: tr2 ->
    (tr2 = [] /\ tr = tr1 /\ e = EvLL r) \/
    exists tr2', tr2 = tr2' ++ [e] /\ tr = tr1 ++ EvLL r :: tr2').
  { intros tr1 r tr2 Heq. destruct (decide (tr2 = [])) as [->|Hne].
    - left. apply app_inj_tail in Heq as [-> ->]. done.
    - right. destruct (exists_last Hne) as (tr2' & x & ->). exists tr2'.
      rewrite app_comm_cons, app_assoc in Heq. apply app_inj_tail in Heq as [-> ->]. done. }
  assert (Hkeep : forall tr1 r tr2, tr = tr1 ++ EvLL r :: tr2 ->
    tr ++ [e] = tr1 ++ EvLL r :: (tr2 ++ [e])).
  { intros tr1 r tr2 ->. by rewrite <- app_assoc. }
  split.
  - intros (tr1 & r & tr2 & Heq & -> & Hsv).
    destruct (Hsnoc _ _ _ Heq) as [(-> & -> & ->)|(tr2' & -> & ->)]; [by left|].
    assert (Hres : reserved (tr1 ++ EvLL r :: tr2') (Lock_of r)).
    { exists tr1, r, tr2'. split_and!; [done|done|].
      intros e' w' He'. apply Hsv, elem_of_app. by left. }
    destruct e as [r'|w|w]; [by right|split; [done|]..].
    + apply (Hsv (EvStore w)); set_solver.
    + apply (Hsv (EvSC w)); set_solver.
  - destruct e as [r'|w|w].
    + intros [->|(tr1 & r & tr2 & Heq & -> & Hsv)].
      * exists tr, r', []. repeat split. intros ??. set_solver.
      * exists tr1, r, (tr2 ++ [EvLL r']). rewrite <- (Hkeep _ _ _ Heq). repeat split.
        intros e' w' [?|?]%elem_of_app ?; [by apply (Hsv e')|set_solver].
    + intros [(tr1 & r & tr2 & Heq & -> & Hsv) Ho].
      exists tr1, r, (tr2 ++ [EvStore w]). rewrite <- (Hkeep _ _ _ Heq). repeat split.
      intros e' w' [?|Hin]%elem_of_app ?; [by apply (Hsv e')|].
      apply list_elem_of_singleton in Hin as ->. by simplify_eq/=.
    + intros [(tr1 & r & tr2 & Heq & -> & Hsv) Ho].
      exists tr1, r, (tr2 ++ [EvSC w]). rewrite <- (Hkeep _ _ _ Heq). repeat split.
      intros e' w' [?|Hin]%elem_of_app ?; [by apply (Hsv e')|].
      apply list_elem_of_singleton in Hin as ->. by simplify_eq/=.
Qed.

Lemma llsc_run_snoc b tr e :
  llsc_run b (tr ++ [e]) = (b' ← llsc_run b tr; llsc_step b' e).
Proof.
  revert b. induction tr as [|e' tr IH]; intros b; cbn.
  - destruct (llsc_step b e); done.
  - destruct (llsc_step b e'); [apply IH|done].
Qed.

Lemma llsc_run_reserved b tr :
  lockList b = [] ->
  exists b', llsc_run b tr = Ret b' /\ forall l, l ∈ lockList b' <-> reserved tr l.
Proof.
  intros Hb. induction tr as [|e tr IH] using rev_ind.
  - exists b. split; [done|]. intros l. rewrite Hb. split; [set_solver|].
    intros ([|??] & ? & ? & ? & _); discriminate.
  - destruct IH as (b1 & Hrun & Hl1). destruct (llsc_step_locks b1 e) as (b2 & Hstep & Hl2).
    exists b2. rewrite llsc_run_snoc, Hrun. bsimpl. split; [done|]. intros l.
    rewrite reserved_snoc, Hl2. destruct e; rewrite Hl1; done.
Qed.

(** ** Properties *)

(** Reordering a set.  In a set that holds each way once, moving a way
    to the head, to the tail or to position [lru] does exactly that: the way
    lands there and the others keep their relative order; [getLRUState] is the
    way's position.  Every loop ends without tripping its assertion.  For a
    block outside the set [moveToHead] stops at the assertion and
    [getLRUState] is fatal. *)
Theorem CacheSet_moves s blk :
  set_wf s -> (0 < set_assoc s)%nat -> Z.of_nat (set_assoc s) < 2 ^ 31 ->
  (forall pre post, set_blks s = pre ++ blk :: post ->
     moveToHead s blk = Ret (with_blks s (blk :: pre ++ post)) /\
     moveToTail s blk = Ret (with_blks s (pre ++ post ++ [blk])) /\
     getLRUState s blk = Ret (length pre) /\
     forall lru, (lru < set_assoc s)%nat ->
       moveTo s blk lru =
       Ret (with_blks s (take lru (pre ++ post) ++ blk :: drop lru (pre ++ post)))) /\
  (blk ∉ set_blks s ->
     moveToHead s blk = Err AssertFailed /\ getLRUState s blk = Err Fatal).
Proof.
  intros Hwf Ha Hsz. split.
  - intros pre post Hs. split_and!.
    + by apply moveToHead_spec.
    + by apply moveToTail_spec.
    + by eapply getLRUState_spec.
    + intros lru Hlru. by apply moveTo_spec.
  - intros Hno. split; [by apply moveToHead_missing|].
    apply getLRUState_loop_missing; [done|]. by destruct Hwf.
Qed.

Lemma CacheSet_moves_witness :
  moveTo (mkCacheSet 4 [10; 11; 12; 13]%nat) 12 1 =
    Ret (mkCacheSet 4 [10; 12; 11; 13]%nat).
Proof.
  assert (Hwf : set_wf (mkCacheSet 4 [10; 11; 12; 13]%nat)).
  { split; [reflexivity|]. apply (bool_decide_unpack _). vm_compute. exact Logic.I. }
  destruct (CacheSet_moves _ 12%nat Hwf) as [H _]; [cbn; lia|cbn; lia|].
  destruct (H [10; 11]%nat [13]%nat eq_refl) as (_ & _ & _ & Hm).
  apply (Hm 1%nat). cbn. lia.
Defined.


