(* ===== verification/TagStore.v ===== *)
(** * The set-associative tag store: [mem/cache/tags/base.hh],
    [mem/cache/tags/base_set_assoc.hh], [mem/cache/tags/base_set_assoc.cc]

    The state common to every set-associative replacement policy: the array of
    blocks, the sets (arrays of pointers into it) and the statistics that the
    operations maintain.  The current tick is an argument of the operations
    that read it; the number of masters of the system and the clock period are
    part of the configuration. *)

From S2P Require Import Prelude IntMath Packet CacheBlk.
Local Open Scope Z_scope.

(** ** Data *)

(** What the constructor computes once and for all. *)
Record TagsConfig := mkTagsConfig {
  blkSize : Z;
  assoc : nat;
  numSets : nat;
  sequentialAccess : bool;
  accessLatency : Z;
  writeLatency : Z;
  setShift : Z;
  tagShift : Z;
  setMask : Z;
  blkMask : Z;
  warmupBound : Z;
  maxMasters : nat;
  clockPeriod : Z
}.

Record TagsState := mkTagsState {
  sets : list CacheSet;
  blks : list CacheBlk;
  warmedUp : bool;
  warmupCycle : Z;
  tagsInUse : Z;
  replacements : Z;
  totalRefs : Z;
  sampledRefs : Z;
  occupancies : list Z;    (* per master *)
  tagAccesses : Z;
  dataAccesses : Z
}.

Definition with_sets (s : TagsState) (x : list CacheSet) : TagsState :=
  mkTagsState x (blks s) (warmedUp s) (warmupCycle s) (tagsInUse s) (replacements s)
    (totalRefs s) (sampledRefs s) (occupancies s) (tagAccesses s) (dataAccesses s).
Definition with_blocks (s : TagsState) (x : list CacheBlk) : TagsState :=
  mkTagsState (sets s) x (warmedUp s) (warmupCycle s) (tagsInUse s) (replacements s)
    (totalRefs s) (sampledRefs s) (occupancies s) (tagAccesses s) (dataAccesses s).
Definition with_inUse (s : TagsState) (x : Z) : TagsState :=
  mkTagsState (sets s) (blks s) (warmedUp s) (warmupCycle s) x (replacements s)
    (totalRefs s) (sampledRefs s) (occupancies s) (tagAccesses s) (dataAccesses s).
Definition with_warm (s : TagsState) (tick : Z) : TagsState :=
  mkTagsState (sets s) (blks s) true tick (tagsInUse s) (replacements s)
    (totalRefs s) (sampledRefs s) (occupancies s) (tagAccesses s) (dataAccesses s).
Definition with_refs (s : TagsState) (repl total sampled : Z) : TagsState :=
  mkTagsState (sets s) (blks s) (warmedUp s) (warmupCycle s) (tagsInUse s) repl
    total sampled (occupancies s) (tagAccesses s) (dataAccesses s).
Definition with_occ (s : TagsState) (x : list Z) : TagsState :=
  mkTagsState (sets s) (blks s) (warmedUp s) (warmupCycle s) (tagsInUse s) (replacements s)
    (totalRefs s) (sampledRefs s) x (tagAccesses s) (dataAccesses s).
Definition with_accesses (s : TagsState) (t d : Z) : TagsState :=
  mkTagsState (sets s) (blks s) (warmedUp s) (warmupCycle s) (tagsInUse s) (replacements s)
    (totalRefs s) (sampledRefs s) (occupancies s) t d.

(** An update of a block through its pointer. *)
Definition upd_blk (s : TagsState) (p : nat) (f : CacheBlk -> CacheBlk) : res TagsState :=
  b ← vread (blks s) p;
  l ← vwrite (blks s) p (f b);
  Ret (with_blocks s l).

(** [sets[i].op(...)] *)
Definition upd_set (s : TagsState) (i : nat) (f : CacheSet -> res CacheSet) : res TagsState :=
  cs ← vread (sets s) i;
  cs ← f cs;
  l ← vwrite (sets s) i cs;
  Ret (with_sets s l).

(** [occupancies[m] += d] *)
Definition upd_occ (s : TagsState) (m d : Z) : res TagsState :=
  x ← vread (occupancies s) (Z.to_nat m);
  l ← vwrite (occupancies s) (Z.to_nat m) (x + d);
  Ret (with_occ s l).

(** ** Address decomposition *)

Section base_set_assoc.
Context (c : TagsConfig).

Definition extractTag (addr : Z) : Z := Z.shiftr addr (tagShift c).

(** The result is converted to [int]. *)
Definition extractSet (addr : Z) : Z := Z.land (Z.shiftr addr (setShift c)) (setMask c).

Definition blkAlign (addr : Z) : Z := Z.land addr (wnot 64 (blkMask c)).

Definition extractBlkOffset (addr : Z) : Z := Z.land addr (u32 (blkSize c - 1)).

Definition regenerateBlkAddr (tg set : Z) : Z :=
  Z.lor (u64 (Z.shiftl tg (tagShift c))) (u64 (Z.shiftl set (setShift c))).

(** [cache->ticksToCycles(t)] *)
Definition ticksToCycles (t : Z) : res Z := divCeil 64 t (clockPeriod c).

(** ** Operations *)

Definition BaseSetAssoc_invalidate (s : TagsState) (blk : nat) (now : Z) : res TagsState :=
  b ← vread (blks s) blk;
  _ ← cassert (isValid b);
  let s := with_inUse s (tagsInUse s - 1) in
  _ ← cassert (srcMasterId b <? Z.of_nat (maxMasters c));
  s ← upd_occ s (srcMasterId b) (-1);
  upd_blk s blk (fun b => with_owner b invldMasterId TaskId_Unknown now).

(** The state, the block found and the latency. *)
Definition BaseSetAssoc_accessBlock (s : TagsState) (addr : Z) (is_secure is_read : bool)
    (now : Z) : res (TagsState * option nat * Z) :=
  let tg := extractTag addr in
  let set := Z.to_nat (extractSet addr) in
  cs ← vread (sets s) set;
  blk ← findBlk (blks s) cs tg is_secure;
  let lat := if is_read then accessLatency c else writeLatency c in
  let s := with_accesses s (tagAccesses s + Z.of_nat (assoc c))
             (if sequentialAccess c
              then match blk with Some _ => dataAccesses s + 1 | None => dataAccesses s end
              else dataAccesses s + Z.of_nat (assoc c)) in
  match blk with
  | None => Ret (s, None, lat)
  | Some p =>
      b ← vread (blks s) p;
      lat ← (if now <? whenReady b then
               cyc ← ticksToCycles (u64 (whenReady b - now));
               Ret (if accessLatency c <? cyc then cyc else lat)
             else Ret lat);
      s ← upd_blk s p (fun b => with_refCount b (refCount b + 1));
      Ret (s, Some p, lat)
  end.

Definition BaseSetAssoc_findBlock (s : TagsState) (addr : Z) (is_secure : bool) :
    res (option nat) :=
  let tg := extractTag addr in
  let set := Z.to_nat (extractSet addr) in
  cs ← vread (sets s) set;
  findBlk (blks s) cs tg is_secure.

(** The loop of [findVictim]: the last pointer read. *)
Fixpoint findVictim_loop (s : TagsState) (l : list nat) (fuel i : nat) (blk : option nat) :
    res (option nat) :=
  match fuel with
  | O => Ret blk
  | S fuel =>
      p ← vread l i;
      b ← vread (blks s) p;
      if negb (isValid b) then Ret (Some p)
      else findVictim_loop s l fuel (S i) (Some p)
  end.

Definition BaseSetAssoc_findVictim (s : TagsState) (addr : Z) : res (option nat) :=
  cs ← vread (sets s) (Z.to_nat (extractSet addr));
  findVictim_loop s (set_blks cs) (assoc c) 0 None.

(** The part of [insertBlock] for a block that has never been touched. *)
Definition touch_new (s : TagsState) (blk : nat) (now : Z) : res TagsState :=
  let s := with_inUse s (tagsInUse s + 1) in
  s ← upd_blk s blk (fun b => with_touched b true);
  if negb (warmedUp s) && (warmupBound c <=? tagsInUse s)
  then Ret (with_warm s now) else Ret s.

(** The part of [insertBlock] for a valid block that is replaced. *)
Definition evict_old (s : TagsState) (blk : nat) : res TagsState :=
  b ← vread (blks s) blk;
  let s := with_refs s (replacements s + 1) (totalRefs s + refCount b)
             (sampledRefs s + 1) in
  s ← upd_blk s blk (fun b => with_refCount b 0);
  _ ← cassert (srcMasterId b <? Z.of_nat (maxMasters c));
  s ← upd_occ s (srcMasterId b) (-1);
  upd_blk s blk CacheBlk_invalidate.

Definition BaseSetAssoc_insertBlock (s : TagsState) (pkt : Packet) (blk : nat) (now : Z) :
    res TagsState :=
  let addr := pkt_addr pkt in
  let master_id := req_masterId (pkt_req pkt) in
  let task := req_taskId (pkt_req pkt) in
  b ← vread (blks s) blk;
  s ← (if negb (isTouched b) then touch_new s blk now else Ret s);
  s ← (if isValid b then evict_old s blk else Ret s);
  s ← upd_blk s blk (fun b => with_tag (with_touched b true) (extractTag addr));
  _ ← cassert (master_id <? Z.of_nat (maxMasters c));
  s ← upd_occ s master_id 1;
  s ← upd_blk s blk (fun b => with_owner b master_id task now);
  Ret (with_accesses s (tagAccesses s + 1) (dataAccesses s + 1)).

(** [clearLocks()]: the locks of all blocks. *)
Definition BaseSetAssoc_clearLocks (s : TagsState) : TagsState :=
  with_blocks s (map (fun b => clearLoadLocks b None) (blks s)).

(** [cleanupRefs()]: accounts for the blocks still valid. *)
Definition BaseSetAssoc_cleanupRefs (s : TagsState) : TagsState :=
  foldl (fun s b =>
    if isValid b
    then with_refs s (replacements s) (totalRefs s + refCount b) (sampledRefs s + 1)
    else s) s (blks s).

(** [forEachBlk(visitor)]: the visitor may change each block and stops the walk
    by returning false. *)
Fixpoint forEachBlk (visitor : CacheBlk -> CacheBlk * bool) (l : list CacheBlk) :
    list CacheBlk :=
  match l with
  | [] => []
  | b :: l => let '(b', go) := visitor b in
              if (go : bool) then b' :: forEachBlk visitor l else b' :: l
  end.

End base_set_assoc.

(** The age class of a block, with the ticks per microsecond and per
    millisecond. *)
Definition age_index (us ms age : Z) : nat :=
  if age / us <? 10 then 0
  else if age / us <? 100 then 1
  else if age / ms <? 1 then 2
  else if age / ms <? 10 then 3
  else 4.

(** The loop of [computeStats()] over the blocks: per-task occupancy and
    per-task age histogram. *)
Fixpoint computeStats_loop (us ms now : Z) (l : list CacheBlk)
    (occ : list Z) (ages : list (list Z)) : res (list Z * list (list Z)) :=
  match l with
  | [] => Ret (occ, ages)
  | b :: l =>
      if isValid b then
        _ ← cassert (task_id b <? Z.of_nat NumTaskId);
        x ← vread occ (Z.to_nat (task_id b));
        occ ← vwrite occ (Z.to_nat (task_id b)) (x + 1);
        _ ← cassert (tickInserted b <=? now);
        let ai := age_index us ms (u64 (now - tickInserted b)) in
        row ← vread ages (Z.to_nat (task_id b));
        y ← vread row ai;
        row ← vwrite row ai (y + 1);
        ages ← vwrite ages (Z.to_nat (task_id b)) row;
        computeStats_loop us ms now l occ ages
      else computeStats_loop us ms now l occ ages
  end.

Definition BaseSetAssoc_computeStats (us ms now : Z) (s : TagsState) :
    res (list Z * list (list Z)) :=
  computeStats_loop us ms now (blks s) (replicate NumTaskId 0)
    (replicate NumTaskId (replicate 5 0)).

(** ** Construction *)

Record TagsParams := mkTagsParams {
  p_size : Z;
  p_block_size : Z;
  p_assoc : Z;
  p_sequential_access : bool;
  p_hit_latency : Z;
  p_write_hit_latency : Z
}.

(** One block of the constructor's loop, in way [j] of set [i]. *)
Definition init_blk (bsize : Z) (nways : nat) (uninit : Z) (i j : nat) : CacheBlk :=
  let b := CacheBlk_invalidate (CacheBlk_new uninit) in
  mkCacheBlk (task_id b) (asid b) (Z.of_nat j) (bsize * Z.of_nat (i * nways + j)) bsize
    (status b) 0 (Z.of_nat i) false (refCount b) (srcMasterId b) (tickInserted b)
    (tag_refcount b) (lockList b).

(** The nested loop that links blocks and sets. *)
Definition init_blks (bsize : Z) (nsets nways : nat) (uninit : Z) : list CacheBlk :=
  i ← seq 0 nsets; init_blk bsize nways uninit i <$> seq 0 nways.

Definition init_sets (nsets nways : nat) : list CacheSet :=
  (fun i => mkCacheSet nways (seq (i * nways) nways)) <$> seq 0 nsets.

(** The constructor; the number of sets is computed in the initialiser list,
    before the parameters are checked. *)
Definition BaseSetAssoc_new (p : TagsParams) (masters : nat) (period uninit : Z) :
    res (TagsConfig * TagsState) :=
  let way_bytes := u32 (p_block_size p * p_assoc p) in
  if way_bytes =? 0 then Err DivByZero else
  let nsets := p_size p / way_bytes in
  if (p_block_size p <? 4) || negb (isPowerOf2 32 (p_block_size p)) then Err Fatal
  else if (nsets <=? 0) || negb (isPowerOf2 32 nsets) then Err Fatal
  else if p_assoc p <=? 0 then Err Fatal
  else
    sshift ← floorLog2_u32 (p_block_size p);
    lsets ← floorLog2_u32 nsets;
    let nways := Z.to_nat (p_assoc p) in
    let c := mkTagsConfig (p_block_size p) nways (Z.to_nat nsets)
               (p_sequential_access p) (p_hit_latency p) (p_write_hit_latency p)
               sshift (sshift + lsets) (u32 (nsets - 1)) (u32 (p_block_size p - 1))
               (s32 (u32 (nsets * p_assoc p))) masters period in
    Ret (c, mkTagsState (init_sets (Z.to_nat nsets) nways)
              (init_blks (p_block_size p) (Z.to_nat nsets) nways uninit)
              false 0 0 0 0 0 (replicate masters 0) 0 0).

(** ** Updates through pointers *)

Lemma upd_blk_spec s p f b :
  blks s !! p = Some b -> upd_blk s p f = Ret (with_blocks s (<[p:=f b]> (blks s))).
Proof.
  intros Hb. unfold upd_blk. rewrite (vread_some _ _ _ Hb). bsimpl.
  rewrite vwrite_lt by (by eapply lookup_lt_Some). done.
Qed.

Lemma upd_set_spec s i f cs cs' :
  sets s !! i = Some cs -> f cs = Ret cs' ->
  upd_set s i f = Ret (with_sets s (<[i:=cs']> (sets s))).
Proof.
  intros Hc Hf. unfold upd_set. rewrite (vread_some _ _ _ Hc). bsimpl. rewrite Hf. bsimpl.
  rewrite vwrite_lt by (by eapply lookup_lt_Some). done.
Qed.

Lemma upd_occ_spec s m d x :
  occupancies s !! Z.to_nat m = Some x ->
  upd_occ s m d = Ret (with_occ s (<[Z.to_nat m := x + d]> (occupancies s))).
Proof.
  intros Hx. unfold upd_occ. rewrite (vread_some _ _ _ Hx). bsimpl.
  rewrite vwrite_lt by (by eapply lookup_lt_Some). done.
Qed.

(** ** Well-formed stores *)

Record config_wf (c : TagsConfig) : Prop := {
  cw_blk : exists kb, 2 <= kb < 32 /\ blkSize c = 2 ^ kb /\ setShift c = kb /\
             blkMask c = 2 ^ kb - 1;
  cw_sets : exists ks, 0 <= ks < 32 /\ Z.of_nat (numSets c) = 2 ^ ks /\
              setMask c = 2 ^ ks - 1 /\ tagShift c = setShift c + ks;
  cw_assoc : (0 < assoc c)%nat /\ Z.of_nat (assoc c) < 2 ^ 31;
  cw_period : 0 < clockPeriod c
}.

(** The sets partition the blocks: set [i] holds the blocks [i * assoc] to
    [i * assoc + assoc - 1], in some order, and each block knows its set. *)
Record tags_wf (c : TagsConfig) (s : TagsState) : Prop := {
  tw_nsets : length (sets s) = numSets c;
  tw_nblks : length (blks s) = (numSets c * assoc c)%nat;
  tw_occ : length (occupancies s) = maxMasters c;
  tw_set : forall i cs, sets s !! i = Some cs ->
    set_assoc cs = assoc c /\ set_blks cs ≡ₚ seq (i * assoc c) (assoc c);
  tw_blk : forall p b, blks s !! p = Some b -> blk_set b = Z.of_nat (p / assoc c)
}.

Section wf.
Context (c : TagsConfig) (Hc : config_wf c).

Lemma tags_set_wf s i cs : tags_wf c s -> sets s !! i = Some cs -> set_wf cs.
Proof.
  intros Hs Hi. destruct (tw_set _ _ Hs _ _ Hi) as [Ha Hp]. split.
  - by rewrite Hp, length_seq.
  - rewrite Hp. apply NoDup_seq.
Qed.

Lemma tags_set_elem s i cs p :
  tags_wf c s -> sets s !! i = Some cs ->
  p ∈ set_blks cs <-> (p < length (blks s))%nat /\ (p / assoc c)%nat = i.
Proof.
  intros Hs Hi. destruct (tw_set _ _ Hs _ _ Hi) as [_ ->].
  rewrite elem_of_seq, (tw_nblks _ _ Hs). destruct (cw_assoc _ Hc) as [Ha _].
  assert (i < numSets c)%nat.
  { rewrite <- (tw_nsets _ _ Hs). by eapply lookup_lt_Some. }
  split.
  - intros [Hlo Hhi]. split; [nia|]. symmetry.
    apply (Nat.div_unique _ _ _ (p - i * assoc c)); nia.
  - intros [_ <-]. pose proof (Nat.div_mod_eq p (assoc c)).
    pose proof (Nat.mod_upper_bound p (assoc c)). lia.
Qed.

Lemma extractSet_range addr :
  0 <= addr -> 0 <= extractSet c addr < Z.of_nat (numSets c).
Proof.
  intros Ha. destruct (cw_sets _ Hc) as (ks & Hks & Hn & Hm & _).
  unfold extractSet. rewrite Hm, Hn.
  replace (2 ^ ks - 1) with (Z.ones ks) by (rewrite Z.ones_equiv; lia).
  rewrite Z.land_ones by lia. apply Z.mod_pos_bound, pow2_pos. lia.
Qed.

Lemma set_of_addr s addr :
  tags_wf c s -> 0 <= addr ->
  exists cs, sets s !! Z.to_nat (extractSet c addr) = Some cs.
Proof.
  intros Hs Ha. apply lookup_lt_is_Some. rewrite (tw_nsets _ _ Hs).
  pose proof (extractSet_range addr Ha). lia.
Qed.

(** *** Address arithmetic *)

Lemma extractSet_eq addr :
  extractSet c addr = (addr / blkSize c) mod Z.of_nat (numSets c).
Proof.
  destruct (cw_blk _ Hc) as (kb & Hkb & -> & Hs & _).
  destruct (cw_sets _ Hc) as (ks & Hks & -> & Hm & _).
  unfold extractSet. rewrite Hs, Hm, Z.shiftr_div_pow2 by lia.
  replace (2 ^ ks - 1) with (Z.ones ks) by (rewrite Z.ones_equiv; lia).
  by rewrite Z.land_ones by lia.
Qed.

Lemma extractTag_eq addr :
  extractTag c addr = addr / (blkSize c * Z.of_nat (numSets c)).
Proof.
  destruct (cw_blk _ Hc) as (kb & Hkb & -> & Hs & _).
  destruct (cw_sets _ Hc) as (ks & Hks & -> & _ & Ht).
  unfold extractTag. rewrite Ht, Hs, Z.shiftr_div_pow2, Z.pow_add_r by lia. done.
Qed.

Lemma blkAlign_eq addr :
  inword 64 addr -> blkAlign c addr = addr - addr mod blkSize c.
Proof.
  intros. destruct (cw_blk _ Hc) as (kb & Hkb & -> & _ & Hm).
  unfold blkAlign. rewrite Hm. apply land_wnot_mask; [lia|done].
Qed.

Lemma lor_disjoint_add x y k :
  0 <= k -> 0 <= y < 2 ^ k -> x mod 2 ^ k = 0 -> Z.lor x y = x + y.
Proof.
  intros Hk Hy Hx.
  assert (Hl : Z.land x y = 0); [|by rewrite <- Z.lxor_lor, <- Z.add_nocarry_lxor].
  apply Z.bits_inj'. intros i Hi. rewrite Z.land_spec, Z.testbit_0_l.
  destruct (Z.lt_ge_cases i k).
  - apply andb_false_iff. left.
    rewrite <- (Z.mod_pow2_bits_low x k i) by lia. rewrite Hx. apply Z.testbit_0_l.
  - apply andb_false_iff. right. by apply (inword_testbit_high k y).
Qed.

(** Tag and set identify the block of an address. *)
Lemma regenerate_extract addr :
  inword 64 addr ->
  regenerateBlkAddr c (extractTag c addr) (extractSet c addr) = blkAlign c addr.
Proof.
  intros Ha. rewrite blkAlign_eq by done.
  pose proof (extractSet_eq addr) as Es. pose proof (extractTag_eq addr) as Et.
  destruct (cw_blk _ Hc) as (kb & Hkb & Hb & Hs & _).
  destruct (cw_sets _ Hc) as (ks & Hks & Hn & _ & Ht).
  rewrite Hb, Hn in *. unfold regenerateBlkAddr. rewrite Es, Et, Ht, Hs.
  rewrite !Z.shiftl_mul_pow2, Z.pow_add_r by lia.
  assert (0 < 2 ^ kb) by (apply pow2_pos; lia).
  assert (0 < 2 ^ ks) by (apply pow2_pos; lia).
  pose proof (Z.div_mod (addr / 2 ^ kb) (2 ^ ks) ltac:(lia)) as Hd.
  pose proof (Z.div_mod addr (2 ^ kb) ltac:(lia)) as Hd'.
  pose proof (Z.mod_pos_bound addr (2 ^ kb) ltac:(lia)).
  pose proof (Z.mod_pos_bound (addr / 2 ^ kb) (2 ^ ks) ltac:(lia)).
  rewrite <- Z.div_div by lia.
  set (q := addr / 2 ^ kb) in *. set (t := q / 2 ^ ks) in *. set (r := q mod 2 ^ ks) in *.
  assert (0 <= q) by (apply Z.div_pos; word_lia).
  assert (0 <= t) by (apply Z.div_pos; lia).
  rewrite !wrap_small by (unfold inword in *; nia).
  rewrite (lor_disjoint_add _ _ (kb + ks)).
  - nia.
  - lia.
  - rewrite Z.pow_add_r by lia. nia.
  - rewrite Z.pow_add_r by lia. apply Z.mod_mul. nia.
Qed.

Lemma extract_regenerate tg set :
  0 <= tg -> 0 <= set < Z.of_nat (numSets c) ->
  inword 64 (tg * (blkSize c * Z.of_nat (numSets c)) + set * blkSize c) ->
  extractTag c (regenerateBlkAddr c tg set) = tg /\
  extractSet c (regenerateBlkAddr c tg set) = set.
Proof.
  intros Ht0 Hset Hw. rewrite extractTag_eq, extractSet_eq.
  destruct (cw_blk _ Hc) as (kb & Hkb & Hb & Hs & _).
  destruct (cw_sets _ Hc) as (ks & Hks & Hn & _ & Ht).
  unfold regenerateBlkAddr. rewrite Hb, Hn in *. rewrite Ht, Hs.
  assert (0 < 2 ^ kb) by (apply pow2_pos; lia).
  assert (0 < 2 ^ ks) by (apply pow2_pos; lia).
  rewrite !Z.shiftl_mul_pow2, Z.pow_add_r by lia.
  rewrite !wrap_small by (unfold inword in *; nia).
  rewrite (lor_disjoint_add _ _ (kb + ks)).
  - rewrite <- Z.div_div by lia.
    replace ((tg * (2 ^ kb * 2 ^ ks) + set * 2 ^ kb) / 2 ^ kb) with (tg * 2 ^ ks + set)
      by (apply Z.div_unique_exact; lia).
    split.
    + symmetry. apply (Z.div_unique _ _ _ set); [lia|ring].
    + symmetry. apply (Z.mod_unique _ _ tg); [lia|ring].
  - lia.
  - rewrite Z.pow_add_r by lia. nia.
  - rewrite Z.pow_add_r by lia. apply Z.mod_mul. nia.
Qed.

End wf.

(** ** The constructor *)

Lemma init_blks_length bsize nsets nways u :
  length (init_blks bsize nsets nways u) = (nsets * nways)%nat.
Proof.
  unfold init_blks.
  assert (H : forall n k, length (seq k n ≫= fun i => init_blk bsize nways u i <$> seq 0 nways)
             = (n * nways)%nat); [|apply H].
  induction n as [|n IH]; intros k; cbn; [done|].
  rewrite length_app, IH. by rewrite length_fmap, length_seq.
Qed.

Lemma init_blks_lookup bsize nsets nways u p b :
  (0 < nways)%nat -> init_blks bsize nsets nways u !! p = Some b ->
  b = init_blk bsize nways u (p / nways) (p mod nways).
Proof.
  intros Hw. unfold init_blks.
  assert (H : forall n k q, (seq k n ≫= fun i => init_blk bsize nways u i <$> seq 0 nways) !! q
                = Some b -> b = init_blk bsize nways u (k + q / nways) (q mod nways));
    [|intros Hb; apply H in Hb; done].
  induction n as [|n IH]; intros k q; cbn; [done|].
  destruct (decide (q < nways)%nat) as [Hq|Hq].
  - rewrite lookup_app_l by (by rewrite length_fmap, length_seq).
    rewrite list_lookup_fmap, lookup_seq_lt by done. intros [= <-].
    rewrite Nat.div_small, Nat.mod_small by done. f_equal; lia.
  - rewrite lookup_app_r by (rewrite length_fmap, length_seq; lia).
    rewrite length_fmap, length_seq. intros Hb. rewrite (IH _ _ Hb).
    assert (Hq' : q = (1 * nways + (q - nways))%nat) by lia.
    rewrite Hq' at 3 4.
    rewrite Nat.div_add_l, (Nat.add_comm (1 * nways)), Nat.Div0.mod_add by lia.
    f_equal. lia.
Qed.

Lemma BaseSetAssoc_new_wf p masters period u c s :
  inword 32 (p_size p) -> inword 32 (p_block_size p) -> inword 31 (p_assoc p) ->
  0 < period ->
  BaseSetAssoc_new p masters period u = Ret (c, s) ->
  config_wf c /\ tags_wf c s /\ Forall (fun b => isValid b = false) (blks s).
Proof.
  intros Hsz Hbs Has Hper. unfold BaseSetAssoc_new.
  destruct (Z.eqb_spec (u32 (p_block_size p * p_assoc p)) 0) as [|Hwb]; [done|].
  set (nsets := p_size p / u32 (p_block_size p * p_assoc p)).
  destruct ((p_block_size p <? 4) || negb (isPowerOf2 32 (p_block_size p))) eqn:E1; [done|].
  destruct ((nsets <=? 0) || negb (isPowerOf2 32 nsets)) eqn:E2; [done|].
  destruct (p_assoc p <=? 0) eqn:E3; [done|]. reflect.
  assert (Hns : inword 32 nsets).
  { pose proof (wrap_range 32 (p_block_size p * p_assoc p) ltac:(lia)).
    split; [lia|]. unfold nsets. apply Z.div_lt_upper_bound; word_lia || nia. }
  rename select (isPowerOf2 32 (p_block_size p) = true) into Hpb.
  rename select (isPowerOf2 32 nsets = true) into Hpn.
  apply isPowerOf2_spec in Hpb as (kb & Hkb & Hb); [|lia|done].
  apply isPowerOf2_spec in Hpn as (ks & Hks & Hn); [|lia|done].
  rewrite !floorLog2_u32_log2 by word_lia. bsimpl.
  rewrite Hb, Hn in *. rewrite !Z.log2_pow2 by lia. intros [= <- <-].
  assert (2 <= kb).
  { apply Z.nlt_ge. intros ?. assert (kb = 0 \/ kb = 1) as [-> | ->] by lia; cbn in *; lia. }
  assert (0 < 2 ^ ks) by (apply pow2_pos; lia).
  assert (0 < 2 ^ kb) by (apply pow2_pos; lia).
  split; [|split].
  - split; cbn.
    + exists kb. rewrite wrap_small by word_lia. split_and!; done || lia.
    + exists ks. rewrite wrap_small by word_lia. split_and!; done || lia.
    + word_lia.
    + done.
  - split; cbn.
    + unfold init_sets. by rewrite length_fmap, length_seq.
    + apply init_blks_length.
    + apply length_replicate.
    + intros i cs. unfold init_sets. rewrite list_lookup_fmap.
      destruct (seq 0 (Z.to_nat (2 ^ ks)) !! i) as [j|] eqn:Hj; [|done].
      apply lookup_seq in Hj as [-> _]. intros [= <-]. cbn. done.
    + intros q b Hq. apply init_blks_lookup in Hq; [|lia]. subst b. done.
  - cbn. apply Forall_lookup. intros q b Hq. apply init_blks_lookup in Hq; [|lia]. by subst b.
Qed.

(** ** Effect of the base operations *)

(** The block as [insertBlock] leaves it; the caller sets its status. *)
Definition inserted (c : TagsConfig) (pkt : Packet) (now : Z) (b : CacheBlk) : CacheBlk :=
  mkCacheBlk (req_taskId (pkt_req pkt)) (asid b) (extractTag c (pkt_addr pkt)) (data b)
    (blk_size b) (if isValid b then 0 else status b) (whenReady b) (blk_set b) true
    (if isValid b then 0 else refCount b) (req_masterId (pkt_req pkt)) now
    (tag_refcount b) (if isValid b then [] else lockList b).

(** Masters are known to the system. *)
Definition master_ok (c : TagsConfig) (m : Z) : Prop := 0 <= m < Z.of_nat (maxMasters c).

Section base_ops.
Context (c : TagsConfig) (Hc : config_wf c).

Lemma occ_lookup s m :
  tags_wf c s -> master_ok c m -> exists x, occupancies s !! Z.to_nat m = Some x.
Proof.
  intros Hs Hm. apply lookup_lt_is_Some. rewrite (tw_occ _ _ Hs). unfold master_ok in Hm. lia.
Qed.

(** Occupancy counts after [occupancies[m] += d]. *)
Definition occ_add (m d : Z) (occ : list Z) : list Z := alter (Z.add d) (Z.to_nat m) occ.

Lemma upd_occ_add s m d x :
  occupancies s !! Z.to_nat m = Some x ->
  upd_occ s m d = Ret (with_occ s (occ_add m d (occupancies s))).
Proof.
  intros Hx. rewrite (upd_occ_spec _ _ _ _ Hx). do 2 f_equal. unfold occ_add.
  rewrite (alter_as_insert _ _ _ x) by done. f_equal. lia.
Qed.

Lemma touch_new_spec s p b now :
  blks s !! p = Some b ->
  exists s', touch_new c s p now = Ret s' /\
    sets s' = sets s /\ blks s' = <[p:=with_touched b true]> (blks s) /\
    tagsInUse s' = tagsInUse s + 1 /\ occupancies s' = occupancies s.
Proof.
  intros Hb. unfold touch_new. rewrite (upd_blk_spec _ p _ b) by done. bsimpl.
  case_head; eexists; split; reflexivity || done.
Qed.

Lemma evict_old_spec s p b :
  tags_wf c s -> blks s !! p = Some b -> master_ok c (srcMasterId b) ->
  exists s', evict_old c s p = Ret s' /\
    sets s' = sets s /\
    blks s' = <[p:=CacheBlk_invalidate (with_refCount b 0)]> (blks s) /\
    tagsInUse s' = tagsInUse s /\
    occupancies s' = occ_add (srcMasterId b) (-1) (occupancies s).
Proof.
  intros Hs Hb Hm. unfold evict_old. rewrite (vread_some _ _ _ Hb). bsimpl.
  rewrite (upd_blk_spec _ p _ b) by done. bsimpl.
  rewrite cassert_true by (apply Z.ltb_lt; unfold master_ok in Hm; lia). bsimpl.
  destruct (occ_lookup s _ Hs Hm) as [x Hx].
  rewrite (upd_occ_add _ _ _ x) by done. bsimpl.
  erewrite upd_blk_spec.
  2:{ cbn. apply list_lookup_insert_eq. by eapply lookup_lt_Some. }
  eexists. split; [reflexivity|]. cbn. by rewrite list_insert_insert_eq.
Qed.

Lemma touch_phase s p b now :
  blks s !! p = Some b ->
  exists s1, (if negb (isTouched b) then touch_new c s p now else Ret s) = Ret s1 /\
    sets s1 = sets s /\ blks s1 = <[p:=with_touched b true]> (blks s) /\
    tagsInUse s1 = tagsInUse s + (if isTouched b then 0 else 1) /\
    occupancies s1 = occupancies s.
Proof.
  intros Hb. destruct (isTouched b) eqn:Et; cbn [negb].
  - exists s. split_and!; try done; [|lia]. rewrite list_insert_id; [done|].
    rewrite Hb. f_equal. destruct b; cbn in *. by subst.
  - destruct (touch_new_spec s p b now Hb) as (s1 & -> & H1 & H2 & H3 & H4).
    by exists s1.
Qed.

Lemma evict_phase s p b :
  tags_wf c s -> blks s !! p = Some b ->
  (isValid b = true -> master_ok c (srcMasterId b)) ->
  exists s2, (if isValid b then evict_old c s p else Ret s) = Ret s2 /\
    sets s2 = sets s /\
    blks s2 = <[p:=if isValid b then CacheBlk_invalidate (with_refCount b 0) else b]> (blks s) /\
    tagsInUse s2 = tagsInUse s /\
    occupancies s2 = if isValid b then occ_add (srcMasterId b) (-1) (occupancies s)
                     else occupancies s.
Proof.
  intros Hs Hb Hsrc. destruct (isValid b) eqn:Ev.
  - by apply evict_old_spec; [..|apply Hsrc].
  - exists s. split_and!; try done. by rewrite list_insert_id.
Qed.

(** Changing a block in place keeps the store well formed. *)
Lemma tags_wf_insert s s' p b b' :
  tags_wf c s -> blks s !! p = Some b -> blk_set b' = blk_set b ->
  sets s' = sets s -> blks s' = <[p:=b']> (blks s) ->
  length (occupancies s') = length (occupancies s) -> tags_wf c s'.
Proof.
  intros [? ? ? ? Hbs] Hb Hset Es Eb Eo.
  split; rewrite ?Es, ?Eb, ?Eo, ?length_insert; try done.
  intros q b'' [(-> & <- & _)|[_ Hq]]%list_lookup_insert_Some; [|by apply Hbs].
  rewrite Hset. exact (Hbs _ _ Hb).
Qed.

Lemma base_insert_spec s pkt p b now :
  tags_wf c s -> blks s !! p = Some b ->
  (isValid b = true -> master_ok c (srcMasterId b)) ->
  master_ok c (req_masterId (pkt_req pkt)) ->
  exists s', BaseSetAssoc_insertBlock c s pkt p now = Ret s' /\
    sets s' = sets s /\ blks s' = <[p:=inserted c pkt now b]> (blks s) /\
    tagsInUse s' = tagsInUse s + (if isTouched b then 0 else 1) /\
    occupancies s' = occ_add (req_masterId (pkt_req pkt)) 1
      (if isValid b then occ_add (srcMasterId b) (-1) (occupancies s) else occupancies s).
Proof.
  intros Hs Hb Hsrc Hm. unfold BaseSetAssoc_insertBlock.
  rewrite (vread_some _ _ _ Hb). bsimpl.
  assert (Hlt : (p < length (blks s))%nat) by (by eapply lookup_lt_Some).
  destruct (touch_phase s p b now Hb) as (s1 & -> & Hset1 & Hblk1 & Huse1 & Hocc1). bsimpl.
  set (b1 := with_touched b true) in *.
  assert (Hl1 : blks s1 !! p = Some b1) by (rewrite Hblk1; by apply list_lookup_insert_eq).
  assert (Hwf1 : tags_wf c s1) by (apply (tags_wf_insert s s1 p b b1); done || by rewrite Hocc1).
  destruct (evict_phase s1 p b1 Hwf1 Hl1 Hsrc) as (s2 & Hev & Hset2 & Hblk2 & Huse2 & Hocc2).
  change (isValid b1) with (isValid b) in *. rewrite Hev. bsimpl.
  rewrite Hblk1, list_insert_insert_eq in Hblk2.
  erewrite (upd_blk_spec _ p) by (rewrite Hblk2; by apply list_lookup_insert_eq). bsimpl.
  rewrite cassert_true by (apply Z.ltb_lt; unfold master_ok in Hm; lia). bsimpl.
  assert (exists x, occupancies s2 !! Z.to_nat (req_masterId (pkt_req pkt)) = Some x)
    as [x Hx].
  { apply lookup_lt_is_Some. rewrite Hocc2, Hocc1. unfold occ_add.
    destruct (isValid b); rewrite ?length_alter, (tw_occ _ _ Hs); unfold master_ok in Hm; lia. }
  rewrite (upd_occ_add _ _ _ x) by done. bsimpl.
  erewrite upd_blk_spec.
  2:{ cbn. rewrite list_lookup_insert_eq; [reflexivity|]. by rewrite Hblk2, length_insert. }
  bsimpl. eexists. split; [reflexivity|]. cbn. split_and!.
  - congruence.
  - rewrite Hblk2, !list_insert_insert_eq. f_equal. unfold inserted.
    by destruct (isValid b).
  - rewrite Huse2, Huse1. done.
  - by rewrite Hocc2, Hocc1.
Qed.

Definition dropped (now : Z) (b : CacheBlk) : CacheBlk :=
  with_owner b invldMasterId TaskId_Unknown now.

Lemma base_invalidate_spec s p b now :
  tags_wf c s -> blks s !! p = Some b -> isValid b = true -> master_ok c (srcMasterId b) ->
  exists s', BaseSetAssoc_invalidate c s p now = Ret s' /\
    sets s' = sets s /\ blks s' = <[p:=dropped now b]> (blks s) /\
    tagsInUse s' = tagsInUse s - 1 /\
    occupancies s' = occ_add (srcMasterId b) (-1) (occupancies s).
Proof.
  intros Hs Hb Hv Hm. unfold BaseSetAssoc_invalidate. rewrite (vread_some _ _ _ Hb). bsimpl.
  rewrite Hv. bsimpl. rewrite cassert_true by (apply Z.ltb_lt; unfold master_ok in Hm; lia).
  bsimpl. destruct (occ_lookup s _ Hs Hm) as [x Hx].
  rewrite (upd_occ_add _ _ _ x) by done. bsimpl.
  rewrite (upd_blk_spec _ p _ b) by done. eexists. split; [reflexivity|]. done.
Qed.

Lemma ticksToCycles_total t : exists n, ticksToCycles c t = Ret n.
Proof.
  unfold ticksToCycles, divCeil. pose proof (cw_period _ Hc).
  destruct (Z.eqb_spec (clockPeriod c) 0); [lia|]. by eexists.
Qed.

Lemma base_findBlock_spec s addr sec :
  tags_wf c s -> 0 <= addr ->
  exists r, BaseSetAssoc_findBlock c s addr sec = Ret r /\
    match r with
    | Some p => (p < length (blks s))%nat /\ Z.of_nat (p / assoc c) = extractSet c addr /\
                blk_match (blks s) (extractTag c addr) sec p = true
    | None => forall p, (p < length (blks s))%nat -> Z.of_nat (p / assoc c) = extractSet c addr ->
                blk_match (blks s) (extractTag c addr) sec p = false
    end.
Proof.
  intros Hs Ha. unfold BaseSetAssoc_findBlock.
  destruct (set_of_addr c Hc s addr Hs Ha) as [cs Hcs].
  rewrite (vread_some _ _ _ Hcs). bsimpl.
  pose proof (extractSet_range c Hc addr Ha) as Hr.
  assert (Hel : forall p, p ∈ set_blks cs <->
            (p < length (blks s))%nat /\ Z.of_nat (p / assoc c) = extractSet c addr).
  { intros p. rewrite (tags_set_elem c Hc s _ cs) by done. lia. }
  destruct (findBlk_spec (blks s) cs (extractTag c addr) sec) as (r & -> & Hspec).
  { by eapply tags_set_wf. }
  { apply Forall_forall. intros p Hp. by apply Hel. }
  exists r. split; [done|]. destruct r as [p|].
  - destruct Hspec as [[? ?]%Hel ?]. done.
  - intros p ? ?. apply Hspec. by apply Hel.
Qed.

(** A lookup only bumps the reference count of the block it hits. *)
Lemma base_access_spec s addr sec rd now :
  tags_wf c s -> 0 <= addr ->
  exists s' r lat, BaseSetAssoc_accessBlock c s addr sec rd now = Ret (s', r, lat) /\
    BaseSetAssoc_findBlock c s addr sec = Ret r /\ sets s' = sets s /\
    tagsInUse s' = tagsInUse s /\ occupancies s' = occupancies s /\
    blks s' = match r with
              | Some p => alter (fun b => with_refCount b (refCount b + 1)) p (blks s)
              | None => blks s
              end.
Proof.
  intros Hs Ha. destruct (base_findBlock_spec s addr sec Hs Ha) as (r & Hf & Hspec).
  unfold BaseSetAssoc_accessBlock, BaseSetAssoc_findBlock in *.
  destruct (set_of_addr c Hc s addr Hs Ha) as [cs Hcs].
  rewrite (vread_some _ _ _ Hcs) in *. cbn [mbind res_bind] in *. rewrite Hf. bsimpl.
  destruct r as [p|]; [|by eauto 10].
  destruct Hspec as (Hp & _ & _). destruct (lookup_lt_is_Some_2 _ _ Hp) as [b Hb].
  rewrite (vread_some _ p b) by done. bsimpl.
  set (m := if now <? whenReady b then _ else _).
  assert (exists lat, m = Ret lat) as [lat ->].
  { unfold m. destruct (now <? whenReady b); [|by eexists].
    destruct (ticksToCycles_total (u64 (whenReady b - now))) as [n ->]. by eexists. }
  bsimpl. rewrite (upd_blk_spec _ p _ b) by done. bsimpl.
  eexists _, (Some p), lat. split_and!; try done. cbn.
  by rewrite (alter_as_insert _ _ _ b).
Qed.
End base_ops.

(** ** What a replacement policy may change

    Every policy derived from the base store delegates to the base operations
    and then only reorders ways within sets and updates the reuse counter of a
    block.  [reorder] is that freedom, an equivalence; a lookup cannot see it. *)

Definition blk_sim (b b' : CacheBlk) : Prop :=
  with_tag_refcount b 0 = with_tag_refcount b' 0.

Definition set_sim (a b : CacheSet) : Prop :=
  set_assoc a = set_assoc b /\ set_blks a ≡ₚ set_blks b.

Record reorder (s s' : TagsState) : Prop := {
  ro_sets : Forall2 set_sim (sets s) (sets s');
  ro_blks : Forall2 blk_sim (blks s) (blks s');
  ro_inUse : tagsInUse s = tagsInUse s';
  ro_occ : occupancies s = occupancies s'
}.

#[export] Instance blk_sim_equiv : Equivalence blk_sim.
Proof. unfold blk_sim. split; [intros ?|intros ??|intros ???]; congruence. Qed.

#[export] Instance set_sim_equiv : Equivalence set_sim.
Proof.
  unfold set_sim. split.
  - done.
  - by intros ?? [-> ->].
  - by intros ??? [-> ->] [-> ->].
Qed.

#[export] Instance reorder_equiv : Equivalence reorder.
Proof.
  split.
  - by split.
  - intros s s' []. by split.
  - intros s s' s'' [] []. split; [by etrans|by etrans|congruence..].
Qed.

Lemma blk_sim_fields b b' :
  blk_sim b b' ->
  tag b = tag b' /\ status b = status b' /\ blk_set b = blk_set b' /\
  isTouched b = isTouched b' /\ srcMasterId b = srcMasterId b'.
Proof. intros H. injection H. by intros; split_and!. Qed.

#[export] Instance isValid_proper : Proper (blk_sim ==> eq) isValid.
Proof. intros b b' (_ & H & _)%blk_sim_fields. unfold isValid. by rewrite H. Qed.

#[export] Instance tags_wf_proper c : Proper (reorder ==> iff) (tags_wf c).
Proof.
  assert (Hdir : forall s s', reorder s s' -> tags_wf c s -> tags_wf c s').
  2:{ intros s s' Hr. split; apply Hdir; [done|by symmetry]. }
  intros s s' [Hset Hblk _ Hocc] [Hn Hb Ho Hs Hbs]. split.
  - by rewrite <- (Forall2_length _ _ _ Hset).
  - by rewrite <- (Forall2_length _ _ _ Hblk).
  - by rewrite <- Hocc.
  - intros i cs Hi. destruct (Forall2_lookup_r _ _ _ _ _ Hset Hi) as (cs0 & Hi0 & Ha & Hp).
    rewrite <- Ha, <- Hp. by apply Hs.
  - intros p b Hp. destruct (Forall2_lookup_r _ _ _ _ _ Hblk Hp) as (b0 & Hp0 & Hsim).
    rewrite <- (Hbs _ _ Hp0). by apply blk_sim_fields in Hsim as (_ & _ & -> & _).
Qed.

Lemma blk_match_reorder s s' tg sec p :
  reorder s s' -> blk_match (blks s) tg sec p = blk_match (blks s') tg sec p.
Proof.
  intros [_ Hblk _ _]. unfold blk_match.
  destruct (blks s !! p) as [b|] eqn:Hp.
  - destruct (Forall2_lookup_l _ _ _ _ _ Hblk Hp) as (b' & -> & Hsim).
    apply blk_sim_fields in Hsim as (Ht & Hst & _).
    unfold isValid, isSecure. by rewrite Ht, Hst.
  - apply lookup_ge_None in Hp. rewrite (Forall2_length _ _ _ Hblk) in Hp.
    by rewrite (proj2 (lookup_ge_None _ _) Hp).
Qed.

(** ** The interface of a replacement policy

    The virtual functions of [BaseTags] that a policy overrides, and what the
    cache relies on: each operation does what the base operation does, up to
    [reorder], never stops the simulation when the base operation does not,
    keeps its own invariant, and the victim is a block of the right set. *)

Class TagPolicy (S : Type) := {
  tp_base : S -> TagsState;
  tp_with_base : S -> TagsState -> S;
  tp_accessBlock : TagsConfig -> S -> Z -> bool -> bool -> Z -> res (S * option nat * Z);
  tp_findVictim : TagsConfig -> S -> Z -> Z -> res (option nat);
  tp_insertBlock : TagsConfig -> S -> Packet -> nat -> Z -> res S;
  tp_invalidate : TagsConfig -> S -> nat -> Z -> res S
}.

(** A draw of the random number generator in [0, assoc - 1]; only the random
    policy looks at it. *)
Definition draw_ok (c : TagsConfig) (rnd : Z) : Prop := 0 <= rnd < Z.of_nat (assoc c).

(** What the cache may do to a block it holds a pointer to. *)
Definition client_blk (b b' : CacheBlk) : Prop :=
  tag_refcount b' = tag_refcount b /\ blk_set b' = blk_set b /\
  (isTouched b' || isValid b' = true -> isTouched b || isValid b = true).

Class TagPolicyOk (S : Type) `{TagPolicy S} (c : TagsConfig) (Inv : S -> Prop) : Prop := {
  tpo_base s b : tp_base (tp_with_base s b) = b;
  tpo_wf s : Inv s -> tags_wf c (tp_base s);
  tpo_client s p b b' s0 :
    Inv s -> blks (tp_base s) !! p = Some b -> client_blk b b' ->
    sets s0 = sets (tp_base s) -> blks s0 = <[p:=b']> (blks (tp_base s)) ->
    length (occupancies s0) = length (occupancies (tp_base s)) ->
    Inv (tp_with_base s s0);
  tpo_access s addr sec rd now s0 r lat :
    Inv s -> 0 <= addr ->
    BaseSetAssoc_accessBlock c (tp_base s) addr sec rd now = Ret (s0, r, lat) ->
    exists s', tp_accessBlock c s addr sec rd now = Ret (s', r, lat) /\
      reorder s0 (tp_base s') /\ Inv s';
  tpo_victim s addr rnd :
    Inv s -> 0 <= addr -> draw_ok c rnd ->
    exists p, tp_findVictim c s addr rnd = Ret (Some p) /\
      (p < length (blks (tp_base s)))%nat /\ Z.of_nat (p / assoc c) = extractSet c addr;
  tpo_insert s pkt p now s0 :
    Inv s -> 0 <= pkt_addr pkt -> (p < length (blks (tp_base s)))%nat ->
    Z.of_nat (p / assoc c) = extractSet c (pkt_addr pkt) ->
    BaseSetAssoc_insertBlock c (tp_base s) pkt p now = Ret s0 -> tags_wf c s0 ->
    blks s0 = alter (inserted c pkt now) p (blks (tp_base s)) ->
    sets s0 = sets (tp_base s) ->
    exists s', tp_insertBlock c s pkt p now = Ret s' /\ reorder s0 (tp_base s') /\ Inv s';
  tpo_invalidate s p now s0 :
    Inv s -> (p < length (blks (tp_base s)))%nat ->
    BaseSetAssoc_invalidate c (tp_base s) p now = Ret s0 -> tags_wf c s0 ->
    blks s0 = alter (dropped now) p (blks (tp_base s)) ->
    sets s0 = sets (tp_base s) ->
    exists s', tp_invalidate c s p now = Ret s' /\ reorder s0 (tp_base s') /\ Inv s'
}.

(** ** Properties *)

(** Tag, set and offset of an address.  For the shifts and masks the
    constructor computes, the set index of any address is in range, putting tag
    and set back together gives the address of the block, and taking the parts
    of a regenerated address gives the tag and the set it was made from. *)
Theorem address_roundtrip p masters period u c s addr tg set :
  inword 32 (p_size p) -> inword 32 (p_block_size p) -> inword 31 (p_assoc p) ->
  0 < period -> BaseSetAssoc_new p masters period u = Ret (c, s) ->
  inword 64 addr -> 0 <= tg -> 0 <= set < Z.of_nat (numSets c) ->
  inword 64 (tg * (blkSize c * Z.of_nat (numSets c)) + set * blkSize c) ->
  0 <= extractSet c addr < Z.of_nat (numSets c) /\
  regenerateBlkAddr c (extractTag c addr) (extractSet c addr) = blkAlign c addr /\
  blkAlign c addr = addr - addr mod blkSize c /\
  extractTag c (regenerateBlkAddr c tg set) = tg /\
  extractSet c (regenerateBlkAddr c tg set) = set.
Proof.
  intros Hsz Hbs Has Hper Hnew Ha Htg Hset Hw.
  destruct (BaseSetAssoc_new_wf _ _ _ _ _ _ Hsz Hbs Has Hper Hnew) as (Hc & _ & _).
  split; [apply extractSet_range; [done|word_lia]|].
  split; [by apply regenerate_extract|].
  split; [by apply blkAlign_eq|]. by apply extract_regenerate.
Qed.

(** A 1 KiB, 2-way store with 64-byte blocks: 8 sets. *)
Definition small_params : TagsParams := mkTagsParams 1024 64 2 false 2 3.

Definition small_config : TagsConfig :=
  mkTagsConfig 64 2 8 false 2 3 6 9 7 63 16 4 500.

Definition small_state : TagsState :=
  mkTagsState (init_sets 8 2) (init_blks 64 8 2 0) false 0 0 0 0 0 (replicate 4 0) 0 0.

Lemma small_new : BaseSetAssoc_new small_params 4 500 0 = Ret (small_config, small_state).
Proof. vm_compute. reflexivity. Qed.

Lemma small_wf :
  config_wf small_config /\ tags_wf small_config small_state /\
  Forall (fun b => isValid b = false) (blks small_state).
Proof.
  eapply BaseSetAssoc_new_wf; [..|exact small_new]; unfold inword; cbn; lia.
Qed.

Lemma address_roundtrip_witness :
  regenerateBlkAddr small_config (extractTag small_config 0x12345)
    (extractSet small_config 0x12345) = 0x12340.
Proof.
  destruct (address_roundtrip small_params 4 500 0 _ _ 0x12345 1 1
    ltac:(unfold inword; cbn; lia) ltac:(unfold inword; cbn; lia)
    ltac:(unfold inword; cbn; lia) ltac:(lia) small_new
    ltac:(unfold inword; cbn; lia) ltac:(lia) ltac:(cbn; lia)
    ltac:(unfold inword; cbn; lia)) as (_ & -> & -> & _).
  reflexivity.
Defined.

(** The constructor divides by [block_size * assoc] in its initialiser
    list, so the check that was to report a zero associativity is never
    reached: the division by zero comes first. *)
Theorem zero_assoc_divides p masters period u :
  p_assoc p = 0 -> BaseSetAssoc_new p masters period u = Err DivByZero.
Proof. intros H. unfold BaseSetAssoc_new. by rewrite H, Z.mul_0_r. Qed.

Lemma zero_assoc_divides_witness :
  BaseSetAssoc_new (mkTagsParams 1024 64 0 false 2 3) 4 500 0 = Err DivByZero.
Proof. apply zero_assoc_divides. reflexivity. Defined.
