(* ===== verification/SatCounter.v ===== *)
(** * Counters of the adaptive replacement policies:
    [mem/cache/tags/sat_counter.hh], [sdp_counter.hh], [psel.hh], [psel.cc] and
    [set_sample.hh]

    Saturating counters, the conservative counter with its hysteresis state
    machine, the stack-distance histograms, the policy selector of set duelling
    and the identification of sampled sets.  Files and plots written by these
    classes are not modelled; the samples handed to the statistics are. *)

From S2P Require Import Prelude.
Local Open Scope Z_scope.

(** ** [SaturatingCounter] *)

Record SaturatingCounter := mkSaturatingCounter {
  sc_max : Z;
  sc_counter : Z;
  sc_start : Z
}.

Definition sc_with (c : SaturatingCounter) (x : Z) : SaturatingCounter :=
  mkSaturatingCounter (sc_max c) x (sc_start c).

(** [check_set(n)] tests the current counter, not [n]. *)
Definition SC_check_set (c : SaturatingCounter) (n : Z) : SaturatingCounter :=
  if sc_max c <? sc_counter c then sc_with c (sc_max c) else sc_with c n.

(** The constructor does not initialise [counter] before [check_set] reads it:
    [uninit] is what memory held. *)
Definition SC_new (uninit max start : Z) : SaturatingCounter :=
  SC_check_set (mkSaturatingCounter max uninit start) start.

Definition SC_increment (c : SaturatingCounter) (n : Z) : SaturatingCounter :=
  if sc_counter c <=? u32 (sc_max c - n)
  then sc_with c (u32 (sc_counter c + n))
  else sc_with c (sc_max c).

Definition SC_decrement (c : SaturatingCounter) (n : Z) : SaturatingCounter :=
  if n <=? sc_counter c
  then sc_with c (u32 (sc_counter c - n))
  else sc_with c 0.

Definition SC_reset (c : SaturatingCounter) : SaturatingCounter := sc_with c (sc_start c).

Definition SC_isMax (c : SaturatingCounter) : bool := sc_counter c =? sc_max c.
Definition SC_isMin (c : SaturatingCounter) : bool := sc_counter c =? 0.

(** [operator++(int)]: the copy it returns is built by the constructor. *)
Definition SC_postinc (uninit : Z) (c : SaturatingCounter) :
    SaturatingCounter * SaturatingCounter :=
  (SC_increment c 1, SC_new uninit (sc_max c) (sc_counter c)).

Definition SC_postdec (uninit : Z) (c : SaturatingCounter) :
    SaturatingCounter * SaturatingCounter :=
  (SC_decrement c 1, SC_new uninit (sc_max c) (sc_counter c)).

(** ** [ConservativeStateMachine] and [ConservativeSaturatingCounter] *)

(** [ConservativeStateMachine::decrement] ignores its argument. *)
Definition CSM_decrement (c : SaturatingCounter) (n : Z) : SaturatingCounter := SC_reset c.

Record ConservativeCounter := mkConservativeCounter {
  cc_base : SaturatingCounter;
  cc_sm : SaturatingCounter
}.

Definition CC_new (uninit uninit_sm max state_max start state_start : Z) :
    ConservativeCounter :=
  mkConservativeCounter (SC_new uninit max start) (SC_new uninit_sm state_max state_start).

(** [sm++] increments the state machine by one. *)
Definition CC_increment (c : ConservativeCounter) (n : Z) : ConservativeCounter :=
  let sm := SC_increment (cc_sm c) 1 in
  mkConservativeCounter
    (if SC_isMax sm then SC_increment (cc_base c) n else cc_base c) sm.

(** [sm--] dispatches to the state machine's own [decrement]. *)
Definition CC_decrement (c : ConservativeCounter) (n : Z) : ConservativeCounter :=
  let sm := CSM_decrement (cc_sm c) 1 in
  mkConservativeCounter
    (if SC_isMin sm then SC_decrement (cc_base c) n else cc_base c) sm.

(** The conversion to [unsigned int]. *)
Definition CC_value (c : ConservativeCounter) : Z := sc_counter (cc_base c).

(** ** [StackDistanceCounter] and [StackDistanceCounterArray] *)

Record StackDistanceCounter := mkStackDistanceCounter {
  sd_counter : list Z;
  sd_assoc : nat
}.

Definition SD_new (assoc : nat) : StackDistanceCounter :=
  mkStackDistanceCounter (replicate assoc 0) assoc.

Definition SD_sample (s : StackDistanceCounter) (lrustate : nat) : res StackDistanceCounter :=
  _ ← cassert (lrustate <? sd_assoc s)%nat;
  x ← vread (sd_counter s) lrustate;
  l ← vwrite (sd_counter s) lrustate (u64 (x + 1));
  Ret (mkStackDistanceCounter l (sd_assoc s)).

Definition SD_get (s : StackDistanceCounter) (lrustate : nat) : res Z :=
  _ ← cassert (lrustate <? sd_assoc s)%nat;
  vread (sd_counter s) lrustate.

(** The loop of [reset()]. *)
Fixpoint SD_reset_loop (l : list Z) (fuel i : nat) : res (list Z) :=
  match fuel with
  | O => Ret l
  | S fuel => l ← vwrite l i 0; SD_reset_loop l fuel (S i)
  end.

Definition SD_reset (s : StackDistanceCounter) : res StackDistanceCounter :=
  l ← SD_reset_loop (sd_counter s) (sd_assoc s) 0;
  Ret (mkStackDistanceCounter l (sd_assoc s)).

Record StackDistanceCounterArray := mkStackDistanceCounterArray {
  sda_array : list StackDistanceCounter;
  sda_size : Z
}.

Definition SDA_new (assoc : nat) (array_size : Z) : StackDistanceCounterArray :=
  mkStackDistanceCounterArray (replicate (Z.to_nat array_size) (SD_new assoc)) array_size.

(** The index is unsigned, so only the upper clamp can act. *)
Definition SDA_sample (s : StackDistanceCounterArray) (index : Z) (lrustate : nat) :
    res StackDistanceCounterArray :=
  let last := u32 (sda_size s - 1) in
  let i := if index <? 0 then 0 else if last <? index then last else index in
  _ ← cassert (i <? sda_size s);
  c ← vread (sda_array s) (Z.to_nat i);
  c ← SD_sample c lrustate;
  l ← vwrite (sda_array s) (Z.to_nat i) c;
  Ret (mkStackDistanceCounterArray l (sda_size s)).

(** ** [PolicySelector] *)

Record PolicySelector := mkPolicySelector {
  psel_counter : Z;
  psel_max : Z;
  psel_nbit : Z;
  psel_sampled : Z;
  psel_dist : list (Z * Z)   (* samples of valueDist: value and duration, latest first *)
}.

(** [pow(2, nbit) - 1] is converted to [unsigned]. *)
Definition PSEL_new (uninit_sampled nbit : Z) : res PolicySelector :=
  if 32 <? nbit then Err BadConversion
  else let m := 2 ^ nbit - 1 in Ret (mkPolicySelector (m / 2) m nbit uninit_sampled []).

Definition PSEL_sampleCounter (p : PolicySelector) (now : Z) : PolicySelector :=
  mkPolicySelector (psel_counter p) (psel_max p) (psel_nbit p) now
    ((psel_counter p, u64 (now - psel_sampled p)) :: psel_dist p).

Definition psel_with (p : PolicySelector) (x : Z) : PolicySelector :=
  mkPolicySelector x (psel_max p) (psel_nbit p) (psel_sampled p) (psel_dist p).

Definition PSEL_increment (p : PolicySelector) (now : Z) : PolicySelector :=
  let p := PSEL_sampleCounter p now in
  psel_with p (if psel_counter p <? psel_max p then u32 (psel_counter p + 1) else psel_max p).

Definition PSEL_decrement (p : PolicySelector) (now : Z) : PolicySelector :=
  let p := PSEL_sampleCounter p now in
  psel_with p (if 0 <? psel_counter p then u32 (psel_counter p - 1) else 0).

Definition PSEL_isOver (p : PolicySelector) : bool := psel_max p / 2 <? psel_counter p.
Definition PSEL_isUnder (p : PolicySelector) : bool := if PSEL_isOver p then false else true.

(** ** [SampledSetIdentifier] *)

Record SampledSetIdentifier := mkSampledSetIdentifier {
  ss_nsets : Z;
  ss_inConstituency : Z;
  ss_bsize : Z
}.

Definition SS_new (nsets bsize : Z) : SampledSetIdentifier :=
  mkSampledSetIdentifier nsets 32 bsize.

Definition SS_getSet (s : SampledSetIdentifier) (addr : Z) : res Z :=
  if (ss_bsize s =? 0) || (ss_nsets s =? 0) then Err DivByZero
  else Ret (u32 ((addr / ss_bsize s) `mod` ss_nsets s)).

Definition SS_getConstituencyID (s : SampledSetIdentifier) (set : Z) : Z :=
  set / ss_inConstituency s.
Definition SS_getConstituencyOffset (s : SampledSetIdentifier) (set : Z) : Z :=
  set `mod` ss_inConstituency s.

Definition SS_isSampledSet (s : SampledSetIdentifier) (set tid : Z) : res bool :=
  let id := SS_getConstituencyID s set in
  let offset := SS_getConstituencyOffset s set in
  _ ← cassert (u32 (offset + tid) <? ss_inConstituency s);
  Ret (id =? u32 (offset + tid)).

Definition SS_isSampledSetInverted (s : SampledSetIdentifier) (set tid : Z) : res bool :=
  let id := SS_getConstituencyID s set in
  let offset := SS_getConstituencyOffset s set in
  let invert_offset := u32 (ss_inConstituency s - 1 - offset) in
  _ ← cassert (u32 (invert_offset - tid) <? ss_inConstituency s);
  Ret (id =? u32 (invert_offset - tid)).

Definition SS_isSampledAddr (s : SampledSetIdentifier) (addr tid : Z) : res bool :=
  set ← SS_getSet s addr; SS_isSampledSet s set tid.

Definition SS_isSampledAddrInverted (s : SampledSetIdentifier) (addr tid : Z) : res bool :=
  set ← SS_getSet s addr; SS_isSampledSetInverted s set tid.

(** ** Saturating counters *)

Definition sc_wf (c : SaturatingCounter) : Prop :=
  0 <= sc_counter c <= sc_max c /\ sc_max c < 2 ^ 32.

Lemma SC_increment_sat c n :
  sc_wf c -> 0 <= n <= sc_max c ->
  SC_increment c n = sc_with c (Z.min (sc_counter c + n) (sc_max c)).
Proof.
  intros [] ?. unfold SC_increment. rewrite (wrap_small _ (_ - _)) by word_lia.
  destruct (Z.leb_spec (sc_counter c) (sc_max c - n)).
  - rewrite wrap_small by word_lia. f_equal. lia.
  - f_equal. lia.
Qed.

Lemma SC_decrement_sat c n :
  sc_wf c -> 0 <= n -> SC_decrement c n = sc_with c (Z.max (sc_counter c - n) 0).
Proof.
  intros [] ?. unfold SC_decrement. destruct (Z.leb_spec n (sc_counter c)).
  - rewrite wrap_small by word_lia. f_equal. lia.
  - f_equal. lia.
Qed.

Lemma sc_wf_with c x : sc_wf c -> 0 <= x <= sc_max c -> sc_wf (sc_with c x).
Proof. unfold sc_wf. cbn. lia. Qed.

Lemma SC_increment_wf c n : sc_wf c -> 0 <= n <= sc_max c -> sc_wf (SC_increment c n).
Proof.
  intros Hc ?. rewrite SC_increment_sat by done. apply sc_wf_with; [done|].
  destruct Hc. lia.
Qed.

Lemma SC_decrement_wf c n : sc_wf c -> 0 <= n -> sc_wf (SC_decrement c n).
Proof.
  intros Hc ?. rewrite SC_decrement_sat by done. apply sc_wf_with; [done|].
  destruct Hc. lia.
Qed.

#[export] Hint Resolve SC_increment_wf SC_decrement_wf sc_wf_with : s2p.

(** The state of a conservative counter whose state machine starts at 0. *)
Record cc_wf (c : ConservativeCounter) : Prop := {
  ccw_base : sc_wf (cc_base c);
  ccw_sm : sc_wf (cc_sm c);
  ccw_max : 0 < sc_max (cc_sm c);
  ccw_start : sc_start (cc_sm c) = 0
}.

Lemma CC_increment_spec c :
  cc_wf c -> 0 < sc_max (cc_base c) ->
  CC_increment c 1 = mkConservativeCounter
    (if sc_max (cc_sm c) <=? sc_counter (cc_sm c) + 1
     then sc_with (cc_base c) (Z.min (CC_value c + 1) (sc_max (cc_base c)))
     else cc_base c)
    (sc_with (cc_sm c) (Z.min (sc_counter (cc_sm c) + 1) (sc_max (cc_sm c)))).
Proof.
  intros [Hb Hs ? ?] ?. unfold CC_increment, SC_isMax, CC_value.
  rewrite (SC_increment_sat (cc_sm c)), (SC_increment_sat (cc_base c)) by (done || lia).
  f_equal. cbn. destruct Hs as [? _].
  destruct (Z.eqb_spec (Z.min (sc_counter (cc_sm c) + 1) (sc_max (cc_sm c))) (sc_max (cc_sm c)));
    destruct (Z.leb_spec (sc_max (cc_sm c)) (sc_counter (cc_sm c) + 1)); try done; lia.
Qed.

Lemma CC_decrement_spec c :
  cc_wf c -> CC_decrement c 1 = mkConservativeCounter
    (sc_with (cc_base c) (Z.max (CC_value c - 1) 0)) (sc_with (cc_sm c) 0).
Proof.
  intros [Hb Hs ? Hst]. unfold CC_decrement, CSM_decrement, SC_reset, SC_isMin, CC_value.
  cbn. rewrite Hst. cbn. by rewrite SC_decrement_sat.
Qed.

Lemma CC_increment_wf c : cc_wf c -> 0 < sc_max (cc_base c) -> cc_wf (CC_increment c 1).
Proof.
  intros Hc ?. rewrite CC_increment_spec by done. destruct Hc as [Hb Hs ? ?].
  pose proof Hb as [? _]. pose proof Hs as [? _]. unfold CC_value.
  split; cbn; [case_head; [apply sc_wf_with; [done|lia]|done]| |done..].
  apply sc_wf_with; [done|lia].
Qed.

Lemma CC_decrement_wf c : cc_wf c -> cc_wf (CC_decrement c 1).
Proof.
  intros Hc. rewrite CC_decrement_spec by done. destruct Hc as [Hb Hs ? ?].
  pose proof Hb as [? _]. pose proof Hs as [? _]. unfold CC_value.
  split; cbn; [..|done]; try apply sc_wf_with; done || lia.
Qed.

Lemma CC_increment_max c n :
  sc_max (cc_base (CC_increment c n)) = sc_max (cc_base c) /\
  sc_max (cc_sm (CC_increment c n)) = sc_max (cc_sm c).
Proof.
  unfold CC_increment, SC_increment. cbn. split; repeat case_head; done.
Qed.

Lemma CC_iter_spec k c :
  cc_wf c -> 0 < sc_max (cc_base c) ->
  let c' := Nat.iter k (fun c => CC_increment c 1) c in
  cc_wf c' /\ sc_max (cc_base c') = sc_max (cc_base c) /\ sc_max (cc_sm c') = sc_max (cc_sm c) /\
  sc_counter (cc_sm c') = Z.min (sc_counter (cc_sm c) + Z.of_nat k) (sc_max (cc_sm c)) /\
  CC_value c' = Z.min (sc_max (cc_base c))
    (CC_value c + Z.max 0 (Z.of_nat k - Z.max 0 (sc_max (cc_sm c) - sc_counter (cc_sm c) - 1))).
Proof.
  intros Hc Hm. induction k as [|k (Hwf & Hb & Hsm & Hs & Hv) ].
  - cbn - [Z.of_nat]. split; [done|]. destruct Hc as [[? _] [? _] ? ?]. unfold CC_value in *. split_and!; try done; lia.
  - rewrite Nat.iter_succ. set (c1 := Nat.iter k _ c) in *. intros c'. subst c'. split; [apply CC_increment_wf; [done|lia]|].
    destruct (CC_increment_max c1 1) as [-> ->]. split; [done|]. split; [done|].
    rewrite CC_increment_spec by (done || lia). unfold CC_value in *. cbn - [Z.of_nat].
    rewrite Hb, Hsm, Hs, Nat2Z.inj_succ. destruct Hc as [[? _] [? _] ? ?].
    split; [lia|]. destruct (Z.leb_spec (sc_max (cc_sm c))
      (Z.min (sc_counter (cc_sm c) + Z.of_nat k) (sc_max (cc_sm c)) + 1)); cbn; lia.
Qed.

(** ** Histograms *)

Definition sd_wf (s : StackDistanceCounter) : Prop := length (sd_counter s) = sd_assoc s.

(** Samples at distance [d]. *)
Definition sampled_at (d : nat) (tr : list nat) : Z := Z.of_nat (count_occ Nat.eq_dec tr d).

Lemma SD_sample_spec s d :
  sd_wf s -> (d < sd_assoc s)%nat ->
  SD_sample s d = Ret (mkStackDistanceCounter
    (alter (fun x => u64 (x + 1)) d (sd_counter s)) (sd_assoc s)).
Proof.
  intros Hs Hd. unfold SD_sample. rewrite cassert_true by (by apply Nat.ltb_lt). bsimpl.
  assert (Hlt : (d < length (sd_counter s))%nat) by (by rewrite Hs).
  destruct (lookup_lt_is_Some_2 _ _ Hlt) as [x Hx].
  rewrite (vread_some _ _ _ Hx). bsimpl. rewrite vwrite_lt by done. bsimpl.
  by rewrite (alter_as_insert _ _ _ x).
Qed.

Lemma SD_reset_spec s :
  sd_wf s -> SD_reset s = Ret (SD_new (sd_assoc s)).
Proof.
  intros Hs. unfold SD_reset.
  assert (H : forall k l i, (i + k = length l)%nat ->
            SD_reset_loop l k i = Ret (take i l ++ replicate k 0)).
  { induction k as [|k IH]; intros l i Hl; cbn.
    - by rewrite app_nil_r, take_ge by lia.
    - rewrite vwrite_lt by lia. bsimpl. rewrite IH by (rewrite length_insert; lia).
      erewrite take_S_r by (apply list_lookup_insert_eq; lia).
      rewrite take_insert_ge by lia. by rewrite <- app_assoc. }
  rewrite H by (rewrite Hs; lia). done.
Qed.

(** A run of samples over the rows of an array of histograms. *)
Fixpoint SDA_run (s : StackDistanceCounterArray) (tr : list (Z * nat)) :
    res StackDistanceCounterArray :=
  match tr with
  | [] => Ret s
  | (i, d) :: tr => s ← SDA_sample s i d; SDA_run s tr
  end.

(** The samples that land in row [r] of an array of [n] rows. *)
Definition row_samples (n : Z) (r : nat) (tr : list (Z * nat)) : list nat :=
  (fun x => x.2) <$> filter (fun x => Z.to_nat (Z.min x.1 (n - 1)) = r) tr.

Record sda_wf (a : nat) (s : StackDistanceCounterArray) : Prop := {
  sdw_size : 0 < sda_size s < 2 ^ 32;
  sdw_len : Z.of_nat (length (sda_array s)) = sda_size s;
  sdw_rows : Forall (fun c => sd_wf c /\ sd_assoc c = a) (sda_array s)
}.

Lemma SDA_sample_spec a s i d :
  sda_wf a s -> 0 <= i -> (d < a)%nat ->
  exists s', SDA_sample s i d = Ret s' /\ sda_wf a s' /\ sda_size s' = sda_size s /\
    sda_array s' = alter (fun c => mkStackDistanceCounter
        (alter (fun x => u64 (x + 1)) d (sd_counter c)) (sd_assoc c))
      (Z.to_nat (Z.min i (sda_size s - 1))) (sda_array s).
Proof.
  intros [Hsz Hl Hrows] Hi Hd. unfold SDA_sample. rewrite wrap_small by word_lia.
  set (j := if i <? 0 then 0 else _).
  assert (Hj : j = Z.min i (sda_size s - 1)).
  { unfold j. destruct (Z.ltb_spec i 0); [lia|].
    destruct (Z.ltb_spec (sda_size s - 1) i); lia. }
  rewrite cassert_true by (apply Z.ltb_lt; lia). bsimpl. rewrite Hj.
  set (k := Z.to_nat (Z.min i (sda_size s - 1))).
  assert (Hk : (k < length (sda_array s))%nat) by (unfold k; lia).
  destruct (lookup_lt_is_Some_2 _ _ Hk) as [c Hc].
  rewrite (vread_some _ _ _ Hc). bsimpl.
  destruct (Forall_lookup_1 _ _ _ _ Hrows Hc) as [Hwf Ha].
  rewrite SD_sample_spec by (done || lia). bsimpl. rewrite vwrite_lt by done. bsimpl.
  eexists. split; [reflexivity|]. cbn. split_and!; [|done|].
  - split; cbn; [done|by rewrite length_insert|].
    apply Forall_insert; [done|]. unfold sd_wf in *. cbn. by rewrite length_alter.
  - by rewrite (alter_as_insert _ _ _ c).
Qed.

Lemma SDA_run_spec a tr : forall s,
  sda_wf a s -> Forall (fun x => 0 <= x.1 /\ (x.2 < a)%nat) tr ->
  exists s', SDA_run s tr = Ret s' /\ sda_wf a s' /\ sda_size s' = sda_size s /\
    forall r d, (r < length (sda_array s))%nat ->
      (sda_array s' !! r ≫= fun c => sd_counter c !! d) =
      (fun x => if decide (sampled_at d (row_samples (sda_size s) r tr) = 0) then x
                else u64 (x + sampled_at d (row_samples (sda_size s) r tr))) <$>
      (sda_array s !! r ≫= fun c => sd_counter c !! d).
Proof.
  induction tr as [|[i e] tr IH]; intros s Hs Htr.
  - exists s. split_and!; try done. intros r d _. cbn.
    by destruct (sda_array s !! r ≫= _).
  - apply Forall_cons in Htr as [[Hi He] Htr]. cbn in Hi, He.
    destruct (SDA_sample_spec a s i e Hs Hi He) as (s1 & E1 & Hs1 & Hz1 & Ha1).
    destruct (IH s1 Hs1 Htr) as (s' & E' & Hs' & Hz' & Hrun).
    exists s'. cbn [SDA_run]. rewrite E1. bsimpl. rewrite Hz1 in *. split_and!; try done.
    intros r d Hr. rewrite Hrun by (by rewrite Ha1, length_alter). rewrite Ha1.
    set (t := row_samples (sda_size s) r tr).
    set (k := Z.to_nat (Z.min i (sda_size s - 1))).
    assert (Et : row_samples (sda_size s) r ((i, e) :: tr) = if decide (k = r) then e :: t else t).
    { unfold row_samples. rewrite filter_cons. cbn. fold k. by case_decide. }
    rewrite Et. rewrite list_lookup_alter. case_decide as Ek; [|done]. subst r.
    destruct (sda_array s !! k) as [c|]; [|done]. cbn. rewrite list_lookup_alter.
    unfold sampled_at. cbn. destruct (Nat.eq_dec e d) as [->|Hne].
    + rewrite decide_True by done. destruct (sd_counter c !! d) as [x|]; [|done]. cbn.
      f_equal. rewrite (decide_False (P := Z.of_nat (S _) = 0)) by lia.
      rewrite Nat2Z.inj_succ. case_decide as E0; [f_equal; lia|].
      rewrite wrap_add_l. f_equal. lia.
    + by rewrite decide_False.
Qed.

(** ** The policy selector *)

Record psel_wf (p : PolicySelector) : Prop := {
  pw_nbit : 0 <= psel_nbit p <= 32;
  pw_max : psel_max p = 2 ^ psel_nbit p - 1;
  pw_counter : 0 <= psel_counter p <= psel_max p
}.

Lemma psel_max_word p : psel_wf p -> psel_max p < 2 ^ 32.
Proof.
  intros [Hn -> _]. pose proof (Z.pow_le_mono_r 2 (psel_nbit p) 32). lia.
Qed.

Lemma PSEL_new_wf u nbit p : 0 <= nbit -> PSEL_new u nbit = Ret p -> psel_wf p.
Proof.
  intros Hn. unfold PSEL_new. destruct (Z.ltb_spec 32 nbit); [done|]. intros [= <-].
  pose proof (pow2_pos nbit Hn). split; cbn - [Z.div]; [lia|done|].
  split; [apply Z.div_pos; lia|apply Z.div_le_upper_bound; lia].
Qed.

(** A miss in a dedicated set at some tick: up or down. *)
Definition PSEL_step (p : PolicySelector) (e : bool * Z) : PolicySelector :=
  if e.1 then PSEL_increment p e.2 else PSEL_decrement p e.2.

Definition clamp_step (m : Z) (x : Z) (e : bool * Z) : Z :=
  if e.1 then Z.min (x + 1) m else Z.max (x - 1) 0.

Lemma PSEL_step_spec p e :
  psel_wf p ->
  PSEL_step p e = mkPolicySelector (clamp_step (psel_max p) (psel_counter p) e) (psel_max p)
    (psel_nbit p) e.2 ((psel_counter p, u64 (e.2 - psel_sampled p)) :: psel_dist p).
Proof.
  intros Hp. pose proof (psel_max_word p Hp). destruct Hp as [_ _ Hc].
  unfold PSEL_step, clamp_step, PSEL_increment, PSEL_decrement, psel_with. cbn.
  destruct e as [[] now]; cbn; f_equal.
  - destruct (Z.ltb_spec (psel_counter p) (psel_max p)); [|lia].
    rewrite wrap_small by word_lia. lia.
  - destruct (Z.ltb_spec 0 (psel_counter p)); [|lia].
    rewrite wrap_small by word_lia. lia.
Qed.

Lemma PSEL_step_wf p e : psel_wf p -> psel_wf (PSEL_step p e).
Proof.
  intros Hp. rewrite PSEL_step_spec by done. destruct Hp as [? Hm ?].
  split; cbn; [done|done|]. unfold clamp_step. case_head; lia.
Qed.

Lemma PSEL_run_wf tr p : psel_wf p -> psel_wf (foldl PSEL_step p tr).
Proof.
  revert p. induction tr as [|e tr IH]; [done|]. intros p Hp. cbn.
  by apply IH, PSEL_step_wf.
Qed.

(** ** Properties *)

(** Saturating counters.  From a value in range, [increment(n)] with
    [n <= max] adds up to the maximum, [decrement(n)] subtracts down to zero, and
    the value stays in range; [reset()] restores the start value. *)
Theorem SC_saturates c n :
  sc_wf c -> 0 <= n <= sc_max c ->
  SC_increment c n = sc_with c (Z.min (sc_counter c + n) (sc_max c)) /\
  SC_decrement c n = sc_with c (Z.max (sc_counter c - n) 0) /\
  sc_wf (SC_increment c n) /\ sc_wf (SC_decrement c n) /\
  sc_counter (SC_reset c) = sc_start c.
Proof.
  intros Hc Hn.
  assert (0 <= n) by lia.
  split_and!; auto using SC_increment_sat, SC_decrement_sat with s2p.
Qed.

Lemma SC_saturates_witness :
  SC_increment (mkSaturatingCounter 7 5 0) 3 = mkSaturatingCounter 7 7 0.
Proof.
  destruct (SC_saturates (mkSaturatingCounter 7 5 0) 3) as [-> _]; cbn.
  - unfold sc_wf. cbn. lia.
  - lia.
  - reflexivity.
Defined.

(** Where the saturating counter does not saturate.  [increment(n)] with
    [n > max] computes [max - n] modulo 2^32 and leaves the range upwards; the
    constructor looks at uninitialised memory, so that a start value can be
    lost, and it accepts a start value above the maximum. *)
Theorem SC_defects :
  (forall max x n, 0 <= x <= max -> max < n -> x + n < 2 ^ 32 ->
     x <= 2 ^ 32 + max - n ->
     sc_counter (SC_increment (mkSaturatingCounter max x 0) n) = x + n) /\
  (forall u max start, max < u -> sc_counter (SC_new u max start) = max) /\
  (forall u max start, u <= max -> sc_counter (SC_new u max start) = start).
Proof.
  split_and!.
  - intros max x n Hx Hn Hs Hle. unfold SC_increment. cbn.
    rewrite (wrap_sub_neg 32) by word_lia.
    destruct (Z.leb_spec x (max - n + 2 ^ 32)); [|lia]. cbn. apply wrap_small. word_lia.
  - intros u max start H. unfold SC_new, SC_check_set. cbn.
    destruct (Z.ltb_spec max u); [done|lia].
  - intros u max start H. unfold SC_new, SC_check_set. cbn.
    destruct (Z.ltb_spec max u); [lia|done].
Qed.

(** Hysteresis of the conservative counter.  When its state machine starts
    at zero, [k] increments in a row raise the value only from the increment
    that brings the state machine to its maximum, by one each and up to the
    maximum; one decrement lowers the value at once and puts the state machine
    back to zero, so that [state_max] increments are needed again. *)
Theorem CC_hysteresis c k :
  cc_wf c -> 0 < sc_max (cc_base c) ->
  CC_value (Nat.iter k (fun c => CC_increment c 1) c) =
    Z.min (sc_max (cc_base c)) (CC_value c +
      Z.max 0 (Z.of_nat k - Z.max 0 (sc_max (cc_sm c) - sc_counter (cc_sm c) - 1))) /\
  CC_value (CC_decrement c 1) = Z.max (CC_value c - 1) 0 /\
  CC_value (Nat.iter k (fun c => CC_increment c 1) (CC_decrement c 1)) =
    Z.min (sc_max (cc_base c)) (Z.max (CC_value c - 1) 0 +
      Z.max 0 (Z.of_nat k - (sc_max (cc_sm c) - 1))) /\
  cc_wf (CC_increment c 1) /\ cc_wf (CC_decrement c 1).
Proof.
  intros Hc Hm.
  assert (Hd : CC_value (CC_decrement c 1) = Z.max (CC_value c - 1) 0)
    by (by rewrite CC_decrement_spec).
  split; [by apply CC_iter_spec|]. split; [done|].
  split; [|split; [by apply CC_increment_wf|by apply CC_decrement_wf]].
  destruct (CC_iter_spec k (CC_decrement c 1)) as (_ & _ & _ & _ & ->).
  - by apply CC_decrement_wf.
  - by rewrite CC_decrement_spec.
  - rewrite Hd, CC_decrement_spec by done. cbn. pose proof (ccw_max _ Hc). lia.
Qed.

Lemma CC_hysteresis_witness :
  CC_value (Nat.iter 8 (fun c => CC_increment c 1) (CC_new 0 0 15 7 4 0)) = 6.
Proof.
  destruct (CC_hysteresis (CC_new 0 0 15 7 4 0) 8) as [-> _].
  - split; cbn; [unfold sc_wf; cbn; lia..|reflexivity].
  - cbn. lia.
  - reflexivity.
Defined.

(** Stack-distance histograms.  Sampling never fails for distances below
    the associativity; the sample with index [i] lands in row [min i (n - 1)];
    after a run every cell holds the number of its samples, modulo 2^64. *)
Theorem SDA_histogram a n tr :
  0 < n < 2 ^ 32 -> Forall (fun x => 0 <= x.1 /\ (x.2 < a)%nat) tr ->
  exists s, SDA_run (SDA_new a n) tr = Ret s /\
    forall r d, (Z.of_nat r < n) -> (d < a)%nat ->
      (c ← vread (sda_array s) r; SD_get c d) = Ret (u64 (sampled_at d (row_samples n r tr))).
Proof.
  intros Hn Htr. destruct (SDA_run_spec a tr (SDA_new a n)) as (s & E & Hs & Hz & Hrun).
  { split; cbn; [done|rewrite length_replicate; lia|].
    apply Forall_replicate. split; [apply length_replicate|done]. }
  { done. }
  exists s. split; [done|]. intros r d Hr Hd.
  specialize (Hrun r d). cbn in Hrun. rewrite length_replicate in Hrun.
  specialize (Hrun ltac:(lia)).
  rewrite lookup_replicate_2 in Hrun by lia. cbn in Hrun.
  rewrite lookup_replicate_2 in Hrun by done. cbn in Hrun.
  destruct (sda_array s !! r) as [c|] eqn:Hc; [|discriminate]. cbn in Hrun.
  rewrite (vread_some _ _ _ Hc). bsimpl. unfold SD_get.
  destruct (Forall_lookup_1 _ _ _ _ (sdw_rows _ _ Hs) Hc) as [_ Ha].
  rewrite cassert_true by (apply Nat.ltb_lt; lia). bsimpl.
  erewrite vread_some by exact Hrun. f_equal. case_decide as E0; [|done]. by rewrite E0.
Qed.

Lemma SDA_histogram_witness :
  exists s, SDA_run (SDA_new 4 2) [(0, 1%nat); (5, 3%nat); (1, 3%nat)] = Ret s /\
    (c ← vread (sda_array s) 1; SD_get c 3) = Ret 2.
Proof.
  destruct (SDA_histogram 4 2 [(0, 1%nat); (5, 3%nat); (1, 3%nat)]) as (s & E & H).
  - lia.
  - repeat constructor; cbn; lia.
  - exists s. split; [exact E|]. rewrite (H 1%nat 3%nat) by (cbn; lia). reflexivity.
Defined.

(** Set duelling.  The selector of [nbit] bits starts at half scale, on the
    LRU side; after any run of misses its value is the clamped count, it has
    never left [0, 2^nbit - 1], and BIP is selected exactly when the value is at
    least 2^(nbit-1). *)
Theorem PSEL_tracks u nbit tr p :
  1 <= nbit -> PSEL_new u nbit = Ret p ->
  PSEL_isOver p = false /\
  psel_wf (foldl PSEL_step p tr) /\
  psel_counter (foldl PSEL_step p tr) =
    foldl (clamp_step (2 ^ nbit - 1)) (2 ^ (nbit - 1) - 1) tr /\
  Forall (fun x => 0 <= x.1 < 2 ^ nbit) (psel_dist (foldl PSEL_step p tr)) /\
  (PSEL_isOver (foldl PSEL_step p tr) = true <->
   2 ^ (nbit - 1) <= psel_counter (foldl PSEL_step p tr)).
Proof.
  intros Hn Hnew. assert (Hp : psel_wf p) by (eapply PSEL_new_wf; [|done]; lia).
  unfold PSEL_new in Hnew. destruct (Z.ltb_spec 32 nbit); [done|]. injection Hnew as <-.
  pose proof (pow2_pos (nbit - 1)) as Hpos.
  assert (E2 : 2 ^ nbit = 2 * 2 ^ (nbit - 1)).
  { rewrite <- Z.pow_succ_r by lia. f_equal. lia. }
  assert (Eh : (2 ^ nbit - 1) / 2 = 2 ^ (nbit - 1) - 1).
  { symmetry. apply (Z.div_unique _ _ _ 1); lia. }
  rewrite Eh in *. set (p0 := mkPolicySelector _ _ _ _ _) in *.
  assert (Hrun : forall q, psel_wf q -> psel_max q = 2 ^ nbit - 1 ->
      Forall (fun x => 0 <= x.1 < 2 ^ nbit) (psel_dist q) ->
      psel_max (foldl PSEL_step q tr) = 2 ^ nbit - 1 /\
      psel_counter (foldl PSEL_step q tr) = foldl (clamp_step (2 ^ nbit - 1)) (psel_counter q) tr /\
      Forall (fun x => 0 <= x.1 < 2 ^ nbit) (psel_dist (foldl PSEL_step q tr))).
  { induction tr as [|e tr IH]; intros q Hq Hqm Hqd; [done|]. cbn [foldl].
    destruct (IH (PSEL_step q e)) as (-> & -> & ?).
    - by apply PSEL_step_wf.
    - by rewrite PSEL_step_spec.
    - rewrite PSEL_step_spec by done. constructor; [|done]. cbn.
      pose proof (pw_counter _ Hq). lia.
    - split_and!; [done| |done]. rewrite PSEL_step_spec by done. cbn. by rewrite Hqm. }
  destruct (Hrun p0 Hp eq_refl) as (Hmax & Hcnt & Hd); [by constructor|].
  split_and!; [|by apply PSEL_run_wf|by rewrite Hcnt|done|].
  - unfold PSEL_isOver. cbn - [Z.div]. rewrite Eh. apply Z.ltb_irrefl.
  - unfold PSEL_isOver. rewrite Hmax, Eh, Z.ltb_lt. lia.
Qed.

Lemma PSEL_tracks_witness :
  exists p, PSEL_new 0 4 = Ret p /\
    psel_counter (foldl PSEL_step p [(true, 10); (true, 20); (false, 30)]) = 8.
Proof.
  eexists. split; [reflexivity|].
  destruct (PSEL_tracks 0 4 [(true, 10); (true, 20); (false, 30)] (mkPolicySelector 7 15 4 0 []))
    as (_ & _ & H & _); [lia|reflexivity|]. exact H.
Defined.

(** Sampled sets.  With thread 0, a set is sampled exactly when it is
    [33 * k], and sampled in the inverted family exactly when it is
    [31 * (k + 1)], for [k] below 32, whatever the number of sets; no set is in
    both.  With another thread number the test stops the simulation on the last
    sets of every constituency. *)
Theorem sampled_sets nsets bsize set :
  0 <= set < 2 ^ 32 ->
  (exists b, SS_isSampledSet (SS_new nsets bsize) set 0 = Ret b /\
     (b = true <-> exists k, 0 <= k < 32 /\ set = 33 * k)) /\
  (exists b, SS_isSampledSetInverted (SS_new nsets bsize) set 0 = Ret b /\
     (b = true <-> exists k, 0 <= k < 32 /\ set = 31 * (k + 1))) /\
  ~ (SS_isSampledSet (SS_new nsets bsize) set 0 = Ret true /\
     SS_isSampledSetInverted (SS_new nsets bsize) set 0 = Ret true) /\
  (forall tid, 0 <= tid < 32 -> 32 <= set mod 32 + tid ->
     SS_isSampledSet (SS_new nsets bsize) set tid = Err AssertFailed).
Proof.
  intros Hset. unfold SS_isSampledSet, SS_isSampledSetInverted, SS_getConstituencyID,
    SS_getConstituencyOffset. cbn [ss_inConstituency SS_new].
  pose proof (Z.div_mod set 32 ltac:(lia)) as Hd.
  pose proof (Z.mod_pos_bound set 32 ltac:(lia)) as Hm.
  rewrite Z.add_0_r, !Z.sub_0_r.
  rewrite !wrap_wrap, (wrap_small 32 (set mod 32)), (wrap_small 32 (32 - 1 - set mod 32)) by word_lia.
  rewrite !cassert_true by (apply Z.ltb_lt; lia). bsimpl.
  split; [|split; [|split]].
  - eexists. split; [reflexivity|]. rewrite Z.eqb_eq. split.
    + intros E. exists (set mod 32). lia.
    + intros (k & ? & E). rewrite E in *.
      assert (33 * k / 32 = k) by (symmetry; apply (Z.div_unique _ _ _ k); lia). lia.
  - eexists. split; [reflexivity|]. rewrite Z.eqb_eq. split.
    + intros E. exists (set / 32). lia.
    + intros (k & ? & E). rewrite E in *.
      assert (31 * (k + 1) / 32 = k)
        by (symmetry; apply (Z.div_unique _ _ _ (31 - k)); lia). lia.
  - intros [[= E1] [= E2]]. reflect. lia.
  - intros tid Ht Hge. rewrite (wrap_small 32) by word_lia.
    destruct (Z.ltb_spec (set mod 32 + tid) 32); [lia|done].
Qed.

Lemma sampled_sets_witness :
  exists b, SS_isSampledSet (SS_new 1024 64) 66 0 = Ret b /\ b = true.
Proof.
  destruct (sampled_sets 1024 64 66) as ((b & E & H) & _); [lia|].
  exists b. split; [exact E|]. apply H. exists 2. lia.
Defined.
