(* ===== verification/LruTags.v ===== *)
(** * The replacement policies: [mem/cache/tags/lru.cc], [random_repl.cc],
    [bip.cc] and [dip.cc]

    LRU keeps the ways of a set in recency order; the random policy draws a way;
    BIP inserts most blocks at the LRU position; DIP duels LRU against BIP on
    dedicated sets.  Each is an instance of the interface [TagPolicy], and the
    instances of [TagPolicyOk] show that each keeps what the cache relies on. *)

From Stdlib Require Import Sorted.
From S2P Require Import Prelude IntMath Packet CacheBlk TagStore SatCounter.
Local Open Scope Z_scope.

(** ** LRU *)

Section lru.
Context (c : TagsConfig).

Definition LRU_accessBlock (s : TagsState) (addr : Z) (is_secure is_read : bool) (now : Z) :
    res (TagsState * option nat * Z) :=
  '(s, blk, lat) ← BaseSetAssoc_accessBlock c s addr is_secure is_read now;
  match blk with
  | None => Ret (s, None, lat)
  | Some p =>
      b ← vread (blks s) p;
      s ← upd_set s (Z.to_nat (blk_set b)) (fun cs => moveToHead cs p);
      Ret (s, Some p, lat)
  end.

Definition LRU_findVictim (s : TagsState) (addr : Z) : res (option nat) :=
  cs ← vread (sets s) (Z.to_nat (extractSet c addr));
  p ← vread (set_blks cs) (assoc c - 1);
  _ ← vread (blks s) p;
  Ret (Some p).

Definition LRU_insertBlock (s : TagsState) (pkt : Packet) (blk : nat) (now : Z) :
    res TagsState :=
  s ← BaseSetAssoc_insertBlock c s pkt blk now;
  upd_set s (Z.to_nat (extractSet c (pkt_addr pkt))) (fun cs => moveToHead cs blk).

Definition LRU_invalidate (s : TagsState) (blk : nat) (now : Z) : res TagsState :=
  s ← BaseSetAssoc_invalidate c s blk now;
  b ← vread (blks s) blk;
  upd_set s (Z.to_nat (blk_set b)) (fun cs => moveToTail cs blk).

(** ** Random replacement *)

(** [rnd] is the draw of [random_mt.random<int>(0, assoc - 1)]. *)
Definition RandomRepl_findVictim (s : TagsState) (addr rnd : Z) : res (option nat) :=
  blk ← BaseSetAssoc_findVictim c s addr;
  match blk with
  | None => Err OutOfBounds      (* a null pointer is dereferenced *)
  | Some p =>
      b ← vread (blks s) p;
      if isValid b then
        _ ← cassert (rnd <? Z.of_nat (assoc c));
        _ ← cassert (0 <=? rnd);
        cs ← vread (sets s) (Z.to_nat (extractSet c addr));
        q ← vread (set_blks cs) (Z.to_nat rnd);
        Ret (Some q)
      else Ret (Some p)
  end.

Definition RandomRepl_accessBlock := BaseSetAssoc_accessBlock c.
Definition RandomRepl_insertBlock := BaseSetAssoc_insertBlock c.
Definition RandomRepl_invalidate := BaseSetAssoc_invalidate c.

End lru.

(** ** BIP *)

Record BIPState := mkBIPState {
  bip_tags : TagsState;
  epsilon_denominator : Z;
  epsilon_numerator : Z;
  epsilon_counter : Z;
  mru_insertions : Z;
  all_insertions : Z
}.

Definition bip_with_tags (s : BIPState) (t : TagsState) : BIPState :=
  mkBIPState t (epsilon_denominator s) (epsilon_numerator s) (epsilon_counter s)
    (mru_insertions s) (all_insertions s).

Definition BIP_new (t : TagsState) (numerator denominator : Z) : BIPState :=
  mkBIPState t denominator numerator 0 0 0.

(** The part of [insertBlock] after the base insertion; DIP repeats it. *)
Definition insertBlock_bip (c : TagsConfig) (s : BIPState) (pkt : Packet) (blk : nat) :
    res BIPState :=
  let set := Z.to_nat (extractSet c (pkt_addr pkt)) in
  s ← (if epsilon_counter s <? epsilon_numerator s then
         t ← upd_set (bip_tags s) set (fun cs => moveToHead cs blk);
         Ret (mkBIPState t (epsilon_denominator s) (epsilon_numerator s)
                (epsilon_counter s) (mru_insertions s + 1) (all_insertions s))
       else Ret s);
  let n := u32 (epsilon_counter s + 1) in
  let n := if epsilon_denominator s <=? n then 0 else n in
  Ret (mkBIPState (bip_tags s) (epsilon_denominator s) (epsilon_numerator s) n
         (mru_insertions s) (all_insertions s)).

Definition bip_counted (s : BIPState) (t : TagsState) : BIPState :=
  mkBIPState t (epsilon_denominator s) (epsilon_numerator s) (epsilon_counter s)
    (mru_insertions s) (all_insertions s + 1).

Definition BIP_insertBlock (c : TagsConfig) (s : BIPState) (pkt : Packet) (blk : nat)
    (now : Z) : res BIPState :=
  t ← BaseSetAssoc_insertBlock c (bip_tags s) pkt blk now;
  insertBlock_bip c (bip_counted s t) pkt blk.

(** Access, victim and invalidation are inherited from LRU. *)
Definition BIP_accessBlock (c : TagsConfig) (s : BIPState) (addr : Z)
    (is_secure is_read : bool) (now : Z) : res (BIPState * option nat * Z) :=
  '(t, blk, lat) ← LRU_accessBlock c (bip_tags s) addr is_secure is_read now;
  Ret (bip_with_tags s t, blk, lat).

Definition BIP_invalidate (c : TagsConfig) (s : BIPState) (blk : nat) (now : Z) :
    res BIPState :=
  bip_with_tags s <$> LRU_invalidate c (bip_tags s) blk now.

(** ** DIP *)

Record DIPState := mkDIPState {
  dip_bip : BIPState;
  dip_psel : PolicySelector;
  numDedicatedSets : Z;
  numAllDedicatedSets : Z;
  numSetsInConstituency : Z
}.

Definition dip_with_bip (d : DIPState) (b : BIPState) : DIPState :=
  mkDIPState b (dip_psel d) (numDedicatedSets d) (numAllDedicatedSets d)
    (numSetsInConstituency d).
Definition dip_with_psel (d : DIPState) (p : PolicySelector) : DIPState :=
  mkDIPState (dip_bip d) p (numDedicatedSets d) (numAllDedicatedSets d)
    (numSetsInConstituency d).

(** [nc] is [numSetsInConstituency]; the set is converted to [unsigned]. *)
Definition getConstituencyID (nc set : Z) : res Z :=
  if nc =? 0 then Err DivByZero else Ret (set / nc).
Definition getConstituencyOffset (nc set : Z) : res Z :=
  if nc =? 0 then Err DivByZero else Ret (set `mod` nc).

Definition isDedicatedLRU (nc set : Z) : res bool :=
  id ← getConstituencyID nc set;
  offset ← getConstituencyOffset nc set;
  if id `mod` 2 =? 0 then Ret false
  else Ret (id `mod` nc =? offset).

Definition isDedicatedBIP (nc set : Z) : res bool :=
  id ← getConstituencyID nc set;
  offset ← getConstituencyOffset nc set;
  if id `mod` 2 =? 1 then Ret false
  else Ret (id `mod` nc =? wnot 32 offset `mod` nc).

(** The loop of [checkConstituency()]: the numbers of dedicated sets. *)
Fixpoint checkConstituency_loop (nc : Z) (fuel : nat) (i lru bip : Z) : res (Z * Z) :=
  match fuel with
  | O => Ret (lru, bip)
  | S fuel =>
      l ← isDedicatedLRU nc i;
      b ← isDedicatedBIP nc i;
      if (l && b)%bool then Err Fatal
      else checkConstituency_loop nc fuel (i + 1) (if l then lru + 1 else lru)
             (if b then bip + 1 else bip)
  end.

Definition checkConstituency (nc : Z) (nsets : nat) (nall : Z) : res unit :=
  '(lru, bip) ← checkConstituency_loop nc nsets 0 0 0;
  if negb (lru =? bip) then Err Fatal
  else if negb (lru + bip =? nall) then Err Fatal
  else Ret tt.

(** The constructor, after those of its base classes and of the selector. *)
Definition DIP_new (nsets : nat) (b : BIPState) (psel : PolicySelector) (ndsets : Z) :
    res DIPState :=
  let nall := u32 (ndsets * 2) in
  if nall =? 0 then Err DivByZero else
  let nc := Z.of_nat nsets / nall in
  _ ← checkConstituency nc nsets nall;
  Ret (mkDIPState b psel ndsets nall nc).

(** [setSampling], on a miss. *)
Definition setSampling (d : DIPState) (blk : option nat) (set now : Z) : res DIPState :=
  _ ← cassert (match blk with None => true | Some _ => false end);
  l ← isDedicatedLRU (numSetsInConstituency d) set;
  let d := if (l : bool) then dip_with_psel d (PSEL_increment (dip_psel d) now) else d in
  b ← isDedicatedBIP (numSetsInConstituency d) set;
  Ret (if (b : bool) then dip_with_psel d (PSEL_decrement (dip_psel d) now) else d).

Definition DIP_accessBlock (c : TagsConfig) (d : DIPState) (addr : Z)
    (is_secure is_read : bool) (now : Z) : res (DIPState * option nat * Z) :=
  '(t, blk, lat) ← BaseSetAssoc_accessBlock c (bip_tags (dip_bip d)) addr is_secure is_read now;
  match blk with
  | Some p =>
      b ← vread (blks t) p;
      t ← upd_set t (Z.to_nat (blk_set b)) (fun cs => moveToHead cs p);
      Ret (dip_with_bip d (bip_with_tags (dip_bip d) t), Some p, lat)
  | None =>
      let d := dip_with_bip d (bip_with_tags (dip_bip d) t) in
      d ← setSampling d None (extractSet c addr) now;
      Ret (d, None, lat)
  end.

Definition insertBlock_lru (c : TagsConfig) (s : BIPState) (pkt : Packet) (blk : nat) :
    res BIPState :=
  let set := Z.to_nat (extractSet c (pkt_addr pkt)) in
  t ← upd_set (bip_tags s) set (fun cs => moveToHead cs blk);
  Ret (mkBIPState t (epsilon_denominator s) (epsilon_numerator s) (epsilon_counter s)
         (mru_insertions s + 1) (all_insertions s)).

Definition DIP_insertBlock (c : TagsConfig) (d : DIPState) (pkt : Packet) (blk : nat)
    (now : Z) : res DIPState :=
  t ← BaseSetAssoc_insertBlock c (bip_tags (dip_bip d)) pkt blk now;
  let s := bip_counted (dip_bip d) t in
  let set := extractSet c (pkt_addr pkt) in
  l ← isDedicatedLRU (numSetsInConstituency d) set;
  if (l : bool) then dip_with_bip d <$> insertBlock_lru c s pkt blk
  else
    b ← isDedicatedBIP (numSetsInConstituency d) set;
    if (b : bool) then dip_with_bip d <$> insertBlock_bip c s pkt blk
    else if PSEL_isOver (dip_psel d) then dip_with_bip d <$> insertBlock_bip c s pkt blk
    else dip_with_bip d <$> insertBlock_lru c s pkt blk.

Definition DIP_invalidate (c : TagsConfig) (d : DIPState) (blk : nat) (now : Z) :
    res DIPState :=
  dip_with_bip d <$> BIP_invalidate c (dip_bip d) blk now.

(** ** The policies as instances of the interface *)

#[export] Instance LRU_policy : TagPolicy TagsState := {
  tp_base s := s;
  tp_with_base _ t := t;
  tp_accessBlock := LRU_accessBlock;
  tp_findVictim c s addr _ := LRU_findVictim c s addr;
  tp_insertBlock := LRU_insertBlock;
  tp_invalidate := LRU_invalidate
}.

(** The random policy has the state of the base store too. *)
Record RandomState := mkRandomState { random_tags : TagsState }.

#[export] Instance Random_policy : TagPolicy RandomState := {
  tp_base := random_tags;
  tp_with_base _ t := mkRandomState t;
  tp_accessBlock c s addr sec rd now :=
    '(t, p, lat) ← RandomRepl_accessBlock c (random_tags s) addr sec rd now;
    Ret (mkRandomState t, p, lat);
  tp_findVictim c s addr rnd := RandomRepl_findVictim c (random_tags s) addr rnd;
  tp_insertBlock c s pkt p now :=
    mkRandomState <$> RandomRepl_insertBlock c (random_tags s) pkt p now;
  tp_invalidate c s p now :=
    mkRandomState <$> RandomRepl_invalidate c (random_tags s) p now
}.

#[export] Instance BIP_policy : TagPolicy BIPState := {
  tp_base := bip_tags;
  tp_with_base := bip_with_tags;
  tp_accessBlock := BIP_accessBlock;
  tp_findVictim c s addr _ := LRU_findVictim c (bip_tags s) addr;
  tp_insertBlock := BIP_insertBlock;
  tp_invalidate := BIP_invalidate
}.

#[export] Instance DIP_policy : TagPolicy DIPState := {
  tp_base d := bip_tags (dip_bip d);
  tp_with_base d t := dip_with_bip d (bip_with_tags (dip_bip d) t);
  tp_accessBlock := DIP_accessBlock;
  tp_findVictim c d addr _ := LRU_findVictim c (bip_tags (dip_bip d)) addr;
  tp_insertBlock := DIP_insertBlock;
  tp_invalidate := DIP_invalidate
}.

(** ** Moves within a set are reorderings *)

Lemma moveToHead_sim cs p :
  set_wf cs -> p ∈ set_blks cs -> exists cs', moveToHead cs p = Ret cs' /\ set_sim cs cs'.
Proof.
  intros Hw (pre & post & E)%list_elem_of_split. rewrite (moveToHead_spec _ _ _ _ Hw E).
  eexists. split; [done|]. split; [done|]. cbn. by rewrite E, Permutation_middle.
Qed.

Lemma moveToTail_sim cs p :
  set_wf cs -> p ∈ set_blks cs -> exists cs', moveToTail cs p = Ret cs' /\ set_sim cs cs'.
Proof.
  intros Hw (pre & post & E)%list_elem_of_split. rewrite (moveToTail_spec _ _ _ _ Hw E).
  eexists. split; [done|]. split; [done|]. cbn. rewrite E. f_equiv.
  by rewrite <- Permutation_cons_append.
Qed.

Lemma moveTo_sim cs p lru :
  set_wf cs -> p ∈ set_blks cs -> (lru < set_assoc cs)%nat ->
  Z.of_nat (set_assoc cs) < 2 ^ 31 ->
  exists cs', moveTo cs p lru = Ret cs' /\ set_sim cs cs'.
Proof.
  intros Hw (pre & post & E)%list_elem_of_split Hl Hb.
  rewrite (moveTo_spec _ _ lru _ _ Hw E) by done.
  eexists. split; [done|]. split; [done|]. cbn.
  rewrite E, <- !Permutation_middle, take_drop. done.
Qed.

Lemma reorder_set s i cs cs' :
  sets s !! i = Some cs -> set_sim cs cs' -> reorder s (with_sets s (<[i:=cs']> (sets s))).
Proof.
  intros Hi Hsim. split; cbn; [|done..]. rewrite <- (list_insert_id (sets s) i cs) at 1 by done.
  by apply Forall2_insert.
Qed.

Section policy_lemmas.
Context (c : TagsConfig) (Hc : config_wf c).

(** The block a pointer names is in the set its [set] field names. *)
Lemma set_of_blk s p b :
  tags_wf c s -> blks s !! p = Some b ->
  exists cs, sets s !! Z.to_nat (blk_set b) = Some cs /\ set_wf cs /\
    p ∈ set_blks cs /\ set_assoc cs = assoc c.
Proof.
  intros Hs Hb. rewrite (tw_blk _ _ Hs _ _ Hb), Nat2Z.id.
  assert (Hp : (p < length (blks s))%nat) by (by eapply lookup_lt_Some).
  assert (Hlt : (p / assoc c < length (sets s))%nat).
  { rewrite (tw_nsets _ _ Hs). apply Nat.Div0.div_lt_upper_bound.
    rewrite (tw_nblks _ _ Hs) in Hp. lia. }
  destruct (lookup_lt_is_Some_2 _ _ Hlt) as [cs Hcs]. exists cs. split_and!.
  - done.
  - by eapply tags_set_wf.
  - by apply (tags_set_elem c Hc s (p / assoc c)).
  - by destruct (tw_set _ _ Hs _ _ Hcs).
Qed.

(** [sets[i].op(blk)] for an operation that only moves [blk]. *)
Lemma upd_set_move s p b i (f : CacheSet -> res CacheSet) :
  tags_wf c s -> blks s !! p = Some b -> i = Z.to_nat (blk_set b) ->
  (forall cs, set_wf cs -> p ∈ set_blks cs -> set_assoc cs = assoc c ->
     exists cs', f cs = Ret cs' /\ set_sim cs cs') ->
  exists s' cs cs', upd_set s i f = Ret s' /\ reorder s s' /\ tags_wf c s' /\
    sets s !! i = Some cs /\ f cs = Ret cs' /\ s' = with_sets s (<[i:=cs']> (sets s)).
Proof.
  intros Hs Hb -> Hf. destruct (set_of_blk s p b Hs Hb) as (cs & Hcs & Hw & Hp & Ha).
  destruct (Hf cs Hw Hp Ha) as (cs' & Ef & Hsim).
  assert (Hr : reorder s (with_sets s (<[Z.to_nat (blk_set b):=cs']> (sets s))))
    by (by eapply reorder_set).
  eexists _, cs, cs'. split_and!; try done.
  - by apply upd_set_spec with cs.
  - by rewrite <- Hr.
Qed.

Lemma blk_set_of_addr s p b addr :
  tags_wf c s -> blks s !! p = Some b -> Z.of_nat (p / assoc c) = extractSet c addr ->
  extractSet c addr = blk_set b.
Proof. intros Hs Hb E. by rewrite (tw_blk _ _ Hs _ _ Hb). Qed.

(** A hit names a block of the store, before and after the access. *)
Lemma base_hit s addr sec rd now s0 p lat :
  tags_wf c s -> 0 <= addr ->
  BaseSetAssoc_accessBlock c s addr sec rd now = Ret (s0, Some p, lat) ->
  tags_wf c s0 /\ exists b, blks s0 !! p = Some b.
Proof.
  intros Hs Ha E. destruct (base_access_spec c Hc s addr sec rd now Hs Ha)
    as (s' & r & lat' & E' & Ef & Hset & _ & Ho & Hb).
  rewrite E in E'. injection E' as -> <- ->.
  destruct (base_findBlock_spec c Hc s addr sec Hs Ha) as (r & Ef' & Hspec).
  rewrite Ef in Ef'. injection Ef' as <-. destruct Hspec as (Hp & _).
  destruct (lookup_lt_is_Some_2 _ _ Hp) as [b Hlb].
  assert (Hlook : blks s' !! p = Some (with_refCount b (refCount b + 1))).
  { rewrite Hb, list_lookup_alter_eq, Hlb. done. }
  split; [|by eexists].
  apply (tags_wf_insert c s s' p b (with_refCount b (refCount b + 1))); try done.
  - by rewrite Hb, (alter_as_insert _ _ _ b).
  - by rewrite Ho.
Qed.

Lemma base_miss s addr sec rd now s0 lat :
  tags_wf c s -> 0 <= addr ->
  BaseSetAssoc_accessBlock c s addr sec rd now = Ret (s0, None, lat) -> tags_wf c s0.
Proof.
  intros Hs Ha E. destruct (base_access_spec c Hc s addr sec rd now Hs Ha)
    as (s' & r & lat' & E' & Ef & Hset & _ & Ho & Hb).
  rewrite E in E'. injection E' as -> <- ->. destruct Hs.
  split; rewrite ?Hset, ?Hb, ?Ho; done.
Qed.

(** The LRU operations against the base operations. *)
Lemma LRU_access_ok s addr sec rd now s0 r lat :
  tags_wf c s -> 0 <= addr ->
  BaseSetAssoc_accessBlock c s addr sec rd now = Ret (s0, r, lat) ->
  exists s', LRU_accessBlock c s addr sec rd now = Ret (s', r, lat) /\
    reorder s0 s' /\ tags_wf c s'.
Proof.
  intros Hs Ha E. unfold LRU_accessBlock. rewrite E. bsimpl. destruct r as [p|].
  - destruct (base_hit _ _ _ _ _ _ _ _ Hs Ha E) as (Hs0 & b & Hb).
    rewrite (vread_some _ _ _ Hb). bsimpl.
    destruct (upd_set_move s0 p b _ (fun cs => moveToHead cs p) Hs0 Hb eq_refl)
      as (s' & cs & cs' & -> & Hr & Hw & _); [auto using moveToHead_sim|].
    bsimpl. by exists s'.
  - exists s0. split_and!; [done|done|]. by eapply base_miss.
Qed.

Lemma insert_move s0 pkt p (f : CacheSet -> res CacheSet) :
  tags_wf c s0 -> (p < length (blks s0))%nat ->
  Z.of_nat (p / assoc c) = extractSet c (pkt_addr pkt) ->
  (forall cs, set_wf cs -> p ∈ set_blks cs -> set_assoc cs = assoc c ->
     exists cs', f cs = Ret cs' /\ set_sim cs cs') ->
  exists s', upd_set s0 (Z.to_nat (extractSet c (pkt_addr pkt))) f = Ret s' /\
    reorder s0 s' /\ tags_wf c s'.
Proof.
  intros Hs0 Hp Hset Hf. destruct (lookup_lt_is_Some_2 _ _ Hp) as [b Hb].
  rewrite (blk_set_of_addr s0 p b) by done.
  destruct (upd_set_move s0 p b _ f Hs0 Hb eq_refl Hf) as (s' & cs & cs' & ? & ? & ? & _).
  by exists s'.
Qed.

Lemma LRU_insert_ok s pkt p now s0 :
  BaseSetAssoc_insertBlock c s pkt p now = Ret s0 -> tags_wf c s0 ->
  (p < length (blks s0))%nat -> Z.of_nat (p / assoc c) = extractSet c (pkt_addr pkt) ->
  exists s', LRU_insertBlock c s pkt p now = Ret s' /\ reorder s0 s' /\ tags_wf c s'.
Proof.
  intros E Hs0 Hp Hset. unfold LRU_insertBlock. rewrite E. bsimpl.
  apply (insert_move s0 pkt p); auto using moveToHead_sim.
Qed.

Lemma LRU_invalidate_ok s p now s0 :
  BaseSetAssoc_invalidate c s p now = Ret s0 -> tags_wf c s0 -> (p < length (blks s0))%nat ->
  exists s', LRU_invalidate c s p now = Ret s' /\ reorder s0 s' /\ tags_wf c s'.
Proof.
  intros E Hs0 Hp. unfold LRU_invalidate. rewrite E. bsimpl.
  destruct (lookup_lt_is_Some_2 _ _ Hp) as [b Hb]. rewrite (vread_some _ _ _ Hb). bsimpl.
  destruct (upd_set_move s0 p b _ (fun cs => moveToTail cs p) Hs0 Hb eq_refl)
    as (s' & cs & cs' & ? & ? & ? & _); [auto using moveToTail_sim|]. by exists s'.
Qed.

(** Any way of a set may be its victim. *)
Lemma way_of_set s addr i :
  tags_wf c s -> 0 <= addr -> (i < assoc c)%nat ->
  exists cs p, sets s !! Z.to_nat (extractSet c addr) = Some cs /\ set_blks cs !! i = Some p /\
    (p < length (blks s))%nat /\ Z.of_nat (p / assoc c) = extractSet c addr.
Proof.
  intros Hs Ha Hi. destruct (set_of_addr c Hc s addr Hs Ha) as [cs Hcs].
  pose proof (extractSet_range c Hc addr Ha).
  destruct (lookup_lt_is_Some_2 (set_blks cs) i) as [p Hp].
  { destruct (tags_set_wf c s _ cs Hs Hcs) as [-> _].
    by destruct (tw_set _ _ Hs _ _ Hcs) as [-> _]. }
  assert (Hq : p ∈ set_blks cs) by (by eapply list_elem_of_lookup_2).
  apply (tags_set_elem c Hc s (Z.to_nat (extractSet c addr)) cs) in Hq as [? ?]; [|done..].
  exists cs, p. split_and!; try done. lia.
Qed.

Lemma LRU_victim_ok s addr :
  tags_wf c s -> 0 <= addr ->
  exists p, LRU_findVictim c s addr = Ret (Some p) /\
    (p < length (blks s))%nat /\ Z.of_nat (p / assoc c) = extractSet c addr.
Proof.
  intros Hs Ha. destruct (cw_assoc _ Hc).
  destruct (way_of_set s addr (assoc c - 1) Hs Ha ltac:(lia)) as (cs & p & Hcs & Hp & Hlt & E).
  destruct (lookup_lt_is_Some_2 _ _ Hlt) as [b Hb].
  exists p. split; [|done]. unfold LRU_findVictim.
  rewrite (vread_some _ _ _ Hcs). bsimpl. rewrite (vread_some _ _ _ Hp). bsimpl.
  by rewrite (vread_some _ _ _ Hb).
Qed.

End policy_lemmas.

(** ** The policies keep what the cache relies on *)

Section instances.
Context (c : TagsConfig) (Hc : config_wf c).

Lemma client_wf s s0 p b b' :
  tags_wf c s -> blks s !! p = Some b -> client_blk b b' -> sets s0 = sets s ->
  blks s0 = <[p:=b']> (blks s) -> length (occupancies s0) = length (occupancies s) ->
  tags_wf c s0.
Proof. intros Hs Hb (_ & Hset & _) ???. by apply (tags_wf_insert c s s0 p b b'). Qed.

Lemma alter_length_lt {A} (f : A -> A) p q (l l' : list A) :
  l' = alter f p l -> (q < length l)%nat -> (q < length l')%nat.
Proof. intros ->. by rewrite length_alter. Qed.

#[local] Hint Resolve client_wf alter_length_lt : s2p.

#[export] Instance LRU_ok : TagPolicyOk TagsState c (tags_wf c).
Proof using Hc.
  split; cbn.
  - done.
  - done.
  - eauto with s2p.
  - intros. by apply LRU_access_ok.
  - intros. by apply LRU_victim_ok.
  - intros. eapply LRU_insert_ok; eauto with s2p.
  - intros. eapply LRU_invalidate_ok; eauto with s2p.
Qed.

(** The base [findVictim] finds an invalid way of the set if there is one. *)
Lemma findVictim_loop_spec s l k : forall i acc,
  (i + k = length l)%nat -> Forall (fun p => (p < length (blks s))%nat) l ->
  exists r, findVictim_loop s l k i acc = Ret r /\
    match k with
    | O => r = acc
    | _ => exists p, r = Some p /\ p ∈ l
    end.
Proof.
  induction k as [|k IH]; intros i acc Hl Hall; cbn; [by eexists|].
  destruct (lookup_lt_is_Some_2 l i ltac:(lia)) as [p Hp].
  rewrite (vread_some _ _ _ Hp). bsimpl.
  destruct (lookup_lt_is_Some_2 (blks s) p) as [b Hb].
  { by apply (Forall_lookup_1 _ _ _ _ Hall Hp). }
  rewrite (vread_some _ _ _ Hb). bsimpl.
  assert (Hin : p ∈ l) by (by eapply list_elem_of_lookup_2).
  destruct (negb (isValid b)); [by eauto|].
  destruct (IH (S i) (Some p) ltac:(lia) Hall) as (r & -> & Hr).
  exists r. split; [done|]. destruct k; [subst; by eauto|done].
Qed.

Lemma base_victim_ok s addr :
  tags_wf c s -> 0 <= addr ->
  exists p, BaseSetAssoc_findVictim c s addr = Ret (Some p) /\
    (p < length (blks s))%nat /\ Z.of_nat (p / assoc c) = extractSet c addr.
Proof using Hc.
  intros Hs Ha. unfold BaseSetAssoc_findVictim.
  destruct (set_of_addr c Hc s addr Hs Ha) as [cs Hcs]. rewrite (vread_some _ _ _ Hcs). bsimpl.
  destruct (tags_set_wf c s _ cs Hs Hcs) as [Hlen _].
  destruct (tw_set _ _ Hs _ _ Hcs) as [Has _]. destruct (cw_assoc _ Hc).
  pose proof (extractSet_range c Hc addr Ha).
  assert (Hel : forall p, p ∈ set_blks cs -> (p < length (blks s))%nat /\
            Z.of_nat (p / assoc c) = extractSet c addr).
  { intros p Hp. apply (tags_set_elem c Hc s (Z.to_nat (extractSet c addr)) cs) in Hp as [? ?];
      [|done..]. split; [done|lia]. }
  destruct (findVictim_loop_spec s (set_blks cs) (assoc c) 0 None) as (r & -> & Hr).
  { lia. }
  { apply Forall_forall. intros p Hp. by apply Hel. }
  destruct (assoc c) as [|n] eqn:En; [lia|]. destruct Hr as (p & -> & Hp).
  exists p. split; [done|]. by apply Hel.
Qed.

Lemma Random_victim_ok s addr rnd :
  tags_wf c s -> 0 <= addr -> draw_ok c rnd ->
  exists p, RandomRepl_findVictim c s addr rnd = Ret (Some p) /\
    (p < length (blks s))%nat /\ Z.of_nat (p / assoc c) = extractSet c addr.
Proof using Hc.
  intros Hs Ha Hr. unfold draw_ok in Hr. unfold RandomRepl_findVictim.
  destruct (base_victim_ok s addr Hs Ha) as (p & -> & Hp & Hset). bsimpl.
  destruct (lookup_lt_is_Some_2 _ _ Hp) as [b Hb]. rewrite (vread_some _ _ _ Hb). bsimpl.
  destruct (isValid b); [|by eauto].
  rewrite !cassert_true by (apply Z.ltb_lt || apply Z.leb_le; lia). bsimpl.
  destruct (way_of_set c Hc s addr (Z.to_nat rnd) Hs Ha ltac:(lia)) as (cs & q & Hcs & Hq & ? & ?).
  rewrite (vread_some _ _ _ Hcs). bsimpl. rewrite (vread_some _ _ _ Hq). bsimpl. by eauto.
Qed.

#[export] Instance Random_ok : TagPolicyOk RandomState c (fun s => tags_wf c (random_tags s)).
Proof using Hc.
  split; cbn.
  - done.
  - done.
  - eauto with s2p.
  - intros s addr sec rd now s0 r lat Hs Ha E. unfold RandomRepl_accessBlock. rewrite E. bsimpl.
    eexists. split_and!; [done|done|]. cbn.
    destruct r; [by eapply base_hit|by eapply base_miss].
  - intros. by apply Random_victim_ok.
  - intros s pkt p now s0 ???? E ???. unfold RandomRepl_insertBlock. rewrite E. by eexists.
  - intros s p now s0 ?? E ???. unfold RandomRepl_invalidate. rewrite E. by eexists.
Qed.

(** *** BIP *)

(** The position in the period of [epsilon_denominator] insertions. *)
Definition bip_wf (s : BIPState) : Prop :=
  inword 32 (epsilon_denominator s) /\ 0 <= epsilon_counter s /\
  (epsilon_counter s < epsilon_denominator s \/ epsilon_counter s = 0).

(** [insertBlock_bip]: an MRU insertion while the position is below the
    numerator, and the next position of the period. *)
Lemma insertBlock_bip_ok s pkt p :
  bip_wf s -> tags_wf c (bip_tags s) -> (p < length (blks (bip_tags s)))%nat ->
  Z.of_nat (p / assoc c) = extractSet c (pkt_addr pkt) ->
  exists s', insertBlock_bip c s pkt p = Ret s' /\ reorder (bip_tags s) (bip_tags s') /\
    tags_wf c (bip_tags s') /\ bip_wf s' /\
    epsilon_denominator s' = epsilon_denominator s /\
    epsilon_numerator s' = epsilon_numerator s /\ all_insertions s' = all_insertions s /\
    mru_insertions s' = mru_insertions s +
      (if epsilon_counter s <? epsilon_numerator s then 1 else 0) /\
    epsilon_counter s' = (epsilon_counter s + 1) mod (Z.max 1 (epsilon_denominator s)).
Proof using Hc.
  intros (Hd & H0 & Hcnt) Hs Hp Hset. unfold insertBlock_bip.
  set (m := if epsilon_counter s <? epsilon_numerator s then _ else Ret s).
  assert (exists t, m = Ret (mkBIPState t (epsilon_denominator s) (epsilon_numerator s)
            (epsilon_counter s) (mru_insertions s +
              (if epsilon_counter s <? epsilon_numerator s then 1 else 0)) (all_insertions s)) /\
            reorder (bip_tags s) t /\ tags_wf c t) as (t & -> & Hr & Ht).
  { unfold m. destruct (epsilon_counter s <? epsilon_numerator s).
    - destruct (insert_move c Hc (bip_tags s) pkt p (fun cs => moveToHead cs p))
        as (t & -> & ? & ?); auto using moveToHead_sim. bsimpl. by exists t.
    - exists (bip_tags s). split; [|done]. rewrite Z.add_0_r. by destruct s. }
  bsimpl. eexists. split; [reflexivity|]. cbn [bip_tags epsilon_denominator epsilon_numerator
    epsilon_counter mru_insertions all_insertions].
  assert (En : (if epsilon_denominator s <=? u32 (epsilon_counter s + 1) then 0
                else u32 (epsilon_counter s + 1)) =
               (epsilon_counter s + 1) mod (Z.max 1 (epsilon_denominator s))).
  { destruct Hd as [Hd0 Hd1]. destruct (Z.eq_dec (epsilon_denominator s) 0) as [E|E].
    - rewrite E. destruct (Z.leb_spec 0 (u32 (epsilon_counter s + 1))).
      + by rewrite Z.mod_1_r.
      + pose proof (wrap_range 32 (epsilon_counter s + 1)). word_lia.
    - rewrite wrap_small by word_lia. rewrite Z.max_r by lia.
      destruct (Z.leb_spec (epsilon_denominator s) (epsilon_counter s + 1)).
      + replace (epsilon_counter s + 1) with (epsilon_denominator s) by lia.
        by rewrite Z_mod_same_full.
      + by rewrite Z.mod_small by lia. }
  rewrite En. split_and!; try done. unfold bip_wf. cbn - [Z.modulo]. split_and!; [done| |].
  - apply Z.mod_pos_bound. lia.
  - pose proof (Z.mod_pos_bound (epsilon_counter s + 1) (Z.max 1 (epsilon_denominator s))).
    unfold inword in Hd. lia.
Qed.

Definition bip_inv (s : BIPState) : Prop := tags_wf c (bip_tags s) /\ bip_wf s.

#[export] Instance BIP_ok : TagPolicyOk BIPState c bip_inv.
Proof using Hc.
  split; cbn; unfold bip_inv.
  - done.
  - by intros s [].
  - intros s p b b' s0 [Hs Hb] ?????. split; [by eauto with s2p|done].
  - intros s addr sec rd now s0 r lat [Hs Hb] Ha E. unfold BIP_accessBlock.
    destruct (LRU_access_ok c Hc (bip_tags s) addr sec rd now s0 r lat) as (t & -> & ? & ?);
      [done..|]. bsimpl. by eexists.
  - intros s addr _ [Hs _] Ha _. by apply LRU_victim_ok.
  - intros s pkt p now s0 [Hs Hb] Ha Hp Hset E Hs0 Hbl _. unfold BIP_insertBlock. rewrite E.
    bsimpl. destruct (insertBlock_bip_ok (bip_counted s s0) pkt p) as (s' & -> & ? & ? & ? & _);
      [done|done|by eauto with s2p|done|]. by exists s'.
  - intros s p now s0 [Hs Hb] Hp E Hs0 Hbl _. unfold BIP_invalidate.
    destruct (LRU_invalidate_ok c Hc (bip_tags s) p now s0) as (t & -> & ? & ?);
      [done|done|by eauto with s2p|]. bsimpl. by eexists.
Qed.

(** *** DIP *)

Record dip_inv (d : DIPState) : Prop := {
  di_bip : bip_inv (dip_bip d);
  di_psel : psel_wf (dip_psel d);
  di_nc : 0 < numSetsInConstituency d
}.

Lemma dedicated_total nc set :
  0 < nc -> exists l b, isDedicatedLRU nc set = Ret l /\ isDedicatedBIP nc set = Ret b.
Proof.
  intros Hn. unfold isDedicatedLRU, isDedicatedBIP, getConstituencyID, getConstituencyOffset.
  destruct (Z.eqb_spec nc 0); [lia|]. bsimpl.
  destruct (_ =? 0), (_ =? 1); by eauto.
Qed.

Lemma setSampling_ok d set now :
  dip_inv d -> exists d', setSampling d None set now = Ret d' /\ dip_inv d' /\
    dip_bip d' = dip_bip d.
Proof.
  intros [Hb Hp Hn]. unfold setSampling. bsimpl.
  destruct (dedicated_total (numSetsInConstituency d) set Hn) as (l & b & -> & E). bsimpl.
  assert (Hi : psel_wf (PSEL_increment (dip_psel d) now)).
  { by apply (PSEL_step_wf _ (true, now)). }
  set (d1 := if l then _ else d).
  assert (H1 : dip_inv d1 /\ dip_bip d1 = dip_bip d /\
    numSetsInConstituency d1 = numSetsInConstituency d).
  { unfold d1. destruct l; split_and!; done. }
  destruct H1 as ([Hb1 Hp1 Hn1] & E1 & En1). rewrite En1, E. bsimpl.
  destruct b; eexists; split_and!; try done. split; [done| |done].
  by apply (PSEL_step_wf _ (false, now)).
Qed.

Lemma insertBlock_lru_ok s pkt p :
  bip_inv s -> (p < length (blks (bip_tags s)))%nat ->
  Z.of_nat (p / assoc c) = extractSet c (pkt_addr pkt) ->
  exists s', insertBlock_lru c s pkt p = Ret s' /\ reorder (bip_tags s) (bip_tags s') /\
    bip_inv s'.
Proof using Hc.
  intros [Hs Hb] Hp Hset. unfold insertBlock_lru.
  destruct (insert_move c Hc (bip_tags s) pkt p (fun cs => moveToHead cs p))
    as (t & -> & ? & ?); auto using moveToHead_sim. bsimpl. eexists. by split_and!.
Qed.

Lemma DIP_insert_ok d pkt p now s0 :
  dip_inv d -> BaseSetAssoc_insertBlock c (bip_tags (dip_bip d)) pkt p now = Ret s0 ->
  tags_wf c s0 -> (p < length (blks s0))%nat ->
  Z.of_nat (p / assoc c) = extractSet c (pkt_addr pkt) ->
  exists d', DIP_insertBlock c d pkt p now = Ret d' /\
    reorder s0 (bip_tags (dip_bip d')) /\ dip_inv d'.
Proof using Hc.
  intros [[Hs Hb] Hp Hn] E Hs0 Hlt Hset. unfold DIP_insertBlock. rewrite E. bsimpl.
  destruct (dedicated_total (numSetsInConstituency d) (extractSet c (pkt_addr pkt)) Hn)
    as (l & b & -> & ->). bsimpl.
  assert (Hinv : bip_inv (bip_counted (dip_bip d) s0)) by done.
  destruct (insertBlock_lru_ok _ pkt p Hinv Hlt Hset) as (s1 & -> & Hr1 & Hi1).
  destruct (insertBlock_bip_ok (bip_counted (dip_bip d) s0) pkt p)
    as (s2 & -> & Hr2 & Ht2 & Hi2 & _); [done..|].
  assert (bip_inv s2) by done.
  destruct l, b, (PSEL_isOver (dip_psel d)); eexists; split_and!; done.
Qed.

#[export] Instance DIP_ok : TagPolicyOk DIPState c dip_inv.
Proof using Hc.
  split; cbn.
  - done.
  - by intros d [[] _ _].
  - intros d p b b' s0 [[Hs Hb] ? ?] ?????. split; [|done..]. split; [by eauto with s2p|done].
  - intros d addr sec rd now s0 r lat [[Hs Hb] Hp Hn] Ha E. unfold DIP_accessBlock.
    pose proof (LRU_access_ok c Hc _ addr sec rd now s0 r lat Hs Ha E) as (t & El & Hr & Ht).
    unfold LRU_accessBlock in El. rewrite E in *. cbn [mbind res_bind] in *.
    destruct r as [p|].
    + destruct (vread (blks s0) p) as [b|]; [|done]. cbn [mbind res_bind] in *.
      destruct (upd_set s0 _ _) as [t'|]; [|done]. injection El as ->. bsimpl.
      eexists. by split_and!.
    + injection El as ->. destruct (setSampling_ok
        (dip_with_bip d (bip_with_tags (dip_bip d) t)) (extractSet c addr) now)
        as (d' & -> & ? & Eb); [done|]. bsimpl. eexists. split_and!; [done| |done].
      by rewrite Eb.
  - intros d addr _ [[Hs _] _ _] Ha _. by apply LRU_victim_ok.
  - intros. eapply DIP_insert_ok; eauto with s2p.
  - intros d p now s0 [[Hs Hb] ? ?] Hp E Hs0 Hbl _. unfold DIP_invalidate, BIP_invalidate.
    destruct (LRU_invalidate_ok c Hc _ p now s0 E) as (t & -> & ? & ?);
      [done|by eauto with s2p|]. bsimpl. eexists. by split_and!.
Qed.

End instances.

(** ** Recency

    A ghost clock: every use of a block (a hit or a fill) stamps it with the next
    positive instant, an invalidation with an instant before all others.  The
    step relation pairs a store with the stamps of its blocks. *)

Definition stamp_upd (σ : nat -> Z) (p : nat) (v : Z) : nat -> Z :=
  fun q => if decide (q = p) then v else σ q.

Inductive lru_reach (c : TagsConfig) : TagsState -> (nat -> Z) -> Z -> Prop :=
  | reach_new s :
      tags_wf c s -> Forall (fun b => isValid b = false) (blks s) ->
      (forall i cs, sets s !! i = Some cs -> set_blks cs = seq (i * assoc c) (assoc c)) ->
      lru_reach c s (fun p => - Z.of_nat p) 0
  | reach_miss s σ t addr sec rd now s' lat :
      lru_reach c s σ t -> 0 <= addr ->
      LRU_accessBlock c s addr sec rd now = Ret (s', None, lat) ->
      lru_reach c s' σ t
  | reach_hit s σ t addr sec rd now s' p lat :
      lru_reach c s σ t -> 0 <= addr ->
      LRU_accessBlock c s addr sec rd now = Ret (s', Some p, lat) ->
      lru_reach c s' (stamp_upd σ p (t + 1)) (t + 1)
  | reach_fill s σ t pkt p now st s1 s' :
      lru_reach c s σ t -> 0 <= pkt_addr pkt -> (p < length (blks s))%nat ->
      Z.of_nat (p / assoc c) = extractSet c (pkt_addr pkt) ->
      master_ok c (req_masterId (pkt_req pkt)) -> Z.testbit st 0 = true ->
      LRU_insertBlock c s pkt p now = Ret s1 ->
      upd_blk s1 p (fun b => with_status b st) = Ret s' ->
      lru_reach c s' (stamp_upd σ p (t + 1)) (t + 1)
  | reach_inval s σ t p now s1 s' :
      lru_reach c s σ t ->
      LRU_invalidate c s p now = Ret s1 ->
      upd_blk s1 p CacheBlk_invalidate = Ret s' ->
      lru_reach c s' (stamp_upd σ p (- Z.of_nat (length (blks s)) - t - 1)) (t + 1).

Definition newer (σ : nat -> Z) (a b : nat) : Prop := σ b < σ a.

Definition ordered (s : TagsState) (σ : nat -> Z) : Prop :=
  forall i cs, sets s !! i = Some cs -> StronglySorted (newer σ) (set_blks cs).

Lemma sorted_remove σ pre p post :
  StronglySorted (newer σ) (pre ++ p :: post) -> StronglySorted (newer σ) (pre ++ post).
Proof.
  induction pre as [|a pre IH]; cbn; intros Hs; apply StronglySorted_inv in Hs as [Hs Hf];
    [done|]. constructor; [by apply IH|].
  apply Forall_app in Hf as [? [_ ?]%Forall_cons]. by apply Forall_app.
Qed.

Lemma sorted_upd σ p v l :
  p ∉ l -> StronglySorted (newer σ) l -> StronglySorted (newer (stamp_upd σ p v)) l.
Proof.
  intros Hp. induction 1 as [|a l Hs IH Hf]; [constructor|].
  apply not_elem_of_cons in Hp as [Ha Hl]. constructor; [by apply IH|].
  apply Forall_forall. intros b Hb. rewrite Forall_forall in Hf. specialize (Hf b Hb).
  unfold newer, stamp_upd in *. rewrite !decide_False by set_solver. done.
Qed.

Lemma sorted_snoc σ l p :
  StronglySorted (newer σ) l -> Forall (fun q => σ p < σ q) l ->
  StronglySorted (newer σ) (l ++ [p]).
Proof.
  induction 1 as [|a l Hs IH Hf]; intros Hall; cbn; [by repeat constructor|].
  apply Forall_cons in Hall as [? ?]. constructor; [by apply IH|].
  apply Forall_app. split; [done|]. by constructor.
Qed.

Section recency.
Context (c : TagsConfig) (Hc : config_wf c).

(** Moving a block to the head under the newest stamp, or to the tail under
    the oldest, keeps every set in recency order. *)
Lemma ordered_move s σ p b i cs cs' v (f : CacheSet -> nat -> res CacheSet) :
  tags_wf c s -> ordered s σ -> blks s !! p = Some b -> i = Z.to_nat (blk_set b) ->
  sets s !! i = Some cs -> f cs p = Ret cs' ->
  (forall pre post, set_blks cs = pre ++ p :: post ->
     StronglySorted (newer (stamp_upd σ p v)) (pre ++ post) -> (forall q, q ∈ pre ++ post -> q <> p) ->
     StronglySorted (newer (stamp_upd σ p v)) (set_blks cs')) ->
  ordered (with_sets s (<[i:=cs']> (sets s))) (stamp_upd σ p v).
Proof using Hc.
  intros Hs Ho Hb -> Hcs Ef Hmove j cj. cbn.
  destruct (set_of_blk c Hc s p b Hs Hb) as (cs0 & Hcs0 & Hw & Hp & Ha).
  rewrite Hcs in Hcs0. injection Hcs0 as <-.
  intros [(<- & <- & _)|[Hne Hj]]%list_lookup_insert_Some.
  - pose proof (list_elem_of_split _ _ Hp) as (pre & post & E).
    destruct Hw as [_ Hnd]. rewrite E in Hnd. apply NoDup_middle in Hnd as (? & ? & _).
    apply (Hmove pre post E); [|set_solver].
    apply sorted_upd; [set_solver|]. apply (sorted_remove _ _ p). rewrite <- E. by eapply Ho.
  - apply sorted_upd; [|by eapply Ho]. intros Hin.
    apply (tags_set_elem c Hc s j cj) in Hin as [_ Hin]; [|done..].
    rewrite (tw_blk _ _ Hs _ _ Hb), Nat2Z.id in Hne. done.
Qed.

Lemma ordered_head s σ p b i cs cs' v :
  tags_wf c s -> ordered s σ -> blks s !! p = Some b -> i = Z.to_nat (blk_set b) ->
  sets s !! i = Some cs -> moveToHead cs p = Ret cs' ->
  (forall q, (q < length (blks s))%nat -> σ q < v) ->
  ordered (with_sets s (<[i:=cs']> (sets s))) (stamp_upd σ p v).
Proof using Hc.
  intros Hs Ho Hb Hi Hcs Ef Hmax. eapply (ordered_move s σ p b i cs cs' v moveToHead); try done.
  intros pre post E Hsort Hneq.
  rewrite (moveToHead_spec _ _ _ _ (tags_set_wf c _ _ _ Hs Hcs) E) in Ef. injection Ef as <-.
  constructor; [done|]. apply Forall_forall. intros q Hq. specialize (Hneq q Hq).
  unfold newer, stamp_upd. rewrite decide_False, decide_True by done. apply Hmax.
  eapply (tags_set_elem c Hc s i cs); [done..|]. rewrite E. set_solver.
Qed.

Lemma ordered_tail s σ p b i cs cs' v :
  tags_wf c s -> ordered s σ -> blks s !! p = Some b -> i = Z.to_nat (blk_set b) ->
  sets s !! i = Some cs -> moveToTail cs p = Ret cs' ->
  (forall q, (q < length (blks s))%nat -> v < σ q) ->
  ordered (with_sets s (<[i:=cs']> (sets s))) (stamp_upd σ p v).
Proof using Hc.
  intros Hs Ho Hb Hi Hcs Ef Hmin. eapply (ordered_move s σ p b i cs cs' v moveToTail); try done.
  intros pre post E Hsort Hneq.
  rewrite (moveToTail_spec _ _ _ _ (tags_set_wf c _ _ _ Hs Hcs) E) in Ef. injection Ef as <-.
  cbn. rewrite app_assoc. apply sorted_snoc; [done|]. apply Forall_forall. intros q Hq.
  specialize (Hneq q Hq). unfold stamp_upd. rewrite decide_True, decide_False by done.
  apply Hmin. eapply (tags_set_elem c Hc s i cs); [done..|]. rewrite E. set_solver.
Qed.

Definition src_ok (s : TagsState) : Prop :=
  forall p b, blks s !! p = Some b -> isValid b = true -> master_ok c (srcMasterId b).

Record lru_inv (s : TagsState) (σ : nat -> Z) (t : Z) : Prop := {
  li_wf : tags_wf c s;
  li_src : src_ok s;
  li_ord : ordered s σ;
  li_t : 0 <= t;
  li_rng : forall p, (p < length (blks s))%nat ->
             - Z.of_nat (length (blks s)) - t <= σ p <= t;
  li_valid : forall p b, blks s !! p = Some b -> (isValid b = true <-> 0 < σ p)
}.

(** Changing one block in place and stamping it. *)
Lemma lru_inv_upd s s' σ σ' t p b b' v :
  lru_inv s σ t -> blks s !! p = Some b -> blks s' = <[p:=b']> (blks s) ->
  σ' = stamp_upd σ p v -> tags_wf c s' -> ordered s' σ' ->
  (isValid b' = true -> master_ok c (srcMasterId b')) -> (isValid b' = true <-> 0 < v) ->
  - Z.of_nat (length (blks s)) - (t + 1) <= v <= t + 1 ->
  lru_inv s' σ' (t + 1).
Proof.
  intros [Hwf Hsrc _ Ht Hrng Hval] Hb Eb -> Hwf' Ho' Hsrc' Hval' Hv. split; try done.
  - intros q bq. rewrite Eb. intros [(-> & <- & _)|[_ Hq]]%list_lookup_insert_Some; [done|].
    by eapply Hsrc.
  - lia.
  - intros q. rewrite Eb, length_insert. intros Hq. unfold stamp_upd. case_decide; [lia|].
    specialize (Hrng q Hq). lia.
  - intros q bq. rewrite Eb. unfold stamp_upd.
    intros [(-> & <- & _)|[Hne Hq]]%list_lookup_insert_Some.
    + by rewrite decide_True.
    + rewrite decide_False by done. by apply Hval.
Qed.

Lemma ordered_ext s s' σ : sets s' = sets s -> ordered s σ -> ordered s' σ.
Proof. intros E Ho i cs. rewrite E. apply Ho. Qed.

Lemma lru_hit_state s addr sec rd now s' p lat :
  tags_wf c s -> 0 <= addr -> LRU_accessBlock c s addr sec rd now = Ret (s', Some p, lat) ->
  exists b cs cs', blks s !! p = Some b /\ isValid b = true /\ tags_wf c s' /\
    sets s !! Z.to_nat (blk_set b) = Some cs /\ moveToHead cs p = Ret cs' /\
    sets s' = <[Z.to_nat (blk_set b):=cs']> (sets s) /\
    blks s' = <[p:=with_refCount b (refCount b + 1)]> (blks s).
Proof using Hc.
  intros Hs Ha El.
  destruct (base_access_spec c Hc s addr sec rd now Hs Ha)
    as (s0 & r & lat0 & E & Ef & Hset & _ & Ho & Hb).
  destruct (base_findBlock_spec c Hc s addr sec Hs Ha) as (r' & Ef' & Hspec).
  rewrite Ef in Ef'. injection Ef' as <-.
  unfold LRU_accessBlock in El. rewrite E in El. cbn [mbind res_bind] in El.
  destruct r as [p0|]; [|discriminate]. destruct Hspec as (Hp & _ & Hm).
  destruct (lookup_lt_is_Some_2 _ _ Hp) as [b Hlb].
  unfold blk_match in Hm. rewrite Hlb in Hm. reflect.
  assert (Hb' : blks s0 = <[p0:=with_refCount b (refCount b + 1)]> (blks s)).
  { by rewrite Hb, (alter_as_insert _ _ _ b). }
  assert (Hs0 : tags_wf c s0)
    by (eapply (tags_wf_insert c s s0 p0 b _ Hs Hlb); [|done..|by rewrite Ho]; done).
  assert (Hl0 : blks s0 !! p0 = Some (with_refCount b (refCount b + 1)))
    by (rewrite Hb'; by apply list_lookup_insert_eq).
  rewrite (vread_some _ _ _ Hl0) in El. cbn [mbind res_bind] in El.
  destruct (upd_set_move c Hc s0 p0 _ _ (fun cs => moveToHead cs p0) Hs0 Hl0 eq_refl)
    as (s1 & cs & cs' & Eu & _ & Hw1 & Hcs & Em & ->); [auto using moveToHead_sim|].
  rewrite Eu in El. injection El as <- <- <-. cbn in *. rewrite Hset in *.
  exists b, cs, cs'. split_and!; done.
Qed.

Lemma lru_fill_state s pkt p now s1 :
  tags_wf c s -> src_ok s -> (p < length (blks s))%nat ->
  Z.of_nat (p / assoc c) = extractSet c (pkt_addr pkt) ->
  master_ok c (req_masterId (pkt_req pkt)) ->
  LRU_insertBlock c s pkt p now = Ret s1 ->
  exists b cs cs', blks s !! p = Some b /\ tags_wf c s1 /\
    sets s !! Z.to_nat (blk_set b) = Some cs /\ moveToHead cs p = Ret cs' /\
    sets s1 = <[Z.to_nat (blk_set b):=cs']> (sets s) /\
    blks s1 = <[p:=inserted c pkt now b]> (blks s).
Proof using Hc.
  intros Hs Hsrc Hp Hset Hm E. destruct (lookup_lt_is_Some_2 _ _ Hp) as [b Hb].
  destruct (base_insert_spec c s pkt p b now Hs Hb (Hsrc _ _ Hb) Hm)
    as (s0 & E0 & Es0 & Eb0 & _ & Eo0).
  assert (Hs0 : tags_wf c s0).
  { apply (tags_wf_insert c s s0 p b (inserted c pkt now b)); try done.
    rewrite Eo0. unfold occ_add. destruct (isValid b); by rewrite !length_alter. }
  assert (Hl0 : blks s0 !! p = Some (inserted c pkt now b))
    by (rewrite Eb0; by apply list_lookup_insert_eq).
  unfold LRU_insertBlock in E. rewrite E0 in E. cbn [mbind res_bind] in E.
  rewrite (blk_set_of_addr c s p b) in E by done.
  destruct (upd_set_move c Hc s0 p _ (Z.to_nat (blk_set b)) (fun cs => moveToHead cs p) Hs0 Hl0
    eq_refl) as (s' & cs & cs' & Eu & _ & Hw1 & Hcs & Em & ->); [auto using moveToHead_sim|].
  rewrite Eu in E. injection E as <-. cbn in *. rewrite Es0 in *.
  exists b, cs, cs'. split_and!; done.
Qed.

Lemma lru_inval_state s p now s1 :
  tags_wf c s -> src_ok s -> LRU_invalidate c s p now = Ret s1 ->
  exists b cs cs', blks s !! p = Some b /\ tags_wf c s1 /\
    sets s !! Z.to_nat (blk_set b) = Some cs /\ moveToTail cs p = Ret cs' /\
    sets s1 = <[Z.to_nat (blk_set b):=cs']> (sets s) /\
    blks s1 = <[p:=dropped now b]> (blks s).
Proof using Hc.
  intros Hs Hsrc E.
  assert (exists b, blks s !! p = Some b /\ isValid b = true) as (b & Hb & Hv).
  { unfold LRU_invalidate, BaseSetAssoc_invalidate, vread in E.
    destruct (blks s !! p) as [b|]; [|done]. exists b. split; [done|].
    cbn [mbind res_bind] in E. by destruct (isValid b). }
  destruct (base_invalidate_spec c s p b now Hs Hb Hv (Hsrc _ _ Hb Hv))
    as (s0 & E0 & Es0 & Eb0 & _ & Eo0).
  assert (Hs0 : tags_wf c s0).
  { apply (tags_wf_insert c s s0 p b (dropped now b)); try done.
    rewrite Eo0. unfold occ_add. by rewrite length_alter. }
  assert (Hl0 : blks s0 !! p = Some (dropped now b))
    by (rewrite Eb0; apply list_lookup_insert_eq; by eapply lookup_lt_Some).
  unfold LRU_invalidate in E. rewrite E0 in E. cbn [mbind res_bind] in E.
  rewrite (vread_some _ _ _ Hl0) in E. cbn [mbind res_bind] in E.
  destruct (upd_set_move c Hc s0 p _ (Z.to_nat (blk_set b)) (fun cs => moveToTail cs p) Hs0 Hl0
    eq_refl) as (s' & cs & cs' & Eu & _ & Hw1 & Hcs & Em & ->); [auto using moveToTail_sim|].
  change (blk_set (dropped now b)) with (blk_set b) in E.
  rewrite Eu in E. injection E as <-. cbn in *. rewrite Es0 in *.
  exists b, cs, cs'. split_and!; done.
Qed.

Lemma upd_blk_after s1 s' p b b1 (f : CacheBlk -> CacheBlk) bl :
  bl !! p = Some b -> blks s1 = <[p:=b1]> bl -> upd_blk s1 p f = Ret s' ->
  sets s' = sets s1 /\ blks s' = <[p:=f b1]> bl /\ occupancies s' = occupancies s1.
Proof.
  intros Hb E1 E. rewrite (upd_blk_spec s1 p f b1) in E.
  2:{ rewrite E1. apply list_lookup_insert_eq. by eapply lookup_lt_Some. }
  injection E as <-. cbn. by rewrite E1, list_insert_insert_eq.
Qed.

Lemma seq_ordered n : forall i, StronglySorted (newer (fun p => - Z.of_nat p)) (seq i n).
Proof.
  induction n as [|n IH]; intros i; cbn; constructor; [by apply IH|].
  apply Forall_forall. intros q [? ?]%elem_of_seq. unfold newer. lia.
Qed.

Lemma lru_new_inv s :
  tags_wf c s -> Forall (fun b => isValid b = false) (blks s) ->
  (forall i cs, sets s !! i = Some cs -> set_blks cs = seq (i * assoc c) (assoc c)) ->
  lru_inv s (fun p => - Z.of_nat p) 0.
Proof.
  intros Hs Hinv Hseq. split; try done.
  - intros p b Hb Hv. rewrite (Forall_lookup_1 _ _ _ _ Hinv Hb) in Hv. done.
  - intros i cs Hi. rewrite (Hseq i cs Hi). apply seq_ordered.
  - intros p Hp. lia.
  - intros p b Hb. rewrite (Forall_lookup_1 _ _ _ _ Hinv Hb). split; [done|lia].
Qed.

Lemma lru_miss_inv s σ t addr sec rd now s' lat :
  lru_inv s σ t -> 0 <= addr ->
  LRU_accessBlock c s addr sec rd now = Ret (s', None, lat) -> lru_inv s' σ t.
Proof using Hc.
  intros IH Ha E. destruct (base_access_spec c Hc s addr sec rd now (li_wf _ _ _ IH) Ha)
    as (s0 & r & lat0 & E0 & Ef & Hset & _ & Ho & Hb).
  unfold LRU_accessBlock in E. rewrite E0 in E. cbn [mbind res_bind] in E. destruct r as [p|].
  { destruct (vread (blks s0) p) as [b|]; [|done]. cbn [mbind res_bind] in E.
    by destruct (upd_set s0 _ _). }
  injection E as <- <-. pose proof (base_miss c Hc _ _ _ _ _ _ _ (li_wf _ _ _ IH) Ha E0).
  destruct IH. split; unfold src_ok; rewrite ?Hb; try done. by eapply ordered_ext.
Qed.

Lemma lru_hit_inv s σ t addr sec rd now s' p lat :
  lru_inv s σ t -> 0 <= addr ->
  LRU_accessBlock c s addr sec rd now = Ret (s', Some p, lat) ->
  lru_inv s' (stamp_upd σ p (t + 1)) (t + 1).
Proof using Hc.
  intros IH Ha E. pose proof (li_t _ _ _ IH).
  destruct (lru_hit_state _ _ _ _ _ _ _ _ (li_wf _ _ _ IH) Ha E)
    as (b & cs & cs' & Hb & Hv & Hw & Hcs & Em & Es & Eb).
  eapply (lru_inv_upd s s' σ _ t p b _ (t + 1) IH Hb Eb eq_refl Hw).
  - apply (ordered_ext (with_sets s (<[Z.to_nat (blk_set b):=cs']> (sets s)))); [exact Es|].
    eapply (ordered_head s σ p b _ cs cs' _ (li_wf _ _ _ IH) (li_ord _ _ _ IH)); try done.
    intros q Hq. pose proof (li_rng _ _ _ IH q Hq). lia.
  - intros _. by apply (li_src _ _ _ IH p b).
  - change (isValid (with_refCount b (refCount b + 1))) with (isValid b). rewrite Hv. lia.
  - lia.
Qed.

Lemma valid_bit b : Z.testbit (status b) 0 = true -> isValid b = true.
Proof.
  intros Hst. unfold isValid. apply negb_true_iff, Z.eqb_neq. intros E0.
  apply (f_equal (fun z => Z.testbit z 0)) in E0. rewrite Z.land_spec, Hst in E0. done.
Qed.

Lemma lru_fill_inv s σ t pkt p now st s1 s' :
  lru_inv s σ t -> (p < length (blks s))%nat ->
  Z.of_nat (p / assoc c) = extractSet c (pkt_addr pkt) ->
  master_ok c (req_masterId (pkt_req pkt)) -> Z.testbit st 0 = true ->
  LRU_insertBlock c s pkt p now = Ret s1 -> upd_blk s1 p (fun b => with_status b st) = Ret s' ->
  lru_inv s' (stamp_upd σ p (t + 1)) (t + 1).
Proof using Hc.
  intros IH Hp Hset Hm Hst E E1. pose proof (li_t _ _ _ IH).
  destruct (lru_fill_state s pkt p now s1 (li_wf _ _ _ IH) (li_src _ _ _ IH) Hp Hset Hm E)
    as (b & cs & cs' & Hb & Hw & Hcs & Em & Es & Eb).
  destruct (upd_blk_after _ _ _ _ _ _ _ Hb Eb E1) as (Es' & Eb' & Eo').
  set (b1 := with_status (inserted c pkt now b) st) in *.
  assert (Hw' : tags_wf c s').
  { apply (tags_wf_insert c s1 s' p (inserted c pkt now b) b1);
      try done; [rewrite Eb; by apply list_lookup_insert_eq| |by rewrite Eo'].
    by rewrite Eb', Eb, list_insert_insert_eq. }
  eapply (lru_inv_upd s s' σ _ t p b b1 (t + 1) IH Hb Eb' eq_refl Hw').
  - apply (ordered_ext (with_sets s (<[Z.to_nat (blk_set b):=cs']> (sets s))));
      [by rewrite Es'|].
    eapply (ordered_head s σ p b _ cs cs' _ (li_wf _ _ _ IH) (li_ord _ _ _ IH)); try done.
    intros q Hq. pose proof (li_rng _ _ _ IH q Hq). lia.
  - done.
  - rewrite (valid_bit b1) by done. lia.
  - lia.
Qed.

Lemma lru_inval_inv s σ t p now s1 s' :
  lru_inv s σ t -> LRU_invalidate c s p now = Ret s1 ->
  upd_blk s1 p CacheBlk_invalidate = Ret s' ->
  lru_inv s' (stamp_upd σ p (- Z.of_nat (length (blks s)) - t - 1)) (t + 1).
Proof using Hc.
  intros IH E E1. pose proof (li_t _ _ _ IH).
  destruct (lru_inval_state s p now s1 (li_wf _ _ _ IH) (li_src _ _ _ IH) E)
    as (b & cs & cs' & Hb & Hw & Hcs & Em & Es & Eb).
  destruct (upd_blk_after _ _ _ _ _ _ _ Hb Eb E1) as (Es' & Eb' & Eo').
  set (b1 := CacheBlk_invalidate (dropped now b)) in *.
  assert (Hw' : tags_wf c s').
  { apply (tags_wf_insert c s1 s' p (dropped now b) b1); try done.
    - rewrite Eb. apply list_lookup_insert_eq. by eapply lookup_lt_Some.
    - by rewrite Eb', Eb, list_insert_insert_eq.
    - by rewrite Eo'. }
  eapply (lru_inv_upd s s' σ _ t p b b1 _ IH Hb Eb' eq_refl Hw').
  - apply (ordered_ext (with_sets s (<[Z.to_nat (blk_set b):=cs']> (sets s))));
      [by rewrite Es'|].
    eapply (ordered_tail s σ p b _ cs cs' _ (li_wf _ _ _ IH) (li_ord _ _ _ IH)); try done.
    intros q Hq. pose proof (li_rng _ _ _ IH q Hq). lia.
  - done.
  - split; [done|lia].
  - lia.
Qed.

Lemma lru_reach_inv s σ t : lru_reach c s σ t -> lru_inv s σ t.
Proof using Hc.
  induction 1; eauto using lru_new_inv, lru_miss_inv, lru_hit_inv, lru_fill_inv, lru_inval_inv.
Qed.
End recency.

Lemma sorted_lookup {A} (R : A -> A -> Prop) l i j x y :
  StronglySorted R l -> l !! i = Some x -> l !! j = Some y -> (i < j)%nat -> R x y.
Proof.
  intros Hs. revert i j. induction Hs as [|a l Hs IH Hf]; intros i j Hi Hj Hij; [done|].
  destruct j as [|j]; [lia|]. destruct i as [|i]; cbn in *.
  - injection Hi as ->. by apply (Forall_lookup_1 _ _ _ _ Hf Hj).
  - apply (IH i j); done || lia.
Qed.

(** ** BIP over a run of insertions *)

Fixpoint BIP_run (c : TagsConfig) (s : BIPState) (tr : list (Packet * nat * Z)) : res BIPState :=
  match tr with
  | [] => Ret s
  | (pkt, p, now) :: tr => s ← BIP_insertBlock c s pkt p now; BIP_run c s tr
  end.

(** Insertions the cache may make: a way of the right set, a known master. *)
Definition insertion_ok (c : TagsConfig) (e : Packet * nat * Z) : Prop :=
  let '(pkt, p, _) := e in
  0 <= pkt_addr pkt /\ (p < numSets c * assoc c)%nat /\
  Z.of_nat (p / assoc c) = extractSet c (pkt_addr pkt) /\
  master_ok c (req_masterId (pkt_req pkt)).

(** MRU insertions among the first [n] of a run that starts a period. *)
Definition mru_count (num den n : Z) : Z := n / den * Z.min num den + Z.min num (n mod den).

Lemma mru_count_succ num den n :
  0 < den -> 0 <= num -> 0 <= n ->
  mru_count num den (n + 1) = mru_count num den n + (if n mod den <? num then 1 else 0).
Proof.
  intros Hd Hn H0. unfold mru_count.
  pose proof (Z.div_mod n den ltac:(lia)) as E. pose proof (Z.mod_pos_bound n den Hd).
  destruct (Z.eq_dec (n mod den) (den - 1)) as [El|El].
  - replace ((n + 1) / den) with (n / den + 1) by (apply (Z.div_unique _ _ _ 0); lia).
    replace ((n + 1) mod den) with 0 by (apply (Z.mod_unique _ _ (n / den + 1)); lia).
    destruct (Z.ltb_spec (n mod den) num); nia.
  - replace ((n + 1) / den) with (n / den) by (apply (Z.div_unique _ _ _ (n mod den + 1)); lia).
    replace ((n + 1) mod den) with (n mod den + 1) by (apply (Z.mod_unique _ _ (n / den)); lia).
    destruct (Z.ltb_spec (n mod den) num); lia.
Qed.

Section bip_run.
Context (c : TagsConfig) (Hc : config_wf c).

Lemma src_ok_reorder s s' : reorder s s' -> src_ok c s -> src_ok c s'.
Proof.
  intros [_ Hb _ _] Hs p b' Hp Hv.
  destruct (Forall2_lookup_r _ _ _ _ _ Hb Hp) as (b & Hlb & Hsim).
  rewrite <- Hsim in Hv. apply blk_sim_fields in Hsim as (_ & _ & _ & _ & <-).
  by apply (Hs p b).
Qed.

Lemma BIP_insert_step s pkt p now :
  bip_inv c s -> src_ok c (bip_tags s) -> insertion_ok c (pkt, p, now) ->
  exists s', BIP_insertBlock c s pkt p now = Ret s' /\ bip_inv c s' /\ src_ok c (bip_tags s') /\
    epsilon_denominator s' = epsilon_denominator s /\
    epsilon_numerator s' = epsilon_numerator s /\ all_insertions s' = all_insertions s + 1 /\
    mru_insertions s' = mru_insertions s +
      (if epsilon_counter s <? epsilon_numerator s then 1 else 0) /\
    epsilon_counter s' = (epsilon_counter s + 1) mod (Z.max 1 (epsilon_denominator s)).
Proof using Hc.
  intros [Hs Hb] Hsrc (Ha & Hp & Hset & Hm). rewrite <- (tw_nblks _ _ Hs) in Hp.
  destruct (lookup_lt_is_Some_2 _ _ Hp) as [b Hlb].
  destruct (base_insert_spec c (bip_tags s) pkt p b now Hs Hlb (Hsrc _ _ Hlb) Hm)
    as (s0 & E0 & Es0 & Eb0 & _ & Eo0).
  assert (Hs0 : tags_wf c s0).
  { apply (tags_wf_insert c (bip_tags s) s0 p b (inserted c pkt now b)); try done.
    rewrite Eo0. unfold occ_add. destruct (isValid b); by rewrite !length_alter. }
  unfold BIP_insertBlock. rewrite E0. bsimpl.
  destruct (insertBlock_bip_ok c Hc (bip_counted s s0) pkt p)
    as (s' & E & Hr & Hw & Hb' & H1 & H2 & H3 & H4 & H5); [done|done| |done|].
  { cbn. by rewrite Eb0, length_insert. }
  exists s'. split_and!; try done. eapply src_ok_reorder; [exact Hr|]. cbn.
  intros q bq. rewrite Eb0. intros [(-> & <- & _)|[_ Hq]]%list_lookup_insert_Some; [done|].
  by apply (Hsrc q).
Qed.

Lemma BIP_run_spec tr : forall s n,
  bip_inv c s -> src_ok c (bip_tags s) -> Forall (insertion_ok c) tr ->
  0 < epsilon_denominator s -> 0 <= epsilon_numerator s -> 0 <= n ->
  epsilon_counter s = n mod epsilon_denominator s ->
  exists s', BIP_run c s tr = Ret s' /\ bip_inv c s' /\
    epsilon_denominator s' = epsilon_denominator s /\
    all_insertions s' = all_insertions s + Z.of_nat (length tr) /\
    mru_insertions s' = mru_insertions s +
      (mru_count (epsilon_numerator s) (epsilon_denominator s) (n + Z.of_nat (length tr)) -
       mru_count (epsilon_numerator s) (epsilon_denominator s) n).
Proof using Hc.
  induction tr as [|[[pkt p] now] tr IH]; intros s n Hs Hsrc Hall Hd Hnum Hn Ec.
  - exists s. split_and!; try done; cbn; rewrite ?Z.add_0_r; lia.
  - apply Forall_cons in Hall as [Hok Hall].
    destruct (BIP_insert_step s pkt p now Hs Hsrc Hok)
      as (s1 & E1 & Hs1 & Hsrc1 & Hd1 & Hn1 & Ha1 & Hm1 & Hc1).
    cbn [BIP_run]. rewrite E1. bsimpl.
    destruct (IH s1 (n + 1)) as (s' & -> & Hs' & Hd' & Ha' & Hm'); try done; try lia.
    { rewrite Hc1, Hd1, Z.max_r, Ec by lia. by rewrite Zplus_mod_idemp_l. }
    exists s'. split_and!; try done.
    + congruence.
    + rewrite Ha', Ha1. cbn [length]. lia.
    + rewrite Hm', Hm1, Hd1, Hn1, mru_count_succ, Ec by lia. cbn [length].
      replace (n + 1 + Z.of_nat (length tr)) with (n + Z.of_nat (S (length tr))) by lia. lia.
Qed.
End bip_run.

(** ** Dedicated sets of DIP *)

(** The dedicated set of constituency [id], as an offset. *)
Definition dedicated_offset (nc id : Z) : Z :=
  if Z.even id then nc - 1 - id mod nc else id mod nc.

Lemma even_mod2 id : (id mod 2 =? 0) = Z.even id /\ (id mod 2 =? 1) = negb (Z.even id).
Proof.
  rewrite Zmod_even. by destruct (Z.even id).
Qed.

(** In constituency [id] exactly the set at [dedicated_offset] is dedicated: to
    LRU when [id] is odd, to BIP when it is even. *)
Lemma dedicated_spec k id j :
  0 <= k <= 32 -> 0 <= id -> 0 <= j < 2 ^ k ->
  let nc := 2 ^ k in
  isDedicatedLRU nc (id * nc + j) = Ret (negb (Z.even id) && (j =? dedicated_offset nc id)) /\
  isDedicatedBIP nc (id * nc + j) = Ret (Z.even id && (j =? dedicated_offset nc id)).
Proof.
  intros Hk Hid Hj nc. unfold isDedicatedLRU, isDedicatedBIP, getConstituencyID,
    getConstituencyOffset. fold nc in Hj.
  destruct (Z.eqb_spec nc 0); [lia|]. bsimpl.
  assert (E1 : (id * nc + j) / nc = id) by (symmetry; apply (Z.div_unique _ _ _ j); lia).
  assert (E2 : (id * nc + j) mod nc = j) by (symmetry; apply (Z.mod_unique _ _ id); lia).
  rewrite E1, E2. destruct (even_mod2 id) as [-> ->]. unfold dedicated_offset.
  assert (Hw : inword 32 j).
  { apply (inword_mono k 32); [lia|]. done. }
  assert (En : wnot 32 j mod nc = nc - 1 - j).
  { rewrite wnot_eq by (done || lia).
    symmetry. apply (Z.mod_unique _ _ (2 ^ (32 - k) - 1)); [lia|].
    unfold nc. rewrite Z.mul_sub_distr_l, Z.mul_1_r, <- Z.pow_add_r by lia.
    replace (k + (32 - k)) with 32 by lia. lia. }
  rewrite En. destruct (Z.even id); cbn [negb andb]; split; try done; f_equal;
    apply eq_true_iff_eq; rewrite !Z.eqb_eq; lia.
Qed.

(** Counting over part of a constituency, and over whole constituencies. *)
Lemma loop_in_constituency k id fuel : forall rest j lru bip,
  0 <= k <= 32 -> 0 <= id -> 0 <= j -> j + Z.of_nat fuel <= 2 ^ k ->
  checkConstituency_loop (2 ^ k) (fuel + rest) (id * 2 ^ k + j) lru bip =
  let hit := if decide (j <= dedicated_offset (2 ^ k) id < j + Z.of_nat fuel) then 1 else 0 in
  checkConstituency_loop (2 ^ k) rest (id * 2 ^ k + j + Z.of_nat fuel)
    (lru + if Z.even id then 0 else hit) (bip + if Z.even id then hit else 0).
Proof.
  induction fuel as [|fuel IH]; intros rest j lru bip Hk Hid Hj Hle.
  - cbn. rewrite decide_False by lia. rewrite Z.add_0_r. by destruct (Z.even id); rewrite !Z.add_0_r.
  - cbn [Nat.add checkConstituency_loop].
    destruct (dedicated_spec k id j Hk Hid ltac:(lia)) as [-> ->]. bsimpl.
    assert (Hb : (negb (Z.even id) && (j =? dedicated_offset (2 ^ k) id)
                  && (Z.even id && (j =? dedicated_offset (2 ^ k) id)))%bool = false).
    { by destruct (Z.even id), (j =? _). }
    rewrite Hb, <- Z.add_assoc, (IH rest (j + 1)) by lia. cbn zeta.
    set (o := dedicated_offset (2 ^ k) id).
    replace (id * 2 ^ k + (j + 1) + Z.of_nat fuel) with (id * 2 ^ k + j + Z.of_nat (S fuel)) by lia.
    destruct (Z.eqb_spec j o) as [Eo|Eo]; destruct (Z.even id); cbn [negb andb];
      repeat case_decide; f_equal; lia.
Qed.

Lemma loop_constituencies k n : forall id lru bip,
  0 <= k <= 32 -> 0 <= id -> Z.even id = true ->
  checkConstituency_loop (2 ^ k) (n * 2 * Z.to_nat (2 ^ k)) (id * 2 ^ k) lru bip =
  Ret (lru + Z.of_nat n, bip + Z.of_nat n).
Proof.
  induction n as [|n IH]; intros id lru bip Hk Hid Hev.
  - cbn. by rewrite !Z.add_0_r.
  - pose proof (pow2_pos k ltac:(lia)) as Hpos.
    assert (Hoff : forall i, 0 <= i -> 0 <= dedicated_offset (2 ^ k) i < 2 ^ k).
    { intros i Hi. unfold dedicated_offset. pose proof (Z.mod_pos_bound i (2 ^ k) Hpos).
      destruct (Z.even i); lia. }
    set (m := Z.to_nat (2 ^ k)).
    replace (S n * 2 * m)%nat with (m + (m + n * 2 * m))%nat by lia.
    rewrite <- (Z.add_0_r (id * 2 ^ k)).
    rewrite (loop_in_constituency k id m) by lia. cbn zeta. rewrite Hev.
    rewrite decide_True by (specialize (Hoff id); lia).
    replace (id * 2 ^ k + 0 + Z.of_nat m) with ((id + 1) * 2 ^ k + 0) by lia.
    rewrite (loop_in_constituency k (id + 1) m) by lia. cbn zeta.
    assert (Hodd : Z.even (id + 1) = false).
    { rewrite Z.even_add, Hev. done. }
    rewrite Hodd, decide_True by (specialize (Hoff (id + 1)); lia).
    replace ((id + 1) * 2 ^ k + 0 + Z.of_nat m) with ((id + 2) * 2 ^ k) by lia.
    unfold m. rewrite IH; [|done|lia|by rewrite Z.even_add, Hev]. do 2 f_equal; lia.
Qed.

(** ** Properties *)

(** C14. The four policies refine the base store.  LRU, random replacement, BIP
    and DIP each implement the interface the cache relies on: every operation
    returns whenever the base operation does, has the effect of the base
    operation up to the order of ways and the reuse counters, keeps the
    policy's own invariant, and the victim is a way of the set of the address. *)
Theorem policies_refine c :
  config_wf c ->
  TagPolicyOk TagsState c (tags_wf c) /\
  TagPolicyOk RandomState c (fun s => tags_wf c (random_tags s)) /\
  TagPolicyOk BIPState c (bip_inv c) /\
  TagPolicyOk DIPState c (dip_inv c).
Proof.
  intros Hc. split_and!; [apply LRU_ok|apply Random_ok|apply BIP_ok|apply DIP_ok]; done.
Qed.

Lemma policies_refine_witness :
  exists p, LRU_findVictim small_config small_state 0x40 = Ret (Some p) /\
    (p / 2 = 1)%nat.
Proof.
  destruct small_wf as (Hc & Hs & _).
  destruct (policies_refine small_config Hc) as (HL & _).
  destruct (tpo_victim small_state 0x40 0 Hs) as (p & E & _ & Hp);
    [lia|unfold draw_ok; cbn; lia|].
  exists p. split; [exact E|]. change (extractSet small_config 64) with 1 in Hp.
  cbn [assoc small_config] in Hp. lia.
Defined.

(** C15. LRU evicts the least recently used block.  In every store reachable by
    hits, misses, fills and invalidations, the victim is a way of the set of the
    address, every other way of that set was used more recently, and if some
    way of the set is invalid then the victim is invalid. *)
Theorem LRU_victim_oldest c s σ t addr :
  config_wf c -> lru_reach c s σ t -> 0 <= addr ->
  exists p b, LRU_findVictim c s addr = Ret (Some p) /\ blks s !! p = Some b /\
    Z.of_nat (p / assoc c) = extractSet c addr /\
    (forall q, (q < length (blks s))%nat -> Z.of_nat (q / assoc c) = extractSet c addr ->
       q <> p -> σ p < σ q) /\
    (forall q bq, blks s !! q = Some bq -> Z.of_nat (q / assoc c) = extractSet c addr ->
       isValid bq = false -> isValid b = false).
Proof.
  intros Hc Hr Ha. destruct (lru_reach_inv c Hc s σ t Hr) as [Hs _ Ho _ _ Hval].
  destruct (cw_assoc _ Hc).
  destruct (way_of_set c Hc s addr (assoc c - 1) Hs Ha ltac:(lia)) as (cs & p & Hcs & Hp & Hlt & E).
  destruct (lookup_lt_is_Some_2 _ _ Hlt) as [b Hb].
  assert (Hold : forall q, (q < length (blks s))%nat ->
            Z.of_nat (q / assoc c) = extractSet c addr -> q <> p -> σ p < σ q).
  { intros q Hq Hset Hne.
    assert (Hin : q ∈ set_blks cs).
    { apply (tags_set_elem c Hc s (Z.to_nat (extractSet c addr)) cs); [done..|]. split; [done|].
      rewrite <- Hset. by rewrite Nat2Z.id. }
    apply list_elem_of_lookup_1 in Hin as [i Hi].
    apply (sorted_lookup (newer σ) (set_blks cs) i (assoc c - 1)); [by eapply Ho|done..|].
    assert (i < length (set_blks cs))%nat by (by eapply lookup_lt_Some).
    destruct (tags_set_wf c s _ cs Hs Hcs) as [Hlen _].
    destruct (tw_set _ _ Hs _ _ Hcs) as [Has _].
    destruct (decide (i = assoc c - 1)%nat) as [->|]; [congruence|lia]. }
  exists p, b. split_and!; try done.
  - unfold LRU_findVictim. rewrite (vread_some _ _ _ Hcs). bsimpl.
    rewrite (vread_some _ _ _ Hp). bsimpl. by rewrite (vread_some _ _ _ Hb).
  - intros q bq Hq Hset Hv. destruct (decide (q = p)) as [->|Hne]; [congruence|].
    specialize (Hold q ltac:(by eapply lookup_lt_Some) Hset Hne).
    apply not_true_iff_false. intros Hvb. apply (Hval p b Hb) in Hvb.
    assert (isValid bq = true) by (apply (Hval q bq Hq); lia). congruence.
Qed.

Definition demo_pkt (addr : Z) : Packet :=
  Packet_new (mkRequest 0 addr 64 1 5 0 0) ReadResp.

(** Block 1 is filled for address 0; block 0 is then the victim. *)
Lemma LRU_victim_oldest_witness :
  exists s σ t, lru_reach small_config s σ t /\ LRU_findVictim small_config s 0 = Ret (Some 0%nat).
Proof.
  destruct small_wf as (Hc & Hs & Hinv).
  assert (H0 : lru_reach small_config small_state (fun p => - Z.of_nat p) 0).
  { apply reach_new; [exact Hs|exact Hinv|]. intros i cs Hi.
    do 8 (destruct i as [|i]; [injection Hi as <-; reflexivity|]). discriminate. }
  set (σ := stamp_upd (fun p => - Z.of_nat p) 1 (0 + 1)).
  assert (exists s, lru_reach small_config s σ (0 + 1)) as [s H1].
  { eexists. unfold σ. eapply (reach_fill _ _ _ _ (demo_pkt 0) 1 100 5); [exact H0|..].
    - cbn. lia.
    - vm_compute. lia.
    - reflexivity.
    - unfold master_ok. cbn. lia.
    - reflexivity.
    - vm_compute. reflexivity.
    - vm_compute. reflexivity. }
  exists s, σ, (0 + 1). split; [exact H1|].
  destruct (LRU_victim_oldest small_config s σ (0 + 1) 0 Hc H1 ltac:(lia))
    as (p & b & -> & Hb & Hp & Hold & _).
  pose proof (tw_nblks _ _ (li_wf _ _ _ _ (lru_reach_inv _ Hc _ _ _ H1))) as Hlen.
  change (extractSet small_config 0) with 0 in *. cbn [assoc numSets small_config] in *.
  do 2 f_equal. destruct p as [|[|p]]; [done| |].
  - specialize (Hold 0%nat ltac:(lia) eq_refl ltac:(lia)). vm_compute in Hold.
    discriminate Hold.
  - pose proof (Nat.div_str_pos (S (S p)) 2 ltac:(lia)). lia.
Defined.

(** BIP's insertions follow epsilon exactly.  A run of [n] insertions that
    starts a period never fails, and makes
    [n / den * min num den + min num (n mod den)] of them at the MRU position. *)
Theorem BIP_epsilon c t num den tr :
  config_wf c -> tags_wf c t -> src_ok c t -> Forall (insertion_ok c) tr ->
  0 <= num -> 0 < den < 2 ^ 32 ->
  exists s', BIP_run c (BIP_new t num den) tr = Ret s' /\
    all_insertions s' = Z.of_nat (length tr) /\
    mru_insertions s' = mru_count num den (Z.of_nat (length tr)) /\
    0 <= epsilon_counter s' < den.
Proof.
  intros Hc Ht Hsrc Hall Hn Hd.
  destruct (BIP_run_spec c Hc tr (BIP_new t num den) 0) as (s' & E & [_ Hb] & Ed & Ha & Hm);
    try done; try lia.
  { split; [done|]. unfold bip_wf. cbn. word_lia. }
  { cbn. lia. }
  assert (H0 : mru_count num den 0 = 0).
  { unfold mru_count. rewrite Z.div_0_l, Z.mod_0_l by lia. lia. }
  cbn [epsilon_denominator epsilon_numerator all_insertions mru_insertions BIP_new] in *.
  rewrite H0, !Z.add_0_l, Z.sub_0_r in Hm. destruct Hb as (_ & ? & ?).
  exists s'. split_and!; [done|lia..].
Qed.

Lemma BIP_epsilon_witness :
  exists s', BIP_run small_config (BIP_new small_state 1 4)
    [(demo_pkt 0, 1%nat, 10); (demo_pkt 0, 0%nat, 20)] = Ret s' /\ mru_insertions s' = 1.
Proof.
  destruct small_wf as (Hc & Hs & Hinv).
  destruct (BIP_epsilon small_config small_state 1 4
    [(demo_pkt 0, 1%nat, 10); (demo_pkt 0, 0%nat, 20)]) as (s' & E & _ & Hm & _).
  - exact Hc.
  - exact Hs.
  - intros p b Hb Hv. rewrite (Forall_lookup_1 _ _ _ _ Hinv Hb) in Hv. discriminate.
  - repeat constructor; unfold master_ok; cbn; lia || reflexivity.
  - lia.
  - lia.
  - exists s'. split; [exact E|]. rewrite Hm. reflexivity.
Defined.

(** The set duelling of DIP is balanced.  When the number of sets is
    [2 * ndsets] constituencies of [2^k] sets, the constructor's check passes:
    it finds [ndsets] sets dedicated to LRU and [ndsets] to BIP.  Constituency
    [id] has exactly one dedicated set, for LRU when [id] is odd and for BIP when
    it is even, so no set is dedicated to both. *)
Theorem DIP_dedicated k ndsets b psel :
  0 <= k <= 32 -> (0 < ndsets)%nat -> 2 * Z.of_nat ndsets < 2 ^ 32 ->
  DIP_new (ndsets * 2 * Z.to_nat (2 ^ k)) b psel (Z.of_nat ndsets) =
    Ret (mkDIPState b psel (Z.of_nat ndsets) (2 * Z.of_nat ndsets) (2 ^ k)) /\
  (forall id j, 0 <= id -> 0 <= j < 2 ^ k ->
     isDedicatedLRU (2 ^ k) (id * 2 ^ k + j) =
       Ret (negb (Z.even id) && (j =? dedicated_offset (2 ^ k) id)) /\
     isDedicatedBIP (2 ^ k) (id * 2 ^ k + j) =
       Ret (Z.even id && (j =? dedicated_offset (2 ^ k) id))).
Proof.
  intros Hk Hn Hw. split; [|intros; by apply dedicated_spec].
  pose proof (pow2_pos k ltac:(lia)) as Hpos. unfold DIP_new.
  rewrite wrap_small by word_lia.
  destruct (Z.eqb_spec (Z.of_nat ndsets * 2) 0); [lia|].
  replace (Z.of_nat (ndsets * 2 * Z.to_nat (2 ^ k)) / (Z.of_nat ndsets * 2)) with (2 ^ k).
  2:{ apply (Z.div_unique _ _ _ 0); lia. }
  unfold checkConstituency.
  pose proof (loop_constituencies k ndsets 0 0 0 Hk ltac:(lia) eq_refl) as E.
  rewrite Z.mul_0_l in E. rewrite E. bsimpl. rewrite Z.eqb_refl. cbn [negb].
  destruct (Z.eqb_spec (0 + Z.of_nat ndsets + (0 + Z.of_nat ndsets)) (Z.of_nat ndsets * 2)); [|lia].
  cbn [negb]. bsimpl. do 2 f_equal. lia.
Qed.

Lemma DIP_dedicated_witness :
  exists d, DIP_new 64 (BIP_new small_state 1 32) (mkPolicySelector 511 1023 10 0 []) 4 = Ret d.
Proof.
  eexists.
  destruct (DIP_dedicated 3 4 (BIP_new small_state 1 32) (mkPolicySelector 511 1023 10 0 []))
    as [E _]; [lia|lia|lia|].
  exact E.
Defined.
