(* ===== verification/Flip.v ===== *)
(** * FLIP replacement: [mem/cache/tags/flip.hh] and [flip.cc]

    Flexible insertion and promotion: an LRU stack in which the [n]-th use of a
    block moves it to a position that adapts to the reuse observed at the LRU
    position.  The distributions are kept as the list of their samples; the
    dump files and the scheduling of the update event are not modelled. *)

From S2P Require Import Prelude IntMath Packet CacheBlk TagStore SatCounter LruTags.
Local Open Scope Z_scope.

(** ** State and operations *)

Record FLIPState := mkFLIPState {
  flip_tags : TagsState;
  flip_sdp : StackDistanceCounter;
  flip_sdparr : StackDistanceCounterArray;
  flip_pos : list ConservativeCounter;
  flip_frc : list Z;
  blk_max_count : Z;
  detect_th : Z;
  posDistBlock : list (list Z);
  posDistDuration : list (list (Z * Z));
  prev_sampled : option Z   (* unset until the first call *)
}.

Definition flip_with_tags (s : FLIPState) (t : TagsState) : FLIPState :=
  mkFLIPState t (flip_sdp s) (flip_sdparr s) (flip_pos s) (flip_frc s) (blk_max_count s)
    (detect_th s) (posDistBlock s) (posDistDuration s) (prev_sampled s).
Definition flip_with_sdp (s : FLIPState) (a : StackDistanceCounter)
    (b : StackDistanceCounterArray) : FLIPState :=
  mkFLIPState (flip_tags s) a b (flip_pos s) (flip_frc s) (blk_max_count s)
    (detect_th s) (posDistBlock s) (posDistDuration s) (prev_sampled s).
Definition flip_with_pos (s : FLIPState) (pos : list ConservativeCounter) (frc : list Z) :
    FLIPState :=
  mkFLIPState (flip_tags s) (flip_sdp s) (flip_sdparr s) pos frc (blk_max_count s)
    (detect_th s) (posDistBlock s) (posDistDuration s) (prev_sampled s).
Definition flip_with_dist (s : FLIPState) (d : list (list Z)) : FLIPState :=
  mkFLIPState (flip_tags s) (flip_sdp s) (flip_sdparr s) (flip_pos s) (flip_frc s)
    (blk_max_count s) (detect_th s) d (posDistDuration s) (prev_sampled s).
Definition flip_with_dur (s : FLIPState) (d : list (list (Z * Z))) (t : option Z) : FLIPState :=
  mkFLIPState (flip_tags s) (flip_sdp s) (flip_sdparr s) (flip_pos s) (flip_frc s)
    (blk_max_count s) (detect_th s) (posDistBlock s) d t.

(** The constructor with [regStats], which creates the distributions; [u] and
    [u'] are what the memory of the counters held before. *)
Definition FLIP_new (c : TagsConfig) (t : TagsState) (bmc th start_prior u u' : Z) :
    FLIPState :=
  mkFLIPState t (SD_new (assoc c)) (SDA_new (assoc c) (bmc + 1))
    (replicate (Z.to_nat bmc) (CC_new u u' (Z.of_nat (assoc c) - 1) 7 start_prior 0))
    (replicate (Z.to_nat bmc) 0) bmc th
    (replicate (Z.to_nat bmc + 1) []) (replicate (Z.to_nat bmc + 1) []) None.

(** [posDistBlock[i]->sample(v, 1)] *)
Definition sample_block (s : FLIPState) (i v : Z) : res FLIPState :=
  l ← vread (posDistBlock s) (Z.to_nat i);
  d ← vwrite (posDistBlock s) (Z.to_nat i) (v :: l);
  Ret (flip_with_dist s d).

(** [sets[set].moveTo(blk, pos[i]); posDistBlock[i]->sample(pos[i], 1);] *)
Definition move_to_pos (s : FLIPState) (set : Z) (blk : nat) (i : Z) : res FLIPState :=
  p ← vread (flip_pos s) (Z.to_nat i);
  t ← upd_set (flip_tags s) (Z.to_nat set)
        (fun cs => moveTo cs blk (Z.to_nat (CC_value p)));
  sample_block (flip_with_tags s t) i (CC_value p).

Definition FLIP_accessBlock (c : TagsConfig) (s : FLIPState) (addr : Z)
    (is_secure is_read : bool) (now : Z) : res (FLIPState * option nat * Z) :=
  '(t, blk, lat) ← BaseSetAssoc_accessBlock c (flip_tags s) addr is_secure is_read now;
  let s := flip_with_tags s t in
  match blk with
  | None => Ret (s, None, lat)
  | Some p =>
      b ← vread (blks t) p;
      cs ← vread (sets t) (Z.to_nat (blk_set b));
      lrustate ← getLRUState cs p;
      sdp ← SD_sample (flip_sdp s) lrustate;
      arr ← SDA_sample (flip_sdparr s) (tag_refcount b) lrustate;
      let s := flip_with_sdp s sdp arr in
      let cur_index := tag_refcount b in
      s ← (if (lrustate =? assoc c - 1)%nat then
             x ← vread (flip_frc s) (Z.to_nat cur_index);
             l ← vwrite (flip_frc s) (Z.to_nat cur_index) (u64 (x + 1));
             Ret (flip_with_pos s (flip_pos s) l)
           else Ret s);
      let new_index := if cur_index <? blk_max_count s then cur_index + 1 else cur_index in
      t ← upd_blk (flip_tags s) p (fun b => with_tag_refcount b new_index);
      let s := flip_with_tags s t in
      s ← (if new_index <? blk_max_count s then move_to_pos s (blk_set b) p new_index
           else if new_index =? blk_max_count s then
             t ← upd_set (flip_tags s) (Z.to_nat (blk_set b)) (fun cs => moveToHead cs p);
             sample_block (flip_with_tags s t) new_index 0
           else Err Fatal);
      Ret (s, Some p, lat)
  end.

Definition FLIP_findVictim (c : TagsConfig) (s : FLIPState) (addr : Z) : res (option nat) :=
  cs ← vread (sets (flip_tags s)) (Z.to_nat (extractSet c addr));
  p ← vread (set_blks cs) (assoc c - 1);
  _ ← vread (blks (flip_tags s)) p;
  Ret (Some p).

Definition FLIP_insertBlock (c : TagsConfig) (s : FLIPState) (pkt : Packet) (blk : nat)
    (now : Z) : res FLIPState :=
  t ← BaseSetAssoc_insertBlock c (flip_tags s) pkt blk now;
  t ← upd_blk t blk (fun b => with_tag_refcount b 0);
  move_to_pos (flip_with_tags s t) (extractSet c (pkt_addr pkt)) blk 0.

Definition FLIP_invalidate (c : TagsConfig) (s : FLIPState) (blk : nat) (now : Z) :
    res FLIPState :=
  t ← BaseSetAssoc_invalidate c (flip_tags s) blk now;
  b ← vread (blks t) blk;
  t ← upd_set t (Z.to_nat (blk_set b)) (fun cs => moveToTail cs blk);
  Ret (flip_with_tags s t).

(** The loop of [samplePriorityPointer]: the positions with the time they were
    held. *)
Fixpoint sample_loop (pos : list ConservativeCounter) (d : list (list (Z * Z))) (dt : Z)
    (fuel i : nat) : res (list (list (Z * Z))) :=
  match fuel with
  | O => Ret d
  | S fuel =>
      p ← vread pos i;
      l ← vread d i;
      d ← vwrite d i ((CC_value p, dt) :: l);
      sample_loop pos d dt fuel (S i)
  end.

(** [prev_sampled] is a static variable, initialised by the first call. *)
Definition samplePriorityPointer (s : FLIPState) (now : Z) : res FLIPState :=
  d ← sample_loop (flip_pos s) (posDistDuration s) (u64 (now - default now (prev_sampled s)))
        (Z.to_nat (blk_max_count s)) 0;
  Ret (flip_with_dur s d (Some now)).

(** The loop of [updatePriorityPointer]. *)
Fixpoint update_loop (th : Z) (pos : list ConservativeCounter) (frc : list Z) (fuel i : nat) :
    res (list ConservativeCounter * list Z) :=
  match fuel with
  | O => Ret (pos, frc)
  | S fuel =>
      f ← vread frc i;
      p ← vread pos i;
      pos ← vwrite pos i (if th <=? f then CC_decrement p 1 else CC_increment p 1);
      frc ← vwrite frc i 0;
      update_loop th pos frc fuel (S i)
  end.

Definition updatePriorityPointer (s : FLIPState) (now : Z) : res FLIPState :=
  s ← samplePriorityPointer s now;
  '(pos, frc) ← update_loop (detect_th s) (flip_pos s) (flip_frc s)
                  (Z.to_nat (blk_max_count s)) 0;
  Ret (flip_with_pos s pos frc).

#[export] Instance FLIP_policy : TagPolicy FLIPState := {
  tp_base := flip_tags;
  tp_with_base := flip_with_tags;
  tp_accessBlock := FLIP_accessBlock;
  tp_findVictim c s addr _ := FLIP_findVictim c s addr;
  tp_insertBlock := FLIP_insertBlock;
  tp_invalidate := FLIP_invalidate
}.

(** ** The invariant *)

(** A position pointer: a conservative counter over the ways of a set. *)
Definition pos_ok (c : TagsConfig) (p : ConservativeCounter) : Prop :=
  cc_wf p /\ sc_max (cc_base p) = Z.of_nat (assoc c) - 1.

Record flip_inv (c : TagsConfig) (s : FLIPState) : Prop := {
  fi_tags : tags_wf c (flip_tags s);
  fi_max : 0 < blk_max_count s < 2 ^ 32 - 1;
  fi_pos : length (flip_pos s) = Z.to_nat (blk_max_count s);
  fi_posok : Forall (pos_ok c) (flip_pos s);
  fi_frc : length (flip_frc s) = Z.to_nat (blk_max_count s);
  fi_sdp : sd_wf (flip_sdp s) /\ sd_assoc (flip_sdp s) = assoc c;
  fi_arr : sda_wf (assoc c) (flip_sdparr s);
  fi_dist : length (posDistBlock s) = S (Z.to_nat (blk_max_count s));
  fi_dur : length (posDistDuration s) = S (Z.to_nat (blk_max_count s));
  fi_refs : forall p b, blks (flip_tags s) !! p = Some b -> isTouched b || isValid b = true ->
    0 <= tag_refcount b <= blk_max_count s
}.

Section flip.
Context (c : TagsConfig) (Hc : config_wf c).

Lemma flip_inv_tags s t :
  flip_inv c s -> tags_wf c t ->
  (forall p b, blks t !! p = Some b -> isTouched b || isValid b = true ->
     0 <= tag_refcount b <= blk_max_count s) ->
  flip_inv c (flip_with_tags s t).
Proof. by intros [] Ht Hr. Qed.

Lemma sample_block_ok s i v :
  flip_inv c s -> 0 <= i <= blk_max_count s ->
  exists s', sample_block s i v = Ret s' /\ flip_inv c s' /\ flip_tags s' = flip_tags s /\
    flip_pos s' = flip_pos s /\ flip_frc s' = flip_frc s /\ blk_max_count s' = blk_max_count s.
Proof.
  intros Hi Hr. pose proof (fi_dist _ _ Hi) as Hd. unfold sample_block.
  destruct (lookup_lt_is_Some_2 (posDistBlock s) (Z.to_nat i)) as [l Hl]; [lia|].
  rewrite (vread_some _ _ _ Hl). bsimpl. rewrite vwrite_lt by lia. bsimpl. eexists.
  split; [done|]. split; [|done]. destruct Hi. split; try done. cbn. by rewrite length_insert.
Qed.

Lemma pos_range s i p :
  flip_inv c s -> flip_pos s !! i = Some p -> 0 <= CC_value p < Z.of_nat (assoc c).
Proof.
  intros Hi Hp. destruct (Forall_lookup_1 _ _ _ _ (fi_posok _ _ Hi) Hp) as [[Hb _ _ _] Hm].
  unfold sc_wf in Hb. unfold CC_value. lia.
Qed.

(** Where a block stands in its set. *)
Definition stands (t : TagsState) (b : CacheBlk) (p k : nat) : Prop :=
  exists cs, sets t !! Z.to_nat (blk_set b) = Some cs /\ getLRUState cs p = Ret k.

(** A move of the block to position [k]. *)
Lemma upd_set_to t p b k (f : CacheSet -> res CacheSet) :
  tags_wf c t -> blks t !! p = Some b -> (k < assoc c)%nat ->
  (forall cs pre post, set_wf cs -> set_blks cs = pre ++ p :: post -> set_assoc cs = assoc c ->
     f cs = Ret (with_blks cs (take k (pre ++ post) ++ p :: drop k (pre ++ post)))) ->
  exists t', upd_set t (Z.to_nat (blk_set b)) f = Ret t' /\ reorder t t' /\ tags_wf c t' /\
    blks t' = blks t /\ stands t' b p k.
Proof using Hc.
  intros Ht Hb Hk Hf.
  assert (Hsim : forall cs, set_wf cs -> p ∈ set_blks cs -> set_assoc cs = assoc c ->
    exists cs', f cs = Ret cs' /\ set_sim cs cs').
  { intros cs Hw (pre & post & E)%list_elem_of_split Ha. rewrite (Hf cs pre post Hw E Ha).
    eexists. split; [done|]. split; [done|]. cbn.
    rewrite E, <- !Permutation_middle, take_drop. done. }
  destruct (upd_set_move c Hc t p b _ f Ht Hb eq_refl Hsim)
    as (t' & cs & cs' & E & Hr & Hw & Hcs & Ef & ->).
  eexists. split; [exact E|]. split_and!; try done.
  destruct (set_of_blk c Hc t p b Ht Hb) as (cs0 & Hcs0 & Hw0 & Hin & Ha). simplify_eq.
  apply list_elem_of_split in Hin as (pre & post & Ep). rewrite (Hf cs pre post Hw0 Ep Ha) in Ef.
  injection Ef as <-. eexists. split.
  { cbn. apply list_lookup_insert_eq. by eapply lookup_lt_Some. }
  destruct Hw0 as [Hlen Hnd]. rewrite Ep in Hlen, Hnd. rewrite length_app in Hlen. cbn in Hlen.
  rewrite (getLRUState_spec _ p (take k (pre ++ post)) (drop k (pre ++ post))).
  - f_equal. rewrite length_take, length_app. lia.
  - split; cbn.
    + rewrite length_app. cbn. rewrite length_take, length_drop, length_app. lia.
    + rewrite <- Permutation_middle, take_drop, Permutation_middle. done.
  - done.
Qed.

Lemma assoc_small : Z.of_nat (assoc c) < 2 ^ 31.
Proof using Hc. destruct (cw_assoc _ Hc). lia. Qed.

Lemma move_to_pos_ok s p b i :
  flip_inv c s -> blks (flip_tags s) !! p = Some b -> 0 <= i < blk_max_count s ->
  exists s' v, move_to_pos s (blk_set b) p i = Ret s' /\ flip_inv c s' /\
    reorder (flip_tags s) (flip_tags s') /\ blks (flip_tags s') = blks (flip_tags s) /\
    flip_pos s !! Z.to_nat i = Some v /\ stands (flip_tags s') b p (Z.to_nat (CC_value v)) /\
    flip_frc s' = flip_frc s /\ blk_max_count s' = blk_max_count s /\ flip_pos s' = flip_pos s.
Proof using Hc.
  intros Hi Hb Hr. unfold move_to_pos. pose proof (fi_pos _ _ Hi) as Hlen.
  destruct (lookup_lt_is_Some_2 (flip_pos s) (Z.to_nat i)) as [v Hv]; [lia|].
  rewrite (vread_some _ _ _ Hv). bsimpl. pose proof (pos_range s _ v Hi Hv) as Hpr.
  destruct (upd_set_to (flip_tags s) p b (Z.to_nat (CC_value v))
    (fun cs => moveTo cs p (Z.to_nat (CC_value v))) (fi_tags _ _ Hi) Hb)
    as (t' & -> & Hre & Hw & Hbl & Hst); [lia| |].
  { intros cs pre post Hw Ep Ha. pose proof assoc_small. apply moveTo_spec; try done; rewrite Ha; lia. }
  bsimpl. destruct (sample_block_ok (flip_with_tags s t') i (CC_value v)) as
    (s' & E & Hi' & Et & Ep & Ef & Em).
  - apply flip_inv_tags; [done|done|]. rewrite Hbl. apply (fi_refs _ _ Hi).
  - cbn. lia.
  - exists s', v. rewrite Et, Ep, Ef, Em. by split_and!.
Qed.

(** After the access of the base store. *)
Lemma flip_base s addr sec rd now s0 r lat :
  flip_inv c s -> 0 <= addr ->
  BaseSetAssoc_accessBlock c (flip_tags s) addr sec rd now = Ret (s0, r, lat) ->
  flip_inv c (flip_with_tags s s0) /\
  forall p, r = Some p -> exists b, blks s0 !! p = Some b /\ isValid b = true.
Proof using Hc.
  intros Hi Ha E. pose proof (fi_tags _ _ Hi) as Ht.
  destruct (base_access_spec c Hc (flip_tags s) addr sec rd now Ht Ha)
    as (s' & r' & lat' & E' & Ef & Hset & _ & Ho & Hb). rewrite E in E'. injection E' as <- <- <-.
  destruct (base_findBlock_spec c Hc (flip_tags s) addr sec Ht Ha) as (r' & Ef' & Hspec).
  rewrite Ef in Ef'. injection Ef' as <-. destruct r as [p|].
  - destruct Hspec as (Hp & _ & Hm). destruct (lookup_lt_is_Some_2 _ _ Hp) as [b Hlb].
    rewrite (alter_as_insert _ _ _ b Hlb) in Hb. split.
    + apply flip_inv_tags; [done|by eapply base_hit|]. rewrite Hb.
      intros q bq [(-> & <- & _)|[_ Hq]]%list_lookup_insert_Some; [|by apply (fi_refs _ _ Hi q)].
      by apply (fi_refs _ _ Hi q b).
    + intros q [= <-]. eexists. rewrite Hb, list_lookup_insert_eq by done. split; [done|].
      unfold blk_match in Hm. rewrite Hlb in Hm. rewrite !andb_true_iff in Hm. cbn. tauto.
  - split; [|done]. apply flip_inv_tags; [done|by eapply base_miss|]. rewrite Hb. apply (fi_refs _ _ Hi).
Qed.

(** The counters of a hit at position [k]. *)
Lemma flip_sampled s n k :
  flip_inv c s -> 0 <= n -> (k < assoc c)%nat ->
  exists sdp arr, SD_sample (flip_sdp s) k = Ret sdp /\ SDA_sample (flip_sdparr s) n k = Ret arr /\
    flip_inv c (flip_with_sdp s sdp arr).
Proof.
  intros Hi Hn Hk. destruct (fi_sdp _ _ Hi) as [Hs Ha].
  destruct (SDA_sample_spec (assoc c) (flip_sdparr s) n k (fi_arr _ _ Hi) Hn Hk)
    as (arr & Earr & Harr & _). rewrite SD_sample_spec by (done || lia). do 2 eexists.
  split; [done|]. split; [done|]. destruct Hi. split; try done. cbn. split; [|done].
  unfold sd_wf in *. cbn. by rewrite length_alter.
Qed.

(** A block of the store stands somewhere. *)
Lemma stands_total t p b :
  tags_wf c t -> blks t !! p = Some b ->
  exists cs k, sets t !! Z.to_nat (blk_set b) = Some cs /\ getLRUState cs p = Ret k /\
    (k < assoc c)%nat.
Proof using Hc.
  intros Ht Hb. destruct (set_of_blk c Hc t p b Ht Hb) as (cs & Hcs & Hw & Hin & Ha).
  apply list_elem_of_split in Hin as (pre & post & Ep). exists cs, (length pre).
  split_and!; [done|by apply (getLRUState_spec cs p pre post)|].
  destruct Hw as [Hlen _]. rewrite Ep, length_app in Hlen. cbn in Hlen. lia.
Qed.

(** Counting the reuse and promoting the block. *)
Lemma promote_ok s p b n :
  flip_inv c s -> blks (flip_tags s) !! p = Some b -> isValid b = true ->
  n = (if tag_refcount b <? blk_max_count s then tag_refcount b + 1 else tag_refcount b) ->
  exists t s' k, upd_blk (flip_tags s) p (fun b => with_tag_refcount b n) = Ret t /\
    (if n <? blk_max_count s then move_to_pos (flip_with_tags s t) (blk_set b) p n
     else if n =? blk_max_count s then
       t ← upd_set t (Z.to_nat (blk_set b)) (fun cs => moveToHead cs p);
       sample_block (flip_with_tags (flip_with_tags s t) t) n 0
     else Err Fatal) = Ret s' /\
    flip_inv c s' /\ reorder (flip_tags s) (flip_tags s') /\
    blks (flip_tags s') = <[p:=with_tag_refcount b n]> (blks (flip_tags s)) /\
    stands (flip_tags s') b p k /\ flip_frc s' = flip_frc s /\ flip_pos s' = flip_pos s /\
    Z.of_nat k = match flip_pos s !! Z.to_nat n with Some v => CC_value v | None => 0 end.
Proof using Hc.
  intros Hi Hb Hv Hn. set (b' := with_tag_refcount b n).
  destruct (fi_refs _ _ Hi p b Hb ltac:(by rewrite Hv, orb_true_r)) as [Hr1 Hr2].
  pose proof (fi_max _ _ Hi) as Hm.
  assert (Hnr : 0 < n <= blk_max_count s) by (destruct (Z.ltb_spec (tag_refcount b) (blk_max_count s)); lia).
  rewrite (upd_blk_spec _ p _ b Hb). fold b'.
  set (t := with_blocks (flip_tags s) (<[p:=b']> (blks (flip_tags s)))).
  assert (Ht : tags_wf c t) by (by apply (tags_wf_insert c (flip_tags s) t p b b'); [apply (fi_tags _ _ Hi)|..]).
  assert (Hre : reorder (flip_tags s) t).
  { split; cbn; try done. rewrite <- (list_insert_id (blks (flip_tags s)) p b Hb) at 1.
    by apply Forall2_insert. }
  assert (Hlt : (p < length (blks (flip_tags s)))%nat) by (by eapply lookup_lt_Some).
  assert (Hb' : blks t !! p = Some b') by (by apply list_lookup_insert_eq).
  assert (Hi1 : flip_inv c (flip_with_tags s t)).
  { apply flip_inv_tags; [done|done|].
    intros q bq [(-> & <- & _)|[_ Hq]]%list_lookup_insert_Some; [cbn; lia|by apply (fi_refs _ _ Hi q)]. }
  exists t. destruct (Z.ltb_spec n (blk_max_count s)) as [Hlt'|Hge].
  - destruct (move_to_pos_ok (flip_with_tags s t) p b' n Hi1 Hb') as
      (s' & v & E & Hi' & Hre' & Hbl & Hv' & Hst & Hf & _ & Hp); [cbn; lia|].
    cbn in Hv'. exists s', (Z.to_nat (CC_value v)). rewrite Hv'. split_and!; try done.
    + by etrans.
    + pose proof (pos_range s _ v Hi Hv'). lia.
  - assert (n = blk_max_count s) as -> by lia. rewrite Z.eqb_refl.
    destruct (upd_set_to t p b' 0 (fun cs => moveToHead cs p) Ht Hb')
      as (t' & E & Hre' & Hw & Hbl & Hst); [destruct (cw_assoc _ Hc); lia| |].
    { intros cs pre post Hw Ep _. by rewrite (moveToHead_spec _ _ _ _ Hw Ep). }
    change (blk_set b') with (blk_set b) in E. rewrite E. bsimpl.
    destruct (sample_block_ok (flip_with_tags s t') (blk_max_count s) 0) as
      (s' & Es & Hi' & Et & Ep & Ef & Em).
    + apply flip_inv_tags; [done|done|]. rewrite Hbl. apply (fi_refs _ _ Hi1).
    + cbn. lia.
    + exists s', 0%nat. change (flip_with_tags (flip_with_tags s t') t') with (flip_with_tags s t').
      rewrite Es, Et, Ep, Ef. split_and!; try done; [by etrans|].
      rewrite lookup_ge_None_2; [done|]. rewrite (fi_pos _ _ Hi). done.
Qed.

(** Counting a reuse at the LRU position. *)
Lemma frc_ok s n k :
  flip_inv c s -> 0 <= n <= blk_max_count s ->
  (if (k =? assoc c - 1)%nat then
     x ← vread (flip_frc s) (Z.to_nat n);
     l ← vwrite (flip_frc s) (Z.to_nat n) (u64 (x + 1));
     Ret (flip_with_pos s (flip_pos s) l)
   else Ret s) =
  (if (k =? assoc c - 1)%nat && (n =? blk_max_count s) then Err OutOfBounds
   else Ret (flip_with_pos s (flip_pos s)
     (if (k =? assoc c - 1)%nat then alter (fun x => u64 (x + 1)) (Z.to_nat n) (flip_frc s)
      else flip_frc s))) /\
  forall l, length l = length (flip_frc s) -> flip_inv c (flip_with_pos s (flip_pos s) l).
Proof.
  intros Hi Hn. pose proof (fi_frc _ _ Hi) as Hf. split.
  - destruct (k =? assoc c - 1)%nat; cbn [andb]; [|by destruct s].
    destruct (Z.eqb_spec n (blk_max_count s)) as [->|Hne].
    + unfold vread. rewrite lookup_ge_None_2 by lia. done.
    + destruct (lookup_lt_is_Some_2 (flip_frc s) (Z.to_nat n)) as [x Hx]; [lia|].
      rewrite (vread_some _ _ _ Hx). bsimpl. rewrite vwrite_lt by lia. bsimpl.
      by rewrite (alter_as_insert _ _ _ x Hx).
  - intros l Hl. destruct Hi. split; try done. cbn. by rewrite Hl.
Qed.
End flip.

(** ** Properties *)

(** A FLIP access, exactly.  A miss changes nothing but the statistics.  On a
    hit, let [k] be the block's position in its set and [n] its reuse count.  If
    the block stands at the LRU position and its count is already at
    [blk_max_count], the first-reuse counter is indexed past its end.  Otherwise
    the access succeeds: a hit at the LRU position is counted for [n], the count
    becomes [min (n + 1) blk_max_count], the block moves to the position the
    pointer of the new count gives (the head for the last count), nothing else
    changes up to the order of ways, and the invariant holds again. *)
Theorem FLIP_access_exact c s addr sec rd now s0 r lat :
  config_wf c -> flip_inv c s -> 0 <= addr ->
  BaseSetAssoc_accessBlock c (flip_tags s) addr sec rd now = Ret (s0, r, lat) ->
  match r with
  | None => FLIP_accessBlock c s addr sec rd now = Ret (flip_with_tags s s0, None, lat)
  | Some p => exists b k,
      blks s0 !! p = Some b /\ stands s0 b p k /\
      if (k =? assoc c - 1)%nat && (tag_refcount b =? blk_max_count s)
      then FLIP_accessBlock c s addr sec rd now = Err OutOfBounds
      else exists s' n k',
        FLIP_accessBlock c s addr sec rd now = Ret (s', Some p, lat) /\
        flip_inv c s' /\ reorder s0 (flip_tags s') /\
        n = Z.min (tag_refcount b + 1) (blk_max_count s) /\
        blks (flip_tags s') = <[p:=with_tag_refcount b n]> (blks s0) /\
        stands (flip_tags s') b p k' /\
        Z.of_nat k' = match flip_pos s !! Z.to_nat n with Some v => CC_value v | None => 0 end /\
        flip_frc s' = (if (k =? assoc c - 1)%nat
          then alter (fun x => u64 (x + 1)) (Z.to_nat (tag_refcount b)) (flip_frc s)
          else flip_frc s)
  end.
Proof.
  intros Hc Hi Ha E. destruct (flip_base c Hc s addr sec rd now s0 r lat Hi Ha E) as [Hi0 Hhit].
  unfold FLIP_accessBlock. rewrite E. bsimpl. destruct r as [p|]; [|done].
  destruct (Hhit p eq_refl) as (b & Hb & Hv). pose proof (fi_tags _ _ Hi0) as Ht0. cbn in Ht0.
  destruct (stands_total c Hc s0 p b Ht0 Hb) as (cs & k & Hcs & Hk & Hlt).
  destruct (fi_refs _ _ Hi0 p b Hb ltac:(by rewrite Hv, orb_true_r)) as [Hr1 Hr2]. cbn in Hr2.
  exists b, k. split; [done|]. split; [by exists cs|].
  rewrite (vread_some _ _ _ Hb). bsimpl. rewrite (vread_some _ _ _ Hcs). bsimpl. rewrite Hk. bsimpl.
  destruct (flip_sampled c (flip_with_tags s s0) (tag_refcount b) k Hi0 Hr1 Hlt)
    as (sdp & arr & E1 & E2 & Hi1). rewrite E1. bsimpl. rewrite E2. bsimpl.
  destruct (frc_ok c _ (tag_refcount b) k Hi1 ltac:(cbn; lia)) as [Ef Hif]. rewrite Ef. clear Ef.
  cbn [blk_max_count flip_with_sdp flip_with_tags] in *.
  destruct ((k =? assoc c - 1)%nat && (tag_refcount b =? blk_max_count s)); [done|]. bsimpl.
  set (frc' := if (k =? assoc c - 1)%nat then _ else _).
  set (s2 := flip_with_pos _ _ frc').
  assert (Hi2 : flip_inv c s2).
  { apply Hif. unfold frc'. destruct (k =? assoc c - 1)%nat; [by rewrite length_alter|done]. }
  destruct (promote_ok c Hc s2 p b _ Hi2 Hb Hv eq_refl)
    as (t & s' & k' & E3 & E4 & Hi' & Hre & Hbl & Hst & Hfr & _ & Hk').
  change (blk_max_count s2) with (blk_max_count s) in *.
  set (n := if tag_refcount b <? blk_max_count s then _ else _) in *.
  assert (Hn : n = Z.min (tag_refcount b + 1) (blk_max_count s)).
  { unfold n. destruct (Z.ltb_spec (tag_refcount b) (blk_max_count s)); lia. }
  rewrite E3. bsimpl. exists s', n, k'. split_and!; try done.
  change (blk_max_count (flip_with_tags s2 t)) with (blk_max_count s).
  destruct (n <? blk_max_count s); [by rewrite E4|]. destruct (n =? blk_max_count s); [|done].
  change (flip_tags (flip_with_tags s2 t)) with t.
  destruct (upd_set t _ _) as [t'|]; [|done]. cbn [mbind res_bind] in E4 |- *.
  change (flip_with_tags (flip_with_tags s2 t') t') with (flip_with_tags (flip_with_tags s2 t) t') in E4.
  by rewrite E4.
Qed.

(** A FLIP insertion, exactly.  Whenever the base insertion succeeds FLIP's
    does, with its effect up to the order of ways and the reuse count, which is
    reset to zero; the new block stands where the first position pointer says,
    and the invariant holds again. *)
Theorem FLIP_insert_exact c s pkt p now s0 :
  config_wf c -> flip_inv c s -> (p < length (blks (flip_tags s)))%nat ->
  Z.of_nat (p / assoc c) = extractSet c (pkt_addr pkt) ->
  BaseSetAssoc_insertBlock c (flip_tags s) pkt p now = Ret s0 -> tags_wf c s0 ->
  blks s0 = alter (inserted c pkt now) p (blks (flip_tags s)) ->
  exists s' b k v, FLIP_insertBlock c s pkt p now = Ret s' /\ flip_inv c s' /\
    reorder s0 (flip_tags s') /\ blks (flip_tags s') !! p = Some b /\ tag_refcount b = 0 /\
    stands (flip_tags s') b p k /\ flip_pos s !! 0%nat = Some v /\ Z.of_nat k = CC_value v.
Proof.
  intros Hc Hi Hp Hset E Hs0 Hbl. destruct (lookup_lt_is_Some_2 _ _ Hp) as [b0 Hb0].
  pose proof Hbl as Hbl'. rewrite (alter_as_insert _ _ _ b0 Hb0) in Hbl'.
  set (b1 := inserted c pkt now b0) in *. set (b := with_tag_refcount b1 0).
  assert (Hb1 : blks s0 !! p = Some b1) by (rewrite Hbl'; by apply list_lookup_insert_eq).
  unfold FLIP_insertBlock. rewrite E. bsimpl. rewrite (upd_blk_spec _ p _ b1 Hb1). bsimpl.
  set (t := with_blocks s0 (<[p:=with_tag_refcount b1 0]> (blks s0))).
  assert (Ht : tags_wf c t) by (by apply (tags_wf_insert c s0 t p b1 b)).
  assert (Hb : blks t !! p = Some b) by (apply list_lookup_insert_eq; by eapply lookup_lt_Some).
  assert (Hre : reorder s0 t).
  { split; cbn; try done. rewrite <- (list_insert_id (blks s0) p b1 Hb1) at 1.
    by apply Forall2_insert. }
  assert (Hi1 : flip_inv c (flip_with_tags s t)).
  { pose proof (fi_max _ _ Hi). apply flip_inv_tags; [done|done|]. unfold t. rewrite Hbl'. cbn.
    rewrite list_insert_insert_eq.
    intros q bq [(-> & <- & _)|[_ Hq]]%list_lookup_insert_Some; [cbn; lia|by apply (fi_refs _ _ Hi q)]. }
  rewrite (blk_set_of_addr c s0 p b1) by done. change (blk_set b1) with (blk_set b).
  destruct (move_to_pos_ok c Hc (flip_with_tags s t) p b 0 Hi1 Hb) as
    (s' & v & E2 & Hi' & Hre' & Hb' & Hv & Hst & _); [pose proof (fi_max _ _ Hi); cbn; lia|].
  exists s', b, (Z.to_nat (CC_value v)), v. split; [exact E2|]. split; [done|].
  split; [by etrans|]. rewrite Hb'. split_and!; try done.
  pose proof (pos_range c _ _ v Hi1 Hv). lia.
Qed.

Lemma FLIP_invalidate_ok c s p now s0 :
  config_wf c -> flip_inv c s -> (p < length (blks (flip_tags s)))%nat ->
  BaseSetAssoc_invalidate c (flip_tags s) p now = Ret s0 -> tags_wf c s0 ->
  blks s0 = alter (dropped now) p (blks (flip_tags s)) ->
  exists s', FLIP_invalidate c s p now = Ret s' /\ reorder s0 (flip_tags s') /\ flip_inv c s'.
Proof.
  intros Hc Hi Hp E Hs0 Hbl. unfold FLIP_invalidate. rewrite E. bsimpl.
  destruct (lookup_lt_is_Some_2 (blks s0) p) as [b Hb]; [by rewrite Hbl, length_alter|].
  rewrite (vread_some _ _ _ Hb). bsimpl.
  destruct (upd_set_move c Hc s0 p b _ (fun cs => moveToTail cs p) Hs0 Hb eq_refl)
    as (t & cs & cs' & -> & Hr & Hw & _ & _ & ->); [auto using moveToTail_sim|]. bsimpl.
  eexists. split_and!; [done|done|]. apply flip_inv_tags; [done|done|]. cbn. rewrite Hbl.
  destruct (lookup_lt_is_Some_2 _ _ Hp) as [b0 Hb0]. rewrite (alter_as_insert _ _ _ b0 Hb0).
  intros q bq [(-> & <- & _)|[_ Hq]]%list_lookup_insert_Some; [|by apply (fi_refs _ _ Hi q)].
  by apply (fi_refs _ _ Hi q b0 Hb0).
Qed.

(** *** The update of the position pointers *)

Lemma sample_loop_ok pos dt fuel : forall d i,
  (i + fuel <= length pos)%nat -> (i + fuel <= length d)%nat ->
  exists d', sample_loop pos d dt fuel i = Ret d' /\ length d' = length d.
Proof.
  induction fuel as [|fuel IH]; intros d i Hp Hd; [by exists d|]. cbn [sample_loop].
  destruct (lookup_lt_is_Some_2 pos i) as [p Hpi]; [lia|].
  destruct (lookup_lt_is_Some_2 d i) as [l Hl]; [lia|].
  rewrite (vread_some _ _ _ Hpi), (vread_some _ _ _ Hl). bsimpl. rewrite vwrite_lt by lia. bsimpl.
  destruct (IH (<[i:=(CC_value p, dt) :: l]> d) (S i)) as (d' & -> & E); [lia|rewrite length_insert; lia|].
  exists d'. by rewrite E, length_insert.
Qed.

Definition moved (th : Z) (p : ConservativeCounter) (f : Z) : ConservativeCounter :=
  if th <=? f then CC_decrement p 1 else CC_increment p 1.

Lemma update_loop_ok th fuel : forall pos frc i,
  (i + fuel <= length pos)%nat -> (i + fuel <= length frc)%nat ->
  exists pos' frc', update_loop th pos frc fuel i = Ret (pos', frc') /\
    length pos' = length pos /\ length frc' = length frc /\
    forall j p f, pos !! j = Some p -> frc !! j = Some f ->
      if decide (i <= j < i + fuel)%nat then pos' !! j = Some (moved th p f) /\ frc' !! j = Some 0
      else pos' !! j = Some p /\ frc' !! j = Some f.
Proof.
  induction fuel as [|fuel IH]; intros pos frc i Hp Hf.
  - exists pos, frc. split_and!; try done. intros j p f ??. by rewrite decide_False by lia.
  - cbn [update_loop]. destruct (lookup_lt_is_Some_2 pos i) as [p Hpi]; [lia|].
    destruct (lookup_lt_is_Some_2 frc i) as [f Hfi]; [lia|].
    rewrite (vread_some _ _ _ Hfi), (vread_some _ _ _ Hpi). bsimpl. rewrite vwrite_lt by lia. bsimpl.
    rewrite vwrite_lt by lia. bsimpl. fold (moved th p f).
    destruct (IH (<[i:=moved th p f]> pos) (<[i:=0]> frc) (S i)) as (pos' & frc' & -> & E1 & E2 & H);
      [rewrite length_insert; lia..|].
    exists pos', frc'. rewrite E1, E2, !length_insert. split_and!; try done.
    intros j p' f' Hpj Hfj. destruct (decide (j = i)) as [->|Hne].
    + simplify_eq. rewrite decide_True by lia.
      specialize (H i (moved th p f) 0). rewrite decide_False in H by lia.
      apply H; apply list_lookup_insert_eq; lia.
    + specialize (H j p' f'). rewrite !list_lookup_insert_ne in H by done. specialize (H Hpj Hfj).
      by repeat case_decide; try lia.
Qed.

Lemma moved_ok c th p f :
  (2 <= assoc c)%nat -> pos_ok c p -> pos_ok c (moved th p f).
Proof.
  intros Ha [Hw Hm]. unfold moved. destruct (th <=? f).
  - split; [by apply CC_decrement_wf|]. rewrite CC_decrement_spec by done. done.
  - split; [apply CC_increment_wf; [done|lia]|]. rewrite (proj1 (CC_increment_max p 1)). done.
Qed.

(** The periodic update of FLIP's position pointers.  It always completes,
    keeps the invariant, and clears the first-reuse counters.  A pointer whose
    counter reached the threshold moves one position towards the head; any other
    moves at most one position towards the LRU end, and only once its state
    machine has seen enough quiet periods; no pointer leaves the set. *)
Theorem FLIP_update_adapts c s now :
  flip_inv c s -> (2 <= assoc c)%nat ->
  exists s', updatePriorityPointer s now = Ret s' /\ flip_inv c s' /\
    flip_tags s' = flip_tags s /\ length (flip_frc s') = Z.to_nat (blk_max_count s) /\
    forall i p f, flip_pos s !! i = Some p -> flip_frc s !! i = Some f ->
      flip_frc s' !! i = Some 0 /\
      exists p', flip_pos s' !! i = Some p' /\ 0 <= CC_value p' < Z.of_nat (assoc c) /\
        CC_value p' =
          if detect_th s <=? f then Z.max (CC_value p - 1) 0
          else if sc_max (cc_sm p) <=? sc_counter (cc_sm p) + 1
               then Z.min (CC_value p + 1) (Z.of_nat (assoc c) - 1) else CC_value p.
Proof.
  intros Hi Ha. unfold updatePriorityPointer, samplePriorityPointer.
  pose proof (fi_pos _ _ Hi) as Hp. pose proof (fi_frc _ _ Hi) as Hf. pose proof (fi_dur _ _ Hi) as Hd.
  destruct (sample_loop_ok (flip_pos s) (u64 (now - default now (prev_sampled s))) (Z.to_nat (blk_max_count s))
    (posDistDuration s) 0) as (d' & -> & Ed); [lia..|]. bsimpl. cbn [detect_th flip_pos flip_frc
    blk_max_count flip_with_dur].
  destruct (update_loop_ok (detect_th s) (Z.to_nat (blk_max_count s)) (flip_pos s) (flip_frc s) 0)
    as (pos' & frc' & -> & E1 & E2 & H); [lia..|]. bsimpl. eexists. split; [done|].
  assert (Hpos : forall i p f, flip_pos s !! i = Some p -> flip_frc s !! i = Some f ->
    pos' !! i = Some (moved (detect_th s) p f) /\ frc' !! i = Some 0).
  { intros i p f Hpi Hfi. specialize (H i p f Hpi Hfi). rewrite decide_True in H; [done|].
    apply lookup_lt_Some in Hpi. lia. }
  assert (Hok : Forall (pos_ok c) pos').
  { apply Forall_lookup_2. intros i p' Hi'. assert (Hlt : (i < length pos')%nat) by (by eapply lookup_lt_Some).
    destruct (lookup_lt_is_Some_2 (flip_pos s) i) as [p Hpi]; [lia|].
    destruct (lookup_lt_is_Some_2 (flip_frc s) i) as [f Hfi]; [lia|].
    destruct (Hpos i p f Hpi Hfi) as [E _]. rewrite E in Hi'. injection Hi' as <-.
    apply moved_ok; [done|]. exact (Forall_lookup_1 _ _ _ _ (fi_posok _ _ Hi) Hpi). }
  split; [|split; [done|split; [cbn; lia|]]].
  - destruct Hi. split; try done; cbn; lia.
  - intros i p f Hpi Hfi. destruct (Hpos i p f Hpi Hfi) as [E Ez]. split; [done|].
    exists (moved (detect_th s) p f). split; [done|].
    destruct (Forall_lookup_1 _ _ _ _ (fi_posok _ _ Hi) Hpi) as [Hw Hm].
    pose proof (ccw_base _ Hw) as [Hc1 Hc2]. unfold moved, CC_value in *.
    destruct (detect_th s <=? f).
    + rewrite CC_decrement_spec by done. cbn. unfold CC_value. lia.
    + rewrite CC_increment_spec by (done || lia). unfold CC_value.
      destruct (sc_max (cc_sm p) <=? sc_counter (cc_sm p) + 1); cbn; lia.
Qed.

(** ** Witnesses: a 2-way store with two position pointers *)

(** A sufficient test for a store. *)
Definition tags_check (c : TagsConfig) (t : TagsState) : bool :=
  bool_decide (length (sets t) = numSets c) &&
  bool_decide (length (blks t) = (numSets c * assoc c)%nat) &&
  bool_decide (length (occupancies t) = maxMasters c) &&
  forallb (fun '(i, cs) => bool_decide (set_assoc cs = assoc c) &&
             bool_decide (set_blks cs ≡ₚ seq (i * assoc c) (assoc c)))
    (imap (fun i cs => (i, cs)) (sets t)) &&
  forallb (fun '(p, b) => bool_decide (blk_set b = Z.of_nat (p / assoc c)))
    (imap (fun p b => (p, b)) (blks t)).

Lemma imap_forallb {A} (f : nat * A -> bool) (l : list A) i x :
  forallb f (imap (fun i x => (i, x)) l) = true -> l !! i = Some x -> f (i, x) = true.
Proof.
  rewrite forallb_forall. intros H Hi. apply H. apply list_elem_of_In, list_elem_of_lookup.
  exists i. by rewrite list_lookup_imap, Hi.
Qed.

Lemma tags_check_wf c t : tags_check c t = true -> tags_wf c t.
Proof.
  unfold tags_check. rewrite !andb_true_iff, !bool_decide_eq_true. intros ((((H1 & H2) & H3) & H4) & H5).
  split; try done.
  - intros i cs Hi. apply (imap_forallb _ _ i cs H4) in Hi. cbn in Hi.
    by rewrite andb_true_iff, !bool_decide_eq_true in Hi.
  - intros p b Hb. apply (imap_forallb _ _ p b H5) in Hb. by rewrite bool_decide_eq_true in Hb.
Qed.

Definition demo_flip : FLIPState := FLIP_new small_config small_state 2 10 1 0 0.

(** Block 0 filled for address 0x1000 and made valid, with reuse count [n]. *)
Definition demo_flip_hit (n : Z) : FLIPState :=
  match FLIP_insertBlock small_config demo_flip (demo_pkt 0x1000) 0 100 with
  | Ret s => flip_with_tags s (with_blocks (flip_tags s)
      (alter (fun b => with_tag_refcount (with_status b 3) n) 0%nat (blks (flip_tags s))))
  | Err _ => demo_flip
  end.

Definition refs_check (s : FLIPState) : bool :=
  forallb (fun b => negb (isTouched b || isValid b) ||
    ((0 <=? tag_refcount b) && (tag_refcount b <=? blk_max_count s))) (blks (flip_tags s)).

Lemma refs_check_ok s p b :
  refs_check s = true -> blks (flip_tags s) !! p = Some b -> isTouched b || isValid b = true ->
  0 <= tag_refcount b <= blk_max_count s.
Proof.
  unfold refs_check. rewrite forallb_forall. intros H Hb Ht.
  specialize (H b). rewrite Ht in H. cbn in H. rewrite andb_true_iff, !Z.leb_le in H. apply H.
  apply list_elem_of_In. by eapply list_elem_of_lookup_2.
Qed.

Lemma demo_pos_ok : pos_ok small_config (CC_new 0 0 1 7 1 0).
Proof. split; [|done]. split; cbn; unfold sc_wf; cbn; lia. Qed.

Lemma demo_flip_inv s :
  tags_check small_config (flip_tags s) = true -> refs_check s = true ->
  blk_max_count s = 2 -> flip_pos s = replicate 2 (CC_new 0 0 1 7 1 0) ->
  flip_frc s = [0; 0] -> flip_sdp s = SD_new 2 -> flip_sdparr s = SDA_new 2 3 ->
  length (posDistBlock s) = 3%nat -> length (posDistDuration s) = 3%nat ->
  flip_inv small_config s.
Proof.
  intros Ht Hr E1 E2 E3 E4 E5 E6 E7. split; rewrite ?E1, ?E2, ?E3, ?E4, ?E5, ?E6, ?E7; try done.
  - by apply tags_check_wf.
  - repeat constructor; exact demo_pos_ok || (destruct demo_pos_ok as [[] ?]; done).
  - split; cbn; [lia|done|]. by repeat constructor.
  - intros p b Hb Hv. rewrite <- E1. by apply (refs_check_ok s p b).
Qed.

(** A block with reuse count 1 is promoted to the head; with a full count at the
    LRU position it is out of bounds. *)
Lemma FLIP_access_exact_witness :
  (exists s', FLIP_accessBlock small_config (demo_flip_hit 1) 0x1000 false true 200 =
     Ret (s', Some 0%nat, 2)) /\
  FLIP_accessBlock small_config (demo_flip_hit 2) 0x1000 false true 200 = Err OutOfBounds.
Proof.
  destruct small_wf as (Hc & _ & _). split.
  - destruct (BaseSetAssoc_accessBlock small_config (flip_tags (demo_flip_hit 1)) 0x1000 false true 200)
      as [[[s0 r] lat]|] eqn:E; [|vm_compute in E; discriminate].
    pose proof (FLIP_access_exact small_config (demo_flip_hit 1) 0x1000 false true 200 s0 r lat Hc) as H.
    assert (Hi : flip_inv small_config (demo_flip_hit 1)) by (apply demo_flip_inv; vm_compute; reflexivity).
    specialize (H Hi ltac:(lia) E). clear Hi. vm_compute in E. injection E as <- <- <-.
    destruct H as (b & k & Hb & _ & H). vm_compute in Hb. injection Hb as <-.
    destruct (_ && _)%bool eqn:Eb; [exfalso; rewrite andb_true_iff in Eb; destruct Eb as [_ Eb]; vm_compute in Eb; discriminate|].
    destruct H as (s' & n & k' & H & _). exists s'. exact H.
  - vm_compute. reflexivity.
Defined.

Lemma FLIP_insert_exact_witness :
  exists s', FLIP_insertBlock small_config demo_flip (demo_pkt 0x1000) 0 100 = Ret s' /\
    flip_inv small_config s'.
Proof.
  destruct small_wf as (Hc & _ & _).
  destruct (BaseSetAssoc_insertBlock small_config (flip_tags demo_flip) (demo_pkt 0x1000) 0 100)
    as [s0|] eqn:E; [|vm_compute in E; discriminate].
  assert (Hi : flip_inv small_config demo_flip) by (apply demo_flip_inv; vm_compute; reflexivity).
  pose proof (FLIP_insert_exact small_config demo_flip (demo_pkt 0x1000) 0 100 s0 Hc Hi) as H.
  destruct H as (s' & b & k & v & H1 & H2 & _).
  - vm_compute. lia.
  - reflexivity.
  - exact E.
  - vm_compute in E. injection E as <-. apply tags_check_wf. vm_compute. reflexivity.
  - vm_compute in E. injection E as <-. vm_compute. reflexivity.
  - exists s'. split; [exact H1|exact H2].
Defined.

Lemma FLIP_update_adapts_witness :
  exists s', updatePriorityPointer demo_flip 1000 = Ret s' /\ flip_inv small_config s'.
Proof.
  assert (Hi : flip_inv small_config demo_flip) by (apply demo_flip_inv; vm_compute; reflexivity).
  destruct (FLIP_update_adapts small_config demo_flip 1000 Hi) as (s' & E & Hi' & _); [cbn; lia|].
  exists s'. split; [exact E|exact Hi'].
Defined.
