(* ===== verification/Cache.v ===== *)
(** * The data path of the cache: [mem/cache/cache_impl.hh]

    Access from the CPU side, fills, victims and their writeback, atomic
    swaps, and the visitors that write back or invalidate the whole cache.  The
    model is generic in the tag policy: it uses the interface [TagPolicy] and
    nothing else.  The data of a block is kept per block pointer ([blk->data] is
    set once by the constructor of the tag store); [tempBlock] has its own.
    The miss-status queue answers [findMatch] as an argument. *)

From S2P Require Import Prelude IntMath Packet CacheBlk TagStore.
Local Open Scope Z_scope.

(** ** State *)

Record CacheState (S : Type) := mkCacheState {
  cs_tags : S;
  cs_data : list (list Z);
  tempBlock : CacheBlk;
  tempData : list Z;
  writebacks_stat : Z;     (* writebacks[Request::wbMasterId] *)
  hits : Z;                (* over all commands and masters *)
  misses : Z;
  missCount : Z;           (* misses left before the simulation is ended *)
  exitRequested : bool     (* exitSimLoop has been called *)
}.
Arguments mkCacheState {_} _ _ _ _ _ _ _ _ _.
Arguments cs_tags {_} _.
Arguments cs_data {_} _.
Arguments tempBlock {_} _.
Arguments tempData {_} _.
Arguments writebacks_stat {_} _.
Arguments hits {_} _.
Arguments misses {_} _.
Arguments missCount {_} _.
Arguments exitRequested {_} _.

(** A [CacheBlk*]: a block of the tag store or [tempBlock]. *)
Inductive blkref := InTags (p : nat) | Temp.

Section cache.
Context {S : Type} `{TagPolicy S} (c : TagsConfig).
Context (isTopLevel : bool) (lookupLatency fillLatency : Z).

Abbreviation cache := (CacheState S).

Definition cs_base (st : cache) : TagsState := tp_base (cs_tags st).

Definition st_with_tags (st : cache) (s : S) : cache :=
  mkCacheState s (cs_data st) (tempBlock st) (tempData st) (writebacks_stat st)
    (hits st) (misses st) (missCount st) (exitRequested st).
Definition st_with_data (st : cache) (d : list (list Z)) : cache :=
  mkCacheState (cs_tags st) d (tempBlock st) (tempData st) (writebacks_stat st)
    (hits st) (misses st) (missCount st) (exitRequested st).
Definition st_with_temp (st : cache) (b : CacheBlk) (d : list Z) : cache :=
  mkCacheState (cs_tags st) (cs_data st) b d (writebacks_stat st) (hits st) (misses st)
    (missCount st) (exitRequested st).
Definition st_with_wbs (st : cache) (n : Z) : cache :=
  mkCacheState (cs_tags st) (cs_data st) (tempBlock st) (tempData st) n (hits st) (misses st)
    (missCount st) (exitRequested st).
Definition st_with_hits (st : cache) (h m : Z) : cache :=
  mkCacheState (cs_tags st) (cs_data st) (tempBlock st) (tempData st) (writebacks_stat st) h m
    (missCount st) (exitRequested st).
Definition st_with_missCount (st : cache) (n : Z) (e : bool) : cache :=
  mkCacheState (cs_tags st) (cs_data st) (tempBlock st) (tempData st) (writebacks_stat st)
    (hits st) (misses st) n e.

(** Accesses through a block pointer. *)
Definition get_blk (st : cache) (r : blkref) : res CacheBlk :=
  match r with
  | InTags p => vread (blks (cs_base st)) p
  | Temp => Ret (tempBlock st)
  end.

Definition set_blk (st : cache) (r : blkref) (f : CacheBlk -> CacheBlk) : res cache :=
  match r with
  | InTags p =>
      t ← upd_blk (cs_base st) p f;
      Ret (st_with_tags st (tp_with_base (cs_tags st) t))
  | Temp => Ret (st_with_temp st (f (tempBlock st)) (tempData st))
  end.

Definition get_data (st : cache) (r : blkref) : res (list Z) :=
  match r with
  | InTags p => vread (cs_data st) p
  | Temp => Ret (tempData st)
  end.

Definition set_data (st : cache) (r : blkref) (d : list Z) : res cache :=
  match r with
  | InTags p => l ← vwrite (cs_data st) p d; Ret (st_with_data st l)
  | Temp => Ret (st_with_temp st (tempBlock st) d)
  end.

(** [tags->invalidate(blk); blk->invalidate();] *)
Definition drop_blk (st : cache) (p : nat) (now : Z) : res cache :=
  s ← tp_invalidate c (cs_tags st) p now;
  set_blk (st_with_tags st s) (InTags p) CacheBlk_invalidate.

(** The access depth of the request, a statistic, is not kept. *)
Definition incMissCount (st : cache) (pkt : Packet) : res cache :=
  _ ← cassert (req_masterId (pkt_req pkt) <? Z.of_nat (maxMasters c));
  let st := st_with_hits st (hits st) (misses st + 1) in
  if missCount st =? 0 then Ret st
  else
    let n := missCount st - 1 in
    Ret (st_with_missCount st n (exitRequested st || (n =? 0))).

Definition incHitCount (st : cache) (pkt : Packet) : res cache :=
  _ ← cassert (req_masterId (pkt_req pkt) <? Z.of_nat (maxMasters c));
  Ret (st_with_hits st (hits st + 1) (misses st)).

(** Status updates. *)
Definition set_bits (x : Z) (b : CacheBlk) : CacheBlk := with_status b (Z.lor (status b) x).
Definition clear_bits (x : Z) (b : CacheBlk) : CacheBlk :=
  with_status b (Z.land (status b) (wnot 32 x)).
Definition with_owner_task (now : Z) (b : CacheBlk) : CacheBlk :=
  with_owner b (srcMasterId b) TaskId_Unknown now.
Definition with_whenReady (b : CacheBlk) (x : Z) : CacheBlk :=
  mkCacheBlk (task_id b) (asid b) (tag b) (data b) (blk_size b) (status b) x
    (blk_set b) (isTouched b) (refCount b) (srcMasterId b) (tickInserted b)
    (tag_refcount b) (lockList b).
Definition with_place (b : CacheBlk) (tg set : Z) : CacheBlk :=
  mkCacheBlk (task_id b) (asid b) tg (data b) (blk_size b) (status b) (whenReady b)
    set (isTouched b) (refCount b) (srcMasterId b) (tickInserted b)
    (tag_refcount b) (lockList b).

(** ** Writebacks *)

(** The packet that carries a dirty block to the next level. *)
Definition writeback_packet (b : CacheBlk) (d : list Z) : Packet :=
  let addr := regenerateBlkAddr c (tag b) (blk_set b) in
  let req := mkRequest (-1) addr (blkSize c) wbMasterId (task_id b) 0
               (if isSecure b then SECURE else 0) in
  let pkt := Packet_new req Writeback in
  let pkt := if isWritable b then setSupplyExclusive pkt else pkt in
  with_data pkt d [].

Definition writebackBlk (st : cache) (r : blkref) (now : Z) : res (cache * Packet) :=
  b ← get_blk st r;
  _ ← cassert (isValid b && isDirty b)%bool;
  let st := st_with_wbs st (writebacks_stat st + 1) in
  d ← get_data st r;
  let pkt := writeback_packet b d in
  st ← set_blk st r (with_owner_task now);
  st ← set_blk st r (clear_bits BlkDirty);
  Ret (st, pkt).

(** ** Allocation and fills *)

(** [findMatch addr is_secure] is [Some e] when the miss queue has an entry for
    the block, [e] telling whether it needs an exclusive copy. *)
Definition allocateBlock (findMatch : Z -> bool -> option bool) (st : cache) (addr rnd now : Z) :
    res (cache * option nat * list Packet) :=
  blk ← tp_findVictim c (cs_tags st) addr rnd;
  match blk with
  | None => Err OutOfBounds       (* a null pointer is dereferenced *)
  | Some p =>
      b ← get_blk st (InTags p);
      if isValid b then
        let repl_addr := regenerateBlkAddr c (tag b) (blk_set b) in
        match findMatch repl_addr (isSecure b) with
        | Some excl =>
            _ ← cassert (negb (isWritable b) || isDirty b)%bool;
            _ ← cassert excl;
            Ret (st, None, [])
        | None =>
            if isDirty b then
              '(st, wb) ← writebackBlk st (InTags p) now;
              Ret (st, Some p, [wb])
            else Ret (st, Some p, [])
        end
      else Ret (st, Some p, [])
  end.

(** The first half of [handleFill]: the block to fill. *)
Definition fill_target (findMatch : Z -> bool -> option bool) (st : cache) (pkt : Packet)
    (blk : option nat) (rnd now : Z) : res (cache * blkref * list Packet) :=
  let cmd := pkt_cmd pkt in
  match blk with
  | None =>
      _ ← cassert (cmd_hasData cmd);
      _ ← cassert (cmd_isRead cmd || cmd_isWriteInvalidate cmd)%bool;
      '(st, blk, wbs) ← allocateBlock findMatch st (pkt_addr pkt) rnd now;
      match blk with
      | None =>
          _ ← cassert (negb (isValid (tempBlock st)));
          let tb := with_place (tempBlock st) (extractTag c (pkt_addr pkt))
                      (extractSet c (pkt_addr pkt)) in
          let st := st_with_temp st tb (tempData st) in
          _ ← cassert (negb (isValid tb));
          Ret (st, Temp, wbs)
      | Some p =>
          s ← tp_insertBlock c (cs_tags st) pkt p now;
          let st := st_with_tags st s in
          b ← get_blk st (InTags p);
          _ ← cassert (negb (isValid b));
          Ret (st, InTags p, wbs)
      end
  | Some p =>
      b ← get_blk st (InTags p);
      _ ← cassert (tag b =? extractTag c (pkt_addr pkt));
      _ ← cassert (cmd_hasData cmd || isValid b)%bool;
      Ret (st, InTags p, [])
  end.

(** The status bits a fill adds. *)
Definition fill_bits (pkt : Packet) (b : CacheBlk) : CacheBlk :=
  let b := if pkt_isSecure pkt then set_bits BlkSecure b else b in
  let b := set_bits (Z.lor BlkValid BlkReadable) b in
  if negb (sharedAsserted pkt) then
    let b := set_bits BlkWritable b in
    if memInhibitAsserted pkt then set_bits BlkDirty b else b
  else b.

(** [edge] is the value of [clockEdge()]. *)
Definition handleFill (findMatch : Z -> bool -> option bool) (st : cache) (pkt : Packet)
    (blk : option nat) (rnd now edge : Z) : res (cache * blkref * list Packet) :=
  let cmd := pkt_cmd pkt in
  _ ← cassert (cmd_isResponse cmd || cmd_isWriteInvalidate cmd)%bool;
  '(st, r, wbs) ← fill_target findMatch st pkt blk rnd now;
  st ← set_blk st r (fill_bits pkt);
  st ← (if cmd_isRead cmd then
          _ ← cassert (cmd_hasData cmd);
          _ ← cassert (pkt_size pkt =? blkSize c);
          d ← getPtr pkt;
          d ← mem_read d 0 (blkSize c);
          old ← get_data st r;
          d ← mem_write old 0 d;
          set_data st r d
        else Ret st);
  st ← set_blk st r (fun b => with_whenReady b
         (u64 (edge + fillLatency * clockPeriod c + pkt_payloadDelay pkt)));
  Ret (st, r, wbs).

(** ** Accesses *)

Definition cmpAndSwap (st : cache) (r : blkref) (pkt : Packet) : res (cache * Packet) :=
  _ ← cassert (cmd_isRequest (pkt_cmd pkt));
  let offset := extractBlkOffset c (pkt_addr pkt) in
  d ← get_data st r;
  _ ← cassert (pkt_size pkt <=? 8);
  payload ← getPtr pkt;
  overwrite_val ← mem_read payload 0 (pkt_size pkt);
  pkt ← setData pkt d offset;
  overwrite_mem ←
    (if req_isCondSwap (pkt_req pkt) then
       if pkt_size pkt =? 8 then
         old ← mem_read d offset 8;
         Ret (bool_decide (le_bytes 8 (req_extraData (pkt_req pkt)) = old))
       else if pkt_size pkt =? 4 then
         old ← mem_read d offset 4;
         Ret (bool_decide (le_bytes 4 (u32 (req_extraData (pkt_req pkt))) = old))
       else Err Panic
     else Ret true);
  if (overwrite_mem : bool) then
    d ← mem_write d offset overwrite_val;
    st ← set_data st r d;
    st ← set_blk st r (set_bits BlkDirty);
    Ret (st, pkt)
  else Ret (st, pkt).

(** The read branch for a whole block, requested by a cache above. *)
Definition satisfy_block_read (st : cache) (r : blkref) (pkt : Packet)
    (deferred_response pending_downgrade : bool) (now : Z) : res (cache * Packet) :=
  b ← get_blk st r;
  if cmd_needsExclusive (pkt_cmd pkt) then
    pkt ← (if isDirty b then assertMemInhibit pkt else Ret pkt);
    match r with
    | InTags p => st ← drop_blk st p now; Ret (st, pkt)
    | Temp => st ← set_blk st Temp CacheBlk_invalidate; Ret (st, pkt)
    end
  else if isWritable b && negb pending_downgrade && negb (sharedAsserted pkt)
          && negb (req_isInstFetch (pkt_req pkt)) then
    if isDirty b then
      if negb deferred_response && negb isTopLevel then
        pkt ← assertMemInhibit pkt;
        st ← set_blk st r (clear_bits BlkDirty);
        Ret (st, pkt)
      else Ret (st, assertShared pkt)
    else Ret (st, pkt)
  else Ret (st, assertShared pkt).

Definition satisfyCpuSideRequest (st : cache) (pkt : Packet) (r : blkref)
    (deferred_response pending_downgrade : bool) (now : Z) : res (cache * Packet) :=
  let cmd := pkt_cmd pkt in
  _ ← cassert (cmd_isRequest cmd);
  b ← get_blk st r;
  _ ← cassert (isValid b);
  _ ← cassert (getOffset pkt (blkSize c) + pkt_size pkt <=? blkSize c);
  if bool_decide (cmd = SwapReq) then cmpAndSwap st r pkt
  else if cmd_isWrite cmd && (negb (cmd_isWriteInvalidate cmd) || isTopLevel) then
    _ ← cassert (isWritable b);
    let '(success, b', req') := checkWrite b pkt in
    let pkt := with_req pkt req' in
    st ← set_blk st r (fun _ => b');
    st ← (if success then
            d ← get_data st r;
            d ← writeDataToBlock pkt d (blkSize c);
            set_data st r d
          else Ret st);
    st ← set_blk st r (set_bits BlkDirty);
    Ret (st, pkt)
  else if cmd_isRead cmd then
    st ← (if pkt_isLLSC pkt then
            b ← trackLoadLocked b pkt;
            set_blk st r (fun _ => b)
          else Ret st);
    d ← get_data st r;
    pkt ← setDataFromBlock pkt d (blkSize c);
    if pkt_size pkt =? blkSize c
    then satisfy_block_read st r pkt deferred_response pending_downgrade now
    else Ret (st, pkt)
  else
    _ ← cassert (cmd_isUpgrade cmd || (cmd_isWriteInvalidate cmd && negb isTopLevel))%bool;
    match r with
    | Temp => Err AssertFailed
    | InTags p => st ← drop_blk st p now; Ret (st, pkt)
    end.

(** The uncacheable branch of [access]: flush and drop the block. *)
Definition flush_blk (st : cache) (pkt : Packet) (now : Z) : res (cache * list Packet) :=
  let st := if req_isClearLL (pkt_req pkt)
            then st_with_tags st (tp_with_base (cs_tags st)
                   (BaseSetAssoc_clearLocks (cs_base st)))
            else st in
  old ← BaseSetAssoc_findBlock c (cs_base st) (pkt_addr pkt) (pkt_isSecure pkt);
  match old with
  | None => Ret (st, [])
  | Some p =>
      b ← get_blk st (InTags p);
      if isValid b then
        '(st, wbs) ← (if isDirty b then
                        '(st, wb) ← writebackBlk st (InTags p) now;
                        Ret (st, [wb])
                      else Ret (st, []));
        st ← drop_blk st p now;
        Ret (st, wbs)
      else Ret (st, [])
  end.

(** The writeback branch of [access], given what [accessBlock] found. *)
Definition access_writeback (findMatch : Z -> bool -> option bool) (st : cache) (pkt : Packet)
    (blk : option nat) (rnd now : Z) : res (cache * option nat * bool * list Packet) :=
  _ ← cassert (blkSize c =? pkt_size pkt);
  '(st, blk, wbs) ←
    (match blk with
     | Some p => Ret (st, Some p, [])
     | None =>
         '(st, blk, wbs) ← allocateBlock findMatch st (pkt_addr pkt) rnd now;
         match blk with
         | None => st ← incMissCount st pkt; Ret (st, None, wbs)
         | Some p =>
             s ← tp_insertBlock c (cs_tags st) pkt p now;
             st ← set_blk (st_with_tags st s) (InTags p)
                    (fun b => with_status b (Z.lor (Z.lor BlkValid BlkReadable)
                       (if pkt_isSecure pkt then BlkSecure else 0)));
             Ret (st, Some p, wbs)
         end
     end);
  match blk with
  | None => Ret (st, None, false, wbs)
  | Some p =>
      st ← set_blk st (InTags p) (fun b =>
             let b := set_bits BlkDirty b in
             if isSupplyExclusive pkt then set_bits BlkWritable b else b);
      _ ← cassert (negb (cmd_needsResponse (pkt_cmd pkt)));
      d ← getPtr pkt;
      d ← mem_read d 0 (blkSize c);
      old ← get_data st (InTags p);
      d ← mem_write old 0 d;
      st ← set_data st (InTags p) d;
      st ← incHitCount st pkt;
      Ret (st, Some p, true, wbs)
  end.

Record access_result := mkAccessResult {
  ar_state : cache;
  ar_pkt : Packet;
  ar_blk : option nat;
  ar_lat : Z;
  ar_satisfied : bool;
  ar_writebacks : list Packet
}.

Definition access (findMatch : Z -> bool -> option bool) (st : cache) (pkt : Packet)
    (rnd now : Z) : res access_result :=
  let cmd := pkt_cmd pkt in
  _ ← cassert (cmd_isRequest cmd);
  if req_isUncacheable (pkt_req pkt) then
    '(st, wbs) ← flush_blk st pkt now;
    Ret (mkAccessResult st pkt None lookupLatency false wbs)
  else
    '(s, blk, lat) ← tp_accessBlock c (cs_tags st) (pkt_addr pkt) (pkt_isSecure pkt)
                       (cmd_isRead cmd) now;
    let st := st_with_tags st s in
    if bool_decide (cmd = Writeback) then
      '(st, blk, sat, wbs) ← access_writeback findMatch st pkt blk rnd now;
      Ret (mkAccessResult st pkt blk lat sat wbs)
    else
      usable ← (match blk with
                | None => Ret false
                | Some p => b ← get_blk st (InTags p);
                            Ret (if cmd_needsExclusive cmd then isWritable b else isReadable b)
                end);
      match blk, usable with
      | Some p, true =>
          st ← incHitCount st pkt;
          '(st, pkt) ← satisfyCpuSideRequest st pkt (InTags p) false false now;
          Ret (mkAccessResult st pkt blk lat true [])
      | _, _ =>
          st ← incMissCount st pkt;
          match blk with
          | None =>
              if pkt_isLLSC pkt && cmd_isWrite cmd then
                Ret (mkAccessResult st (with_req pkt (setExtraData (pkt_req pkt) 0)) None lat
                       true [])
              else Ret (mkAccessResult st pkt None lat false [])
          | Some p => Ret (mkAccessResult st pkt blk lat false [])
          end
      end.

(** ** Visitors *)

(** [writebackVisitor]: the functional write it sends, if any. *)
Definition writebackVisitor (st : cache) (p : nat) : res (cache * list Packet) :=
  b ← get_blk st (InTags p);
  if isDirty b then
    _ ← cassert (isValid b);
    d ← get_data st (InTags p);
    let req := mkRequest (-1) (regenerateBlkAddr c (tag b) (blk_set b)) (blkSize c)
                 funcMasterId (task_id b) 0 0 in
    let pkt := with_data (Packet_new req WriteReq) d [] in
    st ← set_blk st (InTags p) (clear_bits BlkDirty);
    Ret (st, [pkt])
  else Ret (st, []).

Definition invalidateVisitor (st : cache) (p : nat) (now : Z) : res cache :=
  b ← get_blk st (InTags p);
  if isValid b then
    _ ← cassert (negb (isDirty b));
    drop_blk st p now
  else Ret st.

(** [forEachBlk] for these visitors, which never stop the walk: [fuel] blocks
    from [i] on. *)
Fixpoint memWriteback_loop (st : cache) (fuel i : nat) : res (cache * list Packet) :=
  match fuel with
  | O => Ret (st, [])
  | Datatypes.S fuel =>
      '(st, pkts) ← writebackVisitor st i;
      '(st, rest) ← memWriteback_loop st fuel (Datatypes.S i);
      Ret (st, pkts ++ rest)
  end.

Definition memWriteback (st : cache) : res (cache * list Packet) :=
  memWriteback_loop st (numSets c * assoc c) 0.

Fixpoint memInvalidate_loop (st : cache) (fuel i : nat) (now : Z) : res cache :=
  match fuel with
  | O => Ret st
  | Datatypes.S fuel => st ← invalidateVisitor st i now; memInvalidate_loop st fuel (Datatypes.S i) now
  end.

Definition memInvalidate (st : cache) (now : Z) : res cache :=
  memInvalidate_loop st (numSets c * assoc c) 0 now.

(** [isDirty()]: the visitor stops at the first dirty block. *)
Fixpoint isDirty_loop (l : list CacheBlk) : bool :=
  match l with
  | [] => false
  | b :: l => if isDirty b then true else isDirty_loop l
  end.

Definition Cache_isDirty (st : cache) : bool := isDirty_loop (blks (cs_base st)).

(** [Cache::Cache]: the temporary block. *)
Definition Cache_new (s : S) (uninit : Z) (data : list (list Z)) (tdata : list Z)
    (max_miss_count : Z) : cache :=
  mkCacheState s data (CacheBlk_new uninit) tdata 0 0 0 max_miss_count false.

End cache.
Arguments mkAccessResult {_} _ _ _ _ _ _.
Arguments ar_state {_} _.
Arguments ar_pkt {_} _.
Arguments ar_blk {_} _.
Arguments ar_lat {_} _.
Arguments ar_satisfied {_} _.
Arguments ar_writebacks {_} _.

(** ** The invariant of the block array *)

Definition cnt (P : CacheBlk -> bool) (l : list CacheBlk) : Z :=
  Z.of_nat (length (List.filter P l)).

Definition b2z (b : bool) : Z := if b then 1 else 0.

Lemma cnt_insert P l p b b' :
  l !! p = Some b -> cnt P (<[p:=b']> l) = cnt P l - b2z (P b) + b2z (P b').
Proof.
  unfold cnt, b2z. revert p. induction l as [|a l IH]; intros [|p] Hp; [done|done|..].
  - injection Hp as ->. cbn. destruct (P b), (P b'); cbn [length]; lia.
  - change (<[Datatypes.S p:=b']> (a :: l)) with (a :: <[p:=b']> l).
    specialize (IH p Hp). cbn [List.filter]. destruct (P a); cbn [length]; lia.
Qed.

Definition owned_by (m : nat) (b : CacheBlk) : bool :=
  isValid b && (srcMasterId b =? Z.of_nat m).

(** Between operations of the cache: valid blocks belong to known masters and
    carry the tag and set of a real address, the touched bit is the valid bit, an
    invalid block has no status bit set, a block is stored at most once, and the statistics count the valid blocks. *)
Record blocks_inv (c : TagsConfig) (l : list CacheBlk) (inuse : Z) (occ : list Z) : Prop := {
  bi_src : forall p b, l !! p = Some b -> isValid b = true -> master_ok c (srcMasterId b);
  bi_addr : forall p b, l !! p = Some b -> isValid b = true ->
    exists a, inword 64 a /\ tag b = extractTag c a /\ blk_set b = extractSet c a;
  bi_touch : forall p b, l !! p = Some b -> isTouched b = isValid b;
  bi_zero : forall p b, l !! p = Some b -> isValid b = false -> status b = 0;
  bi_uniq : forall p q b b', l !! p = Some b -> l !! q = Some b' ->
    (p / assoc c = q / assoc c)%nat -> isValid b = true -> isValid b' = true ->
    tag b = tag b' -> isSecure b = isSecure b' -> p = q;
  bi_use : inuse = cnt isValid l;
  bi_occ : forall m, (m < maxMasters c)%nat -> occ !! m = Some (cnt (owned_by m) l)
}.

Lemma sim_valid b b' : blk_sim b b' -> isValid b = isValid b'.
Proof. by intros ->. Qed.

Lemma sim_fields b b' :
  blk_sim b b' -> isValid b = isValid b' /\ tag b = tag b' /\ isSecure b = isSecure b' /\
  isDirty b = isDirty b' /\ blk_set b = blk_set b' /\ isTouched b = isTouched b' /\
  srcMasterId b = srcMasterId b' /\ isWritable b = isWritable b' /\ isReadable b = isReadable b' /\
  task_id b = task_id b' /\ status b = status b' /\ lockList b = lockList b'.
Proof.
  intros Hs. injection Hs. intros. unfold isValid, isSecure, isDirty, isWritable, isReadable.
  rename select (status b = status b') into E. rewrite E. by split_and!.
Qed.

Lemma cnt_sim P l l' :
  (forall b b', blk_sim b b' -> P b = P b') -> Forall2 blk_sim l l' -> cnt P l = cnt P l'.
Proof.
  intros HP. unfold cnt. induction 1 as [|b b' l l' Hb Hl IH]; [done|]. cbn.
  rewrite <- (HP b b' Hb). destruct (P b); cbn [length]; lia.
Qed.

(** The invariant does not depend on the reuse counters of a policy. *)
Lemma blocks_inv_sim c l l' iu oc :
  Forall2 blk_sim l l' -> blocks_inv c l iu oc -> blocks_inv c l' iu oc.
Proof.
  intros Hl [Hsrc Haddr Ht Hz Hu Hiu Hoc].
  assert (Hback : forall p b', l' !! p = Some b' -> exists b, l !! p = Some b /\ blk_sim b b')
    by (intros; by eapply Forall2_lookup_r).
  split.
  - intros p b' (b & Hb & Hs)%Hback. apply sim_fields in Hs as (<- & _ & _ & _ & _ & _ & <- & _).
    by apply Hsrc with p.
  - intros p b' (b & Hb & Hs)%Hback. apply sim_fields in Hs as (<- & <- & _ & _ & <- & _).
    by apply Haddr with p.
  - intros p b' (b & Hb & Hs)%Hback. apply sim_fields in Hs as (<- & _ & _ & _ & _ & <- & _).
    by apply Ht with p.
  - intros p b' (b & Hb & Hs)%Hback.
    apply sim_fields in Hs as (<- & _ & _ & _ & _ & _ & _ & _ & _ & _ & <- & _). by apply Hz with p.
  - intros p q b' b2' (b & Hb & Hs)%Hback (b2 & Hb2 & Hs2)%Hback.
    apply sim_fields in Hs as (<- & <- & <- & _). apply sim_fields in Hs2 as (<- & <- & <- & _).
    by apply Hu.
  - rewrite Hiu. by apply cnt_sim; [apply sim_valid|].
  - intros m Hm. rewrite Hoc by done. f_equal. apply cnt_sim; [|done].
    intros b b' Hs. unfold owned_by. by apply sim_fields in Hs as (-> & _ & _ & _ & _ & _ & -> & _).
Qed.

Lemma occ_add_lookup m d occ k x :
  0 <= m -> occ !! k = Some x ->
  occ_add m d occ !! k = Some (x + if decide (Z.of_nat k = m) then d else 0).
Proof.
  intros Hm Hk. unfold occ_add. rewrite list_lookup_alter.
  destruct (decide (Z.to_nat m = k)) as [E|E].
  - rewrite decide_True, E, Hk by lia. cbn. f_equal. lia.
  - rewrite decide_False, Hk by lia. f_equal. lia.
Qed.

(** Replacing a block by a new valid block. *)
Lemma blocks_inv_fill c l iu oc p b b' a :
  blocks_inv c l iu oc -> l !! p = Some b ->
  isValid b' = true -> isTouched b' = true -> master_ok c (srcMasterId b') ->
  inword 64 a -> tag b' = extractTag c a -> blk_set b' = extractSet c a ->
  (forall q bq, l !! q = Some bq -> q <> p -> (q / assoc c = p / assoc c)%nat ->
     isValid bq = true -> tag bq = tag b' -> isSecure bq <> isSecure b') ->
  blocks_inv c (<[p:=b']> l) (iu + (if isTouched b then 0 else 1))
    (occ_add (srcMasterId b') 1 (if isValid b then occ_add (srcMasterId b) (-1) oc else oc)).
Proof.
  intros [Hsrc Haddr Ht Hz Hu Hiu Hoc] Hp Hv' Ht' Hm' Ha Htag Hset Hnew. split.
  - intros q bq [(-> & <- & _)|[_ Hq]]%list_lookup_insert_Some; [done|by apply Hsrc with q].
  - intros q bq [(-> & <- & _)|[_ Hq]]%list_lookup_insert_Some; [by exists a|by apply Haddr with q].
  - intros q bq [(-> & <- & _)|[_ Hq]]%list_lookup_insert_Some; [congruence|by apply Ht with q].
  - intros q bq [(-> & <- & _)|[_ Hq]]%list_lookup_insert_Some; [congruence|by apply Hz with q].
  - intros q r bq br [(-> & <- & _)|[Hne Hq]]%list_lookup_insert_Some
      [(-> & <- & _)|[Hne' Hr]]%list_lookup_insert_Some Hs Hvq Hvr Et Es; try done.
    + exfalso. by apply (Hnew r br Hr).
    + exfalso. by apply (Hnew q bq Hq).
    + by apply (Hu q r bq br).
  - rewrite (cnt_insert _ _ _ b), Hiu, Hv', (Ht _ _ Hp) by done. destruct (isValid b); cbn; lia.
  - intros m Hm. specialize (Hoc m Hm). specialize (Hsrc p b Hp).
    unfold master_ok in *. rewrite (cnt_insert _ _ _ b) by done.
    destruct (isValid b) eqn:Ev.
    + specialize (Hsrc eq_refl).
      erewrite occ_add_lookup by (lia || (apply occ_add_lookup; [lia|done])).
      f_equal. unfold owned_by. rewrite Ev, Hv'. cbn [andb].
      destruct (Z.eqb_spec (srcMasterId b) (Z.of_nat m)),
        (Z.eqb_spec (srcMasterId b') (Z.of_nat m)); repeat case_decide; cbn; lia.
    + erewrite occ_add_lookup by (lia || done). f_equal. unfold owned_by. rewrite Ev, Hv'.
      cbn [andb]. destruct (Z.eqb_spec (srcMasterId b') (Z.of_nat m)); case_decide; cbn; lia.
Qed.

(** Dropping a valid block. *)
Lemma blocks_inv_drop c l iu oc p b b' :
  blocks_inv c l iu oc -> l !! p = Some b -> isValid b = true ->
  isValid b' = false -> isTouched b' = false -> status b' = 0 ->
  blocks_inv c (<[p:=b']> l) (iu - 1) (occ_add (srcMasterId b) (-1) oc).
Proof.
  intros [Hsrc Haddr Ht Hz Hu Hiu Hoc] Hp Hv Hv' Ht' Hz'. split.
  - intros q bq [(-> & <- & _)|[_ Hq]]%list_lookup_insert_Some; [congruence|by apply Hsrc with q].
  - intros q bq [(-> & <- & _)|[_ Hq]]%list_lookup_insert_Some; [congruence|by apply Haddr with q].
  - intros q bq [(-> & <- & _)|[_ Hq]]%list_lookup_insert_Some; [congruence|by apply Ht with q].
  - intros q bq [(-> & <- & _)|[_ Hq]]%list_lookup_insert_Some; [congruence|by apply Hz with q].
  - intros q r bq br [(-> & <- & _)|[Hne Hq]]%list_lookup_insert_Some
      [(-> & <- & _)|[Hne' Hr]]%list_lookup_insert_Some Hs Hvq Hvr; try congruence.
    by apply (Hu q r bq br).
  - rewrite (cnt_insert _ _ _ b), Hiu, Hv', Hv by done. cbn. lia.
  - intros m Hm. specialize (Hoc m Hm). specialize (Hsrc p b Hp Hv). unfold master_ok in *.
    rewrite (cnt_insert _ _ _ b) by done. erewrite occ_add_lookup by (lia || done). f_equal.
    unfold owned_by. rewrite Hv, Hv'. cbn [andb].
    destruct (Z.eqb_spec (srcMasterId b) (Z.of_nat m)); case_decide; cbn; lia.
Qed.

(** Changing other fields of a block. *)
Lemma blocks_inv_keep c l iu oc p b b' :
  blocks_inv c l iu oc -> l !! p = Some b -> isValid b = true ->
  isValid b' = isValid b -> isTouched b' = isTouched b -> tag b' = tag b ->
  blk_set b' = blk_set b -> isSecure b' = isSecure b -> srcMasterId b' = srcMasterId b ->
  blocks_inv c (<[p:=b']> l) iu oc.
Proof.
  intros [Hsrc Haddr Ht Hz Hu Hiu Hoc] Hp Hv E1 E2 E3 E4 E5 E6.
  split.
  - intros q bq [(-> & <- & _)|[_ Hq]]%list_lookup_insert_Some; [|by apply Hsrc with q].
    rewrite E1, E6. by apply Hsrc with q.
  - intros q bq [(-> & <- & _)|[_ Hq]]%list_lookup_insert_Some; [|by apply Haddr with q].
    rewrite E1, E3, E4. by apply Haddr with q.
  - intros q bq [(-> & <- & _)|[_ Hq]]%list_lookup_insert_Some; [|by apply Ht with q].
    rewrite E1, E2. by apply Ht with q.
  - intros q bq [(-> & <- & _)|[_ Hq]]%list_lookup_insert_Some; [congruence|by apply Hz with q].
  - intros q r bq br [(-> & <- & _)|[Hne Hq]]%list_lookup_insert_Some
      [(-> & <- & _)|[Hne' Hr]]%list_lookup_insert_Some; try done; rewrite ?E1, ?E3, ?E5;
      by apply Hu.
  - rewrite (cnt_insert _ _ _ b), Hiu, E1 by done. lia.
  - intros m Hm. rewrite (cnt_insert _ _ _ b), Hoc by done. f_equal. unfold owned_by.
    rewrite E1, E6. lia.
Qed.

(** ** Operations against the interface of the tag policy *)

Section against_policy.
Context {S : Type} `{TP : TagPolicy S} (c : TagsConfig) (Inv : S -> Prop).
Context `{OK : !TagPolicyOk S c Inv} (Hc : config_wf c).

Abbreviation cache := (CacheState S).

(** The blocks of the store are [l] up to the reuse counters, and the counted
    statistics are [iu] and [oc]. *)
Record has (s : S) (l : list CacheBlk) (iu : Z) (oc : list Z) : Prop := {
  has_inv : Inv s;
  has_blks : Forall2 blk_sim l (blks (tp_base s));
  has_use : tagsInUse (tp_base s) = iu;
  has_occ : occupancies (tp_base s) = oc
}.

Lemma has_wf s l iu oc : has s l iu oc -> tags_wf c (tp_base s).
Proof using OK. intros []. by apply tpo_wf. Qed.

Lemma has_lookup s l iu oc p b :
  has s l iu oc -> l !! p = Some b ->
  exists b', blks (tp_base s) !! p = Some b' /\ blk_sim b b'.
Proof. intros [_ Hb _ _] Hp. by eapply Forall2_lookup_l. Qed.

Lemma has_length s l iu oc : has s l iu oc -> length (blks (tp_base s)) = length l.
Proof. intros [_ Hb _ _]. symmetry. by eapply Forall2_length. Qed.

Lemma has_get (st : cache) l iu oc p b :
  has (cs_tags st) l iu oc -> l !! p = Some b ->
  exists b', get_blk st (InTags p) = Ret b' /\ blk_sim b b'.
Proof.
  intros Hh Hp. destruct (has_lookup _ _ _ _ _ _ Hh Hp) as (b' & Hb' & Hs).
  exists b'. split; [by apply vread_some|done].
Qed.

(** Writing a block through its pointer. *)
Lemma has_set (st : cache) l iu oc p b f :
  has (cs_tags st) l iu oc -> l !! p = Some b ->
  (forall b', blk_sim b b' -> client_blk b' (f b') /\ blk_sim (f b) (f b')) ->
  exists s', set_blk st (InTags p) f = Ret (st_with_tags st s') /\ has s' (<[p:=f b]> l) iu oc.
Proof using OK.
  intros Hh Hp Hf. destruct (has_lookup _ _ _ _ _ _ Hh Hp) as (b' & Hb' & Hs).
  destruct (Hf b' Hs) as [Hcl Hsim]. unfold set_blk, cs_base.
  rewrite (upd_blk_spec _ p f b' Hb'). bsimpl. eexists. split; [reflexivity|].
  destruct Hh as [Hi Hb Hu Ho]. split; rewrite ?tpo_base; try done.
  - by eapply (tpo_client _ p b' (f b')).
  - cbn. by apply Forall2_insert.
Qed.

Lemma has_reorder s s0 l iu oc :
  Inv s -> reorder s0 (tp_base s) -> Forall2 blk_sim l (blks s0) -> tagsInUse s0 = iu ->
  occupancies s0 = oc -> has s l iu oc.
Proof.
  intros Hi [_ Hb Hu Ho] Hl E1 E2. split; [done|by etrans|congruence..].
Qed.

Lemma inserted_sim pkt now b b' :
  blk_sim b b' -> blk_sim (inserted c pkt now b) (inserted c pkt now b').
Proof.
  intros Hs. pose proof (sim_valid _ _ Hs) as Ev. unfold blk_sim in *.
  destruct b, b'. unfold inserted, with_tag_refcount in *. cbn in *. rewrite Ev.
  by injection Hs; intros; subst.
Qed.

Lemma has_insert (s : S) l iu oc pkt p b now :
  has s l iu oc -> l !! p = Some b -> 0 <= pkt_addr pkt ->
  Z.of_nat (p / assoc c) = extractSet c (pkt_addr pkt) ->
  (isValid b = true -> master_ok c (srcMasterId b)) ->
  master_ok c (req_masterId (pkt_req pkt)) ->
  exists s', tp_insertBlock c s pkt p now = Ret s' /\
    has s' (<[p:=inserted c pkt now b]> l) (iu + (if isTouched b then 0 else 1))
      (occ_add (req_masterId (pkt_req pkt)) 1
         (if isValid b then occ_add (srcMasterId b) (-1) oc else oc)).
Proof using OK.
  intros Hh Hp Ha Hset Hsrc Hm. pose proof (has_wf _ _ _ _ Hh) as Hw.
  destruct (has_lookup _ _ _ _ _ _ Hh Hp) as (b' & Hb' & Hs).
  pose proof (sim_fields _ _ Hs) as (Ev & _ & _ & _ & _ & Et & Esrc & _).
  destruct (base_insert_spec c (tp_base s) pkt p b' now Hw Hb') as (s0 & E0 & Es & Eb & Eu & Eo).
  { by rewrite <- Ev, <- Esrc. }
  { done. }
  destruct Hh as [Hi Hb Hu Ho].
  assert (Hlt : (p < length (blks (tp_base s)))%nat) by (by eapply lookup_lt_Some).
  destruct (tpo_insert s pkt p now s0) as (s' & E & Hr & Hi'); try done.
  - eapply (tags_wf_insert c (tp_base s) s0 p b' (inserted c pkt now b')); try done.
    rewrite Eo. unfold occ_add. destruct (isValid b'); by rewrite !length_alter.
  - by rewrite Eb, (alter_as_insert _ _ _ b').
  - exists s'. split; [done|]. eapply has_reorder; [done|exact Hr|..].
    + rewrite Eb. apply Forall2_insert; [done|]. by apply inserted_sim.
    + by rewrite Eu, Hu, Et.
    + by rewrite Eo, Ho, Ev, Esrc.
Qed.

Lemma has_drop (st : cache) l iu oc p b now :
  has (cs_tags st) l iu oc -> l !! p = Some b -> isValid b = true ->
  master_ok c (srcMasterId b) ->
  exists s' , drop_blk c st p now = Ret (st_with_tags st s') /\
    has s' (<[p:=CacheBlk_invalidate (dropped now b)]> l) (iu - 1)
      (occ_add (srcMasterId b) (-1) oc).
Proof using OK.
  intros Hh Hp Hv Hm. pose proof (has_wf _ _ _ _ Hh) as Hw.
  destruct (has_lookup _ _ _ _ _ _ Hh Hp) as (b' & Hb' & Hs).
  pose proof (sim_fields _ _ Hs) as (Ev & _ & _ & _ & _ & Et & Esrc & _).
  destruct (base_invalidate_spec c (tp_base (cs_tags st)) p b' now Hw Hb')
    as (s0 & E0 & Es & Eb & Eu & Eo); [congruence|congruence|].
  pose proof Hh as [Hi Hb Hu Ho].
  assert (Hlt : (p < length (blks (tp_base (cs_tags st))))%nat) by (by eapply lookup_lt_Some).
  destruct (tpo_invalidate (cs_tags st) p now s0) as (s1 & E & Hr & Hi'); try done.
  - eapply (tags_wf_insert c (tp_base (cs_tags st)) s0 p b' (dropped now b')); try done.
    rewrite Eo. unfold occ_add. by rewrite length_alter.
  - by rewrite Eb, (alter_as_insert _ _ _ b').
  - assert (Hh1 : has s1 (<[p:=dropped now b]> l) (iu - 1) (occ_add (srcMasterId b) (-1) oc)).
    { eapply has_reorder; [done|exact Hr|..].
      - rewrite Eb. apply Forall2_insert; [done|]. unfold blk_sim in *.
        destruct b, b'. unfold dropped, with_owner, with_tag_refcount in *. cbn in *.
        by injection Hs; intros; subst.
      - by rewrite Eu, Hu.
      - by rewrite Eo, Ho, Esrc. }
    unfold drop_blk. rewrite E. bsimpl.
    destruct (has_set (st_with_tags st s1) _ _ _ p (dropped now b) CacheBlk_invalidate Hh1)
      as (s2 & -> & Hh2).
    { apply list_lookup_insert_eq. by eapply lookup_lt_Some. }
    { intros b2 Hs2. split; [by split_and!|]. unfold blk_sim in *. destruct b2.
      unfold CacheBlk_invalidate, clearLoadLocks, with_locks, with_touched, with_status,
        with_tag_refcount in *. cbn in *. by injection Hs2; intros; subst. }
    rewrite list_insert_insert_eq in Hh2. by exists s2.
Qed.

(** *** What the cache holds *)

(** Status and data of the block that holds an address. *)
Definition cache_lookup (st : cache) (addr : Z) (sec : bool) : res (option (Z * list Z)) :=
  r ← BaseSetAssoc_findBlock c (cs_base st) addr sec;
  match r with
  | None => Ret None
  | Some p => b ← get_blk st (InTags p); d ← get_data st (InTags p); Ret (Some (status b, d))
  end.

(** Block [b] at [p] is the one for [addr]. *)
Definition is_for (addr : Z) (sec : bool) (p : nat) (b : CacheBlk) : Prop :=
  Z.of_nat (p / assoc c) = extractSet c addr /\ isValid b = true /\
  tag b = extractTag c addr /\ isSecure b = sec.

#[export] Instance is_for_dec addr sec p b : Decision (is_for addr sec p b).
Proof. unfold is_for. apply _. Defined.

Lemma blk_match_sim l l' p b tg sec :
  Forall2 blk_sim l l' -> l !! p = Some b ->
  blk_match l' tg sec p = true <-> isValid b = true /\ tag b = tg /\ isSecure b = sec.
Proof.
  intros Hl Hp. destruct (Forall2_lookup_l _ _ _ _ _ Hl Hp) as (b' & Hb' & Hs).
  apply sim_fields in Hs as (-> & -> & -> & _). unfold blk_match. rewrite Hb'.
  rewrite !andb_true_iff, Z.eqb_eq, eqb_true_iff. tauto.
Qed.

Lemma find_spec (st : cache) l iu oc addr sec :
  has (cs_tags st) l iu oc -> 0 <= addr ->
  exists r, BaseSetAssoc_findBlock c (cs_base st) addr sec = Ret r /\
    match r with
    | Some p => exists b, l !! p = Some b /\ is_for addr sec p b
    | None => forall p b, l !! p = Some b -> ~ is_for addr sec p b
    end.
Proof using OK Hc.
  intros Hh Ha.
  destruct (base_findBlock_spec c Hc (cs_base st) addr sec (has_wf _ _ _ _ Hh) Ha)
    as (r & E & Hr). unfold cs_base in Hr. rewrite (has_length _ _ _ _ Hh) in Hr.
  exists r. split; [done|]. destruct r as [p|].
  - destruct Hr as (Hlt & Hset & Hm). destruct (lookup_lt_is_Some_2 _ _ Hlt) as [b Hb].
    exists b. split; [done|]. apply (blk_match_sim _ _ _ _ _ _ (has_blks _ _ _ _ Hh) Hb) in Hm.
    by destruct Hm as (? & ? & ?).
  - intros p b Hb (Hset & Hv & Ht & Hs).
    assert (Hlt : (p < length l)%nat) by (by eapply lookup_lt_Some).
    specialize (Hr p Hlt Hset).
    rewrite (proj2 (blk_match_sim _ _ _ _ _ _ (has_blks _ _ _ _ Hh) Hb)) in Hr; done.
Qed.

Lemma is_for_unique l iu oc addr sec p q b b' :
  blocks_inv c l iu oc -> l !! p = Some b -> l !! q = Some b' ->
  is_for addr sec p b -> is_for addr sec q b' -> p = q.
Proof.
  intros Hi Hp Hq (H1 & H2 & H3 & H4) (H1' & H2' & H3' & H4').
  apply (bi_uniq _ _ _ _ Hi p q b b'); try done; [lia|congruence..].
Qed.

Lemma lookup_hit (st : cache) l iu oc addr sec p b d :
  has (cs_tags st) l iu oc -> blocks_inv c l iu oc -> 0 <= addr ->
  l !! p = Some b -> is_for addr sec p b -> cs_data st !! p = Some d ->
  cache_lookup st addr sec = Ret (Some (status b, d)).
Proof using OK Hc.
  intros Hh Hi Ha Hp Hfor Hd. unfold cache_lookup.
  destruct (find_spec st l iu oc addr sec Hh Ha) as (r & -> & Hr). bsimpl.
  destruct r as [q|]; [|by destruct (Hr p b Hp)]. destruct Hr as (b2 & Hq & Hfor2).
  assert (q = p) as -> by (by eapply is_for_unique).
  destruct (has_get st l iu oc p b Hh Hp) as (b' & -> & Hs). bsimpl.
  unfold get_data. rewrite (vread_some _ _ _ Hd). bsimpl.
  by apply sim_fields in Hs as (_ & _ & _ & _ & _ & _ & _ & _ & _ & _ & -> & _).
Qed.

Lemma lookup_none (st : cache) l iu oc addr sec :
  has (cs_tags st) l iu oc -> 0 <= addr ->
  (forall p b, l !! p = Some b -> ~ is_for addr sec p b) ->
  cache_lookup st addr sec = Ret None.
Proof using OK Hc.
  intros Hh Ha Hno. unfold cache_lookup.
  destruct (find_spec st l iu oc addr sec Hh Ha) as (r & -> & Hr). bsimpl.
  destruct r as [q|]; [|done]. destruct Hr as (b & Hq & Hfor). by destruct (Hno q b Hq).
Qed.

(** *** The invariant of the cache *)

Record data_wf (st : cache) : Prop := {
  dw_len : length (cs_data st) = (numSets c * assoc c)%nat;
  dw_blk : Forall (fun d => Z.of_nat (length d) = blkSize c) (cs_data st);
  dw_temp : Z.of_nat (length (tempData st)) = blkSize c;
  dw_tempv : isValid (tempBlock st) = false
}.

Record cache_inv (st : cache) : Prop := {
  ci_inv : Inv (cs_tags st);
  ci_blks : blocks_inv c (blks (cs_base st)) (tagsInUse (cs_base st)) (occupancies (cs_base st));
  ci_data : data_wf st
}.

Lemma cache_inv_has (st : cache) :
  cache_inv st -> has (cs_tags st) (blks (cs_base st)) (tagsInUse (cs_base st))
    (occupancies (cs_base st)).
Proof.
  intros [Hi _ _]. by split.
Qed.

Lemma has_cache_inv (st : cache) l iu oc :
  has (cs_tags st) l iu oc -> blocks_inv c l iu oc -> data_wf st -> cache_inv st.
Proof.
  intros [Hi Hb Hu Ho] Hbi Hd. split; [done| |done]. unfold cs_base. rewrite Hu, Ho.
  by apply (blocks_inv_sim c l).
Qed.

Lemma blocks_length s l iu oc : has s l iu oc -> length l = (numSets c * assoc c)%nat.
Proof using OK.
  intros Hh. rewrite <- (has_length _ _ _ _ Hh). apply tw_nblks. by eapply has_wf.
Qed.

Lemma data_at (st : cache) l iu oc p b :
  data_wf st -> has (cs_tags st) l iu oc -> l !! p = Some b ->
  exists d, cs_data st !! p = Some d /\ Z.of_nat (length d) = blkSize c.
Proof using OK.
  intros Hd Hh Hp. assert (Hlt : (p < length (cs_data st))%nat).
  { rewrite (dw_len _ Hd), <- (blocks_length _ _ _ _ Hh). by eapply lookup_lt_Some. }
  destruct (lookup_lt_is_Some_2 _ _ Hlt) as [d Hdp]. exists d. split; [done|].
  by apply (Forall_lookup_1 _ _ _ _ (dw_blk _ Hd) Hdp).
Qed.

(** *** Status bits *)

Lemma isValid_set_bits x b : Z.testbit x 0 = false -> isValid (set_bits x b) = isValid b.
Proof.
  intros Hx. unfold isValid, set_bits. cbn [status with_status].
  assert (E : Z.land (Z.lor (status b) x) BlkValid = Z.land (status b) BlkValid); [|by rewrite E].
  rewrite Z.land_lor_distr_l. replace (Z.land x BlkValid) with 0; [apply Z.lor_0_r|].
  apply Z.bits_inj'. intros i Hi. rewrite Z.land_spec, Z.testbit_0_l.
  destruct (Z.eq_dec i 0) as [->|]; [by rewrite Hx|].
  change BlkValid with (2 ^ 0). rewrite Z.pow2_bits_false by lia. by rewrite andb_false_r.
Qed.

Lemma clear_dirty_bits b :
  isValid (clear_bits BlkDirty b) = isValid b /\ isSecure (clear_bits BlkDirty b) = isSecure b /\
  isDirty (clear_bits BlkDirty b) = false.
Proof.
  unfold isValid, isSecure, isDirty, clear_bits. cbn [status with_status].
  rewrite <- !Z.land_assoc.
  change (Z.land (wnot 32 BlkDirty) BlkValid) with BlkValid.
  change (Z.land (wnot 32 BlkDirty) BlkSecure) with BlkSecure.
  change (Z.land (wnot 32 BlkDirty) BlkDirty) with 0. rewrite Z.land_0_r. by split_and!.
Qed.

(** The status of a freshly filled block. *)
Definition fill_status (pkt : Packet) : Z :=
  Z.lor (if pkt_isSecure pkt then BlkSecure else 0)
    (Z.lor (Z.lor BlkValid BlkReadable)
       (if sharedAsserted pkt then 0
        else Z.lor BlkWritable (if memInhibitAsserted pkt then BlkDirty else 0))).

Lemma fill_bits_fresh pkt b :
  status b = 0 ->
  status (fill_bits pkt b) = fill_status pkt /\ isValid (fill_bits pkt b) = true /\
  isSecure (fill_bits pkt b) = pkt_isSecure pkt.
Proof.
  intros E. unfold isValid, isSecure.
  assert (Es : status (fill_bits pkt b) = fill_status pkt).
  { unfold fill_bits, fill_status.
    destruct (pkt_isSecure pkt), (sharedAsserted pkt), (memInhibitAsserted pkt); cbn;
      by rewrite E. }
  rewrite Es. unfold fill_status.
  destruct (pkt_isSecure pkt), (sharedAsserted pkt), (memInhibitAsserted pkt); by split_and!.
Qed.

Lemma fill_bits_fields pkt b :
  tag (fill_bits pkt b) = tag b /\ blk_set (fill_bits pkt b) = blk_set b /\
  isTouched (fill_bits pkt b) = isTouched b /\ srcMasterId (fill_bits pkt b) = srcMasterId b /\
  tag_refcount (fill_bits pkt b) = tag_refcount b.
Proof.
  unfold fill_bits.
  destruct (pkt_isSecure pkt), (negb (sharedAsserted pkt)), (memInhibitAsserted pkt);
    by split_and!.
Qed.

Lemma fill_bits_sim pkt b b' :
  blk_sim b b' -> blk_sim (fill_bits pkt b) (fill_bits pkt b').
Proof.
  unfold blk_sim. intros Hs. destruct b, b'. unfold fill_bits, set_bits.
  destruct (pkt_isSecure pkt), (negb (sharedAsserted pkt)), (memInhibitAsserted pkt);
    cbn in *; by injection Hs; intros; subst.
Qed.

(** *** Writebacks and victims *)

Lemma writebackBlk_ok (st : cache) l iu oc p b d now :
  has (cs_tags st) l iu oc -> l !! p = Some b -> isValid b = true -> isDirty b = true ->
  cs_data st !! p = Some d ->
  exists s', writebackBlk c st (InTags p) now =
      Ret (st_with_tags (st_with_wbs st (writebacks_stat st + 1)) s', writeback_packet c b d) /\
    has s' (<[p:=clear_bits BlkDirty (with_owner_task now b)]> l) iu oc.
Proof using OK.
  intros Hh Hp Hv Hd Hdat. unfold writebackBlk.
  destruct (has_get st l iu oc p b Hh Hp) as (b' & Hg & Hs). rewrite Hg. bsimpl.
  pose proof (sim_fields _ _ Hs) as (Ev & Et & Ese & Ed & Eset & _ & _ & Ew & _ & Etask & _).
  rewrite <- Ev, <- Ed, Hv, Hd. cbn [andb cassert]. bsimpl.
  unfold get_data. cbn [cs_data st_with_wbs]. rewrite (vread_some _ _ _ Hdat). bsimpl.
  assert (Ewb : writeback_packet c b' d = writeback_packet c b d).
  { unfold writeback_packet. by rewrite Et, Eset, Etask, Ese, Ew. }
  rewrite Ewb.
  destruct (has_set (st_with_wbs st (writebacks_stat st + 1)) l iu oc p b (with_owner_task now) Hh Hp)
    as (s1 & -> & Hh1).
  { intros b2 Hs2. split; [by split_and!|]. unfold blk_sim in *. destruct b, b2. cbn in *.
    by injection Hs2; intros; subst. }
  bsimpl.
  destruct (has_set (st_with_tags (st_with_wbs st (writebacks_stat st + 1)) s1) _ _ _ p
    (with_owner_task now b) (clear_bits BlkDirty) Hh1) as (s2 & -> & Hh2).
  { apply list_lookup_insert_eq. by eapply lookup_lt_Some. }
  { intros b2 Hs2. split.
    - split_and!; [done..|]. by destruct (clear_dirty_bits b2) as (-> & _).
    - unfold blk_sim in *. destruct b2. cbn in *. by injection Hs2; intros; subst. }
  bsimpl. exists s2. split; [done|]. by rewrite list_insert_insert_eq in Hh2.
Qed.

(** The block a victim becomes before it is replaced. *)
Definition cleaned (now : Z) (b : CacheBlk) : CacheBlk :=
  if isValid b && isDirty b then clear_bits BlkDirty (with_owner_task now b) else b.

Lemma cleaned_fields now b :
  isValid (cleaned now b) = isValid b /\ isTouched (cleaned now b) = isTouched b /\
  srcMasterId (cleaned now b) = srcMasterId b /\ blk_set (cleaned now b) = blk_set b /\
  (isValid b = false -> cleaned now b = b).
Proof.
  unfold cleaned. destruct (isValid b && isDirty b) eqn:E; [|by split_and!].
  apply andb_true_iff in E as [E _].
  destruct (clear_dirty_bits (with_owner_task now b)) as (-> & _ & _). split_and!; try done.
  intros E'. congruence.
Qed.

Lemma allocateBlock_ok (st : cache) l iu oc addr rnd now :
  has (cs_tags st) l iu oc -> data_wf st -> 0 <= addr -> draw_ok c rnd ->
  exists p b d st', l !! p = Some b /\ cs_data st !! p = Some d /\
    Z.of_nat (p / assoc c) = extractSet c addr /\
    allocateBlock c (fun _ _ => None) st addr rnd now =
      Ret (st', Some p, if isValid b && isDirty b then [writeback_packet c b d] else []) /\
    has (cs_tags st') (<[p:=cleaned now b]> l) iu oc /\
    cs_data st' = cs_data st /\ tempBlock st' = tempBlock st /\ tempData st' = tempData st.
Proof using OK.
  intros Hh Hdw Ha Hr.
  destruct (tpo_victim (cs_tags st) addr rnd (has_inv _ _ _ _ Hh) Ha Hr) as (p & E & Hlt & Hset).
  rewrite (has_length _ _ _ _ Hh) in Hlt. destruct (lookup_lt_is_Some_2 _ _ Hlt) as [b Hp].
  destruct (data_at _ _ _ _ _ _ Hdw Hh Hp) as (d & Hd & _).
  destruct (has_get st l iu oc p b Hh Hp) as (b' & Hg & Hs).
  pose proof (sim_fields _ _ Hs) as (Ev & _ & _ & Ed & _).
  exists p, b, d. unfold allocateBlock. rewrite E. bsimpl. rewrite Hg. bsimpl.
  rewrite <- Ev, <- Ed. unfold cleaned. destruct (isValid b) eqn:Hv; cbn [andb].
  - destruct (isDirty b) eqn:Hdi.
    + destruct (writebackBlk_ok st l iu oc p b d now Hh Hp Hv Hdi Hd) as (s' & -> & Hh').
      bsimpl. eexists. split_and!; try done.
    + exists st. split_and!; try done. by rewrite list_insert_id.
  - exists st. split_and!; try done. by rewrite list_insert_id.
Qed.

(** *** Fills *)

(** A response that brings a whole block. *)
Record fill_pkt (pkt : Packet) (d : list Z) : Prop := {
  fp_resp : cmd_isResponse (pkt_cmd pkt) = true;
  fp_read : cmd_isRead (pkt_cmd pkt) = true;
  fp_hasData : cmd_hasData (pkt_cmd pkt) = true;
  fp_size : pkt_size pkt = blkSize c;
  fp_data : pkt_data pkt = Some d;
  fp_len : Z.of_nat (length d) = blkSize c;
  fp_addr : inword 64 (pkt_addr pkt);
  fp_master : master_ok c (req_masterId (pkt_req pkt))
}.

(** The block a fill leaves behind, from the victim [b]. *)
Definition filled (pkt : Packet) (now ready : Z) (b : CacheBlk) : CacheBlk :=
  with_whenReady (fill_bits pkt (inserted c pkt now (cleaned now b))) ready.

Lemma filled_fields pkt now ready b :
  (isValid b = false -> status b = 0) ->
  status (filled pkt now ready b) = fill_status pkt /\ isValid (filled pkt now ready b) = true /\
  isSecure (filled pkt now ready b) = pkt_isSecure pkt /\
  isTouched (filled pkt now ready b) = true /\
  srcMasterId (filled pkt now ready b) = req_masterId (pkt_req pkt) /\
  tag (filled pkt now ready b) = extractTag c (pkt_addr pkt) /\
  blk_set (filled pkt now ready b) = blk_set b.
Proof.
  intros Hz. destruct (cleaned_fields now b) as (Ev & _ & _ & Es & Ec).
  set (b1 := inserted c pkt now (cleaned now b)).
  assert (E0 : status b1 = 0).
  { unfold b1, inserted. cbn. rewrite Ev. destruct (isValid b); [done|]. rewrite Ec; auto. }
  destruct (fill_bits_fresh pkt b1 E0) as (H1 & H2 & H3).
  destruct (fill_bits_fields pkt b1) as (F1 & F2 & F3 & F4 & _).
  unfold filled. fold b1. split_and!; try done. cbn. by rewrite F2.
Qed.

Lemma insert_phase (st : cache) l iu oc pkt p b now :
  has (cs_tags st) (<[p:=cleaned now b]> l) iu oc -> l !! p = Some b ->
  0 <= pkt_addr pkt -> Z.of_nat (p / assoc c) = extractSet c (pkt_addr pkt) ->
  (isValid b = true -> master_ok c (srcMasterId b)) ->
  master_ok c (req_masterId (pkt_req pkt)) ->
  exists s', tp_insertBlock c (cs_tags st) pkt p now = Ret s' /\
    has s' (<[p:=inserted c pkt now (cleaned now b)]> l) (iu + (if isTouched b then 0 else 1))
      (occ_add (req_masterId (pkt_req pkt)) 1
         (if isValid b then occ_add (srcMasterId b) (-1) oc else oc)).
Proof using OK.
  intros Hh Hp Ha Hset Hsrc Hm.
  destruct (cleaned_fields now b) as (Ev & Et & Es & _).
  destruct (has_insert (cs_tags st) (<[p:=cleaned now b]> l) iu oc pkt p (cleaned now b) now)
    as (s' & E & Hh'); try done.
  { apply list_lookup_insert_eq. by eapply lookup_lt_Some. }
  { by rewrite Ev, Es. }
  exists s'. split; [done|]. by rewrite list_insert_insert_eq, Ev, Et, Es in Hh'.
Qed.

(** Marking a block as filled: the status bits, then the time it is ready. *)
Lemma fill_marks (st : cache) l iu oc pkt p bi ready dat :
  has (cs_tags st) l iu oc -> l !! p = Some bi -> isTouched bi = true ->
  exists s3 s4, set_blk st (InTags p) (fill_bits pkt) = Ret (st_with_tags st s3) /\
    set_blk (st_with_data (st_with_tags st s3) dat) (InTags p)
      (fun b => with_whenReady b ready) =
      Ret (st_with_tags (st_with_data (st_with_tags st s3) dat) s4) /\
    has s4 (<[p:=with_whenReady (fill_bits pkt bi) ready]> l) iu oc.
Proof using OK.
  intros Hh Hp Ht. destruct (has_set st _ _ _ p bi (fill_bits pkt) Hh Hp) as (s3 & Es3 & Hh3).
  { intros b' Hs. destruct (fill_bits_fields pkt b') as (_ & F2 & _ & _ & F5).
    split; [|by apply fill_bits_sim]. split_and!; [done|done|]. intros _.
    apply sim_fields in Hs as (_ & _ & _ & _ & _ & <- & _). by rewrite Ht. }
  destruct (has_set (st_with_data (st_with_tags st s3) dat) _ _ _ p (fill_bits pkt bi)
    (fun b => with_whenReady b ready) Hh3) as (s4 & Es4 & Hh4).
  { apply list_lookup_insert_eq. by eapply lookup_lt_Some. }
  { intros b' Hs. split; [by split_and!|]. unfold blk_sim in *. destruct (fill_bits pkt bi), b'.
    cbn in *. by injection Hs; intros; subst. }
  rewrite list_insert_insert_eq in Hh4. by exists s3, s4.
Qed.

Lemma handleFill_ok lat (st : cache) pkt d rnd now edge :
  cache_inv st -> fill_pkt pkt d -> draw_ok c rnd ->
  exists p b d0 st' ready, blks (cs_base st) !! p = Some b /\ cs_data st !! p = Some d0 /\
    Z.of_nat (p / assoc c) = extractSet c (pkt_addr pkt) /\
    handleFill c lat (fun _ _ => None) st pkt None rnd now edge =
      Ret (st', InTags p, if isValid b && isDirty b then [writeback_packet c b d0] else []) /\
    has (cs_tags st') (<[p:=filled pkt now ready b]> (blks (cs_base st)))
      (tagsInUse (cs_base st) + (if isTouched b then 0 else 1))
      (occ_add (req_masterId (pkt_req pkt)) 1
         (if isValid b then occ_add (srcMasterId b) (-1) (occupancies (cs_base st))
          else occupancies (cs_base st))) /\
    cs_data st' = <[p:=d]> (cs_data st) /\ data_wf st'.
Proof using OK Hc.
  intros Hci [Hresp Hread Hhas Hsize Hdat Hlen Haddr Hm] Hr.
  pose proof (cache_inv_has st Hci) as Hh. destruct Hci as [Hi Hb Hdw].
  assert (Ha : 0 <= pkt_addr pkt) by word_lia.
  destruct (allocateBlock_ok st _ _ _ (pkt_addr pkt) rnd now Hh Hdw Ha Hr)
    as (p & b & d0 & st1 & Hp & Hd0 & Hset & Eal & Hh1 & Ed1 & Et1 & Etd1).
  destruct (insert_phase st1 _ _ _ pkt p b now Hh1 Hp Ha Hset (bi_src _ _ _ _ Hb p b Hp) Hm)
    as (s2 & Ein & Hh2).
  set (bi := inserted c pkt now (cleaned now b)) in *.
  set (ready := u64 (edge + lat * clockPeriod c + pkt_payloadDelay pkt)).
  assert (Hlt : (p < length (blks (cs_base st)))%nat) by (by eapply lookup_lt_Some).
  assert (Hld : (p < length (cs_data st))%nat) by (by eapply lookup_lt_Some).
  assert (Hl0 : Z.of_nat (length d0) = blkSize c)
    by (by apply (Forall_lookup_1 _ _ _ _ (dw_blk _ Hdw) Hd0)).
  assert (Hbi : isValid bi = false).
  { unfold bi. unfold isValid at 1. cbn [status inserted].
    destruct (isValid (cleaned now b)) eqn:E; [done|exact E]. }
  set (st2 := st_with_tags st1 s2).
  assert (Hl2 : <[p:=bi]> (blks (cs_base st)) !! p = Some bi) by (by apply list_lookup_insert_eq).
  destruct (has_get st2 _ _ _ p bi Hh2 Hl2) as (b2 & Eg2 & Hs2).
  destruct (fill_marks st2 _ _ _ pkt p bi ready (<[p:=d]> (cs_data st)) Hh2 Hl2 eq_refl)
    as (s3 & s4 & Es3 & Es4 & Hh4).
  rewrite list_insert_insert_eq in Hh4.
  set (st3 := st_with_data (st_with_tags st2 s3) (<[p:=d]> (cs_data st))) in *.
  exists p, b, d0, (st_with_tags st3 s4), ready. split_and!; try done.
  - unfold handleFill, fill_target. rewrite Hresp, Hhas, Hread. cbn [orb cassert]. bsimpl.
    rewrite Eal. bsimpl. rewrite Ein. bsimpl. fold st2. rewrite Eg2. bsimpl.
    rewrite <- (sim_valid _ _ Hs2), Hbi. cbn [negb cassert]. bsimpl. rewrite Es3. bsimpl.
    rewrite Hsize, Z.eqb_refl. cbn [cassert]. bsimpl. unfold getPtr. rewrite Hdat. bsimpl.
    rewrite mem_read_all by done. bsimpl. unfold get_data. cbn [cs_data st_with_tags st2].
    rewrite Ed1, (vread_some _ _ _ Hd0). bsimpl. rewrite mem_write_all by lia. bsimpl.
    unfold set_data. cbn [cs_data st_with_tags st2]. rewrite Ed1, vwrite_lt by done. bsimpl.
    fold ready. change (st_with_data _ _) with st3. rewrite Es4. done.
  - destruct Hdw as [Hw1 Hw2 Hw3 Hw4]. split; cbn.
    + by rewrite length_insert.
    + by apply Forall_insert.
    + by rewrite Etd1.
    + by rewrite Et1.
Qed.

Lemma cache_inv_fill (st : cache) pkt d p b now ready :
  cache_inv st -> fill_pkt pkt d -> blks (cs_base st) !! p = Some b ->
  Z.of_nat (p / assoc c) = extractSet c (pkt_addr pkt) ->
  cache_lookup st (pkt_addr pkt) (pkt_isSecure pkt) = Ret None ->
  blocks_inv c (<[p:=filled pkt now ready b]> (blks (cs_base st)))
      (tagsInUse (cs_base st) + (if isTouched b then 0 else 1))
      (occ_add (req_masterId (pkt_req pkt)) 1
         (if isValid b then occ_add (srcMasterId b) (-1) (occupancies (cs_base st))
          else occupancies (cs_base st))).
Proof using OK Hc.
  intros Hci [_ _ _ _ _ _ Ha Hm] Hp Hset Hno. pose proof (cache_inv_has st Hci) as Hh.
  destruct Hci as [Hi Hb Hdw].
  destruct (filled_fields pkt now ready b (bi_zero _ _ _ _ Hb p b Hp))
    as (F1 & F2 & F3 & F4 & F5 & F6 & F7).
  rewrite <- F5.
  apply (blocks_inv_fill c _ _ _ p b _ (pkt_addr pkt)); rewrite ?F5; try done.
  - rewrite F7, <- Hset. apply (tw_blk c (cs_base st)); [by eapply has_wf|done].
  - intros q bq Hq Hne Hsq Hvq Htq. rewrite F3, F6 in *. intros Esec.
    destruct (find_spec st _ _ _ (pkt_addr pkt) (pkt_isSecure pkt) Hh) as (r & Ef & Hr);
      [word_lia|]. unfold cache_lookup in Hno. rewrite Ef in Hno. cbn [mbind res_bind] in Hno.
    destruct r as [r|].
    + destruct Hr as (br & Hlr & _). destruct (has_get st _ _ _ r br Hh Hlr) as (b2 & Eg & _).
      rewrite Eg in Hno. cbn [mbind res_bind] in Hno.
      destruct (data_at st _ _ _ r br Hdw Hh Hlr) as (dr & Hdr & _).
      unfold get_data in Hno. by rewrite (vread_some _ _ _ Hdr) in Hno.
    + apply (Hr q bq Hq). split_and!; [lia|done..].
Qed.

(** Two addresses that a block stands for are in the same block. *)
Lemma is_for_same a a' sec sec' p b :
  inword 64 a -> inword 64 a' -> is_for a sec p b -> is_for a' sec' p b ->
  blkAlign c a = blkAlign c a' /\ sec = sec'.
Proof using Hc.
  intros Ha Ha' (E1 & _ & E2 & E3) (E1' & _ & E2' & E3'). split; [|congruence].
  rewrite <- (regenerate_extract c Hc a Ha), <- (regenerate_extract c Hc a' Ha').
  by rewrite <- E1, <- E2, <- E1', <- E2'.
Qed.

Lemma writeback_packet_fields (st : cache) l iu oc p b d a sec :
  has (cs_tags st) l iu oc -> l !! p = Some b -> inword 64 a -> is_for a sec p b ->
  let w := writeback_packet c b d in
  pkt_cmd w = Writeback /\ pkt_addr w = blkAlign c a /\ pkt_isSecure w = sec /\
  pkt_data w = Some d /\ pkt_size w = blkSize c.
Proof using OK Hc.
  intros Hh Hp Ha (E1 & _ & E2 & E3) w.
  assert (Eset : blk_set b = extractSet c a).
  { destruct (has_lookup _ _ _ _ _ _ Hh Hp) as (b' & Hb' & Hs).
    apply sim_fields in Hs as (_ & _ & _ & _ & -> & _).
    rewrite <- E1. by apply (tw_blk c _ (has_wf _ _ _ _ Hh)). }
  unfold w, writeback_packet. rewrite E2, Eset, (regenerate_extract c Hc a Ha).
  rewrite <- E3. destruct (isWritable b), (isSecure b); by split_and!.
Qed.

(** Lookups of addresses that a change of block [p] does not concern. *)
Lemma lookup_other (st st' : cache) l iu oc iu' oc' p b b' a sec :
  has (cs_tags st) l iu oc -> blocks_inv c l iu oc -> data_wf st ->
  has (cs_tags st') (<[p:=b']> l) iu' oc' -> blocks_inv c (<[p:=b']> l) iu' oc' ->
  (forall q, q <> p -> cs_data st' !! q = cs_data st !! q) ->
  l !! p = Some b -> 0 <= a -> ~ is_for a sec p b -> ~ is_for a sec p b' ->
  cache_lookup st' a sec = cache_lookup st a sec.
Proof using OK Hc.
  intros Hh Hb Hdw Hh' Hb' Hdat Hp Ha Hno Hno'.
  destruct (find_spec st l iu oc a sec Hh Ha) as (r & Ef & Hr).
  destruct r as [q|].
  - destruct Hr as (bq & Hq & Hfor).
    assert (Hne : q <> p) by (intros ->; congruence).
    destruct (data_at st _ _ _ q bq Hdw Hh Hq) as (dq & Hdq & _).
    rewrite (lookup_hit st l iu oc a sec q bq dq) by done.
    apply (lookup_hit st' (<[p:=b']> l) iu' oc' a sec q bq dq); try done.
    + by rewrite list_lookup_insert_ne.
    + by rewrite Hdat.
  - rewrite (lookup_none st l iu oc) by done.
    apply (lookup_none st' (<[p:=b']> l) iu' oc'); try done.
    intros q bq [(-> & <- & _)|[Hne Hq]]%list_lookup_insert_Some; [done|by apply Hr].
Qed.
End against_policy.

(** ** Hits *)

Section hits.
Context {S : Type} `{TP : TagPolicy S} (c : TagsConfig) (Inv : S -> Prop).
Context `{OK : !TagPolicyOk S c Inv} (Hc : config_wf c).

Abbreviation cache := (CacheState S).

(** Writing the block found through its pointer. *)
Lemma has_set_actual (st : cache) l iu oc p b b' nb nb' :
  has Inv (cs_tags st) l iu oc -> l !! p = Some b -> get_blk st (InTags p) = Ret b' ->
  client_blk b' nb' -> blk_sim nb nb' ->
  exists s', set_blk st (InTags p) (fun _ => nb') = Ret (st_with_tags st s') /\
    has Inv s' (<[p:=nb]> l) iu oc.
Proof using OK.
  intros Hh Hp Hg Hcl Hs. apply vread_Ret in Hg. unfold set_blk, cs_base in *.
  rewrite (upd_blk_spec _ p (fun _ => nb') b' Hg). bsimpl. eexists. split; [reflexivity|].
  destruct Hh as [Hi Hb Hu Ho]. split; rewrite ?tpo_base; try done.
  - by eapply (tpo_client _ p b' nb').
  - cbn. by apply Forall2_insert.
Qed.

Definition bump (b : CacheBlk) : CacheBlk := with_refCount b (refCount b + 1).

Lemma bump_sim b b' : blk_sim b b' -> blk_sim (bump b) (bump b').
Proof.
  unfold blk_sim. intros Hs. destruct b, b'. cbn in *. by injection Hs; intros; subst.
Qed.

(** [accessBlock] on a block the cache holds. *)
Lemma has_access (st : cache) l iu oc p b addr sec rd now :
  has Inv (cs_tags st) l iu oc -> blocks_inv c l iu oc -> 0 <= addr ->
  l !! p = Some b -> is_for c addr sec p b ->
  exists s' lat, tp_accessBlock c (cs_tags st) addr sec rd now = Ret (s', Some p, lat) /\
    has Inv s' (<[p:=bump b]> l) iu oc.
Proof using OK Hc.
  intros Hh Hbi Ha Hp Hfor. pose proof (has_wf c Inv _ _ _ _ Hh) as Hw.
  destruct (base_access_spec c Hc (tp_base (cs_tags st)) addr sec rd now Hw Ha)
    as (s0 & r & lat & E & Ef & Hset & Hu & Ho & Hb).
  destruct (find_spec c Inv Hc st l iu oc addr sec Hh Ha) as (r' & Ef' & Hr).
  unfold cs_base in Ef'. rewrite Ef in Ef'. injection Ef' as <-.
  destruct r as [q|]; [|by destruct (Hr p b Hp)]. destruct Hr as (bq & Hq & Hfq).
  assert (q = p) as -> by (by eapply (is_for_unique c l iu oc addr sec q p)).
  destruct (tpo_access (cs_tags st) addr sec rd now s0 (Some p) lat (has_inv _ _ _ _ _ Hh) Ha E)
    as (s' & E' & Hre & Hi').
  exists s', lat. split; [done|].
  destruct (has_lookup Inv _ _ _ _ _ _ Hh Hp) as (b' & Hb' & Hs).
  destruct Hh as [_ Hbl Hus Hoc].
  eapply has_reorder; [done|exact Hre|..].
  - rewrite Hb, (alter_as_insert _ _ _ b' Hb'). apply Forall2_insert; [done|]. by apply bump_sim.
  - by rewrite Hu.
  - by rewrite Ho.
Qed.

(** The blocks a changed block stands for. *)
Lemma is_for_keep a sec p b b' :
  isValid b' = isValid b -> tag b' = tag b -> isSecure b' = isSecure b ->
  is_for c a sec p b' <-> is_for c a sec p b.
Proof. intros E1 E2 E3. unfold is_for. by rewrite E1, E2, E3. Qed.

(** Lookups after block [p] has changed its status or its data. *)
Lemma lookup_update (st st' : cache) l iu oc iu' oc' p b b' d' a sec :
  has Inv (cs_tags st) l iu oc -> blocks_inv c l iu oc -> data_wf c st ->
  has Inv (cs_tags st') (<[p:=b']> l) iu' oc' -> blocks_inv c (<[p:=b']> l) iu' oc' ->
  cs_data st' = <[p:=d']> (cs_data st) -> l !! p = Some b ->
  isValid b' = isValid b -> tag b' = tag b -> isSecure b' = isSecure b -> 0 <= a ->
  cache_lookup c st' a sec =
  if decide (is_for c a sec p b) then Ret (Some (status b', d')) else cache_lookup c st a sec.
Proof using OK Hc.
  intros Hh Hb Hdw Hh' Hb' Hdat Hp E1 E2 E3 Ha. case_decide as Hf.
  - destruct (data_at c Inv st _ _ _ p b Hdw Hh Hp) as (d & Hd & _).
    eapply (lookup_hit c Inv Hc st' _ _ _ _ _ p b'); try done.
    + apply list_lookup_insert_eq. by eapply lookup_lt_Some.
    + by apply (is_for_keep a sec p b b').
    + rewrite Hdat. apply list_lookup_insert_eq. by eapply lookup_lt_Some.
  - eapply (lookup_other c Inv Hc st st' _ _ _ _ _ p b b'); try done.
    + intros q Hq. rewrite Hdat. by rewrite list_lookup_insert_ne.
    + by rewrite (is_for_keep a sec p b b').
Qed.

Lemma blkOffset_range (pkt : Packet) :
  inword 64 (pkt_addr pkt) -> 0 <= getOffset pkt (blkSize c) < blkSize c.
Proof using Hc.
  intros Ha. destruct (cw_blk _ Hc) as (kb & Hkb & -> & _).
  unfold getOffset. replace (2 ^ kb - 1) with (Z.ones kb) by (rewrite Z.ones_equiv; lia).
  rewrite Z.land_ones by lia. apply Z.mod_pos_bound, pow2_pos. lia.
Qed.

(** A request for part of a block, satisfied by the block found. *)
Record cpu_pkt (pkt : Packet) (d : list Z) : Prop := {
  cp_cache : req_isUncacheable (pkt_req pkt) = false;
  cp_master : master_ok c (req_masterId (pkt_req pkt));
  cp_addr : inword 64 (pkt_addr pkt);
  cp_size : 0 < pkt_size pkt < blkSize c;
  cp_fit : getOffset pkt (blkSize c) + pkt_size pkt <= blkSize c;
  cp_data : pkt_data pkt = Some d;
  cp_len : Z.of_nat (length d) = pkt_size pkt
}.

Lemma satisfy_read (st : cache) l iu oc pkt p b dat d now :
  has Inv (cs_tags st) l iu oc -> l !! p = Some b -> isValid b = true ->
  cs_data st !! p = Some dat -> Z.of_nat (length dat) = blkSize c ->
  pkt_cmd pkt = ReadReq -> cpu_pkt pkt d -> forall top,
  exists pkt' d', satisfyCpuSideRequest c top st pkt (InTags p) false false now = Ret (st, pkt') /\
    pkt_cmd pkt' = ReadReq /\ pkt_data pkt' = Some d' /\ Z.of_nat (length d') = pkt_size pkt /\
    forall i, 0 <= i < pkt_size pkt ->
      d' !! Z.to_nat i = dat !! Z.to_nat (getOffset pkt (blkSize c) + i).
Proof using OK Hc.
  intros Hh Hp Hv Hdat Hld Hcmd [_ _ Ha Hsz Hfit Hpd Hpl] top.
  pose proof (blkOffset_range pkt Ha) as Ho.
  destruct (has_get Inv st l iu oc p b Hh Hp) as (b' & Hg & Hs).
  unfold satisfyCpuSideRequest, pkt_isLLSC. rewrite Hcmd.
  change (cmd_isRequest ReadReq) with true. change (bool_decide (ReadReq = SwapReq)) with false.
  change (cmd_isWrite ReadReq) with false. change (cmd_isRead ReadReq) with true.
  change (cmd_isLLSC ReadReq) with false. cbn [andb cassert]. bsimpl. rewrite Hg. bsimpl.
  rewrite <- (sim_valid _ _ Hs), Hv. cbn [cassert]. bsimpl.
  rewrite cassert_true by (by apply Z.leb_le). bsimpl.
  unfold get_data. rewrite (vread_some _ _ _ Hdat). bsimpl.
  unfold setDataFromBlock, setData, getPtr. rewrite Hpd. bsimpl.
  destruct (mem_read_spec dat (getOffset pkt (blkSize c)) (pkt_size pkt)) as (bytes & -> & Hlb & Hb);
    [lia..|]. bsimpl. rewrite mem_write_all by lia. bsimpl. cbn [pkt_size with_data].
  destruct (Z.eqb_spec (pkt_size pkt) (blkSize c)); [lia|].
  eexists _, bytes. split_and!; done.
Qed.

(** The block after a store: its reservations on the written range are gone,
    and it is dirty. *)
Definition stored (req : Request) (b : CacheBlk) : CacheBlk :=
  set_bits BlkDirty (clearLoadLocks b (Some req)).

Lemma stored_fields req b :
  isValid (stored req b) = isValid b /\ tag (stored req b) = tag b /\
  isSecure (stored req b) = isSecure b /\ isTouched (stored req b) = isTouched b /\
  blk_set (stored req b) = blk_set b /\ srcMasterId (stored req b) = srcMasterId b /\
  status (stored req b) = Z.lor (status b) BlkDirty.
Proof.
  unfold stored. split_and!; try done.
  - by apply (isValid_set_bits BlkDirty (clearLoadLocks b (Some req))).
  - unfold isSecure, set_bits. cbn. rewrite Z.land_lor_distr_l. by rewrite Z.lor_0_r.
Qed.

Lemma satisfy_write (st : cache) l iu oc pkt p b dat d now :
  has Inv (cs_tags st) l iu oc -> l !! p = Some b -> isValid b = true -> isWritable b = true ->
  cs_data st !! p = Some dat -> Z.of_nat (length dat) = blkSize c ->
  pkt_cmd pkt = WriteReq -> cpu_pkt pkt d -> forall top,
  exists s' dat' pkt',
    satisfyCpuSideRequest c top st pkt (InTags p) false false now =
      Ret (st_with_tags (st_with_data st (<[p:=dat']> (cs_data st))) s', pkt') /\
    pkt_cmd pkt' = WriteReq /\ has Inv s' (<[p:=stored (pkt_req pkt) b]> l) iu oc /\ length dat' = length dat /\
    forall i, 0 <= i ->
      dat' !! Z.to_nat i =
      if decide (getOffset pkt (blkSize c) <= i < getOffset pkt (blkSize c) + pkt_size pkt)
      then d !! Z.to_nat (i - getOffset pkt (blkSize c)) else dat !! Z.to_nat i.
Proof using OK Hc.
  intros Hh Hp Hv Hwr Hdat Hld Hcmd [_ _ Ha Hsz Hfit Hpd Hpl] top.
  pose proof (blkOffset_range pkt Ha) as Ho.
  destruct (has_get Inv st l iu oc p b Hh Hp) as (b' & Hg & Hs).
  pose proof (sim_fields _ _ Hs) as (Ev & _ & _ & _ & _ & _ & _ & Ew & _).
  unfold satisfyCpuSideRequest, checkWrite, pkt_isLLSC. rewrite Hcmd.
  change (cmd_isRequest WriteReq) with true. change (bool_decide (WriteReq = SwapReq)) with false.
  change (cmd_isWrite WriteReq) with true. change (cmd_isWriteInvalidate WriteReq) with false.
  change (cmd_isLLSC WriteReq) with false. cbn [negb orb andb cassert]. bsimpl. rewrite Hg. bsimpl.
  rewrite <- Ev, <- Ew, Hv, Hwr. cbn [cassert]. bsimpl.
  rewrite cassert_true by (by apply Z.leb_le). bsimpl.
  destruct (has_set_actual st l iu oc p b b' (clearLoadLocks b (Some (pkt_req pkt)))
    (clearLoadLocks b' (Some (pkt_req pkt))) Hh Hp Hg) as (s1 & -> & Hh1).
  { by split_and!. }
  { unfold blk_sim in *. destruct b, b'. cbn in *. by injection Hs; intros; subst. }
  bsimpl. unfold get_data. cbn [cs_data st_with_tags]. rewrite (vread_some _ _ _ Hdat). bsimpl.
  unfold writeDataToBlock, writeData, getPtr. cbn [pkt_data with_req pkt_size].
  rewrite Hpd. bsimpl. rewrite mem_read_all by done. bsimpl.
  change (getOffset (with_req pkt (pkt_req pkt)) (blkSize c)) with (getOffset pkt (blkSize c)).
  destruct (mem_write_spec dat (getOffset pkt (blkSize c)) d) as (dat' & -> & Hl' & Hd'); [lia..|].
  bsimpl. unfold set_data. cbn [cs_data st_with_tags].
  rewrite vwrite_lt by (by eapply lookup_lt_Some). bsimpl.
  edestruct (has_set c Inv (st_with_data (st_with_tags st s1) (<[p:=dat']> (cs_data st)))
    _ _ _ p (clearLoadLocks b (Some (pkt_req pkt))) (set_bits BlkDirty) Hh1) as (s2 & -> & Hh2).
  { apply list_lookup_insert_eq. by eapply lookup_lt_Some. }
  { intros b2 Hs2. split.
    - split_and!; [done..|]. by rewrite isValid_set_bits.
    - unfold blk_sim in *. destruct b2. cbn in *. by injection Hs2; intros; subst. }
  rewrite list_insert_insert_eq in Hh2. bsimpl.
  exists s2, dat'. eexists. split_and!; try done. intros i Hi. rewrite Hd', Hpl by done. done.
Qed.

Lemma lookup_inv (st : cache) addr sec v dat :
  cache_inv c Inv st -> 0 <= addr -> cache_lookup c st addr sec = Ret (Some (v, dat)) ->
  exists p b, blks (cs_base st) !! p = Some b /\ is_for c addr sec p b /\ status b = v /\
    cs_data st !! p = Some dat /\ Z.of_nat (length dat) = blkSize c.
Proof using OK Hc.
  intros Hci Ha El. pose proof (cache_inv_has c Inv st Hci) as Hh.
  destruct (find_spec c Inv Hc st _ _ _ addr sec Hh Ha) as (r & Ef & Hr).
  unfold cache_lookup in El. rewrite Ef in El. cbn [mbind res_bind] in El.
  destruct r as [p|]; [|done]. destruct Hr as (b & Hp & Hfor).
  destruct (data_at c Inv st _ _ _ p b (ci_data _ _ _ Hci) Hh Hp) as (d & Hd & Hl).
  exists p, b. unfold get_blk, get_data in El.
  rewrite (vread_some _ _ _ Hp), (vread_some _ _ _ Hd) in El. cbn in El.
  injection El as <- <-. by split_and!.
Qed.
End hits.
