(* ===== verification/CacheSpec.v ===== *)
(** * What the cache guarantees, for every tag policy

    The theorems are proved once, against the interface [TagPolicyOk]; the
    witnesses instantiate them with the LRU store.  [cache_lookup] is the
    abstract view of the cache: the status and the data of the block that holds
    an address. *)

From S2P Require Import Prelude IntMath Packet CacheBlk TagStore SatCounter LruTags Cache.
Local Open Scope Z_scope.

Definition dirty_status (v : Z) : bool := negb (Z.land v BlkDirty =? 0).

Section spec.
Context {S : Type} `{TP : TagPolicy S} (c : TagsConfig) (Inv : S -> Prop).
Context `{OK : !TagPolicyOk S c Inv} (Hc : config_wf c).

Abbreviation cache := (CacheState S).

(** A fill of a missing block, and where it leaves the block. *)
Lemma fill_present lat (st : cache) pkt d rnd now edge :
  cache_inv c Inv st -> fill_pkt c pkt d -> draw_ok c rnd ->
  cache_lookup c st (pkt_addr pkt) (pkt_isSecure pkt) = Ret None ->
  exists p b d0 st' ready iu oc,
    blks (cs_base st) !! p = Some b /\ cs_data st !! p = Some d0 /\
    handleFill c lat (fun _ _ => None) st pkt None rnd now edge =
      Ret (st', InTags p, if isValid b && isDirty b then [writeback_packet c b d0] else []) /\
    has Inv (cs_tags st') (<[p:=filled c pkt now ready b]> (blks (cs_base st))) iu oc /\
    blocks_inv c (<[p:=filled c pkt now ready b]> (blks (cs_base st))) iu oc /\
    is_for c (pkt_addr pkt) (pkt_isSecure pkt) p (filled c pkt now ready b) /\
    cs_data st' = <[p:=d]> (cs_data st) /\ cache_inv c Inv st' /\
    cache_lookup c st' (pkt_addr pkt) (pkt_isSecure pkt) = Ret (Some (fill_status pkt, d)).
Proof using OK Hc.
  intros Hci Hfp Hr Hno. pose proof (cache_inv_has c Inv st Hci) as Hh.
  destruct (handleFill_ok c Inv Hc lat st pkt d rnd now edge Hci Hfp Hr)
    as (p & b & d0 & st' & ready & Hp & Hd0 & Hset & E & Hh' & Hdat & Hdw').
  pose proof (cache_inv_fill c Inv Hc st pkt d p b now ready Hci Hfp Hp Hset Hno) as Hb'.
  destruct (filled_fields c pkt now ready b (bi_zero _ _ _ _ (ci_blks _ _ _ Hci) p b Hp))
    as (F1 & F2 & F3 & _ & _ & F6 & _).
  exists p, b, d0, st', ready. eexists _, _. split_and!; try done.
  - by eapply has_cache_inv.
  - rewrite <- F1. eapply (lookup_hit c Inv Hc st' _ _ _ _ _ p); try done.
    + pose proof (fp_addr _ _ _ Hfp). word_lia.
    + apply list_lookup_insert_eq. by eapply lookup_lt_Some.
    + rewrite Hdat. apply list_lookup_insert_eq. by eapply lookup_lt_Some.
Qed.

(** A fill of a missing block: the block it leaves, and every other address. *)
Lemma fill_lookups lat (st : cache) pkt d rnd now edge :
  cache_inv c Inv st -> fill_pkt c pkt d -> draw_ok c rnd ->
  cache_lookup c st (pkt_addr pkt) (pkt_isSecure pkt) = Ret None ->
  exists p b d0 st' ready iu oc,
    blks (cs_base st) !! p = Some b /\ cs_data st !! p = Some d0 /\
    handleFill c lat (fun _ _ => None) st pkt None rnd now edge =
      Ret (st', InTags p, if isValid b && isDirty b then [writeback_packet c b d0] else []) /\
    has Inv (cs_tags st') (<[p:=filled c pkt now ready b]> (blks (cs_base st))) iu oc /\
    blocks_inv c (<[p:=filled c pkt now ready b]> (blks (cs_base st))) iu oc /\
    is_for c (pkt_addr pkt) (pkt_isSecure pkt) p (filled c pkt now ready b) /\
    cs_data st' = <[p:=d]> (cs_data st) /\ cache_inv c Inv st' /\
    cache_lookup c st' (pkt_addr pkt) (pkt_isSecure pkt) = Ret (Some (fill_status pkt, d)) /\
    forall a sec, inword 64 a ->
      blkAlign c a <> blkAlign c (pkt_addr pkt) \/ sec <> pkt_isSecure pkt ->
      cache_lookup c st' a sec = cache_lookup c st a sec /\ ~ is_for c a sec p b \/
      cache_lookup c st a sec = Ret (Some (status b, d0)) /\ cache_lookup c st' a sec = Ret None /\
        is_for c a sec p b /\
        (let w := writeback_packet c b d0 in
         pkt_cmd w = Writeback /\ pkt_addr w = blkAlign c a /\ pkt_isSecure w = sec /\ pkt_data w = Some d0 /\ pkt_size w = blkSize c).
Proof using OK Hc.
  intros Hci Hfp Hr Hno. pose proof (cache_inv_has c Inv st Hci) as Hh.
  destruct (fill_present lat st pkt d rnd now edge Hci Hfp Hr Hno)
    as (p & b & d0 & st' & ready & iu & oc & Hp & Hd0 & E & Hh' & Hb' & Hfor & Hdat & Hci' & El).
  pose proof (ci_blks _ _ _ Hci) as Hb. pose proof (ci_data _ _ _ Hci) as Hdw.
  pose proof (fp_addr _ _ _ Hfp) as Ha. set (bf := filled c pkt now ready b) in *.
  exists p, b, d0, st', ready, iu, oc. split_and!; try done.
  intros a sec Haw Hne.
  assert (Hnf : ~ is_for c a sec p bf).
  { intros Hfor'. destruct (is_for_same c Hc _ _ _ _ _ _ Ha Haw Hfor Hfor'). naive_solver. }
  destruct (decide (is_for c a sec p b)) as [Hfa|Hfa].
  - right. split_and!.
    + eapply (lookup_hit c Inv Hc st); try done. word_lia.
    + eapply (lookup_none c Inv Hc st'); [done|word_lia|].
      intros q bq [(-> & <- & _)|[Hq Hlq]]%list_lookup_insert_Some; [done|].
      intros Hfq. apply Hq. by eapply (is_for_unique c _ _ _ a sec p q b bq).
    + done.
    + by apply (writeback_packet_fields c Inv Hc st _ _ _ p b d0 a sec Hh).
  - left. split; [|done]. eapply (lookup_other c Inv Hc st st' _ _ _ _ _ p b bf); try done; [|word_lia].
    intros q Hq. rewrite Hdat. by rewrite list_lookup_insert_ne.
Qed.


(** The status bits an access needs. *)
Definition readable_status (v : Z) : Prop :=
  Z.land v (Z.lor BlkReadable BlkValid) = Z.lor BlkReadable BlkValid.
Definition writable_status (v : Z) : Prop :=
  Z.land v (Z.lor BlkWritable BlkValid) = Z.lor BlkWritable BlkValid.

(** The first half of an access that hits: the block, found and usable. *)
Lemma access_found (st : cache) pkt d v dat now :
  cache_inv c Inv st -> cpu_pkt c pkt d ->
  cache_lookup c st (pkt_addr pkt) (pkt_isSecure pkt) = Ret (Some (v, dat)) ->
  exists p b s1 lat,
    blks (cs_base st) !! p = Some b /\ is_for c (pkt_addr pkt) (pkt_isSecure pkt) p b /\
    status b = v /\ cs_data st !! p = Some dat /\ Z.of_nat (length dat) = blkSize c /\
    tp_accessBlock c (cs_tags st) (pkt_addr pkt) (pkt_isSecure pkt)
      (cmd_isRead (pkt_cmd pkt)) now = Ret (s1, Some p, lat) /\
    has Inv s1 (<[p:=bump b]> (blks (cs_base st))) (tagsInUse (cs_base st))
      (occupancies (cs_base st)) /\
    blocks_inv c (<[p:=bump b]> (blks (cs_base st))) (tagsInUse (cs_base st))
      (occupancies (cs_base st)).
Proof using OK Hc.
  intros Hci Hcp El. pose proof (cache_inv_has c Inv st Hci) as Hh.
  assert (Ha : 0 <= pkt_addr pkt) by (pose proof (cp_addr _ _ _ Hcp); word_lia).
  destruct (lookup_inv c Inv Hc st _ _ v dat Hci Ha El) as (p & b & Hp & Hf & Hv & Hd & Hl).
  pose proof (ci_blks _ _ _ Hci) as Hb.
  destruct (has_access c Inv Hc st _ _ _ p b (pkt_addr pkt) (pkt_isSecure pkt)
    (cmd_isRead (pkt_cmd pkt)) now Hh Hb Ha Hp Hf) as (s1 & lat & E1 & Hh1).
  exists p, b, s1, lat. split_and!; try done.
  apply (blocks_inv_keep c _ _ _ p b); try done. by destruct Hf as (_ & ? & _).
Qed.

(** A load that hits.  A read of part of a readable block is satisfied, its
    payload is the requested bytes of the block, there is no writeback, and
    every address is looked up as before. *)
Theorem access_read_hit top lkup fm (st : cache) pkt d v dat rnd now :
  cache_inv c Inv st -> pkt_cmd pkt = ReadReq -> cpu_pkt c pkt d ->
  cache_lookup c st (pkt_addr pkt) (pkt_isSecure pkt) = Ret (Some (v, dat)) ->
  readable_status v ->
  exists r d', access c top lkup fm st pkt rnd now = Ret r /\
    ar_satisfied r = true /\ ar_writebacks r = [] /\ hits (ar_state r) = hits st + 1 /\
    pkt_cmd (ar_pkt r) = ReadReq /\ pkt_data (ar_pkt r) = Some d' /\ Z.of_nat (length d') = pkt_size pkt /\
    (forall i, 0 <= i < pkt_size pkt ->
       d' !! Z.to_nat i = dat !! Z.to_nat (getOffset pkt (blkSize c) + i)) /\
    cache_inv c Inv (ar_state r) /\
    forall a sec, 0 <= a -> cache_lookup c (ar_state r) a sec = cache_lookup c st a sec.
Proof using OK Hc.
  intros Hci Hcmd Hcp El Hrd.
  destruct (access_found st pkt d v dat now Hci Hcp El)
    as (p & b & s1 & lat & Hp & Hf & Hv & Hd & Hl & E1 & Hh1 & Hb1).
  pose proof (cache_inv_has c Inv st Hci) as Hh. pose proof (ci_blks _ _ _ Hci) as Hb.
  assert (Hlt : (p < length (blks (cs_base st)))%nat) by (by eapply lookup_lt_Some).
  assert (Hp1 : <[p:=bump b]> (blks (cs_base st)) !! p = Some (bump b))
    by (by apply list_lookup_insert_eq).
  set (st1 := st_with_hits (st_with_tags st s1) (hits st + 1) (misses st)).
  destruct (satisfy_read c Inv Hc st1 _ _ _ pkt p (bump b) dat d now Hh1 Hp1
    (proj1 (proj2 Hf)) Hd Hl Hcmd Hcp top) as (pkt' & d' & Es & Hpc & Hpd & Hld & Hbytes).
  destruct (has_get Inv st1 _ _ _ p (bump b) Hh1 Hp1) as (b1 & Hg1 & Hs1).
  assert (Hr1 : isReadable b1 = true).
  { apply sim_fields in Hs1 as (_ & _ & _ & _ & _ & _ & _ & _ & <- & _).
    unfold isReadable. cbn [bump status with_refCount]. rewrite Hv, Hrd. done. }
  assert (Hmst : (req_masterId (pkt_req pkt) <? Z.of_nat (maxMasters c)) = true).
  { pose proof (cp_master _ _ _ Hcp) as Hm. unfold master_ok in Hm. apply Z.ltb_lt. lia. }
  assert (Hdw1 : data_wf c st1) by (by destruct (ci_data _ _ _ Hci)).
  exists (mkAccessResult st1 pkt' (Some p) lat true []), d'. split_and!; try done.
  - unfold access. rewrite Hcmd in E1 |- *. change (cmd_isRequest ReadReq) with true.
    change (bool_decide (ReadReq = Writeback)) with false.
    change (cmd_needsExclusive ReadReq) with false. cbn [cassert]. bsimpl.
    rewrite (cp_cache _ _ _ Hcp), E1. bsimpl. change (get_blk (st_with_tags st s1) (InTags p))
      with (get_blk st1 (InTags p)). rewrite Hg1. bsimpl. rewrite Hr1.
    unfold incHitCount. rewrite Hmst. cbn [cassert]. bsimpl.
    change (st_with_hits _ _ _) with st1. rewrite Es. done.
  - by apply (has_cache_inv c Inv st1 _ _ _ Hh1 Hb1).
  - intros a sec Ha. cbn [ar_state].
    rewrite (lookup_update c Inv Hc st st1 _ _ _ _ _ p b (bump b) dat a sec Hh Hb
      (ci_data _ _ _ Hci) Hh1 Hb1) by (done || by rewrite list_insert_id).
    case_decide as Hfa; [|done]. symmetry.
    by apply (lookup_hit c Inv Hc st _ _ _ a sec p b dat Hh Hb).
Qed.

(** A store that hits. *)
Lemma store_hit top lkup fm (st : cache) pkt d v dat rnd now :
  cache_inv c Inv st -> pkt_cmd pkt = WriteReq -> cpu_pkt c pkt d ->
  cache_lookup c st (pkt_addr pkt) (pkt_isSecure pkt) = Ret (Some (v, dat)) ->
  writable_status v ->
  exists r dat', access c top lkup fm st pkt rnd now = Ret r /\
    ar_satisfied r = true /\ ar_writebacks r = [] /\ pkt_cmd (ar_pkt r) = WriteReq /\ cache_inv c Inv (ar_state r) /\
    cache_lookup c (ar_state r) (pkt_addr pkt) (pkt_isSecure pkt) =
      Ret (Some (Z.lor v BlkDirty, dat')) /\
    (forall i, 0 <= i ->
       dat' !! Z.to_nat i =
       if decide (getOffset pkt (blkSize c) <= i < getOffset pkt (blkSize c) + pkt_size pkt)
       then d !! Z.to_nat (i - getOffset pkt (blkSize c)) else dat !! Z.to_nat i) /\
    forall a sec, inword 64 a ->
      blkAlign c a <> blkAlign c (pkt_addr pkt) \/ sec <> pkt_isSecure pkt ->
      cache_lookup c (ar_state r) a sec = cache_lookup c st a sec.
Proof using OK Hc.
  intros Hci Hcmd Hcp El Hwr. pose proof (cp_addr _ _ _ Hcp) as Haw.
  destruct (access_found st pkt d v dat now Hci Hcp El)
    as (p & b & s1 & lat & Hp & Hf & Hv & Hd & Hl & E1 & Hh1 & Hb1).
  pose proof (cache_inv_has c Inv st Hci) as Hh. pose proof (ci_blks _ _ _ Hci) as Hb.
  assert (Hlt : (p < length (blks (cs_base st)))%nat) by (by eapply lookup_lt_Some).
  assert (Hp1 : <[p:=bump b]> (blks (cs_base st)) !! p = Some (bump b))
    by (by apply list_lookup_insert_eq).
  assert (Hvb : isValid (bump b) = true) by (exact (proj1 (proj2 Hf))).
  assert (Hwb : isWritable (bump b) = true).
  { unfold isWritable. cbn [bump status with_refCount]. by rewrite Hv, Hwr. }
  set (st1 := st_with_hits (st_with_tags st s1) (hits st + 1) (misses st)).
  destruct (satisfy_write c Inv Hc st1 _ _ _ pkt p (bump b) dat d now Hh1 Hp1 Hvb Hwb Hd Hl Hcmd
    Hcp top) as (s2 & dat' & pkt' & Es & Hpc & Hh2 & Hld & Hbytes).
  rewrite list_insert_insert_eq in Hh2.
  destruct (stored_fields (pkt_req pkt) (bump b)) as (F1 & F2 & F3 & F4 & F5 & F6 & F7).
  set (bs := stored (pkt_req pkt) (bump b)) in *.
  set (st2 := st_with_tags (st_with_data st1 (<[p:=dat']> (cs_data st))) s2).
  assert (Hb2 : blocks_inv c (<[p:=bs]> (blks (cs_base st))) (tagsInUse (cs_base st))
                  (occupancies (cs_base st))).
  { by apply (blocks_inv_keep c _ _ _ p b). }
  destruct (has_get Inv st1 _ _ _ p (bump b) Hh1 Hp1) as (b1 & Hg1 & Hs1).
  assert (Hw1 : isWritable b1 = true).
  { by apply sim_fields in Hs1 as (_ & _ & _ & _ & _ & _ & _ & <- & _). }
  assert (Hmst : (req_masterId (pkt_req pkt) <? Z.of_nat (maxMasters c)) = true).
  { pose proof (cp_master _ _ _ Hcp) as Hm. unfold master_ok in Hm. apply Z.ltb_lt. lia. }
  assert (Hlook : forall a sec, 0 <= a -> cache_lookup c st2 a sec =
    if decide (is_for c a sec p b) then Ret (Some (status bs, dat')) else cache_lookup c st a sec).
  { intros a sec Ha. by apply (lookup_update c Inv Hc st st2 _ _ _ _ _ p b bs dat' a sec Hh Hb
      (ci_data _ _ _ Hci) Hh2 Hb2). }
  exists (mkAccessResult st2 pkt' (Some p) lat true []), dat'. split_and!; try done.
  - unfold access. rewrite Hcmd in E1 |- *. change (cmd_isRequest WriteReq) with true.
    change (bool_decide (WriteReq = Writeback)) with false.
    change (cmd_needsExclusive WriteReq) with true. cbn [cassert]. bsimpl.
    rewrite (cp_cache _ _ _ Hcp), E1. bsimpl. change (get_blk (st_with_tags st s1) (InTags p))
      with (get_blk st1 (InTags p)). rewrite Hg1. bsimpl. rewrite Hw1.
    unfold incHitCount. rewrite Hmst. cbn [cassert]. bsimpl.
    change (st_with_hits _ _ _) with st1. rewrite Es. done.
  - apply (has_cache_inv c Inv st2 _ _ _ Hh2 Hb2). destruct (ci_data _ _ _ Hci) as [W1 W2 W3 W4].
    split; cbn; [by rewrite length_insert|apply Forall_insert; [done|lia]|done|done].
  - cbn [ar_state]. rewrite Hlook, decide_True by (done || word_lia). rewrite F7. cbn. by rewrite Hv.
  - intros a sec Ha Hne. cbn [ar_state]. rewrite Hlook by word_lia. case_decide as Hfa; [|done].
    destruct (is_for_same c Hc _ _ _ _ _ _ Haw Ha Hf Hfa). naive_solver.
Qed.

(** A store that hits.  A write to part of a writable block is satisfied:
    afterwards the block holds the payload at its offset and the old bytes
    elsewhere and is dirty, and every address of another block is looked up as
    before.  No writeback is needed. *)
Theorem access_write_hit top lkup fm (st : cache) pkt d v dat rnd now :
  cache_inv c Inv st -> pkt_cmd pkt = WriteReq -> cpu_pkt c pkt d ->
  cache_lookup c st (pkt_addr pkt) (pkt_isSecure pkt) = Ret (Some (v, dat)) ->
  writable_status v ->
  exists r dat', access c top lkup fm st pkt rnd now = Ret r /\
    ar_satisfied r = true /\ ar_writebacks r = [] /\ cache_inv c Inv (ar_state r) /\
    cache_lookup c (ar_state r) (pkt_addr pkt) (pkt_isSecure pkt) =
      Ret (Some (Z.lor v BlkDirty, dat')) /\
    (forall i, 0 <= i ->
       dat' !! Z.to_nat i =
       if decide (getOffset pkt (blkSize c) <= i < getOffset pkt (blkSize c) + pkt_size pkt)
       then d !! Z.to_nat (i - getOffset pkt (blkSize c)) else dat !! Z.to_nat i) /\
    forall a sec, inword 64 a ->
      blkAlign c a <> blkAlign c (pkt_addr pkt) \/ sec <> pkt_isSecure pkt ->
      cache_lookup c (ar_state r) a sec = cache_lookup c st a sec.
Proof using OK Hc.
  intros H1 H2 H3 H4 H5. destruct (store_hit top lkup fm st pkt d v dat rnd now H1 H2 H3 H4 H5) as (r & dat' & Er & Es & Ew & _ & Hr).
  by exists r, dat'.
Qed.
End spec.

(** ** Witnesses: an LRU cache of 1 KiB *)

Lemma empty_blocks_inv c l n :
  Forall (fun b => isValid b = false /\ isTouched b = false /\ status b = 0) l ->
  maxMasters c = n -> blocks_inv c l 0 (replicate n 0).
Proof.
  intros Hl <-. assert (Hat : forall p b, l !! p = Some b ->
    isValid b = false /\ isTouched b = false /\ status b = 0) 
    by (intros p b Hb; exact (Forall_lookup_1 _ _ _ _ Hl Hb)).
  assert (Hcnt : forall P, (forall b, P b = true -> isValid b = true) -> cnt P l = 0).
  { intros P HP. unfold cnt. clear Hat. induction Hl as [|b l (Hb & _) _ IH]; [done|]. cbn.
    destruct (P b) eqn:E; [|done]. apply HP in E. congruence. }
  split.
  - intros p b (E & _)%Hat. congruence.
  - intros p b (E & _)%Hat. congruence.
  - intros p b (E & E' & _)%Hat. congruence.
  - by intros p b (_ & _ & E)%Hat.
  - intros p q b b' (E & _)%Hat. congruence.
  - symmetry. by apply Hcnt.
  - intros m Hm. rewrite lookup_replicate_2 by done. f_equal. symmetry. apply Hcnt.
    intros b E. unfold owned_by in E. by apply andb_true_iff in E as [E _].
Qed.

Definition demo_cache : CacheState TagsState :=
  Cache_new small_state 0 (replicate 16 (replicate 64 0)) (replicate 64 0) 0.

Lemma demo_cache_inv : cache_inv small_config (tags_wf small_config) demo_cache.
Proof.
  destruct small_wf as (Hc & Hs & Hinv). split.
  - exact Hs.
  - apply empty_blocks_inv; [|reflexivity]. apply (bool_decide_unpack _). vm_compute. exact Logic.I.
  - split; try reflexivity. apply (bool_decide_unpack _). vm_compute. exact Logic.I.
Qed.

Definition demo_line : list Z := replicate 64 7.

(** The response to a read of the block at 0x40. *)
Definition demo_fill : Packet :=
  with_data (Packet_new (mkRequest 0 0x40 64 1 5 0 0) ReadResp) demo_line [].

Lemma demo_fill_pkt : fill_pkt small_config demo_fill demo_line.
Proof. split; try reflexivity; unfold inword, master_ok; cbn; lia. Qed.


(** A cache that holds the block. *)
Lemma demo_filled :
  exists st, cache_inv small_config (tags_wf small_config) st /\
    cache_lookup small_config st 0x40 false = Ret (Some (7, demo_line)).
Proof.
  destruct small_wf as (Hc & _ & _). pose proof (LRU_ok small_config Hc) as OK.
  destruct (fill_present small_config (tags_wf small_config) Hc 2 demo_cache demo_fill
    demo_line 0 100 100) as (p & b & d0 & st & r & iu & oc & _ & _ & _ & _ & _ & _ & _ & Hi & El).
  - exact demo_cache_inv.
  - exact demo_fill_pkt.
  - unfold draw_ok. cbn. lia.
  - vm_compute. reflexivity.
  - by exists st.
Qed.

Definition demo_cpu (cmd : Command) (d : list Z) : Packet :=
  with_data (Packet_new (mkRequest 0 0x48 4 1 5 0 0) cmd) d [].

Lemma demo_cpu_pkt cmd d : length d = 4%nat -> cpu_pkt small_config (demo_cpu cmd d) d.
Proof.
  intros Hd. split; try reflexivity; try (unfold inword, master_ok; cbn; lia).
  - by vm_compute.
Qed.

Lemma access_read_hit_witness :
  exists (st : CacheState TagsState) r d', access small_config true 2 (fun _ _ => None) st
      (demo_cpu ReadReq [0; 0; 0; 0]) 0 200 = Ret r /\
    pkt_data (ar_pkt r) = Some d' /\ d' !! 0%nat = Some 7.
Proof.
  destruct small_wf as (Hc & _ & _). pose proof (LRU_ok small_config Hc) as OK.
  destruct demo_filled as (st & Hi & El).
  destruct (access_read_hit small_config (tags_wf small_config) Hc true 2 (fun _ _ => None) st
    (demo_cpu ReadReq [0; 0; 0; 0]) [0; 0; 0; 0] 7 demo_line 0 200)
    as (r & d' & E & _ & _ & _ & _ & Hd & _ & Hb & _); [exact Hi|reflexivity|by apply demo_cpu_pkt| | |].
  - exact El.
  - reflexivity.
  - exists st, r, d'. split; [exact E|]. split; [exact Hd|]. exact (Hb 0 ltac:(cbn; lia)).
Defined.

Lemma access_write_hit_witness :
  exists (st : CacheState TagsState) r dat', access small_config true 2 (fun _ _ => None) st
      (demo_cpu WriteReq [1; 2; 3; 4]) 0 200 = Ret r /\
    cache_lookup small_config (ar_state r) 0x48 false = Ret (Some (15, dat')) /\
    dat' !! 9%nat = Some 2.
Proof.
  destruct small_wf as (Hc & _ & _). pose proof (LRU_ok small_config Hc) as OK.
  destruct demo_filled as (st & Hi & El).
  destruct (access_write_hit small_config (tags_wf small_config) Hc true 2 (fun _ _ => None) st
    (demo_cpu WriteReq [1; 2; 3; 4]) [1; 2; 3; 4] 7 demo_line 0 200)
    as (r & dat' & E & _ & _ & _ & Hl & Hb & _); [exact Hi|reflexivity|by apply demo_cpu_pkt| | |].
  - exact El.
  - reflexivity.
  - exists st, r, dat'. split; [exact E|]. split; [exact Hl|]. exact (Hb 9 ltac:(lia)).
Defined.

(** ** Flushing the whole cache *)

Section flush.
Context {S : Type} `{TP : TagPolicy S} (c : TagsConfig) (Inv : S -> Prop).
Context `{OK : !TagPolicyOk S c Inv} (Hc : config_wf c).

Abbreviation cache := (CacheState S).

(** The functional write for a dirty block. *)
Definition flush_packet (b : CacheBlk) (d : list Z) : Packet :=
  with_data (Packet_new (mkRequest (-1) (regenerateBlkAddr c (tag b) (blk_set b)) (blkSize c)
    funcMasterId (task_id b) 0 0) WriteReq) d [].

Definition flushed (b : CacheBlk) : CacheBlk := if isDirty b then clear_bits BlkDirty b else b.

Lemma flushed_fields b :
  isValid (flushed b) = isValid b /\ isSecure (flushed b) = isSecure b /\
  isDirty (flushed b) = false /\ tag (flushed b) = tag b /\ blk_set (flushed b) = blk_set b /\
  srcMasterId (flushed b) = srcMasterId b /\ isTouched (flushed b) = isTouched b.
Proof.
  unfold flushed. destruct (isDirty b) eqn:E; [|by split_and!].
  destruct (clear_dirty_bits b) as (? & ? & ?). by split_and!.
Qed.

Lemma dirty_valid l iu oc p b :
  blocks_inv c l iu oc -> l !! p = Some b -> isDirty b = true -> isValid b = true.
Proof.
  intros Hb Hp E. destruct (isValid b) eqn:Hv; [done|].
  pose proof (bi_zero _ _ _ _ Hb p b Hp Hv) as E0. unfold isDirty in E. by rewrite E0 in E.
Qed.

(** A valid block is the one for some address. *)
Lemma valid_for (st : cache) p b :
  cache_inv c Inv st -> blks (cs_base st) !! p = Some b -> isValid b = true ->
  exists a, inword 64 a /\ is_for c a (isSecure b) p b.
Proof using OK.
  intros Hci Hp Hv. destruct (bi_addr _ _ _ _ (ci_blks _ _ _ Hci) p b Hp Hv) as (a & Ha & Et & Es).
  exists a. split; [done|]. split_and!; try done. rewrite <- Es. symmetry.
  by apply (tw_blk c _ (has_wf c Inv _ _ _ _ (cache_inv_has c Inv st Hci))).
Qed.

Lemma writebackVisitor_ok (st : cache) l iu oc p b d :
  has Inv (cs_tags st) l iu oc -> blocks_inv c l iu oc -> l !! p = Some b ->
  cs_data st !! p = Some d ->
  exists s', writebackVisitor c st p =
      Ret (st_with_tags st s', if isDirty b then [flush_packet b d] else []) /\
    has Inv s' (<[p:=flushed b]> l) iu oc /\ blocks_inv c (<[p:=flushed b]> l) iu oc.
Proof using OK.
  intros Hh Hb Hp Hd. unfold writebackVisitor.
  destruct (has_get Inv st l iu oc p b Hh Hp) as (b' & -> & Hs). bsimpl.
  pose proof (sim_fields _ _ Hs) as (Ev & Et & Ese & Ed & Eset & _ & _ & Ew & _ & Etask & _).
  rewrite <- Ed. destruct (isDirty b) eqn:E.
  - pose proof (dirty_valid l iu oc p b Hb Hp E) as Hv.
    rewrite <- Ev, Hv. cbn [cassert]. bsimpl. unfold get_data.
    rewrite (vread_some _ _ _ Hd). bsimpl.
    destruct (has_set c Inv st l iu oc p b (clear_bits BlkDirty) Hh Hp) as (s' & -> & Hh').
    { intros b2 Hs2. split.
      - split_and!; [done..|]. by destruct (clear_dirty_bits b2) as (-> & _).
      - unfold blk_sim in *. destruct b, b2. cbn in *. by injection Hs2; intros; subst. }
    bsimpl. exists s'. unfold flushed, flush_packet. rewrite E, <- Et, <- Eset, <- Etask.
    split; [done|]. split; [done|]. destruct (clear_dirty_bits b) as (F1 & F2 & F3).
    apply (blocks_inv_keep c l iu oc p b); try done.
  - exists (cs_tags st). unfold flushed. rewrite E, (list_insert_id l p b Hp).
    split; [|done]. by destruct st.
Qed.

Lemma memWriteback_loop_ok n : forall i (st : cache) l iu oc,
  has Inv (cs_tags st) l iu oc -> blocks_inv c l iu oc -> data_wf c st ->
  (i + n <= length l)%nat ->
  exists s' l' ws, memWriteback_loop c st n i = Ret (st_with_tags st s', ws) /\
    has Inv s' l' iu oc /\ blocks_inv c l' iu oc /\
    (forall p, l' !! p = if decide (i <= p < i + n)%nat then flushed <$> l !! p else l !! p) /\
    (forall w, w ∈ ws <-> exists p b d, (i <= p < i + n)%nat /\ l !! p = Some b /\
       cs_data st !! p = Some d /\ isDirty b = true /\ w = flush_packet b d).
Proof using OK.
  induction n as [|n IH]; intros i st l iu oc Hh Hb Hd Hn.
  - exists (cs_tags st), l, []. cbn. split_and!; try done; [by destruct st|..].
    + intros p. by rewrite decide_False by lia.
    + intros w. split; [by intros ?%not_elem_of_nil|]. intros (p & b & d & ? & _). lia.
  - destruct (lookup_lt_is_Some_2 l i ltac:(lia)) as [b Hp].
    destruct (data_at c Inv st l iu oc i b Hd Hh Hp) as (d & Hdp & _).
    destruct (writebackVisitor_ok st l iu oc i b d Hh Hb Hp Hdp) as (s1 & E1 & Hh1 & Hb1).
    assert (Hd1 : data_wf c (st_with_tags st s1)) by (by destruct Hd).
    destruct (IH (Datatypes.S i) (st_with_tags st s1) _ iu oc Hh1 Hb1 Hd1) as
      (s2 & l2 & ws & E2 & Hh2 & Hb2 & Hl2 & Hws); [rewrite length_insert; lia|].
    exists s2, l2. eexists. cbn [memWriteback_loop]. rewrite E1. bsimpl. rewrite E2. bsimpl.
    split; [done|]. split; [done|]. split; [done|]. split.
    + intros p. rewrite Hl2. destruct (decide (p = i)) as [->|Hne].
      * rewrite decide_False, decide_True by lia. rewrite Hp.
        apply list_lookup_insert_eq. by eapply lookup_lt_Some.
      * rewrite list_lookup_insert_ne by done. by repeat case_decide; try lia.
    + intros w. rewrite elem_of_app, Hws. cbn [cs_data st_with_tags]. split.
      * intros [Hin|(p & b2 & d2 & Hr & Hl & ?)].
        -- destruct (isDirty b) eqn:E; [|by apply not_elem_of_nil in Hin].
           apply list_elem_of_singleton in Hin as ->. exists i, b, d. split_and!; try done; lia.
        -- rewrite list_lookup_insert_ne in Hl by lia. exists p, b2, d2. split; [lia|done].
      * intros (p & b2 & d2 & Hr & Hl & Hd2 & Hdirty & ->). destruct (decide (p = i)) as [->|Hne].
        -- left. simplify_eq. rewrite Hdirty. by apply list_elem_of_singleton.
        -- right. exists p, b2, d2. rewrite list_lookup_insert_ne by done. split; [lia|done].
Qed.

Lemma isDirty_loop_false l :
  (forall p b, l !! p = Some b -> isDirty b = false) -> isDirty_loop l = false.
Proof.
  induction l as [|b l IH]; intros H; [done|]. cbn. rewrite (H 0%nat b) by done.
  apply IH. intros p b' Hp. by apply (H (Datatypes.S p)).
Qed.

Lemma flush_packet_fields (st : cache) l iu oc p b d a sec :
  has Inv (cs_tags st) l iu oc -> l !! p = Some b -> inword 64 a -> is_for c a sec p b ->
  pkt_addr (flush_packet b d) = blkAlign c a.
Proof using OK Hc.
  intros Hh Hp Ha Hf.
  destruct (writeback_packet_fields c Inv Hc st l iu oc p b d a sec Hh Hp Ha Hf)
    as (_ & E & _). rewrite <- E. unfold writeback_packet. by destruct (isWritable b).
Qed.

End flush.

