(* ===== verification/CacheAtomic.v ===== *)
(** * Requests and snoops of a cache: [mem/cache/cache_impl.hh]

    Atomic requests from above with the packet a miss sends below, and snoops from
    below in atomic mode.  What lies below is a state of any type and an operation
    that sends an atomic packet to it; what lies above answers forwarded snoops.  The value of [clockEdge], the random draw of a victim,
    the header delay and the contents of freshly allocated payloads are arguments.
    Tracing, the energy model and the deletion of packets are left out. *)

From S2P Require Import Prelude IntMath AddrRange Packet CacheBlk TagStore Cache.
Local Open Scope Z_scope.

Definition BLOCK_CACHED : Z := 0x00010000.
Definition COPY_FLAGS : Z := 0x0000000F.
Definition setBlockCached (p : Packet) : Packet := with_flags p (Z.lor (pkt_flags p) BLOCK_CACHED).
Definition isBlockCached (p : Packet) : bool := isSet (pkt_flags p) BLOCK_CACHED.
Definition setExpressSnoop (p : Packet) : Packet := with_flags p (Z.lor (pkt_flags p) EXPRESS_SNOOP).

(** [Packet(pkt, clear_flags, alloc_data)] of a packet without static data, with the
    payload allocated. *)
Definition copy_packet (p : Packet) (clear_flags : bool) (data : option (list Z)) : Packet :=
  mkPacket (pkt_cmd p) (pkt_req p) (pkt_addr p) (pkt_isSecure p) (pkt_size p) data
    (Z.lor (if clear_flags then 0 else Z.land (pkt_flags p) COPY_FLAGS) (Z.land (pkt_flags p) (Z.lor VALID_ADDR VALID_SIZE)))
    (pkt_payloadDelay p) (bytesValid p) InvalidCmd.

Definition copyError (p q : Packet) : res Packet :=
  _ ← cassert (cmd_isError (pkt_cmd q));
  Ret (with_cmd p (pkt_cmd q)).

(** The parameters of a cache that these operations use. *)
Record CacheParams := mkCacheParams {
  cp_top : bool;           (* isTopLevel *)
  lookupLatency : Z;
  fillLatency : Z;
  forwardLatency : Z;
  doFastWrites : bool;
  forwardSnoops : bool;
  cacheBypass : bool;      (* system->bypassCaches() *)
  addrRanges : list AddrRange
}.

(** The values an operation draws from its surroundings: the tick, the clock edge, the
    victim drawn and the contents of allocated payloads. *)
Record Env := mkEnv { ev_now : Z; ev_edge : Z; ev_rnd : Z; ev_junk : list Z }.

Section cache.
Context {S : Type} `{TagPolicy S} (c : TagsConfig) (P : CacheParams).

Abbreviation cache := (CacheState S).

Definition blockAlign (addr : Z) : Z := Z.land addr (wnot 64 (blkSize c - 1)).

Fixpoint in_ranges (rs : list AddrRange) (addr : Z) : bool :=
  match rs with
  | [] => false
  | r :: rs => if contains r addr then true else in_ranges rs addr
  end.
Definition inRange (addr : Z) : bool := in_ranges (addrRanges P) addr.

Definition promoteWholeLineWrites (pkt : Packet) : res Packet :=
  if doFastWrites P && bool_decide (pkt_cmd pkt = WriteReq) && (pkt_size pkt =? blkSize c) && (getOffset pkt (blkSize c) =? 0) then
    _ ← cassert (cp_top P);
    Ret (with_cmd pkt WriteInvalidateReq)
  else Ret pkt.

(** The packet that a miss sends below; [None] when the request itself goes on. *)
Definition getBusPacket (st : cache) (cpu_pkt : Packet) (blk : option nat) (needsExclusive : bool) (junk : list Z) : res (option Packet) :=
  b ← match blk with Some p => b ← get_blk st (InTags p); Ret (Some b) | None => Ret None end;
  let blkValid := match b with Some b => isValid b | None => false end in
  if req_isUncacheable (pkt_req cpu_pkt) then Ret None
  else if negb blkValid && (bool_decide (pkt_cmd cpu_pkt = Writeback) || cmd_isUpgrade (pkt_cmd cpu_pkt)) then Ret None
  else
    _ ← cassert (cmd_needsResponse (pkt_cmd cpu_pkt));
    cmd ←
      (if blkValid then
         _ ← cassert needsExclusive;
         _ ← cassert (match b with Some b => negb (isWritable b) | None => true end);
         Ret (if pkt_isLLSC cpu_pkt then SCUpgradeReq else UpgradeReq)
       else if bool_decide (pkt_cmd cpu_pkt = SCUpgradeFailReq) || bool_decide (pkt_cmd cpu_pkt = StoreCondFailReq)
       then Ret SCUpgradeFailReq
       else if cmd_isWriteInvalidate (pkt_cmd cpu_pkt) then Ret (pkt_cmd cpu_pkt)
       else Ret (if needsExclusive then ReadExReq else ReadReq));
    let pkt := Packet_new_blk (pkt_req cpu_pkt) cmd (blkSize c) in
    let pkt := if sharedAsserted cpu_pkt then assertShared pkt else pkt in
    _ ← cassert (pkt_addr pkt =? blockAlign (pkt_addr pkt));
    Ret (Some (with_data pkt junk (bytesValid pkt))).

(** ** Atomic requests *)

Section below.
Context {W : Type} (sendAtomic : W -> Packet -> res (W * Packet * Z)).

Fixpoint send_writebacks (w : W) (wbs : list Packet) : res W :=
  match wbs with
  | [] => Ret w
  | p :: wbs => '(w, _, _) ← sendAtomic w p; send_writebacks w wbs
  end.

(** A request that a cache above answers: it only invalidates. *)
Definition recv_inhibited (w : W) (st : cache) (pkt : Packet) (e : Env) : res (W * cache * Packet * Z) :=
  if cmd_isInvalidate (pkt_cmd pkt) then
    blk ← BaseSetAssoc_findBlock c (cs_base st) (pkt_addr pkt) (pkt_isSecure pkt);
    st ← match blk with
         | None => Ret st
         | Some p => b ← get_blk st (InTags p); if isValid b then drop_blk c st p (ev_now e) else Ret st
         end;
    '(w, pkt, l) ← sendAtomic w pkt;
    n ← ticksToCycles c l;
    Ret (w, st, pkt, u64 (u64 (lookupLatency P + n) * clockPeriod c))
  else Ret (w, st, pkt, u64 (lookupLatency P * clockPeriod c)).

(** The response to a request that the cache sent for a miss: the request is satisfied
    from the block filled. *)
Definition atomic_response (st : cache) (pkt bus_pkt : Packet) (blk : option nat) (e : Env) : res (cache * Packet * list Packet) :=
  let noMatch := fun _ _ => None in
  if cmd_needsResponse (pkt_cmd pkt) then
    _ ← cassert (cmd_isResponse (pkt_cmd bus_pkt));
    if cmd_isError (pkt_cmd bus_pkt) then
      pkt ← makeResponse pkt;
      pkt ← copyError pkt bus_pkt;
      Ret (st, pkt, [])
    else if cmd_isWriteInvalidate (pkt_cmd pkt) then
      if cp_top P then
        '(st, r, wbs) ← handleFill c (fillLatency P) noMatch st pkt blk (ev_rnd e) (ev_now e) (ev_edge e);
        '(st, pkt) ← satisfyCpuSideRequest c (cp_top P) st pkt r false false (ev_now e);
        Ret (st, pkt, wbs)
      else
        match blk with
        | Some p => '(st, pkt) ← satisfyCpuSideRequest c (cp_top P) st pkt (InTags p) false false (ev_now e); Ret (st, pkt, [])
        | None => Ret (st, pkt, [])
        end
    else if cmd_isRead (pkt_cmd bus_pkt) || bool_decide (pkt_cmd bus_pkt = UpgradeResp) then
      '(st, r, wbs) ← handleFill c (fillLatency P) noMatch st bus_pkt blk (ev_rnd e) (ev_now e) (ev_edge e);
      '(st, pkt) ← satisfyCpuSideRequest c (cp_top P) st pkt r false false (ev_now e);
      Ret (st, pkt, wbs)
    else
      pkt ← makeResponse pkt;
      Ret (st, pkt, [])
  else Ret (st, pkt, []).

(** The miss branch: the request or a packet of the cache's own goes below. *)
Definition atomic_miss (w : W) (st : cache) (pkt : Packet) (blk : option nat) (lat : Z) (e : Env)
    : res (W * cache * Packet * Z * list Packet) :=
  bus ← getBusPacket st pkt blk (cmd_needsExclusive (pkt_cmd pkt)) (ev_junk e);
  '(w, bus_pkt, l) ← sendAtomic w (default pkt bus);
  n ← ticksToCycles c l;
  let lat := u64 (lat + n) in
  match bus with
  | None => Ret (w, st, bus_pkt, lat, [])
  | Some _ => '(st, pkt, wbs) ← atomic_response st pkt bus_pkt blk e; Ret (w, st, pkt, lat, wbs)
  end.

(** The state below, the cache, the packet and the latency in ticks.  In bypass mode
    the code returns the number of cycles. *)
Definition recvAtomic (w : W) (st : cache) (pkt : Packet) (e : Env) : res (W * cache * Packet * Z) :=
  if cacheBypass P then
    '(w, pkt, l) ← sendAtomic w pkt;
    n ← ticksToCycles c l;
    Ret (w, st, pkt, n)
  else
    pkt ← promoteWholeLineWrites pkt;
    if memInhibitAsserted pkt then recv_inhibited w st pkt e
    else
      a ← access c (cp_top P) (lookupLatency P) (fun _ _ => None) st pkt (ev_rnd e) (ev_now e);
      w ← send_writebacks w (ar_writebacks a);
      '(w, st, pkt, lat, wbs) ←
        (if negb (ar_satisfied a) then atomic_miss w (ar_state a) (ar_pkt a) (ar_blk a) (ar_lat a) e
         else Ret (w, ar_state a, ar_pkt a, ar_lat a, []));
      w ← send_writebacks w wbs;
      pkt ← (if cmd_needsResponse (pkt_cmd pkt) then makeResponse pkt else Ret pkt);
      Ret (w, st, pkt, u64 (lat * clockPeriod c)).
End below.

(** ** Snoops *)

(** The packet and the response scheduled, with its tick. *)
Definition doTimingSupplyResponse (req_pkt : Packet) (blk_data : list Z) (already_copied pending_inval : bool) (headerDelay : Z) (e : Env)
    : res (Packet * (Packet * Z)) :=
  _ ← cassert (cmd_isRequest (pkt_cmd req_pkt));
  _ ← cassert (cmd_needsResponse (pkt_cmd req_pkt));
  let pkt := if already_copied then req_pkt
             else copy_packet req_pkt false (if cmd_isRead (pkt_cmd req_pkt) then Some (ev_junk e) else None) in
  _ ← cassert (req_isUncacheable (pkt_req req_pkt) || cmd_isInvalidate (pkt_cmd req_pkt) || sharedAsserted pkt);
  pkt ← makeResponse pkt;
  pkt ← (if cmd_isRead (pkt_cmd pkt) then setDataFromBlock pkt blk_data (blkSize c) else Ret pkt);
  let pkt := if bool_decide (pkt_cmd pkt = ReadResp) && pending_inval then with_cmd pkt ReadRespWithInvalidate else pkt in
  let pkt := with_payloadDelay pkt 0 in
  Ret (if already_copied then pkt else req_pkt, (pkt, u64 (ev_edge e + forwardLatency P * clockPeriod c + headerDelay))).

(** The snoop is passed on to the caches above. *)
Definition forward_snoop (is_timing : bool) (up : Packet -> Packet) (pkt : Packet) (junk : list Z) : res Packet :=
  if forwardSnoops P then
    let alreadyResponded := memInhibitAsserted pkt in
    if is_timing then
      let snoopPkt := up (with_payloadDelay (setExpressSnoop (copy_packet pkt true (Some junk))) 0) in
      pkt ← (if memInhibitAsserted snoopPkt then _ ← cassert (negb alreadyResponded); assertMemInhibit pkt else Ret pkt);
      let pkt := if sharedAsserted snoopPkt then assertShared pkt else pkt in
      Ret (if isBlockCached snoopPkt then setBlockCached pkt else pkt)
    else
      let pkt := up pkt in
      _ ← (if negb alreadyResponded && memInhibitAsserted pkt then cassert (cmd_isResponse (pkt_cmd pkt)) else Ret tt);
      Ret pkt
  else Ret pkt.

(** A read that does not invalidate makes the block shared. *)
Definition snoop_share (st : cache) (r : blkref) (pkt : Packet) (invalidate needs_exclusive : bool) : res (cache * Packet) :=
  if negb (req_isUncacheable (pkt_req pkt)) && cmd_isRead (pkt_cmd pkt) && negb invalidate then
    _ ← cassert (negb needs_exclusive);
    st ← set_blk st r (clear_bits BlkWritable);
    Ret (st, assertShared pkt)
  else Ret (st, pkt).

(** The owner answers. *)
Definition snoop_respond (st : cache) (r : blkref) (pkt : Packet) (is_timing is_deferred pending_inval have_exclusive : bool) (headerDelay : Z) (e : Env)
    : res (Packet * list (Packet * Z)) :=
  pkt ← assertMemInhibit pkt;
  let pkt := if have_exclusive then setSupplyExclusive pkt else pkt in
  d ← get_data st r;
  if is_timing then
    '(pkt, x) ← doTimingSupplyResponse pkt d is_deferred pending_inval headerDelay e;
    Ret (pkt, [x])
  else
    pkt ← makeResponse pkt;
    pkt ← setDataFromBlock pkt d (blkSize c);
    Ret (pkt, []).

(** The cache, the packet, and the responses scheduled. *)
Definition handleSnoop (st : cache) (pkt : Packet) (blk : option blkref) (is_timing is_deferred pending_inval : bool)
    (up : Packet -> Packet) (headerDelay : Z) (e : Env) : res (cache * Packet * list (Packet * Z)) :=
  _ ← cassert (negb (is_deferred && negb is_timing));
  _ ← cassert (negb (pending_inval && negb is_deferred));
  _ ← cassert (cmd_isRequest (pkt_cmd pkt));
  let invalidate := cmd_isInvalidate (pkt_cmd pkt) in
  let needs_exclusive := cmd_needsExclusive (pkt_cmd pkt) in
  pkt ← forward_snoop is_timing up pkt (ev_junk e);
  match blk with
  | None => Ret (st, pkt, [])
  | Some r =>
      b ← get_blk st r;
      if negb (isValid b) then Ret (st, pkt, [])
      else
        let respond := isDirty b && cmd_needsResponse (pkt_cmd pkt) && negb (cmd_isWriteInvalidate (pkt_cmd pkt)) in
        let have_exclusive := isWritable b in
        if bool_decide (pkt_cmd pkt = HardPFReq) then Ret (st, setBlockCached pkt, [])
        else
          '(st, pkt) ← snoop_share st r pkt invalidate needs_exclusive;
          '(pkt, sched) ← (if respond then snoop_respond st r pkt is_timing is_deferred pending_inval have_exclusive headerDelay e
                           else Ret (pkt, []));
          _ ← (if negb respond && is_timing && is_deferred then cassert (cmd_needsResponse (pkt_cmd pkt)) else Ret tt);
          st ← (if invalidate then
                  match r with
                  | InTags p => drop_blk c st p (ev_now e)
                  | Temp => set_blk st Temp CacheBlk_invalidate
                  end
                else Ret st);
          Ret (st, pkt, sched)
  end.

(** The cache, the packet and the latency. *)
Definition recvAtomicSnoop (st : cache) (pkt : Packet) (up : Packet -> Packet) (e : Env) : res (cache * Packet * Z) :=
  _ ← cassert (negb (cacheBypass P));
  if bool_decide (pkt_cmd pkt = Writeback) || negb (inRange (pkt_addr pkt)) then Ret (st, pkt, 0)
  else
    blk ← BaseSetAssoc_findBlock c (cs_base st) (pkt_addr pkt) (pkt_isSecure pkt);
    '(st, pkt, _) ← handleSnoop st pkt (InTags <$> blk) false false false up 0 e;
    Ret (st, pkt, u64 (forwardLatency P * clockPeriod c)).
End cache.
