(* ===== verification/CacheAtomicSpec.v ===== *)
(** * What atomic requests and snoops do to the contents of a cache

    For every tag policy, in terms of what the cache holds for each block: its status
    and its data.  Blocks are numbered by their address over the block size. *)

From S2P Require Import Prelude IntMath AddrRange Packet CacheBlk TagStore SatCounter LruTags Cache CacheSpec CacheAtomic.
Local Open Scope Z_scope.

(** ** Status bits *)

Definition st_valid (v : Z) : bool := negb (Z.land v BlkValid =? 0).
Definition st_writable (v : Z) : bool := Z.land v (Z.lor BlkWritable BlkValid) =? Z.lor BlkWritable BlkValid.
Definition st_readable (v : Z) : bool := Z.land v (Z.lor BlkReadable BlkValid) =? Z.lor BlkReadable BlkValid.
Definition unwritable (v : Z) : Z := Z.land v (wnot 32 BlkWritable).

Section spec.
Context {S : Type} `{TP : TagPolicy S} (c : TagsConfig) (Inv : S -> Prop).
Context `{OK : !TagPolicyOk S c Inv} (Hc : config_wf c).
Context (P : CacheParams).

Abbreviation cache := (CacheState S).

(** ** Blocks by number *)

Definition block (a : Z) : Z := a / blkSize c.

Lemma blkSize_pos : 4 <= blkSize c < 2 ^ 32.
Proof using Hc.
  destruct (cw_blk _ Hc) as (kb & Hkb & -> & _). split.
  - change 4 with (2 ^ 2). apply Z.pow_le_mono_r; lia.
  - apply Z.pow_lt_mono_r; lia.
Qed.

Lemma blkAlign_block a : inword 64 a -> blkAlign c a = block a * blkSize c.
Proof using Hc.
  intros Ha. rewrite blkAlign_eq by done. pose proof blkSize_pos. unfold block.
  pose proof (Z.div_mod a (blkSize c)). lia.
Qed.

Lemma blockAlign_align a : blockAlign c a = blkAlign c a.
Proof using Hc. unfold blockAlign, blkAlign. by destruct (cw_blk _ Hc) as (kb & _ & -> & _ & ->). Qed.

Lemma block_mul n : block (n * blkSize c) = n.
Proof using Hc. unfold block. apply Z.div_mul. pose proof blkSize_pos. lia. Qed.

Lemma extract_block a a' : block a = block a' -> extractSet c a = extractSet c a' /\ extractTag c a = extractTag c a'.
Proof using Hc.
  intros E. rewrite !extractSet_eq, !extractTag_eq by done. pose proof blkSize_pos. destruct (cw_sets _ Hc) as (ks & Hks & Hn & _).
  assert (0 < Z.of_nat (numSets c)) by (rewrite Hn; apply pow2_pos; lia).
  rewrite <- !Z.div_div by lia. unfold block in E. by rewrite E.
Qed.

Lemma lookup_block (st : cache) a a' sec : block a = block a' -> cache_lookup c st a sec = cache_lookup c st a' sec.
Proof using Hc. intros [E1 E2]%extract_block. unfold cache_lookup, BaseSetAssoc_findBlock. by rewrite E1, E2. Qed.

Lemma is_for_addr a a' sec p b : block a = block a' -> is_for c a sec p b -> is_for c a' sec p b.
Proof using Hc. intros [E1 E2]%extract_block. unfold is_for. by rewrite E1, E2. Qed.

(** The block numbers of 64-bit addresses. *)
Definition num_ok (n : Z) : Prop := 0 <= n /\ n * blkSize c < 2 ^ 64.

Lemma num_ok_block a : inword 64 a -> num_ok (block a).
Proof using Hc.
  intros [Ha Hb]. pose proof blkSize_pos. unfold num_ok, block. split; [apply Z.div_pos; lia|].
  pose proof (Z.mul_div_le a (blkSize c)). lia.
Qed.

Lemma num_ok_word n : num_ok n -> inword 64 (n * blkSize c).
Proof using Hc. intros [H1 H2]. pose proof blkSize_pos. split; [nia|done]. Qed.

(** What a cache holds for block [n]. *)
Definition holds (st : cache) (sec : bool) (n : Z) (o : option (Z * list Z)) : Prop := cache_lookup c st (n * blkSize c) sec = Ret o.

Lemma holds_lookup (st : cache) sec a o : holds st sec (block a) o <-> cache_lookup c st a sec = Ret o.
Proof using Hc. unfold holds. rewrite (lookup_block st (block a * blkSize c) a) by apply block_mul. done. Qed.

Lemma holds_fun (st : cache) sec n o o' : holds st sec n o -> holds st sec n o' -> o = o'.
Proof. unfold holds. congruence. Qed.

Lemma holds_total (st : cache) sec n : cache_inv c Inv st -> num_ok n -> exists o, holds st sec n o.
Proof using OK Hc.
  intros Hci Hn. pose proof (cache_inv_has c Inv st Hci) as Hh. unfold holds, cache_lookup.
  destruct (find_spec c Inv Hc st _ _ _ (n * blkSize c) sec Hh) as (r & -> & Hr); [by apply num_ok_word|]. bsimpl.
  destruct r as [p|]; [|by eexists]. destruct Hr as (b & Hp & _). unfold get_blk, get_data. rewrite (vread_some _ _ _ Hp). bsimpl.
  destruct (data_at c Inv st _ _ _ p b (ci_data _ _ _ Hci) Hh Hp) as (d & Hd & _). rewrite (vread_some _ _ _ Hd). bsimpl. by eexists.
Qed.

(** The block of the tag store behind it. *)
Lemma holds_inv (st : cache) sec n v d : cache_inv c Inv st -> num_ok n -> holds st sec n (Some (v, d)) ->
  exists p b, BaseSetAssoc_findBlock c (cs_base st) (n * blkSize c) sec = Ret (Some p) /\ blks (cs_base st) !! p = Some b /\
    is_for c (n * blkSize c) sec p b /\ status b = v /\ cs_data st !! p = Some d /\ Z.of_nat (length d) = blkSize c.
Proof using OK Hc.
  intros Hci Hn El. pose proof (cache_inv_has c Inv st Hci) as Hh. pose proof (num_ok_word n Hn) as [Ha _].
  destruct (lookup_inv c Inv Hc st _ _ v d Hci Ha El) as (p & b & Hp & Hf & Hv & Hd & Hl).
  exists p, b. split_and!; try done. destruct (find_spec c Inv Hc st _ _ _ (n * blkSize c) sec Hh Ha) as (r & Ef & Hr).
  rewrite Ef. destruct r as [q|]; [|by destruct (Hr p b Hp)]. destruct Hr as (b2 & Hq & Hf2).
  by rewrite (is_for_unique c _ _ _ _ _ q p b2 b (ci_blks _ _ _ Hci) Hq Hp Hf2 Hf).
Qed.

Lemma holds_none (st : cache) sec n : cache_inv c Inv st -> num_ok n -> holds st sec n None ->
  BaseSetAssoc_findBlock c (cs_base st) (n * blkSize c) sec = Ret None.
Proof using OK Hc.
  intros Hci Hn El. pose proof (cache_inv_has c Inv st Hci) as Hh. pose proof (num_ok_word n Hn) as [Ha _].
  unfold holds, cache_lookup in El. destruct (find_spec c Inv Hc st _ _ _ (n * blkSize c) sec Hh Ha) as (r & Ef & Hr). rewrite Ef in El |- *.
  destruct r as [p|]; [|done]. cbn [mbind res_bind] in El. destruct Hr as (b & Hp & _). unfold get_blk, get_data in El.
  rewrite (vread_some _ _ _ Hp) in El. cbn [mbind res_bind] in El.
  destruct (data_at c Inv st _ _ _ p b (ci_data _ _ _ Hci) Hh Hp) as (d & Hd & _). by rewrite (vread_some _ _ _ Hd) in El.
Qed.

(** Two blocks by their addresses. *)
Lemma is_for_block n n' sec sec' p b : num_ok n -> num_ok n' -> is_for c (n * blkSize c) sec p b -> is_for c (n' * blkSize c) sec' p b ->
  n = n' /\ sec = sec'.
Proof using Hc.
  intros Hn Hn' H H'. destruct (is_for_same c Hc _ _ _ _ _ _ (num_ok_word n Hn) (num_ok_word n' Hn') H H') as [E ->]. split; [|done].
  rewrite !blkAlign_block, !block_mul in E by (by apply num_ok_word). pose proof blkSize_pos. nia.
Qed.

(** ** Changes of one block *)

(** The cache after the contents of block [n] have become [o]. *)
Definition changed (st st' : cache) (sec : bool) (n : Z) (o : option (Z * list Z)) : Prop :=
  cache_inv c Inv st' /\
  forall n' sec' o', num_ok n' -> holds st' sec' n' o' <-> if decide (n' = n /\ sec' = sec) then o' = o else holds st sec' n' o'.

Definition unchanged (st st' : cache) : Prop :=
  cache_inv c Inv st' /\ forall n sec o, num_ok n -> holds st' sec n o <-> holds st sec n o.

Lemma unchanged_refl st : cache_inv c Inv st -> unchanged st st.
Proof. by split. Qed.
Lemma changed_unchanged st st' st'' sec n o : changed st st' sec n o -> unchanged st' st'' -> changed st st'' sec n o.
Proof. intros [_ H] [Hc' H']. split; [done|]. intros n' s' o' Hn. by rewrite H', H. Qed.
Lemma unchanged_changed st st' st'' sec n o : unchanged st st' -> changed st' st'' sec n o -> changed st st'' sec n o.
Proof. intros [_ H] [Hc' H']. split; [done|]. intros n' s' o' Hn. rewrite H' by done. case_decide; [done|]. by rewrite H. Qed.
Lemma unchanged_trans st st' st'' : unchanged st st' -> unchanged st' st'' -> unchanged st st''.
Proof. intros [_ H] [Hc' H']. split; [done|]. intros n s o Hn. by rewrite H', H. Qed.
Lemma changed_changed st st' st'' sec n o o' : changed st st' sec n o -> changed st' st'' sec n o' -> changed st st'' sec n o'.
Proof. intros [_ H] [Hc' H']. split; [done|]. intros n' s o'' Hn. rewrite H' by done. case_decide; [done|]. rewrite H by done. by rewrite decide_False. Qed.
Lemma changed_at st st' sec n o : changed st st' sec n o -> num_ok n -> holds st' sec n o.
Proof. intros [_ H] Hn. apply H; [done|]. by rewrite decide_True. Qed.
Lemma changed_other st st' sec n o n' sec' o' : changed st st' sec n o -> num_ok n' -> n' <> n \/ sec' <> sec -> holds st' sec' n' o' <-> holds st sec' n' o'.
Proof. intros [_ H] Hn Hne. rewrite H by done. rewrite decide_False; [done|]. tauto. Qed.

Lemma changed_block (st st' : cache) sec n p b b' d d' iu oc : cache_inv c Inv st -> num_ok n ->
  blks (cs_base st) !! p = Some b -> is_for c (n * blkSize c) sec p b -> cs_data st !! p = Some d ->
  has Inv (cs_tags st') (<[p:=b']> (blks (cs_base st))) iu oc -> blocks_inv c (<[p:=b']> (blks (cs_base st))) iu oc -> data_wf c st' ->
  cs_data st' = <[p:=d']> (cs_data st) ->
  isValid b' = isValid b -> tag b' = tag b -> isSecure b' = isSecure b ->
  changed st st' sec n (Some (status b', d')).
Proof using OK Hc.
  intros Hci Hn Hp Hf Hd Hh' Hb' Hdw' Hdat E1 E2 E3. split; [by eapply has_cache_inv|].
  intros n' sec' o' Hn'. unfold holds. pose proof (num_ok_word n' Hn') as [Ha _].
  rewrite (lookup_update c Inv Hc st st' _ _ _ _ _ p b b' d' (n' * blkSize c) sec' (cache_inv_has c Inv st Hci) (ci_blks _ _ _ Hci) (ci_data _ _ _ Hci) Hh' Hb') by done.
  destruct (decide (n' = n /\ sec' = sec)) as [[-> ->]|Hne].
  - rewrite decide_True by done. split; [by intros [= <-]|by intros ->].
  - rewrite decide_False; [done|]. intros Hf'. apply Hne. exact (is_for_block n' n sec' sec p b Hn' Hn Hf' Hf).
Qed.

Lemma drop_changed (st : cache) sec n p b now : cache_inv c Inv st -> num_ok n ->
  blks (cs_base st) !! p = Some b -> is_for c (n * blkSize c) sec p b ->
  exists st', drop_blk c st p now = Ret st' /\ changed st st' sec n None /\ cs_data st' = cs_data st.
Proof using OK Hc.
  intros Hci Hn Hp Hf. pose proof (cache_inv_has c Inv st Hci) as Hh. pose proof (ci_blks _ _ _ Hci) as Hb. pose proof Hf as (_ & Hv & _).
  destruct (has_drop c Inv st _ _ _ p b now Hh Hp Hv (bi_src _ _ _ _ Hb p b Hp Hv)) as (s' & -> & Hh').
  eexists. split; [done|]. split; [|done].
  set (b' := CacheBlk_invalidate (dropped now b)) in *.
  assert (isValid b' = false) as Hv' by done.
  assert (blocks_inv c (<[p:=b']> (blks (cs_base st))) (tagsInUse (cs_base st) - 1) (occ_add (srcMasterId b) (-1) (occupancies (cs_base st)))) as Hb'
    by (by apply (blocks_inv_drop c _ _ _ p b b')).
  assert (data_wf c (st_with_tags st s')) as Hdw by (by destruct (ci_data _ _ _ Hci)).
  split; [by eapply has_cache_inv|]. intros n' sec' o' Hn'. unfold holds. pose proof (num_ok_word n' Hn') as [Ha _].
  assert (~ is_for c (n' * blkSize c) sec' p b') as Hnf' by (intros (_ & E & _); congruence).
  destruct (decide (n' = n /\ sec' = sec)) as [[-> ->]|Hne].
  - rewrite (lookup_none c Inv Hc (st_with_tags st s') _ _ _ (n * blkSize c) sec Hh'); [|done|].
    + split; [by intros [= <-]|by intros ->].
    + intros q bq [(-> & <- & _)|[Hq Hlq]]%list_lookup_insert_Some; [done|].
      intros Hfq. apply Hq. exact (is_for_unique c _ _ _ _ _ p q b bq Hb Hp Hlq Hf Hfq).
  - rewrite (lookup_other c Inv Hc st (st_with_tags st s') _ _ _ _ _ p b b' (n' * blkSize c) sec' Hh Hb (ci_data _ _ _ Hci) Hh' Hb'); try done.
    intros Hf'. apply Hne. exact (is_for_block n' n sec' sec p b Hn' Hn Hf' Hf).
Qed.

Lemma clear_writable_bits b :
  isValid (clear_bits BlkWritable b) = isValid b /\ isSecure (clear_bits BlkWritable b) = isSecure b /\
  status (clear_bits BlkWritable b) = unwritable (status b).
Proof.
  unfold isValid, isSecure, clear_bits. cbn [status with_status]. rewrite <- !Z.land_assoc.
  change (Z.land (wnot 32 BlkWritable) BlkValid) with BlkValid. change (Z.land (wnot 32 BlkWritable) BlkSecure) with BlkSecure. by split_and!.
Qed.

(** Giving up the right to write. *)
Lemma share_changed (st : cache) sec n p b d : cache_inv c Inv st -> num_ok n ->
  blks (cs_base st) !! p = Some b -> is_for c (n * blkSize c) sec p b -> cs_data st !! p = Some d ->
  exists st' b', set_blk st (InTags p) (clear_bits BlkWritable) = Ret st' /\ changed st st' sec n (Some (unwritable (status b), d)) /\
    blks (cs_base st') !! p = Some b' /\ is_for c (n * blkSize c) sec p b' /\ cs_data st' = cs_data st.
Proof using OK Hc.
  intros Hci Hn Hp Hf Hd. pose proof (cache_inv_has c Inv st Hci) as Hh. pose proof (ci_blks _ _ _ Hci) as Hb.
  destruct (clear_writable_bits b) as (E1 & E2 & E3).
  destruct (has_set c Inv st _ _ _ p b (clear_bits BlkWritable) Hh Hp) as (s' & -> & Hh').
  { intros b2 Hs2. split.
    - split_and!; [done..|]. by destruct (clear_writable_bits b2) as (-> & _).
    - unfold blk_sim in *. destruct b2. cbn in *. by injection Hs2; intros; subst. }
  pose proof Hf as (_ & Hv & _).
  assert (blocks_inv c (<[p:=clear_bits BlkWritable b]> (blks (cs_base st))) (tagsInUse (cs_base st)) (occupancies (cs_base st))) as Hb'
    by (by apply (blocks_inv_keep c _ _ _ p b)).
  assert (data_wf c (st_with_tags st s')) as Hdw by (by destruct (ci_data _ _ _ Hci)).
  assert (<[p:=clear_bits BlkWritable b]> (blks (cs_base st)) !! p = Some (clear_bits BlkWritable b)) as Hp'
    by (apply list_lookup_insert_eq; by eapply lookup_lt_Some).
  destruct (has_lookup Inv _ _ _ _ _ _ Hh' Hp') as (b' & Hb2 & Hs). exists (st_with_tags st s'), b'. split; [done|]. split_and!.
  - rewrite <- E3. eapply changed_block; try done. by rewrite list_insert_id.
  - done.
  - apply sim_fields in Hs as (S1 & S2 & S3 & _). apply (is_for_keep c _ _ _ (clear_bits BlkWritable b) b'); [congruence..|].
    by apply (is_for_keep c _ _ _ b).
  - done.
Qed.

(** ** Snoops *)

(** A request for a whole block, as caches send them for their misses. *)
Definition bus_cmd (cmd : Command) : Prop := cmd = ReadReq \/ cmd = ReadExReq \/ cmd = UpgradeReq.

Record bus_pkt (sec : bool) (n : Z) (pkt : Packet) (d : list Z) : Prop := {
  bk_cmd : bus_cmd (pkt_cmd pkt);
  bk_cache : req_isUncacheable (pkt_req pkt) = false;
  bk_addr : pkt_addr pkt = n * blkSize c;
  bk_sec : pkt_isSecure pkt = sec;
  bk_size : pkt_size pkt = blkSize c;
  bk_data : pkt_data pkt = Some d;
  bk_len : Z.of_nat (length d) = blkSize c
}.

(** What a snoop leaves of a block, and what it makes of the packet. *)
Definition snoop_left (cmd : Command) (v : Z) (d : list Z) : option (Z * list Z) :=
  if bool_decide (cmd = ReadReq) then Some (unwritable v, d) else None.

Definition answer (pkt : Packet) (d : list Z) : Packet :=
  mkPacket (responseCommand (pkt_cmd pkt)) (pkt_req pkt) (pkt_addr pkt) (pkt_isSecure pkt) (pkt_size pkt) (Some d)
    (Z.land (pkt_flags pkt) (wnot 32 EXPRESS_SNOOP)) (pkt_payloadDelay pkt) (bytesValid pkt) (pkt_cmd pkt).

Definition snooped (pkt : Packet) (v : Z) (d : list Z) : Packet :=
  let p := if bool_decide (pkt_cmd pkt = ReadReq) then assertShared pkt else pkt in
  if dirty_status v then
    let p := with_flags p (Z.lor (pkt_flags p) MEM_INHIBIT) in
    answer (if st_writable v then setSupplyExclusive p else p) d
  else p.

Lemma offset_block pkt n : pkt_addr pkt = n * blkSize c -> 0 <= n -> getOffset pkt (blkSize c) = 0.
Proof using Hc.
  intros E Hn. unfold getOffset. rewrite E. destruct (cw_blk _ Hc) as (kb & Hkb & -> & _).
  replace (2 ^ kb - 1) with (Z.ones kb) by (rewrite Z.ones_equiv; lia). rewrite Z.land_ones by lia. apply Z.mod_mul. pose proof (pow2_pos kb). lia.
Qed.

Lemma set_whole pkt d0 d : pkt_data pkt = Some d0 -> getOffset pkt (blkSize c) = 0 -> pkt_size pkt = blkSize c ->
  Z.of_nat (length d0) = blkSize c -> Z.of_nat (length d) = blkSize c ->
  setDataFromBlock pkt d (blkSize c) = Ret (with_data pkt d (bytesValid pkt)).
Proof.
  intros E1 E2 E3 L0 L. unfold setDataFromBlock, setData, getPtr. rewrite E1, E2, E3. bsimpl. rewrite mem_read_all by done. bsimpl.
  rewrite mem_write_all by lia. done.
Qed.

Lemma shared_inhibit pkt : memInhibitAsserted (assertShared pkt) = memInhibitAsserted pkt.
Proof. unfold memInhibitAsserted, isSet, assertShared. cbn. rewrite Z.land_lor_distr_l. change (Z.land SHARED MEM_INHIBIT) with 0. by rewrite Z.lor_0_r. Qed.

Lemma bus_cmd_facts cmd : bus_cmd cmd ->
  cmd_isRequest cmd = true /\ cmd_needsResponse cmd = true /\ cmd_isWriteInvalidate cmd = false /\ cmd <> HardPFReq /\ cmd <> Writeback /\
  cmd_isInvalidate cmd = negb (bool_decide (cmd = ReadReq)) /\ cmd_needsExclusive cmd = negb (bool_decide (cmd = ReadReq)) /\
  (cmd_isRead cmd && negb (cmd_isInvalidate cmd) = bool_decide (cmd = ReadReq)).
Proof. by intros [->|[->| ->]]. Qed.

(** The answer of an owner. *)
Lemma snoop_respond_ok (st : cache) sec n p pkt d0 d excl e : num_ok n -> bus_pkt sec n pkt d0 -> memInhibitAsserted pkt = false ->
  cs_data st !! p = Some d -> Z.of_nat (length d) = blkSize c ->
  snoop_respond c P st (InTags p) pkt false false false excl 0 e =
    Ret (answer (let q := with_flags pkt (Z.lor (pkt_flags pkt) MEM_INHIBIT) in if excl then setSupplyExclusive q else q) d, []).
Proof using Hc.
  intros Hn [Hcmd Hu Ha Hs Hsz Hd0 Hl0] Hinh Hd Hl. destruct (bus_cmd_facts _ Hcmd) as (F1 & F2 & _).
  unfold snoop_respond, assertMemInhibit. rewrite F1, Hinh. cbn [negb cassert]. bsimpl. unfold get_data. rewrite (vread_some _ _ _ Hd). bsimpl.
  set (q := with_flags pkt _). set (q' := if excl then setSupplyExclusive q else q).
  assert (pkt_cmd q' = pkt_cmd pkt /\ pkt_data q' = Some d0 /\ pkt_addr q' = pkt_addr pkt /\ pkt_size q' = pkt_size pkt) as (Q1 & Q2 & Q3 & Q4)
    by (unfold q'; by destruct excl).
  unfold makeResponse. rewrite Q1, F2, F1. cbn [cassert]. bsimpl. rewrite (set_whole _ d0 d); try done.
  - bsimpl. unfold answer, with_data. cbn. by rewrite Q1.
  - apply (offset_block _ n); [cbn; congruence|apply Hn].
  - cbn. congruence.
Qed.

Lemma forward_id pkt junk : forward_snoop P false (fun q => q) pkt junk = Ret pkt.
Proof. unfold forward_snoop. destruct (forwardSnoops P); [|done]. by destruct (memInhibitAsserted pkt). Qed.

(** A snoop that misses. *)
Lemma snoop_miss (st : cache) sec n pkt d0 e : cacheBypass P = false -> cache_inv c Inv st -> num_ok n -> bus_pkt sec n pkt d0 -> holds st sec n None ->
  exists lat, recvAtomicSnoop c P st pkt (fun q => q) e = Ret (st, pkt, lat).
Proof using OK Hc.
  intros Hby Hci Hn Hb Hno. destruct Hb as [Hcmd Hu Ha Hs Hsz Hd0 Hl0]. destruct (bus_cmd_facts _ Hcmd) as (F1 & F2 & F3 & F4 & F5 & _).
  unfold recvAtomicSnoop. rewrite Hby. cbn [negb cassert]. bsimpl. rewrite bool_decide_false by done. cbn [orb].
  destruct (inRange P (pkt_addr pkt)); cbn [negb]; [|by eexists]. rewrite Ha, Hs, (holds_none st sec n Hci Hn Hno). bsimpl.
  cbn [option_fmap option_map fmap]. unfold handleSnoop. cbn [negb andb cassert]. bsimpl. rewrite F1. cbn [cassert]. bsimpl. rewrite forward_id. by eexists.
Qed.

(** A snoop that hits: a read leaves a shared copy, the others none; an owner answers. *)
Lemma snoop_hit (st : cache) sec n pkt d0 v d e : cacheBypass P = false -> inRange P (n * blkSize c) = true ->
  cache_inv c Inv st -> num_ok n -> bus_pkt sec n pkt d0 -> holds st sec n (Some (v, d)) ->
  (dirty_status v = true -> memInhibitAsserted pkt = false) ->
  exists st' lat, recvAtomicSnoop c P st pkt (fun q => q) e = Ret (st', snooped pkt v d, lat) /\ changed st st' sec n (snoop_left (pkt_cmd pkt) v d).
Proof using OK Hc.
  intros Hby Hrng Hci Hn Hb Hho Hinh. pose proof Hb as [Hcmd Hu Ha Hs Hsz Hd0 Hl0]. destruct (bus_cmd_facts _ Hcmd) as (F1 & F2 & F3 & F4 & F5 & F6 & F7 & F8).
  destruct (holds_inv st sec n v d Hci Hn Hho) as (p & b & Hfind & Hp & Hf & Hv & Hd & Hl). pose proof Hf as (_ & Hval & _).
  unfold recvAtomicSnoop. rewrite Hby. cbn [negb cassert]. bsimpl. rewrite bool_decide_false by done. rewrite Ha, Hrng, Hs, Hfind. cbn [orb negb]. bsimpl.
  cbn [option_fmap option_map]. unfold handleSnoop. cbn [negb andb cassert]. bsimpl. rewrite F1. cbn [cassert]. bsimpl. rewrite forward_id. bsimpl.
  unfold get_blk. rewrite (vread_some _ _ _ Hp). bsimpl. rewrite Hval. cbn [negb]. rewrite F2, F3, !andb_true_r. rewrite bool_decide_false by done.
  assert (isDirty b = dirty_status v) as -> by (by rewrite <- Hv). assert (isWritable b = st_writable v) as -> by (by rewrite <- Hv).
  unfold snoop_share. rewrite Hu. cbn [negb andb]. rewrite F8, F7. unfold snooped, snoop_left. rewrite F6.
  destruct (bool_decide (pkt_cmd pkt = ReadReq)) eqn:Er; cbn [negb cassert andb]; bsimpl.
  - destruct (share_changed st sec n p b d Hci Hn Hp Hf Hd) as (st1 & b1 & -> & Hch & Hp1 & Hf1 & Hd1). bsimpl. rewrite Hv in Hch.
    destruct (dirty_status v) eqn:Edv; cbn [andb]; bsimpl; [|do 2 eexists; by split].
    rewrite (snoop_respond_ok st1 sec n p (assertShared pkt) d0 d); try done.
    + bsimpl. do 2 eexists. by split.
    + rewrite shared_inhibit. by apply Hinh.
    + by rewrite Hd1.
  - destruct (drop_changed st sec n p b (ev_now e) Hci Hn Hp Hf) as (st1 & Hdr & Hch & _).
    destruct (dirty_status v) eqn:Edv; cbn [andb]; bsimpl.
    + rewrite (snoop_respond_ok st sec n p pkt d0 d) by (done || by apply Hinh). bsimpl. rewrite Hdr. bsimpl. do 2 eexists. by split.
    + rewrite Hdr. bsimpl. do 2 eexists. by split.
Qed.

(** Writebacks are not snooped. *)
Lemma snoop_writeback (st : cache) pkt e : cacheBypass P = false -> pkt_cmd pkt = Writeback -> recvAtomicSnoop c P st pkt (fun q => q) e = Ret (st, pkt, 0).
Proof. intros Hby Hcmd. unfold recvAtomicSnoop. by rewrite Hby, Hcmd. Qed.

(** ** Misses *)

Lemma same_blocks (st st' : cache) : cache_inv c Inv st ->
  has Inv (cs_tags st') (blks (cs_base st)) (tagsInUse (cs_base st)) (occupancies (cs_base st)) -> cs_data st' = cs_data st -> data_wf c st' ->
  unchanged st st'.
Proof using OK Hc.
  intros Hci Hh' Hd Hdw. pose proof (cache_inv_has c Inv st Hci) as Hh. pose proof (ci_blks _ _ _ Hci) as Hb.
  split; [by eapply has_cache_inv|]. intros n sec o Hn. pose proof (num_ok_word n Hn) as [Ha _]. unfold holds.
  destruct (find_spec c Inv Hc st _ _ _ (n * blkSize c) sec Hh Ha) as (r & Ef & Hr). destruct r as [p|].
  - destruct Hr as (b & Hp & Hf). destruct (data_at c Inv st _ _ _ p b (ci_data _ _ _ Hci) Hh Hp) as (d & Hdp & _).
    rewrite (lookup_hit c Inv Hc st _ _ _ _ _ p b d Hh Hb Ha Hp Hf Hdp).
    rewrite (lookup_hit c Inv Hc st' _ _ _ _ _ p b d Hh' Hb Ha Hp Hf) by (by rewrite Hd). done.
  - rewrite (lookup_none c Inv Hc st _ _ _ _ _ Hh Ha Hr). by rewrite (lookup_none c Inv Hc st' _ _ _ _ _ Hh' Ha Hr).
Qed.

Lemma has_access_none (st : cache) addr sec rd now : cache_inv c Inv st -> 0 <= addr -> cache_lookup c st addr sec = Ret None ->
  exists s' lat, tp_accessBlock c (cs_tags st) addr sec rd now = Ret (s', None, lat) /\
    has Inv s' (blks (cs_base st)) (tagsInUse (cs_base st)) (occupancies (cs_base st)).
Proof using OK Hc.
  intros Hci Ha El. pose proof (cache_inv_has c Inv st Hci) as Hh. pose proof (has_wf c Inv _ _ _ _ Hh) as Hw.
  destruct (base_access_spec c Hc (tp_base (cs_tags st)) addr sec rd now Hw Ha) as (s0 & r & lat & E & Ef & Hset & Hu & Ho & Hb).
  assert (r = None) as ->.
  { destruct r as [p|]; [|done]. unfold cache_lookup, cs_base in El. rewrite Ef in El. cbn [mbind res_bind] in El.
    destruct (find_spec c Inv Hc st _ _ _ addr sec Hh Ha) as (r' & Ef' & Hr). unfold cs_base in Ef'. rewrite Ef in Ef'. injection Ef' as <-.
    destruct Hr as (b & Hp & _). unfold get_blk, get_data, cs_base in El. pose proof Hp as Hp2. unfold cs_base in Hp2. rewrite (vread_some _ _ _ Hp2) in El. cbn [mbind res_bind] in El.
    destruct (data_at c Inv st _ _ _ p b (ci_data _ _ _ Hci) Hh Hp) as (d & Hd & _). by rewrite (vread_some _ _ _ Hd) in El. }
  destruct (tpo_access (cs_tags st) addr sec rd now s0 None lat (ci_inv _ _ _ Hci) Ha E) as (s' & E' & Hre & Hi').
  exists s', lat. split; [done|]. eapply has_reorder; [done|exact Hre|..]; rewrite ?Hb, ?Hu, ?Ho; done.
Qed.

(** The loads and stores of a processor: part of a block, no reservations. *)
Record cpu_op (pkt : Packet) (d : list Z) : Prop := {
  co_pkt : cpu_pkt c pkt d;
  co_cmd : pkt_cmd pkt = ReadReq \/ pkt_cmd pkt = WriteReq;
  co_paddr : req_paddr (pkt_req pkt) = pkt_addr pkt;
  co_sec : req_isSecure (pkt_req pkt) = pkt_isSecure pkt;
  co_inhibit : memInhibitAsserted pkt = false;
  co_shared : sharedAsserted pkt = false
}.

Lemma missed_state (st : cache) s pkt : master_ok c (req_masterId (pkt_req pkt)) ->
  exists st', incMissCount c (st_with_tags st s) pkt = Ret st' /\ cs_tags st' = s /\ cs_data st' = cs_data st /\ tempBlock st' = tempBlock st /\ tempData st' = tempData st.
Proof.
  intros Hm. unfold incMissCount. rewrite cassert_true by (apply Z.ltb_lt; unfold master_ok in Hm; lia). bsimpl.
  destruct (_ =? 0); eexists; by split_and!.
Qed.

Lemma access_absent lkup fm (st : cache) pkt d rnd now : cache_inv c Inv st -> cpu_op pkt d ->
  holds st (pkt_isSecure pkt) (block (pkt_addr pkt)) None ->
  exists st' lat, access c (cp_top P) lkup fm st pkt rnd now = Ret (mkAccessResult st' pkt None lat false []) /\ unchanged st st'.
Proof using OK Hc.
  intros Hci [Hcp Hcmd _ _ _ _] Hno. apply (proj1 (holds_lookup _ _ _ _)) in Hno. pose proof (cp_addr _ _ _ Hcp) as [Ha _].
  destruct (has_access_none st (pkt_addr pkt) (pkt_isSecure pkt) (cmd_isRead (pkt_cmd pkt)) now Hci Ha Hno) as (s1 & lat & E1 & Hh1).
  destruct (missed_state st s1 pkt (cp_master _ _ _ Hcp)) as (st' & Em & Et & Ed & Eb & Etd).
  exists st', lat. split.
  - unfold access. rewrite (cp_cache _ _ _ Hcp), E1.
    assert (cmd_isRequest (pkt_cmd pkt) = true /\ bool_decide (pkt_cmd pkt = Writeback) = false /\ pkt_isLLSC pkt = false) as (-> & -> & ->)
      by (unfold pkt_isLLSC; by destruct Hcmd as [-> | ->]).
    cbn [cassert]. bsimpl. rewrite Em. done.
  - apply same_blocks; [done|by rewrite Et|done|]. destruct (ci_data _ _ _ Hci). split; congruence.
Qed.

Lemma access_shared lkup fm (st : cache) pkt d v dat rnd now : cache_inv c Inv st -> cpu_op pkt d -> pkt_cmd pkt = WriteReq ->
  holds st (pkt_isSecure pkt) (block (pkt_addr pkt)) (Some (v, dat)) -> st_writable v = false ->
  exists st' lat p b, access c (cp_top P) lkup fm st pkt rnd now = Ret (mkAccessResult st' pkt (Some p) lat false []) /\ unchanged st st' /\
    blks (cs_base st') !! p = Some b /\ is_for c (pkt_addr pkt) (pkt_isSecure pkt) p b /\ status b = v /\ cs_data st' !! p = Some dat.
Proof using OK Hc.
  intros Hci [Hcp Hcmd _ _ _ _] Hw Hho Hnw. apply (proj1 (holds_lookup _ _ _ _)) in Hho.
  destruct (access_found c Inv Hc st pkt d v dat now Hci Hcp Hho) as (p & b & s1 & lat & Hp & Hf & Hv & Hd & Hl & E1 & Hh1 & Hb1).
  destruct (missed_state st s1 pkt (cp_master _ _ _ Hcp)) as (st' & Em & Et & Ed & Eb & Etd).
  assert (Hp1 : <[p:=bump b]> (blks (cs_base st)) !! p = Some (bump b)) by (apply list_lookup_insert_eq; by eapply lookup_lt_Some).
  destruct (has_lookup Inv _ _ _ _ _ _ Hh1 Hp1) as (b1 & Hb1' & Hs1).
  pose proof (sim_fields _ _ Hs1) as (S1 & S2 & S3 & _ & _ & _ & _ & S8 & _ & _ & S11 & _).
  assert (is_for c (pkt_addr pkt) (pkt_isSecure pkt) p b1) as Hf1 by (apply (is_for_keep c _ _ _ (bump b) b1); [done..|]; exact Hf).
  exists st', lat, p, b1. split_and!; try done.
  - unfold access. rewrite (cp_cache _ _ _ Hcp), E1, Hw.
    change (cmd_isRequest WriteReq) with true. change (bool_decide (WriteReq = Writeback)) with false. change (cmd_needsExclusive WriteReq) with true.
    cbn [cassert]. bsimpl. unfold get_blk, cs_base. cbn [cs_tags st_with_tags]. rewrite (vread_some _ _ _ Hb1'). bsimpl.
    assert (isWritable b1 = false) as ->. { rewrite <- S8. unfold isWritable. cbn [bump status with_refCount]. rewrite Hv. exact Hnw. }
    rewrite Em. done.
  - assert (data_wf c st') as Hdw by (destruct (ci_data _ _ _ Hci); split; congruence).
    split; [rewrite <- Et in Hh1; by eapply has_cache_inv|]. intros n' sec' o Hn'. pose proof (num_ok_word n' Hn') as [Ha _]. unfold holds.
    rewrite <- Et in Hh1.
    rewrite (lookup_update c Inv Hc st st' _ _ _ _ _ p b (bump b) dat _ sec' (cache_inv_has c Inv st Hci) (ci_blks _ _ _ Hci) (ci_data _ _ _ Hci) Hh1 Hb1)
      by (done || by rewrite list_insert_id).
    case_decide as Hfa; [|done]. by rewrite (lookup_hit c Inv Hc st _ _ _ _ sec' p b dat (cache_inv_has c Inv st Hci) (ci_blks _ _ _ Hci) Ha Hp Hfa Hd).
  - by rewrite <- Et in Hb1'.
  - rewrite <- S11. exact Hv.
  - by rewrite Ed.
Qed.

(** The packet that a miss sends. *)
Definition miss_cmd (cmd : Command) (present : bool) : Command :=
  if present then UpgradeReq else if bool_decide (cmd = WriteReq) then ReadExReq else ReadReq.

Definition miss_pkt (pkt : Packet) (present : bool) (junk : list Z) : Packet :=
  with_data (Packet_new_blk (pkt_req pkt) (miss_cmd (pkt_cmd pkt) present) (blkSize c)) junk [].

Lemma miss_pkt_bus pkt d present junk : cpu_op pkt d -> Z.of_nat (length junk) = blkSize c ->
  bus_pkt (pkt_isSecure pkt) (block (pkt_addr pkt)) (miss_pkt pkt present junk) junk.
Proof using Hc.
  intros [Hcp Hcmd Hpa Hsec _ _] Hj. split; try done.
  - unfold miss_pkt, miss_cmd. cbn. destruct present; [by right; right|]. destruct Hcmd as [-> | ->]; [by left|by right; left].
  - apply Hcp.
  - cbn. rewrite Hpa. rewrite <- (blkAlign_block (pkt_addr pkt)) by apply Hcp. rewrite <- blockAlign_align. done.
Qed.

Lemma cpu_cmd_facts cmd : cmd = ReadReq \/ cmd = WriteReq ->
  bool_decide (cmd = Writeback) = false /\ cmd_isUpgrade cmd = false /\ cmd_needsResponse cmd = true /\ cmd_isWriteInvalidate cmd = false /\
  bool_decide (cmd = SCUpgradeFailReq) = false /\ bool_decide (cmd = StoreCondFailReq) = false /\ cmd_isLLSC cmd = false /\
  cmd_needsExclusive cmd = bool_decide (cmd = WriteReq) /\ cmd_isRequest cmd = true.
Proof. by intros [-> | ->]. Qed.

Lemma getBusPacket_absent (st : cache) pkt d junk : cpu_op pkt d -> Z.of_nat (length junk) = blkSize c ->
  getBusPacket c st pkt None (cmd_needsExclusive (pkt_cmd pkt)) junk = Ret (Some (miss_pkt pkt false junk)).
Proof using Hc.
  intros Hop Hj. pose proof (miss_pkt_bus pkt d false junk Hop Hj) as Hb. destruct Hop as [Hcp Hcmd Hpa Hsec Hin Hsh].
  unfold getBusPacket. cbn [mbind res_bind]. rewrite (cp_cache _ _ _ Hcp), Hsh.
  assert (Hal : forall cmd, pkt_addr (Packet_new_blk (pkt_req pkt) cmd (blkSize c)) =? blockAlign c (pkt_addr (Packet_new_blk (pkt_req pkt) cmd (blkSize c))) = true).
  { intros cmd. pose proof (bk_addr _ _ _ _ Hb) as E. cbn in E. cbn. rewrite E. apply Z.eqb_eq. rewrite blockAlign_align, blkAlign_block, block_mul; [done|].
    apply num_ok_word, num_ok_block, Hcp. }
  destruct (cpu_cmd_facts _ Hcmd) as (-> & -> & -> & -> & -> & -> & _ & -> & _). cbn [negb andb orb cassert]. bsimpl. rewrite Hal. cbn [cassert]. bsimpl.
  unfold miss_pkt, miss_cmd. by destruct (bool_decide (pkt_cmd pkt = WriteReq)).
Qed.

Lemma getBusPacket_present (st : cache) pkt d junk p b : cpu_op pkt d -> pkt_cmd pkt = WriteReq -> Z.of_nat (length junk) = blkSize c ->
  blks (cs_base st) !! p = Some b -> isValid b = true -> isWritable b = false ->
  getBusPacket c st pkt (Some p) (cmd_needsExclusive (pkt_cmd pkt)) junk = Ret (Some (miss_pkt pkt true junk)).
Proof using Hc.
  intros Hop Hw Hj Hp Hv Hnw. pose proof (miss_pkt_bus pkt d true junk Hop Hj) as Hb. destruct Hop as [Hcp Hcmd Hpa Hsec Hin Hsh].
  unfold getBusPacket. unfold get_blk. rewrite (vread_some _ _ _ Hp). cbn [mbind res_bind]. rewrite (cp_cache _ _ _ Hcp), Hsh, Hv, Hnw.
  assert (Hal : pkt_addr (Packet_new_blk (pkt_req pkt) UpgradeReq (blkSize c)) =? blockAlign c (pkt_addr (Packet_new_blk (pkt_req pkt) UpgradeReq (blkSize c))) = true).
  { pose proof (bk_addr _ _ _ _ Hb) as E. cbn in E. cbn. rewrite E. apply Z.eqb_eq. rewrite blockAlign_align, blkAlign_block, block_mul; [done|].
    apply num_ok_word, num_ok_block, Hcp. }
  unfold pkt_isLLSC. destruct (cpu_cmd_facts _ Hcmd) as (F1 & F2 & F3 & _ & _ & _ & F7 & F8 & _). rewrite ?F1, ?F2, ?F3, ?F7, ?F8, Hw. cbn [negb andb orb cassert]. bsimpl.
  rewrite bool_decide_true by done. cbn [cassert]. bsimpl. rewrite Hal. cbn [cassert]. bsimpl. unfold miss_pkt, miss_cmd. done.
Qed.

(** ** Fills *)

(** The writeback of block [n]. *)
Record wb_pkt (sec : bool) (n : Z) (w : Packet) (d : list Z) : Prop := {
  wb_cmd : pkt_cmd w = Writeback;
  wb_addr : pkt_addr w = n * blkSize c;
  wb_sec : pkt_isSecure w = sec;
  wb_data : pkt_data w = Some d;
  wb_size : pkt_size w = blkSize c;
  wb_len : Z.of_nat (length d) = blkSize c;
  wb_inhibit : memInhibitAsserted w = false;
  wb_fetch : req_isInstFetch (pkt_req w) = false;
  wb_extra : req_extraData (pkt_req w) = 0
}.

Lemma other_block (n n' : Z) (s s' : bool) : ~ (n' = n /\ s' = s) -> n' <> n \/ s' <> s.
Proof. intros H. destruct (decide (n' = n)); [right; intros ->; by apply H|by left]. Qed.

(** The cache after block [n] has been given [o], with what had to be written back for
    the block evicted. *)
Definition evicts (st st' : cache) (sec : bool) (n : Z) (o : option (Z * list Z)) (wbs : list Packet) : Prop :=
  cache_inv c Inv st' /\ exists victim : option (Z * bool),
    (forall n' sec' o', num_ok n' -> holds st' sec' n' o' <->
       if decide (n' = n /\ sec' = sec) then o' = o
       else if decide (victim = Some (n', sec')) then o' = None else holds st sec' n' o') /\
    match victim with
    | None => wbs = []
    | Some (vn, vs) => num_ok vn /\ (vn <> n \/ vs <> sec) /\
        exists v d, holds st vs vn (Some (v, d)) /\
          if dirty_status v then exists w, wbs = [w] /\ wb_pkt vs vn w d else wbs = []
    end.

Lemma evicts_changed st st' st'' sec n o o' wbs : evicts st st' sec n o wbs -> changed st' st'' sec n o' -> evicts st st'' sec n o' wbs.
Proof.
  intros (_ & victim & H1 & H2) [Hc' H']. split; [done|]. exists victim. split; [|done]. intros n' s' o'' Hn. rewrite H' by done.
  case_decide; [done|]. rewrite H1 by done. by rewrite decide_False.
Qed.
Lemma unchanged_evicts st st' st'' sec n o wbs : unchanged st st' -> evicts st' st'' sec n o wbs -> evicts st st'' sec n o wbs.
Proof.
  intros [_ H] (Hc' & victim & H1 & H2). split; [done|]. exists victim. split.
  - intros n' s' o'' Hn. rewrite H1 by done. case_decide; [done|]. case_decide; [done|]. by apply H.
  - destruct victim as [[vn vs]|]; [|done]. destruct H2 as (Hv & Hne & v & d & Hh & Hw). split_and!; [done..|]. exists v, d. split; [by apply H|done].
Qed.
Lemma changed_evicts st st' sec n o : changed st st' sec n o -> evicts st st' sec n o [].
Proof. intros [Hc' H]. split; [done|]. exists None. split; [|done]. intros n' s' o' Hn. rewrite H by done. case_decide; [done|]. by rewrite decide_False. Qed.

(** The response to a miss. *)
Record bus_resp (bus resp : Packet) (d : list Z) : Prop := {
  br_cmd : pkt_cmd resp = responseCommand (pkt_cmd bus);
  br_req : pkt_req resp = pkt_req bus;
  br_addr : pkt_addr resp = pkt_addr bus;
  br_sec : pkt_isSecure resp = pkt_isSecure bus;
  br_size : pkt_size resp = pkt_size bus;
  br_data : pkt_data resp = Some d;
  br_len : Z.of_nat (length d) = blkSize c
}.

Lemma wb_packet_ok (st : cache) sec n p b d : cache_inv c Inv st -> num_ok n -> blks (cs_base st) !! p = Some b ->
  is_for c (n * blkSize c) sec p b -> Z.of_nat (length d) = blkSize c -> wb_pkt sec n (writeback_packet c b d) d.
Proof using OK Hc.
  intros Hci Hn Hp Hf Hl. pose proof (num_ok_word n Hn) as Ha.
  destruct (writeback_packet_fields c Inv Hc st _ _ _ p b d _ sec (cache_inv_has c Inv st Hci) Hp Ha Hf) as (E1 & E2 & E3 & E4 & E5).
  rewrite blkAlign_block, block_mul in E2 by done. split; try done.
  - unfold writeback_packet. by destruct (isWritable b).
  - unfold writeback_packet. by destruct (isWritable b), (isSecure b).
  - unfold writeback_packet. by destruct (isWritable b).
Qed.

Lemma fill_evicts (st : cache) pkt bus resp d d1 e : cache_inv c Inv st -> cpu_op pkt d -> draw_ok c (ev_rnd e) ->
  holds st (pkt_isSecure pkt) (block (pkt_addr pkt)) None -> Z.of_nat (length (ev_junk e)) = blkSize c ->
  bus = miss_pkt pkt false (ev_junk e) -> bus_resp bus resp d1 ->
  exists st' p b wbs, handleFill c (fillLatency P) (fun _ _ => None) st resp None (ev_rnd e) (ev_now e) (ev_edge e) = Ret (st', InTags p, wbs) /\
    evicts st st' (pkt_isSecure pkt) (block (pkt_addr pkt)) (Some (fill_status resp, d1)) wbs /\
    blks (cs_base st') !! p = Some b /\ is_for c (pkt_addr pkt) (pkt_isSecure pkt) p b /\ status b = fill_status resp /\ cs_data st' !! p = Some d1.
Proof using OK Hc.
  intros Hci Hop Hr Hno Hj -> Hrs. pose proof (miss_pkt_bus pkt d false (ev_junk e) Hop Hj) as Hbus.
  pose proof Hrs as [R1 R2 R3 R4 R5 R6 R7]. pose proof Hbus as [B1 B2 B3 B4 B5 _ _]. set (n := block (pkt_addr pkt)) in *.
  assert (num_ok n) as Hn by (apply num_ok_block; apply Hop).
  assert (cmd_isResponse (pkt_cmd resp) = true /\ cmd_isRead (pkt_cmd resp) = true /\ cmd_hasData (pkt_cmd resp) = true) as (K1 & K2 & K3).
  { rewrite R1. unfold miss_pkt, miss_cmd. cbn. by destruct (co_cmd _ _ Hop) as [-> | ->]. }
  assert (fill_pkt c resp d1) as Hfp.
  { split; [done|done|done|by rewrite R5|done|done|rewrite R3, B3; by apply num_ok_word|rewrite R2; apply Hop]. }
  assert (pkt_isSecure resp = pkt_isSecure pkt) as Es by congruence. assert (pkt_addr resp = n * blkSize c) as Ea by congruence.
  destruct (fill_lookups c Inv Hc (fillLatency P) st resp d1 (ev_rnd e) (ev_now e) (ev_edge e) Hci Hfp Hr) as (p & b & d0 & st' & ready & iu & oc & Hp & Hd0 & E & Hh' & Hb' & Hf & Hdat & Hci' & El & Hoth).
  { rewrite Ea, Es. exact Hno. }
  assert (Hl0 : Z.of_nat (length d0) = blkSize c) by (by apply (Forall_lookup_1 _ _ _ _ (dw_blk _ _ (ci_data _ _ _ Hci)) Hd0)).
  set (bf := filled c resp (ev_now e) ready b) in *.
  assert (Hp' : <[p:=bf]> (blks (cs_base st)) !! p = Some bf) by (apply list_lookup_insert_eq; by eapply lookup_lt_Some).
  destruct (has_lookup Inv _ _ _ _ _ _ Hh' Hp') as (b' & Hb2 & Hs).
  pose proof (sim_fields _ _ Hs) as (S1 & S2 & S3 & _ & _ & _ & _ & _ & _ & _ & S11 & _).
  destruct (filled_fields c resp (ev_now e) ready b (bi_zero _ _ _ _ (ci_blks _ _ _ Hci) p b Hp)) as (F1 & _).
  exists st', p, b'. eexists. split; [exact E|]. split; [|split_and!].
  - split; [done|]. rewrite Ea, Es in El.
    assert (Hoth' : forall n' sec', num_ok n' -> n' <> n \/ sec' <> pkt_isSecure pkt ->
      cache_lookup c st' (n' * blkSize c) sec' = cache_lookup c st (n' * blkSize c) sec' /\ ~ is_for c (n' * blkSize c) sec' p b \/
      cache_lookup c st (n' * blkSize c) sec' = Ret (Some (status b, d0)) /\ cache_lookup c st' (n' * blkSize c) sec' = Ret None /\
        is_for c (n' * blkSize c) sec' p b).
    { intros n' sec' Hn' Hne. pose proof (num_ok_word n' Hn') as Ha'. destruct (Hoth (n' * blkSize c) sec' Ha') as [?|(? & ? & ? & _)]; [|by left|right; by split_and!].
      rewrite Es, Ea. rewrite !blkAlign_block, !block_mul by (by apply num_ok_word). destruct Hne as [Hne|Hne]; [left|by right]. pose proof blkSize_pos. nia. }
    destruct (isValid b) eqn:Hv; cbn [andb].
    + destruct (valid_for c Inv st p b Hci Hp Hv) as (a & Ha & Hfa).
      set (vn := block a). assert (Hvn : num_ok vn) by (by apply num_ok_block).
      assert (Hfv : is_for c (vn * blkSize c) (isSecure b) p b) by (apply (is_for_addr a); [by rewrite block_mul|done]).
      assert (Hne : vn <> n \/ isSecure b <> pkt_isSecure pkt).
      { destruct (decide (vn = n)) as [->|]; [|by left]. right. intros Hse. rewrite Hse in Hfv.
        pose proof (lookup_hit c Inv Hc st _ _ _ _ _ p b d0 (cache_inv_has c Inv st Hci) (ci_blks _ _ _ Hci) (proj1 (num_ok_word n Hn)) Hp Hfv Hd0) as Hx.
        unfold holds in Hno. congruence. }
      exists (Some (vn, isSecure b)). split.
      * intros n' sec' o' Hn'. destruct (decide (n' = n /\ sec' = pkt_isSecure pkt)) as [[-> ->]|Hne'].
        { unfold holds. rewrite El. split; [by intros [= <-]|by intros ->]. }
        destruct (Hoth' n' sec' Hn') as [(Hx & Hnf)|(Hx & Hy & Hfx)]; [by apply other_block| |].
        { rewrite decide_False by (intros [= <- <-]; done). unfold holds. by rewrite Hx. }
        destruct (is_for_block n' vn sec' (isSecure b) p b Hn' Hvn Hfx Hfv) as [-> ->]. rewrite decide_True by done.
        unfold holds. rewrite Hy. split; [by intros [= <-]|by intros ->].
      * split_and!; [done|done|]. exists (status b), d0. split.
        { apply (lookup_hit c Inv Hc st _ _ _ _ _ p b d0 (cache_inv_has c Inv st Hci) (ci_blks _ _ _ Hci) (proj1 (num_ok_word vn Hvn)) Hp Hfv Hd0). }
        change (dirty_status (status b)) with (isDirty b). destruct (isDirty b); [|done]. eexists. split; [done|]. by apply (wb_packet_ok st _ _ p).
    + exists None. split; [|done]. intros n' sec' o' Hn'. destruct (decide (n' = n /\ sec' = pkt_isSecure pkt)) as [[-> ->]|Hne'].
      { unfold holds. rewrite El. split; [by intros [= <-]|by intros ->]. }
      rewrite decide_False by done. destruct (Hoth' n' sec' Hn') as [(Hx & Hnf)|(Hx & Hy & (_ & Hfx & _))]; [by apply other_block| |congruence].
      unfold holds. by rewrite Hx.
  - exact Hb2.
  - apply (is_for_keep c _ _ _ bf b'); [congruence..|]. rewrite Es in Hf. apply (is_for_addr (pkt_addr resp)); [|done]. by rewrite Ea, block_mul.
  - rewrite <- S11. exact F1.
  - rewrite Hdat. apply list_lookup_insert_eq. by eapply lookup_lt_Some.
Qed.

(** The status after a fill of a block that is already there. *)
Definition refill (pkt : Packet) (v : Z) : Z :=
  let v := if pkt_isSecure pkt then Z.lor v BlkSecure else v in
  let v := Z.lor v (Z.lor BlkValid BlkReadable) in
  if sharedAsserted pkt then v
  else let v := Z.lor v BlkWritable in if memInhibitAsserted pkt then Z.lor v BlkDirty else v.

Lemma refill_spec pkt b : status (fill_bits pkt b) = refill pkt (status b).
Proof. unfold fill_bits, refill. by destruct (pkt_isSecure pkt), (sharedAsserted pkt), (memInhibitAsserted pkt). Qed.

Lemma lor_keeps v x m : Z.land x m = 0 -> Z.land (Z.lor v x) m = Z.land v m.
Proof. intros H. by rewrite Z.land_lor_distr_l, H, Z.lor_0_r. Qed.

Lemma lor_sets v x m : Z.land x m <> 0 -> Z.land (Z.lor v x) m <> 0.
Proof. intros H E. rewrite Z.land_lor_distr_l in E. apply Z.lor_eq_0_iff in E. tauto. Qed.

Lemma refill_fields pkt b : isValid b = true -> isSecure b = pkt_isSecure pkt ->
  isValid (fill_bits pkt b) = isValid b /\ isSecure (fill_bits pkt b) = isSecure b.
Proof.
  intros Hv Hs. unfold isValid, isSecure in *. rewrite refill_spec. unfold refill.
  split.
  - rewrite Hv. apply negb_true_iff, Z.eqb_neq. apply negb_true_iff, Z.eqb_neq in Hv.
    destruct (pkt_isSecure pkt), (sharedAsserted pkt), (memInhibitAsserted pkt); cbn [negb];
      rewrite ?(lor_keeps _ BlkDirty BlkValid), ?(lor_keeps _ BlkWritable BlkValid) by done; by apply lor_sets.
  - rewrite Hs. destruct (pkt_isSecure pkt) eqn:Es.
    + apply negb_true_iff, Z.eqb_neq.
      destruct (sharedAsserted pkt), (memInhibitAsserted pkt);
        rewrite ?(lor_keeps _ BlkDirty BlkSecure), ?(lor_keeps _ BlkWritable BlkSecure), (lor_keeps _ (Z.lor BlkValid BlkReadable) BlkSecure) by done; by apply lor_sets.
    + rewrite <- Hs. f_equal.
      destruct (sharedAsserted pkt), (memInhibitAsserted pkt);
        by rewrite ?(lor_keeps _ BlkDirty BlkSecure), ?(lor_keeps _ BlkWritable BlkSecure), (lor_keeps _ (Z.lor BlkValid BlkReadable) BlkSecure) by done.
Qed.

(** A fill that only brings rights. *)
Lemma fill_upgrades (st : cache) pkt resp d d1 dat p b e : cache_inv c Inv st -> cpu_op pkt d ->
  blks (cs_base st) !! p = Some b -> is_for c (pkt_addr pkt) (pkt_isSecure pkt) p b -> cs_data st !! p = Some dat ->
  Z.of_nat (length (ev_junk e)) = blkSize c -> bus_resp (miss_pkt pkt true (ev_junk e)) resp d1 ->
  exists st' b', handleFill c (fillLatency P) (fun _ _ => None) st resp (Some p) (ev_rnd e) (ev_now e) (ev_edge e) = Ret (st', InTags p, []) /\
    changed st st' (pkt_isSecure pkt) (block (pkt_addr pkt)) (Some (refill resp (status b), dat)) /\
    blks (cs_base st') !! p = Some b' /\ is_for c (pkt_addr pkt) (pkt_isSecure pkt) p b' /\ status b' = refill resp (status b) /\ cs_data st' !! p = Some dat.
Proof using OK Hc.
  intros Hci Hop Hp Hf Hd Hj Hrs. pose proof (miss_pkt_bus pkt d true (ev_junk e) Hop Hj) as [B1 B2 B3 B4 B5 _ _].
  pose proof Hrs as [R1 R2 R3 R4 R5 R6 R7]. set (n := block (pkt_addr pkt)) in *. assert (num_ok n) as Hn by (apply num_ok_block; apply Hop).
  pose proof (cache_inv_has c Inv st Hci) as Hh. pose proof (ci_blks _ _ _ Hci) as Hb. pose proof Hf as (_ & Hv & Ht & Hs).
  set (ready := u64 (ev_edge e + fillLatency P * clockPeriod c + pkt_payloadDelay resp)).
  assert (Hs' : isSecure b = pkt_isSecure resp) by congruence.
  destruct (refill_fields resp b Hv Hs') as [K1 K2]. destruct (fill_bits_fields resp b) as (G1 & G2 & G3 & G4 & _).
  destruct (fill_marks c Inv st _ _ _ resp p b ready (cs_data st) Hh Hp) as (s3 & s4 & E3 & E4 & Hh4); [by rewrite (bi_touch _ _ _ _ Hb p b Hp)|].
  set (bn := with_whenReady (fill_bits resp b) ready) in *.
  assert (Hb4 : blocks_inv c (<[p:=bn]> (blks (cs_base st))) (tagsInUse (cs_base st)) (occupancies (cs_base st))) by (by apply (blocks_inv_keep c _ _ _ p b)).
  assert (Hp4 : <[p:=bn]> (blks (cs_base st)) !! p = Some bn) by (apply list_lookup_insert_eq; by eapply lookup_lt_Some).
  destruct (has_lookup Inv _ _ _ _ _ _ Hh4 Hp4) as (b' & Hb2 & Hsim). pose proof (sim_fields _ _ Hsim) as (S1 & S2 & S3 & _ & _ & _ & _ & _ & _ & _ & S11 & _).
  set (st' := st_with_tags (st_with_data (st_with_tags st s3) (cs_data st)) s4) in *.
  assert (Hfn : is_for c (n * blkSize c) (pkt_isSecure pkt) p b) by (apply (is_for_addr (pkt_addr pkt)); [by rewrite block_mul|done]).
  exists st', b'. split; [|split_and!].
  - unfold handleFill, fill_target. rewrite R1. unfold miss_pkt, miss_cmd. change (responseCommand (pkt_cmd _)) with UpgradeResp.
    change (cmd_isResponse UpgradeResp) with true. change (cmd_hasData UpgradeResp) with false. change (cmd_isRead UpgradeResp) with false.
    cbn [orb cassert]. bsimpl. unfold get_blk. rewrite (vread_some _ _ _ Hp). bsimpl. rewrite R3, B3.
    destruct (extract_block (n * blkSize c) (pkt_addr pkt)) as [_ ->]; [by rewrite block_mul|]. rewrite Ht, Z.eqb_refl, Hv. cbn [cassert]. bsimpl.
    rewrite E3. bsimpl. fold ready. change (st_with_tags st s3) with (st_with_data (st_with_tags st s3) (cs_data st)). rewrite E4. done.
  - rewrite <- refill_spec. change (status (fill_bits resp b)) with (status bn).
    eapply (changed_block st st' _ n p b bn dat dat); try done; [by destruct (ci_data _ _ _ Hci)|by rewrite list_insert_id].
  - exact Hb2.
  - apply (is_for_keep c _ _ _ bn b'); [congruence..|]. by apply (is_for_keep c _ _ _ b bn).
  - rewrite <- S11. exact (refill_spec resp b).
  - exact Hd.
Qed.

(** ** Satisfying the request from the block *)

Lemma sat_read (st : cache) pkt d p b dat now : cache_inv c Inv st -> cpu_op pkt d -> pkt_cmd pkt = ReadReq ->
  blks (cs_base st) !! p = Some b -> is_for c (pkt_addr pkt) (pkt_isSecure pkt) p b -> cs_data st !! p = Some dat ->
  exists pkt' d', satisfyCpuSideRequest c (cp_top P) st pkt (InTags p) false false now = Ret (st, pkt') /\ pkt_cmd pkt' = ReadReq /\
    pkt_data pkt' = Some d' /\ Z.of_nat (length d') = pkt_size pkt /\
    forall i, 0 <= i < pkt_size pkt -> d' !! Z.to_nat i = dat !! Z.to_nat (getOffset pkt (blkSize c) + i).
Proof using OK Hc.
  intros Hci Hop Hcmd Hp (_ & Hv & _) Hd. pose proof (Forall_lookup_1 _ _ _ _ (dw_blk _ _ (ci_data _ _ _ Hci)) Hd) as Hl.
  destruct (satisfy_read c Inv Hc st _ _ _ pkt p b dat d now (cache_inv_has c Inv st Hci) Hp Hv Hd Hl Hcmd (co_pkt _ _ Hop) (cp_top P)) as (pkt' & d' & E & H0 & H1 & H2 & H3).
  by exists pkt', d'.
Qed.

(** The bytes of a block after a store of [d] at its offset. *)
Definition patched (off : Z) (d dat dat' : list Z) : Prop :=
  length dat' = length dat /\
  forall i, 0 <= i -> dat' !! Z.to_nat i = if decide (off <= i < off + Z.of_nat (length d)) then d !! Z.to_nat (i - off) else dat !! Z.to_nat i.

Lemma sat_write (st : cache) pkt d p b dat now : cache_inv c Inv st -> cpu_op pkt d -> pkt_cmd pkt = WriteReq ->
  blks (cs_base st) !! p = Some b -> is_for c (pkt_addr pkt) (pkt_isSecure pkt) p b -> isWritable b = true -> cs_data st !! p = Some dat ->
  exists st' pkt' dat', satisfyCpuSideRequest c (cp_top P) st pkt (InTags p) false false now = Ret (st', pkt') /\ pkt_cmd pkt' = WriteReq /\
    changed st st' (pkt_isSecure pkt) (block (pkt_addr pkt)) (Some (Z.lor (status b) BlkDirty, dat')) /\
    patched (getOffset pkt (blkSize c)) d dat dat'.
Proof using OK Hc.
  intros Hci Hop Hcmd Hp Hf Hw Hd. pose proof Hf as (_ & Hv & _).
  pose proof (Forall_lookup_1 _ _ _ _ (dw_blk _ _ (ci_data _ _ _ Hci)) Hd) as Hl. pose proof (ci_blks _ _ _ Hci) as Hb.
  destruct (satisfy_write c Inv Hc st _ _ _ pkt p b dat d now (cache_inv_has c Inv st Hci) Hp Hv Hw Hd Hl Hcmd (co_pkt _ _ Hop) (cp_top P))
    as (s' & dat' & pkt' & E & H0 & Hh' & H1 & H2).
  destruct (stored_fields (pkt_req pkt) b) as (F1 & F2 & F3 & F4 & F5 & F6 & F7).
  assert (num_ok (block (pkt_addr pkt))) as Hn by (apply num_ok_block; apply Hop).
  eexists _, pkt', dat'. split; [exact E|]. split; [done|]. split.
  - rewrite <- F7. eapply (changed_block st _ _ _ p b); try done.
    + apply (is_for_addr (pkt_addr pkt)); [by rewrite block_mul|done].
    + by apply (blocks_inv_keep c _ _ _ p b).
    + destruct (ci_data _ _ _ Hci) as [W1 W2 W3 W4]. split; cbn; [by rewrite length_insert|apply Forall_insert; [done|by rewrite H1]|done|done].
  - split; [done|]. intros i Hi. rewrite H2 by done. by rewrite (cp_len _ _ _ (co_pkt _ _ Hop)).
Qed.

(** ** Whole atomic requests *)

(** The answers to a processor. *)
Definition loaded (pkt pkt' : Packet) (dat : list Z) : Prop :=
  pkt_cmd pkt' = ReadResp /\ exists d', pkt_data pkt' = Some d' /\ Z.of_nat (length d') = pkt_size pkt /\
    forall i, 0 <= i < pkt_size pkt -> d' !! Z.to_nat i = dat !! Z.to_nat (getOffset pkt (blkSize c) + i).

Lemma promote_part pkt d : cpu_op pkt d -> promoteWholeLineWrites c P pkt = Ret pkt.
Proof.
  intros Hop. unfold promoteWholeLineWrites. pose proof (cp_size _ _ _ (co_pkt _ _ Hop)).
  assert (pkt_size pkt =? blkSize c = false) as -> by (apply Z.eqb_neq; lia). by rewrite andb_false_r.
Qed.

Lemma cycles_total n : exists m, ticksToCycles c n = Ret m.
Proof using Hc. unfold ticksToCycles, divCeil. pose proof (cw_period _ Hc). destruct (Z.eqb_spec (clockPeriod c) 0); [lia|]. by eexists. Qed.

Section whole.
Context {W : Type} (send : W -> Packet -> res (W * Packet * Z)) (Hby : cacheBypass P = false).

Lemma response_ok pkt cmd : cmd = ReadReq \/ cmd = WriteReq -> pkt_cmd pkt = cmd ->
  exists pkt', (if cmd_needsResponse (pkt_cmd pkt) then makeResponse pkt else Ret pkt) = Ret pkt' /\
    pkt_cmd pkt' = responseCommand cmd /\ pkt_data pkt' = pkt_data pkt.
Proof. intros Hcmd Hp. unfold makeResponse. rewrite Hp. destruct Hcmd as [-> | ->]; eexists; (split; [reflexivity|done]). Qed.

(** A load that hits. *)
Lemma atomic_read_hit w (st : cache) pkt d v dat e : cache_inv c Inv st -> cpu_op pkt d -> pkt_cmd pkt = ReadReq ->
  holds st (pkt_isSecure pkt) (block (pkt_addr pkt)) (Some (v, dat)) -> st_readable v = true ->
  exists st' pkt' lat, recvAtomic c P send w st pkt e = Ret (w, st', pkt', lat) /\ unchanged st st' /\ loaded pkt pkt' dat.
Proof using OK Hc Hby.
  intros Hci Hop Hcmd Hho Hr. apply (proj1 (holds_lookup _ _ _ _)) in Hho. apply Z.eqb_eq in Hr.
  destruct (access_read_hit c Inv Hc (cp_top P) (lookupLatency P) (fun _ _ => None) st pkt d v dat (ev_rnd e) (ev_now e) Hci Hcmd (co_pkt _ _ Hop) Hho Hr)
    as (r & d' & Ea & Es & Ew & _ & Ec & Ed & El & Hb & Hci' & Hoth).
  destruct (response_ok (ar_pkt r) ReadReq) as (pkt' & Er & Ec' & Ed'); [by left|done|].
  unfold recvAtomic. rewrite Hby, (promote_part pkt d Hop). bsimpl. rewrite (co_inhibit _ _ Hop), Ea. bsimpl. rewrite Ew, Es. cbn [send_writebacks negb]. bsimpl. rewrite Er. bsimpl.
  do 3 eexists. split; [done|]. split.
  - split; [done|]. intros n sec o Hn. unfold holds. rewrite Hoth; [done|]. by apply num_ok_word.
  - split; [done|]. exists d'. by rewrite Ed'.
Qed.

(** A store that hits. *)
Lemma atomic_write_hit w (st : cache) pkt d v dat e : cache_inv c Inv st -> cpu_op pkt d -> pkt_cmd pkt = WriteReq ->
  holds st (pkt_isSecure pkt) (block (pkt_addr pkt)) (Some (v, dat)) -> st_writable v = true ->
  exists st' pkt' lat dat', recvAtomic c P send w st pkt e = Ret (w, st', pkt', lat) /\ pkt_cmd pkt' = WriteResp /\
    changed st st' (pkt_isSecure pkt) (block (pkt_addr pkt)) (Some (Z.lor v BlkDirty, dat')) /\ patched (getOffset pkt (blkSize c)) d dat dat'.
Proof using OK Hc Hby.
  intros Hci Hop Hcmd Hho Hr. pose proof (num_ok_block (pkt_addr pkt) (cp_addr _ _ _ (co_pkt _ _ Hop))) as Hn.
  destruct (holds_inv st _ _ v dat Hci Hn Hho) as (_ & _ & _ & _ & _ & _ & _ & Hl).
  apply (proj1 (holds_lookup _ _ _ _)) in Hho. apply Z.eqb_eq in Hr.
  destruct (store_hit c Inv Hc (cp_top P) (lookupLatency P) (fun _ _ => None) st pkt d v dat (ev_rnd e) (ev_now e) Hci Hcmd (co_pkt _ _ Hop) Hho Hr)
    as (r & dat' & Ea & Es & Ew & Ec & Hci' & El & Hb & Hoth).
  destruct (response_ok (ar_pkt r) WriteReq) as (pkt' & Er & Ec' & _); [by right|done|].
  unfold recvAtomic. rewrite Hby, (promote_part pkt d Hop). bsimpl. rewrite (co_inhibit _ _ Hop), Ea. bsimpl. rewrite Ew, Es. cbn [send_writebacks negb]. bsimpl. rewrite Er. bsimpl.
  apply (proj2 (holds_lookup _ _ _ _)) in El. destruct (holds_inv (ar_state r) _ _ _ dat' Hci' Hn El) as (_ & _ & _ & _ & _ & _ & _ & Hl').
  do 4 eexists. split; [done|]. split; [done|]. split.
  - split; [done|]. intros n sec o Hn'. case_decide as Hd.
    + destruct Hd as [-> ->]. split; [intros H; by apply (holds_fun _ _ _ _ _ H El)|by intros ->].
    + unfold holds. rewrite Hoth; [done|by apply num_ok_word|]. apply other_block in Hd as [Hd|Hd]; [left|by right].
      rewrite !blkAlign_block, block_mul by (by apply num_ok_word || apply Hop). pose proof blkSize_pos. intros E%Z.mul_cancel_r; [done|lia].
  - split; [lia|]. intros i Hi. rewrite Hb by done. by rewrite (cp_len _ _ _ (co_pkt _ _ Hop)).
Qed.

Lemma lor_has v x m : Z.land x m = m -> Z.land (Z.lor v x) m = m.
Proof.
  intros H. rewrite Z.land_lor_distr_l, H. apply Z.bits_inj'. intros i Hi. rewrite Z.lor_spec, Z.land_spec.
  by destruct (Z.testbit v i), (Z.testbit m i).
Qed.

Lemma refill_rights resp v : sharedAsserted resp = false -> st_writable (refill resp v) = true /\ st_readable (refill resp v) = true.
Proof.
  intros Hsh. unfold refill. rewrite Hsh. unfold st_writable, st_readable.
  destruct (memInhibitAsserted resp); rewrite <- !Z.lor_assoc; split; apply Z.eqb_eq; by apply lor_has.
Qed.

(** A miss goes below; the answer fills a block, from which the request is satisfied. *)
Lemma atomic_miss_done w w1 w2 (st st1 st2 st' : cache) pkt d blk present lat resp l d1 r pkt2 wbs e : cpu_op pkt d ->
  access c (cp_top P) (lookupLatency P) (fun _ _ => None) st pkt (ev_rnd e) (ev_now e) = Ret (mkAccessResult st1 pkt blk lat false []) ->
  getBusPacket c st1 pkt blk (cmd_needsExclusive (pkt_cmd pkt)) (ev_junk e) = Ret (Some (miss_pkt pkt present (ev_junk e))) ->
  send w (miss_pkt pkt present (ev_junk e)) = Ret (w1, resp, l) -> bus_resp (miss_pkt pkt present (ev_junk e)) resp d1 ->
  handleFill c (fillLatency P) (fun _ _ => None) st1 resp blk (ev_rnd e) (ev_now e) (ev_edge e) = Ret (st2, r, wbs) ->
  satisfyCpuSideRequest c (cp_top P) st2 pkt r false false (ev_now e) = Ret (st', pkt2) -> pkt_cmd pkt2 = pkt_cmd pkt ->
  send_writebacks send w1 wbs = Ret w2 ->
  exists pkt', pkt_cmd pkt' = responseCommand (pkt_cmd pkt) /\ pkt_data pkt' = pkt_data pkt2 /\
    exists lat', recvAtomic c P send w st pkt e = Ret (w2, st', pkt', lat').
Proof using OK Hc Hby.
  intros Hop Ea Eg Es Hrs Ef Esat Ec Hw.
  destruct (response_ok pkt2 (pkt_cmd pkt)) as (pkt' & Er & Ec' & Ed'); [apply Hop|done|]. destruct (cycles_total l) as (m & Em).
  exists pkt'. split; [done|]. split; [done|].
  pose proof (br_cmd _ _ _ Hrs) as Erc. unfold miss_pkt in Erc. cbn in Erc.
  assert (cmd_isResponse (pkt_cmd resp) = true /\ cmd_isError (pkt_cmd resp) = false /\ cmd_isRead (pkt_cmd resp) || bool_decide (pkt_cmd resp = UpgradeResp) = true) as (R1 & R2 & R3).
  { rewrite Erc. unfold miss_cmd. destruct present; [done|]. by destruct (bool_decide (pkt_cmd pkt = WriteReq)). }
  destruct (cpu_cmd_facts _ (co_cmd _ _ Hop)) as (_ & _ & F3 & F4 & _).
  unfold recvAtomic. rewrite Hby, (promote_part pkt d Hop). bsimpl. rewrite (co_inhibit _ _ Hop), Ea. bsimpl.
  cbn [ar_writebacks ar_satisfied ar_state ar_pkt ar_blk ar_lat send_writebacks negb]. bsimpl.
  unfold atomic_miss. rewrite Eg. bsimpl. cbn [from_option id]. rewrite Es. bsimpl. rewrite Em. bsimpl.
  unfold atomic_response. rewrite F3, F4, R1, R2, R3. cbn [cassert]. bsimpl. rewrite Ef. bsimpl. rewrite Esat. bsimpl. rewrite Hw. bsimpl. rewrite Er.
  by eexists.
Qed.

Lemma atomic_read_miss w w1 (st : cache) pkt d resp l d1 e : cache_inv c Inv st -> cpu_op pkt d -> pkt_cmd pkt = ReadReq -> draw_ok c (ev_rnd e) ->
  holds st (pkt_isSecure pkt) (block (pkt_addr pkt)) None -> Z.of_nat (length (ev_junk e)) = blkSize c ->
  send w (miss_pkt pkt false (ev_junk e)) = Ret (w1, resp, l) -> bus_resp (miss_pkt pkt false (ev_junk e)) resp d1 ->
  exists st' wbs, evicts st st' (pkt_isSecure pkt) (block (pkt_addr pkt)) (Some (fill_status resp, d1)) wbs /\
    forall w2, send_writebacks send w1 wbs = Ret w2 ->
      exists pkt' lat, recvAtomic c P send w st pkt e = Ret (w2, st', pkt', lat) /\ loaded pkt pkt' d1.
Proof using OK Hc Hby.
  intros Hci Hop Hcmd Hr Hno Hj Es Hrs.
  destruct (access_absent (lookupLatency P) (fun _ _ => None) st pkt d (ev_rnd e) (ev_now e) Hci Hop Hno) as (st1 & lat & Ea & Hun). pose proof (proj1 Hun) as Hci1.
  assert (Hno1 : holds st1 (pkt_isSecure pkt) (block (pkt_addr pkt)) None) by (apply Hun; [apply num_ok_block; apply Hop|done]).
  destruct (fill_evicts st1 pkt _ resp d d1 e Hci1 Hop Hr Hno1 Hj eq_refl Hrs) as (st2 & p & b & wbs & Ef & Hev & Hp & Hf & Hst & Hd).
  destruct (sat_read st2 pkt d p b d1 (ev_now e) (proj1 Hev) Hop Hcmd Hp Hf Hd) as (pkt2 & d2 & Esat & Ec & Ed & El & Hb).
  exists st2, wbs. split; [by eapply unchanged_evicts|]. intros w2 Hw.
  destruct (atomic_miss_done w w1 w2 st st1 st2 st2 pkt d None false lat resp l d1 (InTags p) pkt2 wbs e Hop Ea
    (getBusPacket_absent st1 pkt d (ev_junk e) Hop Hj) Es Hrs Ef Esat) as (pkt' & Ec' & Ed' & lat' & E); [congruence|done|].
  exists pkt', lat'. split; [done|]. split; [by rewrite Ec', Hcmd|]. exists d2. by rewrite Ed'.
Qed.

Lemma atomic_write_miss w w1 (st : cache) pkt d resp l d1 e : cache_inv c Inv st -> cpu_op pkt d -> pkt_cmd pkt = WriteReq -> draw_ok c (ev_rnd e) ->
  holds st (pkt_isSecure pkt) (block (pkt_addr pkt)) None -> Z.of_nat (length (ev_junk e)) = blkSize c ->
  send w (miss_pkt pkt false (ev_junk e)) = Ret (w1, resp, l) -> bus_resp (miss_pkt pkt false (ev_junk e)) resp d1 -> sharedAsserted resp = false ->
  exists st' wbs dat', evicts st st' (pkt_isSecure pkt) (block (pkt_addr pkt)) (Some (Z.lor (fill_status resp) BlkDirty, dat')) wbs /\
    patched (getOffset pkt (blkSize c)) d d1 dat' /\
    forall w2, send_writebacks send w1 wbs = Ret w2 ->
      exists pkt' lat, recvAtomic c P send w st pkt e = Ret (w2, st', pkt', lat) /\ pkt_cmd pkt' = WriteResp.
Proof using OK Hc Hby.
  intros Hci Hop Hcmd Hr Hno Hj Es Hrs Hsh.
  destruct (access_absent (lookupLatency P) (fun _ _ => None) st pkt d (ev_rnd e) (ev_now e) Hci Hop Hno) as (st1 & lat & Ea & Hun). pose proof (proj1 Hun) as Hci1.
  assert (Hno1 : holds st1 (pkt_isSecure pkt) (block (pkt_addr pkt)) None) by (apply Hun; [apply num_ok_block; apply Hop|done]).
  destruct (fill_evicts st1 pkt _ resp d d1 e Hci1 Hop Hr Hno1 Hj eq_refl Hrs) as (st2 & p & b & wbs & Ef & Hev & Hp & Hf & Hst & Hd).
  destruct (sat_write st2 pkt d p b d1 (ev_now e) (proj1 Hev) Hop Hcmd Hp Hf) as (st' & pkt2 & dat' & Esat & Ec & Hch & Hpa); [|done|].
  { unfold isWritable. rewrite Hst. unfold fill_status. rewrite Hsh. by destruct (pkt_isSecure resp), (memInhibitAsserted resp). }
  rewrite Hst in Hch. exists st', wbs, dat'. split; [eapply unchanged_evicts; [done|]; by eapply evicts_changed|]. split; [done|]. intros w2 Hw.
  destruct (atomic_miss_done w w1 w2 st st1 st2 st' pkt d None false lat resp l d1 (InTags p) pkt2 wbs e Hop Ea
    (getBusPacket_absent st1 pkt d (ev_junk e) Hop Hj) Es Hrs Ef Esat) as (pkt' & Ec' & Ed' & lat' & E); [congruence|done|].
  exists pkt', lat'. split; [done|]. by rewrite Ec', Hcmd.
Qed.

(** A store to a block held without the right to write. *)
Lemma atomic_upgrade w w1 (st : cache) pkt d v dat resp l d1 e : cache_inv c Inv st -> cpu_op pkt d -> pkt_cmd pkt = WriteReq ->
  holds st (pkt_isSecure pkt) (block (pkt_addr pkt)) (Some (v, dat)) -> st_writable v = false -> Z.of_nat (length (ev_junk e)) = blkSize c ->
  send w (miss_pkt pkt true (ev_junk e)) = Ret (w1, resp, l) -> bus_resp (miss_pkt pkt true (ev_junk e)) resp d1 -> sharedAsserted resp = false ->
  exists st' pkt' dat' lat, recvAtomic c P send w st pkt e = Ret (w1, st', pkt', lat) /\ pkt_cmd pkt' = WriteResp /\
    changed st st' (pkt_isSecure pkt) (block (pkt_addr pkt)) (Some (Z.lor (refill resp v) BlkDirty, dat')) /\ patched (getOffset pkt (blkSize c)) d dat dat'.
Proof using OK Hc Hby.
  intros Hci Hop Hcmd Hho Hnw Hj Es Hrs Hsh.
  destruct (access_shared (lookupLatency P) (fun _ _ => None) st pkt d v dat (ev_rnd e) (ev_now e) Hci Hop Hcmd Hho Hnw) as (st1 & lat & p & b & Ea & Hun & Hp & Hf & Hst & Hd).
  pose proof (proj1 Hun) as Hci1.
  destruct (fill_upgrades st1 pkt resp d d1 dat p b e Hci1 Hop Hp Hf Hd Hj Hrs) as (st2 & b2 & Ef & Hch & Hp2 & Hf2 & Hst2 & Hd2).
  destruct (sat_write st2 pkt d p b2 dat (ev_now e) (proj1 Hch) Hop Hcmd Hp2 Hf2) as (st' & pkt2 & dat' & Esat & Ec & Hch2 & Hpa); [|done|].
  { unfold isWritable. rewrite Hst2. by apply refill_rights. }
  rewrite Hst2, Hst in Hch2. rewrite Hst in Hch.
  destruct (atomic_miss_done w w1 w1 st st1 st2 st' pkt d (Some p) true lat resp l d1 (InTags p) pkt2 [] e Hop Ea) as (pkt' & Ec' & Ed' & lat' & E);
    [apply (getBusPacket_present st1 pkt d _ p b); try done; [apply Hf|unfold isWritable; by rewrite Hst]|done|done|done|done|congruence|done|].
  exists st', pkt', dat', lat'. split; [done|]. split; [by rewrite Ec', Hcmd|]. split; [|done].
  eapply unchanged_changed; [done|]. by eapply changed_changed.
Qed.
End whole.
End spec.
