(* ===== verification/BPred.v ===== *)
(** * Direction predictors: [cpu/pred/sat_counter.hh], [2bit_local.cc],
    [tournament.cc], [bi_mode.cc]

    The virtual functions of a direction predictor are the class [DirPred]; its
    laws [DirPredOk] are what the branch prediction unit relies on.  The opaque
    history record a predictor hands out ([void *bp_history]) is an [option] of
    the predictor's own record type; its allocation is not modelled. *)

From S2P Require Import Prelude IntMath.
Local Open Scope Z_scope.

(** ** [SatCounter] *)

Record SatCounter := mkSatCounter { ctr_initial : Z; ctr_max : Z; ctr_val : Z }.

(** The default constructor followed by [setBits]. *)
Definition ctr_new (nbits : Z) : SatCounter := mkSatCounter 0 (u8 (Z.shiftl 1 nbits - 1)) 0.

(** [SatCounter(bits, initial_val)] *)
Definition ctr_new_init (nbits initial_val : Z) : res SatCounter :=
  let m := u8 (Z.shiftl 1 nbits - 1) in
  if m <? initial_val then Err Fatal else Ret (mkSatCounter initial_val m initial_val).

Definition ctr_reset (c : SatCounter) : SatCounter :=
  mkSatCounter (ctr_initial c) (ctr_max c) (ctr_initial c).
Definition ctr_increment (c : SatCounter) : SatCounter :=
  if ctr_val c <? ctr_max c then mkSatCounter (ctr_initial c) (ctr_max c) (u8 (ctr_val c + 1)) else c.
Definition ctr_decrement (c : SatCounter) : SatCounter :=
  if 0 <? ctr_val c then mkSatCounter (ctr_initial c) (ctr_max c) (ctr_val c - 1) else c.

(** [ctrs[i].increment()] or [decrement()] *)
Definition ctr_train (l : list SatCounter) (i : Z) (taken : bool) : res (list SatCounter) :=
  c ← vread l (Z.to_nat i);
  vwrite l (Z.to_nat i) (if taken then ctr_increment c else ctr_decrement c).

(** ** The interface of a direction predictor *)

Class DirPred (S H : Type) := {
  dp_lookup : S -> Z -> res (bool * option H * S);
  dp_uncondBranch : S -> Z -> res (option H * S);
  dp_btbUpdate : S -> Z -> option H -> res S;
  dp_update : S -> Z -> bool -> option H -> bool -> res S;
  dp_squash : S -> option H -> res S;
  dp_retireSquashed : S -> option H -> res S
}.

(** The laws: on predictors and records that satisfy their invariants every
    operation succeeds and keeps them; [spec] is the speculative history, which a
    record remembers as it was before its branch and [squash] restores. *)
Class DirPredOk (S H : Type) `{DirPred S H} (Inv : S -> Prop) (Rec : S -> option H -> Prop)
    (spec : S -> Z) (old : option H -> Z) : Prop := {
  dpo_lookup s a : Inv s -> inword 64 a ->
    exists taken r s', dp_lookup s a = Ret (taken, r, s') /\ Inv s' /\ Rec s' r /\
      old r = spec s /\ forall r', Rec s r' -> Rec s' r';
  dpo_uncond s a : Inv s -> inword 64 a ->
    exists r s', dp_uncondBranch s a = Ret (r, s') /\ Inv s' /\ Rec s' r /\
      old r = spec s /\ forall r', Rec s r' -> Rec s' r';
  dpo_btb s a r : Inv s -> inword 64 a ->
    exists s', dp_btbUpdate s a r = Ret s' /\ Inv s' /\ forall r', Rec s r' -> Rec s' r';
  dpo_update s a taken r squashed : Inv s -> inword 64 a -> Rec s r ->
    exists s', dp_update s a taken r squashed = Ret s' /\ Inv s' /\
      (squashed = false -> spec s' = spec s) /\ forall r', Rec s r' -> Rec s' r';
  dpo_squash s r : Inv s -> Rec s r ->
    exists s', dp_squash s r = Ret s' /\ Inv s' /\ spec s' = old r /\
      forall r', Rec s r' -> Rec s' r';
  dpo_retire s r : Inv s -> Rec s r -> dp_retireSquashed s r = Ret s
}.

(** ** [LocalBP] *)

Record LocalBP := mkLocalBP {
  localCtrs : list SatCounter;
  localPredictorSize : Z;
  localPredictorSets : Z;
  localCtrBits : Z;
  indexMask : Z;
  instShiftAmt : Z
}.

Definition LocalBP_new (size nbits shift : Z) : res LocalBP :=
  if negb (isPowerOf2 32 size) then Err Fatal
  else if nbits =? 0 then Err DivByZero
  else
    let nsets := size / nbits in
    if negb (isPowerOf2 32 nsets) then Err Fatal
    else Ret (mkLocalBP (replicate (Z.to_nat nsets) (ctr_new nbits)) size nsets nbits (nsets - 1) shift).

Definition local_with (s : LocalBP) (l : list SatCounter) : LocalBP :=
  mkLocalBP l (localPredictorSize s) (localPredictorSets s) (localCtrBits s) (indexMask s)
    (instShiftAmt s).

Definition LocalBP_reset (s : LocalBP) : LocalBP := local_with s (ctr_reset <$> localCtrs s).

Definition getLocalIndex (s : LocalBP) (a : Z) : Z :=
  Z.land (Z.shiftr a (instShiftAmt s)) (indexMask s).
Definition getPrediction (s : LocalBP) (count : Z) : bool :=
  negb (Z.shiftr count (localCtrBits s - 1) =? 0).

Definition LocalBP_lookup (s : LocalBP) (a : Z) : res (bool * option unit * LocalBP) :=
  c ← vread (localCtrs s) (Z.to_nat (getLocalIndex s a));
  Ret (getPrediction s (ctr_val c), None, s).

Definition is_null {H} (r : option H) : bool := match r with None => true | Some _ => false end.

Definition LocalBP_update (s : LocalBP) (a : Z) (taken : bool) (r : option unit) (squashed : bool) :
    res LocalBP :=
  _ ← cassert (is_null r);
  l ← ctr_train (localCtrs s) (getLocalIndex s a) taken;
  Ret (local_with s l).

Definition LocalBP_squash (s : LocalBP) (r : option unit) : res LocalBP :=
  _ ← cassert (is_null r); Ret s.

#[export] Instance LocalBP_pred : DirPred LocalBP unit := {
  dp_lookup := LocalBP_lookup;
  dp_uncondBranch s a := Ret (None, s);
  dp_btbUpdate s a r := Ret s;
  dp_update := LocalBP_update;
  dp_squash := LocalBP_squash;
  dp_retireSquashed := LocalBP_squash
}.

(** ** [TournamentBP] *)

Record TournamentHistory := mkTournamentHistory {
  th_globalHistory : Z;
  th_localHistory : Z;
  th_localPredTaken : bool;
  th_globalPredTaken : bool;
  th_globalUsed : bool
}.

(** [invalidPredictorIndex], as the [unsigned] it is stored in. *)
Definition invalidPredictorIndex : Z := 2 ^ 32 - 1.

Record TournamentBP := mkTournamentBP {
  t_localCtrs : list SatCounter;
  t_localPredictorSize : Z;
  localPredictorMask : Z;
  localHistoryTable : list Z;
  localHistoryTableSize : Z;
  globalCtrs : list SatCounter;
  globalHistory : Z;
  globalHistoryMask : Z;
  choiceHistoryMask : Z;
  historyRegisterMask : Z;
  choiceCtrs : list SatCounter;
  localThreshold : Z;
  globalThreshold : Z;
  choiceThreshold : Z;
  t_instShiftAmt : Z
}.

Record TournamentParams := mkTournamentParams {
  tp_localPredictorSize : Z; tp_localCtrBits : Z; tp_localHistoryTableSize : Z;
  tp_globalPredictorSize : Z; tp_globalCtrBits : Z;
  tp_choicePredictorSize : Z; tp_choiceCtrBits : Z; tp_instShiftAmt : Z
}.

Definition threshold (nbits : Z) : Z := u32 (Z.shiftl 1 (nbits - 1) - 1).

Definition TournamentBP_new (p : TournamentParams) : res TournamentBP :=
  localHistoryBits ← ceilLog2 (tp_localPredictorSize p);
  gb ← ceilLog2 (tp_globalPredictorSize p);
  cb ← ceilLog2 (tp_choicePredictorSize p);
  let globalHistoryBits := if cb <? gb then gb else cb in
  if negb (isPowerOf2 32 (tp_localPredictorSize p)) then Err Fatal
  else if negb (isPowerOf2 32 (tp_globalPredictorSize p)) then Err Fatal
  else if negb (isPowerOf2 32 (tp_localHistoryTableSize p)) then Err Fatal
  else if negb (isPowerOf2 32 (tp_choicePredictorSize p)) then Err Fatal
  else
    let hrm := u32 (mask globalHistoryBits) in
    let ghm := u32 (tp_globalPredictorSize p - 1) in
    let chm := u32 (tp_choicePredictorSize p - 1) in
    if hrm <? ghm then Err Fatal
    else if hrm <? chm then Err Fatal
    else Ret (mkTournamentBP
      (replicate (Z.to_nat (tp_localPredictorSize p)) (ctr_new (tp_localCtrBits p)))
      (tp_localPredictorSize p) (u32 (mask localHistoryBits))
      (replicate (Z.to_nat (tp_localHistoryTableSize p)) 0) (tp_localHistoryTableSize p)
      (replicate (Z.to_nat (tp_globalPredictorSize p)) (ctr_new (tp_globalCtrBits p)))
      0 ghm chm hrm
      (replicate (Z.to_nat (tp_choicePredictorSize p)) (ctr_new (tp_choiceCtrBits p)))
      (threshold (tp_localCtrBits p)) (threshold (tp_globalCtrBits p))
      (threshold (tp_choiceCtrBits p)) (tp_instShiftAmt p)).

Definition t_with_hist (s : TournamentBP) (g : Z) (l : list Z) : TournamentBP :=
  mkTournamentBP (t_localCtrs s) (t_localPredictorSize s) (localPredictorMask s) l
    (localHistoryTableSize s) (globalCtrs s) g (globalHistoryMask s) (choiceHistoryMask s)
    (historyRegisterMask s) (choiceCtrs s) (localThreshold s) (globalThreshold s)
    (choiceThreshold s) (t_instShiftAmt s).
Definition t_with_ctrs (s : TournamentBP) (l g c : list SatCounter) : TournamentBP :=
  mkTournamentBP l (t_localPredictorSize s) (localPredictorMask s) (localHistoryTable s)
    (localHistoryTableSize s) g (globalHistory s) (globalHistoryMask s) (choiceHistoryMask s)
    (historyRegisterMask s) c (localThreshold s) (globalThreshold s)
    (choiceThreshold s) (t_instShiftAmt s).

Definition calcLocHistIdx (s : TournamentBP) (a : Z) : Z :=
  Z.land (Z.shiftr a (t_instShiftAmt s)) (localHistoryTableSize s - 1).

(** [(history << 1) | 1] or [history << 1], in an [unsigned]. *)
Definition shift_in (history : Z) (taken : bool) : Z :=
  Z.lor (u32 (Z.shiftl history 1)) (if taken then 1 else 0).

(** [updateGlobalHistTaken], [updateGlobalHistNotTaken] *)
Definition updateGlobalHist (s : TournamentBP) (taken : bool) : TournamentBP :=
  t_with_hist s (Z.land (shift_in (globalHistory s) taken) (historyRegisterMask s))
    (localHistoryTable s).

(** [updateLocalHistTaken], [updateLocalHistNotTaken] *)
Definition updateLocalHist (s : TournamentBP) (idx : Z) (taken : bool) : res TournamentBP :=
  x ← vread (localHistoryTable s) (Z.to_nat idx);
  l ← vwrite (localHistoryTable s) (Z.to_nat idx) (shift_in x taken);
  Ret (t_with_hist s (globalHistory s) l).

Definition TournamentBP_btbUpdate (s : TournamentBP) (a : Z) (r : option TournamentHistory) :
    res TournamentBP :=
  let idx := calcLocHistIdx s a in
  let g := Z.land (globalHistory s) (Z.land (historyRegisterMask s) (wnot 64 1)) in
  x ← vread (localHistoryTable s) (Z.to_nat idx);
  l ← vwrite (localHistoryTable s) (Z.to_nat idx)
        (Z.land x (Z.land (localPredictorMask s) (wnot 64 1)));
  Ret (t_with_hist s g l).

Definition TournamentBP_lookup (s : TournamentBP) (a : Z) :
    res (bool * option TournamentHistory * TournamentBP) :=
  let local_history_idx := calcLocHistIdx s a in
  lh ← vread (localHistoryTable s) (Z.to_nat local_history_idx);
  let local_predictor_idx := Z.land lh (localPredictorMask s) in
  lc ← vread (t_localCtrs s) (Z.to_nat local_predictor_idx);
  let local_prediction := localThreshold s <? ctr_val lc in
  gc ← vread (globalCtrs s) (Z.to_nat (Z.land (globalHistory s) (globalHistoryMask s)));
  let global_prediction := globalThreshold s <? ctr_val gc in
  cc ← vread (choiceCtrs s) (Z.to_nat (Z.land (globalHistory s) (choiceHistoryMask s)));
  let choice_prediction := choiceThreshold s <? ctr_val cc in
  let history := mkTournamentHistory (globalHistory s) local_predictor_idx local_prediction
                   global_prediction choice_prediction in
  _ ← cassert (local_history_idx <? localHistoryTableSize s);
  let taken := if choice_prediction then global_prediction else local_prediction in
  s ← updateLocalHist (updateGlobalHist s taken) local_history_idx taken;
  Ret (taken, Some history, s).

Definition TournamentBP_uncondBranch (s : TournamentBP) (a : Z) :
    res (option TournamentHistory * TournamentBP) :=
  Ret (Some (mkTournamentHistory (globalHistory s) invalidPredictorIndex true true true),
       updateGlobalHist s true).

(** The part of [update] that trains the counters. *)
Definition tournament_train (s : TournamentBP) (taken : bool) (h : TournamentHistory) :
    res TournamentBP :=
  let old_local_pred_index := Z.land (th_localHistory h) (localPredictorMask s) in
  let old_local_pred_valid := negb (th_localHistory h =? invalidPredictorIndex) in
  c ← (if negb (eqb (th_localPredTaken h) (th_globalPredTaken h)) then
         let idx := Z.land (th_globalHistory h) (choiceHistoryMask s) in
         if eqb (th_localPredTaken h) taken then ctr_train (choiceCtrs s) idx false
         else if eqb (th_globalPredTaken h) taken then ctr_train (choiceCtrs s) idx true
         else Ret (choiceCtrs s)
       else Ret (choiceCtrs s));
  g ← ctr_train (globalCtrs s) (Z.land (th_globalHistory h) (globalHistoryMask s)) taken;
  l ← (if old_local_pred_valid then ctr_train (t_localCtrs s) old_local_pred_index taken
       else Ret (t_localCtrs s));
  Ret (t_with_ctrs s l g c).

Definition TournamentBP_update (s : TournamentBP) (a : Z) (taken : bool)
    (r : option TournamentHistory) (squashed : bool) : res TournamentBP :=
  let local_history_idx := calcLocHistIdx s a in
  _ ← vread (localHistoryTable s) (Z.to_nat local_history_idx);
  s ← match r with
      | None => Ret s
      | Some h =>
          let old_local_pred_index := Z.land (th_localHistory h) (localPredictorMask s) in
          let old_local_pred_valid := negb (th_localHistory h =? invalidPredictorIndex) in
          _ ← cassert (old_local_pred_index <? t_localPredictorSize s);
          let historyPred := if th_globalUsed h then th_globalPredTaken h
                             else th_localPredTaken h in
          s ← (if negb (eqb historyPred taken) || negb squashed then tournament_train s taken h
               else Ret s);
          if squashed then
            let g := Z.land (shift_in (th_globalHistory h) taken) (historyRegisterMask s) in
            l ← (if old_local_pred_valid
                 then vwrite (localHistoryTable s) (Z.to_nat local_history_idx)
                        (shift_in (th_localHistory h) taken)
                 else Ret (localHistoryTable s));
            Ret (t_with_hist s g l)
          else Ret s
      end;
  _ ← cassert (local_history_idx <? localHistoryTableSize s);
  Ret s.

Definition TournamentBP_squash (s : TournamentBP) (r : option TournamentHistory) :
    res TournamentBP :=
  match r with
  | None => Err OutOfBounds
  | Some h => Ret (t_with_hist s (th_globalHistory h) (localHistoryTable s))
  end.

#[export] Instance TournamentBP_pred : DirPred TournamentBP TournamentHistory := {
  dp_lookup := TournamentBP_lookup;
  dp_uncondBranch := TournamentBP_uncondBranch;
  dp_btbUpdate := TournamentBP_btbUpdate;
  dp_update := TournamentBP_update;
  dp_squash := TournamentBP_squash;
  dp_retireSquashed s r := Ret s
}.

(** ** [BiModeBP] *)

Record BiModeHistory := mkBiModeHistory {
  bh_globalHistoryReg : Z;
  bh_takenUsed : bool;
  bh_takenPred : bool;
  bh_notTakenPred : bool;
  bh_finalPred : bool
}.

Record BiModeBP := mkBiModeBP {
  choiceCounters : list SatCounter;
  takenCounters : list SatCounter;
  notTakenCounters : list SatCounter;
  globalHistoryReg : Z;
  b_historyRegisterMask : Z;
  b_choicePredictorSize : Z;
  b_choiceHistoryMask : Z;
  b_globalPredictorSize : Z;
  b_globalHistoryMask : Z;
  b_choiceThreshold : Z;
  takenThreshold : Z;
  notTakenThreshold : Z;
  b_instShiftAmt : Z
}.

Definition BiModeBP_new (gsize gbits csize cbits shift : Z) : res BiModeBP :=
  hb ← ceilLog2 gsize;
  if negb (isPowerOf2 32 csize) then Err Fatal
  else if negb (isPowerOf2 32 gsize) then Err Fatal
  else Ret (mkBiModeBP
    (replicate (Z.to_nat csize) (ctr_new cbits)) (replicate (Z.to_nat gsize) (ctr_new gbits))
    (replicate (Z.to_nat gsize) (ctr_new gbits)) 0 (u32 (mask hb)) csize (u32 (csize - 1))
    gsize (u32 (gsize - 1)) (threshold cbits) (threshold cbits) (threshold cbits) shift).

Definition b_with_reg (s : BiModeBP) (g : Z) : BiModeBP :=
  mkBiModeBP (choiceCounters s) (takenCounters s) (notTakenCounters s) g
    (b_historyRegisterMask s) (b_choicePredictorSize s) (b_choiceHistoryMask s)
    (b_globalPredictorSize s) (b_globalHistoryMask s) (b_choiceThreshold s) (takenThreshold s)
    (notTakenThreshold s) (b_instShiftAmt s).
Definition b_with_ctrs (s : BiModeBP) (c t n : list SatCounter) : BiModeBP :=
  mkBiModeBP c t n (globalHistoryReg s)
    (b_historyRegisterMask s) (b_choicePredictorSize s) (b_choiceHistoryMask s)
    (b_globalPredictorSize s) (b_globalHistoryMask s) (b_choiceThreshold s) (takenThreshold s)
    (notTakenThreshold s) (b_instShiftAmt s).

Definition updateGlobalHistReg (s : BiModeBP) (taken : bool) : BiModeBP :=
  b_with_reg s (Z.land (shift_in (globalHistoryReg s) taken) (b_historyRegisterMask s)).

Definition BiModeBP_uncondBranch (s : BiModeBP) (a : Z) : res (option BiModeHistory * BiModeBP) :=
  Ret (Some (mkBiModeHistory (globalHistoryReg s) true true true true),
       updateGlobalHistReg s true).

Definition BiModeBP_squash (s : BiModeBP) (r : option BiModeHistory) : res BiModeBP :=
  match r with
  | None => Err OutOfBounds
  | Some h => Ret (b_with_reg s (bh_globalHistoryReg h))
  end.

Definition choiceHistoryIdx (s : BiModeBP) (a : Z) : Z :=
  Z.land (Z.shiftr a (b_instShiftAmt s)) (b_choiceHistoryMask s).
Definition globalHistoryIdx (s : BiModeBP) (a reg : Z) : Z :=
  Z.land (Z.lxor (Z.shiftr a (b_instShiftAmt s)) reg) (b_globalHistoryMask s).

Definition BiModeBP_lookup (s : BiModeBP) (a : Z) : res (bool * option BiModeHistory * BiModeBP) :=
  let ci := choiceHistoryIdx s a in
  let gi := globalHistoryIdx s a (globalHistoryReg s) in
  _ ← cassert (ci <? b_choicePredictorSize s);
  _ ← cassert (gi <? b_globalPredictorSize s);
  c ← vread (choiceCounters s) (Z.to_nat ci);
  t ← vread (takenCounters s) (Z.to_nat gi);
  n ← vread (notTakenCounters s) (Z.to_nat gi);
  let choicePrediction := b_choiceThreshold s <? ctr_val c in
  let takenGHBPrediction := takenThreshold s <? ctr_val t in
  let notTakenGHBPrediction := notTakenThreshold s <? ctr_val n in
  let finalPrediction := if choicePrediction then takenGHBPrediction
                         else notTakenGHBPrediction in
  let history := mkBiModeHistory (globalHistoryReg s) choicePrediction takenGHBPrediction
                   notTakenGHBPrediction finalPrediction in
  Ret (finalPrediction, Some history, updateGlobalHistReg s finalPrediction).

Definition BiModeBP_btbUpdate (s : BiModeBP) (a : Z) (r : option BiModeHistory) : res BiModeBP :=
  Ret (b_with_reg s (Z.land (globalHistoryReg s) (Z.land (b_historyRegisterMask s) (wnot 64 1)))).

Definition BiModeBP_update (s : BiModeBP) (a : Z) (taken : bool) (r : option BiModeHistory)
    (squashed : bool) : res BiModeBP :=
  match r with
  | None => Ret s
  | Some h =>
      let ci := choiceHistoryIdx s a in
      let gi := globalHistoryIdx s a (bh_globalHistoryReg h) in
      _ ← cassert (ci <? b_choicePredictorSize s);
      _ ← cassert (gi <? b_globalPredictorSize s);
      t ← (if bh_takenUsed h then ctr_train (takenCounters s) gi taken
           else Ret (takenCounters s));
      n ← (if bh_takenUsed h then Ret (notTakenCounters s)
           else ctr_train (notTakenCounters s) gi taken);
      c ← (if eqb (bh_finalPred h) taken && negb (eqb (bh_finalPred h) (bh_takenUsed h))
           then Ret (choiceCounters s) else ctr_train (choiceCounters s) ci taken);
      let s := b_with_ctrs s c t n in
      if squashed
      then Ret (b_with_reg s (Z.land (shift_in (bh_globalHistoryReg h) taken)
                                (b_historyRegisterMask s)))
      else Ret s
  end.

#[export] Instance BiModeBP_pred : DirPred BiModeBP BiModeHistory := {
  dp_lookup := BiModeBP_lookup;
  dp_uncondBranch := BiModeBP_uncondBranch;
  dp_btbUpdate := BiModeBP_btbUpdate;
  dp_update := BiModeBP_update;
  dp_squash := BiModeBP_squash;
  dp_retireSquashed s r := Ret s
}.

(** ** Counters and tables *)

Lemma ones_pow k : Z.ones k = 2 ^ k - 1.
Proof. rewrite Z.ones_equiv. lia. Qed.

Definition ctr_ok (c : SatCounter) : Prop := 0 <= ctr_val c <= ctr_max c /\ ctr_max c < 2 ^ 8.

Lemma ctr_new_ok nbits : ctr_ok (ctr_new nbits).
Proof. unfold ctr_ok, ctr_new. cbn. pose proof (wrap_range 8 (Z.shiftl 1 nbits - 1) ltac:(lia)). word_lia. Qed.

Lemma ctr_step_ok c (taken : bool) :
  ctr_ok c -> ctr_ok (if taken then ctr_increment c else ctr_decrement c).
Proof.
  intros [H1 H2]. destruct taken.
  - unfold ctr_increment. destruct (Z.ltb_spec (ctr_val c) (ctr_max c)); [|done].
    unfold ctr_ok. cbn. rewrite wrap_small by word_lia. lia.
  - unfold ctr_decrement. destruct (Z.ltb_spec 0 (ctr_val c)); [|done]. unfold ctr_ok. cbn. lia.
Qed.

(** A table of [2^k] counters. *)
Definition table_ok (l : list SatCounter) (m : Z) : Prop :=
  (exists k, 0 <= k < 32 /\ Z.of_nat (length l) = 2 ^ k /\ m = 2 ^ k - 1) /\ Forall ctr_ok l.

Lemma table_index l m x :
  table_ok l m -> 0 <= Z.land x m < Z.of_nat (length l).
Proof.
  intros [(k & Hk & -> & ->) _]. rewrite <- ones_pow, Z.land_ones by lia.
  apply Z.mod_pos_bound, pow2_pos. lia.
Qed.
Lemma table_read l m x :
  table_ok l m -> exists c, vread l (Z.to_nat (Z.land x m)) = Ret c /\ ctr_ok c.
Proof.
  intros Ht. pose proof (table_index l m x Ht).
  destruct (lookup_lt_is_Some_2 l (Z.to_nat (Z.land x m))) as [c Hc]; [lia|].
  exists c. rewrite (vread_some _ _ _ Hc). split; [done|].
  exact (Forall_lookup_1 _ _ _ _ (proj2 Ht) Hc).
Qed.

Lemma ctr_train_ok l m x taken :
  table_ok l m -> exists l', ctr_train l (Z.land x m) taken = Ret l' /\ table_ok l' m.
Proof.
  intros Ht. destruct (table_read l m x Ht) as (c & Hc & Hok). pose proof (table_index l m x Ht).
  unfold ctr_train. rewrite Hc. bsimpl. rewrite vwrite_lt by lia. eexists. split; [done|].
  destruct Ht as [(k & Hk & Hl & ->) Hf]. split; [exists k; by rewrite length_insert|].
  apply Forall_insert; [done|]. by apply ctr_step_ok.
Qed.

Lemma table_new k nbits :
  0 <= k < 32 -> table_ok (replicate (Z.to_nat (2 ^ k)) (ctr_new nbits)) (2 ^ k - 1).
Proof.
  intros Hk. pose proof (pow2_pos k ltac:(lia)). split.
  - exists k. rewrite length_replicate. split_and!; lia.
  - apply Forall_replicate, ctr_new_ok.
Qed.

(** Masks: the bits below [k]. *)
Lemma land_ones_range x k : 0 <= k -> 0 <= Z.land x (2 ^ k - 1) <= 2 ^ k - 1.
Proof.
  intros Hk. rewrite <- ones_pow, Z.land_ones, ones_pow by lia.
  pose proof (Z.mod_pos_bound x (2 ^ k) ltac:(by apply pow2_pos)). lia.
Qed.

Lemma land_submask x k m : 0 <= k -> 0 <= m -> 0 <= Z.land x (Z.land (2 ^ k - 1) m) <= 2 ^ k - 1.
Proof.
  intros Hk Hm. rewrite (Z.land_comm (2 ^ k - 1)), Z.land_assoc. by apply land_ones_range.
Qed.

Lemma power_of_2 n : inword 32 n -> isPowerOf2 32 n = true -> exists k, 0 <= k < 32 /\ n = 2 ^ k.
Proof. intros Hn. by apply isPowerOf2_spec. Qed.

(** ** The local predictor *)

Definition local_inv (s : LocalBP) : Prop := table_ok (localCtrs s) (indexMask s).

#[export] Instance LocalBP_ok :
  DirPredOk LocalBP unit local_inv (fun _ r => r = None) (fun _ => 0) (fun _ => 0).
Proof.
  split; cbn.
  - intros s a Hi Ha. unfold LocalBP_lookup, getLocalIndex.
    destruct (table_read _ _ (Z.shiftr a (instShiftAmt s)) Hi) as (c & -> & _). bsimpl.
    do 3 eexists. by split_and!.
  - intros s a Hi Ha. do 2 eexists. by split_and!.
  - intros s a r Hi Ha. eexists. by split_and!.
  - intros s a taken r sq Hi Ha ->. unfold LocalBP_update, getLocalIndex. cbn [is_null cassert]. bsimpl.
    destruct (ctr_train_ok _ _ (Z.shiftr a (instShiftAmt s)) taken Hi) as (l & -> & Hl). bsimpl.
    eexists. by split_and!.
  - intros s r Hi ->. eexists. by split_and!.
  - by intros s r Hi ->.
Qed.

(** ** The tournament predictor *)

Record tournament_inv (s : TournamentBP) : Prop := {
  ti_local : table_ok (t_localCtrs s) (localPredictorMask s);
  ti_size : t_localPredictorSize s = Z.of_nat (length (t_localCtrs s));
  ti_global : table_ok (globalCtrs s) (globalHistoryMask s);
  ti_choice : table_ok (choiceCtrs s) (choiceHistoryMask s);
  ti_hist : exists k, 0 <= k < 32 /\ localHistoryTableSize s = 2 ^ k;
  ti_table : Z.of_nat (length (localHistoryTable s)) = localHistoryTableSize s /\
             Forall (inword 32) (localHistoryTable s);
  ti_mask : exists m, 0 <= m <= 32 /\ historyRegisterMask s = 2 ^ m - 1;
  ti_reg : 0 <= globalHistory s <= historyRegisterMask s
}.

(** A record of the tournament predictor. *)
Definition tournament_rec (s : TournamentBP) (r : option TournamentHistory) : Prop :=
  exists h, r = Some h /\ 0 <= th_globalHistory h <= historyRegisterMask s.

Definition tournament_old (r : option TournamentHistory) : Z :=
  match r with Some h => th_globalHistory h | None => 0 end.

Lemma shift_in_word x taken : inword 32 (shift_in x taken).
Proof.
  unfold shift_in. apply inword_lor; [lia|apply wrap_range; lia|]. destruct taken; word_lia.
Qed.

Lemma locHist_index s a :
  tournament_inv s ->
  0 <= calcLocHistIdx s a < localHistoryTableSize s /\
  exists x, localHistoryTable s !! Z.to_nat (calcLocHistIdx s a) = Some x /\ inword 32 x.
Proof.
  intros Hi. destruct (ti_hist _ Hi) as (k & Hk & E). destruct (ti_table _ Hi) as [Hl Hw].
  assert (Hr : 0 <= calcLocHistIdx s a < localHistoryTableSize s).
  { unfold calcLocHistIdx. rewrite E. pose proof (land_ones_range (Z.shiftr a (t_instShiftAmt s)) k). lia. }
  split; [done|].
  destruct (lookup_lt_is_Some_2 (localHistoryTable s) (Z.to_nat (calcLocHistIdx s a))) as [x Hx]; [lia|].
  exists x. split; [done|]. exact (Forall_lookup_1 _ _ _ _ Hw Hx).
Qed.

Lemma t_with_hist_inv s g l :
  tournament_inv s -> 0 <= g <= historyRegisterMask s -> length l = length (localHistoryTable s) ->
  Forall (inword 32) l -> tournament_inv (t_with_hist s g l).
Proof.
  intros [? ? ? ? ? [Ht _] ? ?] Hg Hl Hf. split; try done. cbn. by rewrite Hl.
Qed.

Lemma hist_masked s x : tournament_inv s -> 0 <= Z.land x (historyRegisterMask s) <= historyRegisterMask s.
Proof. intros Hi. destruct (ti_mask _ Hi) as (m & Hm & ->). apply land_ones_range. lia. Qed.

Lemma updateHist_ok s a taken :
  tournament_inv s ->
  exists s', updateLocalHist (updateGlobalHist s taken) (calcLocHistIdx s a) taken = Ret s' /\
    tournament_inv s' /\ historyRegisterMask s' = historyRegisterMask s.
Proof.
  intros Hi. destruct (locHist_index s a Hi) as (Hr & x & Hx & Hw).
  unfold updateLocalHist, updateGlobalHist. cbn [localHistoryTable t_with_hist globalHistory].
  rewrite (vread_some _ _ _ Hx). bsimpl. rewrite vwrite_lt by (by eapply lookup_lt_Some). bsimpl.
  eexists. split; [done|]. split; [|done]. destruct (ti_table _ Hi) as [_ Hf].
  apply (t_with_hist_inv s); [done|by apply hist_masked|by rewrite length_insert|].
  apply Forall_insert; [done|]. apply shift_in_word.
Qed.

Lemma tournament_train_ok s taken h :
  tournament_inv s ->
  exists s', tournament_train s taken h = Ret s' /\ tournament_inv s' /\
    historyRegisterMask s' = historyRegisterMask s /\ globalHistory s' = globalHistory s /\
    localHistoryTable s' = localHistoryTable s /\ localHistoryTableSize s' = localHistoryTableSize s.
Proof.
  intros Hi. unfold tournament_train.
  assert (Hc : exists c, (if negb (eqb (th_localPredTaken h) (th_globalPredTaken h)) then
         if eqb (th_localPredTaken h) taken
         then ctr_train (choiceCtrs s) (Z.land (th_globalHistory h) (choiceHistoryMask s)) false
         else if eqb (th_globalPredTaken h) taken
         then ctr_train (choiceCtrs s) (Z.land (th_globalHistory h) (choiceHistoryMask s)) true
         else Ret (choiceCtrs s)
       else Ret (choiceCtrs s)) = Ret c /\ table_ok c (choiceHistoryMask s)).
  { pose proof (ti_choice _ Hi) as Ht.
    destruct (negb _); [|by eexists]. destruct (eqb _ taken); [by apply ctr_train_ok|].
    destruct (eqb _ taken); [by apply ctr_train_ok|by eexists]. }
  destruct Hc as (c & -> & Hc). bsimpl.
  destruct (ctr_train_ok _ _ (th_globalHistory h) taken (ti_global _ Hi)) as (g & -> & Hg). bsimpl.
  assert (Hl : exists l, (if negb (th_localHistory h =? invalidPredictorIndex)
      then ctr_train (t_localCtrs s) (Z.land (th_localHistory h) (localPredictorMask s)) taken
      else Ret (t_localCtrs s)) = Ret l /\ table_ok l (localPredictorMask s) /\
      length l = length (t_localCtrs s)).
  { pose proof (ti_local _ Hi) as Ht. destruct (negb _); [|by eexists].
    destruct (ctr_train_ok _ _ (th_localHistory h) taken Ht) as (l & -> & Hl).
    exists l. split_and!; try done. destruct Ht as [(k & ? & E & Em0) _], Hl as [(k' & ? & E' & Em) _].
    lia. }
  destruct Hl as (l & -> & Hl & Hlen). bsimpl. eexists. split; [done|]. split; [|done].
  destruct Hi. split; try done. cbn. by rewrite Hlen.
Qed.

Lemma tournament_update_ok s a taken r squashed :
  tournament_inv s -> tournament_rec s r ->
  exists s', TournamentBP_update s a taken r squashed = Ret s' /\ tournament_inv s' /\
    (squashed = false -> globalHistory s' = globalHistory s) /\
    historyRegisterMask s' = historyRegisterMask s.
Proof.
  intros Hi (h & -> & Hr). destruct (locHist_index s a Hi) as (Hlt & x & Hx & Hw).
  unfold TournamentBP_update. rewrite (vread_some _ _ _ Hx). bsimpl.
  pose proof (table_index _ _ (th_localHistory h) (ti_local _ Hi)) as Hti.
  rewrite cassert_true by (rewrite (ti_size _ Hi); lia). bsimpl.
  set (b := negb _ || negb squashed).
  assert (Htr : exists s1, (if b then tournament_train s taken h else Ret s) = Ret s1 /\
    tournament_inv s1 /\ historyRegisterMask s1 = historyRegisterMask s /\
    globalHistory s1 = globalHistory s /\ localHistoryTable s1 = localHistoryTable s /\
    localHistoryTableSize s1 = localHistoryTableSize s).
  { destruct b; [by apply tournament_train_ok|by exists s]. }
  destruct Htr as (s1 & -> & Hi1 & Em & Eg & El & Es). bsimpl.
  destruct squashed.
  - set (v := negb (_ =? _)).
    assert (Hl : exists l, (if v then vwrite (localHistoryTable s1) (Z.to_nat (calcLocHistIdx s a))
        (shift_in (th_localHistory h) taken) else Ret (localHistoryTable s1)) = Ret l /\
        length l = length (localHistoryTable s1) /\ Forall (inword 32) l).
    { destruct (ti_table _ Hi1) as [_ Hf]. destruct v; [|by exists (localHistoryTable s1)].
      rewrite vwrite_lt by (rewrite El; by eapply lookup_lt_Some). eexists. split; [done|].
      rewrite length_insert. split; [done|]. apply Forall_insert; [done|]. apply shift_in_word. }
    destruct Hl as (l & -> & Hlen & Hf). bsimpl. cbn [localHistoryTableSize t_with_hist].
    rewrite cassert_true by (rewrite Es; lia). bsimpl. eexists. split; [done|].
    split; [|done]. apply t_with_hist_inv; try done. by apply hist_masked.
  - bsimpl. rewrite cassert_true by (rewrite Es; lia). bsimpl. exists s1. by split_and!.
Qed.

Lemma tournament_rec_mono s s' r :
  historyRegisterMask s' = historyRegisterMask s -> tournament_rec s r -> tournament_rec s' r.
Proof. intros E (h & -> & Hr). exists h. by rewrite E. Qed.

#[export] Instance TournamentBP_ok :
  DirPredOk TournamentBP TournamentHistory tournament_inv tournament_rec globalHistory tournament_old.
Proof.
  split; cbn.
  - intros s a Hi Ha. destruct (locHist_index s a Hi) as (Hlt & x & Hx & Hw). unfold TournamentBP_lookup.
    rewrite (vread_some _ _ _ Hx). bsimpl.
    destruct (table_read _ _ x (ti_local _ Hi)) as (lc & -> & _). bsimpl.
    destruct (table_read _ _ (globalHistory s) (ti_global _ Hi)) as (gc & -> & _). bsimpl.
    destruct (table_read _ _ (globalHistory s) (ti_choice _ Hi)) as (cc & -> & _). bsimpl.
    rewrite cassert_true by lia. bsimpl. set (taken := if _ <? _ then _ else _).
    destruct (updateHist_ok s a taken Hi) as (s' & -> & Hi' & Em). bsimpl.
    do 3 eexists. split_and!; [done|done| |done|].
    + eexists. split; [done|]. rewrite Em. apply (ti_reg _ Hi).
    + intros r'. by apply tournament_rec_mono.
  - intros s a Hi Ha. do 2 eexists. split_and!; [done| | |done|].
    + apply t_with_hist_inv; [done|by apply hist_masked|done|]. apply (ti_table _ Hi).
    + eexists. split; [done|]. apply (ti_reg _ Hi).
    + intros r'. by apply tournament_rec_mono.
  - intros s a r Hi Ha. unfold TournamentBP_btbUpdate.
    destruct (locHist_index s a Hi) as (Hlt & x & Hx & Hw). rewrite (vread_some _ _ _ Hx). bsimpl.
    rewrite vwrite_lt by (by eapply lookup_lt_Some). bsimpl. eexists. split; [done|]. split.
    + destruct (ti_table _ Hi) as [_ Hf]. destruct (ti_mask _ Hi) as (m & Hm & Em).
      apply t_with_hist_inv; [done| |by rewrite length_insert|].
      * rewrite Em. apply land_submask; [lia|]. by vm_compute.
      * apply Forall_insert; [done|]. destruct (ti_local _ Hi) as [(k & Hk & _ & ->) _].
        pose proof (land_submask x k (wnot 64 1) ltac:(lia) ltac:(by vm_compute)).
        pose proof (Z.pow_lt_mono_r 2 k 32 ltac:(lia) ltac:(lia) ltac:(lia)). word_lia.
    + intros r'. by apply tournament_rec_mono.
  - intros s a taken r sq Hi Ha Hr.
    destruct (tournament_update_ok s a taken r sq Hi Hr) as (s' & E & Hi' & Hg & Em).
    exists s'. split_and!; try done. intros r'. by apply tournament_rec_mono.
  - intros s r Hi (h & -> & Hr). eexists. split_and!; [done| |done|].
    + apply t_with_hist_inv; try done. apply (ti_table _ Hi).
    + intros r'. by apply tournament_rec_mono.
  - by intros s r Hi _.
Qed.

(** ** The bi-mode predictor *)

Record bimode_inv (s : BiModeBP) : Prop := {
  bm_choice : table_ok (choiceCounters s) (b_choiceHistoryMask s);
  bm_csize : b_choicePredictorSize s = Z.of_nat (length (choiceCounters s));
  bm_taken : table_ok (takenCounters s) (b_globalHistoryMask s);
  bm_ntaken : table_ok (notTakenCounters s) (b_globalHistoryMask s);
  bm_gsize : b_globalPredictorSize s = Z.of_nat (length (takenCounters s));
  bm_mask : exists m, 0 <= m <= 32 /\ b_historyRegisterMask s = 2 ^ m - 1;
  bm_reg : 0 <= globalHistoryReg s <= b_historyRegisterMask s
}.

Definition bimode_rec (s : BiModeBP) (r : option BiModeHistory) : Prop :=
  exists h, r = Some h /\ 0 <= bh_globalHistoryReg h <= b_historyRegisterMask s.

Definition bimode_old (r : option BiModeHistory) : Z :=
  match r with Some h => bh_globalHistoryReg h | None => 0 end.

Lemma bimode_rec_mono s s' r :
  b_historyRegisterMask s' = b_historyRegisterMask s -> bimode_rec s r -> bimode_rec s' r.
Proof. intros E (h & -> & Hr). exists h. by rewrite E. Qed.

Lemma b_with_reg_inv s g :
  bimode_inv s -> 0 <= g <= b_historyRegisterMask s -> bimode_inv (b_with_reg s g).
Proof. by intros []. Qed.

Lemma reg_masked s x :
  bimode_inv s -> 0 <= Z.land x (b_historyRegisterMask s) <= b_historyRegisterMask s.
Proof. intros Hi. destruct (bm_mask _ Hi) as (m & Hm & ->). apply land_ones_range. lia. Qed.

Lemma table_same_length l l' m : table_ok l m -> table_ok l' m -> length l = length l'.
Proof. intros [(k & ? & E & Em) _] [(k' & ? & E' & Em') _]. lia. Qed.

Lemma bimode_update_ok s a taken r squashed :
  bimode_inv s -> bimode_rec s r ->
  exists s', BiModeBP_update s a taken r squashed = Ret s' /\ bimode_inv s' /\
    (squashed = false -> globalHistoryReg s' = globalHistoryReg s) /\
    b_historyRegisterMask s' = b_historyRegisterMask s.
Proof.
  intros Hi (h & -> & Hr). unfold BiModeBP_update.
  unfold choiceHistoryIdx, globalHistoryIdx. set (xc := Z.shiftr a _). set (xg := Z.lxor xc _).
  pose proof (table_index _ _ xc (bm_choice _ Hi)) as Hci.
  pose proof (table_index _ _ xg (bm_taken _ Hi)) as Hgi.
  rewrite (proj2 (Z.ltb_lt _ (b_choicePredictorSize s))) by (rewrite (bm_csize _ Hi); lia). bsimpl.
  rewrite (proj2 (Z.ltb_lt _ (b_globalPredictorSize s))) by (rewrite (bm_gsize _ Hi); lia). bsimpl.
  assert (Htr : forall (b : bool) l m x, table_ok l m -> exists l',
    (if b then ctr_train l (Z.land x m) taken else Ret l) = Ret l' /\ table_ok l' m).
  { intros b l m x Ht. destruct b; [by apply ctr_train_ok|by exists l]. }
  destruct (Htr (bh_takenUsed h) _ _ xg (bm_taken _ Hi)) as (t & -> & Ht). bsimpl.
  assert (Hn : exists n, (if bh_takenUsed h then Ret (notTakenCounters s)
    else ctr_train (notTakenCounters s) (Z.land xg (b_globalHistoryMask s)) taken) = Ret n /\
    table_ok n (b_globalHistoryMask s)).
  { pose proof (bm_ntaken _ Hi). destruct (bh_takenUsed h); [by eexists|by apply ctr_train_ok]. }
  destruct Hn as (n & -> & Hn). bsimpl. set (b := eqb _ taken && _).
  assert (Hc : exists c, (if b then Ret (choiceCounters s)
    else ctr_train (choiceCounters s) (Z.land xc (b_choiceHistoryMask s)) taken) = Ret c /\
    table_ok c (b_choiceHistoryMask s)).
  { pose proof (bm_choice _ Hi). destruct b; [by eexists|by apply ctr_train_ok]. }
  destruct Hc as (c & -> & Hc). bsimpl.
  assert (Hi' : bimode_inv (b_with_ctrs s c t n)).
  { pose proof (table_same_length _ _ _ Hc (bm_choice _ Hi)) as E1.
    pose proof (table_same_length _ _ _ Ht (bm_taken _ Hi)) as E2.
    destruct Hi. split; try done; cbn; by rewrite ?E1, ?E2. }
  destruct squashed; eexists; (split; [done|]); split_and!; try done.
  apply b_with_reg_inv; [done|]. by apply (reg_masked s).
Qed.

#[export] Instance BiModeBP_ok :
  DirPredOk BiModeBP BiModeHistory bimode_inv bimode_rec globalHistoryReg bimode_old.
Proof.
  split; cbn.
  - intros s a Hi Ha. unfold BiModeBP_lookup, choiceHistoryIdx, globalHistoryIdx.
    set (xc := Z.shiftr a _). set (xg := Z.lxor xc _).
    pose proof (table_index _ _ xc (bm_choice _ Hi)). pose proof (table_index _ _ xg (bm_taken _ Hi)).
    rewrite (proj2 (Z.ltb_lt _ (b_choicePredictorSize s))) by (rewrite (bm_csize _ Hi); lia). bsimpl.
    rewrite (proj2 (Z.ltb_lt _ (b_globalPredictorSize s))) by (rewrite (bm_gsize _ Hi); lia). bsimpl.
    destruct (table_read _ _ xc (bm_choice _ Hi)) as (c & -> & _). bsimpl.
    destruct (table_read _ _ xg (bm_taken _ Hi)) as (t & -> & _). bsimpl.
    destruct (table_read _ _ xg (bm_ntaken _ Hi)) as (n & -> & _). bsimpl.
    do 3 eexists. split_and!; [done| | |done|].
    + apply b_with_reg_inv; [done|]. by apply reg_masked.
    + eexists. split; [done|]. apply (bm_reg _ Hi).
    + intros r'. by apply bimode_rec_mono.
  - intros s a Hi Ha. do 2 eexists. split_and!; [done| | |done|].
    + apply b_with_reg_inv; [done|]. by apply reg_masked.
    + eexists. split; [done|]. apply (bm_reg _ Hi).
    + intros r'. by apply bimode_rec_mono.
  - intros s a r Hi Ha. eexists. split_and!; [done| |intros r'; by apply bimode_rec_mono].
    apply b_with_reg_inv; [done|]. destruct (bm_mask _ Hi) as (m & Hm & ->).
    apply land_submask; [lia|]. by vm_compute.
  - intros s a taken r sq Hi Ha Hr.
    destruct (bimode_update_ok s a taken r sq Hi Hr) as (s' & E & Hi' & Hg & Em).
    exists s'. split_and!; try done. intros r'. by apply bimode_rec_mono.
  - intros s r Hi (h & -> & Hr). eexists. split_and!; [done| |done|].
    + by apply b_with_reg_inv.
    + intros r'. by apply bimode_rec_mono.
  - by intros s r Hi _.
Qed.

(** ** Constructors *)

Lemma LocalBP_new_inv size nbits shift s :
  inword 32 size -> 0 <= nbits -> LocalBP_new size nbits shift = Ret s -> local_inv s.
Proof.
  intros Hs Hb. unfold LocalBP_new. destruct (isPowerOf2 32 size) eqn:E1; cbn [negb]; [|done].
  destruct (Z.eqb_spec nbits 0) as [|Hne]; [done|].
  destruct (isPowerOf2 32 (size / nbits)) eqn:E2; cbn [negb]; [|done]. intros [= <-].
  apply power_of_2 in E2 as (k & Hk & ->).
  - by apply table_new.
  - split; [apply Z.div_pos; word_lia|]. apply Z.div_lt_upper_bound; [lia|].
    unfold inword in Hs. nia.
Qed.

Lemma mask_log2 k : 0 <= k < 32 -> u32 (mask k) = 2 ^ k - 1.
Proof.
  intros Hk. rewrite mask_ones by lia. rewrite ones_pow. pose proof (pow2_pos k ltac:(lia)).
  pose proof (Z.pow_lt_mono_r 2 k 32 ltac:(lia) ltac:(lia) ltac:(lia)). apply wrap_small; word_lia.
Qed.

Lemma ceilLog2_pow k : 0 <= k < 32 -> ceilLog2 (2 ^ k) = Ret k.
Proof.
  intros Hk. pose proof (pow2_pos k ltac:(lia)).
  pose proof (Z.pow_lt_mono_r 2 k 64 ltac:(lia) ltac:(lia) ltac:(lia)).
  rewrite ceilLog2_spec by lia. by rewrite Z.log2_up_pow2 by lia.
Qed.

Lemma pred_pow k : 0 <= k < 32 -> u32 (2 ^ k - 1) = 2 ^ k - 1.
Proof.
  intros Hk. pose proof (pow2_pos k ltac:(lia)).
  pose proof (Z.pow_lt_mono_r 2 k 32 ltac:(lia) ltac:(lia) ltac:(lia)). apply wrap_small; word_lia.
Qed.

Lemma BiModeBP_new_inv gsize gbits csize cbits shift s :
  inword 32 gsize -> inword 32 csize -> BiModeBP_new gsize gbits csize cbits shift = Ret s ->
  bimode_inv s.
Proof.
  intros Hg Hc. unfold BiModeBP_new. destruct (ceilLog2 gsize) as [hb|] eqn:E0; [|done]. bsimpl.
  destruct (isPowerOf2 32 csize) eqn:E1; cbn [negb]; [|done].
  destruct (isPowerOf2 32 gsize) eqn:E2; cbn [negb]; [|done]. intros [= <-].
  apply power_of_2 in E1 as (c & Hcr & ->); [|done]. apply power_of_2 in E2 as (g & Hgr & ->); [|done].
  rewrite ceilLog2_pow in E0 by done. injection E0 as <-.
  pose proof (pow2_pos c ltac:(lia)). pose proof (pow2_pos g ltac:(lia)).
  split; cbn; rewrite ?mask_log2, ?pred_pow, ?length_replicate by done; try by apply table_new.
  - lia.
  - lia.
  - exists g. lia.
  - lia.
Qed.

Lemma TournamentBP_new_inv p s :
  inword 32 (tp_localPredictorSize p) -> inword 32 (tp_localHistoryTableSize p) ->
  inword 32 (tp_globalPredictorSize p) -> inword 32 (tp_choicePredictorSize p) ->
  TournamentBP_new p = Ret s -> tournament_inv s.
Proof.
  intros Hl Hh Hg Hc. unfold TournamentBP_new.
  destruct (ceilLog2 (tp_localPredictorSize p)) as [lb|] eqn:El; [|done]. bsimpl.
  destruct (ceilLog2 (tp_globalPredictorSize p)) as [gb|] eqn:Eg; [|done]. bsimpl.
  destruct (ceilLog2 (tp_choicePredictorSize p)) as [cb|] eqn:Ec; [|done]. bsimpl.
  destruct (isPowerOf2 32 (tp_localPredictorSize p)) eqn:E1; cbn [negb]; [|done].
  destruct (isPowerOf2 32 (tp_globalPredictorSize p)) eqn:E2; cbn [negb]; [|done].
  destruct (isPowerOf2 32 (tp_localHistoryTableSize p)) eqn:E3; cbn [negb]; [|done].
  destruct (isPowerOf2 32 (tp_choicePredictorSize p)) eqn:E4; cbn [negb]; [|done].
  apply power_of_2 in E1 as (l & Hlr & E1); [|done]. apply power_of_2 in E2 as (g & Hgr & E2); [|done].
  apply power_of_2 in E3 as (t & Htr & E3); [|done]. apply power_of_2 in E4 as (c & Hcr & E4); [|done].
  rewrite E1, ceilLog2_pow in El by done. injection El as <-.
  rewrite E2, ceilLog2_pow in Eg by done. injection Eg as <-.
  rewrite E4, ceilLog2_pow in Ec by done. injection Ec as <-.
  destruct (_ <? _); [done|]. destruct (_ <? _); [done|]. intros [= <-].
  pose proof (pow2_pos l ltac:(lia)). pose proof (pow2_pos t ltac:(lia)).
  assert (Hm : 0 <= (if c <? g then g else c) < 32) by (destruct (c <? g); lia).
  pose proof (pow2_pos (if c <? g then g else c) ltac:(lia)).
  split; cbn; rewrite ?E1, ?E2, ?E3, ?E4, ?mask_log2, ?pred_pow, ?length_replicate by done;
    try by apply table_new.
  - lia.
  - by exists t.
  - split; [lia|]. apply Forall_replicate. word_lia.
  - eexists. split; [|done]. lia.
  - lia.
Qed.

(** ** Training *)

Definition ctr_step (taken : bool) (c : SatCounter) : SatCounter :=
  if taken then ctr_increment c else ctr_decrement c.

(** [n] commits of the branch at [a] with the same outcome. *)
Fixpoint local_commits (s : LocalBP) (a : Z) (taken : bool) (n : nat) : res LocalBP :=
  match n with
  | 0%nat => Ret s
  | S n => s ← LocalBP_update s a taken None false; local_commits s a taken n
  end.

Record local_ok (s : LocalBP) : Prop := {
  lo_inv : local_inv s;
  lo_bits : 1 <= localCtrBits s <= 8;
  lo_max : Forall (fun c => ctr_max c = 2 ^ localCtrBits s - 1) (localCtrs s)
}.

Lemma ctr_steps taken n c :
  ctr_ok c ->
  ctr_ok (Nat.iter n (ctr_step taken) c) /\
  ctr_max (Nat.iter n (ctr_step taken) c) = ctr_max c /\
  ctr_val (Nat.iter n (ctr_step taken) c) =
    if taken then Z.min (ctr_val c + Z.of_nat n) (ctr_max c)
    else Z.max (ctr_val c - Z.of_nat n) 0.
Proof.
  intros Hc. induction n as [|n IH].
  - cbn. destruct Hc. destruct taken; split_and!; try done; lia.
  - change (Nat.iter (S n) (ctr_step taken) c) with (ctr_step taken (Nat.iter n (ctr_step taken) c)).
    generalize dependent (Nat.iter n (ctr_step taken) c). intros d (Hd & Em & Ev).
    split; [by apply ctr_step_ok|]. destruct Hd as [Hd1 Hd2]. destruct Hc as [Hc1 Hc2].
    unfold ctr_step, ctr_increment, ctr_decrement. destruct taken; cbn beta iota in Ev |- *.
    + destruct (Z.ltb_spec (ctr_val d) (ctr_max d)); cbn [ctr_max ctr_val].
      * rewrite wrap_small by word_lia. lia.
      * lia.
    + destruct (Z.ltb_spec 0 (ctr_val d)); cbn [ctr_max ctr_val]; lia.
Qed.

Lemma local_commits_ok s a taken n :
  local_inv s ->
  local_commits s a taken n =
    Ret (local_with s (alter (Nat.iter n (ctr_step taken)) (Z.to_nat (getLocalIndex s a)) (localCtrs s))).
Proof.
  revert s. induction n as [|n IH]; intros s Hi; cbn [local_commits].
  - assert (E : alter (Nat.iter 0 (ctr_step taken)) (Z.to_nat (getLocalIndex s a)) (localCtrs s)
      = localCtrs s). { apply list_alter_id. done. }
    rewrite E. by destruct s.
  - unfold LocalBP_update. cbn [is_null cassert]. bsimpl.
    destruct (ctr_train_ok _ _ (Z.shiftr a (instShiftAmt s)) taken Hi) as (l & El & Hl).
    unfold getLocalIndex at 1. rewrite El. bsimpl. rewrite IH by done. f_equal.
    unfold local_with. cbn. f_equal. change (getLocalIndex _ a) with (getLocalIndex s a).
    revert El. unfold ctr_train. fold (getLocalIndex s a). set (i := Z.to_nat (getLocalIndex s a)).
    rewrite bind_Ret. intros (c & Hc%vread_Ret & [_ ->]%vwrite_Ret).
    rewrite (alter_as_insert _ _ _ (ctr_step taken c)), list_insert_insert_eq
      by (apply list_lookup_insert_eq; by eapply lookup_lt_Some).
    rewrite (alter_as_insert _ _ _ _ Hc). f_equal. by rewrite Nat.iter_swap.
Qed.

Lemma prediction_half s v :
  1 <= localCtrBits s -> 0 <= v -> getPrediction s v = (2 ^ (localCtrBits s - 1) <=? v).
Proof.
  intros Hb Hv. unfold getPrediction. rewrite Z.shiftr_div_pow2 by lia.
  pose proof (pow2_pos (localCtrBits s - 1) ltac:(lia)) as Hp.
  destruct (Z.leb_spec (2 ^ (localCtrBits s - 1)) v) as [Hle|Hlt].
  - apply negb_true_iff, Z.eqb_neq. pose proof (Z.div_str_pos v _ (conj Hp Hle)). lia.
  - by rewrite Z.div_small.
Qed.

(** The local predictor learns: whatever the tables hold, after half the
    counter range of commits of one branch with the same outcome, the next
    prediction of that branch is that outcome, and no branch with another index
    is predicted differently. *)
Theorem LocalBP_learns s a taken n :
  local_ok s -> 2 ^ (localCtrBits s - 1) <= Z.of_nat n ->
  exists s', local_commits s a taken n = Ret s' /\
    LocalBP_lookup s' a = Ret (taken, None, s') /\
    forall b p, getLocalIndex s b <> getLocalIndex s a ->
      LocalBP_lookup s b = Ret (p, None, s) -> LocalBP_lookup s' b = Ret (p, None, s').
Proof.
  intros [Hi Hb Hm] Hn. rewrite local_commits_ok by done. eexists. split; [done|].
  set (f := Nat.iter n (ctr_step taken)). unfold LocalBP_lookup.
  destruct (table_read _ _ (Z.shiftr a (instShiftAmt s)) Hi) as (c & Hc%vread_Ret & Hok).
  fold (getLocalIndex s a) in Hc. split.
  - change (getLocalIndex (local_with _ _) a) with (getLocalIndex s a). cbn [localCtrs local_with].
    rewrite (vread_some _ _ (f c)) by (by rewrite list_lookup_alter_eq, Hc). bsimpl. do 3 f_equal.
    change (getPrediction (local_with _ _)) with (getPrediction s).
    destruct (ctr_steps taken n c Hok) as ([Hf _] & _ & Ev). fold f in Hf, Ev.
    rewrite prediction_half by lia. rewrite Ev.
    pose proof (Forall_lookup_1 _ _ _ _ Hm Hc) as Ec. cbn in Ec. destruct Hok as [Hok _].
    assert (E2 : 2 ^ localCtrBits s = 2 * 2 ^ (localCtrBits s - 1)).
    { rewrite <- Z.pow_succ_r by lia. f_equal. lia. }
    destruct taken; [apply Z.leb_le|apply Z.leb_gt]; lia.
  - intros b p Hne. change (getLocalIndex (local_with _ _) b) with (getLocalIndex s b).
    cbn [localCtrs local_with].
    assert (Hne' : Z.to_nat (getLocalIndex s a) <> Z.to_nat (getLocalIndex s b)).
    { pose proof (table_index _ _ (Z.shiftr a (instShiftAmt s)) Hi).
      pose proof (table_index _ _ (Z.shiftr b (instShiftAmt s)) Hi). unfold getLocalIndex in *. lia. }
    unfold vread. rewrite list_lookup_alter_ne by done.
    destruct (localCtrs s !! Z.to_nat (getLocalIndex s b)); [|done]. bsimpl. intros E. by injection E as <-.
Qed.

Lemma LocalBP_learns_witness :
  exists s s', LocalBP_new 8 2 2 = Ret s /\ local_commits s 0x40 true 2 = Ret s' /\
    LocalBP_lookup s' 0x40 = Ret (true, None, s') /\ LocalBP_lookup s 0x40 = Ret (false, None, s).
Proof.
  assert (E : exists s, LocalBP_new 8 2 2 = Ret s /\ LocalBP_lookup s 0x40 = Ret (false, None, s) /\
    localCtrBits s = 2 /\ Forall (fun c => ctr_max c = 3) (localCtrs s)).
  { eexists. split; [vm_compute; reflexivity|]. split; [vm_compute; reflexivity|].
    split; [done|]. by repeat constructor. }
  destruct E as (s & Es & El & Eb & Em).
  destruct (LocalBP_learns s 0x40 true 2) as (s' & E1 & E2 & _).
  - split; [|rewrite Eb; lia|by rewrite Eb].
    apply (LocalBP_new_inv 8 2 2); [by vm_compute|lia|done].
  - rewrite Eb. by vm_compute.
  - by exists s, s'.
Defined.

(** C38. The three direction predictors implement the interface of the branch
    prediction unit: whatever parameters a constructor accepts, it establishes
    the predictor's invariant, under which no operation fails an assertion or
    leaves its tables, every operation keeps the invariant, and squashing a
    branch restores the speculative history it was predicted with. *)
Theorem predictors_implement size nbits gsize gbits csize cbits shift p :
  inword 32 size -> 0 <= nbits -> inword 32 gsize -> inword 32 csize ->
  inword 32 (tp_localPredictorSize p) -> inword 32 (tp_localHistoryTableSize p) ->
  inword 32 (tp_globalPredictorSize p) -> inword 32 (tp_choicePredictorSize p) ->
  (forall s, LocalBP_new size nbits shift = Ret s -> local_inv s) /\
  DirPredOk LocalBP unit local_inv (fun _ r => r = None) (fun _ => 0) (fun _ => 0) /\
  (forall s, TournamentBP_new p = Ret s -> tournament_inv s) /\
  DirPredOk TournamentBP TournamentHistory tournament_inv tournament_rec globalHistory
    tournament_old /\
  (forall s, BiModeBP_new gsize gbits csize cbits shift = Ret s -> bimode_inv s) /\
  DirPredOk BiModeBP BiModeHistory bimode_inv bimode_rec globalHistoryReg bimode_old.
Proof.
  intros. split_and!; try apply _; intros s Hs.
  - by apply (LocalBP_new_inv size nbits shift).
  - by apply (TournamentBP_new_inv p).
  - by apply (BiModeBP_new_inv gsize gbits csize cbits shift).
Qed.

Definition demo_params : TournamentParams := mkTournamentParams 16 2 8 16 2 16 2 2.

Lemma predictors_implement_witness :
  is_ret (LocalBP_new 8 2 2) = true /\ is_ret (TournamentBP_new demo_params) = true /\
  is_ret (BiModeBP_new 16 2 16 2 2) = true /\
  exists s, TournamentBP_new demo_params = Ret s /\ tournament_inv s.
Proof.
  split_and!; [by vm_compute..|].
  destruct (TournamentBP_new demo_params) as [s|] eqn:E; [|by vm_compute in E].
  exists s. split; [done|].
  apply (predictors_implement 8 2 16 2 16 2 2 demo_params); try done; by vm_compute.
Defined.

(** The direction arrays of the bi-mode predictor are compared with a threshold
    computed from the width of the choice counters: with 1-bit direction
    counters and 2-bit choice counters no sequence of updates makes an array
    predict taken. *)
Lemma bimode_threshold_width :
  exists s, BiModeBP_new 16 1 16 2 2 = Ret s /\
    Forall (fun c => ctr_max c <= takenThreshold s) (takenCounters s) /\
    Forall (fun c => ctr_max c <= notTakenThreshold s) (notTakenCounters s).
Proof.
  eexists. split; [vm_compute; reflexivity|]. split; repeat constructor; cbn; lia.
Qed.
