(* ===== verification/BPredUnit.v ===== *)
(** * The branch prediction unit: [cpu/pred/btb.cc], [ras.hh], [ras.cc],
    [bpred_unit.hh], [bpred_unit.cc]

    The branch target buffer, the return address stack and the unit that
    combines them with a direction predictor.  The unit is written against the
    class [DirPred] of [BPred.v] and proved against its laws [DirPredOk], so its
    theorems hold for each predictor.  The instruction set ([TheISA::PCState],
    [StaticInst]) is the class [ISA]: program counters and instructions are
    abstract, with the functions the unit calls.  A deque of prediction
    records is a list with the youngest record first ([push_front]). *)

From S2P Require Import Prelude IntMath BPred.
Local Open Scope Z_scope.

(** ** The instruction set, as the unit sees it *)

Class ISA (PC Inst : Type) := {
  pc_default : PC;                    (* PCState() *)
  pc_of : Z -> PC;                    (* PCState(Addr) *)
  pc_set : PC -> Z -> PC;             (* PCState::set *)
  instAddr : PC -> Z;
  buildRetPC : PC -> PC -> PC;
  advancePC : PC -> Inst -> PC;
  isUncondCtrl : Inst -> bool;
  isDirectCtrl : Inst -> bool;
  isReturn : Inst -> bool;
  isCall : Inst -> bool;
  branchTarget : Inst -> PC -> PC
}.

(** What the unit relies on: addresses are 64-bit words. *)
Class ISAOk (PC Inst : Type) `{ISA PC Inst} : Prop := {
  instAddr_word pc : inword 64 (instAddr pc)
}.

(** ** [DefaultBTB] *)

Record BTBEntry (PC : Type) := mkBTBEntry { be_tag : Z; be_target : PC; be_tid : Z; be_valid : bool }.
Arguments mkBTBEntry {_} _ _ _ _.
Arguments be_tag {_} _.
Arguments be_target {_} _.
Arguments be_tid {_} _.
Arguments be_valid {_} _.

Record DefaultBTB (PC : Type) := mkDefaultBTB {
  btb : list (BTBEntry PC);
  btb_numEntries : Z;
  idxMask : Z;
  btb_tagBits : Z;
  btb_tagMask : Z;
  btb_instShiftAmt : Z;
  tagShiftAmt : Z
}.
Arguments mkDefaultBTB {_} _ _ _ _ _ _ _.
Arguments btb {_} _.
Arguments btb_numEntries {_} _.
Arguments idxMask {_} _.
Arguments btb_tagBits {_} _.
Arguments btb_tagMask {_} _.
Arguments btb_instShiftAmt {_} _.
Arguments tagShiftAmt {_} _.

Section btb.
Context {PC Inst : Type} `{ISA PC Inst}.

Definition btb_with (b : DefaultBTB PC) (l : list (BTBEntry PC)) : DefaultBTB PC :=
  mkDefaultBTB l (btb_numEntries b) (idxMask b) (btb_tagBits b) (btb_tagMask b)
    (btb_instShiftAmt b) (tagShiftAmt b).

(** [1 << tagBits] is an [int]: undefined from 32 bits on, and an overflow at
    31.  The [tid] of a fresh entry is not initialised: [junk]. *)
Definition DefaultBTB_new (junk : nat -> Z) (entries tagBits shift : Z) : res (DefaultBTB PC) :=
  if negb (isPowerOf2 32 entries) then Err Fatal
  else if 31 <=? tagBits then Err SignedOverflow
  else
    fl ← floorLog2_u32 entries;
    Ret (mkDefaultBTB
      ((fun i => mkBTBEntry 0 (pc_of 0) (junk i) false) <$> seq 0 (Z.to_nat entries))
      entries (u32 (entries - 1)) tagBits (Z.shiftl 1 tagBits - 1) shift (u32 (shift + fl))).

Definition be_reset (e : BTBEntry PC) : BTBEntry PC :=
  mkBTBEntry (be_tag e) (be_target e) (be_tid e) false.

Definition DefaultBTB_reset (b : DefaultBTB PC) : DefaultBTB PC := btb_with b (be_reset <$> btb b).

Definition getIndex (b : DefaultBTB PC) (a : Z) : Z :=
  Z.land (Z.shiftr a (btb_instShiftAmt b)) (idxMask b).
Definition getTag (b : DefaultBTB PC) (a : Z) : Z :=
  Z.land (Z.shiftr a (tagShiftAmt b)) (btb_tagMask b).

Definition entry_matches (b : DefaultBTB PC) (e : BTBEntry PC) (a tid : Z) : bool :=
  be_valid e && (getTag b a =? be_tag e) && (be_tid e =? tid).

Definition DefaultBTB_valid (b : DefaultBTB PC) (a tid : Z) : res bool :=
  _ ← cassert (getIndex b a <? btb_numEntries b);
  e ← vread (btb b) (Z.to_nat (getIndex b a));
  Ret (entry_matches b e a tid).

Definition DefaultBTB_lookup (b : DefaultBTB PC) (a tid : Z) : res PC :=
  _ ← cassert (getIndex b a <? btb_numEntries b);
  e ← vread (btb b) (Z.to_nat (getIndex b a));
  Ret (if entry_matches b e a tid then be_target e else pc_of 0).

Definition DefaultBTB_update (b : DefaultBTB PC) (a : Z) (target : PC) (tid : Z) :
    res (DefaultBTB PC) :=
  _ ← cassert (getIndex b a <? btb_numEntries b);
  l ← vwrite (btb b) (Z.to_nat (getIndex b a)) (mkBTBEntry (getTag b a) target tid true);
  Ret (btb_with b l).

End btb.

(** ** [ReturnAddrStack] *)

Record ReturnAddrStack (PC : Type) := mkRAS {
  addrStack : list PC;
  ras_numEntries : Z;
  usedEntries : Z;
  tos : Z
}.
Arguments mkRAS {_} _ _ _ _.
Arguments addrStack {_} _.
Arguments ras_numEntries {_} _.
Arguments usedEntries {_} _.
Arguments tos {_} _.

Section ras.
Context {PC Inst : Type} `{ISA PC Inst}.

Definition RAS_reset (r : ReturnAddrStack PC) : ReturnAddrStack PC :=
  mkRAS ((fun pc => pc_set pc 0) <$> addrStack r) (ras_numEntries r) 0 0.

Definition RAS_init (n : Z) : ReturnAddrStack PC :=
  RAS_reset (mkRAS (replicate (Z.to_nat n) pc_default) n 0 0).

Definition RAS_top (r : ReturnAddrStack PC) : res PC := vread (addrStack r) (Z.to_nat (tos r)).
Definition RAS_empty (r : ReturnAddrStack PC) : bool := usedEntries r =? 0.
Definition RAS_full (r : ReturnAddrStack PC) : bool := usedEntries r =? ras_numEntries r.

Definition incrTos (n t : Z) : Z := let t := u32 (t + 1) in if t =? n then 0 else t.
Definition decrTos (n t : Z) : Z := if t =? 0 then u32 (n - 1) else t - 1.

Definition RAS_push (r : ReturnAddrStack PC) (pc : PC) : res (ReturnAddrStack PC) :=
  let t := incrTos (ras_numEntries r) (tos r) in
  l ← vwrite (addrStack r) (Z.to_nat t) pc;
  Ret (mkRAS l (ras_numEntries r)
        (if negb (usedEntries r =? ras_numEntries r) then u32 (usedEntries r + 1) else usedEntries r)
        t).

Definition RAS_pop (r : ReturnAddrStack PC) : ReturnAddrStack PC :=
  mkRAS (addrStack r) (ras_numEntries r)
    (if 0 <? usedEntries r then usedEntries r - 1 else usedEntries r)
    (decrTos (ras_numEntries r) (tos r)).

Definition RAS_restore (r : ReturnAddrStack PC) (idx : Z) (pc : PC) : res (ReturnAddrStack PC) :=
  l ← vwrite (addrStack r) (Z.to_nat idx) pc;
  Ret (mkRAS l (ras_numEntries r) (usedEntries r) idx).

End ras.

(** ** Prediction records and the unit *)

Record PredictorHistory (H PC : Type) := mkPredictorHistory {
  ph_seqNum : Z;
  ph_pc : Z;
  bpHistory : option H;
  RASTarget : PC;
  RASIndex : Z;
  ph_tid : Z;
  predTaken : bool;
  usedRAS : bool;
  pushedRAS : bool;
  wasCall : bool;
  wasReturn : bool;
  wasSquashed : bool
}.
Arguments mkPredictorHistory {_ _} _ _ _ _ _ _ _ _ _ _ _ _.
Arguments ph_seqNum {_ _} _.
Arguments ph_pc {_ _} _.
Arguments bpHistory {_ _} _.
Arguments RASTarget {_ _} _.
Arguments RASIndex {_ _} _.
Arguments ph_tid {_ _} _.
Arguments predTaken {_ _} _.
Arguments usedRAS {_ _} _.
Arguments pushedRAS {_ _} _.
Arguments wasCall {_ _} _.
Arguments wasReturn {_ _} _.
Arguments wasSquashed {_ _} _.

(** The statistics that the operations count. *)
Record BPStats := mkBPStats {
  st_lookups : Z; st_condPredicted : Z; st_condIncorrect : Z; st_BTBLookups : Z;
  st_BTBHits : Z; st_usedRAS : Z; st_RASIncorrect : Z
}.

Definition st_add (s : BPStats) (l c i b h r x : Z) : BPStats :=
  mkBPStats (st_lookups s + l) (st_condPredicted s + c) (st_condIncorrect s + i)
    (st_BTBLookups s + b) (st_BTBHits s + h) (st_usedRAS s + r) (st_RASIncorrect s + x).

Record BPredUnit (S H PC : Type) := mkBPredUnit {
  numThreads : Z;
  predHist : list (list (PredictorHistory H PC));
  BTB : DefaultBTB PC;
  RAS : list (ReturnAddrStack PC);
  dir : S;
  bp_stats : BPStats
}.
Arguments mkBPredUnit {_ _ _} _ _ _ _ _ _.
Arguments numThreads {_ _ _} _.
Arguments predHist {_ _ _} _.
Arguments BTB {_ _ _} _.
Arguments RAS {_ _ _} _.
Arguments dir {_ _ _} _.
Arguments bp_stats {_ _ _} _.

Section unit.
Context {S H PC Inst : Type} `{DirPred S H} `{ISA PC Inst}.

Abbreviation Unit := (BPredUnit S H PC).
Abbreviation Record_ := (PredictorHistory H PC).

Definition PredictorHistory_new (seq_num a : Z) (pred_taken : bool) (bp_history : option H)
    (tid : Z) : Record_ :=
  mkPredictorHistory seq_num a bp_history (pc_of 0) 0 tid pred_taken false false false false false.

(** The unit with the direction predictor [d] of the derived class. *)
Definition BPredUnit_new (d : S) (junk : nat -> Z) (threads btbEntries btbTagSize rasSize shift : Z) :
    res Unit :=
  b ← DefaultBTB_new junk btbEntries btbTagSize shift;
  Ret (mkBPredUnit threads (replicate (Z.to_nat threads) []) b
        (replicate (Z.to_nat threads) (RAS_init rasSize)) d (mkBPStats 0 0 0 0 0 0 0)).

Definition drainSanityCheck (u : Unit) : res unit :=
  cassert (forallb (fun ph => match ph with [] => true | _ => false end) (predHist u)).

(** Assignments to the fields of a record. *)
Definition rec_return (r : Record_) : Record_ :=
  mkPredictorHistory (ph_seqNum r) (ph_pc r) (bpHistory r) (RASTarget r) (RASIndex r) (ph_tid r)
    (predTaken r) (usedRAS r) (pushedRAS r) (wasCall r) true (wasSquashed r).
Definition rec_used (r : Record_) (idx : Z) (target : PC) : Record_ :=
  mkPredictorHistory (ph_seqNum r) (ph_pc r) (bpHistory r) target idx (ph_tid r)
    (predTaken r) true (pushedRAS r) (wasCall r) (wasReturn r) (wasSquashed r).
Definition rec_set_used (r : Record_) (b : bool) : Record_ :=
  mkPredictorHistory (ph_seqNum r) (ph_pc r) (bpHistory r) (RASTarget r) (RASIndex r) (ph_tid r)
    (predTaken r) b (pushedRAS r) (wasCall r) (wasReturn r) (wasSquashed r).
Definition rec_pushed (r : Record_) (pushed call : bool) : Record_ :=
  mkPredictorHistory (ph_seqNum r) (ph_pc r) (bpHistory r) (RASTarget r) (RASIndex r) (ph_tid r)
    (predTaken r) (usedRAS r) pushed call (wasReturn r) (wasSquashed r).
Definition rec_squashed (r : Record_) : Record_ :=
  mkPredictorHistory (ph_seqNum r) (ph_pc r) (bpHistory r) (RASTarget r) (RASIndex r) (ph_tid r)
    (predTaken r) (usedRAS r) (pushedRAS r) (wasCall r) (wasReturn r) true.

(** The branch that takes the target of a return from the stack. *)
Definition use_ras (u : Unit) (pc : PC) (tid : nat) (rec : Record_) :
    res (PC * Record_ * list (ReturnAddrStack PC)) :=
  r ← vread (RAS u) tid;
  rasTop ← RAS_top r;
  ras ← vwrite (RAS u) tid (RAS_pop r);
  Ret (buildRetPC pc rasTop, rec_used rec (tos r) rasTop, ras).

(** The call's part of the other branch: the return address is pushed. *)
Definition push_call (u : Unit) (inst : Inst) (pc : PC) (tid : nat) (rec : Record_) :
    res (Record_ * list (ReturnAddrStack PC)) :=
  if isCall inst then
    r ← vread (RAS u) tid;
    r ← RAS_push r pc;
    ras ← vwrite (RAS u) tid r;
    Ret (rec_pushed rec true true, ras)
  else Ret (rec, RAS u).

(** No entry in the BTB: the prediction is turned into not taken. *)
Definition btb_miss (d : S) (inst : Inst) (a : Z) (tid : nat) (h : option H) (rec : Record_)
    (ras : list (ReturnAddrStack PC)) : res (Record_ * list (ReturnAddrStack PC) * S) :=
  if negb (isCall inst) && negb (isReturn inst) then
    d ← dp_btbUpdate d a h; Ret (rec, ras, d)
  else if isCall inst && negb (isUncondCtrl inst) then
    r ← vread ras tid;
    ras ← vwrite ras tid (RAS_pop r);
    Ret (rec_pushed rec false (wasCall rec), ras, d)
  else Ret (rec, ras, d).

Definition predict_dir (u : Unit) (inst : Inst) (a : Z) : res (bool * option H * S) :=
  if isUncondCtrl inst then '(h, d) ← dp_uncondBranch (dir u) a; Ret (true, h, d)
  else dp_lookup (dir u) a.

Definition predict (u : Unit) (inst : Inst) (seqNum : Z) (pc : PC) (tid : nat) :
    res (bool * PC * Unit) :=
  let a := instAddr pc in
  '(taken, h, d) ← predict_dir u inst a;
  let st := st_add (bp_stats u) 1 (if isUncondCtrl inst then 0 else 1) 0 0 0 0 0 in
  let rec := PredictorHistory_new seqNum a taken h (Z.of_nat tid) in
  '(taken, target, rec, ras, d, st) ←
    (if taken then
       if isReturn inst then
         '(target, rec, ras) ← use_ras u pc tid (rec_return rec);
         Ret (true, target, rec, ras, d, st_add st 0 0 0 0 0 1 0)
       else
         let st := st_add st 0 0 0 1 0 0 0 in
         '(rec, ras) ← push_call u inst pc tid rec;
         hit ← DefaultBTB_valid (BTB u) a (Z.of_nat tid);
         if (hit : bool) then
           target ← DefaultBTB_lookup (BTB u) a (Z.of_nat tid);
           Ret (true, target, rec, ras, d, st_add st 0 0 0 0 1 0 0)
         else
           '(rec, ras, d) ← btb_miss d inst a tid h rec ras;
           Ret (false, advancePC pc inst, rec, ras, d, st)
     else
       Ret (false, advancePC pc inst, (if isReturn inst then rec_return rec else rec), RAS u, d, st));
  ph ← vread (predHist u) tid;
  hist ← vwrite (predHist u) tid (rec :: ph);
  Ret (taken, target, mkBPredUnit (numThreads u) hist (BTB u) ras d st).

(** [int] to [ThreadID], a signed 16-bit integer. *)
Definition s16 (x : Z) : Z := let y := wrap 16 x in if y <? 2 ^ 15 then y else y - 2 ^ 16.

Definition predictInOrder (u : Unit) (inst : Inst) (seqNum asid : Z) (instPC predPC : PC) (tid : nat) :
    res (bool * PC * Unit) :=
  let ia := instAddr instPC in
  let pa := instAddr predPC in
  '(taken, h, d) ←
    (if isUncondCtrl inst then
       '(h, d) ← dp_uncondBranch (dir u) ia;
       if isReturn inst then
         r ← vread (RAS u) tid; Ret (negb (RAS_empty r), h, d)
       else Ret (true, h, d)
     else dp_lookup (dir u) pa);
  let st := st_add (bp_stats u) 1 (if isUncondCtrl inst then 0 else 1) 0 0 0 0 0 in
  let rec := PredictorHistory_new seqNum pa taken h (Z.of_nat tid) in
  '(taken, target, rec, ras, st) ←
    (if taken then
       if isReturn inst then
         '(target, rec, ras) ← use_ras u instPC tid rec;
         _ ← cassert (RASIndex rec <? 16);
         Ret (true, target, rec, ras, st_add st 0 0 0 0 0 1 0)
       else
         let st := st_add st 0 0 0 1 0 0 0 in
         '(rec, ras) ← push_call u inst instPC tid rec;
         if isCall inst && isUncondCtrl inst && isDirectCtrl inst then
           Ret (true, branchTarget inst instPC, rec, ras, st)
         else
           hit ← DefaultBTB_valid (BTB u) pa (s16 asid);
           if (hit : bool) then
             target ← DefaultBTB_lookup (BTB u) pa (s16 asid);
             Ret (true, target, rec, ras, st_add st 0 0 0 0 1 0 0)
           else Ret (false, pc_default, rec, ras, st)
     else Ret (false, pc_default, rec, RAS u, st));
  ph ← vread (predHist u) tid;
  hist ← vwrite (predHist u) tid (rec :: ph);
  Ret (taken, (if (taken : bool) then target else predPC), mkBPredUnit (numThreads u) hist (BTB u) ras d st).

(** ** Commit *)

(** The loop over [predHist[tid].back()]: the argument is the deque from its
    back, the oldest record first. *)
Fixpoint commit_loop (old : list Record_) (done_sn : Z) (d : S) : res (list Record_ * S) :=
  match old with
  | [] => Ret ([], d)
  | r :: rest =>
      if ph_seqNum r <=? done_sn then
        d ← (if negb (wasSquashed r) then dp_update d (ph_pc r) (predTaken r) (bpHistory r) false
             else dp_retireSquashed d (bpHistory r));
        commit_loop rest done_sn d
      else Ret (old, d)
  end.

(** [update(done_sn, tid)] *)
Definition BPredUnit_update (u : Unit) (done_sn : Z) (tid : nat) : res Unit :=
  ph ← vread (predHist u) tid;
  '(old, d) ← commit_loop (reverse ph) done_sn (dir u);
  hist ← vwrite (predHist u) tid (reverse old);
  Ret (mkBPredUnit (numThreads u) hist (BTB u) (RAS u) d (bp_stats u)).

(** ** Squash *)

(** The effect of squashing one record on the return address stack. *)
Definition undo_ras (rec : Record_) (r : ReturnAddrStack PC) : res (ReturnAddrStack PC) :=
  if usedRAS rec then RAS_restore r (RASIndex rec) (RASTarget rec)
  else if wasCall rec && pushedRAS rec then Ret (RAS_pop r)
  else Ret r.

Fixpoint squash_loop (ph : list Record_) (sn : Z) (r : ReturnAddrStack PC) (d : S) :
    res (list Record_ * ReturnAddrStack PC * S) :=
  match ph with
  | [] => Ret ([], r, d)
  | rec :: rest =>
      if sn <? ph_seqNum rec then
        r ← undo_ras rec r;
        d ← dp_squash d (bpHistory rec);
        squash_loop rest sn r d
      else Ret (ph, r, d)
  end.

(** [squash(squashed_sn, tid)] *)
Definition BPredUnit_squash (u : Unit) (sn : Z) (tid : nat) : res Unit :=
  ph ← vread (predHist u) tid;
  r ← vread (RAS u) tid;
  '(ph, r, d) ← squash_loop ph sn r (dir u);
  hist ← vwrite (predHist u) tid ph;
  ras ← vwrite (RAS u) tid r;
  Ret (mkBPredUnit (numThreads u) hist (BTB u) ras d (bp_stats u)).

(** What the second [squash] does to the record of the mispredicted branch and
    to the stack. *)
Definition correct_ras (rec : Record_) (taken : bool) (r : ReturnAddrStack PC) :
    res (Record_ * ReturnAddrStack PC) :=
  if taken then
    if wasReturn rec && negb (usedRAS rec) then Ret (rec_set_used rec true, RAS_pop r)
    else Ret (rec, r)
  else if usedRAS rec then
    r ← RAS_restore r (RASIndex rec) (RASTarget rec);
    Ret (rec_set_used rec false, r)
  else if wasCall rec && pushedRAS rec then Ret (rec_pushed rec false (wasCall rec), RAS_pop r)
  else Ret (rec, r).

(** [squash(squashed_sn, corrTarget, actually_taken, tid)] *)
Definition BPredUnit_mispredict (u : Unit) (sn : Z) (corrTarget : PC) (taken : bool) (tid : nat) :
    res Unit :=
  u ← BPredUnit_squash u sn tid;
  let st := st_add (bp_stats u) 0 0 1 0 0 0 0 in
  ph ← vread (predHist u) tid;
  match ph with
  | [] => Ret (mkBPredUnit (numThreads u) (predHist u) (BTB u) (RAS u) (dir u) st)
  | rec :: rest =>
      _ ← cassert (ph_seqNum rec =? sn);
      let st := if usedRAS rec then st_add st 0 0 0 0 0 0 1 else st in
      d ← dp_update (dir u) (ph_pc rec) taken (bpHistory rec) true;
      r ← vread (RAS u) tid;
      '(rec', r) ← correct_ras (rec_squashed rec) taken r;
      b ← (if taken then DefaultBTB_update (BTB u) (ph_pc rec) corrTarget (Z.of_nat tid) else Ret (BTB u));
      hist ← vwrite (predHist u) tid (rec' :: rest);
      ras ← vwrite (RAS u) tid r;
      Ret (mkBPredUnit (numThreads u) hist b ras d st)
  end.

(** [BTBValid], [BTBLookup], [BTBUpdate]: thread 0. *)
Definition BTBValid (u : Unit) (a : Z) : res bool := DefaultBTB_valid (BTB u) a 0.
Definition BTBLookup (u : Unit) (a : Z) : res PC := DefaultBTB_lookup (BTB u) a 0.
Definition BTBUpdate (u : Unit) (a : Z) (target : PC) : res Unit :=
  b ← DefaultBTB_update (BTB u) a target 0;
  Ret (mkBPredUnit (numThreads u) (predHist u) b (RAS u) (dir u) (bp_stats u)).

End unit.

(** ** The return address stack as a ring *)

Lemma mod_sub_ne n x y d : 0 < d < n -> x - d = y -> y mod n <> x mod n.
Proof.
  intros Hd <- E. pose proof (Z.div_mod (x - d) n ltac:(lia)). pose proof (Z.div_mod x n ltac:(lia)).
  assert (Ed : d = n * (x / n - (x - d) / n)) by lia.
  destruct (Z.le_gt_cases (x / n - (x - d) / n) 0); nia.
Qed.

Lemma incrTos_mod n t : 1 <= n < 2 ^ 32 -> 0 <= t < n -> incrTos n t = (t + 1) mod n.
Proof.
  intros Hn Ht. unfold incrTos. rewrite wrap_small by word_lia. destruct (Z.eqb_spec (t + 1) n) as [E|E].
  - by rewrite E, Z_mod_same_full.
  - rewrite Z.mod_small; lia.
Qed.

Lemma decrTos_mod n t : 1 <= n < 2 ^ 32 -> 0 <= t < n -> decrTos n t = (t - 1) mod n.
Proof.
  intros Hn Ht. unfold decrTos. destruct (Z.eqb_spec t 0) as [->|E].
  - rewrite wrap_small by word_lia. symmetry. replace (0 - 1) with (n - 1 + (-1) * n) by lia.
    rewrite Z.mod_add by lia. apply Z.mod_small. lia.
  - rewrite Z.mod_small; lia.
Qed.

Section rasproofs.
Context {PC Inst : Type} `{ISA PC Inst}.
Abbreviation Stack := (ReturnAddrStack PC).

Record ras_ok (n : Z) (r : Stack) : Prop := {
  ro_n : ras_numEntries r = n;
  ro_range : 1 <= n < 2 ^ 32;
  ro_len : Z.of_nat (length (addrStack r)) = n;
  ro_tos : 0 <= tos r < n;
  ro_used : 0 <= usedEntries r <= n
}.

(** The [j]-th entry below the top. *)
Definition below (n : Z) (r : Stack) (j : Z) : option PC :=
  addrStack r !! Z.to_nat ((tos r - j) mod n).

(** Stacks with the same top index and the same entries, but for the [h]
    entries furthest below the top (which, in the ring, are those above it). *)
Definition ras_agree (n h : Z) (q r : Stack) : Prop :=
  tos q = tos r /\ forall j, 0 <= j < n - h -> below n q j = below n r j.

Lemma ras_agree_refl n r : ras_agree n 0 r r.
Proof. done. Qed.

Lemma RAS_push_ok n r pc :
  ras_ok n r ->
  exists r', RAS_push r pc = Ret r' /\ ras_ok n r' /\ tos r' = (tos r + 1) mod n /\
    addrStack r' = <[Z.to_nat ((tos r + 1) mod n):=pc]> (addrStack r).
Proof.
  intros Hr. destruct Hr as [En Hn Hl Ht Hu]. unfold RAS_push. rewrite En, incrTos_mod by done.
  pose proof (Z.mod_pos_bound (tos r + 1) n ltac:(lia)).
  rewrite vwrite_lt by lia. bsimpl. eexists. split; [done|]. split; [|done].
  split; cbn; try done; [by rewrite length_insert|].
  destruct (Z.eqb_spec (usedEntries r) n); cbn [negb]; [lia|]. rewrite wrap_small by word_lia. lia.
Qed.

Lemma RAS_pop_ok n r :
  ras_ok n r -> ras_ok n (RAS_pop r) /\ tos (RAS_pop r) = (tos r - 1) mod n /\
    addrStack (RAS_pop r) = addrStack r.
Proof.
  intros [En Hn Hl Ht Hu]. pose proof (Z.mod_pos_bound (tos r - 1) n ltac:(lia)).
  unfold RAS_pop. rewrite En, decrTos_mod by done. split; [|done]. split; cbn; try done.
  destruct (Z.ltb_spec 0 (usedEntries r)); lia.
Qed.

Lemma RAS_restore_ok n r idx pc :
  ras_ok n r -> 0 <= idx < n ->
  exists r', RAS_restore r idx pc = Ret r' /\ ras_ok n r' /\ tos r' = idx /\
    addrStack r' = <[Z.to_nat idx:=pc]> (addrStack r).
Proof.
  intros [En Hn Hl Ht Hu] Hi. unfold RAS_restore. rewrite vwrite_lt by lia. bsimpl.
  eexists. split; [done|]. split; [|done]. split; cbn; try done. by rewrite length_insert.
Qed.

Lemma RAS_top_ok n r : ras_ok n r -> exists x, RAS_top r = Ret x /\ addrStack r !! Z.to_nat (tos r) = Some x.
Proof.
  intros [En Hn Hl Ht Hu]. destruct (lookup_lt_is_Some_2 (addrStack r) (Z.to_nat (tos r))) as [x Hx]; [lia|].
  exists x. split; [by apply vread_some|done].
Qed.

Lemma RAS_init_ok n : 1 <= n < 2 ^ 32 -> ras_ok n (RAS_init n : Stack).
Proof. intros Hn. split; cbn; try done; try lia. rewrite length_fmap, length_replicate. lia. Qed.

(** Undoing a push, a pop, and a push that was already popped. *)
Lemma undo_push n h q r r1 pc :
  ras_ok n q -> ras_ok n r -> RAS_push r pc = Ret r1 -> 0 <= h -> ras_agree n h q r1 ->
  ras_agree n (h + 1) (RAS_pop q) r.
Proof.
  intros Hq Hr Hp Hh [Et Ha]. destruct (RAS_push_ok n r pc Hr) as (r' & E & _ & Et1 & Ea).
  rewrite Hp in E. injection E as <-. destruct (RAS_pop_ok n q Hq) as (_ & Etp & Eap).
  destruct (ro_range _ _ Hr), (ro_tos _ _ Hr).
  assert (Etos : tos (RAS_pop q) = tos r).
  { rewrite Etp, Et, Et1, Zminus_mod_idemp_l. replace (tos r + 1 - 1) with (tos r) by lia.
    apply Z.mod_small. lia. }
  split; [done|]. intros j Hj. unfold below. rewrite Etos, Eap.
  specialize (Ha (j + 1) ltac:(lia)). unfold below in Ha.
  rewrite Et, Et1, Zminus_mod_idemp_l, Ea in Ha.
  replace (tos r + 1 - (j + 1)) with (tos r - j) in Ha by lia.
  rewrite Ha. apply list_lookup_insert_ne. intros E.
  pose proof (Z.mod_pos_bound (tos r + 1) n ltac:(lia)). pose proof (Z.mod_pos_bound (tos r - j) n ltac:(lia)).
  apply (mod_sub_ne n (tos r + 1) (tos r - j) (j + 1)); lia.
Qed.

Lemma undo_pop n h q r x :
  ras_ok n q -> ras_ok n r -> addrStack r !! Z.to_nat (tos r) = Some x -> 0 <= h ->
  ras_agree n h q (RAS_pop r) ->
  exists q', RAS_restore q (tos r) x = Ret q' /\ ras_ok n q' /\ ras_agree n (Z.max 0 (h - 1)) q' r.
Proof.
  intros Hq Hr Hx Hh [Et Ha]. destruct (RAS_pop_ok n r Hr) as (_ & Etp & Eap).
  destruct (ro_range _ _ Hr), (ro_tos _ _ Hr).
  destruct (RAS_restore_ok n q (tos r) x Hq) as (q' & Eq & Hq' & Et' & Ea); [lia|].
  exists q'. split; [done|]. split; [done|]. split; [done|]. intros j Hj. unfold below. rewrite Et', Ea.
  pose proof (Z.mod_pos_bound (tos r - j) n ltac:(lia)).
  destruct (decide (j = 0)) as [->|Hne].
  - rewrite Z.sub_0_r, Z.mod_small by lia. rewrite Hx. apply list_lookup_insert_eq.
    pose proof (ro_len _ _ Hq). lia.
  - rewrite list_lookup_insert_ne.
    + specialize (Ha (j - 1) ltac:(lia)). unfold below in Ha. rewrite Et, Etp, Eap, Zminus_mod_idemp_l in Ha.
      by replace (tos r - 1 - (j - 1)) with (tos r - j) in Ha by lia.
    + intros E. apply (mod_sub_ne n (tos r) (tos r - j) j); [lia|lia|].
      rewrite (Z.mod_small (tos r)); lia.
Qed.

Lemma undo_push_pop n h q r r1 pc :
  ras_ok n r -> RAS_push r pc = Ret r1 -> 0 <= h -> ras_agree n h q (RAS_pop r1) ->
  ras_agree n (Z.max 1 h) q r.
Proof.
  intros Hr Hp Hh [Et Ha]. destruct (RAS_push_ok n r pc Hr) as (r' & E & Hr1 & Et1 & Ea).
  rewrite Hp in E. injection E as <-. destruct (RAS_pop_ok n r1 Hr1) as (_ & Etp & Eap).
  destruct (ro_range _ _ Hr), (ro_tos _ _ Hr).
  assert (Etos : tos (RAS_pop r1) = tos r).
  { rewrite Etp, Et1, Zminus_mod_idemp_l. replace (tos r + 1 - 1) with (tos r) by lia.
    apply Z.mod_small. lia. }
  split; [by rewrite Et|]. intros j Hj. rewrite Ha by lia. unfold below. rewrite Etos, Eap, Ea.
  apply list_lookup_insert_ne. intros E.
  pose proof (Z.mod_pos_bound (tos r + 1) n ltac:(lia)). pose proof (Z.mod_pos_bound (tos r - j) n ltac:(lia)).
  apply (mod_sub_ne n (tos r + 1) (tos r - j) (j + 1)); lia.
Qed.

End rasproofs.

(** ** The branch target buffer *)

Section btbproofs.
Context {PC Inst : Type} `{ISA PC Inst}.

Record btb_ok (b : DefaultBTB PC) : Prop := {
  bo_size : exists k, 0 <= k < 32 /\ btb_numEntries b = 2 ^ k /\ idxMask b = 2 ^ k - 1;
  bo_len : Z.of_nat (length (btb b)) = btb_numEntries b
}.

Lemma btb_index b a :
  btb_ok b -> 0 <= getIndex b a < btb_numEntries b /\ exists e, btb b !! Z.to_nat (getIndex b a) = Some e.
Proof.
  intros [(k & Hk & En & Em) Hl]. unfold getIndex. rewrite Em.
  pose proof (land_ones_range (Z.shiftr a (btb_instShiftAmt b)) k ltac:(lia)) as Hr.
  split; [lia|]. apply lookup_lt_is_Some_2. lia.
Qed.

Lemma DefaultBTB_new_ok junk entries tagBits shift b :
  inword 32 entries -> DefaultBTB_new junk entries tagBits shift = Ret b -> btb_ok b.
Proof.
  intros He. unfold DefaultBTB_new. destruct (isPowerOf2 32 entries) eqn:E; cbn [negb]; [|done].
  destruct (31 <=? tagBits); [done|]. apply power_of_2 in E as (k & Hk & ->); [|done].
  pose proof (pow2_pos k ltac:(lia)). rewrite floorLog2_u32_log2 by word_lia. bsimpl. intros [= <-].
  split; cbn.
  - exists k. by rewrite pred_pow.
  - rewrite length_fmap, length_seq. lia.
Qed.

Lemma DefaultBTB_valid_ok b a tid : btb_ok b -> exists v, DefaultBTB_valid b a tid = Ret v.
Proof.
  intros Hb. destruct (btb_index b a Hb) as (Hi & e & He). unfold DefaultBTB_valid.
  rewrite cassert_true by lia. bsimpl. rewrite (vread_some _ _ _ He). bsimpl. by eexists.
Qed.

Lemma DefaultBTB_lookup_ok b a tid : btb_ok b -> exists t, DefaultBTB_lookup b a tid = Ret t.
Proof.
  intros Hb. destruct (btb_index b a Hb) as (Hi & e & He). unfold DefaultBTB_lookup.
  rewrite cassert_true by lia. bsimpl. rewrite (vread_some _ _ _ He). bsimpl. by eexists.
Qed.

(** After an update the branch hits with its target, and so does every address
    with the same index and tag; addresses with another index are untouched. *)
Lemma DefaultBTB_update_ok b a target tid :
  btb_ok b ->
  exists b', DefaultBTB_update b a target tid = Ret b' /\ btb_ok b' /\
    (forall a', getIndex b a' = getIndex b a ->
      DefaultBTB_valid b' a' tid = Ret (getTag b a' =? getTag b a)) /\
    DefaultBTB_lookup b' a tid = Ret target /\
    (forall a' t, getIndex b a' <> getIndex b a ->
      DefaultBTB_valid b' a' t = DefaultBTB_valid b a' t /\
      DefaultBTB_lookup b' a' t = DefaultBTB_lookup b a' t).
Proof.
  intros Hb. destruct (btb_index b a Hb) as (Hi & e & He). unfold DefaultBTB_update.
  rewrite cassert_true by lia. bsimpl. rewrite vwrite_lt by (by eapply lookup_lt_Some). bsimpl.
  set (e' := mkBTBEntry (getTag b a) target tid true). set (l := <[_:=_]> _).
  assert (Hl : l !! Z.to_nat (getIndex b a) = Some e').
  { apply list_lookup_insert_eq. by eapply lookup_lt_Some. }
  eexists. split; [done|]. split_and!.
  - destruct Hb. split; cbn; [done|]. unfold l. by rewrite length_insert.
  - intros a' E. unfold DefaultBTB_valid. change (getIndex (btb_with b l) a') with (getIndex b a').
    cbn [btb btb_numEntries btb_with]. rewrite E, cassert_true by lia. bsimpl.
    rewrite (vread_some _ _ _ Hl). bsimpl. unfold entry_matches. cbn.
    change (getTag (btb_with b l) a') with (getTag b a'). by rewrite Z.eqb_refl, andb_true_r.
  - unfold DefaultBTB_lookup. change (getIndex (btb_with b l) a) with (getIndex b a).
    cbn [btb btb_numEntries btb_with]. rewrite cassert_true by lia. bsimpl.
    rewrite (vread_some _ _ _ Hl). bsimpl. unfold entry_matches. cbn.
    change (getTag (btb_with b l) a) with (getTag b a). by rewrite !Z.eqb_refl.
  - intros a' t Hne. destruct (btb_index b a' Hb) as (Hi' & _).
    unfold DefaultBTB_valid, DefaultBTB_lookup.
    change (getIndex (btb_with b l) a') with (getIndex b a'). cbn [btb btb_numEntries btb_with].
    unfold vread. subst l. rewrite list_lookup_insert_ne by lia. done.
Qed.

End btbproofs.

(** ** The unit: every operation succeeds and keeps the invariant *)

Section unitproofs.
Context {S H PC Inst : Type} `{DirPred S H} `{!ISA PC Inst}.
Context {Inv : S -> Prop} {Rec : S -> option H -> Prop} {spec : S -> Z} {old : option H -> Z}.
Context `{!DirPredOk S H Inv Rec spec old} `{!ISAOk PC Inst}.

Abbreviation Unit := (BPredUnit S H PC).
Abbreviation Record_ := (PredictorHistory H PC).

(** A record of a unit whose stacks have [n] entries and whose direction
    predictor is [d]. *)
Record rec_ok (n : Z) (d : S) (r : Record_) : Prop := {
  rc_rec : Rec d (bpHistory r);
  rc_pc : inword 64 (ph_pc r);
  rc_idx : 0 <= RASIndex r < n
}.

Record unit_inv (n : Z) (u : Unit) : Prop := {
  ui_dir : Inv (dir u);
  ui_btb : btb_ok (BTB u);
  ui_ras : Forall (ras_ok n) (RAS u);
  ui_len : length (RAS u) = length (predHist u);
  ui_recs : Forall (Forall (rec_ok n (dir u))) (predHist u);
  ui_n : 1 <= n
}.

Lemma rec_ok_mono n d d' r :
  (forall x, Rec d x -> Rec d' x) -> rec_ok n d r -> rec_ok n d' r.
Proof. intros Hm []. split; auto. Qed.

Lemma recs_ok_mono n d d' (l : list (list Record_)) :
  (forall x, Rec d x -> Rec d' x) -> Forall (Forall (rec_ok n d)) l -> Forall (Forall (rec_ok n d')) l.
Proof.
  intros Hm Hl. eapply Forall_impl; [done|]. intros ph Hp. eapply Forall_impl; [done|].
  intros r. by apply rec_ok_mono.
Qed.

Lemma thread_ok n u tid :
  unit_inv n u -> (tid < length (predHist u))%nat ->
  exists ph r, predHist u !! tid = Some ph /\ RAS u !! tid = Some r /\ ras_ok n r /\
    Forall (rec_ok n (dir u)) ph.
Proof.
  intros Hu Ht. destruct (lookup_lt_is_Some_2 (predHist u) tid Ht) as [ph Hp].
  destruct (lookup_lt_is_Some_2 (RAS u) tid) as [r Hr]; [by rewrite (ui_len _ _ Hu)|].
  exists ph, r. split_and!; try done.
  - exact (Forall_lookup_1 _ _ _ _ (ui_ras _ _ Hu) Hr).
  - exact (Forall_lookup_1 _ _ _ _ (ui_recs _ _ Hu) Hp).
Qed.

(** Replacing the state of one thread. *)
Lemma unit_inv_thread n (u : Unit) tid ph r d b st :
  unit_inv n u -> Inv d -> btb_ok b -> (forall x, Rec (dir u) x -> Rec d x) ->
  ras_ok n r -> Forall (rec_ok n d) ph ->
  unit_inv n (mkBPredUnit (numThreads u) (<[tid:=ph]> (predHist u)) b (<[tid:=r]> (RAS u)) d st).
Proof.
  intros Hu Hd Hb Hm Hr Hp. split; cbn; try done.
  - apply Forall_insert; [apply (ui_ras _ _ Hu)|done].
  - rewrite !length_insert. apply (ui_len _ _ Hu).
  - apply Forall_insert; [|done]. by apply (recs_ok_mono n (dir u)), (ui_recs _ _ Hu).
  - apply (ui_n _ _ Hu).
Qed.

(** How many entries above the top a squashed record may leave overwritten,
    when the records squashed before it left [h]. *)
Definition undo_depth (h : Z) (rec : Record_) : Z :=
  if usedRAS rec then Z.max 0 (h - 1)
  else if wasCall rec then (if pushedRAS rec then h + 1 else Z.max 1 h)
  else h.

Lemma undo_depth_nonneg h rec : 0 <= h -> 0 <= undo_depth h rec.
Proof. intros. unfold undo_depth. repeat case_match; lia. Qed.

(** Squashing [rec] undoes the step of the stack from [r] to [r']. *)
Definition undoes (n : Z) (rec : Record_) (r r' : ReturnAddrStack PC) : Prop :=
  forall h q, 0 <= h -> ras_ok n q -> ras_agree n h q r' ->
    exists q', undo_ras rec q = Ret q' /\ ras_ok n q' /\ ras_agree n (undo_depth h rec) q' r.

Lemma undoes_none n rec r : usedRAS rec = false -> wasCall rec = false -> undoes n rec r r.
Proof. intros E1 E2 h q Hh Hq Ha. exists q. unfold undo_ras, undo_depth. by rewrite E1, E2. Qed.

Lemma undoes_pop n rec r x :
  ras_ok n r -> addrStack r !! Z.to_nat (tos r) = Some x -> undoes n (rec_used rec (tos r) x) r (RAS_pop r).
Proof. intros Hr Hx h q Hh Hq Ha. by apply (undo_pop n h q r x). Qed.

Lemma undoes_push n rec r r1 pc :
  ras_ok n r -> usedRAS rec = false -> RAS_push r pc = Ret r1 ->
  undoes n (rec_pushed rec true true) r r1.
Proof.
  intros Hr E Hp h q Hh Hq Ha. exists (RAS_pop q). unfold undo_ras, undo_depth. cbn. rewrite E.
  split; [done|]. split; [by apply RAS_pop_ok|]. by apply (undo_push n h q r r1 pc).
Qed.

Lemma undoes_push_pop n rec r r1 pc :
  ras_ok n r -> usedRAS rec = false -> RAS_push r pc = Ret r1 ->
  undoes n (rec_pushed rec false true) r (RAS_pop r1).
Proof.
  intros Hr E Hp h q Hh Hq Ha. exists q. unfold undo_ras, undo_depth. cbn. rewrite E.
  split; [done|]. split; [done|]. by apply (undo_push_pop n h q r r1 pc).
Qed.

(** *** Prediction *)

Lemma predict_dir_ok u inst a :
  Inv (dir u) -> inword 64 a ->
  exists taken h d, predict_dir u inst a = Ret (taken, h, d) /\ Inv d /\ Rec d h /\
    old h = spec (dir u) /\ forall x, Rec (dir u) x -> Rec d x.
Proof.
  intros Hi Ha. unfold predict_dir. destruct (isUncondCtrl inst).
  - destruct (dpo_uncond (dir u) a Hi Ha) as (h & d & -> & Hd). bsimpl. by exists true, h, d.
  - destruct (dpo_lookup (dir u) a Hi Ha) as (t & h & d & -> & Hd). by exists t, h, d.
Qed.

Lemma use_ras_ok n (u : Unit) pc tid rec r :
  RAS u !! tid = Some r -> ras_ok n r ->
  exists x, addrStack r !! Z.to_nat (tos r) = Some x /\
    use_ras u pc tid rec = Ret (buildRetPC pc x, rec_used rec (tos r) x, <[tid:=RAS_pop r]> (RAS u)).
Proof.
  intros Hr Ho. destruct (RAS_top_ok n r Ho) as (x & E & Hx). exists x. split; [done|].
  unfold use_ras. rewrite (vread_some _ _ _ Hr). bsimpl. rewrite E. bsimpl.
  by rewrite vwrite_lt by (by eapply lookup_lt_Some).
Qed.

Lemma push_call_ok n (u : Unit) inst pc tid rec r :
  RAS u !! tid = Some r -> ras_ok n r ->
  exists rec' r1, push_call u inst pc tid rec = Ret (rec', <[tid:=r1]> (RAS u)) /\ ras_ok n r1 /\
    if isCall inst then rec' = rec_pushed rec true true /\ RAS_push r pc = Ret r1
    else rec' = rec /\ r1 = r.
Proof.
  intros Hr Ho. unfold push_call. destruct (isCall inst).
  - rewrite (vread_some _ _ _ Hr). bsimpl. destruct (RAS_push_ok n r pc Ho) as (r1 & -> & Ho1 & _).
    bsimpl. rewrite vwrite_lt by (by eapply lookup_lt_Some). bsimpl. by do 2 eexists.
  - exists rec, r. by rewrite list_insert_id.
Qed.

Lemma btb_miss_ok n (u : Unit) inst a tid h rec r1 d :
  (tid < length (RAS u))%nat -> isReturn inst = false -> Inv d -> inword 64 a -> ras_ok n r1 ->
  exists rec' r2 d', btb_miss d inst a tid h rec (<[tid:=r1]> (RAS u)) = Ret (rec', <[tid:=r2]> (RAS u), d') /\
    Inv d' /\ (forall x, Rec d x -> Rec d' x) /\ ras_ok n r2 /\
    if isCall inst && negb (isUncondCtrl inst)
    then rec' = rec_pushed rec false (wasCall rec) /\ r2 = RAS_pop r1 else rec' = rec /\ r2 = r1.
Proof.
  intros Ht Er Hd Ha Ho. unfold btb_miss. rewrite Er. destruct (isCall inst); cbn [negb andb].
  - destruct (isUncondCtrl inst); cbn [negb].
    + by exists rec, r1, d.
    + rewrite (vread_some _ _ r1) by (by apply list_lookup_insert_eq). bsimpl.
      rewrite vwrite_lt by (by rewrite length_insert). bsimpl. rewrite list_insert_insert_eq.
      do 3 eexists. split_and!; try done. by apply RAS_pop_ok.
  - destruct (dpo_btb d a h Hd Ha) as (d' & -> & Hd' & Hm). bsimpl. by exists rec, r1, d'.
Qed.

Lemma predict_ok n (u : Unit) inst sn pc tid ph r :
  unit_inv n u -> predHist u !! tid = Some ph -> RAS u !! tid = Some r ->
  exists taken target d st rec r',
    predict u inst sn pc tid = Ret (taken, target,
      mkBPredUnit (numThreads u) (<[tid:=rec :: ph]> (predHist u)) (BTB u) (<[tid:=r']> (RAS u)) d st) /\
    Inv d /\ (forall x, Rec (dir u) x -> Rec d x) /\ rec_ok n d rec /\ ras_ok n r' /\
    ph_seqNum rec = sn /\ old (bpHistory rec) = spec (dir u) /\ undoes n rec r r'.
Proof.
  intros Hu Hp Hr. pose proof (Forall_lookup_1 _ _ _ _ (ui_ras _ _ Hu) Hr) as Ho.
  pose proof (instAddr_word pc) as Ha. pose proof (ro_tos _ _ Ho) as Ht. pose proof (ui_n _ _ Hu) as Hn.
  destruct (predict_dir_ok u inst _ (ui_dir _ _ Hu) Ha) as (taken & h & d & E & Hd & Hrec & Eo & Hm).
  unfold predict. rewrite E. bsimpl. set (st := st_add _ _ _ _ _ _ _ _).
  set (rec := PredictorHistory_new sn (instAddr pc) taken h (Z.of_nat tid)).
  assert (Hc : forall rec', ph_pc rec' = ph_pc rec -> bpHistory rec' = bpHistory rec ->
    0 <= RASIndex rec' < n -> forall d', (forall x, Rec d x -> Rec d' x) -> rec_ok n d' rec').
  { intros rec' E1 E2 E3 d' Hm'. split; [rewrite E2; by apply Hm'|by rewrite E1|done]. }
  assert (Hh : forall rec', vwrite (predHist u) tid (rec' :: ph) = Ret (<[tid:=rec' :: ph]> (predHist u))).
  { intros rec'. apply vwrite_lt. by eapply lookup_lt_Some. }
  destruct taken; [destruct (isReturn inst) eqn:Er|].
  - destruct (use_ras_ok n u pc tid (rec_return rec) r Hr Ho) as (x & Hx & ->). bsimpl.
    rewrite (vread_some _ _ _ Hp). bsimpl. rewrite Hh. bsimpl. do 6 eexists. split; [done|].
    split_and!; first [done|apply Hc; (done || (cbn; lia) || by auto)|by apply RAS_pop_ok|by apply undoes_pop].
  - destruct (push_call_ok n u inst pc tid rec r Hr Ho) as (rec1 & r1 & -> & Ho1 & Hcall). bsimpl.
    destruct (DefaultBTB_valid_ok (BTB u) (instAddr pc) (Z.of_nat tid) (ui_btb _ _ Hu)) as ([|] & ->); bsimpl.
    + destruct (DefaultBTB_lookup_ok (BTB u) (instAddr pc) (Z.of_nat tid) (ui_btb _ _ Hu)) as (t & ->). bsimpl.
      rewrite (vread_some _ _ _ Hp). bsimpl. rewrite Hh. bsimpl. do 6 eexists. split; [done|].
      destruct (isCall inst); destruct Hcall as [-> Hc1].
      * split_and!; first [done|apply Hc; (done || (cbn; lia) || by auto)|by eapply undoes_push].
      * subst r1. split_and!; first [done|apply Hc; (done || (cbn; lia) || by auto)|by apply undoes_none].
    + destruct (btb_miss_ok n u inst (instAddr pc) tid h rec1 r1 d) as (rec2 & r2 & d' & -> & Hd' & Hm' & Ho2 & Hmiss);
        try done; [by eapply lookup_lt_Some|]. bsimpl.
      rewrite (vread_some _ _ _ Hp). bsimpl. rewrite Hh. bsimpl. do 6 eexists. split; [done|].
      destruct (isCall inst); cbn [andb] in Hmiss; destruct Hcall as [-> Hc1].
      * destruct (isUncondCtrl inst); cbn [negb] in Hmiss; destruct Hmiss as [-> ->].
        -- split_and!; first [done|by auto|apply Hc; (done || (cbn; lia) || by auto)|by eapply undoes_push].
        -- split_and!; first [done|by auto|apply Hc; (done || (cbn; lia) || by auto)|by eapply undoes_push_pop].
      * destruct Hmiss as [-> ->]. subst r1.
        split_and!; first [done|by auto|apply Hc; (done || (cbn; lia) || by auto)|by apply undoes_none].
  - bsimpl. rewrite (vread_some _ _ _ Hp). bsimpl. rewrite Hh. bsimpl.
    do 5 eexists. exists r. rewrite (list_insert_id (RAS u) tid r Hr). split; [done|].
    destruct (isReturn inst); (split_and!; first [done|apply Hc; (done || (cbn; lia) || by auto)|by apply undoes_none]).
Qed.

(** *** Squashing a run of predictions *)

(** The predictions of one thread, oldest first. *)
Fixpoint predicts (u : Unit) (tid : nat) (l : list (Inst * Z * PC)) : res Unit :=
  match l with
  | [] => Ret u
  | (inst, sn, pc) :: l => '(_, _, u) ← predict u inst sn pc tid; predicts u tid l
  end.

(** Squashing [recs] from a state with the stack [r'] and the speculative
    history of [d] leads back to the stack [r] and the history of [d0]. *)
Definition unwinds (n sn : Z) (recs : list Record_) (r r' : ReturnAddrStack PC) (d0 d : S) : Prop :=
  forall q e h rest, 0 <= h -> ras_ok n q -> ras_agree n h q r' -> Inv e -> spec e = spec d ->
    Forall (fun rec => Rec e (bpHistory rec)) recs ->
    exists q' e', squash_loop (recs ++ rest) sn q e = squash_loop rest sn q' e' /\ ras_ok n q' /\
      ras_agree n (foldl undo_depth h recs) q' r /\ Inv e' /\ spec e' = spec d0 /\
      (forall x, Rec e x -> Rec e' x).

Lemma foldl_undo_nonneg h recs : 0 <= h -> 0 <= foldl undo_depth h recs.
Proof.
  revert h. induction recs as [|rec recs IH]; intros h Hh; [done|]. by apply IH, undo_depth_nonneg.
Qed.

Lemma unwinds_snoc n sn recs rec r r1 r' d0 d1 d :
  unwinds n sn recs r1 r' d1 d -> undoes n rec r r1 -> sn < ph_seqNum rec ->
  old (bpHistory rec) = spec d0 -> unwinds n sn (recs ++ [rec]) r r' d0 d.
Proof.
  intros Hw Hu Hs Ho q e h rest Hh Hq Ha He Es [Hr1 Hr2]%Forall_app.
  destruct (Hw q e h (rec :: rest) Hh Hq Ha He Es Hr1) as (q1 & e1 & E & Hq1 & Ha1 & He1 & Es1 & Hm1).
  destruct (Hu _ _ (foldl_undo_nonneg h recs Hh) Hq1 Ha1) as (q2 & Eq & Hq2 & Ha2).
  apply Forall_cons in Hr2 as [Hr2 _].
  destruct (dpo_squash e1 _ He1 (Hm1 _ Hr2)) as (e2 & Ee & He2 & Es2 & Hm2).
  exists q2, e2. rewrite <- app_assoc. change ([rec] ++ rest) with (rec :: rest). rewrite E.
  cbn [squash_loop]. destruct (Z.ltb_spec sn (ph_seqNum rec)); [|lia].
  rewrite Eq. bsimpl. rewrite Ee. bsimpl. rewrite foldl_snoc. split_and!; try done; [congruence|auto].
Qed.

Lemma predicts_ok n tid sn l u ph r :
  unit_inv n u -> predHist u !! tid = Some ph -> RAS u !! tid = Some r ->
  Forall (fun x => sn < x.1.2) l ->
  exists recs r' d st,
    predicts u tid l = Ret (mkBPredUnit (numThreads u) (<[tid:=recs ++ ph]> (predHist u)) (BTB u)
                              (<[tid:=r']> (RAS u)) d st) /\
    Inv d /\ (forall x, Rec (dir u) x -> Rec d x) /\ Forall (rec_ok n d) recs /\ ras_ok n r' /\
    ph_seqNum <$> recs = reverse (snd ∘ fst <$> l) /\ unwinds n sn recs r r' (dir u) d.
Proof.
  revert u ph r. induction l as [|[[inst s] pc] l IH]; intros u ph r Hu Hp Hr Hl; cbn [predicts].
  - exists [], r, (dir u), (bp_stats u). rewrite !list_insert_id by done. destruct u; cbn in *.
    split_and!; try done; [apply Hu|by eapply (Forall_lookup_1 _ _ _ _ (ui_ras _ _ Hu))|].
    intros q e h rest Hh Hq Ha He Es _. by exists q, e.
  - apply Forall_cons in Hl as [Hs Hl].
    destruct (predict_ok n u inst s pc tid ph r Hu Hp Hr)
      as (taken & target & d & st & rec & r1 & -> & Hd & Hm & Hc & Ho & Es & Eo & Hun). bsimpl.
    set (u1 := mkBPredUnit _ _ _ _ _ _).
    assert (Hu1 : unit_inv n u1).
    { apply unit_inv_thread; try done; [apply Hu|]. constructor; [done|].
      eapply Forall_impl; [exact (Forall_lookup_1 _ _ _ _ (ui_recs _ _ Hu) Hp)|].
      intros x. by apply rec_ok_mono. }
    destruct (IH u1 (rec :: ph) r1) as (recs & r' & d' & st' & -> & Hd' & Hm' & Hcs & Ho' & Eseq & Hw); try done.
    { apply list_lookup_insert_eq. by eapply lookup_lt_Some. }
    { apply list_lookup_insert_eq. by eapply lookup_lt_Some. }
    exists (recs ++ [rec]), r', d', st'. cbn [numThreads predHist BTB RAS u1].
    rewrite !list_insert_insert_eq, <- app_assoc. split_and!; try done.
    + naive_solver.
    + apply Forall_app. split; [done|]. constructor; [|done]. by apply (rec_ok_mono n d).
    + rewrite fmap_app, Eseq. cbn [fmap list_fmap]. rewrite reverse_cons, Es. done.
    + eapply unwinds_snoc; try done. by rewrite Es.
Qed.

Lemma squash_loop_stop (ph : list Record_) sn q e :
  Forall (fun rec => ph_seqNum rec <= sn) ph -> squash_loop ph sn q e = Ret (ph, q, e).
Proof.
  destruct ph as [|rec ph]; [done|]. intros [Hr _]%Forall_cons. cbn [squash_loop].
  destruct (Z.ltb_spec sn (ph_seqNum rec)); [lia|done].
Qed.


(** *** Commit *)

(** The training of the direction predictor by committed records, oldest first. *)
Fixpoint train_all (l : list Record_) (d : S) : res S :=
  match l with
  | [] => Ret d
  | rec :: l =>
      d ← (if wasSquashed rec then dp_retireSquashed d (bpHistory rec)
           else dp_update d (ph_pc rec) (predTaken rec) (bpHistory rec) false);
      train_all l d
  end.

Lemma train_all_ok n l d :
  Inv d -> Forall (rec_ok n d) l ->
  exists d', train_all l d = Ret d' /\ Inv d' /\ spec d' = spec d /\ forall x, Rec d x -> Rec d' x.
Proof.
  revert d. induction l as [|rec l IH]; intros d Hd Hl; [by exists d|].
  apply Forall_cons in Hl as [[Hr Hp _] Hl]. cbn [train_all].
  assert (Hs : exists d1, (if wasSquashed rec then dp_retireSquashed d (bpHistory rec)
      else dp_update d (ph_pc rec) (predTaken rec) (bpHistory rec) false) = Ret d1 /\
      Inv d1 /\ spec d1 = spec d /\ forall x, Rec d x -> Rec d1 x).
  { destruct (wasSquashed rec); [exists d; by rewrite (dpo_retire d)|].
    destruct (dpo_update d _ (predTaken rec) _ false Hd Hp Hr) as (d1 & -> & ? & ? & ?).
    exists d1. split_and!; auto. }
  destruct Hs as (d1 & -> & Hd1 & Es & Hm). bsimpl.
  destruct (IH d1 Hd1) as (d' & -> & Hd' & Es' & Hm').
  { eapply Forall_impl; [done|]. intros x. by apply rec_ok_mono. }
  exists d'. split_and!; try done; [congruence|auto].
Qed.

Lemma commit_loop_spec done_sn (l y : list Record_) d :
  Forall (fun rec => ph_seqNum rec <= done_sn) l -> Forall (fun rec => done_sn < ph_seqNum rec) y ->
  commit_loop (l ++ y) done_sn d = (d' ← train_all l d; Ret (y, d')).
Proof.
  intros Hl Hy. revert d. induction Hl as [|rec l Hr Hl IH]; intros d; cbn [app commit_loop train_all].
  - destruct Hy as [|rec y Hr Hy]; [done|]. cbn [commit_loop].
    destruct (Z.leb_spec (ph_seqNum rec) done_sn); [lia|done].
  - destruct (Z.leb_spec (ph_seqNum rec) done_sn); [|lia]. destruct (wasSquashed rec); cbn [negb].
    + destruct (dp_retireSquashed d (bpHistory rec)); bsimpl; [apply IH|done].
    + destruct (dp_update d _ _ _ _); bsimpl; [apply IH|done].
Qed.

(** Committing up to a sequence number removes exactly the records up to it,
    trains the direction predictor with them oldest first, each with the
    predicted outcome or, if it was already corrected, not again, and changes
    neither the speculative history nor the target buffer nor the stacks. *)
Theorem commit_oldest_first n u tid done_sn young older :
  unit_inv n u -> predHist u !! tid = Some (young ++ older) ->
  Forall (fun rec => done_sn < ph_seqNum rec) young ->
  Forall (fun rec => ph_seqNum rec <= done_sn) older ->
  exists u', BPredUnit_update u done_sn tid = Ret u' /\ unit_inv n u' /\
    predHist u' = <[tid:=young]> (predHist u) /\
    train_all (reverse older) (dir u) = Ret (dir u') /\ spec (dir u') = spec (dir u) /\
    BTB u' = BTB u /\ RAS u' = RAS u.
Proof.
  intros Hu Hp Hy Hl. unfold BPredUnit_update. rewrite (vread_some _ _ _ Hp). bsimpl.
  pose proof (Forall_lookup_1 _ _ _ _ (ui_recs _ _ Hu) Hp) as [Hoy Hoo]%Forall_app.
  rewrite reverse_app, commit_loop_spec by by apply Forall_reverse.
  destruct (train_all_ok n (reverse older) (dir u) (ui_dir _ _ Hu)) as (d' & Ed & Hd & Es & Hm);
    [by apply Forall_reverse|]. rewrite Ed. bsimpl.
  rewrite vwrite_lt by (by eapply lookup_lt_Some). bsimpl. rewrite reverse_involutive.
  eexists. split; [done|]. split; [|done]. destruct Hu. split; cbn; try done.
  - by rewrite length_insert.
  - apply Forall_insert; [by apply (recs_ok_mono n (dir u))|].
    eapply Forall_impl; [done|]. intros x. by apply rec_ok_mono.
Qed.

(** *** A misprediction *)

Lemma undo_ras_ok n d rec q :
  rec_ok n d rec -> ras_ok n q -> exists q', undo_ras rec q = Ret q' /\ ras_ok n q'.
Proof.
  intros [_ _ Hi] Hq. unfold undo_ras. destruct (usedRAS rec).
  - destruct (RAS_restore_ok n q _ (RASTarget rec) Hq Hi) as (q' & -> & Hq' & _). by exists q'.
  - destruct (_ && _); [|by exists q]. exists (RAS_pop q). split; [done|]. by apply RAS_pop_ok.
Qed.

Lemma squash_loop_ok n sn young rest q e :
  Forall (fun rec => sn < ph_seqNum rec) young -> Forall (rec_ok n e) young -> ras_ok n q -> Inv e ->
  exists q' e', squash_loop (young ++ rest) sn q e = squash_loop rest sn q' e' /\
    ras_ok n q' /\ Inv e' /\ forall x, Rec e x -> Rec e' x.
Proof.
  intros Hs. revert q e. induction Hs as [|rec young Hr Hs IH]; intros q e Hc Hq He; [by exists q, e|].
  apply Forall_cons in Hc as [Hc Hcs]. cbn [app squash_loop].
  destruct (Z.ltb_spec sn (ph_seqNum rec)); [|lia].
  destruct (undo_ras_ok n e rec q Hc Hq) as (q1 & -> & Hq1). bsimpl.
  destruct (dpo_squash e _ He (rc_rec _ _ _ Hc)) as (e1 & -> & He1 & _ & Hm1). bsimpl.
  destruct (IH q1 e1) as (q' & e' & E & Hq' & He' & Hm'); try done.
  { eapply Forall_impl; [done|]. intros x. by apply rec_ok_mono. }
  exists q', e'. split_and!; try done. auto.
Qed.

Lemma squash_ok n u tid sn young rest r :
  unit_inv n u -> predHist u !! tid = Some (young ++ rest) -> RAS u !! tid = Some r ->
  Forall (fun rec => sn < ph_seqNum rec) young ->
  Forall (fun rec => ph_seqNum rec <= sn) rest ->
  exists q d, BPredUnit_squash u sn tid = Ret (mkBPredUnit (numThreads u) (<[tid:=rest]> (predHist u))
      (BTB u) (<[tid:=q]> (RAS u)) d (bp_stats u)) /\
    ras_ok n q /\ Inv d /\ (forall x, Rec (dir u) x -> Rec d x).
Proof.
  intros Hu Hp Hr Hy Hrest. pose proof (Forall_lookup_1 _ _ _ _ (ui_recs _ _ Hu) Hp) as [Hc _]%Forall_app.
  pose proof (Forall_lookup_1 _ _ _ _ (ui_ras _ _ Hu) Hr) as Ho.
  destruct (squash_loop_ok n sn young rest r (dir u)) as (q & d & E & Hq & Hd & Hm); try done; [apply Hu|].
  exists q, d. rewrite (squash_loop_stop rest) in E by done. unfold BPredUnit_squash.
  rewrite (vread_some _ _ _ Hp). bsimpl. rewrite (vread_some _ _ _ Hr). bsimpl. rewrite E. bsimpl.
  rewrite !vwrite_lt by (by eapply lookup_lt_Some). done.
Qed.

Lemma correct_ras_ok n d rec taken r :
  rec_ok n d rec -> ras_ok n r ->
  exists rec' r', correct_ras (rec_squashed rec) taken r = Ret (rec', r') /\ rec_ok n d rec' /\ ras_ok n r' /\
    ph_seqNum rec' = ph_seqNum rec /\ bpHistory rec' = bpHistory rec /\ wasSquashed rec' = true.
Proof.
  intros Hc Hr. pose proof (proj1 (RAS_pop_ok n r Hr)) as Hpop. destruct Hc as [Hc1 Hc2 Hc3].
  unfold correct_ras. destruct taken.
  - destruct (_ && _); by do 2 eexists.
  - cbn [usedRAS rec_squashed]. destruct (usedRAS rec).
    + destruct (RAS_restore_ok n r _ (RASTarget rec) Hr Hc3) as (r' & E & Hr' & _).
      cbn [RASIndex RASTarget rec_squashed]. rewrite E. bsimpl. by do 2 eexists.
    + destruct (_ && _); by do 2 eexists.
Qed.

(** Correcting a mispredicted branch that is still in flight always
    succeeds: the younger records are squashed, its own record stays and is
    marked so that it does not train again at commit, and a branch that was
    taken is found in the target buffer with the right target afterwards.  If
    the branch has no record the call only counts when the history is empty,
    and fails an assertion when older branches are in flight. *)
Theorem mispredict_corrects n u tid sn target taken young rest :
  unit_inv n u -> predHist u !! tid = Some (young ++ rest) ->
  Forall (fun rec => sn < ph_seqNum rec) young -> Forall (fun rec => ph_seqNum rec <= sn) rest ->
  match rest with
  | [] => exists u', BPredUnit_mispredict u sn target taken tid = Ret u' /\ unit_inv n u' /\
      predHist u' = <[tid:=[]]> (predHist u) /\ BTB u' = BTB u
  | rec :: older =>
      if ph_seqNum rec =? sn then
        exists u' rec', BPredUnit_mispredict u sn target taken tid = Ret u' /\ unit_inv n u' /\
          predHist u' = <[tid:=rec' :: older]> (predHist u) /\ ph_seqNum rec' = sn /\
          bpHistory rec' = bpHistory rec /\ wasSquashed rec' = true /\
          (if taken then DefaultBTB_valid (BTB u') (ph_pc rec) (Z.of_nat tid) = Ret true /\
                         DefaultBTB_lookup (BTB u') (ph_pc rec) (Z.of_nat tid) = Ret target
           else BTB u' = BTB u)
      else BPredUnit_mispredict u sn target taken tid = Err AssertFailed
  end.
Proof.
  intros Hu Hp Hy Hrest. pose proof (lookup_lt_Some _ _ _ Hp) as Hlt.
  destruct (thread_ok n u tid Hu Hlt) as (ph & r & Hp' & Hr & Ho & Hcs).
  rewrite Hp in Hp'. injection Hp' as <-. apply Forall_app in Hcs as [_ Hcs].
  destruct (squash_ok n u tid sn young rest r) as (q & d & E & Hq & Hd & Hm); try done.
  assert (Hcs' : Forall (rec_ok n d) rest).
  { eapply Forall_impl; [done|]. intros x. by apply rec_ok_mono. }
  pose proof (ui_btb _ _ Hu) as Hb. pose proof (ui_len _ _ Hu) as Hlen.
  unfold BPredUnit_mispredict. rewrite E. bsimpl. cbn [predHist bp_stats dir RAS BTB numThreads].
  rewrite (vread_some _ _ rest) by (by apply list_lookup_insert_eq). bsimpl.
  destruct rest as [|rec older].
  { eexists. split; [done|]. split; [|done]. by apply unit_inv_thread. }
  destruct (Z.eqb_spec (ph_seqNum rec) sn) as [Es|Es]; [|done]. cbn [cassert]. bsimpl.
  apply Forall_cons in Hcs' as [Hc Hco].
  destruct (dpo_update d _ taken _ true Hd (rc_pc _ _ _ Hc) (rc_rec _ _ _ Hc)) as (d' & -> & Hd' & _ & Hm').
  bsimpl. rewrite (vread_some _ _ q) by (apply list_lookup_insert_eq; lia). bsimpl.
  destruct (correct_ras_ok n d rec taken q Hc Hq) as (rec' & r' & -> & Hc' & Hr' & Es' & Eh & Hsq). bsimpl.
  destruct (DefaultBTB_update_ok (BTB u) (ph_pc rec) target (Z.of_nat tid) Hb) as (b & Eb & Hb' & Hv & Hl & _).
  assert (Hbt : exists b', (if taken then DefaultBTB_update (BTB u) (ph_pc rec) target (Z.of_nat tid)
      else Ret (BTB u)) = Ret b' /\ btb_ok b' /\ if taken then b' = b else b' = BTB u).
  { destruct taken; [by exists b|by exists (BTB u)]. }
  destruct Hbt as (b' & -> & Hb2 & Hbt). bsimpl.
  rewrite !vwrite_lt by (rewrite length_insert; lia). bsimpl. rewrite !list_insert_insert_eq.
  eexists _, rec'. split; [done|]. cbn [predHist BTB]. split_and!; try done.
  - apply unit_inv_thread; try done; [auto|]. constructor; [by apply (rec_ok_mono n d)|].
    eapply Forall_impl; [done|]. intros x. by apply rec_ok_mono.
  - by rewrite Es', Es.
  - destruct taken; subst b'; [|done]. split; [|done]. by rewrite Hv, Z.eqb_refl by done.
Qed.

End unitproofs.

Lemma BPredUnit_new_inv {S H PC Inst : Type} `{DirPred S H} `{!ISA PC Inst} (Inv : S -> Prop)
    (Rec : S -> option H -> Prop) (d : S) junk threads entries tagSize n shift (u : BPredUnit S H PC) :
  Inv d -> inword 32 entries -> 1 <= n < 2 ^ 32 ->
  BPredUnit_new d junk threads entries tagSize n shift = Ret u ->
  unit_inv (Inv := Inv) (Rec := Rec) n u.
Proof.
  intros Hd He Hn. unfold BPredUnit_new. rewrite bind_Ret. intros (b & Eb & [= <-]). split; cbn; try lia.
  - done.
  - by eapply DefaultBTB_new_ok.
  - apply Forall_replicate. by apply RAS_init_ok.
  - by rewrite !length_replicate.
  - apply Forall_replicate. constructor.
Qed.

(** ** A concrete instruction set and unit *)

Record DemoInst := mkDemoInst { di_uncond : bool; di_direct : bool; di_return : bool; di_call : bool }.

#[export] Instance demo_isa : ISA Z DemoInst := {
  pc_default := 0; pc_of := wrap 64; pc_set _ a := wrap 64 a; instAddr := wrap 64;
  buildRetPC _ r := wrap 64 (r + 4); advancePC pc _ := wrap 64 (pc + 4);
  isUncondCtrl := di_uncond; isDirectCtrl := di_direct; isReturn := di_return; isCall := di_call;
  branchTarget _ pc := wrap 64 (pc + 8)
}.

#[export] Instance demo_isa_ok : ISAOk Z DemoInst.
Proof. split. intros pc. by apply wrap_range. Qed.

Definition demo_call : DemoInst := mkDemoInst true true false true.
Definition demo_return : DemoInst := mkDemoInst true false true false.
Definition demo_cond : DemoInst := mkDemoInst false true false false.

(** A unit with the tournament predictor, one thread, 16 target entries and a
    stack of 4. *)
Definition demo_unit : res (BPredUnit TournamentBP TournamentHistory Z) :=
  d ← TournamentBP_new demo_params; BPredUnit_new d (fun _ => 0) 1 16 8 4 2.

Lemma demo_unit_inv :
  exists u, demo_unit = Ret u /\ unit_inv (Inv := tournament_inv) (Rec := tournament_rec) 4 u /\
    predHist u = [[]] /\ RAS u = [RAS_init 4].
Proof.
  unfold demo_unit. destruct (TournamentBP_new demo_params) as [d|] eqn:Ed; [|by vm_compute in Ed]. bsimpl.
  destruct (BPredUnit_new d (fun _ => 0) 1 16 8 4 2) as [u|] eqn:Eu.
  - exists u. split; [done|]. split.
    + apply (BPredUnit_new_inv _ _ d (fun _ => 0) 1 16 8 4 2); [|word_lia|lia|exact Eu].
      apply (TournamentBP_new_inv demo_params); [by vm_compute..|exact Ed].
    + unfold BPredUnit_new in Eu. apply bind_Ret in Eu as (b & _ & [= <-]). done.
  - unfold BPredUnit_new in Eu. by vm_compute in Eu.
Qed.


(** A record of the demonstration, not taken and not squashed. *)
Definition demo_record (seq : Z) : PredictorHistory TournamentHistory Z :=
  PredictorHistory_new seq 0x40 false (Some (mkTournamentHistory 0 0 false false false)) 0.

(** The demonstration unit with records in flight. *)
Lemma demo_flight seqs :
  exists u, unit_inv (Inv := tournament_inv) (Rec := tournament_rec) 4 u /\
    predHist u = [demo_record <$> seqs].
Proof.
  destruct demo_unit_inv as (u & Eu & Hu & Hp & Hr).
  exists (mkBPredUnit (numThreads u) [demo_record <$> seqs] (BTB u) (RAS u) (dir u) (bp_stats u)).
  split; [|done]. destruct Hu as [Hd Hb Hras Hl _ Hn]. split; cbn; try done; [by rewrite Hr|].
  constructor; [|done]. apply Forall_fmap, Forall_true. intros s. split; cbn; [|by vm_compute|lia].
  eexists. split; [done|]. cbn. pose proof (ti_reg _ Hd). lia.
Qed.

Lemma commit_oldest_first_witness :
  exists u u', predHist u = [demo_record <$> [3; 2; 1]] /\ BPredUnit_update u 2 0 = Ret u' /\
    predHist u' = [demo_record <$> [3]] /\
    train_all (demo_record <$> [1; 2]) (dir u) = Ret (dir u').
Proof.
  destruct (demo_flight [3; 2; 1]) as (u & Hu & Hp).
  destruct (commit_oldest_first 4 u 0 2 [demo_record 3] [demo_record 2; demo_record 1])
    as (u' & E1 & _ & E2 & E3 & _); [done|by rewrite Hp|by repeat constructor|by repeat constructor|].
  exists u, u'. rewrite Hp in E2. done.
Defined.

Lemma mispredict_corrects_witness :
  exists u u' rec', predHist u = [demo_record <$> [3; 2; 1]] /\
    BPredUnit_mispredict u 2 0x1000 true 0 = Ret u' /\ predHist u' = [[rec'; demo_record 1]] /\
    wasSquashed rec' = true /\ DefaultBTB_lookup (BTB u') 0x40 0 = Ret 0x1000.
Proof.
  destruct (demo_flight [3; 2; 1]) as (u & Hu & Hp).
  pose proof (mispredict_corrects 4 u 0 2 0x1000 true [demo_record 3] [demo_record 2; demo_record 1]) as T.
  cbn [ph_seqNum demo_record PredictorHistory_new Z.eqb Pos.eqb] in T.
  destruct T as (u' & rec' & E1 & _ & E2 & _ & _ & E3 & _ & E4);
    [done|by rewrite Hp|by repeat constructor|by repeat constructor|].
  exists u, u', rec'. rewrite Hp in E2. done.
Defined.

(** The record keeps the direction predictor's outcome when a missing target
    turns the prediction into not taken: the unit predicts not taken, the branch
    is not taken, and its commit trains the counter towards taken. *)
Lemma btb_miss_trains_taken :
  (d ← LocalBP_new 8 2 2;
   d ← local_commits d 0x40 true 2;
   u ← BPredUnit_new d (fun _ => 0) 1 16 8 4 2;
   '(taken, pc, u) ← predict u demo_cond 1 0x40 0;
   u' ← BPredUnit_update u 1 0;
   Ret (taken, pc, ctr_val <$> localCtrs (dir u), ctr_val <$> localCtrs (dir u')))
  = Ret (false, 0x44, [2; 0; 0; 0], [3; 0; 0; 0]).
Proof. vm_compute. reflexivity. Qed.

(** A return predicted not taken is corrected by popping the stack, which marks
    its record as having used the stack without recording the index: squashing
    the record afterwards moves the top from 2 to 0. *)
Lemma corrected_return_loses_top :
  (u ← demo_unit;
   u1 ← predicts u 0 [(demo_call, 1, 0x40); (demo_call, 2, 0x80)];
   u2 ← predicts u1 0 [(mkDemoInst false false true false, 3, 0xc0)];
   u3 ← BPredUnit_mispredict u2 3 0x84 true 0;
   u4 ← BPredUnit_squash u3 2 0;
   Ret (tos <$> RAS u1, tos <$> RAS u2, tos <$> RAS u4)) = Ret ([2], [2], [0]).
Proof. vm_compute. reflexivity. Qed.

(** [restore] does not restore the number of used entries: a return that is
    predicted and squashed leaves the stack emptier than it was. *)
Lemma restore_loses_count :
  (u ← demo_unit;
   u1 ← predicts u 0 [(demo_call, 1, 0x40)];
   u2 ← predicts u1 0 [(demo_return, 2, 0x80)];
   u3 ← BPredUnit_squash u2 1 0;
   Ret (tos <$> RAS u1, tos <$> RAS u3, usedEntries <$> RAS u1, usedEntries <$> RAS u3))
  = Ret ([1], [1], [1], [0]).
Proof. vm_compute. reflexivity. Qed.
