(* ===== verification/Mshr.v ===== *)
(** * Miss-status registers: [mem/cache/mshr.hh], [mem/cache/mshr.cc]

    An MSHR collects the requests (targets) that wait for one block.  The
    registers of all caches of a hierarchy live in one store and are referred to
    by their location, because a request that is buffered below marks and clears
    the flag [downstreamPending] of the registers above it: a packet carries the
    location that [findNextSenderState<MSHR>()] finds in its stack of sender
    states.  The current tick is an argument; printing is not modelled. *)

From S2P Require Import Prelude Packet.
Local Open Scope Z_scope.

(** ** Data *)

Inductive Source := FromCPU | FromSnoop | FromPrefetcher.

#[export] Instance Source_eq_dec : EqDecision Source.
Proof. solve_decision. Defined.
#[export] Instance Command_eq_dec : EqDecision Command.
Proof. solve_decision. Defined.

(** A packet with the register found in its sender-state stack. *)
Record MPacket := mkMPacket { mp_pkt : Packet; mp_sender : option nat }.

Record Target := mkTarget {
  tg_recvTime : Z;
  tg_readyTime : Z;
  tg_order : Z;
  tg_pkt : MPacket;
  tg_source : Source;
  markedPending : bool
}.

Record TargetList := mkTargetList {
  tl_targets : list Target;
  tl_needsExclusive : bool;
  tl_hasUpgrade : bool
}.

Record MSHR := mkMSHR {
  m_readyTime : Z;
  m_isUncacheable : bool;
  downstreamPending : bool;
  pendingDirty : bool;
  postInvalidate : bool;
  postDowngrade : bool;
  m_order : Z;
  m_blkAddr : Z;
  m_blkSize : Z;
  m_isSecure : bool;
  inService : bool;
  isForward : bool;
  threadNum : Z;
  targets : TargetList;
  deferredTargets : TargetList
}.

(** The store of all registers. *)
Abbreviation mshrs := (list MSHR).

Definition TargetList_new : TargetList := mkTargetList [] false false.

Definition MSHR_new : MSHR :=
  mkMSHR 0 false false false false false 0 0 0 false false false (-1) TargetList_new TargetList_new.

(** ** Accessors and field updates *)

Definition mp_cmd (p : MPacket) : Command := pkt_cmd (mp_pkt p).
Definition mp_with (p : MPacket) (x : Packet) : MPacket := mkMPacket x (mp_sender p).

Definition hasPostInvalidate (m : MSHR) : res bool :=
  _ ← cassert (inService m); Ret (postInvalidate m).
Definition hasPostDowngrade (m : MSHR) : res bool :=
  _ ← cassert (inService m); Ret (postDowngrade m).
Definition isPendingDirty (m : MSHR) : res bool :=
  _ ← cassert (inService m); Ret (pendingDirty m).

Definition isReset (t : TargetList) : bool := negb (tl_needsExclusive t) && negb (tl_hasUpgrade t).
Definition resetFlags (t : TargetList) : TargetList := mkTargetList (tl_targets t) false false.
Definition tl_with (t : TargetList) (l : list Target) : TargetList :=
  mkTargetList l (tl_needsExclusive t) (tl_hasUpgrade t).

Definition getNumTargets (m : MSHR) : Z :=
  Z.of_nat (length (tl_targets (targets m)) + length (tl_targets (deferredTargets m))).
Definition hasTargets (m : MSHR) : bool := negb (is_nil (tl_targets (targets m))).

Definition m_with_targets (m : MSHR) (t : TargetList) : MSHR :=
  mkMSHR (m_readyTime m) (m_isUncacheable m) (downstreamPending m) (pendingDirty m)
    (postInvalidate m) (postDowngrade m) (m_order m) (m_blkAddr m) (m_blkSize m) (m_isSecure m)
    (inService m) (isForward m) (threadNum m) t (deferredTargets m).
Definition m_with_deferred (m : MSHR) (t : TargetList) : MSHR :=
  mkMSHR (m_readyTime m) (m_isUncacheable m) (downstreamPending m) (pendingDirty m)
    (postInvalidate m) (postDowngrade m) (m_order m) (m_blkAddr m) (m_blkSize m) (m_isSecure m)
    (inService m) (isForward m) (threadNum m) (targets m) t.
Definition m_with_pending (m : MSHR) (b : bool) : MSHR :=
  mkMSHR (m_readyTime m) (m_isUncacheable m) b (pendingDirty m)
    (postInvalidate m) (postDowngrade m) (m_order m) (m_blkAddr m) (m_blkSize m) (m_isSecure m)
    (inService m) (isForward m) (threadNum m) (targets m) (deferredTargets m).
Definition m_with_post (m : MSHR) (inv down : bool) : MSHR :=
  mkMSHR (m_readyTime m) (m_isUncacheable m) (downstreamPending m) (pendingDirty m)
    inv down (m_order m) (m_blkAddr m) (m_blkSize m) (m_isSecure m)
    (inService m) (isForward m) (threadNum m) (targets m) (deferredTargets m).
Definition m_with_service (m : MSHR) (b : bool) : MSHR :=
  mkMSHR (m_readyTime m) (m_isUncacheable m) (downstreamPending m) (pendingDirty m)
    (postInvalidate m) (postDowngrade m) (m_order m) (m_blkAddr m) (m_blkSize m) (m_isSecure m)
    b (isForward m) (threadNum m) (targets m) (deferredTargets m).
Definition m_with_dirty (m : MSHR) (b : bool) : MSHR :=
  mkMSHR (m_readyTime m) (m_isUncacheable m) (downstreamPending m) b
    (postInvalidate m) (postDowngrade m) (m_order m) (m_blkAddr m) (m_blkSize m) (m_isSecure m)
    (inService m) (isForward m) (threadNum m) (targets m) (deferredTargets m).
Definition m_with_order (m : MSHR) (order ready : Z) : MSHR :=
  mkMSHR ready (m_isUncacheable m) (downstreamPending m) (pendingDirty m)
    (postInvalidate m) (postDowngrade m) order (m_blkAddr m) (m_blkSize m) (m_isSecure m)
    (inService m) (isForward m) (threadNum m) (targets m) (deferredTargets m).

(** [h[i].field = ...], on the current contents of the register. *)
Definition m_update (h : mshrs) (i : nat) (f : MSHR -> MSHR) : res mshrs :=
  m ← vread h i; vwrite h i (f m).

(** ** Target lists *)

(** [TargetList::add]; the register above is marked as pending below. *)
Definition tl_add (h : mshrs) (curTick : Z) (t : TargetList) (p : MPacket) (readyTime order : Z)
    (source : Source) (markPending : bool) : res (mshrs * TargetList) :=
  let snoop := bool_decide (source = FromSnoop) in
  let ne := if negb snoop && cmd_needsExclusive (mp_cmd p) then true else tl_needsExclusive t in
  let up := if negb snoop && (cmd_isUpgrade (mp_cmd p) || bool_decide (mp_cmd p = StoreCondReq))
            then true else tl_hasUpgrade t in
  h ← (if markPending then
         match mp_sender p with
         | Some u =>
             m ← vread h u;
             _ ← cassert (negb (downstreamPending m));
             vwrite h u (m_with_pending m true)
         | None => Ret h
         end
       else Ret h);
  Ret (h, mkTargetList (tl_targets t ++ [mkTarget curTick readyTime order p source markPending]) ne up).

Definition replaceUpgrade (p : MPacket) : MPacket :=
  match mp_cmd p with
  | UpgradeReq => mp_with p (with_cmd (mp_pkt p) ReadExReq)
  | SCUpgradeReq => mp_with p (with_cmd (mp_pkt p) SCUpgradeFailReq)
  | StoreCondReq => mp_with p (with_cmd (mp_pkt p) StoreCondFailReq)
  | _ => p
  end.

Definition tg_with (t : Target) (p : MPacket) : Target :=
  mkTarget (tg_recvTime t) (tg_readyTime t) (tg_order t) p (tg_source t) (markedPending t).

Definition replaceUpgrades (t : TargetList) : TargetList :=
  if negb (tl_hasUpgrade t) then t
  else mkTargetList ((fun x => tg_with x (replaceUpgrade (tg_pkt x))) <$> tl_targets t)
         (tl_needsExclusive t) false.

(** The loop of [TargetList::clearDownstreamPending], calling [clear] for the
    registers above. *)
Fixpoint clear_targets (clear : mshrs -> nat -> res mshrs) (l : list Target) (h : mshrs) : res mshrs :=
  match l with
  | [] => Ret h
  | t :: l =>
      h ← (if markedPending t then
             match mp_sender (tg_pkt t) with
             | Some u => clear h u
             | None => Ret h
             end
           else Ret h);
      clear_targets clear l h
  end.

(** [MSHR::clearDownstreamPending]. *)
Fixpoint clear_pending (fuel : nat) (h : mshrs) (i : nat) : res mshrs :=
  match fuel with
  | 0%nat => Err OutOfFuel
  | S fuel =>
      m ← vread h i;
      _ ← cassert (downstreamPending m);
      h ← vwrite h i (m_with_pending m false);
      clear_targets (clear_pending fuel) (tl_targets (targets m)) h
  end.

(** Every call clears a flag that was set, so one call per register is enough. *)
Definition clear_fuel (h : mshrs) : nat := S (length h).

Definition clearDownstreamPending (h : mshrs) (i : nat) : res mshrs := clear_pending (clear_fuel h) h i.

Definition tl_clearDownstreamPending (h : mshrs) (t : TargetList) : res mshrs :=
  clear_targets clearDownstreamPending (tl_targets t) h.

(** [pkt->checkFunctional(t.pkt)] for each target: the functional packet, the
    targets (a functional write changes their payload) and whether it was
    satisfied, which ends the loop. *)
Fixpoint tl_functional (p : Packet) (l : list Target) : res (bool * Packet * list Target) :=
  match l with
  | [] => Ret (false, p, [])
  | t :: l =>
      let o := mp_pkt (tg_pkt t) in
      data ← (if cmd_hasData (pkt_cmd o) then d ← getPtr o; Ret (Some d) else Ret None);
      '(done, p, data) ← checkFunctional p (pkt_addr o) (pkt_isSecure o) (pkt_size o) data;
      let t := match data with
               | Some d => tg_with t (mp_with (tg_pkt t) (with_data o d (bytesValid o)))
               | None => t
               end in
      if (done : bool) then Ret (true, p, t :: l)
      else '(done, p, l) ← tl_functional p l; Ret (done, p, t :: l)
  end.

(** ** The operations of a register *)

Definition MSHR_allocate (h : mshrs) (i : nat) (curTick blk_addr blk_size : Z) (target : MPacket)
    (when_ready order : Z) : res mshrs :=
  m ← vread h i;
  _ ← cassert (isReset (targets m));
  let source := if bool_decide (mp_cmd target = HardPFReq) then FromPrefetcher else FromCPU in
  let m := mkMSHR when_ready (req_isUncacheable (pkt_req (mp_pkt target))) false (pendingDirty m)
             (postInvalidate m) (postDowngrade m) order blk_addr blk_size
             (pkt_isSecure (mp_pkt target)) false false 0 (targets m) (deferredTargets m) in
  h ← vwrite h i m;
  '(h, t) ← tl_add h curTick (targets m) target when_ready order source true;
  _ ← cassert (isReset (deferredTargets m));
  m_update h i (fun m => m_with_targets m t).

Definition popTarget (m : MSHR) : MSHR :=
  m_with_targets m (tl_with (targets m) (tail (tl_targets (targets m)))).

Definition isForwardNoResponse (m : MSHR) : res bool :=
  if negb (getNumTargets m =? 1) then Ret false
  else match tl_targets (targets m) with
       | [] => Err OutOfBounds
       | t :: _ =>
           Ret (bool_decide (tg_source t = FromCPU) && negb (cmd_needsResponse (mp_cmd (tg_pkt t))))
       end.

Definition MSHR_markInService (h : mshrs) (i : nat) (pending_dirty_resp : bool) : res (bool * mshrs) :=
  m ← vread h i;
  _ ← cassert (negb (inService m));
  fwd ← isForwardNoResponse m;
  if (fwd : bool) then
    _ ← cassert (getNumTargets m =? 1);
    h ← vwrite h i (popTarget m);
    Ret (true, h)
  else
    let m := m_with_post (m_with_dirty (m_with_service m true)
               (tl_needsExclusive (targets m) || pending_dirty_resp)) false false in
    h ← vwrite h i m;
    h ← (if negb (downstreamPending m) then tl_clearDownstreamPending h (targets m) else Ret h);
    Ret (false, h).

Definition MSHR_deallocate (m : MSHR) : res MSHR :=
  _ ← cassert (is_nil (tl_targets (targets m)));
  let m := m_with_targets m (resetFlags (targets m)) in
  _ ← cassert (isReset (deferredTargets m));
  Ret (m_with_service m false).

(** Whether a new target has to wait for the next request. *)
Definition must_defer (m : MSHR) (p : MPacket) : bool :=
  inService m &&
  (negb (is_nil (tl_targets (deferredTargets m))) || postInvalidate m ||
   (cmd_needsExclusive (mp_cmd p) && (negb (pendingDirty m) || postDowngrade m || isForward m))).

Definition allocateTarget (h : mshrs) (i : nat) (curTick : Z) (p : MPacket) (whenReady order : Z) :
    res mshrs :=
  m ← vread h i;
  _ ← cassert (negb (bool_decide (mp_cmd p = HardPFReq)));
  _ ← cassert (negb (m_isUncacheable m));
  if must_defer m p then
    let p := if postInvalidate m then replaceUpgrade p else p in
    '(h, t) ← tl_add h curTick (deferredTargets m) p whenReady order FromCPU true;
    m_update h i (fun m => m_with_deferred m t)
  else
    '(h, t) ← tl_add h curTick (targets m) p whenReady order FromCPU (negb (inService m));
    m_update h i (fun m => m_with_targets m t).

(** [Packet(pkt, true, true)]: the copy has fresh, uninitialised data. *)
Definition Packet_copy (p : Packet) (junk : list Z) : Packet :=
  mkPacket (pkt_cmd p) (pkt_req p) (pkt_addr p) (pkt_isSecure p) (pkt_size p) (Some junk)
    (Z.land (pkt_flags p) (Z.lor VALID_ADDR VALID_SIZE)) (pkt_payloadDelay p) (bytesValid p) InvalidCmd.

(** The effect of a snooped request on a register in service, after the deferred
    upgrades were replaced. *)
Definition snoop_effect (h : mshrs) (i : nat) (curTick : Z) (junk : list Z) (m : MSHR) (p : MPacket)
    (order : Z) : res (MPacket * mshrs) :=
  if pendingDirty m || cmd_isInvalidate (mp_cmd p) then
    '(cp_pkt, p') ←
      (if pendingDirty m then
         x ← assertMemInhibit (mp_pkt p);
         Ret (mp_with p (Packet_copy (mp_pkt p) junk), mp_with p (setSupplyExclusive x))
       else Ret (mkMPacket (Packet_new (pkt_req (mp_pkt p)) (mp_cmd p)) None, p));
    '(h, t) ← tl_add h curTick (targets m) cp_pkt curTick order FromSnoop
                (downstreamPending m && tl_needsExclusive (targets m));
    h ← m_update h i (fun m => m_with_targets m t);
    h ← (if cmd_needsExclusive (mp_cmd p)
         then m_update h i (fun m => m_with_post m true (postDowngrade m)) else Ret h);
    Ret (p', h)
  else Ret (p, h).

(** [handleSnoop]: whether the register is affected, the snooped packet and the
    store. *)
Definition MSHR_handleSnoop (h : mshrs) (i : nat) (curTick : Z) (junk : list Z) (p : MPacket)
    (order : Z) : res (bool * MPacket * mshrs) :=
  m ← vread h i;
  let excl := cmd_needsExclusive (mp_cmd p) in
  if negb (inService m) || (isExpressSnoop (mp_pkt p) && downstreamPending m) then
    h ← (if excl then
           vwrite h i (m_with_deferred (m_with_targets m (replaceUpgrades (targets m)))
                         (replaceUpgrades (deferredTargets m)))
         else Ret h);
    Ret (false, p, h)
  else
    let m := if excl then m_with_deferred m (replaceUpgrades (deferredTargets m)) else m in
    h ← vwrite h i m;
    if postInvalidate m then Ret (true, p, h)
    else
      '(p, h) ← snoop_effect h i curTick junk m p order;
      if negb excl && negb (req_isUncacheable (pkt_req (mp_pkt p))) then
        h ← m_update h i (fun m => m_with_post m (postInvalidate m) true);
        Ret (true, mp_with p (assertShared (mp_pkt p)), h)
      else Ret (true, p, h).

(** [promoteDeferredTargets]: the lists are swapped with their flags. *)
Definition promoteDeferredTargets (m : MSHR) (curTick : Z) : res (bool * MSHR) :=
  _ ← cassert (is_nil (tl_targets (targets m)));
  match tl_targets (deferredTargets m) with
  | [] => Ret (false, m)
  | t :: _ =>
      let m' := m_with_deferred (m_with_targets m (deferredTargets m)) (resetFlags (targets m)) in
      Ret (true, m_with_order m' (tg_order t) (Z.max curTick (tg_readyTime t)))
  end.

Definition MSHR_handleFill (h : mshrs) (i : nat) (p : Packet) : res mshrs :=
  m ← vread h i;
  if negb (sharedAsserted p) then
    pi ← hasPostInvalidate m;
    pd ← (if (pi : bool) then Ret true else hasPostDowngrade m);
    if negb pd && tl_needsExclusive (deferredTargets m) then
      _ ← cassert (negb (tl_needsExclusive (targets m)));
      _ ← cassert (negb (downstreamPending m));
      h ← m_update h i (fun m => m_with_targets m (mkTargetList (tl_targets (targets m)) true
                                                     (tl_hasUpgrade (targets m))));
      h ← tl_clearDownstreamPending h (deferredTargets m);
      m_update h i (fun m =>
        m_with_deferred (m_with_targets m (tl_with (targets m)
            (tl_targets (targets m) ++ tl_targets (deferredTargets m))))
          (mkTargetList [] false false))
    else Ret h
  else Ret h.

Definition MSHR_checkFunctional (h : mshrs) (i : nat) (p : Packet) : res (bool * Packet * mshrs) :=
  m ← vread h i;
  if cmd_isPrint (pkt_cmd p) then
    '(_, p, _) ← checkFunctional p (m_blkAddr m) (m_isSecure m) (m_blkSize m) None;
    Ret (false, p, h)
  else
    '(done, p, l) ← tl_functional p (tl_targets (targets m));
    let m := m_with_targets m (tl_with (targets m) l) in
    if (done : bool) then h ← vwrite h i m; Ret (true, p, h)
    else
      '(done, p, l) ← tl_functional p (tl_targets (deferredTargets m));
      h ← vwrite h i (m_with_deferred m (tl_with (deferredTargets m) l));
      Ret (done, p, h).

(** ** Stores that differ in the flags [downstreamPending] only *)

Definition pend_same (m m' : MSHR) : Prop := m' = m_with_pending m (downstreamPending m').

#[export] Instance pend_same_equiv : Equivalence pend_same.
Proof.
  split.
  - intros []; done.
  - intros m m' ->. by destruct m.
  - intros m1 m2 m3 -> ->. by destruct m1.
Qed.

Definition pend_eq : relation mshrs := Forall2 pend_same.

#[export] Instance pend_eq_equiv : Equivalence pend_eq.
Proof. apply _. Qed.

Lemma pend_eq_length h h' : pend_eq h h' -> length h = length h'.
Proof. apply Forall2_length. Qed.

Lemma pend_eq_lookup h h' i m :
  pend_eq h h' -> h !! i = Some m -> exists m', h' !! i = Some m' /\ pend_same m m'.
Proof. intros Hp Hm. exact (Forall2_lookup_l _ _ _ _ _ Hp Hm). Qed.

Lemma pend_eq_insert h i m b :
  h !! i = Some m -> pend_eq h (<[i:=m_with_pending m b]> h).
Proof.
  intros Hm. rewrite <- (list_insert_id h i m Hm) at 1. apply Forall2_insert; [reflexivity|].
  unfold pend_same. by destruct m.
Qed.

Lemma pend_same_fields m m' :
  pend_same m m' ->
  inService m' = inService m /\ targets m' = targets m /\ deferredTargets m' = deferredTargets m /\
  m_readyTime m' = m_readyTime m /\ m_isUncacheable m' = m_isUncacheable m /\
  m_blkAddr m' = m_blkAddr m /\ m_isSecure m' = m_isSecure m /\ postInvalidate m' = postInvalidate m /\
  postDowngrade m' = postDowngrade m /\ pendingDirty m' = pendingDirty m /\ threadNum m' = threadNum m.
Proof. intros ->. done. Qed.

(** A packet whose register above, if any, is not marked yet. *)
Definition sender_free (h : mshrs) (p : MPacket) : Prop :=
  match mp_sender p with
  | None => True
  | Some u => exists m, h !! u = Some m /\ downstreamPending m = false
  end.

(** The target that [add] appends. *)
Definition new_target (curTick : Z) (p : MPacket) (ready order : Z) (s : Source) (mark : bool) : Target :=
  mkTarget curTick ready order p s mark.

(** [add] succeeds when the register above is free, appends, and changes only a
    flag of the store. *)
Lemma tl_add_ok h curTick t p ready order s mark :
  (mark = true -> sender_free h p) ->
  exists h' t', tl_add h curTick t p ready order s mark = Ret (h', t') /\ pend_eq h h' /\
    tl_targets t' = tl_targets t ++ [new_target curTick p ready order s mark] /\
    h' = (if mark then match mp_sender p with
                       | Some u => alter (fun m => m_with_pending m true) u h
                       | None => h
                       end else h).
Proof.
  intros Hf. unfold tl_add. destruct mark; [|by do 2 eexists].
  specialize (Hf eq_refl). unfold sender_free in Hf. destruct (mp_sender p) as [u|]; [|by do 2 eexists].
  destruct Hf as (m & Hm & Hd). rewrite (vread_some _ _ _ Hm). bsimpl. rewrite Hd. cbn [negb cassert]. bsimpl.
  rewrite vwrite_lt by (by eapply lookup_lt_Some). bsimpl. do 2 eexists. split; [done|].
  split; [by apply pend_eq_insert|]. split; [done|]. by rewrite (alter_as_insert _ _ _ _ Hm).
Qed.

Lemma tl_add_inv h curTick t p ready order s mark h' t' :
  tl_add h curTick t p ready order s mark = Ret (h', t') ->
  pend_eq h h' /\ tl_targets t' = tl_targets t ++ [new_target curTick p ready order s mark].
Proof.
  unfold tl_add. rewrite bind_Ret. intros (h1 & E & [= <- <-]). split; [|done].
  destruct mark; [|by injection E as <-]. destruct (mp_sender p) as [u|]; [|by injection E as <-].
  apply bind_Ret in E as (m & Hm%vread_Ret & E). apply bind_Ret in E as ([] & _ & [_ ->]%vwrite_Ret).
  by apply pend_eq_insert.
Qed.

(** ** The recursion of [clearDownstreamPending] *)

Lemma clear_targets_rel (R : relation mshrs) `{!PreOrder R} (clear : mshrs -> nat -> res mshrs) l h h' :
  (forall h u h', clear h u = Ret h' -> R h h') -> clear_targets clear l h = Ret h' -> R h h'.
Proof.
  intros Hc. revert h. induction l as [|t l IH]; intros h; cbn [clear_targets].
  - by intros [= <-].
  - rewrite bind_Ret. intros (h1 & E & ?%IH). transitivity h1; [|done].
    destruct (markedPending t); [|by injection E as <-].
    destruct (mp_sender (tg_pkt t)); [by eapply Hc|by injection E as <-].
Qed.

(** What holds of clearing one flag holds of the recursion. *)
Lemma clear_pending_rel (R : relation mshrs) `{!PreOrder R} fuel h i h' :
  (forall h u m, h !! u = Some m -> R h (<[u:=m_with_pending m false]> h)) ->
  clear_pending fuel h i = Ret h' -> R h h'.
Proof.
  intros HR. revert h i h'. induction fuel as [|fuel IH]; intros h i h'; cbn [clear_pending]; [done|].
  rewrite bind_Ret. intros (m & Hm%vread_Ret & E). apply bind_Ret in E as ([] & _ & E).
  apply bind_Ret in E as (h1 & [_ ->]%vwrite_Ret & E). transitivity (<[i:=m_with_pending m false]> h).
  - by apply HR.
  - by eapply clear_targets_rel.
Qed.

Lemma tl_clear_eq h t h' : tl_clearDownstreamPending h t = Ret h' -> pend_eq h h'.
Proof.
  apply (clear_targets_rel pend_eq). intros h0 u h1. apply (clear_pending_rel pend_eq).
  intros h2 v m. apply pend_eq_insert.
Qed.

(** The flag of a register, as a number. *)
Definition pend (h : mshrs) (u : nat) : nat :=
  match h !! u with
  | Some m => if downstreamPending m then 1%nat else 0%nat
  | None => 0%nat
  end.

(** Clearing sets no flag. *)
Definition pend_le (h h' : mshrs) : Prop := forall u, (pend h' u <= pend h u)%nat.

#[export] Instance pend_le_pre : PreOrder pend_le.
Proof. split; [by intros h u|]. intros h1 h2 h3 H1 H2 u. specialize (H1 u). specialize (H2 u). lia. Qed.

Lemma pend_insert h i m' u :
  (i < length h)%nat ->
  pend (<[i:=m']> h) u = if decide (u = i) then (if downstreamPending m' then 1%nat else 0%nat) else pend h u.
Proof.
  intros Hi. unfold pend. case_decide as E; [subst u; by rewrite list_lookup_insert_eq|].
  by rewrite list_lookup_insert_ne.
Qed.

Lemma tl_clear_le h t h' : tl_clearDownstreamPending h t = Ret h' -> pend_le h h'.
Proof.
  apply (clear_targets_rel pend_le). intros h0 u h1. apply (clear_pending_rel pend_le).
  intros h2 v m Hm w. rewrite pend_insert by (by eapply lookup_lt_Some). cbn. case_decide; lia.
Qed.

(** ** The pending protocol

    A marked target is outstanding while the request it waits for has not been
    accepted at a level that will respond.  The invariant: each register is
    marked exactly when one outstanding target, in a register below, came from
    it; [D] lists marks that are about to be cleared. *)

Definition senders (l : list Target) : list nat :=
  omap (fun t => if markedPending t then mp_sender (tg_pkt t) else None) l.

Definition outstanding (m : MSHR) : list nat :=
  (if inService m && negb (downstreamPending m) then [] else senders (tl_targets (targets m))) ++
  senders (tl_targets (deferredTargets m)).

Definition debts (h : mshrs) : list nat := flat_map outstanding h.

Abbreviation cnt u l := (count_occ Nat.eq_dec l u).

(** [X] is a register whose request is being sent right now. *)
Record pinv (X : option nat) (h : mshrs) (D : list nat) : Prop := {
  pi_count : forall u, (cnt u (debts h) + cnt u D)%nat = pend h u;
  pi_service : forall i m, h !! i = Some m -> downstreamPending m = true -> inService m = true \/ X = Some i
}.

Definition npend (h : mshrs) : nat := length (filter (fun m => downstreamPending m = true) h).

Lemma cnt_app u l k : cnt u (l ++ k) = (cnt u l + cnt u k)%nat.
Proof. apply count_occ_app. Qed.

Lemma senders_app l k : senders (l ++ k) = senders l ++ senders k.
Proof. apply omap_app. Qed.

Lemma debts_insert h i m m' u :
  h !! i = Some m ->
  (cnt u (debts (<[i:=m']> h)) + cnt u (outstanding m))%nat = (cnt u (debts h) + cnt u (outstanding m'))%nat.
Proof.
  revert i. induction h as [|x h IH]; intros [|i]; try done; intros Hm.
  - injection Hm as <-. change (<[0%nat:=m']> (x :: h)) with (m' :: h).
    unfold debts. cbn [flat_map]. rewrite !cnt_app. lia.
  - change (<[S i:=m']> (x :: h)) with (x :: <[i:=m']> h). specialize (IH i Hm). unfold debts in *.
    cbn [flat_map]. rewrite !cnt_app. lia.
Qed.

Lemma npend_le h : (npend h <= length h)%nat.
Proof. apply length_filter. Qed.

Lemma npend_clear h i m :
  h !! i = Some m -> downstreamPending m = true ->
  npend h = S (npend (<[i:=m_with_pending m false]> h)).
Proof.
  intros Hm Hd. pose proof (lookup_lt_Some _ _ _ Hm) as Hlt. unfold npend.
  rewrite insert_take_drop by done. rewrite <- (take_drop_middle _ _ _ Hm) at 1.
  rewrite !filter_app, !length_app, !filter_cons. rewrite decide_True by done.
  rewrite decide_False by done. cbn. lia.
Qed.

(** The contribution of register [i] to the marks of [u]. *)
Definition flag_at (i : nat) (m : MSHR) (u : nat) : nat :=
  if decide (u = i) then (if downstreamPending m then 1%nat else 0%nat) else 0%nat.

(** Replacing a register. *)
Lemma pinv_insert X X' h D D' i m m' :
  pinv X h D -> h !! i = Some m ->
  (forall u, (cnt u (outstanding m') + cnt u D' + flag_at i m u = cnt u (outstanding m) + cnt u D + flag_at i m'
    u)%nat) ->
  (downstreamPending m' = true -> inService m' = true \/ X' = Some i) ->
  (forall j, X = Some j -> j <> i -> X' = Some j) ->
  pinv X' (<[i:=m']> h) D'.
Proof.
  intros [Hc Hs] Hm Ho Hp HX. pose proof (lookup_lt_Some _ _ _ Hm) as Hlt. split.
  - intros u. specialize (Hc u). specialize (Ho u). pose proof (debts_insert h i m m' u Hm) as Hd.
    rewrite pend_insert by done. unfold flag_at in Ho. case_decide as E; [|lia].
    subst u. unfold pend in Hc. rewrite Hm in Hc. destruct (downstreamPending m), (downstreamPending m'); lia.
  - intros j x Hj Hx. destruct (decide (j = i)) as [->|Hne].
    + rewrite list_lookup_insert_eq in Hj by done. injection Hj as <-. auto.
    + rewrite list_lookup_insert_ne in Hj by done. destruct (Hs j x Hj Hx) as [?|?]; [by left|].
      right. auto.
Qed.

Lemma clear_targets_ok (clear : mshrs -> nat -> res mshrs) f :
  (forall h u D, (npend h <= f)%nat -> pinv None h (u :: D) ->
     exists h', clear h u = Ret h' /\ pinv None h' D /\ (npend h' <= npend h)%nat) ->
  forall l h D, (npend h <= f)%nat -> pinv None h (senders l ++ D) ->
  exists h', clear_targets clear l h = Ret h' /\ pinv None h' D /\ (npend h' <= npend h)%nat.
Proof.
  intros IH l. induction l as [|t l IHl]; intros h D Hn Hp; cbn [clear_targets]; [by exists h|].
  unfold senders in Hp. cbn [omap list_omap] in Hp. fold (senders l) in Hp.
  assert (H1 : exists h1, (if markedPending t then match mp_sender (tg_pkt t) with
      | Some u => clear h u | None => Ret h end else Ret h) = Ret h1 /\
      pinv None h1 (senders l ++ D) /\ (npend h1 <= npend h)%nat).
  { destruct (markedPending t); [|by exists h]. destruct (mp_sender (tg_pkt t)) as [u|]; [|by exists h].
    by apply IH. }
  destruct H1 as (h1 & -> & Hp1 & Hn1). bsimpl. destruct (IHl h1 D) as (h' & -> & Hp' & Hn'); [lia|done|].
  exists h'. split_and!; [done..|lia].
Qed.

(** The first mark to be cleared is a register in service. *)
Lemma pinv_marked h u D :
  pinv None h (u :: D) ->
  exists m, h !! u = Some m /\ downstreamPending m = true /\ inService m = true.
Proof.
  intros Hp. pose proof (pi_count _ _ _ Hp u) as Hc. cbn [count_occ] in Hc.
  destruct (Nat.eq_dec u u); [|done]. unfold pend in Hc.
  destruct (h !! u) as [m|] eqn:Hm; [|lia]. destruct (downstreamPending m) eqn:Hd; [|lia].
  exists m. split_and!; try done. by destruct (pi_service _ _ _ Hp u m Hm Hd) as [?|?].
Qed.

Lemma clear_pending_ok fuel h u D :
  (npend h <= fuel)%nat -> pinv None h (u :: D) ->
  exists h', clear_pending fuel h u = Ret h' /\ pinv None h' D /\ (npend h' <= npend h)%nat.
Proof.
  revert h u D. induction fuel as [|fuel IH]; intros h u D Hn Hp.
  - destruct (pinv_marked h u D Hp) as (m & Hm & Hd & _). pose proof (npend_clear h u m Hm Hd). lia.
  - destruct (pinv_marked h u D Hp) as (m & Hm & Hd & Hs). cbn [clear_pending].
    rewrite (vread_some _ _ _ Hm). bsimpl. rewrite Hd. cbn [cassert]. bsimpl.
    rewrite vwrite_lt by (by eapply lookup_lt_Some). bsimpl.
    pose proof (npend_clear h u m Hm Hd) as Hn'.
    destruct (clear_targets_ok (clear_pending fuel) fuel IH (tl_targets (targets m))
      (<[u:=m_with_pending m false]> h) D) as (h' & -> & Hp' & Hle); [lia| |].
    + apply (pinv_insert None None h (u :: D) _ u m); try done.
      intros v. unfold outstanding, flag_at. cbn [inService downstreamPending targets deferredTargets m_with_pending].
      rewrite Hs, Hd. cbn [negb andb]. rewrite !cnt_app. cbn [count_occ]. case_decide as E.
      * subst v. destruct (Nat.eq_dec u u); [|done]. cbn. lia.
      * destruct (Nat.eq_dec u v); [by subst|]. cbn. lia.
    + exists h'. split_and!; [done..|lia].
Qed.

Lemma clearDownstreamPending_ok h u D :
  pinv None h (u :: D) ->
  exists h', clearDownstreamPending h u = Ret h' /\ pinv None h' D /\ (npend h' <= npend h)%nat.
Proof. apply clear_pending_ok. unfold clear_fuel. pose proof (npend_le h). lia. Qed.

Lemma tl_clear_ok h t D :
  pinv None h (senders (tl_targets t) ++ D) ->
  exists h', tl_clearDownstreamPending h t = Ret h' /\ pinv None h' D.
Proof.
  intros Hp. destruct (clear_targets_ok clearDownstreamPending (npend h)
    (fun h0 u D0 _ => clearDownstreamPending_ok h0 u D0) (tl_targets t) h D) as (h' & E & Hp' & _);
    [done..|]. by exists h'.
Qed.

(** *** Adding a target *)

(** A packet sent by the register above, which is not in service yet, to [i]. *)
Definition sender_new (h : mshrs) (i : nat) (p : MPacket) : Prop :=
  match mp_sender p with
  | None => True
  | Some u => u <> i /\ exists m, h !! u = Some m /\ downstreamPending m = false /\ inService m = false
  end.

Lemma sender_new_free h i p : sender_new h i p -> sender_free h p.
Proof. unfold sender_new, sender_free. destruct (mp_sender p); [|done]. intros (_ & m & Hm & Hd & _). by exists m. Qed.

Definition one_at (u v : nat) : nat := if decide (v = u) then 1%nat else 0%nat.

Lemma cnt_single u v : cnt v [u] = one_at u v.
Proof. unfold one_at. cbn. destruct (Nat.eq_dec u v), (decide (v = u)); congruence. Qed.

(** Marking the register [u] and adding one outstanding target of it to [i]. *)
Lemma pinv_mark h i m m' u mu :
  pinv None h [] -> h !! i = Some m -> h !! u = Some mu -> u <> i ->
  downstreamPending mu = false -> inService mu = false ->
  downstreamPending m' = downstreamPending m -> inService m' = inService m ->
  (forall v, cnt v (outstanding m') = (cnt v (outstanding m) + one_at u v)%nat) ->
  pinv (Some u) (<[i:=m']> (<[u:=m_with_pending mu true]> h)) [].
Proof.
  intros [Hc Hs] Hm Hu Hne Hd Hsv Ed Es Ho. pose proof (lookup_lt_Some _ _ _ Hm) as Hlt.
  pose proof (lookup_lt_Some _ _ _ Hu) as Hltu. set (h1 := <[u:=_]> h).
  assert (Hm1 : h1 !! i = Some m) by (unfold h1; by rewrite list_lookup_insert_ne).
  split.
  - intros v. specialize (Hc v). specialize (Ho v). cbn [count_occ] in *.
    pose proof (debts_insert h1 i m m' v Hm1) as H1.
    pose proof (debts_insert h u mu (m_with_pending mu true) v Hu) as H2. fold h1 in H2.
    assert (E : outstanding (m_with_pending mu true) = outstanding mu).
    { unfold outstanding. cbn. by rewrite Hsv. }
    rewrite E in H2. rewrite pend_insert by (unfold h1; by rewrite length_insert).
    unfold h1 at 2. rewrite pend_insert by done. cbn [downstreamPending m_with_pending].
    assert (Hv : cnt v (debts (<[i:=m']> h1)) = (pend h v + one_at u v)%nat) by lia. rewrite Hv.
    unfold one_at, pend. destruct (decide (v = i)) as [->|Hvi].
    + rewrite decide_False by done. rewrite Hm, Ed. lia.
    + destruct (decide (v = u)) as [->|Hvu]; [by rewrite Hu, Hd|lia].
  - intros j x Hj Hx. destruct (decide (j = u)) as [->|Hju]; [by right|left].
    destruct (decide (j = i)) as [->|Hji].
    + rewrite list_lookup_insert_eq in Hj by (unfold h1; by rewrite length_insert). injection Hj as <-.
      rewrite Es. rewrite Ed in Hx. by destruct (Hs i m Hm Hx).
    + unfold h1 in Hj. rewrite !list_lookup_insert_ne in Hj by done. by destruct (Hs j x Hj Hx).
Qed.

(** Replacing a register by one with the same marks. *)
Lemma pinv_same X h D i m m' :
  pinv X h D -> h !! i = Some m -> outstanding m' = outstanding m ->
  downstreamPending m' = downstreamPending m -> (inService m = true -> inService m' = true) ->
  pinv X (<[i:=m']> h) D.
Proof.
  intros Hp Hm Ho Ed Es. apply (pinv_insert X X h D D i m); try done.
  - intros u. unfold flag_at. by rewrite Ho, Ed.
  - rewrite Ed. intros Hd. destruct (pi_service _ _ _ Hp i m Hm Hd); auto.
Qed.

(** [add] to one of the lists of register [i], written back by [f]. *)
Lemma add_ok h i m (f : MSHR -> TargetList -> MSHR) t curTick p ready order s mark :
  pinv None h [] -> h !! i = Some m -> (mark = true -> sender_new h i p) ->
  (forall t', downstreamPending (f m t') = downstreamPending m /\ inService (f m t') = inService m) ->
  (forall t', tl_targets t' = tl_targets t ++ [new_target curTick p ready order s mark] ->
     forall v, cnt v (outstanding (f m t')) =
       (cnt v (outstanding m) + match (if mark then mp_sender p else None) with
                                | Some u => one_at u v | None => 0 end)%nat) ->
  exists h1 t' h2, tl_add h curTick t p ready order s mark = Ret (h1, t') /\
    m_update h1 i (fun m => f m t') = Ret h2 /\ pinv (if mark then mp_sender p else None) h2 [] /\
    pend_eq (<[i:=f m t']> h) h2 /\ h2 !! i = Some (f m t') /\
    tl_targets t' = tl_targets t ++ [new_target curTick p ready order s mark].
Proof.
  intros Hp Hm Hn Hf Ho.
  destruct (tl_add_ok h curTick t p ready order s mark) as (h1 & t' & E & Hpe & Et & Eh).
  { intros Hk. by eapply sender_new_free, Hn. }
  specialize (Ho t' Et). destruct (Hf t') as [Ed Es]. pose proof (lookup_lt_Some _ _ _ Hm) as Hlt.
  exists h1, t'. rewrite E. unfold m_update.
  assert (Hi : h1 !! i = Some m /\ pinv (if mark then mp_sender p else None) (<[i:=f m t']> h1) []).
  { destruct mark; [|subst h1; split; [done|]].
    - specialize (Hn eq_refl). unfold sender_new in Hn. destruct (mp_sender p) as [u|].
      + destruct Hn as (Hne & mu & Hu & Hd & Hs). subst h1. rewrite (alter_as_insert _ _ _ _ Hu).
        split; [by rewrite list_lookup_insert_ne|]. by apply (pinv_mark h i m).
      + subst h1. split; [done|]. apply (pinv_insert None None h [] [] i m); try done.
        * intros v. unfold flag_at. rewrite Ed, Ho. lia.
        * rewrite Ed, Es. intros Hd. by apply (pi_service _ _ _ Hp i m).
    - apply (pinv_insert None None h [] [] i m); try done.
      * intros v. unfold flag_at. rewrite Ed, Ho. lia.
      * rewrite Ed, Es. intros Hd. by apply (pi_service _ _ _ Hp i m). }
  destruct Hi as [Hi Hpi]. pose proof (lookup_lt_Some _ _ _ Hi) as Hlt1.
  rewrite (vread_some _ _ _ Hi). bsimpl. rewrite vwrite_lt by done.
  eexists. split_and!; try done; [|by apply list_lookup_insert_eq].
  apply Forall2_insert; [done|reflexivity].
Qed.

Lemma outstanding_targets m t' l v :
  tl_targets t' = tl_targets (targets m) ++ l ->
  cnt v (outstanding (m_with_targets m t')) =
    (cnt v (outstanding m) + if inService m && negb (downstreamPending m) then 0 else cnt v (senders l))%nat.
Proof.
  intros E. unfold outstanding. cbn [inService downstreamPending targets deferredTargets m_with_targets].
  rewrite E, senders_app, !cnt_app. destruct (_ && _); cbn [count_occ]; rewrite ?cnt_app; lia.
Qed.

Lemma outstanding_deferred m t' l v :
  tl_targets t' = tl_targets (deferredTargets m) ++ l ->
  cnt v (outstanding (m_with_deferred m t')) = (cnt v (outstanding m) + cnt v (senders l))%nat.
Proof.
  intros E. unfold outstanding. cbn [inService downstreamPending targets deferredTargets m_with_deferred].
  rewrite E, senders_app, !cnt_app. lia.
Qed.

Lemma senders_new curTick p ready order s mark v :
  cnt v (senders [new_target curTick p ready order s mark]) =
    match (if mark then mp_sender p else None) with Some u => one_at u v | None => 0%nat end.
Proof.
  unfold senders, new_target. cbn [omap list_omap markedPending tg_pkt]. destruct mark; [|done].
  destruct (mp_sender p) as [u|]; [apply cnt_single|done].
Qed.

(** *** The operations keep the protocol *)

(** A register that is not in use. *)
Definition mshr_free (m : MSHR) : Prop :=
  targets m = TargetList_new /\ deferredTargets m = TargetList_new /\ inService m = false.

(** A register as [MSHR_allocate] leaves it, but for the target. *)
Definition allocated_as (m : MSHR) (blk_addr blk_size : Z) (p : MPacket) (ready order : Z) : MSHR :=
  mkMSHR ready (req_isUncacheable (pkt_req (mp_pkt p))) false (pendingDirty m) (postInvalidate m)
    (postDowngrade m) order blk_addr blk_size (pkt_isSecure (mp_pkt p)) false false 0
    (targets m) (deferredTargets m).

Lemma pinv_not_pending h D i m :
  pinv None h D -> h !! i = Some m -> inService m = false -> downstreamPending m = false.
Proof.
  intros Hp Hm Hs. destruct (downstreamPending m) eqn:E; [|done].
  destruct (pi_service _ _ _ Hp i m Hm E); congruence.
Qed.

Lemma MSHR_allocate_ok h i m curTick a n p ready order :
  pinv None h [] -> h !! i = Some m -> mshr_free m -> sender_new h i p ->
  exists h' t, MSHR_allocate h i curTick a n p ready order = Ret h' /\ pinv (mp_sender p) h' [] /\
    pend_eq (<[i:=m_with_targets (allocated_as m a n p ready order) t]> h) h' /\
    length (tl_targets t) = 1%nat.
Proof.
  intros Hp Hm (Et & Ed & Es) Hn. pose proof (pinv_not_pending h [] i m Hp Hm Es) as Hd.
  pose proof (lookup_lt_Some _ _ _ Hm) as Hlt. unfold MSHR_allocate. rewrite (vread_some _ _ _ Hm). bsimpl.
  rewrite Et. cbn [isReset TargetList_new tl_needsExclusive tl_hasUpgrade negb andb cassert]. bsimpl.
  rewrite vwrite_lt by done. bsimpl. cbn [targets deferredTargets]. rewrite <- Et.
  fold (allocated_as m a n p ready order). set (m1 := allocated_as m a n p ready order).
  set (h0 := <[i:=m1]> h). set (src := if bool_decide _ then _ else _).
  assert (Hp0 : pinv None h0 []).
  { apply (pinv_same _ _ _ _ m); try done; [|by rewrite Es].
    unfold outstanding. cbn. by rewrite Et, Ed, Es. }
  assert (Hm1 : h0 !! i = Some m1) by (by apply list_lookup_insert_eq).
  destruct (add_ok h0 i m1 m_with_targets (targets m) curTick p ready order src true) as
    (h1 & t & h2 & -> & E2 & Hp2 & Hpe & _ & Et2); try done.
  - intros _. unfold sender_new in *. destruct (mp_sender p) as [u|]; [|done].
    destruct Hn as (Hne & mu & Hu & Hrest). split; [done|]. exists mu. split; [|done].
    unfold h0. by rewrite list_lookup_insert_ne.
  - intros t' Et' v. rewrite (outstanding_targets m1 t' _ v Et'), senders_new. done.
  - bsimpl. rewrite Ed. cbn [isReset TargetList_new tl_needsExclusive tl_hasUpgrade negb andb cassert]. bsimpl.
    rewrite E2. exists h2, t. split_and!; try done.
    + unfold h0 in Hpe. by rewrite list_insert_insert_eq in Hpe.
    + by rewrite Et2, Et.
Qed.

(** Where a new target goes: to the list of deferred targets, with upgrades
    replaced after an invalidation, or to the targets of the current request. *)
Lemma allocateTarget_ok h i m curTick p ready order :
  pinv None h [] -> h !! i = Some m -> mp_cmd p <> HardPFReq -> m_isUncacheable m = false ->
  (must_defer m p || negb (inService m) = true -> sender_new h i p) ->
  exists h' t, allocateTarget h i curTick p ready order = Ret h' /\
    pinv (if must_defer m p || negb (inService m) then mp_sender p else None) h' [] /\
    if must_defer m p then
      pend_eq (<[i:=m_with_deferred m t]> h) h' /\
      tl_targets t = tl_targets (deferredTargets m) ++
        [new_target curTick (if postInvalidate m then replaceUpgrade p else p) ready order FromCPU true]
    else
      pend_eq (<[i:=m_with_targets m t]> h) h' /\
      tl_targets t = tl_targets (targets m) ++
        [new_target curTick p ready order FromCPU (negb (inService m))].
Proof.
  intros Hp Hm Hc Hu Hn. unfold allocateTarget. rewrite (vread_some _ _ _ Hm). bsimpl.
  rewrite bool_decide_eq_false_2 by done. rewrite Hu. cbn [negb cassert]. bsimpl.
  destruct (must_defer m p); cbn [orb] in *.
  - set (p' := if postInvalidate m then replaceUpgrade p else p).
    assert (Es : mp_sender p' = mp_sender p).
    { unfold p', replaceUpgrade. destruct (postInvalidate m); [|done]. by destruct (mp_cmd p). }
    destruct (add_ok h i m m_with_deferred (deferredTargets m) curTick p' ready order FromCPU true) as
      (h1 & t & h2 & -> & E2 & Hp2 & Hpe & _ & Et2); try done.
    + intros _. unfold sender_new. rewrite Es. by apply Hn.
    + intros t' Et' v. rewrite (outstanding_deferred m t' _ v Et'), senders_new. done.
    + bsimpl. exists h2, t. rewrite <- Es. by split_and!.
  - destruct (add_ok h i m m_with_targets (targets m) curTick p ready order FromCPU (negb (inService m))) as
      (h1 & t & h2 & -> & E2 & Hp2 & Hpe & _ & Et2); try done.
    + intros t' Et' v. rewrite (outstanding_targets m t' _ v Et'), senders_new.
      destruct (inService m) eqn:Es; cbn [negb andb]; [|done]. destruct (downstreamPending m); done.
    + bsimpl. exists h2, t. by split_and!.
Qed.

(** A target that waits for nobody above. *)
Definition unmarked (t : Target) : Prop := senders [t] = [].

(** The register as [markInService] leaves it when a response is expected. *)
Definition serviced_as (m : MSHR) (dirty : bool) : MSHR :=
  m_with_post (m_with_dirty (m_with_service m true) (tl_needsExclusive (targets m) || dirty)) false false.

Lemma MSHR_markInService_ok X h i m t l dirty :
  pinv X h [] -> X = None \/ X = Some i -> h !! i = Some m -> inService m = false ->
  tl_targets (targets m) = t :: l ->
  (isForwardNoResponse m = Ret true -> X = None /\ unmarked t) ->
  exists b h', MSHR_markInService h i dirty = Ret (b, h') /\ isForwardNoResponse m = Ret b /\
    pinv None h' [] /\ pend_eq (<[i:=if b then popTarget m else serviced_as m dirty]> h) h'.
Proof.
  intros Hp HX Hm Hs Et Hf. pose proof (lookup_lt_Some _ _ _ Hm) as Hlt.
  unfold MSHR_markInService. rewrite (vread_some _ _ _ Hm). bsimpl. rewrite Hs. cbn [negb cassert]. bsimpl.
  assert (Hfw : exists b, isForwardNoResponse m = Ret b /\ (b = true -> getNumTargets m = 1)).
  { unfold isForwardNoResponse. destruct (Z.eqb_spec (getNumTargets m) 1); cbn [negb]; [|by exists false].
    rewrite Et. by eexists. }
  destruct Hfw as (b & Eb & Hb). rewrite Eb. bsimpl. destruct b.
  - destruct (Hf Eb) as [-> Hun]. rewrite (Hb eq_refl). cbn [Z.eqb Pos.eqb cassert]. bsimpl.
    rewrite vwrite_lt by done. bsimpl. do 2 eexists. split_and!; try done.
    apply (pinv_same _ _ _ _ m); try done. unfold outstanding, popTarget. cbn. rewrite Et. cbn.
    f_equal. rewrite Hs. cbn. unfold senders. cbn. unfold unmarked, senders in Hun. cbn in Hun.
    by destruct (if markedPending t then _ else _).
  - fold (serviced_as m dirty). rewrite vwrite_lt by done. bsimpl.
    set (h1 := <[i:=serviced_as m dirty]> h).
    cbn [downstreamPending targets serviced_as m_with_post m_with_dirty m_with_service].
    destruct (downstreamPending m) eqn:Hd; cbn [negb].
    + bsimpl. do 2 eexists. split_and!; try done.
      apply (pinv_insert X None h [] [] i m); try done.
      * intros v. unfold flag_at, outstanding. cbn. by rewrite Hd, Hs.
      * auto.
      * intros j -> Hj. destruct HX as [|HX]; congruence.
    + assert (Hp1 : pinv None h1 (senders (tl_targets (targets m)) ++ [])).
      { apply (pinv_insert X None h [] _ i m); try done.
        - intros v. unfold flag_at, outstanding. cbn [inService downstreamPending targets deferredTargets
            serviced_as m_with_post m_with_dirty m_with_service]. rewrite Hd, Hs. cbn [negb andb].
          rewrite !cnt_app. cbn [count_occ]. lia.
        - auto.
        - intros j -> Hj. destruct HX as [|HX]; congruence. }
      destruct (tl_clear_ok h1 (targets m) [] Hp1) as (h' & E & Hp').
      rewrite E. bsimpl. do 2 eexists. split_and!; try done. by eapply tl_clear_eq.
Qed.

(** *** Fills, snoops and the end of a request *)

(** Clearing does not look at deferred targets. *)
Definition set_deferred (i : nat) (t : TargetList) (k : mshrs) : mshrs :=
  alter (fun m => m_with_deferred m t) i k.

Lemma set_deferred_lookup i t k u :
  exists f, set_deferred i t k !! u = f <$> k !! u /\
    forall m, downstreamPending (f m) = downstreamPending m /\ targets (f m) = targets m /\
      set_deferred i t (<[u:=m_with_pending m false]> k) = <[u:=m_with_pending (f m) false]> (set_deferred i t k).
Proof.
  unfold set_deferred. destruct (decide (i = u)) as [->|Hne].
  - exists (fun m => m_with_deferred m t). split; [by rewrite list_lookup_alter_eq|].
    intros m. split_and!; try done. destruct (decide (u < length k)%nat).
    + rewrite (alter_as_insert _ _ _ (m_with_pending m false)) by (by apply list_lookup_insert_eq).
      rewrite list_insert_insert_eq. destruct (lookup_lt_is_Some_2 k u) as [x Hx]; [done|].
      rewrite (alter_as_insert _ _ _ _ Hx), list_insert_insert_eq. done.
    + rewrite !list_insert_ge, ?list_alter_ge; rewrite ?length_alter; try done; lia.
  - exists id. split; [rewrite list_lookup_alter_ne by done; by destruct (k !! u)|].
    intros m. split_and!; try done. apply list_eq. intros j. rewrite list_lookup_alter.
    destruct (decide (u < length k)%nat).
    + case_decide as E.
      * subst j. by rewrite !list_lookup_insert_ne, list_lookup_alter_eq by done.
      * destruct (decide (j = u)) as [->|Hj].
        -- by rewrite !list_lookup_insert_eq by (rewrite ?length_alter; done).
        -- by rewrite !list_lookup_insert_ne, list_lookup_alter_ne by done.
    + rewrite !list_insert_ge by (rewrite ?length_alter; lia). by rewrite list_lookup_alter.
Qed.

Lemma clear_targets_commute (clear : mshrs -> nat -> res mshrs) (g : mshrs -> mshrs) l k :
  (forall k u, clear (g k) u = (k' ← clear k u; Ret (g k'))) ->
  clear_targets clear l (g k) = (k' ← clear_targets clear l k; Ret (g k')).
Proof.
  intros Hc. revert k. induction l as [|t l IH]; intros k; cbn [clear_targets]; [done|].
  destruct (markedPending t); [|bsimpl; apply IH]. destruct (mp_sender (tg_pkt t)); [|bsimpl; apply IH].
  rewrite Hc. destruct (clear k n); bsimpl; [apply IH|done].
Qed.

Lemma clear_pending_commute fuel i t k u :
  clear_pending fuel (set_deferred i t k) u = (k' ← clear_pending fuel k u; Ret (set_deferred i t k')).
Proof.
  revert k u. induction fuel as [|fuel IH]; intros k u; cbn [clear_pending]; [done|].
  destruct (set_deferred_lookup i t k u) as (f & El & Hf). unfold vread. rewrite El.
  destruct (k !! u) as [m|] eqn:Hm; cbn [fmap option_fmap option_map]; bsimpl; [|done].
  destruct (Hf m) as (-> & -> & Ei). destruct (downstreamPending m); cbn [cassert]; bsimpl; [|done].
  rewrite !vwrite_lt by (unfold set_deferred; rewrite ?length_alter; by eapply lookup_lt_Some). bsimpl.
  rewrite <- Ei. by apply clear_targets_commute.
Qed.

Lemma tl_clear_commute i t k tl :
  tl_clearDownstreamPending (set_deferred i t k) tl =
    (k' ← tl_clearDownstreamPending k tl; Ret (set_deferred i t k')).
Proof.
  apply clear_targets_commute. intros k0 u. unfold clearDownstreamPending, clear_fuel.
  assert (El : length (set_deferred i t k0) = length k0) by (unfold set_deferred; apply length_alter).
  rewrite El. apply clear_pending_commute.
Qed.

(** The register after a fill that brings an exclusive copy: the deferred
    targets are served with the others. *)
Definition spliced (m : MSHR) : MSHR :=
  m_with_deferred (m_with_targets m (mkTargetList
    (tl_targets (targets m) ++ tl_targets (deferredTargets m)) true (tl_hasUpgrade (targets m))))
    TargetList_new.

Definition fill_moves (m : MSHR) (p : Packet) : bool :=
  negb (sharedAsserted p) && negb (postInvalidate m || postDowngrade m) && tl_needsExclusive (deferredTargets m).

Lemma MSHR_handleFill_ok h i m p :
  pinv None h [] -> h !! i = Some m -> inService m = true -> downstreamPending m = false ->
  (fill_moves m p = true -> tl_needsExclusive (targets m) = false) ->
  exists h', MSHR_handleFill h i p = Ret h' /\ pinv None h' [] /\
    pend_eq (<[i:=if fill_moves m p then spliced m else m]> h) h'.
Proof.
  intros Hp Hm Hs Hd Hx. pose proof (lookup_lt_Some _ _ _ Hm) as Hlt.
  assert (Hno : exists h', Ret h = Ret h' /\ pinv None h' [] /\ pend_eq (<[i:=m]> h) h').
  { exists h. split_and!; try done. by rewrite list_insert_id. }
  unfold MSHR_handleFill, hasPostInvalidate, hasPostDowngrade. rewrite (vread_some _ _ _ Hm). bsimpl.
  unfold fill_moves in *. destruct (sharedAsserted p); cbn [negb andb]; [done|]. rewrite Hs. cbn [cassert]. bsimpl.
  destruct (postInvalidate m); bsimpl; cbn [orb negb andb]; [done|].
  destruct (postDowngrade m); cbn [negb andb]; [done|].
  destruct (tl_needsExclusive (deferredTargets m)); [|done]. rewrite (Hx eq_refl), Hd. cbn [negb cassert]. bsimpl.
  unfold m_update. rewrite (vread_some _ _ _ Hm). bsimpl. rewrite vwrite_lt by done. bsimpl.
  set (m1 := m_with_targets m _). set (k := <[i:=m_with_deferred m1 TargetList_new]> h).
  assert (Ek : <[i:=m1]> h = set_deferred i (deferredTargets m) k).
  { unfold set_deferred, k. rewrite (alter_as_insert _ _ _ (m_with_deferred m1 TargetList_new))
      by (by apply list_lookup_insert_eq). by rewrite list_insert_insert_eq. }
  assert (Hk : pinv None k (senders (tl_targets (deferredTargets m)) ++ [])).
  { apply (pinv_insert None None h [] _ i m); try done; [|cbn; by rewrite Hd].
    intros v. unfold flag_at, outstanding. cbn [inService downstreamPending targets deferredTargets
      m1 m_with_deferred m_with_targets TargetList_new tl_targets]. rewrite Hs, Hd. cbn [negb andb].
    rewrite !cnt_app. cbn [count_occ senders omap list_omap]. lia. }
  destruct (tl_clear_ok k (deferredTargets m) [] Hk) as (k' & Ec & Hk').
  pose proof (tl_clear_eq _ _ _ Ec) as Hpe.
  rewrite Ek, tl_clear_commute, Ec. bsimpl.
  destruct (pend_eq_lookup k k' i (m_with_deferred m1 TargetList_new) Hpe) as (mk & Hmk & Esm).
  { by apply list_lookup_insert_eq. }
  pose proof (lookup_lt_Some _ _ _ Hmk) as Hltk.
  assert (Hdk : downstreamPending mk = false).
  { pose proof (tl_clear_le _ _ _ Ec i) as Hle. unfold pend in Hle. rewrite Hmk in Hle.
    unfold k in Hle. rewrite list_lookup_insert_eq in Hle by done. cbn in Hle. rewrite Hd in Hle.
    destruct (downstreamPending mk); [lia|done]. }
  assert (Hr : set_deferred i (deferredTargets m) k' !! i = Some (m_with_deferred mk (deferredTargets m))).
  { unfold set_deferred. by rewrite list_lookup_alter_eq, Hmk. }
  rewrite (vread_some _ _ _ Hr). bsimpl. rewrite vwrite_lt by (by eapply lookup_lt_Some). bsimpl.
  assert (E : <[i:=spliced m]> (set_deferred i (deferredTargets m) k') = <[i:=spliced m]> k').
  { unfold set_deferred. by rewrite (alter_as_insert _ _ _ _ Hmk), list_insert_insert_eq. }
  assert (Em : mk = m_with_deferred m1 TargetList_new).
  { rewrite Esm, Hdk. unfold m_with_pending, m_with_deferred, m1, m_with_targets. cbn. by rewrite Hd. }
  eexists. split; [done|]. subst mk. cbn [targets deferredTargets m_with_deferred m1 m_with_targets tl_targets tl_with
    tl_needsExclusive tl_hasUpgrade]. change (m_with_deferred (m_with_targets _ _) _) with (spliced m).
  rewrite E. split.
  - apply (pinv_same _ _ _ _ _ _ Hk' Hmk); try done. unfold outstanding. cbn. by rewrite Hs, Hd.
  - unfold k in Hpe. etransitivity; [|apply Forall2_insert; [exact Hpe|reflexivity]].
    by rewrite list_insert_insert_eq.
Qed.

Lemma replaceUpgrade_sender p : mp_sender (replaceUpgrade p) = mp_sender p.
Proof. unfold replaceUpgrade. by destruct (mp_cmd p). Qed.

Lemma replaceUpgrades_senders t :
  senders (tl_targets (replaceUpgrades t)) = senders (tl_targets t) /\
  length (tl_targets (replaceUpgrades t)) = length (tl_targets t) /\
  tl_needsExclusive (replaceUpgrades t) = tl_needsExclusive t.
Proof.
  unfold replaceUpgrades. destruct (negb (tl_hasUpgrade t)); [done|]. cbn. rewrite length_fmap.
  split_and!; try done. unfold senders. induction (tl_targets t) as [|x l IH]; [done|]. cbn.
  rewrite replaceUpgrade_sender. by destruct (if markedPending x then _ else _); rewrite IH.
Qed.

Lemma replaceUpgrades_new : replaceUpgrades TargetList_new = TargetList_new.
Proof. done. Qed.

(** What a snoop may change in a register: targets are added at the end or have
    their upgrades replaced. *)
Record snoop_rel (m m' : MSHR) : Prop := {
  sr_service : inService m' = inService m;
  sr_ready : m_readyTime m' = m_readyTime m;
  sr_key : m_isUncacheable m' = m_isUncacheable m /\ m_blkAddr m' = m_blkAddr m /\ m_isSecure m' = m_isSecure m;
  sr_targets : (length (tl_targets (targets m)) <= length (tl_targets (targets m')))%nat;
  sr_same : inService m = false ->
    length (tl_targets (targets m')) = length (tl_targets (targets m));
  sr_deferred : length (tl_targets (deferredTargets m')) = length (tl_targets (deferredTargets m));
  sr_new : deferredTargets m = TargetList_new -> deferredTargets m' = TargetList_new
}.

(** The register that a snooped request takes effect on, before the request is
    recorded. *)
Definition snooped (m : MSHR) (p : MPacket) : MSHR :=
  if cmd_needsExclusive (mp_cmd p) then m_with_deferred m (replaceUpgrades (deferredTargets m)) else m.

Lemma snooped_rel m p : snoop_rel m (snooped m p) /\ outstanding (snooped m p) = outstanding m /\
  downstreamPending (snooped m p) = downstreamPending m /\ targets (snooped m p) = targets m /\
  postInvalidate (snooped m p) = postInvalidate m /\ postDowngrade (snooped m p) = postDowngrade m /\
  pendingDirty (snooped m p) = pendingDirty m.
Proof.
  unfold snooped. destruct (replaceUpgrades_senders (deferredTargets m)) as (E1 & E2 & _).
  destruct (cmd_needsExclusive (mp_cmd p)); [|done].
  split_and!; try done.
  - split; try done. cbn. intros ->. apply replaceUpgrades_new.
  - unfold outstanding. cbn. by rewrite E1.
Qed.

(** Recording a snooped request in the targets. *)
Lemma record_snoop_ok h i m curTick cp order mark :
  pinv None h [] -> h !! i = Some m -> mark = downstreamPending m && tl_needsExclusive (targets m) ->
  (mark = true -> sender_new h i cp) ->
  exists h1 t h2, tl_add h curTick (targets m) cp curTick order FromSnoop mark = Ret (h1, t) /\
    m_update h1 i (fun m => m_with_targets m t) = Ret h2 /\ pinv (if mark then mp_sender cp else None) h2 [] /\
    pend_eq (<[i:=m_with_targets m t]> h) h2 /\ h2 !! i = Some (m_with_targets m t) /\
    length (tl_targets t) = S (length (tl_targets (targets m))).
Proof.
  intros Hp Hm Hk Hn.
  destruct (add_ok h i m m_with_targets (targets m) curTick cp curTick order FromSnoop mark) as
    (h1 & t & h2 & E & E2 & Hp2 & Hpe & Hi & Et); try done.
  - intros t' Et v. rewrite (outstanding_targets m t' _ v Et), senders_new.
    destruct mark; [|by destruct (inService m && negb (downstreamPending m))]. symmetry in Hk.
    apply andb_true_iff in Hk as [-> _].
    by rewrite andb_false_r.
  - exists h1, t, h2. split_and!; try done. rewrite Et, length_app. cbn. lia.
Qed.

(** Setting the flags that a snoop leaves for the response. *)
Lemma set_post_ok X h i m (f : MSHR -> bool * bool) :
  pinv X h [] -> h !! i = Some m ->
  exists h', m_update h i (fun m => m_with_post m (f m).1 (f m).2) = Ret h' /\ pinv X h' [] /\
    h' = <[i:=m_with_post m (f m).1 (f m).2]> h.
Proof.
  intros Hp Hm. unfold m_update. rewrite (vread_some _ _ _ Hm). bsimpl.
  rewrite vwrite_lt by (by eapply lookup_lt_Some). eexists. split; [done|]. split; [|done].
  by apply (pinv_same _ _ _ _ m).
Qed.

Lemma snoop_rel_post m m' a b : snoop_rel m m' -> snoop_rel m (m_with_post m' a b).
Proof. by intros []. Qed.

Lemma snoop_rel_trans m1 m2 m3 : snoop_rel m1 m2 -> snoop_rel m2 m3 -> snoop_rel m1 m3.
Proof.
  intros [A1 A2 (A3 & A4 & A5) A6 A7 A8 A9] [B1 B2 (B3 & B4 & B5) B6 B7 B8 B9]. split; try congruence.
  - split_and!; congruence.
  - lia.
  - intros Hs. rewrite B7; [auto|congruence].
  - auto.
Qed.

Lemma snoop_rel_add m m' t :
  snoop_rel m m' -> inService m = true -> length (tl_targets t) = S (length (tl_targets (targets m'))) ->
  snoop_rel m (m_with_targets m' t).
Proof. intros [] Hs Hl. split; try done; cbn; [lia|congruence]. Qed.

Lemma snoop_effect_ok h i curTick junk m p order :
  pinv None h [] -> h !! i = Some m -> inService m = true ->
  (pendingDirty m = true -> cmd_isRequest (mp_cmd p) = true /\ memInhibitAsserted (mp_pkt p) = false) ->
  (downstreamPending m && tl_needsExclusive (targets m) = true -> sender_new h i p) ->
  exists p' h' X m', snoop_effect h i curTick junk m p order = Ret (p', h') /\ pinv X h' [] /\
    (X = None \/ X = mp_sender p) /\ pend_eq (<[i:=m']> h) h' /\ h' !! i = Some m' /\ snoop_rel m m' /\
    mp_sender p' = mp_sender p /\ pkt_req (mp_pkt p') = pkt_req (mp_pkt p).
Proof.
  intros Hp Hm Hs Hinh Hn. unfold snoop_effect. pose proof (lookup_lt_Some _ _ _ Hm) as Hlt.
  destruct (pendingDirty m || cmd_isInvalidate (mp_cmd p)).
  2:{ exists p, h, None, m. split_and!; try done; [by left|by rewrite list_insert_id]. }
  set (mark := downstreamPending m && tl_needsExclusive (targets m)) in *.
  assert (Hcp : exists cp p', (if pendingDirty m then
         x ← assertMemInhibit (mp_pkt p);
         Ret (mp_with p (Packet_copy (mp_pkt p) junk), mp_with p (setSupplyExclusive x))
       else Ret (mkMPacket (Packet_new (pkt_req (mp_pkt p)) (mp_cmd p)) None, p)) = Ret (cp, p') /\
       (mp_sender cp = None \/ mp_sender cp = mp_sender p) /\ mp_sender p' = mp_sender p /\
       pkt_req (mp_pkt p') = pkt_req (mp_pkt p)).
  { destruct (pendingDirty m); [|do 2 eexists; split_and!; try done; by left].
    destruct (Hinh eq_refl) as [Hr Hi]. unfold assertMemInhibit.
    unfold mp_cmd in Hr. rewrite Hr, Hi. cbn [negb cassert]. bsimpl. do 2 eexists. split_and!; try done. by right. }
  destruct Hcp as (cp & p' & -> & Hcs & Hps & Hpr). bsimpl.
  destruct (record_snoop_ok h i m curTick cp order mark) as (h1 & t & h2 & -> & E2 & Hp2 & Hpe & Hi & Hl); try done.
  { intros Hk. specialize (Hn Hk). unfold sender_new in *. by destruct Hcs as [-> | ->]. }
  bsimpl. rewrite E2. bsimpl.
  assert (Hr2 : snoop_rel m (m_with_targets m t)) by (by apply snoop_rel_add).
  assert (HX : forall X, X = (if mark then mp_sender cp else None) -> X = None \/ X = mp_sender p).
  { intros X ->. destruct mark; [|by left]. destruct Hcs as [-> | ->]; auto. }
  destruct (cmd_needsExclusive (mp_cmd p)).
  - destruct (set_post_ok _ h2 i _ (fun m => (true, postDowngrade m)) Hp2 Hi) as (h' & E3 & Hp3 & Eh).
    cbn [fst snd] in E3. rewrite E3. bsimpl. cbn [fst snd] in Eh.
    exists p', h', (if mark then mp_sender cp else None), (m_with_post (m_with_targets m t) true (postDowngrade m)).
    split_and!; try done; [by apply HX|..].
    + rewrite Eh. etransitivity; [|apply Forall2_insert; [exact Hpe|reflexivity]].
      by rewrite list_insert_insert_eq.
    + rewrite Eh. apply list_lookup_insert_eq. by eapply lookup_lt_Some.
    + by apply snoop_rel_post.
  - bsimpl. do 4 eexists. split_and!; try done. by apply HX.
Qed.

Definition takes_effect (m : MSHR) (p : MPacket) : bool :=
  negb (negb (inService m) || (isExpressSnoop (mp_pkt p) && downstreamPending m)).

(** A register whose request comes after the snooped one: all upgrades are
    replaced. *)
Definition all_replaced (m : MSHR) : MSHR :=
  m_with_deferred (m_with_targets m (replaceUpgrades (targets m))) (replaceUpgrades (deferredTargets m)).

Lemma all_replaced_rel m : snoop_rel m (all_replaced m) /\ outstanding (all_replaced m) = outstanding m.
Proof.
  destruct (replaceUpgrades_senders (targets m)) as (A1 & A2 & A3).
  destruct (replaceUpgrades_senders (deferredTargets m)) as (B1 & B2 & _). split.
  - split; try done; cbn; [lia|]. intros ->. apply replaceUpgrades_new.
  - unfold outstanding, all_replaced. cbn. by rewrite A1, B1.
Qed.

Lemma MSHR_handleSnoop_ok h i m curTick junk p order :
  pinv None h [] -> h !! i = Some m ->
  (pendingDirty m = true -> cmd_isRequest (mp_cmd p) = true /\ memInhibitAsserted (mp_pkt p) = false) ->
  (downstreamPending m && tl_needsExclusive (targets m) = true -> sender_new h i p) ->
  exists p' h' X m', MSHR_handleSnoop h i curTick junk p order = Ret (takes_effect m p, p', h') /\
    pinv X h' [] /\ (X = None \/ X = mp_sender p) /\ pend_eq (<[i:=m']> h) h' /\ snoop_rel m m'.
Proof.
  intros Hp Hm Hinh Hn. pose proof (lookup_lt_Some _ _ _ Hm) as Hlt.
  assert (Hno : pend_eq (<[i:=m]> h) h) by (by rewrite list_insert_id).
  unfold MSHR_handleSnoop, takes_effect. rewrite (vread_some _ _ _ Hm). bsimpl. case_match eqn:Hc; cbn [negb].
  { destruct (cmd_needsExclusive (mp_cmd p)); bsimpl; [|exists p, h, None, m; split_and!; try done; by left].
    fold (all_replaced m). destruct (all_replaced_rel m) as [Hr Ho]. rewrite vwrite_lt by done. bsimpl.
    exists p, (<[i:=all_replaced m]> h), None, (all_replaced m). split_and!; try done; [|by left].
    by apply (pinv_same _ _ _ _ m). }
  apply orb_false_iff in Hc as [Hs%negb_false_iff _].
  fold (snooped m p). destruct (snooped_rel m p) as (Hr & Ho & Ed & Et & Epi & Epd & Edi).
  rewrite vwrite_lt by done. bsimpl. set (h1 := <[i:=snooped m p]> h).
  assert (Hp1 : pinv None h1 []) by (apply (pinv_same _ _ _ _ m); try done; intros _; by rewrite (sr_service _ _ Hr)).
  assert (Hm1 : h1 !! i = Some (snooped m p)) by (by apply list_lookup_insert_eq).
  destruct (postInvalidate (snooped m p)).
  { exists p, h1, None, (snooped m p). split_and!; try done. by left. }
  destruct (snoop_effect_ok h1 i curTick junk (snooped m p) p order) as
    (p' & h2 & X & m2 & -> & Hp2 & HX & Hpe & Hi & Hr2 & Hps & Hpr); try done.
  { by rewrite (sr_service _ _ Hr). }
  { by rewrite Edi. }
  { rewrite Ed, Et. intros Hk. specialize (Hn Hk). unfold sender_new in *. destruct (mp_sender p) as [u|]; [|done].
    destruct Hn as (Hne & mu & Hu & Hrest). split; [done|]. exists mu. split; [|done].
    unfold h1. by rewrite list_lookup_insert_ne. }
  bsimpl. unfold h1 in Hpe. rewrite list_insert_insert_eq in Hpe.
  assert (Hr3 : snoop_rel m m2) by (by eapply snoop_rel_trans).
  destruct (negb _ && _).
  - destruct (set_post_ok _ h2 i _ (fun m => (postInvalidate m, true)) Hp2 Hi) as (h' & E3 & Hp3 & Eh).
    cbn [fst snd] in E3, Eh. rewrite E3. bsimpl.
    exists (mp_with p' (assertShared (mp_pkt p'))), h', X, (m_with_post m2 (postInvalidate m2) true).
    split_and!; try done; [|by apply snoop_rel_post].
    rewrite Eh. etransitivity; [|apply Forall2_insert; [exact Hpe|reflexivity]].
    by rewrite list_insert_insert_eq.
  - by exists p', h2, X, m2.
Qed.

(** ** Order of service *)

(** The targets of a register in the order in which they will be served. *)
Definition arrivals (m : MSHR) : list Target := tl_targets (targets m) ++ tl_targets (deferredTargets m).

(** Targets are deferred only behind a request in service. *)
Definition mshr_ok (m : MSHR) : Prop :=
  (tl_targets (deferredTargets m) = [] -> deferredTargets m = TargetList_new) /\
  (inService m = false -> tl_targets (deferredTargets m) = []).

Lemma promoteDeferred_ok m curTick :
  tl_targets (targets m) = [] ->
  exists b m', promoteDeferredTargets m curTick = Ret (b, m') /\ b = negb (is_nil (tl_targets (deferredTargets m))) /\
    (if b then targets m' = deferredTargets m /\ deferredTargets m' = TargetList_new /\
       inService m' = inService m /\ downstreamPending m' = downstreamPending m /\
       exists t l, tl_targets (deferredTargets m) = t :: l /\ m_order m' = tg_order t /\
         m_readyTime m' = Z.max curTick (tg_readyTime t)
     else m' = m).
Proof.
  intros Et. unfold promoteDeferredTargets. rewrite Et. cbn [is_nil cassert]. bsimpl.
  destruct (tl_targets (deferredTargets m)) as [|t l] eqn:Ed; [by exists false, m|].
  do 2 eexists. split; [done|]. split; [done|]. cbn.
  unfold resetFlags. rewrite Et. split_and!; try done. by exists t, l.
Qed.

(** Targets of a register are served in the order in which they arrive: a
    new target is appended behind all others, whether it joins the request in
    service or is deferred, and a fill or the promotion of the deferred targets
    keeps the order.  A target that needs an exclusive copy joins the request in
    service only if that request brings one, no snoop will take it away and no
    earlier target was deferred. *)
Theorem targets_in_order h i m curTick p ready order fill :
  pinv None h [] -> h !! i = Some m -> mshr_ok m -> m_isUncacheable m = false -> mp_cmd p <> HardPFReq ->
  sender_new h i p ->
  (exists h' m', allocateTarget h i curTick p ready order = Ret h' /\ h' !! i = Some m' /\ mshr_ok m' /\
     tg_order <$> arrivals m' = (tg_order <$> arrivals m) ++ [order] /\
     (inService m = true -> cmd_needsExclusive (mp_cmd p) = true ->
      length (tl_targets (targets m')) = S (length (tl_targets (targets m))) ->
      pendingDirty m = true /\ postInvalidate m = false /\ postDowngrade m = false /\
      tl_targets (deferredTargets m) = [])) /\
  (inService m = true -> downstreamPending m = false ->
   (fill_moves m fill = true -> tl_needsExclusive (targets m) = false) ->
   exists h' m', MSHR_handleFill h i fill = Ret h' /\ h' !! i = Some m' /\ mshr_ok m' /\
     arrivals m' = arrivals m) /\
  (tl_targets (targets m) = [] ->
   exists b m', promoteDeferredTargets m curTick = Ret (b, m') /\ mshr_ok (m_with_service m' false) /\
     arrivals m' = arrivals m).
Proof.
  intros Hp Hm [Hk1 Hk2] Hu Hc Hn. pose proof (lookup_lt_Some _ _ _ Hm) as Hlt. split_and!.
  - destruct (allocateTarget_ok h i m curTick p ready order Hp Hm Hc Hu) as (h' & t & E & _ & Hd); [done|].
    rewrite E. destruct (must_defer m p) eqn:Hdf; destruct Hd as [Hpe Et];
      (edestruct pend_eq_lookup as (m' & Hm' & Es); [exact Hpe|by apply list_lookup_insert_eq|]);
      apply pend_same_fields in Es as (Es1 & Es2 & Es3 & _); cbn in Es1, Es2, Es3;
      exists h', m'; split; try done; split; try done; unfold mshr_ok, arrivals; rewrite Es1, Es2, Es3.
    + unfold must_defer in Hdf. apply andb_true_iff in Hdf as [Hs _]. rewrite Et, Hs. split_and!.
      * by destruct (tl_targets (deferredTargets m)).
      * done.
      * by rewrite !fmap_app, app_assoc.
      * intros _ _ Hl. lia.
    + rewrite Et. assert (Hdn : tl_targets (deferredTargets m) = []).
      { destruct (inService m) eqn:Hs; [|auto]. unfold must_defer in Hdf. rewrite Hs in Hdf. cbn [andb] in Hdf.
        destruct (tl_targets (deferredTargets m)); [done|]. cbn in Hdf. done. }
      rewrite Hdn, !app_nil_r. split_and!; try done; [auto|by rewrite fmap_app|].
      intros Hs Hx _. unfold must_defer in Hdf. rewrite Hs, Hdn, Hx in Hdf. cbn in Hdf.
      destruct (postInvalidate m), (pendingDirty m), (postDowngrade m), (isForward m); done.
  - intros Hs Hd Hx. destruct (MSHR_handleFill_ok h i m fill Hp Hm Hs Hd Hx) as (h' & E & _ & Hpe).
    edestruct pend_eq_lookup as (m' & Hm' & Es); [exact Hpe|by apply list_lookup_insert_eq|].
    apply pend_same_fields in Es as (Es1 & Es2 & Es3 & _). exists h', m'. split; [done|]. split; [done|].
    unfold mshr_ok, arrivals. rewrite Es1, Es2, Es3. destruct (fill_moves m fill); [|done].
    cbn. rewrite app_nil_r. split; [|done]. split; [done|]. by rewrite Hs.
  - intros Et. destruct (promoteDeferred_ok m curTick Et) as (b & m' & -> & Eb & Hb). exists b, m'. split; [done|].
    unfold mshr_ok, arrivals. cbn [targets deferredTargets inService m_with_service]. destruct b.
    + destruct Hb as (-> & -> & _). rewrite Et. cbn. by rewrite app_nil_r.
    + subst m'. symmetry in Eb. apply negb_false_iff, is_nil_true in Eb. rewrite Eb in *. auto.
Qed.

(** A store of two registers, the first waiting for nothing, the second in
    service for a read. *)
Definition demo_packet (c : Command) (sender : option nat) : MPacket :=
  mkMPacket (Packet_new (mkRequest 0 64 8 1 5 0 0) c) sender.

Definition demo_mshr : MSHR :=
  m_with_service (m_with_targets MSHR_new
    (mkTargetList [new_target 0 (demo_packet ReadReq None) 0 1 FromCPU true] false false)) true.

Lemma demo_pinv : pinv None [demo_mshr] [].
Proof.
  split.
  - intros [|u]; [done|]. unfold pend. by destruct u.
  - intros [|i] m; [intros [= <-]; done|by destruct i].
Qed.

Lemma targets_in_order_witness :
  exists h' m', allocateTarget [demo_mshr] 0 5 (demo_packet WriteReq None) 5 2 = Ret h' /\
    h' !! 0%nat = Some m' /\ tg_order <$> arrivals m' = [1; 2].
Proof.
  destruct (targets_in_order [demo_mshr] 0 demo_mshr 5 (demo_packet WriteReq None) 5 2
    (mp_pkt (demo_packet ReadResp None))) as [(h' & m' & E & Hm & _ & Ho & _) _]; try done.
  - apply demo_pinv.
  - exists h', m'. by split_and!.
Defined.

(** ** A hierarchy of caches

    The requests that registers make of the registers below, as steps of the
    whole store. *)

Inductive hop :=
  | HMiss (i : nat) (curTick a n : Z) (p : MPacket) (ready order : Z)
      (* a miss allocates register [i] *)
  | HTarget (i : nat) (curTick : Z) (p : MPacket) (ready order : Z)
      (* a further request joins register [i] *)
  | HMissBelow (u i : nat) (curTick a n : Z) (p : MPacket) (ready order : Z) (dirty : bool)
      (* [u] sends its request, which allocates [i] below *)
  | HTargetBelow (u i : nat) (curTick : Z) (p : MPacket) (ready order : Z) (dirty : bool)
      (* [u] sends its request, which joins [i] below *)
  | HAccepted (u : nat) (dirty : bool)
      (* [u] sends its request to a level that will respond *)
  | HSnoop (i : nat) (curTick : Z) (junk : list Z) (p : MPacket) (order : Z)
      (* a request is snooped by [i] *)
  | HSnoopBelow (u i : nat) (curTick : Z) (junk : list Z) (p : MPacket) (order : Z) (dirty : bool)
      (* [u] sends its request, which is snooped by [i] *)
  | HFill (i : nat) (p : Packet)
  | HPop (i : nat)
  | HDone (i : nat) (curTick : Z).
      (* all targets are served: the deferred ones are requested again, or the
         register is freed *)

Definition hrun (o : hop) (h : mshrs) : res mshrs :=
  match o with
  | HMiss i curTick a n p ready order => MSHR_allocate h i curTick a n p ready order
  | HTarget i curTick p ready order => allocateTarget h i curTick p ready order
  | HMissBelow u i curTick a n p ready order dirty =>
      h ← MSHR_allocate h i curTick a n p ready order; snd <$> MSHR_markInService h u dirty
  | HTargetBelow u i curTick p ready order dirty =>
      h ← allocateTarget h i curTick p ready order; snd <$> MSHR_markInService h u dirty
  | HAccepted u dirty => snd <$> MSHR_markInService h u dirty
  | HSnoop i curTick junk p order => snd <$> MSHR_handleSnoop h i curTick junk p order
  | HSnoopBelow u i curTick junk p order dirty =>
      '(_, _, h) ← MSHR_handleSnoop h i curTick junk p order; snd <$> MSHR_markInService h u dirty
  | HFill i p => MSHR_handleFill h i p
  | HPop i => m_update h i popTarget
  | HDone i curTick =>
      m ← vread h i;
      '(promoted, m) ← promoteDeferredTargets m curTick;
      m ← (if (promoted : bool) then Ret (m_with_service m false) else MSHR_deallocate m);
      vwrite h i m
  end.

(** A register that can send: not in service, with a target. *)
Definition can_send (h : mshrs) (u : nat) : Prop :=
  exists m t l, h !! u = Some m /\ inService m = false /\ tl_targets (targets m) = t :: l /\
    (isForwardNoResponse m = Ret true -> unmarked t).

(** The sender of a request that expects a response. *)
Definition sends_below (h : mshrs) (u i : nat) (p : MPacket) : Prop :=
  u <> i /\ mp_sender p = Some u /\
  exists m t l, h !! u = Some m /\ inService m = false /\ tl_targets (targets m) = t :: l /\
    isForwardNoResponse m = Ret false.

Definition can_target (h : mshrs) (i : nat) (p : MPacket) : Prop :=
  exists m, h !! i = Some m /\ m_isUncacheable m = false /\ mp_cmd p <> HardPFReq.

Definition can_snoop (h : mshrs) (i : nat) (p : MPacket) : Prop :=
  exists m, h !! i = Some m /\
    (pendingDirty m = true -> cmd_isRequest (mp_cmd p) = true /\ memInhibitAsserted (mp_pkt p) = false).

(** A register whose response has arrived. *)
Definition responded (h : mshrs) (i : nat) (m : MSHR) : Prop :=
  h !! i = Some m /\ inService m = true /\ downstreamPending m = false.

Definition henabled (o : hop) (h : mshrs) : Prop :=
  match o with
  | HMiss i _ _ _ p _ _ => mp_sender p = None /\ exists m, h !! i = Some m /\ mshr_free m
  | HTarget i _ p _ _ => mp_sender p = None /\ can_target h i p
  | HMissBelow u i _ _ _ p _ _ _ => sends_below h u i p /\ exists m, h !! i = Some m /\ mshr_free m
  | HTargetBelow u i _ p _ _ _ => sends_below h u i p /\ can_target h i p
  | HAccepted u _ => can_send h u
  | HSnoop i _ _ p _ => mp_sender p = None /\ can_snoop h i p
  | HSnoopBelow u i _ _ p _ _ => sends_below h u i p /\ can_snoop h i p
  | HFill i p => exists m, responded h i m /\ (fill_moves m p = true -> tl_needsExclusive (targets m) = false)
  | HPop i => exists m, responded h i m
  | HDone i _ => exists m, responded h i m /\ tl_targets (targets m) = [] /\
      (tl_targets (deferredTargets m) = [] -> deferredTargets m = TargetList_new)
  end.

Inductive hreach (n : nat) : mshrs -> Prop :=
  | hreach_init : hreach n (replicate n MSHR_new)
  | hreach_step h o h' : hreach n h -> henabled o h -> hrun o h = Ret h' -> hreach n h'.

Lemma sends_below_new h u i p : pinv None h [] -> sends_below h u i p -> sender_new h i p.
Proof.
  intros Hp (Hne & Es & m & t & l & Hm & Hs & _). unfold sender_new. rewrite Es. split; [done|].
  exists m. split_and!; try done. by eapply pinv_not_pending.
Qed.

(** After the request was taken below, its register is put in service. *)
Lemma send_after h u i p m' h1 X dirty :
  sends_below h u i p -> pend_eq (<[i:=m']> h) h1 -> pinv X h1 [] -> X = None \/ X = Some u ->
  exists h2, (snd <$> MSHR_markInService h1 u dirty) = Ret h2 /\ pinv None h2 [].
Proof.
  intros (Hne & Es & m & t & l & Hm & Hs & Et & Hf) Hpe Hp HX.
  destruct (pend_eq_lookup _ _ u m Hpe) as (mu & Hmu & Esm); [by rewrite list_lookup_insert_ne|].
  apply pend_same_fields in Esm as (Es1 & Es2 & Es3 & _).
  destruct (MSHR_markInService_ok X h1 u mu t l dirty) as (b & h2 & E & _ & Hp2 & _); try done; try congruence.
  - unfold isForwardNoResponse, getNumTargets in *. rewrite Es2, Es3, Hf. done.
  - rewrite E. bsimpl. by exists h2.
Qed.

Lemma settled_same h i m m' :
  pinv None h [] -> responded h i m -> downstreamPending m' = false ->
  outstanding m' = outstanding m -> pinv None (<[i:=m']> h) [].
Proof.
  intros Hp (Hm & Hs & Hd) Hd' Ho. apply (pinv_insert None None h [] [] i m); try done.
  - intros v. unfold flag_at. by rewrite Ho, Hd, Hd'.
  - by rewrite Hd'.
Qed.

Lemma MSHR_deallocate_ok m :
  tl_targets (targets m) = [] -> deferredTargets m = TargetList_new ->
  MSHR_deallocate m = Ret (m_with_service (m_with_targets m TargetList_new) false).
Proof.
  intros Et Ed. unfold MSHR_deallocate. rewrite Et. cbn [is_nil cassert]. bsimpl.
  change (deferredTargets (m_with_targets m (resetFlags (targets m)))) with (deferredTargets m).
  rewrite Ed. cbn. unfold resetFlags. by rewrite Et.
Qed.

Lemma hstep_ok o h :
  pinv None h [] -> henabled o h -> exists h', hrun o h = Ret h' /\ pinv None h' [].
Proof.
  intros Hp. destruct o; cbn [henabled hrun].
  - intros (Es & m & Hm & Hf). destruct (MSHR_allocate_ok h i m curTick a n p ready order) as (h' & t & E & Hp' & _);
      try done; [unfold sender_new; by rewrite Es|]. rewrite Es in Hp'. by exists h'.
  - intros (Es & m & Hm & Hu & Hc). destruct (allocateTarget_ok h i m curTick p ready order) as (h' & t & E & Hp' & _);
      try done; [unfold sender_new; by rewrite Es|]. rewrite Es in Hp'. exists h'. split; [done|]. by destruct (_ || _).
  - intros (Hb & m & Hm & Hf). pose proof (sends_below_new _ _ _ _ Hp Hb) as Hn.
    destruct (MSHR_allocate_ok h i m curTick a n p ready order) as (h' & t & -> & Hp' & Hpe & _); try done. bsimpl.
    eapply send_after; try done. destruct Hb as (_ & -> & _). by right.
  - intros (Hb & m & Hm & Hu & Hc). pose proof (sends_below_new _ _ _ _ Hp Hb) as Hn.
    destruct (allocateTarget_ok h i m curTick p ready order) as (h' & t & -> & Hp' & Hd); try done. bsimpl.
    assert (Hpe : exists m', pend_eq (<[i:=m']> h) h') by (destruct (must_defer m p); destruct Hd; by eexists).
    destruct Hpe as [m' Hpe]. eapply send_after; try done. destruct Hb as (_ & -> & _).
    destruct (_ || _); auto.
  - intros (m & t & l & Hm & Hs & Et & Hf).
    destruct (MSHR_markInService_ok None h u m t l dirty) as (b & h2 & E & _ & Hp2 & _); try done; [by left|auto|].
    rewrite E. bsimpl. by exists h2.
  - intros (Es & m & Hm & Hi). destruct (MSHR_handleSnoop_ok h i m curTick junk p order) as
      (p' & h' & X & m' & -> & Hp' & HX & _); try done; [unfold sender_new; by rewrite Es|]. bsimpl.
    exists h'. split; [done|]. rewrite Es in HX. by destruct HX as [-> | ->].
  - intros (Hb & m & Hm & Hi). pose proof (sends_below_new _ _ _ _ Hp Hb) as Hn.
    destruct (MSHR_handleSnoop_ok h i m curTick junk p order) as (p' & h' & X & m' & -> & Hp' & HX & Hpe & _);
      try done. bsimpl. eapply send_after; try done. by destruct Hb as (_ & <- & _).
  - intros (m & (Hm & Hs & Hd) & Hx). destruct (MSHR_handleFill_ok h i m p Hp Hm Hs Hd Hx) as (h' & E & Hp' & _).
    by exists h'.
  - intros (m & Hr). destruct Hr as (Hm & Hs & Hd). unfold m_update. rewrite (vread_some _ _ _ Hm). bsimpl.
    rewrite vwrite_lt by (by eapply lookup_lt_Some). eexists. split; [done|].
    apply (settled_same h i m); try done. unfold outstanding. cbn. by rewrite Hs, Hd.
  - intros (m & Hr & Et & Hx). pose proof Hr as (Hm & Hs & Hd). rewrite (vread_some _ _ _ Hm). bsimpl.
    destruct (promoteDeferred_ok m curTick Et) as (b & m' & -> & Eb & Hb). bsimpl. destruct b.
    + destruct Hb as (E1 & E2 & E3 & E4 & _). bsimpl. rewrite vwrite_lt by (by eapply lookup_lt_Some).
      eexists. split; [done|]. apply (settled_same h i m); try done; [cbn; congruence|].
      unfold outstanding. cbn. rewrite E1, E2, Hs, Hd, Et. cbn. by rewrite app_nil_r.
    + subst m'. symmetry in Eb. apply negb_false_iff, is_nil_true in Eb. specialize (Hx Eb).
      rewrite (MSHR_deallocate_ok m Et Hx). bsimpl.
      rewrite vwrite_lt by (by eapply lookup_lt_Some).
      eexists. split; [done|]. apply (settled_same h i m); try done.
      unfold outstanding. cbn. rewrite Hs, Hd, Et, Hx. done.
Qed.

Lemma pinv_init n : pinv None (replicate n MSHR_new) [].
Proof.
  split.
  - intros u. unfold debts, pend. assert (E : flat_map outstanding (replicate n MSHR_new) = []).
    { induction n as [|n IH]; [done|]. by cbn. }
    rewrite E. destruct (replicate n MSHR_new !! u) as [m|] eqn:Hm; [|done].
    by apply lookup_replicate in Hm as [-> _].
  - intros i m [-> _]%lookup_replicate. done.
Qed.

Lemma hreach_pinv n h : hreach n h -> pinv None h [].
Proof.
  induction 1 as [|h o h' _ IH He Er]; [apply pinv_init|].
  destruct (hstep_ok o h IH He) as (h2 & E & Hp). congruence.
Qed.

(** C30. The pending protocol of a cache hierarchy: in every state that misses,
    requests to lower levels, snoops, fills and responses can reach, a register
    is marked [downstreamPending] exactly when one request of it is buffered
    below and not yet accepted by a level that responds; only registers in
    service are marked, and no enabled step fails: in particular neither the
    assertions on the flag nor the recursion that clears it along the chain of
    senders can go wrong. *)
Theorem pending_protocol n h :
  hreach n h ->
  (forall u, pend h u = cnt u (debts h)) /\
  (forall i m, h !! i = Some m -> downstreamPending m = true -> inService m = true) /\
  (forall o, henabled o h -> exists h', hrun o h = Ret h').
Proof.
  intros Hp%hreach_pinv. split_and!.
  - intros u. rewrite <- (pi_count _ _ _ Hp u). cbn. lia.
  - intros i m Hm Hd. by destruct (pi_service _ _ _ Hp i m Hm Hd).
  - intros o He. destruct (hstep_ok o h Hp He) as (h' & E & _). by exists h'.
Qed.

(** A read miss of register 0 is buffered in register 1 below and accepted. *)
Definition demo_hops : list hop :=
  [HMiss 0 0 64 64 (demo_packet ReadReq None) 0 1;
   HMissBelow 0 1 1 64 64 (demo_packet ReadReq (Some 0%nat)) 1 2 false].

Lemma pending_protocol_witness :
  exists h, foldl (fun r o => h ← r; hrun o h) (Ret (replicate 2 MSHR_new)) demo_hops = Ret h /\
    pend h 0 = 1%nat /\ pend h 0 = cnt 0%nat (debts h).
Proof.
  eexists. split; [vm_compute; reflexivity|]. split; [vm_compute; reflexivity|].
  apply (pending_protocol 2). eapply hreach_step with (o := HMissBelow 0 1 1 64 64
    (demo_packet ReadReq (Some 0%nat)) 1 2 false).
  - eapply hreach_step with (o := HMiss 0 0 64 64 (demo_packet ReadReq None) 0 1).
    + apply (hreach_init 2).
    + split; [done|]. by eexists.
    + vm_compute. reflexivity.
  - split; [|by eexists]. split; [done|]. split; [done|]. do 3 eexists. by split_and!.
  - vm_compute. reflexivity.
Defined.
