(* ===== verification/MshrQueue.v ===== *)
(** * The miss-status queue: [mem/cache/mshr_queue.hh], [mem/cache/mshr_queue.cc]

    A queue owns the registers at consecutive locations of the store of
    [Mshr.v].  Its three lists hold locations; the iterators a register keeps
    into them ([allocIter], [readyIter]) are the position of its location, which
    is in each list at most once (part of the invariant). *)

From stdpp Require Import sorting.
From S2P Require Import Prelude Packet Mshr.
Local Open Scope Z_scope.

Inductive DrainState := Running | Draining | Drained.

Record MSHRQueue := mkMSHRQueue {
  q_numEntries : Z;
  numReserve : Z;
  demandReserve : Z;
  q_base : nat;               (* location of registers[0] *)
  allocatedList : list nat;
  readyList : list nat;
  freeList : list nat;
  q_allocated : Z;
  inServiceEntries : Z;
  drainManager : bool;        (* a drain manager is waiting *)
  drainState : DrainState;
  drainsDone : Z              (* calls of signalDrainDone *)
}.

(** The constructor also creates the registers, at the end of the store. *)
Definition MSHRQueue_new (h : mshrs) (num_entries reserve demand_reserve : Z) : MSHRQueue * mshrs :=
  let n := num_entries + reserve - 1 in
  (mkMSHRQueue n reserve demand_reserve (length h) [] [] (seq (length h) (Z.to_nat n)) 0 0 false
     Running 0,
   h ++ replicate (Z.to_nat n) MSHR_new).

Definition q_with_lists (q : MSHRQueue) (a r f : list nat) : MSHRQueue :=
  mkMSHRQueue (q_numEntries q) (numReserve q) (demandReserve q) (q_base q) a r f (q_allocated q)
    (inServiceEntries q) (drainManager q) (drainState q) (drainsDone q).
Definition q_with_counts (q : MSHRQueue) (a s : Z) : MSHRQueue :=
  mkMSHRQueue (q_numEntries q) (numReserve q) (demandReserve q) (q_base q) (allocatedList q)
    (readyList q) (freeList q) a s (drainManager q) (drainState q) (drainsDone q).
Definition q_with_drain (q : MSHRQueue) (m : bool) (s : DrainState) (d : Z) : MSHRQueue :=
  mkMSHRQueue (q_numEntries q) (numReserve q) (demandReserve q) (q_base q) (allocatedList q)
    (readyList q) (freeList q) (q_allocated q) (inServiceEntries q) m s d.

(** ** Lookup *)

Definition m_matches (m : MSHR) (blk_addr : Z) (is_secure : bool) : bool :=
  negb (m_isUncacheable m) && (m_blkAddr m =? blk_addr) && eqb (m_isSecure m) is_secure.

Fixpoint find_match (h : mshrs) (l : list nat) (test : MSHR -> bool) : res (option nat) :=
  match l with
  | [] => Ret None
  | i :: l => m ← vread h i; if test m then Ret (Some i) else find_match h l test
  end.

Definition findMatch (h : mshrs) (q : MSHRQueue) (blk_addr : Z) (is_secure : bool) : res (option nat) :=
  find_match h (allocatedList q) (fun m => m_matches m blk_addr is_secure).

Fixpoint find_matches (h : mshrs) (l : list nat) (test : MSHR -> bool) : res (list nat) :=
  match l with
  | [] => Ret []
  | i :: l => m ← vread h i; r ← find_matches h l test; Ret (if test m then i :: r else r)
  end.

(** [findMatches] with an empty vector: whether there is a match, and all of
    them in order of allocation. *)
Definition findMatches (h : mshrs) (q : MSHRQueue) (blk_addr : Z) (is_secure : bool) :
    res (bool * list nat) :=
  l ← find_matches h (allocatedList q) (fun m => m_matches m blk_addr is_secure);
  Ret (negb (is_nil l), l).

Definition findPending (h : mshrs) (q : MSHRQueue) (blk_addr : Z) (is_secure : bool) : res (option nat) :=
  find_match h (readyList q)
    (fun m => (m_blkAddr m =? blk_addr) && eqb (m_isSecure m) is_secure).

Fixpoint queue_functional (h : mshrs) (l : list nat) (p : Packet) (blk_addr : Z) :
    res (bool * Packet * mshrs) :=
  match l with
  | [] => Ret (false, p, h)
  | i :: l =>
      m ← vread h i;
      if m_blkAddr m =? blk_addr then
        '(done, p, h) ← MSHR_checkFunctional h i p;
        if (done : bool) then Ret (true, p, h) else queue_functional h l p blk_addr
      else queue_functional h l p blk_addr
  end.

(** [checkFunctional]; the labels are for printing only. *)
Definition MSHRQueue_checkFunctional (h : mshrs) (q : MSHRQueue) (p : Packet) (blk_addr : Z) :
    res (bool * Packet * mshrs) :=
  queue_functional h (allocatedList q) p blk_addr.

Definition havePending (q : MSHRQueue) : bool := negb (is_nil (readyList q)).
Definition isFull (q : MSHRQueue) : bool := q_numEntries q - numReserve q <? q_allocated q.
Definition canPrefetch (q : MSHRQueue) : bool :=
  q_allocated q <? q_numEntries q - (numReserve q + demandReserve q).

Definition getNextMSHR (h : mshrs) (q : MSHRQueue) (curTick : Z) : res (option nat) :=
  match readyList q with
  | [] => Ret None
  | i :: _ => m ← vread h i; Ret (if curTick <? m_readyTime m then None else Some i)
  end.

Definition nextMSHRReadyTime (h : mshrs) (q : MSHRQueue) : res Z :=
  match readyList q with
  | [] => Ret MaxTick
  | i :: _ => m ← vread h i; Ret (m_readyTime m)
  end.

(** ** The ready list *)

(** The scan of [addToReadyList]; it runs off the end only if every register is
    ready no later. *)
Fixpoint insert_ready (h : mshrs) (l : list nat) (i : nat) (t : Z) : res (list nat) :=
  match l with
  | [] => Err AssertFailed
  | j :: l' =>
      m ← vread h j;
      if t <? m_readyTime m then Ret (i :: l) else r ← insert_ready h l' i t; Ret (j :: r)
  end.

Definition addToReadyList (h : mshrs) (l : list nat) (i : nat) : res (list nat) :=
  m ← vread h i;
  match last l with
  | None => Ret (l ++ [i])
  | Some b =>
      mb ← vread h b;
      if m_readyTime mb <=? m_readyTime m then Ret (l ++ [i]) else insert_ready h l i (m_readyTime m)
  end.

(** [list.erase(it)] for the iterator of location [i]. *)
Fixpoint erase (l : list nat) (i : nat) : res (list nat) :=
  match l with
  | [] => Err OutOfBounds
  | j :: l => if (j =? i)%nat then Ret l else r ← erase l i; Ret (j :: r)
  end.

(** ** Operations *)

Definition MSHRQueue_allocate (h : mshrs) (q : MSHRQueue) (curTick blk_addr blk_size : Z) (p : MPacket)
    (when_ready order : Z) : res (nat * mshrs * MSHRQueue) :=
  match freeList q with
  | [] => Err AssertFailed
  | i :: free =>
      m ← vread h i;
      _ ← cassert (getNumTargets m =? 0);
      h ← MSHR_allocate h i curTick blk_addr blk_size p when_ready order;
      r ← addToReadyList h (readyList q) i;
      Ret (i, h, q_with_counts (q_with_lists q (allocatedList q ++ [i]) r free)
                   (q_allocated q + 1) (inServiceEntries q))
  end.

Definition deallocateOne (h : mshrs) (q : MSHRQueue) (i : nat) : res (mshrs * MSHRQueue) :=
  a ← erase (allocatedList q) i;
  m ← vread h i;
  r ← (if inService m then Ret (readyList q) else erase (readyList q) i);
  m' ← MSHR_deallocate m;
  h ← vwrite h i m';
  let n := q_allocated q - 1 in
  let s := if inService m then inServiceEntries q - 1 else inServiceEntries q in
  let q := q_with_counts (q_with_lists q a r (i :: freeList q)) n s in
  if drainManager q && (n =? 0) then Ret (h, q_with_drain q false Drained (drainsDone q + 1))
  else Ret (h, q).

Definition moveToFront (h : mshrs) (q : MSHRQueue) (i : nat) : res MSHRQueue :=
  m ← vread h i;
  if negb (inService m) then
    r ← erase (readyList q) i;
    Ret (q_with_lists q (allocatedList q) (i :: r) (freeList q))
  else Ret q.

Definition MSHRQueue_markInService (h : mshrs) (q : MSHRQueue) (i : nat) (pending_dirty_resp : bool) :
    res (mshrs * MSHRQueue) :=
  '(forwarded, h) ← MSHR_markInService h i pending_dirty_resp;
  if (forwarded : bool) then deallocateOne h q i
  else
    r ← erase (readyList q) i;
    Ret (h, q_with_counts (q_with_lists q (allocatedList q) r (freeList q)) (q_allocated q)
              (inServiceEntries q + 1)).

Definition markPending (h : mshrs) (q : MSHRQueue) (i : nat) : res (mshrs * MSHRQueue) :=
  m ← vread h i;
  _ ← cassert (inService m);
  h ← vwrite h i (m_with_service m false);
  r ← addToReadyList h (readyList q) i;
  Ret (h, q_with_counts (q_with_lists q (allocatedList q) r (freeList q)) (q_allocated q)
            (inServiceEntries q - 1)).

Definition forceDeallocateTarget (h : mshrs) (q : MSHRQueue) (i : nat) (curTick : Z) :
    res (bool * mshrs * MSHRQueue) :=
  let was_full := isFull q in
  m ← vread h i;
  _ ← cassert (hasTargets m);
  let m := popTarget m in
  h ← vwrite h i m;
  '(h, q') ←
    (if negb (hasTargets m) then
       '(promoted, m) ← promoteDeferredTargets m curTick;
       h ← vwrite h i m;
       if (promoted : bool) then Ret (h, q) else deallocateOne h q i
     else Ret (h, q));
  Ret (was_full && negb (isFull q'), h, q').

(** The end of [recvTimingResp] when all targets were served: the deferred
    targets are requested again or the register is released. *)
Definition finish_response (h : mshrs) (q : MSHRQueue) (i : nat) (curTick : Z) : res (mshrs * MSHRQueue) :=
  m ← vread h i;
  '(promoted, m) ← promoteDeferredTargets m curTick;
  h ← vwrite h i m;
  if (promoted : bool) then markPending h q i else deallocateOne h q i.

(** The inner loop of [squash]: the targets are popped. *)
Fixpoint squash_targets (l : list Target) (thread : Z) : res unit :=
  match l with
  | [] => Ret tt
  | _ :: l => _ ← cassert (0 =? thread); squash_targets l thread
  end.

Fixpoint squash_list (h : mshrs) (q : MSHRQueue) (l : list nat) (thread : Z) : res (mshrs * MSHRQueue) :=
  match l with
  | [] => Ret (h, q)
  | i :: l =>
      m ← vread h i;
      if threadNum m =? thread then
        _ ← squash_targets (tl_targets (targets m)) thread;
        let m := m_with_targets m (tl_with (targets m) []) in
        h ← vwrite h i m;
        _ ← cassert (getNumTargets m =? 0);
        '(h, q) ← (if negb (inService m) then deallocateOne h q i else Ret (h, q));
        squash_list h q l thread
      else squash_list h q l thread
  end.

Definition MSHRQueue_squash (h : mshrs) (q : MSHRQueue) (thread : Z) : res (mshrs * MSHRQueue) :=
  squash_list h q (allocatedList q) thread.

Definition MSHRQueue_drain (q : MSHRQueue) : Z * MSHRQueue :=
  if q_allocated q =? 0 then (0, q_with_drain q (drainManager q) Drained (drainsDone q))
  else (1, q_with_drain q true Draining (drainsDone q)).

(** ** Lists of locations *)

Lemma erase_ok l i :
  i ∈ l -> exists l1 l2, l = l1 ++ i :: l2 /\ erase l i = Ret (l1 ++ l2).
Proof.
  induction l as [|j l IH]; intros Hi; [by apply not_elem_of_nil in Hi|]. cbn [erase].
  destruct (Nat.eqb_spec j i) as [->|Hne]; [by exists [], l|].
  apply elem_of_cons in Hi as [->|Hi]; [done|]. destruct (IH Hi) as (l1 & l2 & -> & ->). bsimpl.
  by exists (j :: l1), l2.
Qed.

Definition ready_at (h : mshrs) (i : nat) : Z :=
  match h !! i with Some m => m_readyTime m | None => 0 end.

Definition ready_before (h : mshrs) (i j : nat) : Prop := ready_at h i <= ready_at h j.

#[export] Instance ready_before_trans h : Transitive (ready_before h).
Proof. intros i j k. unfold ready_before. lia. Qed.

Definition sorted_by (h : mshrs) : list nat -> Prop := StronglySorted (ready_before h).

Lemma sorted_by_ext h h' l :
  (forall i, i ∈ l -> ready_at h' i = ready_at h i) -> sorted_by h l -> sorted_by h' l.
Proof.
  intros He Hs. induction Hs as [|i l Hs IH Hf]; [constructor|]. constructor.
  - apply IH. intros j Hj. apply He. by apply list_elem_of_further.
  - rewrite Forall_forall in *. intros j Hj. unfold ready_before.
    rewrite (He i) by (by apply list_elem_of_here). rewrite (He j) by (by apply list_elem_of_further). by apply Hf.
Qed.

Lemma sorted_by_erase h l1 i l2 : sorted_by h (l1 ++ i :: l2) -> sorted_by h (l1 ++ l2).
Proof.
  unfold sorted_by. rewrite !StronglySorted_app, StronglySorted_cons.
  intros (H1 & H2 & Hi & Hs). split_and!; try done. intros a b Ha Hb. apply H1; [done|].
  by apply list_elem_of_further.
Qed.

Lemma insert_ready_ok h l i t :
  (forall j, j ∈ l -> exists m, h !! j = Some m) -> (exists j, j ∈ l /\ t < ready_at h j) ->
  exists l1 l2, l = l1 ++ l2 /\ insert_ready h l i t = Ret (l1 ++ i :: l2) /\
    Forall (fun j => ready_at h j <= t) l1 /\ (exists j l3, l2 = j :: l3 /\ t < ready_at h j).
Proof.
  intros Hl. induction l as [|j l IH]; intros (k & Hk & Ht); [by apply not_elem_of_nil in Hk|].
  cbn [insert_ready]. destruct (Hl j ltac:(by apply list_elem_of_here)) as [m Hm].
  rewrite (vread_some _ _ _ Hm). bsimpl.
  assert (Er : ready_at h j = m_readyTime m) by (unfold ready_at; by rewrite Hm).
  destruct (Z.ltb_spec t (m_readyTime m)) as [Hlt|Hge].
  - exists [], (j :: l). split_and!; try done. exists j, l. split; [done|lia].
  - destruct IH as (l1 & l2 & -> & -> & Hf & Hx).
    + intros j' Hj'. apply Hl. by apply list_elem_of_further.
    + exists k. split; [|done]. apply elem_of_cons in Hk as [->|Hk]; [lia|done].
    + bsimpl. exists (j :: l1), l2. split_and!; try done. constructor; [lia|done].
Qed.

(** Insertion: after the registers that are ready no later, so the list stays
    sorted and registers ready at the same tick keep their order. *)
Lemma addToReadyList_ok h l i m :
  h !! i = Some m -> (forall j, j ∈ l -> exists m, h !! j = Some m) ->
  exists l1 l2, l = l1 ++ l2 /\ addToReadyList h l i = Ret (l1 ++ i :: l2) /\
    (sorted_by h l -> sorted_by h (l1 ++ i :: l2) /\ Forall (fun j => m_readyTime m < ready_at h j) l2).
Proof.
  intros Hm Hl. assert (Er : ready_at h i = m_readyTime m) by (unfold ready_at; by rewrite Hm).
  unfold addToReadyList. rewrite (vread_some _ _ _ Hm). bsimpl. destruct (last l) as [b|] eqn:Eb.
  2:{ apply last_None in Eb as ->. exists [], []. split_and!; try done. intros _. split; [|done]. by repeat constructor. }
  apply last_Some in Eb as [l' ->].
  destruct (Hl b ltac:(set_solver)) as [mb Hb]. rewrite (vread_some _ _ _ Hb). bsimpl.
  assert (Erb : ready_at h b = m_readyTime mb) by (unfold ready_at; by rewrite Hb).
  destruct (Z.leb_spec (m_readyTime mb) (m_readyTime m)) as [Hle|Hgt].
  - exists (l' ++ [b]), []. rewrite app_nil_r. split_and!; try done. intros Hs. split; [|done].
    apply StronglySorted_app. unfold sorted_by in Hs. split_and!; try done; [|by repeat constructor].
    intros x y Hx Hy. apply list_elem_of_singleton in Hy as ->.
    assert (Hxb : ready_before h x b).
    { apply StronglySorted_app in Hs as (Hs & _ & _). apply elem_of_app in Hx as [Hx|Hx].
      - apply Hs; [done|]. by apply list_elem_of_singleton.
      - apply list_elem_of_singleton in Hx as ->. unfold ready_before. lia. }
    unfold ready_before in *. lia.
  - destruct (insert_ready_ok h (l' ++ [b]) i (m_readyTime m) Hl) as (l1 & l2 & E & Ei & Hf & j & l3 & -> & Hj).
    { exists b. split; [set_solver|lia]. }
    exists l1, (j :: l3). rewrite E in *. split_and!; try done. intros Hs.
    unfold sorted_by in *. apply StronglySorted_app in Hs as (H1 & Hs1 & Hs2).
    pose proof Hs2 as Hs2'. rewrite StronglySorted_cons in Hs2'. destruct Hs2' as [Hj3 _].
    assert (Hlt : Forall (fun k => m_readyTime m < ready_at h k) (j :: l3)).
    { constructor; [done|]. rewrite Forall_forall in *. intros k Hk. specialize (Hj3 k Hk).
      unfold ready_before in Hj3. lia. }
    split; [|done]. apply StronglySorted_app. split_and!; [|done|].
    + intros x y Hx Hy. rewrite Forall_forall in Hf. specialize (Hf x Hx). unfold ready_before.
      apply elem_of_cons in Hy as [->|Hy]; [lia|]. rewrite Forall_forall in Hlt. specialize (Hlt y Hy). lia.
    + rewrite StronglySorted_cons. split; [|done]. eapply Forall_impl; [done|]. intros k Hk. unfold ready_before. cbn in Hk. lia.
Qed.

(** ** The invariant of a queue *)

Record queue_ok (h : mshrs) (q : MSHRQueue) : Prop := {
  qk_perm : allocatedList q ++ freeList q ≡ₚ seq (q_base q) (Z.to_nat (q_numEntries q));
  qk_bound : (q_base q + Z.to_nat (q_numEntries q) <= length h)%nat;
  qk_reserve : 1 <= numReserve q;
  qk_nodup : NoDup (readyList q);
  qk_ready : forall i, i ∈ readyList q <->
    i ∈ allocatedList q /\ exists m, h !! i = Some m /\ inService m = false;
  qk_free : forall i m, i ∈ freeList q -> h !! i = Some m -> mshr_free m;
  qk_alloc : forall i m, i ∈ allocatedList q -> h !! i = Some m -> mshr_ok m;
  qk_count : q_allocated q = Z.of_nat (length (allocatedList q));
  qk_service : inServiceEntries q = Z.of_nat (length (allocatedList q)) - Z.of_nat (length (readyList q));
  qk_sorted : sorted_by h (readyList q)
}.

Lemma queue_nodup h q : queue_ok h q -> NoDup (allocatedList q ++ freeList q).
Proof. intros Hq. rewrite (qk_perm _ _ Hq). apply NoDup_seq. Qed.

Lemma queue_disjoint h q i : queue_ok h q -> i ∈ allocatedList q -> i ∈ freeList q -> False.
Proof. intros Hq. pose proof (queue_nodup _ _ Hq) as (_ & Hd & _)%NoDup_app. intros Ha Hf. by apply (Hd i). Qed.

Lemma queue_lookup h q i :
  queue_ok h q -> i ∈ allocatedList q \/ i ∈ freeList q -> exists m, h !! i = Some m.
Proof.
  intros Hq Hi. apply lookup_lt_is_Some_2. pose proof (qk_bound _ _ Hq).
  assert (Hs : i ∈ seq (q_base q) (Z.to_nat (q_numEntries q))).
  { rewrite <- (qk_perm _ _ Hq). apply elem_of_app. tauto. }
  apply elem_of_seq in Hs. lia.
Qed.

Lemma ready_lookup h q i :
  queue_ok h q -> i ∈ readyList q -> i ∈ allocatedList q /\ exists m, h !! i = Some m /\ inService m = false.
Proof. intros Hq. apply (qk_ready _ _ Hq). Qed.

Lemma ready_valid h q i : queue_ok h q -> i ∈ readyList q -> exists m, h !! i = Some m.
Proof. intros Hq (_ & m & Hm & _)%(ready_lookup h q i Hq). by exists m. Qed.

(** *** Stores that agree on what a queue depends on *)

Lemma mshr_ok_same m m' : pend_same m m' -> mshr_ok m -> mshr_ok m'.
Proof. intros (E1 & E2 & E3 & _)%pend_same_fields. unfold mshr_ok. by rewrite E1, E3. Qed.

Lemma mshr_free_same m m' : pend_same m m' -> mshr_free m -> mshr_free m'.
Proof. intros (E1 & E2 & E3 & _)%pend_same_fields. unfold mshr_free. by rewrite E1, E2, E3. Qed.

Lemma pend_eq_lookup_r h h' i m' :
  pend_eq h h' -> h' !! i = Some m' -> exists m, h !! i = Some m /\ pend_same m m'.
Proof. intros Hp Hm. exact (Forall2_lookup_r _ _ _ _ _ Hp Hm). Qed.

Lemma ready_at_pend h h' i : pend_eq h h' -> ready_at h' i = ready_at h i.
Proof.
  intros Hp. unfold ready_at. destruct (h !! i) as [m|] eqn:Hm.
  - destruct (pend_eq_lookup _ _ _ _ Hp Hm) as (m' & -> & Es).
    by apply pend_same_fields in Es as (_ & _ & _ & -> & _).
  - destruct (h' !! i) as [m'|] eqn:Hm'; [|done].
    destruct (pend_eq_lookup_r _ _ _ _ Hp Hm') as (m & Hm2 & _). congruence.
Qed.

#[export] Instance queue_ok_pend : Proper (pend_eq ==> eq ==> impl) queue_ok.
Proof.
  intros h h' Hp q _ <- Hq. pose proof (pend_eq_length _ _ Hp) as Hl. split; try apply Hq.
  - rewrite <- Hl. apply Hq.
  - intros i. rewrite (qk_ready _ _ Hq i). split; intros (Ha & m & Hm & Hs); (split; [done|]).
    + destruct (pend_eq_lookup _ _ _ _ Hp Hm) as (m' & Hm' & Es). exists m'. split; [done|].
      apply pend_same_fields in Es as [-> _]. done.
    + destruct (pend_eq_lookup_r _ _ _ _ Hp Hm) as (m' & Hm' & Es). exists m'. split; [done|].
      apply pend_same_fields in Es as [E _]. congruence.
  - intros i m' Hi Hm'. destruct (pend_eq_lookup_r _ _ _ _ Hp Hm') as (m & Hm & Es).
    eapply mshr_free_same; [done|]. by eapply qk_free.
  - intros i m' Hi Hm'. destruct (pend_eq_lookup_r _ _ _ _ Hp Hm') as (m & Hm & Es).
    eapply mshr_ok_same; [done|]. by eapply qk_alloc.
  - eapply sorted_by_ext; [|apply Hq]. intros i _. by apply ready_at_pend.
Qed.

Lemma ready_at_insert h i m j :
  (i < length h)%nat -> ready_at (<[i:=m]> h) j = if decide (j = i) then m_readyTime m else ready_at h j.
Proof.
  intros Hi. unfold ready_at. case_decide as E; [subst j; by rewrite list_lookup_insert_eq|].
  by rewrite list_lookup_insert_ne.
Qed.

(** Replacing an allocated register by one in the same state of service. *)
Lemma queue_ok_update h q i m m' :
  queue_ok h q -> i ∈ allocatedList q -> h !! i = Some m -> inService m' = inService m ->
  mshr_ok m' -> (inService m = false -> m_readyTime m' = m_readyTime m) -> queue_ok (<[i:=m']> h) q.
Proof.
  intros Hq Hi Hm Es Hok Er. pose proof (lookup_lt_Some _ _ _ Hm) as Hlt. split; try apply Hq.
  - rewrite length_insert. apply Hq.
  - intros j. rewrite (qk_ready _ _ Hq j). destruct (decide (j = i)) as [->|Hne].
    + rewrite list_lookup_insert_eq by done. rewrite Hm. split; intros (Ha & x & [= <-] & Hs); split; try done.
      * exists m'. split; [done|congruence].
      * exists m. split; [done|congruence].
    + by rewrite list_lookup_insert_ne.
  - intros j x Hj Hx. destruct (decide (j = i)) as [->|Hne]; [by destruct (queue_disjoint _ _ _ Hq Hi Hj)|].
    rewrite list_lookup_insert_ne in Hx by done. by eapply qk_free.
  - intros j x Hj Hx. destruct (decide (j = i)) as [->|Hne].
    + rewrite list_lookup_insert_eq in Hx by done. by injection Hx as <-.
    + rewrite list_lookup_insert_ne in Hx by done. by eapply qk_alloc.
  - eapply sorted_by_ext; [|apply Hq]. intros j Hj. rewrite ready_at_insert by done. case_decide as E; [|done].
    subst j. apply (ready_lookup _ _ _ Hq) in Hj as (_ & x & Hx & Hs). rewrite Hm in Hx. injection Hx as <-.
    unfold ready_at. rewrite Hm. auto.
Qed.

(** Registers of other queues do not matter. *)
Lemma queue_ok_other h q i m' :
  queue_ok h q -> i ∉ allocatedList q ++ freeList q -> queue_ok (<[i:=m']> h) q.
Proof.
  intros Hq Hi. assert (Hl : forall j, j ∈ allocatedList q ++ freeList q -> <[i:=m']> h !! j = h !! j).
  { intros j Hj. apply list_lookup_insert_ne. intros ->. done. }
  setoid_rewrite elem_of_app in Hl. split; try apply Hq.
  - rewrite length_insert. apply Hq.
  - intros j. rewrite (qk_ready _ _ Hq j). split; intros (Ha & Hx); (split; [done|]).
    + by rewrite Hl by auto.
    + by rewrite Hl in Hx by auto.
  - intros j x Hj Hx. rewrite Hl in Hx by auto. by eapply qk_free.
  - intros j x Hj Hx. rewrite Hl in Hx by auto. by eapply qk_alloc.
  - eapply sorted_by_ext; [|apply Hq]. intros j Hj. unfold ready_at. rewrite Hl; [done|].
    left. by apply (ready_lookup _ _ _ Hq) in Hj as [? _].
Qed.

(** ** The operations *)

Lemma queue_length h q :
  queue_ok h q ->
  (length (allocatedList q) + length (freeList q))%nat = Z.to_nat (q_numEntries q).
Proof.
  intros Hq. pose proof (Permutation_length (qk_perm _ _ Hq)) as Hl.
  by rewrite length_app, length_seq in Hl.
Qed.

(** A queue that is not full has a free register. *)
Lemma not_full_free h q : queue_ok h q -> isFull q = false -> freeList q <> [].
Proof.
  intros Hq Hf E. unfold isFull in Hf. apply Z.ltb_ge in Hf. pose proof (queue_length _ _ Hq) as Hl.
  rewrite E in Hl. cbn in Hl. rewrite (qk_count _ _ Hq) in Hf. pose proof (qk_reserve _ _ Hq). lia.
Qed.

(** The store after a target was added to register [i] by [f]. *)
Lemma add_inv h i m (f : MSHR -> TargetList -> MSHR) t curTick p ready order s mark h1 t' h2 :
  h !! i = Some m -> tl_add h curTick t p ready order s mark = Ret (h1, t') ->
  m_update h1 i (fun m => f m t') = Ret h2 -> (forall b, f (m_with_pending m b) t' = m_with_pending (f m t') b) ->
  pend_eq (<[i:=f m t']> h) h2.
Proof.
  intros Hm E Eu Hf. apply tl_add_inv in E as [Hpe _].
  destruct (pend_eq_lookup _ _ _ _ Hpe Hm) as (m1 & Hm1 & Es).
  unfold m_update in Eu. rewrite (vread_some _ _ _ Hm1) in Eu. apply vwrite_Ret in Eu as [_ ->].
  apply Forall2_insert; [done|]. unfold pend_same. rewrite Es, Hf. by destruct (f m t').
Qed.

Lemma MSHR_allocate_inv h i m curTick a n p ready order h' :
  h !! i = Some m -> mshr_free m -> MSHR_allocate h i curTick a n p ready order = Ret h' ->
  exists t, pend_eq (<[i:=m_with_targets (allocated_as m a n p ready order) t]> h) h' /\
    length (tl_targets t) = 1%nat.
Proof.
  intros Hm (Et & Ed & Es). unfold MSHR_allocate. rewrite (vread_some _ _ _ Hm). bsimpl.
  rewrite bind_Ret. intros ([] & _ & E). fold (allocated_as m a n p ready order) in E.
  apply bind_Ret in E as (h0 & [Hlt ->]%vwrite_Ret & E). apply bind_Ret in E as ([h1 t] & Ea & E).
  apply bind_Ret in E as ([] & _ & E). exists t. cbn [targets] in Ea. split.
  - assert (Hm0 : <[i:=allocated_as m a n p ready order]> h !! i = Some (allocated_as m a n p ready order))
      by (by apply list_lookup_insert_eq).
    pose proof (add_inv _ _ _ m_with_targets _ _ _ _ _ _ _ _ _ _ Hm0 Ea E ltac:(done)) as Hi.
    by rewrite list_insert_insert_eq in Hi.
  - apply tl_add_inv in Ea as [_ El]. cbn in El. by rewrite El, Et.
Qed.

(** Allocation takes the first free register and queues it for service behind
    those that are ready no later. *)
Lemma MSHRQueue_allocate_ok h q i free m curTick a n p ready order h' :
  queue_ok h q -> freeList q = i :: free -> h !! i = Some m ->
  MSHR_allocate h i curTick a n p ready order = Ret h' ->
  exists q', MSHRQueue_allocate h q curTick a n p ready order = Ret (i, h', q') /\ queue_ok h' q' /\
    allocatedList q' = allocatedList q ++ [i] /\ freeList q' = free.
Proof.
  intros Hq Ef Hm Ea. assert (Hif : i ∈ freeList q) by (rewrite Ef; apply list_elem_of_here).
  pose proof (qk_free _ _ Hq i m Hif Hm) as Hfree. pose proof (lookup_lt_Some _ _ _ Hm) as Hlt.
  destruct (MSHR_allocate_inv _ _ _ _ _ _ _ _ _ _ Hm Hfree Ea) as (t & Hpe & Ht).
  set (m1 := m_with_targets _ t) in Hpe.
  unfold MSHRQueue_allocate. rewrite Ef, (vread_some _ _ _ Hm). bsimpl.
  assert (En : getNumTargets m = 0) by (unfold getNumTargets; by destruct Hfree as (-> & -> & _)).
  rewrite En. cbn [Z.eqb cassert]. bsimpl. rewrite Ea. bsimpl.
  destruct (pend_eq_lookup _ _ i m1 Hpe) as (m2 & Hm2 & Es2); [by apply list_lookup_insert_eq|].
  pose proof (pend_eq_length _ _ Hpe) as Hlen. rewrite length_insert in Hlen.
  assert (Hnr : i ∉ readyList q).
  { intros Hi. apply (ready_lookup _ _ _ Hq) in Hi as [Hi _]. by apply (queue_disjoint _ _ _ Hq Hi). }
  destruct (addToReadyList_ok h' (readyList q) i m2 Hm2) as (l1 & l2 & El & -> & Hso).
  { intros j Hj. destruct (ready_valid _ _ _ Hq Hj) as [x Hx]. apply lookup_lt_is_Some_2.
    rewrite <- Hlen. by eapply lookup_lt_Some. }
  bsimpl. eexists. split; [done|]. split; [|done].
  assert (Hperm : l1 ++ i :: l2 ≡ₚ i :: readyList q) by (rewrite El; by rewrite Permutation_middle).
  assert (Hlk : forall j, j <> i -> forall x, h' !! j = Some x -> exists y, h !! j = Some y /\ pend_same y x).
  { intros j Hj x Hx. destruct (pend_eq_lookup_r _ _ _ _ Hpe Hx) as (y & Hy & Ey).
    rewrite list_lookup_insert_ne in Hy by done. by exists y. }
  apply pend_same_fields in Es2 as (Es & _ & Ed & Er & _). destruct Hfree as (_ & Efd & _).
  split; cbn [allocatedList freeList readyList q_allocated inServiceEntries q_numEntries numReserve q_base
    q_with_counts q_with_lists].
  - rewrite <- (qk_perm _ _ Hq), Ef, <- app_assoc. done.
  - rewrite <- Hlen. apply Hq.
  - apply Hq.
  - rewrite Hperm. constructor; [done|apply Hq].
  - intros j. rewrite Hperm, elem_of_cons, elem_of_app, list_elem_of_singleton, (qk_ready _ _ Hq j).
    split.
    + intros [->|(Hj & x & Hx & Hs)].
      * split; [by right|]. exists m2. split; [done|]. by rewrite Es.
      * split; [by left|]. assert (j <> i) by (intros ->; by apply (queue_disjoint _ _ _ Hq Hj)).
        destruct (pend_eq_lookup _ _ j x Hpe) as (y & Hy & Ey); [by rewrite list_lookup_insert_ne|].
        exists y. split; [done|]. apply pend_same_fields in Ey as [-> _]. done.
    + intros [[Hj| ->] (x & Hx & Hs)]; [right|by left]. split; [done|].
      assert (j <> i) by (intros ->; by apply (queue_disjoint _ _ _ Hq Hj)).
      destruct (Hlk j H x Hx) as (y & Hy & Ey). exists y. split; [done|].
      apply pend_same_fields in Ey as [E _]. congruence.
  - intros j x Hj Hx. assert (j <> i).
    { intros ->. pose proof (queue_nodup _ _ Hq) as Hnd. rewrite Ef in Hnd.
      apply NoDup_app in Hnd as (_ & _ & Hnd). apply NoDup_cons in Hnd as [Hnd _]. done. }
    destruct (Hlk j H x Hx) as (y & Hy & Ey). eapply mshr_free_same; [done|].
    eapply qk_free; [done| |done]. rewrite Ef. by apply list_elem_of_further.
  - intros j x [Hj|Hj]%elem_of_app Hx.
    + assert (j <> i) by (intros ->; by apply (queue_disjoint _ _ _ Hq Hj)).
      destruct (Hlk j H x Hx) as (y & Hy & Ey). eapply mshr_ok_same; [done|]. by eapply qk_alloc.
    + apply list_elem_of_singleton in Hj as ->. rewrite Hm2 in Hx. injection Hx as <-.
      unfold mshr_ok. rewrite Ed. cbn. by rewrite Efd.
  - rewrite length_snoc, (qk_count _ _ Hq). lia.
  - rewrite length_snoc, (Permutation_length Hperm), (qk_service _ _ Hq). cbn [length]. lia.
  - apply Hso. eapply sorted_by_ext; [|apply Hq]. intros j Hj.
    rewrite (ready_at_pend _ _ _ Hpe), ready_at_insert by done. case_decide; [by subst j|done].
Qed.

(** *** Moving a register between the lists *)

Lemma nodup_middle_iff (l1 l2 : list nat) i j :
  NoDup (l1 ++ i :: l2) -> j ∈ l1 ++ l2 <-> j ∈ l1 ++ i :: l2 /\ j <> i.
Proof.
  intros (H1 & H2 & _)%NoDup_middle. rewrite !elem_of_app, elem_of_cons. split.
  - intros [Hj|Hj]; (split; [tauto|]); intros ->; done.
  - tauto.
Qed.

Lemma insert_lookup_cases (h : mshrs) i m' j x :
  (i < length h)%nat -> <[i:=m']> h !! j = Some x -> (j = i /\ x = m') \/ (j <> i /\ h !! j = Some x).
Proof.
  intros Hlt Hx. destruct (decide (j = i)) as [->|Hne].
  - rewrite list_lookup_insert_eq in Hx by done. left. by injection Hx as <-.
  - rewrite list_lookup_insert_ne in Hx by done. by right.
Qed.

(** From the ready list into service. *)
Lemma queue_ok_serve h q i m m' l1 l2 :
  queue_ok h q -> readyList q = l1 ++ i :: l2 -> h !! i = Some m -> inService m' = true -> mshr_ok m' ->
  queue_ok (<[i:=m']> h) (q_with_counts (q_with_lists q (allocatedList q) (l1 ++ l2) (freeList q))
                            (q_allocated q) (inServiceEntries q + 1)).
Proof.
  intros Hq El Hm Hs Hok. pose proof (lookup_lt_Some _ _ _ Hm) as Hlt. pose proof (qk_nodup _ _ Hq) as Hnd.
  assert (Hi : i ∈ allocatedList q).
  { apply (ready_lookup _ _ _ Hq). rewrite El. set_solver. }
  split; cbn [allocatedList freeList readyList q_allocated inServiceEntries q_numEntries numReserve q_base
    q_with_counts q_with_lists]; try apply Hq.
  - rewrite length_insert. apply Hq.
  - rewrite El in Hnd. by apply NoDup_middle in Hnd as (_ & _ & ?).
  - intros j. rewrite El in Hnd. rewrite (nodup_middle_iff _ _ _ _ Hnd), <- El, (qk_ready _ _ Hq j). split.
    + intros ((Ha & x & Hx & Hsx) & Hne). split; [done|]. exists x. by rewrite list_lookup_insert_ne.
    + intros (Ha & x & [(-> & ->)|(Hne & Hx)]%insert_lookup_cases & Hsx); [congruence| |done].
      split; [|done]. split; [done|]. by exists x.
  - intros j x Hj [(-> & _)|(Hne & Hx)]%insert_lookup_cases; [|by eapply qk_free|done].
    by destruct (queue_disjoint _ _ _ Hq Hi Hj).
  - intros j x Hj [(-> & ->)|(Hne & Hx)]%insert_lookup_cases; [done|by eapply qk_alloc|done].
  - rewrite (qk_service _ _ Hq), El, !length_app. cbn [length]. lia.
  - eapply sorted_by_ext; [|eapply sorted_by_erase; rewrite <- El; apply Hq].
    intros j Hj. rewrite ready_at_insert by done. case_decide; [|done]. subst j.
    rewrite El in Hnd. apply (nodup_middle_iff _ _ _ _ Hnd) in Hj as [_ Hj]. done.
Qed.

(** From service back into the ready list. *)
Lemma queue_ok_unserve h q i m m' :
  queue_ok h q -> i ∈ allocatedList q -> h !! i = Some m -> inService m = true ->
  inService m' = false -> mshr_ok m' ->
  exists r, addToReadyList (<[i:=m']> h) (readyList q) i = Ret r /\
    queue_ok (<[i:=m']> h) (q_with_counts (q_with_lists q (allocatedList q) r (freeList q))
                              (q_allocated q) (inServiceEntries q - 1)).
Proof.
  intros Hq Hi Hm Hs Hs' Hok. pose proof (lookup_lt_Some _ _ _ Hm) as Hlt.
  assert (Hnr : i ∉ readyList q).
  { intros (_ & x & Hx & Hsx)%(ready_lookup _ _ _ Hq). congruence. }
  destruct (addToReadyList_ok (<[i:=m']> h) (readyList q) i m') as (l1 & l2 & El & -> & Hso).
  { by apply list_lookup_insert_eq. }
  { intros j Hj. destruct (ready_valid _ _ _ Hq Hj) as [x Hx]. apply lookup_lt_is_Some_2.
    rewrite length_insert. by eapply lookup_lt_Some. }
  assert (Hperm : l1 ++ i :: l2 ≡ₚ i :: readyList q) by (rewrite El; by rewrite Permutation_middle).
  exists (l1 ++ i :: l2). split; [done|].
  split; cbn [allocatedList freeList readyList q_allocated inServiceEntries q_numEntries numReserve q_base
    q_with_counts q_with_lists]; try apply Hq.
  - rewrite length_insert. apply Hq.
  - rewrite Hperm. constructor; [done|apply Hq].
  - intros j. rewrite Hperm, elem_of_cons, (qk_ready _ _ Hq j). split.
    + intros [->|(Ha & x & Hx & Hsx)].
      * split; [done|]. exists m'. by rewrite list_lookup_insert_eq.
      * split; [done|]. exists x. rewrite list_lookup_insert_ne; [done|]. congruence.
    + intros (Ha & x & [(-> & ->)|(Hne & Hx)]%insert_lookup_cases & Hsx); [by left| |done].
      right. split; [done|]. by exists x.
  - intros j x Hj [(-> & _)|(Hne & Hx)]%insert_lookup_cases; [|by eapply qk_free|done].
    by destruct (queue_disjoint _ _ _ Hq Hi Hj).
  - intros j x Hj [(-> & ->)|(Hne & Hx)]%insert_lookup_cases; [done|by eapply qk_alloc|done].
  - rewrite (Permutation_length Hperm), (qk_service _ _ Hq). cbn [length]. lia.
  - apply Hso. eapply sorted_by_ext; [|apply Hq]. intros j Hj. rewrite ready_at_insert by done.
    case_decide; [by subst j|done].
Qed.

(** *** Release of a register *)

Lemma deallocateOne_ok h q i m :
  queue_ok h q -> i ∈ allocatedList q -> h !! i = Some m -> tl_targets (targets m) = [] ->
  deferredTargets m = TargetList_new ->
  exists h' q', deallocateOne h q i = Ret (h', q') /\ queue_ok h' q' /\ i :: allocatedList q' ≡ₚ allocatedList q /\
    freeList q' = i :: freeList q /\ h' = <[i:=m_with_service (m_with_targets m TargetList_new) false]> h.
Proof.
  intros Hq Hi Hm Et Ed. pose proof (lookup_lt_Some _ _ _ Hm) as Hlt. pose proof (queue_nodup _ _ Hq) as Hnd.
  destruct (erase_ok _ _ Hi) as (a1 & a2 & Ea & Ee). pose proof (qk_nodup _ _ Hq) as Hndr.
  assert (Hna : NoDup (a1 ++ i :: a2)) by (rewrite <- Ea; by apply NoDup_app in Hnd as [? _]).
  assert (Hr : exists r, (if inService m then Ret (readyList q) else erase (readyList q) i) = Ret r /\
    NoDup r /\ (forall j, j ∈ r <-> j ∈ readyList q /\ j <> i) /\ sorted_by h r /\
    Z.of_nat (length r) = Z.of_nat (length (readyList q)) - (if inService m then 0 else 1)).
  { pose proof (qk_sorted _ _ Hq) as Hso. destruct (inService m) eqn:Hs.
    - exists (readyList q). split_and!; try done; [|lia]. intros j. split; [|by intros []].
      intros Hj. split; [done|]. intros ->. apply (ready_lookup _ _ _ Hq) in Hj as (_ & x & Hx & Hsx). congruence.
    - destruct (erase_ok (readyList q) i) as (r1 & r2 & Er & ->).
      { apply (qk_ready _ _ Hq). split; [done|]. by exists m. }
      exists (r1 ++ r2). rewrite Er in *. split_and!; try done.
      + by apply NoDup_middle in Hndr as (_ & _ & ?).
      + intros j. by apply nodup_middle_iff.
      + by eapply sorted_by_erase.
      + rewrite !length_app. cbn [length]. lia. }
  destruct Hr as (r & Er & Hr1 & Hr2 & Hr3 & Hr4).
  unfold deallocateOne. rewrite Ee. bsimpl. rewrite (vread_some _ _ _ Hm). bsimpl. rewrite Er. bsimpl.
  rewrite (MSHR_deallocate_ok m Et Ed). bsimpl. rewrite vwrite_lt by done. bsimpl.
  set (m' := m_with_service _ false). set (q1 := q_with_counts _ _ _).
  assert (Hperm : i :: (a1 ++ a2) ≡ₚ allocatedList q) by (rewrite Ea; by rewrite Permutation_middle).
  assert (Hq1 : queue_ok (<[i:=m']> h) q1).
  { split; unfold q1; cbn [allocatedList freeList readyList q_allocated inServiceEntries q_numEntries numReserve
      q_base q_with_counts q_with_lists]; try apply Hq; try done.
    - rewrite <- (qk_perm _ _ Hq), <- Hperm. cbn. by rewrite Permutation_middle.
    - rewrite length_insert. apply Hq.
    - intros j. rewrite Hr2, (qk_ready _ _ Hq j), (nodup_middle_iff _ _ _ j Hna), <- Ea. split.
      + intros ((Ha & x & Hx & Hsx) & Hne). split; [done|]. exists x. by rewrite list_lookup_insert_ne.
      + intros ((Ha & Hne) & x & [(-> & _)|(_ & Hx)]%insert_lookup_cases & Hsx); [done| |done].
        split; [|done]. split; [done|]. by exists x.
    - intros j x Hj [(-> & ->)|(Hne & Hx)]%insert_lookup_cases; [done| |done].
      apply elem_of_cons in Hj as [->|Hj]; [done|]. by eapply qk_free.
    - intros j x Hj [(-> & ->)|(Hne & Hx)]%insert_lookup_cases; [|eapply qk_alloc; [done| |done]|done].
      + by apply (nodup_middle_iff _ _ _ _ Hna) in Hj as [_ ?].
      + rewrite <- Hperm. by apply list_elem_of_further.
    - pose proof (Permutation_length Hperm). cbn [length] in *. rewrite (qk_count _ _ Hq). lia.
    - pose proof (Permutation_length Hperm). cbn [length] in *. rewrite Hr4, (qk_service _ _ Hq).
      destruct (inService m); lia.
    - eapply sorted_by_ext; [|done]. intros j Hj. rewrite ready_at_insert by done. case_decide; [|done].
      subst j. by apply Hr2 in Hj as [_ ?]. }
  destruct (drainManager q1 && _); do 2 eexists; (split; [done|]); split_and!; try done.
  destruct Hq1. by split.
Qed.

(** *** Service *)

Lemma MSHR_markInService_inv h i m dirty b h1 :
  h !! i = Some m -> MSHR_markInService h i dirty = Ret (b, h1) ->
  inService m = false /\
  if b then getNumTargets m = 1 /\ tl_targets (targets m) <> [] /\ h1 = <[i:=popTarget m]> h
  else pend_eq (<[i:=serviced_as m dirty]> h) h1.
Proof.
  intros Hm. pose proof (lookup_lt_Some _ _ _ Hm) as Hlt. unfold MSHR_markInService.
  rewrite (vread_some _ _ _ Hm). bsimpl. rewrite bind_Ret. intros ([] & Hs%cassert_Ret%negb_true_iff & E).
  split; [done|]. apply bind_Ret in E as (fwd & Ef & E). destruct fwd.
  - apply bind_Ret in E as ([] & Hn%cassert_Ret%Z.eqb_eq & E).
    apply bind_Ret in E as (h2 & [_ ->]%vwrite_Ret & [= <- <-]). split_and!; try done.
    unfold isForwardNoResponse in Ef. rewrite Hn in Ef. cbn in Ef. by destruct (tl_targets (targets m)).
  - fold (serviced_as m dirty) in E. apply bind_Ret in E as (h2 & [_ ->]%vwrite_Ret & E).
    apply bind_Ret in E as (h3 & E & [= <- <-]).
    destruct (negb _); [by eapply tl_clear_eq|]. by injection E as <-.
Qed.

Lemma serviced_ok m dirty : mshr_ok m -> mshr_ok (serviced_as m dirty).
Proof. intros [H1 H2]. by split. Qed.

Lemma MSHRQueue_markInService_ok h q i m dirty b h1 :
  queue_ok h q -> i ∈ readyList q -> h !! i = Some m -> MSHR_markInService h i dirty = Ret (b, h1) ->
  exists h' q', MSHRQueue_markInService h q i dirty = Ret (h', q') /\ queue_ok h' q' /\
    if b then i ∈ freeList q' else allocatedList q' = allocatedList q /\ i ∉ readyList q'.
Proof.
  intros Hq Hi Hm E. destruct (ready_lookup _ _ _ Hq Hi) as [Ha _].
  pose proof (qk_alloc _ _ Hq i m Ha Hm) as Hok. pose proof (lookup_lt_Some _ _ _ Hm) as Hlt.
  unfold MSHRQueue_markInService. rewrite E. bsimpl.
  destruct (MSHR_markInService_inv _ _ _ _ _ _ Hm E) as [Hs Hb]. destruct b.
  - destruct Hb as (Hn & Hne & ->). destruct Hok as [Hok1 Hok2]. specialize (Hok2 Hs). specialize (Hok1 Hok2).
    destruct (deallocateOne_ok (<[i:=popTarget m]> h) q i (popTarget m)) as (h' & q' & -> & Hq' & _ & Ef & _); try done.
    + eapply queue_ok_update; try done.
    + by apply list_lookup_insert_eq.
    + unfold getNumTargets in Hn. rewrite Hok2 in Hn. cbn in Hn |- *.
      destruct (tl_targets (targets m)) as [|t [|? ?]]; [done|done|cbn in Hn; lia].
    + do 2 eexists. split; [done|]. split; [done|]. rewrite Ef. apply list_elem_of_here.
  - destruct (erase_ok _ _ Hi) as (l1 & l2 & El & ->). bsimpl. do 2 eexists. split; [done|].
    split; [|split; [done|]].
    + rewrite <- Hb. apply queue_ok_serve with (m := m); try done. by apply serviced_ok.
    + cbn. pose proof (qk_nodup _ _ Hq) as Hnd. rewrite El in Hnd. by apply NoDup_middle in Hnd as (? & ? & _); set_solver.
Qed.

Lemma finish_response_ok h q i m curTick :
  queue_ok h q -> i ∈ allocatedList q -> h !! i = Some m -> inService m = true -> tl_targets (targets m) = [] ->
  exists h' q', finish_response h q i curTick = Ret (h', q') /\ queue_ok h' q' /\
    if is_nil (tl_targets (deferredTargets m)) then i ∈ freeList q'
    else i ∈ readyList q' /\ exists m', h' !! i = Some m' /\ targets m' = deferredTargets m /\
           tl_targets (deferredTargets m') = [].
Proof.
  intros Hq Ha Hm Hs Et. pose proof (qk_alloc _ _ Hq i m Ha Hm) as Hok. pose proof (lookup_lt_Some _ _ _ Hm) as Hlt.
  unfold finish_response. rewrite (vread_some _ _ _ Hm). bsimpl.
  destruct (promoteDeferred_ok m curTick Et) as (b & m' & -> & Eb & Hb). bsimpl. rewrite vwrite_lt by done. bsimpl.
  destruct b; symmetry in Eb.
  - apply negb_true_iff in Eb. rewrite Eb. destruct Hb as (E1 & E2 & E3 & _).
    unfold markPending. rewrite (vread_some _ _ m') by (by apply list_lookup_insert_eq). bsimpl.
    rewrite E3, Hs. cbn [cassert]. bsimpl. rewrite vwrite_lt by (by rewrite length_insert). bsimpl.
    rewrite list_insert_insert_eq.
    destruct (queue_ok_unserve h q i m (m_with_service m' false)) as (r & -> & Hq'); try done.
    { unfold mshr_ok. cbn. by rewrite E2. }
    bsimpl. do 2 eexists. split; [done|]. split; [done|]. split.
    + apply (qk_ready _ _ Hq'). split; [done|]. exists (m_with_service m' false).
      by rewrite list_lookup_insert_eq.
    + exists (m_with_service m' false). rewrite list_lookup_insert_eq by done. split_and!; try done. cbn. by rewrite E2.
  - subst m'. apply negb_false_iff in Eb. rewrite Eb. apply is_nil_true in Eb. rewrite list_insert_id by done.
    destruct Hok as [Hok1 _]. destruct (deallocateOne_ok h q i m) as (h' & q' & -> & Hq' & _ & Ef & _); auto.
    do 2 eexists. split; [done|]. split; [done|]. rewrite Ef. apply list_elem_of_here.
Qed.

Lemma forceDeallocateTarget_ok h q i m curTick :
  queue_ok h q -> i ∈ readyList q -> h !! i = Some m -> tl_targets (targets m) <> [] ->
  exists b h' q', forceDeallocateTarget h q i curTick = Ret (b, h', q') /\ queue_ok h' q' /\
    b = isFull q && negb (isFull q').
Proof.
  intros Hq Hi Hm Ht. destruct (ready_lookup _ _ _ Hq Hi) as (Ha & x & Hx & Hs).
  rewrite Hm in Hx. injection Hx as <-. pose proof (qk_alloc _ _ Hq i m Ha Hm) as [Hok1 Hok2].
  pose proof (lookup_lt_Some _ _ _ Hm) as Hlt. specialize (Hok2 Hs). specialize (Hok1 Hok2).
  unfold forceDeallocateTarget. rewrite (vread_some _ _ _ Hm). bsimpl.
  assert (Hh : hasTargets m = true) by (unfold hasTargets; by apply is_nil_false in Ht as ->).
  rewrite Hh. cbn [cassert]. bsimpl. rewrite vwrite_lt by done. bsimpl.
  assert (Hq1 : queue_ok (<[i:=popTarget m]> h) q) by (by eapply queue_ok_update).
  destruct (hasTargets (popTarget m)) eqn:Eh; cbn [negb].
  - bsimpl. by do 3 eexists.
  - unfold hasTargets in Eh. apply negb_false_iff, is_nil_true in Eh.
    destruct (promoteDeferred_ok (popTarget m) curTick Eh) as (b & m' & -> & Eb & Hb). bsimpl.
    cbn [deferredTargets popTarget m_with_targets] in Eb. rewrite Hok2 in Eb. cbn in Eb. subst b. subst m'.
    rewrite vwrite_lt by (by rewrite length_insert). bsimpl. rewrite list_insert_insert_eq.
    destruct (deallocateOne_ok (<[i:=popTarget m]> h) q i (popTarget m)) as (h' & q' & -> & Hq' & _); try done.
    + by apply list_lookup_insert_eq.
    + bsimpl. by do 3 eexists.
Qed.

(** *** Lookup *)

Lemma find_match_ok h l test :
  (forall i, i ∈ l -> exists m, h !! i = Some m) ->
  exists r, find_match h l test = Ret r /\
    match r with
    | Some i => exists l1 l2 m, l = l1 ++ i :: l2 /\ h !! i = Some m /\ test m = true /\
        forall j x, j ∈ l1 -> h !! j = Some x -> test x = false
    | None => forall j x, j ∈ l -> h !! j = Some x -> test x = false
    end.
Proof.
  induction l as [|i l IH]; intros Hl; cbn [find_match].
  - exists None. split; [done|]. intros j x Hj. by apply not_elem_of_nil in Hj.
  - destruct (Hl i ltac:(apply list_elem_of_here)) as [m Hm]. rewrite (vread_some _ _ _ Hm). bsimpl.
    destruct (test m) eqn:Et.
    + exists (Some i). split; [done|]. exists [], l, m. split_and!; try done.
      intros j x Hj. by apply not_elem_of_nil in Hj.
    + destruct IH as (r & -> & Hr); [intros j Hj; apply Hl; by apply list_elem_of_further|].
      exists r. split; [done|]. destruct r as [k|].
      * destruct Hr as (l1 & l2 & mk & -> & Hk & Etk & Hf). exists (i :: l1), l2, mk. split_and!; try done.
        intros j x [->|Hj]%elem_of_cons Hx; [congruence|by eapply Hf].
      * intros j x [->|Hj]%elem_of_cons Hx; [congruence|by eapply Hr].
Qed.

Lemma find_matches_ok h l test :
  (forall i, i ∈ l -> exists m, h !! i = Some m) ->
  exists r, find_matches h l test = Ret r /\
    forall i, i ∈ r <-> i ∈ l /\ exists m, h !! i = Some m /\ test m = true.
Proof.
  induction l as [|i l IH]; intros Hl; cbn [find_matches].
  - exists []. split; [done|]. intros j. rewrite elem_of_nil. tauto.
  - destruct (Hl i ltac:(apply list_elem_of_here)) as [m Hm]. rewrite (vread_some _ _ _ Hm). bsimpl.
    destruct IH as (r & -> & Hr); [intros j Hj; apply Hl; by apply list_elem_of_further|]. bsimpl.
    eexists. split; [done|]. intros j. rewrite elem_of_cons. destruct (test m) eqn:Et.
    + rewrite elem_of_cons, Hr. split; [|tauto]. intros [->|[Hj Hx]]; [|tauto]. split; [by left|]. by exists m.
    + rewrite Hr. split; [tauto|]. intros [[->|Hj] Hx]; [|tauto]. destruct Hx as (x & Hx & Ex). congruence.
Qed.

(** Lookups of the miss-status queue are exact: [findMatch] returns the
    oldest cacheable register of the block, or nothing if there is none;
    [findMatches] returns all of them; and [getNextMSHR] returns a register
    exactly when one waiting for service is ready, and then one that became
    ready no later than any other. *)
Theorem queue_lookup_exact h q a secure curTick :
  queue_ok h q ->
  (exists r, findMatch h q a secure = Ret r /\
     match r with
     | Some i => exists l1 l2 m, allocatedList q = l1 ++ i :: l2 /\ h !! i = Some m /\
         m_matches m a secure = true /\
         forall j x, j ∈ l1 -> h !! j = Some x -> m_matches x a secure = false
     | None => forall j x, j ∈ allocatedList q -> h !! j = Some x -> m_matches x a secure = false
     end) /\
  (exists l, findMatches h q a secure = Ret (negb (is_nil l), l) /\
     forall i, i ∈ l <-> i ∈ allocatedList q /\ exists m, h !! i = Some m /\ m_matches m a secure = true) /\
  (exists r, getNextMSHR h q curTick = Ret r /\
     match r with
     | Some i => i ∈ readyList q /\ ready_at h i <= curTick /\
         forall j, j ∈ readyList q -> ready_at h i <= ready_at h j
     | None => forall j, j ∈ readyList q -> curTick < ready_at h j
     end).
Proof.
  intros Hq. assert (Hv : forall i, i ∈ allocatedList q -> exists m, h !! i = Some m).
  { intros i Hi. eapply queue_lookup; [done|by left]. }
  split_and!.
  - by apply find_match_ok.
  - unfold findMatches. destruct (find_matches_ok h (allocatedList q) (fun m => m_matches m a secure) Hv)
      as (l & -> & Hl). bsimpl. by exists l.
  - unfold getNextMSHR. pose proof (qk_sorted _ _ Hq) as Hs.
    destruct (readyList q) as [|i l] eqn:El.
    { exists None. split; [done|]. intros j Hj. by apply not_elem_of_nil in Hj. }
    destruct (ready_valid h q i Hq) as [m Hm]; [rewrite El; apply list_elem_of_here|].
    rewrite (vread_some _ _ _ Hm). bsimpl. eexists. split; [done|].
    assert (Er : ready_at h i = m_readyTime m) by (unfold ready_at; by rewrite Hm).
    unfold sorted_by in Hs. rewrite StronglySorted_cons, Forall_forall in Hs. destruct Hs as [Hs _].
    assert (Hle : forall j, j ∈ i :: l -> ready_at h i <= ready_at h j).
    { intros j [->|Hj]%elem_of_cons; [lia|by apply Hs]. }
    destruct (Z.ltb_spec curTick (m_readyTime m)) as [Hlt|Hge].
    + intros j Hj. specialize (Hle j Hj). lia.
    + split_and!; [apply list_elem_of_here|lia|done].
Qed.

(** C31. The miss-status queue stays consistent: its registers are divided
    between the allocated and the free list, the ready list holds exactly the
    allocated registers that are not in service, ordered by the tick at which
    they become ready, and the counters agree.  Allocation never fails while the
    queue is not full; service, the end of a request (which releases the
    register or requests the deferred targets again) and dropping a prefetch
    never fail on the registers they are meant for, given that the operation of
    the register itself returns. *)
Theorem queue_ops_consistent h q :
  queue_ok h q ->
  (forall curTick a n p ready order, isFull q = false -> exists i, i ∈ freeList q /\
     forall h', MSHR_allocate h i curTick a n p ready order = Ret h' ->
     exists q', MSHRQueue_allocate h q curTick a n p ready order = Ret (i, h', q') /\ queue_ok h' q' /\
       allocatedList q' = allocatedList q ++ [i]) /\
  (forall i dirty b h1, i ∈ readyList q -> MSHR_markInService h i dirty = Ret (b, h1) ->
     exists h' q', MSHRQueue_markInService h q i dirty = Ret (h', q') /\ queue_ok h' q' /\
       if b then i ∈ freeList q' else allocatedList q' = allocatedList q /\ i ∉ readyList q') /\
  (forall i m curTick, i ∈ allocatedList q -> h !! i = Some m -> inService m = true ->
     tl_targets (targets m) = [] ->
     exists h' q', finish_response h q i curTick = Ret (h', q') /\ queue_ok h' q' /\
       if is_nil (tl_targets (deferredTargets m)) then i ∈ freeList q'
       else i ∈ readyList q' /\ exists m', h' !! i = Some m' /\ targets m' = deferredTargets m /\
              tl_targets (deferredTargets m') = []) /\
  (forall i m curTick, i ∈ readyList q -> h !! i = Some m -> tl_targets (targets m) <> [] ->
     exists b h' q', forceDeallocateTarget h q i curTick = Ret (b, h', q') /\ queue_ok h' q' /\
       b = isFull q && negb (isFull q')).
Proof.
  intros Hq. split_and!.
  - intros curTick a n p ready order Hf. pose proof (not_full_free _ _ Hq Hf) as Hne.
    destruct (freeList q) as [|i free] eqn:Ef; [done|]. exists i. split; [apply list_elem_of_here|].
    intros h' E. destruct (queue_lookup h q i Hq) as [m Hm]; [right; rewrite Ef; apply list_elem_of_here|].
    destruct (MSHRQueue_allocate_ok h q i free m curTick a n p ready order h' Hq Ef Hm E) as (q' & E' & Hq' & Ha & _).
    by exists q'.
  - intros i dirty b h1 Hi E. destruct (ready_valid _ _ _ Hq Hi) as [m Hm].
    by eapply MSHRQueue_markInService_ok.
  - intros i m curTick. by apply finish_response_ok.
  - intros i m curTick. by apply forceDeallocateTarget_ok.
Qed.

Lemma MSHRQueue_new_ok h n reserve demand q h' :
  1 <= reserve -> MSHRQueue_new h n reserve demand = (q, h') -> queue_ok h' q.
Proof.
  intros Hr [= <- <-]. split; cbn; try done.
  - rewrite length_app, length_replicate. lia.
  - constructor.
  - intros i. split; [by intros ?%elem_of_nil|]. by intros (?%elem_of_nil & _).
  - intros i m Hi%elem_of_seq Hm. rewrite lookup_app_r in Hm by lia. by apply lookup_replicate in Hm as [-> _].
  - intros i m ?%elem_of_nil. done.
  - constructor.
Qed.

(** A queue of four registers with one reserved. *)
Definition demo_queue : MSHRQueue := (MSHRQueue_new [] 4 1 0).1.
Definition demo_store : mshrs := (MSHRQueue_new [] 4 1 0).2.

Lemma demo_queue_ok : queue_ok demo_store demo_queue.
Proof. by apply (MSHRQueue_new_ok [] 4 1 0). Qed.

Lemma queue_lookup_exact_witness :
  findMatch demo_store demo_queue 64 false = Ret None /\
  exists r, getNextMSHR demo_store demo_queue 5 = Ret r.
Proof.
  split; [reflexivity|].
  destruct (queue_lookup_exact demo_store demo_queue 64 false 5 demo_queue_ok) as (_ & _ & r & E & _).
  by exists r.
Defined.

Lemma queue_ops_consistent_witness :
  isFull demo_queue = false /\
  exists i h' q', MSHRQueue_allocate demo_store demo_queue 0 64 64 (demo_packet ReadReq None) 3 1 =
    Ret (i, h', q') /\ queue_ok h' q'.
Proof.
  split; [reflexivity|].
  destruct (queue_ops_consistent demo_store demo_queue demo_queue_ok) as [Ha _].
  destruct (Ha 0 64 64 (demo_packet ReadReq None) 3 1 eq_refl) as (i & Hi & Hr).
  apply elem_of_seq in Hi. assert (Hc : (i = 0 \/ i = 1 \/ i = 2 \/ i = 3)%nat) by (cbn in Hi; lia).
  destruct (MSHR_allocate demo_store i 0 64 64 (demo_packet ReadReq None) 3 1) as [h'|e] eqn:Ea.
  - destruct (Hr h' eq_refl) as (q' & E & Hq' & _). by exists i, h', q'.
  - exfalso. destruct Hc as [->|[->|[->| ->]]]; vm_compute in Ea; discriminate Ea.
Defined.
