(* ===== verification/CacheTiming.v ===== *)
(** * A cache in timing mode: [mem/cache/cache_impl.hh], [mem/cache/base.hh],
    [mem/cache/base.cc]

    Requests from above, responses and snoops from below, the choice of the next
    request to send and the blocking of the port above, on the blocks of [Cache.v],
    the miss-status registers of [Mshr.v] and the queues of [MshrQueue.v].

    A handler changes the state of the cache and calls its ports; the calls are
    listed in order.  What surrounds the cache is an argument: the tick, the clock
    edge, a random draw, the contents of fresh payloads, the answer of the port below
    to a request, what the caches above make of a snoop, and the snoop responses that
    wait to be sent.  The prefetcher is any state with its three operations.
    Statistics, tracing, the energy model and the deletion of packets are left out. *)

From S2P Require Import Prelude Handler IntMath AddrRange Packet CacheBlk TagStore Cache Mshr MshrQueue CacheAtomic.
Local Open Scope Z_scope.

Definition cmd_isSWPrefetch (c : Command) : bool := testCmdAttrib c IsSWPrefetch.

(** ** The ports *)

Inductive Cause := Cause_MSHRs | Cause_WriteBuffer | Cause_Other.
Abbreviation Blocked_NoTargets := Cause_Other.
Abbreviation Request_PF := Cause_Other.

#[export] Instance Cause_eq_dec : EqDecision Cause.
Proof. solve_decision. Defined.

Definition cause_bit (k : Cause) : Z := match k with Cause_MSHRs => 1 | Cause_WriteBuffer => 2 | Cause_Other => 4 end.

(** The calls of the ports. *)
Inductive Out :=
  | SchedTimingResp (p : MPacket) (when : Z)
  | SchedTimingSnoopResp (p : Packet) (when : Z)
  | RequestBus (cause : Cause) (when : Z)
  | SchedSendEvent (when : Z)
  | SendTimingReq (p : MPacket)
  | SendRetryReq.

Record CacheSlavePort := mkSlavePort { sp_blocked : bool; mustSendRetry : bool; sendRetryEvent : option Z }.

(** [m.isForward = b], [m.threadNum = t]. *)
Definition m_with_forward (m : MSHR) (b : bool) : MSHR :=
  mkMSHR (m_readyTime m) (m_isUncacheable m) (downstreamPending m) (pendingDirty m) (postInvalidate m) (postDowngrade m) (m_order m)
    (m_blkAddr m) (m_blkSize m) (m_isSecure m) (inService m) b (threadNum m) (targets m) (deferredTargets m).
Definition m_with_thread (m : MSHR) (t : Z) : MSHR :=
  mkMSHR (m_readyTime m) (m_isUncacheable m) (downstreamPending m) (pendingDirty m) (postInvalidate m) (postDowngrade m) (m_order m)
    (m_blkAddr m) (m_blkSize m) (m_isSecure m) (inService m) (isForward m) t (targets m) (deferredTargets m).

Definition getTarget (m : MSHR) : res Target :=
  match tl_targets (targets m) with
  | [] => Err AssertFailed
  | t :: _ => Ret t
  end.

Definition clearSupplyExclusive (p : Packet) : Packet := with_flags p (Z.land (pkt_flags p) (wnot 32 SUPPLY_EXCLUSIVE)).

(** The parameters besides those of [CacheAtomic.v]. *)
Record TimingParams := mkTimingParams { responseLatency : Z; numTarget : Z; prefetchOnAccess : bool }.

(** What surrounds the cache during a call: the values of [Env], the answer of the
    port below to a request with the packet afterwards, a snoop after the caches above
    have seen it, and whether a snoop response waits for an address and since when. *)
Record TEnv := mkTEnv {
  te : Env;
  te_send : MPacket -> bool * MPacket;
  te_up : Packet -> Packet;
  te_snoopDelay : Z;            (* the header delay of a deferred snoop *)
  te_hasAddr : Z -> bool;
  te_snoopReady : Z
}.

Section timing.
Context {S : Type} `{TagPolicy S} (c : TagsConfig) (P : CacheParams) (Q : TimingParams).
Context {PF : Type} (pf_notify : PF -> Packet -> PF * Z) (pf_getPacket : PF -> Z -> PF * option Packet) (pf_ready : PF -> Z).

Abbreviation cache := (CacheState S).

Record TCache := mkTCache {
  t_cache : cache;
  t_regs : mshrs;
  mshrQueue : MSHRQueue;
  writeBuffer : MSHRQueue;
  t_blocked : Z;
  t_order : Z;
  noTargetMSHR : option nat;
  cpuSidePort : CacheSlavePort;
  t_waiting : bool;             (* waitingOnRetry of the queue of requests *)
  prefetcher : option PF
}.

Definition t_with_cache (s : TCache) (x : cache) : TCache :=
  mkTCache x (t_regs s) (mshrQueue s) (writeBuffer s) (t_blocked s) (t_order s) (noTargetMSHR s) (cpuSidePort s) (t_waiting s) (prefetcher s).
Definition t_with_regs (s : TCache) (h : mshrs) : TCache :=
  mkTCache (t_cache s) h (mshrQueue s) (writeBuffer s) (t_blocked s) (t_order s) (noTargetMSHR s) (cpuSidePort s) (t_waiting s) (prefetcher s).
Definition t_with_blocked (s : TCache) (b : Z) (p : CacheSlavePort) : TCache :=
  mkTCache (t_cache s) (t_regs s) (mshrQueue s) (writeBuffer s) b (t_order s) (noTargetMSHR s) p (t_waiting s) (prefetcher s).
Definition t_with_order (s : TCache) (n : Z) : TCache :=
  mkTCache (t_cache s) (t_regs s) (mshrQueue s) (writeBuffer s) (t_blocked s) n (noTargetMSHR s) (cpuSidePort s) (t_waiting s) (prefetcher s).
Definition t_with_noTarget (s : TCache) (o : option nat) : TCache :=
  mkTCache (t_cache s) (t_regs s) (mshrQueue s) (writeBuffer s) (t_blocked s) (t_order s) o (cpuSidePort s) (t_waiting s) (prefetcher s).
Definition t_with_waiting (s : TCache) (b : bool) : TCache :=
  mkTCache (t_cache s) (t_regs s) (mshrQueue s) (writeBuffer s) (t_blocked s) (t_order s) (noTargetMSHR s) (cpuSidePort s) b (prefetcher s).
Definition t_with_pf (s : TCache) (o : option PF) : TCache :=
  mkTCache (t_cache s) (t_regs s) (mshrQueue s) (writeBuffer s) (t_blocked s) (t_order s) (noTargetMSHR s) (cpuSidePort s) (t_waiting s) o.

(** Which of the two queues a register belongs to; [mshr->queue]. *)
Definition in_wb (s : TCache) (i : nat) : bool :=
  (q_base (writeBuffer s) <=? i)%nat && (Z.of_nat i <? Z.of_nat (q_base (writeBuffer s)) + q_numEntries (writeBuffer s)).
Definition queue_of (s : TCache) (k : Cause) : MSHRQueue := match k with Cause_WriteBuffer => writeBuffer s | _ => mshrQueue s end.
Definition cause_of (s : TCache) (i : nat) : Cause := if in_wb s i then Cause_WriteBuffer else Cause_MSHRs.
Definition t_with_queue (s : TCache) (k : Cause) (h : mshrs) (q : MSHRQueue) : TCache :=
  match k with
  | Cause_WriteBuffer => mkTCache (t_cache s) h (mshrQueue s) q (t_blocked s) (t_order s) (noTargetMSHR s) (cpuSidePort s) (t_waiting s) (prefetcher s)
  | _ => mkTCache (t_cache s) h q (writeBuffer s) (t_blocked s) (t_order s) (noTargetMSHR s) (cpuSidePort s) (t_waiting s) (prefetcher s)
  end.

(** ** Handlers: state, failures and calls *)

Abbreviation tm := (handler TCache Out).

(** *** Blocking *)

Definition port_setBlocked (p : CacheSlavePort) : res CacheSlavePort :=
  _ ← cassert (negb (sp_blocked p));
  match sendRetryEvent p with
  | Some _ => Ret (mkSlavePort true true None)
  | None => Ret (mkSlavePort true (mustSendRetry p) None)
  end.

Definition port_clearBlocked (p : CacheSlavePort) (now : Z) : res CacheSlavePort :=
  _ ← cassert (sp_blocked p);
  Ret (mkSlavePort false (mustSendRetry p) (if mustSendRetry p then Some (u64 (now + 1)) else sendRetryEvent p)).

Definition setBlocked (k : Cause) : tm unit :=
  s ← get;
  p ← (if t_blocked s =? 0 then lift (port_setBlocked (cpuSidePort s)) else ret (cpuSidePort s));
  put (t_with_blocked s (Z.lor (t_blocked s) (cause_bit k)) p).

Definition clearBlocked (k : Cause) (now : Z) : tm unit :=
  s ← get;
  let b := Z.land (t_blocked s) (wnot 8 (cause_bit k)) in
  p ← (if b =? 0 then lift (port_clearBlocked (cpuSidePort s) now) else ret (cpuSidePort s));
  put (t_with_blocked s b p).

(** *** Buffers *)

(** [order++] *)
Definition next_order : tm Z :=
  s ← get;
  _ ← put (t_with_order s (u64 (t_order s + 1)));
  ret (t_order s).

Definition allocateBufferInternal (k : Cause) (addr size : Z) (pkt : MPacket) (time : Z) (requestBus : bool) (now : Z) : tm nat :=
  _ ← check (addr =? blockAlign c addr);
  o ← next_order;
  s ← get;
  '(i, h, q) ← lift (MSHRQueue_allocate (t_regs s) (queue_of s k) now addr size pkt time o);
  _ ← put (t_with_queue s k h q);
  _ ← (if isFull q then setBlocked k else ret tt);
  _ ← (if requestBus then emit (RequestBus k time) else ret tt);
  ret i.

Definition allocateMissBuffer (pkt : MPacket) (time : Z) (requestBus : bool) (now : Z) : tm nat :=
  allocateBufferInternal Cause_MSHRs (blockAlign c (pkt_addr (mp_pkt pkt))) (blkSize c) pkt time requestBus now.

Definition allocateWriteBuffer (pkt : MPacket) (time : Z) (requestBus : bool) (now : Z) : tm nat :=
  _ ← check (cmd_isWrite (mp_cmd pkt) && negb (cmd_isRead (mp_cmd pkt)));
  allocateBufferInternal Cause_WriteBuffer (blockAlign c (pkt_addr (mp_pkt pkt))) (blkSize c) pkt time requestBus now.

Fixpoint write_buffers (wbs : list Packet) (time now : Z) : tm unit :=
  match wbs with
  | [] => ret tt
  | w :: wbs => _ ← allocateWriteBuffer (mkMPacket w None) time true now; write_buffers wbs time now
  end.

(** [markInServiceInternal]. *)
Definition markInService (i : nat) (pending_dirty_resp : bool) (now : Z) : tm unit :=
  s ← get;
  let k := cause_of s i in
  let wasFull := isFull (queue_of s k) in
  '(h, q) ← lift (MSHRQueue_markInService (t_regs s) (queue_of s k) i pending_dirty_resp);
  _ ← put (t_with_queue s k h q);
  if wasFull && negb (isFull q) then clearBlocked k now else ret tt.

(** *** Access to the parts *)

Definition get_mshr (i : nat) : tm MSHR := s ← get; lift (vread (t_regs s) i).
Definition set_mshr (i : nat) (f : MSHR -> MSHR) : tm unit :=
  s ← get; h ← lift (m_update (t_regs s) i f); put (t_with_regs s h).
Definition in_cache {A} (f : cache -> res (cache * A)) : tm A :=
  s ← get; '(x, a) ← lift (f (t_cache s)); _ ← put (t_with_cache s x); ret a.
Definition mod_cache (f : cache -> res cache) : tm unit := in_cache (fun x => y ← f x; Ret (y, tt)).

(** [mshrQueue.findMatch], as the data path uses it. *)
Definition miss_match (s : TCache) (addr : Z) (sec : bool) : option bool :=
  match findMatch (t_regs s) (mshrQueue s) addr sec with
  | Ret (Some i) => (fun m => tl_needsExclusive (targets m)) <$> t_regs s !! i
  | _ => None
  end.

(** [if (prefetcher && !pkt->cmd.isSWPrefetch()) next_pf_time = prefetcher->notify(pkt)] *)
Definition notify (pkt : Packet) (next_pf_time : Z) : tm Z :=
  s ← get;
  match prefetcher s with
  | None => ret next_pf_time
  | Some pf =>
      if cmd_isSWPrefetch (pkt_cmd pkt) then ret next_pf_time
      else let '(pf, t) := pf_notify pf pkt in _ ← put (t_with_pf s (Some pf)); ret t
  end.

Definition edge_at (e : Env) (cycles : Z) : Z := u64 (ev_edge e + cycles * clockPeriod c).

Definition check_master (pkt : Packet) : tm unit := check (req_masterId (pkt_req pkt) <? Z.of_nat (maxMasters c)).

(** ** Requests from above *)

(** A cache above answers: other copies may have to be invalidated. *)
Definition req_inhibited (pkt : MPacket) (E : TEnv) : tm unit :=
  if cmd_needsExclusive (mp_cmd pkt) && negb (isSupplyExclusive (mp_pkt pkt)) then
    let snoop_pkt := setExpressSnoop (with_payloadDelay (copy_packet (mp_pkt pkt) true None) 0) in
    snoop_pkt ← lift (assertMemInhibit snoop_pkt);
    let p := mp_with pkt snoop_pkt in
    _ ← emit (SendTimingReq p);
    check (te_send E p).1
  else ret tt.

(** The tick of the next prefetch is returned. *)
Definition req_hit (pkt : MPacket) (blk : option nat) (request_time : Z) : tm Z :=
  let needsResponse := cmd_needsResponse (mp_cmd pkt) in
  _ ← check (negb (req_isUncacheable (pkt_req (mp_pkt pkt))));
  s ← get;
  was ← match blk with
        | Some p => b ← lift (get_blk (t_cache s) (InTags p)); ret (wasPrefetched b)
        | None => ret false
        end;
  next_pf_time ←
    (if match prefetcher s with Some _ => prefetchOnAccess Q || was | None => false end then
       _ ← match blk with
           | Some p => mod_cache (fun x => set_blk x (InTags p) (clear_bits BlkHWPrefetched))
           | None => ret tt
           end;
       notify (mp_pkt pkt) MaxTick
     else ret MaxTick);
  _ ← (if needsResponse then
         r ← lift (makeResponse (mp_pkt pkt));
         emit (SchedTimingResp (mp_with pkt (with_payloadDelay r 0)) request_time)
       else ret tt);
  ret next_pf_time.

(** A software prefetch is answered at once; a copy of it goes on unless a register
    already waits for the block. *)
Definition soft_prefetch (pkt : MPacket) (mshr : option nat) (request_time : Z) (e : Env) : tm (option MPacket) :=
  let p := mp_pkt pkt in
  let req := pkt_req p in
  _ ← check (cmd_needsResponse (pkt_cmd p));
  _ ← check (negb (req_isUncacheable req));
  pf ← match mshr with
       | Some _ => ret None
       | None =>
           let pf := with_data (Packet_new (mkRequest (-1) (req_paddr req) (req_size req) (req_masterId req) TaskId_Unknown 0 (req_flags req)) (pkt_cmd p))
                       (ev_junk e) [] in
           _ ← check (pkt_addr pf =? pkt_addr p);
           _ ← check (pkt_size pf =? pkt_size p);
           ret (Some (mkMPacket pf None))
       end;
  r ← lift (makeResponse p);
  r ← lift (setData r (replicate (Z.to_nat (pkt_size r)) 0xFF) 0);
  _ ← emit (SchedTimingResp (mp_with pkt r) request_time);
  ret pf.

(** A register already waits for the block. *)
Definition coalesce (i : nat) (pkt : MPacket) (forward_time : Z) (e : Env) : tm Z :=
  _ ← check_master (mp_pkt pkt);
  m ← get_mshr i;
  _ ← (if threadNum m =? 0 then ret tt else set_mshr i (fun m => m_with_thread m (-1)));
  o ← next_order;
  s ← get;
  h ← lift (allocateTarget (t_regs s) i (ev_now e) pkt forward_time o);
  _ ← put (t_with_regs s h);
  m ← get_mshr i;
  _ ← (if getNumTargets m =? numTarget Q then
         s ← get; _ ← put (t_with_noTarget s (Some i)); setBlocked Blocked_NoTargets
       else ret tt);
  notify (mp_pkt pkt) MaxTick.

Definition new_miss (pkt : MPacket) (blk : option nat) (forward_time : Z) (e : Env) : tm Z :=
  let p := mp_pkt pkt in
  let unc := req_isUncacheable (pkt_req p) in
  _ ← check_master p;
  _ ← (if bool_decide (pkt_cmd p = Writeback) || (unc && cmd_isWrite (pkt_cmd p)) then
         _ ← allocateWriteBuffer pkt forward_time true (ev_now e); ret tt
       else
         s ← get;
         _ ← match blk with
             | Some x =>
                 b ← lift (get_blk (t_cache s) (InTags x));
                 if isValid b then
                   _ ← check (negb unc);
                   _ ← check (cmd_needsExclusive (pkt_cmd p));
                   _ ← check (negb (isWritable b));
                   mod_cache (fun y => set_blk y (InTags x) (clear_bits BlkReadable))
                 else ret tt
             | None => ret tt
             end;
         _ ← allocateMissBuffer pkt forward_time true (ev_now e); ret tt);
  notify p MaxTick.

Definition req_miss (pkt : MPacket) (blk : option nat) (forward_time request_time : Z) (e : Env) : tm Z :=
  let p := mp_pkt pkt in
  s ← get;
  mshr ← (if req_isUncacheable (pkt_req p) then ret None
          else lift (findMatch (t_regs s) (mshrQueue s) (blockAlign c (pkt_addr p)) (pkt_isSecure p)));
  pkt ← (if cmd_isSWPrefetch (pkt_cmd p) && cp_top P then soft_prefetch pkt mshr request_time e else ret (Some pkt));
  match pkt with
  | None => ret MaxTick
  | Some pkt => match mshr with Some i => coalesce i pkt forward_time e | None => new_miss pkt blk forward_time e end
  end.

(** [Cache::recvTimingReq]; [headerDelay] is that of the packet. *)
Definition cache_recvTimingReq (pkt : MPacket) (headerDelay : Z) (E : TEnv) : tm bool :=
  let e := te E in
  _ ← check (cmd_isRequest (mp_cmd pkt));
  if cacheBypass P then _ ← emit (SendTimingReq pkt); _ ← check (te_send E pkt).1; ret true
  else
    p ← lift (promoteWholeLineWrites c P (mp_pkt pkt));
    if memInhibitAsserted p then _ ← req_inhibited (mp_with pkt p) E; ret true
    else
      let forward_time := u64 (edge_at e (forwardLatency P) + headerDelay) in
      s ← get;
      a ← lift (access c (cp_top P) (lookupLatency P) (miss_match s) (t_cache s) p (ev_rnd e) (ev_now e));
      _ ← put (t_with_cache s (ar_state a));
      _ ← write_buffers (ar_writebacks a) forward_time (ev_now e);
      let request_time := u64 (edge_at e (ar_lat a) + headerDelay) in
      let pkt := mp_with pkt (with_payloadDelay (ar_pkt a) 0) in
      next_pf_time ← (if ar_satisfied a then req_hit pkt (ar_blk a) request_time
                      else req_miss pkt (ar_blk a) forward_time request_time e);
      _ ← (if next_pf_time =? MaxTick then ret tt
           else emit (RequestBus Request_PF (Z.max (edge_at e (forwardLatency P)) next_pf_time)));
      ret true.

(** [CpuSidePort::recvTimingReq]. *)
Definition port_recvTimingReq (pkt : MPacket) (headerDelay : Z) (E : TEnv) : tm bool :=
  _ ← check (negb (cacheBypass P));
  if memInhibitAsserted (mp_pkt pkt) then
    ok ← cache_recvTimingReq pkt headerDelay E;
    _ ← check ok;
    ret true
  else
    s ← get;
    success ← (if sp_blocked (cpuSidePort s) || mustSendRetry (cpuSidePort s) then ret false else cache_recvTimingReq pkt headerDelay E);
    s ← get;
    let p := cpuSidePort s in
    _ ← put (t_with_blocked s (t_blocked s) (mkSlavePort (sp_blocked p) (negb success) (sendRetryEvent p)));
    ret success.

(** The retry event of the port. *)
Definition processSendRetry : tm unit :=
  s ← get;
  _ ← put (t_with_blocked s (t_blocked s) (mkSlavePort (sp_blocked (cpuSidePort s)) false None));
  emit SendRetryReq.

(** ** Responses from below *)

(** [handleFill] of a block that may be the temporary one. *)
Definition fill_at (match_ : Z -> bool -> option bool) (x : cache) (pkt : Packet) (blk : option blkref) (e : Env) : res (cache * (blkref * list Packet)) :=
  match blk with
  | Some Temp =>
      let cmd := pkt_cmd pkt in
      _ ← cassert (cmd_isResponse cmd || cmd_isWriteInvalidate cmd);
      _ ← cassert (tag (tempBlock x) =? extractTag c (pkt_addr pkt));
      _ ← cassert (cmd_hasData cmd || isValid (tempBlock x));
      x ← set_blk x Temp (fill_bits pkt);
      x ← (if cmd_isRead cmd then
             _ ← cassert (cmd_hasData cmd);
             _ ← cassert (pkt_size pkt =? blkSize c);
             d ← getPtr pkt;
             d ← mem_read d 0 (blkSize c);
             old ← get_data x Temp;
             d ← mem_write old 0 d;
             set_data x Temp d
           else Ret x);
      x ← set_blk x Temp (fun b => with_whenReady b (u64 (ev_edge e + fillLatency P * clockPeriod c + pkt_payloadDelay pkt)));
      Ret (x, (Temp, []))
  | _ =>
      let p := match blk with Some (InTags p) => Some p | _ => None end in
      '(x, r, wbs) ← handleFill c (fillLatency P) match_ x pkt p (ev_rnd e) (ev_now e) (ev_edge e);
      Ret (x, (r, wbs))
  end.

(** The register and the block are told of a fill. *)
Definition fill_both (i : nat) (pkt : Packet) (blk : option blkref) (e : Env) : tm (blkref * list Packet) :=
  s ← get;
  h ← lift (MSHR_handleFill (t_regs s) i pkt);
  _ ← put (t_with_regs s h);
  s ← get;
  in_cache (fun x => fill_at (miss_match s) x pkt blk e).

(** The variables of the loop: [is_fill], [blk] and [writebacks]. *)
Record RespLoop := mkRespLoop { rl_fill : bool; rl_blk : option blkref; rl_wbs : list Packet }.

(** The data or the outcome for a request that waited, with its tick. *)
Definition complete_target (i : nat) (pkt : Packet) (headerDelay initial_offset : Z) (is_error : bool) (tgt : Packet) (r : RespLoop) (e : Env) : tm (Packet * Z) :=
  let base := u64 (headerDelay + edge_at e (responseLatency Q)) in
  if rl_fill r then
    blk ← lift (match rl_blk r with Some b => Ret b | None => Err OutOfBounds end);
    m ← get_mshr i;
    pd ← lift (hasPostDowngrade m);
    tgt ← in_cache (fun x => satisfyCpuSideRequest c (cp_top P) x tgt blk true pd (ev_now e));
    let off := getOffset tgt (blkSize c) - initial_offset in
    let transfer_offset := if off <? 0 then off + blkSize c else off in
    _ ← check (negb (req_isUncacheable (pkt_req tgt)));
    _ ← check_master tgt;
    ret (tgt, u64 (base + (if transfer_offset =? 0 then 0 else pkt_payloadDelay pkt)))
  else if bool_decide (pkt_cmd pkt = UpgradeFailResp) then
    _ ← check (bool_decide (pkt_cmd tgt = StoreCondReq) || bool_decide (pkt_cmd tgt = StoreCondFailReq) || bool_decide (pkt_cmd tgt = SCUpgradeFailReq));
    ret (with_req tgt (setExtraData (pkt_req tgt) 0), u64 (base + pkt_payloadDelay pkt))
  else
    tgt ← (if cmd_isRead (pkt_cmd pkt) && negb is_error then
             _ ← check (pkt_addr pkt =? pkt_addr tgt);
             _ ← check (pkt_size tgt <=? pkt_size pkt);
             lift (d ← getPtr pkt; setData tgt d 0)
           else ret tgt);
    ret (tgt, u64 (base + pkt_payloadDelay pkt)).

(** A target that came from above. *)
Definition serve_cpu (i : nat) (pkt : Packet) (headerDelay initial_offset : Z) (is_error : bool) (t : Target) (r : RespLoop) (e : Env) : tm RespLoop :=
  let tgt := mp_pkt (tg_pkt t) in
  if cmd_isSWPrefetch (pkt_cmd tgt) && cp_top P then ret r
  else
    r ← (if cmd_isWriteInvalidate (pkt_cmd tgt) && cp_top P then
           _ ← check (negb is_error);
           '(b, wbs) ← fill_both i tgt (rl_blk r) e;
           ret (mkRespLoop true (Some b) (rl_wbs r ++ wbs))
         else ret r);
    '(tgt, completion_time) ← complete_target i pkt headerDelay initial_offset is_error tgt r e;
    tgt ← lift (makeResponse tgt);
    tgt ← lift (if is_error then copyError tgt pkt else Ret tgt);
    tgt ← (if bool_decide (pkt_cmd tgt = ReadResp) then
             inv ← (if cmd_isInvalidate (pkt_cmd pkt) then ret true else m ← get_mshr i; lift (hasPostInvalidate m));
             ret (if (inv : bool) then with_cmd tgt ReadRespWithInvalidate else tgt)
           else ret tgt);
    _ ← emit (SchedTimingResp (mp_with (tg_pkt t) (with_payloadDelay tgt 0)) completion_time);
    ret r.

Definition snoop_outs (l : list (Packet * Z)) : list Out := (fun x => SchedTimingSnoopResp x.1 x.2) <$> l.

(** A snoop that was deferred. *)
Definition serve_snoop (i : nat) (pkt : Packet) (is_error : bool) (t : Target) (r : RespLoop) (E : TEnv) : tm RespLoop :=
  _ ← check (negb is_error);
  m ← get_mshr i;
  pi ← lift (hasPostInvalidate m);
  _ ← check (negb (cmd_isInvalidate (pkt_cmd pkt) && negb pi));
  sched ← in_cache (fun x => '(x, _, sched) ← handleSnoop c P x (mp_pkt (tg_pkt t)) (rl_blk r) true true pi (te_up E) (te_snoopDelay E) (te E); Ret (x, sched));
  _ ← emit_all (snoop_outs sched);
  ret r.

Definition serve_target (i : nat) (pkt : Packet) (headerDelay initial_offset : Z) (is_error : bool) (t : Target) (r : RespLoop) (E : TEnv) : tm RespLoop :=
  match tg_source t with
  | FromCPU => serve_cpu i pkt headerDelay initial_offset is_error t r (te E)
  | FromPrefetcher =>
      _ ← check (bool_decide (mp_cmd (tg_pkt t) = HardPFReq));
      _ ← match rl_blk r with
          | Some b => mod_cache (fun x => set_blk x b (set_bits BlkHWPrefetched))
          | None => ret tt
          end;
      ret r
  | FromSnoop => serve_snoop i pkt is_error t r E
  end.

(** The loop over the targets; every iteration takes one of them off, and only those
    deferred can be added. *)
Fixpoint serve_targets (fuel : nat) (i : nat) (pkt : Packet) (headerDelay initial_offset : Z) (is_error : bool) (r : RespLoop) (E : TEnv) : tm RespLoop :=
  m ← get_mshr i;
  match tl_targets (targets m) with
  | [] => ret r
  | t :: _ =>
      match fuel with
      | 0%nat => lift (Err OutOfFuel)
      | Datatypes.S fuel =>
          r ← serve_target i pkt headerDelay initial_offset is_error t r E;
          _ ← set_mshr i popTarget;
          serve_targets fuel i pkt headerDelay initial_offset is_error r E
      end
  end.

(** The block after its last target: dropped, or no longer writable. *)
Definition settle_block (i : nat) (pkt : Packet) (blk : option blkref) (now : Z) : tm unit :=
  match blk with
  | None => ret tt
  | Some r =>
      s ← get;
      b ← lift (get_blk (t_cache s) r);
      if isValid b then
        m ← get_mshr i;
        inv ← (if cmd_isInvalidate (pkt_cmd pkt) then ret true else lift (hasPostInvalidate m));
        if (inv : bool) && (negb (cmd_isWriteInvalidate (pkt_cmd pkt)) || negb (cp_top P)) then
          match r with
          | Temp => lift (Err AssertFailed)
          | InTags p => mod_cache (fun x => drop_blk c x p now)
          end
        else
          pd ← lift (hasPostDowngrade m);
          if (pd : bool) then mod_cache (fun x => set_blk x r (clear_bits BlkWritable)) else ret tt
      else ret tt
  end.

(** The register asks again for its deferred targets or is released; [wasFull] tells
    whether its queue was full before. *)
Definition settle_register (i : nat) (pkt : Packet) (blk : option blkref) (wasFull : bool) (e : Env) : tm unit :=
  m ← get_mshr i;
  '(promoted, m) ← lift (promoteDeferredTargets m (ev_now e));
  _ ← set_mshr i (fun _ => m);
  s ← get;
  let k := cause_of s i in
  if (promoted : bool) then
    _ ← match blk with
        | Some r => mod_cache (fun x => set_blk x r (clear_bits BlkReadable))
        | None => ret tt
        end;
    s ← get;
    '(h, q) ← lift (markPending (t_regs s) (queue_of s k) i);
    _ ← put (t_with_queue s k h q);
    emit (RequestBus k (u64 (ev_edge e + pkt_payloadDelay pkt)))
  else
    '(h, q) ← lift (deallocateOne (t_regs s) (queue_of s k) i);
    _ ← put (t_with_queue s k h q);
    _ ← (if wasFull && negb (isFull q) then clearBlocked k (ev_now e) else ret tt);
    s ← get;
    match prefetcher s with
    | Some pf =>
        if bool_decide (k = Cause_MSHRs) && canPrefetch (mshrQueue s) then
          let next_pf_time := Z.max (pf_ready pf) (ev_now e) in
          if next_pf_time =? MaxTick then ret tt else emit (RequestBus Request_PF next_pf_time)
        else ret tt
    | None => ret tt
    end.

(** The temporary block is written back and cleared. *)
Definition flush_temp (blk : option blkref) (forward_time now : Z) : tm unit :=
  match blk with
  | Some Temp =>
      s ← get;
      _ ← (if isDirty (tempBlock (t_cache s)) then
             wb ← in_cache (fun x => writebackBlk c x Temp now);
             write_buffers [wb] forward_time now
           else ret tt);
      mod_cache (fun x => set_blk x Temp CacheBlk_invalidate)
  | _ => ret tt
  end.

(** [Cache::recvTimingResp]; [sender] is the register of the packet's sender state. *)
Definition cache_recvTimingResp (pkt : Packet) (sender : option nat) (headerDelay : Z) (E : TEnv) : tm unit :=
  let e := te E in
  _ ← check (cmd_isResponse (pkt_cmd pkt));
  let is_error := cmd_isError (pkt_cmd pkt) in
  i ← lift (match sender with Some i => Ret i | None => Err AssertFailed end);
  s ← get;
  let wasFull := isFull (queue_of s (cause_of s i)) in
  _ ← (if bool_decide (noTargetMSHR s = Some i) then
         _ ← clearBlocked Blocked_NoTargets (ev_now e);
         s ← get; put (t_with_noTarget s None)
       else ret tt);
  m ← get_mshr i;
  initial_tgt ← lift (getTarget m);
  s ← get;
  blk ← lift (BaseSetAssoc_findBlock c (cs_base (t_cache s)) (pkt_addr pkt) (pkt_isSecure pkt));
  let forward_time := u64 (edge_at e (forwardLatency P) + headerDelay) in
  _ ← check_master pkt;
  let is_fill := negb (isForward m) && (cmd_isRead (pkt_cmd pkt) || bool_decide (pkt_cmd pkt = UpgradeResp)) in
  r ← (if is_fill && negb is_error then
         '(b, wbs) ← fill_both i pkt (InTags <$> blk) e;
         ret (mkRespLoop is_fill (Some b) wbs)
       else ret (mkRespLoop is_fill (InTags <$> blk) []));
  m ← get_mshr i;
  let initial_offset := getOffset (mp_pkt (tg_pkt initial_tgt)) (blkSize c) in
  r ← serve_targets (Z.to_nat (getNumTargets m)) i pkt headerDelay initial_offset is_error r E;
  _ ← settle_block i pkt (rl_blk r) (ev_now e);
  _ ← settle_register i pkt (rl_blk r) wasFull e;
  _ ← write_buffers (rl_wbs r) (edge_at e (forwardLatency P)) (ev_now e);
  flush_temp (rl_blk r) forward_time (ev_now e).

(** [Cache::recvTimingSnoopResp]; [frr] tells whether the packet carries a
    [ForwardResponseRecord]. *)
Definition cache_recvTimingSnoopResp (pkt : MPacket) (frr : bool) (headerDelay : Z) (E : TEnv) : tm unit :=
  _ ← check (cmd_isResponse (mp_cmd pkt));
  _ ← check (negb (cacheBypass P));
  if frr then emit (SchedTimingSnoopResp (with_payloadDelay (mp_pkt pkt) 0) (u64 (edge_at (te E) (forwardLatency P) + headerDelay)))
  else
    _ ← check (bool_decide (mp_cmd pkt = HardPFResp));
    cache_recvTimingResp (mp_pkt pkt) (mp_sender pkt) headerDelay E.

(** ** Snoops from below *)

(** A writeback that waits to be sent answers the snoop, and is dropped if the snoop
    invalidates. *)
Definition snoop_writeback_entry (w : nat) (p : MPacket) (headerDelay : Z) (e : Env) : tm MPacket :=
  m ← get_mshr w;
  _ ← check (negb (m_isUncacheable m));
  _ ← check (getNumTargets m =? 1);
  t ← lift (getTarget m);
  let wb_pkt := mp_pkt (tg_pkt t) in
  _ ← check (bool_decide (pkt_cmd wb_pkt = Writeback));
  _ ← check (negb (memInhibitAsserted (mp_pkt p)));
  x ← lift (assertMemInhibit (mp_pkt p));
  x ← (if negb (cmd_needsExclusive (pkt_cmd x)) then
         _ ← set_mshr w (fun m => m_with_targets m (tl_with (targets m)
               (match tl_targets (targets m) with
                | t :: l => tg_with t (mp_with (tg_pkt t) (clearSupplyExclusive (mp_pkt (tg_pkt t)))) :: l
                | [] => []
                end)));
         ret (assertShared x)
       else _ ← check (cmd_isInvalidate (pkt_cmd x)); ret x);
  d ← lift (getPtr wb_pkt);
  '(x, (resp, when)) ← lift (doTimingSupplyResponse c P x d false false headerDelay e);
  _ ← emit (SchedTimingSnoopResp resp when);
  _ ← (if cmd_isInvalidate (pkt_cmd x) then markInService w false (ev_now e) else ret tt);
  ret (mp_with p x).

(** The packet afterwards is returned. *)
Definition cache_recvTimingSnoopReq (pkt : MPacket) (headerDelay : Z) (E : TEnv) : tm MPacket :=
  let e := te E in
  let p := mp_pkt pkt in
  _ ← check (negb (cacheBypass P));
  if bool_decide (pkt_cmd p = Writeback) || negb (inRange P (pkt_addr p)) then ret pkt
  else
    s ← get;
    blk ← lift (BaseSetAssoc_findBlock c (cs_base (t_cache s)) (pkt_addr p) (pkt_isSecure p));
    let blk_addr := blockAlign c (pkt_addr p) in
    mshr ← lift (findMatch (t_regs s) (mshrQueue s) blk_addr (pkt_isSecure p));
    '(deferred, pkt) ←
      match mshr with
      | None => ret (false, pkt)
      | Some i =>
          if bool_decide (pkt_cmd p = HardPFReq) then ret (true, mp_with pkt (setBlockCached p))
          else
            o ← next_order;
            s ← get;
            '(hit, pkt, h) ← lift (MSHR_handleSnoop (t_regs s) i (ev_now e) (ev_junk e) pkt o);
            _ ← put (t_with_regs s h);
            ret (hit, pkt)
      end;
    if (deferred : bool) then ret pkt
    else
      s ← get;
      '(found, ws) ← lift (findMatches (t_regs s) (writeBuffer s) blk_addr (pkt_isSecure (mp_pkt pkt)));
      pkt ← (if (found : bool) then
               match ws with
               | [w] => snoop_writeback_entry w pkt headerDelay e
               | _ => lift (Err AssertFailed)
               end
             else ret pkt);
      '(x, sched) ← in_cache (fun st => '(st, x, sched) ← handleSnoop c P st (mp_pkt pkt) (InTags <$> blk) true false false (te_up E) headerDelay e; Ret (st, (x, sched)));
      _ ← emit_all (snoop_outs sched);
      ret (mp_with pkt x).

(** ** Requests to below *)

Definition mshr_opt (o : option nat) : tm (option (nat * MSHR)) :=
  match o with
  | Some i => m ← get_mshr i; ret (Some (i, m))
  | None => ret None
  end.

(** Nothing is pending: a prefetch takes a free register. *)
Definition next_prefetch (e : Env) : tm (option nat) :=
  s ← get;
  match prefetcher s with
  | None => ret None
  | Some pf =>
      if canPrefetch (mshrQueue s) then
        let '(pf, o) := pf_getPacket pf (ev_now e) in
        _ ← put (t_with_pf s (Some pf));
        match o with
        | None => ret None
        | Some pkt =>
            let pf_addr := blockAlign c (pkt_addr pkt) in
            blk ← lift (BaseSetAssoc_findBlock c (cs_base (t_cache s)) pf_addr (pkt_isSecure pkt));
            m ← lift (findMatch (t_regs s) (mshrQueue s) pf_addr (pkt_isSecure pkt));
            w ← lift (findMatch (t_regs s) (writeBuffer s) pf_addr (pkt_isSecure pkt));
            match blk, m, w with
            | None, None, None =>
                _ ← check_master pkt;
                i ← allocateMissBuffer (mkMPacket pkt None) (ev_now e) false (ev_now e);
                ret (Some i)
            | _, _, _ => ret None
            end
        end
      else ret None
  end.

(** A write goes unless an earlier miss of its block is pending. *)
Definition issue_write (s : TCache) (w : nat) (wm : MSHR) : tm nat :=
  conflict ← lift (findPending (t_regs s) (mshrQueue s) (m_blkAddr wm) (m_isSecure wm));
  conflict ← mshr_opt conflict;
  match conflict with
  | Some (i, m) => ret (if m_order m <? m_order wm then i else w)
  | None => ret w
  end.

(** A miss goes unless a write of its block is pending. *)
Definition issue_miss (s : TCache) (i : nat) (m : MSHR) : tm nat :=
  conflict ← lift (findPending (t_regs s) (writeBuffer s) (m_blkAddr m) (m_isSecure m));
  ret (default i conflict).

(** [Cache::getNextMSHR]. *)
Definition cache_getNextMSHR (e : Env) : tm (option nat) :=
  s ← get;
  miss ← lift (getNextMSHR (t_regs s) (mshrQueue s) (ev_now e));
  write ← lift (getNextMSHR (t_regs s) (writeBuffer s) (ev_now e));
  miss ← mshr_opt miss;
  write ← mshr_opt write;
  match write, miss with
  | Some (w, wm), None => r ← issue_write s w wm; ret (Some r)
  | Some (w, wm), Some (i, im) =>
      r ← (if isFull (writeBuffer s) && (inServiceEntries (writeBuffer s) =? 0) then issue_write s w wm else issue_miss s i im);
      ret (Some r)
  | None, Some (i, im) => r ← issue_miss s i im; ret (Some r)
  | None, None => next_prefetch e
  end.

(** A hardware prefetch asks the caches above first; [true] if it ends there. *)
Definition prefetch_squashed (i : nat) (tgt : Packet) (present : bool) (E : TEnv) : tm bool :=
  let e := te E in
  let snoop_pkt := te_up E (setExpressSnoop (copy_packet tgt true None)) in
  if memInhibitAsserted snoop_pkt then
    _ ← markInService i (negb (sharedAsserted snoop_pkt)) (ev_now e);
    ret true
  else if isBlockCached snoop_pkt || present then
    s ← get;
    let k := cause_of s i in
    '(freed, h, q) ← lift (forceDeallocateTarget (t_regs s) (queue_of s k) i (ev_now e));
    _ ← put (t_with_queue s k h q);
    _ ← (if (freed : bool) then clearBlocked k (ev_now e) else ret tt);
    ret true
  else ret false.

(** The packet for a register: its request, or a packet of the cache's own. *)
Definition bus_packet (i : nat) (tgt : MPacket) (blk : option nat) (e : Env) : tm Packet :=
  s ← get;
  m ← get_mshr i;
  pkt ← lift (getBusPacket c (t_cache s) (mp_pkt tgt) blk (tl_needsExclusive (targets m)) (ev_junk e));
  _ ← set_mshr i (fun m => m_with_forward m (match pkt with None => true | Some _ => false end));
  match pkt with
  | Some pkt => ret pkt
  | None =>
      let pkt := copy_packet (mp_pkt tgt) false (Some (ev_junk e)) in
      if cmd_isWrite (pkt_cmd pkt) then lift (d ← getPtr (mp_pkt tgt); setData pkt d 0) else ret pkt
  end.

(** [Cache::getTimingPacket], with the register the packet belongs to. *)
Definition getTimingPacket (E : TEnv) : tm (option (nat * Packet)) :=
  let e := te E in
  o ← cache_getNextMSHR e;
  match o with
  | None => ret None
  | Some i =>
      m ← get_mshr i;
      t ← lift (getTarget m);
      let tgt := tg_pkt t in
      s ← get;
      fwd ← lift (isForwardNoResponse m);
      blk ← lift (BaseSetAssoc_findBlock c (cs_base (t_cache s)) (m_blkAddr m) (m_isSecure m));
      if (fwd : bool) then
        _ ← check (match blk with None => true | Some _ => false end);
        ret (Some (i, mp_pkt tgt))
      else
        squashed ← (if bool_decide (mp_cmd tgt = HardPFReq) && forwardSnoops P
                    then prefetch_squashed i (mp_pkt tgt) (match blk with Some _ => true | None => false end) E
                    else ret false);
        if (squashed : bool) then ret None
        else pkt ← bus_packet i tgt blk e; ret (Some (i, pkt))
  end.

(** [Cache::nextMSHRReadyTime]. *)
Definition cache_nextMSHRReadyTime : tm Z :=
  s ← get;
  m ← lift (nextMSHRReadyTime (t_regs s) (mshrQueue s));
  w ← lift (nextMSHRReadyTime (t_regs s) (writeBuffer s));
  let t := Z.min m w in
  ret (match prefetcher s with Some pf => if canPrefetch (mshrQueue s) then Z.min t (pf_ready pf) else t | None => t end).

(** [CacheReqPacketQueue::sendDeferredPacket]: the queue itself is always empty. *)
Definition cache_sendDeferredPacket (E : TEnv) : tm unit :=
  s ← get;
  _ ← check (negb (t_waiting s));
  o ← getTimingPacket E;
  held ← match o with
         | None => ret false
         | Some (i, pkt) =>
             if te_hasAddr E (pkt_addr pkt) then _ ← emit (SchedSendEvent (te_snoopReady E)); ret true
             else
               let p := mkMPacket pkt (Some i) in
               let '(ok, p') := te_send E p in
               _ ← emit (SendTimingReq p);
               s ← get;
               _ ← put (t_with_waiting s (negb ok));
               _ ← (if (ok : bool) then
                      markInService i (negb (sharedAsserted (mp_pkt p')) && memInhibitAsserted (mp_pkt p')) (ev_now (te E))
                    else ret tt);
               ret false
         end;
  if (held : bool) then ret tt
  else
    s ← get;
    if t_waiting s then ret tt else t ← cache_nextMSHRReadyTime; emit (SchedSendEvent t).

(** The retry from below. *)
Definition cache_recvReqRetry (E : TEnv) : tm unit :=
  s ← get;
  _ ← check (t_waiting s);
  _ ← put (t_with_waiting s false);
  cache_sendDeferredPacket E.

(** ** Functional accesses *)

(** Where an access goes on: to below, or as a snoop to above. *)
Inductive Forward := ToBelow | ToAbove.

(** A block that is present is looked at, and written by a functional write: whether
    it satisfies the access. *)
Definition functional_block (pkt : Packet) (blk : option nat) : tm (bool * Packet) :=
  match blk with
  | None => ret (false, pkt)
  | Some p =>
      s ← get;
      b ← lift (get_blk (t_cache s) (InTags p));
      if isValid b then
        d ← lift (get_data (t_cache s) (InTags p));
        '(done, pkt, d) ← lift (checkFunctional pkt (blockAlign c (pkt_addr pkt)) (pkt_isSecure pkt) (blkSize c) (Some d));
        _ ← match d with
            | Some d => mod_cache (fun x => set_data x (InTags p) d)
            | None => ret tt
            end;
        ret (done, pkt)
      else ret (false, pkt)
  end.

(** The data is dirty, or will be when the upgrade that is under way completes. *)
Definition functional_dirty (blk mshr : option nat) : tm bool :=
  s ← get;
  dirty ← match blk with Some p => b ← lift (get_blk (t_cache s) (InTags p)); ret (isDirty b) | None => ret false end;
  if (dirty : bool) then ret true
  else match mshr with
       | Some i => m ← get_mshr i; if inService m then lift (isPendingDirty m) else ret false
       | None => ret false
       end.

(** The queues of registers and of the ports, in order, up to the first that satisfies
    the access; those of the ports are arguments. *)
Definition functional_queues (pkt : Packet) (blk_addr : Z) (cpu_q mem_q : Packet -> res (bool * Packet)) : tm (bool * Packet) :=
  '(done, pkt) ← lift (cpu_q pkt);
  if (done : bool) then ret (true, pkt)
  else
    s ← get;
    '(done, pkt, h) ← lift (MSHRQueue_checkFunctional (t_regs s) (mshrQueue s) pkt blk_addr);
    _ ← put (t_with_regs s h);
    if (done : bool) then ret (true, pkt)
    else
      s ← get;
      '(done, pkt, h) ← lift (MSHRQueue_checkFunctional (t_regs s) (writeBuffer s) pkt blk_addr);
      _ ← put (t_with_regs s h);
      if (done : bool) then ret (true, pkt) else lift (mem_q pkt).

(** [Cache::functionalAccess]: the packet, and where it goes. *)
Definition cache_functionalAccess (pkt : Packet) (fromCpuSide snooping : bool) (cpu_q mem_q : Packet -> res (bool * Packet)) : tm (Packet * option Forward) :=
  if cacheBypass P then _ ← check fromCpuSide; ret (pkt, Some ToBelow)
  else
    let blk_addr := blockAlign c (pkt_addr pkt) in
    s ← get;
    blk ← lift (BaseSetAssoc_findBlock c (cs_base (t_cache s)) (pkt_addr pkt) (pkt_isSecure pkt));
    mshr ← lift (findMatch (t_regs s) (mshrQueue s) blk_addr (pkt_isSecure pkt));
    '(have_data, pkt) ← functional_block pkt blk;
    have_dirty ← (if (have_data : bool) then functional_dirty blk mshr else ret false);
    '(done, pkt) ← (if (have_dirty : bool) then ret (true, pkt) else functional_queues pkt blk_addr cpu_q mem_q);
    if (done : bool) then r ← lift (makeResponse pkt); ret (r, None)
    else if fromCpuSide then ret (pkt, Some ToBelow)
    else ret (pkt, if forwardSnoops P && snooping then Some ToAbove else None).

(** The constructor of [BaseCache]: the registers of the queues are added to the store. *)
Definition BaseCache_new (x : cache) (h : mshrs) (mshrs_ write_buffers_ demand_reserve : Z) (pf : option PF) : TCache :=
  let '(mq, h) := MSHRQueue_new h mshrs_ 4 demand_reserve in
  let '(wb, h) := MSHRQueue_new h write_buffers_ (mshrs_ + 1000) 0 in
  mkTCache x h mq wb 0 0 None (mkSlavePort false false None) false pf.
End timing.
