(* ===== verification/CacheTimingSpec.v ===== *)
(** * The blocking of a cache in timing mode

    A cache refuses requests while one of its queues is full or a register can take no
    more targets, and owes the processor a retry afterwards.  The handlers are walked
    through with a rule per construct of their monad; most of them do not touch the
    queues and the port at all. *)

From S2P Require Import Prelude Handler IntMath AddrRange Packet CacheBlk TagStore SatCounter LruTags Cache CacheSpec Mshr MshrQueue CacheAtomic CacheTiming.
Local Open Scope Z_scope.

Create HintDb frames.
Create HintDb keeps.
Create HintDb rooms.

(** ** Occupancy of the queues *)

Lemma allocate_full h q now a n p t o i h' q' : MSHRQueue_allocate h q now a n p t o = Ret (i, h', q') -> isFull q = true -> isFull q' = true.
Proof.
  unfold MSHRQueue_allocate. destruct (freeList q) as [|x free]; [done|]. rewrite bind_Ret. intros (m & _ & E). apply bind_Ret in E as ([] & _ & E).
  apply bind_Ret in E as (h1 & _ & E). apply bind_Ret in E as (r & _ & [= <- <- <-]). unfold isFull. cbn. rewrite !Z.ltb_lt. lia.
Qed.

Lemma deallocate_full h q i h' q' : deallocateOne h q i = Ret (h', q') -> isFull q = false -> isFull q' = false.
Proof.
  unfold deallocateOne. rewrite bind_Ret. intros (a & _ & E). apply bind_Ret in E as (m & _ & E). apply bind_Ret in E as (r & _ & E).
  apply bind_Ret in E as (m' & _ & E). apply bind_Ret in E as (h1 & _ & E).
  destruct (drainManager _ && _); injection E as <- <-; unfold isFull; cbn; rewrite !Z.ltb_ge; lia.
Qed.

Lemma markInService_full h q i b h' q' : MSHRQueue_markInService h q i b = Ret (h', q') -> isFull q = false -> isFull q' = false.
Proof.
  unfold MSHRQueue_markInService. rewrite bind_Ret. intros ([fwd h1] & _ & E). destruct fwd; [by eapply deallocate_full|].
  apply bind_Ret in E as (r & _ & [= <- <-]). done.
Qed.

Lemma markPending_full h q i h' q' : markPending h q i = Ret (h', q') -> isFull q' = isFull q.
Proof.
  unfold markPending. rewrite bind_Ret. intros (m & _ & E). apply bind_Ret in E as ([] & _ & E). apply bind_Ret in E as (h1 & _ & E).
  apply bind_Ret in E as (r & _ & [= <- <-]). done.
Qed.

Lemma force_full h q i now b h' q' : forceDeallocateTarget h q i now = Ret (b, h', q') -> b = isFull q && negb (isFull q') /\ (isFull q = false -> isFull q' = false).
Proof.
  unfold forceDeallocateTarget. rewrite bind_Ret. intros (m & _ & E). apply bind_Ret in E as ([] & _ & E). apply bind_Ret in E as (h1 & _ & E).
  apply bind_Ret in E as ([h2 q2] & E2 & [= <- <- <-]). split; [done|]. destruct (negb (hasTargets (popTarget m))); [|by injection E2 as <- <-].
  apply bind_Ret in E2 as ([pr m2] & _ & E2). apply bind_Ret in E2 as (h3 & _ & E2). destruct pr; [by injection E2 as <- <-|by eapply deallocate_full].
Qed.

(** ** Walking through a handler *)

Section spec.
Context {S : Type} `{TP : TagPolicy S} (c : TagsConfig) (P : CacheParams) (Q : TimingParams).
Context {PF : Type} (pf_notify : PF -> Packet -> PF * Z) (pf_getPacket : PF -> Z -> PF * option Packet) (pf_ready : PF -> Z).

Abbreviation cache := (CacheState S).
Abbreviation TCache := (@CacheTiming.TCache S PF).
Abbreviation tm := (handler TCache Out).

(** The queues, the flags and the port above. *)
Definition parts (s : TCache) := (mshrQueue s, writeBuffer s, t_blocked s, noTargetMSHR s, cpuSidePort s).

(** Parts of a handler that keep the queues are passed over by their lemma. *)
Ltac walk := repeat first [progress wstep | eapply wp_mono; [solve [eauto with frames nocore]|cbv beta; intros ? ? ?]].
Ltac framed := intros; walk; try done; unfold parts in *; cbn [mshrQueue writeBuffer t_blocked noTargetMSHR cpuSidePort t_with_cache t_with_regs t_with_order t_with_pf t_with_waiting] in *; congruence.

Lemma frame_next_order s : wp (next_order (S := S) (PF := PF)) (fun _ s' => parts s' = parts s) s.
Proof. unfold next_order. framed. Qed.
Lemma frame_get_mshr i s : wp (get_mshr i) (fun _ s' => parts s' = parts s) s.
Proof. unfold get_mshr. framed. Qed.
Lemma frame_set_mshr i f s : wp (set_mshr i f) (fun _ s' => parts s' = parts s) s.
Proof. unfold set_mshr. framed. Qed.
Lemma frame_in_cache {A} (f : cache -> res (cache * A)) s : wp (in_cache f) (fun _ s' => parts s' = parts s) s.
Proof. unfold in_cache. framed. Qed.
Lemma frame_mod_cache f s : wp (mod_cache f) (fun _ s' => parts s' = parts s) s.
Proof. apply frame_in_cache. Qed.

#[local] Hint Resolve frame_next_order frame_get_mshr frame_set_mshr frame_in_cache frame_mod_cache : frames.

Lemma frame_notify pkt t s : wp (notify pf_notify pkt t) (fun _ s' => parts s' = parts s) s.
Proof. unfold notify. framed. Qed.
Lemma frame_check_master pkt s : wp (check_master c pkt) (fun _ s' => parts s' = parts s) s.
Proof. unfold check_master. framed. Qed.
#[local] Hint Resolve frame_notify frame_check_master : frames.

Lemma frame_inhibited pkt E s : wp (req_inhibited pkt E) (fun _ s' => parts s' = parts s) s.
Proof. unfold req_inhibited. framed. Qed.
Lemma frame_hit pkt blk t s : wp (req_hit Q pf_notify pkt blk t) (fun _ s' => parts s' = parts s) s.
Proof. unfold req_hit. framed. Qed.
Lemma frame_soft pkt m t e s : wp (soft_prefetch pkt m t e) (fun _ s' => parts s' = parts s) s.
Proof. unfold soft_prefetch. framed. Qed.
Lemma frame_fill i pkt blk e s : wp (fill_both c P i pkt blk e) (fun _ s' => parts s' = parts s) s.
Proof. unfold fill_both. framed. Qed.
#[local] Hint Resolve frame_inhibited frame_hit frame_soft frame_fill : frames.

Lemma frame_complete i pkt hd off err tgt r e s : wp (complete_target c P Q i pkt hd off err tgt r e) (fun _ s' => parts s' = parts s) s.
Proof. unfold complete_target. framed. Qed.
#[local] Hint Resolve frame_complete : frames.
Lemma frame_serve_cpu i pkt hd off err t r e s : wp (serve_cpu c P Q i pkt hd off err t r e) (fun _ s' => parts s' = parts s) s.
Proof. unfold serve_cpu. framed. Qed.
Lemma frame_serve_snoop i pkt err t r E s : wp (serve_snoop c P i pkt err t r E) (fun _ s' => parts s' = parts s) s.
Proof. unfold serve_snoop. framed. Qed.
#[local] Hint Resolve frame_serve_cpu frame_serve_snoop : frames.
Lemma frame_serve_target i pkt hd off err t r E s : wp (serve_target c P Q i pkt hd off err t r E) (fun _ s' => parts s' = parts s) s.
Proof. unfold serve_target. framed. Qed.
#[local] Hint Resolve frame_serve_target : frames.
Lemma frame_serve_targets fuel i pkt hd off err r E s : wp (serve_targets c P Q fuel i pkt hd off err r E) (fun _ s' => parts s' = parts s) s.
Proof. revert r s. induction fuel as [|fuel IH]; intros r s; cbn [serve_targets]; framed. Qed.
Lemma frame_settle_block i pkt blk now s : wp (settle_block c P i pkt blk now) (fun _ s' => parts s' = parts s) s.
Proof. unfold settle_block. framed. Qed.
#[local] Hint Resolve frame_serve_targets frame_settle_block : frames.

(** ** Blocking *)

Definition owes (s : TCache) : bool := mustSendRetry (cpuSidePort s).
Definition stuck (s : TCache) : bool := bool_decide (is_Some (noTargetMSHR s)).

(** The flags of the causes that hold: a full queue, a register with no room. *)
Definition flags (m w n : bool) : Z :=
  Z.lor (if m then cause_bit Cause_MSHRs else 0) (Z.lor (if w then cause_bit Cause_WriteBuffer else 0) (if n then cause_bit Blocked_NoTargets else 0)).
Definition blocked_bits (s : TCache) : Z := flags (isFull (mshrQueue s)) (isFull (writeBuffer s)) (stuck s).

(** The port is blocked while a flag is up, a retry that is owed is on its way unless
    the port is blocked, and no other is. *)
Record port_ok (z : Z) (p : CacheSlavePort) : Prop := {
  po_blocked : sp_blocked p = negb (z =? 0);
  po_owed : mustSendRetry p = true -> sp_blocked p = true \/ is_Some (sendRetryEvent p);
  po_event : is_Some (sendRetryEvent p) -> mustSendRetry p = true /\ sp_blocked p = false
}.
Record blocking_ok (s : TCache) : Prop := {
  bl_bits : t_blocked s = blocked_bits s;
  bl_port : port_ok (t_blocked s) (cpuSidePort s)
}.

(** What a handler keeps that owes no new retry and sends none. *)
Definition ok_from (b : bool) (s : TCache) : Prop := blocking_ok s /\ owes s = b.

Lemma parts_inv s s' : parts s' = parts s ->
  mshrQueue s' = mshrQueue s /\ writeBuffer s' = writeBuffer s /\ t_blocked s' = t_blocked s /\ noTargetMSHR s' = noTargetMSHR s /\ cpuSidePort s' = cpuSidePort s.
Proof.
  intros E. split_and!; [exact (f_equal (fun x => x.1.1.1.1) E)|exact (f_equal (fun x => x.1.1.1.2) E)|exact (f_equal (fun x => x.1.1.2) E)
    |exact (f_equal (fun x => x.1.2) E)|exact (f_equal (fun x => x.2) E)].
Qed.

Lemma ok_parts b s s' : parts s' = parts s -> ok_from b s -> ok_from b s'.
Proof.
  intros (E1 & E2 & E3 & E4 & E5)%parts_inv [[H1 H2] H3]. unfold ok_from, owes in *. rewrite E5. split; [|done].
  split; unfold blocked_bits, stuck in *; [by rewrite E1, E2, E3, E4|by rewrite E3, E5].
Qed.

Definition with_flag (k : Cause) (b : bool) (m w n : bool) : Z :=
  match k with Cause_MSHRs => flags b w n | Cause_WriteBuffer => flags m b n | Cause_Other => flags m w b end.

Lemma set_flag k m w n : Z.lor (flags m w n) (cause_bit k) = with_flag k true m w n.
Proof. by destruct k, m, w, n. Qed.
Lemma clear_flag k m w n : Z.land (flags m w n) (wnot 8 (cause_bit k)) = with_flag k false m w n.
Proof. by destruct k, m, w, n. Qed.
Lemma with_flag_up k m w n : with_flag k true m w n =? 0 = false.
Proof. by destruct k, m, w, n. Qed.

(** The flags may be set again, and cleared when the port is blocked: neither assertion
    of the port fails, and a retry stays owed. *)
Lemma set_total s k m w n : t_blocked s = flags m w n -> port_ok (t_blocked s) (cpuSidePort s) ->
  exists p, setBlocked k s = Ret (tt, t_with_blocked s (with_flag k true m w n) p, []) /\
    port_ok (with_flag k true m w n) p /\ mustSendRetry p = owes s.
Proof.
  intros Ez [H1 H2 H3]. unfold setBlocked, mbind, handler_bind, get, owes. rewrite Ez, set_flag in *.
  assert (Hup : forall p, sp_blocked p = true -> sendRetryEvent p = None -> port_ok (with_flag k true m w n) p)
    by (intros p E1 E2; split; rewrite ?with_flag_up, ?E2; [done|by left|by intros []]).
  destruct (flags m w n =? 0) eqn:E; cbn [negb] in H1.
  - unfold lift, port_setBlocked. rewrite H1. cbn [negb cassert]. bsimpl.
    destruct (sendRetryEvent (cpuSidePort s)) eqn:Ee; eexists; (split; [reflexivity|]); (split; [by apply Hup|]); cbn; [|done].
    by destruct (H3 ltac:(eauto)) as [-> _].
  - eexists. split; [reflexivity|]. split; [|done]. apply Hup; [done|]. destruct (sendRetryEvent (cpuSidePort s)); [|done]. destruct (H3 ltac:(eauto)). congruence.
Qed.

Lemma clear_total s k now m w n : t_blocked s = flags m w n -> port_ok (t_blocked s) (cpuSidePort s) -> flags m w n <> 0 ->
  exists p, clearBlocked k now s = Ret (tt, t_with_blocked s (with_flag k false m w n) p, []) /\
    port_ok (with_flag k false m w n) p /\ mustSendRetry p = owes s.
Proof.
  intros Ez [H1 H2 H3] Hz%Z.eqb_neq. unfold clearBlocked, mbind, handler_bind, get, owes. cbv zeta. rewrite Ez, clear_flag in *. rewrite Hz in H1. cbn [negb] in H1.
  destruct (with_flag k false m w n =? 0) eqn:E.
  - unfold lift, port_clearBlocked. rewrite H1. cbn [cassert]. bsimpl. eexists. split; [reflexivity|]. split; [|done]. split; cbn; [by rewrite E|..].
    + intros ->. right. by eexists.
    + destruct (mustSendRetry (cpuSidePort s)) eqn:Em; [done|]. intros Hs. destruct (H3 Hs). congruence.
  - eexists. split; [reflexivity|]. split; [|done]. by split; rewrite ?E.
Qed.

(** Whether the cause [k] holds. *)
Definition holds (s : TCache) (k : Cause) : bool :=
  match k with Cause_MSHRs => isFull (mshrQueue s) | Cause_WriteBuffer => isFull (writeBuffer s) | Cause_Other => stuck s end.

(** [s] once the flag of [k] agrees with the cause. *)
Definition ok_but (b : bool) (s : TCache) (k : Cause) (up : bool) : Prop :=
  t_blocked s = with_flag k up (isFull (mshrQueue s)) (isFull (writeBuffer s)) (stuck s) /\ port_ok (t_blocked s) (cpuSidePort s) /\ owes s = b.

Lemma ok_but_iff b s k : ok_from b s <-> ok_but b s k (holds s k).
Proof. split; [intros [[H1 H2] H3]; split_and!; [|done|done]|intros (H1 & H2 & H3); split; [split|]; [|done|done]]; unfold blocked_bits in *; by destruct k. Qed.

Lemma with_flag_flags k b m w n : exists m' w' n', with_flag k b m w n = flags m' w' n' /\ forall b', with_flag k b' m' w' n' = with_flag k b' m w n.
Proof. destruct k; (do 3 eexists; split; [reflexivity|]); done. Qed.

Lemma wp_set b s k up : ok_but b s k up -> holds s k = true -> wp (setBlocked k) (fun _ s' => ok_from b s') s.
Proof.
  intros (H1 & H2 & H3) Hk. destruct (with_flag_flags k up (isFull (mshrQueue s)) (isFull (writeBuffer s)) (stuck s)) as (m & w & n & E & E').
  rewrite E in H1. destruct (set_total s k m w n H1 H2) as (p & Ep & Hp & Hm). intros ? ? ? Er. rewrite Ep in Er. injection Er as <- <- <-. apply (ok_but_iff _ _ k).
  replace (holds (t_with_blocked s (with_flag k true m w n) p) k) with true by (by destruct k). split_and!; cbn; [by rewrite E'|done|]. unfold owes in *. cbn. congruence.
Qed.

Lemma wp_clear b s k now : ok_but b s k true -> wp (clearBlocked k now) (fun _ s' => ok_but b s' k false /\ mshrQueue s' = mshrQueue s /\ writeBuffer s' = writeBuffer s /\ noTargetMSHR s' = noTargetMSHR s) s.
Proof.
  intros (H1 & H2 & H3). destruct (with_flag_flags k true (isFull (mshrQueue s)) (isFull (writeBuffer s)) (stuck s)) as (m & w & n & E & E').
  pose proof (with_flag_up k (isFull (mshrQueue s)) (isFull (writeBuffer s)) (stuck s)) as Hne. rewrite E in *. apply Z.eqb_neq in Hne.
  destruct (clear_total s k now m w n H1 H2 Hne) as (p & Ep & Hp & Hm). intros ? ? ? Er. rewrite Ep in Er. injection Er as <- <- <-.
  split; [|done]. split_and!; cbn; [by rewrite E'|done|]. unfold owes in *. cbn. congruence.
Qed.

(** A queue is replaced: the flag is the old one. *)
Lemma ok_queue b s k h q : ok_from b s -> k <> Cause_Other -> ok_but b (t_with_queue s k h q) k (isFull (queue_of s k)).
Proof. intros H%(ok_but_iff _ _ k) Hk. by destruct k. Qed.

Lemma holds_queue s k h q : k <> Cause_Other -> holds (t_with_queue s k h q) k = isFull q.
Proof. by destruct k. Qed.

Lemma ok_same b s k h q : ok_from b s -> k <> Cause_Other -> isFull q = isFull (queue_of s k) -> ok_from b (t_with_queue s k h q).
Proof. intros H Hk E. apply (ok_but_iff _ _ k). rewrite holds_queue, E by done. by apply ok_queue. Qed.

Lemma wp_fill_queue b s k h q : ok_from b s -> k <> Cause_Other -> (isFull (queue_of s k) = true -> isFull q = true) ->
  wp (if isFull q then setBlocked k else ret tt) (fun _ s' => ok_from b s') (t_with_queue s k h q).
Proof.
  intros H Hk Hq. destruct (isFull q) eqn:E.
  - eapply wp_set; [by apply ok_queue|]. by rewrite holds_queue.
  - apply wp_ret, ok_same; [done..|]. rewrite E. destruct (isFull (queue_of s k)); [by discriminate Hq|done].
Qed.

Lemma wp_drain_queue b s k h q now : ok_from b s -> k <> Cause_Other -> (isFull (queue_of s k) = false -> isFull q = false) ->
  wp (if isFull (queue_of s k) && negb (isFull q) then clearBlocked k now else ret tt) (fun _ s' => ok_from b s') (t_with_queue s k h q).
Proof.
  intros H Hk Hq. destruct (isFull (queue_of s k)) eqn:E; cbn [andb].
  - destruct (isFull q) eqn:Eq; cbn [negb]; [apply wp_ret, ok_same; [done..|congruence]|].
    eapply wp_mono; [eapply wp_clear; rewrite <- E; by apply ok_queue|]. cbv beta. intros _ s' (Hb & E1 & E2 & E3). apply (ok_but_iff _ _ k).
    replace (holds s' k) with false; [done|]. destruct k; cbn in *; congruence.
  - apply wp_ret, ok_same; [done..|]. rewrite E. by apply Hq.
Qed.

Lemma cause_of_queue (s : TCache) i : cause_of s i <> Cause_Other.
Proof. unfold cause_of. by destruct (in_wb s i). Qed.

(** The handlers that keep [ok_from]. *)
Definition keeps {A} (m : tm A) : Prop := forall b s, ok_from b s -> wp m (fun _ s' => ok_from b s') s.

Lemma keeps_frame {A} (m : tm A) : (forall s, wp m (fun _ s' => parts s' = parts s) s) -> keeps m.
Proof. intros H b s Hs. eapply wp_mono; [apply H|]. cbv beta. intros a s' E. by eapply ok_parts. Qed.
Lemma keeps_ret {A} (a : A) : keeps (ret a).
Proof. intros b s Hs. by apply wp_ret. Qed.
Lemma keeps_lift {A} (r : res A) : keeps (lift r).
Proof. intros b s Hs. by apply wp_lift. Qed.
Lemma keeps_check x : keeps (check x).
Proof. intros b s Hs. by apply wp_check. Qed.
Lemma keeps_emit x : keeps (emit x).
Proof. intros b s Hs. by apply wp_emit. Qed.
Lemma keeps_emit_all x : keeps (emit_all x).
Proof. intros b s Hs. by apply wp_emit_all. Qed.
Lemma keeps_bind {A B} (m : tm A) (f : A -> tm B) : keeps m -> (forall a, keeps (f a)) -> keeps (mbind f m).
Proof. intros Hm Hf b s Hs. apply wp_bind. eapply wp_mono; [by apply Hm|]. cbv beta. intros a s' Hs'. by apply Hf. Qed.
(** Reading the state, and writing it back with the same queues, flags and port. *)
Lemma keeps_get {B} (f : TCache -> tm B) : (forall b s, ok_from b s -> wp (f s) (fun _ s' => ok_from b s') s) -> keeps (mbind f get).
Proof. intros Hf b s Hs. apply wp_bind, wp_get. by apply Hf. Qed.

Ltac same_parts := first [reflexivity | assumption | (unfold parts in *; cbn in *; congruence)].

Ltac kstep :=
  lazymatch goal with
  | |- keeps (mbind _ get) => apply keeps_get; intros ? ? ?
  | |- keeps (mbind _ _) => apply keeps_bind; [|intros ?]
  | |- keeps (let '_ := ?x in _) => destruct x eqn:?
  | |- keeps (if ?b then _ else _) => destruct b eqn:?
  | |- keeps (match ?x with _ => _ end) => destruct x eqn:?
  | |- keeps (ret _) => apply keeps_ret
  | |- keeps (lift _) => apply keeps_lift
  | |- keeps (check _) => apply keeps_check
  | |- keeps (emit _) => apply keeps_emit
  | |- keeps (emit_all _) => apply keeps_emit_all
  | |- keeps _ => solve [eauto with keeps nocore]
  | Hs : ok_from ?b ?s |- wp (mbind _ (put ?s')) _ ?s0 => apply wp_bind, wp_put; pose proof (ok_parts b s s' ltac:(same_parts) Hs)
  | Hs : ok_from ?b ?s |- wp (put ?s') _ _ => apply wp_put; exact (ok_parts b s s' ltac:(same_parts) Hs)
  | |- wp (mbind _ (lift _)) _ _ => apply wp_bind, wp_lift; intros ? ?
  | |- wp (mbind _ (check _)) _ _ => apply wp_bind, wp_check; intros ?
  | |- wp (let '_ := ?x in _) _ _ => destruct x eqn:?
  | |- wp (if ?b then _ else _) _ _ => destruct b eqn:?
  | |- wp (match ?x with _ => _ end) _ _ => destruct x eqn:?
  | Hs : ok_from ?b ?s |- wp _ _ ?s => refine ((_ : keeps _) b s Hs); clear Hs
  end.

#[local] Hint Resolve frame_next_order frame_get_mshr frame_set_mshr frame_in_cache frame_mod_cache frame_notify frame_check_master frame_inhibited frame_hit
  frame_soft frame_fill frame_serve_targets frame_settle_block keeps_frame : keeps.

Lemma keeps_allocate k addr size pkt time rb now : k <> Cause_Other -> keeps (allocateBufferInternal c k addr size pkt time rb now).
Proof.
  intros Hk. unfold allocateBufferInternal. kstep; [kstep|]. kstep; [kstep|]. do 2 kstep.
  destruct a1 as [[i h] q]. apply wp_bind, wp_put, wp_bind. eapply wp_mono.
  - apply wp_fill_queue; [done..|]. intros Hf. by eapply allocate_full.
  - cbv beta. intros _ s' Hs'. revert Hs'. generalize b. clear. intros b Hs. repeat kstep.
Qed.

Lemma keeps_miss_buffer pkt time rb now : keeps (allocateMissBuffer c pkt time rb now).
Proof. by apply keeps_allocate. Qed.
Lemma keeps_write_buffer pkt time rb now : keeps (allocateWriteBuffer c pkt time rb now).
Proof. unfold allocateWriteBuffer. kstep; [kstep|]. by apply keeps_allocate. Qed.
#[local] Hint Resolve keeps_miss_buffer keeps_write_buffer : keeps.
Lemma keeps_write_buffers wbs time now : keeps (write_buffers c wbs time now).
Proof. induction wbs as [|w wbs IH]; cbn [write_buffers]; repeat kstep. Qed.

Lemma keeps_service i d now : keeps (markInService i d now).
Proof.
  unfold markInService. do 2 kstep. destruct a as [h q]. apply wp_bind, wp_put. apply wp_drain_queue; [done|apply cause_of_queue|].
  intros Hf. by eapply markInService_full.
Qed.
#[local] Hint Resolve keeps_write_buffers keeps_service : keeps.

(** A register has no room for more: the port is blocked. *)
Lemma keeps_coalesce i pkt t e : keeps (coalesce c Q pf_notify i pkt t e).
Proof.
  unfold coalesce. repeat kstep. apply wp_bind, wp_put. eapply (wp_set _ _ _ (stuck s0)); [|done]. exact (proj1 (ok_but_iff _ _ Cause_Other) H1).
Qed.
Lemma keeps_new_miss pkt blk t e : keeps (new_miss c pf_notify pkt blk t e).
Proof. unfold new_miss. repeat kstep. Qed.
#[local] Hint Resolve keeps_coalesce keeps_new_miss : keeps.
Lemma keeps_miss pkt blk t u e : keeps (req_miss c P Q pf_notify pkt blk t u e).
Proof. unfold req_miss. repeat kstep. Qed.
#[local] Hint Resolve keeps_miss : keeps.
Lemma keeps_req pkt hd E : keeps (cache_recvTimingReq c P Q pf_notify pkt hd E).
Proof. unfold cache_recvTimingReq. repeat kstep. Qed.
#[local] Hint Resolve keeps_req : keeps.

(** *** Responses *)

(** Whether the queue of a register is full. *)
Definition full_of (s : TCache) (i : nat) : bool := isFull (queue_of s (cause_of s i)).

Lemma full_of_parts s s' i : parts s' = parts s -> full_of s' i = full_of s i.
Proof. intros (E1 & E2 & _)%parts_inv. unfold full_of, cause_of, in_wb, queue_of. by rewrite E1, E2. Qed.

Lemma cause_of_parts s s' i : parts s' = parts s -> cause_of s' i = cause_of s i.
Proof. intros (_ & E2 & _)%parts_inv. unfold cause_of, in_wb. by rewrite E2. Qed.

Lemma settle_ok b s i pkt blk e : ok_from b s -> wp (settle_register pf_ready i pkt blk (full_of s i) e) (fun _ s' => ok_from b s') s.
Proof.
  intros Hs. unfold settle_register. apply wp_bind. eapply wp_mono; [apply frame_get_mshr|]. cbv beta. intros m s1 E1.
  apply wp_bind, wp_lift. intros [promoted m'] _. apply wp_bind. eapply wp_mono; [apply frame_set_mshr|]. cbv beta. intros _ s2 E2.
  apply wp_bind, wp_get. cbv zeta. assert (E : parts s2 = parts s) by congruence. assert (Hs2 : ok_from b s2) by (by eapply ok_parts).
  destruct promoted.
  - apply wp_bind. assert (Hf : wp (match blk with Some r => mod_cache (fun x => set_blk x r (clear_bits BlkReadable)) | None => ret tt end) (fun _ s' => parts s' = parts s2) s2)
      by (destruct blk; [apply frame_mod_cache|by apply wp_ret]).
    eapply wp_mono; [exact Hf|]. cbv beta. intros _ s3 E3. apply wp_bind, wp_get, wp_bind, wp_lift. intros [h q] Eq%markPending_full.
    apply wp_bind, wp_put. apply wp_emit. apply ok_same; [by eapply ok_parts|apply cause_of_queue|done].
  - apply wp_bind, wp_lift. intros [h q] Eq. apply wp_bind, wp_put, wp_bind. rewrite <- (full_of_parts s s2 i E). eapply wp_mono.
    + apply wp_drain_queue; [done|apply cause_of_queue|]. by eapply deallocate_full.
    + cbv beta. intros _ s4 H4. repeat kstep.
Qed.

Lemma keeps_flush blk t now : keeps (flush_temp c blk t now).
Proof. unfold flush_temp. repeat kstep. Qed.
#[local] Hint Resolve keeps_flush : keeps.

(** The response of the register that ran out of room. *)
Lemma unstick_ok b s i now : ok_from b s ->
  wp (if bool_decide (noTargetMSHR s = Some i) then _ ← clearBlocked Blocked_NoTargets now; s ← get; put (t_with_noTarget s None) else ret tt)
    (fun _ s' => ok_from b s' /\ full_of s' i = full_of s i) s.
Proof.
  intros Hs. case_bool_decide as E; [|by apply wp_ret]. apply wp_bind. eapply wp_mono.
  - apply (wp_clear b). replace true with (holds s Cause_Other); [by apply (ok_but_iff _ _ Cause_Other)|]. cbn. unfold stuck. by rewrite E.
  - cbv beta. intros _ s' ((H1 & H2 & H3) & E1 & E2 & E3). apply wp_bind, wp_get, wp_put. split.
    + apply (ok_but_iff _ _ Cause_Other). by split_and!.
    + unfold full_of, cause_of, in_wb, queue_of. cbn. by rewrite E1, E2.
Qed.

Lemma keeps_resp pkt sender hd E : keeps (cache_recvTimingResp c P Q pf_ready pkt sender hd E).
Proof.
  unfold cache_recvTimingResp. kstep; [kstep|]. kstep; [kstep|]. kstep. cbv zeta. apply wp_bind. eapply wp_mono; [by apply unstick_ok|]. cbv beta.
  intros _ s1 [Hs1 Ef]. change (isFull (queue_of s (cause_of s a0))) with (full_of s a0). rewrite <- Ef. clear s H Ef.
  apply wp_bind. eapply wp_mono; [apply frame_get_mshr|]. cbv beta. intros m s2 E2. apply wp_bind, wp_lift. intros tgt _. apply wp_bind, wp_get, wp_bind, wp_lift.
  intros blk _. apply wp_bind. eapply wp_mono; [apply frame_check_master|]. cbv beta. intros _ s3 E3. apply wp_bind.
  match goal with |- wp ?m _ _ => assert (Hf : wp m (fun _ s' => parts s' = parts s3) s3) by framed end.
  eapply wp_mono; [exact Hf|]. cbv beta. intros r s4 E4. apply wp_bind. eapply wp_mono; [apply frame_get_mshr|]. cbv beta. intros m' s5 E5.
  apply wp_bind. eapply wp_mono; [apply frame_serve_targets|]. cbv beta. intros r' s6 E6. apply wp_bind. eapply wp_mono; [apply frame_settle_block|]. cbv beta.
  intros _ s7 E7. assert (E8 : parts s7 = parts s1) by congruence. apply wp_bind. rewrite <- (full_of_parts _ _ a0 E8). eapply wp_mono.
  - apply (settle_ok b). by eapply ok_parts.
  - cbv beta. intros _ s8 H8. repeat kstep.
Qed.
#[local] Hint Resolve keeps_resp : keeps.

Lemma keeps_snoop_resp pkt frr hd E : keeps (cache_recvTimingSnoopResp c P Q pf_ready pkt frr hd E).
Proof. unfold cache_recvTimingSnoopResp. repeat kstep. Qed.
Lemma keeps_wb_entry w p hd e : keeps (snoop_writeback_entry c P w p hd e).
Proof. unfold snoop_writeback_entry. repeat kstep. Qed.
#[local] Hint Resolve keeps_snoop_resp keeps_wb_entry : keeps.
Lemma keeps_snoop_req pkt hd E : keeps (cache_recvTimingSnoopReq c P pkt hd E).
Proof. unfold cache_recvTimingSnoopReq. repeat kstep. Qed.

(** *** Requests to below *)

Lemma keeps_mshr_opt o : keeps (mshr_opt o).
Proof. unfold mshr_opt. repeat kstep. Qed.
#[local] Hint Resolve keeps_mshr_opt : keeps.
Lemma keeps_next_prefetch e : keeps (next_prefetch c pf_getPacket e).
Proof. unfold next_prefetch. repeat kstep. destruct a, a0, a1; repeat kstep. Qed.
Lemma keeps_issue_write s w wm : keeps (issue_write s w wm).
Proof. unfold issue_write. repeat kstep. Qed.
Lemma keeps_issue_miss s i m : keeps (issue_miss s i m).
Proof. unfold issue_miss. repeat kstep. Qed.
#[local] Hint Resolve keeps_next_prefetch keeps_issue_write keeps_issue_miss : keeps.
Lemma keeps_next e : keeps (cache_getNextMSHR c pf_getPacket e).
Proof. unfold cache_getNextMSHR. repeat kstep. Qed.
#[local] Hint Resolve keeps_snoop_req keeps_next : keeps.

Lemma keeps_squashed i tgt p E : keeps (prefetch_squashed i tgt p E).
Proof.
  unfold prefetch_squashed. repeat kstep. destruct a as [[freed h] q]. apply force_full in H0 as [-> Hq].
  apply wp_bind, wp_put, wp_bind. eapply wp_mono; [apply wp_drain_queue; [done|apply cause_of_queue|done]|]. cbv beta. intros _ s' Hs'. by apply wp_ret.
Qed.
Lemma keeps_bus_packet i tgt blk e : keeps (bus_packet c i tgt blk e).
Proof. unfold bus_packet. repeat kstep. Qed.
#[local] Hint Resolve keeps_squashed keeps_bus_packet : keeps.
Lemma keeps_packet E : keeps (getTimingPacket c P pf_getPacket E).
Proof. unfold getTimingPacket. repeat kstep. Qed.
Lemma keeps_ready : keeps (cache_nextMSHRReadyTime pf_ready).
Proof. unfold cache_nextMSHRReadyTime. repeat kstep. Qed.
#[local] Hint Resolve keeps_packet keeps_ready : keeps.
Lemma keeps_send E : keeps (cache_sendDeferredPacket c P pf_getPacket pf_ready E).
Proof. unfold cache_sendDeferredPacket. repeat kstep. Qed.
#[local] Hint Resolve keeps_send : keeps.
Lemma keeps_retry E : keeps (cache_recvReqRetry c P pf_getPacket pf_ready E).
Proof. unfold cache_recvReqRetry. repeat kstep. Qed.

Lemma keeps_functional_block pkt blk : keeps (functional_block c pkt blk).
Proof. unfold functional_block. repeat kstep. Qed.
Lemma keeps_functional_dirty blk m : keeps (functional_dirty blk m).
Proof. unfold functional_dirty. repeat kstep. Qed.
Lemma keeps_functional_queues pkt a cq mq : keeps (functional_queues pkt a cq mq).
Proof. unfold functional_queues. repeat kstep. Qed.
#[local] Hint Resolve keeps_functional_block keeps_functional_dirty keeps_functional_queues : keeps.
Lemma keeps_functional pkt f sn cq mq : keeps (cache_functionalAccess c P pkt f sn cq mq).
Proof. unfold cache_functionalAccess. repeat kstep. Qed.

(** ** The port above *)

(** The cache itself takes every request. *)
Lemma req_taken pkt hd E s : wp (cache_recvTimingReq c P Q pf_notify pkt hd E) (fun ok _ => ok = true) s.
Proof.
  unfold cache_recvTimingReq. apply wp_bind, wp_any. intros _ s1. destruct (cacheBypass P).
  - apply wp_bind, wp_any. intros _ s2. apply wp_bind, wp_any. intros _ s3. by apply wp_ret.
  - apply wp_bind, wp_any. intros p s2. destruct (memInhibitAsserted p); [apply wp_bind, wp_any; intros _ s3; by apply wp_ret|].
    apply wp_bind, wp_any. intros s3 s4. apply wp_bind, wp_any. intros a s5. apply wp_bind, wp_any. intros [] s6. apply wp_bind, wp_any. intros [] s7.
    apply wp_bind, wp_any. intros t s8. apply wp_bind, wp_any. intros [] s9. by apply wp_ret.
Qed.

Definition t_with_owed (s : TCache) (b : bool) : TCache :=
  t_with_blocked s (t_blocked s) (mkSlavePort (sp_blocked (cpuSidePort s)) b (sendRetryEvent (cpuSidePort s))).

Lemma ok_owed s : blocking_ok s -> sp_blocked (cpuSidePort s) = true \/ owes s = true -> blocking_ok (t_with_owed s true).
Proof.
  intros [H1 [H2 H3 H4]] Hs. split; [done|]. split; [done|..].
  - intros _. cbn. destruct Hs as [Hs|Hs]; [by left|by apply H3].
  - intros He. cbn. split; [done|]. by apply H4.
Qed.

Lemma ok_not_owed s : ok_from false s -> t_with_owed s false = s.
Proof. intros [_ E]. unfold owes in E. unfold t_with_owed, t_with_blocked. destruct s as [? ? ? ? ? ? ? [? ? ?] ? ?]. cbn in *. by rewrite E. Qed.

(** A request is refused exactly while the port is blocked or a retry is owed, and
    then one is owed; a request that is taken leaves none owed. *)
Lemma port_refuses pkt hd E s : cacheBypass P = false -> memInhibitAsserted (mp_pkt pkt) = false -> sp_blocked (cpuSidePort s) || owes s = true ->
  port_recvTimingReq c P Q pf_notify pkt hd E s = Ret (false, t_with_owed s true, []).
Proof. intros HP HI Hs. unfold port_recvTimingReq. rewrite HP, HI. unfold owes in Hs. unfold mbind, handler_bind, check, lift, get. cbn [cassert negb]. rewrite Hs. done. Qed.

Lemma port_takes pkt hd E s : blocking_ok s -> memInhibitAsserted (mp_pkt pkt) = false -> sp_blocked (cpuSidePort s) || owes s = false ->
  wp (port_recvTimingReq c P Q pf_notify pkt hd E) (fun ok s' => ok = true /\ ok_from false s') s.
Proof.
  intros Hb HI Hs. unfold port_recvTimingReq. rewrite HI. apply wp_bind, wp_check. intros HP. apply wp_bind, wp_get. apply wp_bind. unfold owes in Hs. rewrite Hs.
  assert (H0 : ok_from false s) by (split; [done|]; apply orb_false_iff in Hs as [_ Hs]; exact Hs). intros ok s1 o1 E1.
  pose proof (keeps_req pkt hd E false s H0 _ _ _ E1) as H1. pose proof (req_taken pkt hd E s _ _ _ E1) as ->. apply wp_bind, wp_get. cbn [negb].
  change (t_with_blocked s1 _ _) with (t_with_owed s1 false). rewrite ok_not_owed by done. apply wp_bind, wp_put. by apply wp_ret.
Qed.

Lemma port_ok_req pkt hd E s : blocking_ok s -> wp (port_recvTimingReq c P Q pf_notify pkt hd E) (fun _ s' => blocking_ok s') s.
Proof.
  intros Hb. destruct (memInhibitAsserted (mp_pkt pkt)) eqn:HI.
  - unfold port_recvTimingReq. rewrite HI. apply wp_bind, wp_check. intros _. apply wp_bind. eapply wp_mono; [by apply (keeps_req pkt hd E (owes s))|]. cbv beta.
    intros ok s' [Hs' _]. apply wp_bind, wp_check. intros _. by apply wp_ret.
  - destruct (sp_blocked (cpuSidePort s) || owes s) eqn:Hs.
    + destruct (cacheBypass P) eqn:HP; [unfold port_recvTimingReq; rewrite HP; by apply wp_bind, wp_check|].
      intros ok s' o Er. rewrite port_refuses in Er by done. injection Er as <- <- <-. apply ok_owed; [done|]. by apply orb_true_iff.
    + eapply wp_mono; [by apply port_takes|]. by intros ok s' [_ [? _]].
Qed.

Lemma send_retry_ok s : blocking_ok s -> is_Some (sendRetryEvent (cpuSidePort s)) -> wp (processSendRetry (S := S) (PF := PF)) (fun _ s' => blocking_ok s' /\ owes s' = false /\ sp_blocked (cpuSidePort s') = false) s.
Proof.
  intros [H1 [H2 H3 H4]] He. unfold processSendRetry. apply wp_bind, wp_get, wp_bind, wp_put, wp_emit. destruct (H4 He) as [Hm Hb].
  split; [|done]. split; [done|]. split; cbn; [done|done|by intros []].
Qed.

(** ** The loop over the targets *)

(** The targets a register holds, deferred ones included. *)
Definition m_room (m : MSHR) : nat := (length (tl_targets (targets m)) + length (tl_targets (deferredTargets m)))%nat.
Definition room (h : mshrs) (i : nat) : nat := from_option m_room 0%nat (h !! i).

Lemma m_update_Ret h i f h' : m_update h i f = Ret h' -> exists m, h !! i = Some m /\ h' = <[i:=f m]> h.
Proof. intros (m & Hm%vread_Ret & [_ ->]%vwrite_Ret)%bind_Ret. eauto. Qed.

Lemma update_room h i f h' : m_update h i f = Ret h' -> (forall m, h !! i = Some m -> m_room (f m) = m_room m) -> room h' i = room h i.
Proof.
  intros (m & Hm & ->)%m_update_Ret Hf. unfold room. rewrite list_lookup_insert_eq by (by eapply lookup_lt_Some). rewrite Hm. by apply Hf.
Qed.

Lemma pend_room h h' i : pend_eq h h' -> room h' i = room h i.
Proof.
  intros Hp. unfold room. destruct (h !! i) as [m|] eqn:Hm.
  - destruct (pend_eq_lookup _ _ _ _ Hp Hm) as (m' & -> & Es). cbn. by rewrite Es.
  - apply lookup_ge_None in Hm. rewrite (pend_eq_length _ _ Hp) in Hm. by rewrite (proj2 (lookup_ge_None _ _) Hm).
Qed.

(** A fill moves deferred targets to the others. *)
Lemma fill_room h i p h' : MSHR_handleFill h i p = Ret h' -> room h' i = room h i.
Proof.
  unfold MSHR_handleFill. intros (m & Hm%vread_Ret & E)%bind_Ret. destruct (negb (sharedAsserted p)); [|by injection E as <-].
  apply bind_Ret in E as (pi & _ & E). apply bind_Ret in E as (pd & _ & E). destruct (negb pd && _); [|by injection E as <-].
  apply bind_Ret in E as (? & _ & E). apply bind_Ret in E as (? & _ & E). apply bind_Ret in E as (h1 & E1 & E). apply bind_Ret in E as (h2 & E2 & E).
  rewrite (update_room _ _ _ _ E).
  - rewrite <- (update_room _ _ _ _ E1) by done. by apply pend_room, (tl_clear_eq _ _ _ E2).
  - intros m' _. unfold m_room. cbn. rewrite length_app. lia.
Qed.

Ltac rwalk := repeat first [progress wstep | eapply wp_mono; [solve [eauto with rooms nocore]|cbv beta; intros ? ? ?]].
Ltac roomed := intros; rwalk; try done; cbn [t_regs t_with_cache] in *; congruence.

Section loop.
Context (i : nat).

Lemma room_get_mshr k (s : TCache) : wp (get_mshr k) (fun _ s' => room (t_regs s') i = room (t_regs s) i) s.
Proof. unfold get_mshr. roomed. Qed.
Lemma room_in_cache {A} (f : cache -> res (cache * A)) (s : TCache) : wp (in_cache f) (fun _ s' => room (t_regs s') i = room (t_regs s) i) s.
Proof. unfold in_cache. roomed. Qed.
Lemma room_mod_cache f (s : TCache) : wp (mod_cache f) (fun _ s' => room (t_regs s') i = room (t_regs s) i) s.
Proof. apply room_in_cache. Qed.
Lemma room_check_master pkt (s : TCache) : wp (check_master c pkt) (fun _ s' => room (t_regs s') i = room (t_regs s) i) s.
Proof. unfold check_master. roomed. Qed.
#[local] Hint Resolve room_get_mshr room_in_cache room_mod_cache room_check_master : rooms.
Lemma room_fill pkt blk e (s : TCache) : wp (fill_both c P i pkt blk e) (fun _ s' => room (t_regs s') i = room (t_regs s) i) s.
Proof. unfold fill_both. rwalk. apply fill_room in H. cbn [t_regs t_with_regs] in *. congruence. Qed.
#[local] Hint Resolve room_fill : rooms.
Lemma room_complete pkt hd off err tgt r e (s : TCache) : wp (complete_target c P Q i pkt hd off err tgt r e) (fun _ s' => room (t_regs s') i = room (t_regs s) i) s.
Proof. unfold complete_target. roomed. Qed.
#[local] Hint Resolve room_complete : rooms.
Lemma room_serve pkt hd off err t r E (s : TCache) : wp (serve_target c P Q i pkt hd off err t r E) (fun _ s' => room (t_regs s') i = room (t_regs s) i) s.
Proof. unfold serve_target, serve_cpu, serve_snoop. roomed. Qed.

Lemma get_mshr_Ret k (s : TCache) m s' o : get_mshr k s = Ret (m, s', o) -> t_regs s !! k = Some m /\ s' = s.
Proof.
  unfold get_mshr, mbind, handler_bind, get, lift. destruct (vread (t_regs s) k) eqn:Ev; [|done]. intros [= -> -> <-]. by apply vread_Ret in Ev.
Qed.

Lemma set_mshr_Ret k f (s : TCache) s' o : set_mshr k f s = Ret (tt, s', o) -> exists m, t_regs s !! k = Some m /\ t_regs s' = <[k:=f m]> (t_regs s).
Proof.
  unfold set_mshr, mbind, handler_bind, get, lift, put. destruct (m_update (t_regs s) k f) eqn:Ev; [|done]. intros [= <- <-]. by apply m_update_Ret in Ev.
Qed.

(** The loop is over, or a step per target is left. *)
Definition fuel_ok (n : nat) (s : TCache) : Prop := forall m, t_regs s !! i = Some m -> tl_targets (targets m) = [] \/ (m_room m <= n)%nat.

Lemma fuel_pop n (s1 s2 s3 : TCache) o : room (t_regs s2) i = room (t_regs s1) i -> (room (t_regs s1) i <= Datatypes.S n)%nat -> set_mshr i popTarget s2 = Ret (tt, s3, o) -> fuel_ok n s3.
Proof.
  intros E Hn (m & Hm & E3)%set_mshr_Ret m' Hm'. rewrite E3, list_lookup_insert_eq in Hm' by (by eapply lookup_lt_Some). injection Hm' as <-.
  assert (Hr : (m_room m <= Datatypes.S n)%nat) by (rewrite <- E in Hn; unfold room in Hn; by rewrite Hm in Hn).
  unfold m_room in *. cbn. destruct (tl_targets (targets m)); cbn in *; [by left|right; lia].
Qed.

Lemma targets_fuel_ok n k pkt hd off err r E s : fuel_ok n s ->
  serve_targets c P Q (n + k) i pkt hd off err r E s = serve_targets c P Q n i pkt hd off err r E s.
Proof.
  revert r s. induction n as [|n IH]; intros r s Hn; [destruct k; [done|]|]; cbn [serve_targets Nat.add]; apply bind_ext; intros m s1 o1 [Hm ->]%get_mshr_Ret;
    destruct (tl_targets (targets m)) as [|t l] eqn:Et; try done; destruct (Hn m Hm) as [Hd|Hr]; try congruence.
  - unfold m_room in Hr. rewrite Et in Hr. cbn in Hr. lia.
  - apply bind_ext. intros r1 s2 o2 Er. apply bind_ext. intros [] s3 o3 Ep. apply IH. eapply (fuel_pop n s); [|by unfold room; rewrite Hm|exact Ep].
    exact (room_serve pkt hd off err t r E s _ _ _ Er).
Qed.

(** A step per target is enough: more fuel changes nothing. *)
Lemma targets_fuel k pkt hd off err r E (s : TCache) m : t_regs s !! i = Some m ->
  serve_targets c P Q (Z.to_nat (getNumTargets m) + k) i pkt hd off err r E s = serve_targets c P Q (Z.to_nat (getNumTargets m)) i pkt hd off err r E s.
Proof. intros Hm. apply targets_fuel_ok. intros m' Hm'. right. unfold getNumTargets, m_room. rewrite Hm in Hm'. injection Hm' as <-. lia. Qed.
End loop.

(** ** The life of a cache *)

(** The calls a cache gets, from its ports and from the events it scheduled. *)
Inductive tstep (s s' : TCache) : Prop :=
  | step_req pkt hd E ok o : port_recvTimingReq c P Q pf_notify pkt hd E s = Ret (ok, s', o) -> tstep s s'
  | step_send_retry o : is_Some (sendRetryEvent (cpuSidePort s)) -> processSendRetry s = Ret (tt, s', o) -> tstep s s'
  | step_resp pkt sender hd E o : cache_recvTimingResp c P Q pf_ready pkt sender hd E s = Ret (tt, s', o) -> tstep s s'
  | step_snoop_resp pkt frr hd E o : cache_recvTimingSnoopResp c P Q pf_ready pkt frr hd E s = Ret (tt, s', o) -> tstep s s'
  | step_snoop_req pkt hd E p o : cache_recvTimingSnoopReq c P pkt hd E s = Ret (p, s', o) -> tstep s s'
  | step_send E o : cache_sendDeferredPacket c P pf_getPacket pf_ready E s = Ret (tt, s', o) -> tstep s s'
  | step_req_retry E o : cache_recvReqRetry c P pf_getPacket pf_ready E s = Ret (tt, s', o) -> tstep s s'
  | step_functional pkt f sn cq mq r o : cache_functionalAccess c P pkt f sn cq mq s = Ret (r, s', o) -> tstep s s'.

Lemma keeps_ok {A} (m : tm A) s a s' o : keeps m -> blocking_ok s -> m s = Ret (a, s', o) -> blocking_ok s'.
Proof. intros Hm Hs E. by destruct (Hm (owes s) s (conj Hs eq_refl) _ _ _ E). Qed.

Lemma tstep_ok s s' : tstep s s' -> blocking_ok s -> blocking_ok s'.
Proof.
  intros [pkt hd E ok o Er|o He Er|????? Er|????? Er|????? Er|?? Er|?? Er|??????? Er] Hs.
  - by eapply port_ok_req.
  - by apply (send_retry_ok s Hs He _ _ _ Er).
  - eapply keeps_ok; [apply keeps_resp|done|exact Er].
  - eapply keeps_ok; [apply keeps_snoop_resp|done|exact Er].
  - eapply keeps_ok; [apply keeps_snoop_req|done|exact Er].
  - eapply keeps_ok; [apply keeps_send|done|exact Er].
  - eapply keeps_ok; [apply keeps_retry|done|exact Er].
  - eapply keeps_ok; [apply keeps_functional|done|exact Er].
Qed.

Lemma new_ok x h m w d (pf : option PF) : 0 < m -> 0 < w -> blocking_ok (BaseCache_new (S := S) x h m w d pf).
Proof.
  intros Hm Hw. unfold BaseCache_new, MSHRQueue_new. split.
  - unfold blocked_bits, stuck, isFull. cbn -[flags Z.add Z.sub Z.ltb bool_decide]. rewrite !(proj2 (Z.ltb_ge _ _)) by lia. done.
  - by split; cbn; [..|intros []].
Qed.

Lemma reach_ok s0 s : blocking_ok s0 -> rtc tstep s0 s -> blocking_ok s.
Proof. intros H0. induction 1 as [|s1 s2 s3 Hs _ IH]; [done|]. apply IH. by eapply tstep_ok. Qed.

Lemma flags_up m w n : negb (flags m w n =? 0) = m || w || n.
Proof. by destruct m, w, n. Qed.

End spec.

(** ** A run *)

Abbreviation RunCache := (TCache (S := TagsState) (PF := unit)).

(** A register holds two targets; the cache has no prefetcher. *)
Definition run_params : CacheParams := mkCacheParams true 2 1 2 false true false [AddrRange_plain 0 255].
Definition run_timing : TimingParams := mkTimingParams 2 2 false.
Definition run_env (now : Z) : TEnv := mkTEnv (mkEnv now now 0 (replicate 64 0)) (fun p => (true, p)) (fun p => p) 0 (fun _ => false) 0.
Definition run_notify (u : unit) (_ : Packet) : unit * Z := (u, 0).
Definition run_getPacket (u : unit) (_ : Z) : unit * option Packet := (u, None).
Definition run_ready (_ : unit) : Z := MaxTick.
Abbreviation run_step := (tstep small_config run_params run_timing run_notify run_getPacket run_ready).

Definition run_new : RunCache := BaseCache_new demo_cache [] 2 2 0 None.
Definition after {A} (r : res (A * RunCache * list Out)) : RunCache := match r with Ret (_, s, _) => s | Err _ => run_new end.
Definition ended {A} (r : res (A * RunCache * list Out)) : bool := match r with Ret _ => true | Err _ => false end.

Definition run_read : MPacket := mkMPacket (demo_cpu ReadReq (replicate 4 0)) None.
Definition run_req (now : Z) (s : RunCache) : res (bool * RunCache * list Out) :=
  port_recvTimingReq small_config run_params run_timing run_notify run_read 0 (run_env now) s.

(** The second read takes the last place of the register, the third is refused. *)
Definition run_full : RunCache := after (run_req 11 (after (run_req 10 run_new))).
Definition run_refused : RunCache := after (run_req 12 run_full).
Definition run_sent : res (unit * RunCache * list Out) := cache_sendDeferredPacket small_config run_params run_getPacket run_ready (run_env 1010) run_refused.
(** The response frees the register. *)
Definition run_resp : res (unit * RunCache * list Out) :=
  cache_recvTimingResp small_config run_params run_timing run_ready demo_fill (Some 0%nat) 0 (run_env 2000) (after run_sent).

Lemma after_ended {A} (r : res (A * RunCache * list Out)) : ended r = true -> exists a o, r = Ret (a, after r, o).
Proof. destruct r as [[[a s] o]|]; [|done]. intros _. by exists a, o. Qed.

Lemma run_req_step now s : ended (run_req now s) = true -> run_step s (after (run_req now s)).
Proof. intros (a & o & E)%after_ended. by eapply step_req. Qed.

Lemma run_reaches_full : rtc run_step run_new run_full.
Proof.
  eapply rtc_l; [apply (run_req_step 10); vm_compute; reflexivity|]. apply rtc_once. apply run_req_step. vm_compute. reflexivity.
Qed.

Lemma run_send_step now s : let r := cache_sendDeferredPacket small_config run_params run_getPacket run_ready (run_env now) s in
  ended r = true -> run_step s (after r).
Proof. intros r ([] & o & E)%after_ended. by eapply step_send. Qed.

Lemma run_resp_step now s : let r := cache_recvTimingResp small_config run_params run_timing run_ready demo_fill (Some 0%nat) 0 (run_env now) s in
  ended r = true -> run_step s (after r).
Proof. intros r ([] & o & E)%after_ended. by eapply step_resp. Qed.

Lemma run_reaches_free : rtc run_step run_new (after run_resp).
Proof.
  etransitivity; [exact run_reaches_full|]. eapply rtc_l; [apply (run_req_step 12); vm_compute; reflexivity|].
  eapply rtc_l; [apply (run_send_step 1010); vm_compute; reflexivity|].
  apply rtc_once. apply (run_resp_step 2000). vm_compute. reflexivity.
Qed.


(** The answers of the run: both reads get the block's data. *)
Lemma run_answers : exists s p q, run_resp = Ret (tt, s, [SchedTimingResp p 3000; SchedTimingResp q 3000]) /\
  pkt_data (mp_pkt p) = Some [7; 7; 7; 7] /\ pkt_data (mp_pkt q) = Some [7; 7; 7; 7] /\ t_blocked s = 0.
Proof. vm_compute. do 3 eexists. split; [reflexivity|]. done. Qed.

(** A deferred snoop takes a place of a register too, without blocking the port: the
    limit is then passed unseen, and the register takes any number of targets. *)
Definition run_write : MPacket := mkMPacket (demo_cpu WriteReq (replicate 4 1)) None.
Definition run_snoop : MPacket := mkMPacket (setExpressSnoop (Packet_new (mkRequest 0 0x40 64 2 5 0 0) ReadReq)) None.
Definition run_written : RunCache :=
  after (cache_sendDeferredPacket small_config run_params run_getPacket run_ready (run_env 1010)
    (after (port_recvTimingReq small_config run_params run_timing run_notify run_write 0 (run_env 10) run_new))).
Definition run_snooped : RunCache := after (cache_recvTimingSnoopReq small_config run_params run_snoop 0 (run_env 1100) run_written).

Lemma target_limit_passed : let s := after (run_req 1202 (after (run_req 1201 (after (run_req 1200 run_snooped))))) in
  numTarget run_timing = 2 /\ getNumTargets <$> t_regs s !! 0%nat = Some 5 /\ sp_blocked (cpuSidePort s) = false.
Proof. vm_compute. done. Qed.
