(* ===== verification/Prefetch.v ===== *)
(** * Hardware prefetchers: [mem/cache/prefetch/]

    A prefetcher is told of the accesses of its cache, computes addresses that may
    be wanted soon and keeps them in a queue until the cache has time for them.
    The queue ([queued.cc]) is written against the interface of a policy; the
    policies are the next lines ([tagged.cc]) and the strides of the instructions
    ([stride.cc]).

    The cache is seen through its lookups; with a set-associative tag store and a
    miss-status queue they are those of [TagStore.v] and [MshrQueue.v]. *)

From stdpp Require Import gmap sorting.
From S2P Require Import Prelude IntMath Packet CacheBlk TagStore Mshr MshrQueue.
Local Open Scope Z_scope.

(** ** Data *)

(** A packet with the parts of its request that the prefetchers read beside those
    of [Packet.v]: the thread, when the context is valid, and the program counter,
    when it is valid. *)
Record PPacket := mkPPacket { pp_pkt : Packet; pp_thread : option Z; pp_pc : option Z }.

(** Parameters of the base class and of the queue. *)
Record PrefetchConf := mkPrefetchConf {
  pf_blkSize : Z;
  pageBytes : Z;
  onMiss : bool;
  onRead : bool;
  onWrite : bool;
  onData : bool;
  onInst : bool;
  pf_masterId : Z;
  queueSize : nat;
  pf_latency : Z;
  pf_clockPeriod : Z;
  queueSquash : bool;
  queueFilter : bool;
  cacheSnoop : bool;
  tagPrefetch : bool
}.

(** The lookups of the cache. *)
Record CacheView := mkCacheView { inCache : Z -> bool -> res bool; inMissQueue : Z -> bool -> res bool }.

Definition cache_view (c : TagsConfig) (s : TagsState) (h : mshrs) (q : MSHRQueue) : CacheView :=
  mkCacheView (fun addr sec => r ← BaseSetAssoc_findBlock c s addr sec; Ret (match r with Some _ => true | None => false end))
              (fun addr sec => r ← findMatch h q addr sec; Ret (match r with Some _ => true | None => false end)).

(** ** The base class *)

(** [~(Addr)(blkSize - 1)], with an [unsigned] block size. *)
Definition pf_blkAlign (c : PrefetchConf) (addr : Z) : Z := Z.land addr (wnot 64 (u32 (pf_blkSize c - 1))).

Definition observeAccess (c : PrefetchConf) (v : CacheView) (pkt : Packet) : res bool :=
  let addr := pkt_addr pkt in
  let fetch := req_isInstFetch (pkt_req pkt) in
  let read := cmd_isRead (pkt_cmd pkt) in
  let inv := cmd_isInvalidate (pkt_cmd pkt) in
  let is_secure := pkt_isSecure pkt in
  if req_isUncacheable (pkt_req pkt) then Ret false
  else if fetch && negb (onInst c) then Ret false
  else if negb fetch && negb (onData c) then Ret false
  else if negb fetch && read && negb (onRead c) then Ret false
  else if negb fetch && negb read && negb (onWrite c) then Ret false
  else if negb fetch && negb read && inv then Ret false
  else if onMiss c then
    b ← inCache v addr is_secure;
    if b : bool then Ret false else b ← inMissQueue v addr is_secure; Ret (negb (b : bool))
  else Ret true.

Definition samePage (c : PrefetchConf) (a b : Z) : bool := roundDown 64 a (pageBytes c) =? roundDown 64 b (pageBytes c).

(** ** The interface of a policy *)

(** [calculatePrefetch]: the new state, the addresses and what is added to
    [pfSpanPage]; the last argument is the random way that a policy with a table
    may draw. *)
Class PrefetchPolicy (S : Type) := {
  calculatePrefetch : PrefetchConf -> S -> PPacket -> Z -> res (S * list Z * Z)
}.

(** ** The queue *)

Record DeferredPrefetch := mkDeferredPrefetch { dp_tick : Z; dp_pkt : PPacket }.

Section queued.
Context {S : Type} `{PrefetchPolicy S}.

Record QueuedPrefetcher := mkQueuedPrefetcher {
  pfq : list DeferredPrefetch;
  policy : S;
  pfIssued : Z;
  pfIdentified : Z;
  pfBufferHit : Z;
  pfInCache : Z;
  pfRemovedFull : Z;
  pfSpanPage : Z
}.

Definition QueuedPrefetcher_new (s : S) : QueuedPrefetcher := mkQueuedPrefetcher [] s 0 0 0 0 0 0.

Definition with_pfq (q : QueuedPrefetcher) (l : list DeferredPrefetch) : QueuedPrefetcher :=
  mkQueuedPrefetcher l (policy q) (pfIssued q) (pfIdentified q) (pfBufferHit q) (pfInCache q) (pfRemovedFull q) (pfSpanPage q).

(** The test of a queued prefetch against a line. *)
Definition same_line (addr : Z) (is_secure : bool) (d : DeferredPrefetch) : bool :=
  (pkt_addr (pp_pkt (dp_pkt d)) =? addr) && Bool.eqb (pkt_isSecure (pp_pkt (dp_pkt d))) is_secure.

Definition inPrefetch (q : QueuedPrefetcher) (addr : Z) (is_secure : bool) : bool := existsb (same_line addr is_secure) (pfq q).

(** The loop that squashes; whether [Request_PF] is deasserted. *)
Definition squash_queue (c : PrefetchConf) (q : QueuedPrefetcher) (addr : Z) (is_secure : bool) : bool * QueuedPrefetcher :=
  if queueSquash c then
    let l := List.filter (fun d => negb (same_line addr is_secure d)) (pfq q) in
    (is_nil l, with_pfq q l)
  else (false, q).

Definition TaskId_Prefetcher : Z := 1022.

(** The prefetch packet; [payload] is the memory [allocate] obtains. *)
Definition prefetch_packet (c : PrefetchConf) (payload : list Z) (pkt : PPacket) (pf_addr : Z) : PPacket :=
  let req := pkt_req (pp_pkt pkt) in
  let pf_req := mkRequest (match pp_thread pkt with Some _ => req_contextId req | None => 0 end) pf_addr (pf_blkSize c)
                  (pf_masterId c) TaskId_Prefetcher 0 (if pkt_isSecure (pp_pkt pkt) then SECURE else 0) in
  mkPPacket (with_data (Packet_new pf_req HardPFReq) payload []) (pp_thread pkt)
    (if tagPrefetch c then pp_pc pkt else None).

Definition count_pf (q : QueuedPrefetcher) (identified hit cached full : Z) : QueuedPrefetcher :=
  mkQueuedPrefetcher (pfq q) (policy q) (pfIssued q) (pfIdentified q + identified) (pfBufferHit q + hit) (pfInCache q + cached)
    (pfRemovedFull q + full) (pfSpanPage q).

(** One candidate. *)
Definition queue_one (c : PrefetchConf) (v : CacheView) (curTick : Z) (payload : list Z) (pkt : PPacket) (pf_addr : Z)
    (q : QueuedPrefetcher) : res QueuedPrefetcher :=
  let is_secure := pkt_isSecure (pp_pkt pkt) in
  let pf_addr := pf_blkAlign c pf_addr in
  let q := count_pf q 1 0 0 0 in
  if queueFilter c && inPrefetch q pf_addr is_secure then Ret (count_pf q 0 1 0 0)
  else
    redundant ← (if cacheSnoop c then
                   b ← inCache v pf_addr is_secure;
                   if b : bool then Ret true else inMissQueue v pf_addr is_secure
                 else Ret false);
    if redundant : bool then Ret (count_pf q 0 0 1 0)
    else
      let pf_pkt := prefetch_packet c payload pkt pf_addr in
      q ← (if bool_decide (length (pfq q) = queueSize c) then
             match pfq q with
             | [] => Err OutOfBounds
             | _ :: l => Ret (count_pf (with_pfq q l) 0 0 0 1)
             end
           else Ret q);
      let pf_time := u64 (curTick + pf_clockPeriod c * pf_latency c) in
      Ret (with_pfq q (pfq q ++ [mkDeferredPrefetch pf_time pf_pkt])).

Fixpoint queue_all (c : PrefetchConf) (v : CacheView) (curTick : Z) (payload : list Z) (pkt : PPacket) (addresses : list Z)
    (q : QueuedPrefetcher) : res QueuedPrefetcher :=
  match addresses with
  | [] => Ret q
  | a :: addresses =>
      q ← queue_one c v curTick payload pkt a q;
      queue_all c v curTick payload pkt addresses q
  end.

Definition nextPrefetchReadyTime (q : QueuedPrefetcher) : Z :=
  match pfq q with
  | [] => MaxTick
  | d :: _ => dp_tick d
  end.

(** The result: when the next prefetch is ready, and whether the bus request of
    the prefetcher was withdrawn. *)
Definition notify (c : PrefetchConf) (v : CacheView) (curTick rnd : Z) (payload : list Z) (pkt : PPacket) (q : QueuedPrefetcher)
    : res (Z * bool * QueuedPrefetcher) :=
  observed ← observeAccess c v (pp_pkt pkt);
  if observed : bool then
    let blk_addr := pf_blkAlign c (pkt_addr (pp_pkt pkt)) in
    let '(deasserted, q) := squash_queue c q blk_addr (pkt_isSecure (pp_pkt pkt)) in
    '(s, addresses, span) ← calculatePrefetch c (policy q) pkt rnd;
    let q := mkQueuedPrefetcher (pfq q) s (pfIssued q) (pfIdentified q) (pfBufferHit q) (pfInCache q) (pfRemovedFull q)
               (pfSpanPage q + span) in
    q ← queue_all c v curTick payload pkt addresses q;
    Ret (nextPrefetchReadyTime q, deasserted, q)
  else Ret (nextPrefetchReadyTime q, false, q).

Definition getPacket (q : QueuedPrefetcher) : option PPacket * QueuedPrefetcher :=
  match pfq q with
  | [] => (None, q)
  | d :: l =>
      (Some (dp_pkt d),
       mkQueuedPrefetcher l (policy q) (pfIssued q + 1) (pfIdentified q) (pfBufferHit q) (pfInCache q) (pfRemovedFull q) (pfSpanPage q))
  end.
End queued.
Arguments QueuedPrefetcher S : clear implicits.

(** ** The tagged prefetcher *)

(** Its parameter. *)
Record TaggedPrefetcher := mkTaggedPrefetcher { tg_degree : Z }.

(** The loop from [d], with [n] rounds left. *)
Fixpoint tagged_loop (c : PrefetchConf) (degree blkAddr : Z) (n : nat) (d : Z) : list Z * Z :=
  match n with
  | O => ([], 0)
  | S n =>
      let newAddr := u64 (blkAddr + u32 (d * pf_blkSize c)) in
      if negb (samePage c blkAddr newAddr) then ([], degree - d + 1)
      else let '(l, span) := tagged_loop c degree blkAddr n (d + 1) in (newAddr :: l, span)
  end.

Definition tagged_calculatePrefetch (c : PrefetchConf) (s : TaggedPrefetcher) (pkt : PPacket) (_ : Z)
    : res (TaggedPrefetcher * list Z * Z) :=
  let blkAddr := pf_blkAlign c (pkt_addr (pp_pkt pkt)) in
  let '(l, span) := tagged_loop c (tg_degree s) blkAddr (Z.to_nat (tg_degree s)) 1 in
  Ret (s, l, span).

#[export] Instance TaggedPolicy : PrefetchPolicy TaggedPrefetcher := { calculatePrefetch := tagged_calculatePrefetch }.

(** ** The stride prefetcher *)

Record StrideEntry := mkStrideEntry { instAddr : Z; lastAddr : Z; se_isSecure : bool; stride : Z; confidence : Z }.

Definition StrideEntry_new : StrideEntry := mkStrideEntry 0 0 false 0 0.

Record StrideConf := mkStrideConf {
  maxConf : Z;
  threshConf : Z;
  minConf : Z;
  startConf : Z;
  pcTableAssoc : nat;
  pcTableSets : Z;
  useMasterId : bool;
  st_degree : Z
}.

(** The tables of the contexts, each a vector of sets of entries. *)
Record StridePrefetcher := mkStridePrefetcher { st_conf : StrideConf; pcTable : gmap Z (list (list StrideEntry)) }.

(** The constructor takes the prefetcher off instruction fetches. *)
Definition StridePrefetcher_new (c : PrefetchConf) (k : StrideConf) : res (PrefetchConf * StridePrefetcher) :=
  let c := mkPrefetchConf (pf_blkSize c) (pageBytes c) (onMiss c) (onRead c) (onWrite c) (onData c) false (pf_masterId c)
             (queueSize c) (pf_latency c) (pf_clockPeriod c) (queueSquash c) (queueFilter c) (cacheSnoop c) (tagPrefetch c) in
  _ ← cassert (isPowerOf2 32 (u32 (pcTableSets k)));
  Ret (c, mkStridePrefetcher k ∅).

(** [pcTable[context]], which allocates. *)
Definition context_table (s : StridePrefetcher) (context : Z) : list (list StrideEntry) * StridePrefetcher :=
  match pcTable s !! context with
  | Some t => (t, s)
  | None =>
      let t := replicate (Z.to_nat (pcTableSets (st_conf s))) (replicate (pcTableAssoc (st_conf s)) StrideEntry_new) in
      (t, mkStridePrefetcher (st_conf s) (<[context := t]> (pcTable s)))
  end.

Definition pcHash (k : StrideConf) (pc : Z) : res Z :=
  let hash1 := Z.shiftr pc 1 in
  n ← floorLog2_s32 (pcTableSets k);
  let hash2 := Z.shiftr hash1 n in
  Ret (Z.land (Z.lxor hash1 hash2) (u64 (pcTableSets k - 1))).

(** The loop over the ways. *)
Fixpoint find_way (l : list StrideEntry) (pc : Z) (is_secure : bool) (way : nat) : option nat :=
  match l with
  | [] => None
  | e :: l => if (instAddr e =? pc) && Bool.eqb (se_isSecure e) is_secure then Some way else find_way l pc is_secure (S way)
  end.

(** The position of the entry, if there is one. *)
Definition pcTableHit (s : StridePrefetcher) (pc : Z) (is_secure : bool) (master_id : Z)
    : res (option (nat * nat) * StridePrefetcher) :=
  set ← pcHash (st_conf s) pc;
  let '(t, s) := context_table s master_id in
  l ← vread t (Z.to_nat set);
  Ret ((fun w => (Z.to_nat set, w)) <$> find_way l pc is_secure 0, s).

(** [rnd] is the drawn way. *)
Definition pcTableVictim (s : StridePrefetcher) (pc master_id rnd : Z) : res (nat * nat * StridePrefetcher) :=
  set ← pcHash (st_conf s) pc;
  let '(t, s) := context_table s master_id in
  l ← vread t (Z.to_nat set);
  _ ← vread l (Z.to_nat rnd);
  Ret (Z.to_nat set, Z.to_nat rnd, s).

(** Reading and writing an entry through the pointer to it. *)
Definition read_entry (s : StridePrefetcher) (context : Z) (p : nat * nat) : res StrideEntry :=
  l ← vread (context_table s context).1 p.1;
  vread l p.2.
Definition write_entry (s : StridePrefetcher) (context : Z) (p : nat * nat) (e : StrideEntry) : res StridePrefetcher :=
  let '(t, s) := context_table s context in
  l ← vread t p.1;
  l ← vwrite l p.2 e;
  t ← vwrite t p.1 l;
  Ret (mkStridePrefetcher (st_conf s) (<[context := t]> (pcTable s))).

(** The product and the absolute value of [int]s. *)
Definition in_int (x : Z) : bool := (- 2 ^ 31 <=? x) && (x <? 2 ^ 31).
Definition int_of (x : Z) : res Z := if in_int x then Ret x else Err SignedOverflow.

(** The update of the entry on a hit. *)
Definition train (k : StrideConf) (e : StrideEntry) (addr new_stride : Z) : StrideEntry :=
  let stride_match := new_stride =? stride e in
  let '(conf, str) :=
    if stride_match && negb (new_stride =? 0) then
      (if confidence e <? maxConf k then confidence e + 1 else confidence e, stride e)
    else
      let conf := if minConf k <? confidence e then confidence e - 1 else confidence e in
      (conf, if conf <? threshConf k then new_stride else stride e) in
  mkStrideEntry (instAddr e) addr (se_isSecure e) str conf.

(** Strides of less than a line become a line. *)
Definition prefetch_stride (c : PrefetchConf) (new_stride : Z) : res Z :=
  a ← int_of (Z.abs new_stride);
  Ret (if a <? pf_blkSize c then s32 (if new_stride <? 0 then u32 (- pf_blkSize c) else pf_blkSize c) else new_stride).

Fixpoint stride_loop (c : PrefetchConf) (degree addr new_stride : Z) (n : nat) (d : Z) : res (list Z * Z) :=
  match n with
  | O => Ret ([], 0)
  | S n =>
      p ← prefetch_stride c new_stride;
      x ← int_of (d * p);
      let new_addr := u64 (addr + x) in
      if samePage c addr new_addr then
        '(l, span) ← stride_loop c degree addr new_stride n (d + 1);
        Ret (new_addr :: l, span)
      else Ret ([], degree - d + 1)
  end.

Definition stride_calculatePrefetch (c : PrefetchConf) (s : StridePrefetcher) (pkt : PPacket) (rnd : Z)
    : res (StridePrefetcher * list Z * Z) :=
  match pp_pc pkt with
  | None => Ret (s, [], 0)
  | Some pc =>
      let k := st_conf s in
      let addr := pkt_addr (pp_pkt pkt) in
      let is_secure := pkt_isSecure (pp_pkt pkt) in
      let master_id := if useMasterId k then req_masterId (pkt_req (pp_pkt pkt)) else 0 in
      '(hit, s) ← pcTableHit s pc is_secure master_id;
      match hit with
      | Some p =>
          e ← read_entry s master_id p;
          let new_stride := s32 (addr - lastAddr e) in
          let e := train k e addr new_stride in
          s ← write_entry s master_id p e;
          if confidence e <? threshConf k then Ret (s, [], 0)
          else
            '(l, span) ← stride_loop c (st_degree k) addr new_stride (Z.to_nat (st_degree k)) 1;
            Ret (s, l, span)
      | None =>
          '(set, way, s) ← pcTableVictim s pc master_id rnd;
          s ← write_entry s master_id (set, way) (mkStrideEntry pc addr is_secure 0 (startConf k));
          Ret (s, [], 0)
      end
  end.

#[export] Instance StridePolicy : PrefetchPolicy StridePrefetcher := { calculatePrefetch := stride_calculatePrefetch }.

(** ** Lines and pages *)

(** Blocks and pages are powers of two, a block fits into a page, and a page has at
    most a gigabyte. *)
Definition pf_conf_ok (c : PrefetchConf) : Prop :=
  exists k m, 0 <= k <= m /\ m <= 30 /\ pf_blkSize c = 2 ^ k /\ pageBytes c = 2 ^ m.

(** The pages of addresses and of the integers beyond them. *)
Definition page_of (c : PrefetchConf) (a : Z) : Z := a / pageBytes c.
Definition line_no (c : PrefetchConf) (a : Z) : Z := a / pf_blkSize c.

Lemma pf_sizes c : pf_conf_ok c -> 0 < pf_blkSize c <= pageBytes c /\ pageBytes c <= 2 ^ 30.
Proof.
  intros (k & m & Hk & Hm & -> & ->). pose proof (Z.pow_le_mono_r 2 k m). pose proof (Z.pow_le_mono_r 2 m 30).
  pose proof (Z.pow_pos_nonneg 2 k). lia.
Qed.

Lemma pf_blkAlign_eq c a : pf_conf_ok c -> inword 64 a -> pf_blkAlign c a = pf_blkSize c * line_no c a.
Proof.
  intros Hc Ha. pose proof (pf_sizes c Hc). destruct Hc as (k & m & Hk & Hm & Ek & Em). unfold pf_blkAlign, line_no.
  rewrite wrap_small by (unfold inword; lia). rewrite Ek, land_wnot_mask by (done || lia).
  rewrite (Z.div_mod a (2 ^ k)) at 1 by lia. lia.
Qed.

Lemma pf_blkAlign_inword c a : pf_conf_ok c -> inword 64 a -> inword 64 (pf_blkAlign c a).
Proof.
  intros Hc Ha. pose proof (pf_sizes c Hc). rewrite pf_blkAlign_eq by done. unfold line_no, inword in *.
  pose proof (Z.mul_div_le a (pf_blkSize c)). pose proof (Z.div_pos a (pf_blkSize c)). nia.
Qed.

Lemma pf_blkAlign_line c a : pf_conf_ok c -> inword 64 a -> line_no c (pf_blkAlign c a) = line_no c a.
Proof.
  intros Hc Ha. pose proof (pf_sizes c Hc). rewrite pf_blkAlign_eq by done. unfold line_no at 1.
  rewrite Z.mul_comm, Z.div_mul by lia. done.
Qed.

(** A block lies in one page. *)
Lemma page_of_line c a : pf_conf_ok c -> page_of c a = line_no c a / (pageBytes c / pf_blkSize c).
Proof.
  intros Hc. pose proof (pf_sizes c Hc). destruct Hc as (k & m & Hk & Hm & Ek & Em). unfold page_of, line_no.
  rewrite Z.div_div by (try apply Z.div_str_pos; lia). f_equal. rewrite Em, Ek, <- Z.pow_sub_r, <- Z.pow_add_r by lia. f_equal. lia.
Qed.

Lemma samePage_eq c a b : pf_conf_ok c -> inword 64 a -> inword 64 b -> samePage c a b = (page_of c b =? page_of c a).
Proof.
  intros Hc Ha Hb. pose proof (pf_sizes c Hc). destruct Hc as (k & m & Hk & Hm & Ek & Em). unfold samePage, page_of.
  rewrite Em in *. rewrite !roundDown_pow2 by (done || lia).
  pose proof (Z.div_mod a (2 ^ m)). pose proof (Z.div_mod b (2 ^ m)).
  apply eq_bool_prop_intro. rewrite !Is_true_true, !Z.eqb_eq. split; [|intros E; rewrite E in *; lia]. nia.
Qed.

Lemma u64_inword x : inword 64 (u64 x).
Proof. apply wrap_range. lia. Qed.

(** The test of an address computed with wrap-around is that of the exact sum. *)
Lemma samePage_shift c a x :
  pf_conf_ok c -> inword 64 a -> Z.abs x <= 2 ^ 31 ->
  samePage c a (u64 (a + x)) = (page_of c (a + x) =? page_of c a) /\
  (page_of c (a + x) = page_of c a -> inword 64 (a + x)).
Proof.
  intros Hc Ha Hx. rewrite samePage_eq by (done || apply u64_inword). pose proof (pf_sizes c Hc) as Hs. unfold page_of.
  set (P := pageBytes c) in *.
  pose proof (Z.mul_div_le a P). pose proof (Z.mul_succ_div_gt a P).
  pose proof (Z.mul_div_le (a + x) P). pose proof (Z.mul_succ_div_gt (a + x) P).
  assert (Hin : (a + x) / P = a / P -> inword 64 (a + x)).
  { intros E. rewrite E in *. assert (0 <= P * (a / P)) by (apply Z.mul_nonneg_nonneg; [lia|apply Z.div_pos; unfold inword in *; lia]).
    assert (P * Z.succ (a / P) <= 2 ^ 64).
    { destruct Hc as (k & m & Hk & Hm & Ek & Em). fold P in Em. rewrite Em in *. unfold inword in Ha.
      replace (2 ^ 64) with (2 ^ m * 2 ^ (64 - m)) by (rewrite <- Z.pow_add_r by lia; f_equal; lia).
      apply Z.mul_le_mono_nonneg_l; [lia|]. apply Z.le_succ_l, Z.div_lt_upper_bound; [lia|].
      rewrite <- Z.pow_add_r by lia. replace (m + (64 - m)) with 64 by lia. lia. }
    unfold inword. lia. }
  split; [|exact Hin]. unfold inword in *.
  destruct (Z.eq_dec ((a + x) / P) (a / P)) as [E | E].
  - rewrite wrap_small by (apply Hin, E). done.
  - rewrite (proj2 (Z.eqb_neq ((a + x) / P) _)) by done. apply Z.eqb_neq. intros E'.
    assert (Hcase : u64 (a + x) = a + x \/ u64 (a + x) = a + x + 2 ^ 64 \/ u64 (a + x) = a + x - 2 ^ 64).
    { unfold wrap. destruct (Z.lt_ge_cases (a + x) 0) as [Hn | Hn]; [|destruct (Z.lt_ge_cases (a + x) (2 ^ 64)) as [Hb | Hb]].
      - right. left. symmetry. apply (Z.mod_unique _ _ (-1)); lia.
      - left. apply Z.mod_small. lia.
      - right. right. symmetry. apply (Z.mod_unique _ _ 1); lia. }
    pose proof (Z.mul_div_le (u64 (a + x)) P). pose proof (Z.mul_succ_div_gt (u64 (a + x)) P).
    destruct Hcase as [Hu | [Hu | Hu]]; rewrite Hu, E' in *; [done|lia|lia].
Qed.

(** *** The addresses ahead *)

(** The reference of both policies: the multiples of a step after an address, from
    the [d]-th on and [n] at most, up to the end of the page. *)
Fixpoint page_run (c : PrefetchConf) (a p : Z) (n : nat) (d : Z) : list Z :=
  match n with
  | O => []
  | S n => if page_of c (a + d * p) =? page_of c a then a + d * p :: page_run c a p n (d + 1) else []
  end.

Lemma page_step_bound c a x :
  pf_conf_ok c -> page_of c (a + x) = page_of c a -> Z.abs x < pageBytes c.
Proof.
  intros Hc E. pose proof (pf_sizes c Hc). unfold page_of in E. pose proof (Z.mul_div_le a (pageBytes c)).
  pose proof (Z.mul_succ_div_gt a (pageBytes c)). pose proof (Z.mul_div_le (a + x) (pageBytes c)).
  pose proof (Z.mul_succ_div_gt (a + x) (pageBytes c)). rewrite E in *. lia.
Qed.

(** The multiples of a step within the page stay small, and so does the next. *)
Definition small_steps (c : PrefetchConf) (p d : Z) : Prop := 1 <= d /\ (d = 1 \/ Z.abs ((d - 1) * p) < pageBytes c).

Lemma small_steps_bound c p d : pf_conf_ok c -> - 2 ^ 31 <= p < 2 ^ 31 -> small_steps c p d -> - 2 ^ 31 <= d * p < 2 ^ 31.
Proof.
  intros Hc Hp [Hd [-> | Hs]]; [lia|]. pose proof (pf_sizes c Hc). destruct (Z.eq_dec d 1) as [-> | Hn]; [lia|].
  assert (Z.abs p <= Z.abs ((d - 1) * p)) by (rewrite Z.abs_mul, (Z.abs_eq (d - 1)) by lia; pose proof (Z.abs_nonneg p); nia).
  replace (d * p) with ((d - 1) * p + p) by ring. lia.
Qed.

Lemma small_steps_next c a p d :
  pf_conf_ok c -> small_steps c p d -> page_of c (a + d * p) = page_of c a -> small_steps c p (d + 1).
Proof.
  intros Hc [Hd _] E. split; [lia|]. right. replace (d + 1 - 1) with d by lia. by apply (page_step_bound c a).
Qed.

Lemma page_run_length c a p n : forall d, (length (page_run c a p n d) <= n)%nat.
Proof. induction n as [|n IH]; intros d; cbn [page_run]; [done|]. destruct (_ =? _); cbn [length]; [specialize (IH (d + 1))|]; lia. Qed.

(** Every address of a run is a proper multiple away, within the page. *)
Lemma page_run_spec c a p n : forall d x, x ∈ page_run c a p n d -> exists i, d <= i /\ x = a + i * p /\ page_of c x = page_of c a.
Proof.
  induction n as [|n IH]; intros d x; cbn [page_run]; [intros H; by apply not_elem_of_nil in H|].
  destruct (Z.eqb_spec (page_of c (a + d * p)) (page_of c a)) as [E | E]; [|intros H; by apply not_elem_of_nil in H].
  rewrite elem_of_cons. intros [-> | Hx]; [exists d; split; [lia|done]|].
  destruct (IH (d + 1) x Hx) as (i & Hi & ? & ?). exists i. split; [lia|done].
Qed.

Lemma tagged_loop_ok c degree a : pf_conf_ok c -> inword 64 a ->
  forall n d, small_steps c (pf_blkSize c) d -> degree = d + Z.of_nat n - 1 ->
  tagged_loop c degree a n d
  = (page_run c a (pf_blkSize c) n d, Z.of_nat (n - length (page_run c a (pf_blkSize c) n d))).
Proof.
  intros Hc Ha. pose proof (pf_sizes c Hc) as Hs. induction n as [|n IH]; intros d Hd Hdeg; [done|]. cbn [tagged_loop page_run].
  pose proof (small_steps_bound c (pf_blkSize c) d Hc ltac:(lia) Hd) as Hb.
  rewrite (wrap_small 32) by (destruct Hd; unfold inword; nia).
  destruct (samePage_shift c a (d * pf_blkSize c) Hc Ha) as [-> Hin]; [lia|].
  destruct (Z.eqb_spec (page_of c (a + d * pf_blkSize c)) (page_of c a)) as [E | E]; cbn [negb].
  - rewrite IH by (try lia; by eapply small_steps_next). rewrite wrap_small by auto. done.
  - cbn [length]. f_equal. lia.
Qed.

(** The step for a stride, without overflow unless the stride is the least [int]. *)
Definition step_of (c : PrefetchConf) (s : Z) : Z :=
  if Z.abs s <? pf_blkSize c then (if s <? 0 then - pf_blkSize c else pf_blkSize c) else s.

Lemma s32_range x : - 2 ^ 31 <= s32 x < 2 ^ 31.
Proof. unfold s32. pose proof (wrap_range 32 x ltac:(lia)) as [? ?]. destruct (Z.ltb_spec (u32 x) (2 ^ 31)); lia. Qed.

Lemma s32_exact x : - 2 ^ 31 <= x < 2 ^ 31 -> s32 x = x.
Proof.
  intros Hx. unfold s32. destruct (Z.lt_ge_cases x 0) as [H | H].
  - assert (E : u32 x = x + 2 ^ 32) by (unfold wrap; symmetry; apply (Z.mod_unique _ _ (-1)); lia).
    rewrite E. destruct (Z.ltb_spec (x + 2 ^ 32) (2 ^ 31)); lia.
  - rewrite wrap_small by (unfold inword; lia). destruct (Z.ltb_spec x (2 ^ 31)); lia.
Qed.

Lemma prefetch_stride_ok c s : pf_conf_ok c -> - 2 ^ 31 < s < 2 ^ 31 -> prefetch_stride c s = Ret (step_of c s).
Proof.
  intros Hc Hs. pose proof (pf_sizes c Hc). unfold prefetch_stride, int_of, in_int, step_of.
  rewrite (proj2 (Z.leb_le _ _)), (proj2 (Z.ltb_lt (Z.abs s) _)) by lia. cbn [andb mbind res_bind].
  destruct (Z.ltb_spec (Z.abs s) (pf_blkSize c)); [|done]. f_equal. destruct (Z.ltb_spec s 0).
  - assert (E : u32 (- pf_blkSize c) = - pf_blkSize c + 2 ^ 32) by (unfold wrap; symmetry; apply (Z.mod_unique _ _ (-1)); lia).
    rewrite E. unfold s32. rewrite wrap_small by (unfold inword; lia). destruct (Z.ltb_spec (- pf_blkSize c + 2 ^ 32) (2 ^ 31)); lia.
  - apply s32_exact. lia.
Qed.

Lemma step_of_range c s : pf_conf_ok c -> - 2 ^ 31 < s < 2 ^ 31 -> pf_blkSize c <= Z.abs (step_of c s) < 2 ^ 31.
Proof. intros Hc Hs. pose proof (pf_sizes c Hc). unfold step_of. destruct (Z.ltb_spec (Z.abs s) (pf_blkSize c)), (Z.ltb_spec s 0); lia. Qed.

Lemma stride_loop_ok c degree a s : pf_conf_ok c -> inword 64 a -> - 2 ^ 31 < s < 2 ^ 31 ->
  forall n d, small_steps c (step_of c s) d -> degree = d + Z.of_nat n - 1 ->
  stride_loop c degree a s n d
  = Ret (page_run c a (step_of c s) n d, Z.of_nat (n - length (page_run c a (step_of c s) n d))).
Proof.
  intros Hc Ha Hs. pose proof (step_of_range c s Hc Hs) as Hr. induction n as [|n IH]; intros d Hd Hdeg; [done|].
  cbn [stride_loop page_run]. rewrite prefetch_stride_ok by done. cbn [mbind res_bind].
  pose proof (small_steps_bound c (step_of c s) d Hc ltac:(lia) Hd) as Hb.
  unfold int_of, in_int. rewrite (proj2 (Z.leb_le _ _)), (proj2 (Z.ltb_lt _ _)) by lia. cbn [andb mbind res_bind].
  destruct (samePage_shift c a (d * step_of c s) Hc Ha) as [-> Hin]; [lia|].
  destruct (Z.eqb_spec (page_of c (a + d * step_of c s)) (page_of c a)) as [E | E].
  - rewrite IH by (try lia; by eapply small_steps_next). cbn [mbind res_bind]. rewrite wrap_small by auto. done.
  - cbn [length]. do 2 f_equal. lia.
Qed.

(** ** What a policy promises to the queue *)

(** On the accesses a policy accepts it returns, and the addresses lie in the page
    of the access but not in its line. *)
Class PrefetchPolicyOk (S : Type) `{PrefetchPolicy S} (c : PrefetchConf) (Inv : S -> Prop) (Ok : S -> PPacket -> Z -> Prop)
    : Prop := {
  policy_ok s pkt rnd :
    Inv s -> inword 64 (pkt_addr (pp_pkt pkt)) -> Ok s pkt rnd ->
    exists s' l span, calculatePrefetch c s pkt rnd = Ret (s', l, span) /\ Inv s' /\ 0 <= span /\
      Forall (fun a => inword 64 a /\ page_of c a = page_of c (pkt_addr (pp_pkt pkt)) /\
                       line_no c a <> line_no c (pkt_addr (pp_pkt pkt))) l
}.

(** A run of proper steps leaves the line and stays in the address space. *)
Lemma page_run_ok c a p n d :
  pf_conf_ok c -> inword 64 a -> pf_blkSize c <= Z.abs p -> 1 <= d ->
  Forall (fun x => inword 64 x /\ page_of c x = page_of c a /\ line_no c x <> line_no c a) (page_run c a p n d).
Proof.
  intros Hc Ha Hp Hd. pose proof (pf_sizes c Hc) as Hs. apply Forall_forall. intros x Hx.
  destruct (page_run_spec c a p n d x Hx) as (i & Hi & -> & E). pose proof (page_step_bound c a (i * p) Hc E) as Hb.
  split; [apply (proj2 (samePage_shift c a (i * p) Hc Ha ltac:(lia)) E)|]. split; [done|]. unfold line_no. intros El.
  pose proof (Z.mul_div_le a (pf_blkSize c)). pose proof (Z.mul_succ_div_gt a (pf_blkSize c)).
  pose proof (Z.mul_div_le (a + i * p) (pf_blkSize c)). pose proof (Z.mul_succ_div_gt (a + i * p) (pf_blkSize c)).
  rewrite El in *. assert (Z.abs p <= Z.abs (i * p)) by (rewrite Z.abs_mul, (Z.abs_eq i) by lia; nia). lia.
Qed.

#[export] Instance TaggedPolicyOk c :
  pf_conf_ok c -> PrefetchPolicyOk TaggedPrefetcher c (fun s => 0 <= tg_degree s) (fun _ _ _ => True).
Proof.
  intros Hc. split. intros s pkt rnd Hs Ha _. cbn. unfold tagged_calculatePrefetch.
  set (a := pkt_addr (pp_pkt pkt)) in *. pose proof (pf_sizes c Hc). pose proof (pf_blkAlign_inword c a Hc Ha) as Hb.
  rewrite tagged_loop_ok; [|done|done|by split; [|left]|lia]. eexists _, _, _. split; [reflexivity|]. split; [done|]. split; [lia|].
  eapply Forall_impl; [apply (page_run_ok c (pf_blkAlign c a) (pf_blkSize c)); [done|done|lia|lia]|].
  intros x (H1 & H2 & H3). rewrite pf_blkAlign_line in H3 by done. split; [done|]. split; [|done].
  rewrite H2, !page_of_line, pf_blkAlign_line by done. done.
Qed.

(** ** The stride table *)

Definition stride_conf_ok (k : StrideConf) : Prop :=
  (exists j, 0 <= j < 31 /\ pcTableSets k = 2 ^ j) /\ minConf k <= 0 <= maxConf k /\
  minConf k <= startConf k <= maxConf k /\ minConf k < threshConf k <= maxConf k /\ 0 <= st_degree k.

Definition table_ok (k : StrideConf) (t : list (list StrideEntry)) : Prop :=
  length t = Z.to_nat (pcTableSets k) /\
  forall l, l ∈ t -> length l = pcTableAssoc k /\ forall e, e ∈ l -> minConf k <= confidence e <= maxConf k.

Definition stride_inv (s : StridePrefetcher) : Prop :=
  stride_conf_ok (st_conf s) /\ forall x t, pcTable s !! x = Some t -> table_ok (st_conf s) t.

(** The set of an instruction and its entry there. *)
Definition set_of (k : StrideConf) (pc : Z) : nat :=
  Z.to_nat (Z.land (Z.lxor (Z.shiftr pc 1) (Z.shiftr (Z.shiftr pc 1) (Z.log2 (pcTableSets k)))) (pcTableSets k - 1)).
Definition is_entry (pc : Z) (sec : bool) (e : StrideEntry) : Prop := instAddr e = pc /\ se_isSecure e = sec.

#[export] Instance is_entry_dec pc sec e : Decision (is_entry pc sec e).
Proof. unfold is_entry. apply _. Defined.

Definition entry_for (s : StridePrefetcher) (context pc : Z) (sec : bool) : option StrideEntry :=
  l ← (context_table s context).1 !! set_of (st_conf s) pc;
  snd <$> list_find (is_entry pc sec) l.

Lemma pcHash_ok k pc : stride_conf_ok k -> pcHash k pc = Ret (Z.of_nat (set_of k pc)) /\ (set_of k pc < Z.to_nat (pcTableSets k))%nat.
Proof.
  intros ((j & Hj & Ej) & _). unfold pcHash, set_of. pose proof (Z.pow_pos_nonneg 2 j). pose proof (Z.pow_lt_mono_r 2 j 31).
  assert (El : floorLog2_s32 (pcTableSets k) = Ret (Z.log2 (pcTableSets k))).
  { unfold floorLog2_s32. rewrite cassert_true by (apply Z.ltb_lt; lia). cbn [mbind res_bind].
    rewrite wrap_small by (unfold inword; lia). apply floorLog2_u32_log2. lia. }
  rewrite El. cbn [mbind res_bind]. rewrite wrap_small by (unfold inword; lia). rewrite Ej.
  replace (2 ^ j - 1) with (Z.ones j) by (rewrite Z.ones_equiv; lia).
  set (x := Z.lxor _ _). rewrite Z.land_ones by lia. pose proof (Z.mod_pos_bound x (2 ^ j) ltac:(lia)).
  split; [rewrite Z2Nat.id by lia; done|lia].
Qed.

Lemma find_way_eq l pc sec n : find_way l pc sec n = (fun p => (n + p.1)%nat) <$> list_find (is_entry pc sec) l.
Proof.
  revert n. induction l as [|e l IH]; intros n; [done|]. cbn [find_way list_find].
  destruct (decide (is_entry pc sec e)) as [[<- <-] | Hn].
  - rewrite Z.eqb_refl, Bool.eqb_reflx. cbn. f_equal. lia.
  - assert ((instAddr e =? pc) && Bool.eqb (se_isSecure e) sec = false) as ->.
    { apply not_true_iff_false. intros H. apply andb_true_iff in H as [H1 H2]. apply Z.eqb_eq in H1. apply Bool.eqb_prop in H2. by apply Hn. }
    rewrite IH. destruct (list_find (is_entry pc sec) l) as [[i x]|]; cbn; [f_equal; lia|done].
Qed.

Lemma context_table_ok s x : stride_inv s ->
  table_ok (st_conf s) (context_table s x).1 /\ st_conf (context_table s x).2 = st_conf s /\
  stride_inv (context_table s x).2 /\ (forall y, (context_table (context_table s x).2 y).1 = (context_table s y).1).
Proof.
  intros [Hk Ht]. unfold context_table. destruct (pcTable s !! x) as [t|] eqn:E; [by split; [eauto|]|].
  assert (Hnew : table_ok (st_conf s) (replicate (Z.to_nat (pcTableSets (st_conf s))) (replicate (pcTableAssoc (st_conf s)) StrideEntry_new))).
  { split; [by rewrite length_replicate|]. intros l Hl. apply elem_of_replicate in Hl as [-> _]. rewrite length_replicate. split; [done|].
    intros e He. apply elem_of_replicate in He as [-> _]. destruct Hk as (_ & ? & _). done. }
  split; [done|]. split; [done|]. split.
  - split; [done|]. cbn. intros y t. destruct (decide (y = x)) as [-> | Hn].
    + rewrite lookup_insert_eq. by intros [= <-].
    + rewrite lookup_insert_ne by done. apply Ht.
  - intros y. cbn. destruct (decide (y = x)) as [-> | Hn].
    + by rewrite lookup_insert_eq, E.
    + rewrite lookup_insert_ne by done. by destruct (pcTable s !! y).
Qed.

(** *** Searching a set after a write *)

Section find_insert.
Context {A : Type} (P : A -> Prop) `{!forall x, Decision (P x)}.

Lemma list_find_insert_hit l w e e' : list_find P l = Some (w, e) -> P e' -> list_find P (<[w := e']> l) = Some (w, e').
Proof.
  intros Hf He. apply list_find_Some in Hf as (Hw & _ & Hb). apply list_find_Some.
  split; [apply list_lookup_insert_eq; by eapply lookup_lt_Some|]. split; [done|]. intros j y Hy Hj.
  rewrite list_lookup_insert_ne in Hy by lia. by eapply Hb.
Qed.

Lemma list_find_insert_new l w e' : list_find P l = None -> (w < length l)%nat -> P e' -> list_find P (<[w := e']> l) = Some (w, e').
Proof.
  intros Hf Hw He. apply list_find_None in Hf. rewrite Forall_forall in Hf. apply list_find_Some.
  split; [by apply list_lookup_insert_eq|]. split; [done|]. intros j y Hy Hj.
  rewrite list_lookup_insert_ne in Hy by lia. apply Hf. by eapply list_elem_of_lookup_2.
Qed.

Lemma list_find_insert_other l w e' :
  ~ P e' -> (forall x, l !! w = Some x -> ~ P x) -> list_find P (<[w := e']> l) = list_find P l.
Proof.
  intros He. revert w. induction l as [|y l IH]; intros [|w] Hx; try done; cbn.
  - rewrite decide_False by done. by rewrite (decide_False (P := P y)) by (by apply Hx).
  - case_decide; [done|]. by rewrite IH by (intros; by apply Hx).
Qed.
End find_insert.

Lemma write_entry_ok s x set way e l :
  stride_inv s -> (context_table s x).1 !! set = Some l -> (way < length l)%nat ->
  minConf (st_conf s) <= confidence e <= maxConf (st_conf s) ->
  exists s', write_entry s x (set, way) e = Ret s' /\ stride_inv s' /\ st_conf s' = st_conf s /\
    (context_table s' x).1 = <[set := <[way := e]> l]> (context_table s x).1 /\
    (forall y, y <> x -> (context_table s' y).1 = (context_table s y).1).
Proof.
  intros Hs Hl Hw He. destruct (context_table_ok s x Hs) as (Ht & Ek & [Hs1 Hs2] & Htab). unfold write_entry.
  destruct (context_table s x) as [t s1] eqn:Ec. cbn [fst snd] in *. rewrite (vread_some _ _ _ Hl). cbn [mbind res_bind].
  rewrite vwrite_lt by done. cbn [mbind res_bind]. rewrite vwrite_lt by (by eapply lookup_lt_Some). cbn [mbind res_bind].
  eexists. split; [reflexivity|]. split; [|split; [done|split]].
  - split; [done|]. cbn. intros y t'. destruct (decide (y = x)) as [-> | Hn]; [|rewrite lookup_insert_ne by done; apply Hs2].
    rewrite lookup_insert_eq. intros [= <-]. rewrite Ek in *. destruct Ht as [Hlen Hall]. split; [by rewrite length_insert|].
    intros l' Hl'. apply list_elem_of_lookup in Hl' as [i Hi].
    destruct (decide (i = set)) as [-> | Hi']; cycle 1.
    { rewrite list_lookup_insert_ne in Hi by done. apply Hall. by eapply list_elem_of_lookup_2. }
    rewrite list_lookup_insert_eq in Hi by (by eapply lookup_lt_Some). injection Hi as <-. rewrite length_insert.
    destruct (Hall l) as [Hlen' Hconf]; [by eapply list_elem_of_lookup_2|]. split; [done|]. intros e' He'.
    apply list_elem_of_lookup in He' as [j Hj]. destruct (decide (j = way)) as [-> | Hj'].
    + rewrite list_lookup_insert_eq in Hj by done. by injection Hj as <-.
    + rewrite list_lookup_insert_ne in Hj by done. apply Hconf. by eapply list_elem_of_lookup_2.
  - unfold context_table at 1. cbn. by rewrite lookup_insert_eq.
  - intros y Hy. rewrite <- (Htab y). unfold context_table. cbn [pcTable st_conf]. rewrite lookup_insert_ne by done.
    by destruct (pcTable s1 !! y).
Qed.

(** What one write does to the entries. *)
Lemma entry_after_write s s' x set way e l pc sec :
  st_conf s' = st_conf s -> set_of (st_conf s) pc = set -> (context_table s x).1 !! set = Some l ->
  (context_table s' x).1 = <[set := <[way := e]> l]> (context_table s x).1 ->
  (forall y, y <> x -> (context_table s' y).1 = (context_table s y).1) ->
  entry_for s' x pc sec = snd <$> list_find (is_entry pc sec) (<[way := e]> l) /\
  (forall y pc' sec', y <> x \/ set_of (st_conf s) pc' <> set -> entry_for s' y pc' sec' = entry_for s y pc' sec') /\
  (forall pc' sec', ~ is_entry pc' sec' e -> (forall e0, l !! way = Some e0 -> ~ is_entry pc' sec' e0) ->
     entry_for s' x pc' sec' = entry_for s x pc' sec').
Proof.
  intros Ek Eset Hl Hx Hy. unfold entry_for. rewrite Ek. split; [|split].
  - rewrite Eset, Hx, list_lookup_insert_eq by (by eapply lookup_lt_Some). done.
  - intros y pc' sec' Hor. destruct (decide (y = x)) as [-> | Hn]; [|by rewrite Hy].
    rewrite Hx, list_lookup_insert_ne by naive_solver. done.
  - intros pc' sec' He He0. rewrite Hx. destruct (decide (set_of (st_conf s) pc' = set)) as [E | E].
    + rewrite E, Hl, list_lookup_insert_eq by (by eapply lookup_lt_Some). cbn.
      by rewrite list_find_insert_other.
    + by rewrite list_lookup_insert_ne by done.
Qed.

Lemma entry_for_context s x y pc sec : stride_inv s -> entry_for (context_table s x).2 y pc sec = entry_for s y pc sec.
Proof. intros Hs. destruct (context_table_ok s x Hs) as (_ & Ek & _ & Htab). unfold entry_for. by rewrite Ek, Htab. Qed.

(** The context of an access. *)
Definition access_context (k : StrideConf) (p : PPacket) : Z := if useMasterId k then req_masterId (pkt_req (pp_pkt p)) else 0.

Lemma train_conf k e addr ns : minConf k <= confidence e <= maxConf k ->
  minConf k <= confidence (train k e addr ns) <= maxConf k.
Proof.
  intros He. unfold train. destruct ((ns =? stride e) && negb (ns =? 0)); cbn.
  - destruct (Z.ltb_spec (confidence e) (maxConf k)); lia.
  - destruct (Z.ltb_spec (minConf k) (confidence e)); lia.
Qed.

(** The addresses for an entry after training. *)
Definition strided (c : PrefetchConf) (k : StrideConf) (e : StrideEntry) (addr new_stride : Z) : list Z :=
  if confidence e <? threshConf k then [] else page_run c addr (step_of c new_stride) (Z.to_nat (st_degree k)) 1.

Section stride_step.
Context (c : PrefetchConf) (s : StridePrefetcher) (pkt : PPacket) (rnd pc : Z).
Context (Hc : pf_conf_ok c) (Hs : stride_inv s) (Hpc : pp_pc pkt = Some pc) (Ha : inword 64 (pkt_addr (pp_pkt pkt))).
Local Abbreviation k := (st_conf s).
Local Abbreviation x := (access_context k pkt).
Local Abbreviation sec := (pkt_isSecure (pp_pkt pkt)).
Local Abbreviation addr := (pkt_addr (pp_pkt pkt)).

Lemma table_set : exists l, (context_table s x).1 !! set_of k pc = Some l /\ length l = pcTableAssoc k /\
  (forall e, e ∈ l -> minConf k <= confidence e <= maxConf k).
Proof.
  destruct (context_table_ok s x Hs) as ([Hlen Hall] & _). destruct (pcHash_ok k pc (proj1 Hs)) as [_ Hlt].
  destruct (lookup_lt_is_Some_2 (context_table s x).1 (set_of k pc)) as [l Hl]; [lia|]. exists l. split; [done|].
  apply Hall. by eapply list_elem_of_lookup_2.
Qed.

Lemma stride_hit_step e :
  entry_for s x pc sec = Some e -> s32 (addr - lastAddr e) <> - 2 ^ 31 ->
  let ns := s32 (addr - lastAddr e) in
  let e' := train k e addr ns in
  exists s' span, stride_calculatePrefetch c s pkt rnd = Ret (s', strided c k e' addr ns, span) /\ 0 <= span /\
    stride_inv s' /\ st_conf s' = k /\ entry_for s' x pc sec = Some e' /\
    (forall y pc' sec', (y, pc', sec') <> (x, pc, sec) -> entry_for s' y pc' sec' = entry_for s y pc' sec').
Proof.
  intros He Hns ns e'. destruct table_set as (l & Hl & Hlen & Hconf). destruct (pcHash_ok k pc (proj1 Hs)) as [Eh _].
  destruct (context_table_ok s x Hs) as (_ & Ek & Hs1 & Htab).
  unfold entry_for in He. rewrite Hl in He. cbn in He. destruct (list_find (is_entry pc sec) l) as [[w e0]|] eqn:Ef; [|done].
  cbn in He. injection He as ->. pose proof Ef as Ef'. apply list_find_Some in Ef' as (Hw & [Ei Esec] & _).
  unfold stride_calculatePrefetch. rewrite Hpc. cbn zeta. fold (access_context k pkt).
  unfold pcTableHit. rewrite Eh. cbn [mbind res_bind]. rewrite Nat2Z.id.
  assert (Ec : exists t s1, context_table s x = (t, s1)) by (destruct (context_table s x); eauto).
  destruct Ec as (t & s1 & Ec). rewrite Ec in *. cbn [fst snd] in *.
  rewrite (vread_some _ _ _ Hl). cbn [mbind res_bind]. rewrite find_way_eq, Ef. cbn [fmap option_fmap option_map fst Nat.add mbind res_bind].
  unfold read_entry. cbn [fst snd]. pose proof (Htab x) as Htx. rewrite Ec in Htx. cbn [fst] in Htx. rewrite Htx, (vread_some _ _ _ Hl). cbn [mbind res_bind].
  rewrite (vread_some _ _ _ Hw). cbn [mbind res_bind]. fold ns. fold e'.
  destruct (write_entry_ok s1 x (set_of k pc) w e' l) as (s' & Ew & Hs' & Ek' & Hx' & Hy'); [done|by rewrite Htx|by eapply lookup_lt_Some| |].
  { rewrite Ek. apply train_conf, Hconf. by eapply list_elem_of_lookup_2. }
  rewrite Ew. cbn [mbind res_bind].
  assert (Hfor : forall y pc' sec', entry_for s1 y pc' sec' = entry_for s y pc' sec').
  { intros. pose proof (entry_for_context s x y pc' sec' Hs) as E. by rewrite Ec in E. }
  destruct (entry_after_write s1 s' x (set_of k pc) w e' l pc sec) as (E1 & E2 & E3); [done|by rewrite Ek|by rewrite Htx|done|done|].
  assert (Hkey : is_entry pc sec e') by (unfold e', train, is_entry; by destruct (_ && _)).
  assert (Hall : stride_inv s' /\ st_conf s' = k /\ entry_for s' x pc sec = Some e' /\
    (forall y pc' sec', (y, pc', sec') <> (x, pc, sec) -> entry_for s' y pc' sec' = entry_for s y pc' sec')).
  { split; [done|]. split; [congruence|]. split; [by rewrite E1, (list_find_insert_hit _ _ _ e)|].
    intros y pc' sec' Hne. rewrite <- Hfor. destruct (decide (y = x)) as [-> | Hn]; [|apply E2; by left].
    apply E3.
    - intros [? ?]. destruct Hkey as [? ?]. congruence.
    - intros e0 He0. rewrite Hw in He0. injection He0 as <-. intros [? ?]. congruence. }
  unfold strided. destruct (Z.ltb_spec (confidence e') (threshConf k)) as [Hlo | Hlo].
  - exists s', 0. split; [done|]. split; [lia|done].
  - pose proof (s32_range (addr - lastAddr e)) as Hr. fold ns in Hr, Hns.
    destruct (proj1 Hs) as (_ & _ & _ & _ & Hdeg).
    rewrite stride_loop_ok; [|done|done|lia|by split; [|left]|lia]. cbn [mbind res_bind].
    eexists s', _. split; [reflexivity|]. split; [lia|done].
Qed.

Lemma stride_miss_step :
  entry_for s x pc sec = None -> 0 <= rnd < Z.of_nat (pcTableAssoc k) ->
  exists s', stride_calculatePrefetch c s pkt rnd = Ret (s', [], 0) /\ stride_inv s' /\ st_conf s' = k /\
    entry_for s' x pc sec = Some (mkStrideEntry pc addr sec 0 (startConf k)) /\
    (forall y pc' sec', y <> x \/ set_of k pc' <> set_of k pc -> entry_for s' y pc' sec' = entry_for s y pc' sec').
Proof.
  intros He Hr. destruct table_set as (l & Hl & Hlen & Hconf). destruct (pcHash_ok k pc (proj1 Hs)) as [Eh _].
  destruct (context_table_ok s x Hs) as (_ & Ek & Hs1 & Htab).
  unfold entry_for in He. rewrite Hl in He. cbn in He. destruct (list_find (is_entry pc sec) l) as [[w e0]|] eqn:Ef; [done|]. clear He.
  unfold stride_calculatePrefetch. rewrite Hpc. cbn zeta. fold (access_context k pkt).
  unfold pcTableHit. rewrite Eh. cbn [mbind res_bind]. rewrite Nat2Z.id.
  assert (Ec : exists t s1, context_table s x = (t, s1)) by (destruct (context_table s x); eauto).
  destruct Ec as (t & s1 & Ec). rewrite Ec in *. cbn [fst snd] in *.
  rewrite (vread_some _ _ _ Hl). cbn [mbind res_bind]. rewrite find_way_eq, Ef. cbn [fmap option_fmap option_map mbind res_bind].
  pose proof (Htab x) as Htx. rewrite Ec in Htx. cbn [fst] in Htx.
  unfold pcTableVictim. rewrite Ek, Eh. cbn [mbind res_bind]. rewrite Nat2Z.id.
  destruct (context_table_ok s1 x Hs1) as (_ & Ek2 & Hs2 & Htab2).
  assert (Ec2 : exists t s2, context_table s1 x = (t, s2)) by (destruct (context_table s1 x); eauto).
  destruct Ec2 as (t2 & s2 & Ec2). rewrite Ec2 in *. cbn [fst snd] in *. subst t2.
  rewrite (vread_some _ _ _ Hl). cbn [mbind res_bind].
  destruct (lookup_lt_is_Some_2 l (Z.to_nat rnd)) as [e0 He0]; [lia|]. rewrite (vread_some _ _ _ He0). cbn [mbind res_bind].
  set (e' := mkStrideEntry pc addr sec 0 (startConf k)).
  assert (Ht2 : (context_table s2 x).1 = t) by (by rewrite Htab2, Ec2).
  destruct (write_entry_ok s2 x (set_of k pc) (Z.to_nat rnd) e' l) as (s' & Ew & Hs' & Ek' & Hx' & Hy'); [done|by rewrite Ht2|lia| |].
  { rewrite Ek2, Ek. destruct (proj1 Hs) as (_ & _ & ? & _). done. }
  rewrite Ew. cbn [mbind res_bind].
  assert (Hfor : forall y pc' sec', entry_for s2 y pc' sec' = entry_for s y pc' sec').
  { intros. pose proof (entry_for_context s x y pc' sec' Hs) as E. rewrite Ec in E. cbn [snd] in E. rewrite <- E.
    pose proof (entry_for_context s1 x y pc' sec' Hs1) as E'. by rewrite Ec2 in E'. }
  destruct (entry_after_write s2 s' x (set_of k pc) (Z.to_nat rnd) e' l pc sec) as (E1 & E2 & E3); [done|by rewrite Ek2, Ek|by rewrite Ht2|done|done|].
  exists s'. split; [done|]. split; [done|]. split; [congruence|]. split.
  - rewrite E1, (list_find_insert_new _ _ _ e'); [done|done|lia|done].
  - intros y pc' sec' Hor. rewrite <- Hfor. apply E2. by rewrite Ek2, Ek.
Qed.
End stride_step.

(** The accesses the stride prefetcher accepts: a way is drawn, and the distance
    from the last access of the instruction is not the least [int]. *)
Definition stride_accepts (s : StridePrefetcher) (pkt : PPacket) (rnd : Z) : Prop :=
  0 <= rnd < Z.of_nat (pcTableAssoc (st_conf s)) /\
  forall pc e, pp_pc pkt = Some pc ->
    entry_for s (access_context (st_conf s) pkt) pc (pkt_isSecure (pp_pkt pkt)) = Some e ->
    s32 (pkt_addr (pp_pkt pkt) - lastAddr e) <> - 2 ^ 31.

#[export] Instance StridePolicyOk c : pf_conf_ok c -> PrefetchPolicyOk StridePrefetcher c stride_inv stride_accepts.
Proof.
  intros Hc. split. intros s pkt rnd Hs Ha [Hrnd Hacc]. cbn. destruct (pp_pc pkt) as [pc|] eqn:Hpc; cycle 1.
  { unfold stride_calculatePrefetch. rewrite Hpc. by eexists _, _, _. }
  destruct (entry_for s (access_context (st_conf s) pkt) pc (pkt_isSecure (pp_pkt pkt))) as [e|] eqn:He.
  - destruct (stride_hit_step c s pkt rnd pc Hc Hs Hpc Ha e He) as (s' & span & E & Hsp & Hs' & _); [by eapply Hacc|].
    eexists _, _, _. split; [exact E|]. split; [done|]. split; [done|]. unfold strided. destruct (_ <? _); [constructor|].
    pose proof (s32_range (pkt_addr (pp_pkt pkt) - lastAddr e)). specialize (Hacc pc e eq_refl He).
    apply page_run_ok; [done|done|apply step_of_range; [done|lia]|lia].
  - destruct (stride_miss_step c s pkt rnd pc Hs Hpc He Hrnd) as (s' & E & Hs' & _). by eexists _, _, _.
Qed.

(** *** Learning a stride *)

(** How far an entry is from predicting stride [st]. *)
Definition distance (k : StrideConf) (st : Z) (e : StrideEntry) : Z :=
  if stride e =? st then Z.max 0 (threshConf k - confidence e)
  else Z.max (confidence e - threshConf k + 1) 1 + (threshConf k - minConf k).

Lemma train_distance k st e a :
  stride_conf_ok k -> minConf k <= confidence e <= maxConf k -> st <> 0 ->
  distance k st (train k e a st) <= Z.max 0 (distance k st e - 1).
Proof.
  intros (_ & _ & _ & Hth & _) He Hst. unfold distance, train. rewrite (Z.eqb_sym st (stride e)).
  destruct (Z.eqb_spec (stride e) st) as [E | E]; cbn [andb].
  - rewrite (proj2 (Z.eqb_neq st 0)) by done. cbn [negb stride confidence]. rewrite E, Z.eqb_refl.
    destruct (Z.ltb_spec (confidence e) (maxConf k)); lia.
  - cbn [stride confidence]. destruct (Z.ltb_spec (minConf k) (confidence e)) as [H1 | H1].
    + destruct (Z.ltb_spec (confidence e - 1) (threshConf k)); [rewrite Z.eqb_refl; lia|].
      rewrite (proj2 (Z.eqb_neq _ _)) by done. lia.
    + rewrite (proj2 (Z.ltb_lt _ _)) by lia. rewrite Z.eqb_refl. lia.
Qed.

Lemma distance_bound k st e :
  stride_conf_ok k -> minConf k <= confidence e <= maxConf k -> distance k st e <= maxConf k - minConf k + 1.
Proof. intros (_ & _ & _ & Hth & _) He. unfold distance. destruct (_ =? _); lia. Qed.

Lemma distance_zero k st e : stride_conf_ok k -> distance k st e <= 0 -> threshConf k <= confidence e.
Proof. intros (_ & _ & _ & Hth & _). unfold distance. destruct (_ =? _); lia. Qed.

Lemma entry_range s x pc sec e : stride_inv s -> entry_for s x pc sec = Some e ->
  minConf (st_conf s) <= confidence e <= maxConf (st_conf s).
Proof.
  intros Hs He. destruct (context_table_ok s x Hs) as ([_ Hall] & _). unfold entry_for in He.
  destruct ((context_table s x).1 !! set_of (st_conf s) pc) as [l|] eqn:El; [|done]. cbn in He.
  destruct (list_find (is_entry pc sec) l) as [[w e0]|] eqn:Ef; [|done]. cbn in He. injection He as ->.
  apply list_find_Some in Ef as (Hw & _). apply (Hall l); by eapply list_elem_of_lookup_2.
Qed.

(** The accesses [f 0], ..., [f n], the ways drawn, and the addresses of the last. *)
Fixpoint stride_run (c : PrefetchConf) (s : StridePrefetcher) (f : nat -> PPacket) (rnd : nat -> Z) (n : nat)
    : res (StridePrefetcher * list Z) :=
  '(s, l, _) ← match n with
               | O => stride_calculatePrefetch c s (f O) (rnd O)
               | S m => '(s, _) ← stride_run c s f rnd m; stride_calculatePrefetch c s (f n) (rnd n)
               end;
  Ret (s, l).

(** The accesses of instruction [pc] with stride [st] from address [a]. *)
Definition strided_accesses (k : StrideConf) (f : nat -> PPacket) (pc a st : Z) : Prop :=
  forall i, pp_pc (f i) = Some pc /\ pkt_addr (pp_pkt (f i)) = a + Z.of_nat i * st /\
    pkt_isSecure (pp_pkt (f i)) = pkt_isSecure (pp_pkt (f O)) /\ access_context k (f i) = access_context k (f O).

Section learn.
Context (c : PrefetchConf) (s : StridePrefetcher) (f : nat -> PPacket) (rnd : nat -> Z) (pc a st : Z).
Context (Hc : pf_conf_ok c) (Hs : stride_inv s) (Hf : strided_accesses (st_conf s) f pc a st).
Context (Hst : - 2 ^ 31 < st < 2 ^ 31) (Hst0 : st <> 0) (Hacc : stride_accepts s (f O) (rnd O)).
Local Abbreviation k := (st_conf s).
Local Abbreviation x := (access_context k (f O)).
Local Abbreviation sec := (pkt_isSecure (pp_pkt (f O))).

Lemma learn_run n : (forall i, (i <= n)%nat -> inword 64 (a + Z.of_nat i * st)) ->
  exists s' l e, stride_run c s f rnd n = Ret (s', l) /\ stride_inv s' /\ st_conf s' = k /\
    entry_for s' x pc sec = Some e /\ lastAddr e = a + Z.of_nat n * st /\
    distance k st e <= Z.max 0 (maxConf k - minConf k + 1 - Z.of_nat n) /\
    (n <> O -> l = strided c k e (a + Z.of_nat n * st) st).
Proof.
  induction n as [|n IH]; intros Hin.
  - destruct (Hf O) as (Hpc & Ha & _ & _). cbn [stride_run]. pose proof (Hin O (le_n _)) as H0. rewrite <- Ha in H0.
    destruct Hacc as [Hrnd Hdist].
    assert (Hk : stride_conf_ok k) by apply Hs.
    destruct (entry_for s x pc sec) as [e|] eqn:He.
    + destruct (stride_hit_step c s (f O) (rnd O) pc Hc Hs Hpc H0 e He) as (s' & span & E & _ & Hs' & Ek & He' & _); [by eapply Hdist|].
      rewrite E. cbn [mbind res_bind]. eexists s', _, _. split; [reflexivity|]. split; [done|]. split; [done|]. split; [exact He'|].
      split; [unfold train; destruct (_ && _); cbn; lia|]. split; [|done].
      etrans; [apply distance_bound; [done|]|lia]. rewrite <- (f_equal minConf Ek), <- (f_equal maxConf Ek).
      by eapply entry_range.
    + destruct (stride_miss_step c s (f O) (rnd O) pc Hs Hpc He Hrnd) as (s' & E & Hs' & Ek & He' & _).
      rewrite E. cbn [mbind res_bind]. eexists s', _, _. split; [reflexivity|]. split; [done|]. split; [done|]. split; [exact He'|].
      split; [cbn; lia|]. split; [|done]. etrans; [apply distance_bound; [done|]|lia]. rewrite <- (f_equal minConf Ek), <- (f_equal maxConf Ek).
      by eapply entry_range.
  - destruct IH as (s1 & l1 & e & E1 & Hs1 & Ek1 & He & Hlast & Hd & _); [intros; apply Hin; lia|].
    destruct (Hf (S n)) as (Hpc & Ha & Hsec & Hx). pose proof (Hin (S n) (le_n _)) as H0. rewrite <- Ha in H0.
    assert (Ens : s32 (pkt_addr (pp_pkt (f (S n))) - lastAddr e) = st).
    { rewrite Ha, Hlast. replace (a + Z.of_nat (S n) * st - (a + Z.of_nat n * st)) with st by lia. apply s32_exact. lia. }
    destruct (stride_hit_step c s1 (f (S n)) (rnd (S n)) pc Hc Hs1 Hpc H0 e) as (s' & span & E & _ & Hs' & Ek & He' & _).
    { by rewrite Ek1, Hsec, Hx. }
    { rewrite Ens. lia. }
    cbn [stride_run]. rewrite E1. cbn [mbind res_bind]. rewrite E. cbn [mbind res_bind].
    rewrite Ek1, Hx, Hsec in *. rewrite Ens in *. eexists s', _, _. split; [reflexivity|]. split; [done|]. split; [done|].
    split; [exact He'|]. split; [unfold train; destruct (_ && _); cbn; lia|]. split.
    + etrans; [apply train_distance; [apply Hs| |done]|lia]. rewrite <- Ek1. by eapply entry_range.
    + intros _. by rewrite <- Ha.
Qed.
End learn.

(** C34. A steady stride is learned.  Whatever the stride prefetcher's table holds,
    when an instruction accesses addresses at a constant distance [st] (not zero,
    and within an [int]), then from the [maxConf - minConf + 2]nd of these accesses
    on each one prefetches exactly the next [degree] addresses, a stride apart (at
    least a line), up to the end of the page; nothing overflows. *)
Theorem stride_learned c s f rnd pc a st n :
  pf_conf_ok c -> stride_inv s -> strided_accesses (st_conf s) f pc a st ->
  - 2 ^ 31 < st < 2 ^ 31 -> st <> 0 -> stride_accepts s (f O) (rnd O) ->
  (forall i, (i <= n)%nat -> inword 64 (a + Z.of_nat i * st)) ->
  maxConf (st_conf s) - minConf (st_conf s) + 1 <= Z.of_nat n ->
  exists s', stride_run c s f rnd n
    = Ret (s', page_run c (a + Z.of_nat n * st) (step_of c st) (Z.to_nat (st_degree (st_conf s))) 1) /\ stride_inv s'.
Proof.
  intros Hc Hs Hf Hst Hst0 Hacc Hin Hn. pose proof (proj1 Hs) as Hk.
  destruct (learn_run c s f rnd pc a st Hc Hs Hf Hst Hst0 Hacc n Hin) as (s' & l & e & E & Hs' & _ & _ & _ & Hd & Hl).
  exists s'. split; [|done]. rewrite E, Hl by (destruct Hk as (_ & _ & _ & ? & _); lia). unfold strided.
  rewrite (proj2 (Z.ltb_ge _ _)); [done|]. apply (distance_zero _ st); [done|]. lia.
Qed.

(** The default prefetcher of a cache of 64-byte lines, with pages of 4 KB. *)
Definition demo_pf_conf : PrefetchConf := mkPrefetchConf 64 4096 false true true true true 5 32 1 500 true true false true.
Definition demo_stride : StridePrefetcher := mkStridePrefetcher (mkStrideConf 7 4 0 4 4 16 true 4) ∅.
Definition demo_load (i : nat) : PPacket :=
  mkPPacket (Packet_new (mkRequest 0 (0x10000 + Z.of_nat i * 256) 8 3 0 0 0) ReadReq) None (Some 0x400).

Lemma stride_learned_witness :
  exists s', stride_run demo_pf_conf demo_stride demo_load (fun _ => 1) 8 = Ret (s', [0x10900; 0x10a00; 0x10b00; 0x10c00]).
Proof.
  destruct (stride_learned demo_pf_conf demo_stride demo_load (fun _ => 1) 0x400 0x10000 256 8) as (s' & E & _).
  - exists 6, 12. split_and!; [lia..|reflexivity|reflexivity].
  - split; [|intros x t H; discriminate H]. split; [by exists 4|]. cbn. lia.
  - intros i. done.
  - lia.
  - lia.
  - split; [cbn; lia|]. intros pc e [= <-] He. vm_compute in He. discriminate He.
  - intros i Hi. unfold inword. lia.
  - cbn. lia.
  - exists s'. exact E.
Defined.

(** ** The queue: lemmas *)

(** The cache answers its lookups. *)
Definition view_ok (v : CacheView) : Prop :=
  forall addr sec, inword 64 addr -> exists b1 b2, inCache v addr sec = Ret b1 /\ inMissQueue v addr sec = Ret b2.

Definition key_of (d : DeferredPrefetch) : Z * bool := (pkt_addr (pp_pkt (dp_pkt d)), pkt_isSecure (pp_pkt (dp_pkt d))).

Lemma same_line_key addr sec d : same_line addr sec d = true <-> key_of d = (addr, sec).
Proof.
  unfold same_line, key_of. rewrite andb_true_iff, Z.eqb_eq, Bool.eqb_true_iff. split; [by intros [-> ->]|by intros [= -> ->]].
Qed.

Lemma same_line_false addr sec d : same_line addr sec d = false <-> key_of d <> (addr, sec).
Proof. rewrite <- not_true_iff_false. by rewrite same_line_key. Qed.

Section queue.
Context {S : Type} `{PrefetchPolicy S}.
Context (c : PrefetchConf) (v : CacheView) (now : Z) (payload : list Z) (pkt : PPacket).
Context (Hc : pf_conf_ok c) (Hv : view_ok v) (Hq0 : queueSize c <> O).
Local Abbreviation sec := (pkt_isSecure (pp_pkt pkt)).
Implicit Types q : QueuedPrefetcher S.

(** The prefetch of an address. *)
Definition prefetch_of (a : Z) : DeferredPrefetch :=
  mkDeferredPrefetch (u64 (now + pf_clockPeriod c * pf_latency c)) (prefetch_packet c payload pkt (pf_blkAlign c a)).

Lemma prefetch_of_key a : key_of (prefetch_of a) = (pf_blkAlign c a, sec).
Proof. unfold key_of, prefetch_of, prefetch_packet. cbn. f_equal. unfold req_isSecure. cbn. by destruct sec. Qed.

Lemma inPrefetch_key q a s : inPrefetch q a s = true <-> (a, s) ∈ key_of <$> pfq q.
Proof.
  unfold inPrefetch. rewrite existsb_exists, list_elem_of_fmap. split.
  - intros (d & Hd & E). apply same_line_key in E. exists d. split; [done|]. by apply list_elem_of_In.
  - intros (d & E & Hd). exists d. rewrite same_line_key. split; [by apply list_elem_of_In|done].
Qed.

(** The end of a queue that keeps the newest [queueSize] entries. *)
Definition newest (l : list DeferredPrefetch) : list DeferredPrefetch := drop (length l - queueSize c) l.

Lemma newest_app l1 l2 : newest (newest l1 ++ l2) = newest (l1 ++ l2).
Proof.
  unfold newest. set (i := (length l1 - queueSize c)%nat).
  replace (drop i l1 ++ l2) with (drop i (l1 ++ l2)) by (rewrite drop_app_le by (unfold i; lia); done).
  rewrite drop_drop. f_equal. rewrite length_drop, length_app. unfold i. lia.
Qed.

Lemma newest_short l : (length l <= queueSize c)%nat -> newest l = l.
Proof. intros. unfold newest. by replace (length l - queueSize c)%nat with O by lia. Qed.

Lemma newest_length l : (length (newest l) <= queueSize c)%nat.
Proof. unfold newest. rewrite length_drop. lia. Qed.

(** The counters besides the spanned pages. *)
Record counted (q q' : QueuedPrefetcher S) (candidates : nat) : Prop := {
  cq_policy : policy q' = policy q;
  cq_issued : pfIssued q' = pfIssued q;
  cq_span : pfSpanPage q' = pfSpanPage q;
  cq_ident : pfIdentified q' = pfIdentified q + Z.of_nat candidates;
  cq_rest : pfBufferHit q' + pfInCache q' + pfRemovedFull q' + Z.of_nat (length (pfq q'))
            = pfBufferHit q + pfInCache q + pfRemovedFull q + Z.of_nat (length (pfq q)) + Z.of_nat candidates
}.

(** One candidate: dropped, or queued at the end. *)
Lemma queue_one_ok a q :
  inword 64 a -> (length (pfq q) <= queueSize c)%nat ->
  exists q' new, queue_one c v now payload pkt a q = Ret q' /\ (new = [] \/ new = [prefetch_of a]) /\
    pfq q' = newest (pfq q ++ new) /\ counted q q' 1 /\
    (queueFilter c = true -> new <> [] -> (pf_blkAlign c a, sec) ∉ key_of <$> pfq q) /\
    (cacheSnoop c = true -> new <> [] -> inCache v (pf_blkAlign c a) sec = Ret false /\ inMissQueue v (pf_blkAlign c a) sec = Ret false).
Proof.
  intros Ha Hlen. unfold queue_one. set (b := pf_blkAlign c a).
  destruct (queueFilter c && inPrefetch (count_pf q 1 0 0 0) b sec) eqn:Ef.
  { eexists _, []. split; [reflexivity|]. split; [by left|]. rewrite app_nil_r, newest_short by done.
    split; [done|]. split; [|done]. split; cbn; try done; lia. }
  destruct (Hv b sec) as (b1 & b2 & E1 & E2); [by apply pf_blkAlign_inword|].
  set (red := cacheSnoop c && (b1 || b2)).
  assert (Er : (if cacheSnoop c then (b0 ← inCache v b sec; if b0 : bool then Ret true else inMissQueue v b sec) else Ret false) = Ret red).
  { unfold red. destruct (cacheSnoop c); [|done]. rewrite E1. cbn [mbind res_bind]. destruct b1; [done|]. by rewrite E2. }
  rewrite Er. cbn [mbind res_bind]. destruct red eqn:Ered.
  { eexists _, []. split; [reflexivity|]. split; [by left|]. rewrite app_nil_r, newest_short by done.
    split; [done|]. split; [|done]. split; cbn; try done; lia. }
  assert (Hfil : queueFilter c = true -> (b, sec) ∉ key_of <$> pfq q).
  { intros Hf. rewrite Hf in Ef. cbn [andb] in Ef. intros Hin. apply (inPrefetch_key q) in Hin. unfold inPrefetch in *. cbn in Ef. congruence. }
  assert (Hsn : cacheSnoop c = true -> inCache v b sec = Ret false /\ inMissQueue v b sec = Ret false).
  { intros Hs. unfold red in Ered. rewrite Hs in Ered. cbn [andb] in Ered. apply orb_false_iff in Ered as [-> ->]. done. }
  cbn [pfq count_pf]. case_bool_decide as Hfull.
  - destruct (pfq q) as [|d l] eqn:El; [by destruct Hq0|]. cbn [mbind res_bind].
    eexists _, [prefetch_of a]. split; [reflexivity|]. split; [by right|]. cbn [pfq with_pfq count_pf]. split.
    { unfold newest. rewrite length_app. cbn [length] in *. replace (Datatypes.S (length l) + 1 - queueSize c)%nat with 1%nat by lia. done. }
    split; [|by split; auto]. split; cbn; rewrite ?El, ?length_app; cbn [length] in *; try done; lia.
  - cbn [mbind res_bind]. eexists _, [prefetch_of a]. split; [reflexivity|]. split; [by right|]. cbn [pfq with_pfq count_pf]. split.
    { rewrite newest_short; [done|]. rewrite length_app. cbn [length]. lia. }
    split; [|by split; auto]. split; cbn; rewrite ?length_app; cbn [length]; try done; lia.
Qed.

Lemma counted_trans q1 q2 q3 m n : counted q1 q2 m -> counted q2 q3 n -> counted q1 q3 (m + n).
Proof. intros [] []. split; try congruence; lia. Qed.

(** The chosen candidates join the queue in order; the oldest entries leave it. *)
Lemma queue_all_ok addrs : forall q,
  Forall (inword 64) addrs -> (length (pfq q) <= queueSize c)%nat ->
  exists q' chosen, queue_all c v now payload pkt addrs q = Ret q' /\ chosen `sublist_of` addrs /\
    pfq q' = newest (pfq q ++ (prefetch_of <$> chosen)) /\ counted q q' (length addrs) /\
    (queueFilter c = true -> NoDup (key_of <$> pfq q) -> NoDup (key_of <$> pfq q')) /\
    (cacheSnoop c = true -> Forall (fun a => inCache v (pf_blkAlign c a) sec = Ret false /\
                                             inMissQueue v (pf_blkAlign c a) sec = Ret false) chosen).
Proof.
  induction addrs as [|a addrs IH]; intros q Ha Hlen.
  { exists q, []. split; [done|]. split; [done|]. cbn [fmap list_fmap]. rewrite app_nil_r, newest_short by done.
    split; [done|]. split; [split; cbn; try done; lia|]. by split; [|constructor]. }
  apply Forall_cons in Ha as [Ha0 Ha].
  destruct (queue_one_ok a q Ha0 Hlen) as (q1 & new & E1 & Hnew & Eq1 & Hc1 & Hf1 & Hs1).
  destruct (IH q1 Ha) as (q2 & chosen & E2 & Hsub & Eq2 & Hc2 & Hf2 & Hs2); [rewrite Eq1; apply newest_length|].
  cbn [queue_all]. rewrite E1. cbn [mbind res_bind]. rewrite E2.
  assert (Hnd : queueFilter c = true -> NoDup (key_of <$> pfq q) -> NoDup (key_of <$> pfq q2)).
  { intros Hf Hq. apply Hf2; [done|]. rewrite Eq1. unfold newest. rewrite fmap_drop.
    eapply sublist_NoDup; [|apply sublist_drop]. rewrite fmap_app. apply NoDup_app. split; [done|].
    destruct Hnew as [-> | ->]; cbn; [split; [set_solver|constructor]|]. rewrite prefetch_of_key. split; [|apply NoDup_singleton].
    intros y Hy Hin. apply list_elem_of_singleton in Hin as ->. by eapply Hf1. }
  pose proof (counted_trans _ _ _ _ _ Hc1 Hc2) as Hcc.
  destruct Hnew as [-> | ->].
  - exists q2, chosen. split; [done|]. split; [by apply sublist_cons|]. split; [|by split].
    rewrite Eq2, Eq1, newest_app, app_nil_r. done.
  - exists q2, (a :: chosen). split; [done|]. split; [by apply sublist_skip|]. split; [|split; [done|]].
    + rewrite Eq2, Eq1, newest_app, <- app_assoc. done.
    + split; [done|]. intros Hs. constructor; [by apply Hs1|by apply Hs2].
Qed.
End queue.

(** ** Runs of a queued prefetcher *)

Section prefetcher.
Context {S : Type} `{PrefetchPolicy S} (c : PrefetchConf) (Inv : S -> Prop) (Ok : S -> PPacket -> Z -> Prop).
Implicit Types q : QueuedPrefetcher S.

Definition pf_delay : Z := pf_clockPeriod c * pf_latency c.

(** An access that the cache may report at time [t]. *)
Definition notify_enabled (t : Z) q (v : CacheView) (rnd : Z) (pkt : PPacket) : Prop :=
  view_ok v /\ inword 64 (pkt_addr (pp_pkt pkt)) /\ Ok (policy q) pkt rnd /\ 0 <= t /\ t + pf_delay < 2 ^ 64.

Inductive pf_reach : Z -> QueuedPrefetcher S -> Prop :=
  | pf_start t s : 0 <= t -> Inv s -> pf_reach t (QueuedPrefetcher_new s)
  | pf_advance t t' q : pf_reach t q -> t <= t' -> pf_reach t' q
  | pf_notify t q v rnd payload pkt r b q' :
      pf_reach t q -> notify_enabled t q v rnd pkt -> notify c v t rnd payload pkt q = Ret (r, b, q') -> pf_reach t q'
  | pf_get t q : pf_reach t q -> pf_reach t (getPacket q).2.

(** A queued packet: a prefetch of a whole line. *)
Record prefetch_ok (t : Z) (d : DeferredPrefetch) : Prop := {
  po_tick : 0 <= dp_tick d <= t + pf_delay;
  po_cmd : pkt_cmd (pp_pkt (dp_pkt d)) = HardPFReq;
  po_size : pkt_size (pp_pkt (dp_pkt d)) = pf_blkSize c;
  po_addr : inword 64 (pkt_addr (pp_pkt (dp_pkt d))) /\ (pf_blkSize c | pkt_addr (pp_pkt (dp_pkt d)));
  po_master : req_masterId (pkt_req (pp_pkt (dp_pkt d))) = pf_masterId c
}.

Record pq_inv (t : Z) q : Prop := {
  pq_policy : Inv (policy q);
  pq_length : (length (pfq q) <= queueSize c)%nat;
  pq_sorted : StronglySorted Z.le (dp_tick <$> pfq q);
  pq_packets : Forall (prefetch_ok t) (pfq q);
  pq_nodup : queueFilter c = true -> NoDup (key_of <$> pfq q);
  pq_counts : let n := pfIssued q + pfBufferHit q + pfInCache q + pfRemovedFull q + Z.of_nat (length (pfq q)) in
              n <= pfIdentified q /\ (queueSquash c = false -> n = pfIdentified q)
}.

Context `{!PrefetchPolicyOk S c Inv Ok} (Hc : pf_conf_ok c) (Hq0 : queueSize c <> O) (Hdelay : 0 <= pf_delay).

Lemma prefetch_ok_later t t' d : t <= t' -> prefetch_ok t d -> prefetch_ok t' d.
Proof. intros Ht []. split; try done. lia. Qed.

Lemma prefetch_of_ok t payload pkt a : 0 <= t -> t + pf_delay < 2 ^ 64 -> inword 64 a -> prefetch_ok t (prefetch_of c t payload pkt a).
Proof.
  intros Ht Hb Ha. unfold prefetch_of, prefetch_packet. split; cbn; try done.
  - fold pf_delay. rewrite wrap_small by (unfold inword; lia). lia.
  - split; [by apply pf_blkAlign_inword|]. rewrite pf_blkAlign_eq by done. exists (line_no c a). lia.
Qed.

Lemma ticks_sorted_snoc (l : list Z) n t :
  StronglySorted Z.le l -> Forall (fun x => x <= t) l -> StronglySorted Z.le (l ++ replicate n t).
Proof.
  intros Hl Ht. induction Hl as [|x l Hl IH Hx]; cbn.
  - induction n as [|n IHn]; cbn; constructor; [exact IHn|]. apply Forall_replicate. lia.
  - apply Forall_cons in Ht as [Hx0 Ht]. constructor; [by apply IH|]. apply Forall_app. split; [done|]. by apply Forall_replicate.
Qed.

Lemma ticks_sorted_drop n (l : list Z) : StronglySorted Z.le l -> StronglySorted Z.le (drop n l).
Proof. intros Hl. revert n. induction Hl; intros [|n]; cbn; [constructor|constructor|by constructor|done]. Qed.

Lemma Forall_sub {A} (P : A -> Prop) l1 l2 : l1 `sublist_of` l2 -> Forall P l2 -> Forall P l1.
Proof.
  intros Hsub. induction Hsub; intros Hl; [constructor| |]; apply Forall_cons in Hl as [? ?]; [constructor|]; auto.
Qed.

Lemma elem_of_drop_in {A} (y : A) n l : y ∈ drop n l -> y ∈ l.
Proof. intros Hy. rewrite <- (take_drop n l). apply elem_of_app. by right. Qed.

Lemma squash_queue_ok t q addr sec :
  pq_inv t q -> let '(b, q') := squash_queue c q addr sec in
  pq_inv t q' /\ policy q' = policy q /\
  pfq q' = (if queueSquash c then List.filter (fun d => negb (same_line addr sec d)) (pfq q) else pfq q) /\
  b = queueSquash c && is_nil (pfq q') /\ (queueSquash c = true -> (addr, sec) ∉ key_of <$> pfq q').
Proof.
  intros Hinv. pose proof Hinv as [Hp Hl Hs Hk Hn Hct]. unfold squash_queue. destruct (queueSquash c) eqn:Esq; [|by split; [exact Hinv|]]. cbn [pfq with_pfq policy].
  set (l := List.filter _ (pfq q)).
  assert (Hsub : l `sublist_of` pfq q).
  { unfold l. clear. induction (pfq q) as [|d l IH]; cbn; [done|]. destruct (negb _); [by apply sublist_skip|by apply sublist_cons]. }
  pose proof (sublist_length _ _ Hsub) as Hle. split; [|split; [done|split; [done|split; [done|]]]].
  - split; cbn; try done; [lia| | | |].
    + assert (Hsub' : (dp_tick <$> l) `sublist_of` (dp_tick <$> pfq q)) by (by apply fmap_sublist).
      clear - Hs Hsub'. induction Hsub' as [|x l1 l2 Hsub IH|x l1 l2 Hsub IH]; [constructor| |].
      * inversion_clear Hs as [|? ? Hs' Hx]. constructor; [by apply IH|]. by eapply Forall_sub.
      * inversion_clear Hs. by apply IH.
    + by eapply Forall_sub.
    + intros Hf. eapply sublist_NoDup; [by apply Hn|]. by apply fmap_sublist.
    + cbn in Hct. split; [lia|congruence].
  - intros _ Hin. apply list_elem_of_fmap in Hin as (d & E & Hd). apply list_elem_of_In, filter_In in Hd as [_ Hd].
    apply negb_true_iff, same_line_false in Hd. congruence.
Qed.

(** The effect of an observed access on the queue. *)
Definition notified (t : Z) (v : CacheView) (rnd : Z) (payload : list Z) (pkt : PPacket) q (b : bool) q' : Prop :=
  let sec := pkt_isSecure (pp_pkt pkt) in
  let line := pf_blkAlign c (pkt_addr (pp_pkt pkt)) in
  let old := if queueSquash c then List.filter (fun d => negb (same_line line sec d)) (pfq q) else pfq q in
  exists addrs span chosen,
    calculatePrefetch c (policy q) pkt rnd = Ret (policy q', addrs, span) /\ chosen `sublist_of` addrs /\
    pfq q' = newest c (old ++ (prefetch_of c t payload pkt <$> chosen)) /\ b = queueSquash c && is_nil old /\
    (cacheSnoop c = true -> Forall (fun a => inCache v (pf_blkAlign c a) sec = Ret false /\
                                             inMissQueue v (pf_blkAlign c a) sec = Ret false) chosen) /\
    Forall (fun d => page_of c (key_of d).1 = page_of c (pkt_addr (pp_pkt pkt))) (prefetch_of c t payload pkt <$> chosen) /\
    (queueSquash c = true -> (line, sec) ∉ key_of <$> pfq q') /\ pfSpanPage q' = pfSpanPage q + span.

Lemma observe_total v pkt : view_ok v -> inword 64 (pkt_addr pkt) -> exists b, observeAccess c v pkt = Ret b.
Proof.
  intros Hv Ha. unfold observeAccess. repeat (destruct (_ : bool); [by eexists|]).
  destruct (onMiss c); [|by eexists]. destruct (Hv (pkt_addr pkt) (pkt_isSecure pkt) Ha) as (b1 & b2 & -> & ->).
  cbn [mbind res_bind]. destruct b1; by eexists.
Qed.

Lemma notify_ok t q v rnd payload pkt :
  pq_inv t q -> notify_enabled t q v rnd pkt ->
  exists r b q' o, notify c v t rnd payload pkt q = Ret (r, b, q') /\ pq_inv t q' /\ r = nextPrefetchReadyTime q' /\
    observeAccess c v (pp_pkt pkt) = Ret o /\
    if o : bool then notified t v rnd payload pkt q b q' else b = false /\ q' = q.
Proof.
  intros Hinv (Hv & Ha & Hok & Ht & Hb). unfold notify. destruct (observe_total v (pp_pkt pkt) Hv Ha) as [o Eo]. rewrite Eo.
  cbn [mbind res_bind]. destruct o; cycle 1.
  { eexists _, _, q, false. split; [reflexivity|]. done. }
  set (line := pf_blkAlign c (pkt_addr (pp_pkt pkt))). pose proof (squash_queue_ok t q line (pkt_isSecure (pp_pkt pkt)) Hinv) as Hsq.
  destruct (squash_queue c q line (pkt_isSecure (pp_pkt pkt))) as [b q1] eqn:Esq. destruct Hsq as (Hinv1 & Ep & Eq1 & Eb & Hline).
  rewrite <- Ep in Hok. destruct (policy_ok (policy q1) pkt rnd (pq_policy _ _ Hinv1) Ha Hok) as (s' & addrs & span & Ec & Hs' & Hspan & Haddrs).
  rewrite Ec. cbn [mbind res_bind]. set (q2 := mkQueuedPrefetcher (pfq q1) s' _ _ _ _ _ _).
  destruct (queue_all_ok c v t payload pkt Hc Hv Hq0 addrs q2) as (q3 & chosen & Eall & Hsub & Eq3 & Hcount & Hnd & Hcached).
  { eapply Forall_impl; [exact Haddrs|]. by intros a [? _]. }
  { apply (pq_length _ _ Hinv1). }
  rewrite Eall. cbn [mbind res_bind]. destruct Hinv1 as [_ Hlen Hsort Hpk Hn Hct]. destruct Hcount as [Cp Ci Csp Cid Crest].
  pose proof (Forall_sub _ _ _ Hsub Haddrs) as Hch. cbn [pfq q2 policy pfIssued pfSpanPage pfIdentified pfBufferHit pfInCache pfRemovedFull] in *.
  eexists _, b, q3, true. split; [reflexivity|]. split; [|split; [done|split; [done|]]].
  - split; [by rewrite Cp|by rewrite Eq3; apply newest_length| | |by intros Hf; apply Hnd, Hn|].
    + rewrite Eq3. unfold newest. rewrite fmap_drop. apply ticks_sorted_drop. rewrite fmap_app.
      assert (Er : dp_tick <$> (prefetch_of c t payload pkt <$> chosen) = replicate (length chosen) (t + pf_delay)).
      { clear - Ht Hb Hdelay. induction chosen as [|a l IH]; [done|]. cbn. rewrite IH. f_equal. fold pf_delay.
        rewrite wrap_small by (unfold inword; lia). done. }
      rewrite Er. apply ticks_sorted_snoc; [done|]. apply Forall_fmap. eapply Forall_impl; [exact Hpk|]. intros d []. cbn. lia.
    + rewrite Eq3. unfold newest. apply Forall_drop, Forall_app. split; [done|]. apply Forall_fmap. eapply Forall_impl; [exact Hch|].
      intros a (Haa & _). by apply prefetch_of_ok.
    + destruct Hct as [H1 H2]. split; [lia|]. intros Hnsq. specialize (H2 Hnsq). lia.
  - unfold notified. fold line. rewrite <- Eq1. exists addrs, span, chosen. rewrite Cp, <- Ep. split; [exact Ec|]. split; [done|]. split; [exact Eq3|].
    split; [exact Eb|]. split; [done|]. split; [|split].
    + apply Forall_fmap. eapply Forall_impl; [exact Hch|]. intros a (Haa & Hpage & _). unfold compose. cbv beta.
      rewrite prefetch_of_key. cbn [fst]. rewrite !page_of_line, pf_blkAlign_line by done. by rewrite <- page_of_line, Hpage, page_of_line.
    + intros Hsq Hin. rewrite Eq3 in Hin. unfold newest in Hin. rewrite fmap_drop in Hin. apply elem_of_drop_in in Hin.
      rewrite fmap_app in Hin. apply elem_of_app in Hin as [Hin | Hin]; [by apply Hline|].
      apply list_elem_of_fmap in Hin as (d & E & Hd). apply list_elem_of_fmap in Hd as (a & -> & Hd). rewrite prefetch_of_key in E.
      rewrite Forall_forall in Hch. destruct (Hch a Hd) as (Haa & _ & Hne). apply Hne. injection E as E.
      rewrite <- (pf_blkAlign_line c a), <- (pf_blkAlign_line c (pkt_addr _)) by done. fold line. by rewrite E.
    + rewrite Csp. unfold squash_queue in Esq. destruct (queueSquash c); injection Esq as _ <-; done.
Qed.

Lemma pq_inv_later t t' q : t <= t' -> pq_inv t q -> pq_inv t' q.
Proof. intros Ht []. split; try done. eapply Forall_impl; [done|]. intros d. by apply prefetch_ok_later. Qed.

Lemma get_inv t q : pq_inv t q -> pq_inv t (getPacket q).2.
Proof.
  unfold getPacket. intros Hinv. destruct (pfq q) as [|d l] eqn:El; [exact Hinv|]. destruct Hinv as [Hp Hl Hs Hk Hn Hct].
  rewrite El in *. cbn [snd]. split; cbn [pfq policy pfIssued pfBufferHit pfInCache pfRemovedFull pfIdentified]; cbn [length fmap list_fmap] in *.
  - done.
  - lia.
  - by inversion_clear Hs.
  - by apply Forall_cons in Hk as [_ ?].
  - intros Hf. specialize (Hn Hf). by apply NoDup_cons in Hn as [_ ?].
  - destruct Hct as [H1 H2]. split; [lia|]. intros Hnsq. specialize (H2 Hnsq). lia.
Qed.

Lemma pf_reach_inv t q : pf_reach t q -> pq_inv t q.
Proof.
  induction 1 as [t s Ht Hs|t t' q _ IH Ht|t q v rnd payload pkt r b q' _ IH He E|t q _ IH].
  - split; cbn; [done|lia|apply SSorted_nil|apply Forall_nil_2|intros _; apply NoDup_nil_2|lia].
  - by eapply pq_inv_later.
  - destruct (notify_ok t q v rnd payload pkt IH He) as (r1 & b1 & q1 & o & E1 & Hinv & _). rewrite E in E1. by injection E1 as <- <- <-.
  - by apply get_inv.
Qed.

Lemma next_earliest t q d : pq_inv t q -> d ∈ pfq q -> nextPrefetchReadyTime q <= dp_tick d.
Proof.
  intros Hinv Hd. pose proof (pq_sorted _ _ Hinv) as Hs. unfold nextPrefetchReadyTime. destruct (pfq q) as [|d0 l]; [by apply not_elem_of_nil in Hd|].
  cbn in Hs. inversion_clear Hs as [|? ? _ Hall]. apply elem_of_cons in Hd as [-> | Hd]; [done|].
  rewrite Forall_forall in Hall. apply Hall. apply list_elem_of_fmap. by exists d.
Qed.
End prefetcher.


Definition demo_view : CacheView := mkCacheView (fun _ _ => Ret false) (fun _ _ => Ret false).
Definition demo_tagged : QueuedPrefetcher TaggedPrefetcher := QueuedPrefetcher_new (mkTaggedPrefetcher 2).


(** *** Lookups of the miss queue *)

(** [findMatch] compares its argument with the addresses of blocks; given an
    address within a block, as [observeAccess] gives it, it finds nothing. *)
Theorem unaligned_never_in_miss_queue tc s h q blk addr sec :
  (forall i, i ∈ allocatedList q -> exists m, h !! i = Some m /\ (blk | m_blkAddr m)) -> ~ (blk | addr) ->
  inMissQueue (cache_view tc s h q) addr sec = Ret false.
Proof.
  intros Hal Hn. cbn. unfold findMatch. induction (allocatedList q) as [|i l IH]; [done|]. cbn [find_match].
  destruct (Hal i) as (m & Hm & Hd); [apply list_elem_of_here|]. rewrite (vread_some _ _ _ Hm). cbn [mbind res_bind].
  assert (Em : m_matches m addr sec = false).
  { apply not_true_iff_false. intros H. unfold m_matches in H. apply andb_true_iff in H as [H _]. apply andb_true_iff in H as [_ H]. apply Z.eqb_eq in H. congruence. }
  rewrite Em. apply IH. intros j Hj. apply Hal. by apply list_elem_of_further.
Qed.

(** A distance of [-2^31] has no absolute value of type [int]. *)
Lemma least_stride_overflows c : prefetch_stride c (- 2 ^ 31) = Err SignedOverflow.
Proof. done. Qed.
