(* ===== verification/SnoopFilter.v ===== *)
(** * The snoop filter of a crossbar: [mem/snoop_filter.hh], [mem/snoop_filter.cc]

    For every cache line the filter keeps two 64-bit masks of slave ports: the
    ports with a request in flight ([requested]) and the ports that may hold a
    copy ([holder]).  A port is represented by its identifier.  The first part
    translates the operations; the second runs them beside the caches above the
    filter (which line is held by which port, which port waits for a response)
    and shows that the filter never loses a copy. *)

From stdpp Require Import gmap.
From S2P Require Import Prelude IntMath Packet.
Local Open Scope Z_scope.

(** ** Data *)

Record SnoopItem := mkSnoopItem { requested : Z; holder : Z }.

Record SnoopFilter := mkSnoopFilter {
  cachedLocations : gmap Z SnoopItem;
  slavePorts : list Z;
  linesize : Z;
  lookupLatency : Z;
  totRequests : nat;
  hitSingleRequests : nat;
  hitMultiRequests : nat;
  totSnoops : nat;
  hitSingleSnoops : nat;
  hitMultiSnoops : nat
}.

Definition SnoopFilter_new (line latency : Z) : SnoopFilter :=
  mkSnoopFilter ∅ [] line latency 0 0 0 0 0 0.

Definition setSlavePorts (sf : SnoopFilter) (ports : list Z) : SnoopFilter :=
  mkSnoopFilter (cachedLocations sf) ports (linesize sf) (lookupLatency sf) (totRequests sf)
    (hitSingleRequests sf) (hitMultiRequests sf) (totSnoops sf) (hitSingleSnoops sf)
    (hitMultiSnoops sf).

(** A modification of the item of a line, in place. *)
Definition set_item (sf : SnoopFilter) (a : Z) (it : SnoopItem) : SnoopFilter :=
  mkSnoopFilter (<[a := it]> (cachedLocations sf)) (slavePorts sf) (linesize sf)
    (lookupLatency sf) (totRequests sf) (hitSingleRequests sf) (hitMultiRequests sf)
    (totSnoops sf) (hitSingleSnoops sf) (hitMultiSnoops sf).

(** [cachedLocations[a]] of the hash map: a line that is absent has no bit set
    (its item is created with value initialisation). *)
Definition item (sf : SnoopFilter) (a : Z) : SnoopItem :=
  default (mkSnoopItem 0 0) (cachedLocations sf !! a).

Definition is_hit (sf : SnoopFilter) (a : Z) : bool :=
  match cachedLocations sf !! a with
  | Some _ => true
  | None => false
  end.

(** ** Ports and masks *)

(** The conversions of the source: [getId()] is a 16-bit signed number, [id] a
    32-bit unsigned one, and the comparison with the mask width is unsigned. *)
Definition portToMask (port : Z) : res Z :=
  let id := u32 port in
  _ ← cassert (negb (id =? u32 (-1)));
  _ ← cassert (u64 (s32 id) <? 8 * 8);
  Ret (u64 (Z.shiftl 1 id)).

Fixpoint portListToMask_from (m : Z) (ports : list Z) : res Z :=
  match ports with
  | [] => Ret m
  | port :: ports =>
      x ← portToMask port;
      portListToMask_from (Z.lor m x) ports
  end.

Definition portListToMask (ports : list Z) : res Z := portListToMask_from 0 ports.

Fixpoint select_ports (port_mask : Z) (ports : list Z) : res (list Z) :=
  match ports with
  | [] => Ret []
  | port :: ports =>
      x ← portToMask port;
      l ← select_ports port_mask ports;
      Ret (if negb (Z.land port_mask x =? 0) then port :: l else l)
  end.

Definition maskToPortList (sf : SnoopFilter) (port_mask : Z) : res (list Z) :=
  select_ports port_mask (slavePorts sf).

Definition snoopAll (sf : SnoopFilter) (latency : Z) : list Z * Z := (slavePorts sf, latency).
Definition snoopSelected (slave_ports : list Z) (latency : Z) : list Z * Z :=
  (slave_ports, latency).
Definition snoopDown (latency : Z) : list Z * Z := ([], latency).

(** ** Operations *)

(** [cpkt->getAddr() & ~(linesize - 1)], where [linesize] is an [unsigned]: the
    complement has 32 bits and is extended with zeros. *)
Definition line_addr (sf : SnoopFilter) (p : Packet) : Z :=
  Z.land (pkt_addr p) (wnot 32 (u32 (linesize sf - 1))).

Definition count_request (sf : SnoopFilter) (hit single : bool) : SnoopFilter :=
  mkSnoopFilter (cachedLocations sf) (slavePorts sf) (linesize sf) (lookupLatency sf)
    (S (totRequests sf))
    (if hit && single then S (hitSingleRequests sf) else hitSingleRequests sf)
    (if hit && negb single then S (hitMultiRequests sf) else hitMultiRequests sf)
    (totSnoops sf) (hitSingleSnoops sf) (hitMultiSnoops sf).

Definition count_snoop (sf : SnoopFilter) (hit single : bool) : SnoopFilter :=
  mkSnoopFilter (cachedLocations sf) (slavePorts sf) (linesize sf) (lookupLatency sf)
    (totRequests sf) (hitSingleRequests sf) (hitMultiRequests sf) (S (totSnoops sf))
    (if hit && single then S (hitSingleSnoops sf) else hitSingleSnoops sf)
    (if hit && negb single then S (hitMultiSnoops sf) else hitMultiSnoops sf).

Definition panic_if (b : bool) : res unit := if b then Err Panic else Ret tt.

Definition lookupRequest (sf : SnoopFilter) (cpkt : Packet) (slave_port : Z)
    : res (SnoopFilter * (list Z * Z)) :=
  let a := line_addr sf cpkt in
  req_port ← portToMask slave_port;
  let hit := is_hit sf a in
  let sf_item := item sf a in
  let interested := Z.lor (holder sf_item) (requested sf_item) in
  let sf := set_item sf a sf_item in
  let sf := count_request sf hit (isPow2 64 interested) in
  sf ← (if negb (req_isUncacheable (pkt_req cpkt)) && cmd_needsResponse (pkt_cmd cpkt) then
          if negb (memInhibitAsserted cpkt) then
            _ ← panic_if (negb (Z.land (requested sf_item) req_port =? 0));
            Ret (set_item sf a
                   (mkSnoopItem (Z.lor (requested sf_item) req_port) (holder sf_item)))
          else
            _ ← panic_if (Z.land (holder sf_item) req_port =? 0);
            Ret sf
        else Ret sf);
  l ← maskToPortList sf (Z.land interested (wnot 64 req_port));
  Ret (sf, snoopSelected l (lookupLatency sf)).

Definition updateRequest (sf : SnoopFilter) (cpkt : Packet) (slave_port : Z)
    (will_retry : bool) : res SnoopFilter :=
  if req_isUncacheable (pkt_req cpkt) then Ret sf
  else
    let a := line_addr sf cpkt in
    req_port ← portToMask slave_port;
    let sf_item := item sf a in
    let sf := set_item sf a sf_item in
    if will_retry then
      Ret (set_item sf a
             (mkSnoopItem (Z.land (requested sf_item) (wnot 64 req_port)) (holder sf_item)))
    else if negb (cmd_needsResponse (pkt_cmd cpkt)) then
      if bool_decide (pkt_cmd cpkt = Writeback) then
        _ ← panic_if (negb (Z.land (requested sf_item) req_port =? 0));
        _ ← panic_if (Z.land (holder sf_item) req_port =? 0);
        Ret (set_item sf a
               (mkSnoopItem (requested sf_item) (Z.land (holder sf_item) (wnot 64 req_port))))
      else Err AssertFailed
    else Ret sf.

Definition lookupSnoop (sf : SnoopFilter) (cpkt : Packet)
    : res (SnoopFilter * (list Z * Z)) :=
  _ ← cassert (cmd_isRequest (pkt_cmd cpkt));
  let a := line_addr sf cpkt in
  let hit := is_hit sf a in
  let sf_item := item sf a in
  let sf := set_item sf a sf_item in
  let interested := Z.lor (holder sf_item) (requested sf_item) in
  let sf := count_snoop sf hit (isPow2 64 interested) in
  _ ← cassert (Bool.eqb (cmd_isInvalidate (pkt_cmd cpkt)) (cmd_needsExclusive (pkt_cmd cpkt)));
  let sf := if cmd_isInvalidate (pkt_cmd cpkt) && (requested sf_item =? 0)
            then set_item sf a (mkSnoopItem (requested sf_item) 0) else sf in
  l ← maskToPortList sf interested;
  Ret (sf, snoopSelected l (lookupLatency sf)).

Definition updateSnoopResponse (sf : SnoopFilter) (cpkt : Packet) (rsp_port req_port : Z)
    : res SnoopFilter :=
  _ ← cassert (cmd_isResponse (pkt_cmd cpkt));
  _ ← cassert (memInhibitAsserted cpkt);
  if req_isUncacheable (pkt_req cpkt) then Ret sf
  else
    let a := line_addr sf cpkt in
    rsp_mask ← portToMask rsp_port;
    req_mask ← portToMask req_port;
    let sf_item := item sf a in
    _ ← panic_if (Z.land (holder sf_item) rsp_mask =? 0);
    _ ← panic_if (Z.land (requested sf_item) req_mask =? 0);
    let h := if cmd_needsExclusive (pkt_cmd cpkt) || negb (sharedAsserted cpkt)
             then 0 else holder sf_item in
    _ ← cassert (bool_decide (pkt_cmd cpkt <> Writeback));
    Ret (set_item sf a
           (mkSnoopItem (Z.land (requested sf_item) (wnot 64 req_mask)) (Z.lor h req_mask))).

Definition updateSnoopForward (sf : SnoopFilter) (cpkt : Packet) (rsp_port : Z)
    : res SnoopFilter :=
  let a := line_addr sf cpkt in
  let sf_item := item sf a in
  let sf := set_item sf a sf_item in
  _ ← portToMask rsp_port;
  _ ← cassert (cmd_isResponse (pkt_cmd cpkt));
  _ ← cassert (memInhibitAsserted cpkt);
  Ret (if cmd_needsExclusive (pkt_cmd cpkt)
       then set_item sf a (mkSnoopItem (requested sf_item) 0) else sf).

Definition updateResponse (sf : SnoopFilter) (cpkt : Packet) (slave_port : Z)
    : res SnoopFilter :=
  _ ← cassert (cmd_isResponse (pkt_cmd cpkt));
  if req_isUncacheable (pkt_req cpkt) then Ret sf
  else
    let a := line_addr sf cpkt in
    slave_mask ← portToMask slave_port;
    let sf_item := item sf a in
    _ ← panic_if (Z.land (requested sf_item) slave_mask =? 0);
    let h := if cmd_needsExclusive (pkt_cmd cpkt) || negb (sharedAsserted cpkt)
             then 0 else holder sf_item in
    Ret (set_item sf a
           (mkSnoopItem (Z.land (requested sf_item) (wnot 64 slave_mask)) (Z.lor h slave_mask))).

(** ** Masks: lemmas *)

Lemma portToMask_ok i : 0 <= i < 64 -> portToMask i = Ret (2 ^ i).
Proof.
  intros Hi. unfold portToMask. rewrite (wrap_small 32 i) by (split; lia).
  assert (Hs : s32 i = i).
  { unfold s32. rewrite (wrap_small 32 i) by (split; lia). by rewrite (proj2 (Z.ltb_lt _ _)) by lia. }
  rewrite Hs. change (u32 (-1)) with (2 ^ 32 - 1).
  rewrite (proj2 (Z.eqb_neq _ _)) by lia. bsimpl. cbn [negb cassert]. bsimpl.
  rewrite (wrap_small 64 i) by (split; lia). rewrite (proj2 (Z.ltb_lt _ _)) by lia. bsimpl. cbn [cassert]. bsimpl.
  rewrite Z.shiftl_1_l, wrap_small; [done|]. split; [apply Z.pow_nonneg; lia|].
  apply Z.pow_lt_mono_r; lia.
Qed.

Lemma land_pow2 m i : 0 <= i -> (Z.land m (2 ^ i) =? 0) = negb (Z.testbit m i).
Proof.
  intros Hi. destruct (Z.testbit m i) eqn:E; cbn.
  - apply Z.eqb_neq. intros H0. apply (f_equal (fun x => Z.testbit x i)) in H0.
    by rewrite Z.land_spec, E, Z.pow2_bits_true, Z.bits_0 in H0 by done.
  - apply Z.eqb_eq, Z.bits_inj'. intros j Hj. rewrite Z.land_spec, Z.bits_0, Z.pow2_bits_eqb by done.
    destruct (Z.eqb_spec i j) as [->|]; [by rewrite E|]. by rewrite andb_false_r.
Qed.

Lemma clear_testbit m i j :
  inword 64 m -> 0 <= i -> 0 <= j ->
  Z.testbit (Z.land m (wnot 64 (2 ^ i))) j = Z.testbit m j && negb (i =? j).
Proof.
  intros Hm Hi Hj. rewrite Z.land_spec, wnot_testbit, Z.pow2_bits_eqb by lia.
  destruct (Z.ltb_spec j 64); [by rewrite andb_true_r|].
  rewrite (inword_testbit_high 64 m j) by (done || lia). done.
Qed.

Lemma set_testbit m i j :
  0 <= i -> Z.testbit (Z.lor m (2 ^ i)) j = Z.testbit m j || (i =? j).
Proof. intros Hi. by rewrite Z.lor_spec, Z.pow2_bits_eqb. Qed.

Lemma pow2_inword i : 0 <= i < 64 -> inword 64 (2 ^ i).
Proof. intros. split; [apply Z.pow_nonneg; lia|]. apply Z.pow_lt_mono_r; lia. Qed.

(** The list a mask stands for, in the order of the ports. *)
Lemma select_ports_exact m ports :
  Forall (fun i => 0 <= i < 64) ports ->
  select_ports m ports = Ret (filter (fun i => Z.testbit m i = true) ports).
Proof.
  induction 1 as [|i l Hi _ IH]; [done|]. cbn [select_ports].
  rewrite (portToMask_ok _ Hi), IH. bsimpl. rewrite land_pow2 by lia. rewrite negb_involutive.
  rewrite filter_cons. by destruct (Z.testbit m i).
Qed.

Lemma portListToMask_from_bits m ports :
  Forall (fun i => 0 <= i < 64) ports ->
  exists m', portListToMask_from m ports = Ret m' /\
    forall i, 0 <= i -> Z.testbit m' i = Z.testbit m i || bool_decide (i ∈ ports).
Proof.
  intros H. revert m. induction H as [|j l Hj _ IH]; intros m.
  - exists m. split; [done|]. intros i _. rewrite bool_decide_false by apply not_elem_of_nil.
    by rewrite orb_false_r.
  - cbn [portListToMask_from]. rewrite (portToMask_ok _ Hj). bsimpl.
    destruct (IH (Z.lor m (2 ^ j))) as (m' & -> & Hm'). exists m'. split; [done|].
    intros i Hi. rewrite Hm', set_testbit by lia. rewrite <- orb_assoc. f_equal.
    destruct (Z.eqb_spec j i) as [->|Hn].
    + by rewrite (bool_decide_true (i ∈ i :: l)) by apply list_elem_of_here.
    + cbn. apply bool_decide_ext. rewrite elem_of_cons. intuition congruence.
Qed.

(** Masks and lists of ports are two views of the same sets. *)
Lemma ports_roundtrip sf ports :
  Forall (fun i => 0 <= i < 64) (slavePorts sf) -> (forall i, i ∈ ports -> i ∈ slavePorts sf) ->
  exists m, portListToMask ports = Ret m /\
    maskToPortList sf m = Ret (filter (fun i => i ∈ ports) (slavePorts sf)).
Proof.
  intros Hs Hp.
  destruct (portListToMask_from_bits 0 ports) as (m & Em & Hm).
  { apply Forall_forall. intros i Hi. rewrite Forall_forall in Hs. auto. }
  exists m. split; [done|]. unfold maskToPortList. rewrite select_ports_exact by done. f_equal.
  clear Hp. induction Hs as [|i l Hi _ IH]; [done|]. rewrite !filter_cons, IH.
  rewrite Hm, Z.bits_0 by lia. cbn [orb].
  destruct (decide (i ∈ ports)); [by rewrite bool_decide_true|by rewrite bool_decide_false].
Qed.

(** ** Items: lemmas *)

Lemma item_set_eq sf a it : item (set_item sf a it) a = it.
Proof. unfold item, set_item. cbn. by rewrite lookup_insert_eq. Qed.

Lemma item_set_ne sf a b it : a <> b -> item (set_item sf a it) b = item sf b.
Proof. intros. unfold item, set_item. cbn. by rewrite lookup_insert_ne. Qed.

Lemma item_set_same sf a b : item (set_item sf a (item sf a)) b = item sf b.
Proof. destruct (decide (a = b)) as [->|]; [apply item_set_eq|by apply item_set_ne]. Qed.

Lemma item_count_request sf h s b : item (count_request sf h s) b = item sf b.
Proof. done. Qed.

(** What an operation does to the tracked sets: the item of one line becomes
    [it], all others stay. *)
Definition item_upd (sf sf' : SnoopFilter) (a : Z) (it : SnoopItem) : Prop :=
  slavePorts sf' = slavePorts sf /\ linesize sf' = linesize sf /\
  forall b, item sf' b = if b =? a then it else item sf b.

Lemma item_upd_set sf a it : item_upd sf (set_item sf a it) a it.
Proof.
  split_and!; try done. intros b. destruct (Z.eqb_spec b a) as [->|].
  - apply item_set_eq.
  - by apply item_set_ne.
Qed.

Lemma item_upd_trans sf1 sf2 sf3 a it it' :
  item_upd sf1 sf2 a it -> item_upd sf2 sf3 a it' -> item_upd sf1 sf3 a it'.
Proof.
  intros (Hp & Hl & H) (Hp' & Hl' & H'). split_and!; try congruence. intros b. rewrite H', H.
  by destruct (b =? a).
Qed.

Lemma item_upd_same sf a : item_upd sf (set_item sf a (item sf a)) a (item sf a).
Proof. apply item_upd_set. Qed.

(** Statistics are no part of the tracked sets. *)
Lemma item_upd_count sf sf' a it h s :
  item_upd sf sf' a it -> item_upd sf (count_request sf' h s) a it /\
  item_upd sf (count_snoop sf' h s) a it.
Proof. done. Qed.

(** ** The operations on the tracked sets *)

Section operations.
Context (sf : SnoopFilter).
Hypothesis ports_ok : Forall (fun i => 0 <= i < 64) (slavePorts sf).
Hypothesis words_ok : forall a, inword 64 (requested (item sf a)) /\ inword 64 (holder (item sf a)).

Definition req_bit (a i : Z) : bool := Z.testbit (requested (item sf a)) i.
Definition hold_bit (a i : Z) : bool := Z.testbit (holder (item sf a)) i.

Lemma lookupRequest_ok p i :
  0 <= i < 64 ->
  let a := line_addr sf p in
  let tracked := negb (req_isUncacheable (pkt_req p)) && cmd_needsResponse (pkt_cmd p) in
  (tracked = true -> memInhibitAsserted p = false -> req_bit a i = false) ->
  (tracked = true -> memInhibitAsserted p = true -> hold_bit a i = true) ->
  exists sf', lookupRequest sf p i = Ret (sf', (filter (fun j => (hold_bit a j || req_bit a j) &&
      negb (i =? j) = true) (slavePorts sf), lookupLatency sf)) /\
    item_upd sf sf' a (if tracked && negb (memInhibitAsserted p)
      then mkSnoopItem (Z.lor (requested (item sf a)) (2 ^ i)) (holder (item sf a)) else item sf a).
Proof.
  intros Hi a tracked Hd Hh. unfold lookupRequest. rewrite (portToMask_ok _ Hi). bsimpl. fold a tracked.
  set (sf1 := count_request _ _ _).
  assert (H1 : item_upd sf sf1 a (item sf a)) by apply item_upd_same.
  assert (Hsel : forall s, slavePorts s = slavePorts sf ->
    maskToPortList s (Z.land (Z.lor (holder (item sf a)) (requested (item sf a))) (wnot 64 (2 ^ i))) =
    Ret (filter (fun j => (hold_bit a j || req_bit a j) && negb (i =? j) = true) (slavePorts sf))).
  { intros s Hs. unfold maskToPortList. rewrite Hs, select_ports_exact by done. f_equal.
    apply filter_agree. intros x Hx. rewrite Forall_forall in ports_ok. apply ports_ok in Hx.
    destruct (words_ok a) as [Hw1 Hw2]. rewrite clear_testbit, Z.lor_spec by first [apply inword_lor; done || lia|lia]. done. }
  destruct tracked; cbn [andb].
  - destruct (memInhibitAsserted p); cbn [negb].
    + rewrite land_pow2 by lia. specialize (Hh eq_refl eq_refl). unfold hold_bit in Hh. rewrite Hh. cbn [negb panic_if]. bsimpl.
      rewrite Hsel by done. bsimpl. by exists sf1.
    + rewrite land_pow2 by lia. specialize (Hd eq_refl eq_refl). unfold req_bit in Hd. rewrite Hd. cbn [negb panic_if]. bsimpl.
      rewrite Hsel by done. bsimpl. eexists. split; [done|].
      eapply item_upd_trans; [exact H1|apply item_upd_set].
  - bsimpl. rewrite Hsel by done. bsimpl. by exists sf1.
Qed.

Lemma updateRequest_retry p i :
  0 <= i < 64 -> req_isUncacheable (pkt_req p) = false ->
  let a := line_addr sf p in
  exists sf', updateRequest sf p i true = Ret sf' /\
    item_upd sf sf' a (mkSnoopItem (Z.land (requested (item sf a)) (wnot 64 (2 ^ i))) (holder (item sf a))).
Proof.
  intros Hi Hu a. unfold updateRequest. rewrite Hu, (portToMask_ok _ Hi). bsimpl. fold a. eexists.
  split; [done|]. eapply item_upd_trans; apply item_upd_set.
Qed.

Lemma updateRequest_sent p i :
  0 <= i < 64 -> cmd_needsResponse (pkt_cmd p) = true ->
  let a := line_addr sf p in
  exists sf', updateRequest sf p i false = Ret sf' /\ item_upd sf sf' a (item sf a).
Proof.
  intros Hi Hn a. unfold updateRequest. rewrite (portToMask_ok _ Hi), Hn. bsimpl. fold a.
  destruct (req_isUncacheable _); eexists; (split; [done|]); [|apply item_upd_same].
  split_and!; try done. intros b. by destruct (Z.eqb_spec b a) as [->|].
Qed.

Lemma updateRequest_writeback p i :
  0 <= i < 64 -> pkt_cmd p = Writeback -> req_isUncacheable (pkt_req p) = false ->
  let a := line_addr sf p in
  req_bit a i = false -> hold_bit a i = true ->
  exists sf', updateRequest sf p i false = Ret sf' /\
    item_upd sf sf' a (mkSnoopItem (requested (item sf a)) (Z.land (holder (item sf a)) (wnot 64 (2 ^ i)))).
Proof.
  intros Hi Hc Hu a Hr Hh. unfold updateRequest. rewrite Hu, (portToMask_ok _ Hi), Hc. bsimpl. fold a.
  cbn [negb]. rewrite bool_decide_true by done. change (cmd_needsResponse Writeback) with false. cbn [negb].
  unfold req_bit, hold_bit in *. rewrite !land_pow2, Hr, Hh by lia. cbn [negb panic_if]. bsimpl. eexists.
  split; [done|]. eapply item_upd_trans; apply item_upd_set.
Qed.

Lemma lookupSnoop_ok p :
  cmd_isRequest (pkt_cmd p) = true -> cmd_isInvalidate (pkt_cmd p) = cmd_needsExclusive (pkt_cmd p) ->
  let a := line_addr sf p in
  exists sf', lookupSnoop sf p = Ret (sf', (filter (fun j => hold_bit a j || req_bit a j = true)
      (slavePorts sf), lookupLatency sf)) /\
    item_upd sf sf' a (if cmd_isInvalidate (pkt_cmd p) && (requested (item sf a) =? 0)
      then mkSnoopItem (requested (item sf a)) 0 else item sf a).
Proof.
  intros Hr Hi a. unfold lookupSnoop. rewrite Hr, Hi. bsimpl. cbn [cassert]. bsimpl. fold a.
  rewrite eqb_reflx. cbn [cassert]. bsimpl.
  unfold maskToPortList. set (sf1 := if _ : bool then _ else _).
  assert (H1 : slavePorts sf1 = slavePorts sf) by (unfold sf1; by case_match).
  assert (H2 : lookupLatency sf1 = lookupLatency sf) by (unfold sf1; by case_match).
  rewrite H1, H2, select_ports_exact by done. bsimpl. exists sf1. split.
  - do 3 f_equal. apply filter_agree. intros j _. by rewrite Z.lor_spec.
  - unfold sf1. destruct (cmd_needsExclusive (pkt_cmd p) && _).
    + eapply item_upd_trans; [|apply item_upd_set]. exact (item_upd_same sf a).
    + exact (item_upd_same sf a).
Qed.

Lemma updateResponse_ok p i :
  0 <= i < 64 -> cmd_isResponse (pkt_cmd p) = true -> req_isUncacheable (pkt_req p) = false ->
  let a := line_addr sf p in
  req_bit a i = true ->
  exists sf', updateResponse sf p i = Ret sf' /\
    item_upd sf sf' a (mkSnoopItem (Z.land (requested (item sf a)) (wnot 64 (2 ^ i)))
      (Z.lor (if cmd_needsExclusive (pkt_cmd p) || negb (sharedAsserted p) then 0 else holder (item sf a))
         (2 ^ i))).
Proof.
  intros Hi Hr Hu a Hb. unfold updateResponse. rewrite Hr, Hu, (portToMask_ok _ Hi). cbn [cassert]. bsimpl.
  fold a. unfold req_bit in Hb. rewrite land_pow2, Hb by lia. cbn [negb panic_if]. bsimpl. eexists.
  split; [done|]. apply item_upd_set.
Qed.

Lemma updateSnoopResponse_ok p i j :
  0 <= i < 64 -> 0 <= j < 64 -> cmd_isResponse (pkt_cmd p) = true -> memInhibitAsserted p = true ->
  req_isUncacheable (pkt_req p) = false ->
  let a := line_addr sf p in
  hold_bit a i = true -> req_bit a j = true ->
  exists sf', updateSnoopResponse sf p i j = Ret sf' /\
    item_upd sf sf' a (mkSnoopItem (Z.land (requested (item sf a)) (wnot 64 (2 ^ j)))
      (Z.lor (if cmd_needsExclusive (pkt_cmd p) || negb (sharedAsserted p) then 0 else holder (item sf a))
         (2 ^ j))).
Proof.
  intros Hi Hj Hr Hm Hu a Hh Hb. unfold updateSnoopResponse.
  rewrite Hr, Hm, Hu, (portToMask_ok _ Hi), (portToMask_ok _ Hj). cbn [cassert]. bsimpl.
  fold a. unfold req_bit, hold_bit in *. rewrite !land_pow2, Hh, Hb by lia. cbn [negb panic_if]. bsimpl.
  rewrite bool_decide_true by (intros E; by rewrite E in Hr). cbn [cassert]. bsimpl.
  eexists. split; [done|]. apply item_upd_set.
Qed.

Lemma updateSnoopForward_ok p i :
  0 <= i < 64 -> cmd_isResponse (pkt_cmd p) = true -> memInhibitAsserted p = true ->
  let a := line_addr sf p in
  exists sf', updateSnoopForward sf p i = Ret sf' /\
    item_upd sf sf' a (if cmd_needsExclusive (pkt_cmd p) then mkSnoopItem (requested (item sf a)) 0
                       else item sf a).
Proof.
  intros Hi Hr Hm a. unfold updateSnoopForward. rewrite (portToMask_ok _ Hi), Hr, Hm. cbn [cassert]. bsimpl.
  fold a. eexists. split; [done|]. destruct (cmd_needsExclusive _).
  - eapply item_upd_trans; apply item_upd_set.
  - apply item_upd_same.
Qed.

End operations.

(** ** The filter beside the caches above it

    [copies] holds the pairs of a line and a port whose cache has the line, or
    has promised to supply or write it back; [waiting] the pairs of a line and a
    port with an outstanding request.  Lines are blocks of the full 64-bit
    address. *)

Record system := mkSystem {
  sys_filter : SnoopFilter;
  copies : gset (Z * Z);
  waiting : gset (Z * Z)
}.

Definition line_of (sf : SnoopFilter) (a : Z) : Z := Z.land a (wnot 64 (linesize sf - 1)).

(** An invalidating snoop: the snooped ports lose the line; a port that waits
    for a response of its own may keep it until then. *)
Definition invalidate (p : Packet) (a : Z) (dests : list Z) (w c : gset (Z * Z)) : gset (Z * Z) :=
  if cmd_isInvalidate (pkt_cmd p)
  then filter (fun x => ~ (x.1 = a /\ x.2 ∈ dests /\ x ∉ w)) c else c.

Definition cacheable (p : Packet) : bool := negb (req_isUncacheable (pkt_req p)).

(** What happens at the crossbar: a request from above is looked up, forwarded
    as a snoop to the ports the filter names, and sent on ([ok]) or refused; a
    response comes back from below or from a cache beside; snoops arrive from
    below; a cache drops a clean line without telling. *)
Inductive sf_op :=
  | Request_ (p : Packet) (i : Z) (ok : bool)
  | Response_ (p : Packet) (i : Z)
  | Snoop_ (p : Packet)
  | SnoopResponse_ (p : Packet) (i j : Z)
  | SnoopForward_ (p : Packet) (i : Z)
  | Drop_ (a i : Z).

Definition sf_run (o : sf_op) (s : system) : res system :=
  let line p := line_of (sys_filter s) (pkt_addr p) in
  let sf := sys_filter s in
  let c := copies s in
  let w := waiting s in
  match o with
  | Request_ p i ok =>
      '(sf, (dests, _)) ← lookupRequest sf p i;
      sf ← updateRequest sf p i (negb ok);
      let c := invalidate p (line p) dests w c in
      Ret (mkSystem sf
             (if cacheable p && bool_decide (pkt_cmd p = Writeback) && ok
              then c ∖ {[(line p, i)]} else c)
             (if cacheable p && cmd_needsResponse (pkt_cmd p) && negb (memInhibitAsserted p) && ok
              then {[(line p, i)]} ∪ w else w))
  | Response_ p i =>
      sf ← updateResponse sf p i;
      Ret (if cacheable p then mkSystem sf ({[(line p, i)]} ∪ c) (w ∖ {[(line p, i)]})
           else mkSystem sf c w)
  | Snoop_ p =>
      '(sf, (dests, _)) ← lookupSnoop sf p;
      Ret (mkSystem sf (invalidate p (line p) dests w c) w)
  | SnoopResponse_ p i j =>
      sf ← updateSnoopResponse sf p i j;
      Ret (if cacheable p then
             mkSystem sf
               ({[(line p, j)]} ∪
                if cmd_needsExclusive (pkt_cmd p) || negb (sharedAsserted p)
                then c ∖ {[(line p, i)]} else c)
               (w ∖ {[(line p, j)]})
           else mkSystem sf c w)
  | SnoopForward_ p i =>
      sf ← updateSnoopForward sf p i;
      Ret (mkSystem sf (if cmd_needsExclusive (pkt_cmd p) then c ∖ {[(line p, i)]} else c) w)
  | Drop_ a i => Ret (mkSystem sf (c ∖ {[(a, i)]}) w)
  end.

(** What the caches and the coherence protocol guarantee: one request per line
    and port at a time; only a holder writes a line back or supplies it; a
    response that is exclusive, or not marked shared, leaves no other holder. *)
Definition sf_enabled (o : sf_op) (s : system) : Prop :=
  let line p := line_of (sys_filter s) (pkt_addr p) in
  let low p := 0 <= pkt_addr p < 2 ^ 32 in
  let excl p := cmd_needsExclusive (pkt_cmd p) || negb (sharedAsserted p) = true in
  let ports := slavePorts (sys_filter s) in
  match o with
  | Request_ p i ok =>
      low p /\ i ∈ ports /\
      (cacheable p = true ->
       if cmd_needsResponse (pkt_cmd p) then
         if memInhibitAsserted p then (line p, i) ∈ copies s /\ ok = true
         else (line p, i) ∉ waiting s
       else pkt_cmd p = Writeback /\ (line p, i) ∈ copies s /\ (line p, i) ∉ waiting s)
  | Response_ p i =>
      low p /\ i ∈ ports /\ cmd_isResponse (pkt_cmd p) = true /\
      (cacheable p = true -> (line p, i) ∈ waiting s /\
         (excl p -> forall j, (line p, j) ∈ copies s -> j = i))
  | Snoop_ p =>
      low p /\ cmd_isRequest (pkt_cmd p) = true /\
      cmd_isInvalidate (pkt_cmd p) = cmd_needsExclusive (pkt_cmd p)
  | SnoopResponse_ p i j =>
      low p /\ i ∈ ports /\ j ∈ ports /\ i <> j /\
      cmd_isResponse (pkt_cmd p) = true /\ memInhibitAsserted p = true /\
      (cacheable p = true -> (line p, i) ∈ copies s /\ (line p, j) ∈ waiting s /\
         (excl p -> forall k, (line p, k) ∈ copies s -> k = i \/ k = j))
  | SnoopForward_ p i =>
      low p /\ i ∈ ports /\ cmd_isResponse (pkt_cmd p) = true /\ memInhibitAsserted p = true /\
      (cmd_needsExclusive (pkt_cmd p) = true -> forall j, (line p, j) ∈ copies s -> j = i)
  | Drop_ _ _ => True
  end.

Inductive sf_reach (line latency : Z) (ports : list Z) : system -> Prop :=
  | sf_reach_init :
      sf_reach line latency ports
        (mkSystem (setSlavePorts (SnoopFilter_new line latency) ports) ∅ ∅)
  | sf_reach_step o s s' :
      sf_reach line latency ports s -> sf_enabled o s -> sf_run o s = Ret s' ->
      sf_reach line latency ports s'.

(** The filter covers the caches. *)
Record sf_inv (s : system) : Prop := {
  si_line : 1 <= linesize (sys_filter s) <= 2 ^ 32;
  si_ports : Forall (fun i => 0 <= i < 64) (slavePorts (sys_filter s));
  si_words a : inword 64 (requested (item (sys_filter s) a)) /\ inword 64 (holder (item (sys_filter s) a));
  si_copies a i : (a, i) ∈ copies s -> i ∈ slavePorts (sys_filter s) /\ hold_bit (sys_filter s) a i = true;
  si_waiting a i : 0 <= i -> ((a, i) ∈ waiting s <-> req_bit (sys_filter s) a i = true);
  si_wports a i : (a, i) ∈ waiting s -> i ∈ slavePorts (sys_filter s)
}.

Lemma line_addr_low sf p :
  1 <= linesize sf <= 2 ^ 32 -> 0 <= pkt_addr p < 2 ^ 32 -> line_addr sf p = line_of sf (pkt_addr p).
Proof.
  intros Hl Ha. unfold line_addr, line_of. rewrite wrap_small by (split; lia).
  apply Z.bits_inj'. intros n Hn. rewrite !Z.land_spec, !wnot_testbit by lia.
  destruct (Z.ltb_spec n 32) as [H|H].
  - by rewrite (proj2 (Z.ltb_lt n 64)) by lia.
  - rewrite (inword_testbit_high 32 (pkt_addr p) n) by first [done|lia]. done.
Qed.

(** One line changes; the invariant for it is what has to be shown. *)
Lemma sf_inv_upd s sf' a it c' w' :
  sf_inv s -> item_upd (sys_filter s) sf' a it ->
  inword 64 (requested it) -> inword 64 (holder it) ->
  (forall b i, b <> a -> (b, i) ∈ c' -> (b, i) ∈ copies s) ->
  (forall b i, b <> a -> ((b, i) ∈ w' <-> (b, i) ∈ waiting s)) ->
  (forall i, (a, i) ∈ c' -> i ∈ slavePorts (sys_filter s) /\ Z.testbit (holder it) i = true) ->
  (forall i, (a, i) ∈ w' -> i ∈ slavePorts (sys_filter s)) ->
  (forall i, 0 <= i -> ((a, i) ∈ w' <-> Z.testbit (requested it) i = true)) ->
  sf_inv (mkSystem sf' c' w').
Proof.
  intros Hs (Hp & Hl & Hi) Hr Hh Hc Hw Hca Hwp Hwa.
  constructor; cbn [sys_filter copies waiting]; unfold hold_bit, req_bit.
  - rewrite Hl. apply Hs.
  - rewrite Hp. apply Hs.
  - intros b. rewrite Hi. destruct (Z.eqb_spec b a); [done|]. apply Hs.
  - intros b i H. rewrite Hp, Hi. destruct (Z.eqb_spec b a) as [->|Hn]; [by apply Hca|].
    apply (si_copies _ Hs). by apply Hc.
  - intros b i H. rewrite Hi. destruct (Z.eqb_spec b a) as [->|Hn]; [by apply Hwa|].
    rewrite Hw by done. by apply (si_waiting _ Hs).
  - intros b i H. rewrite Hp. destruct (Z.eqb_spec b a) as [->|Hn]; [by apply Hwp|].
    apply (si_wports _ Hs b). by apply Hw.
Qed.

(** Copies that survive a snoop were there before. *)
Lemma invalidate_sub p a dests w c x : x ∈ invalidate p a dests w c -> x ∈ c.
Proof. unfold invalidate. destruct (cmd_isInvalidate _); [|done]. set_solver. Qed.

Lemma inword_clear m i : inword 64 m -> 0 <= i < 64 -> inword 64 (Z.land m (wnot 64 (2 ^ i))).
Proof. intros. apply inword_land; [lia|done|]. pose proof (wrap_range 64 (Z.lnot (2 ^ i)) ltac:(lia)). unfold wnot. word_lia. Qed.

Lemma inword_set m i : inword 64 m -> 0 <= i < 64 -> inword 64 (Z.lor m (2 ^ i)).
Proof. intros. apply inword_lor; [lia|done|by apply pow2_inword]. Qed.

Section steps.
Context (s : system) (Hs : sf_inv s).
Local Abbreviation sf := (sys_filter s).

Lemma port_bound i : i ∈ slavePorts sf -> 0 <= i < 64.
Proof. pose proof (si_ports _ Hs) as H. rewrite Forall_forall in H. auto. Qed.

Lemma waiting_bit a i : i ∈ slavePorts sf -> ((a, i) ∈ waiting s <-> req_bit sf a i = true).
Proof. intros Hi%port_bound. apply (si_waiting _ Hs). lia. Qed.

Lemma not_waiting_bit a i : i ∈ slavePorts sf -> (a, i) ∉ waiting s -> req_bit sf a i = false.
Proof. intros Hi Hw. apply not_true_iff_false. by rewrite <- waiting_bit. Qed.

(** The first half of a request: it is marked when its response will come
    through the filter. *)
Definition marked (p : Packet) : bool :=
  cacheable p && cmd_needsResponse (pkt_cmd p) && negb (memInhibitAsserted p).

Lemma request_lookup p i ok :
  sf_enabled (Request_ p i ok) s ->
  let a := line_of sf (pkt_addr p) in
  exists sf1,
    lookupRequest sf p i = Ret (sf1, (filter (fun j => (hold_bit sf a j || req_bit sf a j) &&
      negb (i =? j) = true) (slavePorts sf), lookupLatency sf)) /\
    item_upd sf sf1 a (if marked p then mkSnoopItem (Z.lor (requested (item sf a)) (2 ^ i)) (holder (item sf a))
      else item sf a) /\ line_addr sf1 p = a.
Proof.
  intros (Hlow & Hi & He) a. assert (Hb := port_bound i Hi).
  assert (Ea : line_addr sf p = a) by (apply line_addr_low; [apply Hs|done]).
  edestruct (lookupRequest_ok sf (si_ports _ Hs) (si_words _ Hs) p i) as (sf1 & E1 & U1); [done| | |].
  { intros [Hu Hn]%andb_true_iff Hm. rewrite Ea. specialize (He Hu). rewrite Hn, Hm in He.
    by apply not_waiting_bit. }
  { intros [Hu Hn]%andb_true_iff Hm. rewrite Ea. specialize (He Hu). rewrite Hn, Hm in He.
    apply (si_copies _ Hs). apply He. }
  rewrite Ea in E1, U1. exists sf1. split_and!; [done|exact U1|].
  unfold line_addr. by destruct U1 as (_ & -> & _).
Qed.

(** The second half, from the state the lookup leaves. *)
Section second_half.
Context (p : Packet) (i : Z) (ok : bool) (sf1 : SnoopFilter).
Let a := line_of sf (pkt_addr p).
Hypothesis enabled : sf_enabled (Request_ p i ok) s.
Hypothesis looked_up : item_upd sf sf1 a (if marked p
  then mkSnoopItem (Z.lor (requested (item sf a)) (2 ^ i)) (holder (item sf a)) else item sf a).
Hypothesis same_line : line_addr sf1 p = a.

Definition request_effect (sf' : SnoopFilter) (it : SnoopItem) : Prop :=
  updateRequest sf1 p i (negb ok) = Ret sf' /\ item_upd sf sf' a it /\
  inword 64 (requested it) /\ inword 64 (holder it) /\
  (forall j, 0 <= j -> Z.testbit (requested it) j = req_bit sf a j || (marked p && ok && (i =? j))) /\
  (forall j, 0 <= j -> Z.testbit (holder it) j = hold_bit sf a j && negb (cacheable p &&
     bool_decide (pkt_cmd p = Writeback) && ok && (i =? j))).

Lemma item_looked_up : item sf1 a = if marked p
  then mkSnoopItem (Z.lor (requested (item sf a)) (2 ^ i)) (holder (item sf a)) else item sf a.
Proof. destruct looked_up as (_ & _ & U). by rewrite U, Z.eqb_refl. Qed.

Lemma request_sent : cmd_needsResponse (pkt_cmd p) = true -> ok = true -> exists sf' it, request_effect sf' it.
Proof.
  intros Hn Hok. destruct enabled as (_ & Hi & _). assert (Hb := port_bound i Hi).
  destruct (si_words _ Hs a) as [Wr Wh].
  destruct (updateRequest_sent sf1 p i Hb Hn) as (sf' & E2 & U2). rewrite same_line, item_looked_up in U2.
  exists sf'. eexists. unfold request_effect. rewrite Hok. split; [exact E2|]. split; [by eapply item_upd_trans|].
  assert (Hc : bool_decide (pkt_cmd p = Writeback) = false)
    by (apply bool_decide_false; intros E; by rewrite E in Hn).
  rewrite Hc, andb_false_r. cbn [andb negb].
  destruct (marked p); cbn [andb requested holder]; split_and!; try done.
  - by apply inword_set.
  - intros j _. by rewrite set_testbit by lia.
  - intros j _. by rewrite andb_true_r.
  - intros j _. by rewrite orb_false_r.
  - intros j _. by rewrite andb_true_r.
Qed.

Lemma request_refused : cacheable p = true -> ok = false -> exists sf' it, request_effect sf' it.
Proof.
  intros Hu Hok. destruct enabled as (_ & Hi & He). assert (Hb := port_bound i Hi).
  specialize (He Hu). destruct (si_words _ Hs a) as [Wr Wh].
  assert (Hw : req_bit sf a i = false).
  { apply not_waiting_bit; [done|]. destruct (cmd_needsResponse _); [|apply He].
    destruct (memInhibitAsserted p); [|done]. destruct He. congruence. }
  unfold cacheable in Hu. apply negb_true_iff in Hu.
  destruct (updateRequest_retry sf1 p i Hb Hu) as (sf' & E2 & U2). rewrite same_line, item_looked_up in U2.
  exists sf'. eexists. unfold request_effect. rewrite Hok. split; [exact E2|]. split; [by eapply item_upd_trans|].
  rewrite !andb_false_r. cbn [andb negb requested holder].
  set (it := if marked p then _ else _).
  assert (H : inword 64 (requested it) /\ holder it = holder (item sf a) /\
              forall j, i <> j -> Z.testbit (requested it) j = req_bit sf a j).
  { unfold it. destruct (marked p); cbn; split_and!; try done; [by apply inword_set|].
    intros j Hj. rewrite set_testbit, (proj2 (Z.eqb_neq _ _)) by first [done|lia]. apply orb_false_r. }
  destruct H as (Wi & -> & Hbit). split_and!; try done.
  - by apply inword_clear.
  - intros j Hj. rewrite clear_testbit, orb_false_r by first [done|lia].
    destruct (Z.eqb_spec i j) as [<-|]; cbn; [by rewrite Hw, andb_false_r|]. rewrite andb_true_r. by apply Hbit.
  - intros j _. by rewrite andb_true_r.
Qed.

Lemma request_writeback :
  cacheable p = true -> cmd_needsResponse (pkt_cmd p) = false -> ok = true ->
  exists sf' it, request_effect sf' it.
Proof.
  intros Hu Hn Hok. destruct enabled as (_ & Hi & He). assert (Hb := port_bound i Hi).
  specialize (He Hu). rewrite Hn in He. destruct He as (Hc & Hco & Hw).
  destruct (si_words _ Hs a) as [Wr Wh]. apply (si_copies _ Hs) in Hco as [_ Hco].
  apply not_waiting_bit in Hw; [|done].
  assert (Em : marked p = false) by (unfold marked; by rewrite Hn, andb_false_r).
  pose proof item_looked_up as Hit. rewrite Em in Hit.
  unfold request_effect. rewrite (bool_decide_true _ Hc), Em, Hu, Hok. cbn [andb negb].
  unfold cacheable in Hu. apply negb_true_iff in Hu.
  destruct (updateRequest_writeback sf1 p i Hb Hc Hu) as (sf' & E2 & U2);
    [by unfold req_bit; rewrite same_line, Hit|by unfold hold_bit; rewrite same_line, Hit|].
  rewrite same_line, Hit in U2.
  exists sf'. eexists. split; [exact E2|]. split; [by eapply item_upd_trans|].
  cbn [requested holder]. split_and!; try done.
  - by apply inword_clear.
  - intros j _. by rewrite orb_false_r.
  - intros j Hj. by rewrite clear_testbit by first [done|lia].
Qed.

Lemma request_uncacheable : cacheable p = false -> exists sf' it, request_effect sf' it.
Proof.
  intros Hu. assert (Em : marked p = false) by (unfold marked; by rewrite Hu).
  unfold request_effect. rewrite Em, Hu. cbn [andb negb].
  unfold updateRequest. unfold cacheable in Hu. apply negb_false_iff in Hu. rewrite Hu.
  exists sf1. eexists. split; [done|]. split; [exact looked_up|]. rewrite Em.
  destruct (si_words _ Hs a). split_and!; try done; intros j _; [by rewrite orb_false_r|by rewrite andb_true_r].
Qed.

Lemma request_ok : exists sf' it, request_effect sf' it.
Proof.
  destruct (cacheable p) eqn:Hu; [|by apply request_uncacheable].
  assert (Hok : ok = true \/ ok = false) by (destruct ok; auto).
  destruct Hok as [Hok|Hok]; [|by apply request_refused].
  destruct (cmd_needsResponse (pkt_cmd p)) eqn:Hn; [by apply request_sent|by apply request_writeback].
Qed.
End second_half.

Lemma step_request p i ok :
  sf_enabled (Request_ p i ok) s -> exists s', sf_run (Request_ p i ok) s = Ret s' /\ sf_inv s'.
Proof.
  intros He. destruct (request_lookup p i ok He) as (sf1 & E1 & U1 & L1).
  destruct (request_ok p i ok sf1 He U1 L1) as (sf' & it & E2 & U2 & Wr & Wh & Hr & Hh).
  assert (Hi : i ∈ slavePorts sf) by apply He. assert (Hb := port_bound i Hi).
  unfold sf_run. rewrite E1. bsimpl. rewrite E2. bsimpl.
  eexists. split; [done|]. set (a := line_of sf (pkt_addr p)) in *. fold (marked p).
  set (c1 := invalidate p a _ _ _).
  assert (Hc1 : forall x, x ∈ c1 -> x ∈ copies s) by (intros x; apply invalidate_sub).
  eapply (sf_inv_upd s sf' a it); try done.
  - intros b j _ Hx. apply Hc1. destruct (cacheable p && _ && ok); set_solver.
  - intros b j Hn. destruct (marked p && ok); [|done]. set_solver.
  - intros j Hx. assert (Hj : (a, j) ∈ copies s) by (apply Hc1; destruct (cacheable p && _ && ok); set_solver).
    apply (si_copies _ Hs) in Hj as [Hj1 Hj2]. split; [done|].
    rewrite Hh by (apply port_bound in Hj1; lia). rewrite Hj2. cbn [andb].
    destruct (cacheable p && _ && ok); [|done]. destruct (Z.eqb_spec i j) as [->|]; [set_solver|done].
  - intros j Hx. destruct (marked p && ok); [|by apply (si_wports _ Hs a)].
    apply elem_of_union in Hx as [Hx|Hx]; [|by apply (si_wports _ Hs a)].
    apply elem_of_singleton in Hx. by injection Hx as ->.
  - intros j Hj. rewrite Hr by done. rewrite orb_true_iff, <- (si_waiting _ Hs a j Hj).
    destruct (marked p && ok); cbn [andb]; [|intuition discriminate].
    rewrite elem_of_union, elem_of_singleton, Z.eqb_eq. intuition congruence.
Qed.

(** After a response only the receiver is added; an exclusive one leaves it
    alone. *)
Lemma response_inv p sf' i c' :
  i ∈ slavePorts sf -> 0 <= pkt_addr p < 2 ^ 32 ->
  let a := line_of sf (pkt_addr p) in
  let excl := cmd_needsExclusive (pkt_cmd p) || negb (sharedAsserted p) in
  item_upd sf sf' a (mkSnoopItem (Z.land (requested (item sf a)) (wnot 64 (2 ^ i)))
    (Z.lor (if excl then 0 else holder (item sf a)) (2 ^ i))) ->
  (forall b j, b <> a -> (b, j) ∈ c' -> (b, j) ∈ copies s) ->
  (forall j, (a, j) ∈ c' -> j = i \/ excl = false /\ (a, j) ∈ copies s) ->
  sf_inv (mkSystem sf' c' (waiting s ∖ {[(a, i)]})).
Proof.
  intros Hi Hlow a excl U Hne Hc. assert (Hb := port_bound i Hi). destruct (si_words _ Hs a) as [Wr Wh].
  eapply (sf_inv_upd s sf' a); [done|exact U|..]; cbn [requested holder]; try done.
  - by apply inword_clear.
  - apply inword_set; [|done]. destruct excl; [|done]. unfold inword. lia.
  - set_solver.
  - intros j Hj. rewrite set_testbit by lia. apply Hc in Hj as [->|[He Hj]].
    + rewrite Z.eqb_refl, orb_true_r. done.
    + apply (si_copies _ Hs) in Hj as [Hj1 Hj2]. rewrite He. unfold hold_bit in Hj2. by rewrite Hj2.
  - intros j Hj. apply (si_wports _ Hs a). set_solver.
  - intros j Hj. rewrite clear_testbit by first [done|lia].
    rewrite elem_of_difference, elem_of_singleton, (si_waiting _ Hs a j Hj), andb_true_iff, negb_true_iff, Z.eqb_neq.
    unfold req_bit. intuition congruence.
Qed.

Lemma step_response p i :
  sf_enabled (Response_ p i) s -> exists s', sf_run (Response_ p i) s = Ret s' /\ sf_inv s'.
Proof.
  intros (Hlow & Hi & Hr & He). assert (Hb := port_bound i Hi).
  assert (Ea : line_addr sf p = line_of sf (pkt_addr p)) by (apply line_addr_low; [apply Hs|done]).
  unfold sf_run. destruct (cacheable p) eqn:Hu.
  - specialize (He eq_refl) as [Hw Hx]. unfold cacheable in Hu. apply negb_true_iff in Hu.
    destruct (updateResponse_ok sf p i Hb Hr Hu) as (sf' & E & U).
    { rewrite Ea. by apply waiting_bit. }
    rewrite E. bsimpl. eexists. split; [done|]. rewrite Ea in U. apply (response_inv p sf' i); try done.
    + set_solver.
    + intros j [Hj|Hj]%elem_of_union.
      * apply elem_of_singleton in Hj. injection Hj as ->. by left.
      * destruct (cmd_needsExclusive _ || _) eqn:Hex; [left; by apply Hx|by right].
  - unfold cacheable in Hu. apply negb_false_iff in Hu. unfold updateResponse. rewrite Hr, Hu.
    cbn [cassert]. bsimpl. eexists. split; [done|]. by destruct s.
Qed.

Lemma step_snoop_response p i j :
  sf_enabled (SnoopResponse_ p i j) s -> exists s', sf_run (SnoopResponse_ p i j) s = Ret s' /\ sf_inv s'.
Proof.
  intros (Hlow & Hi & Hj & Hij & Hr & Hm & He). assert (Hbi := port_bound i Hi). assert (Hbj := port_bound j Hj).
  assert (Ea : line_addr sf p = line_of sf (pkt_addr p)) by (apply line_addr_low; [apply Hs|done]).
  unfold sf_run. destruct (cacheable p) eqn:Hu.
  - specialize (He eq_refl) as (Hc & Hw & Hx). unfold cacheable in Hu. apply negb_true_iff in Hu.
    destruct (updateSnoopResponse_ok sf p i j Hbi Hbj Hr Hm Hu) as (sf' & E & U).
    { rewrite Ea. by apply (si_copies _ Hs). }
    { rewrite Ea. by apply waiting_bit. }
    rewrite E. bsimpl. eexists. split; [done|]. rewrite Ea in U. apply (response_inv p sf' j); try done.
    + intros b k Hb. destruct (_ || _); set_solver.
    + intros k [Hk|Hk]%elem_of_union.
      * apply elem_of_singleton in Hk. injection Hk as ->. by left.
      * destruct (cmd_needsExclusive _ || _) eqn:Hex; [left|by right].
        apply elem_of_difference in Hk as [Hk Hn]. destruct (Hx eq_refl k Hk) as [->|]; set_solver.
  - unfold cacheable in Hu. apply negb_false_iff in Hu. unfold updateSnoopResponse. rewrite Hr, Hm, Hu.
    cbn [cassert]. bsimpl. eexists. split; [done|]. by destruct s.
Qed.

(** Requests in flight are untouched by [it]. *)
Lemma keep_waiting sf' a it c' :
  item_upd sf sf' a it -> requested it = requested (item sf a) -> inword 64 (holder it) ->
  (forall x, x ∈ c' -> x ∈ copies s) ->
  (forall j, (a, j) ∈ c' -> Z.testbit (holder it) j = true) ->
  sf_inv (mkSystem sf' c' (waiting s)).
Proof.
  intros U Er Wh Hc Hh. destruct (si_words _ Hs a) as [Wr _]. apply (sf_inv_upd s sf' a it); try done.
  - by rewrite Er.
  - intros. by apply Hc.
  - intros j Hj. split; [|by apply Hh]. apply (si_copies _ Hs a). by apply Hc.
  - intros j. apply (si_wports _ Hs a).
  - intros j Hj. rewrite Er. by apply (si_waiting _ Hs).
Qed.

Lemma step_snoop p :
  sf_enabled (Snoop_ p) s -> exists s', sf_run (Snoop_ p) s = Ret s' /\ sf_inv s'.
Proof.
  intros (Hlow & Hr & Hx).
  assert (Ea : line_addr sf p = line_of sf (pkt_addr p)) by (apply line_addr_low; [apply Hs|done]).
  destruct (lookupSnoop_ok sf (si_ports _ Hs) p Hr Hx) as (sf' & E & U).
  unfold sf_run. rewrite E. bsimpl. eexists. split; [done|]. rewrite Ea in *.
  set (a := line_of sf (pkt_addr p)) in *. eapply keep_waiting; [exact U| | | |].
  - by case_match.
  - case_match; [unfold inword; cbn; lia|apply (si_words _ Hs)].
  - intros x. apply invalidate_sub.
  - intros j Hj. assert (Hjc := Hj). apply invalidate_sub in Hjc. pose proof (si_copies _ Hs _ _ Hjc) as [Hp Hh].
    destruct (_ && _) eqn:Hb; [|done]. apply andb_true_iff in Hb as [Hb1 Hb2%Z.eqb_eq]. exfalso.
    unfold invalidate in Hj. rewrite Hb1 in Hj. apply elem_of_filter in Hj as [Hj _]. apply Hj.
    split_and!; [done| |].
    + apply list_elem_of_filter. split; [|done]. cbn. by rewrite Hh.
    + rewrite waiting_bit by done. unfold req_bit. by rewrite Hb2, Z.bits_0.
Qed.

Lemma step_snoop_forward p i :
  sf_enabled (SnoopForward_ p i) s -> exists s', sf_run (SnoopForward_ p i) s = Ret s' /\ sf_inv s'.
Proof.
  intros (Hlow & Hi & Hr & Hm & Hx). assert (Hb := port_bound i Hi).
  assert (Ea : line_addr sf p = line_of sf (pkt_addr p)) by (apply line_addr_low; [apply Hs|done]).
  destruct (updateSnoopForward_ok sf p i Hb Hr Hm) as (sf' & E & U).
  unfold sf_run. rewrite E. bsimpl. eexists. split; [done|]. rewrite Ea in U.
  eapply keep_waiting; [exact U| | | |].
  - by destruct (cmd_needsExclusive _).
  - destruct (cmd_needsExclusive _); [unfold inword; cbn; lia|apply (si_words _ Hs)].
  - destruct (cmd_needsExclusive _); set_solver.
  - intros j Hj. destruct (cmd_needsExclusive _).
    + apply elem_of_difference in Hj as [Hj Hn]. apply Hx in Hj; [|done]. subst. set_solver.
    + by apply (si_copies _ Hs).
Qed.

Lemma sf_step_ok o : sf_enabled o s -> exists s', sf_run o s = Ret s' /\ sf_inv s'.
Proof.
  destruct o.
  - apply step_request.
  - apply step_response.
  - apply step_snoop.
  - apply step_snoop_response.
  - apply step_snoop_forward.
  - intros _. eexists. split; [done|]. constructor; cbn; try apply Hs.
    intros b j Hj. apply (si_copies _ Hs). set_solver.
Qed.
End steps.

Lemma sf_reach_inv line latency ports s :
  1 <= line <= 2 ^ 32 -> Forall (fun i => 0 <= i < 64) ports ->
  sf_reach line latency ports s -> sf_inv s.
Proof.
  intros Hl Hp. induction 1 as [|o s s' _ IH He E].
  - constructor; cbn; try done; intros; unfold item, hold_bit, req_bit, item in *; cbn in *;
      rewrite ?lookup_empty in *; cbn in *; rewrite ?Z.bits_0; try (unfold inword; lia); set_solver.
  - destruct (sf_step_ok s IH o He) as (s1 & E1 & H1). rewrite E1 in E. by injection E as <-.
Qed.

(** C32. The snoop filter never loses a copy.  In every state that requests,
    responses, snoops and silent evictions reach, a port whose cache has a line
    is marked as its holder and a port is marked as requesting exactly while its
    request is outstanding; every request the caches may send is looked up
    without tripping a check of the code, and the ports it is forwarded to are
    exactly the marked ones but its source, so that every other copy and every
    other outstanding request is snooped; a snoop from below goes to all marked
    ports; after an exclusive response the receiver is the only holder left; and
    no enabled step fails. *)
Theorem filter_conservative line latency ports s :
  1 <= line <= 2 ^ 32 -> Forall (fun i => 0 <= i < 64) ports ->
  sf_reach line latency ports s ->
  let sf := sys_filter s in
  let marked a j := j ∈ slavePorts sf /\ hold_bit sf a j || req_bit sf a j = true in
  (forall a j, (a, j) ∈ copies s -> hold_bit sf a j = true) /\
  (forall a j, 0 <= j -> (a, j) ∈ waiting s <-> req_bit sf a j = true) /\
  (forall a j, (a, j) ∈ copies s ∪ waiting s -> marked a j) /\
  (forall p i ok, sf_enabled (Request_ p i ok) s ->
     exists sf' dests, lookupRequest sf p i = Ret (sf', (dests, lookupLatency sf)) /\
       forall j, j ∈ dests <-> j <> i /\ marked (line_of sf (pkt_addr p)) j) /\
  (forall p, sf_enabled (Snoop_ p) s ->
     exists sf' dests, lookupSnoop sf p = Ret (sf', (dests, lookupLatency sf)) /\
       forall j, j ∈ dests <-> marked (line_of sf (pkt_addr p)) j) /\
  (forall p i s', sf_enabled (Response_ p i) s -> cacheable p = true ->
     cmd_needsExclusive (pkt_cmd p) || negb (sharedAsserted p) = true ->
     sf_run (Response_ p i) s = Ret s' ->
     forall j, 0 <= j -> hold_bit (sys_filter s') (line_of sf (pkt_addr p)) j = (i =? j)) /\
  (forall o, sf_enabled o s -> exists s', sf_run o s = Ret s').
Proof.
  intros Hl Hp Hr sf marked. pose proof (sf_reach_inv _ _ _ _ Hl Hp Hr) as Hs. split_and!.
  - intros a j Hj. by apply (si_copies _ Hs).
  - intros a j Hj. by apply (si_waiting _ Hs).
  - intros a j [Hj|Hj]%elem_of_union; unfold marked.
    + apply (si_copies _ Hs) in Hj as [? Hj]. split; [done|]. unfold sf. by rewrite Hj.
    + assert (Hjp := si_wports _ Hs a j Hj). split; [done|].
      apply (waiting_bit s Hs a j Hjp) in Hj. unfold sf. by rewrite Hj, orb_true_r.
  - intros p i ok He. destruct (request_lookup s Hs p i ok He) as (sf1 & E & _). do 2 eexists.
    split; [exact E|]. intros j. rewrite list_elem_of_filter, andb_true_iff, negb_true_iff, Z.eqb_neq.
    unfold marked, sf. intuition congruence.
  - intros p (Hlow & H1 & H2). destruct (lookupSnoop_ok sf (si_ports _ Hs) p H1 H2) as (sf1 & E & _).
    do 2 eexists. split; [exact E|]. intros j. rewrite list_elem_of_filter, line_addr_low by (done || apply Hs).
    unfold marked. tauto.
  - intros p i s' He Hc Hx E j Hj. destruct He as (Hlow & Hi & Hr' & He). destruct (He Hc) as [Hw _].
    assert (Hb := port_bound s Hs i Hi). assert (Ea := line_addr_low sf p (si_line _ Hs) Hlow).
    assert (Hu := Hc). unfold cacheable in Hu. apply negb_true_iff in Hu.
    destruct (updateResponse_ok sf p i Hb Hr' Hu) as (sf' & E' & _ & _ & U).
    { rewrite Ea. by apply (waiting_bit s Hs). }
    unfold sf_run in E. fold sf in E. rewrite E', Hc in E. cbn in E. injection E as <-. cbn [sys_filter].
    unfold hold_bit. rewrite U, Ea, Z.eqb_refl, Hx. cbn [holder]. rewrite set_testbit, Z.bits_0 by lia. done.
  - intros o He. destruct (sf_step_ok s Hs o He) as (s' & E & _). by exists s'.
Qed.

(** Port 0 asks for a line that port 1 holds. *)
Definition demo_request (c : Command) (addr : Z) : Packet :=
  Packet_new (mkRequest 0 addr 64 0 0 0 0) c.

Definition demo_init : system := mkSystem (setSlavePorts (SnoopFilter_new 64 1) [0; 1; 2]) ∅ ∅.

Definition demo_after (o : sf_op) (s : system) : system :=
  match sf_run o s with
  | Ret s' => s'
  | Err _ => s
  end.

Definition demo_held : system :=
  demo_after (Response_ (demo_request ReadResp 0x1040) 1)
    (demo_after (Request_ (demo_request ReadReq 0x1040) 1 true) demo_init).

Lemma filter_conservative_witness :
  (0x1040, 1) ∈ copies demo_held /\
  exists sf' dests,
    lookupRequest (sys_filter demo_held) (demo_request ReadExReq 0x1040) 0 = Ret (sf', (dests, 1)) /\
    1 ∈ dests.
Proof.
  assert (Hr : sf_reach 64 1 [0; 1; 2] demo_held).
  { unfold demo_held. eapply sf_reach_step with (o := Response_ (demo_request ReadResp 0x1040) 1).
    - eapply sf_reach_step with (o := Request_ (demo_request ReadReq 0x1040) 1 true); [apply sf_reach_init| |].
      + split; [split; vm_compute; congruence|]. split; [by apply (bool_decide_unpack _); vm_compute|].
        intros _. change (if _ : bool then _ else _) with
          ((line_of (sys_filter demo_init) 0x1040, 1) ∉ waiting demo_init). apply not_elem_of_empty.
      + vm_compute. reflexivity.
    - split; [split; vm_compute; congruence|]. split; [by apply (bool_decide_unpack _); vm_compute|].
      split; [done|]. intros _. split; [by apply (bool_decide_unpack _); vm_compute|].
      intros _ j Hj. exfalso. revert Hj. apply not_elem_of_empty.
    - vm_compute. reflexivity. }
  assert (Hc : (0x1040, 1) ∈ copies demo_held) by (apply (bool_decide_unpack _); by vm_compute).
  split; [done|].
  destruct (filter_conservative 64 1 [0; 1; 2] demo_held) as (_ & _ & Hm & Hq & _); [lia| |exact Hr|].
  { repeat constructor; lia. }
  destruct (Hq (demo_request ReadExReq 0x1040) 0 true) as (sf' & dests & E & Hd).
  { split; [split; vm_compute; congruence|]. split; [by apply (bool_decide_unpack _); vm_compute|].
    intros _. change (if _ : bool then _ else _) with
      ((line_of (sys_filter demo_held) 0x1040, 0) ∉ waiting demo_held).
    apply (bool_decide_unpack _). by vm_compute. }
  exists sf', dests. split; [exact E|]. apply Hd. split; [done|].
  change (line_of (sys_filter demo_held) (pkt_addr (demo_request ReadExReq 0x1040))) with 0x1040.
  apply Hm. set_solver.
Defined.

(** Line addresses are cut to 32 bits: [~(linesize - 1)] is an [unsigned], so
    two requests of one port for lines that are 4 GiB apart meet in the same
    item, and the second stops the simulation as a double request. *)
Lemma line_aliasing :
  line_addr (sys_filter demo_init) (demo_request ReadReq (2 ^ 32)) =
  line_addr (sys_filter demo_init) (demo_request ReadReq 0) /\
  (s ← sf_run (Request_ (demo_request ReadReq 0) 1 true) demo_init;
   sf_run (Request_ (demo_request ReadReq (2 ^ 32)) 1 true) s) = Err Panic.
Proof. split; vm_compute; reflexivity. Qed.
