(* ===== verification/PageTable.v ===== *)
(** * Page tables of emulated processes: [mem/page_table.hh], [mem/page_table.cc]

    [PageTableBase] keeps the three most recent translations in front of a
    table; [FuncPageTable] keeps the table in a hash map.  The entries are those
    of the simulated instruction set ([TheISA::TlbEntry]): a class states what
    the page tables rely on, with instances for x86, Arm, Alpha and MIPS. *)

From stdpp Require Import gmap.
From S2P Require Import Prelude IntMath.
Local Open Scope Z_scope.

(** C++ [int64_t] from a mathematical integer. *)
Definition s64 (x : Z) : Z := let y := u64 x in if y <? 2 ^ 63 then y else y - 2 ^ 64.

(** ** Entries *)

(** [TheISA::TlbEntry]; [PageBytes] is [2 ^ PageShift] and physical addresses
    below [PhysLimit] can be represented. *)
Class TlbEntry (E : Type) := {
  PageShift : Z;
  PhysLimit : Z;
  tlb_default : E;
  tlb_new : forall (asn vaddr paddr : Z) (uncacheable read_only : bool), E;
  updateVaddr : E -> Z -> E;
  pageStart : E -> Z;
  tlb_shift_range : 0 <= PageShift < 64;
  tlb_phys_limit : PhysLimit <= 2 ^ 64;
  pageStart_new asn vaddr paddr u r :
    0 <= paddr < PhysLimit -> paddr mod 2 ^ PageShift = 0 ->
    pageStart (tlb_new asn vaddr paddr u r) = paddr;
  pageStart_updateVaddr e v : pageStart (updateVaddr e v) = pageStart e
}.

Module X86.
Record X86Entry := mkX86Entry {
  paddr : Z; vaddr : Z; logBytes : Z; writable : bool; user : bool; uncacheable : bool;
  global : bool; patBit : bool; noExec : bool
}.

Definition X86Entry_new (asn v p : Z) (u r : bool) : X86Entry :=
  mkX86Entry p v 12 (negb r) true u false false false.

Definition X86Entry_updateVaddr (e : X86Entry) (v : Z) : X86Entry :=
  mkX86Entry (paddr e) v (logBytes e) (writable e) (user e) (uncacheable e) (global e) (patBit e) (noExec e).

#[export] Instance X86_TlbEntry : TlbEntry X86Entry.
Proof.
  refine {|
  PageShift := 12;
  PhysLimit := 2 ^ 64;
  tlb_default := mkX86Entry 0 0 0 false false false false false false;
  tlb_new := X86Entry_new;
  updateVaddr := X86Entry_updateVaddr;
  pageStart := paddr
  |}.
  - done.
  - done.
  - done.
  - done.
Defined.
End X86.

(** A page number shifted out of an aligned address and back. *)
Lemma shift_aligned k a : 0 <= k -> a mod 2 ^ k = 0 -> Z.shiftl (Z.shiftr a k) k = a.
Proof.
  intros Hk Ha. rewrite Z.shiftl_mul_pow2, Z.shiftr_div_pow2 by lia.
  pose proof (pow2_pos k Hk). pose proof (Z.div_mod a (2 ^ k)). lia.
Qed.

(** Fields that the constructor sets to constants and no operation of the page
    tables reads are left out. *)
Module Arm.
Record ArmEntry := mkArmEntry {
  pfn : Z; size : Z; vpn : Z; asid : Z; ap : Z; nonCacheable : bool; valid : bool
}.

Definition ArmEntry_new (asn v p : Z) (u r : bool) : ArmEntry :=
  mkArmEntry (Z.shiftr p 12) (2 ^ 12 - 1) (Z.shiftr v 12) (wrap 16 asn) (if r then 3 else 0) u true.

Definition ArmEntry_updateVaddr (e : ArmEntry) (v : Z) : ArmEntry :=
  mkArmEntry (pfn e) (size e) (Z.shiftr v 12) (asid e) (ap e) (nonCacheable e) (valid e).

#[export] Instance Arm_TlbEntry : TlbEntry ArmEntry.
Proof.
  refine {|
  PageShift := 12;
  PhysLimit := 2 ^ 64;
  tlb_default := mkArmEntry 0 0 0 0 0 false true;
  tlb_new := ArmEntry_new;
  updateVaddr := ArmEntry_updateVaddr;
  pageStart := fun e => u64 (Z.shiftl (pfn e) 12)
  |}.
  - done.
  - done.
  - intros. cbn. rewrite shift_aligned by done. by apply wrap_small.
  - done.
Defined.
End Arm.

Module Alpha.
Definition ImplMask : Z := 2 ^ 43 - 1.

(** [VAddr::vpn] *)
Definition vaddr_vpn (a : Z) : Z := Z.shiftr (Z.land a ImplMask) 13.

Record AlphaEntry := mkAlphaEntry {
  tag : Z; ppn : Z; xre : Z; xwe : Z; asn : Z; asma : bool; fonr : bool; fonw : bool; valid : bool
}.

Definition AlphaEntry_new (a v p : Z) (u r : bool) : AlphaEntry :=
  mkAlphaEntry (vaddr_vpn v) (vaddr_vpn p) 15 15 (u8 a) false false false true.

Definition AlphaEntry_updateVaddr (e : AlphaEntry) (v : Z) : AlphaEntry :=
  mkAlphaEntry (vaddr_vpn v) (ppn e) (xre e) (xwe e) (asn e) (asma e) (fonr e) (fonw e) (valid e).

#[export] Instance Alpha_TlbEntry : TlbEntry AlphaEntry.
Proof.
  refine {|
  PageShift := 13;
  PhysLimit := 2 ^ 43;
  tlb_default := mkAlphaEntry 0 0 0 0 0 false false false false;
  tlb_new := AlphaEntry_new;
  updateVaddr := AlphaEntry_updateVaddr;
  pageStart := fun e => u64 (Z.shiftl (ppn e) 13)
  |}.
  - done.
  - done.
  - intros a v p u r Hp Ha. cbn. unfold vaddr_vpn, ImplMask. replace (2 ^ 43 - 1) with (Z.ones 43) by reflexivity.
    rewrite Z.land_ones, Z.mod_small, shift_aligned by (done || lia). apply wrap_small. split; [lia|].
    transitivity (2 ^ 43); [lia|]. reflexivity.
  - done.
Defined.
End Alpha.

Module Mips.
Record MipsEntry := mkMipsEntry { _pageStart : Z }.

#[export] Instance Mips_TlbEntry : TlbEntry MipsEntry.
Proof.
  refine {|
  PageShift := 13;
  PhysLimit := 2 ^ 64;
  tlb_default := mkMipsEntry 0;
  tlb_new := fun _ _ p _ _ => mkMipsEntry p;
  updateVaddr := fun e _ => e;
  pageStart := _pageStart
  |}.
  - done.
  - done.
  - done.
  - done.
Defined.
End Mips.

(** ** [PageTableBase] *)

Section base.
Context `{TlbEntry E}.

Record cacheElement := mkCacheElement { ce_valid : bool; ce_vaddr : Z; ce_entry : E }.

(** [pTableCache[0..2]], the page geometry and the process number. *)
Record PageTableBase := mkPageTableBase {
  cache0 : cacheElement;
  cache1 : cacheElement;
  cache2 : cacheElement;
  pageSize : Z;
  offsetMask : Z;
  pt_pid : Z
}.

Definition PageTableBase_new (pid page_size : Z) : res PageTableBase :=
  l ← floorLog2_u64 page_size;
  _ ← cassert (isPowerOf2 64 page_size);
  let e := mkCacheElement false 0 tlb_default in
  Ret (mkPageTableBase e e e page_size (mask l) pid).

Definition Clobber : Z := 1.
Definition NotPresent : Z := 2.
Definition Uncacheable : Z := 4.
Definition ReadOnly : Z := 8.

Definition flag_set (flags f : Z) : bool := negb (Z.land flags f =? 0).

Definition pageAlign (b : PageTableBase) (a : Z) : Z := Z.land a (wnot 64 (offsetMask b)).
Definition pageOffset (b : PageTableBase) (a : Z) : Z := Z.land a (offsetMask b).

Definition updateCache (b : PageTableBase) (vaddr : Z) (e : E) : PageTableBase :=
  mkPageTableBase (mkCacheElement true vaddr e) (cache0 b) (cache1 b) (pageSize b) (offsetMask b)
    (pt_pid b).

Definition ce_matches (c : cacheElement) (vaddr : Z) : bool := ce_valid c && (ce_vaddr c =? vaddr).
Definition ce_invalid (c : cacheElement) : cacheElement :=
  mkCacheElement false (ce_vaddr c) (ce_entry c).

Definition eraseCacheEntry (b : PageTableBase) (vaddr : Z) : PageTableBase :=
  if ce_matches (cache0 b) vaddr then
    mkPageTableBase (ce_invalid (cache0 b)) (cache1 b) (cache2 b) (pageSize b) (offsetMask b) (pt_pid b)
  else if ce_matches (cache1 b) vaddr then
    mkPageTableBase (cache0 b) (ce_invalid (cache1 b)) (cache2 b) (pageSize b) (offsetMask b) (pt_pid b)
  else if ce_matches (cache2 b) vaddr then
    mkPageTableBase (cache0 b) (cache1 b) (ce_invalid (cache2 b)) (pageSize b) (offsetMask b) (pt_pid b)
  else b.

(** The three comparisons at the start of every [lookup]. *)
Definition cached (b : PageTableBase) (page_addr : Z) : option E :=
  if ce_matches (cache0 b) page_addr then Some (ce_entry (cache0 b))
  else if ce_matches (cache1 b) page_addr then Some (ce_entry (cache1 b))
  else if ce_matches (cache2 b) page_addr then Some (ce_entry (cache2 b))
  else None.

(** ** [FuncPageTable] *)

Record FuncPageTable := mkFuncPageTable { ft_base : PageTableBase; pTable : gmap Z E }.

Definition FuncPageTable_new (pid page_size : Z) : res FuncPageTable :=
  b ← PageTableBase_new pid page_size;
  Ret (mkFuncPageTable b ∅).

(** One round of the loop of [map]. *)
Definition map_page (pt : FuncPageTable) (vaddr paddr flags : Z) : res FuncPageTable :=
  let clobber := flag_set flags Clobber in
  let '(mkFuncPageTable b t) := pt in
  if negb clobber && bool_decide (is_Some (t !! vaddr)) then Err Fatal
  else
    let e := tlb_new (pt_pid b) vaddr paddr (flag_set flags Uncacheable) (flag_set flags ReadOnly) in
    Ret (mkFuncPageTable (updateCache (eraseCacheEntry b vaddr) vaddr e) (<[vaddr := e]> t)).

Fixpoint map_loop (fuel : nat) (pt : FuncPageTable) (vaddr paddr size flags : Z) : res FuncPageTable :=
  match fuel with
  | O => Err OutOfFuel
  | S fuel =>
      if 0 <? size then
        pt ← map_page pt vaddr paddr flags;
        let ps := pageSize (ft_base pt) in
        map_loop fuel pt (u64 (vaddr + ps)) (u64 (paddr + ps)) (s64 (size - ps)) flags
      else Ret pt
  end.

(** Rounds of a loop over a region of [size] bytes, and the final test. *)
Definition page_fuel (b : PageTableBase) (size : Z) : nat := S (S (Z.to_nat (size / pageSize b))).

Definition pt_map (pt : FuncPageTable) (vaddr paddr size flags : Z) : res FuncPageTable :=
  _ ← cassert (pageOffset (ft_base pt) vaddr =? 0);
  map_loop (page_fuel (ft_base pt) size) pt vaddr paddr size flags.

Definition remap_page (pt : FuncPageTable) (vaddr new_vaddr : Z) : res FuncPageTable :=
  let '(mkFuncPageTable b t) := pt in
  match t !! vaddr with
  | None => Err AssertFailed
  | Some e =>
      let t := delete vaddr (<[new_vaddr := e]> t) in
      let b := eraseCacheEntry b vaddr in
      (* operator[] creates a default entry if the two addresses are equal *)
      let e := updateVaddr (default tlb_default (t !! new_vaddr)) new_vaddr in
      Ret (mkFuncPageTable (updateCache b new_vaddr e) (<[new_vaddr := e]> t))
  end.

Fixpoint remap_loop (fuel : nat) (pt : FuncPageTable) (vaddr size new_vaddr : Z) : res FuncPageTable :=
  match fuel with
  | O => Err OutOfFuel
  | S fuel =>
      if 0 <? size then
        pt ← remap_page pt vaddr new_vaddr;
        let ps := pageSize (ft_base pt) in
        remap_loop fuel pt (u64 (vaddr + ps)) (s64 (size - ps)) (u64 (new_vaddr + ps))
      else Ret pt
  end.

Definition pt_remap (pt : FuncPageTable) (vaddr size new_vaddr : Z) : res FuncPageTable :=
  _ ← cassert (pageOffset (ft_base pt) vaddr =? 0);
  _ ← cassert (pageOffset (ft_base pt) new_vaddr =? 0);
  remap_loop (page_fuel (ft_base pt) size) pt vaddr size new_vaddr.

Definition unmap_page (pt : FuncPageTable) (vaddr : Z) : res FuncPageTable :=
  let '(mkFuncPageTable b t) := pt in
  match t !! vaddr with
  | None => Err AssertFailed
  | Some _ => Ret (mkFuncPageTable (eraseCacheEntry b vaddr) (delete vaddr t))
  end.

Fixpoint unmap_loop (fuel : nat) (pt : FuncPageTable) (vaddr size : Z) : res FuncPageTable :=
  match fuel with
  | O => Err OutOfFuel
  | S fuel =>
      if 0 <? size then
        pt ← unmap_page pt vaddr;
        let ps := pageSize (ft_base pt) in
        unmap_loop fuel pt (u64 (vaddr + ps)) (s64 (size - ps))
      else Ret pt
  end.

Definition pt_unmap (pt : FuncPageTable) (vaddr size : Z) : res FuncPageTable :=
  _ ← cassert (pageOffset (ft_base pt) vaddr =? 0);
  unmap_loop (page_fuel (ft_base pt) size) pt vaddr size.

Fixpoint isUnmapped_loop (fuel : nat) (pt : FuncPageTable) (vaddr size : Z) : res bool :=
  match fuel with
  | O => Err OutOfFuel
  | S fuel =>
      if 0 <? size then
        if bool_decide (is_Some (pTable pt !! vaddr)) then Ret false
        else
          let ps := pageSize (ft_base pt) in
          isUnmapped_loop fuel pt (u64 (vaddr + ps)) (s64 (size - ps))
      else Ret true
  end.

Definition isUnmapped (pt : FuncPageTable) (vaddr size : Z) : res bool :=
  _ ← cassert (pageOffset (ft_base pt) vaddr =? 0);
  isUnmapped_loop (page_fuel (ft_base pt) size) pt vaddr size.

Definition pt_lookup (pt : FuncPageTable) (vaddr : Z) : option E * FuncPageTable :=
  let b := ft_base pt in
  let page_addr := pageAlign b vaddr in
  match cached b page_addr with
  | Some e => (Some e, pt)
  | None =>
      match pTable pt !! page_addr with
      | None => (None, pt)
      | Some e => (Some e, mkFuncPageTable (updateCache b page_addr e) (pTable pt))
      end
  end.

(** [translate(vaddr, paddr)] *)
Definition translate (pt : FuncPageTable) (vaddr : Z) : option Z * FuncPageTable :=
  let '(e, pt') := pt_lookup pt vaddr in
  ((fun e => u64 (pageOffset (ft_base pt) vaddr + pageStart e)) <$> e, pt').

(** [translate(req)]: the physical address set in the request, or the fault. *)
Inductive Fault := NoFault | GenericPageTableFault (vaddr : Z).

Definition translate_req (pt : FuncPageTable) (vaddr size : Z)
    : res (Fault * option Z * FuncPageTable) :=
  let b := ft_base pt in
  _ ← cassert (pageAlign b (u64 (vaddr + size - 1)) =? pageAlign b vaddr);
  let '(p, pt) := translate pt vaddr in
  match p with
  | None => Ret (GenericPageTableFault vaddr, None, pt)
  | Some paddr =>
      if pageSize b <? u64 (Z.land paddr (u64 (pageSize b - 1)) + size) then Err Panic
      else Ret (NoFault, Some paddr, pt)
  end.

(** Checkpoints: the entries are written one by one and read back into a cleared
    table; the text of an entry is the business of its instruction set. *)
Definition pt_serialize (pt : FuncPageTable) : list (Z * E) := map_to_list (pTable pt).

Definition pt_unserialize (pt : FuncPageTable) (entries : list (Z * E)) : FuncPageTable :=
  mkFuncPageTable (ft_base pt) (foldl (fun t x => <[x.1 := x.2]> t) ∅ entries).

(** ** The cache and the table *)

(** [R a e]: page [a] has the entry [e]. *)
Definition ce_agrees (R : Z -> E -> Prop) (c : cacheElement) : Prop :=
  ce_valid c = true -> R (ce_vaddr c) (ce_entry c).

Definition ce_apart (c d : cacheElement) : Prop :=
  ce_valid c = true -> ce_valid d = true -> ce_vaddr c <> ce_vaddr d.

(** Valid elements agree with the table and hold different pages. *)
Record cache_ok (b : PageTableBase) (R : Z -> E -> Prop) : Prop := {
  co_agree0 : ce_agrees R (cache0 b);
  co_agree1 : ce_agrees R (cache1 b);
  co_agree2 : ce_agrees R (cache2 b);
  co_apart01 : ce_apart (cache0 b) (cache1 b);
  co_apart02 : ce_apart (cache0 b) (cache2 b);
  co_apart12 : ce_apart (cache1 b) (cache2 b)
}.

Definition absent (b : PageTableBase) (a : Z) : Prop :=
  ce_matches (cache0 b) a = false /\ ce_matches (cache1 b) a = false /\ ce_matches (cache2 b) a = false.

Lemma ce_matches_true c a : ce_matches c a = true <-> ce_valid c = true /\ ce_vaddr c = a.
Proof. unfold ce_matches. by rewrite andb_true_iff, Z.eqb_eq. Qed.

Lemma ce_matches_false c a : ce_matches c a = false <-> (ce_valid c = true -> ce_vaddr c <> a).
Proof.
  unfold ce_matches. destruct (ce_valid c); cbn; [|by split].
  rewrite Z.eqb_neq. intuition.
Qed.

Lemma cached_ok b R a e : cache_ok b R -> cached b a = Some e -> R a e.
Proof.
  intros Hc. unfold cached.
  destruct (ce_matches (cache0 b) a) eqn:E0; [|destruct (ce_matches (cache1 b) a) eqn:E1;
    [|destruct (ce_matches (cache2 b) a) eqn:E2; [|done]]]; intros [= <-];
    rewrite ce_matches_true in *; destruct_and!; subst; by apply Hc.
Qed.

Lemma cached_absent b a : cached b a = None -> absent b a.
Proof. unfold cached, absent. by repeat case_match. Qed.

Lemma eraseCacheEntry_ok b R a : cache_ok b R -> cache_ok (eraseCacheEntry b a) R /\ absent (eraseCacheEntry b a) a.
Proof.
  intros []. unfold eraseCacheEntry, absent, ce_agrees, ce_apart in *.
  destruct (ce_matches (cache0 b) a) eqn:E0; [|destruct (ce_matches (cache1 b) a) eqn:E1;
    [|destruct (ce_matches (cache2 b) a) eqn:E2]]; split; try (by constructor);
    rewrite ?ce_matches_true, ?ce_matches_false in *; cbn in *; destruct_and?; subst;
    repeat split; try done; try congruence; auto; intros; symmetry; auto.
Qed.

Lemma cache_ok_frame b (R R' : Z -> E -> Prop) a :
  cache_ok b R -> absent b a -> (forall v e, v <> a -> R v e -> R' v e) -> cache_ok b R'.
Proof.
  intros [] (H0 & H1 & H2) Ht. rewrite !ce_matches_false in *.
  constructor; try done; intros Hv; apply Ht; auto.
Qed.

Lemma update_ok b (R : Z -> E -> Prop) a e :
  cache_ok b R -> absent b a -> R a e -> cache_ok (updateCache b a e) R.
Proof.
  intros [] (H0 & H1 & H2) Ht. rewrite !ce_matches_false in *.
  constructor; unfold ce_agrees, ce_apart in *; cbn; auto; intros; symmetry; auto.
Qed.

(** Dropping and then caching a page, for the table with the new entry. *)
Lemma replace_ok b (R R' : Z -> E -> Prop) a e :
  cache_ok b R -> (forall v x, v <> a -> R v x -> R' v x) -> R' a e ->
  cache_ok (updateCache (eraseCacheEntry b a) a e) R'.
Proof.
  intros Hc Ht He. destruct (eraseCacheEntry_ok b R a Hc) as [Hc' Ha].
  apply update_ok; [by eapply cache_ok_frame|done|done].
Qed.

Lemma unmapped_absent b (R : Z -> E -> Prop) a : cache_ok b R -> (forall e, ~ R a e) -> absent b a.
Proof.
  intros Hc Ht. split_and!; apply ce_matches_false; intros Hv <-.
  - by apply (Ht _ (co_agree0 _ _ Hc Hv)).
  - by apply (Ht _ (co_agree1 _ _ Hc Hv)).
  - by apply (Ht _ (co_agree2 _ _ Hc Hv)).
Qed.

Definition has_entry (t : gmap Z E) (a : Z) (e : E) : Prop := t !! a = Some e.

Lemma erase_same b a :
  pageSize (eraseCacheEntry b a) = pageSize b /\ offsetMask (eraseCacheEntry b a) = offsetMask b /\
  pt_pid (eraseCacheEntry b a) = pt_pid b.
Proof. unfold eraseCacheEntry. by repeat case_match. Qed.

(** A page table with pages of [2 ^ k] bytes. *)
Record pt_ok (k : Z) (pt : FuncPageTable) : Prop := {
  po_shift : 0 <= k < 64;
  po_size : pageSize (ft_base pt) = 2 ^ k;
  po_mask : offsetMask (ft_base pt) = 2 ^ k - 1;
  po_cache : cache_ok (ft_base pt) (has_entry (pTable pt))
}.

Lemma FuncPageTable_new_ok pid k : 0 <= k < 64 -> exists pt,
  FuncPageTable_new pid (2 ^ k) = Ret pt /\ pt_ok k pt /\ pTable pt = ∅ /\ pt_pid (ft_base pt) = pid.
Proof.
  intros Hk. unfold FuncPageTable_new, PageTableBase_new.
  assert (inword 64 (2 ^ k)) by (split; [apply Z.pow_nonneg; lia|apply Z.pow_lt_mono_r; lia]).
  pose proof (pow2_pos k ltac:(lia)).
  rewrite floorLog2_u64_log2 by word_lia. bsimpl.
  rewrite cassert_true by (apply isPowerOf2_spec; [lia|done|by exists k]). bsimpl.
  eexists. split; [done|]. split; [|done]. constructor; cbn; try done.
  rewrite Z.log2_pow2, mask_ones, Z.ones_equiv by lia. lia.
Qed.

Lemma foldl_insert_lookup (l : list (Z * E)) (t : gmap Z E) a :
  NoDup l.*1 -> foldl (fun t x => <[x.1 := x.2]> t) t l !! a =
  match (list_to_map l : gmap Z E) !! a with Some e => Some e | None => t !! a end.
Proof.
  revert t. induction l as [|[v e] l IH]; intros t Hn; cbn; [by rewrite lookup_empty|].
  cbn in Hn. apply NoDup_cons in Hn as [Hv Hn]. rewrite IH by done.
  destruct (decide (v = a)) as [->|].
  - rewrite !lookup_insert_eq, not_elem_of_list_to_map_1 by done. done.
  - by rewrite !lookup_insert_ne by done.
Qed.

(** A table is restored from its checkpoint. *)
Lemma serialize_roundtrip pt pt0 : pTable (pt_unserialize pt0 (pt_serialize pt)) = pTable pt.
Proof.
  apply map_eq. intros a. unfold pt_unserialize, pt_serialize. cbn [pTable].
  rewrite foldl_insert_lookup by apply NoDup_fst_map_to_list. rewrite list_to_map_to_list, lookup_empty.
  by destruct (pTable pt !! a).
Qed.

(** ** Regions *)

Definition region (v ps : Z) (n : nat) (a : Z) : Prop := exists i, 0 <= i < Z.of_nat n /\ a = v + i * ps.

(** The number of pages a region of [size] bytes touches. *)
Definition pages (ps size : Z) : nat := Z.to_nat ((size + ps - 1) / ps).

(** [n] rounds are left for [size] bytes. *)
Definition span (ps size : Z) (n : nat) : Prop :=
  match n with
  | O => size <= 0
  | S m => Z.of_nat m * ps < size <= Z.of_nat n * ps
  end.

Lemma s64_small x : - 2 ^ 63 <= x < 2 ^ 63 -> s64 x = x.
Proof.
  intros Hx. unfold s64. destruct (decide (0 <= x)) as [Hp|Hn].
  - rewrite wrap_small by (split; lia). by rewrite (proj2 (Z.ltb_lt _ _)) by lia.
  - assert (E1 : u64 x = x + 2 ^ 64).
    { unfold wrap. rewrite <- (Z_mod_plus_full x 1). apply Z.mod_small. lia. }
    rewrite E1. rewrite (proj2 (Z.ltb_ge _ _)) by lia. lia.
Qed.

Lemma span_pages ps size : 0 < ps -> 0 <= size -> span ps size (pages ps size).
Proof.
  intros Hp Hs. unfold pages. pose proof (Z.div_mod (size + ps - 1) ps) as Hd.
  pose proof (Z.mod_pos_bound (size + ps - 1) ps Hp).
  assert (0 <= (size + ps - 1) / ps) by (apply Z.div_pos; lia).
  destruct (Z.to_nat _) as [|m] eqn:Em; cbn [span]; [nia|].
  assert (Ez : (size + ps - 1) / ps = Z.of_nat (S m)) by lia. rewrite Ez in Hd. lia.
Qed.

Lemma pages_fuel (b : PageTableBase) ps size :
  0 < ps -> 0 <= size -> pageSize b = ps -> (pages ps size < page_fuel b size)%nat.
Proof.
  intros Hp Hs E0. unfold pages, page_fuel. rewrite E0.
  assert ((size + ps - 1) / ps <= size / ps + 1).
  { replace (size / ps + 1) with ((size + 1 * ps) / ps) by (apply Z.div_add; lia).
    apply Z.div_le_mono; lia. }
  assert (0 <= size / ps) by (apply Z.div_pos; lia). lia.
Qed.

Lemma span_step ps size n :
  0 < ps <= 2 ^ 63 -> size < 2 ^ 63 -> span ps size (S n) ->
  0 < size /\ span ps (s64 (size - ps)) n /\ s64 (size - ps) < 2 ^ 63.
Proof.
  intros Hp Hs [H1 H2]. rewrite s64_small by nia.
  split_and!; [nia| |lia]. destruct n as [|m]; cbn [span] in *; nia.
Qed.

Lemma region_0 v ps n : (0 < n)%nat -> region v ps n v.
Proof. exists 0. lia. Qed.

(** The rest of a region that ends within the address space; past its last page
    the address wraps around. *)
Section next.
Context (v ps : Z) (n : nat).
Hypothesis start : 0 <= v.
Hypothesis size_pos : 0 < ps.
Hypothesis in_space : v + Z.of_nat (S n) * ps <= 2 ^ 64.

Lemma next_ok : 0 <= u64 (v + ps) /\ u64 (v + ps) + Z.of_nat n * ps <= 2 ^ 64 /\
  forall i, 0 <= i < Z.of_nat n -> u64 (v + ps) + i * ps = v + (i + 1) * ps.
Proof.
  pose proof (wrap_range 64 (v + ps) ltac:(lia)) as [H1 H2].
  destruct n as [|m]; [split_and!; lia|].
  rewrite (wrap_small 64 (v + ps)) by (split; nia). split_and!; nia.
Qed.

Lemma region_next a : region (u64 (v + ps)) ps n a <-> region (v + ps) ps n a.
Proof.
  destruct next_ok as (_ & _ & Hi). unfold region.
  split; intros (i & Hb & ->); exists i; (split; [done|]); specialize (Hi i Hb); lia.
Qed.

Lemma region_split a : region v ps (S n) a <-> a = v \/ region (u64 (v + ps)) ps n a.
Proof.
  rewrite region_next. split.
  - intros (i & Hi & ->). destruct (decide (i = 0)) as [->|]; [left; lia|right]. exists (i - 1). lia.
  - intros [->|(i & Hi & ->)]; [apply region_0; lia|]. exists (i + 1). lia.
Qed.

Lemma region_not_first a : region (u64 (v + ps)) ps n a -> a <> v.
Proof. rewrite region_next. intros (i & Hi & ->). nia. Qed.
End next.

(** ** One page *)

Lemma map_page_ok k pt v p flags :
  pt_ok k pt -> flag_set flags Clobber = true \/ pTable pt !! v = None ->
  let e := tlb_new (pt_pid (ft_base pt)) v p (flag_set flags Uncacheable) (flag_set flags ReadOnly) in
  exists pt', map_page pt v p flags = Ret pt' /\ pt_ok k pt' /\ pTable pt' = <[v := e]> (pTable pt) /\
    pt_pid (ft_base pt') = pt_pid (ft_base pt).
Proof.
  intros [] Hf e. destruct pt as [b t]. cbn in *. unfold map_page.
  assert (Ec : negb (flag_set flags Clobber) && bool_decide (is_Some (t !! v)) = false).
  { destruct Hf as [->|E0]; [done|]. rewrite bool_decide_false; [apply andb_false_r|].
    rewrite E0. by intros []. }
  rewrite Ec. eexists. split; [done|]. destruct (erase_same b v) as (E1 & E2 & E3).
  split_and!; [|done|done]. constructor; cbn; [done|congruence..|].
  unfold has_entry. eapply replace_ok; [done| |by rewrite lookup_insert_eq]. intros a x Ha Hx.
  by rewrite lookup_insert_ne.
Qed.

Lemma map_page_mapped pt v p flags :
  flag_set flags Clobber = false -> is_Some (pTable pt !! v) -> map_page pt v p flags = Err Fatal.
Proof.
  intros Hf Hm. destruct pt as [b t]. unfold map_page. cbn in *. by rewrite Hf, bool_decide_true.
Qed.

Lemma unmap_page_ok k pt v :
  pt_ok k pt -> is_Some (pTable pt !! v) ->
  exists pt', unmap_page pt v = Ret pt' /\ pt_ok k pt' /\ pTable pt' = delete v (pTable pt) /\
    pt_pid (ft_base pt') = pt_pid (ft_base pt).
Proof.
  intros [] [e He]. destruct pt as [b t]. cbn in *. unfold unmap_page. rewrite He.
  eexists. split; [done|]. destruct (erase_same b v) as (E1 & E2 & E3).
  split_and!; [|done|done]. destruct (eraseCacheEntry_ok b (has_entry t) v) as [Hc Ha]; [done|].
  constructor; cbn; [done|congruence..|].
  eapply cache_ok_frame; [done..|]. unfold has_entry. intros a x Hn Hx. by rewrite lookup_delete_ne.
Qed.

Lemma remap_page_ok k pt v v' e :
  pt_ok k pt -> pTable pt !! v = Some e -> pTable pt !! v' = None ->
  exists pt', remap_page pt v v' = Ret pt' /\ pt_ok k pt' /\
    pTable pt' = <[v' := updateVaddr e v']> (delete v (pTable pt)) /\
    pt_pid (ft_base pt') = pt_pid (ft_base pt).
Proof.
  intros [] He Hn. destruct pt as [b t]. cbn in *. unfold remap_page. rewrite He.
  assert (Hv : v <> v') by congruence.
  rewrite lookup_delete_ne, lookup_insert_eq by done. cbn [default].
  eexists. split; [done|]. destruct (erase_same b v) as (E1 & E2 & E3).
  destruct (eraseCacheEntry_ok b (has_entry t) v) as [Hc Ha]; [done|].
  assert (Ha' : absent (eraseCacheEntry b v) v')
    by (eapply unmapped_absent; [exact Hc|]; unfold has_entry; intros x Hx; by rewrite Hn in Hx).
  assert (Et : <[v' := updateVaddr e v']> (delete v (<[v' := e]> t)) = <[v' := updateVaddr e v']> (delete v t)).
  { rewrite delete_insert_ne by done. by rewrite insert_insert_eq. }
  cbn [id]. rewrite Et. split_and!; [|done|done]. constructor; cbn; [done|congruence..|].
  apply update_ok; [|done|unfold has_entry; by rewrite lookup_insert_eq].
  eapply (cache_ok_frame _ (has_entry (delete v t))); [|exact Ha'|]; unfold has_entry.
  - eapply cache_ok_frame; [exact Hc|exact Ha|]. intros a x Hn' Hx. by rewrite lookup_delete_ne.
  - intros a x Hn' Hx. by rewrite lookup_insert_ne.
Qed.

(** ** Regions of pages *)

Section loops.
Context (k : Z).
Local Abbreviation ps := (2 ^ k).

Lemma ps_bounds pt : pt_ok k pt -> 0 < ps <= 2 ^ 63.
Proof.
  intros Hk. pose proof (po_shift _ _ Hk). split; [apply pow2_pos; lia|apply Z.pow_le_mono_r; lia].
Qed.

(** What [map] makes of the table. *)
Definition mapped (t : gmap Z E) (pid v p flags : Z) (n : nat) (t' : gmap Z E) : Prop :=
  (forall i, 0 <= i < Z.of_nat n -> t' !! (v + i * ps) =
     Some (tlb_new pid (v + i * ps) (u64 (p + i * ps)) (flag_set flags Uncacheable) (flag_set flags ReadOnly))) /\
  (forall a, ~ region v ps n a -> t' !! a = t !! a).

Lemma map_loop_ok n : forall fuel pt v p size flags,
  pt_ok k pt -> span ps size n -> (n < fuel)%nat -> size < 2 ^ 63 ->
  0 <= v -> v + Z.of_nat n * ps <= 2 ^ 64 -> inword 64 p ->
  flag_set flags Clobber = true \/ (forall a, region v ps n a -> pTable pt !! a = None) ->
  exists pt', map_loop fuel pt v p size flags = Ret pt' /\ pt_ok k pt' /\
    mapped (pTable pt) (pt_pid (ft_base pt)) v p flags n (pTable pt').
Proof.
  induction n as [|n IH]; intros [|fuel] pt v p size flags Hk Hs Hf Hz Hv He Hp Hc; [lia| |lia|].
  - cbn in Hs. cbn [map_loop]. rewrite (proj2 (Z.ltb_ge _ _)) by lia. exists pt.
    split_and!; [done..|]. split; [intros; lia|done].
  - pose proof (ps_bounds pt Hk) as Hps. destruct (span_step _ _ _ Hps Hz Hs) as (Hpos & Hs' & Hz').
    assert (Hps0 : 0 < ps) by lia. destruct (next_ok v ps n Hv Hps0 He) as (Hv' & He' & Hi').
    cbn [map_loop]. rewrite (proj2 (Z.ltb_lt _ _)) by lia.
    destruct (map_page_ok k pt v p flags Hk) as (pt1 & E1 & Hk1 & Et1 & Ep1).
    { destruct Hc as [|Hc]; [by left|]. right. apply Hc, region_0. lia. }
    rewrite E1. bsimpl. rewrite (po_size _ _ Hk1).
    destruct (IH fuel pt1 (u64 (v + ps)) (u64 (p + ps)) (s64 (size - ps)) flags)
      as (pt' & E' & Hk' & Hm1 & Hm2); [done|done|lia|done|done|done|apply wrap_range; lia| |].
    { destruct Hc as [|Hc]; [by left|]. right. intros a Ha. rewrite Et1, lookup_insert_ne.
      - apply Hc. apply region_split; auto.
      - intros <-. by apply region_not_first in Ha. }
    rewrite E'. exists pt'. split_and!; [done..|]. split.
    + intros i Hi. destruct (decide (i = 0)) as [->|].
      * rewrite Z.mul_0_l, !Z.add_0_r, Hm2, Et1, lookup_insert_eq, wrap_small; [done|done|].
        intros Ha. by apply region_not_first in Ha.
      * specialize (Hm1 (i - 1) ltac:(lia)). rewrite Ep1, wrap_add_l, (Hi' (i - 1)) in Hm1 by lia.
        replace (i - 1 + 1) with i in Hm1 by lia.
        by replace (p + ps + (i - 1) * ps) with (p + i * ps) in Hm1 by ring.
    + intros a Ha. rewrite region_split in Ha by done. rewrite Hm2, Et1, lookup_insert_ne; [done|..]; intuition.
Qed.

Lemma map_loop_mapped n : forall fuel pt v p size flags,
  pt_ok k pt -> span ps size n -> (n < fuel)%nat -> size < 2 ^ 63 ->
  0 <= v -> v + Z.of_nat n * ps <= 2 ^ 64 -> flag_set flags Clobber = false ->
  (exists a, region v ps n a /\ is_Some (pTable pt !! a)) -> map_loop fuel pt v p size flags = Err Fatal.
Proof.
  induction n as [|n IH]; intros [|fuel] pt v p size flags Hk Hs Hf Hz Hv He Hc (a & Ha & Hm); try lia.
  { destruct Ha as (i & Hi & _). lia. }
  pose proof (ps_bounds pt Hk) as Hps. destruct (span_step _ _ _ Hps Hz Hs) as (Hpos & Hs' & Hz').
  assert (Hps0 : 0 < ps) by lia. destruct (next_ok v ps n Hv Hps0 He) as (Hv' & He' & _).
  cbn [map_loop]. rewrite (proj2 (Z.ltb_lt _ _)) by lia.
  destruct (pTable pt !! v) as [e|] eqn:Ev; [by rewrite map_page_mapped by (rewrite ?Ev; done)|].
  destruct (map_page_ok k pt v p flags Hk) as (pt1 & E1 & Hk1 & Et1 & Ep1); [by right|].
  rewrite E1. bsimpl. rewrite (po_size _ _ Hk1).
  apply region_split in Ha as [->|Ha]; [rewrite Ev in Hm; by destruct Hm| |done|done|done].
  apply IH; try done; [lia|].
  exists a. split; [done|]. rewrite Et1, lookup_insert_ne; [done|]. intros <-. by apply region_not_first in Ha.
Qed.

Definition unmapped (t : gmap Z E) (v : Z) (n : nat) (t' : gmap Z E) : Prop :=
  (forall a, region v ps n a -> t' !! a = None) /\ (forall a, ~ region v ps n a -> t' !! a = t !! a).

Lemma unmap_loop_ok n : forall fuel pt v size,
  pt_ok k pt -> span ps size n -> (n < fuel)%nat -> size < 2 ^ 63 ->
  0 <= v -> v + Z.of_nat n * ps <= 2 ^ 64 ->
  (forall a, region v ps n a -> is_Some (pTable pt !! a)) ->
  exists pt', unmap_loop fuel pt v size = Ret pt' /\ pt_ok k pt' /\ unmapped (pTable pt) v n (pTable pt').
Proof.
  induction n as [|n IH]; intros [|fuel] pt v size Hk Hs Hf Hz Hv He Hm; [lia| |lia|].
  - cbn in Hs. cbn [unmap_loop]. rewrite (proj2 (Z.ltb_ge _ _)) by lia. exists pt.
    split_and!; [done..|]. split; [|done]. intros a (i & Hi & _). lia.
  - pose proof (ps_bounds pt Hk) as Hps. destruct (span_step _ _ _ Hps Hz Hs) as (Hpos & Hs' & Hz').
    assert (Hps0 : 0 < ps) by lia. destruct (next_ok v ps n Hv Hps0 He) as (Hv' & He' & Hi').
    cbn [unmap_loop]. rewrite (proj2 (Z.ltb_lt _ _)) by lia.
    destruct (unmap_page_ok k pt v Hk) as (pt1 & E1 & Hk1 & Et1 & Ep1); [apply Hm, region_0; lia|].
    rewrite E1. bsimpl. rewrite (po_size _ _ Hk1).
    destruct (IH fuel pt1 (u64 (v + ps)) (s64 (size - ps))) as (pt' & E' & Hk' & Hm1 & Hm2);
      [done|done|lia|done|done|done| |].
    { intros a Ha. rewrite Et1, lookup_delete_ne; [apply Hm, region_split; auto|].
      intros <-. by apply region_not_first in Ha. }
    rewrite E'. exists pt'. split_and!; [done..|]. split.
    + intros a Ha. apply region_split in Ha as [->|Ha]; [|by apply Hm1|done|done|done].
      rewrite Hm2, Et1, lookup_delete_eq; [done|]. intros Ha. by apply region_not_first in Ha.
    + intros a Ha. rewrite region_split in Ha by done. rewrite Hm2, Et1, lookup_delete_ne; [done|..]; intuition.
Qed.

(** Unmapping stops at the first page that is not mapped. *)
Lemma unmap_loop_hole n : forall fuel pt v size,
  pt_ok k pt -> span ps size n -> (n < fuel)%nat -> size < 2 ^ 63 ->
  0 <= v -> v + Z.of_nat n * ps <= 2 ^ 64 ->
  (exists a, region v ps n a /\ pTable pt !! a = None) -> unmap_loop fuel pt v size = Err AssertFailed.
Proof.
  induction n as [|n IH]; intros [|fuel] pt v size Hk Hs Hf Hz Hv He (a & Ha & Hm); try lia.
  { destruct Ha as (i & Hi & _). lia. }
  pose proof (ps_bounds pt Hk) as Hps. destruct (span_step _ _ _ Hps Hz Hs) as (Hpos & Hs' & Hz').
  assert (Hps0 : 0 < ps) by lia. destruct (next_ok v ps n Hv Hps0 He) as (Hv' & He' & _).
  cbn [unmap_loop]. rewrite (proj2 (Z.ltb_lt _ _)) by lia.
  destruct (pTable pt !! v) as [e|] eqn:Ev.
  2:{ destruct pt as [b t]. cbn in Ev. unfold unmap_page. by rewrite Ev. }
  destruct (unmap_page_ok k pt v Hk) as (pt1 & E1 & Hk1 & Et1 & Ep1); [by rewrite Ev|].
  rewrite E1. bsimpl. rewrite (po_size _ _ Hk1).
  apply region_split in Ha as [->|Ha]; [by rewrite Ev in Hm| |done|done|done].
  apply IH; try done; [lia|].
  exists a. split; [done|]. rewrite Et1, lookup_delete_ne; [done|]. intros <-. by apply region_not_first in Ha.
Qed.

Definition remapped (t : gmap Z E) (v v' : Z) (n : nat) (t' : gmap Z E) : Prop :=
  (forall i, 0 <= i < Z.of_nat n ->
     t' !! (v' + i * ps) = (fun e => updateVaddr e (v' + i * ps)) <$> t !! (v + i * ps)) /\
  (forall a, region v ps n a -> t' !! a = None) /\
  (forall a, ~ region v ps n a -> ~ region v' ps n a -> t' !! a = t !! a).

Lemma remap_loop_ok n : forall fuel pt v size v',
  pt_ok k pt -> span ps size n -> (n < fuel)%nat -> size < 2 ^ 63 ->
  0 <= v -> v + Z.of_nat n * ps <= 2 ^ 64 -> 0 <= v' -> v' + Z.of_nat n * ps <= 2 ^ 64 ->
  (forall a, region v ps n a -> is_Some (pTable pt !! a)) ->
  (forall a, region v' ps n a -> pTable pt !! a = None) ->
  exists pt', remap_loop fuel pt v size v' = Ret pt' /\ pt_ok k pt' /\
    remapped (pTable pt) v v' n (pTable pt').
Proof.
  induction n as [|n IH]; intros [|fuel] pt v size v' Hk Hs Hf Hz Hv He Hw Hx Hm Hn; [lia| |lia|].
  - cbn in Hs. cbn [remap_loop]. rewrite (proj2 (Z.ltb_ge _ _)) by lia. exists pt.
    split_and!; [done..|]. split_and!; [intros; lia| |done]. intros a (i & Hi & _). lia.
  - pose proof (ps_bounds pt Hk) as Hps. destruct (span_step _ _ _ Hps Hz Hs) as (Hpos & Hs' & Hz').
    assert (Hps0 : 0 < ps) by lia. destruct (next_ok v ps n Hv Hps0 He) as (Hv' & He' & Hi').
    destruct (next_ok v' ps n Hw Hps0 Hx) as (Hw' & Hx' & Hj').
    cbn [remap_loop]. rewrite (proj2 (Z.ltb_lt _ _)) by lia.
    destruct (Hm v) as [e Ee]; [apply region_0; lia|]. assert (En := Hn v' ltac:(apply region_0; lia)).
    destruct (remap_page_ok k pt v v' e Hk Ee En) as (pt1 & E1 & Hk1 & Et1 & _).
    rewrite E1. bsimpl. rewrite (po_size _ _ Hk1).
    assert (Hsrc : forall a, region (u64 (v + ps)) ps n a -> a <> v /\ a <> v' /\ pTable pt1 !! a = pTable pt !! a).
    { intros a Ha. assert (a <> v) by (by eapply region_not_first in Ha).
      assert (a <> v'). { intros ->. destruct (Hm v') as [? H1]; [apply region_split; auto|]. congruence. }
      rewrite Et1, lookup_insert_ne, lookup_delete_ne by done. done. }
    destruct (IH fuel pt1 (u64 (v + ps)) (s64 (size - ps)) (u64 (v' + ps))) as (pt' & E' & Hk' & Hm1 & Hm2 & Hm3);
      [done|done|lia|done|done|done|done|done| | |].
    { intros a Ha. destruct (Hsrc a Ha) as (_ & _ & ->). apply Hm, region_split; auto. }
    { intros a Ha. rewrite Et1, lookup_insert_ne by (intros <-; by eapply region_not_first in Ha).
      rewrite lookup_delete_None. right. apply Hn, region_split; auto. }
    rewrite E'. exists pt'. split_and!; [done..|].
    assert (Hv1 : ~ region (u64 (v + ps)) ps n v) by (intros Ha; by apply region_not_first in Ha).
    assert (Hv2 : ~ region (u64 (v' + ps)) ps n v') by (intros Ha; by apply region_not_first in Ha).
    assert (Hv3 : ~ region (u64 (v + ps)) ps n v') by (intros Ha; by apply Hsrc in Ha as (_ & ? & _)).
    assert (Hv4 : ~ region (u64 (v' + ps)) ps n v).
    { intros Ha. rewrite Hn in Ee by (apply region_split; auto). done. }
    split_and!.
    + intros i Hi. destruct (decide (i = 0)) as [->|].
      * rewrite !Z.mul_0_l, !Z.add_0_r, Ee, Hm3, Et1, lookup_insert_eq by done. done.
      * specialize (Hm1 (i - 1) ltac:(lia)). rewrite (Hj' (i - 1)), (Hi' (i - 1)) in Hm1 by lia.
        replace (i - 1 + 1) with i in Hm1 by lia. rewrite Hm1. f_equal.
        apply Hsrc. exists (i - 1). split; [lia|]. rewrite (Hi' (i - 1)) by lia. f_equal. lia.
    + intros a Ha. apply region_split in Ha as [->|Ha]; [|by apply Hm2|done|done|done].
      rewrite Hm3, Et1, lookup_insert_ne, lookup_delete_eq by (congruence || done). done.
    + intros a Ha Hb. rewrite region_split in Ha, Hb by done.
      rewrite Hm3, Et1, lookup_insert_ne, lookup_delete_ne by intuition. done.
Qed.

Lemma isUnmapped_loop_ok n : forall fuel pt v size,
  pt_ok k pt -> span ps size n -> (n < fuel)%nat -> size < 2 ^ 63 ->
  0 <= v -> v + Z.of_nat n * ps <= 2 ^ 64 ->
  exists b, isUnmapped_loop fuel pt v size = Ret b /\
    (b = true <-> forall a, region v ps n a -> pTable pt !! a = None).
Proof.
  induction n as [|n IH]; intros [|fuel] pt v size Hk Hs Hf Hz Hv He; [lia| |lia|].
  - cbn in Hs. cbn [isUnmapped_loop]. rewrite (proj2 (Z.ltb_ge _ _)) by lia. exists true.
    split; [done|]. split; [|done]. intros _ a (i & Hi & _). lia.
  - pose proof (ps_bounds pt Hk) as Hps. destruct (span_step _ _ _ Hps Hz Hs) as (Hpos & Hs' & Hz').
    assert (Hps0 : 0 < ps) by lia. destruct (next_ok v ps n Hv Hps0 He) as (Hv' & He' & Hi').
    cbn [isUnmapped_loop]. rewrite (proj2 (Z.ltb_lt _ _)) by lia. rewrite (po_size _ _ Hk).
    destruct (pTable pt !! v) as [e|] eqn:Ev.
    + rewrite bool_decide_true by done. exists false. split; [done|]. split; [done|].
      intros Ha. rewrite Ha in Ev by (apply region_0; lia). done.
    + rewrite bool_decide_false by (by intros []).
      destruct (IH fuel pt (u64 (v + ps)) (s64 (size - ps))) as (b & Eb & Hb); [done|done|lia|done..|].
      exists b. split; [done|]. rewrite Hb. split.
      * intros Ha a Hr. apply region_split in Hr as [->|Hr]; auto.
      * intros Ha a Hr. apply Ha, region_split; auto.
Qed.

End loops.

Definition region_in (k v size : Z) : Prop :=
  0 <= v /\ v mod 2 ^ k = 0 /\ 0 <= size < 2 ^ 63 /\ v + Z.of_nat (pages (2 ^ k) size) * 2 ^ k <= 2 ^ 64.

Lemma pageOffset_mod k pt a : pt_ok k pt -> pageOffset (ft_base pt) a = a mod 2 ^ k.
Proof.
  intros [Hk _ Em _]. unfold pageOffset. rewrite Em.
  replace (2 ^ k - 1) with (Z.ones k) by (rewrite Z.ones_equiv; lia). apply Z.land_ones. lia.
Qed.

Lemma pageAlign_mod k pt a : pt_ok k pt -> inword 64 a -> pageAlign (ft_base pt) a = a - a mod 2 ^ k.
Proof. intros [Hk _ Em _] Ha. unfold pageAlign. rewrite Em. apply land_wnot_mask; [lia|done]. Qed.

Lemma aligned_assert k pt v :
  pt_ok k pt -> v mod 2 ^ k = 0 -> cassert (pageOffset (ft_base pt) v =? 0) = Ret tt.
Proof. intros Hk Hv. by rewrite (pageOffset_mod k), Hv. Qed.

Lemma lookup_exact k pt va : pt_ok k pt -> inword 64 va -> exists pt',
  pt_lookup pt va = (pTable pt !! (va - va mod 2 ^ k), pt') /\ pt_ok k pt' /\ pTable pt' = pTable pt /\
  pt_pid (ft_base pt') = pt_pid (ft_base pt).
Proof.
  intros Hk Ha. unfold pt_lookup. rewrite (pageAlign_mod k) by done.
  destruct (cached (ft_base pt) _) as [e|] eqn:Ec.
  - exists pt. split_and!; try done. by rewrite (cached_ok _ _ _ _ (po_cache _ _ Hk) Ec : _ !! _ = _).
  - destruct (pTable pt !! _) as [e|] eqn:Et; [|by exists pt].
    eexists. split; [done|]. destruct Hk. split_and!; try done. constructor; cbn; try done.
    apply update_ok; [done|by apply cached_absent|exact Et].
Qed.

End base.


(** The page of an address within a mapped region. *)
Lemma page_of_region ps v size va :
  0 < ps -> 0 <= v -> v mod ps = 0 -> v <= va < v + size ->
  let i := (va - v) / ps in
  0 <= i < Z.of_nat (pages ps size) /\ va - va mod ps = v + i * ps.
Proof.
  intros Hp Hv Hm Ha i. pose proof (Z.div_mod (va - v) ps ltac:(lia)) as Hd. fold i in Hd.
  pose proof (Z.mod_pos_bound (va - v) ps Hp). assert (Hi : 0 <= i) by (apply Z.div_pos; lia).
  assert (E0 : va mod ps = (va - v) mod ps) by (rewrite Zminus_mod, Hm, Z.sub_0_r, Zmod_mod; done).
  split; [split; [done|]|rewrite E0; lia].
  pose proof (span_pages ps size Hp ltac:(lia)) as Hs. destruct (pages ps size) as [|m]; cbn [span] in Hs; [lia|].
  nia.
Qed.

Lemma translate_exact `{TlbEntry E} k (pt : FuncPageTable (E := E)) va :
  pt_ok k pt -> inword 64 va -> exists pt',
  translate pt va = ((fun e => u64 (va mod 2 ^ k + pageStart e)) <$> pTable pt !! (va - va mod 2 ^ k), pt').
Proof.
  intros Hk Ha. unfold translate. destruct (lookup_exact k pt va Hk Ha) as (pt' & -> & _).
  exists pt'. by rewrite (pageOffset_mod k).
Qed.

(** A request that stays within its page passes the checks of [translate]. *)
Lemma translate_req_exact `{TlbEntry E} k (pt : FuncPageTable (E := E)) va n pa :
  pt_ok k pt -> inword 64 va -> 0 < n -> va mod 2 ^ k + n <= 2 ^ k -> va + n <= 2 ^ 64 ->
  (translate pt va).1 = Some pa -> pa mod 2 ^ k = va mod 2 ^ k ->
  exists pt', translate_req pt va n = Ret (NoFault, Some pa, pt').
Proof.
  intros Hk Ha Hn Hin Hend Ht Hm. pose proof (ps_bounds k pt Hk) as Hps. unfold translate_req.
  pose proof (Z.mod_pos_bound va (2 ^ k) ltac:(lia)).
  rewrite (wrap_small 64 (va + n - 1)) by word_lia. rewrite !(pageAlign_mod k) by (done || word_lia).
  assert (Em : (va + n - 1) mod 2 ^ k = va mod 2 ^ k + n - 1).
  { replace (va + n - 1) with (va mod 2 ^ k + n - 1 + va / 2 ^ k * 2 ^ k).
    - rewrite Z_mod_plus_full. apply Z.mod_small. lia.
    - pose proof (Z.div_mod va (2 ^ k) ltac:(lia)). lia. }
  rewrite Em, cassert_true by (apply Z.eqb_eq; lia). bsimpl.
  destruct (translate pt va) as [r pt'] eqn:Et. cbn in Ht. subst r. exists pt'.
  rewrite (po_size _ _ Hk), (wrap_small 64 (2 ^ k - 1)) by word_lia.
  replace (2 ^ k - 1) with (Z.ones k) by (rewrite Z.ones_equiv; lia).
  pose proof (po_shift _ _ Hk). rewrite Z.land_ones, Hm, wrap_small by word_lia.
  by rewrite (proj2 (Z.ltb_ge _ _)) by lia.
Qed.

(** What is mapped is translated.  After mapping a region to physical
    memory, every address of the region translates to the physical address at
    the same offset, requests within a page are translated without a fault, and
    after unmapping the region they fault. *)
Theorem map_translate_roundtrip `{TlbEntry E} (pt : FuncPageTable (E := E)) v p size flags :
  let k := PageShift (E := E) in
  pt_ok k pt -> region_in k v size ->
  0 <= p < PhysLimit (E := E) -> p mod 2 ^ k = 0 -> p + Z.of_nat (pages (2 ^ k) size) * 2 ^ k <= PhysLimit (E := E) ->
  flag_set flags Clobber = true ->
  exists pt', pt_map pt v p size flags = Ret pt' /\
    (forall va, v <= va < v + size -> (translate pt' va).1 = Some (p + (va - v))) /\
    (forall va n, v <= va < v + size -> 0 < n -> va mod 2 ^ k + n <= 2 ^ k ->
       exists pt2, translate_req pt' va n = Ret (NoFault, Some (p + (va - v)), pt2)) /\
    (exists pt2, pt_unmap pt' v size = Ret pt2 /\
       forall va, v <= va < v + size -> (translate pt2 va).1 = None).
Proof.
  intros k Hk Hr Hp Hpm Hpl Hf. pose proof (ps_bounds k pt Hk) as Hps. assert (Hps0 : 0 < 2 ^ k) by lia.
  pose proof (tlb_phys_limit (E := E)) as Hlim. assert (Hrr := Hr). destruct Hr as (Hv & Hvm & Hz & He).
  pose proof (span_pages (2 ^ k) size Hps0 ltac:(lia)) as Hs.
  assert (Hfu : forall b, pageSize b = 2 ^ k -> (pages (2 ^ k) size < page_fuel (E := E) b size)%nat)
    by (intros b; apply pages_fuel; lia).
  destruct (map_loop_ok k (pages (2 ^ k) size) (page_fuel (ft_base pt) size) pt v p size flags)
    as (pt' & E1 & Hk1 & Hm1 & Hm2); [done|done|apply Hfu, Hk|lia|done|done|split; lia|by left|].
  exists pt'. split; [unfold pt_map; by rewrite (aligned_assert k)|].
  assert (Htr : forall va, v <= va < v + size -> (translate pt' va).1 = Some (p + (va - v))).
  { intros va Ha. destruct (page_of_region (2 ^ k) v size va Hps0 Hv Hvm Ha) as [Hi Ep].
    set (i := (va - v) / 2 ^ k) in *. pose proof (Z.mod_pos_bound va (2 ^ k) Hps0).
    assert (Hle : (i + 1) * 2 ^ k <= Z.of_nat (pages (2 ^ k) size) * 2 ^ k) by (apply Z.mul_le_mono_nonneg_r; lia).
    assert (Hi0 : 0 <= i * 2 ^ k) by (apply Z.mul_nonneg_nonneg; lia).
    assert (Hva : inword 64 va) by (split; lia).
    destruct (translate_exact k pt' va Hk1 Hva) as (pt2 & ->). cbn [fst].
    rewrite Ep, Hm1 by done. cbn [fmap option_fmap option_map].
    rewrite (wrap_small 64 (p + i * 2 ^ k)) by (split; lia).
    rewrite pageStart_new; [|lia|rewrite Z_mod_plus_full; done].
    rewrite wrap_small; [f_equal; lia|]. split; lia. }
  split; [exact Htr|]. split.
  - intros va n Ha Hn Hin. destruct (page_of_region (2 ^ k) v size va Hps0 Hv Hvm Ha) as [Hi Ep].
    pose proof (Z.mod_pos_bound va (2 ^ k) Hps0). apply (translate_req_exact k); auto.
    + split; [lia|]. nia.
    + nia.
    + rewrite Z.add_mod, Hpm, Zminus_mod, Hvm by lia. rewrite Z.add_0_l, Z.sub_0_r, !Zmod_mod. done.
  - destruct (unmap_loop_ok k (pages (2 ^ k) size) (page_fuel (ft_base pt') size) pt' v size)
      as (pt2 & E2 & Hk2 & Hu1 & Hu2); [done|done|apply Hfu, Hk1|lia|done|done| |].
    { intros a (i & Hi & ->). by rewrite Hm1. }
    exists pt2. split; [unfold pt_unmap; by rewrite (aligned_assert k)|].
    intros va Ha. destruct (page_of_region (2 ^ k) v size va Hps0 Hv Hvm Ha) as [Hi Ep].
    assert (Hva : inword 64 va). { split; [lia|]. pose proof (Z.mod_pos_bound va (2 ^ k)). nia. }
    destruct (translate_exact k pt2 va Hk2 Hva) as (pt3 & ->). cbn [fst].
    rewrite Ep, Hu1; [done|]. by eexists.
Qed.

Import X86.

Definition demo_table : FuncPageTable (E := X86Entry) :=
  mkFuncPageTable (let e := mkCacheElement false 0 tlb_default in mkPageTableBase e e e (2 ^ 12) (2 ^ 12 - 1) 7) ∅.

Lemma demo_table_new : FuncPageTable_new 7 4096 = Ret demo_table.
Proof. vm_compute. reflexivity. Qed.

Lemma demo_table_ok : pt_ok 12 demo_table.
Proof. by constructor. Qed.


Lemma map_translate_roundtrip_witness :
  exists pt', pt_map demo_table 0x1000 0x5000 0x1800 1 = Ret pt' /\ (translate pt' 0x2345).1 = Some 0x6345.
Proof.
  destruct (map_translate_roundtrip demo_table 0x1000 0x5000 0x1800 1) as (pt' & E1 & Ht & _).
  - apply demo_table_ok.
  - split_and!; vm_compute; try done; congruence.
  - split; vm_compute; congruence.
  - reflexivity.
  - vm_compute. congruence.
  - reflexivity.
  - exists pt'. split; [exact E1|]. rewrite Ht by lia. reflexivity.
Defined.

(** Moving a page onto a mapped one leaves the old translation of the target in
    the cache behind the new one; unmapping the target then erases only the new
    element, and the page still translates, to memory it no longer maps. *)
Lemma stale_translation :
  exists pt1 pt2,
    (pt ← pt_map demo_table 0x1000 0x5000 0x1000 0;
     pt ← pt_map pt 0x2000 0x8000 0x1000 0;
     pt_remap pt 0x1000 0x1000 0x2000) = Ret pt1 /\
    (translate pt1 0x2000).1 = Some 0x5000 /\
    pt_unmap pt1 0x2000 0x1000 = Ret pt2 /\
    isUnmapped pt2 0x2000 0x1000 = Ret true /\ (translate pt2 0x2000).1 = Some 0x8000.
Proof. eexists _, _. split; [vm_compute; reflexivity|]. repeat split; vm_compute; reflexivity. Qed.
