(* ===== verification/MultiLevelPageTable.v ===== *)
(** * Page tables in simulated memory: [mem/multi_level_page_table_impl.hh]

    The template of a page table whose levels are pages of physical memory,
    with the operations of x86 ([arch/x86/pagetable.hh]), the only instruction
    set that uses it, and the allocator of physical pages ([sim/system.cc]).
    Physical memory is a map from the addresses of 64-bit words to their values;
    memory that was never written is zero.  An access that is not aligned to a
    word is outside the model and fails.

    The table is a tree of pages: the proofs record for every page of the tree
    the path of offsets that leads to it, and show that walking, with or without
    allocation, never confuses two paths. *)

From stdpp Require Import gmap.
From S2P Require Import Prelude IntMath PageTable.
Import X86.
Local Open Scope Z_scope.

(** ** Physical memory and its allocator *)

Record System := mkSystem {
  physmem : gmap Z Z;
  pagePtr : Z;
  totalSize : Z
}.

Definition read_word (s : System) (a : Z) : res Z :=
  if a mod 8 =? 0 then Ret (default 0 (physmem s !! a)) else Err OutOfBounds.

Definition write_word (s : System) (a x : Z) : res System :=
  if a mod 8 =? 0 then Ret (mkSystem (<[a := x]> (physmem s)) (pagePtr s) (totalSize s))
  else Err OutOfBounds.

Fixpoint clear_words (n : nat) (a : Z) (m : gmap Z Z) : gmap Z Z :=
  match n with
  | O => m
  | S n => clear_words n (a + 8) (<[a := 0]> m)
  end.

(** [memsetBlob(a, 0, n)] for a whole number of words. *)
Definition memset_zero (s : System) (a n : Z) : res System :=
  if a mod 8 =? 0 then Ret (mkSystem (clear_words (Z.to_nat (n / 8)) a (physmem s)) (pagePtr s) (totalSize s))
  else Err OutOfBounds.

Definition allocPhysPages (s : System) (npages : Z) : res (Z * System) :=
  let return_addr := u64 (Z.shiftl (pagePtr s) 12) in
  let ptr := u64 (pagePtr s + npages) in
  let next_return_addr := u64 (Z.shiftl ptr 12) in
  let '(return_addr, ptr) :=
    if (0xffff0000 <=? next_return_addr) && (next_return_addr <=? 0xffffffff)
    then (0xffffffff, Z.shiftr 0xffffffff 12) else (return_addr, ptr) in
  if totalSize s <? u64 (Z.shiftl ptr 12) then Err Fatal
  else Ret (return_addr, mkSystem (physmem s) ptr (totalSize s)).

(** ** The operations of x86 *)

Definition PageTableLayout : list Z := [9; 9; 9; 9].
Definition PTE_NotPresent : Z := 1.
Definition PTE_Supervisor : Z := 2.
Definition PTE_ReadOnly : Z := 4.
Definition PTE_Uncacheable : Z := 8.

(** The fields of [BitUnion64(PageTableEntry)] that are used. *)
Definition setPTEFields (pte flags : Z) : Z :=
  let pte := insertBits1 64 pte 0 (if flag_set flags PTE_NotPresent then 0 else 1) in
  let pte := insertBits1 64 pte 4 (if flag_set flags PTE_Uncacheable then 1 else 0) in
  let pte := insertBits1 64 pte 1 (if flag_set flags PTE_ReadOnly then 0 else 1) in
  insertBits1 64 pte 2 (if flag_set flags PTE_Supervisor then 0 else 1).

Definition getPnum (pte : Z) : Z := bits pte 51 12.
Definition pte_isUncacheable (pte : Z) : bool := negb (bits1 pte 4 =? 0).
Definition pte_isReadOnly (pte : Z) : bool := bits1 pte 1 =? 0.
Definition setPnum (pte pnum : Z) : Z := insertBits 64 pte 51 12 pnum.

Definition getOffsets (vaddr : Z) : list Z :=
  [bits vaddr 20 12; bits vaddr 29 21; bits vaddr 38 30; bits vaddr 47 39].

(** ** [MultiLevelPageTable] *)

Record MultiLevelPageTable := mkMLPT {
  ml_base : PageTableBase (E := X86Entry);
  ml_sys : System;
  basePtr : Z;
  logLevelSize : list Z;
  numLevels : nat
}.

Definition MultiLevelPageTable_new (pid : Z) (s : System) : res MultiLevelPageTable :=
  b ← PageTableBase_new pid (2 ^ 12);
  Ret (mkMLPT b s 0 PageTableLayout (length PageTableLayout)).

Definition with_sys (m : MultiLevelPageTable) (s : System) : MultiLevelPageTable :=
  mkMLPT (ml_base m) s (basePtr m) (logLevelSize m) (numLevels m).
Definition with_cache (m : MultiLevelPageTable) (b : PageTableBase) : MultiLevelPageTable :=
  mkMLPT b (ml_sys m) (basePtr m) (logLevelSize m) (numLevels m).

(** Pages for a level with [2 ^ l] entries of [2 ^ 3] bytes. *)
Definition level_pages (l : Z) : res Z :=
  w ← floorLog2_u64 8;
  let log_req_size := w + l in
  _ ← cassert (12 <=? log_req_size);
  Ret (u64 (Z.shiftl 1 (log_req_size - 12))).

(** [base] is the page number [getBasePtr] finds in the register of the page
    table; the root is the first page allocated. *)
Definition initState (m : MultiLevelPageTable) (base : Z) : res MultiLevelPageTable :=
  let base := if base =? 0 then base + 1 else base in
  let s := mkSystem (physmem (ml_sys m)) base (totalSize (ml_sys m)) in
  l ← vread (logLevelSize m) (numLevels m - 1);
  npages ← level_pages l;
  '(paddr, s) ← allocPhysPages s npages;
  s ← memset_zero s paddr (u64 (Z.shiftl npages 12));
  Ret (mkMLPT (ml_base m) s base (logLevelSize m) (numLevels m)).

Definition entry_addr (level_base offset : Z) : Z := u64 (u64 (Z.shiftl level_base 12) + u64 (offset * 8)).

(** The loop of [walk], from level [i] down to level 1: the page of the last
    level, or nothing if a level is missing and is not to be allocated. *)
Fixpoint walk_loop (i : nat) (layout : list Z) (s : System) (offsets : list Z) (level_base : Z)
    (allocate : bool) : res (option Z * System) :=
  match i with
  | O => Ret (Some level_base, s)
  | S j =>
      o ← vread offsets i;
      let a := entry_addr level_base o in
      entry ← read_word s a;
      let next_entry_pnum := getPnum entry in
      if next_entry_pnum =? 0 then
        if negb allocate then Ret (None, s)
        else
          l ← vread layout j;
          npages ← level_pages l;
          '(next_entry_paddr, s) ← allocPhysPages s npages;
          s ← memset_zero s next_entry_paddr (u64 (Z.shiftl npages 12));
          let next_entry_pnum := Z.shiftr next_entry_paddr 12 in
          let entry := setPTEFields (setPnum entry next_entry_pnum) 0 in
          s ← write_word s a entry;
          walk_loop j layout s offsets next_entry_pnum allocate
      else walk_loop j layout s offsets next_entry_pnum allocate
  end.

Definition walk (m : MultiLevelPageTable) (vaddr : Z) (allocate : bool)
    : res (option Z * MultiLevelPageTable) :=
  let offsets := getOffsets vaddr in
  '(level_base, s) ← walk_loop (numLevels m - 1) (logLevelSize m) (ml_sys m) offsets (basePtr m) allocate;
  match level_base with
  | None => Ret (None, with_sys m s)
  | Some level_base =>
      o ← vread offsets 0;
      Ret (Some (entry_addr level_base o), with_sys m s)
  end.

Definition ml_write (m : MultiLevelPageTable) (a x : Z) : res MultiLevelPageTable :=
  s ← write_word (ml_sys m) a x;
  Ret (with_sys m s).

Definition ml_flags (flags : Z) : Z :=
  let f := if flag_set flags NotPresent then PTE_NotPresent else 0 in
  let f := if flag_set flags Uncacheable then Z.lor f PTE_Uncacheable else f in
  if flag_set flags ReadOnly then Z.lor f PTE_ReadOnly else f.

Definition ml_map_page (m : MultiLevelPageTable) (vaddr paddr flags : Z) : res MultiLevelPageTable :=
  '(pte_addr, m) ← walk m vaddr true;
  match pte_addr with
  | None => Ret m
  | Some a =>
      pte ← read_word (ml_sys m) a;
      if negb (flag_set flags Clobber) && negb (getPnum pte =? 0) then Err Fatal
      else
        let pte := setPTEFields (setPnum pte (Z.shiftr paddr 12)) (ml_flags flags) in
        m ← ml_write m a pte;
        let b := eraseCacheEntry (ml_base m) vaddr in
        Ret (with_cache m (updateCache b vaddr (tlb_new (pt_pid b) vaddr paddr
               (flag_set flags Uncacheable) (flag_set flags ReadOnly))))
  end.

Fixpoint ml_map_loop (fuel : nat) (m : MultiLevelPageTable) (vaddr paddr size flags : Z)
    : res MultiLevelPageTable :=
  match fuel with
  | O => Err OutOfFuel
  | S fuel =>
      if 0 <? size then
        m ← ml_map_page m vaddr paddr flags;
        let ps := pageSize (ml_base m) in
        ml_map_loop fuel m (u64 (vaddr + ps)) (u64 (paddr + ps)) (s64 (size - ps)) flags
      else Ret m
  end.

Definition ml_map (m : MultiLevelPageTable) (vaddr paddr size flags : Z) : res MultiLevelPageTable :=
  _ ← cassert (pageOffset (ml_base m) vaddr =? 0);
  ml_map_loop (page_fuel (ml_base m) size) m vaddr paddr size flags.

Definition ml_remap_page (m : MultiLevelPageTable) (vaddr new_vaddr : Z) : res MultiLevelPageTable :=
  '(pte_addr, m) ← walk m vaddr false;
  match pte_addr with
  | None => Err Fatal
  | Some a =>
      pte ← read_word (ml_sys m) a;
      let paddr := getPnum pte in
      if paddr =? 0 then Err Fatal
      else
        let pte := setPnum pte 0 in
        m ← ml_write m a pte;
        '(new_addr, m) ← walk m new_vaddr true;
        match new_addr with
        | None => Err Fatal   (* not reached: a walk that allocates succeeds *)
        | Some na =>
            new_pte ← read_word (ml_sys m) na;
            m ← ml_write m na (setPTEFields (setPnum new_pte (Z.shiftr paddr 12)) 0);
            let b := eraseCacheEntry (ml_base m) vaddr in
            Ret (with_cache m (updateCache b new_vaddr (tlb_new (pt_pid b) new_vaddr paddr
                   (pte_isUncacheable pte) (pte_isReadOnly pte))))
        end
  end.

Fixpoint ml_remap_loop (fuel : nat) (m : MultiLevelPageTable) (vaddr size new_vaddr : Z)
    : res MultiLevelPageTable :=
  match fuel with
  | O => Err OutOfFuel
  | S fuel =>
      if 0 <? size then
        m ← ml_remap_page m vaddr new_vaddr;
        let ps := pageSize (ml_base m) in
        ml_remap_loop fuel m (u64 (vaddr + ps)) (s64 (size - ps)) (u64 (new_vaddr + ps))
      else Ret m
  end.

Definition ml_remap (m : MultiLevelPageTable) (vaddr size new_vaddr : Z) : res MultiLevelPageTable :=
  _ ← cassert (pageOffset (ml_base m) vaddr =? 0);
  _ ← cassert (pageOffset (ml_base m) new_vaddr =? 0);
  ml_remap_loop (page_fuel (ml_base m) size) m vaddr size new_vaddr.

Definition ml_unmap_page (m : MultiLevelPageTable) (vaddr : Z) : res MultiLevelPageTable :=
  '(pte_addr, m) ← walk m vaddr false;
  match pte_addr with
  | None => Err Fatal
  | Some a =>
      pte ← read_word (ml_sys m) a;
      if getPnum pte =? 0 then Err Fatal
      else
        m ← ml_write m a (setPnum pte 0);
        Ret (with_cache m (eraseCacheEntry (ml_base m) vaddr))
  end.

Fixpoint ml_unmap_loop (fuel : nat) (m : MultiLevelPageTable) (vaddr size : Z) : res MultiLevelPageTable :=
  match fuel with
  | O => Err OutOfFuel
  | S fuel =>
      if 0 <? size then
        m ← ml_unmap_page m vaddr;
        let ps := pageSize (ml_base m) in
        ml_unmap_loop fuel m (u64 (vaddr + ps)) (s64 (size - ps))
      else Ret m
  end.

Definition ml_unmap (m : MultiLevelPageTable) (vaddr size : Z) : res MultiLevelPageTable :=
  _ ← cassert (pageOffset (ml_base m) vaddr =? 0);
  ml_unmap_loop (page_fuel (ml_base m) size) m vaddr size.

Fixpoint ml_isUnmapped_loop (fuel : nat) (m : MultiLevelPageTable) (vaddr size : Z) : res bool :=
  match fuel with
  | O => Err OutOfFuel
  | S fuel =>
      if 0 <? size then
        '(pte_addr, m) ← walk m vaddr false;
        pnum ← match pte_addr with
               | None => Ret 0
               | Some a => pte ← read_word (ml_sys m) a; Ret (getPnum pte)
               end;
        if negb (pnum =? 0) then Ret false
        else
          let ps := pageSize (ml_base m) in
          ml_isUnmapped_loop fuel m (u64 (vaddr + ps)) (s64 (size - ps))
      else Ret true
  end.

Definition ml_isUnmapped (m : MultiLevelPageTable) (vaddr size : Z) : res bool :=
  _ ← cassert (pageOffset (ml_base m) vaddr =? 0);
  ml_isUnmapped_loop (page_fuel (ml_base m) size) m vaddr size.

Definition ml_lookup (m : MultiLevelPageTable) (vaddr : Z) : res (option X86Entry * MultiLevelPageTable) :=
  let page_addr := pageAlign (ml_base m) vaddr in
  match cached (ml_base m) page_addr with
  | Some e => Ret (Some e, m)
  | None =>
      '(pte_addr, m) ← walk m page_addr false;
      match pte_addr with
      | None => Ret (None, m)
      | Some a =>
          pte ← read_word (ml_sys m) a;
          let pnum := getPnum pte in
          if pnum =? 0 then Ret (None, m)
          else
            let e := tlb_new (pt_pid (ml_base m)) vaddr (u64 (Z.shiftl pnum 12))
                       (pte_isUncacheable pte) (pte_isReadOnly pte) in
            Ret (Some e, with_cache m (updateCache (ml_base m) page_addr e))
      end
  end.

(** [PageTableBase::translate] on this table. *)
Definition ml_translate (m : MultiLevelPageTable) (vaddr : Z) : res (option Z * MultiLevelPageTable) :=
  '(e, m') ← ml_lookup m vaddr;
  Ret (option_map (fun e => u64 (pageOffset (ml_base m) vaddr + pageStart e)) e, m').

(** ** Page table entries *)

Lemma insertBits_inword w val first last b : 0 <= w -> inword w val -> inword w (insertBits w val first last b).
Proof.
  intros Hw Hv. unfold insertBits.
  assert (H : forall x y, inword w x -> inword w (Z.land x (wrap w y))).
  { intros x y Hx. apply inword_land; [done|done|]. apply (wrap_range w y Hw). }
  apply inword_lor; [done| |].
  - apply H. by apply wrap_range.
  - by apply (H _ (Z.lnot _)).
Qed.

Lemma setPTEFields_inword pte flags : inword 64 pte -> inword 64 (setPTEFields pte flags).
Proof. intros. unfold setPTEFields, insertBits1. repeat apply insertBits_inword; (done || lia). Qed.

Lemma setPnum_inword pte p : inword 64 pte -> inword 64 (setPnum pte p).
Proof. intros. unfold setPnum. by apply insertBits_inword. Qed.

Lemma getPnum_setPnum pte p : inword 64 pte -> getPnum (setPnum pte p) = p mod 2 ^ 40.
Proof. intros. unfold getPnum, setPnum. by rewrite bits_insertBits_same by (done || lia). Qed.

Lemma getPnum_setPTEFields pte flags : inword 64 pte -> getPnum (setPTEFields pte flags) = getPnum pte.
Proof.
  intros. unfold getPnum, setPTEFields, insertBits1.
  rewrite !bits_insertBits_other; try lia; repeat apply insertBits_inword; (done || lia).
Qed.

Lemma getPnum_range pte : 0 <= getPnum pte < 2 ^ 40.
Proof. unfold getPnum. rewrite bits_div_mod by lia. by apply Z.mod_pos_bound. Qed.

Lemma index_bits_range v first last :
  0 <= last <= first -> first < 64 -> 0 <= bits v first last < 2 ^ (first - last + 1).
Proof. intros. rewrite bits_div_mod by lia. apply Z.mod_pos_bound, pow2_pos. lia. Qed.

(** ** Words of table pages *)

Definition word (s : System) (f o : Z) : Z := default 0 (physmem s !! (f * 4096 + o * 8)).

Definition slot (o : Z) : Prop := 0 <= o < 512.

Lemma entry_addr_eq f o : 0 <= f < 2 ^ 40 -> slot o -> entry_addr f o = f * 4096 + o * 8.
Proof.
  unfold slot. intros Hf Ho. unfold entry_addr. rewrite Z.shiftl_mul_pow2 by lia.
  change (2 ^ 12) with 4096.
  rewrite (wrap_small 64 (f * 4096)), (wrap_small 64 (o * 8)) by (split; lia). apply wrap_small. split; lia.
Qed.

Lemma slot_aligned f o : (f * 4096 + o * 8) mod 8 = 0.
Proof. replace (f * 4096 + o * 8) with ((f * 512 + o) * 8) by ring. by apply Z.mod_mul. Qed.

Lemma read_slot s f o : 0 <= f < 2 ^ 40 -> slot o -> read_word s (entry_addr f o) = Ret (word s f o).
Proof.
  intros Hf Ho. rewrite entry_addr_eq by done. unfold read_word. by rewrite slot_aligned.
Qed.

(** Memory after a word is written to a slot. *)
Definition put (s : System) (f o x : Z) : System :=
  mkSystem (<[f * 4096 + o * 8 := x]> (physmem s)) (pagePtr s) (totalSize s).

Lemma write_slot s f o x : 0 <= f < 2 ^ 40 -> slot o -> write_word s (entry_addr f o) x = Ret (put s f o x).
Proof.
  intros Hf Ho. rewrite entry_addr_eq by done. unfold write_word, put. by rewrite slot_aligned.
Qed.

Lemma word_put s f o x f' o' :
  slot o -> slot o' -> word (put s f o x) f' o' = if decide (f = f' /\ o = o') then x else word s f' o'.
Proof.
  unfold slot. intros Ho Ho'. unfold word, put. cbn. case_decide as H.
  - destruct H as [-> ->]. by rewrite lookup_insert_eq.
  - rewrite lookup_insert_ne; [done|]. lia.
Qed.

Lemma clear_words_in n a m i : 0 <= i < Z.of_nat n -> clear_words n a m !! (a + 8 * i) = Some 0.
Proof.
  revert a m i. induction n as [|n IH]; intros a m i Hi; [lia|]. cbn.
  destruct (decide (i = 0)) as [->|].
  - clear IH Hi. rewrite Z.mul_0_r, Z.add_0_r.
    assert (H : forall n a' m', a < a' -> m' !! a = Some 0 -> clear_words n a' m' !! a = Some 0).
    { clear. induction n as [|n IH]; intros a' m' Ha Hm; cbn; [done|]. apply IH; [lia|].
      by rewrite lookup_insert_ne by lia. }
    apply H; [lia|]. by rewrite lookup_insert_eq.
  - replace (a + 8 * i) with (a + 8 + 8 * (i - 1)) by lia. apply IH. lia.
Qed.

Lemma clear_words_out n a m x : x < a \/ a + 8 * Z.of_nat n <= x -> clear_words n a m !! x = m !! x.
Proof.
  revert a m. induction n as [|n IH]; intros a m Hx; cbn; [done|].
  rewrite IH by lia. by rewrite lookup_insert_ne by lia.
Qed.

(** Memory after page [q] is allocated and cleared. *)
Definition fresh (s : System) : System :=
  mkSystem (clear_words 512 (pagePtr s * 4096) (physmem s)) (pagePtr s + 1) (totalSize s).

Lemma word_fresh s f o :
  slot o -> word (fresh s) f o = if decide (f = pagePtr s) then 0 else word s f o.
Proof.
  unfold slot. intros Ho. unfold word, fresh. cbn [physmem]. case_decide as H.
  - subst f. replace (o * 8) with (8 * o) by lia. by rewrite clear_words_in by lia.
  - rewrite clear_words_out; [done|]. change (8 * Z.of_nat 512) with 4096. lia.
Qed.

(** There are [n] more pages below the memory-mapped region of the simulator and
    within memory. *)
Definition room (s : System) (n : Z) : Prop :=
  0 < pagePtr s /\ pagePtr s + n < 0xffff0 /\ (pagePtr s + n) * 4096 <= totalSize s.

Lemma alloc_fresh s :
  room s 1 ->
  ('(paddr, s) ← allocPhysPages s 1; s ← memset_zero s paddr (u64 (Z.shiftl 1 12)); Ret (paddr, s)) =
  Ret (pagePtr s * 4096, fresh s).
Proof.
  intros (H1 & H2 & H3). unfold allocPhysPages. rewrite !Z.shiftl_mul_pow2 by lia. change (2 ^ 12) with 4096.
  rewrite (wrap_small 64 (pagePtr s + 1)) by (split; lia).
  rewrite (wrap_small 64 (pagePtr s * 4096)), (wrap_small 64 ((pagePtr s + 1) * 4096)) by (split; lia).
  rewrite (proj2 (Z.leb_gt 0xffff0000 _)) by lia. cbn [andb]. cbv beta iota.
  rewrite Z.shiftl_mul_pow2 by lia. change (2 ^ 12) with 4096.
  rewrite (wrap_small 64 ((pagePtr s + 1) * 4096)), (proj2 (Z.ltb_ge _ _)) by (lia || (split; lia)). bsimpl.
  unfold memset_zero. pose proof (slot_aligned (pagePtr s) 0) as Ha. rewrite Z.add_0_r in Ha. rewrite Ha.
  reflexivity.
Qed.

Lemma level_pages_9 : level_pages 9 = Ret 1.
Proof. reflexivity. Qed.

(** ** The tree of table pages *)

Definition path (offsets : list Z) (i : nat) : list Z := rev (drop (S i) offsets).

(** [own] gives every page of the tree the offsets that lead to it from the
    root; the pages at depth 3 hold the entries of virtual pages. *)
Record tree_ok (s : System) (base : Z) (own : gmap Z (list Z)) : Prop := {
  tr_root : own !! base = Some [];
  tr_page f p : own !! f = Some p -> 0 < f < pagePtr s /\ (length p <= 3)%nat;
  tr_inj f f' p : own !! f = Some p -> own !! f' = Some p -> f = f';
  tr_child f p o : own !! f = Some p -> (length p < 3)%nat -> slot o -> getPnum (word s f o) <> 0 ->
    own !! getPnum (word s f o) = Some (p ++ [o]);
  tr_parent q p o : own !! q = Some (p ++ [o]) ->
    slot o /\ exists f, own !! f = Some p /\ getPnum (word s f o) = q;
  tr_word f o : slot o -> inword 64 (word s f o);
  tr_ptr : pagePtr s < 2 ^ 40
}.

Lemma tree_page s base own f p : tree_ok s base own -> own !! f = Some p -> 0 <= f < 2 ^ 40.
Proof. intros Ht Hf. pose proof (tr_ptr _ _ _ Ht). destruct (tr_page _ _ _ Ht f p Hf). lia. Qed.

(** A page's path starts with the path of one of its ancestors. *)
Lemma tree_ancestor s base own f p1 p2 :
  tree_ok s base own -> own !! f = Some (p1 ++ p2) -> exists f', own !! f' = Some p1.
Proof.
  intros Ht. revert f. induction p2 as [|o p2 IH] using rev_ind; intros f Hf.
  - exists f. by rewrite app_nil_r in Hf.
  - rewrite app_assoc in Hf. apply (tr_parent _ _ _ Ht) in Hf as (_ & f' & Hf & _). by apply (IH f').
Qed.

Lemma path_next offsets i o : offsets !! S i = Some o -> path offsets i = path offsets (S i) ++ [o].
Proof. intros Ho. unfold path. by rewrite (drop_S offsets o (S i)) by done. Qed.

Lemma path_length offsets i : length offsets = 4%nat -> (i <= 3)%nat -> length (path offsets i) = (3 - i)%nat.
Proof. intros Hl Hi. unfold path. rewrite length_rev, length_drop. lia. Qed.

Lemma path_prefix offsets i j : (i <= j)%nat -> exists r, path offsets i = path offsets j ++ r.
Proof.
  intros Hij. unfold path. exists (rev (take (j - i) (drop (S i) offsets))).
  rewrite <- rev_app_distr. f_equal. rewrite <- (take_drop (j - i) (drop (S i) offsets)) at 1.
  rewrite drop_drop. do 2 f_equal. lia.
Qed.

(** Growth of the tree: pages stay, the entries of virtual pages keep their
    values, and new ones are empty. *)
Record extends (s s' : System) (own own' : gmap Z (list Z)) : Prop := {
  ex_own f p : own !! f = Some p -> own' !! f = Some p;
  ex_leaf f p o : own !! f = Some p -> length p = 3%nat -> slot o -> word s' f o = word s f o;
  ex_new f p o : own' !! f = Some p -> own !! f = None -> length p = 3%nat -> slot o -> word s' f o = 0
}.

Lemma extends_refl s own : extends s s own own.
Proof. constructor; [done|done|]. intros f p o H1 H2. congruence. Qed.

Lemma extends_trans s1 s2 s3 o1 o2 o3 :
  extends s1 s2 o1 o2 -> extends s2 s3 o2 o3 -> extends s1 s3 o1 o3.
Proof.
  intros [A1 B1 C1] [A2 B2 C2]. constructor.
  - auto.
  - intros f p o Hf Hl Ho. by rewrite (B2 f p o (A1 _ _ Hf)), (B1 f p o).
  - intros f p o Hf Hn Hl Ho. destruct (o2 !! f) as [p'|] eqn:E2.
    + assert (p' = p) by (apply A2 in E2; congruence). subst p'.
      by rewrite (B2 f p o E2), (C1 f p o).
    + by apply (C2 f p o).
Qed.

(** Allocating one level. *)
Lemma tree_grow s base own lb p o x :
  tree_ok s base own -> own !! lb = Some p -> (length p < 3)%nat -> slot o ->
  getPnum (word s lb o) = 0 -> pagePtr s + 1 < 2 ^ 40 ->
  inword 64 x -> getPnum x = pagePtr s ->
  let s' := put (fresh s) lb o x in
  let own' := <[pagePtr s := p ++ [o]]> own in
  tree_ok s' base own' /\ extends s s' own own'.
Proof.
  intros Ht Hlb Hl Ho E0 Hptr Hx Ex s' own'. set (q := pagePtr s) in *.
  assert (Hq : own !! q = None).
  { destruct (own !! q) as [p'|] eqn:Eq; [|done]. destruct (tr_page _ _ _ Ht _ _ Eq). lia. }
  destruct (tr_page _ _ _ Ht _ _ Hlb) as [Hlbq _]. fold q in Hlbq. assert (Hne : lb <> q) by lia.
  assert (Hw : forall f o', slot o' -> word s' f o' =
    if decide (lb = f /\ o = o') then x else if decide (f = q) then 0 else word s f o').
  { intros f o' Ho'. unfold s'. rewrite word_put, word_fresh by done. done. }
  assert (Hpar : forall f, own !! f <> Some (p ++ [o])).
  { intros f Hf. assert (Hf' := Hf). apply (tr_parent _ _ _ Ht) in Hf as (_ & f0 & Hf0 & Eq).
    rewrite (tr_inj _ _ _ Ht _ _ _ Hf0 Hlb), E0 in Eq. destruct (tr_page _ _ _ Ht _ _ Hf'). lia. }
  assert (Hlook : forall f p', own' !! f = Some p' -> f = q /\ p' = p ++ [o] \/ f <> q /\ own !! f = Some p').
  { intros f p'. unfold own'. destruct (decide (f = q)) as [->|Hn].
    - rewrite lookup_insert_eq. intros [= <-]. by left.
    - rewrite lookup_insert_ne by done. by right. }
  assert (Hold : forall f p', own !! f = Some p' -> own' !! f = Some p').
  { intros f p' Hf. unfold own'. rewrite lookup_insert_ne; [done|]. congruence. }
  split; constructor.
  - apply Hold, Ht.
  - intros f p' [[-> ->]|[_ Hf]]%Hlook; change (pagePtr s') with (q + 1).
    + rewrite length_snoc. lia.
    + destruct (tr_page _ _ _ Ht _ _ Hf) as [H1 H2]. fold q in H1. lia.
  - intros f f' p' [[-> ->]|[_ Hf]]%Hlook [[-> Ep]|[_ Hf']]%Hlook; try done.
    + by apply Hpar in Hf'.
    + subst p'. by apply Hpar in Hf.
    + by apply (tr_inj _ _ _ Ht f f' p').
  - intros f p' o' [[-> ->]|[Hn Hf]]%Hlook Hl' Ho'; rewrite Hw by done.
    + rewrite decide_False by tauto. rewrite decide_True by done. intros Hz. by contradict Hz.
    + destruct (decide (lb = f /\ o = o')) as [[<- <-]|Hno].
      * intros _. rewrite Ex. assert (p' = p) as -> by congruence. apply lookup_insert_eq.
      * rewrite decide_False by done. intros Hz. apply Hold. by apply (tr_child _ _ _ Ht).
  - intros q' p' o' [[-> Ep]|[Hn Hf]]%Hlook.
    + apply app_inj_tail in Ep as [-> ->]. split; [done|]. exists lb. split; [by apply Hold|].
      rewrite Hw by done. by rewrite decide_True by done.
    + apply (tr_parent _ _ _ Ht) in Hf as Hp. destruct Hp as (Hs & f & Hf1 & Hf2). split; [done|]. exists f.
      split; [by apply Hold|]. rewrite Hw by done.
      rewrite decide_False; [rewrite decide_False; [done|congruence]|].
      intros [<- <-]. assert (p' = p) as -> by congruence. by apply Hpar in Hf.
  - intros f o' Ho'. rewrite Hw by done. repeat case_decide; [done|unfold inword; lia|by apply Ht].
  - done.
  - done.
  - intros f p' o' Hf Hlen Ho'. rewrite Hw by done. rewrite decide_False, decide_False; [done|congruence|].
    intros [<- <-]. assert (p' = p) as -> by congruence. lia.
  - intros f p' o' [[-> ->]|[_ Hf]]%Hlook Hn Hlen Ho'; [|congruence]. rewrite Hw by done.
    rewrite decide_False by tauto. by rewrite decide_True.
Qed.

Section walks.
Context (offsets : list Z).
Hypothesis four : length offsets = 4%nat.
Hypothesis slots : Forall slot offsets.

Lemma offset_at i : (i <= 3)%nat -> exists o, offsets !! i = Some o /\ slot o.
Proof.
  intros Hi. destruct (lookup_lt_is_Some_2 offsets i) as [o Ho]; [lia|]. exists o. split; [done|].
  rewrite Forall_lookup in slots. by apply (slots i).
Qed.

(** A walk that does not allocate finds the page of the path, if there is one. *)
Lemma walk_find s base own i : forall lb,
  tree_ok s base own -> (i <= 3)%nat -> own !! lb = Some (path offsets i) ->
  exists r, walk_loop i PageTableLayout s offsets lb false = Ret (r, s) /\
    match r with
    | Some f => own !! f = Some (path offsets 0)
    | None => forall f, own !! f <> Some (path offsets 0)
    end.
Proof.
  induction i as [|i IH]; intros lb Ht Hi Hlb; [by exists (Some lb)|].
  destruct (offset_at (S i) Hi) as (o & Ho & Hs). cbn [walk_loop].
  rewrite (vread_some _ _ _ Ho). bsimpl. pose proof (tree_page _ _ _ _ _ Ht Hlb).
  rewrite read_slot by done. bsimpl.
  destruct (Z.eqb_spec (getPnum (word s lb o)) 0) as [E0|En].
  - exists None. split; [done|]. intros f Hf.
    destruct (path_prefix offsets 0 i ltac:(lia)) as [r Er]. rewrite Er, (path_next _ _ _ Ho) in Hf.
    apply (tree_ancestor _ _ _ _ _ _ Ht) in Hf as (f' & Hf').
    apply (tr_parent _ _ _ Ht) in Hf' as Hp. destruct Hp as (_ & f0 & Hf0 & Eq).
    rewrite (tr_inj _ _ _ Ht _ _ _ Hf0 Hlb), E0 in Eq.
    destruct (tr_page _ _ _ Ht _ _ Hf'). lia.
  - apply IH; [done|lia|]. rewrite (path_next _ _ _ Ho). apply (tr_child _ _ _ Ht); try done.
    rewrite path_length; lia.
Qed.

(** A walk that allocates creates the missing levels and nothing else. *)
Lemma walk_alloc base i : forall s own lb,
  tree_ok s base own -> (i <= 3)%nat -> own !! lb = Some (path offsets i) -> room s (Z.of_nat i) ->
  exists f s' own', walk_loop i PageTableLayout s offsets lb true = Ret (Some f, s') /\
    tree_ok s' base own' /\ own' !! f = Some (path offsets 0) /\ extends s s' own own' /\
    pagePtr s <= pagePtr s' <= pagePtr s + Z.of_nat i /\ totalSize s' = totalSize s.
Proof.
  induction i as [|i IH]; intros s own lb Ht Hi Hlb Hr.
  { exists lb, s, own. split_and!; try done; [apply extends_refl|lia..]. }
  destruct (offset_at (S i) Hi) as (o & Ho & Hs). cbn [walk_loop].
  rewrite (vread_some _ _ _ Ho). bsimpl. pose proof (tree_page _ _ _ _ _ Ht Hlb).
  rewrite read_slot by done. bsimpl. assert (Hpn := path_next _ _ _ Ho).
  assert (Hlen : (length (path offsets (S i)) < 3)%nat) by (rewrite path_length; lia).
  destruct (Z.eqb_spec (getPnum (word s lb o)) 0) as [E0|En].
  2:{ destruct (IH s own (getPnum (word s lb o)) Ht) as (f & s' & own' & E1 & ? & ? & ? & ? & ?); [lia| | |].
      - rewrite Hpn. by apply (tr_child _ _ _ Ht).
      - unfold room in *. lia.
      - exists f, s', own'. split_and!; try done; lia. }
  cbn [negb]. rewrite (vread_some PageTableLayout i 9) by (by repeat (destruct i as [|i]; [done|]); lia).
  bsimpl. rewrite level_pages_9. bsimpl.
  pose proof (alloc_fresh s ltac:(unfold room in *; lia)) as Ea.
  destruct (allocPhysPages s 1) as [[pa s1]|]; [|done]. cbn in Ea |- *.
  destruct (memset_zero s1 pa _) as [s2|]; [|done]. cbn in Ea. injection Ea as -> ->. cbn [mbind res_bind].
  rewrite write_slot by done. bsimpl.
  assert (Eq : Z.shiftr (pagePtr s * 4096) 12 = pagePtr s)
    by (rewrite Z.shiftr_div_pow2 by lia; by apply Z.div_mul). rewrite Eq.
  assert (Hptr : pagePtr s + 1 < 2 ^ 40) by (unfold room in *; lia).
  set (x := setPTEFields _ _).
  assert (Hx : inword 64 x /\ getPnum x = pagePtr s).
  { assert (inword 64 (word s lb o)) by (by apply (tr_word _ _ _ Ht)). unfold x.
    split; [by apply setPTEFields_inword, setPnum_inword|].
    rewrite getPnum_setPTEFields, getPnum_setPnum by (done || by apply setPnum_inword).
    apply Z.mod_small. unfold room in *. lia. }
  destruct (tree_grow s base own lb _ o x Ht Hlb Hlen Hs E0 Hptr) as [Ht1 He1]; [apply Hx..|].
  destruct (IH _ _ (pagePtr s) Ht1) as (f & s' & own' & E1 & ? & ? & ? & ? & ?); [lia| | |].
  - rewrite Hpn. apply lookup_insert_eq.
  - unfold room in *. cbn [pagePtr totalSize put fresh]. lia.
  - exists f, s', own'. cbn [pagePtr totalSize put fresh] in *.
    split_and!; try done; [by eapply extends_trans|lia..].
Qed.

End walks.

(** Writing the entry of a virtual page keeps the tree. *)
Lemma tree_put_leaf s base own f p o x :
  tree_ok s base own -> own !! f = Some p -> length p = 3%nat -> slot o -> inword 64 x ->
  tree_ok (put s f o x) base own.
Proof.
  intros Ht Hf Hl Ho Hx.
  assert (Hw : forall g p' o', own !! g = Some p' -> (length p' < 3)%nat -> slot o' ->
    word (put s f o x) g o' = word s g o').
  { intros g p' o' Hg Hl' Ho'. rewrite word_put by done. rewrite decide_False; [done|].
    intros [<- _]. assert (p' = p) by congruence. subst. lia. }
  constructor; try apply Ht.
  - intros g p' o' Hg Hl' Ho'. rewrite (Hw g p') by done. by apply (tr_child _ _ _ Ht).
  - intros q p' o' Hq. apply (tr_parent _ _ _ Ht) in Hq as Hp. destruct Hp as (Hs & g & Hg & Eg).
    split; [done|]. exists g. split; [done|]. rewrite (Hw g p'); [done..| |done].
    destruct (tr_page _ _ _ Ht _ _ Hq) as [_ Hlen]. rewrite length_app in Hlen. cbn in Hlen. lia.
  - intros g o' Ho'. rewrite word_put by done. case_decide; [done|]. by apply (tr_word _ _ _ Ht).
Qed.

(** ** Virtual pages *)

Lemma offsets_ok va : length (getOffsets va) = 4%nat /\ Forall slot (getOffsets va).
Proof.
  split; [done|]. unfold getOffsets, slot.
  repeat (constructor; [match goal with |- 0 <= bits _ ?f ?l < _ =>
    pose proof (index_bits_range va f l ltac:(lia) ltac:(lia)); done end|]). constructor.
Qed.

Definition canonical (va : Z) : Prop := 0 <= va < 2 ^ 48.

Lemma offsets_inj va va' :
  canonical va -> canonical va' -> getOffsets va = getOffsets va' -> va / 4096 = va' / 4096.
Proof.
  unfold canonical. intros H H' E. unfold getOffsets in E. rewrite !bits_div_mod in E by lia.
  cbn [Z.sub Z.add Z.opp Z.pow Z.pow_pos] in E. cbn in E. injection E as E1 E2 E3 E4.
  Z.to_euclidean_division_equations. lia.
Qed.

(** The physical page number of a virtual address, 0 if it is not mapped: what a
    walk without allocation finds. *)
Definition pnum (m : MultiLevelPageTable) (va : Z) : Z :=
  match walk m va false with
  | Ret (Some a, m) => getPnum (default 0 (physmem (ml_sys m) !! a))
  | _ => 0
  end.

Definition leaf (own : gmap Z (list Z)) (va f : Z) : Prop := own !! f = Some (path (getOffsets va) 0).
Definition leaf_slot (va : Z) : Z := bits va 20 12.

(** A cached translation is the one the tree gives. *)
Definition translates (m : MultiLevelPageTable) (a : Z) (e : X86Entry) : Prop :=
  canonical a /\ a mod 4096 = 0 /\ pnum m a <> 0 /\ pageStart e = pnum m a * 4096.

Record tables_ok (m : MultiLevelPageTable) (own : gmap Z (list Z)) : Prop := {
  tb_levels : numLevels m = 4%nat;
  tb_layout : logLevelSize m = PageTableLayout;
  tb_size : pageSize (ml_base m) = 4096;
  tb_mask : offsetMask (ml_base m) = 4095;
  tb_tree : tree_ok (ml_sys m) (basePtr m) own
}.

Record ml_ok (m : MultiLevelPageTable) : Prop := {
  mo_tables : exists own, tables_ok m own;
  mo_cache : cache_ok (ml_base m) (translates m)
}.

Lemma leaf_slot_ok va : getOffsets va !! 0%nat = Some (leaf_slot va) /\ slot (leaf_slot va).
Proof.
  split; [done|]. destruct (offsets_ok va) as [_ H]. rewrite Forall_lookup in H. by apply (H 0%nat).
Qed.

Lemma walk_found m own va :
  tables_ok m own -> exists r, walk m va false = Ret (r, m) /\
  match r with
  | Some a => exists f, leaf own va f /\ a = entry_addr f (leaf_slot va)
  | None => forall f, ~ leaf own va f
  end.
Proof.
  intros [El Ey Es Em Ht]. destruct (offsets_ok va) as [H4 Hs]. destruct (leaf_slot_ok va) as [H0 Hs0].
  destruct (walk_find _ H4 Hs _ _ _ 3 (basePtr m) Ht) as (r & E & Hr); [lia| |].
  { rewrite (tr_root _ _ _ Ht). f_equal. }
  unfold walk. rewrite El, Ey. cbn [Nat.sub]. rewrite E. bsimpl.
  assert (Ew : with_sys m (ml_sys m) = m) by (by destruct m). rewrite Ew.
  destruct r as [f|]; [|by exists None]. rewrite (vread_some _ _ _ H0). bsimpl.
  eexists. split; [done|]. by exists f.
Qed.

Lemma pnum_leaf m own va f :
  tables_ok m own -> leaf own va f -> pnum m va = getPnum (word (ml_sys m) f (leaf_slot va)).
Proof.
  intros Hm Hf. unfold pnum. destruct (walk_found m own va Hm) as (r & -> & Hr).
  destruct r as [a|]; [|by apply Hr in Hf]. destruct Hr as (f' & Hf' & ->).
  assert (f' = f) by (eapply (tr_inj _ _ _ (tb_tree _ _ Hm)); done). subst f'.
  destruct (leaf_slot_ok va). rewrite entry_addr_eq; [done| |done].
  by apply (tree_page _ _ _ _ _ (tb_tree _ _ Hm) Hf).
Qed.

Lemma pnum_no_leaf m own va : tables_ok m own -> (forall f, ~ leaf own va f) -> pnum m va = 0.
Proof.
  intros Hm Hn. unfold pnum. destruct (walk_found m own va Hm) as (r & -> & Hr).
  destruct r as [a|]; [|done]. destruct Hr as (f & Hf & _). by apply Hn in Hf.
Qed.

(** Growing the tree changes no translation. *)
Lemma pnum_extends m own s' own' va :
  tables_ok m own -> tables_ok (with_sys m s') own' -> extends (ml_sys m) s' own own' ->
  pnum (with_sys m s') va = pnum m va.
Proof.
  intros Hm Hm' He. destruct (offsets_ok va) as [H4 _]. destruct (leaf_slot_ok va) as [_ Hs].
  assert (Hlen : length (path (getOffsets va) 0) = 3%nat) by (by rewrite path_length by lia).
  pose proof (walk_found m own va Hm) as (r & _ & Hr). destruct r as [a|].
  - destruct Hr as (f & Hf & _). rewrite (pnum_leaf m own va f Hm Hf).
    assert (Hf' : leaf own' va f) by (by apply (ex_own _ _ _ _ He)).
    rewrite (pnum_leaf _ _ _ _ Hm' Hf'). cbn [ml_sys with_sys]. by rewrite (ex_leaf _ _ _ _ He f _ _ Hf).
  - rewrite (pnum_no_leaf m own va Hm Hr).
    destruct (walk_found _ own' va Hm') as (r' & _ & Hr'). destruct r' as [a'|]; [|by apply (pnum_no_leaf _ own')].
    destruct Hr' as (f & Hf & _). rewrite (pnum_leaf _ _ _ _ Hm' Hf). cbn [ml_sys with_sys].
    rewrite (ex_new _ _ _ _ He f _ _ Hf); [done| |done|done].
    destruct (own !! f) as [p|] eqn:Ep; [|done]. exfalso. apply (Hr f). unfold leaf.
    apply (ex_own _ _ _ _ He) in Ep as Ep'. unfold leaf in Hf. congruence.
Qed.

Lemma walk_allocated m own va :
  tables_ok m own -> room (ml_sys m) 3 ->
  exists f s' own', walk m va true = Ret (Some (entry_addr f (leaf_slot va)), with_sys m s') /\
    tables_ok (with_sys m s') own' /\ leaf own' va f /\ (forall x, pnum (with_sys m s') x = pnum m x) /\
    pagePtr (ml_sys m) <= pagePtr s' <= pagePtr (ml_sys m) + 3 /\ totalSize s' = totalSize (ml_sys m).
Proof.
  intros Hm Hr. assert (Hm' := Hm). destruct Hm' as [El Ey Es Em Ht].
  destruct (offsets_ok va) as [H4 Hs]. destruct (leaf_slot_ok va) as [H0 Hs0].
  destruct (walk_alloc _ H4 Hs _ 3 (ml_sys m) own (basePtr m) Ht) as (f & s' & own' & E & Ht' & Hf & He & Hp & Hz);
    [lia| |done|].
  { rewrite (tr_root _ _ _ Ht). f_equal. }
  exists f, s', own'. unfold walk. rewrite El, Ey. cbn [Nat.sub]. rewrite E. bsimpl.
  rewrite (vread_some _ _ _ H0). bsimpl. split; [done|].
  assert (Hm' : tables_ok (with_sys m s') own') by (by constructor).
  split_and!; try done; [|lia..]. intros x. by apply (pnum_extends m own s' own').
Qed.

Lemma offsets_cons va : getOffsets va = leaf_slot va :: rev (path (getOffsets va) 0).
Proof. reflexivity. Qed.

(** Writing one entry changes the translation of one page. *)
Lemma pnum_put m own va f x :
  tables_ok m own -> leaf own va f -> canonical va -> inword 64 x ->
  let m' := with_sys m (put (ml_sys m) f (leaf_slot va) x) in
  tables_ok m' own /\ pnum m' va = getPnum x /\
  forall va', canonical va' -> va' / 4096 <> va / 4096 -> pnum m' va' = pnum m va'.
Proof.
  intros Hm Hf Hc Hx m'. destruct (leaf_slot_ok va) as [_ Hs]. destruct (offsets_ok va) as [H4 _].
  assert (Hm' : tables_ok m' own).
  { destruct Hm. constructor; try done. cbn [ml_sys with_sys basePtr m'].
    eapply tree_put_leaf; [done|exact Hf|by rewrite path_length by lia|done|done]. }
  split_and!; [done| |].
  - rewrite (pnum_leaf m' own va f Hm' Hf). cbn [ml_sys with_sys m'].
    rewrite word_put by done. by rewrite decide_True by done.
  - intros va' Hc' Hne. destruct (leaf_slot_ok va') as [_ Hs'].
    destruct (walk_found m own va' Hm) as (r & _ & Hr). destruct r as [a|].
    + destruct Hr as (f' & Hf' & _). rewrite (pnum_leaf m' own va' f' Hm' Hf'), (pnum_leaf m own va' f' Hm Hf').
      cbn [ml_sys with_sys m']. rewrite word_put by done. rewrite decide_False; [done|].
      intros [<- Es]. apply Hne, offsets_inj; try done. rewrite (offsets_cons va), (offsets_cons va'), Es.
      unfold leaf in *. congruence.
    + by rewrite (pnum_no_leaf m own va' Hm Hr), (pnum_no_leaf m' own va' Hm' Hr).
Qed.

Lemma other_page a b : canonical a -> a mod 4096 = 0 -> b mod 4096 = 0 -> a <> b -> a / 4096 <> b / 4096.
Proof. intros _ Ha Hb Hn. Z.to_euclidean_division_equations. lia. Qed.

(** The cache stays right when one page changes and its element is dropped. *)
Lemma translates_other m m' va :
  (forall a, canonical a -> a / 4096 <> va / 4096 -> pnum m' a = pnum m a) -> va mod 4096 = 0 ->
  forall a e, a <> va -> translates m a e -> translates m' a e.
Proof.
  intros Hp Hva a e Hn (Hc & Ha & H1 & H2). unfold translates.
  rewrite Hp by (done || by apply other_page). done.
Qed.

(** The cache is no part of the tree. *)
Lemma pnum_with_cache m b va : pnum (with_cache m b) va = pnum m va.
Proof.
  unfold pnum, walk. cbn [numLevels logLevelSize ml_sys basePtr with_cache].
  destruct (walk_loop _ _ _ _ _ _) as [[[f|] s]|]; reflexivity.
Qed.

Lemma tables_ok_cache m own b :
  tables_ok m own -> pageSize b = pageSize (ml_base m) -> offsetMask b = offsetMask (ml_base m) ->
  tables_ok (with_cache m b) own.
Proof. intros [] E1 E2. constructor; cbn; congruence. Qed.

(** One page is mapped. *)
Lemma ml_map_page_ok m va p flags :
  ml_ok m -> canonical va -> va mod 4096 = 0 -> 0 < p < 2 ^ 52 -> p mod 4096 = 0 -> room (ml_sys m) 3 ->
  flag_set flags Clobber = true \/ pnum m va = 0 ->
  exists m', ml_map_page m va p flags = Ret m' /\ ml_ok m' /\ pnum m' va = p / 4096 /\
    (forall a, canonical a -> a / 4096 <> va / 4096 -> pnum m' a = pnum m a) /\
    pagePtr (ml_sys m) <= pagePtr (ml_sys m') <= pagePtr (ml_sys m) + 3 /\
    totalSize (ml_sys m') = totalSize (ml_sys m).
Proof.
  intros [[own Hm] Hco] Hc Ha Hp Hpa Hr Hf. unfold ml_map_page.
  destruct (walk_allocated m own va Hm Hr) as (f & s' & own' & -> & Hm' & Hl & Hsame & Hptr & Hz). bsimpl.
  destruct (leaf_slot_ok va) as [_ Hs]. assert (Hfr := tree_page _ _ _ _ _ (tb_tree _ _ Hm') Hl).
  assert (Hw : inword 64 (word s' f (leaf_slot va))) by (by apply (tr_word _ _ _ (tb_tree _ _ Hm'))).
  cbn [ml_sys with_sys]. rewrite read_slot by done. bsimpl.
  rewrite <- (pnum_leaf _ _ _ _ Hm' Hl : _ = getPnum (word s' f (leaf_slot va))), Hsame.
  assert (Eb : negb (flag_set flags Clobber) && negb (pnum m va =? 0) = false).
  { destruct Hf as [-> | ->]; [done|]. apply andb_false_r. }
  rewrite Eb. set (x := setPTEFields _ _). unfold ml_write. cbn [ml_sys with_sys].
  rewrite write_slot by done. bsimpl.
  assert (Hx : inword 64 x) by (by apply setPTEFields_inword, setPnum_inword).
  assert (Ex : getPnum x = p / 4096).
  { unfold x. rewrite getPnum_setPTEFields, getPnum_setPnum by (done || by apply setPnum_inword).
    rewrite Z.shiftr_div_pow2 by lia. change (2 ^ 12) with 4096. apply Z.mod_small.
    split; [apply Z.div_pos; lia|apply Z.div_lt_upper_bound; lia]. }
  destruct (pnum_put _ own' va f x Hm' Hl Hc Hx) as (Hm2 & Hp2 & Ho2).
  set (m2 := with_sys (with_sys m s') (put (ml_sys (with_sys m s')) f (leaf_slot va) x)) in *.
  eexists. split; [done|].
  match goal with |- ml_ok ?M /\ _ => set (m3 := M) end.
  assert (Hpn : forall a, pnum m3 a = pnum m2 a) by (intros a; apply (pnum_with_cache m2)).
  assert (Hot : forall a, canonical a -> a / 4096 <> va / 4096 -> pnum m3 a = pnum m a).
  { intros a Hca Hna. rewrite Hpn, Ho2 by done. apply Hsame. }
  change (pagePtr (ml_sys m3)) with (pagePtr s'). change (totalSize (ml_sys m3)) with (totalSize s').
  split_and!; try done; [|by rewrite Hpn, Hp2|lia..].
  destruct (erase_same (ml_base m2) va) as (E1 & E2 & E3).
  split; [|cbn [ml_base m3 with_cache]; eapply replace_ok; [exact Hco|by apply translates_other|]].
  - exists own'. by apply (tables_ok_cache m2).
  - split_and!; [done|done| |].
    + rewrite Hpn, Hp2, Ex. intros H0. Z.to_euclidean_division_equations. lia.
    + rewrite Hpn, Hp2, Ex, pageStart_new.
      * Z.to_euclidean_division_equations. lia.
      * split; [lia|]. transitivity (2 ^ 52); [lia|done].
      * exact Hpa.
Qed.

Lemma ml_map_page_mapped m va p flags :
  ml_ok m -> room (ml_sys m) 3 -> flag_set flags Clobber = false -> pnum m va <> 0 ->
  ml_map_page m va p flags = Err Fatal.
Proof.
  intros [[own Hm] _] Hr Hf Hn. unfold ml_map_page.
  destruct (walk_allocated m own va Hm Hr) as (f & s' & own' & -> & Hm' & Hl & Hsame & _). bsimpl.
  destruct (leaf_slot_ok va) as [_ Hs]. assert (Hfr := tree_page _ _ _ _ _ (tb_tree _ _ Hm') Hl).
  cbn [ml_sys with_sys]. rewrite read_slot by done. bsimpl.
  rewrite <- (pnum_leaf _ _ _ _ Hm' Hl : _ = getPnum (word s' f (leaf_slot va))), Hsame, Hf.
  by rewrite (proj2 (Z.eqb_neq _ _)).
Qed.

(** A page without entry: there is no leaf, or its word is empty. *)
Lemma walk_pnum m own va :
  tables_ok m own -> exists r, walk m va false = Ret (r, m) /\
  match r with
  | Some a => exists f, leaf own va f /\ a = entry_addr f (leaf_slot va) /\
      inword 64 (word (ml_sys m) f (leaf_slot va)) /\ 0 <= f < 2 ^ 40 /\
      read_word (ml_sys m) a = Ret (word (ml_sys m) f (leaf_slot va)) /\
      getPnum (word (ml_sys m) f (leaf_slot va)) = pnum m va
  | None => pnum m va = 0
  end.
Proof.
  intros Hm. destruct (walk_found m own va Hm) as (r & E & Hr). exists r. split; [done|].
  destruct r as [a|]; [|by apply (pnum_no_leaf m own)]. destruct Hr as (f & Hf & ->). exists f.
  destruct (leaf_slot_ok va) as [_ Hs]. assert (Hfr := tree_page _ _ _ _ _ (tb_tree _ _ Hm) Hf).
  split_and!; try done; try lia.
  - by apply (tr_word _ _ _ (tb_tree _ _ Hm)).
  - by apply read_slot.
  - by rewrite (pnum_leaf m own va f Hm Hf).
Qed.

Lemma ml_unmap_page_ok m va :
  ml_ok m -> canonical va -> va mod 4096 = 0 -> pnum m va <> 0 ->
  exists m', ml_unmap_page m va = Ret m' /\ ml_ok m' /\ pnum m' va = 0 /\
    (forall a, canonical a -> a / 4096 <> va / 4096 -> pnum m' a = pnum m a).
Proof.
  intros [[own Hm] Hco] Hc Ha Hn. unfold ml_unmap_page.
  destruct (walk_pnum m own va Hm) as (r & -> & Hr). bsimpl. destruct r as [a|]; [|done].
  destruct Hr as (f & Hl & -> & Hw & Hf & -> & Ep). bsimpl. rewrite Ep, (proj2 (Z.eqb_neq _ _)) by done.
  destruct (leaf_slot_ok va) as [_ Hs]. unfold ml_write. rewrite write_slot by done. bsimpl.
  set (x := setPnum _ 0). assert (Hx : inword 64 x) by (by apply setPnum_inword).
  assert (Ex : getPnum x = 0) by (unfold x; by rewrite getPnum_setPnum).
  destruct (pnum_put m own va f x Hm Hl Hc Hx) as (Hm2 & Hp2 & Ho2).
  eexists. split; [done|]. set (m2 := with_sys m _) in *.
  destruct (erase_same (ml_base m2) va) as (E1 & E2 & _).
  assert (Hpn : forall b v, pnum (with_cache m2 b) v = pnum m2 v) by (intros; apply pnum_with_cache).
  split_and!; [|by rewrite Hpn, Hp2|intros; by rewrite Hpn, Ho2].
  split; [exists own; by apply tables_ok_cache|].
  destruct (eraseCacheEntry_ok _ _ va Hco) as [Hce Hab]. cbn [ml_base with_cache].
  eapply cache_ok_frame; [exact Hce|exact Hab|]. apply translates_other; [|done].
  intros b Hb1 Hb2. by rewrite Hpn, Ho2.
Qed.

Lemma ml_unmap_page_hole m va : ml_ok m -> pnum m va = 0 -> ml_unmap_page m va = Err Fatal.
Proof.
  intros [[own Hm] _] E0. unfold ml_unmap_page. destruct (walk_pnum m own va Hm) as (r & -> & Hr). bsimpl.
  destruct r as [a|]; [|done]. destruct Hr as (f & Hl & -> & Hw & Hf & -> & Ep). bsimpl. by rewrite Ep, E0.
Qed.

(** A lookup gives the translation of the page, and caches it. *)
Lemma ml_lookup_ok m va :
  ml_ok m -> canonical va ->
  let a := va - va mod 4096 in
  exists r m', ml_lookup m va = Ret (r, m') /\ ml_ok m' /\ (forall x, pnum m' x = pnum m x) /\
    match r with
    | Some e => pnum m a <> 0 /\ pageStart e = pnum m a * 4096
    | None => pnum m a = 0
    end.
Proof.
  intros Hok Hc a. assert (H' := Hok). destruct H' as [[own Hm] Hco]. unfold ml_lookup.
  assert (Ea : pageAlign (ml_base m) va = a).
  { unfold pageAlign. rewrite (tb_mask _ _ Hm). apply (land_wnot_mask 64 va 12); [lia|].
    unfold canonical in Hc. unfold inword. lia. }
  assert (Hca : canonical a /\ a mod 4096 = 0).
  { unfold canonical, a in *. pose proof (Z.mod_pos_bound va 4096 ltac:(lia)).
    split; [|Z.to_euclidean_division_equations; lia]. split; [|lia]. Z.to_euclidean_division_equations. lia. }
  rewrite Ea. destruct (cached (ml_base m) a) as [e|] eqn:Ec.
  { destruct (cached_ok _ _ _ _ Hco Ec) as (_ & _ & H1 & H2). by exists (Some e), m. }
  destruct (walk_pnum m own a Hm) as (r & -> & Hr). bsimpl.
  destruct r as [pa|]; [|by exists None, m].
  destruct Hr as (f & Hl & -> & Hw & Hf & -> & Ep). bsimpl. rewrite Ep.
  destruct (Z.eqb_spec (pnum m a) 0) as [E0|En]; [by exists None, m|].
  pose proof (getPnum_range (word (ml_sys m) f (leaf_slot a))) as Hrg. rewrite Ep in Hrg.
  rewrite Z.shiftl_mul_pow2 by lia. change (2 ^ 12) with 4096.
  rewrite wrap_small by (split; lia).
  do 2 eexists. split; [done|].
  assert (Hst : forall asn v u r, pageStart (tlb_new asn v (pnum m a * 4096) u r) = pnum m a * 4096) by done.
  split_and!; [|intros x; apply pnum_with_cache|done|done].
  split; [exists own; by apply tables_ok_cache|]. cbn [ml_base with_cache].
  apply update_ok; [|by apply cached_absent|].
  - eapply cache_ok_frame; [exact Hco|by apply cached_absent|].
    intros v e _ Hv. unfold translates. by rewrite pnum_with_cache.
  - unfold translates. rewrite pnum_with_cache. destruct Hca. done.
Qed.

(** ** Regions *)

(** The pages of a region, by their numbers. *)
Definition in_pages (v : Z) (n : nat) (a : Z) : Prop := v / 4096 <= a / 4096 < v / 4096 + Z.of_nat n.

Definition ml_mapped (m : MultiLevelPageTable) (v p : Z) (n : nat) (m' : MultiLevelPageTable) : Prop :=
  (forall a, in_pages v n a -> pnum m' a = p / 4096 + (a / 4096 - v / 4096)) /\
  (forall a, canonical a -> ~ in_pages v n a -> pnum m' a = pnum m a).

(** All addresses of a page have the same entry. *)
Lemma pnum_page m own a b : tables_ok m own -> canonical a -> canonical b -> a / 4096 = b / 4096 -> pnum m a = pnum m b.
Proof.
  intros Hm Ha Hb E0. assert (E1 : getOffsets a = getOffsets b).
  { unfold getOffsets. rewrite !bits_div_mod by lia. unfold canonical in *.
    assert (H : forall k, 12 <= k -> a / 2 ^ k = b / 2 ^ k).
    { intros k Hk. replace k with (12 + (k - 12)) by lia. rewrite Z.pow_add_r by lia.
      pose proof (pow2_pos (k - 12) ltac:(lia)). change (2 ^ 12) with 4096.
      rewrite <- !Z.div_div by lia. by rewrite E0. }
    by rewrite !H by lia. }
  assert (E2 : leaf_slot a = leaf_slot b) by exact (f_equal (fun l => nth 0 l 0) E1).
  destruct (walk_found m own a Hm) as (r & _ & Hr). destruct r as [x|].
  - destruct Hr as (f & Hf & _). rewrite (pnum_leaf m own a f Hm Hf).
    rewrite (pnum_leaf m own b f Hm) by (unfold leaf in *; by rewrite <- E1). by rewrite E2.
  - rewrite (pnum_no_leaf m own a Hm Hr). symmetry. apply (pnum_no_leaf m own b Hm).
    intros f Hf. apply (Hr f). unfold leaf in *. by rewrite E1.
Qed.

Lemma next_number v : (v + 4096) / 4096 = v / 4096 + 1 /\ (v mod 4096 = 0 -> (v + 4096) mod 4096 = 0).
Proof. Z.to_euclidean_division_equations. lia. Qed.

Lemma in_pages_canonical v n a :
  0 <= v -> v + Z.of_nat n * 4096 <= 2 ^ 48 -> v mod 4096 = 0 -> in_pages v n a -> canonical a.
Proof. unfold in_pages, canonical. intros. Z.to_euclidean_division_equations. lia. Qed.

Lemma ml_map_loop_ok n : forall fuel m v p size flags,
  ml_ok m -> span 4096 size n -> (n < fuel)%nat -> size < 2 ^ 63 ->
  0 <= v -> v mod 4096 = 0 -> v + Z.of_nat n * 4096 <= 2 ^ 48 ->
  0 < p -> p mod 4096 = 0 -> p + Z.of_nat n * 4096 <= 2 ^ 52 -> room (ml_sys m) (3 * Z.of_nat n) ->
  flag_set flags Clobber = true \/ (forall a, in_pages v n a -> pnum m a = 0) ->
  exists m', ml_map_loop fuel m v p size flags = Ret m' /\ ml_ok m' /\ ml_mapped m v p n m'.
Proof.
  induction n as [|n IH]; intros [|fuel] m v p size flags Hk Hs Hf Hz Hv Hvm He Hp Hpm Hpe Hr Hc; [lia| |lia|].
  - cbn in Hs. cbn [ml_map_loop]. rewrite (proj2 (Z.ltb_ge _ _)) by lia. exists m.
    split_and!; [done..|]. split; [|done]. intros a Ha. unfold in_pages in Ha. lia.
  - destruct (span_step 4096 size n ltac:(lia) Hz Hs) as (Hpos & Hs' & Hz').
    cbn [ml_map_loop]. rewrite (proj2 (Z.ltb_lt _ _)) by lia.
    assert (Hcv : canonical v) by (unfold canonical; lia).
    destruct (ml_map_page_ok m v p flags Hk Hcv Hvm) as (m1 & E1 & Hk1 & Ep1 & Eo1 & Hptr & Htot);
      [lia|done|unfold room in *; lia| |].
    { destruct Hc as [|Hc]; [by left|]. right. apply Hc. unfold in_pages. lia. }
    rewrite E1. bsimpl. destruct (mo_tables _ Hk1) as [own1 Hm1]. rewrite (tb_size _ _ Hm1).
    rewrite !wrap_small by (split; lia).
    destruct (next_number v) as [Edv Emv], (next_number p) as [Edp Emp].
    destruct (IH fuel m1 (v + 4096) (p + 4096) (s64 (size - 4096)) flags) as (m' & E' & Hk' & Hm'1 & Hm'2);
      [done|done|lia|done|lia|auto|lia|lia|auto|lia| | |].
    { unfold room in *. lia. }
    { destruct Hc as [|Hc]; [by left|]. right. intros a Ha.
      assert (Hca : canonical a) by (apply (in_pages_canonical (v + 4096) n); auto; lia).
      unfold in_pages in Ha. rewrite Edv in Ha. rewrite Eo1 by (done || lia). apply Hc. unfold in_pages. lia. }
    rewrite E'. exists m'. split_and!; [done..|]. split.
    + intros a Ha. assert (Hca : canonical a) by (by apply (in_pages_canonical v (S n))).
      unfold in_pages in *. rewrite Edv, Edp in *.
      destruct (decide (a / 4096 = v / 4096)) as [Ea|Ea].
      * rewrite Hm'2 by (done || lia). rewrite (pnum_page m1 own1 a v Hm1 Hca Hcv Ea), Ep1. lia.
      * rewrite Hm'1 by lia. lia.
    + intros a Hca Ha. unfold in_pages in *. rewrite Edv in *. rewrite Hm'2, Eo1 by (done || lia). done.
Qed.

Lemma ml_map_loop_mapped n : forall fuel m v p size flags,
  ml_ok m -> span 4096 size n -> (n < fuel)%nat -> size < 2 ^ 63 ->
  0 <= v -> v mod 4096 = 0 -> v + Z.of_nat n * 4096 <= 2 ^ 48 ->
  0 < p -> p mod 4096 = 0 -> p + Z.of_nat n * 4096 <= 2 ^ 52 -> room (ml_sys m) (3 * Z.of_nat n) ->
  flag_set flags Clobber = false -> (exists a, in_pages v n a /\ pnum m a <> 0) ->
  ml_map_loop fuel m v p size flags = Err Fatal.
Proof.
  induction n as [|n IH]; intros [|fuel] m v p size flags Hk Hs Hf Hz Hv Hvm He Hp Hpm Hpe Hr Hc (a & Ha & Hn); try lia.
  { unfold in_pages in Ha. lia. }
  destruct (span_step 4096 size n ltac:(lia) Hz Hs) as (Hpos & Hs' & Hz').
  assert (Hcv : canonical v) by (unfold canonical; lia).
  assert (Hca : canonical a) by (by apply (in_pages_canonical v (S n))).
  cbn [ml_map_loop]. rewrite (proj2 (Z.ltb_lt _ _)) by lia.
  destruct (Z.eq_dec (pnum m v) 0) as [Ev|Ev].
  2:{ rewrite ml_map_page_mapped by (done || unfold room in *; lia). done. }
  destruct (ml_map_page_ok m v p flags Hk Hcv Hvm) as (m1 & E1 & Hk1 & Ep1 & Eo1 & Hptr & Htot);
    [lia|done|unfold room in *; lia|by right|].
  rewrite E1. bsimpl. destruct (mo_tables _ Hk1) as [own1 Hm1]. rewrite (tb_size _ _ Hm1).
  rewrite !wrap_small by (split; lia). destruct (next_number v) as [Edv Emv], (next_number p) as [Edp Emp].
  apply IH; auto; try lia; [unfold room in *; lia|]. exists a. unfold in_pages in *.
  assert (Hne : a / 4096 <> v / 4096).
  { intros E0. destruct (mo_tables _ Hk) as [own Hm]. apply Hn. by rewrite (pnum_page m own a v). }
  rewrite Eo1 by done. split; [lia|done].
Qed.

Definition ml_unmapped (m : MultiLevelPageTable) (v : Z) (n : nat) (m' : MultiLevelPageTable) : Prop :=
  forall a, canonical a ->
    (in_pages v n a -> pnum m' a = 0) /\ (~ in_pages v n a -> pnum m' a = pnum m a).

Lemma ml_unmap_loop_ok n : forall fuel m v size,
  ml_ok m -> span 4096 size n -> (n < fuel)%nat -> size < 2 ^ 63 ->
  0 <= v -> v mod 4096 = 0 -> v + Z.of_nat n * 4096 <= 2 ^ 48 ->
  (forall a, in_pages v n a -> pnum m a <> 0) ->
  exists m', ml_unmap_loop fuel m v size = Ret m' /\ ml_ok m' /\ ml_unmapped m v n m'.
Proof.
  induction n as [|n IH]; intros [|fuel] m v size Hk Hs Hf Hz Hv Hvm He Hc; [lia| |lia|].
  - cbn in Hs. cbn [ml_unmap_loop]. rewrite (proj2 (Z.ltb_ge _ _)) by lia. exists m.
    split_and!; [done..|]. intros a _. unfold in_pages. split; [lia|done].
  - destruct (span_step 4096 size n ltac:(lia) Hz Hs) as (Hpos & Hs' & Hz').
    assert (Hcv : canonical v) by (unfold canonical; lia).
    cbn [ml_unmap_loop]. rewrite (proj2 (Z.ltb_lt _ _)) by lia.
    destruct (ml_unmap_page_ok m v Hk Hcv Hvm) as (m1 & E1 & Hk1 & Ep1 & Eo1).
    { apply Hc. unfold in_pages. lia. }
    rewrite E1. bsimpl. destruct (mo_tables _ Hk1) as [own1 Hm1]. rewrite (tb_size _ _ Hm1).
    rewrite wrap_small by (split; lia). destruct (next_number v) as [Edv Emv].
    destruct (IH fuel m1 (v + 4096) (s64 (size - 4096))) as (m' & E' & Hk' & Hm'); [done|done|lia|done|lia|auto|lia| |].
    { intros a Ha. assert (Hca : canonical a) by (apply (in_pages_canonical (v + 4096) n); auto; lia).
      unfold in_pages in *. rewrite Edv in Ha. rewrite Eo1 by (done || lia). apply Hc. lia. }
    rewrite E'. exists m'. split_and!; [done..|]. intros a Hca. specialize (Hm' a Hca) as [Hm'1 Hm'2].
    unfold in_pages in *. rewrite Edv in *. split.
    + intros Ha. destruct (decide (a / 4096 = v / 4096)) as [Ea|Ea]; [|apply Hm'1; lia].
      rewrite Hm'2 by lia. by rewrite (pnum_page m1 own1 a v).
    + intros Ha. rewrite Hm'2, Eo1 by (done || lia). done.
Qed.

Lemma ml_unmap_loop_hole n : forall fuel m v size,
  ml_ok m -> span 4096 size n -> (n < fuel)%nat -> size < 2 ^ 63 ->
  0 <= v -> v mod 4096 = 0 -> v + Z.of_nat n * 4096 <= 2 ^ 48 ->
  (exists a, in_pages v n a /\ pnum m a = 0) -> ml_unmap_loop fuel m v size = Err Fatal.
Proof.
  induction n as [|n IH]; intros [|fuel] m v size Hk Hs Hf Hz Hv Hvm He (a & Ha & Hn); try lia.
  { unfold in_pages in Ha. lia. }
  destruct (span_step 4096 size n ltac:(lia) Hz Hs) as (Hpos & Hs' & Hz').
  assert (Hcv : canonical v) by (unfold canonical; lia).
  assert (Hca : canonical a) by (by apply (in_pages_canonical v (S n))).
  cbn [ml_unmap_loop]. rewrite (proj2 (Z.ltb_lt _ _)) by lia.
  destruct (Z.eq_dec (pnum m v) 0) as [Ev|Ev]; [by rewrite ml_unmap_page_hole|].
  destruct (ml_unmap_page_ok m v Hk Hcv Hvm Ev) as (m1 & E1 & Hk1 & Ep1 & Eo1).
  rewrite E1. bsimpl. destruct (mo_tables _ Hk1) as [own1 Hm1]. rewrite (tb_size _ _ Hm1).
  rewrite wrap_small by (split; lia). destruct (next_number v) as [Edv Emv].
  apply IH; auto; try lia. exists a. unfold in_pages in *. 
  assert (Hne : a / 4096 <> v / 4096).
  { intros E0. destruct (mo_tables _ Hk) as [own Hm]. apply Ev. by rewrite <- (pnum_page m own a v). }
  rewrite Eo1 by done. split; [lia|done].
Qed.

Lemma ml_isUnmapped_loop_ok n : forall fuel m v size,
  ml_ok m -> span 4096 size n -> (n < fuel)%nat -> size < 2 ^ 63 ->
  0 <= v -> v mod 4096 = 0 -> v + Z.of_nat n * 4096 <= 2 ^ 48 ->
  exists b, ml_isUnmapped_loop fuel m v size = Ret b /\
    (b = true <-> forall a, in_pages v n a -> pnum m a = 0).
Proof.
  induction n as [|n IH]; intros [|fuel] m v size Hk Hs Hf Hz Hv Hvm He; [lia| |lia|].
  - cbn in Hs. cbn [ml_isUnmapped_loop]. rewrite (proj2 (Z.ltb_ge _ _)) by lia. exists true.
    split; [done|]. split; [|done]. intros _ a Ha. unfold in_pages in Ha. lia.
  - destruct (span_step 4096 size n ltac:(lia) Hz Hs) as (Hpos & Hs' & Hz').
    cbn [ml_isUnmapped_loop]. rewrite (proj2 (Z.ltb_lt _ _)) by lia.
    destruct (mo_tables _ Hk) as [own Hm]. destruct (walk_pnum m own v Hm) as (r & -> & Hr). bsimpl.
    assert (Er : match r with None => Ret 0 | Some a => pte ← read_word (ml_sys m) a; Ret (getPnum pte) end
                 = Ret (pnum m v)).
    { destruct r as [a|]; [|by rewrite Hr]. destruct Hr as (f & _ & -> & _ & _ & -> & <-). done. }
    rewrite Er. bsimpl. destruct (Z.eqb_spec (pnum m v) 0) as [Ev|Ev]; cbn [negb].
    + rewrite (tb_size _ _ Hm), wrap_small by (split; lia). destruct (next_number v) as [Edv Emv].
      destruct (IH fuel m (v + 4096) (s64 (size - 4096))) as (b & -> & Hb); [done|done|lia|done|lia|auto|lia|].
      exists b. split; [done|]. rewrite Hb. split; intros Ha a Hin.
      * assert (Hca : canonical a) by (by apply (in_pages_canonical v (S n))).
        unfold in_pages in *. rewrite Edv in Ha.
        destruct (decide (a / 4096 = v / 4096)) as [Ea|Ea]; [|apply Ha; lia].
        rewrite (pnum_page m own a v); try done. unfold canonical; lia.
      * apply Ha. unfold in_pages in *. rewrite Edv in Hin. lia.
    + exists false. split; [done|]. split; [done|]. intros Ha. exfalso. apply Ev, Ha. unfold in_pages. lia.
Qed.

(** ** A new table *)

Lemma PageTableBase_new_x86 pid :
  PageTableBase_new pid (2 ^ 12) =
  Ret (let e := mkCacheElement false 0 (tlb_default (E := X86Entry)) in mkPageTableBase e e e 4096 4095 pid).
Proof. reflexivity. Qed.

Lemma root_tree s base : 0 < base < 2 ^ 39 -> (forall a, inword 64 (default 0 (physmem s !! a))) ->
  let s' := fresh (mkSystem (physmem s) base (totalSize s)) in
  tree_ok s' base {[base := []]} /\ forall o, slot o -> word s' base o = 0.
Proof.
  intros Hb Hw s'.
  assert (Hz : forall f o, slot o -> word s' f o = if decide (f = base) then 0 else word s f o).
  { intros f o Ho. unfold s'. by rewrite word_fresh. }
  split; [|intros o Ho; rewrite Hz by done; by rewrite decide_True].
  constructor.
  - apply lookup_singleton_eq.
  - intros f p [<- <-]%lookup_singleton_Some. cbn. lia.
  - intros f f' p [<- _]%lookup_singleton_Some [<- _]%lookup_singleton_Some. done.
  - intros f p o [<- <-]%lookup_singleton_Some _ Ho. rewrite Hz by done. rewrite decide_True by done. done.
  - intros q p o [_ Hp]%lookup_singleton_Some. by destruct p.
  - intros f o Ho. rewrite Hz by done. case_decide; [unfold inword; lia|apply Hw].
  - cbn. lia.
Qed.

Lemma init_ok pid s base :
  (forall a, inword 64 (default 0 (physmem s !! a))) -> 0 <= base ->
  room (mkSystem (physmem s) (Z.max base 1) (totalSize s)) 1 ->
  exists m, (m ← MultiLevelPageTable_new pid s; initState m base) = Ret m /\ ml_ok m /\
    (forall va, pnum m va = 0) /\ pagePtr (ml_sys m) = Z.max base 1 + 1 /\ totalSize (ml_sys m) = totalSize s.
Proof.
  intros Hw Hb Hr. unfold MultiLevelPageTable_new. rewrite PageTableBase_new_x86. bsimpl.
  unfold initState. cbn [ml_sys logLevelSize numLevels].
  assert (Eb : (if base =? 0 then base + 1 else base) = Z.max base 1) by (destruct (Z.eqb_spec base 0); lia).
  rewrite Eb. set (b := Z.max base 1) in *. cbn [length PageTableLayout Nat.sub].
  rewrite (vread_some _ _ 9) by done. bsimpl. rewrite level_pages_9. bsimpl.
  pose proof (alloc_fresh _ Hr) as Ea. set (s0 := mkSystem (physmem s) b (totalSize s)) in *.
  destruct (allocPhysPages s0 1) as [[pa s1]|]; [|done]. cbn in Ea |- *.
  destruct (memset_zero s1 pa _) as [s2|]; [|done]. cbn in Ea. injection Ea as -> ->. cbn [mbind res_bind].
  destruct (root_tree s b) as [Ht Hz]; [unfold room, s0 in Hr; cbn in Hr; lia|done|].
  eexists. split; [done|]. set (m := mkMLPT _ _ _ _ _).
  assert (Hm : tables_ok m {[b := []]}) by (constructor; done).
  split_and!; [|intros va|done|done].
  - split; [by exists {[b := []]}|]. constructor; done.
  - apply (pnum_no_leaf m {[b := []]}); [done|]. intros f [_ Hp]%lookup_singleton_Some.
    apply (f_equal length) in Hp. destruct (offsets_ok va). rewrite path_length in Hp by lia. done.
Qed.

Lemma ml_pageOffset m own va : tables_ok m own -> pageOffset (ml_base m) va = va mod 4096.
Proof.
  intros Hm. unfold pageOffset. rewrite (tb_mask _ _ Hm). change 4095 with (Z.ones 12). by rewrite Z.land_ones by lia.
Qed.

Lemma pnum_range m own va : tables_ok m own -> 0 <= pnum m va < 2 ^ 40.
Proof.
  intros Hm. destruct (walk_pnum m own va Hm) as ([a|] & _ & Hr); [|rewrite Hr; lia].
  destruct Hr as (f & _ & _ & _ & _ & _ & <-). apply getPnum_range.
Qed.

Lemma ml_translate_ok m va :
  ml_ok m -> canonical va ->
  exists m', ml_translate m va =
    Ret (if pnum m (va - va mod 4096) =? 0 then None
         else Some (pnum m (va - va mod 4096) * 4096 + va mod 4096), m') /\
    ml_ok m' /\ forall a, pnum m' a = pnum m a.
Proof.
  intros Hk Hc. destruct (mo_tables _ Hk) as [own Hm]. unfold ml_translate.
  destruct (ml_lookup_ok m va Hk Hc) as (r & m' & -> & Hk' & Hs' & Hr). bsimpl. exists m'.
  split; [|done]. rewrite (ml_pageOffset m own) by done. do 2 f_equal.
  destruct r as [e|]; cbn [option_map]; [|by rewrite Hr].
  destruct Hr as [Hn He]. rewrite (proj2 (Z.eqb_neq _ _)) by done. rewrite He. f_equal.
  pose proof (Z.mod_pos_bound va 4096 ltac:(lia)). pose proof (pnum_range m own (va - va mod 4096) Hm).
  rewrite wrap_small by (split; lia). lia.
Qed.

Definition ml_region (v size : Z) : Prop :=
  0 <= v /\ v mod 4096 = 0 /\ 0 <= size < 2 ^ 63 /\ v + Z.of_nat (pages 4096 size) * 4096 <= 2 ^ 48.

(** C11. The tables in memory implement a map from virtual to physical pages.  A
    new table maps nothing.  As long as there is room for the table pages,
    mapping a region of canonical addresses gives its pages consecutive physical
    pages and leaves every other translation alone, whatever levels had to be
    allocated, and without the clobber flag is refused if a page is mapped;
    unmapping removes exactly the region and fails on an unmapped page;
    [isUnmapped] decides; and translation, through the cache or by a walk,
    returns the physical address of a mapped page and nothing otherwise. *)
Theorem tables_refine_map :
  (forall pid s base, (forall a, inword 64 (default 0 (physmem s !! a))) -> 0 <= base ->
     room (mkSystem (physmem s) (Z.max base 1) (totalSize s)) 1 ->
     exists m, (m ← MultiLevelPageTable_new pid s; initState m base) = Ret m /\ ml_ok m /\
       forall va, pnum m va = 0) /\
  (forall m, ml_ok m ->
     (forall va, canonical va ->
        exists m', ml_translate m va =
          Ret (if pnum m (va - va mod 4096) =? 0 then None
               else Some (pnum m (va - va mod 4096) * 4096 + va mod 4096), m') /\
          ml_ok m' /\ forall a, pnum m' a = pnum m a) /\
     (forall v p size flags, ml_region v size -> 0 < p -> p mod 4096 = 0 ->
        let n := pages 4096 size in
        p + Z.of_nat n * 4096 <= 2 ^ 52 -> room (ml_sys m) (3 * Z.of_nat n) ->
        (flag_set flags Clobber = true \/ (forall a, in_pages v n a -> pnum m a = 0) ->
         exists m', ml_map m v p size flags = Ret m' /\ ml_ok m' /\ ml_mapped m v p n m') /\
        (flag_set flags Clobber = false -> (exists a, in_pages v n a /\ pnum m a <> 0) ->
         ml_map m v p size flags = Err Fatal)) /\
     (forall v size, ml_region v size ->
        let n := pages 4096 size in
        ((forall a, in_pages v n a -> pnum m a <> 0) ->
         exists m', ml_unmap m v size = Ret m' /\ ml_ok m' /\ ml_unmapped m v n m') /\
        ((exists a, in_pages v n a /\ pnum m a = 0) -> ml_unmap m v size = Err Fatal) /\
        (exists b, ml_isUnmapped m v size = Ret b /\
           (b = true <-> forall a, in_pages v n a -> pnum m a = 0)))).
Proof.
  split.
  { intros pid s base Hw Hb Hr. destruct (init_ok pid s base Hw Hb Hr) as (m & ? & ? & ? & _). by exists m. }
  intros m Hk. destruct (mo_tables _ Hk) as [own Hm].
  assert (Hal : forall v, v mod 4096 = 0 -> cassert (pageOffset (ml_base m) v =? 0) = Ret tt).
  { intros v Hv. by rewrite (ml_pageOffset m own), Hv. }
  assert (Hsp : forall v size, ml_region v size -> span 4096 size (pages 4096 size) /\
    (pages 4096 size < page_fuel (ml_base m) size)%nat).
  { intros v size (? & ? & ? & ?). split; [apply span_pages; lia|].
    apply pages_fuel; [lia|lia|apply (tb_size _ _ Hm)]. }
  split_and!.
  - intros va. by apply ml_translate_ok.
  - intros v p size flags Hr Hp Hpm n Hpe Hro. destruct (Hsp v size Hr) as [Hs Hf]. destruct Hr as (? & ? & ? & ?).
    unfold ml_map. rewrite Hal by done. bsimpl. split.
    + intros Hc. apply ml_map_loop_ok; try done; lia.
    + intros Hc Ha. eapply ml_map_loop_mapped; try done; lia.
  - intros v size Hr n. destruct (Hsp v size Hr) as [Hs Hf]. destruct Hr as (? & ? & ? & ?).
    unfold ml_unmap, ml_isUnmapped. rewrite Hal by done. bsimpl. split_and!.
    + intros Ha. apply ml_unmap_loop_ok; try done; lia.
    + intros Ha. eapply ml_unmap_loop_hole; try done; lia.
    + apply ml_isUnmapped_loop_ok; try done; lia.
Qed.

(** A gigabyte of memory with the table register at page 5. *)
Definition demo_sys : System := mkSystem ∅ 0 (2 ^ 30).

Lemma tables_refine_map_witness :
  exists m m' m2, (m ← MultiLevelPageTable_new 7 demo_sys; initState m 5) = Ret m /\
    ml_map m 0x1000 0x200000 0x1800 0 = Ret m' /\ ml_translate m' 0x2345 = Ret (Some 0x201345, m2).
Proof.
  destruct tables_refine_map as [Hinit Hops].
  destruct (Hinit 7 demo_sys 5) as (m & E & Hm & H0).
  - intros a. cbn [physmem demo_sys]. rewrite lookup_empty. unfold inword. cbn. lia.
  - lia.
  - unfold room. cbn. lia.
  - destruct (Hops m Hm) as (_ & Hmap & _).
    destruct (Hmap 0x1000 0x200000 0x1800 0) as [Hok _].
    + split_and!; vm_compute; try done; congruence.
    + lia.
    + reflexivity.
    + vm_compute. congruence.
    + assert (Hr : pagePtr (ml_sys m) = 6 /\ totalSize (ml_sys m) = 2 ^ 30).
      { destruct (init_ok 7 demo_sys 5) as (m1 & E1 & _ & _ & P1 & T1).
        - intros a. cbn [physmem demo_sys]. rewrite lookup_empty. unfold inword. cbn. lia.
        - lia.
        - unfold room. cbn. lia.
        - assert (m1 = m) as -> by congruence. split; [exact P1|exact T1]. }
      unfold room. destruct Hr as [-> ->]. split_and!; vm_compute; try done; congruence.
    + destruct Hok as (m' & E' & Hm' & Hin & _); [right; intros; apply H0|].
      destruct (Hops m' Hm') as (Htr & _). destruct (Htr 0x2345) as (m2 & E2 & _); [unfold canonical; lia|].
      exists m, m', m2. split; [exact E|]. split; [exact E'|]. rewrite E2.
      change (0x2345 - 0x2345 mod 4096) with 0x2000.
      assert (Ep : pnum m' 0x2000 = 0x201).
      { rewrite Hin; [reflexivity|]. split; vm_compute; congruence. }
      by rewrite Ep.
Defined.

(** Moving a page loses it: [remap] takes the page number of the old entry for
    an address and shifts it once more, so that the page is unmapped at both
    addresses, while the cache translates the new one to a wrong address. *)
Lemma remap_loses_page :
  (m ← MultiLevelPageTable_new 7 demo_sys; m ← initState m 5;
   m ← ml_map m 0x1000 0x200000 0x1000 0;
   '(before, m) ← ml_translate m 0x1000;
   m ← ml_remap m 0x1000 0x1000 0x40000000;
   a ← ml_isUnmapped m 0x1000 0x1000;
   b ← ml_isUnmapped m 0x40000000 0x1000;
   '(after, _) ← ml_translate m 0x40000000;
   Ret (before, after, a, b)) = Ret (Some 0x200000, Some 0x200, true, true).
Proof. vm_compute. reflexivity. Qed.
