(* ===== verification/PacketQueue.v ===== *)
(** * Packet queues of ports: [mem/packet_queue.hh], [mem/packet_queue.cc], [mem/qport.hh]

    A queue holds the packets a port is to send, ordered by the tick at which
    they become ready; an event sends the first one, and a refused packet waits
    for a retry.  The send event is the tick it is scheduled for, if it is
    ([schedule] and [reschedule] are modelled with the assertions of the event
    queue); sending is the receiver's business, so its outcome is an argument:
    whether the packet was accepted, and the packets that the receiver put into
    this queue before it returned. *)

From S2P Require Import Prelude Packet.
From Stdlib Require Import Sorting.Sorted.
Local Open Scope Z_scope.

(** ** Data *)

Record DeferredPacket := mkDeferred { dp_tick : Z; dp_pkt : Packet }.

Record PacketQueue := mkPacketQueue {
  transmitList : list DeferredPacket;
  sendEvent : option Z;
  drainManager : bool;        (* a drain manager waits for this queue *)
  drainDone : nat;            (* how often it was told that draining is done *)
  waitingOnRetry : bool
}.

Definition PacketQueue_new : PacketQueue := mkPacketQueue [] None false 0 false.

Definition with_list (q : PacketQueue) (l : list DeferredPacket) : PacketQueue :=
  mkPacketQueue l (sendEvent q) (drainManager q) (drainDone q) (waitingOnRetry q).
Definition with_event (q : PacketQueue) (e : option Z) : PacketQueue :=
  mkPacketQueue (transmitList q) e (drainManager q) (drainDone q) (waitingOnRetry q).
Definition with_waiting (q : PacketQueue) (w : bool) : PacketQueue :=
  mkPacketQueue (transmitList q) (sendEvent q) (drainManager q) (drainDone q) w.

Definition scheduled (q : PacketQueue) : bool :=
  match sendEvent q with
  | Some _ => true
  | None => false
  end.

(** ** Operations *)

Definition deferredPacketReady (q : PacketQueue) (curTick : Z) : bool :=
  match transmitList q with
  | [] => false
  | d :: _ => dp_tick d <=? curTick
  end.

Definition deferredPacketReadyTime (q : PacketQueue) : Z :=
  match transmitList q with
  | [] => MaxTick
  | d :: _ => dp_tick d
  end.

Definition hasAddr (q : PacketQueue) (addr : Z) : bool :=
  existsb (fun d => pkt_addr (dp_pkt d) =? addr) (transmitList q).

(** The loop of [checkFunctional]: the functional packet, the queued packets (a
    functional write changes their payload) and whether it was satisfied. *)
Fixpoint queue_checkFunctional (p : Packet) (l : list DeferredPacket)
    : res (bool * Packet * list DeferredPacket) :=
  match l with
  | [] => Ret (false, p, [])
  | d :: l =>
      let o := dp_pkt d in
      data ← (if cmd_hasData (pkt_cmd o) then x ← getPtr o; Ret (Some x) else Ret None);
      '(found, p, data) ← checkFunctional p (pkt_addr o) (pkt_isSecure o) (pkt_size o) data;
      let d := match data with
               | Some x => mkDeferred (dp_tick d) (with_data o x (bytesValid o))
               | None => d
               end in
      if (found : bool) then Ret (true, p, d :: l)
      else '(found, p, l) ← queue_checkFunctional p l; Ret (found, p, d :: l)
  end.

(** [em.schedule] and [em.reschedule] of the send event. *)
Definition em_schedule (q : PacketQueue) (curTick when : Z) : res PacketQueue :=
  _ ← cassert (curTick <=? when);
  _ ← cassert (negb (scheduled q));
  Ret (with_event q (Some when)).

Definition em_reschedule (q : PacketQueue) (curTick when : Z) : res PacketQueue :=
  _ ← cassert (curTick <=? when);
  _ ← cassert (scheduled q);
  Ret (with_event q (Some when)).

Definition schedSendEvent (q : PacketQueue) (curTick when : Z) : res PacketQueue :=
  if waitingOnRetry q then
    _ ← cassert (negb (scheduled q));
    Ret q
  else if negb (when =? MaxTick) then
    let when := Z.max when (u64 (curTick + 1)) in
    match sendEvent q with
    | None => em_schedule q curTick when
    | Some w => if when <? w then em_reschedule q curTick when else Ret q
    end
  else
    Ret (if drainManager q && is_nil (transmitList q) && negb (scheduled q)
         then mkPacketQueue (transmitList q) (sendEvent q) false (S (drainDone q)) (waitingOnRetry q)
         else q).

(** The insertion behind the packets that are ready no later. *)
Fixpoint insert_middle (d : DeferredPacket) (l : list DeferredPacket) : list DeferredPacket :=
  match l with
  | [] => [d]
  | x :: l' => if dp_tick x <=? dp_tick d then x :: insert_middle d l' else d :: l
  end.

Definition back_tick (x : DeferredPacket) (l : list DeferredPacket) : Z := dp_tick (List.last l x).

Definition schedSendTiming (q : PacketQueue) (curTick : Z) (pkt : Packet) (when : Z)
    (force_order : bool) : res PacketQueue :=
  _ ← cassert (curTick <=? when);
  _ ← cassert (negb (isExpressSnoop pkt));
  if (100 <? length (transmitList q))%nat then Err Panic
  else
    match transmitList q with
    | [] =>
        let q := with_list q [mkDeferred when pkt] in
        schedSendEvent q curTick when
    | front :: rest =>
        let back := back_tick front rest in
        let when := if force_order && (when <? back) then back else when in
        let d := mkDeferred when pkt in
        if when <? dp_tick front then
          _ ← cassert (negb force_order);
          schedSendEvent (with_list q (d :: front :: rest)) curTick when
        else if back <=? when then Ret (with_list q (front :: rest ++ [d]))
        else
          _ ← cassert (negb force_order);
          Ret (with_list q (front :: insert_middle d rest))
    end.

(** What [sendTiming] did. *)
Record outcome := mkOutcome {
  accepted : bool;
  reentered : list (Packet * Z * bool)
}.

Fixpoint reenter (q : PacketQueue) (curTick : Z) (l : list (Packet * Z * bool)) : res PacketQueue :=
  match l with
  | [] => Ret q
  | (p, when, fo) :: l =>
      q ← schedSendTiming q curTick p when fo;
      reenter q curTick l
  end.

Definition sendDeferredPacket (q : PacketQueue) (curTick : Z) (out : outcome) : res PacketQueue :=
  _ ← cassert (negb (waitingOnRetry q));
  _ ← cassert (deferredPacketReady q curTick);
  match transmitList q with
  | [] => Err OutOfBounds
  | dp :: rest =>
      q ← reenter (with_list q rest) curTick (reentered out);
      let q := with_waiting q (negb (accepted out)) in
      if negb (waitingOnRetry q) then schedSendEvent q curTick (deferredPacketReadyTime q)
      else Ret (with_list q (dp :: transmitList q))
  end.

(** The event has left the event queue when it is processed. *)
Definition processSendEvent (q : PacketQueue) (curTick : Z) (out : outcome) : res PacketQueue :=
  let q := with_event q None in
  _ ← cassert (negb (waitingOnRetry q));
  sendDeferredPacket q curTick out.

Definition retry (q : PacketQueue) (curTick : Z) (out : outcome) : res PacketQueue :=
  _ ← cassert (waitingOnRetry q);
  sendDeferredPacket (with_waiting q false) curTick out.

Definition PacketQueue_drain (q : PacketQueue) : Z * PacketQueue :=
  if is_nil (transmitList q) then (0, q)
  else (1, mkPacketQueue (transmitList q) (sendEvent q) true (drainDone q) (waitingOnRetry q)).

(** ** Ports with queues *)

Record QueuedMasterPort := mkQueuedMasterPort { reqQueue : PacketQueue; snoopRespQueue : PacketQueue }.

Definition schedTimingReq (p : QueuedMasterPort) (curTick : Z) (pkt : Packet) (when : Z)
    : res QueuedMasterPort :=
  q ← schedSendTiming (reqQueue p) curTick pkt when false;
  Ret (mkQueuedMasterPort q (snoopRespQueue p)).

Definition schedTimingSnoopResp (p : QueuedMasterPort) (curTick : Z) (pkt : Packet) (when : Z)
    (force_order : bool) : res QueuedMasterPort :=
  q ← schedSendTiming (snoopRespQueue p) curTick pkt when force_order;
  Ret (mkQueuedMasterPort (reqQueue p) q).

Definition recvReqRetry (p : QueuedMasterPort) (curTick : Z) (out : outcome) : res QueuedMasterPort :=
  q ← retry (reqQueue p) curTick out;
  Ret (mkQueuedMasterPort q (snoopRespQueue p)).

Definition recvRetrySnoopResp (p : QueuedMasterPort) (curTick : Z) (out : outcome)
    : res QueuedMasterPort :=
  q ← retry (snoopRespQueue p) curTick out;
  Ret (mkQueuedMasterPort (reqQueue p) q).

(** Requests are searched before snoop responses. *)
Definition master_checkFunctional (p : QueuedMasterPort) (pkt : Packet)
    : res (bool * Packet * QueuedMasterPort) :=
  '(found, pkt, l) ← queue_checkFunctional pkt (transmitList (reqQueue p));
  let p := mkQueuedMasterPort (with_list (reqQueue p) l) (snoopRespQueue p) in
  if (found : bool) then Ret (true, pkt, p)
  else
    '(found, pkt, l) ← queue_checkFunctional pkt (transmitList (snoopRespQueue p));
    Ret (found, pkt, mkQueuedMasterPort (reqQueue p) (with_list (snoopRespQueue p) l)).

Definition master_drain (p : QueuedMasterPort) : Z * QueuedMasterPort :=
  let '(a, q) := PacketQueue_drain (reqQueue p) in
  let '(b, r) := PacketQueue_drain (snoopRespQueue p) in
  (a + b, mkQueuedMasterPort q r).

(** ** Order *)

Definition before (a b : DeferredPacket) : Prop := dp_tick a <= dp_tick b.
Abbreviation sorted := (StronglySorted before).

(** The tick a packet gets: with [force_order], no earlier than the last. *)
Definition actual_tick (l : list DeferredPacket) (when : Z) (force_order : bool) : Z :=
  match l with
  | [] => when
  | front :: rest => if force_order && (when <? back_tick front rest) then back_tick front rest else when
  end.

Lemma back_tick_cons x y l : back_tick x (y :: l) = back_tick y l.
Proof.
  unfold back_tick. f_equal. revert x y. induction l as [|z l IH]; intros x y; [done|].
  change (List.last (z :: l) x = List.last (z :: l) y). by rewrite !IH.
Qed.

Lemma back_tick_max x l d : sorted (x :: l) -> d ∈ x :: l -> dp_tick d <= back_tick x l.
Proof.
  revert x d. induction l as [|y l IH]; intros x d Hs Hd.
  - apply list_elem_of_singleton in Hd as ->. done.
  - apply StronglySorted_inv in Hs as [Hs Hx]. rewrite back_tick_cons.
    apply elem_of_cons in Hd as [->|Hd]; [|by apply (IH y)].
    transitivity (dp_tick y); [|apply (IH y y Hs), list_elem_of_here].
    rewrite Forall_forall in Hx. apply Hx, list_elem_of_here.
Qed.

Lemma insert_back d l : (forall x, x ∈ l -> dp_tick x <= dp_tick d) -> insert_middle d l = l ++ [d].
Proof.
  induction l as [|x l IH]; intros H; [done|]. cbn. rewrite (proj2 (Z.leb_le _ _)) by apply H, list_elem_of_here.
  f_equal. apply IH. intros y Hy. by apply H, list_elem_of_further.
Qed.

Lemma insert_perm d l : insert_middle d l ≡ₚ d :: l.
Proof.
  induction l as [|x l IH]; [done|]. cbn. destruct (dp_tick x <=? dp_tick d); [|done].
  rewrite IH. apply Permutation_swap.
Qed.

Lemma insert_sorted d l : sorted l -> sorted (insert_middle d l).
Proof.
  induction 1 as [|x l Hs IH Hx]; [repeat constructor|]. cbn. destruct (Z.leb_spec (dp_tick x) (dp_tick d)).
  - constructor; [done|]. rewrite insert_perm. by constructor.
  - constructor; [by constructor|]. constructor; [unfold before; lia|].
    eapply List.Forall_impl; [|exact Hx]. unfold before. intros y. lia.
Qed.

Lemma insert_head d l x r : insert_middle d l = x :: r ->
  match l with [] => x = d | y :: _ => x = y /\ dp_tick y <= dp_tick d \/ x = d /\ dp_tick d < dp_tick y end.
Proof.
  destruct l as [|y l]; cbn; [by intros [= <- _]|].
  destruct (Z.leb_spec (dp_tick y) (dp_tick d)); intros [= <- _]; [by left|by right].
Qed.

(** The new packet goes behind all packets that are ready no later; the send
    event is considered exactly when it becomes the first. *)
Lemma schedSendTiming_eq q cur pkt when fo :
  sorted (transmitList q) -> cur <= when -> isExpressSnoop pkt = false -> (length (transmitList q) <= 100)%nat ->
  let d := mkDeferred (actual_tick (transmitList q) when fo) pkt in
  let q' := with_list q (insert_middle d (transmitList q)) in
  schedSendTiming q cur pkt when fo =
  match transmitList q with
  | [] => schedSendEvent q' cur when
  | x :: _ => if dp_tick d <? dp_tick x then schedSendEvent q' cur (dp_tick d) else Ret q'
  end.
Proof.
  intros Hs Hw He Hl d q'. unfold schedSendTiming. rewrite (cassert_true (cur <=? when)) by lia. bsimpl.
  rewrite He. cbn [negb cassert]. bsimpl. rewrite (proj2 (Nat.ltb_ge _ _)) by lia.
  destruct (transmitList q) as [|x l] eqn:El; [done|].
  set (back := back_tick x l). unfold actual_tick in d. fold back in d.
  assert (Hxb : dp_tick x <= back) by (apply back_tick_max; [done|apply list_elem_of_here]).
  change (if fo && (when <? back) then back else when) with (dp_tick d).
  assert (Hfo : fo = true -> back <= dp_tick d).
  { intros ->. unfold d. cbn [dp_tick andb]. destruct (Z.ltb_spec when back); lia. }
  destruct (Z.ltb_spec (dp_tick d) (dp_tick x)) as [Hlt|Hge].
  - assert (fo = false) as -> by (destruct fo; [specialize (Hfo eq_refl); lia|done]). cbn [negb cassert]. bsimpl.
    unfold q'. cbn [insert_middle]. rewrite (proj2 (Z.leb_gt _ _)) by lia. done.
  - unfold q'. destruct (Z.leb_spec back (dp_tick d)) as [Hb|Hb].
    + rewrite insert_back; [done|]. intros y Hy. transitivity back; [by apply back_tick_max|done].
    + assert (fo = false) as -> by (destruct fo; [specialize (Hfo eq_refl); lia|done]). cbn [negb cassert]. bsimpl.
      cbn [insert_middle]. by rewrite (proj2 (Z.leb_le _ _)) by lia.
Qed.

Lemma actual_tick_ge l when fo : when <= actual_tick l when fo.
Proof. unfold actual_tick. destruct l; [lia|]. destruct fo; cbn; [|lia]. case_match; lia. Qed.

(** ** The send event is never lost *)

(** Between steps: a waiting queue has a first packet that is ready and no
    event; otherwise a queue with packets has an event, not before its first
    packet is ready and not later than that or the next tick. *)
Record queue_inv (cur : Z) (q : PacketQueue) : Prop := {
  qi_sorted : sorted (transmitList q);
  qi_ticks : Forall (fun d => dp_tick d < MaxTick) (transmitList q);
  qi_now : 0 <= cur < MaxTick;
  qi_waiting : waitingOnRetry q = true ->
    sendEvent q = None /\ exists d l, transmitList q = d :: l /\ dp_tick d <= cur;
  qi_event : waitingOnRetry q = false ->
    match transmitList q with
    | [] => sendEvent q = None
    | d :: _ => exists w, sendEvent q = Some w /\ dp_tick d <= w /\ cur <= w <= Z.max (dp_tick d) (cur + 1)
    end
}.

(** While a packet is being sent. *)
Record sending_inv (cur : Z) (q : PacketQueue) : Prop := {
  ni_sorted : sorted (transmitList q);
  ni_ticks : Forall (fun d => dp_tick d < MaxTick) (transmitList q);
  ni_now : 0 <= cur < MaxTick;
  ni_waiting : waitingOnRetry q = false;
  ni_event : sendEvent q = None \/
    exists w d l, sendEvent q = Some w /\ cur <= w /\ transmitList q = d :: l /\ dp_tick d <= w
}.

(** The event comes in time for the first packet, and is there if it must be. *)
Definition timely (cur : Z) (q : PacketQueue) : Prop :=
  forall d l w, transmitList q = d :: l -> sendEvent q = Some w -> w <= Z.max (dp_tick d) (cur + 1).
Definition armed (q : PacketQueue) : Prop := transmitList q <> [] -> sendEvent q <> None.

Definition may_enqueue (cur : Z) (x : Packet * Z * bool) : Prop :=
  isExpressSnoop x.1.1 = false /\ cur <= x.1.2 < MaxTick.

Lemma Forall_insert (P : DeferredPacket -> Prop) d l : P d -> Forall P l -> Forall P (insert_middle d l).
Proof. intros. rewrite insert_perm. by constructor. Qed.

Lemma actual_tick_lt l when fo :
  when < MaxTick -> Forall (fun d => dp_tick d < MaxTick) l -> actual_tick l when fo < MaxTick.
Proof.
  intros Hw Hl. unfold actual_tick. destruct l as [|x l]; [done|]. case_match; [|done].
  unfold back_tick. clear H. revert x Hl. induction l as [|y l IH]; intros x Hl.
  - by inversion Hl.
  - fold (back_tick x (y :: l)). rewrite back_tick_cons. apply IH. by inversion Hl.
Qed.

(** Scheduling for a tick [w] when the first packet is ready no later. *)
Lemma schedSendEvent_ok cur q when :
  0 <= cur < MaxTick -> waitingOnRetry q = false -> when < MaxTick ->
  exists q', schedSendEvent q cur when = Ret q' /\ transmitList q' = transmitList q /\
    waitingOnRetry q' = false /\ drainManager q' = drainManager q /\ drainDone q' = drainDone q /\
    sendEvent q' = Some (match sendEvent q with
                         | Some w => Z.min w (Z.max when (cur + 1))
                         | None => Z.max when (cur + 1)
                         end).
Proof.
  intros Hc Hw Ht. unfold schedSendEvent. rewrite Hw. rewrite (proj2 (Z.eqb_neq _ _)) by lia. cbn [negb].
  unfold MaxTick in Hc. rewrite wrap_small by (split; lia).
  destruct (sendEvent q) as [w|] eqn:Ee.
  - destruct (Z.ltb_spec (Z.max when (cur + 1)) w).
    + unfold em_reschedule, scheduled. rewrite (cassert_true (cur <=? _)) by lia. bsimpl. rewrite Ee. cbn [cassert]. bsimpl.
      eexists. split; [done|]. cbn. rewrite Hw. split_and!; try done. f_equal. lia.
    + eexists. split; [done|]. rewrite Hw, Ee. split_and!; try done. f_equal. lia.
  - unfold em_schedule, scheduled. rewrite (cassert_true (cur <=? _)) by lia. bsimpl. rewrite Ee. cbn [cassert negb]. bsimpl.
    eexists. split; [done|]. cbn. by rewrite Hw.
Qed.

Lemma sending_enqueue cur q p when fo :
  sending_inv cur q -> may_enqueue cur (p, when, fo) -> (length (transmitList q) <= 100)%nat ->
  exists q', schedSendTiming q cur p when fo = Ret q' /\ sending_inv cur q' /\
    transmitList q' = insert_middle (mkDeferred (actual_tick (transmitList q) when fo) p) (transmitList q) /\
    drainManager q' = drainManager q /\ drainDone q' = drainDone q /\
    (timely cur q -> timely cur q') /\ (armed q -> armed q').
Proof.
  intros [Hs Ht Hc Hw He] [Hx Hwh] Hl. cbn in Hx, Hwh. rewrite schedSendTiming_eq by (done || lia).
  set (d := mkDeferred _ _). set (l' := insert_middle d _).
  pose proof (actual_tick_ge (transmitList q) when fo) as Hge.
  pose proof (actual_tick_lt (transmitList q) when fo ltac:(lia) Ht) as Hlt.
  assert (Hs' : sorted l') by (by apply insert_sorted).
  assert (Ht' : Forall (fun d => dp_tick d < MaxTick) l') by (by apply Forall_insert).
  destruct (transmitList q) as [|x l] eqn:El.
  - destruct (schedSendEvent_ok cur (with_list q l') when Hc Hw ltac:(lia)) as (q' & E & E1 & E2 & E3 & E4 & E5).
    exists q'. split; [done|]. cbn [transmitList sendEvent with_list] in E1, E5.
    assert (sendEvent q = None) as En by (destruct He as [|(?&?&?&_&_&?&_)]; congruence).
    rewrite En in E5. split_and!; try done.
    + constructor; rewrite ?E1, ?E2; try done. right.
      exists (Z.max when (cur + 1)), d, []. split_and!; [done|lia|done|]. change (dp_tick d) with when. lia.
    + intros _ d' m w Em Ew. rewrite E1 in Em. injection Em as <- <-. rewrite E5 in Ew. injection Ew as <-.
      change (dp_tick d) with when. lia.
    + intros _ _. by rewrite E5.
  - destruct (Z.ltb_spec (dp_tick d) (dp_tick x)) as [Hlx|Hgx].
    + destruct (schedSendEvent_ok cur (with_list q l') (dp_tick d) Hc Hw Hlt) as (q' & E & E1 & E2 & E3 & E4 & E5).
      exists q'. split; [done|]. cbn [transmitList sendEvent with_list] in E1, E5.
      assert (El' : l' = d :: x :: l)
        by (unfold l'; cbn [insert_middle]; by rewrite (proj2 (Z.leb_gt (dp_tick x) (dp_tick d))) by lia).
      split_and!; try done.
      * constructor; rewrite ?E1, ?E2; try done. right. eexists _, d, (x :: l). split; [exact E5|].
        destruct He as [->|(w & d0 & l0 & -> & Hcw & [= <- <-] & Hdw)]; split_and!; try done; lia.
      * intros _ d' m w Em Ew. rewrite E1, El' in Em. injection Em as <- <-. rewrite E5 in Ew. apply (inj Some) in Ew. subst w.
        destruct (sendEvent q); lia.
      * intros _ _. by rewrite E5.
    + exists (with_list q l'). split; [done|].
      assert (El' : l' = x :: insert_middle d l)
        by (unfold l'; cbn [insert_middle]; by rewrite (proj2 (Z.leb_le (dp_tick x) (dp_tick d))) by lia).
      split_and!; try done.
      * constructor; cbn [transmitList sendEvent waitingOnRetry with_list]; try done.
        destruct He as [He|(w & d0 & l0 & He & Hcw & [= <- <-] & Hdw)]; [by left|]. right.
        rewrite El'. eexists _, _, _. split_and!; done.
      * intros Hti d' m w Em Ew. cbn [transmitList with_list] in Em. rewrite El' in Em. injection Em as <- <-.
        by apply (Hti x l).
      * intros Ha _. cbn [sendEvent with_list]. apply Ha. by rewrite El.
Qed.

(** An idle queue between steps. *)
Lemma idle_inv cur q :
  waitingOnRetry q = false -> (queue_inv cur q <-> sending_inv cur q /\ timely cur q /\ armed q).
Proof.
  intros Hw. split.
  - intros [Hs Ht Hc _ He]. specialize (He Hw). destruct (transmitList q) as [|d l] eqn:El.
    + split_and!; [constructor; rewrite ?El; try done; by left|intros ??? E0; congruence|intros E0; congruence].
    + destruct He as (w & Ew & H1 & H2). split_and!.
      * constructor; rewrite ?El; try done. right. exists w, d, l. split_and!; try done; lia.
      * intros d' l' w' E1 E2. rewrite El in E1. injection E1 as <- <-. rewrite Ew in E2. injection E2 as <-. lia.
      * intros _. by rewrite Ew.
  - intros ([Hs Ht Hc _ He] & Hti & Ha). constructor; try done; [by rewrite Hw|]. intros _.
    destruct (transmitList q) as [|d l] eqn:El.
    + by destruct He as [|(?&?&?&_&_&?&_)].
    + destruct He as [He|(w & d0 & l0 & Ew & Hcw & [= <- <-] & Hdw)]; [by destruct (Ha ltac:(by rewrite El))|].
      exists w. split_and!; try done. by apply (Hti d l).
Qed.

Definition packets_of (l : list (Packet * Z * bool)) : list Packet := (fun x => x.1.1) <$> l.

Lemma reenter_ok cur l : forall q,
  sending_inv cur q -> Forall (may_enqueue cur) l -> (length (transmitList q) + length l <= 101)%nat ->
  exists q', reenter q cur l = Ret q' /\ sending_inv cur q' /\
    dp_pkt <$> transmitList q' ≡ₚ (dp_pkt <$> transmitList q) ++ packets_of l /\
    drainManager q' = drainManager q /\ drainDone q' = drainDone q.
Proof.
  induction l as [|[[p when] fo] l IH]; intros q Hq Hl Hn.
  - exists q. split_and!; try done. cbn. by rewrite app_nil_r.
  - apply Forall_cons in Hl as [Hx Hl]. cbn in Hn.
    destruct (sending_enqueue cur q p when fo Hq Hx) as (q1 & E1 & Hq1 & El & Ed & Ed' & _); [lia|].
    cbn [reenter]. rewrite E1. bsimpl.
    destruct (IH q1 Hq1 Hl) as (q' & E' & Hq' & Hp & Ed1 & Ed1').
    { rewrite El, insert_perm. cbn. lia. }
    exists q'. split_and!; try done; [|congruence..].
    rewrite Hp, El, insert_perm. unfold packets_of. cbn [fmap list_fmap dp_pkt fst]. apply Permutation_middle.
Qed.

(** A send that is accepted: the event for the next packet is set, or the drain
    manager is told that the queue is empty. *)
Lemma finish_send cur q :
  sending_inv cur q ->
  exists q', schedSendEvent q cur (deferredPacketReadyTime q) = Ret q' /\ queue_inv cur q' /\
    transmitList q' = transmitList q /\ waitingOnRetry q' = false /\
    (if is_nil (transmitList q) && drainManager q
     then drainManager q' = false /\ drainDone q' = S (drainDone q)
     else drainManager q' = drainManager q /\ drainDone q' = drainDone q).
Proof.
  intros [Hs Ht Hc Hw He]. unfold deferredPacketReadyTime. destruct (transmitList q) as [|d l] eqn:El.
  - assert (En : sendEvent q = None) by (destruct He as [|(?&?&?&_&_&?&_)]; congruence).
    unfold schedSendEvent. rewrite Hw, Z.eqb_refl, El. unfold scheduled. rewrite En. cbn [negb is_nil andb].
    rewrite !andb_true_r. eexists. split; [done|].
    destruct (drainManager q) eqn:Ed; (split; [constructor|]); cbn; rewrite ?El, ?Hw, ?Ed; done.
  - apply Forall_cons in Ht as Hd. destruct Hd as [Hd _].
    destruct (schedSendEvent_ok cur q (dp_tick d) Hc Hw Hd) as (q' & E & E1 & E2 & E3 & E4 & E5).
    exists q'. split; [done|]. rewrite El in E1. split; [|by split_and!].
    constructor; rewrite ?E1, ?E2; try done. intros _. eexists. split; [exact E5|].
    destruct He as [->|(w & d0 & l0 & -> & Hcw & [= <- <-] & Hdw)]; lia.
Qed.

Definition may_send (cur : Z) (q : PacketQueue) (out : outcome) : Prop :=
  (accepted out = false -> reentered out = []) /\ Forall (may_enqueue cur) (reentered out) /\
  (length (transmitList q) + length (reentered out) <= 101)%nat.

(** Sending the first packet of a queue without event and without a retry to
    wait for. *)
Lemma send_ok cur q dp rest out :
  transmitList q = dp :: rest -> sorted (dp :: rest) -> Forall (fun d => dp_tick d < MaxTick) (dp :: rest) ->
  0 <= cur < MaxTick -> waitingOnRetry q = false -> sendEvent q = None -> dp_tick dp <= cur -> may_send cur q out ->
  exists q', sendDeferredPacket q cur out = Ret q' /\ queue_inv cur q' /\
    waitingOnRetry q' = negb (accepted out) /\
    (if accepted out
     then dp_pkt <$> transmitList q' ≡ₚ (dp_pkt <$> rest) ++ packets_of (reentered out)
     else transmitList q' = dp :: rest) /\
    (accepted out = true -> reentered out = [] -> transmitList q' = rest /\
       if is_nil rest && drainManager q
       then drainManager q' = false /\ drainDone q' = S (drainDone q)
       else drainManager q' = drainManager q /\ drainDone q' = drainDone q).
Proof.
  intros El Hs Ht Hc Hw He Hr (Ha & Hm & Hn). unfold sendDeferredPacket, deferredPacketReady.
  rewrite Hw, El, (cassert_true (dp_tick dp <=? cur)) by lia. cbn [negb cassert]. bsimpl.
  assert (Hq0 : sending_inv cur (with_list q rest)).
  { apply StronglySorted_inv in Hs as [Hs _]. apply Forall_cons in Ht as [_ Ht]. constructor; cbn; try done. by left. }
  destruct (accepted out) eqn:Eacc; cbn [negb].
  - rewrite El in Hn. destruct (reenter_ok cur (reentered out) (with_list q rest) Hq0 Hm) as (q1 & E1 & Hq1 & Hp & Ed & Ed').
    { cbn in *. lia. }
    rewrite E1. bsimpl. cbn [waitingOnRetry with_waiting negb].
    assert (Hq2 : sending_inv cur (with_waiting q1 false)) by (destruct Hq1; by constructor).
    destruct (finish_send cur _ Hq2) as (q' & E2 & Hq' & El' & Hw' & Hdr).
    exists q'. split; [done|]. split_and!; try done; [by rewrite El'|].
    intros _ Hre. rewrite Hre in E1. cbn in E1. injection E1 as <-. done.
  - rewrite (Ha eq_refl). bsimpl. cbn [waitingOnRetry with_waiting negb].
    eexists. split; [done|]. split_and!; try done. constructor; cbn; try done. intros _. eauto.
Qed.

(** ** A queue in operation *)

(** The current tick, the queue, the packets put into it and those the receiver
    accepted, in order. *)
Record qsystem := mkQsystem {
  qs_now : Z;
  qs_queue : PacketQueue;
  qs_put : list Packet;
  qs_sent : list Packet
}.

Inductive qop :=
  | QPut (p : Packet) (when : Z) (force_order : bool)
  | QFire (out : outcome)
  | QRetry (out : outcome)
  | QAdvance (t : Z).

Definition first_sent (q : PacketQueue) (out : outcome) : list Packet :=
  if accepted out then dp_pkt <$> take 1 (transmitList q) else [].

Definition q_run (o : qop) (s : qsystem) : res qsystem :=
  let '(mkQsystem now q i sent) := s in
  match o with
  | QPut p when fo =>
      q' ← schedSendTiming q now p when fo;
      Ret (mkQsystem now q' (i ++ [p]) sent)
  | QFire out =>
      q' ← processSendEvent q now out;
      Ret (mkQsystem now q' (i ++ packets_of (reentered out)) (sent ++ first_sent q out))
  | QRetry out =>
      q' ← retry q now out;
      Ret (mkQsystem now q' (i ++ packets_of (reentered out)) (sent ++ first_sent q out))
  | QAdvance t => Ret (mkQsystem t q i sent)
  end.

(** Packets are queued for the future and fewer than a hundred at a time; the
    event fires at its tick, and time does not pass it; a retry comes when one is
    awaited; a receiver that refuses a packet queues none. *)
Definition q_enabled (o : qop) (s : qsystem) : Prop :=
  let q := qs_queue s in
  match o with
  | QPut p when fo => may_enqueue (qs_now s) (p, when, fo) /\ (length (transmitList q) <= 100)%nat
  | QFire out => sendEvent q = Some (qs_now s) /\ may_send (qs_now s) q out
  | QRetry out => waitingOnRetry q = true /\ may_send (qs_now s) q out
  | QAdvance t => qs_now s <= t < MaxTick /\ (forall w, sendEvent q = Some w -> t <= w)
  end.

Inductive q_reach : qsystem -> Prop :=
  | q_reach_init : q_reach (mkQsystem 0 PacketQueue_new [] [])
  | q_reach_step o s s' : q_reach s -> q_enabled o s -> q_run o s = Ret s' -> q_reach s'.

Definition qs_inv (s : qsystem) : Prop :=
  queue_inv (qs_now s) (qs_queue s) /\
  qs_sent s ++ (dp_pkt <$> transmitList (qs_queue s)) ≡ₚ qs_put s.

(** Putting a packet into a queue that waits for a retry never disturbs its
    first packet. *)
Lemma put_ok s p when fo :
  qs_inv s -> q_enabled (QPut p when fo) s -> exists s', q_run (QPut p when fo) s = Ret s' /\ qs_inv s' /\
    transmitList (qs_queue s') =
      insert_middle (mkDeferred (actual_tick (transmitList (qs_queue s)) when fo) p) (transmitList (qs_queue s)).
Proof.
  destruct s as [now q i sent]. intros [Hq Hp] [He Hl]. cbn in *. unfold qs_inv. cbn [qs_now qs_queue qs_put qs_sent].
  assert (Hperm : forall d, dp_pkt d = p -> sent ++ (dp_pkt <$> insert_middle d (transmitList q)) ≡ₚ i ++ [p]).
  { intros d Ed. rewrite insert_perm. cbn. rewrite Ed, <- Hp. by rewrite <- Permutation_middle, (Permutation_app_comm _ [p]). }
  destruct (waitingOnRetry q) eqn:Hw.
  - destruct Hq as [Hs Ht Hc Hwt _]. destruct (Hwt Hw) as (En & d & l & El & Hd). destruct He as [Hx Hwh]. cbn in Hx, Hwh.
    rewrite schedSendTiming_eq by (done || lia). rewrite El in *.
    pose proof (actual_tick_ge (d :: l) when fo). pose proof (actual_tick_lt (d :: l) when fo ltac:(lia) Ht).
    rewrite (proj2 (Z.ltb_ge _ _)) by (cbn [dp_tick]; lia). bsimpl. eexists. split; [done|].
    cbn [qs_now qs_queue qs_put qs_sent transmitList with_list]. split_and!; [|by apply Hperm|done].
    constructor; cbn [transmitList waitingOnRetry sendEvent with_list]; try done.
    + by apply insert_sorted.
    + by apply Forall_insert.
    + intros _. split; [done|]. cbn [insert_middle]. rewrite (proj2 (Z.leb_le _ _)) by (cbn [dp_tick]; lia). eauto.
    + by rewrite Hw.
  - apply (idle_inv now q Hw) in Hq as (Hq & Hti & Har).
    destruct (sending_enqueue now q p when fo Hq He Hl) as (q' & E & Hq' & El & _ & _ & Hti' & Har').
    rewrite E. bsimpl. eexists. split; [done|]. cbn [qs_now qs_queue qs_put qs_sent]. rewrite El.
    split_and!; [|by apply Hperm|done]. apply idle_inv; [apply Hq'|]. auto.
Qed.

(** The packet that is sent leaves the queue. *)
Lemma sent_perm (sent i rest x : list Packet) p :
  sent ++ p :: rest ≡ₚ i -> (sent ++ [p]) ++ rest ++ x ≡ₚ i ++ x.
Proof. intros <-. by rewrite <- !app_assoc. Qed.

Lemma fire_ok s out :
  qs_inv s -> q_enabled (QFire out) s -> exists s', q_run (QFire out) s = Ret s' /\ qs_inv s'.
Proof.
  destruct s as [now q i sent]. intros [Hq Hp] [He Hm]. cbn in *. unfold processSendEvent.
  cbn [waitingOnRetry with_event].
  destruct (waitingOnRetry q) eqn:Hw; [destruct (qi_waiting _ _ Hq Hw); congruence|]. cbn [negb cassert]. bsimpl.
  pose proof (qi_event _ _ Hq Hw) as Hev. destruct (transmitList q) as [|d l] eqn:El; [congruence|].
  destruct Hev as (w & Ew & H1 & H2). assert (w = now) as -> by congruence.
  pose proof (qi_sorted _ _ Hq) as Hs. pose proof (qi_ticks _ _ Hq) as Ht. rewrite El in Hs, Ht.
  destruct (send_ok now (with_event q None) d l out) as (q' & E & Hq' & _ & Hl & _); try done; [apply Hq|].
  rewrite E. bsimpl. eexists. split; [done|]. split; [done|]. cbn [qs_queue qs_put qs_sent].
  unfold first_sent. rewrite El. destruct Hm as (Ha & _). destruct (accepted out).
  - cbn. rewrite Hl. by apply sent_perm.
  - rewrite Hl, (Ha eq_refl). cbn. by rewrite !app_nil_r.
Qed.

Lemma retry_ok s out :
  qs_inv s -> q_enabled (QRetry out) s -> exists s', q_run (QRetry out) s = Ret s' /\ qs_inv s'.
Proof.
  destruct s as [now q i sent]. intros [Hq Hp] [Hw Hm]. cbn in *. unfold retry. rewrite Hw. cbn [cassert]. bsimpl.
  destruct (qi_waiting _ _ Hq Hw) as (En & d & l & El & Hd). rewrite El in Hp.
  pose proof (qi_sorted _ _ Hq) as Hs. pose proof (qi_ticks _ _ Hq) as Ht. rewrite El in Hs, Ht.
  destruct (send_ok now (with_waiting q false) d l out) as (q' & E & Hq' & _ & Hl & _); try done; [apply Hq|].
  rewrite E. bsimpl. eexists. split; [done|]. split; [done|]. cbn [qs_queue qs_put qs_sent].
  unfold first_sent. rewrite El. destruct Hm as (Ha & _). destruct (accepted out).
  - cbn. rewrite Hl. by apply sent_perm.
  - rewrite Hl, (Ha eq_refl). cbn. by rewrite !app_nil_r.
Qed.

Lemma advance_ok s t :
  qs_inv s -> q_enabled (QAdvance t) s -> exists s', q_run (QAdvance t) s = Ret s' /\ qs_inv s'.
Proof.
  destruct s as [now q i sent]. intros [[Hs Ht Hc Hwt Hev] Hp] [Ht1 Ht2]. cbn in *. eexists. split; [done|].
  split; [|done]. constructor; cbn; try done; [lia| |].
  - intros Hw. destruct (Hwt Hw) as (En & d & l & El & Hd). split; [done|]. exists d, l. split; [done|lia].
  - intros Hw. specialize (Hev Hw). destruct (transmitList q) as [|d l]; [done|].
    destruct Hev as (w & Ew & H1 & H2). exists w. pose proof (Ht2 w Ew). split_and!; try done; lia.
Qed.

Lemma q_step_ok o s : qs_inv s -> q_enabled o s -> exists s', q_run o s = Ret s' /\ qs_inv s'.
Proof.
  intros Hs He. destruct o as [p when fo|out|out|t].
  - destruct (put_ok s p when fo Hs He) as (s' & ? & ? & _). by exists s'.
  - by apply fire_ok.
  - by apply retry_ok.
  - by apply advance_ok.
Qed.

Lemma q_reach_inv s : q_reach s -> qs_inv s.
Proof.
  induction 1 as [|o s s' _ IH He E].
  - split; [|done]. constructor; cbn; try done. constructor.
  - destruct (q_step_ok o s IH He) as (s1 & E1 & H1). rewrite E1 in E. by injection E as <-.
Qed.

(** Forced order is arrival order. *)
Lemma forced_back l when p :
  sorted l -> insert_middle (mkDeferred (actual_tick l when true) p) l = l ++ [mkDeferred (actual_tick l when true) p].
Proof.
  intros Hs. apply insert_back. intros x Hx. cbn [dp_tick]. unfold actual_tick.
  destruct l as [|y l]; [by apply not_elem_of_nil in Hx|]. pose proof (back_tick_max y l x Hs Hx). cbn [andb].
  case_match; [done|]. reflect. lia.
Qed.

(** C18. A packet queue keeps its packets in order and never stalls.  In every
    reachable state the packets are ordered by tick, every packet put into the
    queue is either waiting in it or was sent, once; a queue that waits for a
    retry has a packet that is ready; any other queue with packets has its send
    event scheduled, not before its first packet is ready and no later than that
    or the next tick; a new packet goes behind all that are ready no later, with
    forced order behind all; and no enabled step trips an assertion. *)
Theorem queue_never_stalls s :
  q_reach s ->
  let q := qs_queue s in
  sorted (transmitList q) /\
  qs_sent s ++ (dp_pkt <$> transmitList q) ≡ₚ qs_put s /\
  (waitingOnRetry q = true ->
   sendEvent q = None /\ exists d l, transmitList q = d :: l /\ dp_tick d <= qs_now s) /\
  (waitingOnRetry q = false ->
   match transmitList q with
   | [] => sendEvent q = None
   | d :: _ => exists w, sendEvent q = Some w /\ dp_tick d <= w /\
       qs_now s <= w <= Z.max (dp_tick d) (qs_now s + 1)
   end) /\
  (forall p when fo, q_enabled (QPut p when fo) s ->
     exists s', q_run (QPut p when fo) s = Ret s' /\
       let d := mkDeferred (actual_tick (transmitList q) when fo) p in
       transmitList (qs_queue s') = insert_middle d (transmitList q) /\
       (fo = true -> transmitList (qs_queue s') = transmitList q ++ [d])) /\
  (forall o, q_enabled o s -> exists s', q_run o s = Ret s').
Proof.
  intros Hs%q_reach_inv q. destruct Hs as [Hq Hp]. split_and!; try apply Hq.
  - done.
  - intros p when fo He. destruct (put_ok s p when fo (conj Hq Hp) He) as (s' & E & _ & El). exists s'.
    split; [done|]. split; [done|]. intros ->. rewrite El. apply forced_back, Hq.
  - intros o He. destruct (q_step_ok o s (conj Hq Hp) He) as (s' & E & _). by exists s'.
Qed.

Definition demo_pkt (a : Z) : Packet := Packet_new (mkRequest 0 a 8 0 0 0 0) ReadReq.

Lemma queue_never_stalls_witness :
  exists s, q_run (QPut (demo_pkt 64) 10 false) (mkQsystem 0 PacketQueue_new [] []) = Ret s /\
    exists w, sendEvent (qs_queue s) = Some w /\ 10 <= w.
Proof.
  eexists. split; [vm_compute; reflexivity|]. edestruct queue_never_stalls as (_ & _ & _ & He & _).
  - eapply q_reach_step with (o := QPut (demo_pkt 64) 10 false); [apply q_reach_init| |vm_compute; reflexivity].
    split; [|cbn; lia]. split; [reflexivity|]. cbn. unfold MaxTick. lia.
  - destruct (He eq_refl) as (w & E & H1 & _). exists w. split; [exact E|exact H1].
Defined.

(** ** Draining *)

(** The send event fires [n] times, at its tick, and the receiver accepts. *)
Fixpoint serve (n : nat) (s : qsystem) : res qsystem :=
  match n with
  | O => Ret s
  | S n =>
      match sendEvent (qs_queue s) with
      | None => Ret s
      | Some w =>
          s ← q_run (QAdvance w) s;
          s ← q_run (QFire (mkOutcome true [])) s;
          serve n s
      end
  end.

Lemma serve_ok n : forall s,
  qs_inv s -> waitingOnRetry (qs_queue s) = false -> length (transmitList (qs_queue s)) = n -> (n <= 101)%nat ->
  qs_now s + Z.of_nat n < MaxTick ->
  (forall d, d ∈ transmitList (qs_queue s) -> dp_tick d + Z.of_nat n < MaxTick) ->
  exists s', serve n s = Ret s' /\ qs_inv s' /\ transmitList (qs_queue s') = [] /\
    waitingOnRetry (qs_queue s') = false /\ sendEvent (qs_queue s') = None /\
    qs_sent s' = qs_sent s ++ (dp_pkt <$> transmitList (qs_queue s)) /\
    drainDone (qs_queue s') =
      (drainDone (qs_queue s) + (if drainManager (qs_queue s) && (0 <? n)%nat then 1 else 0))%nat.
Proof.
  induction n as [|n IH]; intros s Hs Hw Hl Hn Hnow Htk.
  - pose proof (qi_event _ _ (proj1 Hs) Hw) as He.
    destruct (transmitList (qs_queue s)) as [|d l] eqn:El; [|done]. exists s. cbn [serve].
    rewrite El. cbn [fmap list_fmap]. rewrite app_nil_r, andb_false_r, Nat.add_0_r. split_and!; try done.
  - assert (Hq := Hs). destruct Hq as [Hq Hp]. pose proof (qi_event _ _ Hq Hw) as He.
    pose proof (qi_now _ _ Hq) as Hnow0.
    destruct (transmitList (qs_queue s)) as [|d l] eqn:El; [done|]. destruct He as (w & Ew & H1 & H2).
    cbn [serve]. rewrite Ew. cbn in Hl. injection Hl as Hl.
    pose proof (Htk d (list_elem_of_here _ _)) as Hd.
    destruct (advance_ok s w Hs) as (s1 & E1 & Hs1); [split; [lia|intros w' Ew'; assert (w' = w) by congruence; lia]|].
    rewrite E1. bsimpl. destruct s as [now q i sent]. cbn in E1. injection E1 as <-.
    cbn [qs_queue qs_now qs_sent qs_put] in *. unfold q_run, processSendEvent. cbn [waitingOnRetry with_event].
    rewrite Hw. cbn [negb cassert]. bsimpl.
    pose proof (qi_sorted _ _ Hq) as Hso. pose proof (qi_ticks _ _ Hq) as Hti. rewrite El in Hso, Hti.
    destruct (send_ok w (with_event q None) d l (mkOutcome true [])) as (q' & E & Hq' & Hw' & Hl' & Hdr); try done.
    { lia. }
    { split_and!; try done. cbn. rewrite El. cbn. lia. }
    rewrite E. bsimpl. destruct (Hdr eq_refl eq_refl) as [El' Hdd]. cbn [accepted] in *.
    destruct (IH (mkQsystem w q' (i ++ packets_of []) (sent ++ first_sent q (mkOutcome true []))))
      as (s' & Es & Hs' & A1 & A2 & A3 & A4 & A5); cbn [qs_queue qs_now qs_sent qs_put].
    + split; [done|]. cbn [qs_queue qs_put qs_sent]. unfold first_sent. rewrite El, El'. cbn.
      rewrite <- Hp, app_nil_r, <- app_assoc. done.
    + done.
    + by rewrite El'.
    + lia.
    + lia.
    + rewrite El'. intros x Hx. pose proof (Htk x (list_elem_of_further _ _ _ Hx)). lia.
    + cbn [reentered]. rewrite Es. exists s'. split_and!; try done.
      * rewrite A4. cbn [qs_sent]. unfold first_sent. rewrite El. cbn. rewrite El', <- app_assoc. done.
      * rewrite A5. cbn [qs_queue]. cbn [drainManager drainDone with_event] in Hdd.
        destruct (drainManager q), l as [|y l]; cbn in Hdd, Hl; destruct Hdd as [-> ->]; subst n; cbn; lia.
Qed.

(** A queue drains: from every reachable state that does not wait for a
    retry, if the receiver accepts, the send event fires once for each packet,
    the packets are sent in the order of the queue, the queue ends empty without
    an event, and a drain manager that waits is told so exactly once. *)
Theorem queue_drains s :
  q_reach s -> waitingOnRetry (qs_queue s) = false ->
  let n := length (transmitList (qs_queue s)) in
  (n <= 101)%nat -> qs_now s + Z.of_nat n < MaxTick ->
  (forall d, d ∈ transmitList (qs_queue s) -> dp_tick d + Z.of_nat n < MaxTick) ->
  exists s', serve n s = Ret s' /\ transmitList (qs_queue s') = [] /\ sendEvent (qs_queue s') = None /\
    qs_sent s' = qs_sent s ++ (dp_pkt <$> transmitList (qs_queue s)) /\
    drainDone (qs_queue s') =
      (drainDone (qs_queue s) + (if drainManager (qs_queue s) && (0 <? n)%nat then 1 else 0))%nat.
Proof.
  intros Hr%q_reach_inv Hw n Hn Hnow Ht.
  destruct (serve_ok n s Hr Hw eq_refl Hn Hnow Ht) as (s' & E & _ & A1 & _ & A3 & A4 & A5). by exists s'.
Qed.

Definition demo_two : qsystem :=
  mkQsystem 0 (mkPacketQueue [mkDeferred 5 (demo_pkt 128); mkDeferred 10 (demo_pkt 64)] (Some 5) false 0 false)
    [demo_pkt 64; demo_pkt 128] [].

Lemma demo_two_reach : q_reach demo_two.
Proof.
  eapply q_reach_step with (o := QPut (demo_pkt 128) 5 false).
  - eapply q_reach_step with (o := QPut (demo_pkt 64) 10 false); [apply q_reach_init| |vm_compute; reflexivity].
    split; [|cbn; lia]. split; [reflexivity|]. cbn. unfold MaxTick. lia.
  - split; [|cbn; lia]. split; [reflexivity|]. cbn. unfold MaxTick. lia.
  - vm_compute. reflexivity.
Qed.

Lemma queue_drains_witness :
  exists s', serve 2 demo_two = Ret s' /\ qs_sent s' = [demo_pkt 128; demo_pkt 64].
Proof.
  destruct (queue_drains demo_two demo_two_reach) as (s' & E & _ & _ & Hs & _).
  - reflexivity.
  - cbn. lia.
  - cbn. unfold MaxTick. lia.
  - intros d Hd. cbn in *. unfold MaxTick. repeat (apply elem_of_cons in Hd as [->|Hd]; [cbn; lia|]).
    by apply not_elem_of_nil in Hd.
  - exists s'. split; [exact E|exact Hs].
Defined.

(** The assertion that a fired event finds no retry pending relies on receivers
    that queue nothing when they refuse a packet: one that does makes the event
    fire into the pending retry. *)
Lemma refusal_must_not_enqueue :
  (s ← q_run (QAdvance 5) demo_two;
   s ← q_run (QFire (mkOutcome false [(demo_pkt 192, 5, false)])) s;
   s ← q_run (QAdvance 6) s;
   q_run (QFire (mkOutcome true [])) s) = Err AssertFailed.
Proof. vm_compute. reflexivity. Qed.
