(* ===== verification/XBar.v ===== *)
(** * Crossbars: [mem/xbar.hh], [mem/xbar.cc]

    The first part is the layer of a crossbar, the state machine that lets one
    source port at a time use a destination: it is idle, busy until its release
    event, or (within one call) retrying; a refused or failed port waits until it
    is told to retry.  Ports are numbers; what a port does when it is told to
    retry is an argument.  The second part routes addresses to ports, through a
    cache of three ranges in front of the range map. *)

From stdpp Require Import gmap.
From S2P Require Import Prelude IntMath AddrRange.
Local Open Scope Z_scope.

(** ** Layers *)

Inductive State := IDLE | BUSY | RETRY.

#[export] Instance State_eq_dec : EqDecision State.
Proof. solve_decision. Defined.

Record Layer := mkLayer {
  state : State;
  layerDrain : bool;                  (* a drain manager waits for this layer *)
  layerDrained : nat;                 (* how often it was told that draining is done *)
  waitingForLayer : list nat;
  waitingForPeer : option nat;
  releaseEvent : option Z;
  occupancy : Z
}.

Definition Layer_new : Layer := mkLayer IDLE false 0 [] None None 0.

Definition with_state (l : Layer) (s : State) : Layer :=
  mkLayer s (layerDrain l) (layerDrained l) (waitingForLayer l) (waitingForPeer l) (releaseEvent l) (occupancy l).
Definition with_queue (l : Layer) (q : list nat) : Layer :=
  mkLayer (state l) (layerDrain l) (layerDrained l) q (waitingForPeer l) (releaseEvent l) (occupancy l).
Definition with_peer (l : Layer) (p : option nat) : Layer :=
  mkLayer (state l) (layerDrain l) (layerDrained l) (waitingForLayer l) p (releaseEvent l) (occupancy l).

Definition is_none {A} (x : option A) : bool :=
  match x with
  | None => true
  | Some _ => false
  end.

Definition is_state (l : Layer) (s : State) : bool := bool_decide (state l = s).

(** The release event is scheduled with the assertions of the event queue. *)
Definition occupyLayer (l : Layer) (curTick until : Z) : res Layer :=
  _ ← cassert (is_state l BUSY);
  _ ← cassert (negb (until =? 0));
  _ ← cassert (curTick <=? until);
  _ ← cassert (is_none (releaseEvent l));
  Ret (mkLayer (state l) (layerDrain l) (layerDrained l) (waitingForLayer l) (waitingForPeer l)
         (Some until) (occupancy l + (until - curTick))).

Definition tryTiming (l : Layer) (src_port : nat) : res (bool * Layer) :=
  if is_state l BUSY || negb (is_none (waitingForPeer l)) then
    _ ← cassert (bool_decide (src_port ∉ waitingForLayer l));
    Ret (false, with_queue l (waitingForLayer l ++ [src_port]))
  else Ret (true, with_state l BUSY).

Definition succeededTiming (l : Layer) (curTick busy_time : Z) : res Layer :=
  _ ← cassert (is_state l BUSY);
  occupyLayer l curTick busy_time.

Definition failedTiming (l : Layer) (src_port : nat) (curTick busy_time : Z) : res Layer :=
  _ ← cassert (is_none (waitingForPeer l));
  let l := with_peer l (Some src_port) in
  _ ← cassert (is_state l BUSY);
  occupyLayer l curTick busy_time.

(** What a source port does with a packet of its own: it tries the layer, and if
    it gets it, the packet is forwarded or refused by the peer. *)
Definition use_layer (l : Layer) (src_port : nat) (curTick busy_time : Z) (forwarded : bool)
    : res (bool * Layer) :=
  '(ok, l) ← tryTiming l src_port;
  if (ok : bool) then
    l ← (if forwarded then succeededTiming l curTick busy_time else failedTiming l src_port curTick busy_time);
    Ret (true, l)
  else Ret (false, l).

(** What a port does when it is told to retry: nothing, or it uses the layer at
    once. *)
Inductive reaction := NoCall | Calls (busy_time : Z) (forwarded : bool).

(** The port told to retry, and the layer afterwards; [clockEdge] is the next
    clock edge of the crossbar. *)
Definition retryWaiting (l : Layer) (curTick clockEdge : Z) (r : reaction) : res (nat * Layer) :=
  match waitingForLayer l with
  | [] => Err AssertFailed
  | retryingPort :: q =>
      _ ← cassert (is_state l IDLE);
      let l := with_queue (with_state l RETRY) q in
      l ← match r with
          | NoCall => Ret l
          | Calls busy_time forwarded =>
              '(_, l) ← use_layer l retryingPort curTick busy_time forwarded;
              Ret l
          end;
      l ← (if is_state l RETRY then occupyLayer (with_state l BUSY) curTick clockEdge else Ret l);
      Ret (retryingPort, l)
  end.

(** The release event has left the event queue when it is processed. *)
Definition releaseLayer (l : Layer) (curTick clockEdge : Z) (r : reaction) : res (option nat * Layer) :=
  let l := mkLayer (state l) (layerDrain l) (layerDrained l) (waitingForLayer l) (waitingForPeer l) None
             (occupancy l) in
  _ ← cassert (is_state l BUSY);
  _ ← cassert (is_none (releaseEvent l));
  let l := with_state l IDLE in
  if negb (is_nil (waitingForLayer l)) then
    if is_none (waitingForPeer l) then
      '(p, l) ← retryWaiting l curTick clockEdge r;
      Ret (Some p, l)
    else Ret (None, l)
  else if is_none (waitingForPeer l) && layerDrain l then
    Ret (None, mkLayer (state l) false (S (layerDrained l)) (waitingForLayer l) (waitingForPeer l)
                 (releaseEvent l) (occupancy l))
  else Ret (None, l).

Definition layer_recvRetry (l : Layer) (curTick clockEdge : Z) (r : reaction) : res (option nat * Layer) :=
  match waitingForPeer l with
  | None => Err AssertFailed
  | Some p =>
      let l := with_peer (with_queue l (p :: waitingForLayer l)) None in
      if is_state l IDLE then
        '(p, l) ← retryWaiting l curTick clockEdge r;
        Ret (Some p, l)
      else
        _ ← cassert (is_state l BUSY);
        Ret (None, l)
  end.

Definition layer_drain (l : Layer) : Z * Layer :=
  if negb (is_state l IDLE)
  then (1, mkLayer (state l) true (layerDrained l) (waitingForLayer l) (waitingForPeer l) (releaseEvent l)
             (occupancy l))
  else (0, l).

(** ** Routing *)

Definition InvalidPortID : Z := -1.

Record PortCache := mkPortCache { pc_valid : bool; pc_id : Z; pc_range : AddrRange }.

Record XBar := mkXBar {
  portMap : list (AddrRange * Z);
  portCache0 : PortCache;
  portCache1 : PortCache;
  portCache2 : PortCache;
  xbarRanges : list AddrRange;
  defaultRange : AddrRange;
  gotAddrRanges : list bool;
  gotAllAddrRanges : bool;
  defaultPortID : Z;
  useDefaultRange : bool
}.

Definition with_map (x : XBar) (m : list (AddrRange * Z)) : XBar :=
  mkXBar m (portCache0 x) (portCache1 x) (portCache2 x) (xbarRanges x) (defaultRange x) (gotAddrRanges x)
    (gotAllAddrRanges x) (defaultPortID x) (useDefaultRange x).

Definition pc_hit (c : PortCache) (addr : Z) : bool := pc_valid c && contains (pc_range c) addr.

Definition checkPortCache (x : XBar) (addr : Z) : Z :=
  if pc_hit (portCache0 x) addr then pc_id (portCache0 x)
  else if pc_hit (portCache1 x) addr then pc_id (portCache1 x)
  else if pc_hit (portCache2 x) addr then pc_id (portCache2 x)
  else InvalidPortID.

Definition updatePortCache (x : XBar) (id : Z) (range : AddrRange) : XBar :=
  mkXBar (portMap x) (mkPortCache true id range) (portCache0 x) (portCache1 x) (xbarRanges x)
    (defaultRange x) (gotAddrRanges x) (gotAllAddrRanges x) (defaultPortID x) (useDefaultRange x).

Definition pc_clear (c : PortCache) : PortCache := mkPortCache false (pc_id c) (pc_range c).

Definition clearPortCache (x : XBar) : XBar :=
  mkXBar (portMap x) (pc_clear (portCache0 x)) (pc_clear (portCache1 x)) (pc_clear (portCache2 x))
    (xbarRanges x) (defaultRange x) (gotAddrRanges x) (gotAllAddrRanges x) (defaultPortID x)
    (useDefaultRange x).

Definition findPort (x : XBar) (addr : Z) : res (Z * XBar) :=
  _ ← cassert (gotAllAddrRanges x);
  let dest_id := checkPortCache x addr in
  if negb (dest_id =? InvalidPortID) then Ret (dest_id, x)
  else
    i ← RangeMap_find_addr (portMap x) addr;
    match i ≫= (fun i => portMap x !! i) with
    | Some (range, id) => Ret (id, updatePortCache x id range)
    | None =>
        if useDefaultRange x then
          if contains (defaultRange x) addr then Ret (defaultPortID x, x) else Err Fatal
        else if negb (defaultPortID x =? InvalidPortID) then Ret (defaultPortID x, x)
        else Err Fatal
    end.

(** The loop that inserts the ranges of a port. *)
Fixpoint insert_ranges (m : list (AddrRange * Z)) (ranges : list AddrRange) (id : Z)
    : res (list (AddrRange * Z)) :=
  match ranges with
  | [] => Ret m
  | r :: ranges =>
      '(m, it) ← RangeMap_insert m r id;
      match it with
      | None => Err Fatal
      | Some _ => insert_ranges m ranges id
      end
  end.

(** A range that is kept unless the default range covers it. *)
Definition keep_range (x : XBar) (out : list AddrRange) (r : AddrRange) : res (list AddrRange) :=
  covered ← (if useDefaultRange x then isSubset r (defaultRange x) else Ret false);
  Ret (if (covered : bool) then out else out ++ [r]).

Definition flush_intlv (x : XBar) (out intlv : list AddrRange) : res (list AddrRange) :=
  m ← AddrRange_merge intlv;
  keep_range x out m.

(** The loop that collects the ranges of the crossbar, merging the stripes of
    interleaved ranges. *)
Fixpoint collect_ranges (x : XBar) (m : list (AddrRange * Z)) (out intlv : list AddrRange)
    : res (list AddrRange) :=
  match m with
  | [] => if is_nil intlv then Ret out else flush_intlv x out intlv
  | (r, _) :: m =>
      if interleaved r then
        '(out, intlv) ← (if negb (is_nil intlv) && negb (mergesWith (List.last intlv AddrRange_default) r)
                         then out ← flush_intlv x out intlv; Ret (out, [])
                         else Ret (out, intlv));
        collect_ranges x m out (intlv ++ [r])
      else
        out ← keep_range x out r;
        collect_ranges x m out intlv
  end.

Fixpoint check_default (x : XBar) (l : list AddrRange) : res unit :=
  match l with
  | [] => Ret tt
  | r :: l =>
      i ← intersects r (defaultRange x);
      s ← (if (i : bool) then isSubset r (defaultRange x) else Ret true);
      if (s : bool) then check_default x l else Err Fatal
  end.

(** [recvRangeChange] for the ranges the neighbour of port [id] reports: whether
    the masters are told that the ranges of the crossbar changed, and the
    crossbar. *)
Definition with_default (x : XBar) (r : AddrRange) : XBar :=
  mkXBar (portMap x) (portCache0 x) (portCache1 x) (portCache2 x) (xbarRanges x) r (gotAddrRanges x)
    (gotAllAddrRanges x) (defaultPortID x) (useDefaultRange x).

Definition update_ranges (x : XBar) (id : Z) (ranges : list AddrRange) : res XBar :=
  if id =? defaultPortID x then
    if useDefaultRange x then
      match ranges with
      | [r] => Ret (with_default x r)
      | _ => Err Fatal
      end
    else Ret x
  else
    m ← insert_ranges (filter (fun e => e.2 <> id) (portMap x)) ranges id;
    Ret (with_map x m).

Definition aggregate_ranges (x : XBar) : res XBar :=
  out ← (if useDefaultRange x then
           got ← vread (gotAddrRanges x) (Z.to_nat (defaultPortID x));
           if (got : bool) then Ret [defaultRange x] else Err Fatal
         else Ret []);
  out ← collect_ranges x (portMap x) out [];
  _ ← (if useDefaultRange x then check_default x out else Ret tt);
  Ret (mkXBar (portMap x) (portCache0 x) (portCache1 x) (portCache2 x) out (defaultRange x) (gotAddrRanges x)
         (gotAllAddrRanges x) (defaultPortID x) (useDefaultRange x)).

Definition recvRangeChange (x : XBar) (id : Z) (ranges : list AddrRange) : res (bool * XBar) :=
  got ← vwrite (gotAddrRanges x) (Z.to_nat id) true;
  let all := gotAllAddrRanges x || forallb (fun b => b) got in
  let x := mkXBar (portMap x) (portCache0 x) (portCache1 x) (portCache2 x) (xbarRanges x) (defaultRange x) got
             all (defaultPortID x) (useDefaultRange x) in
  x ← update_ranges x id ranges;
  x ← (if all then aggregate_ranges x else Ret x);
  Ret (all, clearPortCache x).

(** ** Runs of a layer

    The ports a layer has turned away, and has not told to retry since, are
    recorded beside it. *)
Record Sys := mkSys { now : Z; layer : Layer; blocked : gset nat }.

Inductive Ev :=
  | Advance (t : Z)
  | Send (p : nat) (busy_time : Z) (forwarded : bool)
  | Release (clockEdge : Z) (r : reaction)
  | PeerRetry (clockEdge : Z) (r : reaction)
  | Drain.

(** A busy time is a tick after the start of the simulation and not in the past. *)
Definition future (now t : Z) : Prop := 0 < t /\ now <= t.

Definition reaction_ok (now : Z) (r : reaction) : Prop :=
  match r with
  | NoCall => True
  | Calls t _ => future now t
  end.

(** When the environment may do what: time does not pass the release event, a
    port that was turned away keeps quiet until it is told to retry, a peer that
    refused a packet sends one retry. *)
Definition enabled (s : Sys) (e : Ev) : Prop :=
  match e with
  | Advance t => now s <= t /\ forall u, releaseEvent (layer s) = Some u -> t <= u
  | Send p t _ => p ∉ blocked s /\ future (now s) t
  | Release ce r => releaseEvent (layer s) = Some (now s) /\ future (now s) ce /\ reaction_ok (now s) r
  | PeerRetry ce r => waitingForPeer (layer s) <> None /\ future (now s) ce /\ reaction_ok (now s) r
  | Drain => True
  end.

(** A port told to retry is blocked again if its packet is refused once more. *)
Definition after_retry (b : gset nat) (p : option nat) (r : reaction) : gset nat :=
  match p, r with
  | Some p, Calls _ false => b
  | Some p, _ => b ∖ {[p]}
  | None, _ => b
  end.

Definition step (s : Sys) (e : Ev) : res Sys :=
  match e with
  | Advance t => Ret (mkSys t (layer s) (blocked s))
  | Send p t fwd =>
      '(ok, l) ← use_layer (layer s) p (now s) t fwd;
      Ret (mkSys (now s) l (if (ok : bool) && fwd then blocked s else {[p]} ∪ blocked s))
  | Release ce r =>
      '(p, l) ← releaseLayer (layer s) (now s) ce r;
      Ret (mkSys (now s) l (after_retry (blocked s) p r))
  | PeerRetry ce r =>
      '(p, l) ← layer_recvRetry (layer s) (now s) ce r;
      Ret (mkSys (now s) l (after_retry (blocked s) p r))
  | Drain => Ret (mkSys (now s) (layer_drain (layer s)).2 (blocked s))
  end.

Inductive reachable : Sys -> Prop :=
  | reach_new t : reachable (mkSys t Layer_new ∅)
  | reach_step s e s' : reachable s -> enabled s e -> step s e = Ret s' -> reachable s'.

(** The ports that wait, for the peer or for the layer. *)
Definition waiting (l : Layer) : list nat := option_list (waitingForPeer l) ++ waitingForLayer l.

Record layer_inv (s : Sys) : Prop := {
  li_state : match state (layer s) with
             | IDLE => releaseEvent (layer s) = None /\
                       (waitingForLayer (layer s) = [] \/ waitingForPeer (layer s) <> None)
             | BUSY => exists t, releaseEvent (layer s) = Some t /\ future (now s) t
             | RETRY => False
             end;
  li_nodup : NoDup (waiting (layer s));
  li_blocked : forall p, p ∈ blocked s <-> p ∈ waiting (layer s)
}.

(** *** The branches of the operations *)

Lemma occupyLayer_eq dr dn q pr oc now t :
  future now t ->
  occupyLayer (mkLayer BUSY dr dn q pr None oc) now t = Ret (mkLayer BUSY dr dn q pr (Some t) (oc + (t - now))).
Proof.
  intros [? ?]. unfold occupyLayer, is_state; cbn [state releaseEvent].
  rewrite bool_decide_true by done. rewrite !cassert_true by (reflect; lia || done). reflexivity.
Qed.

Lemma use_layer_free st dr dn q oc p now t fwd :
  st <> BUSY -> future now t ->
  use_layer (mkLayer st dr dn q None None oc) p now t fwd
  = Ret (true, mkLayer BUSY dr dn q (if fwd then None else Some p) (Some t) (oc + (t - now))).
Proof.
  intros Hst Ht. unfold use_layer, tryTiming, is_state; cbn [state waitingForPeer].
  rewrite bool_decide_false by done. cbn.
  destruct fwd; unfold succeededTiming, failedTiming, with_state, with_peer, is_state; cbn;
    rewrite occupyLayer_eq by done; reflexivity.
Qed.

Lemma use_layer_taken l p now t fwd :
  state l = BUSY \/ waitingForPeer l <> None -> p ∉ waitingForLayer l ->
  use_layer l p now t fwd = Ret (false, with_queue l (waitingForLayer l ++ [p])).
Proof.
  intros Hl Hp. unfold use_layer, tryTiming, is_state.
  replace (bool_decide (state l = BUSY) || negb (is_none (waitingForPeer l))) with true.
  - rewrite cassert_true by (by apply bool_decide_true). reflexivity.
  - destruct Hl as [-> | H]; [by rewrite bool_decide_true|].
    destruct (waitingForPeer l); [by rewrite orb_true_r|done].
Qed.

#[local] Arguments occupyLayer : simpl never.
#[local] Arguments retryWaiting : simpl never.

(** The port that waits for the peer, and the end of the occupation, after a
    retry. *)
Definition retry_peer (p : nat) (r : reaction) : option nat :=
  match r with
  | Calls _ false => Some p
  | _ => None
  end.
Definition retry_until (ce : Z) (r : reaction) : Z :=
  match r with
  | NoCall => ce
  | Calls t _ => t
  end.

Lemma retryWaiting_eq dr dn p q oc now ce r :
  future now ce -> reaction_ok now r ->
  retryWaiting (mkLayer IDLE dr dn (p :: q) None None oc) now ce r
  = Ret (p, mkLayer BUSY dr dn q (retry_peer p r) (Some (retry_until ce r)) (oc + (retry_until ce r - now))).
Proof.
  intros Hce Hr. unfold retryWaiting; cbn. destruct r as [|t fwd]; cbn.
  - unfold with_state, with_queue; cbn. rewrite occupyLayer_eq by done. reflexivity.
  - unfold with_state, with_queue; cbn. rewrite use_layer_free by done. cbn. by destruct fwd.
Qed.

Lemma releaseLayer_eq dr dn q pr rel oc now ce r :
  future now ce -> reaction_ok now r ->
  releaseLayer (mkLayer BUSY dr dn q pr rel oc) now ce r
  = Ret match q, pr with
        | p :: q, None => (Some p, mkLayer BUSY dr dn q (retry_peer p r) (Some (retry_until ce r))
                                     (oc + (retry_until ce r - now)))
        | [], None => (None, mkLayer IDLE false (if dr then S dn else dn) [] None None oc)
        | _, _ => (None, mkLayer IDLE dr dn q pr None oc)
        end.
Proof.
  intros Hce Hr. unfold releaseLayer; cbn. destruct q as [|p q]; destruct pr as [w|]; cbn; [done| |done|].
  - by destruct dr.
  - unfold with_state; cbn. by rewrite retryWaiting_eq.
Qed.

Lemma layer_recvRetry_eq st dr dn q w rel oc now ce r :
  st <> RETRY -> (st = IDLE -> rel = None) -> future now ce -> reaction_ok now r ->
  layer_recvRetry (mkLayer st dr dn q (Some w) rel oc) now ce r
  = Ret match st with
        | IDLE => (Some w, mkLayer BUSY dr dn q (retry_peer w r) (Some (retry_until ce r))
                             (oc + (retry_until ce r - now)))
        | _ => (None, mkLayer st dr dn (w :: q) None rel oc)
        end.
Proof.
  intros Hst Hrel Hce Hr. unfold layer_recvRetry; cbn. destruct st; [|done|done].
  rewrite Hrel by done. unfold with_peer, with_queue; cbn. by rewrite retryWaiting_eq.
Qed.

Lemma retry_until_future now ce r : future now ce -> reaction_ok now r -> future now (retry_until ce r).
Proof. by destruct r. Qed.

(** Retrying the first port that waits keeps the invariant. *)
Lemma retry_inv now dr dn p q b oc ce r :
  future now ce -> reaction_ok now r -> NoDup (p :: q) -> (forall x, x ∈ b <-> x ∈ p :: q) ->
  layer_inv (mkSys now (mkLayer BUSY dr dn q (retry_peer p r) (Some (retry_until ce r)) oc)
               (after_retry b (Some p) r)).
Proof.
  intros Hce Hr Hnd Hb. pose proof (retry_until_future _ _ _ Hce Hr) as Hu.
  assert (Hgone : forall x, x ∈ b ∖ {[p]} <-> x ∈ q).
  { intros x. apply NoDup_cons in Hnd as [Hp _]. rewrite elem_of_difference, Hb, elem_of_singleton, elem_of_cons.
    naive_solver. }
  split; cbn; [by eauto|..]; unfold waiting; cbn; destruct r as [|t []]; cbn; try done.
  all: by apply NoDup_cons in Hnd as [_ ?].
Qed.

Lemma step_total_inv s e :
  layer_inv s -> enabled s e -> exists s', step s e = Ret s' /\ layer_inv s'.
Proof.
  destruct s as [n [st dr dn q pr rel oc] b]. intros [Hst Hnd Hb] He. cbn in Hst.
  unfold waiting in Hnd, Hb; cbn in Hnd, Hb. destruct e as [t|p t fwd|ce r|ce r|]; cbn in He.
  - eexists; split; [done|]. destruct He as [Hn Hu]. split; [|done..].
    cbn. destruct st; [done| |done]. destruct Hst as (u & -> & [? ?]). exists u. unfold future; cbn. naive_solver.
  - destruct He as [Hp Ht]. rewrite Hb, elem_of_app in Hp.
    assert (Hq : p ∉ q) by naive_solver.
    destruct (decide (st = BUSY \/ pr <> None)) as [Htk | Hfree].
    + unfold step. cbn [layer now]. rewrite use_layer_taken by done.
      eexists; split; [done|]. unfold with_queue; cbn. split; [|unfold waiting; cbn..].
      * cbn. destruct st; [|done|done]. destruct Hst as [-> Hor]. split; [done|]. right.
        destruct Htk; [done|naive_solver].
      * rewrite (assoc_L (++)). apply NoDup_app. split_and!; [done| |apply NoDup_singleton].
        intros x Hx. rewrite elem_of_app in Hx. set_solver.
      * intros x. rewrite elem_of_union, Hb. set_solver.
    + assert (st = IDLE) as -> by (destruct st; naive_solver). destruct pr; [naive_solver|].
      destruct Hst as [-> Hq']. assert (q = []) as -> by naive_solver.
      unfold step; cbn [layer now]. rewrite use_layer_free by done. cbn. eexists; split; [done|].
      split; [cbn; by eauto|unfold waiting; cbn..]; destruct fwd; cbn;
        solve [apply NoDup_nil_2 | apply NoDup_singleton | intros x; set_solver].
  - destruct He as (-> & Hce & Hr). destruct st; [naive_solver| |naive_solver].
    unfold step; cbn [layer now]. rewrite releaseLayer_eq by done. cbn.
    destruct q as [|p q], pr as [w|]; cbn; eexists; (split; [done|]).
    + split; cbn; [|done..]. naive_solver.
    + split; cbn; [|done..]. naive_solver.
    + split; cbn; [|done..]. naive_solver.
    + by apply retry_inv.
  - destruct He as (Hpr & Hce & Hr). destruct pr as [w|]; [|done].
    unfold step; cbn [layer now]. rewrite layer_recvRetry_eq; [|by destruct st|by intros ->; naive_solver|done..].
    destruct st; cbn; [| |done]; eexists; (split; [done|]).
    + by apply retry_inv.
    + split; cbn; [done|unfold waiting; cbn; done..].
  - eexists; split; [done|]. unfold step; cbn. unfold layer_drain, is_state; cbn.
    destruct st; cbn; split; done.
Qed.

Lemma reachable_inv s : reachable s -> layer_inv s.
Proof.
  induction 1 as [t|s e s' _ IH He Hs].
  - split; [cbn; naive_solver|apply NoDup_nil_2|]. intros p; unfold waiting; cbn; set_solver.
  - destruct (step_total_inv s e IH He) as (s'' & Hs'' & ?). rewrite Hs in Hs''. by injection Hs'' as <-.
Qed.

(** The layer protocol of a crossbar: in every state a layer can reach, by
    any interleaving of sends, releases, peer retries and drains, nothing the
    environment may do fails an assertion; the ports turned away and not yet told
    to retry are exactly those the layer remembers, each once; and while there is
    one, either the release event is scheduled, not in the past, or the peer owes
    the layer a retry: no port is forgotten. *)
Theorem layer_forgets_no_port s :
  reachable s ->
  (forall e, enabled s e -> exists s', step s e = Ret s') /\
  NoDup (waiting (layer s)) /\
  (forall p, p ∈ blocked s <-> p ∈ waiting (layer s)) /\
  (blocked s <> ∅ ->
   (exists t, releaseEvent (layer s) = Some t /\ now s <= t) \/ waitingForPeer (layer s) <> None).
Proof.
  intros Hs. apply reachable_inv in Hs as Hi. pose proof Hi as [Hst Hnd Hb]. split_and!; [|done|done|].
  - intros e He. destruct (step_total_inv s e Hi He) as (s' & ? & _). eauto.
  - intros Hne. apply set_choose_L in Hne as [p Hp]. rewrite Hb in Hp. unfold waiting in Hp.
    destruct (state (layer s)); [|left; destruct Hst as (t & ? & [? ?]); by eauto|done]. right. intros Hpeer.
    destruct Hst as [_ [Hq | ?]]; [|done].
    rewrite Hpeer, Hq in Hp. cbn in Hp. set_solver.
Qed.

Lemma layer_forgets_no_port_witness :
  exists s s', step (mkSys 10 Layer_new ∅) (Send 1 15 true) = Ret s /\ step s (Send 2 20 true) = Ret s' /\
    blocked s' = {[2%nat]} /\ (exists s'', step s' (Advance 15) = Ret s'').
Proof.
  eexists _, _. split; [reflexivity|]. split; [reflexivity|]. split; [set_solver|].
  assert (H : reachable (mkSys 10 (mkLayer BUSY false 0 [2%nat] None (Some 15) 5) ({[2%nat]} ∪ ∅))).
  { eapply (reach_step (mkSys 10 (mkLayer BUSY false 0 [] None (Some 15) 5) ∅) (Send 2 20 true)); [|split;
    [set_solver|unfold future; cbn; lia]|reflexivity].
    eapply (reach_step (mkSys 10 Layer_new ∅) (Send 1 15 true)); [constructor|split; [set_solver|unfold future; cbn;
      lia]|reflexivity]. }
  destruct (layer_forgets_no_port _ H) as [Ht _]. apply Ht.
  split; [cbn; lia|]. intros u [= <-]; lia.
Defined.

(** *** Service in order *)

(** The releases that follow one another when nothing else happens: time advances
    to the release event, which is processed; the result is the ports told to
    retry. *)
Fixpoint releases (s : Sys) (rs : list (Z * reaction)) : res (list (option nat) * Sys) :=
  match rs with
  | [] => Ret ([], s)
  | (d, r) :: rs =>
      match releaseEvent (layer s) with
      | None => Err AssertFailed
      | Some t =>
          let r := match r with NoCall => NoCall | Calls d fwd => Calls (t + d) fwd end in
          '(p, l) ← releaseLayer (layer s) t (t + d) r;
          '(ps, s) ← releases (mkSys t l (after_retry (blocked s) p r)) rs;
          Ret (p :: ps, s)
      end
  end.

(** Delays are positive and the peer refuses nothing. *)
Definition peer_accepts (x : Z * reaction) : Prop :=
  0 <= x.1 /\ match x.2 with NoCall => True | Calls d fwd => 0 <= d /\ fwd = true end.

Lemma releases_in_order rs : forall n dr dn q t oc b,
  0 < t -> n <= t -> NoDup q -> (forall p, p ∈ b <-> p ∈ q) -> length rs = S (length q) -> Forall peer_accepts rs ->
  exists s, releases (mkSys n (mkLayer BUSY dr dn q None (Some t) oc) b) rs = Ret (map Some q ++ [None], s) /\
    state (layer s) = IDLE /\ waiting (layer s) = [] /\ blocked s = ∅.
Proof.
  induction rs as [|[d r] rs IH]; intros n dr dn q t oc b Ht Hn Hnd Hb Hlen Hacc; [done|].
  apply Forall_cons in Hacc as [[Hd Hr] Hacc]. cbn in Hlen, Hd, Hr. cbn [releases layer releaseEvent].
  set (r' := match r with NoCall => NoCall | Calls d fwd => Calls (t + d) fwd end).
  assert (Hr' : reaction_ok t r') by (destruct r; cbn; unfold future; [done|]; lia).
  assert (Hce : future t (t + d)) by (unfold future; lia).
  rewrite releaseLayer_eq by done. destruct q as [|p q].
  - destruct rs; [|done]. cbn. eexists; split; [done|]. cbn. split_and!; [done..|].
    apply leibniz_equiv, elem_of_equiv_empty. intros x. rewrite Hb. set_solver.
  - assert (retry_peer p r' = None) as -> by (subst r'; destruct r as [|? []]; cbn in *; naive_solver).
    pose proof (retry_until_future _ _ _ Hce Hr') as Hu.
    edestruct (IH t dr dn q (retry_until (t + d) r') (oc + (retry_until (t + d) r' - t))
                (after_retry b (Some p) r')) as (s & Hs & Hrest);
                  [apply Hu|apply Hu|by apply NoDup_cons in Hnd as [_ ?]| |cbn in Hlen; lia|done|].
    + intros x. apply NoDup_cons in Hnd as [Hp _].
      assert (after_retry b (Some p) r' = b ∖ {[p]}) as -> by (subst r'; destruct r as [|? []]; cbn in *; naive_solver).
      rewrite elem_of_difference, Hb, elem_of_singleton, elem_of_cons. naive_solver.
    + exists s. split; [|done]. clearbody r'. cbn [mbind res_bind blocked] in *. cbn -[after_retry]. rewrite Hs.
      reflexivity.
Qed.

(** Liveness of the layer: from every reachable state in which the layer is
    busy and the peer owes it nothing, if the peer refuses nothing, the releases
    that follow tell every port that waits to retry, once each, in the order in
    which they were turned away; then the layer is idle and no port is blocked. *)
Theorem layer_serves_in_order s rs :
  reachable s -> state (layer s) = BUSY -> waitingForPeer (layer s) = None ->
  length rs = S (length (waitingForLayer (layer s))) -> Forall peer_accepts rs ->
  exists s', releases s rs = Ret (map Some (waitingForLayer (layer s)) ++ [None], s') /\
    state (layer s') = IDLE /\ waiting (layer s') = [] /\ blocked s' = ∅.
Proof.
  intros Hs Hst Hpr Hlen Hacc. apply reachable_inv in Hs as [Hi Hnd Hb]. rewrite Hst in Hi.
  destruct Hi as (t & Hrel & [? ?]). destruct s as [n [st dr dn q pr rel oc] b]. cbn in *. subst.
  by apply releases_in_order.
Qed.

Lemma layer_serves_in_order_witness :
  let s := mkSys 10 (mkLayer BUSY false 0 [2%nat] None (Some 15) 5) ({[2%nat]} ∪ ∅) in
  exists s', releases s [(1, Calls 3 true); (1, NoCall)] = Ret ([Some 2%nat; None], s') /\ blocked s' = ∅.
Proof.
  intros s.
  destruct (layer_serves_in_order s [(1, Calls 3 true); (1, NoCall)]) as (s' & H & _ & _ & Hb);
    [|reflexivity|reflexivity|reflexivity| |exists s'; split; [exact H|exact Hb]].
  - eapply (reach_step (mkSys 10 (mkLayer BUSY false 0 [] None (Some 15) 5) ∅) (Send 2 20 true));
      [|split; [set_solver|unfold future; cbn; lia]|reflexivity].
    eapply (reach_step (mkSys 10 Layer_new ∅) (Send 1 15 true));
      [constructor|split; [set_solver|unfold future; cbn; lia]|reflexivity].
  - repeat constructor; cbn; lia.
Defined.

(** A layer reports that it is drained while ports still wait: the peer refused a
    packet, a second port was turned away, and the layer became idle. *)
Lemma drained_with_ports_waiting :
  exists s, reachable s /\ (layer_drain (layer s)).1 = 0 /\ waiting (layer s) = [1%nat; 2%nat].
Proof.
  exists (mkSys 15 (mkLayer IDLE false 0 [2%nat] (Some 1%nat) None 5) ({[2%nat]} ∪ ({[1%nat]} ∪ ∅))).
  split; [|done].
  eapply (reach_step (mkSys 15 (mkLayer BUSY false 0 [2%nat] (Some 1%nat) (Some 15) 5) _) (Release 16 NoCall));
    [|cbn; unfold future; split_and!; (done || lia)|reflexivity].
  eapply (reach_step (mkSys 10 (mkLayer BUSY false 0 [2%nat] (Some 1%nat) (Some 15) 5) _) (Advance 15));
    [|split; [cbn; lia|intros u [= <-]; lia]|reflexivity].
  eapply (reach_step (mkSys 10 (mkLayer BUSY false 0 [] (Some 1%nat) (Some 15) 5) ({[1%nat]} ∪ ∅)) (Send 2 20 true));
    [|split; [set_solver|unfold future; cbn; lia]|reflexivity].
  eapply (reach_step (mkSys 10 Layer_new ∅) (Send 1 15 false));
    [constructor|split; [set_solver|unfold future; cbn; lia]|reflexivity].
Qed.

(** ** Routing: the reference *)

(** Where an address belongs: the port of the range that contains it, or the
    default port. *)
Definition route (x : XBar) (addr : Z) : option Z :=
  match list_find (fun e => contains e.1 addr = true) (portMap x) with
  | Some (_, (_, id)) => Some id
  | None =>
      if useDefaultRange x then (if contains (defaultRange x) addr then Some (defaultPortID x) else None)
      else if defaultPortID x =? InvalidPortID then None else Some (defaultPortID x)
  end.

Definition pc_ok (m : list (AddrRange * Z)) (c : PortCache) : Prop :=
  pc_valid c = true -> (pc_range c, pc_id c) ∈ m.

(** The cached ranges are those of the map, and ports have identifiers. *)
Record route_ok (x : XBar) : Prop := {
  ro_cache0 : pc_ok (portMap x) (portCache0 x);
  ro_cache1 : pc_ok (portMap x) (portCache1 x);
  ro_cache2 : pc_ok (portMap x) (portCache2 x);
  ro_ids : forall r id, (r, id) ∈ portMap x -> id <> InvalidPortID
}.

(** The address is not the start of a chunk that belongs to a later stripe. *)
Definition stripe_aligned (m : list (AddrRange * Z)) (addr : Z) : Prop :=
  forall r id, (r, id) ∈ m -> contains r addr = true -> addr = _start r -> intlvMatch r = 0.

(** In a well-formed map an address is in one range at most. *)
Lemma contains_unique (m : list (AddrRange * Z)) addr j k ej ek :
  tree_wf m -> inword 64 addr -> m !! j = Some ej -> m !! k = Some ek ->
  contains ej.1 addr = true -> contains ek.1 addr = true -> j = k.
Proof.
  intros Hwf Ha Hj Hk Hcj Hck.
  assert (Hlt : forall i i' e e', (i < i')%nat -> m !! i = Some e -> m !! i' = Some e' ->
            contains e.1 addr = true -> contains e'.1 addr = true -> False).
  { intros i i' e e' Hii Hi Hi' Hc Hc'.
    destruct (same_chunk m addr i i' e.1 e'.1) as (_ & _ & Hf); [done..|by rewrite Hi|by rewrite Hi'|done| |].
    - apply contains_span in Hc'; lia.
    - congruence. }
  destruct (lt_eq_lt_dec j k) as [[? | ?] | ?]; [|done|]; exfalso; [eapply (Hlt j k)|eapply (Hlt k j)]; eauto.
Qed.

Lemma route_hit x addr r id :
  tree_wf (portMap x) -> inword 64 addr -> (r, id) ∈ portMap x -> contains r addr = true -> route x addr = Some id.
Proof.
  intros Hwf Ha Hin Hc. apply list_elem_of_lookup in Hin as [j Hj]. unfold route.
  destruct (list_find _ _) as [[k [r' id']]|] eqn:Hf.
  - apply list_find_Some in Hf as (Hk & Hck & _). cbn in Hck.
    assert (j = k) as -> by (eapply contains_unique; eauto). congruence.
  - apply list_find_None in Hf. rewrite Forall_lookup in Hf. by apply Hf in Hj.
Qed.

Lemma route_miss x addr :
  (forall r id, (r, id) ∈ portMap x -> contains r addr = false) ->
  route x addr = if useDefaultRange x then (if contains (defaultRange x) addr then Some (defaultPortID x) else None)
                 else if defaultPortID x =? InvalidPortID then None else Some (defaultPortID x).
Proof.
  intros Hno. unfold route. destruct (list_find _ _) as [[k [r id]]|] eqn:Hf; [|done].
  apply list_find_Some in Hf as (Hk & Hck & _). apply list_elem_of_lookup_2 in Hk. cbn in Hck.
  rewrite (Hno _ _ Hk) in Hck. done.
Qed.

Lemma checkPortCache_hit x addr :
  route_ok x -> checkPortCache x addr <> InvalidPortID ->
  exists r, (r, checkPortCache x addr) ∈ portMap x /\ contains r addr = true.
Proof.
  intros [H0 H1 H2 _]. unfold checkPortCache.
  assert (Hc : forall c, pc_ok (portMap x) c -> pc_hit c addr = true ->
            exists r, (r, pc_id c) ∈ portMap x /\ contains r addr = true).
  { intros c Hok Hh. unfold pc_hit in Hh. apply andb_true_iff in Hh as [Hv Hh]. eauto. }
  destruct (pc_hit (portCache0 x) addr) eqn:E0; [eauto|].
  destruct (pc_hit (portCache1 x) addr) eqn:E1; [eauto|].
  destruct (pc_hit (portCache2 x) addr) eqn:E2; [eauto|done].
Qed.

(** One lookup agrees with the reference and keeps the cache consistent. *)
Lemma findPort_route x addr :
  route_ok x -> tree_wf (portMap x) -> gotAllAddrRanges x = true -> inword 64 addr ->
  stripe_aligned (portMap x) addr ->
  match route x addr with
  | Some id => exists x', findPort x addr = Ret (id, x') /\ route_ok x' /\ portMap x' = portMap x /\
                 (forall a, route x' a = route x a) /\ gotAllAddrRanges x' = true
  | None => findPort x addr = Err Fatal
  end.
Proof.
  intros Hok Hwf Hall Ha Hal. unfold findPort. rewrite cassert_true by done. cbn [mbind res_bind].
  destruct (Z.eqb_spec (checkPortCache x addr) InvalidPortID) as [Hc | Hc]; cbn [negb].
  2: { destruct (checkPortCache_hit x addr Hok Hc) as (r & Hin & Hr). rewrite (route_hit x addr r _) by done.
  by exists x. }
  destruct (list_find (fun e => contains e.1 addr = true) (portMap x)) as [[j [r id]]|] eqn:Hf.
  - apply list_find_Some in Hf as (Hj & Hr & _). cbn in Hr. pose proof (list_elem_of_lookup_2 _ _ _ Hj) as Hin.
    rewrite (route_hit x addr r id) by done.
    rewrite (find_addr_hit (portMap x) addr j r); [|done|done|by rewrite Hj|done|by eauto].
    cbn. rewrite Hj. eexists; split; [done|]. destruct Hok. split_and!; [split; [by intros _|done..]|done..].
  - apply list_find_None in Hf.
    assert (Hno : forall r id, (r, id) ∈ portMap x -> contains r addr = false).
    { intros r id Hin. rewrite Forall_forall in Hf. apply Hf in Hin. cbn in Hin. by destruct (contains r addr). }
    rewrite (route_miss x addr Hno), find_addr_miss; [|done|].
    2: { intros k rk Hk. apply fmap_Some in Hk as ([r id] & Hk & ->). eapply Hno, list_elem_of_lookup_2, Hk. }
    cbn. destruct (useDefaultRange x); [destruct (contains (defaultRange x) addr); [by exists x|done]|].
    destruct (defaultPortID x =? InvalidPortID); cbn; [done|by exists x].
Qed.

(** *** Changes of the ranges *)

Section insert.
Implicit Types (m : list (AddrRange * Z)).

Lemma tree_insert_elem m r id e :
  e ∈ (tree_insert m r id).1 -> e ∈ m \/ e = (r, id).
Proof.
  induction m as [|[k v] m IH]; cbn; [set_solver|].
  destruct (AddrRange_lt r k); [set_solver|]. destruct (AddrRange_lt k r); [|set_solver].
  destruct (tree_insert m r id) as [t i]. cbn in *. set_solver.
Qed.

Lemma tree_insert_keeps m r id e : e ∈ m -> e ∈ (tree_insert m r id).1.
Proof.
  induction m as [|[k v] m IH]; cbn; [set_solver|].
  destruct (AddrRange_lt r k); [set_solver|]. destruct (AddrRange_lt k r); [|set_solver].
  destruct (tree_insert m r id) as [t i]. cbn in *. set_solver.
Qed.

Lemma insert_ranges_elem ranges id : forall m m' e,
  insert_ranges m ranges id = Ret m' -> e ∈ m' -> e ∈ m \/ (e.2 = id /\ e.1 ∈ ranges).
Proof.
  induction ranges as [|r ranges IH]; intros m m' e; cbn [insert_ranges].
  - intros [= ->]; by left.
  - unfold RangeMap_insert. intros H He.
    apply bind_Ret in H as ([m1 it] & H1 & H). apply bind_Ret in H1 as (b & _ & H1).
    destruct b; [by injection H1 as <- <-|]. pose proof (tree_insert_elem m r id e) as Hel.
    destruct (tree_insert m r id) as [t i]. injection H1 as <- <-. cbn in Hel.
    destruct (IH _ _ _ H He) as [Hin | [? ?]]; [|set_solver].
    apply Hel in Hin as [? | ->]; set_solver.
Qed.

Lemma insert_ranges_keeps ranges id : forall m m' e,
  insert_ranges m ranges id = Ret m' -> e ∈ m -> e ∈ m'.
Proof.
  induction ranges as [|r ranges IH]; intros m m' e; cbn [insert_ranges].
  - by intros [= ->].
  - unfold RangeMap_insert. intros H He.
    apply bind_Ret in H as ([m1 it] & H1 & H). apply bind_Ret in H1 as (b & _ & H1).
    destruct b; [by injection H1 as <- <-|]. pose proof (tree_insert_keeps m r id e He) as Hel.
    destruct (tree_insert m r id) as [t i]. injection H1 as <- <-. by apply (IH _ _ _ H).
Qed.
End insert.

Lemma aggregate_ranges_frame x x' :
  aggregate_ranges x = Ret x' ->
  portMap x' = portMap x /\ defaultPortID x' = defaultPortID x /\ useDefaultRange x' = useDefaultRange x /\
  defaultRange x' = defaultRange x /\ gotAllAddrRanges x' = gotAllAddrRanges x.
Proof.
  unfold aggregate_ranges. intros H. apply bind_Ret in H as (out & _ & H). apply bind_Ret in H as (out' & _ & H).
  apply bind_Ret in H as (u & _ & H). by injection H as <-.
Qed.

(** The map after a range change: the ranges of other ports are untouched, those
    of the port are ranges it reported; no cached range survives. *)
Lemma recvRangeChange_effect x id ranges told x' :
  recvRangeChange x id ranges = Ret (told, x') ->
  (forall r k, (r, k) ∈ portMap x' -> (r, k) ∈ portMap x \/ (k = id /\ r ∈ ranges)) /\
  (forall r k, k <> id -> (r, k) ∈ portMap x -> (r, k) ∈ portMap x') /\
  (id <> defaultPortID x -> forall r, (r, id) ∈ portMap x' -> r ∈ ranges) /\
  pc_valid (portCache0 x') = false /\ pc_valid (portCache1 x') = false /\ pc_valid (portCache2 x') = false.
Proof.
  unfold recvRangeChange. intros H. apply bind_Ret in H as (got & _ & H).
  set (x1 := mkXBar _ _ _ _ _ _ _ _ _ _) in H.
  apply bind_Ret in H as (x2 & H2 & H). apply bind_Ret in H as (x3 & H3 & H). injection H as <- <-.
  assert (E3 : portMap x3 = portMap x2).
  { destruct (_ || _); [by apply aggregate_ranges_frame in H3 as (? & _)|by injection H3 as <-]. }
  cbn [clearPortCache portMap portCache0 portCache1 portCache2 pc_clear pc_valid]. rewrite E3.
  unfold update_ranges in H2. change (defaultPortID x1) with (defaultPortID x) in H2.
  destruct (Z.eqb_spec id (defaultPortID x)) as [Hid | Hid].
  - assert (E2 : portMap x2 = portMap x).
    { destruct (useDefaultRange x1); [|by injection H2 as <-].
      destruct ranges as [|r [|? ?]]; [done|by injection H2 as <-|done]. }
    rewrite E2. split_and!; eauto; done.
  - apply bind_Ret in H2 as (m & Hm & H2). injection H2 as <-. cbn [with_map portMap].
    change (portMap x1) with (portMap x) in Hm. split_and!; try done.
    + intros r k Hin. destruct (insert_ranges_elem _ _ _ _ _ Hm Hin) as [Hf | ?]; [|by right].
      apply list_elem_of_filter in Hf as [_ ?]. by left.
    + intros r k Hk Hin. apply (insert_ranges_keeps _ _ _ _ _ Hm). by apply list_elem_of_filter.
    + intros _ r Hin. destruct (insert_ranges_elem _ _ _ _ _ Hm Hin) as [Hf | [_ ?]]; [|done].
      by apply list_elem_of_filter in Hf as [? _].
Qed.

(** *** Runs of a crossbar *)

Definition Port_fresh : PortCache := mkPortCache false 0 AddrRange_default.
Definition XBar_new (ports : nat) (default_id : Z) (use_default : bool) : XBar :=
  mkXBar [] Port_fresh Port_fresh Port_fresh [] AddrRange_default (repeat false ports) false default_id use_default.

Inductive xbar_reachable : XBar -> Prop :=
  | xr_new ports default_id use_default : xbar_reachable (XBar_new ports default_id use_default)
  | xr_find x addr id x' : xbar_reachable x -> findPort x addr = Ret (id, x') -> xbar_reachable x'
  | xr_change x id ranges told x' :
      xbar_reachable x -> 0 <= id -> recvRangeChange x id ranges = Ret (told, x') -> xbar_reachable x'.

Lemma findPort_ok x addr id x' : route_ok x -> findPort x addr = Ret (id, x') -> route_ok x'.
Proof.
  unfold findPort. intros Hok H. apply bind_Ret in H as (u & _ & H).
  destruct (negb _); [by injection H as _ <-|].
  apply bind_Ret in H as (i & _ & H). destruct (i ≫= _) as [[r k]|] eqn:Hi.
  - injection H as <- <-. apply bind_Some in Hi as (j & _ & Hj). apply list_elem_of_lookup_2 in Hj.
    destruct Hok. split; cbn; try done. by intros _.
  - destruct (useDefaultRange x); [destruct (contains _ _)|destruct (negb _)]; done || by injection H as _ <-.
Qed.

Lemma xbar_reachable_ok x : xbar_reachable x -> route_ok x.
Proof.
  induction 1 as [ports di ud|x addr id x' _ IH H|x id ranges told x' _ IH Hid H].
  - split; cbn; [done..|]. intros r id H. by apply not_elem_of_nil in H.
  - by eapply findPort_ok.
  - apply recvRangeChange_effect in H as (Hel & _ & _ & V0 & V1 & V2).
    split; [unfold pc_ok; congruence..|]. intros r k Hin. apply Hel in Hin as [? | [-> _]].
    + by eapply (ro_ids x IH).
    + unfold InvalidPortID; lia.
Qed.


(** A change of the ranges of a port that is not the default port: the ranges
    of the other ports stay in the map, the port keeps no range it did not report
    this time, nothing else is added, and no cached range survives. *)
Theorem recvRangeChange_exact x id ranges told x' :
  recvRangeChange x id ranges = Ret (told, x') -> id <> defaultPortID x ->
  (forall r k, k <> id -> (r, k) ∈ portMap x <-> (r, k) ∈ portMap x') /\
  (forall r, (r, id) ∈ portMap x' -> r ∈ ranges) /\
  (forall addr, checkPortCache x' addr = InvalidPortID).
Proof.
  intros H Hid. apply recvRangeChange_effect in H as (Hel & Hkeep & Hnew & V0 & V1 & V2). split_and!; [|by auto|].
  - intros r k Hk. split; [by apply Hkeep|]. intros Hin. apply Hel in Hin as [? | [? _]]; done.
  - intros addr. unfold checkPortCache, pc_hit. by rewrite V0, V1, V2.
Qed.

(** Two devices, one of them cached. *)
Definition result_state (r : res (bool * XBar)) : XBar :=
  match r with
  | Ret (_, x) => x
  | Err _ => XBar_new 0 0 false
  end.

Definition one_device : XBar :=
  Eval vm_compute in result_state (recvRangeChange (XBar_new 2 InvalidPortID false) 0 [AddrRange_plain 0 255]).
Definition two_devices : XBar :=
  Eval vm_compute in result_state (recvRangeChange one_device 1 [AddrRange_plain 256 511]).
Definition two_devices_cached : XBar := updatePortCache two_devices 0 (AddrRange_plain 0 255).

Lemma two_devices_reachable : xbar_reachable two_devices_cached.
Proof.
  apply (xr_find two_devices 100 0); [|vm_compute; reflexivity].
  apply (xr_change one_device 1 [AddrRange_plain 256 511] true); [|lia|vm_compute; reflexivity].
  apply (xr_change (XBar_new 2 InvalidPortID false) 0 [AddrRange_plain 0 255] false); [|lia|vm_compute; reflexivity].
  apply (xr_new 2 InvalidPortID false).
Qed.


Definition moved_device : XBar :=
  Eval vm_compute in result_state (recvRangeChange two_devices_cached 0 [AddrRange_plain 512 767]).

Lemma recvRangeChange_exact_witness :
  recvRangeChange two_devices_cached 0 [AddrRange_plain 512 767] = Ret (true, moved_device) /\
  checkPortCache two_devices_cached 100 = 0 /\ checkPortCache moved_device 100 = InvalidPortID.
Proof.
  split; [vm_compute; reflexivity|]. split; [vm_compute; reflexivity|].
  apply (recvRangeChange_exact two_devices_cached 0 [AddrRange_plain 512 767] true moved_device);
    [vm_compute; reflexivity|done].
Defined.
