(* ===== verification/CoherentXBar.v ===== *)
(** * The coherent crossbar: [mem/coherent_xbar.hh], [mem/coherent_xbar.cc]

    Requests from the slave ports go through the request layer of the master port
    that their address selects; on the way every other snooping port (or those
    the snoop filter names) sees them.  Responses come back through the response
    layers, snoop responses through the snoop layers, or through the response
    layers when they answer a request of this crossbar.  [routeTo] remembers where
    a response belongs.

    Ports are identified by their number.  A packet comes with the identity of its
    request object and with its header delay.  What the neighbours do with a
    packet is an argument of the handlers; neighbours answer without calling back
    within the call.  Every call of a neighbour is recorded in the result. *)

From stdpp Require Import gmap.
From S2P Require Import Prelude IntMath AddrRange Packet SnoopFilter XBar.
Local Open Scope Z_scope.

(** ** Data *)

Record XPkt := mkXPkt { xp_pkt : Packet; xp_req : nat; xp_headerDelay : Z }.

Definition with_pkt (p : XPkt) (q : Packet) : XPkt := mkXPkt q (xp_req p) (xp_headerDelay p).
Definition with_header (p : XPkt) (d : Z) : XPkt := mkXPkt (xp_pkt p) (xp_req p) d.
Definition with_payload (p : Packet) (d : Z) : Packet :=
  mkPacket (pkt_cmd p) (pkt_req p) (pkt_addr p) (pkt_isSecure p) (pkt_size p) (pkt_data p) (pkt_flags p) d
    (bytesValid p) (pkt_origCmd p).

(** The parameters; [us] is the number of ticks of a microsecond. *)
Record XBarConf := mkXBarConf {
  frontendLatency : Z;
  forwardLatency : Z;
  responseLatency : Z;
  snoopResponseLatency : Z;
  width : Z;
  xb_period : Z;
  us : Z
}.

(** [transDist] as the list of the commands counted, [snoopFanout] as that of the
    samples. *)
Record XBarStats := mkXBarStats {
  pktCount : gmap (Z * Z) Z;
  pktSize : gmap (Z * Z) Z;
  transDist : list Command;
  snoops : Z;
  snoopFanout : list Z
}.

Record CoherentXBar := mkCoherentXBar {
  cx_bar : XBar;
  reqLayers : list Layer;
  respLayers : list Layer;
  snoopLayers : list Layer;
  snoopPorts : list Z;
  snoopFilter : option SnoopFilter;
  bypassCaches : bool;
  routeTo : gmap nat Z;
  outstandingSnoop : gset nat;
  cx_stats : XBarStats
}.

Definition with_bar (x : CoherentXBar) (b : XBar) : CoherentXBar :=
  mkCoherentXBar b (reqLayers x) (respLayers x) (snoopLayers x) (snoopPorts x) (snoopFilter x) (bypassCaches x)
    (routeTo x) (outstandingSnoop x) (cx_stats x).
Definition with_filter (x : CoherentXBar) (f : option SnoopFilter) : CoherentXBar :=
  mkCoherentXBar (cx_bar x) (reqLayers x) (respLayers x) (snoopLayers x) (snoopPorts x) f (bypassCaches x)
    (routeTo x) (outstandingSnoop x) (cx_stats x).
Definition with_tables (x : CoherentXBar) (r : gmap nat Z) (o : gset nat) : CoherentXBar :=
  mkCoherentXBar (cx_bar x) (reqLayers x) (respLayers x) (snoopLayers x) (snoopPorts x) (snoopFilter x) (bypassCaches x)
    r o (cx_stats x).
Definition with_stats (x : CoherentXBar) (s : XBarStats) : CoherentXBar :=
  mkCoherentXBar (cx_bar x) (reqLayers x) (respLayers x) (snoopLayers x) (snoopPorts x) (snoopFilter x) (bypassCaches x)
    (routeTo x) (outstandingSnoop x) s.

(** *** Layers *)

Inductive LayerId := LReq (m : nat) | LResp (s : nat) | LSnoop (m : nat).

#[export] Instance LayerId_eq_dec : EqDecision LayerId.
Proof. solve_decision. Defined.

Definition layers_of (x : CoherentXBar) (k : LayerId) : list Layer :=
  match k with
  | LReq _ => reqLayers x
  | LResp _ => respLayers x
  | LSnoop _ => snoopLayers x
  end.
Definition layer_index (k : LayerId) : nat := match k with LReq i | LResp i | LSnoop i => i end.
Definition get_layer (x : CoherentXBar) (k : LayerId) : option Layer := layers_of x k !! layer_index k.
Definition set_layer (x : CoherentXBar) (k : LayerId) (l : Layer) : CoherentXBar :=
  mkCoherentXBar (cx_bar x)
    (match k with LReq i => <[i := l]> (reqLayers x) | _ => reqLayers x end)
    (match k with LResp i => <[i := l]> (respLayers x) | _ => respLayers x end)
    (match k with LSnoop i => <[i := l]> (snoopLayers x) | _ => snoopLayers x end)
    (snoopPorts x) (snoopFilter x) (bypassCaches x) (routeTo x) (outstandingSnoop x) (cx_stats x).

Definition read_layer (x : CoherentXBar) (k : LayerId) : res Layer := vread (layers_of x k) (layer_index k).

(** An operation on one layer. *)
Definition on_layer (x : CoherentXBar) (k : LayerId) (f : Layer -> res Layer) : res CoherentXBar :=
  l ← read_layer x k;
  l ← f l;
  Ret (set_layer x k l).

Definition try_layer (x : CoherentXBar) (k : LayerId) (src : nat) : res (bool * CoherentXBar) :=
  l ← read_layer x k;
  '(ok, l) ← tryTiming l src;
  Ret (ok, set_layer x k l).

(** Indexing with a port number. *)
Definition port_index (id : Z) : res nat := if id <? 0 then Err OutOfBounds else Ret (Z.to_nat id).

(** The sources of a response layer are the master ports and the internal snoop
    response ports that mirror the slave ports. *)
Definition master_src (m : nat) : nat := (2 * m)%nat.
Definition snoopResp_src (s : nat) : nat := (2 * s + 1)%nat.

(** *** Statistics *)

Definition count_pkt (x : CoherentXBar) (s m size : Z) : CoherentXBar :=
  let st := cx_stats x in
  with_stats x (mkXBarStats (<[(s, m) := default 0 (pktCount st !! (s, m)) + 1]> (pktCount st))
                  (<[(s, m) := default 0 (pktSize st !! (s, m)) + size]> (pktSize st))
                  (transDist st) (snoops st) (snoopFanout st)).
Definition count_cmd (x : CoherentXBar) (c : Command) : CoherentXBar :=
  let st := cx_stats x in
  with_stats x (mkXBarStats (pktCount st) (pktSize st) (transDist st ++ [c]) (snoops st) (snoopFanout st)).
Definition count_snoops (x : CoherentXBar) : CoherentXBar :=
  let st := cx_stats x in
  with_stats x (mkXBarStats (pktCount st) (pktSize st) (transDist st) (snoops st + 1) (snoopFanout st)).
Definition sample_fanout (x : CoherentXBar) (n : Z) : CoherentXBar :=
  let st := cx_stats x in
  with_stats x (mkXBarStats (pktCount st) (pktSize st) (transDist st) (snoops st) (snoopFanout st ++ [n])).

Definition data_size (p : Packet) : Z := if cmd_hasData (pkt_cmd p) then pkt_size p else 0.

(** ** Calls of the neighbours *)

Inductive Output :=
  | SentReq (master : Z) (req : nat) (p : Packet) (ok : bool)
  | SentResp (slave : Z) (req : nat)
  | SentSnoopResp (master : Z) (req : nat)
  | SentSnoop (slave : Z) (req : nat).

(** A request is recorded as it is sent, with the answer of the destination.

    What a snooping port makes of a snoop, and what the destination makes of a
    request. *)
Record Peers := mkPeers {
  peer_snoop : Z -> Packet -> Packet;
  peer_send : Packet -> bool * Packet
}.

(** ** Timing *)

(** [edge] is [clockEdge()]. *)
Definition calcPacketTiming (c : XBarConf) (curTick edge : Z) (p : XPkt) (header_delay : Z) : res XPkt :=
  let offset := u64 (edge - curTick) in
  let p := with_header p (u32 (xp_headerDelay p + (offset + header_delay))) in
  _ ← panic_if (us c <? xp_headerDelay p);
  if cmd_hasData (pkt_cmd (xp_pkt p)) then
    n ← divCeil 32 (pkt_size (xp_pkt p)) (width c);
    Ret (with_pkt p (with_payload (xp_pkt p) (u32 (Z.max (pkt_payloadDelay (xp_pkt p)) (u64 (n * xb_period c))))))
  else Ret p.

(** ** Snoops *)

Fixpoint forward_loop (sn : Z -> Packet -> Packet) (exclude : Z) (req : nat) (dests : list Z) (p : Packet) (fanout : Z)
    : list Output * Packet * Z :=
  match dests with
  | [] => ([], p, fanout)
  | d :: dests =>
      if (exclude =? InvalidPortID) || negb (d =? exclude) then
        let '(out, q, n) := forward_loop sn exclude req dests (sn d p) (fanout + 1) in
        (SentSnoop d req :: out, q, n)
      else forward_loop sn exclude req dests p fanout
  end.

Definition forwardTiming (x : CoherentXBar) (sn : Z -> Packet -> Packet) (p : XPkt) (exclude : Z) (dests : list Z)
    : res (list Output * XPkt * CoherentXBar) :=
  _ ← cassert (negb (bypassCaches x));
  let '(out, q, n) := forward_loop sn exclude (xp_req p) dests (xp_pkt p) 0 in
  Ret (out, with_pkt p q, sample_fanout x n).

(** ** Requests *)

(** The snoops of a request: the filter names the ports and takes its time. *)
Definition snoop_request (c : XBarConf) (x : CoherentXBar) (sn : Z -> Packet -> Packet) (p : XPkt) (slave : Z)
    : res (list Output * XPkt * CoherentXBar * Z) :=
  if bypassCaches x then Ret ([], p, x, 0)
  else
    match snoopFilter x with
    | Some sf =>
        '(sf, (dests, lat)) ← lookupRequest sf (xp_pkt p) slave;
        let p := with_header p (u32 (xp_headerDelay p + lat * xb_period c)) in
        '(out, p, x) ← forwardTiming (with_filter x (Some sf)) sn p slave dests;
        Ret (out, p, x, lat * xb_period c)
    | None =>
        '(out, p, x) ← forwardTiming x sn p slave (snoopPorts x);
        Ret (out, p, x, 0)
    end.

(** The filter sees the original command and whether the request was sent. *)
Definition update_filter (x : CoherentXBar) (f : SnoopFilter -> res SnoopFilter) (active : bool) : res CoherentXBar :=
  if active then
    match snoopFilter x with
    | Some sf => sf ← f sf; Ret (with_filter x (Some sf))
    | None => Ret x
    end
  else Ret x.

Definition recvTimingReq (c : XBarConf) (curTick edge : Z) (x : CoherentXBar) (pr : Peers) (pkt : XPkt) (slave : Z)
    : res (bool * list Output * XPkt * CoherentXBar) :=
  src ← port_index slave;
  let is_express_snoop := isExpressSnoop (xp_pkt pkt) in
  let is_inhibited := memInhibitAsserted (xp_pkt pkt) in
  _ ← cassert (Bool.eqb is_express_snoop is_inhibited);
  '(master, bar) ← findPort (cx_bar x) (pkt_addr (xp_pkt pkt));
  let x := with_bar x bar in
  m ← port_index master;
  '(free, x) ← (if is_express_snoop then Ret (true, x) else try_layer x (LReq m) src);
  if negb free then Ret (false, [], pkt, x)
  else
    let pkt_sz := data_size (xp_pkt pkt) in
    let cmd := pkt_cmd (xp_pkt pkt) in
    let old_header_delay := xp_headerDelay pkt in
    let xbar_delay := (frontendLatency c + forwardLatency c) * xb_period c in
    p ← calcPacketTiming c curTick edge pkt xbar_delay;
    let packetFinishTime := edge + xb_period c + pkt_payloadDelay (xp_pkt p) in
    '(out, p, x, sf_delay) ← snoop_request c x (peer_snoop pr) p slave;
    let packetFinishTime := packetFinishTime + sf_delay in
    let expect_snoop_resp := negb is_inhibited && memInhibitAsserted (xp_pkt p) in
    let expect_response := cmd_needsResponse (pkt_cmd (xp_pkt p)) && negb (memInhibitAsserted (xp_pkt p)) in
    let orig_cmd := pkt_cmd (xp_pkt p) in
    let '(success, q) := peer_send pr (xp_pkt p) in
    let out := out ++ [SentReq master (xp_req p) (xp_pkt p) success] in
    let p := with_pkt p q in
    x ← update_filter x (fun sf => updateRequest sf (with_cmd (xp_pkt p) orig_cmd) slave (negb success))
          (negb (bypassCaches x));
    if negb success then
      _ ← cassert (negb is_express_snoop);
      _ ← cassert (negb (memInhibitAsserted (xp_pkt p)));
      let p := with_header p old_header_delay in
      x ← on_layer x (LReq m) (fun l => failedTiming l src curTick (edge + xb_period c));
      Ret (false, out, p, x)
    else
      x ← (if negb is_express_snoop then
             x ← (if expect_snoop_resp then
                    _ ← cassert (bool_decide (xp_req p ∉ outstandingSnoop x));
                    let o := {[xp_req p]} ∪ outstandingSnoop x in
                    _ ← panic_if (512 <? Z.of_nat (size o));
                    Ret (with_tables x (routeTo x) o)
                  else Ret x);
             x ← (if expect_response || expect_snoop_resp then
                    _ ← cassert (bool_decide (routeTo x !! xp_req p = None));
                    let r := <[xp_req p := slave]> (routeTo x) in
                    _ ← panic_if (512 <? Z.of_nat (size r));
                    Ret (with_tables x r (outstandingSnoop x))
                  else Ret x);
             on_layer x (LReq m) (fun l => succeededTiming l curTick packetFinishTime)
           else Ret x);
      let x := count_cmd (count_pkt x slave master pkt_sz) cmd in
      let x := if is_express_snoop then count_snoops x else x in
      Ret (true, out, p, x).

(** ** Responses *)

(** [accepted] is the answer of [sendTimingResp]. *)
Definition recvTimingResp (c : XBarConf) (curTick edge : Z) (x : CoherentXBar) (accepted : bool) (pkt : XPkt) (master : Z)
    : res (bool * list Output * XPkt * CoherentXBar) :=
  m ← port_index master;
  match routeTo x !! xp_req pkt with
  | None => Err AssertFailed
  | Some slave =>
      _ ← cassert (negb (slave =? InvalidPortID));
      _ ← cassert (slave <? Z.of_nat (length (respLayers x)));
      s ← port_index slave;
      '(free, x) ← try_layer x (LResp s) (master_src m);
      if negb free then Ret (false, [], pkt, x)
      else
        let pkt_sz := data_size (xp_pkt pkt) in
        let cmd := pkt_cmd (xp_pkt pkt) in
        p ← calcPacketTiming c curTick edge pkt (responseLatency c * xb_period c);
        let packetFinishTime := edge + xb_period c + pkt_payloadDelay (xp_pkt p) in
        x ← update_filter x (fun sf => updateResponse sf (xp_pkt p) slave) (negb (bypassCaches x));
        _ ← cassert accepted;
        let x := with_tables x (delete (xp_req pkt) (routeTo x)) (outstandingSnoop x) in
        x ← on_layer x (LResp s) (fun l => succeededTiming l curTick packetFinishTime);
        Ret (true, [SentResp slave (xp_req pkt)], p, count_cmd (count_pkt x slave master pkt_sz) cmd)
  end.

(** ** Snoops from below *)

Definition recvTimingSnoopReq (x : CoherentXBar) (sn : Z -> Packet -> Packet) (pkt : XPkt) (master : Z)
    : res (list Output * XPkt * CoherentXBar) :=
  let x := count_snoops (count_cmd x (pkt_cmd (xp_pkt pkt))) in
  _ ← cassert (isExpressSnoop (xp_pkt pkt));
  let is_inhibited := memInhibitAsserted (xp_pkt pkt) in
  '(out, p, x) ← match snoopFilter x with
                 | Some sf =>
                     '(sf, (dests, _)) ← lookupSnoop sf (xp_pkt pkt);
                     forwardTiming (with_filter x (Some sf)) sn pkt InvalidPortID dests
                 | None => forwardTiming x sn pkt InvalidPortID (snoopPorts x)
                 end;
  x ← (if negb is_inhibited && memInhibitAsserted (xp_pkt p) then
         _ ← cassert (bool_decide (routeTo x !! xp_req p = None));
         Ret (with_tables x (<[xp_req p := master]> (routeTo x)) (outstandingSnoop x))
       else Ret x);
  '(dest, bar) ← findPort (cx_bar x) (pkt_addr (xp_pkt p));
  _ ← cassert (master =? dest);
  Ret (out, p, with_bar x bar).

Definition recvTimingSnoopResp (c : XBarConf) (curTick edge : Z) (x : CoherentXBar) (accepted : bool) (pkt : XPkt) (slave : Z)
    : res (bool * list Output * XPkt * CoherentXBar) :=
  s ← port_index slave;
  match routeTo x !! xp_req pkt with
  | None => Err AssertFailed
  | Some dest =>
      _ ← cassert (negb (dest =? InvalidPortID));
      let forwardAsSnoop := bool_decide (xp_req pkt ∉ outstandingSnoop x) in
      _ ← cassert (dest <? Z.of_nat (length (if forwardAsSnoop then snoopLayers x else respLayers x)));
      d ← port_index dest;
      '(free, x) ← (if forwardAsSnoop then try_layer x (LSnoop d) s else try_layer x (LResp d) (snoopResp_src s));
      if negb free then Ret (false, [], pkt, x)
      else
        let pkt_sz := data_size (xp_pkt pkt) in
        let cmd := pkt_cmd (xp_pkt pkt) in
        _ ← cassert (negb (isExpressSnoop (xp_pkt pkt)));
        let xbar_delay := (if forwardAsSnoop then snoopResponseLatency c else responseLatency c) * xb_period c in
        p ← calcPacketTiming c curTick edge pkt xbar_delay;
        let packetFinishTime := edge + xb_period c + pkt_payloadDelay (xp_pkt p) in
        '(out, x) ←
          (if forwardAsSnoop then
             x ← update_filter x (fun sf => updateSnoopForward sf (xp_pkt p) slave) true;
             let x := count_pkt x slave dest pkt_sz in
             _ ← cassert accepted;
             x ← on_layer x (LSnoop d) (fun l => succeededTiming l curTick packetFinishTime);
             Ret ([SentSnoopResp dest (xp_req pkt)], x)
           else
             let x := with_tables x (routeTo x) (outstandingSnoop x ∖ {[xp_req pkt]}) in
             _ ← cassert (negb (slave =? dest));
             x ← update_filter x (fun sf => updateSnoopResponse sf (xp_pkt p) slave dest) true;
             _ ← cassert accepted;
             x ← on_layer x (LResp d) (fun l => succeededTiming l curTick packetFinishTime);
             Ret ([SentResp dest (xp_req pkt)], x));
        let x := with_tables x (delete (xp_req pkt) (routeTo x)) (outstandingSnoop x) in
        Ret (true, out, p, count_snoops (count_cmd x cmd))
  end.

(** ** Retries

    A layer that becomes free tells the first waiting port to retry; the port may
    call the crossbar before the layer goes on. *)

Inductive Call :=
  | CallReq (pr : Peers) (pkt : XPkt) (slave : Z)
  | CallResp (accepted : bool) (pkt : XPkt) (master : Z)
  | CallSnoopResp (accepted : bool) (pkt : XPkt) (slave : Z).

Definition exec_call (c : XBarConf) (curTick edge : Z) (x : CoherentXBar) (cl : Call)
    : res (bool * list Output * XPkt * CoherentXBar) :=
  match cl with
  | CallReq pr pkt slave => recvTimingReq c curTick edge x pr pkt slave
  | CallResp a pkt master => recvTimingResp c curTick edge x a pkt master
  | CallSnoopResp a pkt slave => recvTimingSnoopResp c curTick edge x a pkt slave
  end.

Definition retry_begin (l : Layer) : res (nat * Layer) :=
  match waitingForLayer l with
  | [] => Err AssertFailed
  | p :: q => _ ← cassert (is_state l IDLE); Ret (p, with_queue (with_state l RETRY) q)
  end.
Definition retry_end (l : Layer) (curTick edge : Z) : res Layer :=
  if is_state l RETRY then occupyLayer (with_state l BUSY) curTick edge else Ret l.

(** [retryWaiting] of layer [k], with the call that the retrying port makes. *)
Definition cx_retryWaiting (c : XBarConf) (curTick edge : Z) (x : CoherentXBar) (k : LayerId) (cl : option Call)
    : res (nat * list Output * CoherentXBar) :=
  l ← read_layer x k;
  '(p, l) ← retry_begin l;
  let x := set_layer x k l in
  '(out, x) ← match cl with
              | None => Ret ([], x)
              | Some cl => '(_, out, _, x) ← exec_call c curTick edge x cl; Ret (out, x)
              end;
  x ← on_layer x k (fun l => retry_end l curTick edge);
  Ret (p, out, x).

(** [releaseLayer] of layer [k], when its release event is processed. *)
Definition cx_releaseLayer (c : XBarConf) (curTick edge : Z) (x : CoherentXBar) (k : LayerId) (cl : option Call)
    : res (option nat * list Output * CoherentXBar) :=
  l ← read_layer x k;
  let l := mkLayer (state l) (layerDrain l) (layerDrained l) (waitingForLayer l) (waitingForPeer l) None (occupancy l) in
  _ ← cassert (is_state l BUSY);
  _ ← cassert (is_none (releaseEvent l));
  let l := with_state l IDLE in
  if negb (is_nil (waitingForLayer l)) then
    if is_none (waitingForPeer l) then
      '(p, out, x) ← cx_retryWaiting c curTick edge (set_layer x k l) k cl;
      Ret (Some p, out, x)
    else Ret (None, [], set_layer x k l)
  else if is_none (waitingForPeer l) && layerDrain l then
    Ret (None, [], set_layer x k (mkLayer (state l) false (S (layerDrained l)) (waitingForLayer l) (waitingForPeer l)
                                    (releaseEvent l) (occupancy l)))
  else Ret (None, [], set_layer x k l).

(** [recvReqRetry]: the peer of a request layer can take a packet again. *)
Definition recvReqRetry (c : XBarConf) (curTick edge : Z) (x : CoherentXBar) (master : Z) (cl : option Call)
    : res (option nat * list Output * CoherentXBar) :=
  m ← port_index master;
  l ← read_layer x (LReq m);
  match waitingForPeer l with
  | None => Err AssertFailed
  | Some w =>
      let l := with_peer (with_queue l (w :: waitingForLayer l)) None in
      if is_state l IDLE then
        '(p, out, x) ← cx_retryWaiting c curTick edge (set_layer x (LReq m) l) (LReq m) cl;
        Ret (Some p, out, x)
      else
        _ ← cassert (is_state l BUSY);
        Ret (None, [], set_layer x (LReq m) l)
  end.

(** ** Draining *)

Definition drain_layers (ls : list Layer) : Z * list Layer :=
  foldr (fun l r => let '(n, ls) := r in let '(k, l) := layer_drain l in (k + n, l :: ls)) (0, []) ls.

Definition cx_drain (x : CoherentXBar) : Z * CoherentXBar :=
  let '(a, req) := drain_layers (reqLayers x) in
  let '(b, resp) := drain_layers (respLayers x) in
  let '(d, snp) := drain_layers (snoopLayers x) in
  (u32 (a + b + d), mkCoherentXBar (cx_bar x) req resp snp (snoopPorts x) (snoopFilter x) (bypassCaches x) (routeTo x)
                      (outstandingSnoop x) (cx_stats x)).

(** ** Construction *)

(** The constructor, then [init]: the slave ports whose neighbours snoop. *)
Definition CoherentXBar_new (masters slaves : nat) (default : bool) (use_default : bool) (filter : option SnoopFilter)
    (bypass : bool) : CoherentXBar :=
  let n := (if default then S masters else masters) in
  let bar := XBar_new n (if default then Z.of_nat masters else InvalidPortID) use_default in
  mkCoherentXBar (clearPortCache bar) (replicate n Layer_new) (replicate slaves Layer_new) (replicate n Layer_new) []
    (match filter with
     | Some sf => Some (setSlavePorts sf (Z.of_nat <$> seq 0 slaves))
     | None => None
     end) bypass ∅ ∅ (mkXBarStats ∅ ∅ [] 0 []).

Definition cx_init (x : CoherentXBar) (isSnooping : Z -> bool) : CoherentXBar :=
  mkCoherentXBar (cx_bar x) (reqLayers x) (respLayers x) (snoopLayers x)
    (List.filter isSnooping (Z.of_nat <$> seq 0 (length (respLayers x)))) (snoopFilter x) (bypassCaches x) (routeTo x)
    (outstandingSnoop x) (cx_stats x).

(** ** Runs of a crossbar *)

(** Where an outstanding request came from; from above, whether the destination
    below ([Some m]) or a snooping cache ([None]) will respond. *)
Inductive Origin := FromSlave (s : Z) (responder : option Z) | FromMaster (m : Z).

Definition origin_port (o : Origin) : Z := match o with FromSlave s _ => s | FromMaster m => m end.

(** Beside the crossbar: the time, the ports each layer has turned away, the
    outstanding requests as the neighbours see them, and the snoop filter with the
    caches above it as in [SnoopFilter.v]. *)
Record CSys := mkCSys {
  c_now : Z;
  c_x : CoherentXBar;
  c_blocked : LayerId -> gset nat;
  c_out : gmap nat Origin;
  c_sf : option system
}.

Inductive CEv :=
  | CAdvance (t : Z)
  | CCall (edge : Z) (cl : Call)
  | CSnoopReq (sn : Z -> Packet -> Packet) (pkt : XPkt) (master : Z)
  | CRelease (edge : Z) (k : LayerId) (cl : option Call)
  | CReqRetry (edge : Z) (master : Z) (cl : option Call)
  | CDrain.

(** *** What the neighbours see *)

Definition track_output (cl : Call) (m : gmap nat Origin) (o : Output) : gmap nat Origin :=
  match o, cl with
  | SentReq master id p true, CallReq _ pkt slave =>
      if isExpressSnoop (xp_pkt pkt) then m
      else if memInhibitAsserted p then <[id := FromSlave slave None]> m
      else if cmd_needsResponse (pkt_cmd p) then <[id := FromSlave slave (Some master)]> m
      else m
  | SentResp _ id, _ => delete id m
  | SentSnoopResp _ id, _ => delete id m
  | _, _ => m
  end.

Definition track_call (cl : Call) (out : list Output) (m : gmap nat Origin) : gmap nat Origin :=
  foldl (track_output cl) m out.

(** The step of the snoop filter that a call amounts to. *)
Definition sf_op_of (bypass : bool) (cl : Call) (out : list Output) : option sf_op :=
  match cl, last out with
  | CallReq _ pkt slave, Some (SentReq _ _ _ ok) => if bypass then None else Some (Request_ (xp_pkt pkt) slave ok)
  | CallResp _ pkt _, Some (SentResp s _) => if bypass then None else Some (Response_ (xp_pkt pkt) s)
  | CallSnoopResp _ pkt slave, Some (SentResp s _) => Some (SnoopResponse_ (xp_pkt pkt) slave s)
  | CallSnoopResp _ pkt slave, Some (SentSnoopResp _ _) => Some (SnoopForward_ (xp_pkt pkt) slave)
  | _, _ => None
  end.

Definition track_filter (o : option sf_op) (sy : option system) : option system :=
  match o, sy with
  | Some o, Some sy => match sf_run o sy with Ret sy' => Some sy' | Err _ => Some sy end
  | _, _ => sy
  end.

(** *** Where a call goes *)

Definition call_layer (s : CSys) (cl : Call) : option LayerId :=
  match cl with
  | CallReq _ pkt _ =>
      if isExpressSnoop (xp_pkt pkt) then None
      else (fun m => LReq (Z.to_nat m)) <$> route (cx_bar (c_x s)) (pkt_addr (xp_pkt pkt))
  | CallResp _ pkt _ => (fun o => LResp (Z.to_nat (origin_port o))) <$> c_out s !! xp_req pkt
  | CallSnoopResp _ pkt _ =>
      (fun o => match o with
                | FromSlave p _ => LResp (Z.to_nat p)
                | FromMaster m => LSnoop (Z.to_nat m)
                end) <$> c_out s !! xp_req pkt
  end.

(** The port, as the layer it goes to knows it. *)
Definition call_src (s : CSys) (cl : Call) : nat :=
  match cl with
  | CallReq _ _ slave => Z.to_nat slave
  | CallResp _ _ master => master_src (Z.to_nat master)
  | CallSnoopResp _ pkt slave =>
      match c_out s !! xp_req pkt with
      | Some (FromSlave _ _) => snoopResp_src (Z.to_nat slave)
      | _ => Z.to_nat slave
      end
  end.

Definition block (b : LayerId -> gset nat) (k : option LayerId) (p : nat) : LayerId -> gset nat :=
  fun k' => if decide (Some k' = k) then {[p]} ∪ b k' else b k'.
Definition unblock (b : LayerId -> gset nat) (k : LayerId) (p : option nat) : LayerId -> gset nat :=
  fun k' => match p with
            | Some p => if decide (k' = k) then b k' ∖ {[p]} else b k'
            | None => b k'
            end.

(** Whether a packet was taken, from the calls it gave rise to. *)
Definition out_ok (out : list Output) : bool :=
  match last out with
  | Some (SentReq _ _ _ ok) => ok
  | Some _ => true
  | None => false
  end.

(** The state after a call, from its results. *)
Definition after_call (s : CSys) (cl : Call) (out : list Output) (x : CoherentXBar) : CSys :=
  mkCSys (c_now s) x (if out_ok out then c_blocked s else block (c_blocked s) (call_layer s cl) (call_src s cl))
    (track_call cl out (c_out s)) (track_filter (sf_op_of (bypassCaches (c_x s)) cl out) (c_sf s)).

(** A retry: the port told to retry is no longer blocked, then it calls. *)
Definition after_retry_call (s : CSys) (k : LayerId) (p : option nat) (cl : option Call) (out : list Output) (x : CoherentXBar) : CSys :=
  let s := mkCSys (c_now s) (c_x s) (unblock (c_blocked s) k p) (c_out s) (c_sf s) in
  match p, cl with
  | Some _, Some cl => after_call s cl out x
  | _, _ => mkCSys (c_now s) x (c_blocked s) (c_out s) (c_sf s)
  end.

Definition after_snoop (s : CSys) (pkt p : XPkt) (master : Z) (x : CoherentXBar) : CSys :=
  mkCSys (c_now s) x (c_blocked s)
    (if negb (memInhibitAsserted (xp_pkt pkt)) && memInhibitAsserted (xp_pkt p)
     then <[xp_req pkt := FromMaster master]> (c_out s) else c_out s)
    (track_filter (Some (Snoop_ (xp_pkt pkt))) (c_sf s)).

Definition cstep (c : XBarConf) (s : CSys) (e : CEv) : res (list Output * CSys) :=
  match e with
  | CAdvance t => Ret ([], mkCSys t (c_x s) (c_blocked s) (c_out s) (c_sf s))
  | CCall edge cl =>
      '(_, out, _, x) ← exec_call c (c_now s) edge (c_x s) cl;
      Ret (out, after_call s cl out x)
  | CSnoopReq sn pkt master =>
      '(out, p, x) ← recvTimingSnoopReq (c_x s) sn pkt master;
      Ret (out, after_snoop s pkt p master x)
  | CRelease edge k cl =>
      '(p, out, x) ← cx_releaseLayer c (c_now s) edge (c_x s) k cl;
      Ret (out, after_retry_call s k p cl out x)
  | CReqRetry edge master cl =>
      '(p, out, x) ← recvReqRetry c (c_now s) edge (c_x s) master cl;
      Ret (out, after_retry_call s (LReq (Z.to_nat master)) p cl out x)
  | CDrain => Ret ([], mkCSys (c_now s) (cx_drain (c_x s)).2 (c_blocked s) (c_out s) (c_sf s))
  end.

(** ** What the neighbours guarantee *)

(** A snoop changes flags only, and never takes back that the packet is inhibited. *)
Definition snoop_ok (sn : Z -> Packet -> Packet) : Prop :=
  forall d p, exists f, sn d p = with_flags p f /\ (memInhibitAsserted p = true -> memInhibitAsserted (sn d p) = true).

(** A destination takes every inhibited packet and leaves a refused one alone. *)
Definition send_ok (send : Packet -> bool * Packet) : Prop :=
  forall p, (memInhibitAsserted p = true -> (send p).1 = true) /\ ((send p).1 = false -> (send p).2 = p) /\
    pkt_req (send p).2 = pkt_req p /\ pkt_addr (send p).2 = pkt_addr p.

(** The header delay stays within a microsecond. *)
Definition delay_ok (c : XBarConf) (now edge : Z) (pkt : XPkt) (cycles : Z) : Prop :=
  now <= edge /\ 0 <= pkt_payloadDelay (xp_pkt pkt) /\
  u32 (xp_headerDelay pkt + (u64 (edge - now) + cycles * xb_period c)) <= us c.

(** The filter, if there is one, may do the step. *)
Definition filter_ok (s : CSys) (o : sf_op) : Prop := forall sy, c_sf s = Some sy -> sf_enabled o sy.

Definition routed (s : CSys) (pkt : XPkt) (m : Z) : Prop :=
  let a := pkt_addr (xp_pkt pkt) in
  route (cx_bar (c_x s)) a = Some m /\ inword 64 a /\ stripe_aligned (portMap (cx_bar (c_x s))) a.

Definition call_enabled (c : XBarConf) (s : CSys) (edge : Z) (cl : Call) : Prop :=
  0 < edge /\ (forall k, call_layer s cl = Some k -> call_src s cl ∉ c_blocked s k) /\
  match cl with
  | CallReq pr pkt slave =>
      0 <= slave < Z.of_nat (length (respLayers (c_x s))) /\
      isExpressSnoop (xp_pkt pkt) = memInhibitAsserted (xp_pkt pkt) /\
      (exists m, routed s pkt m) /\ snoop_ok (peer_snoop pr) /\ send_ok (peer_send pr) /\
      delay_ok c (c_now s) edge pkt (frontendLatency c + forwardLatency c) /\
      (isExpressSnoop (xp_pkt pkt) = false -> c_out s !! xp_req pkt = None /\ Z.of_nat (size (c_out s)) < 512) /\
      (bypassCaches (c_x s) = false -> filter_ok s (Request_ (xp_pkt pkt) slave true))
  | CallResp a pkt master =>
      a = true /\ 0 <= master < Z.of_nat (length (reqLayers (c_x s))) /\
      delay_ok c (c_now s) edge pkt (responseLatency c) /\
      exists s0, c_out s !! xp_req pkt = Some (FromSlave s0 (Some master)) /\
        (bypassCaches (c_x s) = false -> filter_ok s (Response_ (xp_pkt pkt) s0))
  | CallSnoopResp a pkt slave =>
      a = true /\ 0 <= slave < Z.of_nat (length (respLayers (c_x s))) /\ isExpressSnoop (xp_pkt pkt) = false /\
      ((exists s0, c_out s !! xp_req pkt = Some (FromSlave s0 None) /\ s0 <> slave /\
          delay_ok c (c_now s) edge pkt (responseLatency c) /\ filter_ok s (SnoopResponse_ (xp_pkt pkt) slave s0)) \/
       (exists m, c_out s !! xp_req pkt = Some (FromMaster m) /\
          delay_ok c (c_now s) edge pkt (snoopResponseLatency c) /\ filter_ok s (SnoopForward_ (xp_pkt pkt) slave)))
  end.

(** The call of a port that was just told to retry by layer [k]. *)
Definition retry_enabled (c : XBarConf) (s : CSys) (edge : Z) (k : LayerId) (cl : option Call) : Prop :=
  c_now s <= edge /\ 0 < edge /\
  forall cl' p l, cl = Some cl' -> get_layer (c_x s) k = Some l -> head (XBar.waiting l) = Some p ->
    call_enabled c (mkCSys (c_now s) (c_x s) (unblock (c_blocked s) k (Some p)) (c_out s) (c_sf s)) edge cl' /\
    (call_layer s cl' = Some k -> call_src s cl' = p).

Definition cenabled (c : XBarConf) (s : CSys) (e : CEv) : Prop :=
  match e with
  | CAdvance t => c_now s <= t /\ forall k l u, get_layer (c_x s) k = Some l -> releaseEvent l = Some u -> t <= u
  | CCall edge cl => call_enabled c s edge cl
  | CSnoopReq sn pkt master =>
      bypassCaches (c_x s) = false /\ 0 <= master < Z.of_nat (length (reqLayers (c_x s))) /\
      isExpressSnoop (xp_pkt pkt) = true /\ snoop_ok sn /\ routed s pkt master /\ c_out s !! xp_req pkt = None /\
      filter_ok s (Snoop_ (xp_pkt pkt))
  | CRelease edge k cl =>
      (exists l, get_layer (c_x s) k = Some l /\ releaseEvent l = Some (c_now s)) /\ retry_enabled c s edge k cl
  | CReqRetry edge master cl =>
      0 <= master /\ (exists l, get_layer (c_x s) (LReq (Z.to_nat master)) = Some l /\ waitingForPeer l <> None) /\
      retry_enabled c s edge (LReq (Z.to_nat master)) cl
  | CDrain => True
  end.

(** ** Layers: lemmas *)

Section layer_lemmas.
Context (x : CoherentXBar) (k : LayerId).

Lemma get_with_bar b : get_layer (with_bar x b) k = get_layer x k.
Proof. by destruct k. Qed.
Lemma get_with_filter f : get_layer (with_filter x f) k = get_layer x k.
Proof. by destruct k. Qed.
Lemma get_with_tables r o : get_layer (with_tables x r o) k = get_layer x k.
Proof. by destruct k. Qed.
Lemma get_with_stats st : get_layer (with_stats x st) k = get_layer x k.
Proof. by destruct k. Qed.

Lemma get_set_eq l l' : get_layer x k = Some l -> get_layer (set_layer x k l') k = Some l'.
Proof.
  destruct k; cbn; unfold get_layer; cbn; intros Hl; apply list_lookup_insert_eq; by eapply lookup_lt_Some.
Qed.

Lemma get_set_ne k' l' : k' <> k -> get_layer (set_layer x k l') k' = get_layer x k'.
Proof.
  intros Hk. destruct k, k'; cbn; unfold get_layer; cbn; try done; rewrite list_lookup_insert_ne; congruence.
Qed.

Lemma read_layer_get l : get_layer x k = Some l -> read_layer x k = Ret l.
Proof. intros Hl. by apply vread_some. Qed.

Lemma set_set l l' : set_layer (set_layer x k l) k l' = set_layer x k l'.
Proof. destruct x, k; unfold set_layer; cbn; by rewrite list_insert_insert_eq. Qed.
End layer_lemmas.

Ltac glayers :=
  repeat first [rewrite get_with_bar | rewrite get_with_filter | rewrite get_with_tables | rewrite get_with_stats].

(** Lengths of the vectors of layers. *)
Definition same_lengths (x x' : CoherentXBar) : Prop :=
  length (reqLayers x') = length (reqLayers x) /\ length (respLayers x') = length (respLayers x) /\
  length (snoopLayers x') = length (snoopLayers x).

Lemma set_lengths x k l : same_lengths x (set_layer x k l).
Proof. destruct k; unfold same_lengths; cbn; by rewrite ?length_insert. Qed.

(** A layer that lets a port in, or turns it away without failing. *)
Definition admits (l : Layer) (src : nat) : Prop :=
  (state l <> BUSY /\ waitingForPeer l = None /\ releaseEvent l = None) \/
  ((state l = BUSY \/ waitingForPeer l <> None) /\ src ∉ waitingForLayer l).

Lemma inv_admits now l b src : layer_inv (mkSys now l b) -> src ∉ b -> admits l src.
Proof.
  intros [Hst _ Hb] Hsrc. cbn in *. unfold admits. destruct (decide (state l = BUSY \/ waitingForPeer l <> None)) as [H | H].
  - right. split; [done|]. rewrite Hb in Hsrc. unfold XBar.waiting in Hsrc. set_solver.
  - left. destruct (state l); [|naive_solver|done]. destruct (waitingForPeer l); [naive_solver|]. naive_solver.
Qed.

(** [use_layer] in its two cases. *)
Definition taken_layer (l : Layer) (src : nat) : Layer := with_queue l (waitingForLayer l ++ [src]).
Definition is_taken (l : Layer) : bool := is_state l BUSY || negb (is_none (waitingForPeer l)).

Lemma try_layer_ok x k l src :
  get_layer x k = Some l -> admits l src ->
  try_layer x k src = Ret (negb (is_taken l), set_layer x k (if is_taken l then taken_layer l src else with_state l BUSY)).
Proof.
  intros Hl Ha. unfold try_layer. rewrite (read_layer_get x k l Hl). cbn [mbind res_bind]. unfold tryTiming.
  fold (is_taken l). destruct (is_taken l) eqn:E; cbn [negb]; [|done].
  destruct Ha as [(H1 & H2 & _) | [_ Hs]].
  - unfold is_taken, is_state in E. rewrite bool_decide_false, H2 in E by done. done.
  - rewrite cassert_true by (by apply bool_decide_true). done.
Qed.

Lemma admits_free l src : admits l src -> is_taken l = false ->
  state l <> BUSY /\ waitingForPeer l = None /\ releaseEvent l = None.
Proof.
  intros [? | [H _]] E; [done|]. unfold is_taken, is_state in E. apply orb_false_iff in E as [E1 E2].
  apply bool_decide_eq_false in E1. destruct H as [? | H]; [done|]. by destruct (waitingForPeer l).
Qed.

(** The second half: the packet is sent, or refused, after the layer was taken. *)
Lemma succeeded_ok l src now t :
  admits l src -> is_taken l = false -> future now t ->
  exists l', succeededTiming (with_state l BUSY) now t = Ret l' /\ use_layer l src now t true = Ret (true, l').
Proof.
  intros Ha E Ht. destruct (admits_free _ _ Ha E) as (H1 & H2 & H3). destruct l as [st dr dn q pr rel oc]. cbn in H1, H2, H3. subst.
  rewrite use_layer_free by done. eexists; split; [|done].
  unfold succeededTiming, is_state. cbn. unfold with_state; cbn. by rewrite occupyLayer_eq.
Qed.

Lemma failed_ok l src now t :
  admits l src -> is_taken l = false -> future now t ->
  exists l', failedTiming (with_state l BUSY) src now t = Ret l' /\ use_layer l src now t false = Ret (true, l').
Proof.
  intros Ha E Ht. destruct (admits_free _ _ Ha E) as (H1 & H2 & H3). destruct l as [st dr dn q pr rel oc]. cbn in H1, H2, H3. subst.
  rewrite use_layer_free by done. eexists; split; [|done].
  unfold failedTiming, is_state. cbn. unfold with_state, with_peer; cbn. by rewrite occupyLayer_eq.
Qed.

Lemma turned_away l src now t fwd :
  admits l src -> is_taken l = true -> use_layer l src now t fwd = Ret (false, taken_layer l src).
Proof.
  intros Ha E. assert (Htk : state l = BUSY \/ waitingForPeer l <> None).
  { unfold is_taken, is_state in E. apply orb_true_iff in E as [E | E]; [left; by apply bool_decide_eq_true in E|right].
    by destruct (waitingForPeer l). }
  apply use_layer_taken; [done|]. destruct Ha as [(? & ? & ?) | [_ ?]]; [naive_solver|done].
Qed.

Lemma on_layer_ok x k l f l' : get_layer x k = Some l -> f l = Ret l' -> on_layer x k f = Ret (set_layer x k l').
Proof. intros Hl Hf. unfold on_layer. rewrite (read_layer_get _ _ _ Hl). cbn [mbind res_bind]. by rewrite Hf. Qed.

(** What a call does to the layers. *)
Definition layers_after (x x' : CoherentXBar) (now : Z) (k : option LayerId) (src : nat) (ok : bool) : Prop :=
  same_lengths x x' /\
  match k with
  | None => forall k', get_layer x' k' = get_layer x k'
  | Some k => exists t fwd b l l', future now t /\ get_layer x k = Some l /\ use_layer l src now t fwd = Ret (b, l') /\
      ok = b && fwd /\ get_layer x' k = Some l' /\ forall k', k' <> k -> get_layer x' k' = get_layer x k'
  end.

(** ** Packets on their way *)

Lemma with_payload_same p : with_payload p (pkt_payloadDelay p) = p.
Proof. by destruct p. Qed.
Lemma with_flags_same p : with_flags p (pkt_flags p) = p.
Proof. by destruct p. Qed.
Lemma with_flags_twice p f g : with_flags (with_flags p f) g = with_flags p g.
Proof. done. Qed.

Lemma u32_nonneg z : 0 <= u32 z.
Proof. unfold wrap. apply Z.mod_pos_bound. lia. Qed.

Lemma calc_ok c now edge pkt cycles :
  width c <> 0 -> delay_ok c now edge pkt cycles ->
  exists d h, calcPacketTiming c now edge pkt (cycles * xb_period c)
    = Ret (mkXPkt (with_payload (xp_pkt pkt) d) (xp_req pkt) h) /\ 0 <= d.
Proof.
  intros Hw (Hn & Hp & Hd). unfold calcPacketTiming. cbn [xp_headerDelay with_header].
  unfold panic_if. rewrite (proj2 (Z.ltb_ge _ _)) by done. cbn [mbind res_bind xp_pkt with_header].
  destruct (cmd_hasData (pkt_cmd (xp_pkt pkt))).
  - unfold divCeil. rewrite (proj2 (Z.eqb_neq (width c) 0)) by done. cbn [mbind res_bind].
    eexists _, _. split; [done|]. apply u32_nonneg.
  - exists (pkt_payloadDelay (xp_pkt pkt)). eexists. split; [|done]. by rewrite with_payload_same.
Qed.

(** The ports a snoop goes to. *)
Definition snooped_ports (exclude : Z) (dests : list Z) : list Z :=
  filter (fun d => exclude = InvalidPortID \/ d <> exclude) dests.

Lemma forward_loop_ok sn exclude req dests : snoop_ok sn -> forall p n,
  exists f, forward_loop sn exclude req dests p n
    = ((fun d => SentSnoop d req) <$> snooped_ports exclude dests, with_flags p f,
       n + Z.of_nat (length (snooped_ports exclude dests))) /\
    (memInhibitAsserted p = true -> memInhibitAsserted (with_flags p f) = true).
Proof.
  intros Hsn. induction dests as [|d dests IH]; intros p n.
  - exists (pkt_flags p). rewrite with_flags_same. cbn. split; [|done]. do 2 f_equal. lia.
  - cbn [forward_loop]. unfold snooped_ports. rewrite filter_cons. destruct (decide (exclude = InvalidPortID \/ d <> exclude)) as [H | H].
    + replace ((exclude =? InvalidPortID) || negb (d =? exclude)) with true; cycle 1.
      { symmetry. destruct H as [-> | H]; [by rewrite Z.eqb_refl|]. by rewrite (proj2 (Z.eqb_neq d exclude)), orb_true_r. }
      destruct (Hsn d p) as (f & Ef & Hf). destruct (IH (sn d p) (n + 1)) as (g & Eg & Hg). rewrite Eg.
      exists g. rewrite Ef, with_flags_twice in *. split; [|by auto]. cbn. f_equal. fold (snooped_ports exclude dests). lia.
    + replace ((exclude =? InvalidPortID) || negb (d =? exclude)) with false; cycle 1.
      { symmetry. apply orb_false_iff. split; [apply Z.eqb_neq; tauto|]. apply negb_false_iff, Z.eqb_eq.
        destruct (decide (d = exclude)); tauto. }
      apply IH.
Qed.

Lemma forwardTiming_ok x sn p exclude dests :
  bypassCaches x = false -> snoop_ok sn ->
  exists f n, forwardTiming x sn p exclude dests
    = Ret ((fun d => SentSnoop d (xp_req p)) <$> snooped_ports exclude dests,
        mkXPkt (with_flags (xp_pkt p) f) (xp_req p) (xp_headerDelay p), sample_fanout x n) /\
    (memInhibitAsserted (xp_pkt p) = true -> memInhibitAsserted (with_flags (xp_pkt p) f) = true).
Proof.
  intros Hb Hsn. unfold forwardTiming. rewrite Hb. cbn [negb cassert mbind res_bind].
  destruct (forward_loop_ok sn exclude (xp_req p) dests Hsn (xp_pkt p) 0) as (f & -> & Hf). by eexists _, _.
Qed.

(** The filter reads the command, the request, the address and the flags only. *)
Lemma updateRequest_agree sf p q i r :
  pkt_req p = pkt_req q -> pkt_addr p = pkt_addr q -> pkt_cmd p = pkt_cmd q -> updateRequest sf p i r = updateRequest sf q i r.
Proof. intros E1 E2 E3. unfold updateRequest, line_addr. by rewrite E1, E2, E3. Qed.

Lemma sf_run_request sy p i ok sy' :
  sf_run (Request_ p i ok) sy = Ret sy' ->
  exists sf1 dests lat, lookupRequest (sys_filter sy) p i = Ret (sf1, (dests, lat)) /\
    updateRequest sf1 p i (negb ok) = Ret (sys_filter sy').
Proof.
  unfold sf_run. intros H. apply bind_Ret in H as ([sf1 [dests lat]] & E1 & H). apply bind_Ret in H as (sf2 & E2 & H).
  injection H as <-. by exists sf1, dests, lat.
Qed.

(** Lookups take the time of the filter, which no operation changes. *)
Lemma lookupRequest_latency sf p i sf1 dests lat :
  lookupRequest sf p i = Ret (sf1, (dests, lat)) -> lat = lookupLatency sf /\ lookupLatency sf1 = lookupLatency sf.
Proof.
  unfold lookupRequest. intros H. apply bind_Ret in H as (rp & _ & H). apply bind_Ret in H as (sf' & E & H).
  apply bind_Ret in H as (l & _ & H). injection H as <- _ <-.
  assert (Hl : lookupLatency sf' = lookupLatency sf); [|done].
  destruct (_ && _); [|by injection E as <-]. destruct (negb _); apply bind_Ret in E as (u & _ & E); by injection E as <-.
Qed.
Lemma updateRequest_latency sf p i r sf1 : updateRequest sf p i r = Ret sf1 -> lookupLatency sf1 = lookupLatency sf.
Proof.
  unfold updateRequest. destruct (req_isUncacheable _); [by intros [= <-]|]. intros H. apply bind_Ret in H as (rp & _ & H).
  destruct r; [by injection H as <-|]. destruct (negb _); [|by injection H as <-]. destruct (bool_decide _); [|done].
  apply bind_Ret in H as (? & _ & H). apply bind_Ret in H as (? & _ & H). by injection H as <-.
Qed.

Lemma sf_run_latency o sy sy' :
  sf_run o sy = Ret sy' -> lookupLatency (sys_filter sy') = lookupLatency (sys_filter sy).
Proof.
  destruct o as [p i ok|p i|p|p i j|p i|a i]; unfold sf_run; intros H.
  - apply bind_Ret in H as ([sf1 [dests lat]] & E1 & H). apply bind_Ret in H as (sf2 & E2 & H). injection H as <-. cbn.
    apply lookupRequest_latency in E1 as [_ E1]. apply updateRequest_latency in E2. congruence.
  - apply bind_Ret in H as (sf1 & E1 & H). assert (E : lookupLatency sf1 = lookupLatency (sys_filter sy)).
    { unfold updateResponse in E1. apply bind_Ret in E1 as (? & _ & E1). destruct (req_isUncacheable _); [by injection E1 as <-|].
      apply bind_Ret in E1 as (? & _ & E1). apply bind_Ret in E1 as (? & _ & E1). by injection E1 as <-. }
    destruct (cacheable p); by injection H as <-.
  - apply bind_Ret in H as ([sf1 [dests lat]] & E1 & H). injection H as <-. cbn. unfold lookupSnoop in E1.
    apply bind_Ret in E1 as (? & _ & E1). apply bind_Ret in E1 as (? & _ & E1). apply bind_Ret in E1 as (? & _ & E1).
    injection E1 as <- _ _. by destruct (_ && _).
  - apply bind_Ret in H as (sf1 & E1 & H). assert (E : lookupLatency sf1 = lookupLatency (sys_filter sy)).
    { unfold updateSnoopResponse in E1. apply bind_Ret in E1 as (? & _ & E1). apply bind_Ret in E1 as (? & _ & E1).
      destruct (req_isUncacheable _); [by injection E1 as <-|]. apply bind_Ret in E1 as (? & _ & E1).
      apply bind_Ret in E1 as (? & _ & E1). apply bind_Ret in E1 as (? & _ & E1). apply bind_Ret in E1 as (? & _ & E1).
      apply bind_Ret in E1 as (? & _ & E1). by injection E1 as <-. }
    destruct (cacheable p); by injection H as <-.
  - apply bind_Ret in H as (sf1 & E1 & H). injection H as <-. cbn. unfold updateSnoopForward in E1.
    apply bind_Ret in E1 as (? & _ & E1). apply bind_Ret in E1 as (? & _ & E1). apply bind_Ret in E1 as (? & _ & E1).
    injection E1 as <-. by destruct (cmd_needsExclusive _).
  - by injection H as <-.
Qed.

(** ** The tables and the filter: invariant *)

Record core_inv (x : CoherentXBar) (out : gmap nat Origin) (sf : option system) : Prop := {
  ki_route : route_ok (cx_bar x) /\ tree_wf (portMap (cx_bar x)) /\ gotAllAddrRanges (cx_bar x) = true;
  ki_ids a m : route (cx_bar x) a = Some m -> 0 <= m < Z.of_nat (length (reqLayers x));
  ki_lens : length (snoopLayers x) = length (reqLayers x);
  ki_table : routeTo x = origin_port <$> out;
  ki_snoop id : id ∈ outstandingSnoop x <-> exists s, out !! id = Some (FromSlave s None);
  ki_ports id o : out !! id = Some o ->
    match o with
    | FromSlave s _ => 0 <= s < Z.of_nat (length (respLayers x))
    | FromMaster m => 0 <= m < Z.of_nat (length (reqLayers x))
    end;
  ki_filter : snoopFilter x = sys_filter <$> sf;
  ki_sf sy : sf = Some sy -> sf_inv sy /\ 0 <= lookupLatency (sys_filter sy)
}.

Definition conf_ok (c : XBarConf) : Prop := 0 < xb_period c /\ width c <> 0.

(** A state that agrees with [x] on what the invariant speaks of, but for the
    tables and the filter. *)
Lemma core_inv_update x x' out out' sf sf' :
  core_inv x out sf -> same_lengths x x' ->
  (forall a, route (cx_bar x') a = route (cx_bar x) a) ->
  route_ok (cx_bar x') /\ tree_wf (portMap (cx_bar x')) /\ gotAllAddrRanges (cx_bar x') = true ->
  routeTo x' = origin_port <$> out' ->
  (forall id, id ∈ outstandingSnoop x' <-> exists s, out' !! id = Some (FromSlave s None)) ->
  (forall id o, out' !! id = Some o -> out !! id = Some o \/
     match o with
     | FromSlave s _ => 0 <= s < Z.of_nat (length (respLayers x))
     | FromMaster m => 0 <= m < Z.of_nat (length (reqLayers x))
     end) ->
  snoopFilter x' = sys_filter <$> sf' -> (forall sy, sf' = Some sy -> sf_inv sy /\ 0 <= lookupLatency (sys_filter sy)) ->
  core_inv x' out' sf'.
Proof.
  intros [H1 H2 H3 H4 H5 H6 H7 H8] (L1 & L2 & L3) Hr Hrok Ht Hs Hp Hf Hsf. split; try done.
  - intros a m Ha. rewrite Hr in Ha. rewrite L1. by eapply H2.
  - congruence.
  - intros id o Ho. destruct (Hp id o Ho) as [Ho' | Ho']; [apply H6 in Ho'|]; destruct o; congruence.
Qed.

(** A step of the filter that is enabled succeeds. *)
Lemma filter_step sf o :
  (forall sy, sf = Some sy -> sf_inv sy /\ 0 <= lookupLatency (sys_filter sy)) ->
  (forall sy, sf = Some sy -> sf_enabled o sy) ->
  (forall sy, sf = Some sy -> exists sy', sf_run o sy = Ret sy' /\ track_filter (Some o) sf = Some sy') /\
  (sf = None -> track_filter (Some o) sf = None) /\
  (forall sy, track_filter (Some o) sf = Some sy -> sf_inv sy /\ 0 <= lookupLatency (sys_filter sy)).
Proof.
  intros Hinv Hen. destruct sf as [sy|]; cbn; [|done].
  destruct (Hinv sy eq_refl) as [Hi Hl]. destruct (sf_step_ok sy Hi o (Hen sy eq_refl)) as (sy' & E & Hi').
  rewrite E. split_and!; [|done|].
  - intros ? [= <-]. by exists sy'.
  - intros ? [= <-]. split; [done|]. by rewrite (sf_run_latency _ _ _ E).
Qed.

Lemma sf_enabled_any p i ok sy :
  (memInhibitAsserted p = true -> ok = true) -> sf_enabled (Request_ p i true) sy -> sf_enabled (Request_ p i ok) sy.
Proof.
  intros Hok (H1 & H2 & H3). split; [done|]. split; [done|]. intros Hc. specialize (H3 Hc).
  destruct (cmd_needsResponse _); [|done]. destruct (memInhibitAsserted p) eqn:E; [|done].
  rewrite Hok by done. done.
Qed.

Section request.
Context (c : XBarConf) (now edge : Z) (Hc : conf_ok c).
Context (x : CoherentXBar) (out : gmap nat Origin) (sf : option system) (Hinv : core_inv x out sf).

(** The ports a request is shown to. *)
Definition snoops_to (p : Packet) (slave : Z) (ds : list Z) : Prop :=
  if bypassCaches x then ds = []
  else match sf with
       | None => ds = snooped_ports slave (snoopPorts x)
       | Some sy => exists sf1 ds0 l, lookupRequest (sys_filter sy) p slave = Ret (sf1, (ds0, l)) /\
                      ds = snooped_ports slave ds0
       end.

(** The snoops of a request. *)
Lemma snoop_request_ok y sn p slave :
  snoopFilter y = snoopFilter x -> bypassCaches y = bypassCaches x -> snoop_ok sn ->
  (bypassCaches x = false -> forall sy, sf = Some sy -> sf_enabled (Request_ (xp_pkt p) slave true) sy) ->
  exists dests f h flt st lat,
    snoop_request c y sn p slave
    = Ret ((fun d => SentSnoop d (xp_req p)) <$> dests, mkXPkt (with_flags (xp_pkt p) f) (xp_req p) h,
           with_stats (with_filter y flt) st, lat) /\
    0 <= lat /\ (memInhibitAsserted (xp_pkt p) = true -> memInhibitAsserted (with_flags (xp_pkt p) f) = true) /\
    slave ∉ (if decide (slave = InvalidPortID) then [] else dests) /\
    (if bypassCaches x then flt = snoopFilter x /\ dests = []
     else match sf with
          | None => flt = None /\ dests = snooped_ports slave (snoopPorts y)
          | Some sy => exists sf1 ds l, lookupRequest (sys_filter sy) (xp_pkt p) slave = Ret (sf1, (ds, l)) /\ flt = Some sf1 /\
                         dests = snooped_ports slave ds
          end).
Proof.
  intros Hf Hb Hsn Hen. unfold snoop_request. rewrite Hb. destruct (bypassCaches x) eqn:Eb.
  { exists [], (pkt_flags (xp_pkt p)), (xp_headerDelay p), (snoopFilter y), (cx_stats y), 0. rewrite with_flags_same.
    split_and!; [|lia|done| |done|done].
    - destruct y, p; done.
    - case_decide; set_solver. }
  rewrite Hf, (ki_filter _ _ _ Hinv). destruct sf as [sy|]; cbn [fmap option_fmap option_map].
  - destruct (ki_sf _ _ _ Hinv sy eq_refl) as [Hi Hl]. destruct (sf_step_ok sy Hi _ (Hen eq_refl sy eq_refl)) as (sy' & E & _).
    apply sf_run_request in E as (sf1 & ds & lat & E1 & _). rewrite E1. cbn [mbind res_bind].
    apply lookupRequest_latency in E1 as Elat. destruct Elat as [-> _].
    edestruct (forwardTiming_ok (with_filter y (Some sf1)) sn (with_header p (u32 (xp_headerDelay p
      + lookupLatency (sys_filter sy) * xb_period c))) slave ds) as (f & n & Ef & Hinh); [by cbn; rewrite Hb|done|].
    rewrite Ef. cbn [mbind res_bind]. eexists (snooped_ports slave ds), f, _, (Some sf1), _, _.
    split_and!; [reflexivity| |done| |by exists sf1, ds, (lookupLatency (sys_filter sy))].
    + destruct Hc. nia.
    + case_decide; [set_solver|]. unfold snooped_ports. rewrite list_elem_of_filter. naive_solver.
  - edestruct (forwardTiming_ok y sn p slave (snoopPorts y)) as (f & n & Ef & Hinh); [by rewrite Hb|done|].
    rewrite Ef. cbn [mbind res_bind].
    exists (snooped_ports slave (snoopPorts y)), f, (xp_headerDelay p), None, (cx_stats (sample_fanout y n)), 0.
    assert (Hfn : snoopFilter y = None) by (by rewrite Hf, (ki_filter _ _ _ Hinv)).
    split_and!; [|lia|done| |done|done].
    + do 2 f_equal. unfold sample_fanout, with_stats, with_filter. cbn. by rewrite Hfn.
    + case_decide; [set_solver|]. unfold snooped_ports. rewrite list_elem_of_filter. naive_solver.
Qed.

(** The update of the filter after the request was sent or refused. *)
Lemma update_request_ok z p q orig slave b flt :
  snoopFilter z = flt -> bypassCaches z = bypassCaches x ->
  (if bypassCaches x then flt = snoopFilter x
   else match sf with
        | None => flt = None
        | Some sy => exists sf1 ds l, lookupRequest (sys_filter sy) p slave = Ret (sf1, (ds, l)) /\ flt = Some sf1
        end) ->
  pkt_req q = pkt_req p -> pkt_addr q = pkt_addr p -> orig = pkt_cmd p ->
  (memInhibitAsserted p = true -> b = true) ->
  (bypassCaches x = false -> forall sy, sf = Some sy -> sf_enabled (Request_ p slave true) sy) ->
  let sf' := track_filter (if bypassCaches x then None else Some (Request_ p slave b)) sf in
  update_filter z (fun s => updateRequest s (with_cmd q orig) slave (negb b)) (negb (bypassCaches z))
  = Ret (with_filter z (sys_filter <$> sf')) /\
  (forall sy, sf' = Some sy -> sf_inv sy /\ 0 <= lookupLatency (sys_filter sy)).
Proof.
  intros Hz Hb Hflt E1 E2 E3 Hok Hen. cbn zeta. unfold update_filter. rewrite Hb, Hz.
  assert (Hid : forall f, snoopFilter z = f -> z = with_filter z f) by (intros f <-; by destruct z).
  destruct (bypassCaches x) eqn:Eb; cbn [negb].
  - cbn [track_filter]. subst flt. rewrite <- (ki_filter _ _ _ Hinv).
    split; [f_equal; by apply Hid|]. destruct sf; apply (ki_sf _ _ _ Hinv).
  - destruct (filter_step sf (Request_ p slave b) (ki_sf _ _ _ Hinv)) as (Hrun & Hnone & Hkeep).
    { intros sy Hsy. apply sf_enabled_any; [done|]. by apply Hen. }
    split; [|done]. destruct sf as [sy|].
    + destruct Hflt as (sf1 & ds & l & El & ->). destruct (Hrun sy eq_refl) as (sy' & Er & ->).
      apply sf_run_request in Er as (sf1' & ds' & l' & El' & Eu). rewrite El in El'. injection El' as <- <- <-.
      rewrite (updateRequest_agree _ (with_cmd q orig) p) by (cbn; congruence). rewrite Eu. done.
    + subst flt. rewrite Hflt in *. cbn. f_equal. by apply Hid.
Qed.

Lemma track_snoops cl ds id m : foldl (track_output cl) m ((fun d => SentSnoop d id) <$> ds) = m.
Proof. revert m. induction ds as [|d ds IH]; intros m; [done|]. cbn. by destruct cl. Qed.

Lemma track_request pr pkt slave ds id master p b m :
  track_call (CallReq pr pkt slave) (((fun d => SentSnoop d id) <$> ds) ++ [SentReq master id p b]) m
  = track_output (CallReq pr pkt slave) m (SentReq master id p b).
Proof. unfold track_call. rewrite foldl_app, track_snoops. done. Qed.

(** The tables after a request that was sent. *)
Lemma request_tables z pkt slave master p2 :
  routeTo z = routeTo x -> outstandingSnoop z = outstandingSnoop x -> xp_req p2 = xp_req pkt ->
  isExpressSnoop (xp_pkt pkt) = false ->
  out !! xp_req pkt = None -> Z.of_nat (size out) < 512 ->
  let e1 := memInhibitAsserted (xp_pkt p2) in
  let e2 := cmd_needsResponse (pkt_cmd (xp_pkt p2)) && negb (memInhibitAsserted (xp_pkt p2)) in
  let out' := track_output (CallReq (mkPeers (fun _ p => p) (fun p => (true, p))) pkt slave) out
                (SentReq master (xp_req pkt) (xp_pkt p2) true) in
  exists r o,
    ((z ← (if e1 then
             _ ← cassert (bool_decide (xp_req p2 ∉ outstandingSnoop z));
             let o := {[xp_req p2]} ∪ outstandingSnoop z in
             _ ← panic_if (512 <? Z.of_nat (size o));
             Ret (with_tables z (routeTo z) o)
           else Ret z);
      (if e2 || e1 then
         _ ← cassert (bool_decide (routeTo z !! xp_req p2 = None));
         let r := <[xp_req p2 := slave]> (routeTo z) in
         _ ← panic_if (512 <? Z.of_nat (size r));
         Ret (with_tables z r (outstandingSnoop z))
       else Ret z)) : res CoherentXBar) = Ret (with_tables z r o) /\
    r = origin_port <$> out' /\ (forall id, id ∈ o <-> exists s, out' !! id = Some (FromSlave s None)) /\
    (forall id og, out' !! id = Some og -> out !! id = Some og \/ exists r, og = FromSlave slave r).
Proof.
  intros Hr Ho Hid Hex Hfresh Hsize. cbn zeta. unfold track_output. rewrite Hex, Hid.
  assert (Hno : xp_req pkt ∉ outstandingSnoop x) by (rewrite (ki_snoop _ _ _ Hinv); intros (s & Hs); congruence).
  assert (Hrno : routeTo x !! xp_req pkt = None) by (by rewrite (ki_table _ _ _ Hinv), lookup_fmap, Hfresh).
  assert (Hsub : outstandingSnoop x ⊆ dom out).
  { intros id. rewrite (ki_snoop _ _ _ Hinv), elem_of_dom. intros (s & ->). done. }
  assert (Hsz1 : Z.of_nat (size (outstandingSnoop x)) < 512).
  { apply subseteq_size in Hsub. rewrite size_dom in Hsub. lia. }
  assert (Hsz2 : size (routeTo x) = size out) by (by rewrite (ki_table _ _ _ Hinv), map_size_fmap).
  destruct (memInhibitAsserted (xp_pkt p2)) eqn:Ei; cbn [negb andb orb].
  - rewrite Ho, Hr. rewrite cassert_true by (by apply bool_decide_true). cbn [mbind res_bind].
    unfold panic_if. rewrite size_union, size_singleton by set_solver. rewrite (proj2 (Z.ltb_ge _ _)) by lia.
    cbn [mbind res_bind routeTo with_tables outstandingSnoop]. rewrite andb_false_r. cbn [orb].
    rewrite cassert_true by (by apply bool_decide_true). cbn [mbind res_bind].
    rewrite map_size_insert_None by done. rewrite (proj2 (Z.ltb_ge _ _)) by lia. cbn [mbind res_bind].
    eexists _, _. split; [reflexivity|]. rewrite fmap_insert, (ki_table _ _ _ Hinv). split_and!; [done| |].
    + intros id. rewrite elem_of_union, elem_of_singleton, (ki_snoop _ _ _ Hinv).
      destruct (decide (id = xp_req pkt)) as [-> | Hne].
      * rewrite lookup_insert_eq. split; [eauto|by left].
      * rewrite lookup_insert_ne by done. naive_solver.
    + intros id og. destruct (decide (id = xp_req pkt)) as [-> | Hne].
      * rewrite lookup_insert_eq. intros [= <-]. right. eauto.
      * rewrite lookup_insert_ne by done. by left.
  - cbn [mbind res_bind]. rewrite andb_true_r, orb_false_r. destruct (cmd_needsResponse _) eqn:En.
    + rewrite Hr. rewrite cassert_true by (by apply bool_decide_true). cbn [mbind res_bind]. unfold panic_if.
      rewrite map_size_insert_None by done. rewrite (proj2 (Z.ltb_ge _ _)) by lia. cbn [mbind res_bind].
      eexists _, _. split; [reflexivity|]. rewrite fmap_insert, (ki_table _ _ _ Hinv). split_and!; [done| |].
      * intros id. rewrite Ho, (ki_snoop _ _ _ Hinv). destruct (decide (id = xp_req pkt)) as [-> | Hne].
        -- rewrite lookup_insert_eq, Hfresh. naive_solver.
        -- by rewrite lookup_insert_ne.
      * intros id og. destruct (decide (id = xp_req pkt)) as [-> | Hne].
        -- rewrite lookup_insert_eq. intros [= <-]. right. eauto.
        -- rewrite lookup_insert_ne by done. by left.
    + exists (routeTo x), (outstandingSnoop x). split_and!; [|apply (ki_table _ _ _ Hinv)|apply (ki_snoop _ _ _ Hinv)|by left].
      rewrite <- Hr, <- Ho. by destruct z.
Qed.

(** Whether, and how, a call was answered. *)
Record call_result (cl : Call) (k : option LayerId) (src : nat) (ok : bool) (outs : list Output) (x' : CoherentXBar) : Prop := {
  cr_ok : ok = out_ok outs;
  cr_bypass : bypassCaches x' = bypassCaches x;
  cr_layers : layers_after x x' now k src ok;
  cr_core : core_inv x' (track_call cl outs out) (track_filter (sf_op_of (bypassCaches x) cl outs) sf);
  cr_route a : route (cx_bar x') a = route (cx_bar x) a
}.

Lemma port_index_ok i : 0 <= i -> port_index i = Ret (Z.to_nat i).
Proof. intros Hi. unfold port_index. by rewrite (proj2 (Z.ltb_ge i 0)) by lia. Qed.

Lemma last_snoops (ds : list Output) o : last (ds ++ [o]) = Some o.
Proof. apply last_snoc. Qed.

(** A packet that is turned away leaves only its port behind. *)
Lemma turned_away_result cl k src l b t :
  future now t -> get_layer x k = Some l -> admits l src -> is_taken l = true ->
  route_ok b -> tree_wf (portMap b) -> gotAllAddrRanges b = true -> (forall a, route b a = route (cx_bar x) a) ->
  call_result cl (Some k) src false [] (set_layer (with_bar x b) k (taken_layer l src)).
Proof.
  intros Ht Hl Ha Et B1 B2 B3 B4. assert (Hl' : get_layer (with_bar x b) k = Some l) by (by glayers).
  split; [done|done| | |done].
  - split; [apply (set_lengths (with_bar x b))|]. exists t, true, false, l, (taken_layer l src).
    split_and!; [done|done|by apply turned_away|done|by eapply get_set_eq|].
    intros k' Hk'. rewrite get_set_ne by done. by glayers.
  - assert (Es : track_filter (sf_op_of (bypassCaches x) cl []) sf = sf) by (by destruct cl).
    rewrite Es. eapply core_inv_update; [exact Hinv|apply (set_lengths (with_bar x b))|done|done| | | | |].
    + apply (ki_table _ _ _ Hinv).
    + apply (ki_snoop _ _ _ Hinv).
    + by left.
    + apply (ki_filter _ _ _ Hinv).
    + apply (ki_sf _ _ _ Hinv).
Qed.

Lemma recvTimingReq_ok pr pkt slave master l :
  0 <= slave < Z.of_nat (length (respLayers x)) ->
  isExpressSnoop (xp_pkt pkt) = memInhibitAsserted (xp_pkt pkt) ->
  route (cx_bar x) (pkt_addr (xp_pkt pkt)) = Some master -> inword 64 (pkt_addr (xp_pkt pkt)) ->
  stripe_aligned (portMap (cx_bar x)) (pkt_addr (xp_pkt pkt)) ->
  snoop_ok (peer_snoop pr) -> send_ok (peer_send pr) -> 0 < edge ->
  delay_ok c now edge pkt (frontendLatency c + forwardLatency c) ->
  (isExpressSnoop (xp_pkt pkt) = false -> out !! xp_req pkt = None /\ Z.of_nat (size out) < 512) ->
  (bypassCaches x = false -> forall sy, sf = Some sy -> sf_enabled (Request_ (xp_pkt pkt) slave true) sy) ->
  (isExpressSnoop (xp_pkt pkt) = false ->
   get_layer x (LReq (Z.to_nat master)) = Some l /\ admits l (Z.to_nat slave)) ->
  exists ok outs p x', recvTimingReq c now edge x pr pkt slave = Ret (ok, outs, p, x') /\
    call_result (CallReq pr pkt slave) (if isExpressSnoop (xp_pkt pkt) then None else Some (LReq (Z.to_nat master)))
      (Z.to_nat slave) ok outs x' /\
    (outs = [] \/ exists ds q b, outs = ((fun d => SentSnoop d (xp_req pkt)) <$> ds) ++ [SentReq master (xp_req pkt) q b] /\
       slave ∉ ds /\ snoops_to (xp_pkt pkt) slave ds).
Proof.
  intros Hslave Hexp Hroute Haddr Hal Hsn Hsend Hedge Hdelay Hfresh Hsf Hlayer.
  destruct (ki_route _ _ _ Hinv) as (Hrok & Htree & Hall).
  pose proof (findPort_route _ _ Hrok Htree Hall Haddr Hal) as Hfind. rewrite Hroute in Hfind.
  destruct Hfind as (bar & Ebar & Brok & Bmap & Broute & Ball).
  pose proof (ki_ids _ _ _ Hinv _ _ Hroute) as Hm. destruct Hc as [Hper Hwid].
  destruct (calc_ok c now edge pkt _ Hwid Hdelay) as (d & h & Ecalc & Hd).
  assert (Hnow : now <= edge) by apply Hdelay.
  assert (Btree : tree_wf (portMap bar)) by (by rewrite Bmap).
  unfold recvTimingReq. rewrite port_index_ok by lia. cbn [mbind res_bind].
  rewrite Hexp, eqb_reflx. cbn [cassert mbind res_bind]. rewrite Ebar. cbn [mbind res_bind].
  rewrite (port_index_ok master) by lia. cbn [mbind res_bind]. rewrite <- ?Hexp.
  set (x0 := with_bar x bar).
  destruct (isExpressSnoop (xp_pkt pkt)) eqn:Eexp; cbn [mbind res_bind negb].
  - (* express snoops bypass the layers *)
    rewrite Ecalc. cbn [mbind res_bind].
    destruct (snoop_request_ok x0 (peer_snoop pr) (mkXPkt (with_payload (xp_pkt pkt) d) (xp_req pkt) h) slave)
      as (ds & f & h' & flt & st & lat & Esn & Hlat & Hinh & Hds & Hflt); [done|done|done|exact Hsf|].
    rewrite Esn. cbn [mbind res_bind xp_pkt]. cbn [xp_pkt] in Hinh. set (q0 := with_flags (with_payload (xp_pkt pkt) d) f) in *.
    assert (Hq0 : memInhibitAsserted q0 = true) by (apply Hinh; symmetry; exact Hexp).
    destruct (Hsend q0) as (Hs1 & _ & Hs3 & Hs4). specialize (Hs1 Hq0).
    destruct (peer_send pr q0) as [b q] eqn:Ep. cbn in Hs1, Hs3, Hs4. subst b.
    rewrite decide_False in Hds by (unfold InvalidPortID; lia).
    assert (Hto : snoops_to (xp_pkt pkt) slave ds).
    { unfold snoops_to. destruct (bypassCaches x); [tauto|]. destruct sf as [sy|]; [|tauto].
      destruct Hflt as (sf1 & ds0 & l0 & ? & _ & ?). by exists sf1, ds0, l0. }
    edestruct (update_request_ok (with_stats (with_filter x0 flt) st) (xp_pkt pkt) q (pkt_cmd q0) slave true flt)
      as [Eup Hkeep]; [done|done| |exact Hs3|exact Hs4|done|done|exact Hsf|].
    { destruct (bypassCaches x); [tauto|]. destruct sf as [sy|]; [|tauto]. destruct Hflt as (sf1 & ds0 & l0 & ? & ? & _).
      by exists sf1, ds0, l0. }
    cbn [with_pkt xp_pkt xp_req negb] in *. rewrite Eup. cbn [mbind res_bind negb].
    eexists _, _, _, _. split; [reflexivity|]. split; [|right; by eexists ds, _, _].
    split; [by unfold out_ok; rewrite last_snoops|done|split; [done|by intros []]| |done].
    rewrite track_request. cbn [track_output]. rewrite Eexp.
    assert (Eop : sf_op_of (bypassCaches x) (CallReq pr pkt slave)
              (((fun d0 => SentSnoop d0 (xp_req pkt)) <$> ds) ++ [SentReq master (xp_req pkt) q0 true])
              = if bypassCaches x then None else Some (Request_ (xp_pkt pkt) slave true)).
    { unfold sf_op_of. by rewrite last_snoops. }
    rewrite Eop. eapply core_inv_update; [exact Hinv|done|done|done| | |by left|done|exact Hkeep].
    + apply (ki_table _ _ _ Hinv).
    + apply (ki_snoop _ _ _ Hinv).
  - destruct (Hlayer eq_refl) as [Hl Ha]. destruct (Hfresh eq_refl) as [Hout Hsize].
    set (k := LReq (Z.to_nat master)) in *. assert (Hl0 : get_layer x0 k = Some l) by (unfold x0; by glayers).
    rewrite (try_layer_ok x0 k l _ Hl0 Ha). cbn [mbind res_bind]. destruct (is_taken l) eqn:Et; cbn [negb].
    { eexists _, _, _, _. split; [reflexivity|]. split; [|by left].
      by apply (turned_away_result _ k _ l bar (edge + xb_period c)); [unfold future; lia|..]. }
    rewrite Ecalc. cbn [mbind res_bind]. set (x1 := set_layer x0 k (with_state l BUSY)).
    destruct (snoop_request_ok x1 (peer_snoop pr) (mkXPkt (with_payload (xp_pkt pkt) d) (xp_req pkt) h) slave)
      as (ds & f & h' & flt & st & lat & Esn & Hlat & Hinh & Hds & Hflt); [done|done|done|exact Hsf|].
    rewrite Esn. cbn [mbind res_bind xp_pkt]. set (q0 := with_flags (with_payload (xp_pkt pkt) d) f) in *.
    destruct (Hsend q0) as (Hs1 & Hs2 & Hs3 & Hs4).
    destruct (peer_send pr q0) as [b q] eqn:Ep. cbn in Hs1, Hs2, Hs3, Hs4.
    rewrite decide_False in Hds by (unfold InvalidPortID; lia).
    assert (Hto : snoops_to (xp_pkt pkt) slave ds).
    { unfold snoops_to. destruct (bypassCaches x); [tauto|]. destruct sf as [sy|]; [|tauto].
      destruct Hflt as (sf1 & ds0 & l0 & ? & _ & ?). by exists sf1, ds0, l0. }
    edestruct (update_request_ok (with_stats (with_filter x1 flt) st) (xp_pkt pkt) q (pkt_cmd q0) slave b flt)
      as [Eup Hkeep]; [done|done| |exact Hs3|exact Hs4|done|congruence|exact Hsf|].
    { destruct (bypassCaches x); [tauto|]. destruct sf as [sy|]; [|tauto]. destruct Hflt as (sf1 & ds0 & l0 & ? & ? & _).
      by exists sf1, ds0, l0. }
    cbn [with_pkt xp_pkt xp_req negb] in *. rewrite Eup. cbn [mbind res_bind].
    set (sf' := track_filter _ sf) in *. set (x2 := with_filter _ (sys_filter <$> sf')).
    assert (Hl2 : get_layer x2 k = Some (with_state l BUSY)).
    { unfold x2, x1. glayers. by eapply get_set_eq. }
    assert (Hoth : forall k', k' <> k -> get_layer x2 k' = get_layer x k').
    { intros k' Hk'. unfold x2, x1. glayers. rewrite get_set_ne by done. unfold x0. by glayers. }
    assert (Eop : sf_op_of (bypassCaches x) (CallReq pr pkt slave)
              (((fun d0 => SentSnoop d0 (xp_req pkt)) <$> ds) ++ [SentReq master (xp_req pkt) q0 b])
              = if bypassCaches x then None else Some (Request_ (xp_pkt pkt) slave b)).
    { unfold sf_op_of. by rewrite last_snoops. }
    assert (Hlen2 : same_lengths x x2) by (apply (set_lengths x0)).
    destruct b; cbn [negb].
    + (* sent *)
      destruct (request_tables x2 pkt slave master (mkXPkt q0 (xp_req pkt) h')) as (r & o & Etab & Hr & Ho & Hp);
        [done|done|done|done|done|done|]. cbn [xp_pkt xp_req] in Etab.
      set (T := edge + xb_period c + pkt_payloadDelay (with_payload (xp_pkt pkt) d) + lat).
      assert (HT : future now T) by (unfold future, T; cbn; lia).
      destruct (succeeded_ok l (Z.to_nat slave) now T Ha Et HT) as (l' & El' & Huse).
      assert (Eon : on_layer (with_tables x2 r o) k (fun l => succeededTiming l now T) = Ret (set_layer (with_tables x2 r o) k l')).
      { eapply on_layer_ok; [by glayers|done]. }
      apply bind_Ret in Etab as (z & Ez1 & Ez2). rewrite <- ?Hexp, ?Eexp. cbn [negb andb]. rewrite Ez1. cbn [mbind res_bind].
      rewrite Ez2. cbn [mbind res_bind]. rewrite Eon. cbn [mbind res_bind].
      eexists _, _, _, _. split; [reflexivity|]. split; [|right; by eexists ds, _, _].
      split; [by unfold out_ok; rewrite last_snoops|done| | |done].
      * split; [unfold same_lengths in *; cbn in *; rewrite ?length_insert; done|].
        exists T, true, true, l, l'. split_and!; [done|done|done|done| |].
        -- unfold count_cmd, count_pkt. glayers. eapply get_set_eq. glayers. exact Hl2.
        -- intros k' Hk'. unfold count_cmd, count_pkt. glayers. rewrite get_set_ne by done. glayers. by apply Hoth.
      * rewrite track_request, Eop. fold sf'. eapply core_inv_update; [exact Hinv| |done|done|exact Hr|exact Ho| |done|exact Hkeep].
        -- unfold same_lengths in *; cbn in *; rewrite ?length_insert; done.
        -- intros id og Hog. destruct (Hp id og Hog) as [? | (rr & ->)]; [by left|right; done].
    + (* refused *)
      assert (Hni : memInhibitAsserted q = false).
      { rewrite (Hs2 eq_refl). destruct (memInhibitAsserted q0) eqn:E; [|done]. by specialize (Hs1 eq_refl). }
      rewrite Hni. cbn [cassert mbind res_bind negb].
      set (T := edge + xb_period c). assert (HT : future now T) by (unfold future, T; lia).
      destruct (failed_ok l (Z.to_nat slave) now T Ha Et HT) as (l' & El' & Huse).
      erewrite on_layer_ok; [|exact Hl2|exact El']. cbn [mbind res_bind].
      eexists _, _, _, _. split; [reflexivity|]. split; [|right; by eexists ds, _, _].
      split; [by unfold out_ok; rewrite last_snoops|done| | |done].
      * split; [unfold same_lengths in *; cbn in *; rewrite ?length_insert; done|].
        exists T, false, true, l, l'. split_and!; [done|done|done|done|by eapply get_set_eq|].
        intros k' Hk'. rewrite get_set_ne by done. by apply Hoth.
      * rewrite track_request, Eop. cbn [track_output]. fold sf'.
        eapply core_inv_update; [exact Hinv| |done|done| | |by left|done|exact Hkeep].
        -- unfold same_lengths in *; cbn in *; rewrite ?length_insert; done.
        -- apply (ki_table _ _ _ Hinv).
        -- apply (ki_snoop _ _ _ Hinv).
Qed.

(** The other updates of the filter. *)
Lemma update_filter_ok z f o active :
  snoopFilter z = snoopFilter x -> (forall sy sy', sf_run o sy = Ret sy' -> f (sys_filter sy) = Ret (sys_filter sy')) ->
  (active = true -> forall sy, sf = Some sy -> sf_enabled o sy) ->
  let sf' := track_filter (if active then Some o else None) sf in
  update_filter z f active = Ret (with_filter z (sys_filter <$> sf')) /\
  (forall sy, sf' = Some sy -> sf_inv sy /\ 0 <= lookupLatency (sys_filter sy)).
Proof.
  intros Hz Hf Hen. cbn zeta. unfold update_filter. rewrite Hz.
  assert (Hid : forall f, snoopFilter z = f -> z = with_filter z f) by (intros ? <-; by destruct z).
  destruct active.
  - destruct (filter_step sf o (ki_sf _ _ _ Hinv)) as (Hrun & Hnone & Hkeep); [by apply Hen|]. split; [|done].
    rewrite (ki_filter _ _ _ Hinv). destruct sf as [sy|]; cbn [fmap option_fmap option_map].
    + destruct (Hrun sy eq_refl) as (sy' & Er & ->). by rewrite (Hf _ _ Er).
    + cbn. f_equal. apply Hid. by rewrite Hz, (ki_filter _ _ _ Hinv).
  - cbn [track_filter]. rewrite <- (ki_filter _ _ _ Hinv). split; [f_equal; by apply Hid|]. destruct sf; apply (ki_sf _ _ _ Hinv).
Qed.

Lemma run_response p i sy sy' : sf_run (Response_ p i) sy = Ret sy' -> updateResponse (sys_filter sy) p i = Ret (sys_filter sy').
Proof. unfold sf_run. intros H. apply bind_Ret in H as (s1 & -> & H). destruct (cacheable p); by injection H as <-. Qed.
Lemma run_snoop_response p i j sy sy' :
  sf_run (SnoopResponse_ p i j) sy = Ret sy' -> updateSnoopResponse (sys_filter sy) p i j = Ret (sys_filter sy').
Proof. unfold sf_run. intros H. apply bind_Ret in H as (s1 & -> & H). destruct (cacheable p); by injection H as <-. Qed.
Lemma run_snoop_forward p i sy sy' :
  sf_run (SnoopForward_ p i) sy = Ret sy' -> updateSnoopForward (sys_filter sy) p i = Ret (sys_filter sy').
Proof. unfold sf_run. intros H. apply bind_Ret in H as (s1 & -> & H). by injection H as <-. Qed.

Lemma get_layer_some k : (layer_index k < length (layers_of x k))%nat -> exists l, get_layer x k = Some l.
Proof. intros H. apply lookup_lt_is_Some in H as [l Hl]. by exists l. Qed.

(** Removing an answered request. *)
Lemma delete_tables id s o :
  outstandingSnoop x ∖ {[id]} = o \/ (o = outstandingSnoop x /\ out !! id <> Some (FromSlave s None)) ->
  (forall s', out !! id = Some (FromSlave s' None) -> s' = s) ->
  delete id (routeTo x) = origin_port <$> delete id out /\
  (forall id', id' ∈ o <-> exists s', delete id out !! id' = Some (FromSlave s' None)).
Proof.
  intros Ho Hs. split; [by rewrite fmap_delete, (ki_table _ _ _ Hinv)|]. intros id'.
  destruct (decide (id' = id)) as [-> | Hne].
  - rewrite lookup_delete_eq. split; [|naive_solver]. intros Hin. exfalso. destruct Ho as [<- | [-> Hno]]; [set_solver|].
    apply (ki_snoop _ _ _ Hinv) in Hin as (s' & Hs'). rewrite (Hs s' Hs') in Hs'. done.
  - rewrite lookup_delete_ne by done. rewrite <- (ki_snoop _ _ _ Hinv). destruct Ho as [<- | [-> _]]; set_solver.
Qed.

Lemma recvTimingResp_ok pkt master slave l :
  0 <= master < Z.of_nat (length (reqLayers x)) -> 0 < edge ->
  delay_ok c now edge pkt (responseLatency c) -> out !! xp_req pkt = Some (FromSlave slave (Some master)) ->
  (bypassCaches x = false -> forall sy, sf = Some sy -> sf_enabled (Response_ (xp_pkt pkt) slave) sy) ->
  get_layer x (LResp (Z.to_nat slave)) = Some l -> admits l (master_src (Z.to_nat master)) ->
  exists ok outs p x', recvTimingResp c now edge x true pkt master = Ret (ok, outs, p, x') /\
    call_result (CallResp true pkt master) (Some (LResp (Z.to_nat slave))) (master_src (Z.to_nat master)) ok outs x' /\
    (outs = [] \/ outs = [SentResp slave (xp_req pkt)]).
Proof.
  intros Hm Hedge Hdelay Hout Hsf Hl Ha. pose proof (ki_ports _ _ _ Hinv _ _ Hout) as Hs. cbn in Hs.
  destruct Hc as [Hper Hwid]. destruct (calc_ok c now edge pkt _ Hwid Hdelay) as (d & h & Ecalc & Hd).
  assert (Hnow : now <= edge) by apply Hdelay.
  unfold recvTimingResp. rewrite port_index_ok by lia. cbn [mbind res_bind].
  assert (Hrt : routeTo x !! xp_req pkt = Some slave) by (by rewrite (ki_table _ _ _ Hinv), lookup_fmap, Hout).
  rewrite Hrt. rewrite (cassert_true (negb (slave =? InvalidPortID))) by (apply negb_true_iff, Z.eqb_neq; unfold InvalidPortID; lia). cbn [mbind res_bind].
  rewrite (cassert_true (slave <? _)) by (apply Z.ltb_lt; lia). cbn [mbind res_bind]. rewrite port_index_ok by lia. cbn [mbind res_bind].
  set (k := LResp (Z.to_nat slave)) in *. set (src := master_src (Z.to_nat master)) in *.
  rewrite (try_layer_ok x k l src Hl Ha). cbn [mbind res_bind]. destruct (is_taken l) eqn:Et; cbn [negb].
  { eexists _, _, _, _. split; [reflexivity|]. split; [|by left]. destruct (ki_route _ _ _ Hinv) as (R1 & R2 & R3).
    assert (Ex : with_bar x (cx_bar x) = x) by (by destruct x). rewrite <- Ex.
    by apply (turned_away_result _ k src l (cx_bar x) (edge + xb_period c)); [unfold future; lia|..]. }
  rewrite Ecalc. cbn [mbind res_bind xp_pkt]. set (x1 := set_layer x k (with_state l BUSY)).
  destruct (update_filter_ok x1 (fun s => updateResponse s (with_payload (xp_pkt pkt) d) slave) (Response_ (xp_pkt pkt) slave)
    (negb (bypassCaches x))) as [Eup Hkeep]; [done| | |].
  { intros sy sy' E. by apply run_response in E. }
  { intros E. apply negb_true_iff in E. by apply Hsf. }
  change (bypassCaches x1) with (bypassCaches x). rewrite Eup. cbn [mbind res_bind cassert].
  set (sf' := track_filter _ sf) in *. set (x2 := with_filter x1 _). set (x3 := with_tables x2 _ _).
  set (T := edge + xb_period c + pkt_payloadDelay (with_payload (xp_pkt pkt) d)).
  assert (HT : future now T) by (unfold future, T; cbn; lia).
  destruct (succeeded_ok l src now T Ha Et HT) as (l' & El' & Huse).
  assert (Hl3 : get_layer x3 k = Some (with_state l BUSY)).
  { unfold x3, x2, x1. glayers. by eapply get_set_eq. }
  erewrite on_layer_ok; [|exact Hl3|exact El']. cbn [mbind res_bind].
  eexists _, _, _, _. split; [reflexivity|]. split; [|by right].
  assert (Hlen : same_lengths x (set_layer x3 k l')).
  { pose proof (set_lengths x k (with_state l BUSY)) as L1. pose proof (set_lengths x3 k l') as L2.
    unfold same_lengths in *. cbn in *. rewrite ?length_insert in *. done. }
  destruct (delete_tables (xp_req pkt) slave (outstandingSnoop x)) as [Et1 Et2]; [|congruence|].
  { right. split; [done|]. congruence. }
  split; [done|done| | |done].
  - split; [exact Hlen|]. exists T, true, true, l, l'. split_and!; [done|done|done|done| |].
    + unfold count_cmd, count_pkt. glayers. by eapply get_set_eq.
    + intros k' Hk'. unfold count_cmd, count_pkt. glayers. rewrite get_set_ne by done. unfold x3, x2, x1. glayers. by rewrite get_set_ne.
  - assert (Eop : sf_op_of (bypassCaches x) (CallResp true pkt master) [SentResp slave (xp_req pkt)]
              = if negb (bypassCaches x) then Some (Response_ (xp_pkt pkt) slave) else None) by (cbn; by destruct (bypassCaches x)).
    rewrite Eop. fold sf'. cbn [track_call foldl track_output].
    eapply core_inv_update; [exact Hinv|exact Hlen|done|apply (ki_route _ _ _ Hinv)|exact Et1|exact Et2| |done|exact Hkeep].
    intros id o Hid. left. by apply lookup_delete_Some in Hid as [_ ?].
Qed.

(** The end of a snoop response: the layer, the filter and the tables. *)
Lemma snoop_response_end y k l src T f o id outs o' cl s0 :
  get_layer x k = Some l -> admits l src -> is_taken l = false -> future now T ->
  y = with_tables (set_layer x k (with_state l BUSY)) (routeTo x) o' ->
  (forall sy sy', sf_run o sy = Ret sy' -> f (sys_filter sy) = Ret (sys_filter sy')) ->
  (forall sy, sf = Some sy -> sf_enabled o sy) ->
  sf_op_of (bypassCaches x) cl outs = Some o -> out_ok outs = true -> track_call cl outs out = delete id out ->
  outstandingSnoop x ∖ {[id]} = o' \/ (o' = outstandingSnoop x /\ out !! id <> Some (FromSlave s0 None)) ->
  (forall s', out !! id = Some (FromSlave s' None) -> s' = s0) ->
  exists flt l', update_filter y f true = Ret (with_filter y flt) /\
    (forall st, on_layer (with_stats (with_filter y flt) st) k (fun l => succeededTiming l now T)
      = Ret (set_layer (with_stats (with_filter y flt) st) k l')) /\
    (forall st st', call_result cl (Some k) src true outs
       (with_stats (with_tables (set_layer (with_stats (with_filter y flt) st) k l') (delete id (routeTo x)) o') st')).
Proof.
  intros Hl Ha Et HT -> Hf Hen Hop Hok Htr Ho Hs0.
  set (y := with_tables _ _ _). destruct (update_filter_ok y f o true) as [Eup Hkeep]; [done|done|by intros _|].
  set (sf' := track_filter _ sf) in *.
  destruct (succeeded_ok l src now T Ha Et HT) as (l' & El' & Huse).
  exists (sys_filter <$> sf'), l'. split; [exact Eup|]. split.
  - intros st. eapply on_layer_ok; [|exact El']. unfold y. glayers. by eapply get_set_eq.
  - intros st st'. destruct (delete_tables id s0 o' Ho Hs0) as [Et1 Et2].
    set (x' := with_stats _ _).
    assert (Hlen : same_lengths x x').
    { unfold x', y, same_lengths. destruct k; cbn; rewrite ?length_insert; done. }
    split; [done|done| | |done].
    + split; [exact Hlen|]. exists T, true, true, l, l'. split_and!; [done|done|done|done| |].
      * unfold x', y. glayers. eapply get_set_eq. glayers. by eapply get_set_eq.
      * intros k' Hk'. unfold x', y. glayers. rewrite get_set_ne by done. glayers. by rewrite get_set_ne.
    + rewrite Htr, Hop. fold sf'.
      eapply core_inv_update; [exact Hinv|exact Hlen|done|apply (ki_route _ _ _ Hinv)|exact Et1|exact Et2| |done|exact Hkeep].
      intros id' og Hid. left. by apply lookup_delete_Some in Hid as [_ ?].
Qed.

Lemma recvTimingSnoopResp_ok pkt slave og l :
  0 <= slave < Z.of_nat (length (respLayers x)) -> 0 < edge -> isExpressSnoop (xp_pkt pkt) = false ->
  out !! xp_req pkt = Some og ->
  let k := match og with FromSlave s _ => LResp (Z.to_nat s) | FromMaster m => LSnoop (Z.to_nat m) end in
  let src := match og with FromSlave _ _ => snoopResp_src (Z.to_nat slave) | FromMaster _ => Z.to_nat slave end in
  match og with
  | FromSlave s r => r = None /\ s <> slave /\ delay_ok c now edge pkt (responseLatency c) /\
      (forall sy, sf = Some sy -> sf_enabled (SnoopResponse_ (xp_pkt pkt) slave s) sy)
  | FromMaster _ => delay_ok c now edge pkt (snoopResponseLatency c) /\
      (forall sy, sf = Some sy -> sf_enabled (SnoopForward_ (xp_pkt pkt) slave) sy)
  end ->
  get_layer x k = Some l -> admits l src ->
  exists ok outs p x', recvTimingSnoopResp c now edge x true pkt slave = Ret (ok, outs, p, x') /\
    call_result (CallSnoopResp true pkt slave) (Some k) src ok outs x' /\
    (outs = [] \/ outs = [match og with FromSlave s _ => SentResp s (xp_req pkt) | FromMaster m => SentSnoopResp m (xp_req pkt) end]).
Proof.
  intros Hslave Hedge Hexp Hout k src Hog Hl Ha. pose proof (ki_ports _ _ _ Hinv _ _ Hout) as Hs.
  destruct Hc as [Hper Hwid].
  assert (Hrt : routeTo x !! xp_req pkt = Some (origin_port og)) by (by rewrite (ki_table _ _ _ Hinv), lookup_fmap, Hout).
  assert (Hin : xp_req pkt ∈ outstandingSnoop x <-> exists s, og = FromSlave s None).
  { rewrite (ki_snoop _ _ _ Hinv), Hout. naive_solver. }
  assert (Htaken : is_taken l = true -> call_result (CallSnoopResp true pkt slave) (Some k) src false []
            (set_layer x k (taken_layer l src))).
  { intros Et. destruct (ki_route _ _ _ Hinv) as (R1 & R2 & R3). assert (Ex : with_bar x (cx_bar x) = x) by (by destruct x).
    rewrite <- Ex. apply (turned_away_result _ k src l (cx_bar x) (edge + xb_period c)); try done.
    destruct og; destruct Hog as (H1 & ?); unfold future; [destruct H as (_ & [? _] & _)|destruct H1]; lia. }
  unfold recvTimingSnoopResp. rewrite port_index_ok by lia. cbn [mbind res_bind]. rewrite Hrt.
  rewrite (cassert_true (negb (origin_port og =? InvalidPortID))); cycle 1.
  { apply negb_true_iff, Z.eqb_neq. unfold InvalidPortID. destruct og; cbn in *; lia. }
  cbn [mbind res_bind]. destruct og as [s0 r | m0]; cbn [origin_port] in *.
  - destruct Hog as (-> & Hne & Hdelay & Hsf). rewrite bool_decide_false by naive_solver.
    rewrite (cassert_true (s0 <? _)) by (apply Z.ltb_lt; lia). cbn [mbind res_bind]. rewrite (port_index_ok s0) by lia.
    cbn [mbind res_bind].
    change (try_layer x (LResp (Z.to_nat s0)) (snoopResp_src (Z.to_nat slave))) with (try_layer x k src).
    rewrite (try_layer_ok x k l src Hl Ha). cbn [mbind res_bind].
    destruct (is_taken l) eqn:Et; cbn [negb].
    { eexists _, _, _, _. split; [reflexivity|]. split; [by apply Htaken|by left]. }
    rewrite Hexp. cbn [negb cassert mbind res_bind].
    destruct (calc_ok c now edge pkt _ Hwid Hdelay) as (d & h & Ecalc & Hd). rewrite Ecalc. cbn [mbind res_bind xp_pkt].
    rewrite (cassert_true (negb (slave =? s0))) by (apply negb_true_iff, Z.eqb_neq; lia). cbn [mbind res_bind].
    set (T := edge + xb_period c + pkt_payloadDelay (with_payload (xp_pkt pkt) d)).
    assert (HT : future now T) by (destruct Hdelay; unfold future, T; cbn; lia).
    edestruct (snoop_response_end (with_tables (set_layer x k (with_state l BUSY)) (routeTo x) (outstandingSnoop x ∖ {[xp_req pkt]}))
      k l src T (fun s => updateSnoopResponse s (with_payload (xp_pkt pkt) d) slave s0)
      (SnoopResponse_ (xp_pkt pkt) slave s0) (xp_req pkt) [SentResp s0 (xp_req pkt)] (outstandingSnoop x ∖ {[xp_req pkt]})
      (CallSnoopResp true pkt slave) s0) as (flt & l' & Eup & Eon & Hres);
      [done|done|done|done|reflexivity| |exact Hsf|done|done|done|by left|congruence|].
    { intros sy sy' E. by apply run_snoop_response in E. }
    change (routeTo (set_layer x k (with_state l BUSY))) with (routeTo x).
    change (outstandingSnoop (set_layer x k (with_state l BUSY))) with (outstandingSnoop x).
    rewrite Eup. cbn [mbind res_bind]. specialize (Eon (cx_stats x)).
    set (y := with_tables _ _ _) in *.
    assert (Ey : with_stats (with_filter y flt) (cx_stats x) = with_filter y flt) by done. rewrite Ey in Eon.
    change (LResp (Z.to_nat s0)) with k. rewrite Eon. cbn [mbind res_bind].
    eexists _, _, _, _. split; [reflexivity|]. split; [|by right].
    eapply (Hres (cx_stats x)).
  - destruct Hog as (Hdelay & Hsf). rewrite bool_decide_true by naive_solver.
    rewrite (cassert_true (m0 <? _)) by (apply Z.ltb_lt; rewrite (ki_lens _ _ _ Hinv); lia). cbn [mbind res_bind].
    rewrite (port_index_ok m0) by lia. cbn [mbind res_bind].
    change (try_layer x (LSnoop (Z.to_nat m0)) (Z.to_nat slave)) with (try_layer x k src).
    rewrite (try_layer_ok x k l src Hl Ha). cbn [mbind res_bind].
    destruct (is_taken l) eqn:Et; cbn [negb].
    { eexists _, _, _, _. split; [reflexivity|]. split; [by apply Htaken|by left]. }
    rewrite Hexp. cbn [negb cassert mbind res_bind].
    destruct (calc_ok c now edge pkt _ Hwid Hdelay) as (d & h & Ecalc & Hd). rewrite Ecalc. cbn [mbind res_bind xp_pkt].
    set (T := edge + xb_period c + pkt_payloadDelay (with_payload (xp_pkt pkt) d)).
    assert (HT : future now T) by (destruct Hdelay; unfold future, T; cbn; lia).
    edestruct (snoop_response_end (set_layer x k (with_state l BUSY)) k l src T
      (fun s => updateSnoopForward s (with_payload (xp_pkt pkt) d) slave)
      (SnoopForward_ (xp_pkt pkt) slave) (xp_req pkt) [SentSnoopResp m0 (xp_req pkt)] (outstandingSnoop x)
      (CallSnoopResp true pkt slave) 0) as (flt & l' & Eup & Eon & Hres);
      [done|done|done|done|done| |exact Hsf|done|done|done|by right; rewrite Hout|congruence|].
    { intros sy sy' E. by apply run_snoop_forward in E. }
    rewrite Eup. cbn [mbind res_bind cassert]. set (y := set_layer x k (with_state l BUSY)) in *.
    set (st0 := cx_stats (count_pkt (with_filter y flt) slave m0 (data_size (xp_pkt pkt)))).
    change (count_pkt (with_filter y flt) slave m0 (data_size (xp_pkt pkt))) with (with_stats (with_filter y flt) st0).
    change (LSnoop (Z.to_nat m0)) with k. rewrite (Eon st0). cbn [mbind res_bind].
    eexists _, _, _, _. split; [reflexivity|]. split; [|by right]. apply (Hres st0).
Qed.

Lemma run_snoop p sy sy' :
  sf_run (Snoop_ p) sy = Ret sy' -> exists ds l, lookupSnoop (sys_filter sy) p = Ret (sys_filter sy', (ds, l)).
Proof.
  unfold sf_run. intros H. apply bind_Ret in H as ([s1 [ds l]] & E & H). injection H as <-. by exists ds, l.
Qed.

Lemma recvTimingSnoopReq_ok sn pkt master :
  bypassCaches x = false -> 0 <= master < Z.of_nat (length (reqLayers x)) -> isExpressSnoop (xp_pkt pkt) = true -> snoop_ok sn ->
  route (cx_bar x) (pkt_addr (xp_pkt pkt)) = Some master -> inword 64 (pkt_addr (xp_pkt pkt)) ->
  stripe_aligned (portMap (cx_bar x)) (pkt_addr (xp_pkt pkt)) -> out !! xp_req pkt = None ->
  (forall sy, sf = Some sy -> sf_enabled (Snoop_ (xp_pkt pkt)) sy) ->
  exists outs p x', recvTimingSnoopReq x sn pkt master = Ret (outs, p, x') /\
    xp_req p = xp_req pkt /\ bypassCaches x' = bypassCaches x /\ same_lengths x x' /\
    (forall k, get_layer x' k = get_layer x k) /\ (forall a, route (cx_bar x') a = route (cx_bar x) a) /\
    core_inv x' (if negb (memInhibitAsserted (xp_pkt pkt)) && memInhibitAsserted (xp_pkt p)
                 then <[xp_req pkt := FromMaster master]> out else out)
      (track_filter (Some (Snoop_ (xp_pkt pkt))) sf).
Proof.
  intros Hb Hm Hexp Hsn Hroute Haddr Hal Hout Hsf.
  destruct (ki_route _ _ _ Hinv) as (Hrok & Htree & Hall).
  pose proof (findPort_route _ _ Hrok Htree Hall Haddr Hal) as Hfind. rewrite Hroute in Hfind.
  destruct Hfind as (bar & Ebar & Brok & Bmap & Broute & Ball).
  destruct (filter_step sf (Snoop_ (xp_pkt pkt)) (ki_sf _ _ _ Hinv) Hsf) as (Hrun & Hnone & Hkeep).
  set (sf' := track_filter (Some (Snoop_ (xp_pkt pkt))) sf) in *.
  unfold recvTimingSnoopReq. set (x0 := count_snoops _). rewrite Hexp. cbn [cassert mbind res_bind].
  assert (Hfwd : exists (ds : list Z) f n, (match snoopFilter x0 with
            | Some s => '(s, (dests, _)) ← lookupSnoop s (xp_pkt pkt);
                        forwardTiming (with_filter x0 (Some s)) sn pkt InvalidPortID dests
            | None => forwardTiming x0 sn pkt InvalidPortID (snoopPorts x0)
            end)
          = Ret ((fun d => SentSnoop d (xp_req pkt)) <$> ds, mkXPkt (with_flags (xp_pkt pkt) f) (xp_req pkt) (xp_headerDelay pkt),
                 with_stats (with_filter x0 (sys_filter <$> sf')) n)).
  { change (snoopFilter x0) with (snoopFilter x). rewrite (ki_filter _ _ _ Hinv).
    destruct sf as [sy|]; cbn [fmap option_fmap option_map].
    - destruct (Hrun sy eq_refl) as (sy' & Er & Es). apply run_snoop in Er as (ds & la & ->). cbn [mbind res_bind].
      edestruct (forwardTiming_ok (with_filter x0 (Some (sys_filter sy'))) sn pkt InvalidPortID ds) as (f & n & Ef & _); [done|done|].
      rewrite Ef, Es. eexists _, f, _. reflexivity.
    - edestruct (forwardTiming_ok x0 sn pkt InvalidPortID (snoopPorts x0)) as (f & n & Ef & _); [done|done|].
      rewrite Ef, Hnone by done. cbn [fmap option_fmap option_map].
      eexists (snooped_ports InvalidPortID (snoopPorts x0)), f, (cx_stats (sample_fanout x0 n)).
      do 2 f_equal. unfold x0, count_snoops, count_cmd, sample_fanout, with_stats, with_filter; cbn.
      by rewrite (ki_filter _ _ _ Hinv). }
  destruct Hfwd as (ds & f & st & Efwd). rewrite Efwd. cbn [mbind res_bind xp_pkt xp_req]. clear Efwd.
  set (y := with_stats _ _). set (q := with_flags (xp_pkt pkt) f).
  assert (Hgl : forall k, get_layer y k = get_layer x k).
  { intros k. unfold y, x0, count_snoops, count_cmd. by glayers. }
  destruct (negb (memInhibitAsserted (xp_pkt pkt)) && memInhibitAsserted q) eqn:Ei.
  - change (routeTo y) with (routeTo x). rewrite cassert_true; cycle 1.
    { apply bool_decide_true. by rewrite (ki_table _ _ _ Hinv), lookup_fmap, Hout. }
    cbn [mbind res_bind]. change (cx_bar (with_tables y _ _)) with (cx_bar x). change (pkt_addr q) with (pkt_addr (xp_pkt pkt)).
    rewrite Ebar. cbn [mbind res_bind]. rewrite cassert_true by (by apply Z.eqb_eq). cbn [mbind res_bind].
    eexists _, _, _. split; [reflexivity|]. cbn [xp_pkt xp_req]. fold q. rewrite Ei.
    split; [done|]. split; [done|]. split; [done|]. split; [by intros k; glayers; apply Hgl|]. split; [done|].
    eapply core_inv_update; [exact Hinv|done|done|by rewrite <- Bmap in Htree| | | |done|exact Hkeep].
    + cbn. by rewrite fmap_insert, (ki_table _ _ _ Hinv).
    + intros id. cbn. rewrite (ki_snoop _ _ _ Hinv). destruct (decide (id = xp_req pkt)) as [-> | Hne].
      * rewrite lookup_insert_eq, Hout. naive_solver.
      * by rewrite lookup_insert_ne.
    + intros id o. destruct (decide (id = xp_req pkt)) as [-> | Hne].
      * rewrite lookup_insert_eq. intros [= <-]. by right.
      * rewrite lookup_insert_ne by done. by left.
  - change (cx_bar y) with (cx_bar x). cbn [mbind res_bind]. change (pkt_addr q) with (pkt_addr (xp_pkt pkt)).
    change (cx_bar y) with (cx_bar x). rewrite Ebar. cbn [mbind res_bind]. rewrite cassert_true by (by apply Z.eqb_eq).
    cbn [mbind res_bind]. eexists _, _, _. split; [reflexivity|]. cbn [xp_pkt xp_req]. fold q. rewrite Ei.
    split; [done|]. split; [done|]. split; [done|]. split; [by intros k; glayers; apply Hgl|]. split; [done|].
    eapply core_inv_update; [exact Hinv|done|done|by rewrite <- Bmap in Htree| | |by left|done|exact Hkeep].
    + apply (ki_table _ _ _ Hinv).
    + apply (ki_snoop _ _ _ Hinv).
Qed.
End request.
