(* ===== verification/CoherentXBarSys.v ===== *)
(** * The coherent crossbar in operation

    The system of [CoherentXBar.v] (a crossbar, its neighbours, the layers with the
    ports they turned away, the outstanding requests and the snoop filter beside
    the caches) keeps its invariant: no enabled step fails, the routing table is
    that of the outstanding requests, and responses go back to where their request
    came from. *)

From stdpp Require Import gmap.
From S2P Require Import Prelude IntMath AddrRange Packet SnoopFilter XBar CoherentXBar.
Local Open Scope Z_scope.

Record cinv (s : CSys) : Prop := {
  vi_core : core_inv (c_x s) (c_out s) (c_sf s);
  vi_layers k l : get_layer (c_x s) k = Some l -> layer_inv (mkSys (c_now s) l (c_blocked s k))
}.

(** A call goes to an existing layer. *)
Lemma call_layer_exists c s edge cl k :
  core_inv (c_x s) (c_out s) (c_sf s) -> call_enabled c s edge cl -> call_layer s cl = Some k ->
  exists l, get_layer (c_x s) k = Some l.
Proof.
  intros Hinv (_ & _ & He) Hk. unfold get_layer. apply lookup_lt_is_Some.
  destruct cl as [pr pkt slave|a pkt master|a pkt slave]; cbn in Hk.
  - destruct (isExpressSnoop _); [done|]. apply fmap_Some in Hk as (m & Hm & ->).
    apply (ki_ids _ _ _ Hinv) in Hm. cbn. lia.
  - apply fmap_Some in Hk as (o & Ho & ->). destruct He as (_ & _ & _ & s0 & Ho' & _). rewrite Ho in Ho'. injection Ho' as ->.
    apply (ki_ports _ _ _ Hinv) in Ho. cbn in *. lia.
  - apply fmap_Some in Hk as (o & Ho & ->). apply (ki_ports _ _ _ Hinv) in Ho. destruct o as [s0 r|m]; cbn in *; [lia|].
    rewrite (ki_lens _ _ _ Hinv). lia.
Qed.

(** Where the answer to a call goes. *)
Definition delivers (s : CSys) (cl : Call) (outs : list Output) : Prop :=
  match cl with
  | CallReq _ pkt slave => outs = [] \/
      exists ds m q b, outs = ((fun d => SentSnoop d (xp_req pkt)) <$> ds) ++ [SentReq m (xp_req pkt) q b] /\
        route (cx_bar (c_x s)) (pkt_addr (xp_pkt pkt)) = Some m /\ slave ∉ ds /\
        snoops_to (c_x s) (c_sf s) (xp_pkt pkt) slave ds /\
        (bypassCaches (c_x s) = false -> filter_ok s (Request_ (xp_pkt pkt) slave true))
  | CallResp _ pkt _ => outs = [] \/
      exists p r, c_out s !! xp_req pkt = Some (FromSlave p r) /\ outs = [SentResp p (xp_req pkt)]
  | CallSnoopResp _ pkt _ => outs = [] \/
      (exists p r, c_out s !! xp_req pkt = Some (FromSlave p r) /\ outs = [SentResp p (xp_req pkt)]) \/
      (exists m, c_out s !! xp_req pkt = Some (FromMaster m) /\ outs = [SentSnoopResp m (xp_req pkt)])
  end.

(** Every enabled call is answered. *)
Lemma exec_call_ok c s edge cl :
  conf_ok c -> core_inv (c_x s) (c_out s) (c_sf s) -> call_enabled c s edge cl ->
  (forall k l, call_layer s cl = Some k -> get_layer (c_x s) k = Some l -> admits l (call_src s cl)) ->
  exists ok outs p x', exec_call c (c_now s) edge (c_x s) cl = Ret (ok, outs, p, x') /\
    call_result (c_now s) (c_x s) (c_out s) (c_sf s) cl (call_layer s cl) (call_src s cl) ok outs x' /\ delivers s cl outs.
Proof.
  intros Hc Hinv He Ha. pose proof (call_layer_exists c s edge cl) as Hex. specialize (fun k => Hex k Hinv He).
  destruct He as (Hedge & _ & He). destruct cl as [pr pkt slave|a pkt master|a pkt slave]; cbn [exec_call].
  - destruct He as (Hsl & Hexp & (m & Hr & Haddr & Hal) & Hsn & Hsend & Hd & Hfresh & Hsf).
    cbn [call_layer call_src] in *. rewrite Hr in *. cbn [fmap option_fmap option_map] in *.
    assert (Hl : exists l, isExpressSnoop (xp_pkt pkt) = false ->
              get_layer (c_x s) (LReq (Z.to_nat m)) = Some l /\ admits l (Z.to_nat slave)).
    { destruct (isExpressSnoop (xp_pkt pkt)) eqn:E; [by exists Layer_new|]. destruct (Hex _ eq_refl) as [l Hl].
      exists l. intros _. split; [done|]. by eapply Ha. }
    destruct Hl as [l Hl].
    destruct (recvTimingReq_ok c (c_now s) edge Hc (c_x s) (c_out s) (c_sf s) Hinv pr pkt slave m l)
      as (ok & outs & p & x' & E & Hres & Hdel); try done.
    exists ok, outs, p, x'. split; [exact E|]. split.
    + destruct (isExpressSnoop (xp_pkt pkt)); exact Hres.
    + destruct Hdel as [-> | (ds & q & b & -> & Hds & Hto)]; [by left|]. right. by exists ds, m, q, b.
  - destruct He as (-> & Hm & Hd & s0 & Ho & Hsf). cbn [call_layer call_src] in *. rewrite Ho in *.
    cbn [fmap option_fmap option_map origin_port] in *. destruct (Hex _ eq_refl) as [l Hl].
    destruct (recvTimingResp_ok c (c_now s) edge Hc (c_x s) (c_out s) (c_sf s) Hinv pkt master s0 l)
      as (ok & outs & p & x' & E & Hres & Hdel); try done.
    { by eapply Ha. }
    exists ok, outs, p, x'. split; [exact E|]. split; [exact Hres|].
    destruct Hdel as [-> | ->]; [by left|right]. by exists s0, (Some master).
  - destruct He as (-> & Hsl & Hexp & Hor). cbn [call_layer call_src] in *.
    destruct Hor as [(s0 & Ho & Hne & Hd & Hsf) | (m & Ho & Hd & Hsf)]; rewrite Ho in *;
      cbn [fmap option_fmap option_map] in *; destruct (Hex _ eq_refl) as [l Hl].
    + destruct (recvTimingSnoopResp_ok c (c_now s) edge Hc (c_x s) (c_out s) (c_sf s) Hinv pkt slave (FromSlave s0 None) l)
        as (ok & outs & p & x' & E & Hres & Hdel); try done.
      { by eapply Ha. }
      exists ok, outs, p, x'. split; [exact E|]. split; [exact Hres|].
      destruct Hdel as [-> | ->]; [by left|right; left]. by exists s0, None.
    + destruct (recvTimingSnoopResp_ok c (c_now s) edge Hc (c_x s) (c_out s) (c_sf s) Hinv pkt slave (FromMaster m) l)
        as (ok & outs & p & x' & E & Hres & Hdel); try done.
      { by eapply Ha. }
      exists ok, outs, p, x'. split; [exact E|]. split; [exact Hres|].
      destruct Hdel as [-> | ->]; [by left|right; right]. by exists m.
Qed.

(** ** Calls *)

(** The layer a call went to keeps its invariant; the ports turned away are
    recorded. *)
Lemma use_layer_inv now l b src t fwd ok l' :
  layer_inv (mkSys now l b) -> src ∉ b -> future now t -> use_layer l src now t fwd = Ret (ok, l') ->
  layer_inv (mkSys now l' (if ok && fwd then b else {[src]} ∪ b)).
Proof.
  intros Hi Hs Ht E. destruct (step_total_inv (mkSys now l b) (Send src t fwd) Hi) as (s' & Es & Hi'); [done|].
  unfold step in Es. cbn in Es. rewrite E in Es. cbn in Es. by injection Es as <-.
Qed.

Lemma call_step_ok c s edge cl :
  conf_ok c -> cinv s -> call_enabled c s edge cl ->
  exists ok outs p x', exec_call c (c_now s) edge (c_x s) cl = Ret (ok, outs, p, x') /\
    cinv (after_call s cl outs x') /\ delivers s cl outs.
Proof.
  intros Hc [Hcore Hlay] He. destruct (exec_call_ok c s edge cl Hc Hcore He) as (ok & outs & p & x' & E & Hres & Hdel).
  { intros k l Hk Hl. eapply inv_admits; [by apply Hlay|]. destruct He as (_ & He & _). by apply He. }
  exists ok, outs, p, x'. split; [exact E|]. split; [|exact Hdel]. destruct Hres as [Hok Hb [Hlen Hl] Hk Hr].
  split; [exact Hk|]. intros k l' Hl'. cbn in Hl' |- *.
  destruct (call_layer s cl) as [kt|] eqn:Ek.
  - destruct Hl as (t & fwd & b & l & l1 & Ht & Hget & Huse & Hob & Hget' & Hoth). destruct (decide (k = kt)) as [-> | Hne].
    + rewrite Hget' in Hl'. injection Hl' as <-.
      pose proof (use_layer_inv _ _ _ _ _ _ _ _ (Hlay kt l Hget) (proj1 (proj2 He) kt Ek) Ht Huse) as Hi.
      rewrite <- Hok, Hob. destruct (b && fwd); [exact Hi|]. unfold block. rewrite decide_True by done. exact Hi.
    + rewrite Hoth in Hl' by done. destruct (out_ok outs); [by apply Hlay|]. unfold block.
      rewrite decide_False by congruence. by apply Hlay.
  - rewrite Hl in Hl'. destruct (out_ok outs); [by apply Hlay|]. unfold block. rewrite decide_False by congruence. by apply Hlay.
Qed.

(** ** Retries *)

Lemma core_set_layer x out sf k l : core_inv x out sf -> core_inv (set_layer x k l) out sf.
Proof.
  intros H. eapply core_inv_update; [exact H|apply set_lengths|done|apply (ki_route _ _ _ H)|apply (ki_table _ _ _ H)|
    apply (ki_snoop _ _ _ H)|by left|apply (ki_filter _ _ _ H)|apply (ki_sf _ _ _ H)].
Qed.

(** A call is enabled regardless of the state of a layer. *)
Lemma call_enabled_layer c now x b out sf edge cl k l :
  call_enabled c (mkCSys now x b out sf) edge cl -> call_enabled c (mkCSys now (set_layer x k l) b out sf) edge cl.
Proof.
  destruct (set_lengths x k l) as (L1 & L2 & L3). intros (H0 & H1 & H2). split; [done|]. split.
  - exact H1.
  - destruct cl; cbn in *; rewrite ?L1, ?L2; exact H2.
Qed.

Lemma retry_end_busy l now edge : state l = BUSY -> retry_end l now edge = Ret l.
Proof. intros E. unfold retry_end, is_state. by rewrite E. Qed.

Lemma layer_inv_ext now l b b' : (forall p, p ∈ b <-> p ∈ b') -> layer_inv (mkSys now l b) -> layer_inv (mkSys now l b').
Proof. intros Hb [H1 H2 H3]. split; try done. intros p. cbn in *. by rewrite <- Hb. Qed.

Section retry.
Context (c : XBarConf) (Hc : conf_ok c) (s : CSys) (edge : Z) (k : LayerId) (l0 : Layer).
Context (Hcore : core_inv (c_x s) (c_out s) (c_sf s)) (Hl0 : get_layer (c_x s) k = Some l0).
Context (Hlay : forall k' l', k' <> k -> get_layer (c_x s) k' = Some l' -> layer_inv (mkSys (c_now s) l' (c_blocked s k'))).
Context (Hedge : future (c_now s) edge).
Context (dr : bool) (dn : nat) (p : nat) (q : list nat) (oc : Z).
Context (Hnd : NoDup (p :: q)) (Hb : forall y, y ∈ c_blocked s k <-> y ∈ p :: q).

Local Abbreviation x1 := (set_layer (c_x s) k (mkLayer IDLE dr dn (p :: q) None None oc)).
Local Abbreviation lr := (mkLayer RETRY dr dn q None None oc).
Local Abbreviation s' := (mkCSys (c_now s) (c_x s) (unblock (c_blocked s) k (Some p)) (c_out s) (c_sf s)).

Lemma retry_prefix cl :
  cx_retryWaiting c (c_now s) edge x1 k cl
  = ('(out, x) ← match cl with
                 | None => Ret ([], set_layer (c_x s) k lr)
                 | Some cl => '(_, out, _, x) ← exec_call c (c_now s) edge (set_layer (c_x s) k lr) cl; Ret (out, x)
                 end;
     x ← on_layer x k (fun l => retry_end l (c_now s) edge);
     Ret (p, out, x)).
Proof.
  unfold cx_retryWaiting. rewrite (read_layer_get x1 k _ (get_set_eq _ _ _ _ Hl0)). cbn [mbind res_bind].
  unfold retry_begin. cbn [waitingForLayer]. unfold is_state. cbn [state]. rewrite bool_decide_true by done.
  cbn [cassert mbind res_bind]. rewrite set_set. done.
Qed.

(** The layer afterwards, if the port did not come back to it. *)
Lemma retry_unused x :
  get_layer x k = Some lr ->
  exists l', on_layer x k (fun l => retry_end l (c_now s) edge) = Ret (set_layer x k l') /\
    layer_inv (mkSys (c_now s) l' (c_blocked s k ∖ {[p]})).
Proof.
  intros Hx. eexists. split.
  - eapply on_layer_ok; [exact Hx|]. unfold retry_end, is_state. cbn [state]. rewrite bool_decide_true by done.
    unfold with_state; cbn. by rewrite occupyLayer_eq.
  - pose proof (retry_inv (c_now s) dr dn p q (c_blocked s k) (oc + (edge - c_now s)) edge NoCall Hedge I Hnd Hb) as Hi. exact Hi.
Qed.

Lemma cx_retry_ok cl :
  (forall cl', cl = Some cl' -> call_enabled c s' edge cl' /\ (call_layer s cl' = Some k -> call_src s cl' = p)) ->
  exists outs x', cx_retryWaiting c (c_now s) edge x1 k cl = Ret (p, outs, x') /\
    cinv (after_retry_call s k (Some p) cl outs x') /\
    (forall cl', cl = Some cl' -> delivers s cl' outs) /\ (cl = None -> outs = []).
Proof.
  intros Hcl. rewrite retry_prefix. set (xr := set_layer (c_x s) k lr).
  assert (Hxr : get_layer xr k = Some lr) by (by eapply get_set_eq).
  assert (Hxo : forall k', k' <> k -> get_layer xr k' = get_layer (c_x s) k') by (intros; by apply get_set_ne).
  assert (Hcr : core_inv xr (c_out s) (c_sf s)) by (by apply core_set_layer).
  destruct cl as [cl|].
  2: { destruct (retry_unused xr Hxr) as (l' & Eon & Hi). cbn [mbind res_bind]. rewrite Eon. cbn [mbind res_bind].
       eexists _, _. split; [reflexivity|]. split; [|done]. unfold after_retry_call. split; cbn [c_x c_out c_sf c_now c_blocked].
       - by apply core_set_layer.
       - intros k' l1 Hl1. unfold unblock. case_decide as Hk'.
         + subst k'. rewrite (get_set_eq xr k lr) in Hl1 by done. injection Hl1 as <-. exact Hi.
         + rewrite get_set_ne, Hxo in Hl1 by done. by apply Hlay. }
  destruct (Hcl cl eq_refl) as [He Hsrc].
  set (sr := mkCSys (c_now s) xr (unblock (c_blocked s) k (Some p)) (c_out s) (c_sf s)).
  assert (Her : call_enabled c sr edge cl) by (by apply call_enabled_layer).
  assert (Ekl : call_layer sr cl = call_layer s cl) by (by destruct cl).
  assert (Ecs : call_src sr cl = call_src s cl) by (by destruct cl).
  destruct (exec_call_ok c sr edge cl Hc Hcr Her) as (ok & outs & pk & x' & E & Hres & Hdel).
  { intros k' l Hk' Hl. rewrite Ekl in Hk'. destruct (decide (k' = k)) as [-> | Hne].
    - rewrite Ecs, (Hsrc Hk'). cbn in Hl. rewrite Hxr in Hl. injection Hl as <-. left. split_and!; done.
    - eapply (inv_admits (c_now s) l (c_blocked s k')).
      + apply Hlay; [done|]. cbn in Hl. by rewrite <- Hxo.
      + destruct He as (_ & He & _). specialize (He k' Hk'). cbn in He. unfold unblock in He. by rewrite decide_False in He. }
  cbn [c_x sr c_now] in E. rewrite E. cbn [mbind res_bind]. destruct Hres as [Hok Hbp [Hlen Hl] Hk Hr].
  rewrite Ekl, Ecs in Hl. cbn [c_x c_out c_sf c_now sr] in Hl, Hk.
  destruct (decide (call_layer s cl = Some k)) as [Ek | Ek].
  - (* the port uses the layer that told it to retry *)
    rewrite Ek in Hl. destruct Hl as (t & fwd & b & l & l1 & Ht & Hget & Huse & Hob & Hget' & Hoth).
    rewrite Hxr in Hget. injection Hget as <-. rewrite (Hsrc Ek) in Huse. rewrite use_layer_free in Huse by done.
    injection Huse as <- El1. assert (Hl1 : state l1 = BUSY) by (by rewrite <- El1).
    assert (Eset : set_layer x' k l1 = x').
    { unfold get_layer in Hget'. destruct x', k; unfold set_layer; cbn in *; by rewrite list_insert_id. }
    rewrite (on_layer_ok x' k l1 _ l1 Hget' (retry_end_busy _ _ _ Hl1)), Eset. cbn [mbind res_bind].
    eexists outs, x'. split; [reflexivity|]. split; [|split; [by intros ? [= <-]|done]].
    unfold after_retry_call, after_call. split; [exact Hk|]. cbn [c_x c_now c_blocked].
    intros k' l' Hl'. destruct (decide (k' = k)) as [-> | Hne].
    + rewrite Hget' in Hl'. injection Hl' as <-. subst l1.
      pose proof (retry_inv (c_now s) dr dn p q (c_blocked s k) (oc + (t - c_now s)) edge (Calls t fwd) Hedge Ht Hnd Hb) as Hi.
      cbn in Hob. subst ok. rewrite Hob. destruct fwd; cbn in Hi.
      * unfold unblock. rewrite decide_True by done. exact Hi.
      * unfold block. rewrite decide_True by (symmetry; exact Ek). eapply layer_inv_ext; [|exact Hi]. intros y.
        change (call_src _ cl) with (call_src s cl). rewrite (Hsrc Ek). unfold unblock. rewrite decide_True by done.
        rewrite elem_of_union, elem_of_difference, elem_of_singleton, Hb, elem_of_cons. destruct (decide (y = p)); naive_solver.
    + rewrite Hoth, Hxo in Hl' by done. assert (Hi : layer_inv (mkSys (c_now s) l' (c_blocked s k'))) by (by apply Hlay).
      unfold block, unblock. destruct (out_ok outs).
      * by rewrite decide_False.
      * change (call_layer _ cl) with (call_layer s cl). rewrite Ek. rewrite decide_False by congruence. by rewrite decide_False.
  - (* the port goes elsewhere *)
    assert (Hgk : get_layer x' k = Some lr).
    { destruct (call_layer s cl) as [kt|].
      - destruct Hl as (t & fwd & b & l & l1 & _ & _ & _ & _ & _ & Hoth). rewrite Hoth by congruence. done.
      - by rewrite Hl. }
    destruct (retry_unused x' Hgk) as (l' & Eon & Hi). rewrite Eon. cbn [mbind res_bind].
    eexists outs, _. split; [reflexivity|]. split; [|split; [by intros ? [= <-]|done]].
    unfold after_retry_call, after_call. split; [by apply core_set_layer|]. cbn [c_x c_now c_blocked].
    intros k' l2 Hl2. destruct (decide (k' = k)) as [-> | Hne].
    + rewrite (get_set_eq x' k lr) in Hl2 by done. injection Hl2 as <-.
      destruct (out_ok outs); unfold block, unblock; change (call_layer _ cl) with (call_layer s cl).
      * by rewrite decide_True.
      * rewrite decide_False by congruence. by rewrite decide_True.
    + rewrite get_set_ne in Hl2 by done. destruct (decide (call_layer s cl = Some k')) as [Ekt | Ekt].
      * rewrite Ekt in Hl. destruct Hl as (t & fwd & b & l & l1 & Ht & Hget & Huse & Hob & Hget' & Hoth).
        rewrite Hget' in Hl2. injection Hl2 as <-. rewrite Hxo in Hget by done.
        assert (Hns : call_src s cl ∉ c_blocked s k').
        { destruct He as (_ & He & _). specialize (He k' Ekt). cbn in He. unfold unblock in He. by rewrite decide_False in He. }
        pose proof (use_layer_inv _ _ _ _ _ _ _ _ (Hlay k' l Hne Hget) Hns Ht Huse) as Hi2.
        rewrite <- Hok, Hob. unfold block, unblock. change (call_layer _ cl) with (call_layer s cl).
        change (call_src _ cl) with (call_src s cl). destruct (b && fwd).
        -- by rewrite decide_False.
        -- rewrite decide_True by congruence. by rewrite decide_False.
      * assert (Hg2 : get_layer (c_x s) k' = Some l2).
        { destruct (call_layer s cl) as [kt|].
          - destruct Hl as (t & fwd & b & l & l1 & _ & _ & _ & _ & _ & Hoth). rewrite Hoth in Hl2 by congruence. by rewrite <- Hxo.
          - by rewrite Hl, Hxo in Hl2. }
        unfold block, unblock. change (call_layer _ cl) with (call_layer s cl). destruct (out_ok outs).
        -- rewrite decide_False by done. by apply Hlay.
        -- rewrite decide_False by congruence. rewrite decide_False by done. by apply Hlay.
Qed.
End retry.

Lemma unblock_none b k k' : unblock b k None k' = b k'.
Proof. done. Qed.

(** A layer set to a state that keeps its invariant. *)
Lemma set_layer_inv s k l l' :
  cinv s -> get_layer (c_x s) k = Some l -> layer_inv (mkSys (c_now s) l' (c_blocked s k)) ->
  cinv (mkCSys (c_now s) (set_layer (c_x s) k l') (c_blocked s) (c_out s) (c_sf s)).
Proof.
  intros [Hcore Hlay] Hl Hi. split; [by apply core_set_layer|]. cbn. intros k' l1 Hl1.
  destruct (decide (k' = k)) as [-> | Hne].
  - rewrite (get_set_eq _ _ l) in Hl1 by done. by injection Hl1 as <-.
  - rewrite get_set_ne in Hl1 by done. by apply Hlay.
Qed.

Lemma release_ok c s edge k cl l :
  conf_ok c -> cinv s -> get_layer (c_x s) k = Some l -> releaseEvent l = Some (c_now s) -> retry_enabled c s edge k cl ->
  exists p outs x', cx_releaseLayer c (c_now s) edge (c_x s) k cl = Ret (p, outs, x') /\
    cinv (after_retry_call s k p cl outs x') /\ (forall cl', cl = Some cl' -> delivers s cl' outs \/ outs = []).
Proof.
  intros Hc Hs Hl Hrel (Hn & Hpos & Hcl). pose proof Hs as [Hcore Hlay]. pose proof (Hlay k l Hl) as [Hst Hnd Hb]. cbn in Hst, Hnd, Hb.
  assert (Hedge : future (c_now s) edge) by (unfold future; lia).
  destruct l as [st dr dn q pr rel oc]. cbn in Hst, Hrel. subst rel.
  destruct st; [by destruct Hst| |done]. unfold cx_releaseLayer. rewrite (read_layer_get _ _ _ Hl). cbn [mbind res_bind].
  unfold is_state. cbn [state layerDrain layerDrained waitingForLayer waitingForPeer occupancy releaseEvent].
  rewrite bool_decide_true by done. cbn [cassert mbind res_bind is_none with_state state layerDrain layerDrained waitingForLayer
    waitingForPeer occupancy releaseEvent].
  unfold XBar.waiting in Hnd, Hb; cbn in Hnd, Hb.
  destruct q as [|p q]; cbn [is_nil negb].
  - assert (Hidle : forall d n, layer_inv (mkSys (c_now s) (mkLayer IDLE d n [] pr None oc) (c_blocked s k))).
    { intros d n. split; cbn; [by split; [|left]|exact Hnd|exact Hb]. }
    destruct (is_none pr && dr) eqn:E; eexists None, [], _; (split; [reflexivity|]); (split; [|by right]);
      unfold after_retry_call; apply (set_layer_inv s k _ _ Hs Hl); apply Hidle.
  - destruct pr as [w|]; cbn [is_none].
    + eexists None, [], _. split; [reflexivity|]. split; [|by right]. unfold after_retry_call.
      apply (set_layer_inv s k _ _ Hs Hl). split; cbn; [by split; [|right]|exact Hnd|exact Hb].
    + destruct (cx_retry_ok c Hc s edge k _ Hcore Hl) with (dr := dr) (dn := dn) (p := p) (q := q) (oc := oc) (cl := cl)
        as (outs & x' & E & Hi & Hdel & Hnone); try done.
      * intros k' l' _ Hl'. by apply Hlay.
      * intros cl' ->. by eapply (Hcl cl' p).
      * change (cx_retryWaiting c _ edge _ k cl) with (cx_retryWaiting c (c_now s) edge
          (set_layer (c_x s) k (mkLayer IDLE dr dn (p :: q) None None oc)) k cl).
        rewrite E. cbn [mbind res_bind]. eexists (Some p), outs, x'. split; [reflexivity|]. split; [exact Hi|].
        intros cl' Hcl'. left. by apply Hdel.
Qed.

Lemma reqRetry_ok c s edge master cl l :
  conf_ok c -> cinv s -> 0 <= master -> get_layer (c_x s) (LReq (Z.to_nat master)) = Some l -> waitingForPeer l <> None ->
  retry_enabled c s edge (LReq (Z.to_nat master)) cl ->
  exists p outs x', recvReqRetry c (c_now s) edge (c_x s) master cl = Ret (p, outs, x') /\
    cinv (after_retry_call s (LReq (Z.to_nat master)) p cl outs x') /\
    (forall cl', cl = Some cl' -> delivers s cl' outs \/ outs = []).
Proof.
  intros Hc Hs Hm Hl Hpr (Hn & Hpos & Hcl). pose proof Hs as [Hcore Hlay]. set (k := LReq (Z.to_nat master)) in *.
  pose proof (Hlay k l Hl) as [Hst Hnd Hb]. cbn in Hst, Hnd, Hb. assert (Hedge : future (c_now s) edge) by (unfold future; lia).
  destruct l as [st dr dn q pr rel oc]. cbn in Hst, Hpr. destruct pr as [w|]; [|done].
  unfold recvReqRetry. rewrite port_index_ok by done. cbn [mbind res_bind]. fold k. rewrite (read_layer_get _ _ _ Hl).
  cbn [mbind res_bind waitingForPeer]. unfold XBar.waiting in Hnd, Hb; cbn in Hnd, Hb.
  unfold with_peer, with_queue, is_state; cbn [state layerDrain layerDrained waitingForLayer waitingForPeer releaseEvent occupancy].
  destruct st; [| |done].
  - rewrite bool_decide_true by done. destruct Hst as [-> _].
    destruct (cx_retry_ok c Hc s edge k _ Hcore Hl) with (dr := dr) (dn := dn) (p := w) (q := q) (oc := oc) (cl := cl)
      as (outs & x' & E & Hi & Hdel & Hnone); try done.
    + intros k' l' _ Hl'. by apply Hlay.
    + intros cl' ->. by eapply (Hcl cl' w).
    + change (cx_retryWaiting c _ edge _ k cl) with (cx_retryWaiting c (c_now s) edge
        (set_layer (c_x s) k (mkLayer IDLE dr dn (w :: q) None None oc)) k cl).
      rewrite E. cbn [mbind res_bind]. eexists (Some w), outs, x'. split; [reflexivity|]. split; [exact Hi|].
      intros cl' Hcl'. left. by apply Hdel.
  - rewrite bool_decide_false, bool_decide_true by done. cbn [cassert mbind res_bind].
    eexists None, [], _. split; [reflexivity|]. split; [|by right]. unfold after_retry_call.
    apply (set_layer_inv s k _ _ Hs Hl). split; cbn; [exact Hst|exact Hnd|exact Hb].
Qed.

(** Draining marks the layers that are not idle. *)
Lemma drain_layers_ok ls : (drain_layers ls).2 = (fun l => (layer_drain l).2) <$> ls.
Proof.
  induction ls as [|l ls IH]; [done|]. cbn. fold (drain_layers ls). destruct (drain_layers ls) as [n ls'].
  cbn in IH. subst ls'. by destruct (layer_drain l).
Qed.

Lemma get_layer_drain x k : get_layer (cx_drain x).2 k = (fun l => (layer_drain l).2) <$> get_layer x k.
Proof.
  unfold cx_drain. pose proof (drain_layers_ok (reqLayers x)) as E1. pose proof (drain_layers_ok (respLayers x)) as E2.
  pose proof (drain_layers_ok (snoopLayers x)) as E3. destruct (drain_layers (reqLayers x)), (drain_layers (respLayers x)),
    (drain_layers (snoopLayers x)). cbn in *. subst. unfold get_layer. destruct k; cbn; by rewrite list_lookup_fmap.
Qed.

Lemma drain_ok s : cinv s -> cinv (mkCSys (c_now s) (cx_drain (c_x s)).2 (c_blocked s) (c_out s) (c_sf s)).
Proof.
  intros [Hcore Hlay]. split; cbn.
  - eapply core_inv_update; [exact Hcore| | | | | | | |]; unfold cx_drain;
      pose proof (drain_layers_ok (reqLayers (c_x s))) as E1; pose proof (drain_layers_ok (respLayers (c_x s))) as E2;
      pose proof (drain_layers_ok (snoopLayers (c_x s))) as E3; destruct (drain_layers (reqLayers (c_x s))),
        (drain_layers (respLayers (c_x s))), (drain_layers (snoopLayers (c_x s))); cbn in *; subst.
    + unfold same_lengths; cbn. by rewrite !length_fmap.
    + done.
    + apply (ki_route _ _ _ Hcore).
    + apply (ki_table _ _ _ Hcore).
    + apply (ki_snoop _ _ _ Hcore).
    + by left.
    + apply (ki_filter _ _ _ Hcore).
    + apply (ki_sf _ _ _ Hcore).
  - intros k l Hl. rewrite get_layer_drain in Hl. apply fmap_Some in Hl as (l0 & Hl0 & ->).
    destruct (step_total_inv _ Drain (Hlay k l0 Hl0) I) as (s' & Es & Hi). injection Es as <-. exact Hi.
Qed.

(** Every enabled step succeeds and keeps the invariant. *)
Lemma cstep_ok c s e : conf_ok c -> cinv s -> cenabled c s e -> exists outs s', cstep c s e = Ret (outs, s') /\ cinv s'.
Proof.
  intros Hc Hs He. destruct e as [t|edge cl|sn pkt master|edge k cl|edge master cl|]; cbn in He.
  - destruct He as [Ht Hu]. eexists _, _. split; [reflexivity|]. destruct Hs as [Hcore Hlay]. split; [done|].
    cbn. intros k l Hl. destruct (step_total_inv _ (Advance t) (Hlay k l Hl)) as (s' & Es & Hi).
    + split; [done|]. intros u Hr. by eapply Hu.
    + injection Es as <-. exact Hi.
  - destruct (call_step_ok c s edge cl Hc Hs He) as (ok & outs & p & x' & E & Hi & _). unfold cstep. rewrite E. by eexists _, _.
  - destruct He as (Hb & Hm & Hexp & Hsn & (Hr & Ha & Hal) & Ho & Hf). destruct Hs as [Hcore Hlay].
    destruct (recvTimingSnoopReq_ok (c_x s) (c_out s) (c_sf s) Hcore sn pkt master)
      as (outs & p & x' & E & Hid & _ & _ & Hgl & _ & Hk); try done.
    unfold cstep. rewrite E. eexists _, _. split; [reflexivity|]. split; cbn.
    + exact Hk.
    + intros k l Hl. rewrite Hgl in Hl. by apply Hlay.
  - destruct He as ((l & Hl & Hr) & He). destruct (release_ok c s edge k cl l Hc Hs Hl Hr He) as (p & outs & x' & E & Hi & _).
    unfold cstep. rewrite E. by eexists _, _.
  - destruct He as (Hm & (l & Hl & Hr) & He).
    destruct (reqRetry_ok c s edge master cl l Hc Hs Hm Hl Hr He) as (p & outs & x' & E & Hi & _).
    unfold cstep. rewrite E. by eexists _, _.
  - eexists _, _. split; [reflexivity|]. by apply drain_ok.
Qed.

(** ** Reachable states *)

(** A crossbar after construction, [init] and the exchange of address ranges: the
    routing is that of a reachable [XBar] that knows all ranges. *)
Record fresh_xbar (x : CoherentXBar) (sf : option system) : Prop := {
  fx_new : exists masters slaves def use_def flt bypass snooping bar,
    x = with_bar (cx_init (CoherentXBar_new masters slaves def use_def flt bypass) snooping) bar /\
    sf = (fun f => mkSystem (setSlavePorts f (Z.of_nat <$> seq 0 slaves)) ∅ ∅) <$> flt /\ (slaves <= 64)%nat /\
    (forall f, flt = Some f -> exists line lat, f = SnoopFilter_new line lat /\ 1 <= line <= 2 ^ 32 /\ 0 <= lat);
  fx_route : xbar_reachable (cx_bar x) /\ tree_wf (portMap (cx_bar x)) /\ gotAllAddrRanges (cx_bar x) = true;
  fx_ids a m : route (cx_bar x) a = Some m -> 0 <= m < Z.of_nat (length (reqLayers x))
}.

Inductive creach (c : XBarConf) : CSys -> Prop :=
  | creach_init t x sf : fresh_xbar x sf -> creach c (mkCSys t x (fun _ => ∅) ∅ sf)
  | creach_step s e outs s' : creach c s -> cenabled c s e -> cstep c s e = Ret (outs, s') -> creach c s'.

Lemma fresh_layer_inv t : layer_inv (mkSys t Layer_new ∅).
Proof. split; [cbn; naive_solver|apply NoDup_nil_2|]. intros p; unfold XBar.waiting; cbn; set_solver. Qed.

Lemma fresh_filter_inv line lat slaves :
  1 <= line <= 2 ^ 32 -> (slaves <= 64)%nat -> sf_inv (mkSystem (setSlavePorts (SnoopFilter_new line lat) (Z.of_nat <$> seq 0 slaves)) ∅ ∅).
Proof.
  intros Hl Hs. eapply (sf_reach_inv line lat (Z.of_nat <$> seq 0 slaves)); [done| |constructor].
  apply Forall_forall. intros i Hi. apply list_elem_of_fmap in Hi as (j & -> & Hj). apply elem_of_seq in Hj. lia.
Qed.

Lemma fresh_inv t x sf : fresh_xbar x sf -> cinv (mkCSys t x (fun _ => ∅) ∅ sf).
Proof.
  intros [(masters & slaves & def & use_def & flt & bypass & snooping & bar & -> & -> & Hsl & Hf) Hr Hids]. split; cbn -[CoherentXBar_new].
  - destruct Hr as (R1 & R2 & R3). split.
    + split_and!; [by apply xbar_reachable_ok|done|done].
    + exact Hids.
    + done.
    + cbn. by rewrite fmap_empty.
    + intros id. cbn. rewrite lookup_empty. set_solver.
    + intros id o. by rewrite lookup_empty.
    + by destruct flt.
    + destruct flt as [f|]; [|done]. intros sy [= <-]. destruct (Hf f eq_refl) as (line & lat & -> & Hl & Hlat). cbn.
      split; [by apply fresh_filter_inv|done].
  - intros k l Hl. assert (l = Layer_new) as ->; [|apply fresh_layer_inv].
    destruct k; unfold get_layer in Hl; cbn in Hl; apply lookup_replicate in Hl as [-> _]; done.
Qed.

Lemma creach_inv c s : conf_ok c -> creach c s -> cinv s.
Proof.
  intros Hc. induction 1 as [t x sf Hx|s e outs s' _ IH He E]; [by apply fresh_inv|].
  destruct (cstep_ok c s e Hc IH He) as (outs1 & s1 & E1 & Hi). rewrite E in E1. by injection E1 as <- <-.
Qed.

(** ** Theorems *)

(** C20. The coherent crossbar in operation.  In every state reached by requests,
    responses, snoops from below, snoop responses, releases of layers, retries
    (with the retried port calling back, for the same or another destination) and
    drains: nothing the neighbours may do fails an assertion or a panic of the
    crossbar, its layers or its snoop filter; the routing table holds exactly the
    outstanding requests with the port each came from, and the table of
    outstanding snoops those that a snooping cache answers; the ports a layer
    turned away are those it remembers, and while it remembers one its release is
    scheduled or its peer owes a retry; the snoop filter covers the caches above. *)
Theorem coherent_xbar_safe c s :
  conf_ok c -> creach c s ->
  (forall e, cenabled c s e -> exists outs s', cstep c s e = Ret (outs, s')) /\
  routeTo (c_x s) = origin_port <$> c_out s /\
  (forall id, id ∈ outstandingSnoop (c_x s) <-> exists p, c_out s !! id = Some (FromSlave p None)) /\
  (forall k l, get_layer (c_x s) k = Some l ->
     NoDup (XBar.waiting l) /\ (forall p, p ∈ c_blocked s k <-> p ∈ XBar.waiting l) /\
     (c_blocked s k <> ∅ -> (exists t, releaseEvent l = Some t /\ c_now s <= t) \/ waitingForPeer l <> None)) /\
  snoopFilter (c_x s) = sys_filter <$> c_sf s /\ (forall sy, c_sf s = Some sy -> sf_inv sy).
Proof.
  intros Hc Hr. pose proof (creach_inv c s Hc Hr) as Hs. destruct Hs as [Hcore Hlay]. split_and!.
  - intros e He. destruct (cstep_ok c s e Hc) as (outs & s' & E & _); [by split|done|]. by exists outs, s'.
  - apply (ki_table _ _ _ Hcore).
  - apply (ki_snoop _ _ _ Hcore).
  - intros k l Hl. pose proof (Hlay k l Hl) as [Hst Hnd Hb]. cbn in Hst, Hnd, Hb. split_and!; [done|done|].
    intros Hne. apply set_choose_L in Hne as [p Hp]. rewrite Hb in Hp. unfold XBar.waiting in Hp.
    destruct (state l); [|left; destruct Hst as (t & ? & [? ?]); by eauto|done]. right. intros Hpeer.
    destruct Hst as [_ [Hq | ?]]; [|done]. rewrite Hpeer, Hq in Hp. cbn in Hp. set_solver.
  - apply (ki_filter _ _ _ Hcore).
  - intros sy Hsy. by apply (ki_sf _ _ _ Hcore).
Qed.

(** The call within a step, if it is carried out. *)
Definition step_call (e : CEv) : option Call :=
  match e with
  | CCall _ cl => Some cl
  | CRelease _ _ cl => cl
  | CReqRetry _ _ cl => cl
  | _ => None
  end.

Lemma step_delivers c s e outs s' cl :
  conf_ok c -> cinv s -> cenabled c s e -> cstep c s e = Ret (outs, s') -> step_call e = Some cl -> outs <> [] ->
  delivers s cl outs /\ c_out s' = track_call cl outs (c_out s).
Proof.
  intros Hc Hs He E Hcl Hne. destruct e as [t|edge cl'|sn pkt master|edge k cl'|edge master cl'|]; try done; cbn in Hcl; subst; cbn in He.
  - injection Hcl as ->. destruct (call_step_ok c s edge cl Hc Hs He) as (ok & outs1 & p & x' & E1 & _ & Hd).
    unfold cstep in E. rewrite E1 in E. cbn in E. injection E as <- <-. done.
  - destruct He as ((l & Hl & Hr) & He). destruct (release_ok c s edge k (Some cl) l Hc Hs Hl Hr He) as (p & outs1 & x' & E1 & _ & Hd).
    unfold cstep in E. rewrite E1 in E. cbn [mbind res_bind] in E. injection E as <- <-.
    destruct (Hd cl eq_refl) as [Hdel | ->]; [|done]. split; [done|]. destruct p as [p|]; [done|].
    exfalso. unfold cx_releaseLayer in E1. rewrite (read_layer_get _ _ _ Hl) in E1. cbn [mbind res_bind] in E1.
    apply bind_Ret in E1 as (u1 & _ & E1). apply bind_Ret in E1 as (u2 & _ & E1).
    destruct (negb _); [|destruct (_ && _); injection E1 as <- _; done].
    destruct (is_none _); [|injection E1 as <- _; done]. apply bind_Ret in E1 as ([[? ?] ?] & _ & E1). discriminate.
  - destruct He as (Hm & (l & Hl & Hr) & He).
    destruct (reqRetry_ok c s edge master (Some cl) l Hc Hs Hm Hl Hr He) as (p & outs1 & x' & E1 & _ & Hd).
    unfold cstep in E. rewrite E1 in E. cbn [mbind res_bind] in E. injection E as <- <-.
    destruct (Hd cl eq_refl) as [Hdel | ->]; [|done]. split; [done|]. destruct p as [p|]; [done|].
    exfalso. unfold recvReqRetry in E1. rewrite port_index_ok in E1 by done. cbn [mbind res_bind] in E1.
    rewrite (read_layer_get (c_x s) (LReq (Z.to_nat master)) l Hl) in E1. cbn [mbind res_bind] in E1.
    destruct (waitingForPeer l); [|done].
    destruct (is_state _ IDLE); [apply bind_Ret in E1 as ([[? ?] ?] & _ & E1); discriminate|].
    apply bind_Ret in E1 as (u & _ & E1). injection E1 as <- _. done.
Qed.

(** C21. Responses go back to where their request came from.  When a reachable
    crossbar passes on a response, directly or within a retry, the request is
    outstanding, the response goes to exactly one port, the one the request came
    from: as a response to the slave port for a request from above, as a snoop
    response to the master port for a snoop from below; and the request is then
    forgotten, so that no second response is routed. *)
Theorem responses_return_to_origin c s e outs s' cl a pkt port :
  conf_ok c -> creach c s -> cenabled c s e -> cstep c s e = Ret (outs, s') -> step_call e = Some cl -> outs <> [] ->
  cl = CallResp a pkt port \/ cl = CallSnoopResp a pkt port ->
  exists o, c_out s !! xp_req pkt = Some o /\ routeTo (c_x s) !! xp_req pkt = Some (origin_port o) /\
    outs = [match o with FromSlave p _ => SentResp p (xp_req pkt) | FromMaster m => SentSnoopResp m (xp_req pkt) end] /\
    c_out s' = delete (xp_req pkt) (c_out s) /\ routeTo (c_x s') !! xp_req pkt = None.
Proof.
  intros Hc Hr He E Hcl Hne Hor. pose proof (creach_inv c s Hc Hr) as Hs.
  destruct (step_delivers c s e outs s' cl Hc Hs He E Hcl Hne) as [Hd Ht].
  destruct (cstep_ok c s e Hc Hs He) as (outs1 & s1 & E1 & Hs1). rewrite E in E1. injection E1 as <- <-.
  assert (Hcase : exists o, c_out s !! xp_req pkt = Some o /\
    outs = [match o with FromSlave p _ => SentResp p (xp_req pkt) | FromMaster m => SentSnoopResp m (xp_req pkt) end]).
  { destruct Hor as [-> | ->]; cbn in Hd.
    - destruct Hd as [-> | (p & r & Ho & ->)]; [done|]. by exists (FromSlave p r).
    - destruct Hd as [-> | [(p & r & Ho & ->) | (m & Ho & ->)]]; [done|by exists (FromSlave p r)|by exists (FromMaster m)]. }
  destruct Hcase as (o & Ho & ->). exists o.
  assert (Hdel : c_out s' = delete (xp_req pkt) (c_out s)) by (rewrite Ht; destruct Hor as [-> | ->], o; done).
  split_and!; [done| |done|done|].
  - rewrite (ki_table _ _ _ (vi_core _ Hs)), lookup_fmap, Ho. done.
  - by rewrite (ki_table _ _ _ (vi_core _ Hs1)), lookup_fmap, Hdel, lookup_delete_eq.
Qed.

(** C22. The snoops of a request.  When a reachable crossbar forwards a request, it
    goes to the master port its address selects, after the snoops, and never back
    to its source as a snoop; without a snoop filter every other snooping port
    sees it, once for each time it is connected and in order; with a filter, every
    other port whose cache has the line, or has a request for it outstanding,
    sees it. *)
Theorem request_snoops_reach_copies c s e outs s' pr pkt slave :
  conf_ok c -> creach c s -> cenabled c s e -> cstep c s e = Ret (outs, s') -> step_call e = Some (CallReq pr pkt slave) ->
  outs <> [] ->
  exists ds m q b, outs = ((fun d => SentSnoop d (xp_req pkt)) <$> ds) ++ [SentReq m (xp_req pkt) q b] /\
    route (cx_bar (c_x s)) (pkt_addr (xp_pkt pkt)) = Some m /\ slave ∉ ds /\
    (bypassCaches (c_x s) = true -> ds = []) /\
    (bypassCaches (c_x s) = false -> c_sf s = None -> ds = snooped_ports slave (snoopPorts (c_x s))) /\
    (bypassCaches (c_x s) = false -> forall sy, c_sf s = Some sy -> forall j, j <> slave ->
       (line_of (sys_filter sy) (pkt_addr (xp_pkt pkt)), j) ∈ copies sy ∪ SnoopFilter.waiting sy -> j ∈ ds).
Proof.
  intros Hc Hr He E Hcl Hne. pose proof (creach_inv c s Hc Hr) as Hs.
  destruct (step_delivers c s e outs s' _ Hc Hs He E Hcl Hne) as [Hd _]. cbn in Hd.
  destruct Hd as [-> | (ds & m & q & b & -> & Hm & Hds & Hto & Hen)]; [done|]. exists ds, m, q, b.
  unfold snoops_to in Hto. split_and!; [done|done|done| | |].
  - intros Hb. by rewrite Hb in Hto.
  - intros Hb Hn. by rewrite Hb, Hn in Hto.
  - intros Hb sy Hsy j Hj Hin. specialize (Hen Hb sy Hsy). rewrite Hb, Hsy in Hto. destruct Hto as (sf1 & ds0 & l & El & ->).
    pose proof (ki_sf _ _ _ (vi_core _ Hs) sy Hsy) as [Hi _].
    destruct (request_lookup sy Hi (xp_pkt pkt) slave true Hen) as (sf2 & El2 & _). rewrite El in El2. injection El2 as _ -> _.
    unfold snooped_ports. apply list_elem_of_filter. split; [by right|]. apply list_elem_of_filter.
    apply elem_of_union in Hin as [Hin | Hin].
    + apply (si_copies _ Hi) in Hin as [Hp Hh]. split; [|done]. rewrite Hh. cbn. apply negb_true_iff, Z.eqb_neq. congruence.
    + pose proof (si_wports _ Hi _ _ Hin) as Hp. apply (waiting_bit sy Hi _ _ Hp) in Hin. split; [|done].
      rewrite Hin, orb_true_r. cbn. apply negb_true_iff, Z.eqb_neq. congruence.
Qed.

(** ** A crossbar with three caches above two devices *)

Definition demo_conf : XBarConf := mkXBarConf 1 2 2 4 16 500 1000000.
Definition demo_cx (flt : option SnoopFilter) : CoherentXBar :=
  with_bar (cx_init (CoherentXBar_new 2 3 false false flt false) (fun _ => true)) two_devices_cached.
Definition demo_sf (flt : option SnoopFilter) : option system :=
  (fun f => mkSystem (setSlavePorts f (Z.of_nat <$> seq 0 3)) ∅ ∅) <$> flt.
Definition demo_sys (flt : option SnoopFilter) : CSys := mkCSys 1000 (demo_cx flt) (fun _ => ∅) ∅ (demo_sf flt).

Lemma two_devices_wf : tree_wf (portMap two_devices_cached).
Proof.
  split.
  - intros [|[|i]] [|[|j]] ri rj Hij Hi Hj; try lia; cbn in *; simplify_eq; done.
  - intros [|[|i]] [|[|j]] ri rj Hij Hi Hj; try lia; cbn in *; simplify_eq; cbn; left; lia.
  - intros [|[|i]] ri Hi; cbn in *; simplify_eq; cbn; repeat split; try lia; done.
Qed.

Lemma two_devices_aligned a : stripe_aligned (portMap two_devices_cached) a.
Proof.
  intros r id Hin _ _. cbn in Hin. rewrite !elem_of_cons in Hin.
  destruct Hin as [[= -> _] | [[= -> _] | Hin]]; [reflexivity|reflexivity|by apply not_elem_of_nil in Hin].
Qed.

Lemma demo_fresh flt :
  (forall f, flt = Some f -> exists line lat, f = SnoopFilter_new line lat /\ 1 <= line <= 2 ^ 32 /\ 0 <= lat) ->
  fresh_xbar (demo_cx flt) (demo_sf flt).
Proof.
  intros Hf. split.
  - exists 2%nat, 3%nat, false, false, flt, false, (fun _ => true), two_devices_cached. split_and!; [done|done|lia|done].
  - split_and!; [exact two_devices_reachable|exact two_devices_wf|reflexivity].
  - intros a m. unfold route. cbn [demo_cx with_bar cx_bar].
    destruct (list_find _ _) as [[i [r id]]|] eqn:E; [|cbn; intros; discriminate].
    intros [= <-]. apply list_find_Some in E as (Hi & _ & _). apply list_elem_of_lookup_2 in Hi. cbn in Hi.
    rewrite !elem_of_cons in Hi. destruct Hi as [[= _ ->] | [[= _ ->] | Hi]]; [cbn; lia|cbn; lia|by apply not_elem_of_nil in Hi].
Qed.

(** Cache 0 reads a word of the first device; nobody intervenes. *)
Definition demo_peers : Peers := mkPeers (fun _ p => p) (fun p => (true, p)).
Definition demo_read_pkt : XPkt := mkXPkt (demo_request ReadReq 100) 7 0.
Definition demo_call : Call := CallReq demo_peers demo_read_pkt 0.

Lemma demo_call_enabled flt :
  (forall f, flt = Some f -> exists line lat, f = SnoopFilter_new line lat /\ 1 <= line <= 2 ^ 32 /\ 0 <= lat) ->
  call_enabled demo_conf (demo_sys flt) 1000 demo_call.
Proof.
  intros Hf. split; [lia|]. split; [intros k _; cbn; set_solver|].
  split; [cbn; lia|]. split; [reflexivity|]. split.
  { exists 0. split; [vm_compute; reflexivity|]. split; [unfold inword; cbn; lia|apply two_devices_aligned]. }
  split. { intros d p. exists (pkt_flags p). split; [symmetry; apply with_flags_same|done]. }
  split. { intros p. by split_and!. }
  split. { split; [cbn; lia|]. split; [cbn; lia|]. vm_compute. discriminate. }
  split. { intros _. split; [reflexivity|]. vm_compute. reflexivity. }
  intros _ sy Hsy. destruct flt as [f|]; [|done]. injection Hsy as <-.
  split; [cbn; lia|]. split; [cbn; set_solver|]. intros _. cbn. set_solver.
Qed.

Lemma coherent_xbar_safe_witness :
  let s := demo_sys (Some (SnoopFilter_new 64 1)) in
  creach demo_conf s /\ exists outs s', cstep demo_conf s (CCall 1000 demo_call) = Ret (outs, s').
Proof.
  assert (Hf : forall f, Some (SnoopFilter_new 64 1) = Some f ->
            exists line lat, f = SnoopFilter_new line lat /\ 1 <= line <= 2 ^ 32 /\ 0 <= lat).
  { intros f [= <-]. exists 64, 1. split; [done|lia]. }
  assert (Hr : creach demo_conf (demo_sys (Some (SnoopFilter_new 64 1)))) by (apply creach_init; by apply demo_fresh).
  split; [exact Hr|]. refine (proj1 (coherent_xbar_safe demo_conf _ _ Hr) _ _); [split; [cbn; lia|discriminate]|].
  by apply demo_call_enabled.
Defined.

Definition demo_result (r : res (bool * list Output * XPkt * CoherentXBar)) : list Output * CoherentXBar :=
  match r with
  | Ret (_, out, _, x) => (out, x)
  | Err _ => ([], demo_cx None)
  end.
Definition demo_sent : list Output * CoherentXBar :=
  Eval vm_compute in demo_result (exec_call demo_conf 1000 1000 (demo_cx None) demo_call).
Definition demo_sys1 : CSys := after_call (demo_sys None) demo_call demo_sent.1 demo_sent.2.

Lemma demo_sys_reach : creach demo_conf (demo_sys None).
Proof. apply creach_init. by apply demo_fresh. Qed.

Lemma demo_step : cstep demo_conf (demo_sys None) (CCall 1000 demo_call) = Ret (demo_sent.1, demo_sys1).
Proof. vm_compute. reflexivity. Qed.

Lemma request_snoops_reach_copies_witness :
  exists ds m q b, demo_sent.1 = ((fun d => SentSnoop d 7) <$> ds) ++ [SentReq m 7 q b] /\ ds = [1; 2] /\ m = 0.
Proof.
  destruct (request_snoops_reach_copies demo_conf (demo_sys None) (CCall 1000 demo_call) demo_sent.1 demo_sys1 demo_peers
    demo_read_pkt 0) as (ds & m & q & b & E & Hm & _ & _ & Hds & _).
  - split; [cbn; lia|discriminate].
  - exact demo_sys_reach.
  - by apply demo_call_enabled.
  - exact demo_step.
  - reflexivity.
  - discriminate.
  - exists ds, m, q, b. split; [exact E|]. split; [apply Hds; reflexivity|]. injection Hm as <-. reflexivity.
Defined.

(** The device answers. *)
Definition demo_resp : Call := CallResp true (mkXPkt (demo_request ReadResp 100) 7 0) 0.
Definition demo_answered : list Output * CoherentXBar :=
  Eval vm_compute in demo_result (exec_call demo_conf 1000 1000 demo_sent.2 demo_resp).

Lemma responses_return_to_origin_witness :
  creach demo_conf demo_sys1 /\ exists s', cstep demo_conf demo_sys1 (CCall 1000 demo_resp) = Ret ([SentResp 0 7], s') /\
    routeTo (c_x s') !! 7%nat = None.
Proof.
  assert (Hr : creach demo_conf demo_sys1).
  { eapply (creach_step demo_conf (demo_sys None) (CCall 1000 demo_call)); [exact demo_sys_reach|by apply demo_call_enabled|
      exact demo_step]. }
  split; [exact Hr|]. exists (after_call demo_sys1 demo_resp demo_answered.1 demo_answered.2).
  assert (E : cstep demo_conf demo_sys1 (CCall 1000 demo_resp)
              = Ret ([SentResp 0 7], after_call demo_sys1 demo_resp demo_answered.1 demo_answered.2)) by (vm_compute; reflexivity).
  split; [exact E|].
  destruct (responses_return_to_origin demo_conf demo_sys1 (CCall 1000 demo_resp) [SentResp 0 7]
    (after_call demo_sys1 demo_resp demo_answered.1 demo_answered.2) demo_resp true
    (mkXPkt (demo_request ReadResp 100) 7 0) 0) as (o & _ & _ & _ & _ & H); [|exact Hr| |exact E|reflexivity|discriminate|by left|exact H].
  - split; [cbn; lia|discriminate].
  - split; [lia|]. split; [intros k _; change (c_blocked demo_sys1 k) with (∅ : gset nat); apply not_elem_of_empty|].
    split; [reflexivity|]. split; [vm_compute; split; congruence|].
    split; [split; [cbn; lia|split; [cbn; lia|vm_compute; discriminate]]|].
    exists 0. split; [vm_compute; reflexivity|]. intros _ sy Hsy. vm_compute in Hsy. discriminate.
Defined.
