(* ===== verification/CoherentXBarAtomic.v ===== *)
(** * The coherent crossbar in atomic and functional mode: [mem/coherent_xbar.cc]

    In these modes a request completes within one call.  An atomic request is
    seen by all snooping ports even when one of them answers, and then by the
    destination; a functional access stops at the first port that answers.

    What a neighbour makes of a packet is an argument of the handlers, with the
    latency of its answer in atomic mode.  The ports that were called are part of
    the results. *)

From stdpp Require Import gmap.
From S2P Require Import Prelude IntMath AddrRange Packet SnoopFilter XBar CoherentXBar CoherentXBarSys.
Local Open Scope Z_scope.

(** ** Atomic mode *)

(** The variables of [forwardAtomic]: the ports called so far, the answer of a
    snooper, its latency, the packet and the filter. *)
Record AtomicSnoop := mkAtomicSnoop {
  as_called : list Z;
  as_cmd : Command;
  as_latency : Z;
  as_pkt : Packet;
  as_filter : option SnoopFilter
}.

(** One iteration of the loop, for port [d]. *)
Definition atomic_snoop (sn : Z -> Packet -> Z * Packet) (exclude source : Z) (orig_cmd : Command) (d : Z) (s : AtomicSnoop)
    : res AtomicSnoop :=
  if negb (exclude =? InvalidPortID) && (d =? exclude) then Ret s
  else
    let '(latency, p) := sn d (as_pkt s) in
    let called := as_called s ++ [d] in
    if negb (cmd_isResponse (pkt_cmd p)) then Ret (mkAtomicSnoop called (as_cmd s) (as_latency s) p (as_filter s))
    else
      _ ← cassert (bool_decide (pkt_cmd p <> orig_cmd));
      _ ← cassert (memInhibitAsserted p);
      _ ← cassert (bool_decide (as_cmd s = InvalidCmd));
      flt ← match as_filter s with
            | None => Ret None
            | Some sf =>
                sf ← (if negb (source =? InvalidPortID) then
                        _ ← cassert (exclude =? InvalidPortID);
                        updateSnoopForward sf p d
                      else updateSnoopResponse sf p d exclude);
                Ret (Some sf)
            end;
      Ret (mkAtomicSnoop called (pkt_cmd p) latency (with_cmd p orig_cmd) flt).

Fixpoint atomic_loop (sn : Z -> Packet -> Z * Packet) (exclude source : Z) (orig_cmd : Command) (dests : list Z) (s : AtomicSnoop)
    : res AtomicSnoop :=
  match dests with
  | [] => Ret s
  | d :: dests =>
      s ← atomic_snoop sn exclude source orig_cmd d s;
      atomic_loop sn exclude source orig_cmd dests s
  end.

Definition forwardAtomic (x : CoherentXBar) (sn : Z -> Packet -> Z * Packet) (pkt : Packet) (exclude source : Z) (dests : list Z)
    : res (AtomicSnoop * CoherentXBar) :=
  _ ← cassert (negb (bypassCaches x));
  s ← atomic_loop sn exclude source (pkt_cmd pkt) dests (mkAtomicSnoop [] InvalidCmd 0 pkt (snoopFilter x));
  Ret (s, sample_fanout (with_filter x (as_filter s)) (Z.of_nat (length (as_called s)))).

Definition count_trans (x : CoherentXBar) (s m : Z) (p : Packet) : CoherentXBar :=
  count_cmd (count_pkt x s m (data_size p)) (pkt_cmd p).

(** The result: the latency, the ports snooped, the destination, the packet. *)
Record AtomicResult := mkAtomicResult { ar_latency : Z; ar_snooped : list Z; ar_dest : Z; ar_pkt : Packet }.

(** The snoops of an atomic request. *)
Definition atomic_request_snoops (c : XBarConf) (x : CoherentXBar) (sn : Z -> Packet -> Z * Packet) (pkt : Packet) (slave : Z)
    : res (AtomicSnoop * CoherentXBar) :=
  if bypassCaches x then Ret (mkAtomicSnoop [] InvalidCmd 0 pkt (snoopFilter x), x)
  else
    match snoopFilter x with
    | Some sf =>
        '(sf, (dests, lat)) ← lookupRequest sf pkt slave;
        '(s, x) ← forwardAtomic (with_filter x (Some sf)) sn pkt slave InvalidPortID dests;
        Ret (mkAtomicSnoop (as_called s) (as_cmd s) (u64 (lat * xb_period c + as_latency s)) (as_pkt s) (as_filter s), x)
    | None => forwardAtomic x sn pkt slave InvalidPortID (snoopPorts x)
    end.

Definition cx_recvAtomic (c : XBarConf) (x : CoherentXBar) (sn : Z -> Packet -> Z * Packet) (send : Packet -> Z * Packet)
    (pkt : Packet) (slave : Z) : res (AtomicResult * CoherentXBar) :=
  '(s, x) ← atomic_request_snoops c x sn pkt slave;
  '(master, bar) ← findPort (cx_bar x) (pkt_addr (as_pkt s));
  let x := count_trans (with_bar x bar) slave master pkt in
  let '(response_latency, p) := send (as_pkt s) in
  x ← update_filter x (fun sf => updateResponse sf p slave) (negb (bypassCaches x) && cmd_isResponse (pkt_cmd p));
  '(response_latency, p) ←
    (if bool_decide (as_cmd s <> InvalidCmd) then
       _ ← cassert (negb (cmd_isResponse (pkt_cmd p)));
       Ret (as_latency s, with_cmd p (as_cmd s))
     else Ret (response_latency, p));
  let x := if cmd_isResponse (pkt_cmd p) then count_trans x slave master p else x in
  Ret (mkAtomicResult response_latency (as_called s) master (with_payload p (u32 response_latency)), x).

(** The result: the latency, the ports snooped, the packet. *)
Definition recvAtomicSnoop (c : XBarConf) (x : CoherentXBar) (sn : Z -> Packet -> Z * Packet) (pkt : Packet) (master : Z)
    : res (Z * list Z * Packet * CoherentXBar) :=
  let x := count_snoops x in
  '(s, x) ← match snoopFilter x with
            | Some sf =>
                '(sf, (dests, lat)) ← lookupSnoop sf pkt;
                '(s, x) ← forwardAtomic (with_filter x (Some sf)) sn pkt InvalidPortID master dests;
                Ret (mkAtomicSnoop (as_called s) (as_cmd s) (u64 (lat * xb_period c + as_latency s)) (as_pkt s) (as_filter s), x)
            | None => forwardAtomic x sn pkt InvalidPortID InvalidPortID (snoopPorts x)
            end;
  let p := if bool_decide (as_cmd s <> InvalidCmd) then with_cmd (as_pkt s) (as_cmd s) else as_pkt s in
  let x := if cmd_isResponse (pkt_cmd p) then count_snoops x else x in
  Ret (as_latency s, as_called s, with_payload p (u32 (as_latency s)), x).

(** ** Functional mode *)

(** The loop of [forwardFunctional]: the ports called and the packet. *)
Fixpoint functional_loop (sn : Z -> Packet -> Packet) (exclude : Z) (dests : list Z) (p : Packet) : list Z * Packet :=
  match dests with
  | [] => ([], p)
  | d :: dests =>
      let ask := (exclude =? InvalidPortID) || negb (d =? exclude) in
      let q := if ask then sn d p else p in
      let called := if ask then [d] else [] in
      if cmd_isResponse (pkt_cmd q) then (called, q)
      else let '(ds, r) := functional_loop sn exclude dests q in (called ++ ds, r)
  end.

Definition forwardFunctional (x : CoherentXBar) (sn : Z -> Packet -> Packet) (p : Packet) (exclude : Z) : res (list Z * Packet) :=
  _ ← cassert (negb (bypassCaches x));
  Ret (functional_loop sn exclude (snoopPorts x) p).

(** The ports snooped, the destination when it was called, the packet. *)
Definition cx_recvFunctional (x : CoherentXBar) (sn : Z -> Packet -> Packet) (send : Packet -> Packet) (pkt : Packet) (slave : Z)
    : res (list Z * option Z * Packet * CoherentXBar) :=
  '(called, p) ← (if bypassCaches x then Ret ([], pkt) else forwardFunctional x sn pkt slave);
  if negb (cmd_isResponse (pkt_cmd p)) then
    '(dest, bar) ← findPort (cx_bar x) (pkt_addr p);
    Ret (called, Some dest, send p, with_bar x bar)
  else Ret (called, None, p, x).

Definition recvFunctionalSnoop (x : CoherentXBar) (sn : Z -> Packet -> Packet) (pkt : Packet) : res (list Z * Packet) :=
  forwardFunctional x sn pkt InvalidPortID.

(** ** What the neighbours may do *)

(** The ports for which [owner] holds answer an atomic request of command [orig];
    the others leave its command alone.  An owner inhibits the memory, and nobody
    takes that back. *)
Definition atomic_snoopers (orig : Command) (owner : Z -> bool) (sn : Z -> Packet -> Z * Packet) : Prop :=
  forall d q, pkt_cmd q = orig ->
    pkt_addr (sn d q).2 = pkt_addr q /\ (memInhibitAsserted q = true -> memInhibitAsserted (sn d q).2 = true) /\
    (if owner d then cmd_isResponse (pkt_cmd (sn d q).2) = true /\ memInhibitAsserted (sn d q).2 = true
     else pkt_cmd (sn d q).2 = orig).

(** ** Reference *)

(** The packet after the ports [ds] have seen it, with its command. *)
Definition seen_by (sn : Z -> Packet -> Z * Packet) (orig : Command) (ds : list Z) (p : Packet) : Packet :=
  foldl (fun p d => with_cmd (sn d p).2 orig) p ds.

(** The latency and the command of the port that answers. *)
Fixpoint answer_of (sn : Z -> Packet -> Z * Packet) (orig : Command) (ds : list Z) (p : Packet) : option (Z * Command) :=
  match ds with
  | [] => None
  | d :: ds =>
      if cmd_isResponse (pkt_cmd (sn d p).2) then Some ((sn d p).1, pkt_cmd (sn d p).2)
      else answer_of sn orig ds (with_cmd (sn d p).2 orig)
  end.

Lemma with_cmd_same p c : pkt_cmd p = c -> with_cmd p c = p.
Proof. intros <-. by destruct p. Qed.

Lemma response_valid c : cmd_isResponse c = true -> c <> InvalidCmd.
Proof. by intros H ->. Qed.

Section atomic.
Context (orig : Command) (owner : Z -> bool) (sn : Z -> Packet -> Z * Packet).
Context (Hsn : atomic_snoopers orig owner sn) (Horig : cmd_isResponse orig = false).

Lemma no_answer ds : (forall d, d ∈ ds -> owner d = false) -> forall p, pkt_cmd p = orig -> answer_of sn orig ds p = None.
Proof.
  intros Hd. induction ds as [|d ds IH]; intros p Hp; [done|]. cbn [answer_of].
  destruct (Hsn d p Hp) as (_ & _ & H). rewrite (Hd d) in H by apply list_elem_of_here. rewrite H, Horig.
  apply IH; [|done]. intros. apply Hd. by apply list_elem_of_further.
Qed.

Lemma owner_answers ds p :
  pkt_cmd p = orig -> (exists d, d ∈ ds /\ owner d = true) -> is_Some (answer_of sn orig ds p).
Proof.
  revert p. induction ds as [|d ds IH]; intros p Hp (d' & Hin & Ho); [by apply not_elem_of_nil in Hin|]. cbn [answer_of].
  destruct (cmd_isResponse (pkt_cmd (sn d p).2)) eqn:E; [by eexists|]. destruct (Hsn d p Hp) as (_ & _ & H).
  destruct (owner d) eqn:Eo; [destruct H as [H _]; congruence|]. apply IH; [done|]. exists d'. split; [|done].
  apply elem_of_cons in Hin as [-> | Hin]; [congruence|done].
Qed.

(** What the ports do to the packet besides its command. *)
Lemma seen_by_ok ds : forall p, pkt_cmd p = orig ->
  pkt_cmd (seen_by sn orig ds p) = orig /\ pkt_addr (seen_by sn orig ds p) = pkt_addr p /\
  (memInhibitAsserted p = true \/ (exists d, d ∈ ds /\ owner d = true) -> memInhibitAsserted (seen_by sn orig ds p) = true).
Proof.
  induction ds as [|d ds IH]; intros p Hp.
  - split; [done|]. split; [done|]. intros [H | (d & Hd & _)]; [done|by apply not_elem_of_nil in Hd].
  - destruct (IH (with_cmd (sn d p).2 orig) eq_refl) as (E1 & E2 & E3). destruct (Hsn d p Hp) as (Ha & Hi & Hd).
    split; [exact E1|]. split; [by etrans|]. intros H. apply E3.
    destruct H as [H | (d' & Hin & Ho)]; [left; by apply Hi|].
    apply elem_of_cons in Hin as [-> | Hin]; [left; rewrite Ho in Hd; apply Hd|right; by exists d'].
Qed.

(** The loop, with at most one owner among the ports it calls. *)
Lemma atomic_loop_ok exclude source dests : forall s,
  as_filter s = None -> pkt_cmd (as_pkt s) = orig -> NoDup dests ->
  (forall d d', d ∈ snooped_ports exclude dests -> d' ∈ snooped_ports exclude dests ->
     owner d = true -> owner d' = true -> d = d') ->
  (as_cmd s <> InvalidCmd -> forall d, d ∈ snooped_ports exclude dests -> owner d = false) ->
  let ds := snooped_ports exclude dests in
  let ans := answer_of sn orig ds (as_pkt s) in
  atomic_loop sn exclude source orig dests s
  = Ret (mkAtomicSnoop (as_called s ++ ds) (from_option snd (as_cmd s) ans) (from_option fst (as_latency s) ans)
           (seen_by sn orig ds (as_pkt s)) None).
Proof.
  induction dests as [|d dests IH]; intros s Hf Hp Hnd Hone Hinv ds ans.
  { unfold ans, ds. cbn. rewrite app_nil_r. destruct s; cbn in *. by subst. }
  apply NoDup_cons in Hnd as [Hd Hnd]. cbn [atomic_loop]. unfold atomic_snoop.
  subst ans. subst ds. unfold snooped_ports in *. rewrite filter_cons in *.
  destruct (decide (exclude = InvalidPortID \/ d <> exclude)) as [He | He].
  - replace (negb (exclude =? InvalidPortID) && (d =? exclude)) with false; cycle 1.
    { symmetry. apply andb_false_iff. destruct He as [-> | He]; [by left|right; by apply Z.eqb_neq]. }
    destruct (Hsn d (as_pkt s) Hp) as (_ & _ & Hans). cbn [answer_of]. destruct (sn d (as_pkt s)) as [lat p] eqn:Esn.
    cbn [fst snd] in *. unfold seen_by. cbn [foldl]. rewrite Esn. cbn [snd]. destruct (owner d) eqn:Eo.
    + destruct Hans as [Hr Hi]. rewrite Hr. cbn [negb]. rewrite (bool_decide_true (pkt_cmd p <> orig)) by (intros E; rewrite E in Hr; congruence).
      assert (Hc : as_cmd s = InvalidCmd).
      { destruct (decide (as_cmd s = InvalidCmd)) as [|Hc]; [done|].
        pose proof (Hinv Hc d (list_elem_of_here _ _)). congruence. }
      rewrite Hi, (bool_decide_true (as_cmd s = InvalidCmd)), Hf by done. cbn [cassert mbind res_bind].
      assert (Hno : forall d', d' ∈ filter (fun d => exclude = InvalidPortID \/ d <> exclude) dests -> owner d' = false).
      { intros d' Hd'. destruct (owner d') eqn:E'; [|done]. assert (d = d') as <-.
        { apply Hone; [apply list_elem_of_here|by apply list_elem_of_further|done|done]. }
        apply list_elem_of_filter in Hd'. tauto. }
      rewrite IH; cbn [as_filter as_pkt as_cmd as_called as_latency]; [|done|done|done| |done].
      * rewrite no_answer by done. unfold seen_by. cbn. rewrite <- app_assoc. done.
      * intros d1 d2 H1 _ H3. rewrite (Hno d1 H1) in H3. done.
    + rewrite Hans, Horig. cbn [negb mbind res_bind].
      rewrite IH; cbn [as_filter as_pkt as_cmd as_called as_latency]; [|done|done|done| |].
      * rewrite with_cmd_same by done. unfold seen_by. rewrite <- app_assoc. done.
      * intros d1 d2 H1 H2. apply Hone; by apply list_elem_of_further.
      * intros H d' Hd'. apply Hinv; [done|]. by apply list_elem_of_further.
  - replace (negb (exclude =? InvalidPortID) && (d =? exclude)) with true; cycle 1.
    { symmetry. apply andb_true_iff. split; [apply negb_true_iff, Z.eqb_neq; tauto|].
      apply Z.eqb_eq. destruct (decide (d = exclude)); tauto. }
    cbn [mbind res_bind]. by apply IH.
Qed.
End atomic.

(** ** Functional mode *)

(** The loop stops at the first answer. *)
Lemma functional_loop_ok sn exclude dests : forall p, cmd_isResponse (pkt_cmd p) = false ->
  exists l1 l2, snooped_ports exclude dests = l1 ++ l2 /\
    functional_loop sn exclude dests p = (l1, foldl (fun p d => sn d p) p l1) /\
    (forall l d l', l1 = l ++ d :: l' -> cmd_isResponse (pkt_cmd (foldl (fun p d => sn d p) p l)) = false) /\
    (l2 <> [] -> cmd_isResponse (pkt_cmd (foldl (fun p d => sn d p) p l1)) = true).
Proof.
  induction dests as [|d dests IH]; intros p Hp.
  { exists [], []. split_and!; try done. by intros [|? ?] ? ? ?. }
  unfold snooped_ports. rewrite filter_cons. cbn [functional_loop].
  destruct (decide (exclude = InvalidPortID \/ d <> exclude)) as [He | He].
  - replace ((exclude =? InvalidPortID) || negb (d =? exclude)) with true; cycle 1.
    { symmetry. apply orb_true_iff. destruct He as [-> | He]; [by left|right; by apply negb_true_iff, Z.eqb_neq]. }
    destruct (cmd_isResponse (pkt_cmd (sn d p))) eqn:Er.
    + exists [d], (snooped_ports exclude dests). split_and!; try done.
      intros [|? [|? ?]] ? ? [=]; by subst.
    + destruct (IH (sn d p) Er) as (l1 & l2 & E & -> & Hpre & Hend). exists (d :: l1), l2. split_and!; try done.
      * cbn. f_equal. exact E.
      * intros [|e l] d' l' [= <- ?]; [done|]. by eapply Hpre.
  - replace ((exclude =? InvalidPortID) || negb (d =? exclude)) with false; cycle 1.
    { symmetry. apply orb_false_iff. split; [apply Z.eqb_neq; tauto|]. apply negb_false_iff, Z.eqb_eq.
      destruct (decide (d = exclude)); tauto. }
    rewrite Hp. destruct (IH p Hp) as (l1 & l2 & E & -> & Hpre & Hend). by exists l1, l2.
Qed.

Lemma foldl_addr (sn : Z -> Packet -> Packet) p l :
  (forall d q, pkt_addr (sn d q) = pkt_addr q) -> pkt_addr (foldl (fun p d => sn d p) p l) = pkt_addr p.
Proof. intros H. revert p. induction l as [|d l IH]; intros p; [done|]. cbn. by rewrite IH. Qed.

Lemma answer_is_response sn orig ds : forall p l c, answer_of sn orig ds p = Some (l, c) -> cmd_isResponse c = true.
Proof.
  induction ds as [|d ds IH]; intros p l c; [done|]. cbn [answer_of].
  destruct (cmd_isResponse (pkt_cmd (sn d p).2)) eqn:E; [|apply IH]. by intros [= _ <-].
Qed.


(** Cache 1 owns the line that cache 0 reads. *)
Definition owner_snoop (d : Z) (q : Packet) : Z * Packet :=
  if d =? 1 then (20, with_cmd (with_flags q MEM_INHIBIT) ReadResp) else (5, q).

