(* ===== verification/NoncoherentXBar.v ===== *)
(** * The non-coherent crossbar: [mem/noncoherent_xbar.cc]

    The same layers and routing without snoops.  The handlers are translated on
    their own; that they are those of a coherent crossbar whose caches are
    bypassed is a theorem, through which the safety of the coherent crossbar
    carries over. *)

From stdpp Require Import gmap.
From S2P Require Import Prelude IntMath AddrRange Packet SnoopFilter XBar CoherentXBar CoherentXBarSys CoherentXBarAtomic.
Local Open Scope Z_scope.

Record NoncoherentXBar := mkNoncoherentXBar {
  nx_bar : XBar;
  nx_reqLayers : list Layer;
  nx_respLayers : list Layer;
  nx_routeTo : gmap nat Z;
  nx_stats : XBarStats
}.

(** The coherent crossbar with the same ports, layers and tables, in a system that
    bypasses its caches. *)
Definition embed (x : NoncoherentXBar) : CoherentXBar :=
  mkCoherentXBar (nx_bar x) (nx_reqLayers x) (nx_respLayers x) [] [] None true (nx_routeTo x) ∅ (nx_stats x).

Definition nx_set_bar (x : NoncoherentXBar) (b : XBar) : NoncoherentXBar :=
  mkNoncoherentXBar b (nx_reqLayers x) (nx_respLayers x) (nx_routeTo x) (nx_stats x).
Definition nx_set_req (x : NoncoherentXBar) (l : list Layer) : NoncoherentXBar :=
  mkNoncoherentXBar (nx_bar x) l (nx_respLayers x) (nx_routeTo x) (nx_stats x).
Definition nx_set_resp (x : NoncoherentXBar) (l : list Layer) : NoncoherentXBar :=
  mkNoncoherentXBar (nx_bar x) (nx_reqLayers x) l (nx_routeTo x) (nx_stats x).
Definition nx_set_routes (x : NoncoherentXBar) (r : gmap nat Z) : NoncoherentXBar :=
  mkNoncoherentXBar (nx_bar x) (nx_reqLayers x) (nx_respLayers x) r (nx_stats x).

(** [pktCount], [pktSize] and [transDist] *)
Definition nx_count (x : NoncoherentXBar) (s m sz : Z) (cmd : Command) : NoncoherentXBar :=
  let st := nx_stats x in
  mkNoncoherentXBar (nx_bar x) (nx_reqLayers x) (nx_respLayers x) (nx_routeTo x)
    (mkXBarStats (<[(s, m) := default 0 (pktCount st !! (s, m)) + 1]> (pktCount st))
       (<[(s, m) := default 0 (pktSize st !! (s, m)) + sz]> (pktSize st)) (transDist st ++ [cmd]) (snoops st) (snoopFanout st)).

(** ** Handlers *)

Definition nx_recvTimingReq (c : XBarConf) (curTick edge : Z) (x : NoncoherentXBar) (send : Packet -> bool * Packet)
    (pkt : XPkt) (slave : Z) : res (bool * list Output * XPkt * NoncoherentXBar) :=
  src ← port_index slave;
  _ ← cassert (negb (isExpressSnoop (xp_pkt pkt)));
  '(master, bar) ← findPort (nx_bar x) (pkt_addr (xp_pkt pkt));
  let x := nx_set_bar x bar in
  m ← port_index master;
  l ← vread (nx_reqLayers x) m;
  '(free, l) ← tryTiming l src;
  let x := nx_set_req x (<[m := l]> (nx_reqLayers x)) in
  if negb free then Ret (false, [], pkt, x)
  else
    let pkt_sz := data_size (xp_pkt pkt) in
    let cmd := pkt_cmd (xp_pkt pkt) in
    let old_header_delay := xp_headerDelay pkt in
    p ← calcPacketTiming c curTick edge pkt ((frontendLatency c + forwardLatency c) * xb_period c);
    let packetFinishTime := edge + xb_period c + pkt_payloadDelay (xp_pkt p) in
    let expect_response := cmd_needsResponse (pkt_cmd (xp_pkt p)) && negb (memInhibitAsserted (xp_pkt p)) in
    let '(success, q) := send (xp_pkt p) in
    let out := [SentReq master (xp_req p) (xp_pkt p) success] in
    let p := with_pkt p q in
    if negb success then
      _ ← cassert (negb (memInhibitAsserted (xp_pkt p)));
      let p := with_header p old_header_delay in
      l ← vread (nx_reqLayers x) m;
      l ← failedTiming l src curTick (edge + xb_period c);
      Ret (false, out, p, nx_set_req x (<[m := l]> (nx_reqLayers x)))
    else
      x ← (if expect_response then
             _ ← cassert (bool_decide (nx_routeTo x !! xp_req p = None));
             Ret (nx_set_routes x (<[xp_req p := slave]> (nx_routeTo x)))
           else Ret x);
      l ← vread (nx_reqLayers x) m;
      l ← succeededTiming l curTick packetFinishTime;
      Ret (true, out, p, nx_count (nx_set_req x (<[m := l]> (nx_reqLayers x))) slave master pkt_sz cmd).

Definition nx_recvTimingResp (c : XBarConf) (curTick edge : Z) (x : NoncoherentXBar) (accepted : bool) (pkt : XPkt) (master : Z)
    : res (bool * list Output * XPkt * NoncoherentXBar) :=
  m ← port_index master;
  match nx_routeTo x !! xp_req pkt with
  | None => Err AssertFailed
  | Some slave =>
      _ ← cassert (negb (slave =? InvalidPortID));
      _ ← cassert (slave <? Z.of_nat (length (nx_respLayers x)));
      s ← port_index slave;
      l ← vread (nx_respLayers x) s;
      '(free, l) ← tryTiming l (master_src m);
      let x := nx_set_resp x (<[s := l]> (nx_respLayers x)) in
      if negb free then Ret (false, [], pkt, x)
      else
        let pkt_sz := data_size (xp_pkt pkt) in
        let cmd := pkt_cmd (xp_pkt pkt) in
        p ← calcPacketTiming c curTick edge pkt (responseLatency c * xb_period c);
        let packetFinishTime := edge + xb_period c + pkt_payloadDelay (xp_pkt p) in
        _ ← cassert accepted;
        let x := nx_set_routes x (delete (xp_req pkt) (nx_routeTo x)) in
        l ← vread (nx_respLayers x) s;
        l ← succeededTiming l curTick packetFinishTime;
        Ret (true, [SentResp slave (xp_req pkt)], p,
             nx_count (nx_set_resp x (<[s := l]> (nx_respLayers x))) slave master pkt_sz cmd)
  end.

(** The retry of a request layer is that of the layer. *)
Definition nx_recvReqRetry (curTick edge : Z) (x : NoncoherentXBar) (master : Z) (r : reaction)
    : res (option nat * NoncoherentXBar) :=
  m ← port_index master;
  l ← vread (nx_reqLayers x) m;
  '(p, l) ← layer_recvRetry l curTick edge r;
  Ret (p, nx_set_req x (<[m := l]> (nx_reqLayers x))).

(** [send] is the destination's answer: its latency, and what it makes of the packet. *)
Definition nx_recvAtomic (x : NoncoherentXBar) (send : Packet -> Z * Packet) (pkt : Packet) (slave : Z)
    : res (Z * Z * Packet * NoncoherentXBar) :=
  let sz := data_size pkt in
  let cmd := pkt_cmd pkt in
  '(master, bar) ← findPort (nx_bar x) (pkt_addr pkt);
  let x := nx_count (nx_set_bar x bar) slave master sz cmd in
  let '(response_latency, p) := send pkt in
  let x := if cmd_isResponse (pkt_cmd p) then nx_count x slave master (data_size p) (pkt_cmd p) else x in
  Ret (master, response_latency, with_payload p (u32 response_latency), x).

Definition nx_recvFunctional (x : NoncoherentXBar) (send : Packet -> Packet) (pkt : Packet)
    : res (Z * Packet * NoncoherentXBar) :=
  '(dest, bar) ← findPort (nx_bar x) (pkt_addr pkt);
  Ret (dest, send pkt, nx_set_bar x bar).

Definition nx_drain (x : NoncoherentXBar) : Z * NoncoherentXBar :=
  let '(a, req) := drain_layers (nx_reqLayers x) in
  let '(b, resp) := drain_layers (nx_respLayers x) in
  (u32 (a + b), mkNoncoherentXBar (nx_bar x) req resp (nx_routeTo x) (nx_stats x)).

Definition NoncoherentXBar_new (masters slaves : nat) (default use_default : bool) : NoncoherentXBar :=
  let n := (if default then S masters else masters) in
  let bar := XBar_new n (if default then Z.of_nat masters else InvalidPortID) use_default in
  mkNoncoherentXBar (clearPortCache bar) (replicate n Layer_new) (replicate slaves Layer_new) ∅ (mkXBarStats ∅ ∅ [] 0 []).

(** ** Equivalence with the bypassed coherent crossbar *)

(** A result of the one as a result of the other. *)
Definition embed_result (r : res (bool * list Output * XPkt * NoncoherentXBar)) : res (bool * list Output * XPkt * CoherentXBar) :=
  '(ok, out, p, x) ← r;
  Ret (ok, out, p, embed x).


(** [calcPacketTiming] changes the delays only. *)
Lemma calcPacketTiming_packet c now edge pkt d p :
  calcPacketTiming c now edge pkt d = Ret p ->
  xp_req p = xp_req pkt /\ memInhibitAsserted (xp_pkt p) = memInhibitAsserted (xp_pkt pkt).
Proof.
  unfold calcPacketTiming. intros H. apply bind_Ret in H as (? & _ & H).
  destruct (cmd_hasData _).
  - apply bind_Ret in H as (? & _ & H). injection H as <-. done.
  - injection H as <-. done.
Qed.

Lemma size_insert_512 (r : gmap nat Z) id s :
  Z.of_nat (size r) < 512 -> r !! id = None -> (512 <? Z.of_nat (size (<[id := s]> r))) = false.
Proof. intros H E. rewrite map_size_insert, E. apply Z.ltb_ge. lia. Qed.

Lemma nx_request_bypassed c now edge x sn send pkt slave :
  isExpressSnoop (xp_pkt pkt) = false -> memInhibitAsserted (xp_pkt pkt) = false -> Z.of_nat (size (nx_routeTo x)) < 512 ->
  recvTimingReq c now edge (embed x) (mkPeers sn send) pkt slave
  = embed_result (nx_recvTimingReq c now edge x send pkt slave).
Proof.
  intros He Hi Hn. unfold recvTimingReq, nx_recvTimingReq, embed_result.
  rewrite He, Hi. cbn [Bool.eqb negb cassert mbind res_bind].
  destruct (port_index slave) as [src|] eqn:?; cbn [mbind res_bind]; [|done].
  change (cx_bar (embed x)) with (nx_bar x). destruct (findPort _ _) as [[master bar]|]; cbn [mbind res_bind]; [|done].
  destruct (port_index master) as [m|]; cbn [mbind res_bind]; [|done].
  unfold try_layer, read_layer. cbn [layers_of layer_index with_bar reqLayers embed nx_set_bar nx_reqLayers].
  destruct (vread _ _) as [l|]; cbn [mbind res_bind]; [|done].
  destruct (tryTiming l src) as [[free l1]|]; cbn [mbind res_bind]; [|done].
  destruct free; cbn [negb]; [|done].
  destruct (calcPacketTiming _ _ _ _ _) as [p|] eqn:Ec; cbn [mbind res_bind]; [|done].
  apply calcPacketTiming_packet in Ec as [_ Ei]. rewrite Hi in Ei.
  unfold snoop_request. cbn [bypassCaches set_layer with_bar embed mbind res_bind peer_send peer_snoop]. rewrite Ei. cbn [andb negb orb].
  destruct (send (xp_pkt p)) as [ok q]. cbn [update_filter bypassCaches negb mbind res_bind app orb].
  destruct ok; cbn [negb].
  - rewrite orb_false_r, Z.add_0_r. cbn [routeTo nx_routeTo nx_set_req nx_set_bar set_layer].
    destruct (cmd_needsResponse _ && true); cbn [mbind res_bind].
    + cbn [with_tables routeTo set_layer with_bar embed nx_routeTo with_pkt xp_req].
      destruct (nx_routeTo x !! xp_req p) as [o|] eqn:Er; [done|]. rewrite (bool_decide_true (None = None)) by done.
      cbn [cassert mbind res_bind]. rewrite size_insert_512 by assumption. cbn [panic_if mbind res_bind].
      unfold on_layer, read_layer. cbn.
      destruct (vread _ _) as [l2|]; cbn [mbind res_bind]; [|done].
      destruct (succeededTiming _ _ _); done.
    + unfold on_layer, read_layer. cbn.
      destruct (vread _ _) as [l2|]; cbn [mbind res_bind]; [|done].
      destruct (succeededTiming _ _ _); done.
  - unfold cassert. destruct (memInhibitAsserted q) eqn:Eq; cbn; rewrite Eq; cbn; [done|].
    unfold on_layer, read_layer. cbn.
    destruct (vread _ _) as [l2|]; cbn [mbind res_bind]; [|done].
    destruct (failedTiming _ _ _ _); done.
Qed.

Lemma nx_response_bypassed c now edge x a pkt master :
  recvTimingResp c now edge (embed x) a pkt master = embed_result (nx_recvTimingResp c now edge x a pkt master).
Proof.
  unfold recvTimingResp, nx_recvTimingResp, embed_result.
  destruct (port_index master) as [m|]; cbn [mbind res_bind]; [|done].
  change (routeTo (embed x)) with (nx_routeTo x). destruct (nx_routeTo x !! xp_req pkt) as [slave|] eqn:Er; [|done].
  destruct (negb (slave =? InvalidPortID)); cbn [cassert mbind res_bind]; [|done].
  change (respLayers (embed x)) with (nx_respLayers x).
  destruct (slave <? _); cbn [cassert mbind res_bind]; [|done].
  destruct (port_index slave) as [s|]; cbn [mbind res_bind]; [|done].
  unfold try_layer, read_layer. cbn [layers_of layer_index respLayers embed].
  destruct (vread _ _) as [l|]; cbn [mbind res_bind]; [|done].
  destruct (tryTiming l _) as [[free l1]|]; cbn [mbind res_bind]; [|done].
  destruct free; cbn [negb]; [|done].
  destruct (calcPacketTiming _ _ _ _ _) as [p|] eqn:Ec; cbn [mbind res_bind]; [|done].
  cbn [update_filter bypassCaches set_layer embed negb mbind res_bind].
  destruct a; cbn [cassert mbind res_bind]; [|done].
  unfold on_layer, read_layer. cbn.
  destruct (vread _ _) as [l2|]; cbn [mbind res_bind]; [|done].
  destruct (succeededTiming _ _ _); done.
Qed.


Lemma nx_atomic_bypassed c x sn send pkt slave :
  cx_recvAtomic c (embed x) sn send pkt slave
  = ('(m, l, p, y) ← nx_recvAtomic x send pkt slave; Ret (mkAtomicResult l [] m p, embed y)).
Proof.
  unfold cx_recvAtomic, nx_recvAtomic, atomic_request_snoops. cbn [bypassCaches embed mbind res_bind as_pkt cx_bar].
  destruct (findPort _ _) as [[m bar]|]; cbn [mbind res_bind]; [|done].
  destruct (send pkt) as [l p]. cbn [update_filter bypassCaches negb andb mbind res_bind].
  unfold update_filter. cbn [as_cmd count_trans count_cmd count_pkt with_bar with_stats bypassCaches negb andb mbind res_bind].
  rewrite bool_decide_false by (intros H; by apply H). cbn [mbind res_bind as_called].
  by destruct (cmd_isResponse (pkt_cmd p)).
Qed.

Lemma nx_functional_bypassed x sn send pkt slave :
  cmd_isResponse (pkt_cmd pkt) = false ->
  cx_recvFunctional (embed x) sn send pkt slave
  = ('(d, p, y) ← nx_recvFunctional x send pkt; Ret ([], Some d, p, embed y)).
Proof.
  intros H. unfold cx_recvFunctional, nx_recvFunctional. cbn [bypassCaches embed mbind res_bind]. rewrite H. cbn [negb cx_bar].
  by destruct (findPort _ _) as [[m bar]|].
Qed.


(** A crossbar with two devices and two masters forwards a read. *)
Definition demo_nx : NoncoherentXBar := nx_set_bar (NoncoherentXBar_new 2 2 false false) two_devices_cached.

