(* ===== verification/Bridge.v ===== *)
(** * The bridge: [mem/bridge.hh], [mem/bridge.cc]

    A bridge takes requests on its slave port, holds them for a delay and sends
    them on through its master port; the responses come back the other way.  Each
    port has a queue with an event for its head.  A request that expects a response
    is only taken when there is room for the response, so that responses are never
    refused; a request that is not taken is remembered as one [retryReq].

    The ticks of [clockEdge()] are arguments, as are the answers of the neighbours.
    When the master above is told to retry it may send again within the call, one
    packet after the other until one is refused. *)

From stdpp Require Import gmap.
From S2P Require Import Prelude IntMath AddrRange Packet PacketQueue SnoopFilter XBar CoherentXBar.
Local Open Scope Z_scope.

(** ** Data *)

Record BDeferred := mkBDeferred { bd_tick : Z; bd_pkt : XPkt }.

Record BridgeConf := mkBridgeConf {
  br_delay : Z;
  br_period : Z;
  br_ranges : list AddrRange;
  respQueueLimit : nat;
  reqQueueLimit : nat
}.

Record BridgeSlavePort := mkBridgeSlavePort {
  respList : list BDeferred;
  outstandingResponses : nat;
  retryReq : bool;
  respEvent : option Z
}.

Record BridgeMasterPort := mkBridgeMasterPort { reqList : list BDeferred; reqEvent : option Z }.

Record Bridge := mkBridge { br_slave : BridgeSlavePort; br_master : BridgeMasterPort }.

Definition Bridge_new : Bridge := mkBridge (mkBridgeSlavePort [] 0 false None) (mkBridgeMasterPort [] None).

Definition with_master (b : Bridge) (l : list BDeferred) (e : option Z) : Bridge :=
  mkBridge (br_slave b) (mkBridgeMasterPort l e).
Definition with_slave (b : Bridge) (l : list BDeferred) (n : nat) (r : bool) (e : option Z) : Bridge :=
  mkBridge (mkBridgeSlavePort l n r e) (br_master b).
Definition with_retry (b : Bridge) (r : bool) : Bridge :=
  with_slave b (respList (br_slave b)) (outstandingResponses (br_slave b)) r (respEvent (br_slave b)).

(** Ports that are not connected are an error of the configuration. *)
Definition bridge_init (slave_connected master_connected : bool) : res unit :=
  if negb slave_connected || negb master_connected then Err Fatal else Ret tt.

Definition bridge_getAddrRanges (c : BridgeConf) : list AddrRange := br_ranges c.

(** ** Operations *)

Definition respQueueFull (c : BridgeConf) (b : Bridge) : bool := bool_decide (outstandingResponses (br_slave b) = respQueueLimit c).
Definition reqQueueFull (c : BridgeConf) (b : Bridge) : bool := bool_decide (length (reqList (br_master b)) = reqQueueLimit c).

(** [bridge.schedule(sendEvent, when)] on the event of a port. *)
Definition schedule_send (curTick : Z) (e : option Z) (when : Z) : res (option Z) :=
  _ ← cassert (curTick <=? when);
  _ ← cassert (match e with None => true | Some _ => false end);
  Ret (Some when).

Definition bridge_schedTimingReq (c : BridgeConf) (curTick : Z) (b : Bridge) (pkt : XPkt) (when : Z) : res Bridge :=
  let m := br_master b in
  e ← (if is_nil (reqList m) then schedule_send curTick (reqEvent m) when else Ret (reqEvent m));
  _ ← cassert (negb (reqQueueFull c b));
  Ret (with_master b (reqList m ++ [mkBDeferred when pkt]) e).

Definition bridge_schedTimingResp (curTick : Z) (b : Bridge) (pkt : XPkt) (when : Z) : res Bridge :=
  let s := br_slave b in
  e ← (if is_nil (respList s) then schedule_send curTick (respEvent s) when else Ret (respEvent s));
  Ret (with_slave b (respList s ++ [mkBDeferred when pkt]) (outstandingResponses s) (retryReq s) e).

(** [pkt->headerDelay = pkt->payloadDelay = 0] *)
Definition zero_delays (pkt : XPkt) : XPkt := with_header (with_pkt pkt (with_payload (xp_pkt pkt) 0)) 0.

Definition bridge_recvTimingResp (c : BridgeConf) (curTick edge : Z) (b : Bridge) (pkt : XPkt) : res (bool * Bridge) :=
  b ← bridge_schedTimingResp curTick b (zero_delays pkt) (edge + br_delay c * br_period c);
  Ret (true, b).

Definition expects_response (pkt : XPkt) : bool :=
  cmd_needsResponse (pkt_cmd (xp_pkt pkt)) && negb (memInhibitAsserted (xp_pkt pkt)).

Definition bridge_recvTimingReq (c : BridgeConf) (curTick edge : Z) (b : Bridge) (pkt : XPkt) : res (bool * Bridge) :=
  _ ← cassert (negb (retryReq (br_slave b)));
  b ← (if reqQueueFull c b then Ret (with_retry b true)
       else
         b ← (if expects_response pkt then
                if respQueueFull c b then Ret (with_retry b true)
                else
                  _ ← cassert (negb (respQueueFull c b));
                  let s := br_slave b in
                  Ret (with_slave b (respList s) (S (outstandingResponses s)) (retryReq s) (respEvent s))
              else Ret b);
         if negb (retryReq (br_slave b)) then
           bridge_schedTimingReq c curTick b (zero_delays pkt) (edge + br_delay c * br_period c)
         else Ret b);
  Ret (negb (retryReq (br_slave b)), b).

(** [sendRetryReq]: the packets [again] that the master above sends at once; the
    number of those taken. *)
Fixpoint bridge_resend (c : BridgeConf) (curTick edge : Z) (b : Bridge) (again : list XPkt) : res (nat * Bridge) :=
  match again with
  | [] => Ret (O, b)
  | pkt :: again =>
      '(ok, b) ← bridge_recvTimingReq c curTick edge b pkt;
      if ok : bool then '(n, b) ← bridge_resend c curTick edge b again; Ret (S n, b) else Ret (O, b)
  end.

Definition retryStalledReq (c : BridgeConf) (curTick edge : Z) (b : Bridge) (again : list XPkt) : res (nat * Bridge) :=
  if retryReq (br_slave b) then bridge_resend c curTick edge (with_retry b false) again else Ret (O, b).

(** The result: how many requests the master above sent meanwhile. *)
Definition master_trySendTiming (c : BridgeConf) (curTick edge : Z) (b : Bridge) (accepted : bool) (again : list XPkt)
    : res (nat * Bridge) :=
  match reqList (br_master b) with
  | [] => Err AssertFailed
  | req :: rest =>
      _ ← cassert (bd_tick req <=? curTick);
      if accepted then
        e ← match rest with
            | [] => Ret (reqEvent (br_master b))
            | next :: _ => schedule_send curTick (reqEvent (br_master b)) (Z.max (bd_tick next) edge)
            end;
        retryStalledReq c curTick edge (with_master b rest e) again
      else Ret (O, b)
  end.

Definition slave_trySendTiming (c : BridgeConf) (curTick edge : Z) (b : Bridge) (accepted : bool) (again : list XPkt)
    : res (nat * Bridge) :=
  match respList (br_slave b) with
  | [] => Err AssertFailed
  | resp :: rest =>
      _ ← cassert (bd_tick resp <=? curTick);
      if accepted then
        let s := br_slave b in
        match outstandingResponses s with
        | O => Err AssertFailed
        | S n =>
            e ← match rest with
                | [] => Ret (respEvent s)
                | next :: _ => schedule_send curTick (respEvent s) (Z.max (bd_tick next) edge)
                end;
            let b := with_slave b rest n (retryReq s) e in
            if negb (reqQueueFull c b) && retryReq (br_slave b) then bridge_resend c curTick edge (with_retry b false) again
            else Ret (O, b)
        end
      else Ret (O, b)
  end.

(** The events: the event is no longer scheduled when it is processed. *)
Definition req_fire (c : BridgeConf) (curTick edge : Z) (b : Bridge) (accepted : bool) (again : list XPkt) : res (nat * Bridge) :=
  master_trySendTiming c curTick edge (with_master b (reqList (br_master b)) None) accepted again.
Definition resp_fire (c : BridgeConf) (curTick edge : Z) (b : Bridge) (accepted : bool) (again : list XPkt) : res (nat * Bridge) :=
  let s := br_slave b in
  slave_trySendTiming c curTick edge (with_slave b (respList s) (outstandingResponses s) (retryReq s) None) accepted again.

Definition bridge_recvReqRetry := master_trySendTiming.
Definition bridge_recvRespRetry := slave_trySendTiming.

Definition bridge_recvAtomic (c : BridgeConf) (send : Packet -> Z * Packet) (pkt : Packet) : Z * Packet :=
  let '(l, p) := send pkt in (u64 (br_delay c * br_period c + l), p).

(** Functional accesses look through the queued packets, whose payloads they may
    change. *)
Definition check_list (p : Packet) (l : list BDeferred) : res (bool * Packet * list BDeferred) :=
  '(found, p, l') ← queue_checkFunctional p ((fun d => mkDeferred (bd_tick d) (xp_pkt (bd_pkt d))) <$> l);
  p ← (if found : bool then makeResponse p else Ret p);
  Ret (found, p, zip_with (fun d d' => mkBDeferred (bd_tick d) (with_pkt (bd_pkt d) (dp_pkt d'))) l l').

Definition bridge_checkFunctional (b : Bridge) (p : Packet) : res (bool * Packet * Bridge) :=
  '(found, p, l) ← check_list p (reqList (br_master b));
  Ret (found, p, with_master b l (reqEvent (br_master b))).

(** The last component: whether the access went on. *)
Definition bridge_recvFunctional (b : Bridge) (send : Packet -> Packet) (pkt : Packet) : res (Packet * Bridge * bool) :=
  let s := br_slave b in
  '(found, p, l) ← check_list pkt (respList s);
  let b := with_slave b l (outstandingResponses s) (retryReq s) (respEvent s) in
  if found : bool then Ret (p, b, false)
  else
    '(found, p, b) ← bridge_checkFunctional b p;
    if found : bool then Ret (p, b, false) else Ret (send p, b, true).

(** ** Runs of a bridge *)

(** Beside the bridge: whether the neighbours refused the head of a queue and owe a
    retry, how many responses are still to come from below, and what was taken and
    passed on in each direction. *)
Record BSys := mkBSys {
  bs_now : Z;
  bs_b : Bridge;
  bs_reqRefused : bool;
  bs_respRefused : bool;
  bs_pending : nat;
  bs_accepted : list XPkt;
  bs_forwarded : list XPkt;
  bs_received : list XPkt;
  bs_returned : list XPkt
}.

Inductive BEv :=
  | BAdvance (t : Z)
  | BRequest (edge : Z) (pkt : XPkt)
  | BResponse (edge : Z) (pkt : XPkt)
  | BReqSend (edge : Z) (ok : bool) (again : list XPkt)
  | BReqRetry (edge : Z) (ok : bool) (again : list XPkt)
  | BRespSend (edge : Z) (ok : bool) (again : list XPkt)
  | BRespRetry (edge : Z) (ok : bool) (again : list XPkt).

Definition queued (l : list BDeferred) : list XPkt := bd_pkt <$> l.

(** After an attempt to send the head of the request queue, or of the response
    queue, with [n] of the packets [again] taken meanwhile. *)
Definition after_request_sent (s : BSys) (ok : bool) (again : list XPkt) (n : nat) (b : Bridge) : BSys :=
  let sent := if ok then take 1 (queued (reqList (br_master (bs_b s)))) else [] in
  mkBSys (bs_now s) b (negb ok) (bs_respRefused s) (bs_pending s + length (filter (fun p => expects_response p = true) sent))
    (bs_accepted s ++ (zero_delays <$> take n again)) (bs_forwarded s ++ sent) (bs_received s) (bs_returned s).
Definition after_response_sent (s : BSys) (ok : bool) (again : list XPkt) (n : nat) (b : Bridge) : BSys :=
  let sent := if ok then take 1 (queued (respList (br_slave (bs_b s)))) else [] in
  mkBSys (bs_now s) b (bs_reqRefused s) (negb ok) (bs_pending s)
    (bs_accepted s ++ (zero_delays <$> take n again)) (bs_forwarded s) (bs_received s) (bs_returned s ++ sent).

Definition bstep (c : BridgeConf) (s : BSys) (e : BEv) : res BSys :=
  let now := bs_now s in
  match e with
  | BAdvance t => Ret (mkBSys t (bs_b s) (bs_reqRefused s) (bs_respRefused s) (bs_pending s) (bs_accepted s) (bs_forwarded s)
                         (bs_received s) (bs_returned s))
  | BRequest edge pkt =>
      '(ok, b) ← bridge_recvTimingReq c now edge (bs_b s) pkt;
      Ret (mkBSys now b (bs_reqRefused s) (bs_respRefused s) (bs_pending s)
             (bs_accepted s ++ (if ok : bool then [zero_delays pkt] else [])) (bs_forwarded s) (bs_received s) (bs_returned s))
  | BResponse edge pkt =>
      '(_, b) ← bridge_recvTimingResp c now edge (bs_b s) pkt;
      Ret (mkBSys now b (bs_reqRefused s) (bs_respRefused s) (pred (bs_pending s)) (bs_accepted s) (bs_forwarded s)
             (bs_received s ++ [zero_delays pkt]) (bs_returned s))
  | BReqSend edge ok again =>
      '(n, b) ← req_fire c now edge (bs_b s) ok again; Ret (after_request_sent s ok again n b)
  | BReqRetry edge ok again =>
      '(n, b) ← bridge_recvReqRetry c now edge (bs_b s) ok again; Ret (after_request_sent s ok again n b)
  | BRespSend edge ok again =>
      '(n, b) ← resp_fire c now edge (bs_b s) ok again; Ret (after_response_sent s ok again n b)
  | BRespRetry edge ok again =>
      '(n, b) ← bridge_recvRespRetry c now edge (bs_b s) ok again; Ret (after_response_sent s ok again n b)
  end.

(** Time does not pass scheduled events; a request comes unless one is stalled; a
    response comes for a request that expects one; events fire at their tick;
    retries come from a neighbour that refused. *)
Definition benabled (s : BSys) (e : BEv) : Prop :=
  match e with
  | BAdvance t => bs_now s <= t /\ (forall w, reqEvent (br_master (bs_b s)) = Some w -> t <= w) /\
                  (forall w, respEvent (br_slave (bs_b s)) = Some w -> t <= w)
  | BRequest edge _ => bs_now s <= edge /\ retryReq (br_slave (bs_b s)) = false
  | BResponse edge _ => bs_now s <= edge /\ bs_pending s <> O
  | BReqSend edge _ _ => bs_now s <= edge /\ reqEvent (br_master (bs_b s)) = Some (bs_now s)
  | BReqRetry edge _ _ => bs_now s <= edge /\ bs_reqRefused s = true
  | BRespSend edge _ _ => bs_now s <= edge /\ respEvent (br_slave (bs_b s)) = Some (bs_now s)
  | BRespRetry edge _ _ => bs_now s <= edge /\ bs_respRefused s = true
  end.

Inductive breach (c : BridgeConf) : BSys -> Prop :=
  | breach_new t : breach c (mkBSys t Bridge_new false false O [] [] [] [])
  | breach_step s e s' : breach c s -> benabled s e -> bstep c s e = Ret s' -> breach c s'.

(** ** Invariant *)

(** The queue of a port: while there is a packet, its event is scheduled no earlier
    than the head is due, or the neighbour refused the head. *)
Definition port_ok (now : Z) (l : list BDeferred) (e : option Z) (refused : bool) : Prop :=
  match l with
  | [] => e = None /\ refused = false
  | d :: _ => if refused then e = None /\ bd_tick d <= now else exists t, e = Some t /\ now <= t /\ bd_tick d <= t
  end.

Definition expecting (l : list XPkt) : nat := length (filter (fun p => expects_response p = true) l).

(** The part of the invariant that holds within the handlers, too. *)
Record bcore (c : BridgeConf) (now : Z) (b : Bridge) (req_refused resp_refused : bool) (pending : nat) : Prop := {
  bc_req : port_ok now (reqList (br_master b)) (reqEvent (br_master b)) req_refused;
  bc_resp : port_ok now (respList (br_slave b)) (respEvent (br_slave b)) resp_refused;
  bc_limit : (length (reqList (br_master b)) <= reqQueueLimit c)%nat;
  bc_out : outstandingResponses (br_slave b)
           = (expecting (queued (reqList (br_master b))) + pending + length (respList (br_slave b)))%nat;
  bc_room : (outstandingResponses (br_slave b) <= respQueueLimit c)%nat
}.

(** A stalled request has its reason. *)
Definition stall_ok (c : BridgeConf) (b : Bridge) : Prop :=
  retryReq (br_slave b) = true ->
  length (reqList (br_master b)) = reqQueueLimit c \/ outstandingResponses (br_slave b) = respQueueLimit c.

Record binv (c : BridgeConf) (s : BSys) : Prop := {
  bi_core : bcore c (bs_now s) (bs_b s) (bs_reqRefused s) (bs_respRefused s) (bs_pending s);
  bi_stall : stall_ok c (bs_b s);
  bi_requests : bs_accepted s = bs_forwarded s ++ queued (reqList (br_master (bs_b s)));
  bi_responses : bs_received s = bs_returned s ++ queued (respList (br_slave (bs_b s)))
}.

(** ** Lemmas *)

Lemma queued_app l1 l2 : queued (l1 ++ l2) = queued l1 ++ queued l2.
Proof. apply fmap_app. Qed.

Lemma queued_one d : queued [d] = [bd_pkt d].
Proof. done. Qed.

Lemma expecting_app l1 l2 : expecting (l1 ++ l2) = (expecting l1 + expecting l2)%nat.
Proof. unfold expecting. by rewrite filter_app, length_app. Qed.

Lemma expecting_one p : expecting [p] = if expects_response p then 1%nat else O.
Proof. unfold expecting. rewrite filter_cons. by destruct (expects_response p). Qed.

(** A packet at the end of a queue. *)
Lemma port_append now l e refused d :
  port_ok now l e refused -> now <= bd_tick d ->
  exists e', (if is_nil l then schedule_send now e (bd_tick d) else Ret e) = Ret e' /\ port_ok now (l ++ [d]) e' refused.
Proof.
  intros Hp Hd. destruct l as [|d0 l]; cbn in *.
  - destruct Hp as [-> ->]. unfold schedule_send. rewrite (cassert_true (now <=? bd_tick d)) by (by apply Z.leb_le). cbn. eexists. split; [done|]. by exists (bd_tick d).
  - by exists e.
Qed.

(** The head may be sent: its event has fired, or the neighbour asks for it. *)
Definition port_ready (now : Z) (l : list BDeferred) (e : option Z) : Prop :=
  e = None /\ match l with [] => False | d :: _ => bd_tick d <= now end.

Lemma port_fired now l refused : port_ok now l (Some now) refused -> port_ready now l None.
Proof.
  destruct l as [|d l]; cbn; [by intros [? _]|]. destruct refused; [by intros [? _]|].
  intros (t & [= <-] & _ & ?). by split.
Qed.

Lemma port_retried now l e : port_ok now l e true -> port_ready now l e.
Proof. destruct l as [|d l]; cbn; [by intros [_ ?]|]. by intros [-> ?]. Qed.

(** The rest of the queue after its head was taken. *)
Lemma port_pop now edge d l e :
  port_ready now (d :: l) e -> now <= edge ->
  exists e', match l with [] => Ret e | next :: _ => schedule_send now e (Z.max (bd_tick next) edge) end = Ret e' /\ port_ok now l e' false.
Proof.
  intros [-> _] He. destruct l as [|d1 l]; [by exists None|]. unfold schedule_send. rewrite (cassert_true (now <=? _)) by (apply Z.leb_le; lia).
  cbn [cassert mbind res_bind]. eexists. split; [reflexivity|]. exists (Z.max (bd_tick d1) edge). split; [done|]. lia.
Qed.

Lemma port_refused now d l e : port_ready now (d :: l) e -> port_ok now (d :: l) e true.
Proof. by intros [-> ?]. Qed.

Section bridge_ops.
Context (c : BridgeConf) (now edge : Z) (Hedge : now <= edge) (Hdelay : 0 <= br_delay c * br_period c).

Lemma bridge_request_ok b rq rs n pkt :
  bcore c now b rq rs n -> retryReq (br_slave b) = false ->
  exists ok b', bridge_recvTimingReq c now edge b pkt = Ret (ok, b') /\ bcore c now b' rq rs n /\ stall_ok c b' /\
    retryReq (br_slave b') = negb ok /\ respList (br_slave b') = respList (br_slave b) /\
    queued (reqList (br_master b')) = queued (reqList (br_master b)) ++ (if ok then [zero_delays pkt] else []).
Proof.
  intros [Hq Hr Hl Ho Hm] Hstall. unfold bridge_recvTimingReq. rewrite Hstall. cbn [negb cassert mbind res_bind].
  unfold reqQueueFull at 1. case_bool_decide as Hfull.
  { cbn [mbind res_bind]. exists false. eexists. split; [reflexivity|]. split; [by split|]. split; [by intros _; left|]. by rewrite app_nil_r. }
  destruct (expects_response pkt) eqn:Ee.
  - unfold respQueueFull at 1. case_bool_decide as Hrf.
    { cbn [mbind res_bind]. cbn. exists false. eexists. split; [reflexivity|]. split; [by split|]. split; [by intros _; right|]. by rewrite app_nil_r. }
    unfold respQueueFull at 1. rewrite bool_decide_false by done. cbn [negb cassert mbind res_bind]. cbn [with_slave br_slave retryReq].
    cbn [negb]. unfold bridge_schedTimingReq. cbn [br_master with_slave].
    destruct (port_append now (reqList (br_master b)) (reqEvent (br_master b)) rq
      (mkBDeferred (edge + br_delay c * br_period c) (zero_delays pkt)) Hq ltac:(cbn; lia)) as (e & Es & Hq'). cbn [bd_tick] in Es.
    rewrite Es. cbn [mbind res_bind]. unfold reqQueueFull. cbn [br_master with_slave]. rewrite bool_decide_false by done. cbn [negb cassert mbind res_bind].
    exists true. eexists. split; [reflexivity|]. cbn -[queued expecting]. split.
    + split; cbn -[queued expecting]; [done|done|rewrite length_app; cbn [length]; lia| |lia].
      rewrite queued_app, queued_one, expecting_app, expecting_one. cbn [bd_pkt]. change (expects_response (zero_delays pkt)) with (expects_response pkt). rewrite Ee. lia.
    + split; [by intros ?|]. split; [done|]. split; [done|]. cbn -[queued]. by rewrite queued_app.
  - cbn [mbind res_bind]. rewrite Hstall. cbn [negb]. unfold bridge_schedTimingReq.
    destruct (port_append now (reqList (br_master b)) (reqEvent (br_master b)) rq
      (mkBDeferred (edge + br_delay c * br_period c) (zero_delays pkt)) Hq ltac:(cbn; lia)) as (e & Es & Hq'). cbn [bd_tick] in Es.
    rewrite Es. cbn [mbind res_bind]. unfold reqQueueFull. rewrite bool_decide_false by done. cbn [negb cassert mbind res_bind].
    exists true. eexists. cbn -[queued expecting]. rewrite Hstall. split; [reflexivity|]. split.
    + split; cbn -[queued expecting]; [done|done|rewrite length_app; cbn [length]; lia| |lia].
      rewrite queued_app, queued_one, expecting_app, expecting_one. cbn [bd_pkt]. change (expects_response (zero_delays pkt)) with (expects_response pkt). rewrite Ee. lia.
    + split; [unfold stall_ok; cbn; by rewrite Hstall|]. split; [done|]. split; [done|]. cbn -[queued]. by rewrite queued_app.
Qed.

Lemma resend_ok again : forall b rq rs n,
  bcore c now b rq rs n -> retryReq (br_slave b) = false ->
  exists k b', bridge_resend c now edge b again = Ret (k, b') /\ bcore c now b' rq rs n /\ stall_ok c b' /\
    respList (br_slave b') = respList (br_slave b) /\
    queued (reqList (br_master b')) = queued (reqList (br_master b)) ++ (zero_delays <$> take k again).
Proof.
  induction again as [|pkt again IH]; intros b rq rs n Hb Hr.
  { exists O, b. split; [done|]. split; [done|]. split; [intros ?; congruence|]. by rewrite app_nil_r. }
  cbn [bridge_resend]. destruct (bridge_request_ok b rq rs n pkt Hb Hr) as (ok & b1 & E & Hb1 & Hs1 & Hr1 & Hresp & Hreq).
  rewrite E. cbn [mbind res_bind]. destruct ok; cycle 1.
  { exists O, b1. split; [done|]. split; [done|]. split; [done|]. by split. }
  destruct (IH b1 rq rs n Hb1 Hr1) as (k & b2 & E2 & Hb2 & Hs2 & Hresp2 & Hreq2). rewrite E2. cbn [mbind res_bind].
  exists (S k), b2. split; [done|]. split; [done|]. split; [done|]. split; [congruence|]. rewrite Hreq2, Hreq, <- app_assoc. done.
Qed.

Lemma retry_core b rq rs n r : bcore c now b rq rs n -> bcore c now (with_retry b r) rq rs n.
Proof. by intros []. Qed.

(** The head of the request queue is sent or refused. *)
Lemma master_send_ok b rs n ok again d l :
  reqList (br_master b) = d :: l -> port_ready now (d :: l) (reqEvent (br_master b)) ->
  port_ok now (respList (br_slave b)) (respEvent (br_slave b)) rs -> (length (d :: l) <= reqQueueLimit c)%nat ->
  outstandingResponses (br_slave b) = (expecting (queued (d :: l)) + n + length (respList (br_slave b)))%nat ->
  (outstandingResponses (br_slave b) <= respQueueLimit c)%nat -> stall_ok c b ->
  exists k b', master_trySendTiming c now edge b ok again = Ret (k, b') /\
    bcore c now b' (negb ok) rs (n + expecting (if ok then [bd_pkt d] else [])) /\ stall_ok c b' /\
    respList (br_slave b') = respList (br_slave b) /\
    queued (reqList (br_master b')) = (if ok then queued l else queued (d :: l)) ++ (zero_delays <$> take k again).
Proof.
  intros El Hp Hr Hl Ho Hm Hst. unfold master_trySendTiming. rewrite El, cassert_true by (apply Z.leb_le, Hp). cbn [mbind res_bind].
  destruct ok; cycle 1.
  { exists O, b. split; [done|]. split; [|split; [done|split; [done|by rewrite El, app_nil_r]]].
    split; rewrite ?El; [by apply port_refused|done|done| |done]. cbn [expecting]. rewrite Ho. cbn. lia. }
  destruct (port_pop now edge d l _ Hp Hedge) as (e & E & Hp'). rewrite E. cbn [mbind res_bind]. unfold retryStalledReq. cbn [with_master br_slave].
  assert (Hcore : bcore c now (with_master b l e) false rs (n + expecting [bd_pkt d])).
  { split; cbn -[expecting queued]; [done|done|cbn in Hl; lia| |done]. rewrite Ho. change (d :: l) with ([d] ++ l).
    rewrite queued_app, expecting_app, queued_one. lia. }
  destruct (retryReq (br_slave b)) eqn:Eret.
  - destruct (resend_ok again (with_retry (with_master b l e) false) false rs (n + expecting [bd_pkt d])) as (k & b' & Er & Hb' & Hs' & Hresp & Hreq);
      [by apply retry_core|done|]. rewrite Er. by exists k, b'.
  - exists O, (with_master b l e). split; [done|]. split; [done|]. split; [unfold stall_ok; cbn; by rewrite Eret|].
    split; [done|]. by rewrite app_nil_r.
Qed.

(** The head of the response queue is sent or refused. *)
Lemma slave_send_ok b rq n ok again d l :
  respList (br_slave b) = d :: l -> port_ready now (d :: l) (respEvent (br_slave b)) ->
  port_ok now (reqList (br_master b)) (reqEvent (br_master b)) rq -> (length (reqList (br_master b)) <= reqQueueLimit c)%nat ->
  outstandingResponses (br_slave b) = (expecting (queued (reqList (br_master b))) + n + length (d :: l))%nat ->
  (outstandingResponses (br_slave b) <= respQueueLimit c)%nat -> stall_ok c b ->
  exists k b', slave_trySendTiming c now edge b ok again = Ret (k, b') /\
    bcore c now b' rq (negb ok) n /\ stall_ok c b' /\
    queued (respList (br_slave b')) = (if ok then queued l else queued (d :: l)) /\
    queued (reqList (br_master b')) = queued (reqList (br_master b)) ++ (zero_delays <$> take k again).
Proof.
  intros El Hp Hr Hl Ho Hm Hst. unfold slave_trySendTiming. rewrite El, cassert_true by (apply Z.leb_le, Hp). cbn [mbind res_bind].
  destruct ok; cycle 1.
  { exists O, b. split; [done|]. split; [|split; [done|split; [by rewrite El|by rewrite app_nil_r]]].
    split; rewrite ?El; [done|by apply port_refused|done|done|done]. }
  destruct (outstandingResponses (br_slave b)) as [|m] eqn:Em; [cbn in Ho; lia|].
  destruct (port_pop now edge d l _ Hp Hedge) as (e & E & Hp'). rewrite E. cbn [mbind res_bind].
  set (b1 := with_slave b l m (retryReq (br_slave b)) e).
  assert (Hcore : bcore c now b1 rq false n) by (split; cbn -[expecting queued]; [done|done|done|cbn in Ho; lia|lia]).
  destruct (negb (reqQueueFull c b1) && retryReq (br_slave b1)) eqn:Eret.
  - destruct (resend_ok again (with_retry b1 false) rq false n) as (k & b' & Er & Hb' & Hs' & Hresp & Hreq); [by apply retry_core|done|].
    rewrite Er. exists k, b'. split; [done|]. split; [done|]. split; [done|]. split; [by rewrite Hresp|done].
  - exists O, b1. split; [done|]. split; [done|]. split.
    + intros Hret. rewrite Hret, andb_true_r in Eret. apply negb_false_iff in Eret. unfold reqQueueFull in Eret.
      apply bool_decide_eq_true in Eret. by left.
    + split; [done|]. by rewrite app_nil_r.
Qed.

Lemma bridge_response_ok b rq rs n pkt :
  bcore c now b rq rs (S n) -> stall_ok c b ->
  exists b', bridge_recvTimingResp c now edge b pkt = Ret (true, b') /\ bcore c now b' rq rs n /\ stall_ok c b' /\
    br_master b' = br_master b /\ queued (respList (br_slave b')) = queued (respList (br_slave b)) ++ [zero_delays pkt].
Proof.
  intros [Hq Hr Hl Ho Hm] Hst. unfold bridge_recvTimingResp, bridge_schedTimingResp.
  destruct (port_append now (respList (br_slave b)) (respEvent (br_slave b)) rs
    (mkBDeferred (edge + br_delay c * br_period c) (zero_delays pkt)) Hr ltac:(cbn; lia)) as (e & Es & Hr'). cbn [bd_tick] in Es.
  rewrite Es. cbn [mbind res_bind]. eexists. split; [reflexivity|]. split; [|split; [done|split; [done|cbn -[queued]; by rewrite queued_app]]].
  split; cbn -[expecting queued]; [done|done|done|rewrite length_app; cbn [length]; lia|done].
Qed.
End bridge_ops.

(** ** The bridge in operation *)

Lemma bstep_ok c s e :
  0 <= br_delay c * br_period c -> binv c s -> benabled s e -> exists s', bstep c s e = Ret s' /\ binv c s'.
Proof.
  intros Hd [Hcore Hst Hreq Hresp] He. pose proof Hcore as [Hq Hr Hl Ho Hm].
  assert (Hafter_req : forall edge ok again b0, bs_now s <= edge ->
    reqList (br_master b0) = reqList (br_master (bs_b s)) -> br_slave b0 = br_slave (bs_b s) ->
    port_ready (bs_now s) (reqList (br_master b0)) (reqEvent (br_master b0)) ->
    exists s', ('(n, b) ← master_trySendTiming c (bs_now s) edge b0 ok again; Ret (after_request_sent s ok again n b)) = Ret s' /\ binv c s').
  { intros edge ok again b0 Hedge E1 E2 Hready. destruct (reqList (br_master (bs_b s))) as [|d l] eqn:El; [by rewrite E1 in Hready; destruct Hready|].
    rewrite E1 in Hready.
    destruct (master_send_ok c (bs_now s) edge Hedge Hd b0 (bs_respRefused s) (bs_pending s) ok again d l)
      as (k & b' & E & Hb' & Hs' & Hrl & Hql); try (by rewrite ?E2); [unfold stall_ok in *; rewrite E1, E2, El in *; done|].
    rewrite E. cbn [mbind res_bind]. eexists. split; [reflexivity|]. split; cbn -[expecting queued]; rewrite ?El.
    - replace (take 1 (queued (d :: l))) with [bd_pkt d] by done. by destruct ok.
    - done.
    - rewrite Hql, Hreq. destruct ok; rewrite <- !app_assoc; done.
    - by rewrite Hrl, E2. }
  assert (Hafter_resp : forall edge ok again b0, bs_now s <= edge ->
    respList (br_slave b0) = respList (br_slave (bs_b s)) -> br_master b0 = br_master (bs_b s) ->
    outstandingResponses (br_slave b0) = outstandingResponses (br_slave (bs_b s)) -> retryReq (br_slave b0) = retryReq (br_slave (bs_b s)) ->
    port_ready (bs_now s) (respList (br_slave b0)) (respEvent (br_slave b0)) ->
    exists s', ('(n, b) ← slave_trySendTiming c (bs_now s) edge b0 ok again; Ret (after_response_sent s ok again n b)) = Ret s' /\ binv c s').
  { intros edge ok again b0 Hedge E1 E2 E3 E4 Hready. destruct (respList (br_slave (bs_b s))) as [|d l] eqn:El; [by rewrite E1 in Hready; destruct Hready|].
    rewrite E1 in Hready.
    destruct (slave_send_ok c (bs_now s) edge Hedge Hd b0 (bs_reqRefused s) (bs_pending s) ok again d l)
      as (k & b' & E & Hb' & Hs' & Hrl & Hql); try (by rewrite ?E2, ?E3); [unfold stall_ok in *; rewrite E2, E3, E4; done|].
    rewrite E. cbn [mbind res_bind]. eexists. split; [reflexivity|]. split; cbn -[expecting queued]; rewrite ?El.
    - done.
    - done.
    - rewrite Hql, Hreq, E2, <- app_assoc. done.
    - rewrite Hrl, Hresp. destruct ok; rewrite <- ?app_assoc, ?app_nil_r; done. }
  destruct e as [t|edge pkt|edge pkt|edge ok again|edge ok again|edge ok again|edge ok again]; cbn in He.
  - destruct He as (Ht & H1 & H2). eexists. split; [reflexivity|]. split; cbn; try done. split; cbn; try done.
    + clear - Hq H1 Ht. unfold port_ok in *. destruct (reqList (br_master (bs_b s))) as [|d l]; [done|]. destruct (bs_reqRefused s); [destruct Hq; split; [done|lia]|].
      destruct Hq as (w & Ew & ? & ?). exists w. split; [done|]. split; [by apply H1|done].
    + clear - Hr H2 Ht. unfold port_ok in *. destruct (respList (br_slave (bs_b s))) as [|d l]; [done|]. destruct (bs_respRefused s); [destruct Hr; split; [done|lia]|].
      destruct Hr as (w & Ew & ? & ?). exists w. split; [done|]. split; [by apply H2|done].
  - destruct He as [Hedge Hret]. destruct (bridge_request_ok c (bs_now s) edge Hedge Hd (bs_b s) _ _ _ pkt Hcore Hret)
      as (ok & b' & E & Hb' & Hs' & _ & Hrl & Hql). cbn [bstep]. rewrite E. cbn [mbind res_bind]. eexists. split; [reflexivity|].
    split; cbn -[queued]; [done|done|by rewrite Hql, Hreq, app_assoc|by rewrite Hrl].
  - destruct He as [Hedge Hpend]. destruct (bs_pending s) as [|n] eqn:En; [done|].
    destruct (bridge_response_ok c (bs_now s) edge Hedge Hd (bs_b s) _ _ n pkt Hcore Hst) as (b' & E & Hb' & Hs' & Hml & Hrl).
    cbn [bstep]. rewrite E. cbn [mbind res_bind]. eexists. split; [reflexivity|].
    split; cbn -[queued]; [by rewrite En|done|by rewrite Hml|by rewrite Hrl, Hresp, app_assoc].
  - destruct He as [Hedge Hev]. apply Hafter_req; [done|done|done|]. rewrite Hev in Hq. by eapply port_fired.
  - destruct He as [Hedge Hrf]. apply Hafter_req; [done|done|done|]. rewrite Hrf in Hq. by apply port_retried.
  - destruct He as [Hedge Hev]. apply Hafter_resp; [done|done|done|done|done|]. rewrite Hev in Hr. by eapply port_fired.
  - destruct He as [Hedge Hrf]. apply Hafter_resp; [done|done|done|done|done|]. rewrite Hrf in Hr. by apply port_retried.
Qed.

Lemma breach_inv c s : 0 <= br_delay c * br_period c -> breach c s -> binv c s.
Proof.
  intros Hd. induction 1 as [t|s e s' _ IH He E].
  - split; [|by intros ?|done|done]. split; cbn; try done; lia.
  - destruct (bstep_ok c s e Hd IH He) as (s1 & E1 & Hs1). rewrite E in E1. by injection E1 as <-.
Qed.

(** A request that is sent on frees a place, and the stalled master is told. *)
Lemma master_wakes c now edge b n b' : master_trySendTiming c now edge b true [] = Ret (n, b') -> retryReq (br_slave b') = false.
Proof.
  unfold master_trySendTiming. destruct (reqList (br_master b)) as [|d l]; [done|]. intros H. apply bind_Ret in H as (_ & _ & H).
  apply bind_Ret in H as (e & _ & H). unfold retryStalledReq in H. cbn in H. destruct (retryReq (br_slave b)) eqn:E; by injection H as _ <-.
Qed.

Lemma slave_wakes c now edge b n b' :
  slave_trySendTiming c now edge b true [] = Ret (n, b') -> retryReq (br_slave b') = true -> length (reqList (br_master b)) = reqQueueLimit c.
Proof.
  unfold slave_trySendTiming. destruct (respList (br_slave b)) as [|d l]; [done|]. intros H Hr. apply bind_Ret in H as (_ & _ & H).
  destruct (outstandingResponses (br_slave b)) as [|m]; [done|]. apply bind_Ret in H as (e & _ & H).
  set (b1 := with_slave _ _ _ _ _) in H. destruct (negb (reqQueueFull c b1) && retryReq (br_slave b1)) eqn:E.
  - injection H as _ <-. discriminate Hr.
  - injection H as _ <-. rewrite Hr, andb_true_r in E. apply negb_false_iff in E. by apply bool_decide_eq_true in E.
Qed.

(** C25. The bridge in operation.  In every state reached by requests, responses,
    events and retries (with the master above sending again within a retry):
    nothing the neighbours may do fails an assertion; the queues keep to their
    limits, and room is reserved for every response still to come, so that none is
    ever refused; requests are passed on in the order taken and responses in the
    order received, each once; and no stalled request is forgotten: while one is,
    the request queue or the reserved room is full, each queue that is not empty
    has its event scheduled or is owed a retry, a request passed on wakes the
    master above, and so does a response returned, unless the request queue is
    full. *)
Theorem bridge_safe c s :
  0 <= br_delay c * br_period c -> reqQueueLimit c <> O -> respQueueLimit c <> O -> breach c s ->
  let b := bs_b s in
  let room := outstandingResponses (br_slave b) in
  (forall e, benabled s e -> exists s', bstep c s e = Ret s') /\
  (length (reqList (br_master b)) <= reqQueueLimit c)%nat /\
  room = (expecting (queued (reqList (br_master b))) + bs_pending s + length (respList (br_slave b)))%nat /\ (room <= respQueueLimit c)%nat /\
  bs_accepted s = bs_forwarded s ++ queued (reqList (br_master b)) /\
  bs_received s = bs_returned s ++ queued (respList (br_slave b)) /\
  (retryReq (br_slave b) = true -> reqList (br_master b) <> [] \/ respList (br_slave b) <> [] \/ bs_pending s <> O) /\
  (reqList (br_master b) <> [] -> bs_reqRefused s = true \/ exists t, reqEvent (br_master b) = Some t /\ bs_now s <= t) /\
  (respList (br_slave b) <> [] -> bs_respRefused s = true \/ exists t, respEvent (br_slave b) = Some t /\ bs_now s <= t) /\
  (forall edge s', bstep c s (BReqSend edge true []) = Ret s' \/ bstep c s (BReqRetry edge true []) = Ret s' ->
     retryReq (br_slave (bs_b s')) = false) /\
  (forall edge s', bstep c s (BRespSend edge true []) = Ret s' \/ bstep c s (BRespRetry edge true []) = Ret s' ->
     retryReq (br_slave (bs_b s')) = true -> length (reqList (br_master b)) = reqQueueLimit c).
Proof.
  intros Hd Hl1 Hl2 Hr b room. pose proof (breach_inv c s Hd Hr) as Hinv. pose proof Hinv as [[Hq Hp Hl Ho Hm] Hst Hreq Hresp].
  assert (Hport : forall l e r, port_ok (bs_now s) l e r -> l <> [] -> r = true \/ exists t, e = Some t /\ bs_now s <= t).
  { intros [|d l] e r H Hne; [done|]. cbn in H. destruct r; [by left|]. right. destruct H as (t & ? & ? & _). by exists t. }
  split_and!; [|done|done|done|done|done| |by apply Hport|by apply Hport| |].
  - intros e He. destruct (bstep_ok c s e Hd Hinv He) as (s' & E & _). by exists s'.
  - intros Hret. destruct (Hst Hret) as [Hfull | Hfull].
    + left. intros E. fold b in Hfull. rewrite E in Hfull. by cbn in Hfull.
    + fold b room in Hfull, Ho. destruct (reqList (br_master b)); [|by left]. destruct (respList (br_slave b)); [|by right; left].
      right. right. cbn in Ho. lia.
  - intros edge s' [E | E]; cbn [bstep] in E; apply bind_Ret in E as ([n b'] & E & E'); injection E' as <-; by eapply master_wakes.
  - intros edge s' [E | E] Hret; cbn [bstep] in E; apply bind_Ret in E as ([n b'] & E & E'); injection E' as <-;
      apply (slave_wakes _ _ _ _ _ _ E Hret).
Qed.

(** A bridge with room for one request and one response. *)
Definition demo_bridge : BridgeConf := mkBridgeConf 50 1000 [AddrRange_plain 0 4095] 1 1.
Definition demo_bridge_pkt (i : nat) : XPkt := mkXPkt (demo_request ReadReq (64 * Z.of_nat i)) i 0.
Definition demo_bsys (evs : list BEv) : res BSys :=
  foldl (fun r e => s ← r; bstep demo_bridge s e) (Ret (mkBSys 0 Bridge_new false false O [] [] [] [])) evs.

(** The second request is stalled until the first one is sent. *)
Lemma bridge_safe_witness :
  exists s1 s2, demo_bsys [BRequest 0 (demo_bridge_pkt 1); BRequest 0 (demo_bridge_pkt 2)] = Ret s1 /\
    retryReq (br_slave (bs_b s1)) = true /\ reqEvent (br_master (bs_b s1)) = Some 50000 /\
    bstep demo_bridge s1 (BAdvance 50000) = Ret s2 /\
    exists s3, bstep demo_bridge s2 (BReqSend 50000 true []) = Ret s3 /\ retryReq (br_slave (bs_b s3)) = false.
Proof.
  destruct (demo_bsys [BRequest 0 (demo_bridge_pkt 1); BRequest 0 (demo_bridge_pkt 2)]) as [s1|] eqn:E1; [|discriminate E1].
  destruct (bstep demo_bridge s1 (BAdvance 50000)) as [s2|] eqn:E2; [|discriminate E2]. exists s1, s2.
  assert (Hr : breach demo_bridge s2).
  { eapply breach_step; [eapply breach_step; [eapply breach_step; [apply (breach_new _ 0)| |]| |]| |exact E2].
    - instantiate (1 := BRequest 0 (demo_bridge_pkt 1)). split; [cbn; lia|done].
    - reflexivity.
    - instantiate (1 := BRequest 0 (demo_bridge_pkt 2)). split; [cbn; lia|done].
    - exact E1.
    - injection E1 as <-. split; [cbn; lia|]. split; [intros w [= <-]; cbn; lia|discriminate]. }
  split; [done|]. injection E1 as <-. split; [done|]. split; [done|]. split; [done|]. injection E2 as <-.
  destruct (bridge_safe demo_bridge _ ltac:(cbn; lia) ltac:(done) ltac:(done) Hr) as (Hstep & _ & _ & _ & _ & _ & _ & _ & _ & Hwake & _).
  destruct (Hstep (BReqSend 50000 true [])) as [s3 E3]; [split; [cbn; lia|done]|]. exists s3. split; [done|]. apply (Hwake 50000). by left.
Defined.
