(* ===== verification/Memory.v ===== *)
(** * Memories: [mem/abstract_mem.hh], [mem/abstract_mem.cc], [mem/simple_mem.hh],
    [mem/simple_mem.cc]

    [AbstractMemory] holds the bytes of an address range and the reservations of
    load-locked accesses; [SimpleMemory] puts a queue of responses with a latency
    and a limit on the rate of requests in front of it.  The backing store is the
    list of its bytes, or [None] for a null memory.  The wake-up calls for the
    processors whose reservation is cleared are the list of their contexts; the
    counters of the statistics are not modelled.  The ticks a request occupies the
    memory (its size times a floating-point bandwidth) and the random part of the
    latency are arguments. *)

From S2P Require Import Prelude AddrRange Packet PacketQueue.
Local Open Scope Z_scope.

(** ** [class LockedAddr] *)

Record LockedAddr := mkLocked { la_addr : Z; la_contextId : Z }.

Definition Addr_Mask : Z := 0xf.
Definition LockedAddr_mask (paddr : Z) : Z := Z.land paddr (wnot 64 Addr_Mask).

Definition la_matchesContext (l : LockedAddr) (req : Request) : bool :=
  la_contextId l =? req_contextId req.

Definition LockedAddr_new (req : Request) : LockedAddr :=
  mkLocked (LockedAddr_mask (req_paddr req)) (req_contextId req).

(** ** [class AbstractMemory] *)

Record AbstractMemory := mkAbstractMemory {
  mem_range : AddrRange;
  pmemAddr : option (list Z);
  lockedAddrList : list LockedAddr
}.

Definition with_pmem (m : AbstractMemory) (d : option (list Z)) : AbstractMemory :=
  mkAbstractMemory (mem_range m) d (lockedAddrList m).
Definition with_locked (m : AbstractMemory) (l : list LockedAddr) : AbstractMemory :=
  mkAbstractMemory (mem_range m) (pmemAddr m) l.

Definition AbstractMemory_new (r : AddrRange) : AbstractMemory := mkAbstractMemory r None [].
Definition setBackingStore (m : AbstractMemory) (pmem : list Z) : AbstractMemory := with_pmem m (Some pmem).
Definition addLockedAddr (m : AbstractMemory) (l : LockedAddr) : AbstractMemory :=
  with_locked m (lockedAddrList m ++ [l]).

(** The size of the memory must be a multiple of the page size. *)
Definition AbstractMemory_init (m : AbstractMemory) (pageBytes : Z) : res unit :=
  if pageBytes =? 0 then Err DivByZero
  else if AddrRange_size (mem_range m) mod pageBytes =? 0 then Ret tt else Err Panic.

(** The loop of [trackLoadLocked]: the record of the context, if it has one, is
    given the new address. *)
Fixpoint track_loop (l : list LockedAddr) (req : Request) (paddr : Z) : option (list LockedAddr) :=
  match l with
  | [] => None
  | i :: l =>
      if la_matchesContext i req then Some (mkLocked paddr (la_contextId i) :: l)
      else match track_loop l req paddr with
           | Some l => Some (i :: l)
           | None => None
           end
  end.

Definition mem_trackLoadLocked (m : AbstractMemory) (pkt : Packet) : AbstractMemory :=
  let req := pkt_req pkt in
  let paddr := LockedAddr_mask (req_paddr req) in
  match track_loop (lockedAddrList m) req paddr with
  | Some l => with_locked m l
  | None => with_locked m (LockedAddr_new req :: lockedAddrList m)
  end.

(** The two loops of [checkLockedAddrList]: whether the context holds a
    reservation of the address; the records that stay, and the contexts whose
    processors are woken up. *)
Fixpoint find_reservation (l : list LockedAddr) (req : Request) (paddr : Z) : bool :=
  match l with
  | [] => false
  | i :: l => if (la_addr i =? paddr) && la_matchesContext i req then true else find_reservation l req paddr
  end.

Fixpoint erase_locks (l : list LockedAddr) (paddr : Z) : list LockedAddr * list Z :=
  match l with
  | [] => ([], [])
  | i :: l =>
      let '(kept, woken) := erase_locks l paddr in
      if la_addr i =? paddr then (kept, la_contextId i :: woken) else (i :: kept, woken)
  end.

(** Whether the store is allowed, the request with its outcome, the memory, and
    the contexts woken up. *)
Definition checkLockedAddrList (m : AbstractMemory) (pkt : Packet)
    : bool * Request * AbstractMemory * list Z :=
  let req := pkt_req pkt in
  let paddr := LockedAddr_mask (req_paddr req) in
  let allowStore := if pkt_isLLSC pkt then find_reservation (lockedAddrList m) req paddr else true in
  let req := if pkt_isLLSC pkt then setExtraData req (if allowStore then 1 else 0) else req in
  if allowStore then
    let '(kept, woken) := erase_locks (lockedAddrList m) paddr in (true, req, with_locked m kept, woken)
  else (false, req, m, []).

Definition writeOK (m : AbstractMemory) (pkt : Packet) : bool * Request * AbstractMemory * list Z :=
  if is_nil (lockedAddrList m) then
    if pkt_isLLSC pkt then (false, setExtraData (pkt_req pkt) 0, m, []) else (true, pkt_req pkt, m, [])
  else checkLockedAddrList m pkt.

(** [hostAddr - pmemAddr] *)
Definition host_offset (m : AbstractMemory) (pkt : Packet) : Z := pkt_addr pkt - _start (mem_range m).

Definition in_mem_range (m : AbstractMemory) (pkt : Packet) : res bool :=
  isSubset (AddrRange_plain (pkt_addr pkt) (u64 (u64 (pkt_addr pkt + pkt_size pkt) - 1))) (mem_range m).

(** The branch of [access] for swaps. *)
Definition access_swap (m : AbstractMemory) (pkt : Packet) : res (AbstractMemory * Packet) :=
  match pmemAddr m with
  | None => Err Panic
  | Some d =>
      let off := host_offset m pkt in
      payload ← getPtr pkt;
      overwrite_val ← mem_read payload 0 (pkt_size pkt);
      pkt ← setData pkt d off;
      overwrite_mem ←
        (if req_isCondSwap (pkt_req pkt) then
           if pkt_size pkt =? 8 then
             old ← mem_read d off 8;
             Ret (bool_decide (le_bytes 8 (req_extraData (pkt_req pkt)) = old))
           else if pkt_size pkt =? 4 then
             old ← mem_read d off 4;
             Ret (bool_decide (le_bytes 4 (u32 (req_extraData (pkt_req pkt))) = old))
           else Err Panic
         else Ret true);
      d ← (if (overwrite_mem : bool) then mem_write d off overwrite_val else Ret d);
      _ ← cassert (negb (req_isInstFetch (pkt_req pkt)));
      Ret (with_pmem m (Some d), pkt)
  end.

(** The payload is filled from the backing store, or left alone without one. *)
Definition read_store (m : AbstractMemory) (pkt : Packet) : res Packet :=
  match pmemAddr m with
  | Some d => setData pkt d (host_offset m pkt)
  | None => Ret pkt
  end.

Definition write_store (m : AbstractMemory) (pkt : Packet) : res AbstractMemory :=
  match pmemAddr m with
  | Some d => d ← writeData pkt d (host_offset m pkt); Ret (with_pmem m (Some d))
  | None => Ret m
  end.

(** The branches of [access] by command. *)
Definition access_cmd (m : AbstractMemory) (pkt : Packet) : res (AbstractMemory * Packet * list Z) :=
  let cmd := pkt_cmd pkt in
  if bool_decide (cmd = SwapReq) then '(m, pkt) ← access_swap m pkt; Ret (m, pkt, [])
  else if cmd_isRead cmd then
    _ ← cassert (negb (cmd_isWrite cmd));
    let m := if pkt_isLLSC pkt then mem_trackLoadLocked m pkt else m in
    pkt ← read_store m pkt;
    Ret (m, pkt, [])
  else if cmd_isInvalidate cmd then Ret (m, pkt, [])
  else if cmd_isWrite cmd then
    let '(ok, req, m, woken) := writeOK m pkt in
    let pkt := with_req pkt req in
    if (ok : bool) then
      m ← write_store m pkt;
      _ ← cassert (negb (req_isInstFetch (pkt_req pkt)));
      Ret (m, pkt, woken)
    else Ret (m, pkt, woken)
  else Err Panic.

Definition mem_access (m : AbstractMemory) (pkt : Packet) : res (AbstractMemory * Packet * list Z) :=
  inside ← in_mem_range m pkt;
  _ ← cassert inside;
  if memInhibitAsserted pkt then Ret (m, pkt, [])
  else
    '(m, pkt, woken) ← access_cmd m pkt;
    pkt ← (if cmd_needsResponse (pkt_cmd pkt) then makeResponse pkt else Ret pkt);
    Ret (m, pkt, woken).

(** Printing leaves memory and packet alone. *)
Definition functionalAccess (m : AbstractMemory) (pkt : Packet) : res (AbstractMemory * Packet) :=
  inside ← in_mem_range m pkt;
  _ ← cassert inside;
  if cmd_isRead (pkt_cmd pkt) then
    pkt ← read_store m pkt;
    pkt ← makeResponse pkt;
    Ret (m, pkt)
  else if cmd_isWrite (pkt_cmd pkt) then
    m ← write_store m pkt;
    pkt ← makeResponse pkt;
    Ret (m, pkt)
  else if cmd_isPrint (pkt_cmd pkt) then Ret (m, pkt)
  else Err Panic.

(** ** What a memory is

    The abstract memory: a byte for every address, and for every context the
    block it holds a reservation of, if any. *)
Record memspec := mkMemspec { sp_byte : Z -> Z; sp_lock : Z -> option Z }.

Definition sp_read (s : memspec) (a n : Z) : list Z :=
  (fun i => sp_byte s (a + Z.of_nat i)) <$> seq 0 (Z.to_nat n).

Definition sp_write (s : memspec) (a : Z) (d : list Z) : memspec :=
  mkMemspec (fun x => if (a <=? x) && (x <? a + Z.of_nat (length d)) then nth (Z.to_nat (x - a)) d 0 else sp_byte s x)
    (sp_lock s).

Definition sp_reserve (s : memspec) (ctx blk : Z) : memspec :=
  mkMemspec (sp_byte s) (fun c => if c =? ctx then Some blk else sp_lock s c).

(** A store to a block clears every reservation of it. *)
Definition sp_clear (s : memspec) (blk : Z) : memspec :=
  mkMemspec (sp_byte s)
    (fun c => match sp_lock s c with
              | Some b => if b =? blk then None else Some b
              | None => None
              end).

Definition payload (pkt : Packet) : list Z := default [] (pkt_data pkt).

(** The condition of a swap. *)
Definition swap_taken (pkt : Packet) (old : list Z) : bool :=
  if req_isCondSwap (pkt_req pkt)
  then bool_decide (le_bytes (Z.to_nat (pkt_size pkt)) (wrap (8 * pkt_size pkt) (req_extraData (pkt_req pkt))) = old)
  else true.

(** A store conditional needs the reservation of its context. *)
Definition store_allowed (s : memspec) (pkt : Packet) : bool :=
  if pkt_isLLSC pkt
  then bool_decide (sp_lock s (req_contextId (pkt_req pkt)) = Some (LockedAddr_mask (req_paddr (pkt_req pkt))))
  else true.

Definition report (pkt : Packet) (ok : bool) : Packet :=
  if pkt_isLLSC pkt then with_req pkt (setExtraData (pkt_req pkt) (if ok then 1 else 0)) else pkt.

Definition respond (pkt : Packet) : Packet :=
  if cmd_needsResponse (pkt_cmd pkt) then
    mkPacket (responseCommand (pkt_cmd pkt)) (pkt_req pkt) (pkt_addr pkt) (pkt_isSecure pkt) (pkt_size pkt)
      (pkt_data pkt) (Z.land (pkt_flags pkt) (wnot 32 EXPRESS_SNOOP)) (pkt_payloadDelay pkt) (bytesValid pkt)
      (pkt_cmd pkt)
  else pkt.

Definition sp_cmd (s : memspec) (pkt : Packet) : memspec * Packet :=
  let cmd := pkt_cmd pkt in
  let a := pkt_addr pkt in
  let old := sp_read s a (pkt_size pkt) in
  let blk := LockedAddr_mask (req_paddr (pkt_req pkt)) in
  if bool_decide (cmd = SwapReq) then
    (if swap_taken pkt old then sp_write s a (payload pkt) else s, with_data pkt old (bytesValid pkt))
  else if cmd_isRead cmd then
    (if pkt_isLLSC pkt then sp_reserve s (req_contextId (pkt_req pkt)) blk else s, with_data pkt old (bytesValid pkt))
  else if cmd_isInvalidate cmd then (s, pkt)
  else
    (if store_allowed s pkt then sp_clear (sp_write s a (payload pkt)) blk else s, report pkt (store_allowed s pkt)).

Definition sp_access (s : memspec) (pkt : Packet) : memspec * Packet :=
  if memInhibitAsserted pkt then (s, pkt)
  else let '(s, pkt) := sp_cmd s pkt in (s, respond pkt).

(** *** Representation *)

(** The packets a memory is asked to serve: in its range, with a payload of their
    size, and a command it implements. *)
Record pkt_fits (m : AbstractMemory) (pkt : Packet) : Prop := {
  pf_size : 0 < pkt_size pkt;
  pf_start : _start (mem_range m) <= pkt_addr pkt;
  pf_end : pkt_addr pkt + pkt_size pkt <= _end (mem_range m) + 1;
  pf_data : exists d, pkt_data pkt = Some d /\ Z.of_nat (length d) = pkt_size pkt;
  pf_cmd : pkt_cmd pkt = SwapReq \/ (cmd_isRead (pkt_cmd pkt) = true /\ cmd_isWrite (pkt_cmd pkt) = false) \/
           (cmd_isRead (pkt_cmd pkt) = false /\ cmd_isInvalidate (pkt_cmd pkt) = true) \/
           (cmd_isRead (pkt_cmd pkt) = false /\ cmd_isWrite (pkt_cmd pkt) = true);
  pf_request : cmd_isRequest (pkt_cmd pkt) = true;
  pf_fetch : cmd_isWrite (pkt_cmd pkt) = true -> req_isInstFetch (pkt_req pkt) = false;
  pf_swap : pkt_cmd pkt = SwapReq -> req_isCondSwap (pkt_req pkt) = true -> pkt_size pkt = 4 \/ pkt_size pkt = 8;
  pf_extra : inword 64 (req_extraData (pkt_req pkt))
}.

Record mem_repr (m : AbstractMemory) (s : memspec) : Prop := {
  mr_range : 0 <= _start (mem_range m) /\ _start (mem_range m) <= _end (mem_range m) < 2 ^ 64;
  mr_bytes : exists d, pmemAddr m = Some d /\
    Z.of_nat (length d) = _end (mem_range m) - _start (mem_range m) + 1 /\
    forall i, 0 <= i < Z.of_nat (length d) -> d !! Z.to_nat i = Some (sp_byte s (_start (mem_range m) + i));
  mr_nodup : NoDup (la_contextId <$> lockedAddrList m);
  mr_locks : forall c b, sp_lock s c = Some b <-> mkLocked b c ∈ lockedAddrList m
}.

(** *** Bytes *)

Lemma in_mem_range_ok m s pkt : mem_repr m s -> pkt_fits m pkt -> in_mem_range m pkt = Ret true.
Proof.
  intros [[? ?] _ _ _] [? ? ? _ _ _ _ _ _]. unfold in_mem_range, isSubset, AddrRange_plain.
  assert (E : u64 (u64 (pkt_addr pkt + pkt_size pkt) - 1) = pkt_addr pkt + pkt_size pkt - 1).
  { rewrite wrap_sub_l. apply wrap_small. unfold inword; lia. }
  rewrite E. cbn. f_equal. apply andb_true_iff. rewrite !Z.leb_le. lia.
Qed.

Lemma sp_read_length s a n : 0 <= n -> Z.of_nat (length (sp_read s a n)) = n.
Proof. intros. unfold sp_read. rewrite length_fmap, length_seq. lia. Qed.

Lemma sp_read_lookup s a n i : 0 <= i < n -> sp_read s a n !! Z.to_nat i = Some (sp_byte s (a + i)).
Proof.
  intros Hi. unfold sp_read. rewrite list_lookup_fmap, lookup_seq_lt by lia. cbn. do 3 f_equal. lia.
Qed.

Definition holds (r : AddrRange) (d : list Z) (s : memspec) : Prop :=
  Z.of_nat (length d) = _end r - _start r + 1 /\
  forall i, 0 <= i < Z.of_nat (length d) -> d !! Z.to_nat i = Some (sp_byte s (_start r + i)).

Lemma holds_read r d s a n :
  holds r d s -> 0 <= n -> _start r <= a -> a + n <= _end r + 1 ->
  mem_read d (a - _start r) n = Ret (sp_read s a n).
Proof.
  intros [Hl Hd] Hn Ha He. destruct (mem_read_spec d (a - _start r) n) as (l & -> & Hll & Hlk); [lia..|].
  f_equal. apply list_eq_same_length with (n := Z.to_nat n).
  - pose proof (sp_read_length s a n Hn). lia.
  - lia.
  - intros i x y Hi Hx Hy. pose proof (Hlk (Z.of_nat i) ltac:(lia)) as E. rewrite Nat2Z.id in E.
    rewrite E, Hd in Hx by lia. pose proof (sp_read_lookup s a n (Z.of_nat i) ltac:(lia)) as E'.
    rewrite Nat2Z.id in E'. rewrite E' in Hy. injection Hx as <-. injection Hy as <-. f_equal. lia.
Qed.

Lemma holds_write r d s a bs :
  holds r d s -> _start r <= a -> a + Z.of_nat (length bs) <= _end r + 1 ->
  exists d', mem_write d (a - _start r) bs = Ret d' /\ holds r d' (sp_write s a bs).
Proof.
  intros [Hl Hd] Ha He. destruct (mem_write_spec d (a - _start r) bs) as (d' & -> & Hll & Hlk); [lia..|].
  exists d'. split; [done|]. split; [lia|]. intros i Hi. rewrite Hlk by lia. cbn [sp_write sp_byte].
  case_decide as Hc.
  - rewrite (proj2 (andb_true_iff _ _)) by (rewrite Z.leb_le, Z.ltb_lt; lia).
    destruct (lookup_lt_is_Some_2 bs (Z.to_nat (i - (a - _start r))) ltac:(lia)) as [x Hx].
    rewrite Hx. f_equal. apply nth_lookup_Some with (d := 0) in Hx. rewrite <- Hx. f_equal. lia.
  - replace (_ && _) with false; [by apply Hd; lia|]. symmetry. apply andb_false_iff.
    rewrite Z.leb_gt, Z.ltb_ge. lia.
Qed.

(** *** Reservations *)

Definition locks_are (l : list LockedAddr) (f : Z -> option Z) : Prop :=
  NoDup (la_contextId <$> l) /\ forall c b, f c = Some b <-> mkLocked b c ∈ l.

Lemma track_loop_some l req blk l' f :
  track_loop l req blk = Some l' -> locks_are l f ->
  locks_are l' (fun c => if c =? req_contextId req then Some blk else f c).
Proof.
  revert l' f. induction l as [|[b c] l IH]; cbn; intros l' f; [done|]. unfold la_matchesContext; cbn.
  destruct (Z.eqb_spec c (req_contextId req)) as [-> | Hc].
  - intros [= <-] [Hnd Hf]. split; [done|]. cbn in Hnd. apply NoDup_cons in Hnd as [Hni _].
    intros c' b'. rewrite elem_of_cons. destruct (Z.eqb_spec c' (req_contextId req)) as [-> | Hc'].
    + split; [intros [= ->]; by left|]. intros [[= ->] | Hin]; [done|]. exfalso. apply Hni.
      apply list_elem_of_fmap. by exists (mkLocked b' (req_contextId req)).
    + rewrite Hf, elem_of_cons. naive_solver.
  - destruct (track_loop l req blk) as [l1|] eqn:E; [|done]. intros [= <-] [Hnd Hf]. cbn in Hnd.
    apply NoDup_cons in Hnd as [Hni Hnd].
    destruct (IH l1 (fun x => if x =? c then None else f x) eq_refl) as [Hnd1 Hf1].
    { split; [done|]. intros c' b'. destruct (Z.eqb_spec c' c) as [-> | Hne].
      - split; [done|]. intros Hin. exfalso. apply Hni, list_elem_of_fmap. by exists (mkLocked b' c).
      - rewrite Hf, elem_of_cons. naive_solver. }
    split.
    + cbn. apply NoDup_cons. split; [|done]. intros Hin. apply list_elem_of_fmap in Hin as ([b1 c1] & -> & Hin).
      cbn in *. apply Hf1 in Hin. rewrite Z.eqb_refl in Hin. destruct (Z.eqb_spec c1 (req_contextId req)); naive_solver.
    + intros c' b'. rewrite elem_of_cons, <- Hf1. destruct (Z.eqb_spec c' (req_contextId req)) as [-> | Hc'].
      * naive_solver.
      * destruct (Z.eqb_spec c' c) as [-> | ?]; [|naive_solver]. rewrite Hf, elem_of_cons.
        split; [|naive_solver]. intros [? | Hin]; [by left; naive_solver|].
        exfalso. apply Hni, list_elem_of_fmap. by exists (mkLocked b' c).
Qed.

Lemma track_loop_none l req blk f :
  track_loop l req blk = None -> locks_are l f -> f (req_contextId req) = None.
Proof.
  intros Hn [_ Hf]. destruct (f (req_contextId req)) as [b|] eqn:E; [|done]. apply Hf in E. exfalso. clear Hf.
  induction l as [|i l IH]; [by apply not_elem_of_nil in E|]. cbn in Hn.
  destruct (la_matchesContext i req) eqn:Em; [done|].
  apply elem_of_cons in E as [<- | E].
  - unfold la_matchesContext in Em; cbn in Em. by rewrite Z.eqb_refl in Em.
  - apply IH; [|done]. by destruct (track_loop l req blk).
Qed.

Lemma track_ok m pkt f :
  locks_are (lockedAddrList m) f ->
  locks_are (lockedAddrList (mem_trackLoadLocked m pkt))
    (fun c => if c =? req_contextId (pkt_req pkt) then Some (LockedAddr_mask (req_paddr (pkt_req pkt))) else f c).
Proof.
  intros Hl. unfold mem_trackLoadLocked. destruct (track_loop _ _ _) as [l|] eqn:E; cbn.
  - by eapply track_loop_some.
  - pose proof (track_loop_none _ _ _ _ E Hl) as Hn. destruct Hl as [Hnd Hf]. split.
    + cbn. apply NoDup_cons. split; [|done]. intros Hin. apply list_elem_of_fmap in Hin as ([b c] & Hc & Hin).
      apply Hf in Hin. cbn in Hc. congruence.
    + intros c b. rewrite elem_of_cons. unfold LockedAddr_new.
      destruct (Z.eqb_spec c (req_contextId (pkt_req pkt))) as [-> | Hc]; [|rewrite Hf; naive_solver].
      split; [naive_solver|]. intros [[= ->] | Hin]; [done|]. apply Hf in Hin. congruence.
Qed.

Lemma find_reservation_ok l req blk f :
  locks_are l f -> find_reservation l req blk = bool_decide (f (req_contextId req) = Some blk).
Proof.
  intros [_ Hf]. symmetry. destruct (find_reservation l req blk) eqn:E.
  - apply bool_decide_true, Hf. clear Hf. induction l as [|[b c] l IH]; [done|]. cbn in E.
    unfold la_matchesContext in E.
    cbn in E. destruct (Z.eqb_spec b blk), (Z.eqb_spec c (req_contextId req)); cbn in E; subst; set_solver.
  - apply bool_decide_false. rewrite Hf. clear Hf. induction l as [|[b c] l IH]; [by apply not_elem_of_nil|].
    cbn in E. unfold la_matchesContext in E; cbn in E. rewrite elem_of_cons.
    destruct (Z.eqb_spec b blk), (Z.eqb_spec c (req_contextId req)); cbn in E; naive_solver.
Qed.

Lemma erase_locks_elem l blk x : x ∈ (erase_locks l blk).1 <-> x ∈ l /\ la_addr x <> blk.
Proof.
  induction l as [|[b c] l IH]; cbn; [set_solver|]. destruct (erase_locks l blk) as [k w]. cbn in IH.
  destruct (Z.eqb_spec b blk); cbn; rewrite ?elem_of_cons, IH, ?elem_of_cons; naive_solver.
Qed.

Lemma erase_locks_sub l blk : sublist (erase_locks l blk).1 l.
Proof.
  induction l as [|[b c] l IH]; cbn; [constructor|]. destruct (erase_locks l blk) as [k w]. cbn in IH.
  destruct (b =? blk); cbn; by constructor.
Qed.

Lemma erase_locks_ok l blk f :
  locks_are l f ->
  locks_are (erase_locks l blk).1
    (fun c => match f c with Some b => if b =? blk then None else Some b | None => None end).
Proof.
  intros [Hnd Hf]. split.
  - eapply sublist_NoDup; [exact Hnd|]. apply fmap_sublist, erase_locks_sub.
  - intros c b. rewrite erase_locks_elem, <- Hf. cbn. destruct (f c) as [b'|]; [|naive_solver].
    destruct (Z.eqb_spec b' blk); naive_solver.
Qed.

Lemma mem_repr_parts m s :
  mem_repr m s <->
  (0 <= _start (mem_range m) /\ _start (mem_range m) <= _end (mem_range m) < 2 ^ 64) /\
  (exists d, pmemAddr m = Some d /\ holds (mem_range m) d s) /\ locks_are (lockedAddrList m) (sp_lock s).
Proof.
  split.
  - intros [Hr (d & Hd & Hh) Hn Hl]. split; [done|]. split; [by exists d|done].
  - intros (Hr & (d & Hd & Hh) & [Hn Hl]). split; [done| |done|done]. by exists d.
Qed.

(** *** Commands *)

Lemma setData_ok m s pkt d :
  holds (mem_range m) d s -> pkt_fits m pkt ->
  setData pkt d (host_offset m pkt)
  = Ret (with_data pkt (sp_read s (pkt_addr pkt) (pkt_size pkt)) (bytesValid pkt)).
Proof.
  intros Hh [Hs Ha He (p & Hp & Hl) _ _ _ _ _]. unfold setData, getPtr. rewrite Hp. bsimpl. unfold host_offset.
  rewrite (holds_read _ _ s) by (done || lia). bsimpl. rewrite mem_write_all; [done|].
  pose proof (sp_read_length s (pkt_addr pkt) (pkt_size pkt)). lia.
Qed.

Lemma writeData_ok m s pkt d :
  holds (mem_range m) d s -> pkt_fits m pkt ->
  exists d', writeData pkt d (host_offset m pkt) = Ret d' /\
    holds (mem_range m) d' (sp_write s (pkt_addr pkt) (payload pkt)).
Proof.
  intros Hh [Hs Ha He (p & Hp & Hl) _ _ _ _ _]. unfold writeData, getPtr, payload. rewrite Hp. bsimpl.
  rewrite mem_read_all by done. bsimpl. cbn [default from_option id].
  destruct (holds_write (mem_range m) d s (pkt_addr pkt) p) as (d' & Hw & Hd'); [done|lia|lia|]. by exists d'.
Qed.

Lemma swap_ok m s pkt :
  mem_repr m s -> pkt_fits m pkt -> pkt_cmd pkt = SwapReq ->
  exists m', access_swap m pkt = Ret (m', (sp_cmd s pkt).2) /\ mem_repr m' (sp_cmd s pkt).1 /\
    mem_range m' = mem_range m.
Proof.
  intros Hm Hf Hc. apply mem_repr_parts in Hm as (Hr & (d & Hd & Hh) & Hl). unfold access_swap, sp_cmd. rewrite Hd.
  rewrite bool_decide_true by done. cbn [fst snd]. pose proof Hf as [Hs Ha He (p & Hp & Hpl) _ _ Hfe Hsz Hx].
  unfold getPtr. rewrite Hp. bsimpl. rewrite mem_read_all by done. bsimpl.
  rewrite (setData_ok m s) by done. bsimpl. set (old := sp_read _ _ _).
  assert (Hcond : (if req_isCondSwap (pkt_req (with_data pkt old (bytesValid pkt))) then
           if pkt_size (with_data pkt old (bytesValid pkt)) =? 8 then
             o ← mem_read d (host_offset m pkt) 8;
             Ret (bool_decide (le_bytes 8 (req_extraData (pkt_req (with_data pkt old (bytesValid pkt)))) = o))
           else if pkt_size (with_data pkt old (bytesValid pkt)) =? 4 then
             o ← mem_read d (host_offset m pkt) 4;
             Ret (bool_decide (le_bytes 4 (u32 (req_extraData (pkt_req (with_data pkt old (bytesValid pkt))))) = o))
           else Err Panic
         else Ret true) = Ret (swap_taken pkt old)).
  { unfold swap_taken. cbn [with_data pkt_req pkt_size]. destruct (req_isCondSwap (pkt_req pkt)); [|done].
    unfold old, host_offset. destruct (Hsz Hc eq_refl) as [E | E]; rewrite E in He |- *.
    - change (4 =? 8) with false. change (4 =? 4) with true. cbn iota.
      rewrite (holds_read _ _ s) by (done || lia). done.
    - change (8 =? 8) with true. cbn iota. rewrite (holds_read _ _ s) by (done || lia). bsimpl.
      rewrite wrap_small by done. done. }
  rewrite Hcond. bsimpl. cbn [with_data pkt_req]. rewrite Hfe by (by rewrite Hc).
  destruct (swap_taken pkt old) eqn:Et.
  - destruct (holds_write (mem_range m) d s (pkt_addr pkt) p) as (d' & Hw & Hd'); [done|lia|lia|].
    unfold host_offset. rewrite Hw. bsimpl. cbn. eexists. split; [done|]. split; [|done].
    apply mem_repr_parts. cbn. unfold payload. rewrite Hp. cbn. eauto 6.
  - bsimpl. cbn. eexists. split; [done|]. split; [|done]. apply mem_repr_parts. cbn. eauto 6.
Qed.

Lemma with_req_same pkt : with_req pkt (pkt_req pkt) = pkt.
Proof. by destruct pkt. Qed.

(** The contexts woken up by a store are those whose reservation it clears. *)
Lemma erase_locks_woken l blk c : c ∈ (erase_locks l blk).2 <-> mkLocked blk c ∈ l.
Proof.
  induction l as [|[b x] l IH]; cbn; [set_solver|]. destruct (erase_locks l blk) as [k w]. cbn in IH.
  destruct (Z.eqb_spec b blk); cbn; rewrite ?elem_of_cons, IH; naive_solver.
Qed.

Lemma writeOK_ok m s pkt :
  locks_are (lockedAddrList m) (sp_lock s) ->
  exists m' woken,
    writeOK m pkt = (store_allowed s pkt, pkt_req (report pkt (store_allowed s pkt)), m', woken) /\
    mem_range m' = mem_range m /\ pmemAddr m' = pmemAddr m /\
    (if store_allowed s pkt
     then locks_are (lockedAddrList m') (sp_lock (sp_clear s (LockedAddr_mask (req_paddr (pkt_req pkt))))) /\
          forall c, c ∈ woken <-> sp_lock s c = Some (LockedAddr_mask (req_paddr (pkt_req pkt)))
     else lockedAddrList m' = lockedAddrList m /\ woken = []).
Proof.
  intros Hl. unfold writeOK, report, store_allowed. destruct (lockedAddrList m) as [|x l] eqn:El; cbn [is_nil].
  - assert (Hnone : forall c, sp_lock s c = None).
    { intros c. destruct (sp_lock s c) eqn:E; [|done]. apply Hl in E. by apply not_elem_of_nil in E. }
    rewrite Hnone. destruct (pkt_isLLSC pkt); cbn; exists m, []; split_and!; try done.
    + rewrite El. destruct Hl as [Hnd Hl]. split; [done|]. intros c b. cbn. rewrite Hnone.
      by split; [|intros ?%not_elem_of_nil].
    + intros c. rewrite Hnone. by split; [intros ?%not_elem_of_nil|].
  - rewrite <- El in *. unfold checkLockedAddrList.
    rewrite (find_reservation_ok _ _ _ _ Hl). destruct (pkt_isLLSC pkt); cbn [with_req pkt_req].
    + destruct (bool_decide _) eqn:Eb.
      * pose proof (erase_locks_ok _ (LockedAddr_mask (req_paddr (pkt_req pkt))) _ Hl) as He.
        pose proof (erase_locks_woken (lockedAddrList m) (LockedAddr_mask (req_paddr (pkt_req pkt)))) as Hw.
        destruct (erase_locks _ _) as [k w]. cbn in He, Hw. eexists _, _. split; [done|]. cbn. split_and!; try done.
        intros c. rewrite Hw. destruct Hl as [_ Hl]. by rewrite Hl.
      * eexists _, _. split; [done|]. done.
    + pose proof (erase_locks_ok _ (LockedAddr_mask (req_paddr (pkt_req pkt))) _ Hl) as He.
      pose proof (erase_locks_woken (lockedAddrList m) (LockedAddr_mask (req_paddr (pkt_req pkt)))) as Hw.
      destruct (erase_locks _ _) as [k w]. cbn in He, Hw. eexists _, _. split; [done|]. cbn. split_and!; try done.
      intros c. rewrite Hw. destruct Hl as [_ Hl]. by rewrite Hl.
Qed.

Lemma access_cmd_ok m s pkt :
  mem_repr m s -> pkt_fits m pkt ->
  exists m' woken, access_cmd m pkt = Ret (m', (sp_cmd s pkt).2, woken) /\ mem_repr m' (sp_cmd s pkt).1 /\
    mem_range m' = mem_range m.
Proof.
  intros Hm Hf. unfold access_cmd. destruct (decide (pkt_cmd pkt = SwapReq)) as [Hsw | Hsw].
  { rewrite bool_decide_true by done. destruct (swap_ok m s pkt Hm Hf Hsw) as (m' & -> & ? & ?). bsimpl. by eauto 6. }
  unfold sp_cmd. rewrite bool_decide_false by done. pose proof Hm as (Hr & (d & Hd & Hh) & Hl)%mem_repr_parts.
  destruct (cmd_isRead (pkt_cmd pkt)) eqn:Erd.
  { assert (cmd_isWrite (pkt_cmd pkt) = false) as -> by (pose proof (pf_cmd _ _ Hf); intuition congruence).
    bsimpl. unfold read_store. destruct (pkt_isLLSC pkt).
    - replace (pmemAddr (mem_trackLoadLocked m pkt)) with (pmemAddr m)
        by (unfold mem_trackLoadLocked; by destruct (track_loop _ _ _)).
      replace (host_offset (mem_trackLoadLocked m pkt) pkt) with (host_offset m pkt)
        by (unfold mem_trackLoadLocked, host_offset; by destruct (track_loop _ _ _)).
      rewrite Hd, (setData_ok m s) by done. bsimpl. eexists _, _. split; [done|]. cbn [fst].
      pose proof (track_ok m pkt _ Hl) as Htl. split; [|unfold mem_trackLoadLocked; by destruct (track_loop _ _ _)].
      apply mem_repr_parts. unfold mem_trackLoadLocked in *. destruct (track_loop _ _ _); cbn in *; eauto 6.
    - rewrite Hd, (setData_ok m s) by done. bsimpl. by eauto 6. }
  destruct (cmd_isInvalidate (pkt_cmd pkt)) eqn:Ein; [cbn [fst snd]; by eauto 6|].
  assert (cmd_isWrite (pkt_cmd pkt) = true) as Ew by (pose proof (pf_cmd _ _ Hf); intuition congruence).
  rewrite Ew. destruct (writeOK_ok m s pkt Hl) as (m' & woken & -> & Hrg & Hpm & Hlk). cbn [fst snd].
  replace (with_req pkt (pkt_req (report pkt (store_allowed s pkt)))) with (report pkt (store_allowed s pkt))
    by (unfold report; destruct (pkt_isLLSC pkt); [done|symmetry; apply with_req_same]).
  destruct (store_allowed s pkt) eqn:Es.
  - unfold write_store. rewrite Hpm, Hd.
    assert (Hw : writeData (report pkt true) d (host_offset m' (report pkt true)) = writeData pkt d (host_offset m
      pkt)).
    { unfold report, host_offset, writeData, getPtr. rewrite Hrg. by destruct (pkt_isLLSC pkt). }
    rewrite Hw. destruct (writeData_ok m s pkt d Hh Hf) as (d' & -> & Hd'). bsimpl.
    assert (req_isInstFetch (pkt_req (report pkt true)) = false) as ->.
    { rewrite <- (pf_fetch _ _ Hf Ew). unfold report. by destruct (pkt_isLLSC pkt). }
    cbn [negb cassert]. bsimpl. eexists _, _. split; [done|]. split; [|done]. apply mem_repr_parts. cbn. rewrite Hrg.
    destruct Hlk as [Hlk _]. eauto 6.
  - destruct Hlk as [Hlk _]. eexists _, _. split; [done|]. split; [|done]. apply mem_repr_parts.
    rewrite Hrg, Hpm, Hlk. eauto 6.
Qed.

Lemma respond_ok (pkt : Packet) :
  cmd_isRequest (pkt_cmd pkt) = true ->
  (if cmd_needsResponse (pkt_cmd pkt) then makeResponse pkt else Ret pkt) = Ret (respond pkt).
Proof.
  intros Hq. unfold respond, makeResponse. destruct (cmd_needsResponse (pkt_cmd pkt)) eqn:E; [|done]. by rewrite Hq.
Qed.

Lemma sp_cmd_pkt_cmd s pkt : pkt_cmd (sp_cmd s pkt).2 = pkt_cmd pkt.
Proof.
  unfold sp_cmd, report. destruct (bool_decide _); [done|]. destruct (cmd_isRead _); [done|].
  destruct (cmd_isInvalidate _); [done|]. cbn. by destruct (pkt_isLLSC pkt).
Qed.

Lemma mem_access_ok m s pkt :
  mem_repr m s -> pkt_fits m pkt ->
  exists m' woken, mem_access m pkt = Ret (m', (sp_access s pkt).2, woken) /\ mem_repr m' (sp_access s pkt).1 /\
    mem_range m' = mem_range m.
Proof.
  intros Hm Hf. unfold mem_access, sp_access. rewrite (in_mem_range_ok m s) by done. bsimpl. cbn [cassert]. bsimpl.
  destruct (memInhibitAsserted pkt); [by eauto 6|].
  destruct (access_cmd_ok m s pkt Hm Hf) as (m' & woken & -> & Hm' & Hr). bsimpl.
  pose proof (sp_cmd_pkt_cmd s pkt) as Hc. destruct (sp_cmd s pkt) as [s' pkt']. cbn [fst snd] in *.
  rewrite respond_ok by (rewrite Hc; apply (pf_request _ _ Hf)). bsimpl. eauto 6.
Qed.

(** A run of accesses, with the responses. *)
Fixpoint mem_run (m : AbstractMemory) (pkts : list Packet) : res (AbstractMemory * list Packet) :=
  match pkts with
  | [] => Ret (m, [])
  | pkt :: pkts =>
      '(m, r, _) ← mem_access m pkt;
      '(m, rs) ← mem_run m pkts;
      Ret (m, r :: rs)
  end.

Fixpoint sp_run (s : memspec) (pkts : list Packet) : memspec * list Packet :=
  match pkts with
  | [] => (s, [])
  | pkt :: pkts =>
      let '(s, r) := sp_access s pkt in
      let '(s, rs) := sp_run s pkts in
      (s, r :: rs)
  end.

Lemma pkt_fits_range m m' pkt : mem_range m' = mem_range m -> pkt_fits m pkt -> pkt_fits m' pkt.
Proof. intros E [? ? ? ? ? ? ? ? ?]. split; rewrite ?E; done. Qed.

(** C16. A memory is a memory: any sequence of requests within its range (reads,
    writes, load-locked, store-conditional, swaps, upgrades and other
    invalidations, inhibited requests) is served without failure, and bytes,
    reservations and responses are those of the abstract memory, in which a write
    replaces the bytes it covers, a store clears the reservations of its block, a
    store-conditional writes exactly if its context holds the reservation of its
    block, a swap returns the old bytes and writes if its condition holds, and a
    read returns the bytes.  A context holds at most one reservation. *)
Theorem memory_refines m s pkts :
  mem_repr m s -> Forall (pkt_fits m) pkts ->
  exists m', mem_run m pkts = Ret (m', (sp_run s pkts).2) /\ mem_repr m' (sp_run s pkts).1.
Proof.
  intros Hm Hf. revert m s Hm Hf. induction pkts as [|pkt pkts IH]; intros m s Hm Hf; cbn [mem_run sp_run]; [by eauto|].
  apply Forall_cons in Hf as [Hp Hf]. destruct (mem_access_ok m s pkt Hm Hp) as (m1 & w & -> & Hm1 & Hr). bsimpl.
  destruct (sp_access s pkt) as [s1 r]. cbn [fst snd] in *.
  destruct (IH m1 s1 Hm1) as (m' & -> & Hm'); [by eapply Forall_impl; [exact Hf|intros ?; apply pkt_fits_range]|].
  bsimpl. destruct (sp_run s1 pkts) as [s2 rs]. by eauto.
Qed.

(** A memory of 64 zero bytes. *)
Definition zero_memory : AbstractMemory := setBackingStore (AbstractMemory_new (AddrRange_plain 0 63)) (replicate 64 0).
Definition zero_spec : memspec := mkMemspec (fun _ => 0) (fun _ => None).

Definition demo_pkt (ctx addr : Z) (cmd : Command) (d : list Z) : Packet :=
  with_data (Packet_new (mkRequest ctx addr (Z.of_nat (length d)) 0 0 0 0) cmd) d [].

Lemma zero_memory_repr : mem_repr zero_memory zero_spec.
Proof.
  apply mem_repr_parts. split; [cbn; lia|]. split.
  - eexists. split; [reflexivity|]. split; [reflexivity|]. intros i Hi. cbn [sp_byte zero_spec].
    apply lookup_replicate_2. rewrite length_replicate in Hi. lia.
  - split; [constructor|]. intros c b. cbn. by split; [|intros ?%not_elem_of_nil].
Qed.

Definition demo_accesses : list Packet :=
  [demo_pkt 1 0x20 LoadLockedReq [9; 9]; demo_pkt 2 0x20 WriteReq [7; 8]; demo_pkt 1 0x20 StoreCondReq [5; 6];
   demo_pkt 1 0x20 ReadReq [9; 9]].

Lemma demo_accesses_fit : Forall (pkt_fits zero_memory) demo_accesses.
Proof.
  repeat (apply Forall_cons; split); [..|apply Forall_nil_2].
  all: split; cbn; try lia; try done; try (by eexists); try (unfold inword; cbn; lia).
  - by right; left.
  - by right; right; right.
  - by right; right; right.
  - by right; left.
Qed.

Lemma memory_refines_witness :
  (pkt_data <$> (sp_run zero_spec demo_accesses).2 !! 3%nat) = Some (Some [7; 8]) /\
  exists m', mem_run zero_memory demo_accesses = Ret (m', (sp_run zero_spec demo_accesses).2).
Proof.
  split; [vm_compute; reflexivity|].
  destruct (memory_refines zero_memory zero_spec demo_accesses zero_memory_repr demo_accesses_fit) as (m' & H & _).
  exists m'. exact H.
Defined.

(** A store wider than the granule of a reservation clears only the reservation of
    its first granule: the reserved bytes are overwritten by another context and
    the store-conditional still succeeds. *)
Lemma wide_store_keeps_reservation :
  exists m' r1 r2 r3,
    mem_run zero_memory [demo_pkt 1 0x20 LoadLockedReq [9; 9]; demo_pkt 2 0 WriteReq (replicate 64 7);
                         demo_pkt 1 0x20 StoreCondReq [5; 6]] = Ret (m', [r1; r2; r3]) /\
    pkt_data r1 = Some [0; 0] /\ req_extraData (pkt_req r3) = 1 /\
    (pmemAddr m' ≫= fun d => d !! 0x20%nat) = Some 5 /\ (pmemAddr m' ≫= fun d => d !! 0x22%nat) = Some 7.
Proof. eexists _, _, _, _. split; [vm_compute; reflexivity|]. vm_compute. done. Qed.

(** ** [class SimpleMemory] *)

Record SimpleMemory := mkSimpleMemory {
  sm_mem : AbstractMemory;
  packetQueue : list DeferredPacket;
  isBusy : bool;
  retryReq : bool;
  retryResp : bool;
  sm_releaseEvent : option Z;
  dequeueEvent : option Z;
  sm_drain : bool;            (* a drain manager waits *)
  sm_drained : nat            (* how often it was told that draining is done *)
}.

Record SimpleMemoryParams := mkSimpleMemoryParams {
  sm_latency : Z;
  sm_latency_var : Z
}.

Definition SimpleMemory_new (m : AbstractMemory) : SimpleMemory :=
  mkSimpleMemory m [] false false false None None false 0.

Definition sm_with_mem (sm : SimpleMemory) (m : AbstractMemory) : SimpleMemory :=
  mkSimpleMemory m (packetQueue sm) (isBusy sm) (retryReq sm) (retryResp sm) (sm_releaseEvent sm) (dequeueEvent sm)
    (sm_drain sm) (sm_drained sm).
Definition sm_with_queue (sm : SimpleMemory) (q : list DeferredPacket) : SimpleMemory :=
  mkSimpleMemory (sm_mem sm) q (isBusy sm) (retryReq sm) (retryResp sm) (sm_releaseEvent sm) (dequeueEvent sm)
    (sm_drain sm) (sm_drained sm).
Definition sm_with_dequeue (sm : SimpleMemory) (e : option Z) : SimpleMemory :=
  mkSimpleMemory (sm_mem sm) (packetQueue sm) (isBusy sm) (retryReq sm) (retryResp sm) (sm_releaseEvent sm) e
    (sm_drain sm) (sm_drained sm).
Definition sm_with_retryReq (sm : SimpleMemory) (b : bool) : SimpleMemory :=
  mkSimpleMemory (sm_mem sm) (packetQueue sm) (isBusy sm) b (retryResp sm) (sm_releaseEvent sm) (dequeueEvent sm)
    (sm_drain sm) (sm_drained sm).
Definition sm_with_retryResp (sm : SimpleMemory) (b : bool) : SimpleMemory :=
  mkSimpleMemory (sm_mem sm) (packetQueue sm) (isBusy sm) (retryReq sm) b (sm_releaseEvent sm) (dequeueEvent sm)
    (sm_drain sm) (sm_drained sm).
Definition sm_busy (sm : SimpleMemory) (b : bool) (e : option Z) : SimpleMemory :=
  mkSimpleMemory (sm_mem sm) (packetQueue sm) b (retryReq sm) (retryResp sm) e (dequeueEvent sm)
    (sm_drain sm) (sm_drained sm).

(** [draw] is the random number, if one is drawn. *)
Definition getLatency (p : SimpleMemoryParams) (draw : Z) : Z :=
  u64 (sm_latency p + (if sm_latency_var p =? 0 then 0 else draw)).

Definition sm_recvAtomic (p : SimpleMemoryParams) (sm : SimpleMemory) (pkt : Packet) (draw : Z)
    : res (Z * SimpleMemory * Packet) :=
  '(m, pkt, _) ← mem_access (sm_mem sm) pkt;
  Ret (if memInhibitAsserted pkt then 0 else getLatency p draw, sm_with_mem sm m, pkt).

Definition sm_recvFunctional (sm : SimpleMemory) (pkt : Packet) : res (SimpleMemory * Packet) :=
  '(m, pkt) ← functionalAccess (sm_mem sm) pkt;
  '(_, pkt, q) ← queue_checkFunctional pkt (packetQueue sm);
  Ret (sm_with_queue (sm_with_mem sm m) q, pkt).

Definition not_scheduled (e : option Z) : bool :=
  match e with
  | None => true
  | Some _ => false
  end.

(** A request as it arrives: the packet, the ticks it occupies the memory and the
    random number drawn for its response. *)
Record Arrival := mkArrival { ar_pkt : Packet; ar_duration : Z; ar_draw : Z }.

Definition occupy (sm : SimpleMemory) (a : Arrival) (curTick : Z) : res SimpleMemory :=
  if (cmd_isRead (pkt_cmd (ar_pkt a)) || cmd_isWrite (pkt_cmd (ar_pkt a))) && negb (ar_duration a =? 0) then
    _ ← cassert (curTick <=? u64 (curTick + ar_duration a));
    _ ← cassert (not_scheduled (sm_releaseEvent sm));
    Ret (sm_busy sm true (Some (u64 (curTick + ar_duration a))))
  else Ret sm.

Definition sm_enqueue (p : SimpleMemoryParams) (sm : SimpleMemory) (a : Arrival) (pkt : Packet) (curTick : Z)
    : res SimpleMemory :=
  _ ← cassert (cmd_isResponse (pkt_cmd pkt));
  let tick := u64 (curTick + getLatency p (ar_draw a)) in
  let sm := sm_with_queue sm (packetQueue sm ++ [mkDeferred tick pkt]) in
  if negb (retryResp sm) && not_scheduled (dequeueEvent sm) then
    _ ← cassert (curTick <=? tick);
    Ret (sm_with_dequeue sm (Some tick))
  else Ret sm.

(** The delays of the packet are reset (the header delay is not modelled). *)
Definition reset_delay (pkt : Packet) : Packet :=
  mkPacket (pkt_cmd pkt) (pkt_req pkt) (pkt_addr pkt) (pkt_isSecure pkt) (pkt_size pkt) (pkt_data pkt)
    (pkt_flags pkt) 0 (bytesValid pkt) (pkt_origCmd pkt).

Definition sm_recvTimingReq (p : SimpleMemoryParams) (sm : SimpleMemory) (a : Arrival) (curTick : Z)
    : res (bool * SimpleMemory) :=
  let pkt := ar_pkt a in
  if memInhibitAsserted pkt then Ret (true, sm)
  else if retryReq sm then Ret (false, sm)
  else if isBusy sm then Ret (false, sm_with_retryReq sm true)
  else
    sm ← occupy sm a curTick;
    let needsResponse := cmd_needsResponse (pkt_cmd pkt) in
    '(_, sm, pkt) ← sm_recvAtomic p sm (reset_delay pkt) (ar_draw a);
    sm ← (if needsResponse then sm_enqueue p sm a pkt curTick else Ret sm);
    Ret (true, sm).

(** The requests that arrive while the memory is calling its neighbour, and which
    of them it accepts. *)
Fixpoint sm_arrivals (p : SimpleMemoryParams) (sm : SimpleMemory) (l : list Arrival) (curTick : Z)
    : res (list bool * SimpleMemory) :=
  match l with
  | [] => Ret ([], sm)
  | a :: l =>
      '(ok, sm) ← sm_recvTimingReq p sm a curTick;
      '(oks, sm) ← sm_arrivals p sm l curTick;
      Ret (ok :: oks, sm)
  end.

(** [release], when its event is processed; [inner] arrives during [sendRetryReq],
    if a retry is sent.  The result is the answers to [inner]. *)
Definition release (p : SimpleMemoryParams) (sm : SimpleMemory) (curTick : Z) (inner : list Arrival)
    : res (list bool * SimpleMemory) :=
  let sm := sm_busy sm (isBusy sm) None in
  _ ← cassert (isBusy sm);
  let sm := sm_busy sm false (sm_releaseEvent sm) in
  if retryReq sm then sm_arrivals p (sm_with_retryReq sm false) inner curTick
  else Ret ([], sm).

(** The end of [dequeue], for the packet [pkt] that was accepted: the next event,
    or the signal to the drain manager. *)
Definition dequeue_next (sm : SimpleMemory) (curTick : Z) : res SimpleMemory :=
  match packetQueue sm with
  | [] => Err OutOfBounds
  | _ :: q =>
      let sm := sm_with_queue sm q in
      match q with
      | d :: _ => Ret (sm_with_dequeue sm (Some (Z.max (dp_tick d) curTick)))
      | [] =>
          Ret (if sm_drain sm
               then mkSimpleMemory (sm_mem sm) [] (isBusy sm) (retryReq sm) (retryResp sm) (sm_releaseEvent sm)
                      (dequeueEvent sm) false (S (sm_drained sm))
               else sm)
      end
  end.

(** [dequeue]: [accepted] is the answer to [sendTimingResp], during which [inner]
    arrives.  The result is the packet sent, if it was accepted, and the answers
    to [inner]. *)
Definition dequeue (p : SimpleMemoryParams) (sm : SimpleMemory) (curTick : Z) (accepted : bool) (inner : list Arrival)
    : res (option Packet * list bool * SimpleMemory) :=
  match packetQueue sm with
  | [] => Err AssertFailed
  | d :: _ =>
      '(oks, sm) ← sm_arrivals p sm inner curTick;
      let sm := sm_with_retryResp sm (negb accepted) in
      if accepted then sm ← dequeue_next sm curTick; Ret (Some (dp_pkt d), oks, sm)
      else Ret (None, oks, sm)
  end.

(** The event leaves the event queue when it is processed. *)
Definition dequeue_event (p : SimpleMemoryParams) (sm : SimpleMemory) (curTick : Z) (accepted : bool)
    (inner : list Arrival) : res (option Packet * list bool * SimpleMemory) :=
  dequeue p (sm_with_dequeue sm None) curTick accepted inner.

Definition sm_recvRespRetry (p : SimpleMemoryParams) (sm : SimpleMemory) (curTick : Z) (accepted : bool)
    (inner : list Arrival) : res (option Packet * list bool * SimpleMemory) :=
  _ ← cassert (retryResp sm);
  dequeue p sm curTick accepted inner.

Definition SimpleMemory_drain (sm : SimpleMemory) : Z * SimpleMemory :=
  if negb (is_nil (packetQueue sm)) then
    (1, mkSimpleMemory (sm_mem sm) (packetQueue sm) (isBusy sm) (retryReq sm) (retryResp sm) (sm_releaseEvent sm)
          (dequeueEvent sm) true (sm_drained sm))
  else (0, sm).

(** *** Runs *)

(** The memory in time, with the requests it accepted, in order, and the responses
    it sent. *)
Record MemSys := mkMemSys { ms_now : Z; ms_sm : SimpleMemory; ms_reqs : list Packet; ms_sent : list Packet }.

Inductive MemEv :=
  | MAdvance (t : Z)
  | MRequest (a : Arrival)
  | MRelease (inner : list Arrival)
  | MDequeue (accepted : bool) (inner : list Arrival)
  | MRespRetry (accepted : bool) (inner : list Arrival)
  | MDrain.

(** The packets of the arrivals that the memory took on: accepted and not left to
    another responder. *)
Fixpoint taken (l : list Arrival) (oks : list bool) : list Packet :=
  match l, oks with
  | a :: l, ok :: oks =>
      if ok && negb (memInhibitAsserted (ar_pkt a)) then reset_delay (ar_pkt a) :: taken l oks else taken l oks
  | _, _ => []
  end.

Definition mem_step (p : SimpleMemoryParams) (s : MemSys) (e : MemEv) : res MemSys :=
  let now := ms_now s in
  let sm := ms_sm s in
  match e with
  | MAdvance t => Ret (mkMemSys t sm (ms_reqs s) (ms_sent s))
  | MRequest a =>
      '(ok, sm) ← sm_recvTimingReq p sm a now;
      Ret (mkMemSys now sm (ms_reqs s ++ taken [a] [ok]) (ms_sent s))
  | MRelease inner =>
      '(oks, sm) ← release p sm now inner;
      Ret (mkMemSys now sm (ms_reqs s ++ taken inner oks) (ms_sent s))
  | MDequeue accepted inner =>
      '(r, oks, sm) ← dequeue_event p sm now accepted inner;
      Ret (mkMemSys now sm (ms_reqs s ++ taken inner oks) (ms_sent s ++ option_list r))
  | MRespRetry accepted inner =>
      '(r, oks, sm) ← sm_recvRespRetry p sm now accepted inner;
      Ret (mkMemSys now sm (ms_reqs s ++ taken inner oks) (ms_sent s ++ option_list r))
  | MDrain => Ret (mkMemSys now (SimpleMemory_drain sm).2 (ms_reqs s) (ms_sent s))
  end.

(** A request that fits the memory, with times that stay below the largest tick. *)
Record arrival_ok (p : SimpleMemoryParams) (m : AbstractMemory) (now : Z) (a : Arrival) : Prop := {
  ao_fits : pkt_fits m (ar_pkt a);
  ao_duration : 0 <= ar_duration a /\ now + ar_duration a < 2 ^ 64;
  ao_latency : 0 <= ar_draw a /\ now + (sm_latency p + ar_draw a) < 2 ^ 64
}.

(** What the environment may do: time does not pass a scheduled event, a refused
    response is retried once, and nothing arrives while a response is refused. *)
Definition mem_enabled (p : SimpleMemoryParams) (s : MemSys) (e : MemEv) : Prop :=
  let ok := Forall (arrival_ok p (sm_mem (ms_sm s)) (ms_now s)) in
  match e with
  | MAdvance t => ms_now s <= t /\ (forall u, sm_releaseEvent (ms_sm s) = Some u -> t <= u) /\
                  (forall u, dequeueEvent (ms_sm s) = Some u -> t <= u)
  | MRequest a => ok [a]
  | MRelease inner => sm_releaseEvent (ms_sm s) = Some (ms_now s) /\ ok inner
  | MDequeue accepted inner =>
      dequeueEvent (ms_sm s) = Some (ms_now s) /\ ok inner /\ (accepted = false -> inner = [])
  | MRespRetry accepted inner => retryResp (ms_sm s) = true /\ ok inner /\ (accepted = false -> inner = [])
  | MDrain => True
  end.

Inductive mem_reach (p : SimpleMemoryParams) (m0 : AbstractMemory) : MemSys -> Prop :=
  | mreach_new t : 0 <= t -> mem_reach p m0 (mkMemSys t (SimpleMemory_new m0) [] [])
  | mreach_step s e s' :
      mem_reach p m0 s -> mem_enabled p s e -> mem_step p s e = Ret s' -> mem_reach p m0 s'.

(** The responses of the abstract memory to a sequence of requests. *)
Definition sp_answers (s : memspec) (reqs : list Packet) : list Packet :=
  filter (fun p => cmd_isResponse (pkt_cmd p) = true) (sp_run s reqs).2.

Lemma sp_run_snoc s reqs pkt :
  sp_run s (reqs ++ [pkt]) =
  ((sp_access (sp_run s reqs).1 pkt).1, (sp_run s reqs).2 ++ [(sp_access (sp_run s reqs).1 pkt).2]).
Proof.
  revert s. induction reqs as [|r reqs IH]; intros s; cbn [app sp_run].
  - cbn. by destruct (sp_access s pkt).
  - destruct (sp_access s r) as [s1 r1]. rewrite IH. by destruct (sp_run s1 reqs).
Qed.

Lemma response_cmd c : cmd_isRequest c = true -> cmd_isResponse (if cmd_needsResponse c then responseCommand c else c)
  = cmd_needsResponse c.
Proof. by destruct c; vm_compute. Qed.

Lemma sp_access_cmd s pkt :
  memInhibitAsserted pkt = false ->
  pkt_cmd (sp_access s pkt).2 = if cmd_needsResponse (pkt_cmd pkt) then responseCommand (pkt_cmd pkt) else pkt_cmd pkt.
Proof.
  intros Hi. unfold sp_access. rewrite Hi. pose proof (sp_cmd_pkt_cmd s pkt) as Hc.
  destruct (sp_cmd s pkt) as [s' pkt'].
  cbn [fst snd] in *. unfold respond. rewrite Hc. by destruct (cmd_needsResponse (pkt_cmd pkt)).
Qed.

Lemma sp_answers_snoc s reqs pkt :
  memInhibitAsserted pkt = false -> cmd_isRequest (pkt_cmd pkt) = true ->
  sp_answers s (reqs ++ [pkt]) = sp_answers s reqs ++
    (if cmd_needsResponse (pkt_cmd pkt) then [(sp_access (sp_run s reqs).1 pkt).2] else []).
Proof.
  intros Hi Hq. unfold sp_answers. rewrite sp_run_snoc. cbn [snd]. rewrite filter_app. f_equal.
  rewrite filter_cons, filter_nil.
  rewrite sp_access_cmd by done. rewrite response_cmd by done. by destruct (cmd_needsResponse _).
Qed.

Lemma reset_delay_fits m pkt : pkt_fits m pkt -> pkt_fits m (reset_delay pkt).
Proof. intros [? ? ? ? ? ? ? ? ?]. by split. Qed.

Section simple_memory.
Context (p : SimpleMemoryParams) (s0 : memspec).
Hypothesis latency_ok : 0 <= sm_latency p.

(** What holds also while the memory is calling its neighbour. *)
Record sm_core (now : Z) (sm : SimpleMemory) (reqs sent : list Packet) : Prop := {
  sc_now : 0 <= now;
  sc_busy : match sm_releaseEvent sm with
            | Some t => isBusy sm = true /\ now <= t
            | None => isBusy sm = false
            end;
  sc_retry : retryReq sm = true -> isBusy sm = true;
  sc_mem : mem_repr (sm_mem sm) (sp_run s0 reqs).1;
  sc_log : sp_answers s0 reqs = sent ++ map dp_pkt (packetQueue sm);
  sc_event : forall t, dequeueEvent sm = Some t -> now <= t
}.

(** How the queue changes by requests. *)
Record grew (sm sm' : SimpleMemory) : Prop := {
  gr_queue : packetQueue sm `prefix_of` packetQueue sm';
  gr_retry : retryResp sm' = retryResp sm;
  gr_range : mem_range (sm_mem sm') = mem_range (sm_mem sm);
  gr_waits : retryResp sm = true -> dequeueEvent sm' = dequeueEvent sm;
  gr_sched : retryResp sm = false -> packetQueue sm' <> packetQueue sm -> dequeueEvent sm' <> None;
  gr_same : packetQueue sm' = packetQueue sm -> dequeueEvent sm' = dequeueEvent sm;
  gr_kept : dequeueEvent sm <> None -> dequeueEvent sm' = dequeueEvent sm
}.

Lemma grew_refl sm : grew sm sm.
Proof. by split. Qed.

Lemma grew_trans sm1 sm2 sm3 : grew sm1 sm2 -> grew sm2 sm3 -> grew sm1 sm3.
Proof.
  intros [P1 R1 G1 W1 S1 E1 K1] [P2 R2 G2 W2 S2 E2 K2]. split; try congruence.
  - by etrans.
  - intros H. rewrite W2, W1 by congruence. done.
  - intros H Hne. destruct P1 as [[|x k] E]; [rewrite app_nil_r in E; apply S2; congruence|].
    assert (packetQueue sm2 <> packetQueue sm1) as Hn.
    { intros E'. rewrite E in E'. apply (f_equal length) in E'. rewrite length_app in E'; cbn in E'; lia. }
    pose proof (S1 H Hn). rewrite K2 by done. done.
  - intros H. assert (packetQueue sm2 = packetQueue sm1) as E.
    { apply (anti_symm prefix); [by rewrite <- H|done]. }
    rewrite E2, E1 by congruence. done.
  - intros H. rewrite K2; [by apply K1|]. by rewrite K1.
Qed.

Lemma taken_app l1 o1 l2 o2 : length l1 = length o1 -> taken (l1 ++ l2) (o1 ++ o2) = taken l1 o1 ++ taken l2 o2.
Proof.
  revert o1. induction l1 as [|a l1 IH]; intros [|o o1] H; try done. cbn in *. rewrite IH by lia. by destruct (_ && _).
Qed.

(** A request that is served. *)
Lemma serve_request now sm reqs sent a :
  sm_core now sm reqs sent -> arrival_ok p (sm_mem sm) now a -> memInhibitAsserted (ar_pkt a) = false ->
  retryReq sm = false -> isBusy sm = false ->
  exists sm', sm_recvTimingReq p sm a now = Ret (true, sm') /\
    sm_core now sm' (reqs ++ [reset_delay (ar_pkt a)]) sent /\ grew sm sm'.
Proof.
  intros [Hn Hb Hr Hm Hlog Hev] [Hfit Hd Hlat] Hinh Hrr Hbusy. unfold sm_recvTimingReq. rewrite Hinh, Hrr, Hbusy.
  assert (sm_releaseEvent sm = None) as Hrel by (destruct (sm_releaseEvent sm); [destruct Hb; congruence|done]).
  assert (Hocc : exists b e, occupy sm a now = Ret (sm_busy sm b e) /\
            match e with Some t => b = true /\ now <= t | None => b = false end).
  { unfold occupy. destruct (_ && _) eqn:E.
    - rewrite wrap_small by (unfold inword; lia). rewrite !cassert_true by (rewrite ?Hrel; reflect; done || lia).
      bsimpl. do 2 eexists. split; [done|]. cbn. lia.
    - exists false, None. split; [|done]. destruct sm; cbn in *; subst. done. }
  destruct Hocc as (b & e & -> & He). bsimpl. unfold sm_recvAtomic. cbn [sm_busy sm_mem].
  destruct (mem_access_ok (sm_mem sm) _ (reset_delay (ar_pkt a)) Hm (reset_delay_fits _ _ Hfit)) as (m' & w & -> &
    Hm' & Hrg).
  bsimpl. set (r := (sp_access _ _).2) in *.
  pose proof (sp_answers_snoc s0 reqs (reset_delay (ar_pkt a)) Hinh (pf_request _ _ Hfit)) as Hans.
  assert (Hrun : (sp_run s0 (reqs ++ [reset_delay (ar_pkt a)])).1 = (sp_access (sp_run s0 reqs).1 (reset_delay
    (ar_pkt a))).1)
    by (by rewrite sp_run_snoc).
  change (pkt_cmd (reset_delay (ar_pkt a))) with (pkt_cmd (ar_pkt a)) in Hans.
  destruct (cmd_needsResponse (pkt_cmd (ar_pkt a))) eqn:Enr.
  - unfold sm_enqueue. rewrite (cassert_true (cmd_isResponse _)).
    2: { unfold r. rewrite sp_access_cmd by done. change (pkt_cmd (reset_delay (ar_pkt a))) with (pkt_cmd (ar_pkt a)).
         rewrite response_cmd by apply (pf_request _ _ Hfit). done. }
    bsimpl. cbn [sm_with_mem sm_with_queue sm_busy retryResp dequeueEvent].
    assert (Hlt : u64 (now + getLatency p (ar_draw a)) = now + getLatency p (ar_draw a) /\ 0 <= getLatency p (ar_draw
      a)).
    { unfold getLatency. rewrite (wrap_small 64 (sm_latency p + _)) by (unfold inword; destruct (_ =? 0); lia).
      rewrite wrap_small by (unfold inword; destruct (_ =? 0); lia). split; [done|]. destruct (_ =? 0); lia. }
    destruct Hlt as [-> Hl0]. set (tick := now + getLatency p (ar_draw a)) in *.
    assert (Hlog' : sp_answers s0 (reqs ++ [reset_delay (ar_pkt a)]) = sent ++ map dp_pkt (packetQueue sm ++
      [mkDeferred tick r])).
    { rewrite Hans, Hlog, map_app, (assoc_L (++)). done. }
    destruct (negb (retryResp sm) && not_scheduled (dequeueEvent sm)) eqn:Es.
    + rewrite cassert_true by (apply Z.leb_le; lia). bsimpl. eexists. split; [done|]. split.
      * split; cbn; [done|done|congruence|by rewrite Hrun|exact Hlog'|]. intros t [= <-]. lia.
      * apply andb_true_iff in Es as [E1 E2]. apply negb_true_iff in E1.
        assert (dequeueEvent sm = None) as E3 by (by destruct (dequeueEvent sm)).
        split; cbn; try done; try congruence; [by eexists|]. intros E. apply (f_equal length) in E.
        rewrite length_app in E; cbn in E; lia.
    + eexists. split; [done|]. split; [split; cbn; [done|done|congruence|by rewrite Hrun|exact Hlog'|done]|].
      split; cbn; try done; [by eexists|]. intros E1 _ E2. rewrite E1, E2 in Es. done.
  - bsimpl. eexists. split; [done|]. split; [|by split]. rewrite app_nil_r in Hans.
    split; cbn; [done|done|congruence|by rewrite Hrun|exact (eq_trans Hans Hlog)|done].
Qed.

Lemma request_any now sm reqs sent a :
  sm_core now sm reqs sent -> arrival_ok p (sm_mem sm) now a ->
  exists ok sm', sm_recvTimingReq p sm a now = Ret (ok, sm') /\
    sm_core now sm' (reqs ++ taken [a] [ok]) sent /\ grew sm sm'.
Proof.
  intros Hc Ha. destruct (memInhibitAsserted (ar_pkt a)) eqn:Hinh.
  { exists true, sm. unfold sm_recvTimingReq. cbn [taken]. rewrite Hinh, app_nil_r. auto using grew_refl. }
  destruct (retryReq sm) eqn:Hrr.
  { exists false, sm. unfold sm_recvTimingReq. rewrite Hinh, Hrr, app_nil_r. auto using grew_refl. }
  destruct (isBusy sm) eqn:Hbusy.
  - eexists false, _. unfold sm_recvTimingReq. rewrite Hinh, Hrr, Hbusy. split; [done|]. cbn [taken]. rewrite app_nil_r.
    split; [|by split]. destruct Hc. by split.
  - destruct (serve_request now sm reqs sent a) as (sm' & -> & Hc' & Hg); [done..|].
    exists true, sm'. cbn [taken]. rewrite Hinh. auto.
Qed.

Lemma arrival_ok_range m m' now a :
  mem_range m' = mem_range m -> arrival_ok p m now a -> arrival_ok p m' now a.
Proof. intros E [? ? ?]. split; [by eapply pkt_fits_range|done|done]. Qed.

Lemma arrivals_any now inner : forall sm reqs sent,
  sm_core now sm reqs sent -> Forall (arrival_ok p (sm_mem sm) now) inner ->
  exists oks sm', sm_arrivals p sm inner now = Ret (oks, sm') /\
    sm_core now sm' (reqs ++ taken inner oks) sent /\ grew sm sm'.
Proof.
  induction inner as [|a inner IH]; intros sm reqs sent Hc Ha; cbn [sm_arrivals].
  - exists [], sm. cbn [taken]. rewrite app_nil_r. auto using grew_refl.
  - apply Forall_cons in Ha as [Ha Hin].
    destruct (request_any now sm reqs sent a Hc Ha) as (ok & sm1 & -> & Hc1 & Hg1). bsimpl.
    destruct (IH sm1 _ sent Hc1) as (oks & sm2 & -> & Hc2 & Hg2).
    { eapply Forall_impl; [exact Hin|]. intros x. apply arrival_ok_range, (gr_range _ _ Hg1). }
    bsimpl. exists (ok :: oks), sm2. split; [done|]. split; [|by eapply grew_trans].
    rewrite <- (assoc_L (++)), <- (taken_app [a] [ok]) in Hc2 by done. exact Hc2.
Qed.

(** Between steps: a queued response will be sent, by the event or after a retry. *)
Record sm_inv (now : Z) (sm : SimpleMemory) (reqs sent : list Packet) : Prop := {
  si_core : sm_core now sm reqs sent;
  si_idle : packetQueue sm = [] -> dequeueEvent sm = None /\ retryResp sm = false;
  si_sends : packetQueue sm <> [] -> retryResp sm = false -> dequeueEvent sm <> None;
  si_waits : retryResp sm = true -> dequeueEvent sm = None
}.

Lemma grew_inv now sm sm' reqs reqs' sent :
  sm_inv now sm reqs sent -> sm_core now sm' reqs' sent -> grew sm sm' -> sm_inv now sm' reqs' sent.
Proof.
  intros [_ Hi Hs Hw] Hc [P R _ W S E K]. split; [done|..].
  - intros Hq. rewrite Hq in P. apply prefix_nil_inv in P. destruct (Hi P) as [? ?].
    rewrite E, R by congruence. done.
  - intros Hq Hr. rewrite R in Hr. destruct P as [[|x k] Hk].
    + rewrite app_nil_r in Hk. rewrite E by done. apply Hs; congruence.
    + apply S; [done|]. rewrite Hk. intros Hx. apply (f_equal length) in Hx. rewrite length_app in Hx; cbn in Hx; lia.
  - intros Hr. rewrite R in Hr. rewrite W by done. by apply Hw.
Qed.

(** The end of [dequeue], for either caller. *)
Lemma dequeue_ok now sm reqs sent accepted inner d q :
  sm_core now sm reqs sent -> packetQueue sm = d :: q -> dequeueEvent sm = None ->
  Forall (arrival_ok p (sm_mem sm) now) inner -> (accepted = false -> inner = []) ->
  exists r oks sm', dequeue p sm now accepted inner = Ret (r, oks, sm') /\
    r = (if accepted then Some (dp_pkt d) else None) /\
    sm_inv now sm' (reqs ++ taken inner oks) (sent ++ option_list r).
Proof.
  intros Hc Hq He Hin Hacc. unfold dequeue. rewrite Hq. destruct accepted; cbn [negb].
  - destruct (arrivals_any now inner sm reqs sent Hc Hin) as (oks & sm1 & -> & [Hn Hb Hr Hm Hlog Hev] & Hg). bsimpl.
    destruct Hg as [[k Hk] R _ W S E K]. rewrite Hq in Hk. cbn in Hk.
    unfold dequeue_next. cbn [sm_with_retryResp packetQueue]. rewrite Hk in Hlog |- *. cbn in Hlog.
    replace (sent ++ dp_pkt d :: _) with ((sent ++ [dp_pkt d]) ++ map dp_pkt (q ++ k)) in Hlog
      by (rewrite <- (assoc_L (++)); done).
    destruct (q ++ k) as [|d' q'] eqn:Eqk.
    + assert (dequeueEvent sm1 = None) as He1.
      { rewrite <- He. apply E. rewrite Hk, Hq. apply app_eq_nil in Eqk as [-> _]. done. }
      bsimpl. do 3 eexists. split; [done|]. split; [done|]. cbn [option_list].
      destruct (sm_drain _); split; cbn; try done; split; cbn; done.
    + bsimpl. do 3 eexists. split; [done|]. split; [done|]. cbn [option_list].
      split; cbn; try done. split; cbn; try done. intros t [= <-]. lia.
  - rewrite (Hacc eq_refl). cbn. do 3 eexists. split; [done|]. split; [done|]. rewrite !app_nil_r.
    destruct Hc. split; cbn; [by split|intros; congruence|intros; congruence|done].
Qed.

Lemma mem_step_ok s e :
  sm_inv (ms_now s) (ms_sm s) (ms_reqs s) (ms_sent s) -> mem_enabled p s e ->
  exists s', mem_step p s e = Ret s' /\ sm_inv (ms_now s') (ms_sm s') (ms_reqs s') (ms_sent s').
Proof.
  destruct s as [now sm reqs sent]. intros Hi He. pose proof Hi as [Hc Hidle Hs Hw].
  unfold mem_step. cbn [ms_now ms_sm ms_reqs ms_sent] in *. destruct e as [t|a|inner|acc inner|acc inner|]; cbn in He.
  - destruct He as (Hn & Hr & Hd). eexists. split; [done|]. cbn. destruct Hc as [H0 Hb ? ? ? ?].
    split; [|done..]. split; [lia| |done..].
    destruct (sm_releaseEvent sm) as [u|]; [|done]. destruct Hb. split; [done|]. by apply Hr.
  - rewrite Forall_singleton in He. destruct (request_any now sm reqs sent a Hc He) as (ok & sm' & -> & Hc' & Hg).
    eexists. split; [done|]. cbn [ms_now ms_sm ms_reqs ms_sent]. by eapply grew_inv.
  - destruct He as [Hrel Hin]. destruct Hc as [H0 Hb Hrt Hm Hlog Hev]. rewrite Hrel in Hb. destruct Hb as [Hb _].
    unfold release. cbn [sm_busy isBusy]. rewrite Hb. cbn [cassert]. bsimpl.
    change (retryReq (sm_busy _ _ _)) with (retryReq sm). destruct (retryReq sm) eqn:Hrr.
    + match goal with |- context [sm_arrivals p ?x inner now] =>
        destruct (arrivals_any now inner x reqs sent) as (oks & sm' & -> & Hc' & Hg); [by split|done|] end.
      bsimpl. eexists. split; [reflexivity|]. cbn [ms_now ms_sm ms_reqs ms_sent].
      eapply grew_inv; [|done|exact Hg]. split; cbn; [by split|done..].
    + eexists. split; [done|]. cbn [ms_now ms_sm ms_reqs ms_sent].
      assert (taken inner [] = []) as -> by (by destruct inner). rewrite app_nil_r.
      split; cbn; [split; cbn; [done|done|congruence|done..]|done..].
  - destruct He as (Hd & Hin & Hacc). destruct (packetQueue sm) as [|d q] eqn:Hq; [destruct Hidle; congruence|].
    unfold dequeue_event.
    edestruct (dequeue_ok now (sm_with_dequeue sm None) reqs sent acc inner d q) as (r & oks & sm' & -> & -> & Hi');
      [|done|done|done|done|].
    { destruct Hc. by split; cbn. }
    bsimpl. eexists. split; [done|]. done.
  - destruct He as (Hr & Hin & Hacc). destruct (packetQueue sm) as [|d q] eqn:Hq; [destruct Hidle; congruence|].
    unfold sm_recvRespRetry. rewrite Hr. cbn [cassert]. bsimpl.
    edestruct (dequeue_ok now sm reqs sent acc inner d q) as (r & oks & sm' & -> & -> & Hi');
      [done|done|by apply Hw|done|done|].
    bsimpl. eexists. split; [done|]. done.
  - eexists. split; [done|]. cbn. unfold SimpleMemory_drain. destruct Hc.
    destruct (packetQueue sm) as [|d q] eqn:Hq; cbn; [done|]. split; [split|..]; cbn; rewrite ?Hq; done.
Qed.

Lemma mem_reach_inv m0 s :
  mem_repr m0 s0 -> mem_reach p m0 s -> sm_inv (ms_now s) (ms_sm s) (ms_reqs s) (ms_sent s).
Proof.
  intros Hm. induction 1 as [t Ht|s e s' _ IH He Hs].
  - by split; cbn.
  - destruct (mem_step_ok s e IH He) as (s1 & Hs1 & ?). rewrite Hs in Hs1. by injection Hs1 as <-.
Qed.
End simple_memory.

(** C17. A simple memory in timing mode, under any interleaving of requests (also
    while it is sending), releases, responses, refusals and retries: nothing the
    environment may do fails an assertion; the responses sent so far, followed by
    those in the queue, are exactly the responses of the abstract memory to the
    accepted requests, in the order of acceptance; and a queued response is sent
    by the scheduled event, which is not in the past, unless it waits for the
    receiver's retry; a refused request finds the memory busy until an event
    that will release it. *)
Theorem simple_memory_serves p m0 s0 s :
  0 <= sm_latency p -> mem_repr m0 s0 -> mem_reach p m0 s ->
  (forall e, mem_enabled p s e -> exists s', mem_step p s e = Ret s') /\
  sp_answers s0 (ms_reqs s) = ms_sent s ++ map dp_pkt (packetQueue (ms_sm s)) /\
  mem_repr (sm_mem (ms_sm s)) (sp_run s0 (ms_reqs s)).1 /\
  (packetQueue (ms_sm s) <> [] -> retryResp (ms_sm s) = false ->
   exists t, dequeueEvent (ms_sm s) = Some t /\ ms_now s <= t) /\
  (retryReq (ms_sm s) = true -> exists t, sm_releaseEvent (ms_sm s) = Some t /\ ms_now s <= t).
Proof.
  intros Hl Hm Hr. pose proof (mem_reach_inv p s0 Hl m0 s Hm Hr) as Hi.
  pose proof Hi as [[? Hb Hrt ? ? Hev] _ Hs _]. split_and!; [|done|done|..].
  - intros e He. destruct (mem_step_ok p s0 Hl s e Hi He) as (s' & ? & _). eauto.
  - intros Hq Hrr. specialize (Hs Hq Hrr). destruct (dequeueEvent (ms_sm s)) as [t|] eqn:E; [|done]. exists t. auto.
  - intros Hrr. specialize (Hrt Hrr). destruct (sm_releaseEvent (ms_sm s)) as [t|]; [|congruence].
    exists t. split; [done|]. apply Hb.
Qed.

Definition demo_params : SimpleMemoryParams := mkSimpleMemoryParams 30 0.
Definition demo_read_arrival : Arrival := mkArrival (demo_pkt 1 0x20 ReadReq [9; 9]) 0 0.
Definition demo_write_arrival : Arrival := mkArrival (demo_pkt 2 0x20 WriteReq [7; 8]) 5 0.

Lemma demo_arrivals_ok : arrival_ok demo_params zero_memory 10 demo_read_arrival.
Proof. split; [apply (Forall_lookup_1 _ _ 3%nat _ demo_accesses_fit); reflexivity|cbn; lia|cbn; lia]. Qed.

Definition demo_served : MemSys :=
  Eval vm_compute in
    match mem_step demo_params (mkMemSys 10 (SimpleMemory_new zero_memory) [] []) (MRequest demo_read_arrival) with
    | Ret s => s
    | Err _ => mkMemSys 0 (SimpleMemory_new zero_memory) [] []
    end.

Lemma simple_memory_serves_witness :
  dequeueEvent (ms_sm demo_served) = Some 40 /\
  sp_answers zero_spec (ms_reqs demo_served) = map dp_pkt (packetQueue (ms_sm demo_served)).
Proof.
  split; [reflexivity|].
  destruct (simple_memory_serves demo_params zero_memory zero_spec demo_served) as (_ & H & _);
    [cbn; lia|exact zero_memory_repr| |exact H].
  apply (mreach_step _ _ (mkMemSys 10 (SimpleMemory_new zero_memory) [] []) (MRequest demo_read_arrival));
    [constructor; lia| |vm_compute; reflexivity].
  constructor; [exact demo_arrivals_ok|constructor].
Defined.

(** A functional read after a timing read and a timing write of the same bytes:
    the memory holds the new bytes, but the response of the older read, still in
    the queue, is taken for newer data, so the functional read returns the old
    ones. *)
Lemma functional_read_stale :
  exists sm1 sm2 sm3 pkt,
    sm_recvTimingReq demo_params (SimpleMemory_new zero_memory) demo_read_arrival 10 = Ret (true, sm1) /\
    sm_recvTimingReq demo_params sm1 demo_write_arrival 12 = Ret (true, sm2) /\
    sm_recvFunctional sm2 (demo_pkt 1 0x20 ReadReq [9; 9]) = Ret (sm3, pkt) /\
    pkt_data pkt = Some [0; 0] /\ (pmemAddr (sm_mem sm3) ≫= fun d => d !! 0x20%nat) = Some 7.
Proof.
  eexists _, _, _, _. split; [vm_compute; reflexivity|]. split; [vm_compute; reflexivity|].
  split; [vm_compute; reflexivity|]. vm_compute. done.
Qed.
