(* ===== verification/DramCtrl.v ===== *)
(** * The DRAM controller: [mem/dram_ctrl.hh], [mem/dram_ctrl.cc]

    Reads and writes are split into bursts and wait in two queues; writes are answered
    at once and merged with those that wait.  An event takes the next burst, chosen by
    the scheduling policy, turns the bus around between reads and writes, and computes
    from the constraints of the banks when the row is opened and the data moves.  Each
    rank has a machine for its refreshes and one for its power state.

    Banks are identified by the numbers of their rank and bank, burst helpers by their
    position in a store.  An event is the tick it is scheduled for; the event that is
    being processed is no longer scheduled.  The calls of the port, of the drain manager
    and of the power library, which is told every command for a bank, are listed; the
    ticks of the commands are not converted to cycles.  The statistics and the deletion
    of packets are left out; the packet of a burst comes with its header delay. *)

From S2P Require Import Prelude Handler IntMath AddrRange Packet Memory.
Local Open Scope Z_scope.

(** ** Parameters *)

Inductive MemSched := fcfs | frfcfs.
Inductive AddrMap := RoRaBaChCo | RoRaBaCoCh | RoCoRaBaCh.
Inductive PageManage := page_open | open_adaptive | page_close | close_adaptive.

#[export] Instance PageManage_eq_dec : EqDecision PageManage.
Proof. solve_decision. Defined.

Record DRAMTiming := mkDRAMTiming {
  tWTR : Z; tRTW : Z; tCS : Z; tBURST : Z; tCCD_L : Z; tRCD : Z; tCL : Z; tRP : Z; tRAS : Z;
  tWR : Z; tRTP : Z; tRFC : Z; tREFI : Z; tRRD : Z; tRRD_L : Z; tXAW : Z
}.

(** The parameters of a controller as they are configured. *)
Record DRAMCtrlParams := mkDRAMCtrlParams {
  device_bus_width : Z; burst_length : Z; device_rowbuffer_size : Z; devices_per_rank : Z; ranks_per_channel : Z;
  bank_groups_per_rank : Z; banks_per_rank : Z; p_channels : Z; read_buffer_size : Z; write_buffer_size : Z;
  write_high_thresh_perc : Z; write_low_thresh_perc : Z; min_writes_per_switch : Z; activation_limit : Z;
  mem_sched_policy : MemSched; addr_mapping : AddrMap; page_policy : PageManage; max_accesses_per_row : Z;
  static_frontend_latency : Z; static_backend_latency : Z; timing : DRAMTiming
}.

(** The constants of a controller. *)
Record DRAMConfig := mkDRAMConfig {
  burstSize : Z; rowBufferSize : Z; columnsPerRowBuffer : Z; columnsPerStripe : Z; ranksPerChannel : Z;
  bankGroupsPerRank : Z; bankGroupArch : bool; banksPerRank : Z; channels : Z; rowsPerBank : Z;
  readBufferSize : Z; writeBufferSize : Z; writeHighThreshold : Z; writeLowThreshold : Z; minWritesPerSwitch : Z;
  activationLimit : Z; memSchedPolicy : MemSched; addrMapping : AddrMap; pageMgmt : PageManage;
  maxAccessesPerRow : Z; frontendLatency : Z; backendLatency : Z; T : DRAMTiming
}.

(** ** Banks and ranks *)

Definition NO_ROW : Z := 2 ^ 32 - 1.

Record Bank := mkBank {
  openRow : Z; bk_bank : Z; bankgr : Z;
  colAllowedAt : Z; preAllowedAt : Z; actAllowedAt : Z;
  rowAccesses : Z; bytesAccessed : Z
}.
Definition Bank_new : Bank := mkBank NO_ROW 0 0 0 0 0 0 0.

Definition b_with_row (b : Bank) (r : Z) : Bank :=
  mkBank r (bk_bank b) (bankgr b) (colAllowedAt b) (preAllowedAt b) (actAllowedAt b) (rowAccesses b) (bytesAccessed b).
Definition b_with_col (b : Bank) (t : Z) : Bank :=
  mkBank (openRow b) (bk_bank b) (bankgr b) t (preAllowedAt b) (actAllowedAt b) (rowAccesses b) (bytesAccessed b).
Definition b_with_pre (b : Bank) (t : Z) : Bank :=
  mkBank (openRow b) (bk_bank b) (bankgr b) (colAllowedAt b) t (actAllowedAt b) (rowAccesses b) (bytesAccessed b).
Definition b_with_act (b : Bank) (t : Z) : Bank :=
  mkBank (openRow b) (bk_bank b) (bankgr b) (colAllowedAt b) (preAllowedAt b) t (rowAccesses b) (bytesAccessed b).
Definition b_with_counts (b : Bank) (n m : Z) : Bank :=
  mkBank (openRow b) (bk_bank b) (bankgr b) (colAllowedAt b) (preAllowedAt b) (actAllowedAt b) n m.

Inductive PowerState := PWR_IDLE | PWR_REF | PWR_PRE_PDN | PWR_ACT | PWR_ACT_PDN.
Inductive RefreshState := REF_IDLE | REF_DRAIN | REF_PRE | REF_RUN.

#[export] Instance PowerState_eq_dec : EqDecision PowerState.
Proof. solve_decision. Defined.
#[export] Instance RefreshState_eq_dec : EqDecision RefreshState.
Proof. solve_decision. Defined.

Record Rank := mkRank {
  pwrStateTrans : PowerState; pwrState : PowerState; pwrStateTick : Z;
  refreshState : RefreshState; refreshDueAt : Z; rk_rank : Z;
  banks : list Bank; numBanksActive : Z; actTicks : list Z;
  activateEvent : option Z; prechargeEvent : option Z; refreshEvent : option Z; powerEvent : option Z
}.
Definition Rank_new : Rank := mkRank PWR_IDLE PWR_IDLE 0 REF_IDLE 0 0 [] 0 [] None None None None.

Definition r_with_power (r : Rank) (tr st : PowerState) (t : Z) : Rank :=
  mkRank tr st t (refreshState r) (refreshDueAt r) (rk_rank r) (banks r) (numBanksActive r) (actTicks r)
    (activateEvent r) (prechargeEvent r) (refreshEvent r) (powerEvent r).
Definition r_with_refresh (r : Rank) (st : RefreshState) (due : Z) : Rank :=
  mkRank (pwrStateTrans r) (pwrState r) (pwrStateTick r) st due (rk_rank r) (banks r) (numBanksActive r) (actTicks r)
    (activateEvent r) (prechargeEvent r) (refreshEvent r) (powerEvent r).
Definition r_with_banks (r : Rank) (bs : list Bank) (n : Z) : Rank :=
  mkRank (pwrStateTrans r) (pwrState r) (pwrStateTick r) (refreshState r) (refreshDueAt r) (rk_rank r) bs n (actTicks r)
    (activateEvent r) (prechargeEvent r) (refreshEvent r) (powerEvent r).
Definition r_with_actTicks (r : Rank) (l : list Z) : Rank :=
  mkRank (pwrStateTrans r) (pwrState r) (pwrStateTick r) (refreshState r) (refreshDueAt r) (rk_rank r) (banks r) (numBanksActive r) l
    (activateEvent r) (prechargeEvent r) (refreshEvent r) (powerEvent r).
Definition r_with_events (r : Rank) (a p f w : option Z) : Rank :=
  mkRank (pwrStateTrans r) (pwrState r) (pwrStateTick r) (refreshState r) (refreshDueAt r) (rk_rank r) (banks r) (numBanksActive r) (actTicks r)
    a p f w.

Definition isAvailable (r : Rank) : bool := bool_decide (refreshState r = REF_IDLE).

(** ** Scheduling of events *)

Definition schedule_at (ev : option Z) (when now : Z) : res (option Z) :=
  _ ← cassert (now <=? when);
  _ ← cassert (match ev with None => true | Some _ => false end);
  Ret (Some when).
Definition reschedule_at (ev : option Z) (when now : Z) : res (option Z) :=
  _ ← cassert (now <=? when);
  _ ← cassert (match ev with None => false | Some _ => true end);
  Ret (Some when).

(** Unsigned division, whose operands the callers do not check. *)
Definition udiv (a b : Z) : res Z := if b =? 0 then Err DivByZero else Ret (a / b).
Definition umod (a b : Z) : res Z := if b =? 0 then Err DivByZero else Ret (a mod b).

(** ** Bursts *)

Record BurstHelper := mkBurstHelper { burstCount : Z; burstsServiced : Z }.

Record DRAMPacket := mkDRAMPacket {
  entryTime : Z; readyTime : Z; dp_pkt : Packet; dp_headerDelay : Z; isRead : bool;
  dp_rank : Z; dp_bank : Z; dp_row : Z; bankId : Z; dp_addr : Z; dp_size : Z; burstHelper : option nat
}.
Definition dp_with_ready (d : DRAMPacket) (t : Z) : DRAMPacket :=
  mkDRAMPacket (entryTime d) t (dp_pkt d) (dp_headerDelay d) (isRead d) (dp_rank d) (dp_bank d) (dp_row d) (bankId d) (dp_addr d) (dp_size d) (burstHelper d).
Definition dp_with_range (d : DRAMPacket) (a n : Z) : DRAMPacket :=
  mkDRAMPacket (entryTime d) (readyTime d) (dp_pkt d) (dp_headerDelay d) (isRead d) (dp_rank d) (dp_bank d) (dp_row d) (bankId d) a n (burstHelper d).
Definition dp_with_helper (d : DRAMPacket) (h : option nat) : DRAMPacket :=
  mkDRAMPacket (entryTime d) (readyTime d) (dp_pkt d) (dp_headerDelay d) (isRead d) (dp_rank d) (dp_bank d) (dp_row d) (bankId d) (dp_addr d) (dp_size d) h.

Inductive BusState := READ | READ_TO_WRITE | WRITE | WRITE_TO_READ.
#[export] Instance BusState_eq_dec : EqDecision BusState.
Proof. solve_decision. Defined.

(** The commands a rank gets; one for all banks has the number 0. *)
Inductive MemCommand := CMD_ACT | CMD_PRE | CMD_RD | CMD_WR | CMD_PREA | CMD_REF.
Record DramCmd := mkDramCmd { cmd_kind : MemCommand; cmd_rank : Z; cmd_bank : Z; cmd_tick : Z }.

(** Calls of the port, of the drain manager and of the power library. *)
Inductive DOut := DramResp (p : Packet) (when : Z) | DramRetry | DramDrained | DramCommand (x : DramCmd).
Definition commands (l : list DramCmd) : list DOut := DramCommand <$> l.

Record DRAMCtrl := mkDRAMCtrl {
  d_mem : AbstractMemory;
  isTimingMode : bool; retryRdReq : bool; retryWrReq : bool; busState : BusState;
  readQueue : list DRAMPacket; writeQueue : list DRAMPacket; respQueue : list DRAMPacket;
  helpers : list BurstHelper; ranks : list Rank;
  nextReqEvent : option Z; respondEvent : option Z; d_drainManager : bool;
  writesThisTime : Z; readsThisTime : Z;
  busBusyUntil : Z; prevArrival : Z; nextReqTime : Z; activeRank : Z
}.

Definition d_with_mem (s : DRAMCtrl) (x : AbstractMemory) : DRAMCtrl :=
  mkDRAMCtrl x (isTimingMode s) (retryRdReq s) (retryWrReq s) (busState s) (readQueue s) (writeQueue s) (respQueue s) (helpers s) (ranks s) (nextReqEvent s)
    (respondEvent s) (d_drainManager s) (writesThisTime s) (readsThisTime s) (busBusyUntil s) (prevArrival s) (nextReqTime s) (activeRank s).
Definition d_with_mode (s : DRAMCtrl) (x : bool) : DRAMCtrl :=
  mkDRAMCtrl (d_mem s) x (retryRdReq s) (retryWrReq s) (busState s) (readQueue s) (writeQueue s) (respQueue s) (helpers s) (ranks s) (nextReqEvent s)
    (respondEvent s) (d_drainManager s) (writesThisTime s) (readsThisTime s) (busBusyUntil s) (prevArrival s) (nextReqTime s) (activeRank s).
Definition d_with_retryRd (s : DRAMCtrl) (x : bool) : DRAMCtrl :=
  mkDRAMCtrl (d_mem s) (isTimingMode s) x (retryWrReq s) (busState s) (readQueue s) (writeQueue s) (respQueue s) (helpers s) (ranks s) (nextReqEvent s)
    (respondEvent s) (d_drainManager s) (writesThisTime s) (readsThisTime s) (busBusyUntil s) (prevArrival s) (nextReqTime s) (activeRank s).
Definition d_with_retryWr (s : DRAMCtrl) (x : bool) : DRAMCtrl :=
  mkDRAMCtrl (d_mem s) (isTimingMode s) (retryRdReq s) x (busState s) (readQueue s) (writeQueue s) (respQueue s) (helpers s) (ranks s) (nextReqEvent s)
    (respondEvent s) (d_drainManager s) (writesThisTime s) (readsThisTime s) (busBusyUntil s) (prevArrival s) (nextReqTime s) (activeRank s).
Definition d_with_bus (s : DRAMCtrl) (x : BusState) : DRAMCtrl :=
  mkDRAMCtrl (d_mem s) (isTimingMode s) (retryRdReq s) (retryWrReq s) x (readQueue s) (writeQueue s) (respQueue s) (helpers s) (ranks s) (nextReqEvent s)
    (respondEvent s) (d_drainManager s) (writesThisTime s) (readsThisTime s) (busBusyUntil s) (prevArrival s) (nextReqTime s) (activeRank s).
Definition d_with_read (s : DRAMCtrl) (x : list DRAMPacket) : DRAMCtrl :=
  mkDRAMCtrl (d_mem s) (isTimingMode s) (retryRdReq s) (retryWrReq s) (busState s) x (writeQueue s) (respQueue s) (helpers s) (ranks s) (nextReqEvent s)
    (respondEvent s) (d_drainManager s) (writesThisTime s) (readsThisTime s) (busBusyUntil s) (prevArrival s) (nextReqTime s) (activeRank s).
Definition d_with_write (s : DRAMCtrl) (x : list DRAMPacket) : DRAMCtrl :=
  mkDRAMCtrl (d_mem s) (isTimingMode s) (retryRdReq s) (retryWrReq s) (busState s) (readQueue s) x (respQueue s) (helpers s) (ranks s) (nextReqEvent s)
    (respondEvent s) (d_drainManager s) (writesThisTime s) (readsThisTime s) (busBusyUntil s) (prevArrival s) (nextReqTime s) (activeRank s).
Definition d_with_resp (s : DRAMCtrl) (x : list DRAMPacket) : DRAMCtrl :=
  mkDRAMCtrl (d_mem s) (isTimingMode s) (retryRdReq s) (retryWrReq s) (busState s) (readQueue s) (writeQueue s) x (helpers s) (ranks s) (nextReqEvent s)
    (respondEvent s) (d_drainManager s) (writesThisTime s) (readsThisTime s) (busBusyUntil s) (prevArrival s) (nextReqTime s) (activeRank s).
Definition d_with_helpers (s : DRAMCtrl) (x : list BurstHelper) : DRAMCtrl :=
  mkDRAMCtrl (d_mem s) (isTimingMode s) (retryRdReq s) (retryWrReq s) (busState s) (readQueue s) (writeQueue s) (respQueue s) x (ranks s) (nextReqEvent s)
    (respondEvent s) (d_drainManager s) (writesThisTime s) (readsThisTime s) (busBusyUntil s) (prevArrival s) (nextReqTime s) (activeRank s).
Definition d_with_ranks (s : DRAMCtrl) (x : list Rank) : DRAMCtrl :=
  mkDRAMCtrl (d_mem s) (isTimingMode s) (retryRdReq s) (retryWrReq s) (busState s) (readQueue s) (writeQueue s) (respQueue s) (helpers s) x (nextReqEvent s)
    (respondEvent s) (d_drainManager s) (writesThisTime s) (readsThisTime s) (busBusyUntil s) (prevArrival s) (nextReqTime s) (activeRank s).
Definition d_with_nextReq (s : DRAMCtrl) (x : option Z) : DRAMCtrl :=
  mkDRAMCtrl (d_mem s) (isTimingMode s) (retryRdReq s) (retryWrReq s) (busState s) (readQueue s) (writeQueue s) (respQueue s) (helpers s) (ranks s) x
    (respondEvent s) (d_drainManager s) (writesThisTime s) (readsThisTime s) (busBusyUntil s) (prevArrival s) (nextReqTime s) (activeRank s).
Definition d_with_respond (s : DRAMCtrl) (x : option Z) : DRAMCtrl :=
  mkDRAMCtrl (d_mem s) (isTimingMode s) (retryRdReq s) (retryWrReq s) (busState s) (readQueue s) (writeQueue s) (respQueue s) (helpers s) (ranks s) (nextReqEvent s)
    x (d_drainManager s) (writesThisTime s) (readsThisTime s) (busBusyUntil s) (prevArrival s) (nextReqTime s) (activeRank s).
Definition d_with_drain (s : DRAMCtrl) (x : bool) : DRAMCtrl :=
  mkDRAMCtrl (d_mem s) (isTimingMode s) (retryRdReq s) (retryWrReq s) (busState s) (readQueue s) (writeQueue s) (respQueue s) (helpers s) (ranks s) (nextReqEvent s)
    (respondEvent s) x (writesThisTime s) (readsThisTime s) (busBusyUntil s) (prevArrival s) (nextReqTime s) (activeRank s).
Definition d_with_turn (s : DRAMCtrl) (x : Z) (y : Z) : DRAMCtrl :=
  mkDRAMCtrl (d_mem s) (isTimingMode s) (retryRdReq s) (retryWrReq s) (busState s) (readQueue s) (writeQueue s) (respQueue s) (helpers s) (ranks s) (nextReqEvent s)
    (respondEvent s) (d_drainManager s) x y (busBusyUntil s) (prevArrival s) (nextReqTime s) (activeRank s).
Definition d_with_busy (s : DRAMCtrl) (x : Z) : DRAMCtrl :=
  mkDRAMCtrl (d_mem s) (isTimingMode s) (retryRdReq s) (retryWrReq s) (busState s) (readQueue s) (writeQueue s) (respQueue s) (helpers s) (ranks s) (nextReqEvent s)
    (respondEvent s) (d_drainManager s) (writesThisTime s) (readsThisTime s) x (prevArrival s) (nextReqTime s) (activeRank s).
Definition d_with_arrival (s : DRAMCtrl) (x : Z) : DRAMCtrl :=
  mkDRAMCtrl (d_mem s) (isTimingMode s) (retryRdReq s) (retryWrReq s) (busState s) (readQueue s) (writeQueue s) (respQueue s) (helpers s) (ranks s) (nextReqEvent s)
    (respondEvent s) (d_drainManager s) (writesThisTime s) (readsThisTime s) (busBusyUntil s) x (nextReqTime s) (activeRank s).
Definition d_with_next (s : DRAMCtrl) (x : Z) : DRAMCtrl :=
  mkDRAMCtrl (d_mem s) (isTimingMode s) (retryRdReq s) (retryWrReq s) (busState s) (readQueue s) (writeQueue s) (respQueue s) (helpers s) (ranks s) (nextReqEvent s)
    (respondEvent s) (d_drainManager s) (writesThisTime s) (readsThisTime s) (busBusyUntil s) (prevArrival s) x (activeRank s).
Definition d_with_active (s : DRAMCtrl) (x : Z) : DRAMCtrl :=
  mkDRAMCtrl (d_mem s) (isTimingMode s) (retryRdReq s) (retryWrReq s) (busState s) (readQueue s) (writeQueue s) (respQueue s) (helpers s) (ranks s) (nextReqEvent s)
    (respondEvent s) (d_drainManager s) (writesThisTime s) (readsThisTime s) (busBusyUntil s) (prevArrival s) (nextReqTime s) x.

(** ** The constructor *)

(** [rank->banks[b]] of a new rank. *)
Definition bank_new (group_arch : bool) (groups : Z) (b : nat) : Bank :=
  let gr := if group_arch then Z.of_nat b mod groups else Z.of_nat b in
  mkBank NO_ROW (u8 (Z.of_nat b)) (u8 gr) 0 0 0 0 0.
Definition rank_new (group_arch : bool) (groups nbanks limit : Z) (i : nat) : Rank :=
  mkRank PWR_IDLE PWR_IDLE 0 REF_IDLE 0 (u8 (Z.of_nat i))
    (bank_new group_arch groups <$> seq 0 (Z.to_nat nbanks)) 0 (replicate (Z.to_nat limit) 0) None None None None.

Definition fatal_if (b : bool) : res unit := if b then Err Fatal else Ret tt.

(** The thresholds are computed with a division of doubles by 100, which is exact up to
    the truncation. *)
Definition DRAMCtrl_new (p : DRAMCtrlParams) (m : AbstractMemory) : res (DRAMConfig * DRAMCtrl) :=
  let t := timing p in
  let range := mem_range m in
  let burst := u32 (devices_per_rank p * burst_length p * device_bus_width p) / 8 in
  let rowBuf := u32 (devices_per_rank p * device_rowbuffer_size p) in
  columns ← udiv rowBuf burst;
  stripe ← (if interleaved range then x ← udiv (granularity range) burst; Ret (u32 x) else Ret 1);
  let groups := bank_groups_per_rank p in
  let arch := 0 <? groups in
  _ ← fatal_if (negb (isPowerOf2 32 (ranks_per_channel p)));
  let rs := rank_new arch groups (banks_per_rank p) (activation_limit p) <$> seq 0 (Z.to_nat (ranks_per_channel p)) in
  _ ← fatal_if (write_high_thresh_perc p <=? write_low_thresh_perc p);
  lg ← ceilLog2 (AddrRange_size range);
  rows ← udiv (u64 (Z.shiftl 1 lg)) (u32 (rowBuf * banks_per_rank p * ranks_per_channel p));
  _ ← fatal_if ((tREFI t <=? tRP t) || (tREFI t <=? tRFC t));
  _ ← fatal_if (arch && ((banks_per_rank p <? groups) || negb (banks_per_rank p mod groups =? 0) || (tCCD_L t <=? tBURST t) || (tRRD_L t <? tRRD t)));
  Ret (mkDRAMConfig burst rowBuf columns stripe (ranks_per_channel p) groups arch (banks_per_rank p) (p_channels p) (u32 rows)
         (read_buffer_size p) (write_buffer_size p)
         (u32 (write_buffer_size p * write_high_thresh_perc p) / 100) (u32 (write_buffer_size p * write_low_thresh_perc p) / 100)
         (min_writes_per_switch p) (activation_limit p) (mem_sched_policy p) (addr_mapping p) (page_policy p)
         (max_accesses_per_row p) (static_frontend_latency p) (static_backend_latency p) t,
       mkDRAMCtrl m false false false READ [] [] [] [] rs None None false 0 0 0 0 0 0).

Section ctrl.
Context (c : DRAMConfig).
Abbreviation dm := (handler DRAMCtrl DOut).

(** The checks of [init]. *)
Definition DRAMCtrl_init (range : AddrRange) (connected : bool) (cacheLineSize : Z) : res unit :=
  _ ← fatal_if (negb connected);
  if interleaved range then
    _ ← fatal_if (negb (channels c =? stripes range));
    match addrMapping c with
    | RoRaBaChCo => fatal_if (negb (rowBufferSize c =? granularity range))
    | _ =>
        _ ← cassert (1 <=? columnsPerStripe c);
        _ ← fatal_if (granularity range <? cacheLineSize);
        _ ← fatal_if (rowBufferSize c <? granularity range);
        cassert (columnsPerStripe c <=? columnsPerRowBuffer c)
    end
  else Ret tt.

(** ** Ranks: activating, precharging, refreshing *)

Definition upd_bank (r : Rank) (j : nat) (f : Bank -> Bank) : res Rank :=
  b ← vread (banks r) j;
  bs ← vwrite (banks r) j (f b);
  Ret (r_with_banks r bs (numBanksActive r)).

(** The next activate of a bank after one of group [gr] at [act_tick]. *)
Definition enforce_rrd (gr act_tick : Z) (b : Bank) : Bank :=
  b_with_act b (Z.max (u64 (act_tick + (if bankGroupArch c && (gr =? bankgr b) then tRRD_L (T c) else tRRD (T c)))) (actAllowedAt b)).

(** At most [activationLimit] activates in a window. *)
Definition enforce_xaw (r : Rank) (act_tick : Z) : res Rank :=
  match last (actTicks r) with
  | None => Ret r
  | Some oldest =>
      if negb (oldest =? 0) && (u64 (act_tick - oldest) <? tXAW (T c)) then Err Panic
      else
        let l := act_tick :: removelast (actTicks r) in
        let r := r_with_actTicks r l in
        match last l with
        | Some oldest =>
            if negb (oldest =? 0) && (u64 (act_tick - oldest) <? tXAW (T c))
            then Ret (r_with_banks r ((fun b => b_with_act b (Z.max (u64 (oldest + tXAW (T c))) (actAllowedAt b))) <$> banks r) (numBanksActive r))
            else Ret r
        | None => Ret r
        end
  end.

Definition activateBank (r : Rank) (j : nat) (act_tick row now : Z) : res Rank :=
  _ ← cassert (Z.of_nat (length (actTicks r)) =? activationLimit c);
  b ← vread (banks r) j;
  _ ← cassert (openRow b =? NO_ROW);
  r ← upd_bank r j (fun b => b_with_counts (b_with_row b row) 0 0);
  let r := r_with_banks r (banks r) (u32 (numBanksActive r + 1)) in
  _ ← cassert (numBanksActive r <=? banksPerRank c);
  r ← upd_bank r j (fun b => b_with_col (b_with_pre b (u64 (act_tick + tRAS (T c)))) (Z.max (u64 (act_tick + tRCD (T c))) (colAllowedAt b)));
  let r := r_with_banks r (enforce_rrd (bankgr b) act_tick <$> banks r) (numBanksActive r) in
  r ← enforce_xaw r act_tick;
  ev ← match activateEvent r with
       | None => schedule_at None act_tick now
       | Some w => if act_tick <? w then reschedule_at (Some w) act_tick now else Ret (Some w)
       end;
  Ret (r_with_events r ev (prechargeEvent r) (refreshEvent r) (powerEvent r)).

Definition prechargeBank (r : Rank) (j : nat) (pre_at now : Z) : res Rank :=
  b ← vread (banks r) j;
  _ ← cassert (negb (openRow b =? NO_ROW));
  let pre_done_at := u64 (pre_at + tRP (T c)) in
  r ← upd_bank r j (fun b => b_with_act (b_with_pre (b_with_row b NO_ROW) pre_at) (Z.max (actAllowedAt b) pre_done_at));
  _ ← cassert (negb (numBanksActive r =? 0));
  let r := r_with_banks r (banks r) (numBanksActive r - 1) in
  ev ← match prechargeEvent r with
       | None => schedule_at None pre_done_at now
       | Some w => if w <? pre_done_at then reschedule_at (Some w) pre_done_at now else Ret (Some w)
       end;
  Ret (r_with_events r (activateEvent r) ev (refreshEvent r) (powerEvent r)).

Definition rank_startup (r : Rank) (ref_tick now : Z) : res Rank :=
  _ ← cassert (now <? ref_tick);
  let r := r_with_power r (pwrStateTrans r) (pwrState r) now in
  ev ← schedule_at (refreshEvent r) ref_tick now;
  Ret (r_with_events r (activateEvent r) (prechargeEvent r) ev (powerEvent r)).

Definition rank_suspend (r : Rank) : res Rank :=
  _ ← cassert (match refreshEvent r with Some _ => true | None => false end);
  Ret (r_with_events r (activateEvent r) (prechargeEvent r) None (powerEvent r)).

Definition checkDrainDone (r : Rank) (now : Z) : res Rank :=
  if bool_decide (refreshState r = REF_DRAIN) then
    let r := r_with_refresh r REF_PRE (refreshDueAt r) in
    ev ← schedule_at (refreshEvent r) now now;
    Ret (r_with_events r (activateEvent r) (prechargeEvent r) ev (powerEvent r))
  else Ret r.

Definition schedulePowerEvent (r : Rank) (st : PowerState) (tick now : Z) : res Rank :=
  _ ← cassert (now <=? tick);
  match powerEvent r with
  | None =>
      let r := r_with_power r st (pwrState r) (pwrStateTick r) in
      ev ← schedule_at None tick now;
      Ret (r_with_events r (activateEvent r) (prechargeEvent r) (refreshEvent r) ev)
  | Some _ => Err Panic
  end.

Definition processActivateEvent (r : Rank) (now : Z) : res Rank :=
  if bool_decide (pwrState r = PWR_ACT) then Ret r else schedulePowerEvent r PWR_ACT now now.

Definition processPrechargeEvent (r : Rank) (now : Z) : res Rank :=
  if numBanksActive r =? 0 then schedulePowerEvent r PWR_IDLE now now else Ret r.

(** All banks of a rank that is about to be refreshed. *)
Fixpoint precharge_all (n : nat) (j : nat) (r : Rank) (pre_at now : Z) : res Rank :=
  match n with
  | 0%nat => Ret r
  | S n =>
      b ← vread (banks r) j;
      r ← (if negb (openRow b =? NO_ROW) then prechargeBank r j pre_at now
           else upd_bank r j (fun b => b_with_pre (b_with_act b (Z.max (actAllowedAt b) (u64 (pre_at + tRP (T c))))) (Z.max (preAllowedAt b) pre_at)));
      precharge_all n (S j) r pre_at now
  end.

(** The part of [processRefreshEvent] in state [REF_PRE]. *)
Definition refresh_pre (r : Rank) (now : Z) : res (Rank * list DramCmd) :=
  '(r, cmds) ←
    (if bool_decide (pwrState r = PWR_IDLE) then r ← schedulePowerEvent r PWR_REF now now; Ret (r, [])
     else
       let pre_at := foldl (fun t b => Z.max (preAllowedAt b) t) now (banks r) in
       r ← precharge_all (length (banks r)) 0 r pre_at now;
       Ret (r, [mkDramCmd CMD_PREA (rk_rank r) 0 pre_at]));
  let r := r_with_refresh r REF_RUN (refreshDueAt r) in
  _ ← cassert (numBanksActive r =? 0);
  Ret (r, cmds).

(** The part in state [REF_RUN]. *)
Definition refresh_run (r : Rank) (now : Z) : res (Rank * list DramCmd) :=
  _ ← cassert (numBanksActive r =? 0);
  _ ← cassert (bool_decide (pwrState r = PWR_REF));
  let ref_done_at := u64 (now + tRFC (T c)) in
  let r := r_with_banks r ((fun b => b_with_act b ref_done_at) <$> banks r) (numBanksActive r) in
  _ ← fatal_if (u64 (refreshDueAt r + tREFI (T c)) <? ref_done_at);
  ev ← schedule_at (refreshEvent r) (u64 (refreshDueAt r + tREFI (T c) - tRP (T c))) now;
  let r := r_with_events r (activateEvent r) (prechargeEvent r) ev (powerEvent r) in
  _ ← cassert (match powerEvent r with None => true | Some _ => false end);
  r ← schedulePowerEvent r PWR_IDLE ref_done_at now;
  Ret (r, [mkDramCmd CMD_REF (rk_rank r) 0 now]).

(** [busy] tells whether a request to this rank is being handled. *)
Definition processRefreshEvent (r : Rank) (busy : bool) (now : Z) : res (Rank * list DramCmd) :=
  let r := if bool_decide (refreshState r = REF_IDLE) then r_with_refresh r REF_DRAIN now else r in
  if bool_decide (refreshState r = REF_DRAIN) && busy then Ret (r, [])
  else
    let r := if bool_decide (refreshState r = REF_DRAIN) then r_with_refresh r REF_PRE (refreshDueAt r) else r in
    match refreshState r with
    | REF_PRE => refresh_pre r now
    | REF_RUN => refresh_run r now
    | _ => Ret (r, [])
    end.

(** The rank, whether requests are to be scheduled again, and the commands. *)
Definition processPowerEvent (r : Rank) (busy : bool) (now : Z) : res (Rank * bool * list DramCmd) :=
  let prev_state := pwrState r in
  let r := r_with_power r (pwrStateTrans r) (pwrStateTrans r) now in
  '(r, kick) ←
    (if bool_decide (pwrState r = PWR_IDLE) then
       if bool_decide (prev_state = PWR_REF) then Ret (r_with_refresh r REF_IDLE (refreshDueAt r), true)
       else
         _ ← cassert (bool_decide (prev_state = PWR_ACT));
         if bool_decide (refreshState r = REF_RUN) then
           _ ← cassert (match powerEvent r with None => true | Some _ => false end);
           Ret (r_with_power r (pwrStateTrans r) PWR_REF (pwrStateTick r), false)
         else Ret (r, false)
     else Ret (r, false));
  if bool_decide (pwrState r = PWR_REF) then
    _ ← cassert (bool_decide (refreshState r = REF_RUN));
    '(r, cmds) ← processRefreshEvent r busy now;
    Ret (r, kick, cmds)
  else Ret (r, kick, []).

(** ** Requests *)

Definition readQueueFull (s : DRAMCtrl) (neededEntries : Z) : bool :=
  readBufferSize c <? Z.of_nat (length (readQueue s)) + Z.of_nat (length (respQueue s)) + neededEntries.
Definition writeQueueFull (s : DRAMCtrl) (neededEntries : Z) : bool :=
  writeBufferSize c <? Z.of_nat (length (writeQueue s)) + neededEntries.

(** Rank, bank and row of an address. *)
Definition decode (a : Z) : res (Z * Z * Z) :=
  addr ← udiv a (burstSize c);
  match addrMapping c with
  | RoRaBaChCo =>
      addr ← udiv addr (columnsPerRowBuffer c);
      addr ← udiv addr (channels c);
      bank ← umod addr (banksPerRank c);
      addr ← udiv addr (banksPerRank c);
      rank ← umod addr (ranksPerChannel c);
      addr ← udiv addr (ranksPerChannel c);
      row ← umod addr (rowsPerBank c);
      Ret (u8 rank, u8 bank, row)
  | RoRaBaCoCh =>
      addr ← udiv addr (columnsPerStripe c);
      addr ← udiv addr (channels c);
      cols ← udiv (columnsPerRowBuffer c) (columnsPerStripe c);
      addr ← udiv addr cols;
      bank ← umod addr (banksPerRank c);
      addr ← udiv addr (banksPerRank c);
      rank ← umod addr (ranksPerChannel c);
      addr ← udiv addr (ranksPerChannel c);
      row ← umod addr (rowsPerBank c);
      Ret (u8 rank, u8 bank, row)
  | RoCoRaBaCh =>
      addr ← udiv addr (columnsPerStripe c);
      addr ← udiv addr (channels c);
      bank ← umod addr (banksPerRank c);
      addr ← udiv addr (banksPerRank c);
      rank ← umod addr (ranksPerChannel c);
      addr ← udiv addr (ranksPerChannel c);
      cols ← udiv (columnsPerRowBuffer c) (columnsPerStripe c);
      addr ← udiv addr cols;
      row ← umod addr (rowsPerBank c);
      Ret (u8 rank, u8 bank, row)
  end.

Definition decodeAddr (s : DRAMCtrl) (pkt : Packet) (headerDelay dramPktAddr size : Z) (is_read : bool) (now : Z) : res DRAMPacket :=
  '(rank, bank, row) ← decode dramPktAddr;
  _ ← cassert (rank <? ranksPerChannel c);
  _ ← cassert (bank <? banksPerRank c);
  _ ← cassert (row <? rowsPerBank c);
  _ ← cassert (row <? NO_ROW);
  let bank_id := wrap 16 (u32 (banksPerRank c * rank + bank)) in
  r ← vread (ranks s) (Z.to_nat rank);
  _ ← vread (banks r) (Z.to_nat bank);
  Ret (mkDRAMPacket now now pkt headerDelay is_read rank bank row bank_id dramPktAddr size None).

(** [(addr | (burstSize - 1)) + 1]: where the next burst starts. *)
Definition next_burst (addr : Z) : Z := u64 (Z.lor addr (u32 (burstSize c - 1)) + 1).
Definition burst_bytes (pkt : Packet) (addr : Z) : Z :=
  u32 (u64 (Z.min (next_burst addr) (u64 (pkt_addr pkt + pkt_size pkt)) - addr)).

(** [accessAndRespond]. *)
Definition accessAndRespond (pkt : Packet) (headerDelay static_latency now : Z) : dm unit :=
  let needsResponse := cmd_needsResponse (pkt_cmd pkt) in
  s ← get;
  '(m, pkt, _) ← lift (mem_access (d_mem s) pkt);
  _ ← put (d_with_mem s m);
  if needsResponse then
    _ ← check (cmd_isResponse (pkt_cmd pkt));
    emit (DramResp (with_payloadDelay pkt 0) (u64 (now + static_latency + headerDelay + pkt_payloadDelay pkt)))
  else ret tt.

(** [if (!nextReqEvent.scheduled()) schedule(nextReqEvent, when)] *)
Definition kick_requests (when now : Z) : dm unit :=
  s ← get;
  match nextReqEvent s with
  | Some _ => ret tt
  | None => ev ← lift (schedule_at None when now); put (d_with_nextReq s ev)
  end.

(** The write queue holds all the bytes of a read. *)
Definition subsumed (addr size : Z) (w : DRAMPacket) : bool :=
  (dp_addr w <=? addr) && (u64 (addr + size) <=? u64 (dp_addr w + dp_size w)).

(** The bursts of a read that the write queue does not hold are queued: the helper and
    the number of bursts held are returned. *)
Fixpoint read_bursts (n : nat) (pkt : Packet) (headerDelay pktCount addr : Z) (helper : option nat) (serviced now : Z) : dm (option nat * Z) :=
  match n with
  | 0%nat => ret (helper, serviced)
  | S n =>
      let size := burst_bytes pkt addr in
      s ← get;
      if existsb (subsumed addr size) (writeQueue s)
      then read_bursts n pkt headerDelay pktCount (next_burst addr) helper (u32 (serviced + 1)) now
      else
        helper ← (if (1 <? pktCount) && match helper with None => true | Some _ => false end then
                    _ ← put (d_with_helpers s (helpers s ++ [mkBurstHelper pktCount 0]));
                    ret (Some (length (helpers s)))
                  else ret helper);
        s ← get;
        d ← lift (decodeAddr s pkt headerDelay addr size true now);
        _ ← check (negb (readQueueFull s 1));
        _ ← put (d_with_read s (readQueue s ++ [dp_with_helper d helper]));
        read_bursts n pkt headerDelay pktCount (next_burst addr) helper serviced now
  end.

Definition addToReadQueue (pkt : Packet) (headerDelay pktCount now : Z) : dm unit :=
  _ ← check (negb (cmd_isWrite (pkt_cmd pkt)));
  _ ← check (negb (pktCount =? 0));
  '(helper, serviced) ← read_bursts (Z.to_nat pktCount) pkt headerDelay pktCount (pkt_addr pkt) None 0 now;
  if serviced =? pktCount then accessAndRespond pkt headerDelay (frontendLatency c) now
  else
    _ ← match helper with
        | Some i =>
            s ← get;
            h ← lift (vread (helpers s) i);
            hs ← lift (vwrite (helpers s) i (mkBurstHelper (burstCount h) serviced));
            put (d_with_helpers s hs)
        | None => ret tt
        end;
    kick_requests now now.

(** A new write and one that waits, if together they are one burst. *)
Definition merge_write (addr size : Z) (w : DRAMPacket) : option DRAMPacket :=
  if addr <=? dp_addr w then
    if u64 (dp_addr w + dp_size w) <=? u64 (addr + size) then Some (dp_with_range w addr size)
    else if (dp_addr w <=? u64 (addr + size)) && (u64 (dp_addr w + dp_size w - addr) <=? burstSize c)
    then Some (dp_with_range w addr (u32 (u64 (dp_addr w + dp_size w - addr))))
    else None
  else
    if u64 (addr + size) <=? u64 (dp_addr w + dp_size w) then Some w
    else if (addr <=? u64 (dp_addr w + dp_size w)) && (u64 (addr + size - dp_addr w) <=? burstSize c)
    then Some (dp_with_range w (dp_addr w) (u32 (u64 (addr + size - dp_addr w))))
    else None.

Fixpoint merge_writes (addr size : Z) (q : list DRAMPacket) : option (list DRAMPacket) :=
  match q with
  | [] => None
  | w :: q =>
      match merge_write addr size w with
      | Some w => Some (w :: q)
      | None => (w ::.) <$> merge_writes addr size q
      end
  end.

Fixpoint write_bursts (n : nat) (pkt : Packet) (headerDelay addr now : Z) : dm unit :=
  match n with
  | 0%nat => ret tt
  | S n =>
      let size := burst_bytes pkt addr in
      s ← get;
      _ ← match merge_writes addr size (writeQueue s) with
          | Some q => put (d_with_write s q)
          | None =>
              d ← lift (decodeAddr s pkt headerDelay addr size false now);
              _ ← check (Z.of_nat (length (writeQueue s)) <? writeBufferSize c);
              put (d_with_write s (writeQueue s ++ [d]))
          end;
      write_bursts n pkt headerDelay (next_burst addr) now
  end.

Definition addToWriteQueue (pkt : Packet) (headerDelay pktCount now : Z) : dm unit :=
  _ ← check (cmd_isWrite (pkt_cmd pkt));
  _ ← write_bursts (Z.to_nat pktCount) pkt headerDelay (pkt_addr pkt) now;
  _ ← accessAndRespond pkt headerDelay (frontendLatency c) now;
  kick_requests now now.

Definition dram_pkt_count (pkt : Packet) : res Z :=
  let offset := u32 (Z.land (pkt_addr pkt) (u32 (burstSize c - 1))) in
  divCeil 32 (u32 (offset + pkt_size pkt)) (burstSize c).

Definition dram_recvTimingReq (pkt : Packet) (headerDelay now : Z) : dm bool :=
  if memInhibitAsserted pkt then ret true
  else
    s ← get;
    _ ← put (d_with_arrival s now);
    n ← lift (dram_pkt_count pkt);
    s ← get;
    if cmd_isRead (pkt_cmd pkt) then
      _ ← check (negb (pkt_size pkt =? 0));
      if readQueueFull s n then _ ← put (d_with_retryRd s true); ret false
      else _ ← addToReadQueue pkt headerDelay n now; ret true
    else if cmd_isWrite (pkt_cmd pkt) then
      _ ← check (negb (pkt_size pkt =? 0));
      if writeQueueFull s n then _ ← put (d_with_retryWr s true); ret false
      else _ ← addToWriteQueue pkt headerDelay n now; ret true
    else _ ← accessAndRespond pkt headerDelay 1 now; ret true.

Definition dram_recvAtomic (pkt : Packet) : dm (Packet * Z) :=
  s ← get;
  '(m, pkt, _) ← lift (mem_access (d_mem s) pkt);
  _ ← put (d_with_mem s m);
  ret (pkt, if negb (memInhibitAsserted pkt) && cmd_hasData (pkt_cmd pkt) then u64 (tRP (T c) + tRCD (T c) + tCL (T c)) else 0).

(** Functional accesses look at the queue of responses first; its answer is an argument. *)
Definition dram_recvFunctional (pkt : Packet) (port_q : Packet -> res (bool * Packet)) : dm Packet :=
  '(done, pkt) ← lift (port_q pkt);
  if (done : bool) then ret pkt
  else
    s ← get;
    '(m, pkt) ← lift (functionalAccess (d_mem s) pkt);
    _ ← put (d_with_mem s m);
    ret pkt.

(** ** Responses *)

Definition processRespondEvent (now : Z) : dm unit :=
  s ← get;
  match respQueue s with
  | [] => lift (Err OutOfBounds)
  | d :: rest =>
      _ ← match burstHelper d with
          | Some i =>
              h ← lift (vread (helpers s) i);
              let h := mkBurstHelper (burstCount h) (u32 (burstsServiced h + 1)) in
              hs ← lift (vwrite (helpers s) i h);
              _ ← put (d_with_helpers s hs);
              if burstsServiced h =? burstCount h
              then accessAndRespond (dp_pkt d) (dp_headerDelay d) (u64 (frontendLatency c + backendLatency c)) now else ret tt
          | None => accessAndRespond (dp_pkt d) (dp_headerDelay d) (u64 (frontendLatency c + backendLatency c)) now
          end;
      s ← get;
      _ ← put (d_with_resp s rest);
      s ← get;
      _ ← match rest with
          | d :: _ =>
              _ ← check (now <=? readyTime d);
              ev ← lift (schedule_at (respondEvent s) (readyTime d) now);
              put (d_with_respond s ev)
          | [] =>
              if is_nil (writeQueue s) && is_nil (readQueue s) && d_drainManager s
              then _ ← emit DramDrained; put (d_with_drain s false) else ret tt
          end;
      s ← get;
      if retryRdReq s then _ ← put (d_with_retryRd s false); emit DramRetry else ret tt
  end.

(** ** The choice of the next burst *)

Definition rank_at (s : DRAMCtrl) (i : Z) : res Rank := vread (ranks s) (Z.to_nat i).
Definition bank_at (s : DRAMCtrl) (i j : Z) : res Bank := r ← rank_at s i; vread (banks r) (Z.to_nat j).
Definition rank_available (s : DRAMCtrl) (i : Z) : res bool := r ← rank_at s i; Ret (isAvailable r).

(** The chosen burst is erased and pushed to the front. *)
Definition to_front (i : nat) (q : list DRAMPacket) : list DRAMPacket :=
  match q !! i with Some d => d :: delete i q | None => q end.

Fixpoint first_available (s : DRAMCtrl) (q : list DRAMPacket) (i : nat) : res (option nat) :=
  match q with
  | [] => Ret None
  | d :: q => av ← rank_available s (dp_rank d); if (av : bool) then Ret (Some i) else first_available s q (S i)
  end.

(** [got_waiting]: the banks of available ranks that bursts wait for. *)
Fixpoint waiting (s : DRAMCtrl) (q : list DRAMPacket) (got : list bool) : res (list bool) :=
  match q with
  | [] => Ret got
  | d :: q =>
      av ← rank_available s (dp_rank d);
      got ← (if (av : bool) then vwrite got (Z.to_nat (bankId d)) true else Ret got);
      waiting s q got
  end.

(** The banks that can be activated first, and when: those of the active rank apart. *)
Record Prep := mkPrep { bank_mask : Z; min_act_at : Z; bank_mask_same_rank : Z; min_act_at_same_rank : Z; same_rank_match : bool }.

(** One bank of the loop of [minBankPrep]. *)
Definition prep_bank (s : DRAMCtrl) (got : list bool) (now : Z) (i j : nat) (p : Prep) : res Prep :=
  let bank_id := wrap 16 (Z.of_nat i * banksPerRank c + Z.of_nat j) in
  g ← vread got (Z.to_nat bank_id);
  if (g : bool) then
    av ← rank_available s (Z.of_nat i);
    _ ← cassert av;
    b ← bank_at s (Z.of_nat i) (Z.of_nat j);
    let act_at := if openRow b =? NO_ROW then actAllowedAt b else u64 (Z.max (preAllowedAt b) now + tRP (T c)) in
    if (Z.of_nat i =? activeRank s) && (1 <? ranksPerChannel c) then
      if act_at <=? min_act_at_same_rank p then
        let m := if (act_at <? min_act_at_same_rank p) && (now <? min_act_at_same_rank p) then 0 else bank_mask_same_rank p in
        Ret (mkPrep (bank_mask p) (min_act_at p) (insertBits 64 m bank_id bank_id 1) act_at true)
      else Ret p
    else
      if act_at <=? min_act_at p then
        let m := if (act_at <? min_act_at p) && (now <? min_act_at p) then 0 else bank_mask p in
        Ret (mkPrep (insertBits 64 m bank_id bank_id 1) act_at (bank_mask_same_rank p) (min_act_at_same_rank p) (same_rank_match p))
      else Ret p
  else Ret p.

Fixpoint prep_banks (s : DRAMCtrl) (got : list bool) (now : Z) (n i j : nat) (p : Prep) : res Prep :=
  match n with
  | 0%nat => Ret p
  | S n => p ← prep_bank s got now i j p; prep_banks s got now n i (S j) p
  end.
Fixpoint prep_ranks (s : DRAMCtrl) (got : list bool) (now : Z) (n i : nat) (p : Prep) : res Prep :=
  match n with
  | 0%nat => Ret p
  | S n => p ← prep_banks s got now (Z.to_nat (banksPerRank c)) i 0 p; prep_ranks s got now n (S i) p
  end.

Definition minBankPrep (s : DRAMCtrl) (q : list DRAMPacket) (switched : bool) (now : Z) : res Z :=
  got ← waiting s q (replicate (Z.to_nat (ranksPerChannel c * banksPerRank c)) false);
  p ← prep_ranks s got now (Z.to_nat (ranksPerChannel c)) 0 (mkPrep 0 MaxTick 0 MaxTick false);
  let min_cmd_at := u64 (busBusyUntil s - tCL (T c) - tRCD (T c)) in
  Ret (if (bank_mask p =? 0) || (negb switched && same_rank_match p && (min_act_at_same_rank p <=? min_cmd_at))
       then bank_mask_same_rank p else bank_mask p).

(** The loop of [reorderQueue]; [q] is the whole queue, the rest starts at [i]. *)
Fixpoint reorder_loop (s : DRAMCtrl) (q : list DRAMPacket) (switched : bool) (now : Z) (rest : list DRAMPacket) (i : nat)
    (earliest : Z) (found_earliest found_prepped : bool) (selected : option nat) : res (option nat) :=
  match rest with
  | [] => Ret selected
  | d :: rest =>
      b ← bank_at s (dp_rank d) (dp_bank d);
      av ← rank_available s (dp_rank d);
      if (av : bool) then
        if openRow b =? dp_row d then
          if (dp_rank d =? activeRank s) || switched then Ret (Some i)
          else if negb found_prepped then reorder_loop s q switched now rest (S i) earliest found_earliest true (Some i)
          else reorder_loop s q switched now rest (S i) earliest found_earliest found_prepped selected
        else if negb found_earliest && negb found_prepped then
          earliest ← (if earliest =? 0 then minBankPrep s q switched now else Ret earliest);
          if negb (bits earliest (bankId d) (bankId d) =? 0)
          then reorder_loop s q switched now rest (S i) earliest true found_prepped (Some i)
          else reorder_loop s q switched now rest (S i) earliest found_earliest found_prepped selected
        else reorder_loop s q switched now rest (S i) earliest found_earliest found_prepped selected
      else reorder_loop s q switched now rest (S i) earliest found_earliest found_prepped selected
  end.

Definition reorderQueue (s : DRAMCtrl) (q : list DRAMPacket) (switched : bool) (now : Z) : res (bool * list DRAMPacket) :=
  sel ← reorder_loop s q switched now q 0 0 false false None;
  Ret (match sel with Some i => (true, to_front i q) | None => (false, q) end).

Definition chooseNext (s : DRAMCtrl) (q : list DRAMPacket) (switched : bool) (now : Z) : res (bool * list DRAMPacket) :=
  _ ← cassert (negb (is_nil q));
  match q with
  | [d] => av ← rank_available s (dp_rank d); Ret (av, q)
  | _ =>
      match memSchedPolicy c with
      | fcfs => sel ← first_available s q 0; Ret (match sel with Some i => (true, to_front i q) | None => (false, q) end)
      | frfcfs => reorderQueue s q switched now
      end
  end.

(** ** An access *)

Definition set_rank (i : Z) (r : Rank) : dm unit :=
  s ← get; rs ← lift (vwrite (ranks s) (Z.to_nat i) r); put (d_with_ranks s rs).

(** The row is opened unless it is: the rank, when a column command may follow, and the
    commands. *)
Definition open_row (i : Z) (r : Rank) (j : nat) (row now : Z) : res (Rank * Z * list DramCmd) :=
  b ← vread (banks r) j;
  if openRow b =? row then Ret (r, Z.max (colAllowedAt b) now, [])
  else
    let pre_at := Z.max (preAllowedAt b) now in
    '(r, pre) ← (if negb (openRow b =? NO_ROW)
                 then r ← prechargeBank r j pre_at now; Ret (r, [mkDramCmd CMD_PRE i (Z.of_nat j) pre_at]) else Ret (r, []));
    b ← vread (banks r) j;
    let act_tick := Z.max (actAllowedAt b) now in
    r ← activateBank r j act_tick row now;
    b ← vread (banks r) j;
    Ret (r, colAllowedAt b, pre ++ [mkDramCmd CMD_ACT i (Z.of_nat j) act_tick]).

(** The delay of the next column command of a bank, after one to a bank of group [gr]
    of the same or another rank. *)
Definition cmd_dly (same_rank : bool) (gr : Z) (b : Bank) : Z :=
  if same_rank then if bankGroupArch c && (gr =? bankgr b) then tCCD_L (T c) else tBURST (T c)
  else u64 (tBURST (T c) + tCS (T c)).
Definition delay_columns (rank gr cmd_at : Z) (rs : list Rank) : list Rank :=
  imap (fun j r => r_with_banks r ((fun b => b_with_col b (Z.max (u64 (cmd_at + cmd_dly (rank =? Z.of_nat j) gr b)) (colAllowedAt b))) <$> banks r)
                     (numBanksActive r)) rs.

(** The row is closed after the access: the policy, or the bursts that wait. *)
Fixpoint more_hits (d : DRAMPacket) (q : list DRAMPacket) (conflict : bool) : bool * bool :=
  match q with
  | [] => (false, conflict)
  | p :: q =>
      let same_rank_bank := (dp_rank d =? dp_rank p) && (dp_bank d =? dp_bank p) in
      let same_row := dp_row d =? dp_row p in
      if same_rank_bank && same_row then (true, conflict)
      else more_hits d q (conflict || (same_rank_bank && negb same_row))
  end.
Definition auto_precharge (d : DRAMPacket) (accesses : Z) (q : list DRAMPacket) : bool :=
  if bool_decide (pageMgmt c = page_close) || (accesses =? maxAccessesPerRow c) then true
  else if bool_decide (pageMgmt c = open_adaptive) || bool_decide (pageMgmt c = close_adaptive) then
    let '(hits, conflict) := more_hits d q false in
    negb hits && (conflict || bool_decide (pageMgmt c = close_adaptive))
  else false.

(** The bank after the column command at [cmd_at]. *)
Definition column_done (d : DRAMPacket) (cmd_at ready : Z) (b : Bank) : Bank :=
  b_with_counts (b_with_pre b (Z.max (preAllowedAt b) (if isRead d then u64 (cmd_at + tRTP (T c)) else u64 (ready + tWR (T c)))))
    (u32 (rowAccesses b + 1)) (u32 (bytesAccessed b + burstSize c)).

(** [doDRAMAccess] of the head of its queue; the burst with its ready time. *)
Definition doDRAMAccess (d : DRAMPacket) (now : Z) : dm DRAMPacket :=
  let i := dp_rank d in
  let j := Z.to_nat (dp_bank d) in
  s ← get;
  r ← lift (rank_at s i);
  '(r, cmd_at, cmds) ← lift (open_row i r j (dp_row d) now);
  _ ← set_rank i r;
  _ ← emit_all (commands cmds);
  let cmd_at := Z.max cmd_at (u64 (busBusyUntil s - tCL (T c))) in
  let ready := u64 (cmd_at + tCL (T c) + tBURST (T c)) in
  _ ← check (tBURST (T c) <=? u64 (ready - busBusyUntil s));
  b ← lift (vread (banks r) j);
  s ← get;
  _ ← put (d_with_active (d_with_ranks s (delay_columns i (bankgr b) cmd_at (ranks s))) i);
  s ← get;
  r ← lift (rank_at s i);
  r ← lift (upd_bank r j (column_done d cmd_at ready));
  b ← lift (vread (banks r) j);
  let pre_at := Z.max now (preAllowedAt b) in
  '(r, cmds) ← lift (if auto_precharge d (rowAccesses b) (tail (if isRead d then readQueue s else writeQueue s))
                     then r ← prechargeBank r j pre_at now; Ret (r, [mkDramCmd CMD_PRE i (Z.of_nat j) pre_at]) else Ret (r, []));
  _ ← set_rank i r;
  _ ← emit_all (commands (cmds ++ [mkDramCmd (if isRead d then CMD_RD else CMD_WR) i (Z.of_nat j) cmd_at]));
  s ← get;
  let s := d_with_next (d_with_busy s ready) (u64 (ready - (tRP (T c) + tRCD (T c) + tCL (T c)))) in
  _ ← put (if isRead d then d_with_turn s (writesThisTime s) (u32 (readsThisTime s + 1)) else d_with_turn s (u32 (writesThisTime s + 1)) (readsThisTime s));
  ret (dp_with_ready d ready).

(** ** The request loop *)

(** Ranks that refresh are told that requests have drained; their number. *)
Fixpoint drain_ranks (rs : list Rank) (now : Z) : res (list Rank * Z) :=
  match rs with
  | [] => Ret ([], 0)
  | r :: rs =>
      '(r, busy) ← (if isAvailable r then Ret (r, 0) else r ← checkDrainDone r now; Ret (r, 1));
      '(rs, n) ← drain_ranks rs now;
      Ret (r :: rs, busy + n)
  end.

(** The bus has turned around: the new state, and whether it did. *)
Definition turn_bus : dm bool :=
  s ← get;
  match busState s with
  | READ_TO_WRITE => _ ← put (d_with_bus (d_with_turn s (writesThisTime s) 0) WRITE); ret true
  | WRITE_TO_READ => _ ← put (d_with_bus (d_with_turn s 0 (readsThisTime s)) READ); ret true
  | _ => ret false
  end.

(** A bubble on the bus between a read and a write of the same rank. *)
Definition bubble (d : DRAMPacket) (switched : bool) (t : Z) : dm unit :=
  s ← get;
  if switched && (dp_rank d =? activeRank s) then put (d_with_busy s (u64 (busBusyUntil s + t))) else ret tt.

(** The head of the read queue goes; [false] if none can. *)
Definition serve_read (switched : bool) (now : Z) : dm bool :=
  s ← get;
  '(found, q) ← lift (chooseNext s (readQueue s) switched now);
  _ ← put (d_with_read s q);
  if (found : bool) then
    match q with
    | [] => lift (Err OutOfBounds)
    | d :: rest =>
        av ← lift (rank_available s (dp_rank d));
        _ ← check av;
        _ ← bubble d switched (u64 (tWTR (T c) + tCL (T c)));
        d ← doDRAMAccess d now;
        s ← get;
        _ ← put (d_with_read s rest);
        _ ← check (dp_size d <=? burstSize c);
        _ ← check (now <=? readyTime d);
        s ← get;
        ev ← (match last (respQueue s) with
              | None => lift (schedule_at (respondEvent s) (readyTime d) now)
              | Some l =>
                  _ ← check (readyTime l <=? readyTime d);
                  _ ← check (match respondEvent s with Some _ => true | None => false end);
                  ret (respondEvent s)
              end);
        _ ← put (d_with_respond (d_with_resp s (respQueue s ++ [d])) ev);
        ret true
    end
  else ret false.

Definition serve_write (switched : bool) (now : Z) : dm bool :=
  s ← get;
  '(found, q) ← lift (chooseNext s (writeQueue s) switched now);
  _ ← put (d_with_write s q);
  if (found : bool) then
    match q with
    | [] => lift (Err OutOfBounds)
    | d :: rest =>
        av ← lift (rank_available s (dp_rank d));
        _ ← check av;
        _ ← check (dp_size d <=? burstSize c);
        _ ← bubble d switched (tRTW (T c));
        d ← doDRAMAccess d now;
        s ← get;
        _ ← put (d_with_write s rest);
        ret true
    end
  else ret false.

(** Reads: [false] if nothing more is to be done. *)
Definition read_turn (switched : bool) (now : Z) : dm bool :=
  s ← get;
  let writes := Z.of_nat (length (writeQueue s)) in
  if is_nil (readQueue s) then
    if negb (is_nil (writeQueue s)) && (d_drainManager s || (writeLowThreshold c <? writes)) then
      _ ← put (d_with_bus s READ_TO_WRITE); ret true
    else
      _ ← (if is_nil (respQueue s) && d_drainManager s then _ ← emit DramDrained; put (d_with_drain s false) else ret tt);
      ret false
  else
    found ← serve_read switched now;
    if (found : bool) then
      _ ← (if writeHighThreshold c <? writes then s ← get; put (d_with_bus s READ_TO_WRITE) else ret tt);
      ret true
    else ret false.

Definition write_turn (switched : bool) (now : Z) : dm bool :=
  found ← serve_write switched now;
  if (found : bool) then
    s ← get;
    let writes := Z.of_nat (length (writeQueue s)) in
    _ ← (if is_nil (writeQueue s) || ((writes + minWritesPerSwitch c <? writeLowThreshold c) && negb (d_drainManager s))
            || (negb (is_nil (readQueue s)) && (minWritesPerSwitch c <=? writesThisTime s))
         then put (d_with_bus s WRITE_TO_READ) else ret tt);
    ret true
  else ret false.

Definition processNextReqEvent (now : Z) : dm unit :=
  s ← get;
  '(rs, busyRanks) ← lift (drain_ranks (ranks s) now);
  _ ← put (d_with_ranks s rs);
  if busyRanks =? ranksPerChannel c then ret tt
  else
    switched ← turn_bus;
    s ← get;
    go ← (if bool_decide (busState s = READ) then read_turn switched now else write_turn switched now);
    if (go : bool) then
      s ← get;
      _ ← kick_requests (Z.max (nextReqTime s) now) now;
      s ← get;
      if retryWrReq s && (Z.of_nat (length (writeQueue s)) <? writeBufferSize c)
      then _ ← put (d_with_retryWr s false); emit DramRetry else ret tt
    else ret tt.

(** ** Start and drain *)

Fixpoint startup_ranks (rs : list Rank) (ref_tick now : Z) : res (list Rank) :=
  match rs with
  | [] => Ret []
  | r :: rs => r ← rank_startup r ref_tick now; rs ← startup_ranks rs ref_tick now; Ret (r :: rs)
  end.
Definition DRAMCtrl_startup (timingMode : bool) (now : Z) : dm unit :=
  s ← get;
  _ ← put (d_with_mode s timingMode);
  if timingMode then
    s ← get;
    rs ← lift (startup_ranks (ranks s) (u64 (now + tREFI (T c) - tRP (T c))) now);
    put (d_with_busy (d_with_ranks s rs) (u64 (now + tRP (T c) + tRCD (T c) + tCL (T c))))
  else ret tt.

(** [port_count] is what the port reports; the number of parts that are not drained. *)
Definition DRAMCtrl_drain (port_count now : Z) : dm Z :=
  s ← get;
  if is_nil (writeQueue s) && is_nil (readQueue s) && is_nil (respQueue s) then ret port_count
  else
    _ ← put (d_with_drain s true);
    _ ← (if negb (is_nil (writeQueue s)) then kick_requests now now else ret tt);
    ret (port_count + 1).

Fixpoint suspend_ranks (rs : list Rank) : res (list Rank) :=
  match rs with
  | [] => Ret []
  | r :: rs => r ← rank_suspend r; rs ← suspend_ranks rs; Ret (r :: rs)
  end.
Definition DRAMCtrl_drainResume (timingMode : bool) (now : Z) : dm unit :=
  s ← get;
  _ ← (if negb (isTimingMode s) && timingMode then DRAMCtrl_startup timingMode now
       else if isTimingMode s && negb timingMode then rs ← lift (suspend_ranks (ranks s)); put (d_with_ranks s rs)
       else ret tt);
  s ← get;
  put (d_with_mode s timingMode).

(** ** Events *)

(** An event that is due runs, and is no longer scheduled while it does. *)
Definition due (ev : option Z) (now : Z) : bool := match ev with Some w => w =? now | None => false end.

Definition run_nextReq (now : Z) : dm unit :=
  s ← get;
  _ ← check (due (nextReqEvent s) now);
  _ ← put (d_with_nextReq s None);
  processNextReqEvent now.
Definition run_respond (now : Z) : dm unit :=
  s ← get;
  _ ← check (due (respondEvent s) now);
  _ ← put (d_with_respond s None);
  processRespondEvent now.

Definition rank_busy (s : DRAMCtrl) (r : Rank) : bool := (rk_rank r =? activeRank s) && match nextReqEvent s with Some _ => true | None => false end.

Definition run_activate (i : nat) (now : Z) : dm unit :=
  s ← get;
  r ← lift (vread (ranks s) i);
  _ ← check (due (activateEvent r) now);
  r ← lift (processActivateEvent (r_with_events r None (prechargeEvent r) (refreshEvent r) (powerEvent r)) now);
  set_rank (Z.of_nat i) r.
Definition run_precharge (i : nat) (now : Z) : dm unit :=
  s ← get;
  r ← lift (vread (ranks s) i);
  _ ← check (due (prechargeEvent r) now);
  r ← lift (processPrechargeEvent (r_with_events r (activateEvent r) None (refreshEvent r) (powerEvent r)) now);
  set_rank (Z.of_nat i) r.
Definition run_refresh (i : nat) (now : Z) : dm unit :=
  s ← get;
  r ← lift (vread (ranks s) i);
  _ ← check (due (refreshEvent r) now);
  '(r, cmds) ← lift (processRefreshEvent (r_with_events r (activateEvent r) (prechargeEvent r) None (powerEvent r)) (rank_busy s r) now);
  _ ← emit_all (commands cmds);
  set_rank (Z.of_nat i) r.
Definition run_power (i : nat) (now : Z) : dm unit :=
  s ← get;
  r ← lift (vread (ranks s) i);
  _ ← check (due (powerEvent r) now);
  '(r, kick, cmds) ← lift (processPowerEvent (r_with_events r (activateEvent r) (prechargeEvent r) (refreshEvent r) None) (rank_busy s r) now);
  _ ← emit_all (commands cmds);
  _ ← set_rank (Z.of_nat i) r;
  if (kick : bool) then kick_requests now now else ret tt.
End ctrl.
