(* ===== verification/DramCtrlSpec.v ===== *)
(** * The DRAM controller in operation

    The scheduler moves a burst for an available rank to the front whenever there is
    one; the queues, the response event, the counts of split reads, the retries and the
    request event are consistent in every reachable state of a controller. *)

From stdpp Require Import sorting.
From S2P Require Import Prelude Handler IntMath AddrRange Packet Memory DramCtrl.
Local Open Scope Z_scope.

Create HintDb dram.

(** ** Masks of banks *)

Lemma bit_test m i : 0 <= i < 64 -> (bits m i i =? 0) = negb (Z.testbit m i).
Proof.
  intros Hi. rewrite bits_div_mod by lia. replace (i - i + 1) with 1 by lia. rewrite Z.testbit_odd, Z.shiftr_div_pow2 by lia.
  change (2 ^ 1) with 2. rewrite Zmod_odd. by destruct (Z.odd _).
Qed.

Lemma mask_set m i k : inword 64 m -> 0 <= i < 64 -> 0 <= k -> Z.testbit (insertBits 64 m i i 1) k = (k =? i) || Z.testbit m k.
Proof.
  intros Hm Hi Hk. rewrite insertBits_testbit by (done || lia). destruct (Z.eqb_spec k i) as [->|]; cbn [orb].
  - by rewrite !Z.leb_refl, Z.sub_diag.
  - destruct (Z.leb_spec i k), (Z.leb_spec k i); try lia; done.
Qed.

Lemma bit_set_nz m i : inword 64 m -> 0 <= i < 64 -> insertBits 64 m i i 1 <> 0.
Proof. intros Hm Hi E. pose proof (mask_set m i i Hm Hi) as H. rewrite E, Z.bits_0, Z.eqb_refl in H. by specialize (H ltac:(lia)). Qed.

Lemma bit_set_word m i : inword 64 m -> 0 <= i < 64 -> inword 64 (insertBits 64 m i i 1).
Proof.
  intros Hm Hi. unfold insertBits. apply inword_lor; [lia|..].
  - apply inword_land; [lia|apply wrap_range; lia|]. apply wrap_range. lia.
  - apply inword_land; [lia|done|]. apply wrap_range. lia.
Qed.

Section spec.
Context (c : DRAMConfig).
Abbreviation dm := (handler DRAMCtrl DOut).

(** ** The scheduler *)

Definition bank_count : Z := ranksPerChannel c * banksPerRank c.

(** The ticks of a bank are those of a 64-bit word. *)
Definition bank_ok (b : Bank) : Prop := actAllowedAt b <= MaxTick.
Definition ranks_ok (rs : list Rank) : Prop := Forall (fun r => Forall bank_ok (banks r)) rs.

(** The place of a burst. *)
Record place_ok (d : DRAMPacket) : Prop := {
  po_rank : 0 <= dp_rank d < ranksPerChannel c;
  po_bank : 0 <= dp_bank d < banksPerRank c;
  po_id : bankId d = banksPerRank c * dp_rank d + dp_bank d;
  po_row : dp_row d < NO_ROW
}.

(** The masks hold banks that are waited for, and are empty only while no bank was seen. *)
Record prep_ok (got : list bool) (p : Prep) : Prop := {
  pr_word : inword 64 (bank_mask p) /\ inword 64 (bank_mask_same_rank p);
  pr_any : forall i, 0 <= i -> Z.testbit (bank_mask p) i = true -> got !! Z.to_nat i = Some true;
  pr_same : forall i, 0 <= i -> Z.testbit (bank_mask_same_rank p) i = true -> got !! Z.to_nat i = Some true;
  pr_min : bank_mask p = 0 -> min_act_at p = MaxTick;
  pr_min_same : bank_mask_same_rank p = 0 -> min_act_at_same_rank p = MaxTick;
  pr_match : same_rank_match p = true -> bank_mask_same_rank p <> 0
}.
Definition seen (p : Prep) : Prop := bank_mask p <> 0 \/ bank_mask_same_rank p <> 0.

Context (Hbanks : bank_count <= 64).

Lemma mask_add (got : list bool) (m : Z) id b : inword 64 m -> (forall i, 0 <= i -> Z.testbit m i = true -> got !! Z.to_nat i = Some true) ->
  0 <= id < 64 -> got !! Z.to_nat id = Some true -> let m' := insertBits 64 (if b : bool then 0 else m) id id 1 in
  inword 64 m' /\ m' <> 0 /\ (forall i, 0 <= i -> Z.testbit m' i = true -> got !! Z.to_nat i = Some true).
Proof.
  intros Hm Hg Hid Hgot m'. assert (H0 : inword 64 (if b then 0 else m)) by (destruct b; [by vm_compute|done]).
  split_and!; [by apply bit_set_word|by apply bit_set_nz|]. intros i Hi. unfold m'. rewrite mask_set by done.
  destruct (Z.eqb_spec i id) as [->|]; [done|]. cbn [orb]. destruct b; [by rewrite Z.bits_0|]. by apply Hg.
Qed.

Lemma prep_bank_ok s got now i j p p' : ranks_ok (ranks s) -> prep_ok got p -> (Z.of_nat i < ranksPerChannel c) -> (Z.of_nat j < banksPerRank c) ->
  prep_bank c s got now i j p = Ret p' ->
  prep_ok got p' /\ (seen p -> seen p') /\ (got !! Z.to_nat (banksPerRank c * Z.of_nat i + Z.of_nat j) = Some true -> seen p').
Proof.
  intros Hs Hp Hi Hj. unfold prep_bank. set (id := banksPerRank c * Z.of_nat i + Z.of_nat j).
  assert (Hid : 0 <= id < 64). { unfold id, bank_count in *. split; [nia|]. assert (banksPerRank c * (Z.of_nat i + 1) <= banksPerRank c * ranksPerChannel c) by nia. nia. }
  replace (wrap 16 (Z.of_nat i * banksPerRank c + Z.of_nat j)) with id by (rewrite wrap_small; [unfold id; lia|split; [nia|]; change (2 ^ 16) with 65536; unfold id in Hid; lia]).
  intros (g & Hg%vread_Ret & E)%bind_Ret. destruct g; [|injection E as <-; split; [done|]; split; [done|congruence]].
  apply bind_Ret in E as (av & _ & E). apply bind_Ret in E as ([] & _ & E). apply bind_Ret in E as (b & Hb & E).
  set (act_at := if openRow b =? NO_ROW then _ else _) in E.
  assert (Hact : act_at <= MaxTick).
  { unfold act_at. destruct (openRow b =? NO_ROW); [|assert (inword 64 (u64 (Z.max (preAllowedAt b) now + tRP (T c)))) as Hw by (apply wrap_range; lia); unfold inword, MaxTick in *; lia].
    unfold bank_at, rank_at in Hb. apply bind_Ret in Hb as (r & Hr%vread_Ret & Hb%vread_Ret). unfold ranks_ok in Hs. rewrite Forall_lookup in Hs.
    specialize (Hs _ _ Hr). rewrite Forall_lookup in Hs. exact (Hs _ _ Hb). }
  destruct Hp as [[Hw1 Hw2] H1 H2 H3 H4 H5]. destruct ((Z.of_nat i =? activeRank s) && (1 <? ranksPerChannel c)).
  - destruct (Z.leb_spec act_at (min_act_at_same_rank p)) as [Hle|Hgt]; injection E as <-.
    + match goal with |- context [insertBits 64 (if ?b then 0 else _) _ _ _] => destruct (mask_add got _ id b Hw2 H2 Hid Hg) as (Ha & Hn & Hs') end.
      cbv zeta in *. split_and!; [split; cbn; try done; tauto|intros _; by right|intros _; by right].
    + split; [by split|]. split; [done|]. intros _. right. intros E0. specialize (H4 E0). lia.
  - destruct (Z.leb_spec act_at (min_act_at p)) as [Hle|Hgt]; injection E as <-.
    + match goal with |- context [insertBits 64 (if ?b then 0 else _) _ _ _] => destruct (mask_add got _ id b Hw1 H1 Hid Hg) as (Ha & Hn & Hs') end.
      cbv zeta in *. split_and!; [split; cbn; try done; tauto|intros _; by left|intros _; by left].
    + split; [by split|]. split; [done|]. intros _. left. intros E0. specialize (H3 E0). lia.
Qed.

Lemma prep_banks_ok s got now n i j p p' : ranks_ok (ranks s) -> prep_ok got p -> (Z.of_nat i < ranksPerChannel c) -> Z.of_nat (j + n) <= banksPerRank c ->
  prep_banks c s got now n i j p = Ret p' ->
  prep_ok got p' /\ (seen p -> seen p') /\
  (forall k, (j <= k < j + n)%nat -> got !! Z.to_nat (banksPerRank c * Z.of_nat i + Z.of_nat k) = Some true -> seen p').
Proof.
  intros Hs. revert j p. induction n as [|n IH]; intros j p Hp Hi Hj E; cbn [prep_banks] in E.
  - injection E as <-. split_and!; [done..|]. intros k Hk. lia.
  - apply bind_Ret in E as (p1 & E1 & E2). destruct (prep_bank_ok s got now i j p p1 Hs Hp Hi ltac:(lia) E1) as (Hp1 & Hm1 & Hg1).
    destruct (IH (S j) p1 Hp1 Hi ltac:(lia) E2) as (Hp2 & Hm2 & Hg2). split_and!; [done|tauto|]. intros k Hk Hg.
    destruct (decide (k = j)) as [->|]; [by apply Hm2, Hg1|]. apply (Hg2 k); [lia|done].
Qed.

Lemma prep_ranks_ok s got now n i p p' : ranks_ok (ranks s) -> prep_ok got p -> Z.of_nat (i + n) <= ranksPerChannel c ->
  prep_ranks c s got now n i p = Ret p' ->
  prep_ok got p' /\ (seen p -> seen p') /\
  (forall r b, (i <= r < i + n)%nat -> 0 <= b < banksPerRank c -> got !! Z.to_nat (banksPerRank c * Z.of_nat r + b) = Some true -> seen p').
Proof.
  intros Hs. revert i p. induction n as [|n IH]; intros i p Hp Hi E; cbn [prep_ranks] in E.
  - injection E as <-. split_and!; [done..|]. intros k b Hk. lia.
  - apply bind_Ret in E as (p1 & E1 & E2).
    destruct (decide (0 <= banksPerRank c)) as [Hb|Hb].
    + destruct (prep_banks_ok s got now (Z.to_nat (banksPerRank c)) i 0 p p1 Hs Hp ltac:(lia) ltac:(lia) E1) as (Hp1 & Hm1 & Hg1).
      destruct (IH (S i) p1 Hp1 ltac:(lia) E2) as (Hp2 & Hm2 & Hg2). split_and!; [done|tauto|]. intros r b Hr Hb' Hg.
      destruct (decide (r = i)) as [->|]; [|apply (Hg2 r b); [lia|done..]]. apply Hm2. apply (Hg1 (Z.to_nat b)); [lia|]. by rewrite Z2Nat.id by lia.
    + replace (Z.to_nat (banksPerRank c)) with 0%nat in E1 by lia. injection E1 as <-.
      destruct (IH (S i) p Hp ltac:(lia) E2) as (Hp2 & Hm2 & Hg2). split_and!; [done..|]. intros r b Hr Hb'. lia.
Qed.

(** The rank of a burst takes requests. *)
Definition avail (s : DRAMCtrl) (d : DRAMPacket) : Prop := rank_available s (dp_rank d) = Ret true.

Lemma waiting_ok s q got got' : waiting s q got = Ret got' ->
  (forall k, got !! k = Some true -> got' !! k = Some true) /\
  (forall d, d ∈ q -> avail s d -> got' !! Z.to_nat (bankId d) = Some true) /\
  (forall k, got' !! k = Some true -> got !! k = Some true \/ exists d, d ∈ q /\ avail s d /\ Z.to_nat (bankId d) = k).
Proof.
  revert got. induction q as [|d q IH]; intros got E; cbn [waiting] in E.
  - injection E as <-. split_and!; [done|intros d Hd; by apply elem_of_nil in Hd|by left].
  - apply bind_Ret in E as (av & Ea & E). apply bind_Ret in E as (got1 & E1 & E). destruct (IH got1 E) as (H1 & H2 & H3). destruct av.
    + apply vwrite_Ret in E1 as [Hlt ->]. split_and!.
      * intros k Hk. apply H1. destruct (decide (k = Z.to_nat (bankId d))) as [->|]; [by apply list_lookup_insert_eq|by rewrite list_lookup_insert_ne].
      * intros e [->|He]%elem_of_cons Hav; [|by apply H2]. apply H1. by apply list_lookup_insert_eq.
      * intros k Hk. destruct (H3 k Hk) as [Hk'|(e & He & Hav & Ek)]; [|right; exists e; split; [by right|done]].
        destruct (decide (k = Z.to_nat (bankId d))) as [->|]; [right; exists d; split; [by left|done]|left; by rewrite list_lookup_insert_ne in Hk'].
    + injection E1 as <-. split_and!; [done| |].
      * intros e [->|He]%elem_of_cons Hav; [unfold avail in Hav; congruence|by apply H2].
      * intros k Hk. destruct (H3 k Hk) as [Hk'|(e & He & Hav & Ek)]; [by left|right; exists e; split; [by right|done]].
Qed.

(** The mask of [minBankPrep] holds banks that available bursts wait for, and one at
    least if there is such a burst. *)
Lemma minBankPrep_ok s q sw now e : ranks_ok (ranks s) -> Forall place_ok q -> minBankPrep c s q sw now = Ret e ->
  (forall k, 0 <= k -> Z.testbit e k = true -> exists d, d ∈ q /\ avail s d /\ bankId d = k) /\
  (forall d, d ∈ q -> avail s d -> exists k, 0 <= k /\ Z.testbit e k = true).
Proof.
  intros Hs Hq. unfold minBankPrep. intros (got & Eg & E)%bind_Ret. apply bind_Ret in E as (p & Ep & E). injection E as <-.
  destruct (waiting_ok s q _ got Eg) as (_ & Hg1 & Hg2).
  destruct (decide (0 <= ranksPerChannel c)) as [Hr|Hr].
  2:{ replace (Z.to_nat (ranksPerChannel c)) with 0%nat in Ep by lia. injection Ep as <-. split; [intros k _; cbn; by rewrite Z.bits_0|].
      intros d Hd. rewrite Forall_forall in Hq. destruct (Hq d Hd) as [? _ _]. lia. }
  destruct (prep_ranks_ok s got now (Z.to_nat (ranksPerChannel c)) 0 (mkPrep 0 MaxTick 0 MaxTick false) p Hs) as ([Hwd H1 H2 H3 H4 H5] & _ & Hseen);
    [split; cbn; try done; intros i _; by rewrite Z.bits_0|lia|exact Ep|].
  assert (Hmask : forall m, (forall i, 0 <= i -> Z.testbit m i = true -> got !! Z.to_nat i = Some true) ->
    forall k, 0 <= k -> Z.testbit m k = true -> exists d, d ∈ q /\ avail s d /\ bankId d = k).
  { intros m Hm k Hk Ht. destruct (Hg2 _ (Hm k Hk Ht)) as [Hf|(d & Hd & Hav & Ed)]; [apply lookup_replicate in Hf as [? _]; done|].
    exists d. split_and!; [done..|]. rewrite Forall_forall in Hq. destruct (Hq d Hd) as [Hdr Hdb ->]. rewrite (po_id _ (Hq d Hd)) in Ed. nia. }
  split; [destruct (_ || _); by apply Hmask|]. intros d Hd Hav.
  assert (Hsn : seen p).
  { pose proof Hq as Hq'. rewrite Forall_forall in Hq'. destruct (Hq' d Hd) as [Hdr Hdb Hid]. specialize (Hg1 d Hd Hav). rewrite Hid in Hg1.
    apply (Hseen (Z.to_nat (dp_rank d)) (dp_bank d)); [lia|lia|]. by rewrite Z2Nat.id by lia. }
  assert (Hbit : forall m, m <> 0 -> inword 64 m -> exists k, 0 <= k /\ Z.testbit m k = true).
  { intros m Hm [Hm0 _]. exists (Z.log2 m). split; [apply Z.log2_nonneg|]. apply Z.bit_log2. lia. }
  destruct Hwd as [Hw1 Hw2]. destruct (Z.eqb_spec (bank_mask p) 0) as [E0|E0]; cbn [orb].
  - apply Hbit; [|done]. by destruct Hsn.
  - destruct (negb sw && same_rank_match p && _) eqn:Ec; [|by apply Hbit]. apply Hbit; [|done]. apply H5. by apply andb_true_iff in Ec as [[_ ?]%andb_true_iff _].
Qed.

(** What the loop of [reorderQueue] found so far: an available burst, or no reason yet
    to stop looking. *)
Definition sel_ok (s : DRAMCtrl) (q : list DRAMPacket) (sel : option nat) : Prop :=
  forall i, sel = Some i -> exists d, q !! i = Some d /\ avail s d.

Lemma reorder_some s q sw now rest i e fe fp sel sel' : (forall k, rest !! k = q !! (i + k)%nat) -> sel_ok s q sel ->
  reorder_loop c s q sw now rest i e fe fp sel = Ret sel' -> sel_ok s q sel' /\ (is_Some sel -> is_Some sel').
Proof.
  revert i e fe fp sel. induction rest as [|d rest IH]; intros i e fe fp sel Hq Hsel E; cbn [reorder_loop] in E; [by injection E as <-|].
  apply bind_Ret in E as (b & _ & E). apply bind_Ret in E as (av & Ea & E).
  assert (Hq' : forall k, rest !! k = q !! (S i + k)%nat) by (intros k; specialize (Hq (S k)); cbn in Hq; by rewrite Nat.add_succ_comm).
  assert (Hd : q !! i = Some d) by (specialize (Hq 0%nat); by rewrite Nat.add_0_r in Hq).
  destruct av; [|by eapply IH]. assert (Hi : sel_ok s q (Some i)) by (intros k [= <-]; by exists d).
  assert (Hnew : forall e fe fp, reorder_loop c s q sw now rest (S i) e fe fp (Some i) = Ret sel' -> sel_ok s q sel' /\ (is_Some sel -> is_Some sel')).
  { intros e' fe' fp' E'. destruct (IH _ _ _ _ _ Hq' Hi E') as [H1 H2]. split; [done|]. intros _. apply H2. by eexists. }
  destruct (openRow b =? dp_row d).
  - destruct ((dp_rank d =? activeRank s) || sw); [injection E as <-; split; [done|]; intros _; by eexists|].
    destruct (negb fp); [by eapply Hnew|by eapply IH].
  - destruct (negb fe && negb fp); [|by eapply IH]. apply bind_Ret in E as (e' & _ & E). destruct (negb _); [by eapply Hnew|by eapply IH].
Qed.

(** If nothing was found, no burst of the rest is available and reported by the mask. *)
Lemma reorder_none s q sw now rest i e : (forall k, rest !! k = q !! (i + k)%nat) -> (e = 0 \/ minBankPrep c s q sw now = Ret e) ->
  reorder_loop c s q sw now rest i e false false None = Ret None ->
  forall d, d ∈ rest -> avail s d -> exists e', minBankPrep c s q sw now = Ret e' /\ (bits e' (bankId d) (bankId d) =? 0) = true.
Proof.
  revert i e. induction rest as [|d rest IH]; intros i e Hq He E d' Hd'; [by apply elem_of_nil in Hd'|]. cbn [reorder_loop] in E.
  apply bind_Ret in E as (b & _ & E). apply bind_Ret in E as (av & Ea & E).
  assert (Hq' : forall k, rest !! k = q !! (S i + k)%nat) by (intros k; specialize (Hq (S k)); cbn in Hq; by rewrite Nat.add_succ_comm).
  assert (Hd : q !! i = Some d) by (specialize (Hq 0%nat); by rewrite Nat.add_0_r in Hq).
  assert (Hno : av = true -> forall e fe fp, reorder_loop c s q sw now rest (S i) e fe fp (Some i) = Ret None -> False).
  { intros -> e' fe' fp' E'. destruct (reorder_some s q sw now rest (S i) e' fe' fp' (Some i) None Hq') as [_ H2]; [intros k [= <-]; by exists d|done|].
    destruct H2; [by eexists|done]. }
  destruct av.
  - destruct (openRow b =? dp_row d).
    + destruct ((dp_rank d =? activeRank s) || sw); [done|]. cbn [negb] in E. by apply Hno in E.
    + cbn [negb andb] in E. apply bind_Ret in E as (e' & Ee & E).
      assert (He' : minBankPrep c s q sw now = Ret e').
      { destruct (Z.eqb_spec e 0) as [->|]; [done|]. injection Ee as <-. by destruct He. }
      destruct (bits e' (bankId d) (bankId d) =? 0) eqn:Eb; cbn [negb] in E; [|by apply Hno in E].
      apply elem_of_cons in Hd' as [->|Hd']; [by exists e'|]. apply (IH (S i) e'); [done|by right|done..].
  - apply elem_of_cons in Hd' as [->|Hd']; [unfold avail; congruence|]. by apply (IH (S i) e).
Qed.

Lemma to_front_perm i q : to_front i q ≡ₚ q.
Proof. unfold to_front. destruct (q !! i) eqn:E; [|done]. symmetry. by apply delete_Permutation. Qed.

Lemma to_front_head i q d : q !! i = Some d -> head (to_front i q) = Some d.
Proof. unfold to_front. by intros ->. Qed.

(** The burst at the head of [q'] goes next; if none does, none could. *)
Definition chosen (s : DRAMCtrl) (q : list DRAMPacket) (found : bool) (q' : list DRAMPacket) : Prop :=
  q' ≡ₚ q /\ (found = true -> exists d, head q' = Some d /\ avail s d) /\ (found = false -> q' = q /\ forall d, d ∈ q -> rank_available s (dp_rank d) <> Ret true).

Lemma chosen_sel s q sel : sel_ok s q sel -> (sel = None -> forall d, d ∈ q -> ~ avail s d) ->
  let '(found, q') := match sel with Some i => (true, to_front i q) | None => (false, q) end in chosen s q found q'.
Proof.
  intros Hs Hn. destruct sel as [i|].
  - destruct (Hs i eq_refl) as (d & Hd & Hav). split_and!; [apply to_front_perm| |done]. intros _. exists d. split; [by apply to_front_head|done].
  - split_and!; [done|done|]. intros _. split; [done|]. by apply Hn.
Qed.

Lemma first_available_ok s q i sel : first_available s q i = Ret sel ->
  (forall k, sel = Some k -> exists d, (i <= k)%nat /\ q !! (k - i)%nat = Some d /\ avail s d) /\ (sel = None -> forall d, d ∈ q -> ~ avail s d).
Proof.
  revert i. induction q as [|d q IH]; intros i E; cbn [first_available] in E.
  - injection E as <-. split; [done|]. intros _ d Hd. by apply elem_of_nil in Hd.
  - apply bind_Ret in E as (av & Ea & E). destruct av.
    + injection E as <-. split; [|done]. intros k [= <-]. exists d. split; [done|]. by rewrite Nat.sub_diag.
    + destruct (IH (S i) E) as [H1 H2]. split.
      * intros k Ek. destruct (H1 k Ek) as (e & Hle & He & Hav). exists e. split_and!; [lia| |done]. by replace (k - i)%nat with (S (k - S i)) by lia.
      * intros En e [->|He]%elem_of_cons; [unfold avail; congruence|by apply H2].
Qed.

Lemma chooseNext_ok s q sw now found q' : ranks_ok (ranks s) -> Forall place_ok q -> chooseNext c s q sw now = Ret (found, q') -> q <> [] /\ chosen s q found q'.
Proof.
  intros Hs Hq. unfold chooseNext. intros ([] & Hnil%cassert_Ret & E)%bind_Ret. apply negb_true_iff, is_nil_false in Hnil. split; [done|].
  assert (Hmany : match memSchedPolicy c with
      | fcfs => sel ← first_available s q 0; Ret (match sel with Some i => (true, to_front i q) | None => (false, q) end)
      | frfcfs => reorderQueue c s q sw now
      end = Ret (found, q') -> chosen s q found q').
  { clear E. destruct (memSchedPolicy c).
    - intros (sel & Es & E)%bind_Ret. destruct (first_available_ok s q 0 sel Es) as [H1 H2].
      pose proof (chosen_sel s q sel) as Hc. destruct sel; injection E as <- <-; apply Hc; try done; intros k [= <-].
      destruct (H1 n eq_refl) as (d & _ & Hd & Hav). rewrite Nat.sub_0_r in Hd. by exists d.
    - unfold reorderQueue. intros (sel & Es & E)%bind_Ret. destruct (reorder_some s q sw now q 0 0 false false None sel) as [H1 _]; [done..|].
      pose proof (chosen_sel s q sel H1) as Hc. destruct sel; injection E as <- <-; apply Hc; [done|]. intros _ d Hd Hav.
      destruct (reorder_none s q sw now q 0 0 ltac:(done) ltac:(by left) Es d Hd Hav) as (e & He & _).
      destruct (minBankPrep_ok s q sw now e Hs Hq He) as [Hm1 Hm2]. destruct (Hm2 d Hd Hav) as (k & Hk & Ht).
      destruct (Hm1 k Hk Ht) as (d' & Hd' & Hav' & Ek). destruct (reorder_none s q sw now q 0 0 ltac:(done) ltac:(by left) Es d' Hd' Hav') as (e' & He' & Hb).
      assert (e' = e) as -> by congruence. rewrite Forall_forall in Hq. destruct (Hq d' Hd') as [Hr1 Hr2 Hid]. unfold bank_count in Hbanks.
      rewrite bit_test, Ek, Ht in Hb; [done|]. rewrite Hid. nia. }
  destruct q as [|d [|d2 q]]; [done| |by apply Hmany]. apply bind_Ret in E as (av & Ea & E). injection E as <- <-. split_and!; [done| |].
  - intros ->. by exists d.
  - intros ->. split; [done|]. intros e ->%list_elem_of_singleton. congruence.
Qed.

Context (Hburst : 0 <= burstSize c) (Hhigh : 0 <= writeHighThreshold c) (Hranks : 0 < ranksPerChannel c).

(** ** What the timing of an access leaves alone *)

(** The refresh state of a rank, and the range of the ticks of its banks. *)
Definition rank_keeps (r r' : Rank) : Prop := refreshState r' = refreshState r /\ (Forall bank_ok (banks r) -> Forall bank_ok (banks r')).

#[local] Instance rank_keeps_trans : PreOrder rank_keeps.
Proof. split; [by intros r|]. intros r1 r2 r3 [E1 H1] [E2 H2]. split; [congruence|tauto]. Qed.

Lemma u64_tick x : u64 x <= MaxTick.
Proof. assert (inword 64 (u64 x)) as H by (apply wrap_range; lia). unfold inword, MaxTick in *. lia. Qed.

Lemma upd_bank_keeps r j f r' : (forall b, bank_ok b -> bank_ok (f b)) -> upd_bank r j f = Ret r' -> rank_keeps r r'.
Proof.
  intros Hf. unfold upd_bank. intros (b & Hb%vread_Ret & E)%bind_Ret. apply bind_Ret in E as (bs & [_ ->]%vwrite_Ret & E). injection E as <-.
  split; [done|]. intros H. cbn. apply Forall_insert; [done|]. apply Hf. by eapply Forall_lookup_1.
Qed.

Lemma map_banks_keeps r f n : (forall b, bank_ok b -> bank_ok (f b)) -> rank_keeps r (r_with_banks r (f <$> banks r) n).
Proof. intros Hf. split; [done|]. intros H. cbn. apply Forall_fmap. by eapply Forall_impl. Qed.

Lemma xaw_keeps r t r' : enforce_xaw c r t = Ret r' -> rank_keeps r r'.
Proof.
  unfold enforce_xaw. destruct (last (actTicks r)) as [o|]; [|by intros [= <-]]. destruct (negb (o =? 0) && _); [done|].
  destruct (last _) as [o'|]; [|by intros [= <-]]. destruct (negb (o' =? 0) && _); intros [= <-]; [|done].
  refine (map_banks_keeps (r_with_actTicks r _) _ _ _). intros b Hb. unfold bank_ok in *. cbn. pose proof (u64_tick (o' + tXAW (T c))). lia.
Qed.

Lemma activate_keeps r j t row now r' : activateBank c r j t row now = Ret r' -> rank_keeps r r'.
Proof.
  unfold activateBank. intros (? & _ & E)%bind_Ret. apply bind_Ret in E as (b & _ & E). apply bind_Ret in E as (? & _ & E).
  apply bind_Ret in E as (r1 & E1 & E). apply upd_bank_keeps in E1; [|done]. apply bind_Ret in E as (? & _ & E). apply bind_Ret in E as (r2 & E2 & E).
  apply upd_bank_keeps in E2; [|done]. apply bind_Ret in E as (r3 & E3%xaw_keeps & E). apply bind_Ret in E as (ev & _ & E). injection E as <-.
  etransitivity; [exact E1|]. etransitivity; [exact E2|]. etransitivity; [|exact E3]. apply map_banks_keeps.
  intros b' Hb'. unfold bank_ok, enforce_rrd in *. cbn. match goal with |- Z.max (u64 ?x) _ <= _ => pose proof (u64_tick x) end. lia.
Qed.

Lemma precharge_keeps r j t now r' : prechargeBank c r j t now = Ret r' -> rank_keeps r r'.
Proof.
  unfold prechargeBank. intros (b & _ & E)%bind_Ret. apply bind_Ret in E as (? & _ & E). apply bind_Ret in E as (r1 & E1 & E).
  apply bind_Ret in E as (? & _ & E). apply bind_Ret in E as (ev & _ & E). injection E as <-. apply upd_bank_keeps in E1; [exact E1|].
  intros b' Hb'. unfold bank_ok in *. cbn. pose proof (u64_tick (t + tRP (T c))). lia.
Qed.

Lemma open_row_keeps i r j row now r' t l : open_row c i r j row now = Ret (r', t, l) -> rank_keeps r r'.
Proof.
  unfold open_row. intros (b & _ & E)%bind_Ret. destruct (openRow b =? row); [by injection E as <- <- <-|]. apply bind_Ret in E as ([r1 pre] & E1 & E).
  apply bind_Ret in E as (b1 & _ & E). apply bind_Ret in E as (r2 & E2%activate_keeps & E). apply bind_Ret in E as (b2 & _ & E). injection E as <- <- <-.
  etransitivity; [|exact E2]. destruct (negb _); [|by injection E1 as <- <-]. apply bind_Ret in E1 as (r0 & E1%precharge_keeps & E0). by injection E0 as <- <-.
Qed.

(** The parts of the state that requests and responses are about. *)
Definition avails (s : DRAMCtrl) : list bool := isAvailable <$> ranks s.
Record same_view (s s' : DRAMCtrl) : Prop := {
  sv_read : readQueue s' = readQueue s; sv_write : writeQueue s' = writeQueue s; sv_resp : respQueue s' = respQueue s;
  sv_helpers : helpers s' = helpers s; sv_bus : busState s' = busState s; sv_next : nextReqEvent s' = nextReqEvent s;
  sv_respond : respondEvent s' = respondEvent s; sv_rd : retryRdReq s' = retryRdReq s; sv_wr : retryWrReq s' = retryWrReq s;
  sv_drain : d_drainManager s' = d_drainManager s; sv_avail : avails s' = avails s; sv_ranks : ranks_ok (ranks s) -> ranks_ok (ranks s')
}.

#[local] Instance same_view_pre : PreOrder same_view.
Proof. split; [by intros s|]. intros s1 s2 s3 [] []. split; try congruence. tauto. Qed.

Lemma set_rank_view i r s : (forall r0, ranks s !! Z.to_nat i = Some r0 -> rank_keeps r0 r) -> wp (set_rank i r) (fun _ s' => same_view s s') s.
Proof.
  intros Hr. unfold set_rank. apply wp_bind, wp_get, wp_bind, wp_lift. intros rs [Hlt ->]%vwrite_Ret. apply wp_put.
  destruct (lookup_lt_is_Some_2 _ _ Hlt) as [r0 Hr0]. destruct (Hr r0 Hr0) as [Es Hb]. split; try done.
  - unfold avails. cbn. rewrite list_fmap_insert. apply list_insert_id. rewrite list_lookup_fmap, Hr0. cbn. unfold isAvailable. by rewrite Es.
  - intros H. cbn. apply Forall_insert; [done|]. apply Hb. by apply (Forall_lookup_1 _ _ _ _ H Hr0).
Qed.

Lemma delay_view s i gr t : same_view s (d_with_active (d_with_ranks s (delay_columns c i gr t (ranks s))) i).
Proof.
  split; try done.
  - unfold avails, delay_columns. cbn. rewrite fmap_imap. apply list_eq. intros k. rewrite list_lookup_imap, list_lookup_fmap. by destruct (ranks s !! k).
  - unfold ranks_ok, delay_columns. cbn. rewrite !Forall_lookup. intros H k r. rewrite list_lookup_imap. destruct (ranks s !! k) as [r0|] eqn:Er; [|done]. intros [= <-].
    cbn. apply Forall_fmap. eapply Forall_impl; [exact (H k r0 Er)|]. intros b Hb. exact Hb.
Qed.

Lemma access_view d now s : wp (doDRAMAccess c d now) (fun d' s' => same_view s s' /\ d' = dp_with_ready d (readyTime d')) s.
Proof.
  unfold doDRAMAccess. cbv zeta. apply wp_bind, wp_get, wp_bind, wp_lift. intros r Hr%vread_Ret. apply wp_bind, wp_lift. intros [[r1 t] l1] E1%open_row_keeps.
  apply wp_bind. eapply wp_mono; [apply (set_rank_view (dp_rank d) r1 s); intros r0 Hr0; congruence|]. cbv beta. intros [] s1 V1.
  apply wp_bind, wp_emit_all, wp_bind, wp_check. intros _. apply wp_bind, wp_lift. intros b _. apply wp_bind, wp_get, wp_bind, wp_put, wp_bind, wp_get, wp_bind, wp_lift.
  intros r2 Hr2%vread_Ret. apply wp_bind, wp_lift. intros r3 E3. apply upd_bank_keeps in E3; [|done].
  apply wp_bind, wp_lift. intros b3 _. apply wp_bind, wp_lift. intros [r4 l4] E4. pose proof (delay_view s1 (dp_rank d) (bankgr b)) as V2.
  assert (K4 : rank_keeps r2 r4) by (etransitivity; [exact E3|]; destruct (auto_precharge _ _ _ _); [apply bind_Ret in E4 as (r0 & E4%precharge_keeps & E0); by injection E0 as <- <-|by injection E4 as <- <-]).
  apply wp_bind. eapply wp_mono; [eapply set_rank_view; intros r0 Hr0; congruence|]. cbv beta. intros [] s4 V4.
  apply wp_bind, wp_emit_all, wp_bind, wp_get, wp_bind, wp_put, wp_ret. split; [|done].
  etransitivity; [exact V1|]. etransitivity; [apply V2|]. etransitivity; [exact V4|]. by destruct (isRead d).
Qed.

(** ** The invariant *)

(** The helpers of the bursts of split reads: the bursts that were served and those that
    wait, for themselves or for their response, are all the bursts of the read. *)
Definition waits (i : nat) (ids : list (option nat)) : Z := Z.of_nat (count_occ option_eq_dec ids (Some i)).
Definition helpers_ok (hs : list BurstHelper) (ids : list (option nat)) : Prop :=
  forall i, Some i ∈ ids -> exists h, hs !! i = Some h /\ burstsServiced h + waits i ids = burstCount h /\ 0 <= burstsServiced h /\ burstCount h < 2 ^ 32.

Definition pending (s : DRAMCtrl) : list DRAMPacket := readQueue s ++ respQueue s.
Definition ready_le (d e : DRAMPacket) : Prop := readyTime d <= readyTime e.
Definition bus_writes (b : BusState) : bool := match b with READ_TO_WRITE | WRITE => true | _ => false end.

Record core_inv (s : DRAMCtrl) : Prop := {
  ci_ranks : ranks_ok (ranks s);
  ci_place_read : Forall place_ok (readQueue s);
  ci_place_write : Forall place_ok (writeQueue s);
  ci_read : Z.of_nat (length (pending s)) <= readBufferSize c;
  ci_write : Z.of_nat (length (writeQueue s)) <= writeBufferSize c;
  ci_respond : respondEvent s = readyTime <$> head (respQueue s);
  ci_sorted : StronglySorted ready_le (respQueue s);
  ci_bus : bus_writes (busState s) = true -> writeQueue s <> [];
  ci_helpers : helpers_ok (helpers s) (burstHelper <$> pending s);
  ci_retryRd : retryRdReq s = true -> pending s <> [];
  ci_retryWr : retryWrReq s = true -> writeQueue s <> []
}.

(** Nothing is to be done until a request arrives. *)
Definition resting (s : DRAMCtrl) : Prop :=
  readQueue s = [] /\ busState s = READ /\ (writeQueue s = [] \/ d_drainManager s = false /\ Z.of_nat (length (writeQueue s)) <= writeLowThreshold c).
Definition awake (s : DRAMCtrl) : Prop := nextReqEvent s = None -> false ∈ avails s \/ resting s.

Record ctrl_inv (s : DRAMCtrl) : Prop := { inv_core : core_inv s; inv_awake : awake s }.

Lemma core_view s s' : same_view s s' -> core_inv s -> core_inv s'.
Proof.
  intros [E1 E2 E3 E4 E5 E6 E7 E8 E9 E10 E11 E12] []. unfold pending in *. split; unfold pending; rewrite ?E1, ?E2, ?E3, ?E4, ?E5, ?E7, ?E8, ?E9; try done. by apply E12.
Qed.
Lemma awake_view s s' : same_view s s' -> awake s -> awake s'.
Proof. intros [E1 E2 E3 E4 E5 E6 E7 E8 E9 E10 E11 E12]. unfold awake, resting. by rewrite E1, E2, E5, E6, E10, E11. Qed.
Lemma inv_view s s' : same_view s s' -> ctrl_inv s -> ctrl_inv s'.
Proof. intros V [H1 H2]. split; [by eapply core_view|by eapply awake_view]. Qed.

Lemma respond_view pkt hd lat now s : wp (accessAndRespond pkt hd lat now) (fun _ s' => same_view s s') s.
Proof.
  unfold accessAndRespond. cbv zeta. apply wp_bind, wp_get, wp_bind, wp_lift. intros [[m p] l] _. apply wp_bind, wp_put.
  destruct (cmd_needsResponse _); [|by apply wp_ret]. apply wp_bind, wp_check. intros _. by apply wp_emit.
Qed.

(** Requests are going to be looked at. *)
Lemma kick_ok when now s : core_inv s -> wp (kick_requests when now) (fun _ s' => ctrl_inv s') s.
Proof.
  intros Hs. unfold kick_requests. apply wp_bind, wp_get. destruct (nextReqEvent s) eqn:E.
  - apply wp_ret. split; [done|]. intros H. congruence.
  - apply wp_bind, wp_lift. intros ev Ee. apply wp_put. unfold schedule_at in Ee. apply bind_Ret in Ee as (? & _ & Ee). apply bind_Ret in Ee as (? & _ & Ee).
    injection Ee as <-. split; [|done]. by destruct Hs.
Qed.

(** *** Writes *)

Lemma merge_write_place addr size w w' : merge_write c addr size w = Some w' -> place_ok w -> place_ok w'.
Proof. unfold merge_write. intros E []. repeat case_match; try done; injection E as <-; by split. Qed.

Lemma merge_writes_ok addr size q q' : merge_writes c addr size q = Some q' -> length q' = length q /\ (Forall place_ok q -> Forall place_ok q').
Proof.
  revert q'. induction q as [|w q IH]; intros q' E; cbn [merge_writes] in E; [done|]. destruct (merge_write c addr size w) as [w'|] eqn:Ew.
  - injection E as <-. split; [done|]. intros [Hw Hq]%Forall_cons. apply Forall_cons. split; [by eapply merge_write_place|done].
  - destruct (merge_writes c addr size q) as [q1|] eqn:E1; [|done]. injection E as <-. destruct (IH q1 eq_refl) as [Hl Hf]. split; [cbn; congruence|].
    intros [Hw Hq]%Forall_cons. apply Forall_cons. by split; [|apply Hf].
Qed.

Lemma decodeAddr_ok s pkt hd a n rd now d : decodeAddr c s pkt hd a n rd now = Ret d -> place_ok d /\ burstHelper d = None.
Proof.
  unfold decodeAddr. intros ([[rank bank] row] & Ed & E)%bind_Ret. apply bind_Ret in E as (? & Hr%cassert_Ret & E). apply bind_Ret in E as (? & Hb%cassert_Ret & E).
  apply bind_Ret in E as (? & _ & E). apply bind_Ret in E as (? & Hrow%cassert_Ret & E). apply bind_Ret in E as (r & _ & E). apply bind_Ret in E as (b & _ & E). injection E as <-.
  split; [|done].
  assert (Hpos : 0 <= rank /\ 0 <= bank).
  { assert (Hw : forall y, 0 <= u8 y) by (intros y; apply (wrap_range 8); lia). unfold decode in Ed. apply bind_Ret in Ed as (a0 & _ & Ed).
    destruct (addrMapping c); repeat (apply bind_Ret in Ed as (? & _ & Ed)); injection Ed as <- <- <-; split; apply Hw. }
  apply Z.ltb_lt in Hr, Hb, Hrow. split; cbn; [lia|lia| |done]. unfold bank_count in Hbanks.
  assert (Hid : 0 <= banksPerRank c * rank + bank < 64) by nia. rewrite (wrap_small 32), wrap_small; [done|..]; (split; [lia|]).
  - change (2 ^ 16) with 65536. lia.
  - change (2 ^ 32) with 4294967296. lia.
Qed.
#[local] Hint Resolve decodeAddr_ok : dram.

Lemma write_bursts_ok n pkt hd a now s : Forall place_ok (writeQueue s) -> Z.of_nat (length (writeQueue s)) <= writeBufferSize c ->
  wp (write_bursts c n pkt hd a now) (fun _ s' => exists q, s' = d_with_write s q /\ Forall place_ok q /\ Z.of_nat (length q) <= writeBufferSize c /\
    (length (writeQueue s) <= length q)%nat /\ ((0 < n)%nat -> q <> [])) s.
Proof.
  revert a s. induction n as [|n IH]; intros a s Hp Hl; cbn [write_bursts].
  - apply wp_ret. exists (writeQueue s). split_and!; [by destruct s|done..|lia].
  - cbv zeta. apply wp_bind, wp_get, wp_bind. eapply (wp_mono _ (fun _ s' => exists q, s' = d_with_write s q /\ Forall place_ok q /\ Z.of_nat (length q) <= writeBufferSize c /\
      (length (writeQueue s) <= length q)%nat /\ q <> [])).
    + destruct (merge_writes c a (burst_bytes c pkt a) (writeQueue s)) as [q|] eqn:E.
      * apply wp_put. exists q. destruct (merge_writes_ok _ _ _ _ E) as [El Hq]. split_and!; [done|by apply Hq|lia|lia|].
        intros ->. destruct (writeQueue s); [done|]. done.
      * apply wp_bind, wp_lift. intros d [Hd _]%decodeAddr_ok. apply wp_bind, wp_check. intros Hlt%Z.ltb_lt. apply wp_put. eexists. split; [done|].
        rewrite length_app. cbn. split_and!; [apply Forall_app; split; [done|by apply Forall_singleton]|lia|lia|]. by destruct (writeQueue s).
    + cbv beta. intros [] s1 (q & -> & Hq1 & Hq2 & Hq3 & Hq4). eapply wp_mono; [apply (IH _ (d_with_write s q)); done|]. cbv beta.
      intros [] s2 (q' & -> & Hp' & Hl' & Hle & _). exists q'. cbn in Hle. split_and!; [by destruct s|done|done|lia|]. intros _ ->. destruct q; [done|cbn in Hle; lia].
Qed.

Lemma core_write s q : core_inv s -> Forall place_ok q -> Z.of_nat (length q) <= writeBufferSize c -> (length (writeQueue s) <= length q)%nat -> core_inv (d_with_write s q).
Proof.
  intros [] Hp Hl Hle. split; try done; cbn; intros H; [specialize (ci_bus0 H)|specialize (ci_retryWr0 H)]; intros ->; by destruct (writeQueue s); [|cbn in Hle; lia].
Qed.

Lemma add_write_ok pkt hd n now s : core_inv s -> wp (addToWriteQueue c pkt hd n now) (fun _ s' => ctrl_inv s') s.
Proof.
  intros Hs. unfold addToWriteQueue. apply wp_bind, wp_check. intros _. apply wp_bind. eapply wp_mono; [apply write_bursts_ok; apply Hs|]. cbv beta.
  intros [] s1 (q & -> & Hp & Hl & Hle & _). apply wp_bind. eapply wp_mono; [apply respond_view|]. cbv beta. intros [] s2 V.
  apply kick_ok. eapply core_view; [exact V|]. by apply core_write.
Qed.

(** *** Reads *)

(** The bursts a read adds to the queue, with the helper they share. *)
Record read_added (s : DRAMCtrl) (n : nat) (pktCount : Z) (helper : option nat) (serviced : Z) (h' : option nat) (serviced' : Z) (new : list DRAMPacket) (hs : list BurstHelper) : Prop := {
  ra_place : Forall place_ok new;
  ra_room : new <> [] -> Z.of_nat (length (pending s) + length new) <= readBufferSize c;
  ra_count : serviced' + Z.of_nat (length new) = serviced + Z.of_nat n;
  ra_pos : serviced <= serviced';
  ra_helper : Forall (fun d => burstHelper d = h') new;
  ra_split : 1 < pktCount -> new <> [] -> is_Some h';
  ra_same : hs = [] -> h' = helper;
  ra_fresh : hs <> [] -> hs = [mkBurstHelper pktCount 0] /\ (1 < pktCount /\ helper = None) /\ h' = Some (length (helpers s)) /\ new <> []
}.

Lemma read_bursts_ok n pkt hd pktCount a helper serviced now s : 0 <= serviced -> serviced + Z.of_nat n < 2 ^ 32 ->
  wp (read_bursts c n pkt hd pktCount a helper serviced now) (fun r s' => exists new hs, s' = d_with_read (d_with_helpers s (helpers s ++ hs)) (readQueue s ++ new) /\
    read_added s n pktCount helper serviced r.1 r.2 new hs) s.
Proof.
  revert a helper serviced s. induction n as [|n IH]; intros a helper serviced s Hs0 Hs; cbn [read_bursts].
  - apply wp_ret. exists [], []. rewrite !app_nil_r. split; [by destruct s|]. split; cbn; try done; lia.
  - cbv zeta. apply wp_bind, wp_get. destruct (existsb _ _).
    + rewrite (wrap_small 32) by (unfold inword; lia). eapply wp_mono; [apply IH; lia|]. cbv beta. intros [h' sv'] s' (new & hs & -> & []).
      exists new, hs. split; [done|]. split; try done; cbn in *; lia.
    + apply wp_bind. set (mk := (1 <? pktCount) && match helper with None => true | Some _ => false end).
      eapply (wp_mono _ (fun h1 s1 => exists hs1, s1 = d_with_helpers s (helpers s ++ hs1) /\
        (if mk then hs1 = [mkBurstHelper pktCount 0] /\ h1 = Some (length (helpers s)) else hs1 = [] /\ h1 = helper))).
      { destruct mk; [apply wp_bind, wp_put, wp_ret; by eexists|apply wp_ret; exists []; by rewrite app_nil_r; destruct s]. }
      cbv beta. intros h1 s1 (hs1 & -> & Hh1). apply wp_bind, wp_get, wp_bind, wp_lift. intros d [Hd Hdh]%decodeAddr_ok. apply wp_bind, wp_check. intros Hroom%negb_true_iff.
      apply wp_bind, wp_put. eapply wp_mono; [apply IH; lia|]. cbv beta. intros [h' sv'] s' (new & hs & -> & []). cbn [fst snd] in *.
      unfold readQueueFull in Hroom. apply Z.ltb_ge in Hroom. cbn in Hroom.
      assert (Hone : hs = []).
      { destruct hs as [|x hs]; [done|]. destruct ra_fresh0 as (_ & [Hlt E] & _); [done|]. exfalso. unfold mk in Hh1. apply Z.ltb_lt in Hlt. rewrite Hlt in Hh1. cbn [andb] in Hh1.
        destruct helper; destruct Hh1; congruence. }
      subst hs. specialize (ra_same0 eq_refl). subst h'. exists (dp_with_helper d h1 :: new), hs1. split; [by destruct s; cbn; rewrite app_nil_r, <- app_assoc|].
      split; cbn [length].
      * apply Forall_cons. split; [by destruct Hd; split|done].
      * intros _. unfold pending in *. rewrite length_app. cbn in ra_room0. destruct new as [|x new]; [cbn; lia|]. specialize (ra_room0 ltac:(done)).
        rewrite !length_app in ra_room0. cbn in *. lia.
      * lia.
      * lia.
      * apply Forall_cons. by split.
      * intros Hlt _. apply Z.ltb_lt in Hlt. unfold mk in Hh1. rewrite Hlt in Hh1. cbn [andb] in Hh1. destruct helper; destruct Hh1 as [_ ->]; by eexists.
      * intros ->. by destruct mk; destruct Hh1.
      * intros Hn. destruct mk eqn:Emk; [|by destruct Hh1]. destruct Hh1 as [-> ->]. unfold mk in Emk. apply andb_true_iff in Emk as [Hlt%Z.ltb_lt Hh].
        destruct helper; [done|]. done.
Qed.

Lemma waits_app i l k : waits i (l ++ k) = waits i l + waits i k.
Proof. unfold waits. rewrite count_occ_app. lia. Qed.
Lemma waits_replicate i n o : waits i (replicate n o) = if bool_decide (o = Some i) then Z.of_nat n else 0.
Proof.
  unfold waits. induction n as [|n IH]; cbn; [by case_bool_decide|]. destruct (option_eq_dec o (Some i)) as [E|E]; case_bool_decide; try done; lia.
Qed.
Lemma waits_none i l : Some i ∉ l -> waits i l = 0.
Proof.
  unfold waits. intros H. assert (count_occ option_eq_dec l (Some i) = 0%nat) as ->; [|done]. apply count_occ_not_In. intros Hin. apply H. by apply list_elem_of_In.
Qed.

Lemma helpers_perm hs l k : l ≡ₚ k -> helpers_ok hs l -> helpers_ok hs k.
Proof.
  intros Hp H i Hi. destruct (H i) as (h & Eh & Ew & Hh); [by rewrite Hp|]. exists h. split; [done|]. split; [|done]. rewrite <- Ew. f_equal. unfold waits. f_equal.
  symmetry. by apply (Permutation_count_occ option_eq_dec).
Qed.

Lemma helpers_lt hs l i : helpers_ok hs l -> Some i ∈ l -> (i < length hs)%nat.
Proof. intros H Hi. destruct (H i Hi) as (h & Eh & _). by eapply lookup_lt_Some. Qed.

(** A read whose bursts share no helper, and one with a helper of its own. *)
Lemma helpers_single hs l n : helpers_ok hs l -> helpers_ok hs (l ++ replicate n None).
Proof.
  intros H i [Hi|Hi%elem_of_replicate]%elem_of_app; [|by destruct Hi]. destruct (H i Hi) as (h & Eh & Ew & Hh). exists h. split_and!; try done; try tauto.
  rewrite waits_app, waits_replicate. rewrite bool_decide_false by done. lia.
Qed.
Lemma helpers_shared hs l n h : helpers_ok hs l -> burstsServiced h + Z.of_nat n = burstCount h -> 0 <= burstsServiced h -> burstCount h < 2 ^ 32 ->
  helpers_ok (hs ++ [h]) (l ++ replicate n (Some (length hs))).
Proof.
  intros H E H0 H1 i Hi. rewrite waits_app, waits_replicate. destruct (decide (i = length hs)) as [->|Hne].
  - exists h. rewrite lookup_app_r, Nat.sub_diag, bool_decide_true by done. split_and!; try done. rewrite waits_none; [lia|]. intros Hl. apply (helpers_lt _ _ _ H) in Hl. lia.
  - rewrite bool_decide_false by congruence. apply elem_of_app in Hi as [Hi|[Hi _]%elem_of_replicate]; [|congruence].
    destruct (H i Hi) as (h0 & Eh & Ew & Hh). exists h0. split_and!; try tauto; [|lia]. by apply lookup_app_l_Some.
Qed.

Lemma core_read s hs new : core_inv s -> Forall place_ok new -> Z.of_nat (length (pending s) + length new) <= readBufferSize c ->
  helpers_ok hs ((burstHelper <$> pending s) ++ (burstHelper <$> new)) -> core_inv (d_with_read (d_with_helpers s hs) (readQueue s ++ new)).
Proof.
  intros [] Hp Hl Hh. unfold pending in *. split; try done; unfold pending; cbn.
  - by apply Forall_app.
  - rewrite !length_app in *. lia.
  - eapply helpers_perm; [|exact Hh]. rewrite <- fmap_app. apply fmap_Permutation. solve_Permutation.
  - intros H. specialize (ci_retryRd0 H). destruct (readQueue s); [|done]. cbn in *. by destruct new.
Qed.

Lemma add_read_ok pkt hd n now s : ctrl_inv s -> 0 <= n < 2 ^ 32 -> wp (addToReadQueue c pkt hd n now) (fun _ s' => ctrl_inv s') s.
Proof.
  intros Hs Hn. unfold addToReadQueue. apply wp_bind, wp_check. intros _. apply wp_bind, wp_check. intros Hn0%negb_true_iff%Z.eqb_neq. apply wp_bind.
  eapply wp_mono; [apply read_bursts_ok; lia|]. cbv beta. intros [h' sv] s1 (new & hs & -> & []). cbn [fst snd] in *. rewrite Z2Nat.id in ra_count0 by lia.
  assert (Hids : burstHelper <$> new = replicate (length new) h').
  { clear - ra_helper0. induction ra_helper0 as [|d new E _ IH]; [done|]. cbn. by rewrite E, IH. }
  destruct (Z.eqb_spec sv n) as [->|Hne].
  - assert (new = []) as -> by (destruct new; [done|cbn in ra_count0; lia]). assert (hs = []) as -> by (destruct hs; [done|]; by destruct ra_fresh0 as (_ & _ & _ & ?)).
    rewrite !app_nil_r. eapply wp_mono; [apply respond_view|]. cbv beta. intros [] s2 V. eapply inv_view; [exact V|]. by destruct s.
  - assert (new <> []) as Hnew by (intros ->; cbn in ra_count0; lia). specialize (ra_room0 Hnew). destruct h' as [i|].
    + destruct hs as [|h hs]; [by specialize (ra_same0 eq_refl)|]. destruct ra_fresh0 as ([= -> ->] & _ & [= ->] & _); [done|].
      apply wp_bind, wp_bind, wp_get, wp_bind, wp_lift. intros h0 Eh%vread_Ret. cbn in Eh. rewrite lookup_app_r, Nat.sub_diag in Eh by done. injection Eh as <-.
      apply wp_bind, wp_lift. intros hs [_ ->]%vwrite_Ret. apply wp_put. cbn [helpers d_with_read d_with_helpers]. rewrite insert_app_r_alt, Nat.sub_diag by done. cbn [list_insert insert].
      match goal with |- wp _ _ ?x => replace x with (d_with_read (d_with_helpers s (helpers s ++ [mkBurstHelper n sv])) (readQueue s ++ new)) by (by destruct s) end.
      apply kick_ok, core_read; [apply Hs|done|done|]. rewrite Hids. apply helpers_shared; cbn; [apply Hs|lia..].
    + assert (hs = []) as -> by (destruct hs; [done|]; by destruct ra_fresh0 as (_ & _ & ? & _)). rewrite app_nil_r.
      apply wp_bind, wp_ret. apply kick_ok, core_read; [apply Hs|done|done|]. rewrite Hids. apply helpers_single, Hs.
Qed.

(** *** Requests and responses *)

Lemma count_word pkt n : dram_pkt_count c pkt = Ret n -> 0 <= n < 2 ^ 32.
Proof.
  unfold dram_pkt_count, divCeil. destruct (Z.eqb_spec (burstSize c) 0); [done|]. intros [= <-].
  match goal with |- 0 <= wrap 32 ?x / _ < _ => assert (inword 32 (wrap 32 x)) as [H1 H2] by (apply wrap_range; lia) end.
  split; [apply Z.div_pos; lia|]. apply Z.div_lt_upper_bound; [lia|]. nia.
Qed.

(** A packet is no larger than the buffers. *)
Definition fits (pkt : Packet) : Prop := forall n, dram_pkt_count c pkt = Ret n -> n <= readBufferSize c /\ n <= writeBufferSize c.

Lemma retry_rd s : ctrl_inv s -> pending s <> [] -> ctrl_inv (d_with_retryRd s true).
Proof. intros [[] Ha] Hp. split; [by split|done]. Qed.
Lemma retry_wr s : ctrl_inv s -> writeQueue s <> [] -> ctrl_inv (d_with_retryWr s true).
Proof. intros [[] Ha] Hp. split; [by split|done]. Qed.

Lemma req_ok pkt hd now s : ctrl_inv s -> fits pkt -> wp (dram_recvTimingReq c pkt hd now) (fun _ s' => ctrl_inv s') s.
Proof.
  intros Hs Hfit. unfold dram_recvTimingReq. destruct (memInhibitAsserted pkt); [by apply wp_ret|]. apply wp_bind, wp_get, wp_bind, wp_put, wp_bind, wp_lift.
  intros n Hn. destruct (Hfit n Hn) as [Hf1 Hf2]. assert (Hs1 : ctrl_inv (d_with_arrival s now)) by (eapply inv_view; [|exact Hs]; by split).
  apply wp_bind, wp_get. revert Hs1. generalize (d_with_arrival s now). clear s Hs. intros s Hs. destruct (cmd_isRead (pkt_cmd pkt)); [|destruct (cmd_isWrite (pkt_cmd pkt))].
  - apply wp_bind, wp_check. intros _. destruct (readQueueFull c s n) eqn:Ef.
    + apply wp_bind, wp_put, wp_ret. apply retry_rd; [done|]. unfold readQueueFull in Ef. apply Z.ltb_lt in Ef. unfold pending. intros E.
      apply app_nil in E as [E1 E2]. rewrite E1, E2 in Ef. cbn in Ef. lia.
    + apply wp_bind. eapply wp_mono; [apply add_read_ok; [done|by eapply count_word]|]. cbv beta. intros [] s' Hs'. by apply wp_ret.
  - apply wp_bind, wp_check. intros _. destruct (writeQueueFull c s n) eqn:Ef.
    + apply wp_bind, wp_put, wp_ret. apply retry_wr; [done|]. unfold writeQueueFull in Ef. apply Z.ltb_lt in Ef. intros E. rewrite E in Ef. cbn in Ef. lia.
    + apply wp_bind. eapply wp_mono; [apply add_write_ok, Hs|]. cbv beta. intros [] s' Hs'. by apply wp_ret.
  - apply wp_bind. eapply wp_mono; [apply respond_view|]. cbv beta. intros [] s' V. apply wp_ret. by eapply inv_view.
Qed.

Lemma helpers_skip hs l : helpers_ok hs (None :: l) -> helpers_ok hs l.
Proof. intros H i Hi. destruct (H i) as (h & Eh & Ew & Hh); [by right|]. exists h. destruct Hh. by split_and!. Qed.

Lemma helpers_served hs l i h : helpers_ok hs (Some i :: l) -> hs !! i = Some h ->
  helpers_ok (<[i:=mkBurstHelper (burstCount h) (u32 (burstsServiced h + 1))]> hs) l /\
  (burstsServiced h < burstCount h) /\ (u32 (burstsServiced h + 1) = burstCount h <-> Some i ∉ l).
Proof.
  intros H Eh. assert (Hw : forall k l, waits k (Some i :: l) = waits k l + if bool_decide (k = i) then 1 else 0).
  { intros k l'. unfold waits. cbn [count_occ]. destruct (option_eq_dec (Some i) (Some k)) as [E|E]; case_bool_decide; try congruence; lia. }
  destruct (H i) as (h0 & Eh0 & Ew & Hp & Hm); [by left|]. assert (h0 = h) as -> by congruence. rewrite Hw, bool_decide_true in Ew by done.
  assert (Hpos : 0 <= waits i l) by (unfold waits; lia).
  assert (Eu : u32 (burstsServiced h + 1) = burstsServiced h + 1) by (apply wrap_small; unfold inword; lia). split_and!.
  - intros k Hk. destruct (decide (k = i)) as [->|Hne].
    + eexists. rewrite list_lookup_insert_eq by (by eapply lookup_lt_Some). split; [done|]. cbn. rewrite Eu. lia.
    + rewrite list_lookup_insert_ne by done. destruct (H k) as (h1 & E1 & E2 & E3); [by right|]. exists h1. rewrite Hw, bool_decide_false in E2 by done. split_and!; try done; [lia|tauto..].
  - lia.
  - rewrite Eu. split; [|intros Hn; rewrite (waits_none i l Hn) in Ew; lia]. intros E Hin. assert (0 < waits i l); [|lia].
    unfold waits. assert (count_occ option_eq_dec l (Some i) > 0)%nat; [|lia]. apply count_occ_In. by apply list_elem_of_In.
Qed.

(** The state after the head [d] of the responses has gone. *)
Definition popped (s : DRAMCtrl) (hs : list BurstHelper) (rest : list DRAMPacket) : DRAMCtrl :=
  d_with_retryRd (d_with_respond (d_with_resp (d_with_helpers s hs) rest) (readyTime <$> head rest)) false.

Lemma core_pop s d rest hs : core_inv s -> respQueue s = d :: rest -> helpers_ok hs (burstHelper <$> (readQueue s ++ rest)) -> core_inv (popped s hs rest).
Proof.
  intros [] E Hh. unfold pending in *. rewrite E in *. split; try done; unfold pending; cbn.
  - rewrite !length_app in *. cbn in *. lia.
  - by apply StronglySorted_inv in ci_sorted0 as [? _].
Qed.

(** Helpers once [d] is served, and the packet is answered. *)
Lemma respond_helpers d s lat now : helpers_ok (helpers s) (burstHelper d :: (burstHelper <$> (readQueue s ++ tail (respQueue s)))) ->
  wp match burstHelper d with
     | Some i =>
         h ← lift (vread (helpers s) i);
         let h := mkBurstHelper (burstCount h) (u32 (burstsServiced h + 1)) in
         hs ← lift (vwrite (helpers s) i h);
         _ ← put (d_with_helpers s hs);
         if burstsServiced h =? burstCount h then accessAndRespond (dp_pkt d) (dp_headerDelay d) lat now else ret tt
     | None => accessAndRespond (dp_pkt d) (dp_headerDelay d) lat now
     end (fun _ s' => exists hs, same_view (d_with_helpers s hs) s' /\ helpers_ok hs (burstHelper <$> (readQueue s ++ tail (respQueue s)))) s.
Proof.
  intros H. destruct (burstHelper d) as [i|] eqn:Ed.
  - apply wp_bind, wp_lift. intros h Eh%vread_Ret. cbv zeta. apply wp_bind, wp_lift. intros hs [_ ->]%vwrite_Ret. apply wp_bind, wp_put.
    destruct (helpers_served _ _ _ _ H Eh) as (Hh & _ & _). destruct (_ =? _).
    + eapply wp_mono; [apply respond_view|]. cbv beta. intros [] s' V. eexists. by split.
    + apply wp_ret. eexists. by split.
  - eapply wp_mono; [apply respond_view|]. cbv beta. intros [] s' V. exists (helpers s). split; [|by apply helpers_skip]. by destruct s.
Qed.

Lemma dram_respond_ok now s : ctrl_inv s -> wp (run_respond c now) (fun _ s' => ctrl_inv s') s.
Proof.
  intros [Hc Ha]. unfold run_respond, processRespondEvent. apply wp_bind, wp_get, wp_bind, wp_check. intros Hdue. apply wp_bind, wp_put, wp_bind, wp_get.
  destruct (respQueue (d_with_respond s None)) as [|d rest] eqn:Eq; [by apply wp_lift|]. cbn in Eq. apply wp_bind.
  eapply wp_mono; [apply (respond_helpers d (d_with_respond s None)); cbn [readQueue respQueue helpers d_with_respond]|].
  { eapply helpers_perm; [|apply Hc]. unfold pending. rewrite Eq. cbn [tail]. rewrite !fmap_app. cbn. solve_Permutation. }
  cbv beta. intros [] s1 (hs & V & Hh). cbn [readQueue respQueue d_with_respond] in Hh. rewrite Eq in Hh. cbn [tail] in Hh.
  apply wp_bind, wp_get, wp_bind, wp_put, wp_bind, wp_get. apply wp_bind.
  pose proof (core_pop s d rest hs Hc Eq Hh) as Hp.
  eapply (wp_mono _ (fun _ s2 => exists dr, same_view (d_with_drain (d_with_retryRd (popped s hs rest) (retryRdReq s)) dr) s2 /\ (dr = d_drainManager s \/ dr = false))).
  - destruct V, rest as [|e rest].
    + destruct (is_nil _ && is_nil _ && _); [apply wp_bind, wp_emit, wp_put; exists false|apply wp_ret; exists (d_drainManager s)]; (split; [|auto]); split; cbn in *; try done.
    + apply wp_bind, wp_check. intros _. apply wp_bind, wp_lift. intros ev Ee. apply wp_put. unfold schedule_at in Ee. apply bind_Ret in Ee as (? & _ & Ee).
      apply bind_Ret in Ee as (? & _ & Ee). injection Ee as <-. exists (d_drainManager s). split; [|auto]. split; cbn in *; done.
  - cbv beta. intros [] s2 (dr & V2 & Hdr). apply wp_bind, wp_get.
    assert (Hfin : forall s3, same_view (d_with_drain (popped s hs rest) dr) s3 -> ctrl_inv s3).
    { intros s3 V3. eapply inv_view; [exact V3|]. split; [by destruct Hp|]. intros Hn. destruct (Ha Hn) as [?|(H1 & H2 & H3)]; [by left|right].
      split_and!; [done..|]. cbn. destruct H3 as [?|[? ?]]; [by left|]. right. split; [|done]. destruct Hdr as [->| ->]; done. }
    destruct (retryRdReq s2) eqn:Er; [apply wp_bind, wp_put, wp_emit|apply wp_ret]; apply Hfin; destruct V2; split; cbn in *; done.
Qed.

(** *** The next request *)

Lemma unavailable_rank s i : rank_available s i = Ret false -> false ∈ avails s.
Proof.
  unfold rank_available, rank_at. intros (r & Hr%vread_Ret & [= E])%bind_Ret. unfold avails. rewrite <- E. apply list_elem_of_fmap_2. by eapply list_elem_of_lookup_2.
Qed.

Lemma choose_false s q sw now q' : ranks_ok (ranks s) -> Forall place_ok q -> chooseNext c s q sw now = Ret (false, q') -> q' = q /\ false ∈ avails s.
Proof.
  intros Hr Hq E. destruct (chooseNext_ok s q sw now false q' Hr Hq E) as (Hn & _ & _ & Hf). destruct (Hf eq_refl) as [-> Hall]. split; [done|].
  unfold chooseNext in E. apply bind_Ret in E as (? & _ & E). destruct q as [|d q]; [done|].
  assert (exists b, rank_available s (dp_rank d) = Ret b) as [b Eb].
  { destruct q; [apply bind_Ret in E as (b & Eb & _); eauto|]. destruct (memSchedPolicy c).
    - cbn [first_available] in E. apply bind_Ret in E as (sel & E & _). apply bind_Ret in E as (b & Eb & _). eauto.
    - unfold reorderQueue in E. cbn [reorder_loop] in E. apply bind_Ret in E as (sel & E & _). apply bind_Ret in E as (b0 & _ & E). apply bind_Ret in E as (b & Eb & _). eauto. }
  specialize (Hall d ltac:(by left)). destruct b; [done|]. by eapply unavailable_rank.
Qed.

Lemma bubble_view d sw t s : wp (bubble d sw t) (fun _ s' => same_view s s') s.
Proof. unfold bubble. apply wp_bind, wp_get. destruct (sw && _); [by apply wp_put|by apply wp_ret]. Qed.

Lemma ready_snoc l d : StronglySorted ready_le l -> (forall x, last l = Some x -> ready_le x d) -> StronglySorted ready_le (l ++ [d]).
Proof.
  intros Hs Hl. apply StronglySorted_app_2; [|done|by repeat constructor]. intros x y Hx ->%list_elem_of_singleton.
  destruct (exists_last (l := l)) as (l0 & z & ->); [intros ->; by apply elem_of_nil in Hx|]. specialize (Hl z ltac:(by rewrite last_snoc)).
  apply elem_of_app in Hx as [Hx|Hx%list_elem_of_singleton]; [|by subst]. unfold ready_le in *.
  assert (readyTime x <= readyTime z); [|lia]. apply (StronglySorted_app_1_elem_of ready_le l0 [z]); [done|done|by left].
Qed.

(** The head of the read queue has become a response. *)
Lemma core_served s q d d' rest : core_inv s -> q ≡ₚ readQueue s -> q = d :: rest -> d' = dp_with_ready d (readyTime d') ->
  (forall x, last (respQueue s) = Some x -> ready_le x d') ->
  core_inv (d_with_respond (d_with_resp (d_with_read s rest) (respQueue s ++ [d'])) (readyTime <$> head (respQueue s ++ [d']))).
Proof.
  intros [] Hq -> Ed Hl. unfold pending in *. split; try done; unfold pending; cbn.
  - rewrite <- Hq in ci_place_read0. by apply Forall_cons in ci_place_read0 as [_ ?].
  - rewrite <- Hq in ci_read0. rewrite !length_app in *. cbn in *. lia.
  - by apply ready_snoc.
  - eapply helpers_perm; [|exact ci_helpers0]. rewrite <- Hq. rewrite !fmap_app, Ed. cbn. solve_Permutation.
  - intros _. by destruct rest, (respQueue s).
Qed.

Lemma serve_read_ok sw now s : core_inv s -> wp (serve_read c sw now)
  (fun ok s' => core_inv s' /\ busState s' = busState s /\ writeQueue s' = writeQueue s /\ nextReqEvent s' = nextReqEvent s /\ (ok = false -> s' = s /\ false ∈ avails s)) s.
Proof.
  intros Hs. unfold serve_read. apply wp_bind, wp_get, wp_bind, wp_lift. intros [found q] E.
  destruct found.
  2:{ destruct (choose_false _ _ _ _ _ (ci_ranks _ Hs) (ci_place_read _ Hs) E) as [-> Hf]. apply wp_bind, wp_put, wp_ret. replace (d_with_read s (readQueue s)) with s by (by destruct s). done. }
  destruct (chooseNext_ok _ _ _ _ _ _ (ci_ranks _ Hs) (ci_place_read _ Hs) E) as (_ & Hq & _). apply wp_bind, wp_put. destruct q as [|d rest] eqn:Eq; [by apply wp_lift|]. subst.
  apply wp_bind, wp_lift. intros av _. apply wp_bind, wp_check. intros _. apply wp_bind. eapply wp_mono; [apply bubble_view|]. cbv beta. intros [] s1 V1.
  apply wp_bind. eapply wp_mono; [apply access_view|]. cbv beta. intros d' s2 [V2 Ed]. apply wp_bind, wp_get, wp_bind, wp_put, wp_bind, wp_check. intros _.
  apply wp_bind, wp_check. intros _. apply wp_bind, wp_get, wp_bind. assert (V : same_view (d_with_read s (d :: rest)) s2) by (by etransitivity).
  eapply (wp_mono _ (fun ev s3 => s3 = d_with_read s2 rest /\ ev = readyTime <$> head (respQueue s ++ [d']) /\ forall x, last (respQueue s) = Some x -> ready_le x d')).
  { pose proof (ci_respond _ Hs) as Hr. destruct V. cbn in *. rewrite sv_resp0, sv_respond0. destruct (last (respQueue s)) as [l|] eqn:El.
    - apply wp_bind, wp_check. intros Hle%Z.leb_le. apply wp_bind, wp_check. intros _. apply wp_ret. split_and!; [done| |intros x [= <-]; exact Hle].
      rewrite Hr. destruct (respQueue s); [done|]. done.
    - apply last_None in El. rewrite El in *. apply wp_lift. intros ev Ee. unfold schedule_at in Ee. apply bind_Ret in Ee as (? & _ & Ee). apply bind_Ret in Ee as (? & _ & Ee).
      injection Ee as <-. done. }
  cbv beta. intros ev s3 (-> & -> & Hl). apply wp_bind, wp_put, wp_ret. split_and!; [|apply V..|done].
  eapply core_view; [|exact (core_served s (d :: rest) d d' rest Hs Hq eq_refl Ed Hl)]. destruct V; split; cbn in *; try done. by rewrite sv_resp0.
Qed.

(** A state whose bus and write retry are still to be settled. *)
Definition settled (s : DRAMCtrl) : DRAMCtrl := d_with_retryWr (d_with_bus s READ) false.

Lemma core_settled s : core_inv s -> core_inv (settled s).
Proof. intros []. by split. Qed.

Lemma core_of_settled s : core_inv (settled s) -> (bus_writes (busState s) = true -> writeQueue s <> []) -> (retryWrReq s = true -> writeQueue s <> []) -> core_inv s.
Proof. intros [] H1 H2. by split. Qed.

Lemma serve_write_ok sw now s : core_inv s -> wp (serve_write c sw now)
  (fun ok s' => core_inv (settled s') /\ busState s' = busState s /\ nextReqEvent s' = nextReqEvent s /\
    if ok : bool then Z.of_nat (length (writeQueue s')) < writeBufferSize c else s' = s /\ false ∈ avails s) s.
Proof.
  intros Hs. unfold serve_write. apply wp_bind, wp_get, wp_bind, wp_lift. intros [found q] E.
  destruct found.
  2:{ destruct (choose_false _ _ _ _ _ (ci_ranks _ Hs) (ci_place_write _ Hs) E) as [-> Hf]. apply wp_bind, wp_put, wp_ret. replace (d_with_write s (writeQueue s)) with s by (by destruct s).
      split_and!; [by apply core_settled|done..]. }
  destruct (chooseNext_ok _ _ _ _ _ _ (ci_ranks _ Hs) (ci_place_write _ Hs) E) as (_ & Hq & _). apply wp_bind, wp_put. destruct q as [|d rest] eqn:Eq; [by apply wp_lift|]. subst.
  apply wp_bind, wp_lift. intros av _. apply wp_bind, wp_check. intros _. apply wp_bind, wp_check. intros _. apply wp_bind. eapply wp_mono; [apply bubble_view|]. cbv beta. intros [] s1 V1.
  apply wp_bind. eapply wp_mono; [apply access_view|]. cbv beta. intros d' s2 [V2 Ed]. apply wp_bind, wp_get, wp_bind, wp_put, wp_ret.
  assert (V : same_view (d_with_write s (d :: rest)) s2) by (by etransitivity).
  assert (Hl : Z.of_nat (S (length rest)) <= writeBufferSize c) by (pose proof (ci_write _ Hs) as H; rewrite <- Hq in H; exact H).
  split_and!; [|apply V..|cbn; lia].
  assert (Hc : core_inv (settled (d_with_write s rest))).
  { destruct Hs. split; try done; cbn; [|lia]. rewrite <- Hq in ci_place_write0. by apply Forall_cons in ci_place_write0 as [_ ?]. }
  eapply core_view; [|exact Hc]. destruct V; split; cbn in *; done.
Qed.

(** After a turn: the bus is settled, and a write that was refused can be told. *)
Definition turned (s : DRAMCtrl) : Prop :=
  core_inv (settled s) /\ (bus_writes (busState s) = true -> writeQueue s <> []) /\
  (retryWrReq s = true -> writeQueue s <> [] \/ Z.of_nat (length (writeQueue s)) < writeBufferSize c).

Lemma turned_core s : core_inv s -> turned s.
Proof. intros H. split_and!; [by apply core_settled|apply (ci_bus _ H)|]. intros Hr. left. exact (ci_retryWr _ H Hr). Qed.

Lemma read_turn_ok sw now s : core_inv s -> busState s = READ -> wp (read_turn c sw now)
  (fun go s' => turned s' /\ (go = false -> core_inv s' /\ awake s')) s.
Proof.
  intros Hs Hb. unfold read_turn. apply wp_bind, wp_get. cbv zeta. destruct (is_nil (readQueue s)) eqn:Er.
  - apply is_nil_true in Er. destruct (negb (is_nil (writeQueue s)) && _) eqn:Ew.
    + apply wp_bind, wp_put, wp_ret. split; [|done]. apply turned_core. apply andb_true_iff in Ew as [Ew%negb_true_iff%is_nil_false _]. destruct Hs. by split.
    + assert (Hrest : writeQueue s = [] \/ d_drainManager s = false /\ Z.of_nat (length (writeQueue s)) <= writeLowThreshold c).
      { apply andb_false_iff in Ew as [Ew%negb_false_iff%is_nil_true|[Ed Ew%Z.ltb_ge]%orb_false_iff]; auto. }
      apply wp_bind. eapply (wp_mono _ (fun _ s' => exists dr, s' = d_with_drain s dr /\ (dr = d_drainManager s \/ dr = false))).
      * destruct (is_nil (respQueue s) && _); [apply wp_bind, wp_emit, wp_put; exists false; auto|apply wp_ret; exists (d_drainManager s)]. split; [by destruct s|auto].
      * cbv beta. intros [] s' (dr & -> & Hdr). apply wp_ret. assert (Hc : core_inv (d_with_drain s dr)) by (by destruct Hs).
        split; [by apply turned_core|]. intros _. split; [done|]. intros _. right. split_and!; [done..|]. cbn. destruct Hrest as [?|[? ?]]; [by left|]. right. split; [|done].
        destruct Hdr as [->| ->]; done.
  - apply is_nil_false in Er. apply wp_bind. eapply wp_mono; [by apply serve_read_ok|]. cbv beta. intros ok s1 (Hc & Eb & Ew & En & Hf). destruct ok.
    + apply wp_bind. eapply (wp_mono _ (fun _ s2 => core_inv s2)).
      * destruct (Z.ltb_spec (writeHighThreshold c) (Z.of_nat (length (writeQueue s)))); [|by apply wp_ret]. apply wp_bind, wp_get, wp_put.
        destruct Hc. split; try done. cbn. intros _ E0. rewrite Ew in E0. rewrite E0 in *. cbn in *. lia.
      * cbv beta. intros [] s2 H2. apply wp_ret. split; [by apply turned_core|done].
    + destruct (Hf eq_refl) as [-> Hav]. apply wp_ret. split; [by apply turned_core|]. intros _. split; [done|]. intros _. by left.
Qed.

Lemma write_turn_ok sw now s : core_inv s -> wp (write_turn c sw now) (fun go s' => turned s' /\ (go = false -> core_inv s' /\ awake s')) s.
Proof.
  intros Hs. unfold write_turn. apply wp_bind. eapply wp_mono; [by apply serve_write_ok|]. cbv beta. intros ok s1 (Hc & Eb & En & Hok). destruct ok.
  - apply wp_bind, wp_get. cbv zeta. apply wp_bind. eapply (wp_mono _ (fun _ s2 => turned s2)); [|cbv beta; intros [] s2 H2; apply wp_ret; done].
    destruct (is_nil (writeQueue s1) || _ || _) eqn:Et.
    + apply wp_put. split_and!; [by destruct Hc|done|]. intros _. right. exact Hok.
    + apply wp_ret. apply orb_false_iff in Et as [[Et%is_nil_false _]%orb_false_iff _]. split_and!; [done|done|]. intros _. by left.
  - destruct Hok as [-> Hav]. apply wp_ret. split; [by apply turned_core|]. intros _. split; [done|]. intros _. by left.
Qed.

Lemma drain_ranks_ok rs now rs' n : drain_ranks rs now = Ret (rs', n) ->
  isAvailable <$> rs' = isAvailable <$> rs /\ (ranks_ok rs -> ranks_ok rs') /\ 0 <= n /\ (0 < n -> false ∈ isAvailable <$> rs).
Proof.
  revert rs' n. induction rs as [|r rs IH]; intros rs' n E; cbn [drain_ranks] in E; [injection E as <- <-; done|].
  apply bind_Ret in E as ([r' busy] & Er & E). apply bind_Ret in E as ([rs1 n1] & E1 & E). injection E as <- <-. destruct (IH rs1 n1 E1) as (H1 & H2 & H3 & H4).
  assert (Hr : isAvailable r' = isAvailable r /\ banks r' = banks r /\ 0 <= busy /\ (0 < busy -> isAvailable r = false)).
  { destruct (isAvailable r) eqn:Ea; [by injection Er as <- <-|]. apply bind_Ret in Er as (r1 & Ed & Er). injection Er as <- <-. unfold checkDrainDone in Ed.
    case_bool_decide as Es; [|by injection Ed as <-]. apply bind_Ret in Ed as (ev & _ & Ed). injection Ed as <-. done. }
  destruct Hr as (Ha & Hb & Hp & Hu). cbn. split_and!; [congruence| |lia|].
  - intros [Hk Hrs]%Forall_cons. apply Forall_cons. split; [by rewrite Hb|by apply H2].
  - intros Hlt. destruct (decide (0 < busy)) as [Hlb|]; [rewrite (Hu Hlb); by left|right; apply H4; lia].
Qed.

Lemma core_ranks s rs : core_inv s -> ranks_ok rs -> core_inv (d_with_ranks s rs).
Proof. intros [] H. by split. Qed.

Lemma kick_shape when now s : wp (kick_requests when now) (fun _ s' => exists w, s' = d_with_nextReq s (Some w)) s.
Proof.
  unfold kick_requests. apply wp_bind, wp_get. destruct (nextReqEvent s) as [w|] eqn:E; [apply wp_ret; exists w; by destruct s; cbn in E; subst|].
  apply wp_bind, wp_lift. intros ev Ee. apply wp_put. unfold schedule_at in Ee. apply bind_Ret in Ee as (? & _ & Ee). apply bind_Ret in Ee as (? & _ & Ee). injection Ee as <-. by eexists.
Qed.

Lemma dram_next_ok now s : ctrl_inv s -> wp (run_nextReq c now) (fun _ s' => ctrl_inv s') s.
Proof.
  intros [Hc _]. unfold run_nextReq, processNextReqEvent. apply wp_bind, wp_get, wp_bind, wp_check. intros _. apply wp_bind, wp_put, wp_bind, wp_get, wp_bind, wp_lift.
  intros [rs n] Ed. destruct (drain_ranks_ok _ _ _ _ Ed) as (Ea & Hr & Hn & Hf). apply wp_bind, wp_put.
  set (s0 := d_with_ranks (d_with_nextReq s None) rs). assert (H0 : core_inv s0) by (apply core_ranks; [by destruct Hc|by apply Hr, (ci_ranks _ Hc)]).
  destruct (Z.eqb_spec n (ranksPerChannel c)) as [En|_].
  { apply wp_ret. split; [done|]. intros _. left. unfold avails, s0. cbn. rewrite Ea. apply Hf. lia. }
  apply wp_bind. eapply (wp_mono _ (fun _ s1 => core_inv s1 /\ (busState s1 = READ \/ busState s1 <> READ))).
  { unfold turn_bus. apply wp_bind, wp_get. destruct (busState s0) eqn:Eb; (apply wp_ret || apply wp_bind, wp_put, wp_ret); (split; [|destruct (decide (busState s0 = READ)); cbn; auto]);
      destruct H0; (split; try done); cbn; auto. intros _. apply ci_bus0. by rewrite Eb. }
  cbv beta. intros sw s1 [H1 _]. apply wp_bind, wp_get, wp_bind.
  eapply (wp_mono _ (fun go s' => turned s' /\ (go = false -> core_inv s' /\ awake s'))); [case_bool_decide; [by apply read_turn_ok|by apply write_turn_ok]|].
  cbv beta. intros go s2 [(Ht1 & Ht2 & Ht3) Hgo]. destruct go; [|apply wp_ret; split; by apply Hgo].
  apply wp_bind, wp_get, wp_bind. eapply wp_mono; [apply kick_shape|]. cbv beta. intros [] s3 (w & ->). apply wp_bind, wp_get.
  destruct (retryWrReq (d_with_nextReq s2 (Some w)) && _) eqn:Er.
  - apply wp_bind, wp_put, wp_emit. split; [|done]. apply core_of_settled; [by destruct Ht1|done|done].
  - apply wp_ret. split; [|done]. apply core_of_settled; [by destruct Ht1|done|]. cbn. intros Hw. cbn in Er. rewrite Hw in Er. cbn [andb] in Er. apply Z.ltb_ge in Er.
    destruct (Ht3 Hw); [done|lia].
Qed.

(** *** The events of a rank *)

(** A rank that did not take requests still does not. *)
Definition rank_moves (r r' : Rank) : Prop := (isAvailable r = false -> isAvailable r' = false) /\ (Forall bank_ok (banks r) -> Forall bank_ok (banks r')).

Lemma keeps_moves r r' : rank_keeps r r' -> rank_moves r r'.
Proof. intros [E H]. split; [|done]. unfold isAvailable. by rewrite E. Qed.

Lemma power_keeps r st t now r' : schedulePowerEvent r st t now = Ret r' -> rank_keeps r r'.
Proof.
  unfold schedulePowerEvent. intros (? & _ & E)%bind_Ret. destruct (powerEvent r); [done|]. apply bind_Ret in E as (ev & _ & E). by injection E as <-.
Qed.

Lemma precharge_all_keeps n j r t now r' : precharge_all c n j r t now = Ret r' -> rank_keeps r r'.
Proof.
  revert j r. induction n as [|n IH]; intros j r E; cbn [precharge_all] in E; [by injection E as <-|]. apply bind_Ret in E as (b & _ & E). apply bind_Ret in E as (r1 & E1 & E).
  etransitivity; [|by eapply IH]. destruct (negb _); [by apply precharge_keeps in E1|]. apply upd_bank_keeps in E1; [done|].
  intros b' Hb'. unfold bank_ok in *. cbn. pose proof (u64_tick (t + tRP (T c))). lia.
Qed.

Lemma refresh_moves r busy now r' l : processRefreshEvent c r busy now = Ret (r', l) -> isAvailable r' = false /\ (Forall bank_ok (banks r) -> Forall bank_ok (banks r')).
Proof.
  unfold processRefreshEvent. cbv zeta. set (r1 := if bool_decide (refreshState r = REF_IDLE) then _ else r).
  assert (H1 : isAvailable r1 = false /\ banks r1 = banks r) by (unfold r1; destruct (bool_decide (refreshState r = REF_IDLE)) eqn:E; [done|by split]). destruct H1 as [Hi <-].
  destruct (bool_decide (refreshState r1 = REF_DRAIN) && busy); [by intros [= <- <-]|].
  set (r2 := if bool_decide (refreshState r1 = REF_DRAIN) then _ else r1).
  assert (H2 : isAvailable r2 = false /\ banks r2 = banks r1) by (unfold r2; destruct (bool_decide (refreshState r1 = REF_DRAIN)); done). destruct H2 as [Hi2 <-].
  clearbody r2. clear r1 Hi. unfold isAvailable in Hi2. apply bool_decide_eq_false in Hi2. destruct (refreshState r2) eqn:Es; [done| | |].
  - intros [= <- <-]. unfold isAvailable. by rewrite Es.
  - unfold refresh_pre. intros ([r3 l3] & E3 & E)%bind_Ret. apply bind_Ret in E as (? & _ & E). injection E as <- <-. split; [done|]. cbn.
    case_bool_decide; apply bind_Ret in E3 as (r4 & E4 & E3); injection E3 as <- <-; [by apply power_keeps in E4 as [_ ?]|by apply precharge_all_keeps in E4 as [_ ?]].
  - unfold refresh_run. intros (? & _ & E)%bind_Ret. apply bind_Ret in E as (? & _ & E). cbv zeta in E. apply bind_Ret in E as (? & _ & E). apply bind_Ret in E as (ev & _ & E).
    apply bind_Ret in E as (? & _ & E). apply bind_Ret in E as (r3 & [E3 H]%power_keeps & E). injection E as <- <-. split; [unfold isAvailable; rewrite E3; cbn; by rewrite Es|]. intros _. apply H. cbn.
    apply Forall_fmap, Forall_true. intros b. unfold bank_ok. cbn. apply u64_tick.
Qed.

Lemma power_moves r busy now r' kick l : processPowerEvent c r busy now = Ret (r', kick, l) -> (kick = false -> rank_moves r r') /\ (Forall bank_ok (banks r) -> Forall bank_ok (banks r')).
Proof.
  unfold processPowerEvent. cbv zeta. intros ([r1 k] & E1 & E)%bind_Ret.
  assert (H1 : (k = false -> isAvailable r1 = isAvailable r) /\ banks r1 = banks r).
  { destruct (bool_decide (pwrState _ = PWR_IDLE)); [|by injection E1 as <- <-]. destruct (bool_decide (pwrState r = PWR_REF)); [by injection E1 as <- <-|].
    apply bind_Ret in E1 as (? & _ & E1). destruct (bool_decide (refreshState _ = REF_RUN)); [|by injection E1 as <- <-]. apply bind_Ret in E1 as (? & _ & E1). by injection E1 as <- <-. }
  destruct H1 as [Ha Hb]. destruct (bool_decide (pwrState r1 = PWR_REF)).
  - apply bind_Ret in E as (? & _ & E). apply bind_Ret in E as ([r2 l2] & [Hf Hk]%refresh_moves & E). injection E as <- <- <-. rewrite Hb in Hk. split; [|done]. intros _. by split.
  - injection E as <- <- <-. rewrite Hb. split; [|done]. intros Hn. specialize (Ha Hn). split; [congruence|by rewrite Hb].
Qed.

Lemma core_rank s i r r' : core_inv s -> ranks s !! i = Some r -> (Forall bank_ok (banks r) -> Forall bank_ok (banks r')) -> core_inv (d_with_ranks s (<[i:=r']> (ranks s))).
Proof.
  intros Hs Hr Hb. apply core_ranks; [done|]. apply Forall_insert; [apply Hs|]. apply Hb. exact (Forall_lookup_1 _ _ _ _ (ci_ranks _ Hs) Hr).
Qed.

Lemma awake_rank s i r r' : awake s -> ranks s !! i = Some r -> (isAvailable r = false -> isAvailable r' = false) -> awake (d_with_ranks s (<[i:=r']> (ranks s))).
Proof.
  intros Ha Hr Hm Hn. destruct (Ha Hn) as [Hf|Hf]; [left|by right]. unfold avails in *. cbn. apply list_elem_of_fmap in Hf as (r0 & E0 & H0).
  apply list_elem_of_lookup in H0 as [k Hk]. destruct (decide (k = i)) as [->|Hne].
  - assert (r0 = r) as -> by congruence. rewrite <- (Hm (eq_sym E0)). apply list_elem_of_fmap_2. eapply list_elem_of_lookup_2. apply list_lookup_insert_eq. by eapply lookup_lt_Some.
  - rewrite E0. apply list_elem_of_fmap_2. eapply (list_elem_of_lookup_2 _ k). by rewrite list_lookup_insert_ne.
Qed.

(** A handler that replaces a rank. *)
Lemma set_rank_shape i r s : wp (set_rank (Z.of_nat i) r) (fun _ s' => s' = d_with_ranks s (<[i:=r]> (ranks s))) s.
Proof. unfold set_rank. apply wp_bind, wp_get, wp_bind, wp_lift. rewrite Nat2Z.id. intros rs [_ ->]%vwrite_Ret. by apply wp_put. Qed.

Lemma rank_event_ok i s (r r' : Rank) : ctrl_inv s -> ranks s !! i = Some r -> rank_moves r r' -> wp (set_rank (Z.of_nat i) r') (fun _ s' => ctrl_inv s') s.
Proof.
  intros [Hc Ha] Hr [Hm Hb]. eapply wp_mono; [apply set_rank_shape|]. cbv beta. intros [] s' ->. split; [by eapply core_rank|by eapply awake_rank].
Qed.

Lemma activate_ok i now s : ctrl_inv s -> wp (run_activate i now) (fun _ s' => ctrl_inv s') s.
Proof.
  intros Hs. unfold run_activate. apply wp_bind, wp_get, wp_bind, wp_lift. intros r Hr%vread_Ret. apply wp_bind, wp_check. intros _. apply wp_bind, wp_lift. intros r' E.
  eapply rank_event_ok; [done|exact Hr|]. apply keeps_moves. unfold processActivateEvent in E. destruct (bool_decide _); [by injection E as <-|]. by apply power_keeps in E.
Qed.
Lemma precharge_ok i now s : ctrl_inv s -> wp (run_precharge i now) (fun _ s' => ctrl_inv s') s.
Proof.
  intros Hs. unfold run_precharge. apply wp_bind, wp_get, wp_bind, wp_lift. intros r Hr%vread_Ret. apply wp_bind, wp_check. intros _. apply wp_bind, wp_lift. intros r' E.
  eapply rank_event_ok; [done|exact Hr|]. apply keeps_moves. unfold processPrechargeEvent in E. destruct (_ =? _); [by apply power_keeps in E|by injection E as <-].
Qed.
Lemma refresh_ok i now s : ctrl_inv s -> wp (run_refresh c i now) (fun _ s' => ctrl_inv s') s.
Proof.
  intros Hs. unfold run_refresh. apply wp_bind, wp_get, wp_bind, wp_lift. intros r Hr%vread_Ret. apply wp_bind, wp_check. intros _. apply wp_bind, wp_lift.
  intros [r' l] [Hf Hb]%refresh_moves. apply wp_bind, wp_emit_all. eapply rank_event_ok; [done|exact Hr|]. by split.
Qed.
Lemma power_ok i now s : ctrl_inv s -> wp (run_power c i now) (fun _ s' => ctrl_inv s') s.
Proof.
  intros Hs. unfold run_power. apply wp_bind, wp_get, wp_bind, wp_lift. intros r Hr%vread_Ret. apply wp_bind, wp_check. intros _. apply wp_bind, wp_lift.
  intros [[r' kick] l] [Hf Hb]%power_moves. apply wp_bind, wp_emit_all, wp_bind. destruct kick.
  - eapply wp_mono; [apply set_rank_shape|]. cbv beta. intros [] s' ->. apply kick_ok. eapply core_rank; [apply Hs|exact Hr|done].
  - eapply wp_mono; [eapply rank_event_ok; [done|exact Hr|exact (Hf eq_refl)]|]. cbv beta. intros [] s' Hs'. by apply wp_ret.
Qed.

(** *** Start, drain and accesses in one call *)

Lemma startup_ranks_ok rs t now rs' : startup_ranks rs t now = Ret rs' -> isAvailable <$> rs' = isAvailable <$> rs /\ (ranks_ok rs -> ranks_ok rs').
Proof.
  revert rs'. induction rs as [|r rs IH]; intros rs' E; cbn [startup_ranks] in E; [by injection E as <-|]. apply bind_Ret in E as (r1 & E1 & E). apply bind_Ret in E as (rs1 & E2 & E).
  injection E as <-. destruct (IH rs1 E2) as [H1 H2]. unfold rank_startup in E1. apply bind_Ret in E1 as (? & _ & E1). apply bind_Ret in E1 as (ev & _ & E1). injection E1 as <-.
  cbn. split; [by rewrite H1|]. intros [Hr Hrs]%Forall_cons. apply Forall_cons. split; [done|by apply H2].
Qed.
Lemma suspend_ranks_ok rs rs' : suspend_ranks rs = Ret rs' -> isAvailable <$> rs' = isAvailable <$> rs /\ (ranks_ok rs -> ranks_ok rs').
Proof.
  revert rs'. induction rs as [|r rs IH]; intros rs' E; cbn [suspend_ranks] in E; [by injection E as <-|]. apply bind_Ret in E as (r1 & E1 & E). apply bind_Ret in E as (rs1 & E2 & E).
  injection E as <-. destruct (IH rs1 E2) as [H1 H2]. unfold rank_suspend in E1. apply bind_Ret in E1 as (? & _ & E1). injection E1 as <-.
  cbn. split; [by rewrite H1|]. intros [Hr Hrs]%Forall_cons. apply Forall_cons. split; [done|by apply H2].
Qed.

Lemma startup_view mode now s : wp (DRAMCtrl_startup c mode now) (fun _ s' => same_view s s') s.
Proof.
  unfold DRAMCtrl_startup. apply wp_bind, wp_get, wp_bind, wp_put. destruct mode; [|by apply wp_ret]. apply wp_bind, wp_get, wp_bind, wp_lift.
  intros rs [E H]%startup_ranks_ok. apply wp_put. by split.
Qed.
Lemma resume_view mode now s : wp (DRAMCtrl_drainResume c mode now) (fun _ s' => same_view s s') s.
Proof.
  unfold DRAMCtrl_drainResume. apply wp_bind, wp_get, wp_bind. eapply (wp_mono _ (fun _ s' => same_view s s')).
  - destruct (negb (isTimingMode s) && mode); [apply startup_view|]. destruct (isTimingMode s && negb mode); [|by apply wp_ret].
    apply wp_bind, wp_lift. intros rs [E H]%suspend_ranks_ok. apply wp_put. by split.
  - cbv beta. intros [] s' V. apply wp_bind, wp_get, wp_put. etransitivity; [exact V|]. by split.
Qed.
Lemma atomic_view pkt s : wp (dram_recvAtomic c pkt) (fun _ s' => same_view s s') s.
Proof. unfold dram_recvAtomic. apply wp_bind, wp_get, wp_bind, wp_lift. intros [[m p] l] _. apply wp_bind, wp_put, wp_ret. by split. Qed.
Lemma functional_view pkt pq s : wp (dram_recvFunctional pkt pq) (fun _ s' => same_view s s') s.
Proof.
  unfold dram_recvFunctional. apply wp_bind, wp_lift. intros [done p] _. destruct done; [by apply wp_ret|]. apply wp_bind, wp_get, wp_bind, wp_lift.
  intros [m p'] _. apply wp_bind, wp_put, wp_ret. by split.
Qed.
Lemma dram_drain_ok n now s : ctrl_inv s -> wp (DRAMCtrl_drain n now) (fun _ s' => ctrl_inv s') s.
Proof.
  intros [Hc Ha]. unfold DRAMCtrl_drain. apply wp_bind, wp_get. destruct (_ && _ && _); [apply wp_ret; by split|]. apply wp_bind, wp_put.
  assert (H1 : core_inv (d_with_drain s true)) by (by destruct Hc). apply wp_bind. eapply (wp_mono _ (fun _ s' => ctrl_inv s')); [|cbv beta; intros [] s' H; by apply wp_ret].
  destruct (is_nil (writeQueue s)) eqn:Ew; cbn [negb]; [|by apply kick_ok]. apply is_nil_true in Ew. apply wp_ret. split; [done|]. intros Hn.
  destruct (Ha Hn) as [?|(E1 & E2 & _)]; [by left|right]. split_and!; [done..|by left].
Qed.

(** ** The life of a controller *)

(** The calls a controller gets, from its port, from the simulation and from its events; the calls
    it makes while it handles one are listed. *)
Inductive dcall (s s' : DRAMCtrl) (o : list DOut) : Prop :=
  | d_req pkt hd now ok : fits pkt -> dram_recvTimingReq c pkt hd now s = Ret (ok, s', o) -> dcall s s' o
  | d_next now : run_nextReq c now s = Ret (tt, s', o) -> dcall s s' o
  | d_respond now : run_respond c now s = Ret (tt, s', o) -> dcall s s' o
  | d_activate i now : run_activate i now s = Ret (tt, s', o) -> dcall s s' o
  | d_precharge i now : run_precharge i now s = Ret (tt, s', o) -> dcall s s' o
  | d_refresh i now : run_refresh c i now s = Ret (tt, s', o) -> dcall s s' o
  | d_power i now : run_power c i now s = Ret (tt, s', o) -> dcall s s' o
  | d_startup mode now : DRAMCtrl_startup c mode now s = Ret (tt, s', o) -> dcall s s' o
  | d_drain n now k : DRAMCtrl_drain n now s = Ret (k, s', o) -> dcall s s' o
  | d_resume mode now : DRAMCtrl_drainResume c mode now s = Ret (tt, s', o) -> dcall s s' o
  | d_atomic pkt r : dram_recvAtomic c pkt s = Ret (r, s', o) -> dcall s s' o
  | d_functional pkt pq r : dram_recvFunctional pkt pq s = Ret (r, s', o) -> dcall s s' o.
Definition dstep (s s' : DRAMCtrl) : Prop := exists o, dcall s s' o.

Lemma dstep_inv s s' : dstep s s' -> ctrl_inv s -> ctrl_inv s'.
Proof.
  intros [o [pkt hd now ok Hf E|now E|now E|i now E|i now E|i now E|i now E|mode now E|n now k E|mode now E|pkt r E|pkt pq r E]] Hs.
  - exact (req_ok pkt hd now s Hs Hf _ _ _ E).
  - exact (dram_next_ok now s Hs _ _ _ E).
  - exact (dram_respond_ok now s Hs _ _ _ E).
  - exact (activate_ok i now s Hs _ _ _ E).
  - exact (precharge_ok i now s Hs _ _ _ E).
  - exact (refresh_ok i now s Hs _ _ _ E).
  - exact (power_ok i now s Hs _ _ _ E).
  - exact (inv_view _ _ (startup_view mode now s _ _ _ E) Hs).
  - exact (dram_drain_ok n now s Hs _ _ _ E).
  - exact (inv_view _ _ (resume_view mode now s _ _ _ E) Hs).
  - exact (inv_view _ _ (atomic_view pkt s _ _ _ E) Hs).
  - exact (inv_view _ _ (functional_view pkt pq s _ _ _ E) Hs).
Qed.

Lemma run_inv s0 s : ctrl_inv s0 -> rtc dstep s0 s -> ctrl_inv s.
Proof. intros H0. induction 1 as [|s1 s2 s3 Hs _ IH]; [done|]. apply IH. by eapply dstep_inv. Qed.

(** A controller as it is constructed. *)
Definition empty_ctrl (s : DRAMCtrl) : Prop :=
  readQueue s = [] /\ writeQueue s = [] /\ respQueue s = [] /\ respondEvent s = None /\ busState s = READ /\ retryRdReq s = false /\ retryWrReq s = false /\
  ranks_ok (ranks s).

Lemma empty_inv s : empty_ctrl s -> 0 <= readBufferSize c -> 0 <= writeBufferSize c -> ctrl_inv s.
Proof.
  intros (E1 & E2 & E3 & E4 & E5 & E6 & E7 & Hr) H1 H2. split.
  - split; unfold pending; rewrite ?E1, ?E2, ?E3, ?E4, ?E5, ?E6, ?E7; try done; [constructor|]. intros i Hi. by apply elem_of_nil in Hi.
  - intros _. right. split_and!; [done..|by left].
Qed.
End spec.

(** The parameters of a controller: a power of two of ranks, at most 64 banks. *)
Record params_ok (p : DRAMCtrlParams) : Prop := {
  pk_ranks : 0 < ranks_per_channel p;
  pk_banks : ranks_per_channel p * banks_per_rank p <= 64;
  pk_buffers : 0 <= read_buffer_size p /\ 0 <= write_buffer_size p;
  pk_high : 0 <= write_high_thresh_perc p
}.

Lemma new_ctrl p m c s : params_ok p -> DRAMCtrl_new p m = Ret (c, s) ->
  bank_count c <= 64 /\ 0 <= burstSize c /\ 0 <= writeHighThreshold c /\ 0 < ranksPerChannel c /\ 0 <= readBufferSize c /\ 0 <= writeBufferSize c /\ empty_ctrl s.
Proof.
  intros [Hr Hb [Hb1 Hb2] Hh]. unfold DRAMCtrl_new. cbv zeta. intros (columns & _ & E)%bind_Ret. apply bind_Ret in E as (stripe & _ & E). apply bind_Ret in E as (? & _ & E).
  apply bind_Ret in E as (? & _ & E). apply bind_Ret in E as (lg & _ & E). apply bind_Ret in E as (rows & _ & E). apply bind_Ret in E as (? & _ & E). apply bind_Ret in E as (? & _ & E).
  injection E as <- <-. unfold bank_count, empty_ctrl. cbn. split_and!; try done.
  - apply Z.div_pos; [|lia]. apply (wrap_range 32). lia.
  - apply Z.div_pos; [|lia]. apply (wrap_range 32). lia.
  - unfold ranks_ok. apply Forall_fmap, Forall_true. intros i. cbn. apply Forall_fmap, Forall_true. intros j. unfold bank_ok. cbn. unfold MaxTick. lia.
Qed.

(** C4. The DRAM controller is consistent in every state it can reach from its
    construction, whatever is requested and in whatever order its events and those of
    its ranks run (packets no larger than the buffers): reads that wait, in the queue or
    for their response, and writes never exceed their buffers; the bus only turns to
    writes when there are some; the response event is scheduled exactly for the oldest
    response and responses are in the order of their ready times; of a read that was
    split, the bursts served and those still waiting always add up to all its bursts, so
    that it is answered once, with its last burst; a refused read or write is owed a
    retry only while something is queued whose completion sends it; and the controller
    sleeps only while a rank refreshes or when there is nothing it has to do. *)
Theorem dram_controller_consistent p m c s0 s : params_ok p -> DRAMCtrl_new p m = Ret (c, s0) -> rtc (dstep c) s0 s ->
  Z.of_nat (length (readQueue s) + length (respQueue s)) <= readBufferSize c /\ Z.of_nat (length (writeQueue s)) <= writeBufferSize c /\
  (bus_writes (busState s) = true -> writeQueue s <> []) /\
  respondEvent s = readyTime <$> head (respQueue s) /\ StronglySorted ready_le (respQueue s) /\
  (forall d i, d ∈ readQueue s ++ respQueue s -> burstHelper d = Some i ->
     exists h, helpers s !! i = Some h /\ burstsServiced h + waits i (burstHelper <$> readQueue s ++ respQueue s) = burstCount h) /\
  (retryRdReq s = true -> readQueue s ++ respQueue s <> []) /\ (retryWrReq s = true -> writeQueue s <> []) /\
  (nextReqEvent s = None -> (exists r, r ∈ ranks s /\ isAvailable r = false) \/ resting c s).
Proof.
  intros Hp Hn Hr. destruct (new_ctrl p m c s0 Hp Hn) as (H1 & H2 & H3 & H4 & H5 & H6 & He).
  destruct (run_inv c H1 H2 H3 H4 s0 s (empty_inv c s0 He H5 H6) Hr) as [[] Ha]. unfold pending in *. rewrite length_app in ci_read0. split_and!; try done.
  - intros d i Hd Ei. destruct (ci_helpers0 i) as (h & Eh & Ew & _); [rewrite <- Ei; by apply list_elem_of_fmap_2|]. by exists h.
  - intros E. destruct (Ha E) as [Hf|Hf]; [left|by right]. apply list_elem_of_fmap in Hf as (r & Er & Hin). by exists r.
Qed.

(** ** A run *)

(** Two ranks of eight banks, bursts of 64 bytes, four reads and eight writes. *)
Definition ddr_timing : DRAMTiming := mkDRAMTiming 7500 2500 2500 5000 0 13750 13750 13750 35000 15000 7500 260000 7800000 6000 0 30000.
Definition ddr_params (sched : MemSched) (page : PageManage) : DRAMCtrlParams :=
  mkDRAMCtrlParams 8 8 1024 8 2 0 8 1 4 8 85 50 2 4 sched RoRaBaCoCh page 16 10000 10000 ddr_timing.
Definition ddr_memory : AbstractMemory := setBackingStore (AbstractMemory_new (AddrRange_plain 0 (2 ^ 18 - 1))) (replicate 1024 0).
Definition ddr_config : DRAMConfig :=
  mkDRAMConfig 64 8192 128 1 2 0 false 8 1 2 4 8 6 4 2 4 frfcfs RoRaBaCoCh open_adaptive 16 10000 10000 ddr_timing.
Definition ddr_new : DRAMCtrl :=
  mkDRAMCtrl ddr_memory false false false READ [] [] [] [] (rank_new false 0 8 4 <$> [0; 1]%nat) None None false 0 0 0 0 0 0.

Lemma ddr_constructed : DRAMCtrl_new (ddr_params frfcfs open_adaptive) ddr_memory = Ret (ddr_config, ddr_new).
Proof. vm_compute. reflexivity. Qed.

Lemma ddr_params_ok sched page : params_ok (ddr_params sched page).
Proof. by split. Qed.

Definition ddr_after {A} (r : res (A * DRAMCtrl * list DOut)) : DRAMCtrl := match r with Ret (_, s, _) => s | Err _ => ddr_new end.
Definition ddr_ended {A} (r : res (A * DRAMCtrl * list DOut)) : bool := match r with Ret _ => true | Err _ => false end.
Lemma ddr_ended_after {A} (r : res (A * DRAMCtrl * list DOut)) : ddr_ended r = true -> exists a o, r = Ret (a, ddr_after r, o).
Proof. destruct r as [[[a s] o]|]; [|done]. intros _. by exists a, o. Qed.

(** A read of 100 bytes from address 16: two bursts, the first of which is answered. *)
Definition ddr_read : Packet := with_data (Packet_new (mkRequest 0 16 100 1 5 0 0) ReadReq) (replicate 100 0) [].
Definition ddr_started : DRAMCtrl := ddr_after (DRAMCtrl_startup ddr_config true 0 ddr_new).
Definition ddr_asked : DRAMCtrl := ddr_after (dram_recvTimingReq ddr_config ddr_read 0 10 ddr_started).
Definition ddr_sent : DRAMCtrl := ddr_after (run_nextReq ddr_config 10 ddr_asked).
Definition ddr_half : DRAMCtrl := ddr_after (run_respond ddr_config 46250 ddr_sent).

Lemma ddr_step_startup : dstep ddr_config ddr_new ddr_started.
Proof. destruct (ddr_ended_after (DRAMCtrl_startup ddr_config true 0 ddr_new)) as ([] & o & E); [vm_compute; reflexivity|]. eexists; eapply d_startup; exact E. Qed.
Lemma ddr_step_ask : dstep ddr_config ddr_started ddr_asked.
Proof.
  destruct (ddr_ended_after (dram_recvTimingReq ddr_config ddr_read 0 10 ddr_started)) as (ok & o & E); [vm_compute; reflexivity|]. eexists. eapply d_req; [|exact E].
  intros n. vm_compute. intros [= <-]. done.
Qed.
Lemma ddr_step_send : dstep ddr_config ddr_asked ddr_sent.
Proof. destruct (ddr_ended_after (run_nextReq ddr_config 10 ddr_asked)) as ([] & o & E); [vm_compute; reflexivity|]. eexists; eapply d_next; exact E. Qed.
Lemma ddr_step_respond : dstep ddr_config ddr_sent ddr_half.
Proof. destruct (ddr_ended_after (run_respond ddr_config 46250 ddr_sent)) as ([] & o & E); [vm_compute; reflexivity|]. eexists; eapply d_respond; exact E. Qed.
Lemma ddr_reaches_half : rtc (dstep ddr_config) ddr_new ddr_half.
Proof.
  eapply rtc_l; [exact ddr_step_startup|]. eapply rtc_l; [exact ddr_step_ask|]. eapply rtc_l; [exact ddr_step_send|]. apply rtc_once. exact ddr_step_respond.
Qed.

Lemma dram_controller_consistent_witness :
  (exists d, readQueue ddr_half = [d] /\ respQueue ddr_half = [] /\ burstHelper d = Some 0%nat) /\
  exists h, helpers ddr_half !! 0%nat = Some h /\ burstsServiced h + waits 0 (burstHelper <$> readQueue ddr_half ++ respQueue ddr_half) = burstCount h /\ burstsServiced h = 1.
Proof.
  destruct (dram_controller_consistent (ddr_params frfcfs open_adaptive) ddr_memory ddr_config ddr_new ddr_half (ddr_params_ok _ _) ddr_constructed ddr_reaches_half)
    as (_ & _ & _ & _ & _ & Hh & _).
  assert (Hd : exists d, readQueue ddr_half = [d] /\ respQueue ddr_half = [] /\ burstHelper d = Some 0%nat) by (vm_compute; eexists; split; [reflexivity|split; reflexivity]).
  split; [exact Hd|]. destruct Hd as (d & E1 & E2 & E3). destruct (Hh d 0%nat) as (h & Eh & Ew); [rewrite E1, E2; by left|exact E3|].
  exists h. split; [exact Eh|]. split; [exact Ew|]. revert Eh. vm_compute. intros [= <-]. reflexivity.
Defined.

(** C5. The scheduler loses no burst and is work-conserving under both policies: it
    permutes the queue, puts a burst for an available rank first if it finds one, and
    finds one whenever there is one in the queue, for any state of the banks. *)
Theorem scheduler_finds_work c s q switched now found q' : ranksPerChannel c * banksPerRank c <= 64 -> ranks_ok (ranks s) -> Forall (place_ok c) q ->
  chooseNext c s q switched now = Ret (found, q') ->
  q' ≡ₚ q /\
  if found then exists d rest, q' = d :: rest /\ rank_available s (dp_rank d) = Ret true
  else forall d, d ∈ q -> rank_available s (dp_rank d) <> Ret true.
Proof.
  intros Hb Hr Hq E. destruct (chooseNext_ok c Hb s q switched now found q' Hr Hq E) as (_ & Hp & Ht & Hf). split; [done|]. destruct found.
  - destruct (Ht eq_refl) as (d & Hd & Hav). destruct q' as [|d' rest]; [done|]. injection Hd as ->. by exists d, rest.
  - by destruct (Hf eq_refl).
Qed.

Lemma scheduler_finds_work_witness : exists q', chooseNext ddr_config ddr_asked (readQueue ddr_asked) false 10 = Ret (true, q') /\ q' ≡ₚ readQueue ddr_asked /\
  exists d rest, q' = d :: rest /\ rank_available ddr_asked (dp_rank d) = Ret true.
Proof.
  assert (Hr : ranks_ok (ranks ddr_asked)) by (unfold ranks_ok, bank_ok; apply (bool_decide_unpack _); vm_compute; exact I).
  assert (Hq : Forall (place_ok ddr_config) (readQueue ddr_asked)) by (vm_compute; repeat constructor; done).
  assert (Hc : exists q', chooseNext ddr_config ddr_asked (readQueue ddr_asked) false 10 = Ret (true, q')) by (vm_compute; eexists; reflexivity).
  destruct Hc as (q' & E). exists q'. split; [exact E|].
  exact (scheduler_finds_work ddr_config ddr_asked (readQueue ddr_asked) false 10 true q' ltac:(vm_compute; discriminate) Hr Hq E).
Defined.

(** ** Merged writes *)

(** With banks in the low bits of the address: writes of the last four bytes of one burst
    and of the first four of the next, which is in another bank, become one write of the
    first bank. *)
Definition low_bank_config : DRAMConfig :=
  mkDRAMConfig 64 8192 128 1 2 0 false 8 1 2 4 8 6 4 2 4 frfcfs RoCoRaBaCh open_adaptive 16 10000 10000 ddr_timing.
Definition ddr_write (a : Z) : Packet := with_data (Packet_new (mkRequest 0 a 4 1 5 0 0) WriteReq) (replicate 4 1) [].
Definition low_bank_once : DRAMCtrl := ddr_after (dram_recvTimingReq low_bank_config (ddr_write 60) 0 10 ddr_started).
Definition low_bank_twice : DRAMCtrl := ddr_after (dram_recvTimingReq low_bank_config (ddr_write 64) 0 20 low_bank_once).

Theorem merge_joins_two_banks :
  (fun d => (dp_addr d, dp_size d, dp_bank d)) <$> writeQueue low_bank_twice = [(60, 8, 0)] /\
  decode low_bank_config 60 = Ret (0, 0, 0) /\ decode low_bank_config 64 = Ret (0, 1, 0).
Proof. by vm_compute. Qed.
