(* ===== verification/DramTiming.v ===== *)
(** * The timing of the DRAM controller's commands

    The controller decides early and writes the ticks of its commands into the future:
    [colAllowedAt], [preAllowedAt] and [actAllowedAt] of a bank say when the next command
    of a kind may come.  The theorems say that the commands it tells the power library
    respect the constraints of the device between every two of them. *)

From stdpp Require Import sorting.
From S2P Require Import Prelude Handler IntMath AddrRange Packet Memory DramCtrl DramCtrlSpec.
Local Open Scope Z_scope.

Section timing.
Context (c : DRAMConfig).
Abbreviation tm := (T c).

(** ** No tick overflows *)

(** The parameters are below [2^58], and the ticks of the state below [2^62]: in
    picoseconds, 53 days of simulated time. *)
Definition short (t : Z) : Prop := 0 <= t <= 2 ^ 58.
Record timing_ok : Prop := {
  to_bus : short (tBURST tm) /\ short (tCCD_L tm) /\ short (tCS tm) /\ short (tCL tm) /\ short (tWTR tm) /\ short (tRTW tm);
  to_bank : short (tRCD tm) /\ short (tRP tm) /\ short (tRAS tm) /\ short (tWR tm) /\ short (tRTP tm);
  to_rank : short (tRRD tm) /\ short (tRRD_L tm)
}.
Definition tick (t : Z) : Prop := 0 <= t <= 2 ^ 62.
Record bank_tame (b : Bank) : Prop := { bt_col : tick (colAllowedAt b); bt_pre : tick (preAllowedAt b); bt_act : tick (actAllowedAt b) }.
Record tame (s : DRAMCtrl) (now : Z) : Prop := {
  ta_banks : Forall (fun r => Forall bank_tame (banks r)) (ranks s);
  ta_bus : tCL tm <= busBusyUntil s <= 2 ^ 62;
  ta_now : tick now
}.

Lemma u64_id x : 0 <= x < 2 ^ 63 -> u64 x = x.
Proof. intros H. apply wrap_small. unfold inword. lia. Qed.

(** ** The constraints *)

(** The group of a bank, which never changes. *)
Context (grp : Z -> Z -> Z).

Definition same_bank (x y : DramCmd) : Prop := cmd_rank x = cmd_rank y /\ cmd_bank x = cmd_bank y.
Definition rrd (g g' : Z) : Z := if bankGroupArch c && (g =? g') then tRRD_L tm else tRRD tm.
Definition ccd (same_rank : bool) (g g' : Z) : Z := if same_rank then if bankGroupArch c && (g =? g') then tCCD_L tm else tBURST tm else tBURST tm + tCS tm.
Definition is_col (k : MemCommand) : bool := match k with CMD_RD | CMD_WR => true | _ => false end.

(** From a column command to a precharge: read to precharge, or the end of the burst and
    write recovery. *)
Definition recovery (k : MemCommand) : Z := match k with CMD_WR => tCL tm + tBURST tm + tWR tm | _ => tRTP tm end.

(** What the device asks of two commands, [x] issued before [y].  An auto-precharge is
    issued with its column command, so that either may be the earlier one. *)
Definition legal (x y : DramCmd) : Prop :=
  let t := cmd_tick x in
  let u := cmd_tick y in
  match cmd_kind x, cmd_kind y with
  | CMD_ACT, CMD_ACT => cmd_rank x = cmd_rank y -> t + rrd (grp (cmd_rank x) (cmd_bank x)) (grp (cmd_rank y) (cmd_bank y)) <= u
  | CMD_ACT, (CMD_RD | CMD_WR) => same_bank x y -> t + tRCD tm <= u
  | CMD_ACT, CMD_PRE => same_bank x y -> t + tRAS tm <= u
  | CMD_PRE, CMD_ACT => same_bank x y -> t + tRP tm <= u
  | CMD_PRE, (CMD_RD | CMD_WR) => same_bank x y -> u + recovery (cmd_kind y) <= t \/ t + tRP tm + tRCD tm <= u
  | (CMD_RD | CMD_WR), CMD_PRE => same_bank x y -> t + recovery (cmd_kind x) <= u
  | (CMD_RD | CMD_WR), (CMD_RD | CMD_WR) =>
      t + ccd (cmd_rank x =? cmd_rank y) (grp (cmd_rank x) (cmd_bank x)) (grp (cmd_rank y) (cmd_bank y)) <= u
  | _, _ => True
  end.

(** What the ticks of a bank remember of a command that was issued. *)
Definition opened (b : Bank) : bool := negb (openRow b =? NO_ROW).
Definition respects (x : DramCmd) (i j : Z) (b : Bank) : Prop :=
  let t := cmd_tick x in
  let here := cmd_rank x = i /\ cmd_bank x = j in
  match cmd_kind x with
  | CMD_ACT =>
      (cmd_rank x = i -> t + rrd (grp (cmd_rank x) (cmd_bank x)) (grp i j) <= actAllowedAt b) /\
      (here -> t + tRCD tm <= colAllowedAt b /\ t + tRAS tm <= (if opened b then preAllowedAt b else actAllowedAt b))
  | CMD_PRE => here -> t + tRP tm <= actAllowedAt b /\ (opened b = true -> t + tRP tm + tRCD tm <= colAllowedAt b)
  | CMD_RD | CMD_WR =>
      t + ccd (cmd_rank x =? i) (grp (cmd_rank x) (cmd_bank x)) (grp i j) <= colAllowedAt b /\
      (here -> t + recovery (cmd_kind x) <= (if opened b then preAllowedAt b else actAllowedAt b))
  | _ => True
  end.

(** All banks, as functions of their place. *)
Definition bank_of (rs : list Rank) (i j : Z) : option Bank := r ← rs !! Z.to_nat i; banks r !! Z.to_nat j.
Definition remembered (rs : list Rank) (x : DramCmd) : Prop := forall i j b, 0 <= i -> 0 <= j -> bank_of rs i j = Some b -> respects x i j b.
Definition groups (rs : list Rank) : Prop := forall i j b, 0 <= i -> 0 <= j -> bank_of rs i j = Some b -> bankgr b = grp i j.

(** ** One command *)

Definition at_ (x : DramCmd) (i j : Z) : bool := (cmd_rank x =? i) && (cmd_bank x =? j).

Lemma at_true x i j : at_ x i j = true <-> cmd_rank x = i /\ cmd_bank x = j.
Proof. unfold at_. rewrite andb_true_iff, !Z.eqb_eq. done. Qed.

(** How the command [y] changes the bank [b] at a place: its own bank was ready for it,
    and the bounds it has to leave are left. *)
Definition effect (y : DramCmd) (i j : Z) (b b' : Bank) : Prop :=
  let t := cmd_tick y in
  bankgr b' = bankgr b /\ colAllowedAt b <= colAllowedAt b' /\ actAllowedAt b <= actAllowedAt b' /\
  match cmd_kind y with
  | CMD_PRE =>
      if at_ y i j then opened b = true /\ opened b' = false /\ preAllowedAt b <= t /\ t + tRP tm <= actAllowedAt b'
      else opened b' = opened b /\ preAllowedAt b <= preAllowedAt b'
  | CMD_ACT =>
      (cmd_rank y = i -> t + rrd (grp (cmd_rank y) (cmd_bank y)) (grp i j) <= actAllowedAt b') /\
      if at_ y i j then opened b = false /\ opened b' = true /\ actAllowedAt b <= t /\ t + tRAS tm <= preAllowedAt b' /\ t + tRCD tm <= colAllowedAt b'
      else opened b' = opened b /\ preAllowedAt b <= preAllowedAt b'
  | CMD_RD | CMD_WR =>
      t + ccd (cmd_rank y =? i) (grp (cmd_rank y) (cmd_bank y)) (grp i j) <= colAllowedAt b' /\ opened b' = opened b /\ preAllowedAt b <= preAllowedAt b' /\
      (at_ y i j = true -> opened b = true /\ colAllowedAt b <= t /\ t + recovery (cmd_kind y) <= preAllowedAt b')
  | _ => False
  end.
Definition issue (y : DramCmd) (rs rs' : list Rank) : Prop :=
  (forall i j b', 0 <= i -> 0 <= j -> bank_of rs' i j = Some b' -> exists b, bank_of rs i j = Some b /\ effect y i j b b') /\
  0 <= cmd_rank y /\ 0 <= cmd_bank y /\ is_Some (bank_of rs' (cmd_rank y) (cmd_bank y)).

Context (Ht : timing_ok).

Ltac bounds := destruct Ht as [(? & ? & ? & ? & ? & ?) (? & ? & ? & ? & ?) (? & ?)]; unfold short in *.

Lemma rrd_pos g g' : 0 <= rrd g g'.
Proof. bounds. unfold rrd. destruct (_ && _); lia. Qed.
Lemma recovery_pos k : 0 <= recovery k.
Proof. bounds. unfold recovery. destruct k; lia. Qed.

(** Facts about the row of a bank before and after a command, then arithmetic. *)
Ltac rows :=
  repeat match goal with
  | H : _ /\ _ |- _ => destruct H
  | H : opened ?b' = opened ?b |- _ => rewrite H in *; clear H
  | H : opened ?b = _ |- _ => rewrite H in *; clear H
  | H : ?A -> _, H' : ?A |- _ => specialize (H H')
  | H : ?x = ?x -> _ |- _ => specialize (H eq_refl)
  end.
Ltac settle := repeat (rows; try done; try lia; first [progress intros | split | match goal with |- context [if opened ?b then _ else _] => destruct (opened b) end]).

(** A bank remembers the earlier commands, and the new one. *)
Lemma effect_remembers y i j b b' x : effect y i j b b' -> respects x i j b -> respects x i j b'.
Proof.
  intros (_ & Hc & Ha & He) Hr. unfold respects in *. pose proof (rrd_pos (grp (cmd_rank x) (cmd_bank x)) (grp i j)). pose proof (recovery_pos (cmd_kind x)). bounds. clear Ht.
  destruct (cmd_kind x) eqn:Ex; try done; destruct (cmd_kind y) eqn:Ey; try done; try (destruct (at_ y i j) eqn:Eat); settle.
Qed.

Lemma effect_records y i j b b' : effect y i j b b' -> respects y i j b'.
Proof.
  intros (_ & Hc & Ha & He). unfold respects. pose proof (at_true y i j) as [_ Hat]. bounds. clear Ht.
  destruct (cmd_kind y) eqn:Ey; try done; try (destruct (at_ y i j) eqn:Eat); settle.
Qed.

Lemma effect_legal y b b' x : effect y (cmd_rank y) (cmd_bank y) b b' -> respects x (cmd_rank y) (cmd_bank y) b -> legal x y.
Proof.
  intros (_ & Hc & Ha & He) Hr. unfold respects, legal, same_bank in *. assert (Eat : at_ y (cmd_rank y) (cmd_bank y) = true) by (by apply at_true). rewrite Eat in He.
  bounds. clear Ht. destruct (cmd_kind x) eqn:Ex; try done; destruct (cmd_kind y) eqn:Ey; try done; settle; right; lia.
Qed.

Lemma issue_legal y rs rs' x : issue y rs rs' -> remembered rs x -> legal x y /\ remembered rs' x.
Proof.
  intros (He & H0 & H1 & b' & Hb') Hx. split.
  - destruct (He _ _ _ H0 H1 Hb') as (b & Hb & Hef). eapply effect_legal; [exact Hef|]. by apply Hx.
  - intros i j b2 Hi Hj Hb2. destruct (He _ _ _ Hi Hj Hb2) as (b & Hb & Hef). eapply effect_remembers; [exact Hef|]. by apply Hx.
Qed.
Lemma issue_records y rs rs' : issue y rs rs' -> remembered rs' y.
Proof. intros (He & _) i j b Hi Hj Hb. destruct (He _ _ _ Hi Hj Hb) as (b0 & _ & Hef). by eapply effect_records. Qed.
Lemma issue_groups y rs rs' : issue y rs rs' -> groups rs -> groups rs'.
Proof. intros (He & _) Hg i j b Hi Hj Hb. destruct (He _ _ _ Hi Hj Hb) as (b0 & Hb0 & -> & _). by apply Hg. Qed.

(** A log of commands that are legal one after the other, and remembered by the banks. *)
Definition logged (rs : list Rank) (log : list DramCmd) : Prop := StronglySorted legal log /\ Forall (remembered rs) log.

Lemma issue_logged y rs rs' log : issue y rs rs' -> logged rs log -> logged rs' (log ++ [y]).
Proof.
  intros Hi [Hs Hf]. split.
  - apply StronglySorted_app_2; [|done|by repeat constructor]. intros x z Hx ->%list_elem_of_singleton. rewrite Forall_forall in Hf. by destruct (issue_legal y rs rs' x Hi (Hf x Hx)).
  - apply Forall_app. split; [|apply Forall_singleton; by eapply issue_records]. eapply Forall_impl; [exact Hf|]. intros x Hx. by destruct (issue_legal y rs rs' x Hi Hx).
Qed.

(** ** The commands of the code *)

Lemma upd_bank_Ret r j f r' : upd_bank r j f = Ret r' -> exists b, banks r !! j = Some b /\ banks r' = <[j:=f b]> (banks r) /\ actTicks r' = actTicks r.
Proof. unfold upd_bank. intros (b & Hb%vread_Ret & E)%bind_Ret. apply bind_Ret in E as (bs & [_ ->]%vwrite_Ret & E). injection E as <-. by exists b. Qed.

Lemma precharge_banks r j t now r' : prechargeBank c r j t now = Ret r' -> exists b, banks r !! j = Some b /\ opened b = true /\
  banks r' = <[j:=b_with_act (b_with_pre (b_with_row b NO_ROW) t) (Z.max (actAllowedAt b) (u64 (t + tRP tm)))]> (banks r) /\ actTicks r' = actTicks r.
Proof.
  unfold prechargeBank. intros (b & Hb%vread_Ret & E)%bind_Ret. apply bind_Ret in E as (? & Ho%cassert_Ret & E). apply bind_Ret in E as (r1 & E1 & E).
  apply bind_Ret in E as (? & _ & E). apply bind_Ret in E as (ev & _ & E). injection E as <-. apply upd_bank_Ret in E1 as (b1 & Hb1 & E1 & E2).
  exists b. assert (b1 = b) as -> by congruence. by split_and!.
Qed.

(** A bank after an activate of another bank of its rank; only its tick may grow. *)
Definition act_only (b b' : Bank) : Prop :=
  openRow b' = openRow b /\ bankgr b' = bankgr b /\ colAllowedAt b' = colAllowedAt b /\ preAllowedAt b' = preAllowedAt b /\ actAllowedAt b <= actAllowedAt b'.

Lemma xaw_banks r t r' : enforce_xaw c r t = Ret r' -> Forall2 act_only (banks r) (banks r').
Proof.
  assert (Hrefl : forall bs, Forall2 act_only bs bs) by (intros bs; apply Forall_Forall2_diag, Forall_true; intros b; by split_and!).
  unfold enforce_xaw. destruct (last (actTicks r)) as [o|]; [|by intros [= <-]]. destruct (negb (o =? 0) && _); [done|].
  destruct (last _) as [o'|]; [|by intros [= <-]]. destruct (negb (o' =? 0) && _); intros [= <-]; [|done].
  cbn. apply Forall2_fmap_r, Forall_Forall2_diag, Forall_true. intros b. unfold act_only. cbn. split_and!; try done. lia.
Qed.

(** The bank [b0] at [k] after an activate at [t] of the bank [j] of group [g]. *)
Definition activated (j : nat) (g t row : Z) (k : nat) (b0 b' : Bank) : Prop :=
  bankgr b' = bankgr b0 /\ actAllowedAt b0 <= actAllowedAt b' /\ u64 (t + rrd g (bankgr b0)) <= actAllowedAt b' /\
  if decide (k = j) then openRow b' = row /\ preAllowedAt b' = u64 (t + tRAS tm) /\ colAllowedAt b' = Z.max (u64 (t + tRCD tm)) (colAllowedAt b0)
  else openRow b' = openRow b0 /\ preAllowedAt b' = preAllowedAt b0 /\ colAllowedAt b' = colAllowedAt b0.

Lemma activate_banks r j t row now r' : activateBank c r j t row now = Ret r' -> exists b, banks r !! j = Some b /\ opened b = false /\
  length (banks r') = length (banks r) /\ forall k b', banks r' !! k = Some b' -> exists b0, banks r !! k = Some b0 /\ activated j (bankgr b) t row k b0 b'.
Proof.
  unfold activateBank. intros (? & _ & E)%bind_Ret. apply bind_Ret in E as (b & Hb%vread_Ret & E). apply bind_Ret in E as (? & Ho%cassert_Ret & E).
  apply bind_Ret in E as (r1 & E1 & E). apply upd_bank_Ret in E1 as (b1 & Hb1 & E1 & _). assert (b1 = b) as -> by congruence. cbv zeta in E.
  apply bind_Ret in E as (? & _ & E). apply bind_Ret in E as (r2 & E2 & E). apply upd_bank_Ret in E2 as (b2 & Hb2 & E2 & _). cbn in Hb2, E2.
  apply bind_Ret in E as (r3 & E3%xaw_banks & E). apply bind_Ret in E as (ev & _ & E). injection E as <-.
  pose proof (lookup_lt_Some _ _ _ Hb) as Hlt. rewrite E1, list_lookup_insert_eq in Hb2 by done. injection Hb2 as <-.
  rewrite E1, list_insert_insert_eq in E2. cbn in E3. rewrite E2 in E3. exists b. split; [done|]. split; [unfold opened; by rewrite Ho|]. split.
  { apply Forall2_length in E3. rewrite length_fmap, length_insert in E3. done. }
  intros k b' Hk. cbn in Hk. destruct (Forall2_lookup_r _ _ _ _ _ E3 Hk) as (bm & Hm & (A1 & A2 & A3 & A4 & A5)). rewrite list_lookup_fmap in Hm.
  destruct (decide (k = j)) as [->|Hne].
  - rewrite list_lookup_insert_eq in Hm by done. injection Hm as <-. exists b. split; [done|]. unfold activated. rewrite decide_True by done. cbn in *. unfold rrd. rewrite A1, A2, A3, A4. split_and!; try done; lia.
  - rewrite list_lookup_insert_ne in Hm by done. destruct (banks r !! k) as [b0|] eqn:E0; [|done]. injection Hm as <-. exists b0. split; [done|].
    unfold activated. rewrite decide_False by done. cbn in *. unfold rrd. rewrite A1, A2, A3, A4. split_and!; try done; lia.
Qed.

(** Places after a rank is replaced. *)
Lemma bank_of_insert rs i r r' i' j : 0 <= i -> 0 <= i' -> rs !! Z.to_nat i = Some r ->
  bank_of (<[Z.to_nat i:=r']> rs) i' j = if decide (i' = i) then banks r' !! Z.to_nat j else bank_of rs i' j.
Proof.
  intros Hi Hi' Hr. unfold bank_of. destruct (decide (i' = i)) as [->|Hne].
  - by rewrite list_lookup_insert_eq by (by eapply lookup_lt_Some).
  - by rewrite list_lookup_insert_ne by lia.
Qed.
Lemma bank_of_rank rs i r j : rs !! Z.to_nat i = Some r -> bank_of rs i j = banks r !! Z.to_nat j.
Proof. intros Hr. unfold bank_of. by rewrite Hr. Qed.

Lemma at_other i j k t i' j' : ~ (i' = i /\ j' = j) -> at_ (mkDramCmd k i j t) i' j' = false.
Proof. intros H. apply not_true_iff_false. rewrite at_true. cbn. intros [-> ->]. by apply H. Qed.

(** A bank that a command does not touch. *)
Lemma untouched_pre y i j b : cmd_kind y = CMD_PRE -> at_ y i j = false -> effect y i j b b.
Proof. intros Hk Ha. unfold effect. rewrite Hk, Ha. split_and!; done. Qed.

Lemma precharge_issue rs i r j t now r' : 0 <= i -> rs !! Z.to_nat i = Some r -> prechargeBank c r j t now = Ret r' ->
  (forall b, banks r !! j = Some b -> preAllowedAt b <= t) -> 0 <= t < 2 ^ 62 + 2 ^ 61 ->
  issue (mkDramCmd CMD_PRE i (Z.of_nat j) t) rs (<[Z.to_nat i:=r']> rs).
Proof.
  intros Hi Hr E Hp Htk. destruct (precharge_banks r j t now r' E) as (b & Hb & Ho & Eb & _). specialize (Hp b Hb). pose proof (lookup_lt_Some _ _ _ Hb) as Hlt.
  assert (Hu : u64 (t + tRP tm) = t + tRP tm) by (bounds; apply u64_id; lia). split; [|split; [done|split; [cbn; lia|]]].
  - intros i' j' b' Hi' Hj' H'. rewrite (bank_of_insert rs i r) in H' by done. destruct (decide (i' = i)) as [->|Hne].
    2:{ exists b'. split; [done|]. apply untouched_pre; [done|]. apply at_other. tauto. }
    rewrite Eb in H'. rewrite (bank_of_rank rs i r) by done. destruct (decide (Z.to_nat j' = j)) as [Ej|Hne].
    + rewrite Ej, list_lookup_insert_eq in H' by done. injection H' as <-. rewrite Ej. exists b. split; [done|]. unfold effect. cbn.
      assert (at_ (mkDramCmd CMD_PRE i (Z.of_nat j) t) i j' = true) as -> by (apply at_true; cbn; lia). rewrite Hu. split_and!; try done; lia.
    + rewrite list_lookup_insert_ne in H' by done. exists b'. split; [done|]. apply untouched_pre; [done|]. apply at_other. lia.
  - cbn. rewrite (bank_of_insert rs i r), decide_True, Eb, Nat2Z.id, list_lookup_insert_eq by done. by eexists.
Qed.

Lemma activate_issue rs i r j t row now r' : 0 <= i -> rs !! Z.to_nat i = Some r -> groups rs -> activateBank c r j t row now = Ret r' -> row <> NO_ROW ->
  (forall b, banks r !! j = Some b -> actAllowedAt b <= t) -> 0 <= t < 2 ^ 62 + 2 ^ 61 ->
  issue (mkDramCmd CMD_ACT i (Z.of_nat j) t) rs (<[Z.to_nat i:=r']> rs).
Proof.
  intros Hi Hr Hg E Hrow Hp Htk. destruct (activate_banks r j t row now r' E) as (b & Hb & Ho & Hl & Hall). specialize (Hp b Hb).
  assert (Hgb : bankgr b = grp i (Z.of_nat j)) by (apply Hg; [done|lia|]; rewrite (bank_of_rank rs i r) by done; by rewrite Nat2Z.id).
  assert (Hu : forall x, short x -> u64 (t + x) = t + x) by (intros x Hx; unfold short in Hx; apply u64_id; lia). split; [|split; [done|split; [cbn; lia|]]].
  - intros i' j' b' Hi' Hj' H'. rewrite (bank_of_insert rs i r) in H' by done. destruct (decide (i' = i)) as [->|Hne].
    2:{ exists b'. split; [done|]. unfold effect. cbn [cmd_kind cmd_rank cmd_bank cmd_tick]. rewrite at_other by tauto. split_and!; try done. }
    destruct (Hall _ _ H') as (b0 & Hb0 & A1 & A2 & A3 & A4). rewrite (bank_of_rank rs i r) by done. exists b0. split; [done|].
    assert (Hg0 : bankgr b0 = grp i j') by (apply Hg; [done..|]; by rewrite (bank_of_rank rs i r)).
    unfold effect. cbn [cmd_kind cmd_rank cmd_bank cmd_tick]. rewrite Hg0, Hgb, Hu in A3 by (bounds; unfold rrd, short; destruct (_ && _); lia).
    destruct (decide (Z.to_nat j' = j)) as [Ej|Hne].
    + assert (at_ (mkDramCmd CMD_ACT i (Z.of_nat j) t) i j' = true) as -> by (apply at_true; cbn; lia). destruct A4 as (B1 & B2 & B3). rewrite Hu in B2, B3 by (bounds; done).
      assert (b0 = b) as -> by congruence. unfold opened. rewrite B1, B2, B3. split_and!; try done; try lia; apply negb_true_iff; by apply Z.eqb_neq.
    + destruct A4 as (B1 & B2 & B3). rewrite at_other by lia. unfold opened. rewrite B1, B2, B3. split_and!; try done; lia.
  - cbn. rewrite (bank_of_insert rs i r), decide_True, Nat2Z.id by done. apply lookup_lt_is_Some_2. rewrite Hl. by eapply lookup_lt_Some.
Qed.

(** The bank at a place after the column command [y] and the delays it leaves. *)
Lemma column_effect d i j t b0 i' j' : let y := mkDramCmd (if isRead d then CMD_RD else CMD_WR) i j t in
  0 <= t < 2 ^ 62 + 2 ^ 61 -> (at_ y i' j' = true -> opened b0 = true /\ colAllowedAt b0 <= t) ->
  let bm := b_with_col b0 (Z.max (t + ccd (i =? i') (grp i j) (grp i' j')) (colAllowedAt b0)) in
  effect y i' j' b0 (if at_ y i' j' then column_done c d t (t + tCL tm + tBURST tm) bm else bm).
Proof.
  cbv zeta. intros Htk Hat. unfold effect. bounds. assert (Hu : forall x, 0 <= x <= 2 ^ 60 -> u64 (t + x) = t + x) by (intros x Hx; apply u64_id; lia).
  set (y := mkDramCmd _ _ _ _) in *. assert (Er : recovery (cmd_kind y) = if isRead d then tRTP tm else tCL tm + tBURST tm + tWR tm) by (unfold y; by destruct (isRead d)).
  assert (Ec : cmd_kind y = if isRead d then CMD_RD else CMD_WR) by done. change (cmd_tick y) with t. change (cmd_rank y) with i. change (cmd_bank y) with j.
  assert (Hp : at_ y i' j' = true -> t + recovery (cmd_kind y) <= (if isRead d then u64 (t + tRTP tm) else u64 (t + tCL tm + tBURST tm + tWR tm))).
  { intros _. rewrite Er. destruct (isRead d); [rewrite Hu by lia; lia|]. rewrite <- !Z.add_assoc, Hu by lia. lia. }
  rewrite Er in *. clearbody y. rewrite Ec. unfold column_done. destruct (at_ y i' j'); destruct (isRead d); cbn; unfold opened in *; cbn; split_and!; try done; try lia; try (intros _; specialize (Hat eq_refl); specialize (Hp eq_refl); split_and!; try tauto; lia).
Qed.

(** The column command at [t] of the burst [d]. *)
Lemma column_issue rs i j t ready d r r' b : 0 <= i -> groups rs -> bank_of rs i (Z.of_nat j) = Some b -> opened b = true -> colAllowedAt b <= t -> 0 <= t < 2 ^ 62 + 2 ^ 61 ->
  ready = t + tCL tm + tBURST tm -> delay_columns c i (bankgr b) t rs !! Z.to_nat i = Some r -> upd_bank r j (column_done c d t ready) = Ret r' ->
  issue (mkDramCmd (if isRead d then CMD_RD else CMD_WR) i (Z.of_nat j) t) rs (<[Z.to_nat i:=r']> (delay_columns c i (bankgr b) t rs)).
Proof.
  intros Hi Hg Hb Ho Hc Htk -> Hr E. set (y := mkDramCmd _ _ _ _). destruct (upd_bank_Ret _ _ _ _ E) as (b1 & Hb1 & Eb & _).
  assert (Hu : forall x, 0 <= x <= 2 ^ 60 -> u64 (t + x) = t + x) by (intros x Hx; apply u64_id; lia).
  assert (Hgb : bankgr b = grp i (Z.of_nat j)) by (apply Hg; [done|lia|done]).
  (* the banks after the delays *)
  assert (Hd : forall i' j' b', 0 <= i' -> 0 <= j' -> bank_of (delay_columns c i (bankgr b) t rs) i' j' = Some b' -> exists b0, bank_of rs i' j' = Some b0 /\
    b' = b_with_col b0 (Z.max (t + ccd (i =? i') (grp i (Z.of_nat j)) (grp i' j')) (colAllowedAt b0))).
  { intros i' j' b' Hi' Hj'. unfold bank_of, delay_columns. rewrite list_lookup_imap. destruct (rs !! Z.to_nat i') as [r0|] eqn:E0; [|done]. cbn.
    rewrite list_lookup_fmap. destruct (banks r0 !! Z.to_nat j') as [b0|] eqn:E1; [|done]. intros [= <-]. exists b0. split; [done|].
    assert (Hg0 : bankgr b0 = grp i' j') by (apply Hg; [done..|]; unfold bank_of; by rewrite E0). rewrite Z2Nat.id by done. f_equal. unfold cmd_dly, ccd. rewrite Hg0, Hgb.
    bounds. destruct (i =? i'); [destruct (_ && _); by rewrite Hu by lia|]. rewrite (u64_id (tBURST tm + tCS tm)) by lia. by rewrite Hu by lia. }
  assert (Hb0 : forall j', i = i -> 0 <= j' -> Z.to_nat j' = j -> bank_of rs i j' = Some b).
  { intros j' _ Hj' <-. by rewrite Z2Nat.id in Hb. }
  split; [|split; [done|split; [cbn; lia|]]].
  - intros i' j' b' Hi' Hj' H'. rewrite (bank_of_insert _ i r) in H' by done.
    assert (exists bm, bank_of (delay_columns c i (bankgr b) t rs) i' j' = Some bm /\ b' = if at_ y i' j' then column_done c d t (t + tCL tm + tBURST tm) bm else bm) as (bm & Hm & ->).
    { destruct (decide (i' = i)) as [->|Hne]; [|exists b'; split; [done|]; unfold y; by rewrite at_other by tauto]. rewrite (bank_of_rank _ i r) by done. rewrite Eb in H'.
      destruct (decide (Z.to_nat j' = j)) as [Ej|Hne].
      - rewrite Ej, list_lookup_insert_eq in H' by (by eapply lookup_lt_Some). injection H' as <-. rewrite Ej. exists b1. split; [done|].
        assert (at_ y i j' = true) as -> by (apply at_true; cbn; lia). done.
      - rewrite list_lookup_insert_ne in H' by done. exists b'. split; [done|]. unfold y. by rewrite at_other by lia. }
    destruct (Hd _ _ _ Hi' Hj' Hm) as (b0 & Hb00 & ->). exists b0. split; [done|]. apply column_effect; [done|]. intros Hat.
    apply at_true in Hat as [Hat1 Hat2]. cbn in Hat1, Hat2. assert (b0 = b) as -> by (rewrite <- Hat1, <- Hat2 in Hb00; congruence). by split.
  - cbn. rewrite (bank_of_insert _ i r), decide_True, Eb, Nat2Z.id, list_lookup_insert_eq by (try done; by eapply lookup_lt_Some). by eexists.
Qed.

(** ** An access *)

(** The bank [j] of a rank is open for a column command at [t]. *)
Definition col_ready (r : Rank) (j : nat) (t : Z) : Prop :=
  exists b, banks r !! j = Some b /\ opened b = true /\ colAllowedAt b <= t /\ 0 <= preAllowedAt b <= 2 ^ 62 + 2 ^ 59 /\ 0 <= t <= 2 ^ 62 + 2 ^ 59.

Lemma activate_ready r j t row now r' b : activateBank c r j t row now = Ret r' -> banks r !! j = Some b -> colAllowedAt b <= 2 ^ 62 -> row <> NO_ROW ->
  0 <= t <= 2 ^ 62 + 2 ^ 58 -> exists b', banks r' !! j = Some b' /\ col_ready r' j (colAllowedAt b').
Proof.
  intros E Hb Hc Hrow Htk. destruct (activate_banks r j t row now r' E) as (b1 & Hb1 & _ & Hl & Hall).
  assert (is_Some (banks r' !! j)) as [b' Hb'] by (apply lookup_lt_is_Some_2; rewrite Hl; by eapply lookup_lt_Some). exists b'. split; [done|].
  destruct (Hall _ _ Hb') as (b0 & Hb0 & _ & _ & _ & A). rewrite decide_True in A by done. destruct A as (A1 & A2 & A3). assert (b0 = b) as -> by congruence.
  bounds. rewrite u64_id in A2, A3 by lia. exists b'. rewrite A2, A3. unfold opened. rewrite A1. split_and!; try done; lia.
Qed.

Lemma open_row_issues rs i r j row now r' t l log : 0 <= i -> rs !! Z.to_nat i = Some r -> groups rs -> Forall bank_tame (banks r) -> tick now -> row <> NO_ROW ->
  logged rs log -> open_row c i r j row now = Ret (r', t, l) ->
  logged (<[Z.to_nat i:=r']> rs) (log ++ l) /\ groups (<[Z.to_nat i:=r']> rs) /\ col_ready r' j t.
Proof.
  intros Hi Hr Hg Hbt Hnow Hrow Hlog. unfold open_row. intros (b & Hb%vread_Ret & E)%bind_Ret. destruct (Forall_lookup_1 _ _ _ _ Hbt Hb) as [Bc Bp Ba]. unfold tick in *.
  destruct (openRow b =? row) eqn:Eh.
  { injection E as <- <- <-. rewrite list_insert_id, app_nil_r by done. split_and!; [done..|]. exists b. unfold opened. apply Z.eqb_eq in Eh. rewrite Eh.
    split_and!; try done; lia. }
  cbv zeta in E. apply bind_Ret in E as ([r1 pre] & E1 & E). apply bind_Ret in E as (b1 & Hb1%vread_Ret & E). apply bind_Ret in E as (r2 & E2 & E).
  apply bind_Ret in E as (b2 & Hb2%vread_Ret & E). injection E as <- <- <-.
  assert (H1 : logged (<[Z.to_nat i:=r1]> rs) (log ++ pre) /\ groups (<[Z.to_nat i:=r1]> rs) /\ 0 <= actAllowedAt b1 <= 2 ^ 62 + 2 ^ 58 /\ colAllowedAt b1 <= 2 ^ 62).
  { destruct (negb (openRow b =? NO_ROW)).
    - apply bind_Ret in E1 as (r0 & E1 & E0). injection E0 as <- <-. destruct (precharge_banks _ _ _ _ _ E1) as (b0 & Hb0 & _ & Eb & _). assert (b0 = b) as -> by congruence.
      eapply precharge_issue in E1; [|done|exact Hr|intros b' Hb'; assert (b' = b) as -> by congruence; lia|lia].
      split; [by eapply issue_logged|]. split; [by eapply issue_groups|]. rewrite Eb, list_lookup_insert_eq in Hb1 by (by eapply lookup_lt_Some). injection Hb1 as <-.
      cbn. bounds. rewrite u64_id by lia. lia.
    - injection E1 as <- <-. rewrite list_insert_id, app_nil_r by done. assert (b1 = b) as -> by congruence. split_and!; try done; lia. }
  destruct H1 as (L1 & G1 & A1 & C1). destruct (activate_ready _ _ _ _ _ _ _ E2 Hb1 C1 Hrow) as (b3 & Hb3 & Hcr); [lia|]. assert (b3 = b2) as -> by congruence.
  eapply (activate_issue (<[Z.to_nat i:=r1]> rs)) in E2; [|done|apply list_lookup_insert_eq; by eapply lookup_lt_Some|done|done|intros b' Hb'; assert (b' = b1) as -> by congruence; lia|lia].
  rewrite list_insert_insert_eq in E2. split; [|split; [by eapply issue_groups|done]]. rewrite app_assoc. by eapply issue_logged.
Qed.

(** An auto-precharge may be told before its column command. *)
Lemma logged_swap rs log y p : is_col (cmd_kind y) = true -> cmd_kind p = CMD_PRE -> same_bank y p -> logged rs (log ++ [y; p]) -> logged rs (log ++ [p; y]).
Proof.
  intros Hy Hp Hb [Hs Hf]. split; [|rewrite Forall_app in *; destruct Hf as [? Hf]; split; [done|]; by apply Forall_cons in Hf as [? Hf]; apply Forall_cons in Hf as [? ?]; repeat constructor].
  apply StronglySorted_app in Hs as (Hx & H1 & H2). apply StronglySorted_app_2; [|done|].
  - intros x z Hxl Hz. apply Hx; [done|]. apply elem_of_cons in Hz as [->|Hz]; [right; left|]. apply list_elem_of_singleton in Hz as ->. left.
  - apply StronglySorted_inv in H2 as [_ H2]. rewrite Forall_singleton in H2. clear Hx. repeat constructor. unfold legal, same_bank in *. rewrite Hp in *.
    destruct (cmd_kind y); try done; intros _; left; exact (H2 Hb).
Qed.

Lemma set_rank_run i r s a s' o : set_rank i r s = Ret (a, s', o) -> s' = d_with_ranks s (<[Z.to_nat i:=r]> (ranks s)) /\ o = [].
Proof.
  unfold set_rank. intros (s0 & s1 & o1 & o2 & [= <- <- <-] & E & ->)%bind_run. apply bind_run in E as (rs & s1 & o3 & o4 & (Ew%vwrite_Ret & -> & ->)%lift_run & E & ->).
  destruct Ew as [_ ->]. by injection E as <- <- <-.
Qed.

(** The column command of an access, and the precharge that may come with it. *)
Lemma column_logged rs i j d t now (b b3 : Bank) r1 r2 r3 r4 pre (auto : bool) log : 0 <= i -> groups rs -> tick now -> rs !! Z.to_nat i = Some r1 -> col_ready r1 j t ->
  banks r1 !! j = Some b -> delay_columns c i (bankgr b) t rs !! Z.to_nat i = Some r2 -> upd_bank r2 j (column_done c d t (t + tCL tm + tBURST tm)) = Ret r3 ->
  banks r3 !! j = Some b3 ->
  (if auto then r ← prechargeBank c r3 j (Z.max now (preAllowedAt b3)) now; Ret (r, [mkDramCmd CMD_PRE i (Z.of_nat j) (Z.max now (preAllowedAt b3))]) else Ret (r3, [])) = Ret (r4, pre) ->
  logged rs log -> let rs' := <[Z.to_nat i:=r4]> (delay_columns c i (bankgr b) t rs) in
  logged rs' (log ++ pre ++ [mkDramCmd (if isRead d then CMD_RD else CMD_WR) i (Z.of_nat j) t]) /\ groups rs'.
Proof.
  intros Hi Hg Hn Hr1 (b' & Hb' & Ho & Hc & Hp & Htk) Hb Hr2 E3 Hb3 E4 Hlog. cbv zeta. assert (b' = b) as -> by congruence. set (y := mkDramCmd _ _ _ _).
  assert (Ib : bank_of rs i (Z.of_nat j) = Some b) by (rewrite (bank_of_rank rs i r1) by done; by rewrite Nat2Z.id).
  assert (I : issue y rs (<[Z.to_nat i:=r3]> (delay_columns c i (bankgr b) t rs))) by (eapply column_issue; [done..|lia|reflexivity|exact Hr2|exact E3]).
  pose proof (issue_logged _ _ _ _ I Hlog) as L3. pose proof (issue_groups _ _ _ I Hg) as G3. destruct auto; [|injection E4 as <- <-; done].
  apply bind_Ret in E4 as (r5 & E4 & E5). injection E5 as <- <-. unfold tick in Hn.
  assert (Hp3 : 0 <= preAllowedAt b3 <= 2 ^ 62 + 2 ^ 60 + 2 ^ 59).
  { apply upd_bank_Ret in E3 as (b2 & Hb2 & E3 & _). rewrite E3, list_lookup_insert_eq in Hb3 by (by eapply lookup_lt_Some). injection Hb3 as <-.
    unfold delay_columns in Hr2. rewrite list_lookup_imap, Hr1 in Hr2. injection Hr2 as <-. cbn in Hb2. rewrite list_lookup_fmap, Hb in Hb2. injection Hb2 as <-.
    bounds. cbn. rewrite <- Z.add_assoc. destruct (isRead d); rewrite u64_id by lia; lia. }
  eapply (precharge_issue (<[Z.to_nat i:=r3]> (delay_columns c i (bankgr b) t rs))) in E4;
    [|done|apply list_lookup_insert_eq; by eapply lookup_lt_Some|intros b4 Hb4; assert (b4 = b3) as -> by congruence; lia|lia].
  rewrite list_insert_insert_eq in E4. split; [|by eapply issue_groups]. pose proof (issue_logged _ _ _ _ E4 L3) as L4. rewrite <- app_assoc in L4.
  cbn [app] in *. apply logged_swap; [unfold y; cbn; by destruct (isRead d)|done..].
Qed.

(** The commands of an access are legal after those of the accesses before it. *)
Lemma access_logged d now s log a s' o : Forall (fun r => Forall bank_tame (banks r)) (ranks s) -> tCL tm <= busBusyUntil s <= 2 ^ 62 + 2 ^ 59 -> tick now -> groups (ranks s) -> 0 <= dp_rank d -> dp_row d <> NO_ROW -> logged (ranks s) log ->
  doDRAMAccess c d now s = Ret (a, s', o) -> exists l, o = commands l /\ logged (ranks s') (log ++ l) /\ groups (ranks s').
Proof.
  intros Tb Tu Tn Hg Hi Hrow Hlog. unfold doDRAMAccess. set (i := dp_rank d) in *. set (j := Z.to_nat (dp_bank d)).
  intros (s0 & s1 & o1 & o2 & [= <- <- <-] & E & ->)%bind_run. apply bind_run in E as (r & s1 & o1 & o3 & (Hr%vread_Ret & -> & ->)%lift_run & E & ->).
  apply bind_run in E as ([[r1 t] l1] & s1 & o1 & o4 & (E1 & -> & ->)%lift_run & E & ->).
  destruct (open_row_issues (ranks s) i r j (dp_row d) now r1 t l1 log) as (L1 & G1 & b & Hb & Ho & Hc & Hp & Htk); try done; [by eapply Forall_lookup_1 in Tb|].
  apply bind_run in E as (? & s1 & o1 & o5 & (-> & ->)%set_rank_run & E & ->). apply bind_run in E as (? & s1 & o1 & o6 & [= _ <- <-] & E & ->).
  set (rs1 := <[Z.to_nat i:=r1]> (ranks s)) in *. set (s1 := d_with_ranks s rs1) in *. cbv zeta in E.
  apply bind_run in E as (? & s2 & o1 & o7 & (_ & -> & ->)%lift_run & E & ->). apply bind_run in E as (b' & s2 & o1 & o8 & (Hb'%vread_Ret & -> & ->)%lift_run & E & ->).
  assert (b' = b) as -> by congruence. apply bind_run in E as (? & s2 & o1 & o9 & [= <- <- <-] & E & ->). apply bind_run in E as (? & s2 & o1 & o10 & [= _ <- <-] & E & ->).
  apply bind_run in E as (? & s2 & o1 & o11 & [= <- <- <-] & E & ->). apply bind_run in E as (r2 & s2 & o1 & o12 & (Hr2%vread_Ret & -> & ->)%lift_run & E & ->).
  apply bind_run in E as (r3 & s2 & o1 & o13 & (E3 & -> & ->)%lift_run & E & ->). apply bind_run in E as (b3 & s2 & o1 & o14 & (Hb3%vread_Ret & -> & ->)%lift_run & E & ->).
  apply bind_run in E as ([r4 pre] & s2 & o1 & o15 & (E4 & -> & ->)%lift_run & E & ->). apply bind_run in E as (? & s2 & o1 & o16 & (-> & ->)%set_rank_run & E & ->).
  apply bind_run in E as (? & s2 & o1 & o17 & [= _ <- <-] & E & ->). apply bind_run in E as (? & s2 & o1 & o18 & [= <- <- <-] & E & ->).
  apply bind_run in E as (? & s2 & o1 & o19 & [= _ <- <-] & E & ->). injection E as <- <- <-. cbn [app]. rewrite app_nil_r.
  assert (Et : u64 (Z.max t (u64 (busBusyUntil s - tCL tm)) + tCL tm + tBURST tm) = Z.max t (u64 (busBusyUntil s - tCL tm)) + tCL tm + tBURST tm).
  { bounds. rewrite (u64_id (busBusyUntil s - tCL tm)) by lia. apply u64_id. lia. }
  rewrite Et in E3. unfold tick in Tn. assert (Hb0 : 0 <= u64 (busBusyUntil s - tCL tm) <= 2 ^ 62 + 2 ^ 59) by (bounds; rewrite u64_id by lia; lia).
  assert (Hr1 : rs1 !! Z.to_nat i = Some r1) by (apply list_lookup_insert_eq; by eapply lookup_lt_Some).
  assert (Hcr : col_ready r1 j (Z.max t (u64 (busBusyUntil s - tCL tm)))) by (exists b; split_and!; try done; lia).
  destruct (column_logged rs1 i j d _ now b b3 r1 r2 r3 r4 pre _ (log ++ l1) Hi G1 Tn Hr1 Hcr Hb Hr2 E3 Hb3 E4 L1) as [L G].
  eexists (l1 ++ pre ++ [_]). unfold commands. rewrite !fmap_app. split; [done|]. rewrite app_assoc. by destruct (isRead d).
Qed.

(** ** Runs *)

(** The commands among the calls of the controller. *)
Definition told (o : list DOut) : list DramCmd := omap (fun x => match x with DramCommand y => Some y | _ => None end) o.

Lemma told_app o o' : told (o ++ o') = told o ++ told o'.
Proof. unfold told. by rewrite omap_app. Qed.
Lemma told_commands l : told (commands l) = l.
Proof. unfold told, commands. induction l as [|x l IH]; cbn; [done|]. by rewrite IH. Qed.

(** The banks of a controller, which is all the log depends on. *)
Definition all_banks (s : DRAMCtrl) : list (list Bank) := banks <$> ranks s.
Definition timed (s : DRAMCtrl) (log : list DramCmd) : Prop := logged (ranks s) log /\ groups (ranks s).

Lemma bank_of_all s i j : bank_of (ranks s) i j = (bs ← all_banks s !! Z.to_nat i; bs !! Z.to_nat j).
Proof. unfold bank_of, all_banks. rewrite list_lookup_fmap. by destruct (ranks s !! Z.to_nat i). Qed.
Lemma timed_banks s s' log : all_banks s' = all_banks s -> timed s log -> timed s' log.
Proof.
  intros E [[H1 H2] H3]. assert (Eb : forall i j, bank_of (ranks s') i j = bank_of (ranks s) i j) by (intros; by rewrite !bank_of_all, E).
  split; [split; [done|]|].
  - eapply Forall_impl; [exact H2|]. intros x Hx i j b. rewrite Eb. apply Hx.
  - intros i j b. rewrite Eb. apply H3.
Qed.

(** A handler that leaves the banks alone and issues no command. *)
Definition keeps {A} (m : handler DRAMCtrl DOut A) (s : DRAMCtrl) : Prop :=
  forall a s' o, m s = Ret (a, s', o) -> all_banks s' = all_banks s /\ told o = [].

Lemma banks_get {B} (f : DRAMCtrl -> handler DRAMCtrl DOut B) s : keeps (f s) s -> keeps (mbind f get) s.
Proof. intros H a s' o (x & s1 & o1 & o2 & [= <- <- <-] & E & ->)%bind_run. by apply (H a s' o2). Qed.
Lemma banks_bind {A B} (m : handler DRAMCtrl DOut A) (f : A -> handler DRAMCtrl DOut B) s :
  keeps m s -> (forall a s', all_banks s' = all_banks s -> keeps (f a) s') -> keeps (mbind f m) s.
Proof.
  intros H1 H2 b s' o (a & s1 & o1 & o2 & E1 & E2 & ->)%bind_run. destruct (H1 _ _ _ E1) as [A1 T1]. destruct (H2 a s1 A1 _ _ _ E2) as [A2 T2].
  rewrite told_app, T1, T2. split; [congruence|done].
Qed.
Lemma banks_lift {A} (r : res A) s : keeps (lift r) s.
Proof. intros a s' o (_ & -> & ->)%lift_run. done. Qed.
Lemma banks_lift_bind {A B} (r : res A) (f : A -> handler DRAMCtrl DOut B) s : (forall a, r = Ret a -> keeps (f a) s) -> keeps (mbind f (lift r)) s.
Proof. intros H b s' o (a & s1 & o1 & o2 & (Er & -> & ->)%lift_run & E & ->)%bind_run. by apply (H a Er _ _ _ E). Qed.
Lemma banks_put s' s : all_banks s' = all_banks s -> keeps (put s') s.
Proof. by intros H a s2 o [= <- <- <-]. Qed.
Lemma banks_ret {A} (a : A) s : keeps (ret a) s.
Proof. by intros b s' o [= <- <- <-]. Qed.
Lemma banks_emit x s : told [x] = [] -> keeps (emit x) s.
Proof. by intros H b s' o [= <- <- <-]. Qed.

(** Through a handler, construct by construct. *)
Ltac keep_step :=
  cbv beta zeta;
  lazymatch goal with
  | |- keeps (mbind _ get) _ => apply banks_get
  | |- keeps (mbind _ (lift _)) _ => apply banks_lift_bind; intros ? ?
  | |- keeps (mbind _ _) _ => apply banks_bind; [|intros ? ? ?]
  | |- keeps (lift _) _ => apply banks_lift
  | |- keeps (ret _) _ => apply banks_ret
  | |- keeps (put _) _ => apply banks_put; done
  | |- keeps (emit _) _ => apply banks_emit; done
  | |- keeps (match ?x with _ => _ end) _ => destruct x eqn:?
  end.
Ltac keeping := repeat keep_step.

Lemma kick_keeps when now s : keeps (kick_requests when now) s.
Proof. unfold kick_requests. keeping. Qed.
Lemma respond_keeps pkt hd lat now s : keeps (accessAndRespond pkt hd lat now) s.
Proof. unfold accessAndRespond, check. keeping. Qed.
Lemma read_bursts_keeps n pkt hd k a h sv now s : keeps (read_bursts c n pkt hd k a h sv now) s.
Proof. revert a h sv s. induction n as [|n IH]; intros a h sv s; cbn [read_bursts]; unfold check; keeping; apply IH. Qed.
Lemma write_bursts_keeps n pkt hd a now s : keeps (write_bursts c n pkt hd a now) s.
Proof. revert a s. induction n as [|n IH]; intros a s; cbn [write_bursts]; unfold check; keeping; apply IH. Qed.
Lemma req_keeps pkt hd now s : keeps (dram_recvTimingReq c pkt hd now) s.
Proof.
  unfold dram_recvTimingReq, addToReadQueue, addToWriteQueue, check. keeping.
  all: try (apply read_bursts_keeps || apply write_bursts_keeps || apply respond_keeps || apply kick_keeps).
Qed.

Lemma run_respond_keeps now s : keeps (run_respond c now) s.
Proof. unfold run_respond, processRespondEvent, check. keeping; apply respond_keeps. Qed.

Lemma set_rank_keeps (i : nat) r r' s : ranks s !! i = Some r -> banks r' = banks r -> keeps (set_rank (Z.of_nat i) r') s.
Proof.
  intros Hr Hb a s' o (-> & ->)%set_rank_run. split; [|done]. unfold all_banks. cbn. rewrite Nat2Z.id, list_fmap_insert, Hb. apply list_insert_id.
  by rewrite list_lookup_fmap, Hr.
Qed.
Lemma power_banks r st t now r' : schedulePowerEvent r st t now = Ret r' -> banks r' = banks r.
Proof. unfold schedulePowerEvent. intros (? & _ & E)%bind_Ret. destruct (powerEvent r); [done|]. apply bind_Ret in E as (ev & _ & E). by injection E as <-. Qed.
Lemma run_activate_keeps i now s : keeps (run_activate i now) s.
Proof.
  unfold run_activate, check. keeping. eapply set_rank_keeps; [by eapply vread_Ret|]. unfold processActivateEvent in *.
  match goal with H : (if ?b then _ else _) = _ |- _ => destruct b; [by injection H as <-|by apply power_banks in H] end.
Qed.
Lemma run_precharge_keeps i now s : keeps (run_precharge i now) s.
Proof.
  unfold run_precharge, check. keeping. eapply set_rank_keeps; [by eapply vread_Ret|]. unfold processPrechargeEvent in *.
  match goal with H : (if ?b then _ else _) = _ |- _ => destruct b; [by apply power_banks in H|by injection H as <-] end.
Qed.

(** A refresh that issues no command has not touched the banks. *)
Lemma refresh_banks r busy now r' l : processRefreshEvent c r busy now = Ret (r', l) -> l = [] -> banks r' = banks r.
Proof.
  unfold processRefreshEvent. cbv zeta. set (r1 := if bool_decide (refreshState r = REF_IDLE) then _ else _). assert (E1 : banks r1 = banks r) by (unfold r1; by case_bool_decide).
  destruct (_ && busy); [by intros [= <- _]|]. set (r2 := if bool_decide (refreshState r1 = REF_DRAIN) then _ else _).
  assert (E2 : banks r2 = banks r1) by (unfold r2; by case_bool_decide). rewrite <- E1, <- E2. destruct (refreshState r2); [by intros [= <- _]..| |].
  - unfold refresh_pre. intros ([r3 l3] & E3 & E)%bind_Ret Hl. apply bind_Ret in E as (? & _ & E). injection E as <- <-. cbn.
    case_bool_decide; apply bind_Ret in E3 as (r4 & E4 & E3); injection E3 as <- <-; [by apply power_banks in E4|done].
  - unfold refresh_run. intros (? & _ & E)%bind_Ret. repeat (apply bind_Ret in E as (? & _ & E)). by injection E as <- <-.
Qed.
Lemma power_event_banks r busy now r' k l : processPowerEvent c r busy now = Ret (r', k, l) -> l = [] -> banks r' = banks r.
Proof.
  unfold processPowerEvent. cbv zeta. intros ([r1 k1] & E1 & E)%bind_Ret Hl.
  assert (Hb : banks r1 = banks r).
  { destruct (bool_decide (pwrState _ = PWR_IDLE)); [|by injection E1 as <- <-]. destruct (bool_decide (pwrState r = PWR_REF)); [by injection E1 as <- <-|].
    apply bind_Ret in E1 as (? & _ & E1). destruct (bool_decide (refreshState _ = REF_RUN)); [|by injection E1 as <- <-]. apply bind_Ret in E1 as (? & _ & E1). by injection E1 as <- <-. }
  rewrite <- Hb. destruct (bool_decide (pwrState r1 = PWR_REF)); [|by injection E as <- <- <-].
  apply bind_Ret in E as (? & _ & E). apply bind_Ret in E as ([r2 l2] & E2 & E). injection E as <- <- <-. by eapply refresh_banks.
Qed.
Lemma run_refresh_quiet i now s a s' o : run_refresh c i now s = Ret (a, s', o) -> told o = [] -> all_banks s' = all_banks s.
Proof.
  unfold run_refresh. intros (s0 & s1 & o1 & o2 & [= <- <- <-] & E & ->)%bind_run. apply bind_run in E as (r & s1 & o1 & o3 & (Hr%vread_Ret & -> & ->)%lift_run & E & ->).
  apply bind_run in E as (? & s1 & o1 & o4 & (_ & -> & ->)%lift_run & E & ->). apply bind_run in E as ([r' l] & s1 & o1 & o5 & (Ep & -> & ->)%lift_run & E & ->).
  apply bind_run in E as (? & s1 & o1 & o6 & [= _ <- <-] & E & ->). cbn [app]. rewrite told_app, told_commands. intros [-> _]%app_nil.
  eapply set_rank_keeps; [exact Hr| |exact E]. by apply refresh_banks in Ep.
Qed.
Lemma run_power_quiet i now s a s' o : run_power c i now s = Ret (a, s', o) -> told o = [] -> all_banks s' = all_banks s.
Proof.
  unfold run_power. intros (s0 & s1 & o1 & o2 & [= <- <- <-] & E & ->)%bind_run. apply bind_run in E as (r & s1 & o1 & o3 & (Hr%vread_Ret & -> & ->)%lift_run & E & ->).
  apply bind_run in E as (? & s1 & o1 & o4 & (_ & -> & ->)%lift_run & E & ->). apply bind_run in E as ([[r' k] l] & s1 & o1 & o5 & (Ep & -> & ->)%lift_run & E & ->).
  apply bind_run in E as (? & s1 & o1 & o6 & [= _ <- <-] & E & ->). cbn [app]. rewrite told_app, told_commands. intros [-> _]%app_nil.
  apply bind_run in E as (? & s1 & o1 & o7 & E1 & E & ->). eapply set_rank_keeps in E1 as [<- _]; [|exact Hr|by apply power_event_banks in Ep].
  destruct k; [by apply kick_keeps in E as [? _]|by injection E as <- <- <-].
Qed.

Lemma startup_banks rs t now rs' : startup_ranks rs t now = Ret rs' -> banks <$> rs' = banks <$> rs.
Proof.
  revert rs'. induction rs as [|r rs IH]; intros rs' E; cbn [startup_ranks] in E; [by injection E as <-|]. apply bind_Ret in E as (r1 & E1 & E). apply bind_Ret in E as (rs1 & E2 & E).
  injection E as <-. cbn. rewrite (IH rs1 E2). f_equal. unfold rank_startup in E1. apply bind_Ret in E1 as (? & _ & E1). apply bind_Ret in E1 as (ev & _ & E1). by injection E1 as <-.
Qed.
Lemma suspend_banks rs rs' : suspend_ranks rs = Ret rs' -> banks <$> rs' = banks <$> rs.
Proof.
  revert rs'. induction rs as [|r rs IH]; intros rs' E; cbn [suspend_ranks] in E; [by injection E as <-|]. apply bind_Ret in E as (r1 & E1 & E). apply bind_Ret in E as (rs1 & E2 & E).
  injection E as <-. cbn. rewrite (IH rs1 E2). f_equal. unfold rank_suspend in E1. apply bind_Ret in E1 as (? & _ & E1). by injection E1 as <-.
Qed.
Lemma drain_banks rs now rs' n : drain_ranks rs now = Ret (rs', n) -> banks <$> rs' = banks <$> rs.
Proof.
  revert rs' n. induction rs as [|r rs IH]; intros rs' n E; cbn [drain_ranks] in E; [by injection E as <- _|]. apply bind_Ret in E as ([r1 k] & E1 & E). apply bind_Ret in E as ([rs1 n1] & E2 & E).
  injection E as <- _. cbn. rewrite (IH rs1 n1 E2). f_equal. destruct (isAvailable r); [by injection E1 as <- _|]. apply bind_Ret in E1 as (r2 & E3 & E1). injection E1 as <- _.
  unfold checkDrainDone in E3. case_bool_decide; [|by injection E3 as <-]. apply bind_Ret in E3 as (ev & _ & E3). by injection E3 as <-.
Qed.

Lemma startup_keeps mode now s : keeps (DRAMCtrl_startup c mode now) s.
Proof.
  unfold DRAMCtrl_startup. do 3 keep_step; [|keeping]. do 2 keep_step. apply banks_put. unfold all_banks. cbn. by eapply startup_banks.
Qed.
Lemma resume_keeps mode now s : keeps (DRAMCtrl_drainResume c mode now) s.
Proof.
  unfold DRAMCtrl_drainResume. do 2 keep_step; [|keeping]. keep_step; [apply startup_keeps|]. keep_step; [|keeping]. keep_step. apply banks_put. unfold all_banks. cbn. by eapply suspend_banks.
Qed.
Lemma drain_keeps n now s : keeps (DRAMCtrl_drain n now) s.
Proof. unfold DRAMCtrl_drain. keeping. apply kick_keeps. Qed.
Lemma atomic_keeps pkt s : keeps (dram_recvAtomic c pkt) s.
Proof. unfold dram_recvAtomic. keeping. Qed.
Lemma functional_keeps pkt pq s : keeps (dram_recvFunctional pkt pq) s.
Proof. unfold dram_recvFunctional. keeping. Qed.

(** *** The request event *)

(** Runs that extend a log. *)
Definition extends {A} (m : handler DRAMCtrl DOut A) (s : DRAMCtrl) (log : list DramCmd) : Prop :=
  forall a s' o, m s = Ret (a, s', o) -> timed s' (log ++ told o).

Lemma extends_keeps {A} (m : handler DRAMCtrl DOut A) s log : keeps m s -> timed s log -> extends m s log.
Proof. intros H Ht' a s' o E. destruct (H _ _ _ E) as [Hb ->]. rewrite app_nil_r. by eapply timed_banks. Qed.

(** Before an access the handlers only prepare; after it they only clean up. *)
Lemma extends_after {A B} (m : handler DRAMCtrl DOut A) (f : A -> handler DRAMCtrl DOut B) s log :
  extends m s log -> (forall a s', keeps (f a) s') -> extends (mbind f m) s log.
Proof.
  intros H1 H2 b s' o (a & s1 & o1 & o2 & E1 & E2 & ->)%bind_run. destruct (H2 a s1 _ _ _ E2) as [Hb Ho]. rewrite told_app, Ho, app_nil_r. eapply timed_banks; [exact Hb|]. by eapply H1.
Qed.
Lemma extends_before {A B} (m : handler DRAMCtrl DOut A) (f : A -> handler DRAMCtrl DOut B) (P : A -> DRAMCtrl -> Prop) s log :
  wp m P s -> (forall a s' o, m s = Ret (a, s', o) -> told o = []) -> (forall a s', P a s' -> extends (f a) s' log) -> extends (mbind f m) s log.
Proof.
  intros H1 Hq H2 b s' o (a & s1 & o1 & o2 & E1 & E2 & ->)%bind_run. rewrite told_app, (Hq _ _ _ E1). cbn [app]. eapply H2; [|exact E2]. by eapply H1.
Qed.

Lemma extends_get {B} (f : DRAMCtrl -> handler DRAMCtrl DOut B) s log : extends (f s) s log -> extends (mbind f get) s log.
Proof. intros H a s' o (x & s1 & o1 & o2 & [= <- <- <-] & E & ->)%bind_run. by apply (H a s' o2). Qed.
Lemma extends_lift {A B} (r : res A) (f : A -> handler DRAMCtrl DOut B) s log : (forall a, r = Ret a -> extends (f a) s log) -> extends (mbind f (lift r)) s log.
Proof. intros H b s' o (a & s1 & o1 & o2 & (Er & -> & ->)%lift_run & E & ->)%bind_run. by apply (H a Er _ _ _ E). Qed.
Lemma extends_put {B} (f : unit -> handler DRAMCtrl DOut B) s0 s log : extends (f tt) s0 log -> extends (mbind f (put s0)) s log.
Proof. intros H b s' o ([] & s1 & o1 & o2 & [= <- <-] & E & ->)%bind_run. by apply (H _ _ _ E). Qed.

Context (Hbanks : bank_count c <= 64).

(** The state the request event starts from. *)
Definition banks_tame (rs : list Rank) : Prop := Forall (fun r => Forall bank_tame (banks r)) rs.
Record ready (s : DRAMCtrl) (now : Z) : Prop := {
  rd_tame : tame s now;
  rd_ranks : ranks_ok (ranks s);
  rd_read : Forall (place_ok c) (readQueue s);
  rd_write : Forall (place_ok c) (writeQueue s)
}.

Lemma access_extends d now s log : place_ok c d -> banks_tame (ranks s) -> tCL tm <= busBusyUntil s <= 2 ^ 62 + 2 ^ 59 -> tick now -> timed s log ->
  extends (doDRAMAccess c d now) s log.
Proof.
  intros [Hr _ _ Hrow] Hb Hu Hn [Hl Hg] a s' o E. eapply access_logged in E as (l & -> & H1 & H2); try done; [|lia|unfold NO_ROW in *; lia]. rewrite told_commands. by split.
Qed.

Lemma bubble_bus d sw t s now : 0 <= t <= 2 ^ 59 -> tame s now -> wp (bubble d sw t) (fun _ s' => ranks s' = ranks s /\ tCL tm <= busBusyUntil s' <= 2 ^ 62 + 2 ^ 59) s.
Proof.
  intros Ht' [_ Hu _]. bounds. unfold bubble. apply wp_bind, wp_get. destruct (sw && _); [apply wp_put|apply wp_ret; split; [done|lia]].
  split; [done|]. cbn. rewrite u64_id by lia. lia.
Qed.
Lemma bubble_quiet d sw t s a s' o : bubble d sw t s = Ret (a, s', o) -> told o = [].
Proof. intros E. assert (H : keeps (bubble d sw t) s) by (unfold bubble; keeping). by destruct (H _ _ _ E). Qed.

(** The chosen burst is a burst of the queue. *)
Lemma chosen_place s q sw now d rest : ranks_ok (ranks s) -> Forall (place_ok c) q -> chooseNext c s q sw now = Ret (true, d :: rest) -> place_ok c d.
Proof.
  intros Hr Hq E. destruct (chooseNext_ok c Hbanks _ _ _ _ _ _ Hr Hq E) as (_ & Hp & _). rewrite <- Hp in Hq. by apply Forall_cons in Hq as [? _].
Qed.

Lemma serve_read_extends sw now s log : ready s now -> timed s log -> extends (serve_read c sw now) s log.
Proof.
  intros [Htm Hrk Hrq _] Hs. unfold serve_read. apply extends_get, extends_lift. intros [found q] Ec. apply extends_put.
  assert (H0 : timed (d_with_read s q) log) by exact Hs. destruct found; [|by apply extends_keeps; [keeping|]].
  destruct q as [|d rest]; [by apply extends_keeps; [keeping|]|]. apply chosen_place in Ec; [|done..].
  apply extends_lift. intros av _. apply extends_lift. intros _ _. bounds.
  eapply extends_before; [apply (bubble_bus _ _ _ _ now)|apply bubble_quiet|].
  - rewrite u64_id by lia. lia.
  - destruct Htm. by split.
  - cbv beta. intros [] s1 [Er Hu]. apply extends_after; [|intros d' s2; unfold check; keeping].
    destruct Htm. apply access_extends; try done; [by rewrite Er|]. unfold timed. by rewrite Er.
Qed.
Lemma serve_write_extends sw now s log : ready s now -> timed s log -> extends (serve_write c sw now) s log.
Proof.
  intros [Htm Hrk _ Hwq] Hs. unfold serve_write. apply extends_get, extends_lift. intros [found q] Ec. apply extends_put.
  assert (H0 : timed (d_with_write s q) log) by exact Hs. destruct found; [|by apply extends_keeps; [keeping|]].
  destruct q as [|d rest]; [by apply extends_keeps; [keeping|]|]. apply chosen_place in Ec; [|done..].
  apply extends_lift. intros av _. apply extends_lift. intros _ _. apply extends_lift. intros _ _. bounds.
  eapply extends_before; [apply (bubble_bus _ _ _ _ now)|apply bubble_quiet|].
  - lia.
  - destruct Htm. by split.
  - cbv beta. intros [] s1 [Er Hu]. apply extends_after; [|intros d' s2; keeping].
    destruct Htm. apply access_extends; try done; [by rewrite Er|]. unfold timed. by rewrite Er.
Qed.

Lemma turn_bus_ready now s : ready s now -> wp turn_bus (fun _ s' => ready s' now /\ ranks s' = ranks s) s.
Proof.
  intros [[] ? ? ?]. unfold turn_bus. apply wp_bind, wp_get. destruct (busState s); (apply wp_ret || apply wp_bind, wp_put, wp_ret); (split; [|done]); split; try done; by split.
Qed.
Lemma turn_bus_quiet s a s' o : turn_bus s = Ret (a, s', o) -> told o = [].
Proof. intros E. assert (H : keeps turn_bus s) by (unfold turn_bus; keeping). by destruct (H _ _ _ E). Qed.

Lemma ready_drained s rs now n : ready s now -> drain_ranks (ranks s) now = Ret (rs, n) -> ready (d_with_ranks s rs) now.
Proof.
  intros [[Hb Hu Hn] Hr Hq Hw] E. destruct (drain_ranks_ok _ _ _ _ E) as (_ & Hok & _). split; try done; [|by apply Hok]. split; try done. cbn.
  apply drain_banks in E. apply (Forall_fmap banks (Forall bank_tame)). rewrite E. by apply Forall_fmap.
Qed.

Lemma next_extends now s log : ready s now -> timed s log -> extends (run_nextReq c now) s log.
Proof.
  intros Hr Hs. unfold run_nextReq, processNextReqEvent. apply extends_get, extends_lift. intros _ _. apply extends_put, extends_get, extends_lift. intros [rs n] Ed. apply extends_put.
  set (s0 := d_with_ranks (d_with_nextReq s None) rs). assert (H0 : ready s0 now) by (eapply ready_drained; [|exact Ed]; by destruct Hr as [[] ? ? ?]).
  assert (Hs0 : timed s0 log) by (eapply timed_banks; [|exact Hs]; unfold all_banks, s0; cbn; by eapply drain_banks).
  destruct (n =? ranksPerChannel c); [apply extends_keeps; [keeping|done]|].
  eapply extends_before; [exact (turn_bus_ready now s0 H0)|apply turn_bus_quiet|]. cbv beta. intros sw s1 [H1 Er]. apply extends_get.
  assert (Hs1 : timed s1 log) by (unfold timed; by rewrite Er). apply extends_after; [|intros go s2; keeping; apply kick_keeps].
  case_bool_decide.
  - unfold read_turn. apply extends_get. cbv zeta. destruct (is_nil (readQueue s1)); [apply extends_keeps; [keeping|done]|].
    apply extends_after; [by apply serve_read_extends|]. intros ok s2. keeping.
  - unfold write_turn. apply extends_after; [by apply serve_write_extends|]. intros ok s2. keeping.
Qed.

(** *** Between refreshes *)

(** The ticks of the state are in range when the request event runs. *)
Definition calm (s : DRAMCtrl) : Prop := forall w, nextReqEvent s = Some w -> tame s w.
Definition refreshing (x : DramCmd) : bool := match cmd_kind x with CMD_PREA | CMD_REF => true | _ => false end.
Definition unrefreshed (o : list DOut) : Prop := Forall (fun x => refreshing x = false) (told o).

Lemma refresh_kinds r busy now r' l : processRefreshEvent c r busy now = Ret (r', l) -> Forall (fun x => refreshing x = true) l.
Proof.
  unfold processRefreshEvent. cbv zeta. destruct (_ && busy); [by intros [= _ <-]|]. destruct (refreshState _); [by intros [= _ <-]..| |].
  - unfold refresh_pre. intros ([r3 l3] & E3 & E)%bind_Ret. apply bind_Ret in E as (? & _ & E). injection E as _ <-.
    case_bool_decide; apply bind_Ret in E3 as (r4 & _ & E3); injection E3 as _ <-; by repeat constructor.
  - unfold refresh_run. intros (? & _ & E)%bind_Ret. repeat (apply bind_Ret in E as (? & _ & E)). injection E as _ <-. by repeat constructor.
Qed.
Lemma power_kinds r busy now r' k l : processPowerEvent c r busy now = Ret (r', k, l) -> Forall (fun x => refreshing x = true) l.
Proof.
  unfold processPowerEvent. cbv zeta. intros ([r1 k1] & _ & E)%bind_Ret. destruct (bool_decide (pwrState r1 = PWR_REF)); [|by injection E as _ _ <-].
  apply bind_Ret in E as (? & _ & E). apply bind_Ret in E as ([r2 l2] & E2%refresh_kinds & E). by injection E as _ _ <-.
Qed.
Lemma none_refreshing l : Forall (fun x => refreshing x = true) l -> Forall (fun x => refreshing x = false) l -> l = [].
Proof. destruct l as [|x l]; [done|]. intros [H1 _]%Forall_cons [H2 _]%Forall_cons. congruence. Qed.

Lemma run_refresh_told i now s a s' o : run_refresh c i now s = Ret (a, s', o) -> unrefreshed o -> told o = [].
Proof.
  unfold run_refresh, unrefreshed. intros (s0 & s1 & o1 & o2 & [= <- <- <-] & E & ->)%bind_run. apply bind_run in E as (r & s1 & o1 & o3 & (_ & -> & ->)%lift_run & E & ->).
  apply bind_run in E as (? & s1 & o1 & o4 & (_ & -> & ->)%lift_run & E & ->). apply bind_run in E as ([r' l] & s1 & o1 & o5 & (Ep%refresh_kinds & -> & ->)%lift_run & E & ->).
  apply bind_run in E as (? & s1 & o1 & o6 & [= _ <- <-] & (_ & ->)%set_rank_run & ->). cbn [app]. rewrite app_nil_r, told_commands. by apply none_refreshing.
Qed.
Lemma run_power_told i now s a s' o : run_power c i now s = Ret (a, s', o) -> unrefreshed o -> told o = [].
Proof.
  unfold run_power, unrefreshed. intros (s0 & s1 & o1 & o2 & [= <- <- <-] & E & ->)%bind_run. apply bind_run in E as (r & s1 & o1 & o3 & (_ & -> & ->)%lift_run & E & ->).
  apply bind_run in E as (? & s1 & o1 & o4 & (_ & -> & ->)%lift_run & E & ->). apply bind_run in E as ([[r' k] l] & s1 & o1 & o5 & (Ep%power_kinds & -> & ->)%lift_run & E & ->).
  apply bind_run in E as (? & s1 & o1 & o6 & [= _ <- <-] & E & ->). apply bind_run in E as (? & s1 & o1 & o7 & (_ & ->)%set_rank_run & E & ->). cbn [app].
  assert (Hk : told o7 = []) by (destruct k; [by apply kick_keeps in E as [_ ?]|by injection E as _ _ <-]). rewrite told_app, told_commands, Hk, app_nil_r. by apply none_refreshing.
Qed.

Lemma call_timed s s' o log : ctrl_inv c s -> calm s -> dcall c s s' o -> unrefreshed o -> timed s log -> timed s' (log ++ told o).
Proof.
  intros [Hc _] Hcalm Hd Hu Hs.
  destruct Hd as [pkt hd now ok Hf E|now E|now E|i now E|i now E|i now E|i now E|mode now E|n now k E|mode now E|pkt r E|pkt pq r E].
  - by eapply extends_keeps; [apply req_keeps| |exact E].
  - eapply (next_extends now); [|done|exact E]. destruct Hc. split; try done. unfold run_nextReq in E.
    apply bind_run in E as (s0 & s1 & o1 & o2 & [= <- <- <-] & E & ->). apply bind_run in E as (? & s1 & o1 & o3 & (Edue%cassert_Ret & _ & _)%lift_run & _ & _).
    unfold due in Edue. destruct (nextReqEvent s) as [w|] eqn:Ew; [|done]. apply Z.eqb_eq in Edue as ->. by apply Hcalm.
  - by eapply extends_keeps; [apply run_respond_keeps| |exact E].
  - by eapply extends_keeps; [apply run_activate_keeps| |exact E].
  - by eapply extends_keeps; [apply run_precharge_keeps| |exact E].
  - pose proof (run_refresh_told _ _ _ _ _ _ E Hu) as Et. rewrite Et, app_nil_r. eapply timed_banks; [|exact Hs]. by eapply run_refresh_quiet.
  - pose proof (run_power_told _ _ _ _ _ _ E Hu) as Et. rewrite Et, app_nil_r. eapply timed_banks; [|exact Hs]. by eapply run_power_quiet.
  - by eapply extends_keeps; [apply startup_keeps| |exact E].
  - by eapply extends_keeps; [apply drain_keeps| |exact E].
  - by eapply extends_keeps; [apply resume_keeps| |exact E].
  - by eapply extends_keeps; [apply atomic_keeps| |exact E].
  - by eapply extends_keeps; [apply functional_keeps| |exact E].
Qed.

(** Calls of a controller, none of which refreshes. *)
Inductive quiet_run : DRAMCtrl -> list DOut -> DRAMCtrl -> Prop :=
  | quiet_nil s : quiet_run s [] s
  | quiet_call s o s1 o' s' : calm s -> dcall c s s1 o -> unrefreshed o -> quiet_run s1 o' s' -> quiet_run s (o ++ o') s'.

Lemma quiet_timed : 0 <= burstSize c -> 0 <= writeHighThreshold c -> 0 < ranksPerChannel c -> forall s o s' log, quiet_run s o s' -> ctrl_inv c s -> timed s log -> timed s' (log ++ told o).
Proof.
  intros H1 H2 H3 s o s' log Hq. revert log. induction Hq as [s|s o s1 o' s' Hc Hd Hu _ IH]; intros log Hi Hs; [by rewrite app_nil_r|].
  rewrite told_app, app_assoc. apply IH; [|by eapply call_timed]. eapply dstep_inv; [done..| |exact Hi]. by exists o.
Qed.
End timing.

(** The group of every bank. *)
Definition group_of (s : DRAMCtrl) (i j : Z) : Z := match bank_of (ranks s) i j with Some b => bankgr b | None => 0 end.

(** C3. The commands a DRAM controller tells its devices respect the timing of the device,
    between refreshes: in any reachable state and for any calls that follow in any order,
    of every two commands, however far apart, activates of a rank are tRRD apart (tRRD_L
    in a bank group), column commands of the channel tBURST apart (tCCD_L in a group,
    tCS more between ranks), a column command comes tRCD after the activate of its bank,
    a precharge tRAS after the activate and tRTP after a read or tWR after the data of a
    write, an activate tRP after the precharge.  The parameters are below 2^58 and the
    ticks of the state below 2^62. *)
Theorem dram_commands_legal p m c s0 s o s' : params_ok p -> timing_ok c -> DRAMCtrl_new p m = Ret (c, s0) -> rtc (dstep c) s0 s -> quiet_run c s o s' ->
  StronglySorted (legal c (group_of s)) (told o).
Proof.
  intros Hp Ht Hn Hr Hq. destruct (new_ctrl p m c s0 Hp Hn) as (H1 & H2 & H3 & H4 & H5 & H6 & He).
  pose proof (run_inv c H1 H2 H3 H4 s0 s (empty_inv c s0 He H5 H6) Hr) as Hi.
  assert (Hs : timed c (group_of s) s []) by (split; [by split; constructor|]; intros i j b _ _ Hb; unfold group_of; by rewrite Hb).
  by destruct (quiet_timed c (group_of s) Ht H1 H2 H3 H4 s o s' [] Hq Hi Hs) as [[? _] _].
Qed.

(** ** A run *)

(** The two bursts of the read: an activate and two column commands. *)
Definition ddr_done : DRAMCtrl := ddr_after (run_nextReq ddr_config 5000 ddr_sent).

Lemma ddr_timing_ok : timing_ok ddr_config.
Proof. split; vm_compute; intuition discriminate. Qed.

Definition tickb (t : Z) : bool := (0 <=? t) && (t <=? 2 ^ 62).
Definition tameb (c : DRAMConfig) (s : DRAMCtrl) (now : Z) : bool :=
  forallb (fun r => forallb (fun b => tickb (colAllowedAt b) && tickb (preAllowedAt b) && tickb (actAllowedAt b)) (banks r)) (ranks s) &&
  (tCL (T c) <=? busBusyUntil s) && (busBusyUntil s <=? 2 ^ 62) && tickb now.
Lemma tickb_ok t : tickb t = true <-> tick t.
Proof. unfold tickb, tick. by rewrite andb_true_iff, !Z.leb_le. Qed.
Lemma tameb_ok c s now : tameb c s now = true -> tame c s now.
Proof.
  unfold tameb. rewrite !andb_true_iff, tickb_ok, !Z.leb_le. intros (((Hb & H1) & H2) & H3). split; [|done|done].
  rewrite Forall_forall. intros r Hr%list_elem_of_In. rewrite forallb_forall in Hb. specialize (Hb r Hr). rewrite Forall_forall. intros b Hin%list_elem_of_In.
  rewrite forallb_forall in Hb. specialize (Hb b Hin). rewrite !andb_true_iff, !tickb_ok in Hb. split; tauto.
Qed.
Lemma calm_at c s w : nextReqEvent s = Some w -> tameb c s w = true -> calm c s.
Proof. intros E Ht w'. rewrite E. intros [= <-]. by apply tameb_ok. Qed.

Lemma dram_commands_legal_witness : exists o, quiet_run ddr_config ddr_asked o ddr_done /\
  told o = [mkDramCmd CMD_ACT 0 0 10; mkDramCmd CMD_RD 0 0 27500; mkDramCmd CMD_RD 0 0 32500] /\ StronglySorted (legal ddr_config (group_of ddr_asked)) (told o).
Proof.
  assert (E1 : exists o, run_nextReq ddr_config 10 ddr_asked = Ret (tt, ddr_sent, o) /\ told o = [mkDramCmd CMD_ACT 0 0 10; mkDramCmd CMD_RD 0 0 27500])
    by (eexists; split; [vm_compute; reflexivity|vm_compute; reflexivity]).
  assert (E2 : exists o, run_nextReq ddr_config 5000 ddr_sent = Ret (tt, ddr_done, o) /\ told o = [mkDramCmd CMD_RD 0 0 32500])
    by (eexists; split; [vm_compute; reflexivity|vm_compute; reflexivity]).
  destruct E1 as (o1 & E1 & T1), E2 as (o2 & E2 & T2). exists (o1 ++ o2 ++ []).
  assert (Hq : quiet_run ddr_config ddr_asked (o1 ++ o2 ++ []) ddr_done).
  { eapply quiet_call; [eapply (calm_at _ _ 10); vm_compute; reflexivity|eapply d_next; exact E1|unfold unrefreshed; rewrite T1; repeat constructor|].
    eapply quiet_call; [eapply (calm_at _ _ 5000); vm_compute; reflexivity|eapply d_next; exact E2|unfold unrefreshed; rewrite T2; repeat constructor|apply quiet_nil]. }
  split; [exact Hq|]. split; [rewrite !told_app, T1, T2; reflexivity|].
  apply (dram_commands_legal (ddr_params frfcfs open_adaptive) ddr_memory ddr_config ddr_new ddr_asked (o1 ++ o2 ++ []) ddr_done (ddr_params_ok _ _) ddr_timing_ok ddr_constructed).
  - eapply rtc_l; [exact ddr_step_startup|]. apply rtc_once. exact ddr_step_ask.
  - exact Hq.
Defined.
