(* ===== verification/CacheCoherence.v ===== *)
(** * Caches above a coherent crossbar and a memory, in atomic mode

    Any number of first-level caches ([mem/cache/cache_impl.hh]), each on a port of a
    coherent crossbar ([mem/coherent_xbar.cc]) without a filter, above a memory
    ([mem/simple_mem.cc]).  A load or store of a processor completes in one call:
    the cache asks the crossbar for what it misses, the crossbar snoops the other
    caches and asks the memory.

    The crossbar takes what its neighbours answer as functions; here they are
    computed from the states of the caches and of the memory, and the calls that were
    made are run again to obtain their new states.  Every port is called at most once
    for a request, so that both runs see the same states. *)

From stdpp Require Import gmap.
From S2P Require Import Prelude IntMath AddrRange Packet CacheBlk TagStore SatCounter LruTags Cache CacheSpec PacketQueue XBar CoherentXBar CoherentXBarSys CoherentXBarAtomic Memory CacheAtomic CacheAtomicSpec.
Local Open Scope Z_scope.

(** ** The system *)

Section system.
Context {S : Type} `{TP : TagPolicy S} (c : TagsConfig) (P : CacheParams) (xc : XBarConf) (mp : SimpleMemoryParams).

Abbreviation cache := (CacheState S).

Record CoherentSys := mkCoherentSys { sy_caches : list cache; sy_bar : CoherentXBar; sy_mem : SimpleMemory }.

(** The call of one cache, with its answer. *)
Definition cache_snoop (cs : list cache) (e : Env) (d : Z) (q : Packet) : res (cache * Packet * Z) :=
  st ← vread cs (Z.to_nat d);
  _ ← cassert (cmd_isRequest (pkt_cmd q));
  CacheAtomic.recvAtomicSnoop c P st q (fun q => q) e.

Definition snoop_answer (cs : list cache) (e : Env) (d : Z) (q : Packet) : Z * Packet :=
  match cache_snoop cs e d q with
  | Ret (_, q', l) => (l, q')
  | Err _ => (0, q)
  end.

(** The calls of the ports [ds], with the states of the caches after them. *)
Fixpoint snoop_caches (cs : list cache) (e : Env) (orig : Command) (ds : list Z) (q : Packet) : res (list cache * Packet) :=
  match ds with
  | [] => Ret (cs, q)
  | d :: ds =>
      '(st, q, _) ← cache_snoop cs e d q;
      cs ← vwrite cs (Z.to_nat d) st;
      snoop_caches cs e orig ds (with_cmd q orig)
  end.

Definition mem_answer (sm : SimpleMemory) (draw : Z) (q : Packet) : Z * Packet :=
  match sm_recvAtomic mp sm q draw with
  | Ret (l, _, q') => (l, q')
  | Err _ => (0, q)
  end.

(** [sendAtomic] of the cache at port [i]. *)
Definition bus_send (e : Env) (draw : Z) (i : Z) (s : CoherentSys) (pkt : Packet) : res (CoherentSys * Packet * Z) :=
  _ ← cassert (cmd_isRequest (pkt_cmd pkt));
  '(r, x) ← cx_recvAtomic xc (sy_bar s) (snoop_answer (sy_caches s) e) (mem_answer (sy_mem s) draw) pkt i;
  '(cs, q) ← snoop_caches (sy_caches s) e (pkt_cmd pkt) (ar_snooped r) pkt;
  '(_, sm, _) ← sm_recvAtomic mp (sy_mem s) q draw;
  Ret (mkCoherentSys cs x sm, CoherentXBarAtomic.ar_pkt r, ar_latency r).

(** An access of processor [i]. *)
Definition cpu_access (i : nat) (s : CoherentSys) (pkt : Packet) (e : Env) (draw : Z) : res (CoherentSys * Packet * Z) :=
  _ ← cassert (cmd_isRequest (pkt_cmd pkt));
  st ← vread (sy_caches s) i;
  '(s, st, pkt, lat) ← CacheAtomic.recvAtomic c P (bus_send e draw (Z.of_nat i)) s st pkt e;
  cs ← vwrite (sy_caches s) i st;
  Ret (mkCoherentSys cs (sy_bar s) (sy_mem s), pkt, lat).
End system.

Arguments CoherentSys S : clear implicits.

(** ** What the snoops of a request make of its packet *)

Abbreviation copy := (option (Z * list Z)).

Definition dirty_copy (o : copy) : bool := match o with Some (v, _) => dirty_status v | None => false end.
Definition has_copy (o : copy) : bool := match o with Some _ => true | None => false end.

Section packets.
Context (c : TagsConfig).

Definition snoop_pkt (o : copy) (p : Packet) : Packet := match o with None => p | Some (v, d) => snooped p v d end.
Definition step_pkt (o : copy) (p : Packet) : Packet := with_cmd (snoop_pkt o p) (pkt_cmd p).
Definition copy_left (cmd : Command) (o : copy) : copy := match o with None => None | Some (v, d) => snoop_left cmd v d end.

Lemma isSet_lor f x m : isSet (Z.lor f x) m = isSet f m || isSet x m.
Proof.
  unfold isSet. rewrite Z.land_lor_distr_l. destruct (Z.eqb_spec (Z.land f m) 0) as [->|H]; cbn [negb orb].
  - by rewrite Z.lor_0_l.
  - apply negb_true_iff, Z.eqb_neq. intros E. apply Z.lor_eq_0_iff in E. tauto.
Qed.
Lemma isSet_keep f x m : Z.land x m = m -> isSet (Z.land f x) m = isSet f m.
Proof. intros H. unfold isSet. by rewrite <- Z.land_assoc, H. Qed.

Lemma step_flags o p :
  memInhibitAsserted (step_pkt o p) = memInhibitAsserted p || dirty_copy o /\
  sharedAsserted (step_pkt o p) = sharedAsserted p || (has_copy o && bool_decide (pkt_cmd p = ReadReq)).
Proof.
  unfold memInhibitAsserted, sharedAsserted. destruct o as [[v d]|]; cbn [dirty_copy has_copy andb]; [|by rewrite !orb_false_r].
  unfold step_pkt, snoop_pkt, snooped. cbn [pkt_flags with_cmd].
  destruct (bool_decide (pkt_cmd p = ReadReq)), (dirty_status v), (st_writable v); cbn [pkt_flags answer setSupplyExclusive assertShared with_flags];
    rewrite ?isSet_keep, ?isSet_lor by done; cbn; by rewrite ?orb_false_r, ?orb_true_r.
Qed.

Lemma step_bus sec n o p d : bus_pkt c sec n p d -> (forall v dat, o = Some (v, dat) -> Z.of_nat (length dat) = blkSize c) ->
  bus_pkt c sec n (step_pkt o p) (match o with Some (v, dat) => if dirty_status v then dat else d | None => d end) /\
  pkt_req (step_pkt o p) = pkt_req p /\ pkt_cmd (step_pkt o p) = pkt_cmd p /\
  pkt_cmd (snoop_pkt o p) = if dirty_copy o then responseCommand (pkt_cmd p) else pkt_cmd p.
Proof.
  intros [B1 B2 B3 B4 B5 B6 B7] Hl. unfold step_pkt, snoop_pkt. destruct o as [[v dat]|]; cbn [dirty_copy].
  - specialize (Hl v dat eq_refl). unfold snooped. destruct (bool_decide (pkt_cmd p = ReadReq)), (dirty_status v), (st_writable v); by split_and!; [split|..].
  - by split_and!; [split|..].
Qed.
End packets.

Section coherence.
Context {S : Type} `{TP : TagPolicy S} (c : TagsConfig) (Inv : S -> Prop).
Context `{OK : !TagPolicyOk S c Inv} (Hc : config_wf c).
Context (P : CacheParams) (xc : XBarConf) (mp : SimpleMemoryParams) (Hby : cacheBypass P = false).

Abbreviation cache := (CacheState S).
Abbreviation holds := (CacheAtomicSpec.holds c).

(** What cache [j] of [cs] holds for block [n]. *)
Definition contents (st : cache) (n : Z) : copy := match cache_lookup c st (n * blkSize c) false with Ret o => o | Err _ => None end.
Definition copy_at (cs : list cache) (n : Z) (j : nat) : copy := match cs !! j with Some st => contents st n | None => None end.

Lemma contents_holds st n : cache_inv c Inv st -> num_ok c n -> holds st false n (contents st n).
Proof using OK Hc.
  intros Hci Hn. destruct (holds_total c Inv Hc st false n Hci Hn) as [o Ho]. unfold contents. unfold CacheAtomicSpec.holds in Ho |- *. by rewrite Ho.
Qed.
Lemma holds_contents st n o : holds st false n o -> contents st n = o.
Proof. unfold contents. by intros ->. Qed.

Lemma snoop_step (st : cache) n p d e : cache_inv c Inv st -> num_ok c n -> inRange P (n * blkSize c) = true -> bus_pkt c false n p d ->
  (dirty_copy (contents st n) = true -> memInhibitAsserted p = false) ->
  exists st' lat, CacheAtomic.recvAtomicSnoop c P st p (fun q => q) e = Ret (st', snoop_pkt (contents st n) p, lat) /\
    changed c Inv st st' false n (copy_left (pkt_cmd p) (contents st n)).
Proof using OK Hc Hby.
  intros Hci Hn Hr Hb Hi. pose proof (contents_holds st n Hci Hn) as Hho. destruct (contents st n) as [[v dat]|] eqn:E; cbn [snoop_pkt copy_left].
  - exact (snoop_hit c Inv Hc P st false n p d v dat e Hby Hr Hci Hn Hb Hho Hi).
  - destruct (snoop_miss c Inv Hc P st false n p d e Hby Hci Hn Hb Hho) as (lat & El). exists st, lat. split; [exact El|]. split; [done|].
    intros n' sec' o' Hn'. case_decide as Hd; [|done]. destruct Hd as [-> ->]. split; [intros H; by apply (holds_fun c _ _ _ _ _ H Hho)|by intros ->].
Qed.

Lemma bus_response cmd : bus_cmd cmd -> cmd_isResponse (responseCommand cmd) = true /\ responseCommand cmd <> cmd /\ cmd_isResponse cmd = false /\ cmd_isRequest cmd = true.
Proof. by intros [->|[->| ->]]. Qed.

(** The loop over the ports, and the caches after it. *)
Section loop.
Context (n : Z) (orig : Command) (e : Env) (cs0 : list cache) (excl : Z).
Context (Hn : num_ok c n) (Hrng : inRange P (n * blkSize c) = true) (Hinv : forall j st, cs0 !! j = Some st -> cache_inv c Inv st).

Abbreviation at_port d := (copy_at cs0 n (Z.to_nat d)).

Lemma at_port_length d v dat : at_port d = Some (v, dat) -> Z.of_nat (length dat) = blkSize c.
Proof using OK Hc Hn Hinv.
  unfold copy_at. destruct (cs0 !! Z.to_nat d) as [st|] eqn:E; [|done]. pose proof (Hinv _ _ E) as Hci. intros Hv.
  pose proof (contents_holds st n Hci Hn) as Hho. rewrite Hv in Hho. by destruct (holds_inv c Inv Hc st false n v dat Hci Hn Hho) as (? & ? & ? & ? & ? & ? & ? & ?).
Qed.

Lemma one_snoop (cs : list cache) d p dd : bus_pkt c false n p dd -> (0 <= d < Z.of_nat (length cs0)) -> cs !! Z.to_nat d = cs0 !! Z.to_nat d ->
  (dirty_copy (at_port d) = true -> memInhibitAsserted p = false) ->
  exists st st' lat, cs0 !! Z.to_nat d = Some st /\ changed c Inv st st' false n (copy_left (pkt_cmd p) (contents st n)) /\
    snoop_answer c P cs0 e d p = (lat, snoop_pkt (at_port d) p) /\ cache_snoop c P cs e d p = Ret (st', snoop_pkt (at_port d) p, lat).
Proof using OK Hc Hby Hn Hrng Hinv.
  intros Hb Hd Hcs Hi. destruct (lookup_lt_is_Some_2 cs0 (Z.to_nat d)) as [st Hst]; [lia|]. unfold copy_at in *. rewrite Hst in Hi |- *.
  destruct (bus_response _ (bk_cmd _ _ _ _ _ Hb)) as (_ & _ & _ & Hq).
  destruct (snoop_step st n p dd e (Hinv _ _ Hst) Hn Hrng Hb Hi) as (st' & lat & E & Hch). exists st, st', lat. split; [done|]. split; [done|].
  rewrite Hst in Hcs. unfold snoop_answer, cache_snoop. rewrite (vread_some _ _ _ Hst), (vread_some _ _ _ Hcs). bsimpl. rewrite Hq. cbn [cassert]. bsimpl. by rewrite E.
Qed.

Definition cmd_after (p : Packet) : Command := if memInhibitAsserted p then responseCommand orig else InvalidCmd.

(** One iteration, for a port that is called. *)
Definition after_snoop (s : AtomicSnoop) (d lat : Z) : AtomicSnoop :=
  let p := step_pkt (at_port d) (as_pkt s) in
  mkAtomicSnoop (as_called s ++ [d]) (cmd_after p) (if dirty_copy (at_port d) then lat else as_latency s) p None.

Lemma snoop_iter s d dd lat : excl = InvalidPortID \/ d <> excl -> as_filter s = None -> bus_pkt c false n (as_pkt s) dd -> pkt_cmd (as_pkt s) = orig ->
  as_cmd s = cmd_after (as_pkt s) -> (dirty_copy (at_port d) = true -> memInhibitAsserted (as_pkt s) = false) ->
  snoop_answer c P cs0 e d (as_pkt s) = (lat, snoop_pkt (at_port d) (as_pkt s)) ->
  atomic_snoop (snoop_answer c P cs0 e) excl InvalidPortID orig d s = Ret (after_snoop s d lat).
Proof using OK Hc Hn Hinv.
  intros He Hf Hb Hp Hcm Hi Ea. unfold atomic_snoop. replace (negb (excl =? InvalidPortID) && (d =? excl)) with false; cycle 1.
  { symmetry. apply andb_false_iff. destruct He as [-> | He]; [by left|right; by apply Z.eqb_neq]. }
  rewrite Ea, Hf. destruct (step_bus c false n (at_port d) (as_pkt s) dd Hb (at_port_length d)) as (_ & _ & _ & Hans).
  destruct (step_flags (at_port d) (as_pkt s)) as [Hmi _]. destruct (bus_response _ (bk_cmd _ _ _ _ _ Hb)) as (R1 & R2 & R3 & _). rewrite Hp in R1, R2, R3, Hans.
  assert (Hfl : memInhibitAsserted (snoop_pkt (at_port d) (as_pkt s)) = memInhibitAsserted (step_pkt (at_port d) (as_pkt s))) by done.
  unfold after_snoop, cmd_after. rewrite Hfl, Hmi. rewrite Hcm. unfold cmd_after. rewrite Hans. destruct (dirty_copy (at_port d)) eqn:Ed.
  - rewrite (Hi eq_refl), R1. cbn [negb orb]. rewrite !bool_decide_true by done. cbn [cassert]. bsimpl. unfold step_pkt. by rewrite Hp.
  - rewrite R3. cbn [negb]. rewrite orb_false_r. unfold step_pkt. rewrite with_cmd_same by congruence. done.
Qed.

Lemma snoop_run dests : forall cs s dd,
  NoDup dests -> (forall d, d ∈ dests -> 0 <= d < Z.of_nat (length cs0) /\ cs !! Z.to_nat d = cs0 !! Z.to_nat d) -> length cs = length cs0 ->
  as_filter s = None -> bus_pkt c false n (as_pkt s) dd -> pkt_cmd (as_pkt s) = orig -> as_cmd s = cmd_after (as_pkt s) ->
  (forall d d', d ∈ snooped_ports excl dests -> d' ∈ snooped_ports excl dests -> dirty_copy (at_port d) = true -> dirty_copy (at_port d') = true -> d = d') ->
  (memInhibitAsserted (as_pkt s) = true -> forall d, d ∈ snooped_ports excl dests -> dirty_copy (at_port d) = false) ->
  let ds := snooped_ports excl dests in
  exists s' cs', atomic_loop (snoop_answer c P cs0 e) excl InvalidPortID orig dests s = Ret s' /\
    snoop_caches c P cs e orig ds (as_pkt s) = Ret (cs', as_pkt s') /\
    as_called s' = as_called s ++ ds /\ as_filter s' = None /\ as_cmd s' = cmd_after (as_pkt s') /\
    as_pkt s' = foldl (fun p d => step_pkt (at_port d) p) (as_pkt s) ds /\ length cs' = length cs0 /\
    (forall j, Z.of_nat j ∉ ds -> cs' !! j = cs !! j) /\
    (forall j st, Z.of_nat j ∈ ds -> cs0 !! j = Some st -> exists st', cs' !! j = Some st' /\ changed c Inv st st' false n (copy_left orig (contents st n))).
Proof using OK Hc Hby Hn Hrng Hinv.
  induction dests as [|d dests IH]; intros cs s dd Hnd Hd Hlen Hf Hb Hp Hcm Hone Hinh ds.
  { exists s, cs. unfold ds. cbn. rewrite app_nil_r. split_and!; try done. intros j st H. by apply not_elem_of_nil in H. }
  apply NoDup_cons in Hnd as [Hni Hnd]. cbn [atomic_loop]. subst ds. unfold snooped_ports in *. rewrite filter_cons in *.
  destruct (decide (excl = InvalidPortID \/ d <> excl)) as [He|He].
  - destruct (Hd d) as [Hd1 Hd2]; [apply list_elem_of_here|].
    assert (Hi : dirty_copy (at_port d) = true -> memInhibitAsserted (as_pkt s) = false).
    { intros Ho. destruct (memInhibitAsserted (as_pkt s)) eqn:E; [|done]. rewrite (Hinh eq_refl d) in Ho by apply list_elem_of_here. done. }
    destruct (one_snoop cs d (as_pkt s) dd Hb Hd1 Hd2 Hi) as (st & st' & lat & Hst & Hch & Ea & Es).
    destruct (step_bus c false n (at_port d) (as_pkt s) dd Hb (at_port_length d)) as (Hb' & _ & Hcmd & _).
    destruct (step_flags (at_port d) (as_pkt s)) as [Hmi _].
    rewrite (snoop_iter s d dd lat He Hf Hb Hp Hcm Hi Ea). bsimpl. cbn [snoop_caches]. rewrite Es. bsimpl.
    rewrite vwrite_lt by lia. bsimpl.
    assert (Hsub : forall d', d' ∈ filter (fun d => excl = InvalidPortID \/ d <> excl) dests -> d' ∈ dests /\ d' <> d).
    { intros d' H%list_elem_of_filter. split; [apply H|]. intros ->. tauto. }
    edestruct (IH (<[Z.to_nat d := st']> cs) (after_snoop s d lat)) as (s' & cs' & I1 & I2 & I3 & I4 & I5 & I6 & I7 & I8 & I9); [done| |by rewrite length_insert|done|exact Hb'|by rewrite <- Hp|done| | |].
    { intros d' Hd'. destruct (Hd d') as [H1 H2]; [by apply list_elem_of_further|]. split; [done|]. rewrite list_lookup_insert_ne; [done|].
      intros E. apply Z2Nat.inj in E; [congruence|lia..]. }
    { intros d1 d2 H1 H2. apply Hone; by apply list_elem_of_further. }
    { cbn [after_snoop as_pkt]. rewrite Hmi. intros H d' Hd'. destruct (dirty_copy (at_port d')) eqn:E; [|done]. apply orb_true_iff in H as [H|H].
      - rewrite (Hinh H d') in E by (by apply list_elem_of_further). done.
      - destruct (Hsub d' Hd') as [_ []]. symmetry. apply Hone; [apply list_elem_of_here|by apply list_elem_of_further|done|done]. }
    rewrite <- Hp. fold (step_pkt (at_port d) (as_pkt s)). rewrite Hp. exists s', cs'. cbn [after_snoop as_pkt as_called] in *. split_and!; try done.
    + by rewrite I3, <- app_assoc.
    + intros j Hj. apply not_elem_of_cons in Hj as [Hj1 Hj2]. rewrite I8 by done. rewrite list_lookup_insert_ne; [done|]. intros <-. apply Hj1. lia.
    + intros j st1 Hj Hst1. apply elem_of_cons in Hj as [Hj|Hj]; [|by apply I9]. exists st'. subst d. rewrite Nat2Z.id in *.
      assert (st1 = st) as -> by congruence. split; [|by rewrite <- Hp]. rewrite I8.
      * apply list_lookup_insert_eq. rewrite Hlen. by eapply lookup_lt_Some.
      * intros H. by destruct (Hsub _ H).
  - unfold atomic_snoop. replace (negb (excl =? InvalidPortID) && (d =? excl)) with true; cycle 1.
    { symmetry. apply andb_true_iff. split; [apply negb_true_iff, Z.eqb_neq; tauto|]. apply Z.eqb_eq. destruct (decide (d = excl)); tauto. }
    bsimpl. apply (IH cs s dd); try done. intros d' Hd'. apply Hd. by apply list_elem_of_further.
Qed.
End loop.

(** The packet after the snoops. *)
Lemma fold_snoops (cs0 : list cache) n ds : (forall j st, cs0 !! j = Some st -> cache_inv c Inv st) -> num_ok c n -> forall p dd, bus_pkt c false n p dd ->
  let q := foldl (fun p d => step_pkt (copy_at cs0 n (Z.to_nat d)) p) p ds in
  exists d', bus_pkt c false n q d' /\ pkt_req q = pkt_req p /\ pkt_cmd q = pkt_cmd p /\
    (memInhibitAsserted q = true <-> memInhibitAsserted p = true \/ exists d, d ∈ ds /\ dirty_copy (copy_at cs0 n (Z.to_nat d)) = true) /\
    (sharedAsserted q = true <-> sharedAsserted p = true \/ (pkt_cmd p = ReadReq /\ exists d, d ∈ ds /\ has_copy (copy_at cs0 n (Z.to_nat d)) = true)) /\
    (d' = dd \/ exists d v, d ∈ ds /\ copy_at cs0 n (Z.to_nat d) = Some (v, d')) /\
    ((exists d, d ∈ ds /\ dirty_copy (copy_at cs0 n (Z.to_nat d)) = true) -> exists d v, d ∈ ds /\ copy_at cs0 n (Z.to_nat d) = Some (v, d')).
Proof using OK Hc.
  intros Hinv Hn. induction ds as [|d ds IH]; intros p dd Hb q.
  - exists dd. split_and!; try done; [..|left; done|intros (d & H & _); by apply not_elem_of_nil in H].
    + split; [by left|]. intros [H|(d & H & _)]; [done|by apply not_elem_of_nil in H].
    + split; [by left|]. intros [H|(_ & d & H & _)]; [done|by apply not_elem_of_nil in H].
  - destruct (step_bus c false n (copy_at cs0 n (Z.to_nat d)) p dd Hb (at_port_length n cs0 Hn Hinv d)) as (Hb' & Hreq & Hcmd & _).
    destruct (step_flags (copy_at cs0 n (Z.to_nat d)) p) as [Hmi Hsh]. destruct (IH _ _ Hb') as (d' & I1 & I2 & I3 & I4 & I5 & I6 & I7).
    exists d'. split; [exact I1|]. split; [by rewrite <- Hreq|]. split; [by rewrite <- Hcmd|].
    assert (Hex : forall Q : Z -> Prop, (exists d0, d0 ∈ d :: ds /\ Q d0) <-> Q d \/ exists d0, d0 ∈ ds /\ Q d0).
    { intros Q. setoid_rewrite elem_of_cons. naive_solver. }
    rewrite !Hex. split_and!.
    + change q with (foldl (fun p d => step_pkt (copy_at cs0 n (Z.to_nat d)) p) (step_pkt (copy_at cs0 n (Z.to_nat d)) p) ds). rewrite I4, Hmi, orb_true_iff. tauto.
    + change q with (foldl (fun p d => step_pkt (copy_at cs0 n (Z.to_nat d)) p) (step_pkt (copy_at cs0 n (Z.to_nat d)) p) ds). rewrite I5, Hcmd, Hsh, orb_true_iff, andb_true_iff, bool_decide_eq_true. tauto.
    + destruct I6 as [->|(d1 & v & H1 & H2)]; [|right; exists d1, v; split; [by right|done]].
      destruct (copy_at cs0 n (Z.to_nat d)) as [[v dat]|] eqn:E; [|by left]. destruct (dirty_status v); [|by left]. right. exists d, v. split; [by left|done].
    + intros [H|H]; [|destruct (I7 H) as (d1 & v & H1 & H2); exists d1, v; split; [by right|done]].
      destruct I6 as [->|(d1 & v & H1 & H2)]; [|exists d1, v; split; [by right|done]].
      destruct (copy_at cs0 n (Z.to_nat d)) as [[v dat]|] eqn:E; [|done]. cbn [dirty_copy] in H. rewrite H. exists d, v. split; [by left|done].
Qed.

(** ** The crossbar and the memory *)

Definition in_mem (r : AddrRange) (n : Z) : Prop := _start r <= n * blkSize c /\ n * blkSize c + blkSize c <= _end r + 1.

(** [N] caches on the ports of a crossbar that routes the addresses of [r]. *)
Record bar_ok (N : nat) (x : CoherentXBar) (r : AddrRange) : Prop := {
  bo_bypass : bypassCaches x = false;
  bo_filter : snoopFilter x = None;
  bo_nodup : NoDup (snoopPorts x);
  bo_ports : forall d, d ∈ snoopPorts x <-> 0 <= d < Z.of_nat N;
  bo_route : route_ok (cx_bar x);
  bo_wf : tree_wf (portMap (cx_bar x));
  bo_all : gotAllAddrRanges (cx_bar x) = true;
  bo_dest : forall a, _start r <= a <= _end r -> (exists m, route (cx_bar x) a = Some m) /\ stripe_aligned (portMap (cx_bar x)) a
}.

Lemma in_mem_ok m ms n : mem_repr m ms -> in_mem (mem_range m) n -> num_ok c n.
Proof using Hc. intros Hm [H1 H2]. pose proof (blkSize_pos c Hc). pose proof (mr_range _ _ Hm) as [? ?]. split; [nia|lia]. Qed.

Lemma bar_ok_same N x x' r : bar_ok N x r -> bypassCaches x' = bypassCaches x -> snoopFilter x' = None -> snoopPorts x' = snoopPorts x ->
  route_ok (cx_bar x') -> portMap (cx_bar x') = portMap (cx_bar x) -> (forall a, route (cx_bar x') a = route (cx_bar x) a) -> gotAllAddrRanges (cx_bar x') = true ->
  bar_ok N x' r.
Proof.
  intros [B1 B2 B3 B4 B5 B6 B7 B8] E1 E2 E3 E4 E5 E6 E7. split; rewrite ?E1, ?E3, ?E5; try done. intros a Ha. rewrite E6. by apply B8.
Qed.

(** What a crossbar without a filter does with a request whose snoops and whose
    memory are known. *)
Lemma bar_atomic N x r i pkt sn send sf : bar_ok N x r -> _start r <= pkt_addr pkt <= _end r -> inword 64 (pkt_addr pkt) ->
  atomic_loop sn i InvalidPortID (pkt_cmd pkt) (snoopPorts x) (mkAtomicSnoop [] InvalidCmd 0 pkt None) = Ret sf ->
  as_filter sf = None -> pkt_addr (as_pkt sf) = pkt_addr pkt ->
  (as_cmd sf <> InvalidCmd -> cmd_isResponse (pkt_cmd (send (as_pkt sf)).2) = false) ->
  exists x' m lat, bar_ok N x' r /\
    cx_recvAtomic xc x sn send pkt i = Ret (mkAtomicResult lat (as_called sf) m
      (with_payload (if bool_decide (as_cmd sf <> InvalidCmd) then with_cmd (send (as_pkt sf)).2 (as_cmd sf) else (send (as_pkt sf)).2) (u32 lat)), x').
Proof.
  intros Hbo Hr Ha El Hf Ead Hresp. pose proof Hbo as [B1 B2 B3 B4 B5 B6 B7 B8]. destruct (B8 _ Hr) as [[m Hm] Hal].
  pose proof (findPort_route _ _ B5 B6 B7 Ha Hal) as Hfind. rewrite Hm in Hfind. destruct Hfind as (bar & Ebar & Hok & Hpm & Hro & Hall).
  unfold cx_recvAtomic, atomic_request_snoops, forwardAtomic. rewrite B1, B2. cbn [negb cassert]. bsimpl. rewrite El. bsimpl. cbn [cx_bar sample_fanout with_stats with_filter].
  rewrite Ead, Ebar. bsimpl. destruct (send (as_pkt sf)) as [l p] eqn:Es. cbn [fst snd] in *. unfold update_filter. cbn [snoopFilter count_trans count_cmd count_pkt with_stats with_bar sample_fanout with_filter].
  rewrite Hf.
  assert (Hgo : forall y, (if negb (bypassCaches (count_trans (with_bar (sample_fanout (with_filter x None) (Z.of_nat (length (as_called sf)))) bar) i m pkt)) && y
    then Ret (count_trans (with_bar (sample_fanout (with_filter x None) (Z.of_nat (length (as_called sf)))) bar) i m pkt)
    else Ret (count_trans (with_bar (sample_fanout (with_filter x None) (Z.of_nat (length (as_called sf)))) bar) i m pkt)) =
    Ret (count_trans (with_bar (sample_fanout (with_filter x None) (Z.of_nat (length (as_called sf)))) bar) i m pkt)) by (intros y; by destruct (_ && _)).
  rewrite Hgo. bsimpl. destruct (bool_decide (as_cmd sf <> InvalidCmd)) eqn:Ec.
  - apply bool_decide_eq_true in Ec. rewrite (Hresp Ec). cbn [negb cassert]. bsimpl. eexists _, m, _. split; [|reflexivity].
    match goal with |- bar_ok _ (if ?b then _ else _) _ => destruct b end; by apply (bar_ok_same N x).
  - bsimpl. eexists _, m, _. split; [|reflexivity]. match goal with |- bar_ok _ (if ?b then _ else _) _ => destruct b end; by apply (bar_ok_same N x).
Qed.

Lemma bus_fits m n q d : in_mem (mem_range m) n -> bus_pkt c false n q d -> inword 64 (req_extraData (pkt_req q)) -> pkt_fits m q.
Proof using Hc.
  intros [H1 H2] [B1 B2 B3 B4 B5 B6 B7] Hx. pose proof (blkSize_pos c Hc). split; rewrite ?B3, ?B5; try lia; try done.
  - by exists d.
  - destruct B1 as [->|[->| ->]]; [by right; left|by right; left|by right; right; left].
  - by destruct B1 as [->|[->| ->]].
  - by destruct B1 as [->|[->| ->]].
  - destruct B1 as [->|[->| ->]]; done.
Qed.

Lemma respond_flags p : memInhibitAsserted (respond p) = memInhibitAsserted p /\ sharedAsserted (respond p) = sharedAsserted p.
Proof. unfold respond. destruct (cmd_needsResponse _); [|done]. split; by apply isSet_keep. Qed.

(** The memory serves a request of a cache, or leaves it to the owner. *)
Lemma mem_serves sm ms n q d draw : mem_repr (sm_mem sm) ms -> in_mem (mem_range (sm_mem sm)) n -> bus_pkt c false n q d -> inword 64 (req_extraData (pkt_req q)) ->
  exists lat m' q' d', sm_recvAtomic mp sm q draw = Ret (lat, sm_with_mem sm m', q') /\ mem_answer mp sm draw q = (lat, q') /\
    mem_repr m' ms /\ mem_range m' = mem_range (sm_mem sm) /\
    pkt_data q' = Some d' /\ Z.of_nat (length d') = blkSize c /\
    (memInhibitAsserted q = true -> q' = q) /\
    (memInhibitAsserted q = false -> pkt_cmd q' = responseCommand (pkt_cmd q) /\ (pkt_cmd q <> UpgradeReq -> d' = sp_read ms (n * blkSize c) (blkSize c))) /\
    pkt_req q' = pkt_req q /\ pkt_addr q' = pkt_addr q /\ pkt_isSecure q' = pkt_isSecure q /\ pkt_size q' = pkt_size q /\
    memInhibitAsserted q' = memInhibitAsserted q /\ sharedAsserted q' = sharedAsserted q.
Proof using Hc.
  intros Hm Hn Hb Hx. pose proof (bus_fits _ n q d Hn Hb Hx) as Hfit. destruct (mem_access_ok _ ms q Hm Hfit) as (m' & woken & E & Hm' & Hr).
  unfold mem_answer, sm_recvAtomic. rewrite E. bsimpl.
  pose proof Hb as [B1 B2 B3 B4 B5 B6 B7]. pose proof (blkSize_pos c Hc).
  destruct (memInhibitAsserted q) eqn:Ei.
  - assert (sp_access ms q = (ms, q)) as Hs by (unfold sp_access; by rewrite Ei). rewrite Hs in Hm' |- *. cbn [fst snd] in *. do 3 eexists. exists d. by split_and!.
  - assert ((sp_access ms q).1 = ms /\ (sp_access ms q).2 = respond (if bool_decide (pkt_cmd q = UpgradeReq) then q else with_data q (sp_read ms (pkt_addr q) (pkt_size q)) (bytesValid q))) as [Hs1 Hs2].
    { unfold sp_access, sp_cmd, pkt_isLLSC. rewrite Ei. by destruct B1 as [->|[->| ->]]. }
    rewrite Hs1 in Hm'. rewrite Hs2. destruct (bus_cmd_facts _ B1) as (_ & F2 & _).
    set (p := if bool_decide _ then _ else _) in *. destruct (respond_flags p) as [Hf1 Hf2].
    assert (pkt_cmd p = pkt_cmd q /\ pkt_req p = pkt_req q /\ pkt_addr p = pkt_addr q /\ pkt_isSecure p = pkt_isSecure q /\ pkt_size p = pkt_size q /\ pkt_flags p = pkt_flags q)
      as (P1 & P2 & P3 & P4 & P5 & P6) by (unfold p; by destruct (bool_decide _)).
    do 3 eexists. exists (if bool_decide (pkt_cmd q = UpgradeReq) then d else sp_read ms (n * blkSize c) (blkSize c)).
    assert (pkt_cmd (respond p) = responseCommand (pkt_cmd q)) as Hrc by (unfold respond; by rewrite P1, F2).
    split; [reflexivity|]. split; [reflexivity|]. split_and!; try done.
    + unfold respond, p. destruct (bool_decide _); cbn [pkt_cmd with_data]; rewrite F2; [done|]. cbn. by rewrite B3, B5.
    + case_bool_decide; [done|]. apply sp_read_length. lia.
    + intros _. split; [done|]. intros Hu. by rewrite bool_decide_false.
    + unfold respond. rewrite P1, F2. done.
    + unfold respond. rewrite P1, F2. cbn. congruence.
    + unfold respond. rewrite P1, F2. cbn. congruence.
    + unfold respond. rewrite P1, F2. cbn. congruence.
    + rewrite Hf1. unfold memInhibitAsserted in *. by rewrite P6.
    + rewrite Hf2. unfold sharedAsserted. by rewrite P6.
Qed.

(** ** Coherence

    [V] is the memory as the processors see it.  Every copy of a block agrees with
    [V]; a writable copy is the only one; one copy at most is dirty; the memory agrees
    with [V] unless a copy is dirty. *)
Definition agrees (V : Z -> Z) (n : Z) (d : list Z) : Prop :=
  Z.of_nat (length d) = blkSize c /\ forall k, 0 <= k < blkSize c -> d !! Z.to_nat k = Some (V (n * blkSize c + k)).

Record blk_coherent (V : Z -> Z) (n : Z) (f : nat -> copy) (ms : memspec) : Prop := {
  bc_agree : forall j v d, f j = Some (v, d) -> st_readable v = true /\ agrees V n d;
  bc_writer : forall i j v d, f i = Some (v, d) -> st_writable v = true -> j <> i -> f j = None;
  bc_owner : forall i j, dirty_copy (f i) = true -> dirty_copy (f j) = true -> i = j;
  bc_mem : (forall j, dirty_copy (f j) = false) -> forall k, 0 <= k < blkSize c -> sp_byte ms (n * blkSize c + k) = V (n * blkSize c + k)
}.

Abbreviation range_of s := (mem_range (sm_mem (sy_mem s))).

(** A system in which the caches are well-formed and hold blocks of the memory only. *)
Record sys_wf (s : CoherentSys S) (ms : memspec) : Prop := {
  sw_bar : bar_ok (length (sy_caches s)) (sy_bar s) (range_of s);
  sw_mem : mem_repr (sm_mem (sy_mem s)) ms;
  sw_range : forall n, in_mem (range_of s) n -> inRange P (n * blkSize c) = true;
  sw_inv : forall j st, sy_caches s !! j = Some st -> cache_inv c Inv st;
  sw_only : forall j st sec n v d, sy_caches s !! j = Some st -> num_ok c n -> holds st sec n (Some (v, d)) -> sec = false /\ in_mem (range_of s) n
}.

Definition sys_coherent (V : Z -> Z) (s : CoherentSys S) (ms : memspec) : Prop :=
  forall n, in_mem (range_of s) n -> blk_coherent V n (copy_at (sy_caches s) n) ms.

(** What a request of cache [i] for block [n] does below: [g] becomes of the other copies. *)
Record bus_done (s s' : CoherentSys S) (ms : memspec) (i : nat) (n : Z) (g : copy -> copy) : Prop := {
  bd_len : length (sy_caches s') = length (sy_caches s);
  bd_bar : bar_ok (length (sy_caches s)) (sy_bar s') (range_of s);
  bd_mem : mem_repr (sm_mem (sy_mem s')) ms;
  bd_range : range_of s' = range_of s;
  bd_own : sy_caches s' !! i = sy_caches s !! i;
  bd_others : forall j st, j <> i -> sy_caches s !! j = Some st ->
    exists st', sy_caches s' !! j = Some st' /\ changed c Inv st st' false n (g (contents st n))
}.

Lemma snooped_elem x N r i d : bar_ok N x r -> (i < N)%nat -> d ∈ snooped_ports (Z.of_nat i) (snoopPorts x) <-> 0 <= d < Z.of_nat N /\ d <> Z.of_nat i.
Proof.
  intros Hb Hi. unfold snooped_ports. rewrite list_elem_of_filter, (bo_ports _ _ _ Hb). unfold InvalidPortID. intuition lia.
Qed.

(** The ports as the other caches. *)
Lemma ports_others N x r i (Q : nat -> Prop) : bar_ok N x r -> (i < N)%nat ->
  (exists d, d ∈ snooped_ports (Z.of_nat i) (snoopPorts x) /\ Q (Z.to_nat d)) <-> exists j, (j < N)%nat /\ j <> i /\ Q j.
Proof.
  intros Hb Hi. setoid_rewrite (snooped_elem x N r i _ Hb Hi). split.
  - intros (d & [Hd Hne] & HQ). exists (Z.to_nat d). split_and!; [lia|lia|done].
  - intros (j & Hj & Hne & HQ). exists (Z.of_nat j). rewrite Nat2Z.id. split; [lia|done].
Qed.

Lemma copy_lt (cs : list cache) n j v d : copy_at cs n j = Some (v, d) -> (j < length cs)%nat.
Proof. unfold copy_at. destruct (cs !! j) eqn:E; [|done]. intros _. by eapply lookup_lt_Some. Qed.

Lemma others_any (t : copy -> bool) (cs : list cache) n i : t None = false ->
  (exists j, (j < length cs)%nat /\ j <> i /\ t (copy_at cs n j) = true) <-> exists j, j <> i /\ t (copy_at cs n j) = true.
Proof.
  intros Ht. split; [naive_solver|]. intros (j & Hj & E). exists j. split_and!; try done. unfold copy_at in E. destruct (cs !! j) eqn:El; [by eapply lookup_lt_Some|congruence].
Qed.

Lemma bus_ok V s ms e draw i n pkt d0 : sys_wf s ms -> sys_coherent V s ms -> in_mem (range_of s) n -> (i < length (sy_caches s))%nat ->
  bus_pkt c false n pkt d0 -> memInhibitAsserted pkt = false -> sharedAsserted pkt = false -> inword 64 (req_extraData (pkt_req pkt)) ->
  exists s' resp lat d1, bus_send c P xc mp e draw (Z.of_nat i) s pkt = Ret (s', resp, lat) /\ bus_resp c pkt resp d1 /\
    bus_done s s' ms i n (copy_left (pkt_cmd pkt)) /\
    (sharedAsserted resp = true <-> pkt_cmd pkt = ReadReq /\ exists j, j <> i /\ has_copy (copy_at (sy_caches s) n j) = true) /\
    (memInhibitAsserted resp = true <-> exists j, j <> i /\ dirty_copy (copy_at (sy_caches s) n j) = true) /\
    (pkt_cmd pkt <> UpgradeReq -> dirty_copy (copy_at (sy_caches s) n i) = false -> agrees V n d1).
Proof using OK Hc Hby.
  intros [W1 W2 W3 W4 W5] Hco Hn Hi Hb Hinh Hsh Hx. pose proof (in_mem_ok _ _ _ W2 Hn) as Hno. pose proof (Hco n Hn) as [C1 C2 C3 C4].
  set (N := length (sy_caches s)) in *. set (ds := snooped_ports (Z.of_nat i) (snoopPorts (sy_bar s))).
  pose proof (bus_response _ (bk_cmd _ _ _ _ _ Hb)) as (R1 & R2 & R3 & R4).
  destruct (snoop_run n (pkt_cmd pkt) e (sy_caches s) (Z.of_nat i) Hno (W3 n Hn) W4 (snoopPorts (sy_bar s)) (sy_caches s) (mkAtomicSnoop [] InvalidCmd 0 pkt None) d0)
    as (sf & cs' & L1 & L2 & L3 & L4 & L5 & L6 & L7 & L8 & L9); try done.
  { apply W1. }
  { intros d Hd. split; [|done]. by apply (bo_ports _ _ _ W1). }
  { unfold cmd_after. cbn. by rewrite Hinh. }
  { intros d d' H1 H2 H3 H4. apply (snooped_elem _ _ _ _ _ W1 Hi) in H1, H2. apply Z2Nat.inj; [lia..|]. by apply C3. }
  { cbn. by rewrite Hinh. }
  fold ds in L2, L3, L6, L8, L9. cbn [as_pkt as_called app] in *.
  destruct (fold_snoops (sy_caches s) n ds W4 Hno pkt d0 Hb) as (d2 & F1 & F2 & F3 & F4 & F5 & F6 & F7). rewrite <- L6 in *.
  destruct (mem_serves (sy_mem s) ms n (as_pkt sf) d2 draw W2 Hn F1) as (lat & m' & q' & d' & M1 & M2 & M3 & M4 & M5 & M6 & M7 & M8 & M9 & M10 & M11 & M12 & M13 & M14); [by rewrite F2|].
  assert (Hdirty : memInhibitAsserted (as_pkt sf) = true <-> exists j, j <> i /\ dirty_copy (copy_at (sy_caches s) n j) = true).
  { rewrite F4, Hinh, <- (others_any dirty_copy (sy_caches s) n i eq_refl).
    pose proof (ports_others N (sy_bar s) _ i (fun j => dirty_copy (copy_at (sy_caches s) n j) = true) W1 Hi) as Hpo. cbv beta in Hpo. fold ds N in Hpo |- *. rewrite Hpo. split; [by intros [?|?]|by right]. }
  assert (Hshared : sharedAsserted (as_pkt sf) = true <-> pkt_cmd pkt = ReadReq /\ exists j, j <> i /\ has_copy (copy_at (sy_caches s) n j) = true).
  { rewrite F5, Hsh, <- (others_any has_copy (sy_caches s) n i eq_refl).
    pose proof (ports_others N (sy_bar s) _ i (fun j => has_copy (copy_at (sy_caches s) n j) = true) W1 Hi) as Hpo. cbv beta in Hpo. fold ds N in Hpo |- *. rewrite Hpo. split; [by intros [?|?]|by right]. }
  destruct (bar_atomic N (sy_bar s) (range_of s) (Z.of_nat i) pkt (snoop_answer c P (sy_caches s) e) (mem_answer mp (sy_mem s) draw) sf W1) as (x' & m & lat' & Hbar & Ex); try done.
  { rewrite (bk_addr _ _ _ _ _ Hb). destruct Hn. pose proof (blkSize_pos c Hc). lia. }
  { rewrite (bk_addr _ _ _ _ _ Hb). by apply num_ok_word. }
  { by rewrite (bk_addr _ _ _ _ _ Hb), (bk_addr _ _ _ _ _ F1). }
  { rewrite L5, M2. unfold cmd_after. destruct (memInhibitAsserted (as_pkt sf)) eqn:E; [|done]. intros _. cbn. rewrite (M7 eq_refl), F3. done. }
  rewrite M2 in Ex. cbn [snd] in Ex. eexists (mkCoherentSys cs' x' (sm_with_mem (sy_mem s) m')), _, lat', d'.
  split; [unfold bus_send; rewrite R4; cbn [cassert]; bsimpl; rewrite Ex; bsimpl; cbn [ar_snooped]; rewrite L3, L2; bsimpl; rewrite M1; bsimpl; reflexivity|].
  cbn [CoherentXBarAtomic.ar_pkt]. set (resp := if bool_decide (as_cmd sf <> InvalidCmd) then with_cmd q' (as_cmd sf) else q').
  assert (Hresp : pkt_req resp = pkt_req pkt /\ pkt_addr resp = pkt_addr pkt /\ pkt_isSecure resp = pkt_isSecure pkt /\ pkt_size resp = pkt_size pkt /\ pkt_data resp = Some d' /\
    memInhibitAsserted resp = memInhibitAsserted (as_pkt sf) /\ sharedAsserted resp = sharedAsserted (as_pkt sf)).
  { rewrite <- F2, (bk_addr _ _ _ _ _ Hb), (bk_sec _ _ _ _ _ Hb), (bk_size _ _ _ _ _ Hb), <- (bk_addr _ _ _ _ _ F1), <- (bk_sec _ _ _ _ _ F1), <- (bk_size _ _ _ _ _ F1).
    unfold resp. by destruct (bool_decide _). }
  assert (Hcmd : pkt_cmd resp = responseCommand (pkt_cmd pkt)).
  { unfold resp. rewrite L5. unfold cmd_after. destruct (memInhibitAsserted (as_pkt sf)) eqn:E.
    - rewrite bool_decide_true; [done|]. by apply response_valid.
    - rewrite bool_decide_false by (intros H; by apply H). destruct (M8 eq_refl) as [-> _]. by rewrite F3. }
  destruct Hresp as (P1 & P2 & P3 & P4 & P5 & P6 & P7). split; [by split|]. split; [|split; [|split]].
  - split; cbn; try done.
    + apply L8. intros H. apply (snooped_elem _ _ _ _ _ W1 Hi) in H. lia.
    + intros j st Hj Hst. apply L9; [|done]. apply (snooped_elem _ _ _ _ _ W1 Hi). apply lookup_lt_Some in Hst. fold N in Hst. lia.
  - rewrite <- Hshared, <- P7. done.
  - rewrite <- Hdirty, <- P6. done.
  - intros Hu Hd. destruct (memInhibitAsserted (as_pkt sf)) eqn:E.
    + rewrite (M7 eq_refl), (bk_data _ _ _ _ _ F1) in M5. injection M5 as <-. destruct F7 as (d & v & Hd2 & Ed2); [|by apply (C1 (Z.to_nat d) v)].
      destruct (proj1 F4 eq_refl) as [E'|E']; [congruence|done].
    + destruct (M8 eq_refl) as [_ Hrd]. rewrite Hrd by congruence. split; [apply sp_read_length; pose proof (blkSize_pos c Hc); lia|].
      intros k Hk. rewrite sp_read_lookup by done. f_equal. apply C4; [|done]. intros j. destruct (decide (j = i)) as [->|Hj]; [done|].
      destruct (dirty_copy (copy_at (sy_caches s) n j)) eqn:Ed; [|done]. assert (false = true) by (apply Hdirty; by exists j). done.
Qed.

(** ** Writebacks *)

Lemma wb_snoop (cs : list cache) e d w st : cs !! Z.to_nat d = Some st -> pkt_cmd w = Writeback ->
  cache_snoop c P cs e d w = Ret (st, w, 0) /\ snoop_answer c P cs e d w = (0, w).
Proof using Hby.
  intros Hst Hw. unfold snoop_answer, cache_snoop. rewrite (vread_some _ _ _ Hst). bsimpl. rewrite Hw. change (cmd_isRequest Writeback) with true. cbn [cassert]. bsimpl.
  by rewrite (snoop_writeback c P st w e Hby Hw).
Qed.

Lemma wb_loop (cs : list cache) e excl dests : forall s, (forall d, d ∈ dests -> 0 <= d < Z.of_nat (length cs)) -> pkt_cmd (as_pkt s) = Writeback ->
  atomic_loop (snoop_answer c P cs e) excl InvalidPortID Writeback dests s =
    Ret (mkAtomicSnoop (as_called s ++ snooped_ports excl dests) (as_cmd s) (as_latency s) (as_pkt s) (as_filter s)).
Proof using Hby.
  induction dests as [|d dests IH]; intros s Hd Hw; [cbn; rewrite app_nil_r; by destruct s|]. cbn [atomic_loop]. unfold atomic_snoop, snooped_ports. rewrite filter_cons.
  assert (Hd' : forall d, d ∈ dests -> 0 <= d < Z.of_nat (length cs)) by (intros; apply Hd; by apply list_elem_of_further).
  destruct (decide (excl = InvalidPortID \/ d <> excl)) as [He|He].
  - replace (negb (excl =? InvalidPortID) && (d =? excl)) with false; cycle 1.
    { symmetry. apply andb_false_iff. destruct He as [-> | He]; [by left|right; by apply Z.eqb_neq]. }
    destruct (lookup_lt_is_Some_2 cs (Z.to_nat d)) as [st Hst]; [pose proof (Hd d (list_elem_of_here _ _)); lia|].
    destruct (wb_snoop cs e d (as_pkt s) st Hst Hw) as [_ ->]. rewrite Hw. change (cmd_isResponse Writeback) with false. cbn [negb]. bsimpl.
    rewrite IH by done. cbn. by rewrite <- app_assoc.
  - replace (negb (excl =? InvalidPortID) && (d =? excl)) with true; cycle 1.
    { symmetry. apply andb_true_iff. split; [apply negb_true_iff, Z.eqb_neq; tauto|]. apply Z.eqb_eq. destruct (decide (d = excl)); tauto. }
    bsimpl. by apply IH.
Qed.

Lemma wb_caches (cs : list cache) e ds w : (forall d, d ∈ ds -> 0 <= d < Z.of_nat (length cs)) -> pkt_cmd w = Writeback ->
  snoop_caches c P cs e Writeback ds w = Ret (cs, w).
Proof using Hby.
  intros Hd Hw. induction ds as [|d ds IH]; [done|]. cbn [snoop_caches].
  destruct (lookup_lt_is_Some_2 cs (Z.to_nat d)) as [st Hst]; [pose proof (Hd d (list_elem_of_here _ _)); lia|].
  destruct (wb_snoop cs e d w st Hst Hw) as [-> _]. bsimpl. unfold vwrite. rewrite Hst. bsimpl. rewrite list_insert_id by done. rewrite with_cmd_same by done.
  apply IH. intros d' Hd'. apply Hd. by apply list_elem_of_further.
Qed.

(** A writeback reaches the memory and nothing else. *)
Lemma wb_ok s ms e draw i n w d : bar_ok (length (sy_caches s)) (sy_bar s) (range_of s) -> mem_repr (sm_mem (sy_mem s)) ms -> in_mem (range_of s) n ->
  (i < length (sy_caches s))%nat -> wb_pkt c false n w d ->
  exists s' ms' resp lat, bus_send c P xc mp e draw (Z.of_nat i) s w = Ret (s', resp, lat) /\ sy_caches s' = sy_caches s /\
    bar_ok (length (sy_caches s)) (sy_bar s') (range_of s) /\ mem_repr (sm_mem (sy_mem s')) ms' /\ range_of s' = range_of s /\
    sp_byte ms' = sp_byte (sp_write ms (n * blkSize c) d).
Proof using Hc Hby.
  intros W1 W2 Hn Hi [K1 K2 K3 K4 K5 K6 K7 K8 K9]. pose proof (in_mem_ok _ _ _ W2 Hn) as Hno. pose proof (blkSize_pos c Hc) as Hbs. destruct Hn as [Hn1 Hn2].
  assert (Hfit : pkt_fits (sm_mem (sy_mem s)) w).
  { split; rewrite ?K1, ?K2, ?K5, ?K9; try lia; try done; try (unfold inword; lia); [by exists d|by right; right; right]. }
  destruct (mem_access_ok _ ms w W2 Hfit) as (m' & woken & E & Hm' & Hr).
  assert (sp_access ms w = (sp_clear (sp_write ms (n * blkSize c) d) (LockedAddr_mask (req_paddr (pkt_req w))), w)) as Hs.
  { unfold sp_access, sp_cmd, respond, report, store_allowed, pkt_isLLSC, payload. rewrite K7, K1, K2, K4.
    change (bool_decide (Writeback = SwapReq)) with false. change (cmd_isRead Writeback) with false. change (cmd_isInvalidate Writeback) with false.
    change (cmd_isLLSC Writeback) with false. cbn [from_option id]. rewrite K1. done. }
  rewrite Hs in E, Hm'. cbn [fst snd] in *.
  assert (Em : forall y, sm_recvAtomic mp (sy_mem s) w y = Ret (getLatency mp y, sm_with_mem (sy_mem s) m', w)) by (intros y; unfold sm_recvAtomic; rewrite E; bsimpl; by rewrite K7).
  set (ds := snooped_ports (Z.of_nat i) (snoopPorts (sy_bar s))).
  assert (Hds : forall d, d ∈ ds -> 0 <= d < Z.of_nat (length (sy_caches s))) by (intros y Hy; apply (proj1 (snooped_elem _ _ _ _ _ W1 Hi)) in Hy; lia).
  destruct (bar_atomic (length (sy_caches s)) (sy_bar s) (range_of s) (Z.of_nat i) w (snoop_answer c P (sy_caches s) e) (mem_answer mp (sy_mem s) draw)
    (mkAtomicSnoop ds InvalidCmd 0 w None) W1) as (x' & m & lat' & Hbar & Ex); try done.
  { lia. }
  { rewrite K2. by apply num_ok_word. }
  { rewrite K1, wb_loop; [done| |done]. intros y Hy. by apply (bo_ports _ _ _ W1). }
  eexists (mkCoherentSys (sy_caches s) x' (sm_with_mem (sy_mem s) m')), _, _, _. split_and!; [|done|done|exact Hm'|done|done].
  unfold bus_send. rewrite K1. change (cmd_isRequest Writeback) with true. cbn [cassert]. bsimpl. rewrite Ex. bsimpl. cbn [ar_snooped as_called].
  rewrite wb_caches by done. bsimpl. rewrite Em. bsimpl. reflexivity.
Qed.

(** ** Steps of one block *)

Lemma unwritable_bits v : st_readable (unwritable v) = st_readable v /\ st_writable (unwritable v) = false /\ dirty_status (unwritable v) = dirty_status v.
Proof.
  unfold st_readable, st_writable, dirty_status, unwritable. rewrite <- !Z.land_assoc. split_and!; [done| |done].
  apply Z.eqb_neq. intros E. apply (f_equal (fun z => Z.testbit z 1)) in E. rewrite Z.land_spec in E. by apply (proj1 (andb_true_iff _ _)) in E as [_ E].
Qed.

Lemma coh_same V V' n f f' ms ms' : blk_coherent V n f ms -> (forall j, f' j = f j) ->
  (forall k, 0 <= k < blkSize c -> V' (n * blkSize c + k) = V (n * blkSize c + k) /\ sp_byte ms' (n * blkSize c + k) = sp_byte ms (n * blkSize c + k)) ->
  blk_coherent V' n f' ms'.
Proof.
  intros [C1 C2 C3 C4] Hf HV. split.
  - intros j v d. rewrite Hf. intros H. destruct (C1 j v d H) as (Hr & Hl & Ha). split; [done|]. split; [done|]. intros k Hk. rewrite Ha by done. f_equal. symmetry. by apply HV.
  - intros i j v d. rewrite !Hf. apply C2.
  - intros i j. rewrite !Hf. apply C3.
  - intros H k Hk. destruct (HV k Hk) as [-> ->]. apply C4; [|done]. intros j. by rewrite <- Hf.
Qed.

Lemma coh_own V n f ms i v d : f i = Some (v, d) -> (forall j, j <> i -> f j = None) -> st_readable v = true -> dirty_status v = true -> agrees V n d ->
  blk_coherent V n f ms.
Proof.
  intros Hi Hj Hr Hd Ha.
  assert (Hall : forall j, is_Some (f j) -> j = i) by (intros j [x Hx]; destruct (decide (j = i)) as [|E]; [done|]; rewrite (Hj j E) in Hx; done).
  split.
  - intros j v' d' E. assert (j = i) as -> by (apply Hall; by eexists). rewrite Hi in E. by injection E as <- <-.
  - intros k j v' d' E _ Hne. assert (k = i) as -> by (apply Hall; by eexists). by apply Hj.
  - intros k j Hk Hj'. rewrite (Hall k), (Hall j); [done|destruct (f j); [by eexists|done]|destruct (f k); [by eexists|done]].
  - intros H. specialize (H i). rewrite Hi in H. cbn in H. congruence.
Qed.

Lemma coh_share V n f f' ms i v d : blk_coherent V n f ms -> f i = None -> f' i = Some (v, d) -> (forall j, j <> i -> f' j = copy_left ReadReq (f j)) ->
  st_readable v = true -> dirty_status v = false -> agrees V n d -> (st_writable v = true -> forall j, j <> i -> f j = None) ->
  blk_coherent V n f' ms.
Proof.
  intros [C1 C2 C3 C4] Hi Hi' Hj Hr Hd Ha Hw.
  assert (Hinv : forall j, j <> i -> forall v' d', f' j = Some (v', d') -> exists w, f j = Some (w, d') /\ v' = unwritable w).
  { intros j Hne v' d'. rewrite (Hj j Hne). destruct (f j) as [[w dw]|]; [|done]. cbn. intros [= <- <-]. by exists w. }
  assert (Hdj : forall j, dirty_copy (f' j) = dirty_copy (f j)).
  { intros j. destruct (decide (j = i)) as [->|Hne]; [by rewrite Hi', Hi|]. rewrite (Hj j Hne). destruct (f j) as [[w dw]|]; [|done]. cbn. apply unwritable_bits. }
  split.
  - intros j v' d' E. destruct (decide (j = i)) as [->|Hne]; [rewrite Hi' in E; by injection E as <- <-|].
    destruct (Hinv j Hne v' d' E) as (w & Ew & ->). destruct (C1 j w d' Ew) as [Hrw Haw]. split; [|done]. by destruct (unwritable_bits w) as (-> & _).
  - intros k j v' d' E Hwr Hne. destruct (decide (k = i)) as [->|Hk].
    + rewrite Hi' in E. injection E as <- <-. rewrite (Hj j Hne), (Hw Hwr j Hne). done.
    + destruct (Hinv k Hk v' d' E) as (w & Ew & ->). destruct (unwritable_bits w) as (_ & Hx & _). congruence.
  - intros k j. rewrite !Hdj. apply C3.
  - intros H. apply C4. intros j. by rewrite <- Hdj.
Qed.

Lemma coh_evict V n f f' ms ms' i v d : blk_coherent V n f ms -> f i = Some (v, d) -> f' i = None -> (forall j, j <> i -> f' j = f j) ->
  (forall k, 0 <= k < blkSize c -> sp_byte ms' (n * blkSize c + k) = if dirty_status v then V (n * blkSize c + k) else sp_byte ms (n * blkSize c + k)) ->
  blk_coherent V n f' ms'.
Proof.
  intros [C1 C2 C3 C4] Hi Hi' Hj Hm.
  assert (Hsub : forall j o, f' j = Some o -> f j = Some o) by (intros j o; destruct (decide (j = i)) as [->|Hne]; [by rewrite Hi'|by rewrite (Hj j Hne)]).
  assert (Hdj : forall j, dirty_copy (f' j) = true -> dirty_copy (f j) = true).
  { intros j. destruct (f' j) as [o|] eqn:E; [|done]. by rewrite (Hsub j o E). }
  split.
  - intros j v' d' E. by apply (C1 j), Hsub.
  - intros k j v' d' E Hwr Hne. pose proof (C2 k j v' d' (Hsub _ _ E) Hwr Hne) as Hnone. destruct (f' j) as [o|] eqn:Ej; [|done]. rewrite (Hsub j o Ej) in Hnone. done.
  - intros k j H1 H2. by apply C3; apply Hdj.
  - intros H k Hk. rewrite Hm by done. destruct (dirty_status v) eqn:Ed; [done|]. apply C4; [|done]. intros j.
    destruct (decide (j = i)) as [->|Hne]; [by rewrite Hi|]. rewrite <- (Hj j Hne). apply H.
Qed.

(** ** Steps of the system *)

Lemma write_block ms n d m k : Z.of_nat (length d) = blkSize c -> 0 <= k < blkSize c ->
  sp_byte (sp_write ms (n * blkSize c) d) (m * blkSize c + k) = if decide (m = n) then nth (Z.to_nat k) d 0 else sp_byte ms (m * blkSize c + k).
Proof using Hc.
  intros Hl Hk. cbn [sp_byte sp_write]. rewrite Hl. case_decide as Hm.
  - subst m. rewrite (proj2 (andb_true_iff _ _)) by (rewrite Z.leb_le, Z.ltb_lt; lia). f_equal. lia.
  - replace (_ && _) with false; [done|]. symmetry. apply andb_false_iff. rewrite Z.leb_gt, Z.ltb_ge. pose proof (blkSize_pos c Hc).
    assert (m <= n - 1 \/ n + 1 <= m) as [|] by lia; [left|right]; nia.
Qed.

Lemma others_copy s s' ms i n g j m : sys_wf s ms -> bus_done s s' ms i n g -> g None = None -> j <> i -> num_ok c m -> num_ok c n ->
  copy_at (sy_caches s') m j = if decide (m = n) then g (copy_at (sy_caches s) n j) else copy_at (sy_caches s) m j.
Proof using OK Hc.
  intros Hw Hb Hg Hj Hm Hn. unfold copy_at. destruct (sy_caches s !! j) as [st|] eqn:E.
  - destruct (bd_others _ _ _ _ _ _ Hb j st Hj E) as (st' & -> & Hch). pose proof (sw_inv _ _ Hw j st E) as Hci. apply holds_contents.
    destruct Hch as [_ Hch]. apply Hch; [done|]. destruct (decide (m = n)) as [->|Hne].
    + by rewrite decide_True.
    + rewrite decide_False by tauto. by apply contents_holds.
  - assert (sy_caches s' !! j = None) as ->. { apply lookup_ge_None. rewrite (bd_len _ _ _ _ _ _ Hb). by apply lookup_ge_None. }
    rewrite Hg. by case_decide.
Qed.

(** The caches after cache [i] has become [st']. *)
Definition replace_cache (s : CoherentSys S) (i : nat) (st' : cache) : CoherentSys S := mkCoherentSys (<[i:=st']> (sy_caches s)) (sy_bar s) (sy_mem s).

Lemma replace_copy s i st' j m : (i < length (sy_caches s))%nat ->
  copy_at (sy_caches (replace_cache s i st')) m j = if decide (j = i) then contents st' m else copy_at (sy_caches s) m j.
Proof.
  intros Hi. unfold copy_at, replace_cache. cbn [sy_caches]. case_decide as Hj; [subst; by rewrite list_lookup_insert_eq|]. by rewrite list_lookup_insert_ne.
Qed.

(** The writeback, if there is one, and the memory after it. *)
Lemma writebacks_done s ms e draw i (vn : Z) (v : Z) (d : list Z) wbs : bar_ok (length (sy_caches s)) (sy_bar s) (range_of s) -> mem_repr (sm_mem (sy_mem s)) ms ->
  in_mem (range_of s) vn -> (i < length (sy_caches s))%nat -> Z.of_nat (length d) = blkSize c ->
  (if dirty_status v then exists w, wbs = [w] /\ wb_pkt c false vn w d else wbs = []) ->
  exists s' ms', send_writebacks (bus_send c P xc mp e draw (Z.of_nat i)) s wbs = Ret s' /\ sy_caches s' = sy_caches s /\
    bar_ok (length (sy_caches s)) (sy_bar s') (range_of s) /\ mem_repr (sm_mem (sy_mem s')) ms' /\ range_of s' = range_of s /\
    forall m k, 0 <= k < blkSize c ->
      sp_byte ms' (m * blkSize c + k) = if decide (m = vn) then if dirty_status v then nth (Z.to_nat k) d 0 else sp_byte ms (m * blkSize c + k) else sp_byte ms (m * blkSize c + k).
Proof using Hc Hby.
  intros Hbo Hm Hvn Hi Hl Hw. destruct (dirty_status v).
  - destruct Hw as (w & -> & Hw). destruct (wb_ok s ms e draw i vn w d Hbo Hm Hvn Hi Hw) as (s' & ms' & resp & lat & E & H1 & H2 & H3 & H4 & H5).
    exists s', ms'. cbn [send_writebacks]. rewrite E. bsimpl. split_and!; try done. intros m k Hk. by rewrite H5, write_block.
  - subst wbs. exists s, ms. split_and!; try done. intros m k Hk. by case_decide.
Qed.

(** Eviction keeps the other blocks coherent. *)
Lemma evict_done V s s1 ms e draw i st st' n g o wbs : sys_wf s ms -> sys_coherent V s ms -> in_mem (range_of s) n -> sy_caches s !! i = Some st ->
  bus_done s s1 ms i n g -> evicts c Inv st st' false n o wbs ->
  exists s2 ms', send_writebacks (bus_send c P xc mp e draw (Z.of_nat i)) s1 wbs = Ret s2 /\ sy_caches s2 = sy_caches s1 /\
    bar_ok (length (sy_caches s)) (sy_bar s2) (range_of s) /\ mem_repr (sm_mem (sy_mem s2)) ms' /\ range_of s2 = range_of s /\
    (forall k, 0 <= k < blkSize c -> sp_byte ms' (n * blkSize c + k) = sp_byte ms (n * blkSize c + k)) /\
    forall m, m <> n -> in_mem (range_of s) m -> blk_coherent V m (fun j => if decide (j = i) then contents st' m else copy_at (sy_caches s) m j) ms'.
Proof using OK Hc Hby.
  intros Hw Hco Hn Hst Hb (Hci' & victim & Hh & Hv). pose proof (sw_inv _ _ Hw i st Hst) as Hci.
  assert (Hi : (i < length (sy_caches s))%nat) by (by eapply lookup_lt_Some). pose proof (bd_len _ _ _ _ _ _ Hb) as Hlen. rewrite <- Hlen in Hi |- *.
  assert (Hct : forall m, m <> n -> in_mem (range_of s) m -> contents st' m = if decide (victim = Some (m, false)) then None else contents st m).
  { intros m Hm Him. pose proof (in_mem_ok _ _ _ (sw_mem _ _ Hw) Him) as Hno. apply holds_contents, Hh; [done|]. rewrite decide_False by tauto. case_decide; [done|]. by apply contents_holds. }
  assert (Hat : forall m, copy_at (sy_caches s) m i = contents st m) by (intros m; unfold copy_at; by rewrite Hst).
  assert (Hbar : bar_ok (length (sy_caches s1)) (sy_bar s1) (range_of s1)) by (rewrite Hlen, (bd_range _ _ _ _ _ _ Hb); apply Hb).
  destruct victim as [[vn vs]|].
  - destruct Hv as (Hvn & Hne & v & d & Hho & Hwb). destruct (sw_only _ _ Hw i st vs vn v d Hst Hvn Hho) as [-> Hin].
    assert (vn <> n) as Hvne by (destruct Hne as [|Hne]; [done|by destruct Hne]).
    destruct (holds_inv c Inv Hc st false vn v d Hci Hvn Hho) as (_ & _ & _ & _ & _ & _ & _ & Hl).
    destruct (writebacks_done s1 ms e draw i vn v d wbs Hbar (bd_mem _ _ _ _ _ _ Hb)) as (s2 & ms' & E & H1 & H2 & H3 & H4 & H5);
      [by rewrite (bd_range _ _ _ _ _ _ Hb)|done|done|done|]. rewrite (bd_range _ _ _ _ _ _ Hb) in H2, H4.
    exists s2, ms'. split_and!; try done.
    + intros k Hk. rewrite H5 by done. by rewrite decide_False.
    + intros m Hm Him. destruct (decide (m = vn)) as [->|Hmv].
      * apply holds_contents in Hho. destruct (bc_agree _ _ _ _ (Hco vn Him) i v d) as (_ & _ & Hag); [by rewrite Hat|].
        eapply (coh_evict V vn _ _ ms ms' i v d (Hco vn Him)); [by rewrite Hat|by rewrite decide_True, Hct, decide_True by done|intros j Hj; by rewrite decide_False|].
        intros k Hk. rewrite H5, decide_True by done. destruct (dirty_status v); [|done]. specialize (Hag k Hk). by apply nth_lookup_Some with (d := 0) in Hag.
      * apply (coh_same V V m (copy_at (sy_caches s) m) _ ms ms' (Hco m Him)).
        { intros j. case_decide as Hj; [|done]. subst j. rewrite Hct, decide_False, Hat by (done || congruence). done. }
        { intros k Hk. split; [done|]. rewrite H5 by done. by rewrite decide_False. }
  - subst wbs. exists s1, ms. rewrite (bd_range _ _ _ _ _ _ Hb) in Hbar. split_and!; try done; [apply Hb|apply Hb|].
    intros m Hm Him. apply (coh_same V V m (copy_at (sy_caches s) m) _ ms ms (Hco m Him)); [|done].
    intros j. case_decide as Hj; [|done]. subst j. by rewrite Hct, decide_False, Hat.
Qed.

(** A request that ends with cache [i] holding [o] for block [n]. *)
Lemma access_done V V' s s1 ms e draw i st st' n g o wbs : sys_wf s ms -> sys_coherent V s ms -> in_mem (range_of s) n -> sy_caches s !! i = Some st ->
  bus_done s s1 ms i n g -> g None = None -> evicts c Inv st st' false n (Some o) wbs ->
  (forall m k, m <> n -> 0 <= k < blkSize c -> V' (m * blkSize c + k) = V (m * blkSize c + k)) ->
  (forall f', f' i = Some o -> (forall j, j <> i -> f' j = g (copy_at (sy_caches s) n j)) -> blk_coherent V' n f' ms) ->
  exists s2 ms', send_writebacks (bus_send c P xc mp e draw (Z.of_nat i)) s1 wbs = Ret s2 /\ (i < length (sy_caches s2))%nat /\
    let s' := replace_cache s2 i st' in
    sys_wf s' ms' /\ sys_coherent V' s' ms' /\ length (sy_caches s') = length (sy_caches s) /\ range_of s' = range_of s.
Proof using OK Hc Hby.
  intros Hw Hco Hn Hst Hb Hg Hev HV Hnew. pose proof (in_mem_ok _ _ _ (sw_mem _ _ Hw) Hn) as Hno.
  destruct (evict_done V s s1 ms e draw i st st' n g (Some o) wbs Hw Hco Hn Hst Hb Hev) as (s2 & ms' & E & H1 & H2 & H3 & H4 & H5 & H6).
  assert (Hi : (i < length (sy_caches s))%nat) by (by eapply lookup_lt_Some). pose proof (bd_len _ _ _ _ _ _ Hb) as Hlen.
  assert (Hi2 : (i < length (sy_caches s2))%nat) by (by rewrite H1, Hlen). assert (Hl2 : length (sy_caches (replace_cache s2 i st')) = length (sy_caches s)) by (cbn; by rewrite length_insert, H1).
  destruct Hev as (Hci' & victim & Hh & _).
  assert (Hct : contents st' n = Some o) by (apply holds_contents, Hh; [done|]; by rewrite decide_True).
  exists s2, ms'. split; [done|]. split; [done|]. cbv zeta. split_and!; [|..|done|done].
  - split; rewrite ?Hl2; cbn [replace_cache sy_bar sy_mem]; rewrite ?H4; try done; [apply (sw_range _ _ Hw)|..].
    + intros j stj. cbn [sy_caches]. intros [(<- & <- & _)|[Hj Hlj]]%list_lookup_insert_Some; [done|]. rewrite H1 in Hlj.
      destruct (lookup_lt_is_Some_2 (sy_caches s) j) as [st0 H0]; [rewrite <- Hlen; by eapply lookup_lt_Some|].
      destruct (bd_others _ _ _ _ _ _ Hb j st0 (not_eq_sym Hj) H0) as (st1 & E1 & Hch). assert (stj = st1) as -> by congruence. apply Hch.
    + intros j stj sec m v d. cbn [sy_caches]. intros [(<- & <- & _)|[Hj Hlj]]%list_lookup_insert_Some Hm Hho.
      * apply Hh in Hho; [|done]. case_decide as Hd; [destruct Hd as [-> ->]; done|]. case_decide; [done|]. by apply (sw_only _ _ Hw i st sec m v d).
      * rewrite H1 in Hlj. destruct (lookup_lt_is_Some_2 (sy_caches s) j) as [st0 H0]; [rewrite <- Hlen; by eapply lookup_lt_Some|].
        destruct (bd_others _ _ _ _ _ _ Hb j st0 (not_eq_sym Hj) H0) as (st1 & E1 & Hch). assert (stj = st1) as -> by congruence.
        apply (proj2 Hch) in Hho; [|done]. case_decide as Hd; [destruct Hd as [-> ->]; done|]. by apply (sw_only _ _ Hw j st0 sec m v d).
  - intros m Him. cbn [replace_cache sy_mem] in Him. rewrite H4 in Him. pose proof (in_mem_ok _ _ _ (sw_mem _ _ Hw) Him) as Hmo. destruct (decide (m = n)) as [->|Hmn].
    + apply (coh_same V' V' n (copy_at (sy_caches (replace_cache s2 i st')) n) _ ms ms'); [|done|by split; [|apply H5]]. apply Hnew.
      * rewrite replace_copy, decide_True by done. done.
      * intros j Hj. rewrite replace_copy, decide_False, H1 by done. rewrite (others_copy s s1 ms i n g j n Hw Hb Hg Hj Hno Hno). by rewrite decide_True.
    + eapply (coh_same V V' m _ _ ms' ms' (H6 m Hmn Him)).
      * intros j. rewrite replace_copy by done. case_decide as Hj; [done|]. rewrite H1, (others_copy s s1 ms i n g j m Hw Hb Hg Hj Hmo Hno). by rewrite decide_False.
      * intros k Hk. split; [|done]. by apply HV.
Qed.

(** ** Loads and stores *)

Definition mem_load (V : Z -> Z) (a n : Z) : list Z := (fun i => V (a + Z.of_nat i)) <$> seq 0 (Z.to_nat n).
Definition mem_store (V : Z -> Z) (a : Z) (d : list Z) : Z -> Z := fun x => if decide (a <= x < a + Z.of_nat (length d)) then nth (Z.to_nat (x - a)) d 0 else V x.

(** A load or store of a processor, of part of a block of the memory. *)
Record cpu_req (r : AddrRange) (pkt : Packet) (d : list Z) : Prop := {
  cr_op : cpu_op c pkt d;
  cr_sec : pkt_isSecure pkt = false;
  cr_mem : in_mem r (block c (pkt_addr pkt));
  cr_extra : inword 64 (req_extraData (pkt_req pkt))
}.

Definition env_ok (e : Env) : Prop := draw_ok c (ev_rnd e) /\ Z.of_nat (length (ev_junk e)) = blkSize c.

Lemma addr_split pkt d : cpu_op c pkt d -> pkt_addr pkt = block c (pkt_addr pkt) * blkSize c + getOffset pkt (blkSize c) /\
  0 <= getOffset pkt (blkSize c) /\ getOffset pkt (blkSize c) + Z.of_nat (length d) <= blkSize c /\ Z.of_nat (length d) = pkt_size pkt.
Proof using Hc.
  intros Hop. pose proof (co_pkt _ _ _ Hop) as [_ _ Ha Hs Hf _ Hl]. rewrite Hl. split_and!; try done.
  - assert (getOffset pkt (blkSize c) = pkt_addr pkt mod blkSize c) as ->.
    { unfold getOffset. destruct (cw_blk _ Hc) as (kb & Hkb & -> & _). replace (2 ^ kb - 1) with (Z.ones kb) by (rewrite Z.ones_equiv; lia). by rewrite Z.land_ones by lia. }
    unfold block. pose proof (blkSize_pos c Hc). pose proof (Z.div_mod (pkt_addr pkt) (blkSize c)). lia.
  - pose proof (blkOffset_range c Hc pkt Ha). lia.
Qed.

Lemma loaded_value V pkt pkt' d dat : cpu_op c pkt d -> loaded c pkt pkt' dat -> agrees V (block c (pkt_addr pkt)) dat ->
  pkt_cmd pkt' = ReadResp /\ pkt_data pkt' = Some (mem_load V (pkt_addr pkt) (pkt_size pkt)).
Proof using Hc.
  intros Hop (Hcmd & d' & -> & Hl & Hb) [_ Hag]. split; [done|]. f_equal. destruct (addr_split pkt d Hop) as (Ea & Ho & Hf & Hs).
  apply list_eq_same_length with (n := length d'); [unfold mem_load; rewrite length_fmap, length_seq; lia|done|].
  intros k x y Hk Hx Hy. unfold mem_load in Hy. rewrite list_lookup_fmap, lookup_seq_lt in Hy by lia. cbn in Hy. injection Hy as <-.
  specialize (Hb (Z.of_nat k) ltac:(lia)). rewrite Nat2Z.id, Hx in Hb. rewrite Hag in Hb by lia. injection Hb as ->. f_equal. lia.
Qed.

Lemma patched_agrees V pkt d dat dat' : cpu_op c pkt d -> patched (getOffset pkt (blkSize c)) d dat dat' -> agrees V (block c (pkt_addr pkt)) dat ->
  agrees (mem_store V (pkt_addr pkt) d) (block c (pkt_addr pkt)) dat'.
Proof using Hc.
  intros Hop [Hl Hp] [Hl' Hag]. destruct (addr_split pkt d Hop) as (Ea & Ho & Hf & Hs). split; [lia|]. intros k Hk. rewrite Hp by lia. unfold mem_store.
  case_decide as H1; case_decide as H2; try lia; [|by apply Hag].
  destruct (lookup_lt_is_Some_2 d (Z.to_nat (k - getOffset pkt (blkSize c)))) as [x Hx]; [lia|]. rewrite Hx. f_equal.
  apply nth_lookup_Some with (d := 0) in Hx. rewrite <- Hx. f_equal. lia.
Qed.

Lemma store_elsewhere V pkt d m k : cpu_op c pkt d -> m <> block c (pkt_addr pkt) -> 0 <= k < blkSize c ->
  mem_store V (pkt_addr pkt) d (m * blkSize c + k) = V (m * blkSize c + k).
Proof using Hc.
  intros Hop Hm Hk. destruct (addr_split pkt d Hop) as (Ea & Ho & Hf & Hs). unfold mem_store. rewrite decide_False; [done|]. intros H.
  assert (m <= block c (pkt_addr pkt) - 1 \/ block c (pkt_addr pkt) + 1 <= m) as [|] by lia; nia.
Qed.

Lemma fill_rights resp : pkt_isSecure resp = false ->
  st_readable (fill_status resp) = true /\ st_writable (fill_status resp) = negb (sharedAsserted resp) /\
  dirty_status (fill_status resp) = negb (sharedAsserted resp) && memInhibitAsserted resp.
Proof. intros Hs. unfold fill_status. rewrite Hs. by destruct (sharedAsserted resp), (memInhibitAsserted resp). Qed.

Lemma dirtied v : st_readable (Z.lor v BlkDirty) = st_readable v /\ dirty_status (Z.lor v BlkDirty) = true.
Proof.
  unfold st_readable, dirty_status. split.
  - rewrite lor_keeps by done. done.
  - apply negb_true_iff, Z.eqb_neq. by apply lor_sets.
Qed.

Lemma cpu_access_of s s2 i st st' pkt pkt' lat e draw : sy_caches s !! i = Some st -> cmd_isRequest (pkt_cmd pkt) = true ->
  CacheAtomic.recvAtomic c P (bus_send c P xc mp e draw (Z.of_nat i)) s st pkt e = Ret (s2, st', pkt', lat) -> (i < length (sy_caches s2))%nat ->
  cpu_access c P xc mp i s pkt e draw = Ret (replace_cache s2 i st', pkt', lat).
Proof.
  intros Hst Hq E Hi. unfold cpu_access. rewrite Hq. cbn [cassert]. bsimpl. rewrite (vread_some _ _ _ Hst). bsimpl. rewrite E. bsimpl. by rewrite vwrite_lt.
Qed.

(** Nothing happens below for a hit. *)
Lemma bus_idle s ms i n : sys_wf s ms -> num_ok c n -> bus_done s s ms i n (fun o => o).
Proof using OK Hc.
  intros [W1 W2 W3 W4 W5] Hn. split; try done. intros j st Hj Hst. exists st. split; [done|]. split; [by eapply W4|].
  intros m sec o Hm. case_decide as Hd; [|done]. destruct Hd as [-> ->]. pose proof (contents_holds st n (W4 j st Hst) Hn) as Hho.
  split; [intros H; by apply (holds_fun c _ _ _ _ _ H Hho)|by intros ->].
Qed.

(** A system that presents the memory [V] to its processors. *)
Definition presents (s : CoherentSys S) (V : Z -> Z) : Prop := exists ms, sys_wf s ms /\ sys_coherent V s ms.

(** The memory after a request, and the answer to it. *)
Definition after_req (V : Z -> Z) (pkt : Packet) (d : list Z) : Z -> Z := if bool_decide (pkt_cmd pkt = WriteReq) then mem_store V (pkt_addr pkt) d else V.
Definition answered (V : Z -> Z) (pkt pkt' : Packet) : Prop :=
  if bool_decide (pkt_cmd pkt = WriteReq) then pkt_cmd pkt' = WriteResp
  else pkt_cmd pkt' = ReadResp /\ pkt_data pkt' = Some (mem_load V (pkt_addr pkt) (pkt_size pkt)).

Section request.
Context (V : Z -> Z) (s : CoherentSys S) (ms : memspec) (i : nat) (st : cache) (pkt : Packet) (d : list Z) (e : Env) (draw : Z).
Context (Hw : sys_wf s ms) (Hco : sys_coherent V s ms) (Hst : sy_caches s !! i = Some st) (Hreq : cpu_req (range_of s) pkt d) (He : env_ok e).

Abbreviation n := (block c (pkt_addr pkt)).
Abbreviation served V' := (exists s' pkt' lat, cpu_access c P xc mp i s pkt e draw = Ret (s', pkt', lat) /\ answered V pkt pkt' /\
  presents s' V' /\ length (sy_caches s') = length (sy_caches s) /\ range_of s' = range_of s).

Lemma request_facts : cpu_op c pkt d /\ cache_inv c Inv st /\ num_ok c n /\ (i < length (sy_caches s))%nat /\ copy_at (sy_caches s) n i = contents st n /\ cmd_isRequest (pkt_cmd pkt) = true.
Proof using OK Hc Hw Hst Hreq.
  split_and!; [apply Hreq|by apply (sw_inv _ _ Hw i)|apply num_ok_block; [done|apply Hreq]|by eapply lookup_lt_Some|unfold copy_at; by rewrite Hst|].
  by destruct (co_cmd _ _ _ (cr_op _ _ _ Hreq)) as [-> | ->].
Qed.

(** From the end of [access_done] to the answer. *)
Lemma serve V' s2 ms' st' pkt' lat : CacheAtomic.recvAtomic c P (bus_send c P xc mp e draw (Z.of_nat i)) s st pkt e = Ret (s2, st', pkt', lat) ->
  (i < length (sy_caches s2))%nat -> answered V pkt pkt' -> sys_wf (replace_cache s2 i st') ms' -> sys_coherent V' (replace_cache s2 i st') ms' ->
  length (sy_caches (replace_cache s2 i st')) = length (sy_caches s) -> range_of (replace_cache s2 i st') = range_of s -> served V'.
Proof using OK Hc Hw Hst Hreq.
  intros E Hi2 Ha W C Hl Hr. destruct request_facts as (_ & _ & _ & _ & _ & Hq). exists (replace_cache s2 i st'), pkt', lat.
  split; [by apply (cpu_access_of s s2 i st)|]. split; [done|]. split; [by exists ms'|]. done.
Qed.

Lemma load_hit v dat : pkt_cmd pkt = ReadReq -> contents st n = Some (v, dat) -> served V.
Proof using OK Hc Hby Hw Hco Hst Hreq.
  intros Hcmd Hcon. destruct request_facts as (Hop & Hci & Hn & Hi & Hat & _). pose proof (contents_holds st n Hci Hn) as Hho. rewrite Hcon in Hho.
  pose proof (Hco n (cr_mem _ _ _ Hreq)) as Hcoh. destruct (bc_agree _ _ _ _ Hcoh i v dat) as [Hrd Hag]; [congruence|].
  rewrite <- (cr_sec _ _ _ Hreq) in Hho.
  destruct (atomic_read_hit c Inv Hc P (bus_send c P xc mp e draw (Z.of_nat i)) Hby s st pkt d v dat e Hci Hop Hcmd Hho Hrd) as (st' & pkt' & lat & E & [Hci' Hun] & Hld).
  assert (Hev : evicts c Inv st st' false n (Some (v, dat)) []).
  { apply changed_evicts. split; [done|]. intros m sec o Hm. rewrite Hun by done. case_decide as Hd; [|done]. destruct Hd as [-> ->]. rewrite (cr_sec _ _ _ Hreq) in Hho.
    split; [intros H; by apply (holds_fun c _ _ _ _ _ H Hho)|by intros ->]. }
  destruct (access_done V V s s ms e draw i st st' n (fun o => o) (v, dat) [] Hw Hco (cr_mem _ _ _ Hreq) Hst (bus_idle s ms i n Hw Hn) eq_refl Hev) as (s2 & ms' & Es & Hi2 & H1 & H2 & H3 & H4); [done| |].
  { intros f' F1 F2. apply (coh_same V V n (copy_at (sy_caches s) n) f' ms ms Hcoh); [|done]. intros j. destruct (decide (j = i)) as [->|Hj]; [by rewrite F1, Hat|by apply F2]. }
  injection Es as <-. eapply serve; try done. unfold answered. rewrite Hcmd. by apply (loaded_value V pkt pkt' d dat).
Qed.

Lemma store_owned v dat : pkt_cmd pkt = WriteReq -> contents st n = Some (v, dat) -> st_writable v = true -> served (mem_store V (pkt_addr pkt) d).
Proof using OK Hc Hby Hw Hco Hst Hreq.
  intros Hcmd Hcon Hwr. destruct request_facts as (Hop & Hci & Hn & Hi & Hat & _). pose proof (contents_holds st n Hci Hn) as Hho. rewrite Hcon in Hho.
  pose proof (Hco n (cr_mem _ _ _ Hreq)) as Hcoh. destruct (bc_agree _ _ _ _ Hcoh i v dat) as [Hrd Hag]; [congruence|].
  rewrite <- (cr_sec _ _ _ Hreq) in Hho.
  destruct (atomic_write_hit c Inv Hc P (bus_send c P xc mp e draw (Z.of_nat i)) Hby s st pkt d v dat e Hci Hop Hcmd Hho Hwr) as (st' & pkt' & lat & dat' & E & Ec & Hch & Hpa).
  rewrite (cr_sec _ _ _ Hreq) in Hch.
  destruct (access_done V (mem_store V (pkt_addr pkt) d) s s ms e draw i st st' n (fun o => o) _ [] Hw Hco (cr_mem _ _ _ Hreq) Hst (bus_idle s ms i n Hw Hn) eq_refl (changed_evicts c Inv _ _ _ _ _ Hch))
    as (s2 & ms' & Es & Hi2 & H1 & H2 & H3 & H4); [intros; by apply store_elsewhere| |].
  { intros f' F1 F2. destruct (dirtied v) as [D1 D2]. eapply (coh_own _ n f' ms i _ dat' F1); [|by rewrite D1|done|by eapply patched_agrees].
    intros j Hj. rewrite F2 by done. apply (bc_writer _ _ _ _ Hcoh i j v dat); [by rewrite Hat|done|done]. }
  injection Es as <-. eapply serve; try done. unfold answered. by rewrite Hcmd.
Qed.

(** The request of a miss, and what comes back. *)
Lemma miss_sent present : exists s1 resp lat d1,
  let bus := miss_pkt c pkt present (ev_junk e) in
  bus_send c P xc mp e draw (Z.of_nat i) s bus = Ret (s1, resp, lat) /\ bus_resp c bus resp d1 /\
  bus_done s s1 ms i n (copy_left (pkt_cmd bus)) /\
  (sharedAsserted resp = true <-> pkt_cmd bus = ReadReq /\ exists j, j <> i /\ has_copy (copy_at (sy_caches s) n j) = true) /\
  (memInhibitAsserted resp = true <-> exists j, j <> i /\ dirty_copy (copy_at (sy_caches s) n j) = true) /\
  (pkt_cmd bus <> UpgradeReq -> dirty_copy (copy_at (sy_caches s) n i) = false -> agrees V n d1).
Proof using OK Hc Hby Hw Hco Hst Hreq He.
  destruct request_facts as (Hop & Hci & Hn & Hi & Hat & _). pose proof (miss_pkt_bus c Hc pkt d present (ev_junk e) Hop (proj2 He)) as Hb. rewrite (cr_sec _ _ _ Hreq) in Hb.
  exact (bus_ok V s ms e draw i n _ _ Hw Hco (cr_mem _ _ _ Hreq) Hi Hb eq_refl eq_refl (cr_extra _ _ _ Hreq)).
Qed.

Lemma load_miss : pkt_cmd pkt = ReadReq -> contents st n = None -> served V.
Proof using OK Hc Hby Hw Hco Hst Hreq He.
  intros Hcmd Hcon. destruct request_facts as (Hop & Hci & Hn & Hi & Hat & _). pose proof (contents_holds st n Hci Hn) as Hho. rewrite Hcon in Hho.
  pose proof (Hco n (cr_mem _ _ _ Hreq)) as Hcoh. destruct (miss_sent false) as (s1 & resp & lat & d1 & Es & Hrs & Hbd & Hsh & Hin & Hag).
  assert (Hbc : pkt_cmd (miss_pkt c pkt false (ev_junk e)) = ReadReq) by (unfold miss_pkt, miss_cmd; by rewrite Hcmd). rewrite Hbc in Hbd, Hsh, Hag.
  rewrite <- (cr_sec _ _ _ Hreq) in Hho.
  destruct (atomic_read_miss c Inv Hc P (bus_send c P xc mp e draw (Z.of_nat i)) Hby s s1 st pkt d resp lat d1 e Hci Hop Hcmd (proj1 He) Hho (proj2 He) Es Hrs) as (st' & wbs & Hev & Hdone).
  rewrite (cr_sec _ _ _ Hreq) in Hev. specialize (Hag ltac:(done)). rewrite Hat, Hcon in Hag. specialize (Hag eq_refl).
  assert (Hsec : pkt_isSecure resp = false) by (rewrite (br_sec _ _ _ _ Hrs); cbn; by rewrite (co_sec _ _ _ Hop), (cr_sec _ _ _ Hreq)).
  destruct (fill_rights resp Hsec) as (R1 & R2 & R3).
  assert (Hnoshare : sharedAsserted resp = false -> forall j, j <> i -> copy_at (sy_caches s) n j = None).
  { intros Hf j Hj. destruct (copy_at (sy_caches s) n j) eqn:Ej; [|done]. assert (sharedAsserted resp = true); [|congruence]. apply Hsh. split; [done|]. exists j. by rewrite Ej. }
  destruct (access_done V V s s1 ms e draw i st st' n (copy_left ReadReq) _ wbs Hw Hco (cr_mem _ _ _ Hreq) Hst Hbd eq_refl Hev) as (s2 & ms' & Ew & Hi2 & H1 & H2 & H3 & H4); [done| |].
  { intros f' F1 F2. eapply (coh_share V n (copy_at (sy_caches s) n) f' ms i _ d1 Hcoh); try done; [by rewrite Hat| |].
    - rewrite R3. destruct (sharedAsserted resp) eqn:Ef; [done|]. cbn. destruct (memInhibitAsserted resp) eqn:Em; [|done].
      destruct (proj1 Hin eq_refl) as (j & Hj & Hd). by rewrite (Hnoshare eq_refl j Hj) in Hd.
    - rewrite R2. intros Hwr%negb_true_iff. by apply Hnoshare. }
  destruct (Hdone s2 Ew) as (pkt' & lat' & E & Hld). eapply serve; try done. unfold answered. rewrite Hcmd. by apply (loaded_value V pkt pkt' d d1).
Qed.

Lemma store_miss : pkt_cmd pkt = WriteReq -> contents st n = None -> served (mem_store V (pkt_addr pkt) d).
Proof using OK Hc Hby Hw Hco Hst Hreq He.
  intros Hcmd Hcon. destruct request_facts as (Hop & Hci & Hn & Hi & Hat & _). pose proof (contents_holds st n Hci Hn) as Hho. rewrite Hcon in Hho.
  destruct (miss_sent false) as (s1 & resp & lat & d1 & Es & Hrs & Hbd & Hsh & Hin & Hag).
  assert (Hbc : pkt_cmd (miss_pkt c pkt false (ev_junk e)) = ReadExReq) by (unfold miss_pkt, miss_cmd; by rewrite Hcmd). rewrite Hbc in Hbd, Hsh, Hag.
  assert (Hns : sharedAsserted resp = false) by (destruct (sharedAsserted resp); [by destruct (proj1 Hsh eq_refl)|done]).
  rewrite <- (cr_sec _ _ _ Hreq) in Hho.
  destruct (atomic_write_miss c Inv Hc P (bus_send c P xc mp e draw (Z.of_nat i)) Hby s s1 st pkt d resp lat d1 e Hci Hop Hcmd (proj1 He) Hho (proj2 He) Es Hrs Hns) as (st' & wbs & dat' & Hev & Hpa & Hdone).
  rewrite (cr_sec _ _ _ Hreq) in Hev. specialize (Hag ltac:(done)). rewrite Hat, Hcon in Hag. specialize (Hag eq_refl).
  assert (Hsec : pkt_isSecure resp = false) by (rewrite (br_sec _ _ _ _ Hrs); cbn; by rewrite (co_sec _ _ _ Hop), (cr_sec _ _ _ Hreq)).
  destruct (fill_rights resp Hsec) as (R1 & _). destruct (dirtied (fill_status resp)) as [D1 D2].
  destruct (access_done V (mem_store V (pkt_addr pkt) d) s s1 ms e draw i st st' n (copy_left ReadExReq) _ wbs Hw Hco (cr_mem _ _ _ Hreq) Hst Hbd eq_refl Hev) as (s2 & ms' & Ew & Hi2 & H1 & H2 & H3 & H4);
    [intros; by apply store_elsewhere| |].
  { intros f' F1 F2. eapply (coh_own _ n f' ms i _ dat' F1); [|by rewrite D1|done|by eapply patched_agrees].
    intros j Hj. rewrite F2 by done. by destruct (copy_at (sy_caches s) n j) as [[v0 d0]|]. }
  destruct (Hdone s2 Ew) as (pkt' & lat' & E & Hc'). eapply serve; try done. unfold answered. by rewrite Hcmd.
Qed.

Lemma store_shared v dat : pkt_cmd pkt = WriteReq -> contents st n = Some (v, dat) -> st_writable v = false -> served (mem_store V (pkt_addr pkt) d).
Proof using OK Hc Hby Hw Hco Hst Hreq He.
  intros Hcmd Hcon Hnw. destruct request_facts as (Hop & Hci & Hn & Hi & Hat & _). pose proof (contents_holds st n Hci Hn) as Hho. rewrite Hcon in Hho.
  pose proof (Hco n (cr_mem _ _ _ Hreq)) as Hcoh. destruct (bc_agree _ _ _ _ Hcoh i v dat) as [_ Hag]; [congruence|].
  destruct (miss_sent true) as (s1 & resp & lat & d1 & Es & Hrs & Hbd & Hsh & _ & _). change (pkt_cmd (miss_pkt c pkt true (ev_junk e))) with UpgradeReq in Hbd, Hsh.
  assert (Hns : sharedAsserted resp = false) by (destruct (sharedAsserted resp); [by destruct (proj1 Hsh eq_refl)|done]).
  rewrite <- (cr_sec _ _ _ Hreq) in Hho.
  destruct (atomic_upgrade c Inv Hc P (bus_send c P xc mp e draw (Z.of_nat i)) Hby s s1 st pkt d v dat resp lat d1 e Hci Hop Hcmd Hho Hnw (proj2 He) Es Hrs Hns) as (st' & pkt' & dat' & lat' & E & Hc' & Hch & Hpa).
  rewrite (cr_sec _ _ _ Hreq) in Hch. destruct (refill_rights resp v Hns) as [_ R1]. destruct (dirtied (refill resp v)) as [D1 D2].
  destruct (access_done V (mem_store V (pkt_addr pkt) d) s s1 ms e draw i st st' n (copy_left UpgradeReq) _ [] Hw Hco (cr_mem _ _ _ Hreq) Hst Hbd eq_refl (changed_evicts c Inv _ _ _ _ _ Hch)) as (s2 & ms' & Ew & Hi2 & H1 & H2 & H3 & H4);
    [intros; by apply store_elsewhere| |].
  { intros f' F1 F2. eapply (coh_own _ n f' ms i _ dat' F1); [|by rewrite D1|done|by eapply patched_agrees].
    intros j Hj. rewrite F2 by done. by destruct (copy_at (sy_caches s) n j) as [[v0 d0]|]. }
  injection Ew as <-. eapply serve; try done. unfold answered. by rewrite Hcmd.
Qed.

(** Every load and store is served. *)
Lemma request_served : served (after_req V pkt d).
Proof using OK Hc Hby Hw Hco Hst Hreq He.
  unfold after_req. destruct (co_cmd _ _ _ (cr_op _ _ _ Hreq)) as [Hcmd|Hcmd]; rewrite Hcmd.
  - destruct (contents st n) as [[v dat]|] eqn:E; [by apply (load_hit v dat)|by apply load_miss].
  - destruct (contents st n) as [[v dat]|] eqn:E; [|by apply store_miss]. destruct (st_writable v) eqn:Ew; [by apply (store_owned v dat)|by apply (store_shared v dat)].
Qed.
End request.

(** ** Sequences of requests *)

Record CpuOp := mkCpuOp { op_cpu : nat; op_pkt : Packet; op_env : Env; op_draw : Z }.
Definition op_data (o : CpuOp) : list Z := default [] (pkt_data (op_pkt o)).

Record op_ok (N : nat) (r : AddrRange) (o : CpuOp) : Prop := {
  oo_cpu : (op_cpu o < N)%nat;
  oo_req : cpu_req r (op_pkt o) (op_data o);
  oo_env : env_ok (op_env o)
}.

Fixpoint cpu_run (s : CoherentSys S) (ops : list CpuOp) : res (CoherentSys S * list Packet) :=
  match ops with
  | [] => Ret (s, [])
  | o :: ops =>
      '(s, p, _) ← cpu_access c P xc mp (op_cpu o) s (op_pkt o) (op_env o) (op_draw o);
      '(s, ps) ← cpu_run s ops;
      Ret (s, p :: ps)
  end.

(** What a processor sees of an answer. *)
Definition observe (p : Packet) : Command * option (list Z) := (pkt_cmd p, if bool_decide (pkt_cmd p = ReadResp) then pkt_data p else None).

(** The same requests to a single memory. *)
Fixpoint memory_run (V : Z -> Z) (ops : list CpuOp) : (Z -> Z) * list (Command * option (list Z)) :=
  match ops with
  | [] => (V, [])
  | o :: ops =>
      let pkt := op_pkt o in
      if bool_decide (pkt_cmd pkt = WriteReq) then
        let '(V', l) := memory_run (mem_store V (pkt_addr pkt) (op_data o)) ops in (V', (WriteResp, None) :: l)
      else
        let '(V', l) := memory_run V ops in (V', (ReadResp, Some (mem_load V (pkt_addr pkt) (pkt_size pkt))) :: l)
  end.

Lemma observed V o p : answered V (op_pkt o) p ->
  memory_run V [o] = (after_req V (op_pkt o) (op_data o), [observe p]).
Proof.
  unfold answered, after_req, observe. cbn [memory_run]. destruct (bool_decide (pkt_cmd (op_pkt o) = WriteReq)).
  - by intros ->.
  - intros [-> ->]. done.
Qed.

Lemma memory_run_cons V o ops : memory_run V (o :: ops) = ((memory_run (memory_run V [o]).1 ops).1, (memory_run V [o]).2 ++ (memory_run (memory_run V [o]).1 ops).2).
Proof. cbn [memory_run]. destruct (bool_decide _); cbn; by destruct (memory_run _ ops). Qed.

(** Caches that hold nothing above a memory present that memory. *)
Lemma empty_presents s ms : bar_ok (length (sy_caches s)) (sy_bar s) (range_of s) -> mem_repr (sm_mem (sy_mem s)) ms ->
  (forall n, in_mem (range_of s) n -> inRange P (n * blkSize c) = true) ->
  (forall j st, sy_caches s !! j = Some st -> cache_inv c Inv st /\ forall p b, blks (cs_base st) !! p = Some b -> isValid b = false) ->
  presents s (sp_byte ms).
Proof using OK Hc.
  intros H1 H2 H3 H4.
  assert (Hno : forall j st sec n v d, sy_caches s !! j = Some st -> num_ok c n -> ~ holds st sec n (Some (v, d))).
  { intros j st sec n v d Hst Hn Hho. destruct (H4 j st Hst) as [Hci Hinv].
    destruct (holds_inv c Inv Hc st sec n v d Hci Hn Hho) as (p & b & _ & Hp & (_ & Hv & _) & _). rewrite (Hinv p b Hp) in Hv. done. }
  assert (Hcopy : forall n j, in_mem (range_of s) n -> copy_at (sy_caches s) n j = None).
  { intros n j Hn. pose proof (in_mem_ok _ _ _ H2 Hn) as Hnok. unfold copy_at. destruct (sy_caches s !! j) as [st|] eqn:E; [|done].
    destruct (contents st n) as [[v d]|] eqn:Ec; [|done]. destruct (Hno j st false n v d E Hnok). rewrite <- Ec. apply contents_holds; [by apply (H4 j)|done]. }
  exists ms. split.
  - split; try done; [by intros j st Hst; apply (H4 j)|]. intros j st sec n v d Hst Hn Hho. by destruct (Hno j st sec n v d Hst Hn).
  - intros n Hn. split.
    + intros j v d E. by rewrite Hcopy in E.
    + intros i j v d E. by rewrite Hcopy in E.
    + intros i j E. by rewrite Hcopy in E.
    + done.
Qed.

(** C1. Caches above a coherent crossbar are one memory.  In a system of any number of
    first-level caches on a coherent crossbar above a memory, in atomic mode, any
    sequence of loads and stores of the processors, hits and misses with their
    snoops, upgrades, evictions and writebacks, runs without a failed assertion;
    every load returns the bytes stored last, whichever processor stored them, as if
    there were a single memory; and at the end every copy of a block agrees with that
    memory, a block that a cache may write is in no other cache, one copy at most is
    dirty, and the memory below is current for the blocks of which none is. *)
Theorem caches_are_one_memory s V ops : presents s V -> Forall (op_ok (length (sy_caches s)) (range_of s)) ops ->
  exists s' answers, cpu_run s ops = Ret (s', answers) /\ observe <$> answers = (memory_run V ops).2 /\
    exists ms, sys_wf s' ms /\ forall n, in_mem (range_of s') n -> blk_coherent (memory_run V ops).1 n (copy_at (sy_caches s') n) ms.
Proof using OK Hc Hby.
  revert s V. induction ops as [|o ops IH]; intros s V Hp Hops; [by exists s, []|].
  apply Forall_cons in Hops as [[Hi Hreq He] Hops]. destruct Hp as (ms & Hw & Hco).
  destruct (lookup_lt_is_Some_2 _ _ Hi) as [st Hst].
  destruct (request_served V s ms (op_cpu o) st (op_pkt o) (op_data o) (op_env o) (op_draw o) Hw Hco Hst Hreq He) as (s1 & p & lat & E & Ha & Hp1 & Hl & Hr).
  destruct (IH s1 _ Hp1) as (s' & ps & E' & Eo & Hfin); [by rewrite Hl, Hr|].
  exists s', (p :: ps). cbn [cpu_run]. rewrite E. bsimpl. rewrite E'. bsimpl. rewrite memory_run_cons, (observed V o p Ha). cbn [fst snd fmap list_fmap app].
  split; [done|]. split; [|done]. f_equal. exact Eo.
Qed.
End coherence.

(** ** Three caches above 256 bytes *)

Definition three_params : CacheParams := mkCacheParams true 2 2 2 false true false [AddrRange_plain 0 255].
Definition three_memory : AbstractMemory := setBackingStore (AbstractMemory_new (AddrRange_plain 0 255)) (replicate 256 0).
Definition three_sys : CoherentSys TagsState :=
  mkCoherentSys [demo_cache; demo_cache; demo_cache] (demo_cx None) (SimpleMemory_new three_memory).

Definition three_env : Env := mkEnv 100 100 0 (replicate 64 9).
Definition three_op (i : nat) (cmd : Command) (d : list Z) : CpuOp := mkCpuOp i (demo_cpu cmd d) three_env 0.

(** Processor 0 stores, 1 loads and stores, 2 and 0 load. *)
Definition three_ops : list CpuOp :=
  [three_op 0 WriteReq [1; 2; 3; 4]; three_op 1 ReadReq [0; 0; 0; 0]; three_op 1 WriteReq [5; 6; 7; 8];
   three_op 2 ReadReq [0; 0; 0; 0]; three_op 0 ReadReq [0; 0; 0; 0]].

Lemma plain_contains a b x : a <= x <= b -> contains (AddrRange_plain a b) x = true.
Proof. intros H. cbn. apply andb_true_iff. rewrite !Z.leb_le. lia. Qed.

Lemma three_bar_ok : bar_ok 3 (demo_cx None) (AddrRange_plain 0 255).
Proof.
  split; try reflexivity.
  - by apply (bool_decide_unpack _).
  - intros d. change (snoopPorts (demo_cx None)) with [0; 1; 2]. rewrite !elem_of_cons, elem_of_nil. lia.
  - apply xbar_reachable_ok, two_devices_reachable.
  - exact two_devices_wf.
  - cbn [_start _end AddrRange_plain]. intros a Ha. split; [|apply two_devices_aligned]. exists 0. unfold route.
    change (portMap (cx_bar (demo_cx None))) with (portMap two_devices_cached).
    change (portMap two_devices_cached) with [(AddrRange_plain 0 255, 0); (AddrRange_plain 256 511, 1)]. cbn [list_find fst]. rewrite decide_True; [done|]. by apply plain_contains.
Qed.

Lemma three_memory_repr : mem_repr three_memory zero_spec.
Proof.
  apply mem_repr_parts. split; [cbn; lia|]. split.
  - eexists. split; [reflexivity|]. split; [reflexivity|]. intros i Hi. cbn [sp_byte zero_spec].
    apply lookup_replicate_2. rewrite length_replicate in Hi. lia.
  - split; [constructor|]. intros c b. cbn. by split; [|intros ?%not_elem_of_nil].
Qed.

Lemma three_presents : presents small_config (tags_wf small_config) three_params three_sys (fun _ => 0).
Proof.
  destruct small_wf as (Hc & _ & _). pose proof (LRU_ok small_config Hc) as OK.
  apply (empty_presents small_config (tags_wf small_config) Hc three_params three_sys zero_spec).
  - exact three_bar_ok.
  - exact three_memory_repr.
  - intros n [H1 H2]. change (0 <= n * 64) in H1. change (n * 64 + 64 <= 256) in H2. unfold inRange, three_params, in_ranges. cbn [addrRanges].
    change (blkSize small_config) with 64. rewrite plain_contains; [done|]. lia.
  - intros j st Hst. assert (st = demo_cache) as ->. { apply list_elem_of_lookup_2 in Hst. cbn [sy_caches three_sys] in Hst. rewrite !elem_of_cons, elem_of_nil in Hst. tauto. }
    split; [exact demo_cache_inv|]. intros p b Hp. revert p b Hp. intros p b. apply (Forall_lookup_1 (fun b => isValid b = false)). apply (bool_decide_unpack _). vm_compute. exact Logic.I.
Qed.

Lemma three_ops_ok : Forall (op_ok small_config 3 (AddrRange_plain 0 255)) three_ops.
Proof.
  repeat (apply Forall_cons; split); [..|apply Forall_nil_2].
  all: split; [cbn; lia| |by split; [unfold draw_ok; cbn; lia|]].
  all: split; [|reflexivity|unfold in_mem; vm_compute; split; discriminate|unfold inword; cbn; lia].
  all: split; try reflexivity; [by apply demo_cpu_pkt|first [by left|by right]].
Qed.

Lemma caches_are_one_memory_witness :
  exists s' answers, cpu_run small_config three_params demo_conf (mkSimpleMemoryParams 30 0) three_sys three_ops = Ret (s', answers) /\
    observe <$> answers = [(WriteResp, None); (ReadResp, Some [1; 2; 3; 4]); (WriteResp, None); (ReadResp, Some [5; 6; 7; 8]); (ReadResp, Some [5; 6; 7; 8])].
Proof.
  destruct small_wf as (Hc & _ & _). pose proof (LRU_ok small_config Hc) as OK.
  destruct (caches_are_one_memory small_config (tags_wf small_config) Hc three_params demo_conf (mkSimpleMemoryParams 30 0) eq_refl three_sys (fun _ => 0) three_ops three_presents three_ops_ok)
    as (s' & answers & E & Eo & _). exists s', answers. split; [exact E|]. rewrite Eo. vm_compute. reflexivity.
Defined.
