(* ===== verification/FaLru.v ===== *)
(** * Fully associative LRU tags: [mem/cache/tags/fa_lru.hh], [fa_lru.cc]

    All blocks are on one doubly linked list in order of use.  The store also
    keeps, for every cache size from 128 KB up to half its own in powers of two,
    a pointer to the last block that a cache of that size would still hold, and
    in each block the mask of the sizes that would hold it; so one run counts the
    hits of all sizes.  Blocks are referred to by their index in the array [blks];
    the hash table of tags is a finite map. *)

From stdpp Require Import gmap.
From S2P Require Import Prelude IntMath Packet CacheBlk.
Local Open Scope Z_scope.

Record FALRUBlk := mkFALRUBlk {
  fb_blk : CacheBlk;
  fb_prev : option nat;
  fb_next : option nat;
  fb_isTouched : bool;
  inCache : Z
}.

Definition fb_with_prev (b : FALRUBlk) (x : option nat) : FALRUBlk :=
  mkFALRUBlk (fb_blk b) x (fb_next b) (fb_isTouched b) (inCache b).
Definition fb_with_next (b : FALRUBlk) (x : option nat) : FALRUBlk :=
  mkFALRUBlk (fb_blk b) (fb_prev b) x (fb_isTouched b) (inCache b).
Definition fb_with_inCache (b : FALRUBlk) (x : Z) : FALRUBlk :=
  mkFALRUBlk (fb_blk b) (fb_prev b) (fb_next b) (fb_isTouched b) x.
Definition fb_touch (b : FALRUBlk) : FALRUBlk :=
  mkFALRUBlk (fb_blk b) (fb_prev b) (fb_next b) true (inCache b).
Definition fb_with_blk (b : FALRUBlk) (x : CacheBlk) : FALRUBlk :=
  mkFALRUBlk x (fb_prev b) (fb_next b) (fb_isTouched b) (inCache b).

Record FALRU := mkFALRU {
  fa_blkSize : Z;
  fa_accessLatency : Z;
  cacheBoundaries : list (option nat);
  cacheMask : Z;
  numCaches : nat;
  numBlocks : nat;
  fa_blks : list FALRUBlk;
  fa_head : nat;
  fa_tail : option nat;
  tagHash : gmap Z nat;
  fa_tagsInUse : Z;
  fa_replacements : Z;
  fa_warmedUp : bool;
  fa_warmupBound : Z;
  fa_warmupCycle : Z;
  fa_hits : list Z;
  fa_misses : list Z;
  fa_accesses : Z
}.

(** The linked list and the boundaries. *)
Definition with_chain (f : FALRU) (bs : list FALRUBlk) (bd : list (option nat)) (h : nat) (t : option nat) : FALRU :=
  mkFALRU (fa_blkSize f) (fa_accessLatency f) bd (cacheMask f) (numCaches f) (numBlocks f) bs h t (tagHash f)
    (fa_tagsInUse f) (fa_replacements f) (fa_warmedUp f) (fa_warmupBound f) (fa_warmupCycle f) (fa_hits f)
    (fa_misses f) (fa_accesses f).
Definition with_fa_blks (f : FALRU) (bs : list FALRUBlk) : FALRU :=
  with_chain f bs (cacheBoundaries f) (fa_head f) (fa_tail f).
Definition with_tagHash (f : FALRU) (h : gmap Z nat) : FALRU :=
  mkFALRU (fa_blkSize f) (fa_accessLatency f) (cacheBoundaries f) (cacheMask f) (numCaches f) (numBlocks f)
    (fa_blks f) (fa_head f) (fa_tail f) h (fa_tagsInUse f) (fa_replacements f) (fa_warmedUp f) (fa_warmupBound f)
    (fa_warmupCycle f) (fa_hits f) (fa_misses f) (fa_accesses f).
Definition with_fa_usage (f : FALRU) (inUse repl : Z) (warm : bool) (cycle : Z) : FALRU :=
  mkFALRU (fa_blkSize f) (fa_accessLatency f) (cacheBoundaries f) (cacheMask f) (numCaches f) (numBlocks f)
    (fa_blks f) (fa_head f) (fa_tail f) (tagHash f) inUse repl warm (fa_warmupBound f) cycle (fa_hits f)
    (fa_misses f) (fa_accesses f).
Definition with_fa_counts (f : FALRU) (h m : list Z) (a : Z) : FALRU :=
  mkFALRU (fa_blkSize f) (fa_accessLatency f) (cacheBoundaries f) (cacheMask f) (numCaches f) (numBlocks f)
    (fa_blks f) (fa_head f) (fa_tail f) (tagHash f) (fa_tagsInUse f) (fa_replacements f) (fa_warmedUp f)
    (fa_warmupBound f) (fa_warmupCycle f) h m a.

(** [p->field = ...]: a null pointer or a pointer outside the array is out of
    bounds. *)
Definition deref (p : option nat) : res nat :=
  match p with
  | Some p => Ret p
  | None => Err OutOfBounds
  end.

Definition upd_blk (bs : list FALRUBlk) (p : nat) (g : FALRUBlk -> FALRUBlk) : res (list FALRUBlk) :=
  b ← vread bs p;
  vwrite bs p (g b).

(** ** Construction *)

(** The loop that links the blocks [i], [i+1], ..., [n] of them: [index], [j],
    [flags] and the boundaries. *)
Fixpoint link_loop (n i : nat) (index : Z) (j : nat) (flags : Z) (bs : list FALRUBlk) (bd : list (option nat))
    : res (list FALRUBlk * list (option nat) * Z * nat) :=
  match n with
  | O => Ret (bs, bd, index, j)
  | S n =>
      bs ← upd_blk bs i (fun b => fb_with_inCache b flags);
      '(bd, flags, j, index) ←
        (if Z.of_nat i =? u32 (index - 1) then
           bd ← vwrite bd j (Some i);
           Ret (bd, Z.land flags (Z.lnot (Z.shiftl 1 (Z.of_nat j))), S j, u32 (Z.shiftl index 1))
         else Ret (bd, flags, j, index));
      bs ← upd_blk bs i (fun b => mkFALRUBlk (fb_blk b) (Some (i - 1)%nat) (Some (S i)) false (inCache b));
      link_loop n (S i) index j flags bs bd
  end.

(** [FALRU(p)]; [uninit] is the uninitialised field of the blocks.  A cache smaller
    than 128 KB makes the number of smaller caches wrap around: the allocation of
    the boundaries is then out of the model. *)
Definition FALRU_new (size blkSize accessLatency uninit : Z) : res FALRU :=
  _ ← (if isPowerOf2 32 blkSize then Ret tt else Err Fatal);
  _ ← (if isPowerOf2 32 size then Ret tt else Err Fatal);
  l ← floorLog2_u32 size;
  _ ← (if 17 <=? l then Ret tt else Err OutOfBounds);
  let numCaches := Z.to_nat (l - 17) in
  let mask := Z.shiftl 1 (Z.of_nat numCaches) - 1 in
  let n := Z.to_nat (size / blkSize) in
  let b0 := mkFALRUBlk (CacheBlk_new uninit) None None false 0 in
  let bs := replicate n b0 in
  bs ← upd_blk bs 0 (fun b => mkFALRUBlk (fb_blk b) None (Some 1%nat) (fb_isTouched b) mask);
  bs ← upd_blk bs (n - 1) (fun b => mkFALRUBlk (fb_blk b) (Some (n - 2)%nat) None (fb_isTouched b) 0);
  '(bs, bd, index, j) ← link_loop (n - 2) 1 (2 ^ 17 / blkSize) 0 mask bs (replicate numCaches None);
  _ ← cassert (bool_decide (j = numCaches));
  _ ← cassert (index =? Z.of_nat n);
  Ret (mkFALRU blkSize accessLatency bd mask numCaches n bs 0 (Some (n - 1)%nat) ∅ 0 0 false (size / blkSize) 0
         (replicate (S numCaches) 0) (replicate (S numCaches) 0) 0).

(** ** The linked list *)

(** The loop of [moveToHead] over the boundaries, from [i] on, [n] of them. *)
Fixpoint move_boundaries (n i : nat) (updateMask : Z) (blk : nat) (bs : list FALRUBlk) (bd : list (option nat))
    : res (list FALRUBlk * list (option nat)) :=
  match n with
  | O => Ret (bs, bd)
  | S n =>
      c ← vread bd i;
      '(bs, bd) ←
        (if negb (Z.land (Z.shiftl 1 (Z.of_nat i)) updateMask =? 0) then
           c ← deref c;
           bs ← upd_blk bs c (fun b => fb_with_inCache b (Z.land (inCache b) (Z.lnot (Z.shiftl 1 (Z.of_nat i)))));
           b ← vread bs c;
           bd ← vwrite bd i (fb_prev b);
           Ret (bs, bd)
         else if bool_decide (c = Some blk) then
           b ← vread bs blk;
           bd ← vwrite bd i (fb_prev b);
           Ret (bs, bd)
         else Ret (bs, bd));
      move_boundaries n (S i) updateMask blk bs bd
  end.

(** Taking [blk] out of its place, and putting it in front. *)
Definition unlink (bs : list FALRUBlk) (t : option nat) (blk : nat) : res (list FALRUBlk * option nat) :=
  b ← vread bs blk;
  if bool_decide (t = Some blk) then
    _ ← cassert (bool_decide (fb_next b = None));
    p ← deref (fb_prev b);
    bs ← upd_blk bs p (fun b => fb_with_next b None);
    Ret (bs, Some p)
  else
    p ← deref (fb_prev b);
    bs ← upd_blk bs p (fun x => fb_with_next x (fb_next b));
    b ← vread bs blk;
    n ← deref (fb_next b);
    bs ← upd_blk bs n (fun x => fb_with_prev x (fb_prev b));
    Ret (bs, t).

Definition link_front (bs : list FALRUBlk) (h blk : nat) : res (list FALRUBlk) :=
  bs ← upd_blk bs blk (fun b => fb_with_next b (Some h));
  bs ← upd_blk bs blk (fun b => fb_with_prev b None);
  upd_blk bs h (fun b => fb_with_prev b (Some blk)).

Definition fa_moveToHead (f : FALRU) (blk : nat) : res FALRU :=
  b ← vread (fa_blks f) blk;
  let updateMask := Z.lxor (inCache b) (cacheMask f) in
  '(bs, bd) ← move_boundaries (numCaches f) 0 updateMask blk (fa_blks f) (cacheBoundaries f);
  bs ← upd_blk bs blk (fun b => fb_with_inCache b (cacheMask f));
  if bool_decide (blk = fa_head f) then Ret (with_chain f bs bd (fa_head f) (fa_tail f))
  else
    '(bs, t) ← unlink bs (fa_tail f) blk;
    bs ← link_front bs (fa_head f) blk;
    Ret (with_chain f bs bd blk t).

(** ** Operations *)

Definition fa_blkAlign (f : FALRU) (addr : Z) : Z := Z.land addr (wnot 64 (u64 (fa_blkSize f - 1))).

Definition hashLookup (f : FALRU) (addr : Z) : option nat := tagHash f !! addr.

Definition fa_invalidate (f : FALRU) : FALRU :=
  with_fa_usage f (fa_tagsInUse f - 1) (fa_replacements f) (fa_warmedUp f) (fa_warmupCycle f).

(** Counters of a hit, by cache size, and of a miss. *)
Fixpoint count_sizes (n i : nat) (mask : Z) (h m : list Z) : res (list Z * list Z) :=
  match n with
  | O => Ret (h, m)
  | S n =>
      '(h, m) ← (if negb (Z.land (Z.shiftl 1 (Z.of_nat i)) mask =? 0)
                 then x ← vread h i; h ← vwrite h i (x + 1); Ret (h, m)
                 else x ← vread m i; m ← vwrite m i (x + 1); Ret (h, m));
      count_sizes n (S i) mask h m
  end.

Fixpoint count_misses (n i : nat) (m : list Z) : res (list Z) :=
  match n with
  | O => Ret m
  | S n => x ← vread m i; m ← vwrite m i (x + 1); count_misses n (S i) m
  end.

(** The valid block found by the hash table, whose tag must match. *)
Definition find_valid (f : FALRU) (blkAddr : Z) : res (option nat) :=
  match hashLookup f blkAddr with
  | None => Ret None
  | Some p =>
      b ← vread (fa_blks f) p;
      if isValid (fb_blk b) then _ ← cassert (tag (fb_blk b) =? blkAddr); Ret (Some p)
      else Ret None
  end.

(** The block, the latency and [*inCache]; the security of the access and the
    source are not looked at. *)
Definition fa_accessBlock (f : FALRU) (addr : Z) : res (option nat * Z * Z * FALRU) :=
  let f := with_fa_counts f (fa_hits f) (fa_misses f) (fa_accesses f + 1) in
  blk ← find_valid f (fa_blkAlign f addr);
  match blk with
  | Some p =>
      b ← vread (fa_blks f) p;
      '(h, m) ← count_sizes (numCaches f) 0 (inCache b) (fa_hits f) (fa_misses f);
      x ← vread h (numCaches f);
      h ← vwrite h (numCaches f) (x + 1);
      let f := with_fa_counts f h m (fa_accesses f) in
      f ← (if bool_decide (p = fa_head f) then Ret f else fa_moveToHead f p);
      Ret (Some p, fa_accessLatency f, inCache b, f)
  | None =>
      m ← count_misses (S (numCaches f)) 0 (fa_misses f);
      Ret (None, fa_accessLatency f, 0, with_fa_counts f (fa_hits f) m (fa_accesses f))
  end.

Definition fa_findBlock (f : FALRU) (addr : Z) : res (option nat) := find_valid f (fa_blkAlign f addr).

Definition fa_findVictim (f : FALRU) (addr curTick : Z) : res (nat * FALRU) :=
  blk ← deref (fa_tail f);
  b ← vread (fa_blks f) blk;
  _ ← cassert (inCache b =? 0);
  f ← fa_moveToHead f blk;
  b ← vread (fa_blks f) blk;
  let f := with_tagHash f (<[fa_blkAlign f addr := blk]> (delete (tag (fb_blk b)) (tagHash f))) in
  if isValid (fb_blk b) then
    Ret (blk, with_fa_usage f (fa_tagsInUse f) (fa_replacements f + 1) (fa_warmedUp f) (fa_warmupCycle f))
  else
    bs ← upd_blk (fa_blks f) blk fb_touch;
    let f := with_fa_blks f bs in
    let inUse := fa_tagsInUse f + 1 in
    if negb (fa_warmedUp f) && (fa_warmupBound f <=? inUse)
    then Ret (blk, with_fa_usage f inUse (fa_replacements f) true curTick)
    else Ret (blk, with_fa_usage f inUse (fa_replacements f) (fa_warmedUp f) (fa_warmupCycle f)).

Definition fa_insertBlock (f : FALRU) (pkt : Packet) (blk : nat) : FALRU := f.

(** [check()]: the loop follows the list; [n] bounds it.  The sums are [int]s. *)
Fixpoint check_loop (n : nat) (f : FALRU) (blk : option nat) (tot_size boundary : Z) (j : nat) (flags : Z) : res bool :=
  match blk with
  | None => Ret true
  | Some p =>
      match n with
      | O => Err OutOfFuel
      | S n =>
          b ← vread (fa_blks f) p;
          let tot_size := s32 (tot_size + fa_blkSize f) in
          if negb (inCache b =? flags) then Ret false
          else if (tot_size =? boundary) && negb (bool_decide (fa_tail f = Some p)) then
            c ← vread (cacheBoundaries f) j;
            if negb (bool_decide (c = Some p)) then Ret false
            else check_loop n f (fb_next b) tot_size (s32 (Z.shiftl boundary 1)) (S j)
                   (Z.land flags (Z.lnot (Z.shiftl 1 (Z.of_nat j))))
          else check_loop n f (fb_next b) tot_size boundary j flags
      end
  end.

Definition fa_check (f : FALRU) : res bool :=
  check_loop (numBlocks f) f (Some (fa_head f)) 0 (2 ^ 17) 0 (cacheMask f).

Definition fa_clearLocks (f : FALRU) : FALRU :=
  with_fa_blks f ((fun b => fb_with_blk b (clearLoadLocks (fb_blk b) None)) <$> fa_blks f).

(** ** The order of use *)

Section chain.
(** [bound j] is the number of blocks of the [j]-th smaller cache. *)
Context (nc n : nat) (bound : nat -> nat).
Hypothesis bound_ok : forall j, (j < nc)%nat -> (2 <= bound j < n)%nat.

Definition pred_of (l : list nat) (k : nat) : option nat :=
  match k with
  | O => None
  | S k => l !! k
  end.

(** The sizes that hold a block, given which they are. *)
Definition bits_are (x : Z) (P : nat -> bool) : Prop :=
  forall j, 0 <= j -> Z.testbit x j = (j <? Z.of_nat nc) && P (Z.to_nat j).

Lemma bits_are_inj x y P : bits_are x P -> bits_are y P -> x = y.
Proof. intros Hx Hy. apply Z.bits_inj'. intros j Hj. by rewrite Hx, Hy. Qed.

Lemma bits_are_ext x P Q : (forall j, (j < nc)%nat -> P j = Q j) -> bits_are x P -> bits_are x Q.
Proof.
  intros E Hx j Hj. rewrite Hx by done. destruct (Z.ltb_spec j (Z.of_nat nc)); [|done]. cbn. apply E. lia.
Qed.

Definition fits (k j : nat) : bool := (k <? bound j)%nat.

(** The heap [bs] links the blocks of [l]; the mask of the block at position [k]
    is [P k]. *)
Record links (l : list nat) (bs : list FALRUBlk) (P : nat -> nat -> bool) : Prop := {
  lk_perm : l ≡ₚ seq 0 n;
  lk_length : length bs = n;
  lk_blk : forall k x, l !! k = Some x -> exists b, bs !! x = Some b /\
    fb_prev b = pred_of l k /\ fb_next b = l !! S k /\ bits_are (inCache b) (P k)
}.

Definition boundaries (l : list nat) (bd : list (option nat)) : Prop :=
  length bd = nc /\ forall j, (j < nc)%nat -> bd !! j = Some (l !! (bound j - 1)%nat).

(** The store in order [l]: [l] starts with the most recently used block. *)
Record chain_ok (f : FALRU) (l : list nat) : Prop := {
  ch_nc : numCaches f = nc;
  ch_n : numBlocks f = n;
  ch_links : links l (fa_blks f) fits;
  ch_head : l !! 0%nat = Some (fa_head f);
  ch_tail : fa_tail f = last l;
  ch_bd : boundaries l (cacheBoundaries f);
  ch_mask : bits_are (cacheMask f) (fun _ => true)
}.

Lemma links_pos l bs P a b x : links l bs P -> l !! a = Some x -> l !! b = Some x -> a = b.
Proof. intros [Hp _ _] Ha Hb. eapply NoDup_lookup; [|done|done]. rewrite Hp. apply NoDup_seq. Qed.

Lemma links_size l bs P : links l bs P -> length l = n.
Proof. intros [Hp _ _]. by rewrite Hp, length_seq. Qed.

Lemma links_total l bs P x b : links l bs P -> bs !! x = Some b -> exists k, l !! k = Some x.
Proof.
  intros [Hp Hl _] Hx. apply list_elem_of_lookup. rewrite Hp. apply elem_of_seq. apply lookup_lt_Some in Hx. lia.
Qed.

(** *** One write *)

Lemma upd_blk_ok bs p b g : bs !! p = Some b -> upd_blk bs p g = Ret (<[p:=g b]> bs).
Proof.
  intros Hb. unfold upd_blk. rewrite (vread_some _ _ _ Hb). bsimpl. apply vwrite_lt. by eapply lookup_lt_Some.
Qed.

Lemma upd_lookup (bs : list FALRUBlk) p b c x :
  bs !! p = Some b -> <[p:=c]> bs !! x = if decide (x = p) then Some c else bs !! x.
Proof.
  intros Hp. case_decide as E.
  - subst. apply list_lookup_insert_eq. by eapply lookup_lt_Some.
  - by apply list_lookup_insert_ne.
Qed.

Definition same_blks (bs bs' : list FALRUBlk) : Prop :=
  forall x, fb_blk <$> bs' !! x = fb_blk <$> bs !! x.

Lemma same_blks_upd bs p b g : bs !! p = Some b -> fb_blk (g b) = fb_blk b -> same_blks bs (<[p:=g b]> bs).
Proof.
  intros Hb Hg x. rewrite (upd_lookup _ _ _ _ _ Hb). case_decide as E; [|done]. subst. rewrite Hb. cbn. by rewrite Hg.
Qed.

Lemma same_blks_trans bs1 bs2 bs3 : same_blks bs1 bs2 -> same_blks bs2 bs3 -> same_blks bs1 bs3.
Proof. intros H1 H2 x. by rewrite H2, H1. Qed.

(** *** The boundaries *)

Lemma bit_set i x P : (i < nc)%nat -> bits_are x P -> negb (Z.land (Z.shiftl 1 (Z.of_nat i)) x =? 0) = P i.
Proof.
  intros Hi Hx. rewrite Z.shiftl_1_l, Z.land_comm.
  assert (E : Z.testbit x (Z.of_nat i) = P i).
  { rewrite Hx by lia. rewrite Nat2Z.id. destruct (Z.ltb_spec (Z.of_nat i) (Z.of_nat nc)); [done|lia]. }
  rewrite <- E. destruct (Z.testbit x (Z.of_nat i)) eqn:Eb.
  - apply negb_true_iff, Z.eqb_neq. intros H0. apply (f_equal (fun y => Z.testbit y (Z.of_nat i))) in H0.
    rewrite Z.land_spec, Eb, Z.pow2_bits_true, Z.bits_0 in H0 by lia. done.
  - apply negb_false_iff, Z.eqb_eq. apply Z.bits_inj'. intros j Hj. rewrite Z.land_spec, Z.bits_0.
    destruct (decide (j = Z.of_nat i)) as [-> | Hne]; [by rewrite Eb|]. rewrite Z.pow2_bits_false by lia.
    apply andb_false_r.
Qed.

Lemma bit_clear i x P :
  bits_are x P -> bits_are (Z.land x (Z.lnot (Z.shiftl 1 (Z.of_nat i)))) (fun j => negb (j =? i)%nat && P j).
Proof.
  intros Hx j Hj. rewrite Z.land_spec, Z.lnot_spec, Z.shiftl_1_l, Hx by done.
  destruct (Nat.eqb_spec (Z.to_nat j) i) as [E | E].
  - replace j with (Z.of_nat i) by lia. rewrite Z.pow2_bits_true by lia. cbn. by rewrite !andb_false_r.
  - rewrite Z.pow2_bits_false by lia. cbn. by rewrite andb_true_r.
Qed.

(** The masks and boundaries when the block at position [k] is moved, after the
    first [i] sizes. *)
Definition moved_fits (k i m j : nat) : bool :=
  if (j <? i)%nat && (bound j <=? k)%nat then fits (S m) j else fits m j.

Definition moved_bound (l : list nat) (k i j : nat) : option nat :=
  if (j <? i)%nat && (bound j <=? S k)%nat then l !! (bound j - 2)%nat else l !! (bound j - 1)%nat.

Lemma moved_fits_step k i m :
  (i < nc)%nat -> forall j,
  moved_fits k (S i) m j =
  if (bound i <=? k)%nat && (m =? bound i - 1)%nat then negb (j =? i)%nat && moved_fits k i m j else moved_fits k i m j.
Proof.
  intros Hi j. pose proof (bound_ok i Hi). unfold moved_fits, fits. destruct (Nat.eqb_spec j i) as [-> | Hne].
  - rewrite (proj2 (Nat.ltb_lt i (S i))), Nat.ltb_irrefl by lia. cbn [andb].
    destruct (Nat.leb_spec (bound i) k), (Nat.eqb_spec m (bound i - 1)); cbn [andb negb]; try done;
      destruct (Nat.ltb_spec (S m) (bound i)), (Nat.ltb_spec m (bound i)); try done; lia.
  - replace (j <? S i)%nat with (j <? i)%nat by (destruct (Nat.ltb_spec j i), (Nat.ltb_spec j (S i)); try done; lia).
    cbn. by destruct (_ && (m =? _)%nat).
Qed.

Definition moved_boundaries (l : list nat) (k i : nat) (bd : list (option nat)) : Prop :=
  length bd = nc /\ forall j, (j < nc)%nat -> bd !! j = Some (moved_bound l k i j).

Lemma links_ext l bs P Q :
  (forall k j, (k < n)%nat -> (j < nc)%nat -> P k j = Q k j) -> links l bs P -> links l bs Q.
Proof.
  intros E Hl. pose proof (links_size _ _ _ Hl) as Hs. destruct Hl as [Hp Hn Hb]. split; [done|done|]. intros k x Hk.
  destruct (Hb k x Hk) as (b & ? & ? & ? & Hbits).
  exists b. split_and!; try done. eapply bits_are_ext; [|exact Hbits]. intros j Hj. apply E; [|done].
  apply lookup_lt_Some in Hk. lia.
Qed.

Lemma moved_boundaries_step l k i bd c :
  (i < nc)%nat -> moved_boundaries l k i bd ->
  (c = moved_bound l k (S i) i) -> moved_boundaries l k (S i) (<[i:=c]> bd).
Proof.
  intros Hi [Hl Hb] ->. split; [by rewrite length_insert|]. intros j Hj. destruct (decide (j = i)) as [-> | Hne].
  - apply list_lookup_insert_eq. lia.
  - rewrite list_lookup_insert_ne by done. rewrite Hb by done. f_equal. unfold moved_bound.
    replace (j <? S i)%nat with (j <? i)%nat; [done|].
    destruct (Nat.ltb_spec j i), (Nat.ltb_spec j (S i)); try done; lia.
Qed.

(** The boundary of a size that does not hold the moved block gives up its last
    block. *)
Lemma cede_block l k i bs x :
  (i < nc)%nat -> (bound i <= k)%nat -> links l bs (moved_fits k i) -> l !! (bound i - 1)%nat = Some x ->
  exists b, bs !! x = Some b /\ fb_prev b = l !! (bound i - 2)%nat /\
    links l (<[x:=fb_with_inCache b (Z.land (inCache b) (Z.lnot (Z.shiftl 1 (Z.of_nat i))))]> bs) (moved_fits k (S i)).
Proof.
  intros Hi Hk Hl Hx. pose proof (bound_ok i Hi) as Hbi.
  destruct (lk_blk _ _ _ Hl _ _ Hx) as (b & Hb & Hpr & Hnx & Hbits).
  exists b. split; [done|]. split.
  { rewrite Hpr. destruct (bound i) as [|[|m]] eqn:E; [lia|lia|]. cbn. do 2 f_equal. lia. }
  pose proof Hl as [Hp Hn Hblk]. split; [done|by rewrite length_insert|]. intros m y Hy.
  rewrite (upd_lookup _ _ _ _ _ Hb). case_decide as E.
  - subst y. assert (m = (bound i - 1)%nat) as -> by (eapply links_pos; eauto).
    eexists. split; [done|]. cbn [fb_with_inCache fb_prev fb_next inCache]. split_and!; [done|done|].
    eapply bits_are_ext; [|by apply bit_clear]. intros j Hj. cbn. rewrite moved_fits_step by done.
    rewrite (proj2 (Nat.leb_le _ _)) by done. by rewrite Nat.eqb_refl.
  - destruct (Hblk m y Hy) as (b' & ? & ? & ? & Hb'). exists b'. split_and!; try done.
    eapply bits_are_ext; [|exact Hb']. intros j Hj. rewrite moved_fits_step by done.
    destruct (Nat.eqb_spec m (bound i - 1)) as [-> | ?]; [|by rewrite andb_false_r]. congruence.
Qed.

Lemma move_boundaries_ok l k p um : forall cnt i bs bd,
  (i + cnt = nc)%nat -> l !! k = Some p -> bits_are um (fun j => negb (fits k j)) ->
  links l bs (moved_fits k i) -> moved_boundaries l k i bd ->
  exists bs' bd', move_boundaries cnt i um p bs bd = Ret (bs', bd') /\
    links l bs' (moved_fits k nc) /\ moved_boundaries l k nc bd' /\ same_blks bs bs'.
Proof.
  induction cnt as [|cnt IH]; intros i bs bd Hi Hk Hum Hl Hb; cbn [move_boundaries].
  { replace i with nc in * by lia. by exists bs, bd. }
  assert (Hlt : (i < nc)%nat) by lia. pose proof (bound_ok i Hlt) as Hbi. pose proof Hb as [Hbl Hbd].
  pose proof (links_size _ _ _ Hl) as Hsz.
  assert (Ec : moved_bound l k i i = l !! (bound i - 1)%nat) by (unfold moved_bound; by rewrite Nat.ltb_irrefl).
  destruct (lookup_lt_is_Some_2 l (bound i - 1)%nat ltac:(lia)) as [x Hx].
  assert (Hc : bd !! i = Some (Some x)) by (by rewrite Hbd, Ec, Hx by done).
  rewrite (vread_some _ _ _ Hc). bsimpl. rewrite (bit_set i um _ Hlt Hum). unfold fits at 1.
  destruct (Nat.ltb_spec k (bound i)) as [Hin | Hout]; cbn [negb].
  - assert (Hl' : links l bs (moved_fits k (S i))).
    { eapply links_ext; [|exact Hl]. intros m j _ _. rewrite moved_fits_step by done.
      rewrite (proj2 (Nat.leb_gt _ _)) by lia. done. }
    case_bool_decide as Ex.
    + injection Ex as ->. assert (k = (bound i - 1)%nat) as Ek by (eapply links_pos; eauto).
      destruct (lk_blk _ _ _ Hl _ _ Hk) as (b & Hbk & Hpr & _ & _). rewrite (vread_some _ _ _ Hbk). bsimpl.
      rewrite vwrite_lt by lia. bsimpl. apply (IH (S i)); [lia|done|done|done|].
      apply moved_boundaries_step; [done|done|]. rewrite Hpr. unfold moved_bound.
      rewrite (proj2 (Nat.ltb_lt _ _)), (proj2 (Nat.leb_le _ _)) by lia. cbn [andb]. rewrite Ek.
      destruct (bound i) as [|[|m]]; [lia|lia|]. cbn. do 2 f_equal. lia.
    + bsimpl. apply (IH (S i)); [lia|done|done|done|]. rewrite <- (list_insert_id bd i (Some x)) by done.
      apply moved_boundaries_step; [done|done|]. unfold moved_bound.
      rewrite (proj2 (Nat.leb_gt _ _)), andb_false_r; [by rewrite Hx|].
      assert (k <> bound i - 1)%nat by (intros ->; congruence). lia.
  - bsimpl. cbn [deref]. bsimpl. destruct (cede_block l k i bs x) as (b & Hbx & Hpr & Hl'); [done..|].
    rewrite (upd_blk_ok _ _ _ _ Hbx). bsimpl.
    rewrite (vread_some _ x _ (list_lookup_insert_eq _ _ _ (lookup_lt_Some _ _ _ Hbx))).
    bsimpl. rewrite vwrite_lt by lia. bsimpl.
    edestruct (IH (S i)) as (bs' & bd' & -> & ? & ? & Hsb); [lia|done|done|exact Hl'| |].
    + apply moved_boundaries_step; [done|exact Hb|]. cbn [fb_prev fb_with_inCache]. rewrite Hpr. unfold moved_bound.
      by rewrite (proj2 (Nat.ltb_lt _ _)), (proj2 (Nat.leb_le _ _)) by lia.
    + exists bs', bd'. split_and!; try done. eapply same_blks_trans; [|exact Hsb].
      apply (same_blks_upd bs x b (fun b => fb_with_inCache b _)); done.
Qed.

(** *** The links *)

Definition to_front (l : list nat) (k p : nat) : list nat := p :: base.delete k l.

Definition newpos (k m : nat) : nat := if (m <? k)%nat then S m else if (m =? k)%nat then O else m.

Lemma to_front_lookup l k p i :
  to_front l k p !! i = match i with O => Some p | S i => if (i <? k)%nat then l !! i else l !! S i end.
Proof.
  destruct i as [|i]; [done|]. unfold to_front. change ((p :: base.delete k l) !! S i) with (base.delete k l !! i).
  destruct (Nat.ltb_spec i k).
  - by apply list_lookup_delete_lt.
  - by apply list_lookup_delete_ge.
Qed.

Lemma pred_new l k p m :
  (0 < k)%nat -> l !! k = Some p ->
  pred_of (to_front l k p) (newpos k m) =
  if decide (m = k) then None else if decide (m = O) then Some p
  else if decide (m = S k) then l !! (k - 1)%nat else pred_of l m.
Proof.
  intros Hk Hp. unfold newpos. destruct (Nat.ltb_spec m k), (Nat.eqb_spec m k); try lia; cbn [pred_of].
  - rewrite to_front_lookup, decide_False by lia. destruct m as [|m]; [done|]. rewrite !decide_False by lia.
    rewrite (proj2 (Nat.ltb_lt _ _)) by lia. done.
  - by rewrite decide_True.
  - rewrite !decide_False by lia. destruct m as [|m]; [lia|]. cbn [pred_of]. rewrite to_front_lookup. case_decide.
    + replace m with k by lia. destruct k as [|k]; [lia|]. rewrite (proj2 (Nat.ltb_lt _ _)) by lia. f_equal. lia.
    + destruct m as [|m]; [lia|]. rewrite (proj2 (Nat.ltb_ge _ _)) by lia. done.
Qed.

Lemma next_new l k p m :
  (0 < k)%nat -> l !! k = Some p ->
  to_front l k p !! S (newpos k m) =
  if decide (m = k) then l !! O else if decide (S m = k) then l !! S k else l !! S m.
Proof.
  intros Hk Hp. rewrite to_front_lookup. unfold newpos. destruct (Nat.ltb_spec m k), (Nat.eqb_spec m k); try lia.
  - rewrite decide_False by lia. case_decide.
    + rewrite (proj2 (Nat.ltb_ge _ _)) by lia. f_equal. lia.
    + by rewrite (proj2 (Nat.ltb_lt _ _)) by lia.
  - rewrite decide_True by done. by rewrite (proj2 (Nat.ltb_lt _ _)) by lia.
  - rewrite !decide_False by lia. by rewrite (proj2 (Nat.ltb_ge _ _)) by lia.
Qed.

Lemma upd_blk_alter bs p g : (p < length bs)%nat -> upd_blk bs p g = Ret (alter g p bs).
Proof.
  intros Hp. destruct (lookup_lt_is_Some_2 bs p Hp) as [b Hb]. rewrite (upd_blk_ok _ _ _ _ Hb).
  by rewrite (alter_as_insert g bs p b).
Qed.

Lemma alter_pos l bs P m x k y (g : FALRUBlk -> FALRUBlk) (bs1 : list FALRUBlk) :
  links l bs P -> l !! m = Some x -> l !! k = Some y ->
  alter g y bs1 !! x = if decide (m = k) then g <$> bs1 !! x else bs1 !! x.
Proof.
  intros Hl Hm Hk. rewrite list_lookup_alter. destruct (decide (m = k)) as [-> | Hne].
  - assert (x = y) as -> by congruence. by rewrite decide_True.
  - rewrite decide_False; [done|]. intros ->. apply Hne. by eapply links_pos.
Qed.

(** What each block becomes. *)
Definition relinked (l : list nat) (k p : nat) (bs bs' : list FALRUBlk) : Prop :=
  length bs' = length bs /\
  forall m x b, l !! m = Some x -> bs !! x = Some b ->
    exists b', bs' !! x = Some b' /\ fb_blk b' = fb_blk b /\ inCache b' = inCache b /\
      fb_prev b' = pred_of (to_front l k p) (newpos k m) /\ fb_next b' = to_front l k p !! S (newpos k m).

Lemma last_to_front l k p :
  l !! k = Some p -> (0 < k)%nat ->
  last (to_front l k p) = if decide (S k = length l) then l !! (k - 1)%nat else last l.
Proof.
  intros Hk H0. pose proof (lookup_lt_Some _ _ _ Hk) as Hlt.
  assert (Hlen : length (to_front l k p) = length l).
  { unfold to_front. cbn. rewrite length_delete by (by eexists). lia. }
  rewrite !last_lookup, Hlen, to_front_lookup. destruct (length l) as [|[|len]] eqn:E; [lia|lia|]. cbn [Init.Nat.pred].
  case_decide.
  - rewrite (proj2 (Nat.ltb_lt _ _)) by lia. f_equal. lia.
  - rewrite (proj2 (Nat.ltb_ge _ _)) by lia. done.
Qed.

Section relink.
Context (l : list nat) (bs : list FALRUBlk) (P : nat -> nat -> bool) (k p h pp : nat).
Hypothesis (Hl : links l bs P) (Hk : l !! k = Some p) (Hk0 : (0 < k)%nat) (Hh : l !! O = Some h).
Hypothesis Hpp : l !! (k - 1)%nat = Some pp.

Lemma in_heap m x : l !! m = Some x -> (x < length bs)%nat.
Proof. intros Hm. destruct (lk_blk _ _ _ Hl _ _ Hm) as (b & Hb & _). by eapply lookup_lt_Some. Qed.

(** The heap after [unlink] and [link_front]. *)
Definition front_writes (bs1 : list FALRUBlk) : list FALRUBlk :=
  alter (fun b => fb_with_prev b (Some p)) h
    (alter (fun b => fb_with_prev b None) p (alter (fun b => fb_with_next b (Some h)) p bs1)).

Lemma link_front_ok bs1 : length bs1 = length bs -> link_front bs1 h p = Ret (front_writes bs1).
Proof.
  intros E. pose proof (in_heap _ _ Hk). pose proof (in_heap _ _ Hh). unfold link_front, front_writes.
  rewrite upd_blk_alter by lia. bsimpl. rewrite upd_blk_alter by (rewrite length_alter; lia). bsimpl.
  by rewrite upd_blk_alter by (rewrite !length_alter; lia).
Qed.

Lemma relinked_tail : S k = length l ->
  relinked l k p bs (front_writes (alter (fun b => fb_with_next b None) pp bs)).
Proof.
  intros Hlast. split; [unfold front_writes; by rewrite !length_alter|]. intros m x b Hm Hb. unfold front_writes.
  rewrite (alter_pos l bs P m x 0 h), !(alter_pos l bs P m x k p), (alter_pos l bs P m x (k - 1) pp), Hb by done.
  rewrite pred_new, next_new by done. destruct (lk_blk _ _ _ Hl _ _ Hm) as (b' & Hb' & Hpr & Hnx & _).
  rewrite Hb in Hb'. injection Hb' as <-. pose proof (lookup_lt_Some _ _ _ Hm) as Hml.
  assert (Hnone : l !! S k = None) by (apply lookup_ge_None; lia).
  rewrite Hnone. rewrite (decide_False (P := m = S k)) by lia.
  destruct (decide (m = k)) as [-> | ?]; [rewrite !decide_False by lia; cbn; eexists; split_and!; try done|].
  destruct (decide (m = (k - 1)%nat)), (decide (S m = k)); try lia;
    destruct (decide (m = 0%nat)); cbn; eexists; split_and!; try done.
Qed.

Lemma relinked_mid nn : l !! S k = Some nn ->
  relinked l k p bs (front_writes (alter (fun b => fb_with_prev b (Some pp)) nn
    (alter (fun b => fb_with_next b (Some nn)) pp bs))).
Proof.
  intros Hnn. split; [unfold front_writes; by rewrite !length_alter|]. intros m x b Hm Hb. unfold front_writes.
  rewrite (alter_pos l bs P m x 0 h), !(alter_pos l bs P m x k p), (alter_pos l bs P m x (S k) nn),
    (alter_pos l bs P m x (k - 1) pp), Hb by done.
  rewrite pred_new, next_new by done. destruct (lk_blk _ _ _ Hl _ _ Hm) as (b' & Hb' & Hpr & Hnx & _).
  rewrite Hb in Hb'. injection Hb' as <-. rewrite Hnn, Hpp.
  destruct (decide (m = k)) as [-> | ?].
  { rewrite (decide_False (P := k = S k)), (decide_False (P := k = (k - 1)%nat)),
    (decide_False (P := k = 0%nat)) by lia.
    cbn. eexists; split_and!; try done. }
  destruct (decide (m = (k - 1)%nat)), (decide (S m = k)); try lia;
    destruct (decide (m = 0%nat)), (decide (m = S k)); try lia; cbn; eexists; split_and!; try done.
Qed.

Lemma relink_ok :
  exists bs1 t bs', unlink bs (last l) p = Ret (bs1, t) /\ link_front bs1 h p = Ret bs' /\
    t = last (to_front l k p) /\ relinked l k p bs bs'.
Proof.
  destruct (lk_blk _ _ _ Hl _ _ Hk) as (b & Hb & Hpr & Hnx & _). pose proof (in_heap _ _ Hpp) as Hppl.
  assert (Epr : fb_prev b = Some pp).
  { rewrite Hpr. destruct k as [|k']; [lia|]. cbn in *. rewrite <- Hpp. f_equal. lia. }
  unfold unlink. rewrite (vread_some _ _ _ Hb). bsimpl. rewrite last_to_front by done. rewrite last_lookup, Epr.
  cbn [deref]. bsimpl. pose proof (lookup_lt_Some _ _ _ Hk) as Hkl.
  destruct (decide (S k = length l)) as [Hlast | Hmid].
  - replace (Init.Nat.pred (length l)) with k by lia. rewrite Hk, bool_decide_true by done.
    rewrite Hnx, (lookup_ge_None_2 l (S k)) by lia. cbn [bool_decide cassert]. rewrite bool_decide_true by done. bsimpl.
    rewrite upd_blk_alter by done. bsimpl. do 3 eexists. split; [done|].
    split; [apply link_front_ok; by rewrite length_alter|]. split; [done|]. by apply relinked_tail.
  - assert (Hnt : l !! Init.Nat.pred (length l) <> Some p).
    { intros E. assert (Init.Nat.pred (length l) = k) by (by eapply links_pos). lia. }
    rewrite bool_decide_false by done. destruct (lookup_lt_is_Some_2 l (S k) ltac:(lia)) as [nn Hnn].
    rewrite upd_blk_alter by done. bsimpl.
    assert (Hb1 : alter (fun x => fb_with_next x (fb_next b)) pp bs !! p = Some b).
    { rewrite (alter_pos l bs P k p (k - 1) pp), decide_False by (done || lia). done. }
    rewrite (vread_some _ _ _ Hb1). bsimpl. rewrite Hnx, Hnn, Epr. cbn [deref]. bsimpl.
    pose proof (in_heap _ _ Hnn). rewrite upd_blk_alter by (rewrite length_alter; done). bsimpl.
    do 3 eexists. split; [done|]. split; [apply link_front_ok; by rewrite !length_alter|]. split; [done|].
    by apply relinked_mid.
Qed.
End relink.

(** *** [moveToHead] *)

Lemma to_front_pos l k p m x :
  l !! k = Some p -> to_front l k p !! m = Some x -> exists m', l !! m' = Some x /\ newpos k m' = m.
Proof.
  intros Hk Hm. rewrite to_front_lookup in Hm. unfold newpos. destruct m as [|m].
  - injection Hm as <-. exists k. rewrite Nat.ltb_irrefl, Nat.eqb_refl. done.
  - destruct (Nat.ltb_spec m k); [exists m|exists (S m)]; (split; [done|]).
    + by rewrite (proj2 (Nat.ltb_lt _ _)).
    + rewrite (proj2 (Nat.ltb_ge _ _)), (proj2 (Nat.eqb_neq _ _)) by lia. done.
Qed.

Lemma to_front_first l p : l !! O = Some p -> to_front l 0 p = l.
Proof. destruct l; [done|]. by intros [= ->]. Qed.

(** The masks after the move are those of the new positions. *)
Definition final_fits (k m j : nat) : bool := if (m =? k)%nat then true else moved_fits k nc m j.

Lemma final_fits_new k m j : (j < nc)%nat -> final_fits k m j = fits (newpos k m) j.
Proof.
  intros Hj. pose proof (bound_ok j Hj). unfold final_fits, moved_fits, newpos, fits.
  rewrite (proj2 (Nat.ltb_lt j nc)) by done. cbn [andb].
  destruct (Nat.eqb_spec m k) as [-> | Hne].
  - rewrite Nat.ltb_irrefl. symmetry. apply Nat.ltb_lt. lia.
  - destruct (Nat.leb_spec (bound j) k), (Nat.ltb_spec m k); try done.
    + destruct (Nat.ltb_spec (S m) (bound j)), (Nat.ltb_spec m (bound j)); try done; lia.
    + destruct (Nat.ltb_spec (S m) (bound j)), (Nat.ltb_spec m (bound j)); try done; lia.
Qed.

Lemma moved_bound_new l k p j :
  (j < nc)%nat -> l !! k = Some p -> moved_bound l k nc j = to_front l k p !! (bound j - 1)%nat.
Proof.
  intros Hj Hk. pose proof (bound_ok j Hj). unfold moved_bound. rewrite (proj2 (Nat.ltb_lt j nc)) by done. cbn [andb].
  rewrite to_front_lookup. destruct (bound j) as [|[|b]] eqn:E; [lia|lia|].
  replace (S (S b) - 1)%nat with (S b) by lia. destruct (Nat.leb_spec (S (S b)) (S k)), (Nat.ltb_spec b k); try lia.
  - f_equal. lia.
  - done.
Qed.

Lemma links_to_front l k p bs bs' :
  links l bs (final_fits k) -> l !! k = Some p -> relinked l k p bs bs' -> links (to_front l k p) bs' fits.
Proof.
  intros Hl Hk [Hlen Hre]. split.
  - unfold to_front. rewrite <- (delete_Permutation l k p Hk). apply (lk_perm _ _ _ Hl).
  - rewrite Hlen. apply (lk_length _ _ _ Hl).
  - intros m x Hx. destruct (to_front_pos l k p m x Hk Hx) as (m' & Hm' & <-).
    destruct (lk_blk _ _ _ Hl _ _ Hm') as (b & Hb & _ & _ & Hbits).
    destruct (Hre m' x b Hm' Hb) as (b' & ? & _ & Ei & ? & ?). exists b'. split_and!; try done.
    rewrite Ei. eapply bits_are_ext; [|exact Hbits]. intros j Hj. by apply final_fits_new.
Qed.

Lemma relinked_blks l k p bs bs' P : links l bs P -> relinked l k p bs bs' -> same_blks bs bs'.
Proof.
  intros Hl [Hlen Hre] x. destruct (bs !! x) as [b|] eqn:Hx.
  - destruct (links_total _ _ _ _ _ Hl Hx) as [m Hm]. destruct (Hre m x b Hm Hx) as (b' & -> & E & _). cbn.
    by rewrite E.
  - apply lookup_ge_None in Hx. by rewrite (lookup_ge_None_2 bs') by lia.
Qed.

Lemma xor_mask x y P : bits_are x P -> bits_are y (fun _ => true) -> bits_are (Z.lxor x y) (fun j => negb (P j)).
Proof. intros Hx Hy j Hj. rewrite Z.lxor_spec, Hx, Hy by done. by destruct (j <? _), (P _). Qed.

Lemma fa_moveToHead_ok f l k p :
  chain_ok f l -> l !! k = Some p ->
  exists bs bd t, fa_moveToHead f p = Ret (with_chain f bs bd p t) /\
    chain_ok (with_chain f bs bd p t) (to_front l k p) /\ same_blks (fa_blks f) bs.
Proof.
  intros [Enc En Hl Hh Ht Hb Hmask] Hk. destruct (lk_blk _ _ _ Hl _ _ Hk) as (b & Hbp & _ & _ & Hbits).
  unfold fa_moveToHead. rewrite (vread_some _ _ _ Hbp). bsimpl. rewrite Enc.
  destruct (move_boundaries_ok l k p (Z.lxor (inCache b) (cacheMask f)) nc 0 (fa_blks f) (cacheBoundaries f))
    as (bs1 & bd1 & -> & Hl1 & [Hbl Hbd] & Hs1); [lia|done|by apply xor_mask| |by destruct Hb|].
  { eapply links_ext; [|exact Hl]. done. }
  bsimpl. destruct (lk_blk _ _ _ Hl1 _ _ Hk) as (b1 & Hb1 & _). rewrite (upd_blk_ok _ _ _ _ Hb1). bsimpl.
  set (bs2 := <[p:=_]> bs1).
  assert (Hs2 : same_blks bs1 bs2) by (by apply (same_blks_upd bs1 p b1 (fun b => fb_with_inCache b (cacheMask f)))).
  assert (Hl2 : links l bs2 (final_fits k)).
  { split; [apply (lk_perm _ _ _ Hl)|unfold bs2; rewrite length_insert; apply (lk_length _ _ _ Hl1)|].
    intros m x Hm. unfold bs2. rewrite (upd_lookup _ _ _ _ _ Hb1).
    destruct (lk_blk _ _ _ Hl1 _ _ Hm) as (bx & Hbx & Hpr & Hnx & Hbt).
    unfold final_fits. case_decide as E.
    - subst x. assert (m = k) as -> by (by eapply links_pos). rewrite Nat.eqb_refl. rewrite Hb1 in Hbx.
      injection Hbx as <-.
      eexists. split; [done|]. done.
    - destruct (Nat.eqb_spec m k) as [-> | ?]; [congruence|]. exists bx. done. }
  assert (Hbd' : boundaries (to_front l k p) bd1).
  { split; [done|]. intros j Hj. rewrite Hbd by done. f_equal. by apply moved_bound_new. }
  destruct (decide (p = fa_head f)) as [-> | Hne].
  - assert (k = 0%nat) as -> by (by eapply links_pos). rewrite bool_decide_true by done.
    do 3 eexists. split; [done|]. split; [|by eapply same_blks_trans]. rewrite to_front_first in Hbd' |- * by done.
    split; cbn; try done. eapply links_ext; [|exact Hl2]. intros m j _ Hj. rewrite final_fits_new by done.
    unfold newpos. destruct m; done.
  - rewrite bool_decide_false by done. assert (0 < k)%nat by (destruct k; [congruence|lia]).
    destruct (lookup_lt_is_Some_2 l (k - 1)%nat) as [pp Hpp]; [apply lookup_lt_Some in Hk; lia|].
    destruct (relink_ok l bs2 _ k p (fa_head f) pp Hl2 Hk) as (bs3 & t & bs4 & Hu & Hf & -> & Hre); [done..|].
    rewrite Ht, Hu. bsimpl. rewrite Hf. bsimpl. do 3 eexists. split; [done|]. split.
    + split; cbn; try done. by eapply links_to_front.
    + eapply same_blks_trans; [exact Hs1|]. eapply same_blks_trans; [exact Hs2|]. by eapply relinked_blks.
Qed.
End chain.

(** ** Construction: the initial order *)

(** The number of blocks of a cache of [128 * 2^j] KB. *)
Definition fa_bound (b j : nat) : nat := (2 ^ (17 - b + j))%nat.

Section construct.
Context (s b : nat).
Hypothesis sizes : (b <= 16)%nat /\ (17 <= s < 32)%nat.

Let nc : nat := (s - 17)%nat.
Let n : nat := (2 ^ (s - b))%nat.
Let bound : nat -> nat := fa_bound b.

Lemma pow2_mono x y : (x <= y)%nat -> (2 ^ x <= 2 ^ y)%nat.
Proof. intros. apply Nat.pow_le_mono_r; lia. Qed.

Lemma fa_bound_S j : bound (S j) = (2 * bound j)%nat.
Proof. unfold bound, fa_bound. rewrite Nat.add_succ_r. cbn [Nat.pow]. lia. Qed.

Lemma fa_bound_le i j : (i <= j)%nat -> (bound i <= bound j)%nat.
Proof. intros. apply pow2_mono. lia. Qed.

Lemma fa_bound_two j : (2 <= bound j)%nat.
Proof. unfold bound, fa_bound. etrans; [|apply (pow2_mono 1)]; [done|lia]. Qed.

Lemma fa_bound_nc : bound nc = n.
Proof. unfold bound, fa_bound, n, nc. f_equal. lia. Qed.

Lemma fa_bound_ok j : (j < nc)%nat -> (2 <= bound j < n)%nat.
Proof.
  intros Hj. split; [apply fa_bound_two|]. rewrite <- fa_bound_nc. pose proof (fa_bound_le (S j) nc ltac:(lia)) as H.
  rewrite fa_bound_S in H. pose proof (fa_bound_two j). lia.
Qed.

(** Blocks [1] to [i - 1] are linked, the boundaries before [j] are set. *)
Record linking (i j : nat) (flags : Z) (bs : list FALRUBlk) (bd : list (option nat)) : Prop := {
  ln_i : (1 <= i)%nat;
  ln_j : (j <= nc)%nat /\ (i < bound j)%nat /\ forall q, (q < j)%nat -> (bound q <= i)%nat;
  ln_flags : bits_are nc flags (fun q => (j <=? q)%nat);
  ln_length : length bs = n;
  ln_first : exists c, bs !! O = Some c /\ fb_prev c = None /\ fb_next c = Some 1%nat /\
    bits_are nc (inCache c) (fun _ => true);
  ln_last : exists c, bs !! (n - 1)%nat = Some c /\ fb_prev c = Some (n - 2)%nat /\ fb_next c = None /\ inCache c = 0;
  ln_done : forall k, (1 <= k < i)%nat -> exists c, bs !! k = Some c /\ fb_prev c = Some (k - 1)%nat /\
    fb_next c = Some (S k) /\ bits_are nc (inCache c) (fits bound k);
  ln_bd : length bd = nc /\ forall q, (q < j)%nat -> bd !! q = Some (Some (bound q - 1)%nat);
  ln_blank : forall k c, bs !! k = Some c -> exists uninit, fb_blk c = CacheBlk_new uninit
}.

Lemma linking_flags i j flags bs bd : linking i j flags bs bd -> bits_are nc flags (fits bound i).
Proof.
  intros H. destruct (ln_j _ _ _ _ _ H) as (Hj & Hi & Hq). eapply bits_are_ext; [|apply (ln_flags _ _ _ _ _ H)].
  intros q Hqn. cbn. unfold fits. destruct (Nat.leb_spec j q).
  - symmetry. apply Nat.ltb_lt. pose proof (fa_bound_le j q). lia.
  - symmetry. apply Nat.ltb_ge. auto.
Qed.

(** Linking block [i]. *)
Lemma linking_block i j flags bs bd c j' flags' bd' :
  linking i j flags bs bd -> (i < n - 1)%nat -> bs !! i = Some c ->
  ((j' <= nc)%nat /\ (S i < bound j')%nat /\ forall q, (q < j')%nat -> (bound q <= S i)%nat) ->
  bits_are nc flags' (fun q => (j' <=? q)%nat) ->
  (length bd' = nc /\ forall q, (q < j')%nat -> bd' !! q = Some (Some (bound q - 1)%nat)) ->
  linking (S i) j' flags' (<[i:=mkFALRUBlk (fb_blk c) (Some (i - 1)%nat) (Some (S i)) false flags]> bs) bd'.
Proof.
  intros H Hi Hc Hj Hfl' Hbd'. pose proof (linking_flags _ _ _ _ _ H) as Hf.
  destruct H as [H1 _ Hfl Hlen Hfirst Hlast Hdone Hbd Hbl]. set (c' := mkFALRUBlk _ _ _ _ _).
  assert (Hlk : forall x, <[i:=c']> bs !! x = if decide (x = i) then Some c' else bs !! x)
    by (intros x; by eapply upd_lookup).
  split; [lia|done|done|by rewrite length_insert|..].
  - rewrite Hlk, decide_False by lia. done.
  - rewrite Hlk, decide_False by lia. done.
  - intros k Hk. rewrite Hlk. case_decide as E; [subst k; by exists c'|]. apply Hdone. lia.
  - done.
  - intros k x. rewrite Hlk. case_decide; [intros [= <-]; cbn; by eapply Hbl|apply Hbl].
Qed.

Lemma bound_word j : (j <= nc)%nat -> 0 < Z.of_nat (bound j) < 2 ^ 32.
Proof.
  intros Hj. pose proof (fa_bound_two j). split; [lia|]. unfold bound, fa_bound. rewrite Nat2Z.inj_pow.
  apply Z.pow_lt_mono_r; unfold nc in Hj; lia.
Qed.

Lemma upd_twice bs i c flags :
  bs !! i = Some c ->
  upd_blk (<[i:=fb_with_inCache c flags]> bs) i
    (fun b => mkFALRUBlk (fb_blk b) (Some (i - 1)%nat) (Some (S i)) false (inCache b))
  = Ret (<[i:=mkFALRUBlk (fb_blk c) (Some (i - 1)%nat) (Some (S i)) false flags]> bs).
Proof.
  intros Hc. rewrite (upd_blk_ok _ i (fb_with_inCache c flags)).
  - cbn. by rewrite list_insert_insert_eq.
  - apply list_lookup_insert_eq. by eapply lookup_lt_Some.
Qed.

Lemma link_loop_ok : forall m i j flags bs bd,
  linking i j flags bs bd -> (i + m = n - 1)%nat ->
  exists bs' bd' flags', link_loop m i (Z.of_nat (bound j)) j flags bs bd = Ret (bs', bd', Z.of_nat n, nc) /\
    linking (n - 1) nc flags' bs' bd'.
Proof.
  induction m as [|m IH]; intros i j flags bs bd H Hi; cbn [link_loop]; destruct (ln_j _ _ _ _ _ H) as (Hj & Hij & Hq).
  - assert (j = nc) as ->.
    { destruct (decide (j = nc)); [done|]. pose proof (fa_bound_ok j ltac:(lia)). lia. }
    rewrite fa_bound_nc. replace (n - 1)%nat with i by lia. by exists bs, bd, flags.
  - destruct (lookup_lt_is_Some_2 bs i) as [c Hc]; [rewrite (ln_length _ _ _ _ _ H); lia|].
    rewrite (upd_blk_ok _ _ _ _ Hc). bsimpl. pose proof (bound_word j Hj) as Hw.
    rewrite wrap_small by (unfold inword; lia). destruct (ln_bd _ _ _ _ _ H) as [Hbl Hbd].
    destruct (Z.eqb_spec (Z.of_nat i) (Z.of_nat (bound j) - 1)) as [E | E].
    + assert (Hjn : (j < nc)%nat).
      { destruct (decide (j = nc)) as [-> | ?]; [|lia]. rewrite fa_bound_nc in E. lia. }
      rewrite vwrite_lt by lia. bsimpl. rewrite upd_twice by done. bsimpl.
      replace (u32 (Z.shiftl (Z.of_nat (bound j)) 1)) with (Z.of_nat (bound (S j))).
      2: { pose proof (bound_word (S j) Hjn) as Hw'. rewrite Z.shiftl_mul_pow2 by lia. rewrite fa_bound_S in *.
           rewrite wrap_small by (unfold inword; lia). lia. }
      apply (IH (S i)); [|lia]. eapply linking_block; [done|lia|done|..].
      * split_and!; [lia| |].
        -- rewrite fa_bound_S. pose proof (fa_bound_two j). lia.
        -- intros q Hqj. destruct (decide (q = j)) as [-> | ?]; [lia|]. pose proof (Hq q ltac:(lia)). lia.
      * eapply bits_are_ext; [|by apply bit_clear, (ln_flags _ _ _ _ _ H)]. intros q Hqn. cbn beta.
        destruct (Nat.eqb_spec q j), (Nat.leb_spec j q), (Nat.leb_spec (S j) q); try done; lia.
      * split; [by rewrite length_insert|]. intros q Hqj. destruct (decide (q = j)) as [-> | ?].
        -- rewrite list_lookup_insert_eq by lia. do 2 f_equal. lia.
        -- rewrite list_lookup_insert_ne by done. apply Hbd. lia.
    + bsimpl. rewrite upd_twice by done. bsimpl. apply (IH (S i)); [|lia].
      eapply linking_block; [done|lia|done| |apply (ln_flags _ _ _ _ _ H)|done].
      split_and!; [done|lia|]. intros q Hqj. pose proof (Hq q Hqj). lia.
Qed.

Lemma linking_links flags bs bd : linking (n - 1) nc flags bs bd -> links nc n (seq 0 n) bs (fits bound).
Proof.
  intros H. assert (Hn : (2 <= n)%nat) by (rewrite <- fa_bound_nc; apply fa_bound_two).
  split; [done|apply (ln_length _ _ _ _ _ H)|]. intros k x Hk. apply lookup_seq in Hk as [-> Hk]. cbn [Nat.add].
  destruct (decide (k = 0%nat)) as [-> | Hk0]; [|destruct (decide (k = (n - 1)%nat)) as [-> | Hkn]].
  - destruct (ln_first _ _ _ _ _ H) as (c & Hc & Hp & Hx & Hb). exists c. split_and!; [done|done| |].
    + rewrite Hx, lookup_seq_lt by lia. done.
    + eapply bits_are_ext; [|exact Hb]. intros j Hj. symmetry. apply Nat.ltb_lt. pose proof (fa_bound_two j). lia.
  - destruct (ln_last _ _ _ _ _ H) as (c & Hc & Hp & Hx & Hb). exists c. split_and!; [done|..].
    + rewrite Hp. replace (n - 1)%nat with (S (n - 2)) by lia. cbn [pred_of]. by rewrite lookup_seq_lt by lia.
    + rewrite Hx. symmetry. apply lookup_ge_None_2. rewrite length_seq. lia.
    + rewrite Hb. intros j Hj. rewrite Z.bits_0. symmetry. destruct (Z.ltb_spec j (Z.of_nat nc)); [|done]. cbn.
      apply Nat.ltb_ge. pose proof (fa_bound_ok (Z.to_nat j) ltac:(lia)). lia.
  - destruct (ln_done _ _ _ _ _ H k) as (c & Hc & Hp & Hx & Hb); [lia|]. exists c. split_and!; [done| | |done].
    + rewrite Hp. destruct k; [lia|]. cbn [pred_of]. rewrite lookup_seq_lt by lia. do 2 f_equal. lia.
    + rewrite Hx, lookup_seq_lt by lia. done.
Qed.

Lemma ones_bits : bits_are nc (Z.shiftl 1 (Z.of_nat nc) - 1) (fun _ => true).
Proof.
  intros j Hj. rewrite andb_true_r, Z.shiftl_1_l.
  replace (2 ^ Z.of_nat nc - 1) with (Z.ones (Z.of_nat nc)) by (rewrite Z.ones_equiv; lia).
  destruct (Z.ltb_spec j (Z.of_nat nc)).
  - apply Z.ones_spec_low. lia.
  - apply Z.ones_spec_high. lia.
Qed.

Lemma FALRU_new_ok lat uninit :
  exists f, FALRU_new (2 ^ Z.of_nat s) (2 ^ Z.of_nat b) lat uninit = Ret f /\
    chain_ok nc n bound f (seq 0 n) /\ tagHash f = ∅ /\ fa_blkSize f = 2 ^ Z.of_nat b /\
    fa_hits f = replicate (S nc) 0 /\ fa_misses f = replicate (S nc) 0 /\
    (forall k c, fa_blks f !! k = Some c -> exists u, fb_blk c = CacheBlk_new u).
Proof.
  assert (Hn : (2 <= n)%nat) by (rewrite <- fa_bound_nc; apply fa_bound_two).
  assert (Hdiv : 2 ^ Z.of_nat s / 2 ^ Z.of_nat b = Z.of_nat n).
  { unfold n. rewrite Nat2Z.inj_pow, Nat2Z.inj_sub by lia. rewrite <- Z.pow_sub_r by lia. done. }
  assert (Hidx : 2 ^ 17 / 2 ^ Z.of_nat b = Z.of_nat (bound 0)).
  { unfold bound, fa_bound. rewrite Nat.add_0_r, Nat2Z.inj_pow, Nat2Z.inj_sub by lia. rewrite <- Z.pow_sub_r by lia.
  done. }
  assert (Hpow : forall x, (x < 32)%nat -> 0 < 2 ^ Z.of_nat x < 2 ^ 32).
  { intros x Hx. split; [lia|]. apply Z.pow_lt_mono_r; lia. }
  assert (Hp2 : forall x, (x < 32)%nat -> isPowerOf2 32 (2 ^ Z.of_nat x) = true).
  { intros x Hx. apply isPowerOf2_spec; [lia|pose proof (Hpow x Hx); unfold inword; lia|]. exists (Z.of_nat x). lia. }
  unfold FALRU_new. rewrite !Hp2 by lia. bsimpl. rewrite floorLog2_u32_log2 by (apply Hpow; lia).
  rewrite Z.log2_pow2 by lia. bsimpl. rewrite (proj2 (Z.leb_le _ _)) by lia. bsimpl. rewrite Hdiv, Hidx, Nat2Z.id.
  replace (Z.to_nat (Z.of_nat s - 17)) with nc by (unfold nc; lia).
  set (b0 := mkFALRUBlk (CacheBlk_new uninit) None None false 0).
  rewrite (upd_blk_ok _ 0 b0) by (apply lookup_replicate_2; lia). bsimpl.
  rewrite (upd_blk_ok _ (n - 1) b0).
  2: { rewrite list_lookup_insert_ne by lia. apply lookup_replicate_2; lia. }
  bsimpl. set (bs := <[(n - 1)%nat:=_]> _).
  assert (Hlk : forall x, (x < n)%nat -> bs !! x = Some (if decide (x = (n - 1)%nat) then
            mkFALRUBlk (CacheBlk_new uninit) (Some (n - 2)%nat) None false 0
          else if decide (x = 0%nat) then mkFALRUBlk (CacheBlk_new uninit) None (Some 1%nat) false (Z.shiftl 1
            (Z.of_nat nc) - 1)
          else b0)).
  { intros x Hx. unfold bs. case_decide as E1.
    - subst. apply list_lookup_insert_eq. rewrite length_insert, length_replicate. lia.
    - rewrite list_lookup_insert_ne by done. case_decide as E2.
      + subst. apply list_lookup_insert_eq. rewrite length_replicate. lia.
      + rewrite list_lookup_insert_ne by done. apply lookup_replicate_2. lia. }
  destruct (link_loop_ok (n - 2) 1 0 (Z.shiftl 1 (Z.of_nat nc) - 1) bs (replicate nc None)) as (bs' & bd' & fl & -> &
    H).
  { split; [lia| | |unfold bs; by rewrite !length_insert, length_replicate|..].
    - split_and!; [lia|pose proof (fa_bound_two 0); lia|lia].
    - eapply bits_are_ext; [|apply ones_bits]. intros q _. done.
    - rewrite Hlk, decide_False, decide_True by lia. eexists. split; [done|]. cbn.
      split_and!; [done|done|apply ones_bits].
    - rewrite Hlk, decide_True by lia. eexists. split; [done|]. done.
    - lia.
    - split; [by rewrite length_replicate|lia].
    - intros k c Hc. assert (k < n)%nat as Hk.
      { apply lookup_lt_Some in Hc. unfold bs in Hc. by rewrite !length_insert, length_replicate in Hc. }
      rewrite Hlk in Hc by done. exists uninit. repeat case_decide; by injection Hc as <-. }
  { lia. }
  bsimpl. rewrite bool_decide_true by done. cbn [cassert]. bsimpl. rewrite Z.eqb_refl. cbn [cassert]. bsimpl.
  eexists. split; [done|]. cbn [tagHash fa_blkSize fa_hits fa_misses fa_blks].
  split_and!; try done; [|apply (ln_blank _ _ _ _ _ H)].
  split; cbn; try done.
  - by eapply linking_links.
  - by rewrite lookup_seq_lt by lia.
  - rewrite last_lookup, length_seq, lookup_seq_lt by lia. f_equal. lia.
  - destruct (ln_bd _ _ _ _ _ H) as [Hbl Hbd]. split; [done|]. intros j Hj. rewrite Hbd by done.
    pose proof (fa_bound_ok j Hj). by rewrite lookup_seq_lt by lia.
  - apply ones_bits.
Qed.
End construct.

(** ** Operations *)

Section operations.
Context (nc n : nat) (bound : nat -> nat).
Hypothesis bound_ok : forall j, (j < nc)%nat -> (2 <= bound j < n)%nat.
Hypothesis two_blocks : (2 <= n)%nat.

Local Abbreviation bits_are := (bits_are nc).
Local Abbreviation chain_ok := (chain_ok nc n bound).
Local Abbreviation fits := (fits bound).

(** Adding one to the counters that satisfy a test. *)
Definition counted (l l' : list Z) (P : nat -> bool) : Prop :=
  length l' = length l /\ forall q x, l !! q = Some x -> l' !! q = Some (if P q then x + 1 else x).

Lemma counted_none l P : (forall q, (q < length l)%nat -> P q = false) -> counted l l P.
Proof. intros H. split; [done|]. intros q x Hq. by rewrite H by (by eapply lookup_lt_Some). Qed.

Lemma counted_step l l' P Q i x :
  l !! i = Some x -> counted (<[i:=x + 1]> l) l' P -> P i = false ->
  (forall q, Q q = if decide (q = i) then true else P q) -> counted l l' Q.
Proof.
  intros Hi [Hlen Hc] HP HQ. split; [by rewrite Hlen, length_insert|]. intros q y Hq. rewrite HQ. case_decide as E.
  - subst q. rewrite Hi in Hq. injection Hq as <-. rewrite (Hc i (x + 1)); [by rewrite HP|].
    apply list_lookup_insert_eq. by eapply lookup_lt_Some.
  - apply Hc. by rewrite list_lookup_insert_ne by done.
Qed.

Lemma counted_ext l l' P Q : (forall q, (q < length l)%nat -> P q = Q q) -> counted l l' P -> counted l l' Q.
Proof. intros E [Hl Hc]. split; [done|]. intros q x Hq. rewrite <- E by (by eapply lookup_lt_Some). by apply Hc. Qed.

(** The sizes from [i] on. *)
Definition from (i q : nat) : bool := (i <=? q)%nat && (q <? nc)%nat.

Lemma from_step i q : (i < nc)%nat -> from i q = if decide (q = i) then true else from (S i) q.
Proof.
  intros Hi. unfold from. case_decide.
  - subst. rewrite (proj2 (Nat.leb_le _ _)), (proj2 (Nat.ltb_lt _ _)) by lia. done.
  - destruct (Nat.leb_spec i q), (Nat.leb_spec (S i) q); try done; lia.
Qed.

Lemma from_self i : from (S i) i = false.
Proof. unfold from. rewrite (proj2 (Nat.leb_gt _ _)) by lia. done. Qed.

Lemma count_sizes_ok mask P : forall cnt i h m,
  bits_are mask P -> (i + cnt = nc)%nat -> length h = S nc -> length m = S nc ->
  exists h' m', count_sizes cnt i mask h m = Ret (h', m') /\
    counted h h' (fun q => from i q && P q) /\ counted m m' (fun q => from i q && negb (P q)).
Proof.
  induction cnt as [|cnt IH]; intros i h m Hm Hi Hh Hms; cbn [count_sizes].
  - exists h, m. assert (forall q, from i q = false) as Hf.
    { intros q. unfold from. destruct (Nat.leb_spec i q), (Nat.ltb_spec q nc); try done; lia. }
    split; [done|]. split; apply counted_none; intros q _; by rewrite Hf.
  - assert (Hin : (i < nc)%nat) by lia. rewrite (bit_set nc i mask P Hin Hm).
    destruct (lookup_lt_is_Some_2 h i ltac:(lia)) as [x Hx]. destruct (lookup_lt_is_Some_2 m i ltac:(lia)) as [y Hy].
    destruct (P i) eqn:EP.
    + rewrite (vread_some _ _ _ Hx). bsimpl. rewrite vwrite_lt by lia. bsimpl.
      destruct (IH (S i) (<[i:=x + 1]> h) m) as (h' & m' & -> & Ch & Cm); [done|lia|by rewrite length_insert|done|].
      exists h', m'. split; [done|]. split.
      * eapply counted_step; [exact Hx|exact Ch|by cbn beta; rewrite from_self|]. intros q. cbn beta.
        rewrite (from_step i) by done.
        case_decide; [subst; by rewrite EP|done].
      * eapply counted_ext; [|exact Cm]. intros q _. cbn beta. rewrite (from_step i) by done.
        case_decide; [subst; by rewrite EP, andb_false_r|done].
    + rewrite (vread_some _ _ _ Hy). bsimpl. rewrite vwrite_lt by lia. bsimpl.
      destruct (IH (S i) h (<[i:=y + 1]> m)) as (h' & m' & -> & Ch & Cm); [done|lia|done|by rewrite length_insert|].
      exists h', m'. split; [done|]. split.
      * eapply counted_ext; [|exact Ch]. intros q _. cbn beta. rewrite (from_step i) by done.
        case_decide; [subst; by rewrite EP, andb_false_r|done].
      * eapply counted_step; [exact Hy|exact Cm|by cbn beta; rewrite from_self|]. intros q. cbn beta.
        rewrite (from_step i) by done.
        case_decide; [subst; by rewrite EP|done].
Qed.

Lemma count_misses_ok : forall cnt i m,
  (i + cnt = length m)%nat -> exists m', count_misses cnt i m = Ret m' /\ counted m m' (fun q => (i <=? q)%nat).
Proof.
  induction cnt as [|cnt IH]; intros i m Hi; cbn [count_misses].
  - exists m. split; [done|]. apply counted_none. intros q Hq. apply Nat.leb_gt. lia.
  - destruct (lookup_lt_is_Some_2 m i ltac:(lia)) as [y Hy]. rewrite (vread_some _ _ _ Hy). bsimpl.
    rewrite vwrite_lt by lia. bsimpl.
    destruct (IH (S i) (<[i:=y + 1]> m)) as (m' & -> & Cm); [rewrite length_insert; lia|].
    exists m'. split; [done|]. eapply counted_step; [exact Hy|exact Cm|apply Nat.leb_gt; lia|]. intros q. case_decide.
    + apply Nat.leb_le. lia.
    + destruct (Nat.leb_spec i q), (Nat.leb_spec (S i) q); try done; lia.
Qed.

(** The store: its order of use, counters for every size, and a hash table of
    blocks. *)
Record fa_ok (f : FALRU) (l : list nat) : Prop := {
  fo_chain : chain_ok f l;
  fo_hits : length (fa_hits f) = S nc;
  fo_misses : length (fa_misses f) = S nc;
  fo_hash : forall a p, tagHash f !! a = Some p -> (p < n)%nat
}.

Lemma chain_ok_same f f' l :
  chain_ok f l -> numCaches f' = numCaches f -> numBlocks f' = numBlocks f -> fa_blks f' = fa_blks f ->
  fa_head f' = fa_head f -> fa_tail f' = fa_tail f -> cacheBoundaries f' = cacheBoundaries f ->
  cacheMask f' = cacheMask f -> chain_ok f' l.
Proof. intros [? ? ? ? ? ? ?] E1 E2 E3 E4 E5 E6 E7. split; rewrite ?E1, ?E2, ?E3, ?E4, ?E5, ?E6, ?E7; done. Qed.

(** Changes of a block that leave links and mask alone. *)
Lemma links_set l bs P p c c' :
  links nc n l bs P -> bs !! p = Some c -> fb_prev c' = fb_prev c -> fb_next c' = fb_next c -> inCache c' = inCache c ->
  links nc n l (<[p:=c']> bs) P.
Proof.
  intros [Hp Hl Hb] Hc E1 E2 E3. split; [done|by rewrite length_insert|]. intros k x Hk.
  rewrite (upd_lookup _ _ _ _ _ Hc). case_decide as E; [|by apply Hb]. subst x.
  destruct (Hb k p Hk) as (b & Hbp & ? & ? & ?). rewrite Hc in Hbp. injection Hbp as <-. exists c'.
  rewrite E1, E2, E3. done.
Qed.

Lemma chain_set f l p c c' :
  chain_ok f l -> fa_blks f !! p = Some c -> fb_prev c' = fb_prev c -> fb_next c' = fb_next c -> inCache c' = inCache
    c ->
  chain_ok (with_fa_blks f (<[p:=c']> (fa_blks f))) l.
Proof. intros [? ? ? ? ? ? ?] ? ? ? ?. split; cbn; try done. by eapply links_set. Qed.

(** A hit at position [k] of the order. *)
Lemma access_hit f l addr p :
  fa_ok f l -> find_valid f (fa_blkAlign f addr) = Ret (Some p) ->
  exists k mask f', l !! k = Some p /\ fa_accessBlock f addr = Ret (Some p, fa_accessLatency f, mask, f') /\
    bits_are mask (fits k) /\ fa_ok f' (to_front l k p) /\
    counted (fa_hits f) (fa_hits f') (fun q => if decide (q = nc) then true else fits k q) /\
    counted (fa_misses f) (fa_misses f') (fun q => if decide (q = nc) then false else negb (fits k q)) /\
    same_blks (fa_blks f) (fa_blks f') /\ tagHash f' = tagHash f /\ fa_blkSize f' = fa_blkSize f.
Proof.
  intros [Hc Hh Hm Hhash] Hf. pose proof (ch_nc _ _ _ _ _ Hc) as Enc.
  assert (Hp : exists c, fa_blks f !! p = Some c).
  { unfold find_valid, hashLookup in Hf. destruct (tagHash f !! _) as [p'|] eqn:E; [|done].
    apply bind_Ret in Hf as (c & Hv & Hf). apply vread_Ret in Hv. destruct (isValid _); [|done].
    apply bind_Ret in Hf as (u & _ & Hf). injection Hf as <-. by exists c. }
  destruct Hp as [c Hp]. destruct (links_total _ _ _ _ _ _ _ (ch_links _ _ _ _ _ Hc) Hp) as [k Hk].
  destruct (lk_blk _ _ _ _ _ (ch_links _ _ _ _ _ Hc) _ _ Hk) as (c' & Hc' & _ & _ & Hbits).
  rewrite Hp in Hc'. injection Hc' as <-. unfold fa_accessBlock.
  change (find_valid (with_fa_counts _ _ _ _) _) with (find_valid f (fa_blkAlign f addr)). rewrite Hf. bsimpl.
  cbn [with_fa_counts fa_blks fa_hits fa_misses numCaches fa_head fa_accesses]. rewrite (vread_some _ _ _ Hp).
  bsimpl. rewrite Enc.
  destruct (count_sizes_ok (inCache c) (fits k) nc 0 (fa_hits f) (fa_misses f)) as (h' & m' & -> & Ch & Cm);
    [done|lia|done|done|].
  bsimpl. pose proof Ch as [Hhl Hch]. destruct (lookup_lt_is_Some_2 h' nc) as [x Hx]; [lia|].
  rewrite (vread_some _ _ _ Hx). bsimpl. rewrite vwrite_lt by lia. bsimpl.
  set (g := with_fa_counts _ (<[nc:=x + 1]> h') m' _).
  assert (Hcg : chain_ok g l) by (eapply chain_ok_same; [exact Hc|done..]).
  assert (Hch' : counted (fa_hits f) (<[nc:=x + 1]> h') (fun q => if decide (q = nc) then true else fits k q)).
  { split; [by rewrite length_insert|]. intros q y Hq. specialize (Hch q y Hq). case_decide as E.
    - subst q. rewrite list_lookup_insert_eq by lia. rewrite Hx in Hch. unfold from in Hch.
      rewrite Nat.ltb_irrefl, andb_false_r in Hch. cbn in Hch. congruence.
    - rewrite list_lookup_insert_ne by done. rewrite Hch. unfold from. cbn [Nat.leb andb].
      apply lookup_lt_Some in Hq. rewrite (proj2 (Nat.ltb_lt _ _)) by lia. done. }
  assert (Hcm' : counted (fa_misses f) m' (fun q => if decide (q = nc) then false else negb (fits k q))).
  { eapply counted_ext; [|exact Cm]. intros q Hq. cbn beta. unfold from. cbn [Nat.leb andb]. case_decide as E.
    - subst. by rewrite Nat.ltb_irrefl.
    - by rewrite (proj2 (Nat.ltb_lt _ _)) by lia. }
  exists k, (inCache c).
  assert (Hg : fa_ok g l) by (split; [done|cbn; rewrite length_insert; lia|cbn; destruct Cm; lia|done]).
  case_bool_decide as Eh.
  - exists g. assert (k = 0%nat) as ->.
    { eapply links_pos; [apply (ch_links _ _ _ _ _ Hc)|exact Hk|]. rewrite Eh. apply (ch_head _ _ _ _ _ Hc). }
    rewrite to_front_first by done. split_and!; try done.
  - destruct (fa_moveToHead_ok nc n bound bound_ok g l k p Hcg Hk) as (bs & bd & t & -> & Hc2 & Hs). bsimpl.
    eexists. split_and!; [done|done|done| |done|done|done|done|done]. destruct Hg. split; try done.
Qed.

Lemma access_miss f l addr :
  fa_ok f l -> find_valid f (fa_blkAlign f addr) = Ret None ->
  exists f', fa_accessBlock f addr = Ret (None, fa_accessLatency f, 0, f') /\ fa_ok f' l /\
    fa_hits f' = fa_hits f /\ counted (fa_misses f) (fa_misses f') (fun _ => true) /\
    fa_blks f' = fa_blks f /\ tagHash f' = tagHash f /\ fa_blkSize f' = fa_blkSize f.
Proof.
  intros [Hc Hh Hm Hhash] Hf. unfold fa_accessBlock.
  change (find_valid (with_fa_counts _ _ _ _) _) with (find_valid f (fa_blkAlign f addr)). rewrite Hf. bsimpl.
  cbn [with_fa_counts fa_misses numCaches]. rewrite (ch_nc _ _ _ _ _ Hc).
  destruct (count_misses_ok (S nc) 0 (fa_misses f)) as (m' & -> & Cm); [lia|]. bsimpl. eexists. split; [done|].
  split_and!; try done. split; [|done|cbn; destruct Cm; lia|done]. eapply chain_ok_same; [exact Hc|done..].
Qed.

Lemma findVictim_ok f l addr curTick :
  fa_ok f l ->
  exists p c f', last l = Some p /\ fa_blks f !! p = Some c /\ fa_findVictim f addr curTick = Ret (p, f') /\
    fa_ok f' (to_front l (n - 1) p) /\ same_blks (fa_blks f) (fa_blks f') /\
    tagHash f' = <[fa_blkAlign f addr := p]> (delete (tag (fb_blk c)) (tagHash f)) /\
    fa_blkSize f' = fa_blkSize f /\ fa_hits f' = fa_hits f /\ fa_misses f' = fa_misses f.
Proof.
  intros [Hc Hh Hm Hhash]. pose proof (ch_links _ _ _ _ _ Hc) as Hl. pose proof (links_size _ _ _ _ _ Hl) as Hsz.
  destruct (lookup_lt_is_Some_2 l (n - 1)%nat ltac:(lia)) as [p Hp].
  assert (Hlast : last l = Some p) by (rewrite last_lookup, Hsz; by replace (Init.Nat.pred n) with (n - 1)%nat by lia).
  destruct (lk_blk _ _ _ _ _ Hl _ _ Hp) as (c & Hcp & _ & _ & Hbits). exists p, c.
  assert (Hpn : (p < n)%nat) by (rewrite <- (lk_length _ _ _ _ _ Hl); by eapply lookup_lt_Some).
  unfold fa_findVictim. rewrite (ch_tail _ _ _ _ _ Hc), Hlast. cbn [deref]. bsimpl. rewrite (vread_some _ _ _ Hcp).
  bsimpl.
  assert (inCache c = 0) as E0.
  { eapply (bits_are_inj nc); [exact Hbits|]. intros j Hj. rewrite Z.bits_0. symmetry.
    destruct (Z.ltb_spec j (Z.of_nat nc)); [|done]. cbn. apply Nat.ltb_ge.
    pose proof (bound_ok (Z.to_nat j) ltac:(lia)). lia. }
  rewrite E0. cbn [Z.eqb cassert]. bsimpl.
  destruct (fa_moveToHead_ok nc n bound bound_ok f l _ p Hc Hp) as (bs & bd & t & -> & Hc2 & Hs). bsimpl.
  set (g := with_chain f bs bd p t) in *. pose proof (Hs p) as Hsp. rewrite Hcp in Hsp.
  destruct (bs !! p) as [c'|] eqn:Hc'; [|done]. cbn in Hsp. injection Hsp as Hsp.
  rewrite (vread_some (fa_blks g) _ _ Hc'). bsimpl. rewrite Hsp.
  set (g1 := with_tagHash g _).
  assert (Hg1 : chain_ok g1 (to_front l (n - 1) p)) by (eapply chain_ok_same; [exact Hc2|done..]).
  assert (Hhash1 : forall a q, tagHash g1 !! a = Some q -> (q < n)%nat).
  { intros a q. cbn. rewrite lookup_insert. case_decide; [by intros [= <-]|]. rewrite lookup_delete.
    case_decide; [done|]. apply Hhash. }
  destruct (isValid (fb_blk c)).
  - eexists. split_and!; [done|done|done| |done|done|done|done|done].
    split; [eapply chain_ok_same; [exact Hg1|done..]|done|done|done].
  - rewrite (upd_blk_ok _ _ c') by done. bsimpl. change (fa_blks g1) with bs.
    assert (Hst : same_blks bs (<[p:=fb_touch c']> bs)) by (by apply same_blks_upd).
    assert (Hg2 : chain_ok (with_fa_blks g1 (<[p:=fb_touch c']> bs)) (to_front l (n - 1) p)).
    { apply (chain_set g1 _ p c'); done. }
    pose proof (same_blks_trans _ _ _ Hs Hst) as Hss.
    destruct (_ && _); eexists; (split_and!; [done|done|done| |exact Hss|done|done|done|done]);
      (split; [eapply chain_ok_same; [exact Hg2|done..]|done|done|done]).
Qed.

(** The cache changes the contents of a block, never its links. *)
Definition fa_setBlk (f : FALRU) (p : nat) (c : CacheBlk) : res FALRU :=
  bs ← upd_blk (fa_blks f) p (fun b => fb_with_blk b c);
  Ret (with_fa_blks f bs).

Lemma setBlk_ok f l p c : fa_ok f l -> (p < n)%nat -> exists f', fa_setBlk f p c = Ret f' /\ fa_ok f' l.
Proof.
  intros [Hc Hh Hm Hhash] Hp. pose proof (ch_links _ _ _ _ _ Hc) as Hl.
  destruct (lookup_lt_is_Some_2 (fa_blks f) p) as [b Hb]; [rewrite (lk_length _ _ _ _ _ Hl); done|].
  unfold fa_setBlk. rewrite (upd_blk_ok _ _ _ _ Hb). bsimpl. eexists. split; [done|].
  split; [by eapply chain_set|done|done|done].
Qed.

Lemma clearLocks_ok f l : fa_ok f l -> fa_ok (fa_clearLocks f) l.
Proof.
  intros [[? ? [Hp Hl Hb] ? ? ? ?] Hh Hm Hhash]. split; [|done|done|done]. split; cbn; try done.
  split; [done|by rewrite length_fmap|]. intros k x Hk. destruct (Hb k x Hk) as (b & Hbx & ? & ? & ?).
  rewrite list_lookup_fmap, Hbx. cbn. eexists. split; [done|]. done.
Qed.
End operations.

(** ** The code's own check *)

Section check.
Context (s b : nat).
Hypothesis sizes : (b <= 16)%nat /\ (17 <= s < 31)%nat.
Local Abbreviation nc := (s - 17)%nat.
Local Abbreviation n := (2 ^ (s - b))%nat.
Local Abbreviation bound := (fa_bound b).

Lemma bound_bytes j : Z.of_nat (bound j) * 2 ^ Z.of_nat b = 2 ^ (17 + Z.of_nat j).
Proof.
  unfold fa_bound. rewrite Nat2Z.inj_pow, Nat2Z.inj_add, Nat2Z.inj_sub by lia. rewrite <- Z.pow_add_r by lia.
  f_equal. lia.
Qed.

Lemma store_bytes : Z.of_nat n * 2 ^ Z.of_nat b = 2 ^ Z.of_nat s.
Proof.
  rewrite Nat2Z.inj_pow, Nat2Z.inj_sub by lia. rewrite <- Z.pow_add_r by lia. f_equal. lia.
Qed.

Lemma small_bytes x : (x <= s)%nat -> 0 < 2 ^ Z.of_nat x < 2 ^ 31.
Proof. intros. split; [lia|]. apply Z.pow_lt_mono_r; lia. Qed.

Lemma check_loop_ok f l : 
  chain_ok nc n bound f l -> fa_blkSize f = 2 ^ Z.of_nat b ->
  forall m k j flags, (k + m = n)%nat -> (j <= nc)%nat -> (k < bound j)%nat \/ j = nc ->
  (forall q, (q < j)%nat -> (bound q <= k)%nat) -> bits_are nc flags (fits bound k) ->
  check_loop m f (l !! k) (Z.of_nat k * 2 ^ Z.of_nat b) (2 ^ (17 + Z.of_nat j)) j flags = Ret true.
Proof.
  intros Hc Hbs. pose proof (ch_links _ _ _ _ _ Hc) as Hl. pose proof (links_size _ _ _ _ _ Hl) as Hsz.
  pose proof (fa_bound_ok s b ltac:(lia)) as Hbo. pose proof store_bytes as Hsb.
  pose proof (small_bytes s ltac:(lia)) as Hss.
  induction m as [|m IH]; intros k j flags Hk Hj Hkj Hq Hfl; cbn [check_loop].
  { rewrite lookup_ge_None_2 by lia. done. }
  destruct (lookup_lt_is_Some_2 l k ltac:(lia)) as [p Hp]. rewrite Hp.
  destruct (lk_blk _ _ _ _ _ Hl _ _ Hp) as (c & Hcp & _ & Hnx & Hbits). rewrite (vread_some _ _ _ Hcp). bsimpl.
  rewrite (bits_are_inj nc _ _ _ Hbits Hfl), Z.eqb_refl. cbn [negb]. rewrite Hbs.
  assert (Htot : s32 (Z.of_nat k * 2 ^ Z.of_nat b + 2 ^ Z.of_nat b) = Z.of_nat (S k) * 2 ^ Z.of_nat b).
  { replace (Z.of_nat k * 2 ^ Z.of_nat b + 2 ^ Z.of_nat b) with (Z.of_nat (S k) * 2 ^ Z.of_nat b) by lia.
    apply s32_small. split; [lia|].
    apply Z.le_lt_trans with (Z.of_nat n * 2 ^ Z.of_nat b); [apply Z.mul_le_mono_nonneg_r; lia|lia]. }
  rewrite Htot, <- bound_bytes.
  assert (Heq : (Z.of_nat (S k) * 2 ^ Z.of_nat b =? Z.of_nat (bound j) * 2 ^ Z.of_nat b) = (S k =? bound j)%nat).
  { assert (Hpos : 0 < 2 ^ Z.of_nat b) by lia.
  destruct (Nat.eqb_spec (S k) (bound j)) as [-> | Hne]; [by apply Z.eqb_refl|].
    apply Z.eqb_neq. intros E. apply Z.mul_reg_r in E; lia. }
  rewrite Heq.
  assert (Htl : bool_decide (fa_tail f = Some p) = (S k =? n)%nat).
  { rewrite (ch_tail _ _ _ _ _ Hc), last_lookup, Hsz. destruct (Nat.eqb_spec (S k) n) as [E | E].
    - apply bool_decide_true. rewrite <- Hp. f_equal. lia.
    - apply bool_decide_false. intros Hp'.
      assert (Init.Nat.pred n = k) by (eapply links_pos; [exact Hl|exact Hp'|exact Hp]). lia. }
  rewrite Htl, Hnx. pose proof (fa_bound_nc s b ltac:(lia)) as Hbn.
  destruct (Nat.eqb_spec (S k) (bound j)) as [Ebj | Nbj]; cbn [andb].
  - destruct (Nat.eqb_spec (S k) n) as [En | Nn]; cbn [negb].
    + assert (m = 0%nat) as -> by lia. cbn [check_loop]. by rewrite lookup_ge_None_2 by lia.
    + assert (Hjn : (j < nc)%nat) by (destruct (decide (j = nc)) as [-> | ?]; [congruence|lia]).
      destruct (ch_bd _ _ _ _ _ Hc) as [_ Hbd]. rewrite (vread_some _ _ _ (Hbd j Hjn)). bsimpl.
      replace (bound j - 1)%nat with k by lia. rewrite Hp, bool_decide_true by done. cbn [negb].
      rewrite Z.shiftl_mul_pow2 by lia. rewrite bound_bytes, <- (Z.pow_add_r 2 _ 1) by lia.
      replace (17 + Z.of_nat j + 1) with (17 + Z.of_nat (S j)) by lia.
      rewrite s32_small.
      2: { pose proof (small_bytes (17 + S j) ltac:(lia)) as Hsm.
      replace (Z.of_nat (17 + S j)) with (17 + Z.of_nat (S j)) in Hsm by lia. lia. }
      pose proof (fa_bound_S s b ltac:(lia) j) as HbS. apply IH; [lia|lia| | |].
      * left. rewrite HbS. pose proof (fa_bound_two s b ltac:(lia) j). lia.
      * intros q Hqj. destruct (decide (q = j)) as [-> | ?]; [lia|]. pose proof (Hq q ltac:(lia)). lia.
      * eapply bits_are_ext; [|by apply bit_clear]. intros q Hqn. cbn beta. unfold fits.
        destruct (Nat.eqb_spec q j) as [-> | Hne]; [symmetry; apply Nat.ltb_ge; lia|]. cbn [negb andb].
        destruct (Nat.ltb_spec k (bound q)), (Nat.ltb_spec (S k) (bound q)); try done; [|lia].
        exfalso. destruct (Nat.lt_total q j) as [? | [? | ?]]; [pose proof (Hq q ltac:(lia)); lia|lia|].
        pose proof (fa_bound_le s b ltac:(lia) (S j) q ltac:(lia)). rewrite HbS in *.
        pose proof (fa_bound_two s b ltac:(lia) j). lia.
  - rewrite bound_bytes. apply IH; [lia|done| | |].
    + destruct Hkj; [left; lia|by right].
    + intros q Hqj. pose proof (Hq q Hqj). lia.
    + eapply bits_are_ext; [|exact Hfl]. intros q Hqn. unfold fits.
      destruct (Nat.ltb_spec k (bound q)), (Nat.ltb_spec (S k) (bound q)); try done; [|lia].
      exfalso. destruct (Nat.lt_total q j) as [? | [-> | ?]]; [pose proof (Hq q ltac:(lia)); lia|lia|].
      pose proof (fa_bound_le s b ltac:(lia) j q ltac:(lia)). destruct Hkj; [|lia]. lia.
Qed.
End check.

(** ** Runs *)

(** Using a block puts it in front of the order. *)
Definition use (p : nat) (l : list nat) : list nat := p :: filter (fun x => x <> p) l.

Lemma filter_ne_absent p (l : list nat) : p ∉ l -> filter (fun x => x <> p) l = l.
Proof.
  induction l as [|x l IH]; intros Hp; [done|]. rewrite not_elem_of_cons in Hp. destruct Hp.
  rewrite filter_cons, decide_True, IH by done. done.
Qed.

Lemma to_front_use l k p : NoDup l -> l !! k = Some p -> to_front l k p = use p l.
Proof.
  intros Hnd Hk. unfold to_front, use. f_equal. rewrite delete_take_drop.
  rewrite <- (take_drop_middle l k p Hk) in Hnd |- * at 3. apply NoDup_middle in Hnd as (H1 & H2 & _).
  rewrite filter_app, filter_cons, decide_False by naive_solver. by rewrite !filter_ne_absent.
Qed.

(** The stores of [2^s] bytes with blocks of [2^b] bytes that a cache can reach,
    with the blocks in order of use: hits and victims use a block. *)
Inductive fa_reach (s b : nat) : FALRU -> list nat -> Prop :=
  | fr_new lat uninit f :
      FALRU_new (2 ^ Z.of_nat s) (2 ^ Z.of_nat b) lat uninit = Ret f -> fa_reach s b f (seq 0 (2 ^ (s - b)))
  | fr_hit f l addr p lat mask f' :
      fa_reach s b f l -> fa_accessBlock f addr = Ret (Some p, lat, mask, f') -> fa_reach s b f' (use p l)
  | fr_miss f l addr lat mask f' :
      fa_reach s b f l -> fa_accessBlock f addr = Ret (None, lat, mask, f') -> fa_reach s b f' l
  | fr_victim f l addr curTick p f' :
      fa_reach s b f l -> fa_findVictim f addr curTick = Ret (p, f') -> fa_reach s b f' (use p l)
  | fr_set f l p c f' : fa_reach s b f l -> fa_setBlk f p c = Ret f' -> fa_reach s b f' l
  | fr_invalidate f l : fa_reach s b f l -> fa_reach s b (fa_invalidate f) l
  | fr_clear f l : fa_reach s b f l -> fa_reach s b (fa_clearLocks f) l.

Lemma accessBlock_find f addr r lat mask f' :
  fa_accessBlock f addr = Ret (r, lat, mask, f') -> find_valid f (fa_blkAlign f addr) = Ret r.
Proof.
  unfold fa_accessBlock. intros H. apply bind_Ret in H as (r' & Hf & H).
  change (find_valid (with_fa_counts _ _ _ _) _) with (find_valid f (fa_blkAlign f addr)) in Hf. rewrite Hf. f_equal.
  destruct r' as [p|].
  - apply bind_Ret in H as (c & _ & H). apply bind_Ret in H as ([h m] & _ & H). apply bind_Ret in H as (x & _ & H).
    apply bind_Ret in H as (h' & _ & H). apply bind_Ret in H as (g & _ & H). by injection H as <- _ _ _.
  - apply bind_Ret in H as (m & _ & H). by injection H as <- _ _ _.
Qed.

Section reach.
Context (s b : nat).
Hypothesis sizes : (b <= 16)%nat /\ (17 <= s < 32)%nat.
Local Abbreviation nc := (s - 17)%nat.
Local Abbreviation n := (2 ^ (s - b))%nat.
Local Abbreviation ok := (fa_ok nc n (fa_bound b)).

Lemma n_two : (2 <= n)%nat.
Proof. rewrite <- (fa_bound_nc s b sizes). apply (fa_bound_two s b sizes). Qed.

Lemma order_nodup f l : ok f l -> NoDup l.
Proof. intros [Hc _ _ _]. rewrite (lk_perm _ _ _ _ _ (ch_links _ _ _ _ _ Hc)). apply NoDup_seq. Qed.

Lemma fa_reach_ok f l : fa_reach s b f l -> ok f l /\ fa_blkSize f = 2 ^ Z.of_nat b.
Proof.
  pose proof (fa_bound_ok s b sizes) as Hbo. pose proof n_two as Hn2.
  induction 1 as [lat u f H|f l addr p lat mask f' _ [IH IHb] H|f l addr lat mask f' _ [IH IHb] H
                 |f l addr t p f' _ [IH IHb] H|f l p c f' _ [IH IHb] H|f l _ [IH IHb]|f l _ [IH IHb]].
  - destruct (FALRU_new_ok s b sizes lat u) as (f' & Hf & Hc & Eh & Eb & Hh & Hm & _). rewrite H in Hf.
    injection Hf as <-.
    split; [|done]. split; [done|by rewrite Hh, length_replicate|by rewrite Hm, length_replicate|].
    intros a p Hp. by rewrite Eh in Hp.
  - pose proof (accessBlock_find _ _ _ _ _ _ H) as Hf.
    destruct (access_hit nc n (fa_bound b) Hbo Hn2 f l addr p IH Hf) as (k & m' & f1 & Hk & H' & _ & Hok & _ & _ & _
      & _ & Eb).
    pose proof (order_nodup _ _ IH) as Hnd. rewrite H in H'. injection H' as _ _ <-.
    rewrite <- (to_front_use l k p) by done. split; [done|congruence].
  - pose proof (accessBlock_find _ _ _ _ _ _ H) as Hf.
    destruct (access_miss nc n (fa_bound b) Hn2 f l addr IH Hf) as (f1 & H' & Hok & _ & _ & _ & _ & Eb).
    rewrite H in H'. injection H' as _ _ <-. split; [done|congruence].
  - destruct (findVictim_ok nc n (fa_bound b) Hbo Hn2 f l addr t IH) as (q & c & f1 & Hq & _ & H' & Hok & _ & _ & Eb
      & _ & _).
    pose proof (order_nodup _ _ IH) as Hnd. rewrite H in H'. injection H' as <- <-.
    rewrite <- (to_front_use l (n - 1) p); [split; [done|congruence]|done|].
    rewrite last_lookup, (links_size _ _ _ _ _ (ch_links _ _ _ _ _ (fo_chain _ _ _ _ _ IH))) in Hq. rewrite <- Hq.
    f_equal. lia.
  - assert (Hp : (p < n)%nat).
    { unfold fa_setBlk, upd_blk in H. apply bind_Ret in H as (bs & H & _). apply bind_Ret in H as (x & H & _).
      apply vread_Ret, lookup_lt_Some in H.
      by rewrite (lk_length _ _ _ _ _ (ch_links _ _ _ _ _ (fo_chain _ _ _ _ _ IH))) in H. }
    destruct (setBlk_ok nc n (fa_bound b) f l p c IH Hp) as (f1 & H' & Hok). rewrite H in H'. injection H' as <-.
    split; [done|]. unfold fa_setBlk in H. apply bind_Ret in H as (bs & _ & H). by injection H as <-.
  - split; [|done]. destruct IH. split; [eapply chain_ok_same; [done|done..]|done|done|done].
  - split; [by apply clearLocks_ok|done].
Qed.
End reach.


(** Four blocks of 64 KB: a block is filled and used again. *)
Definition demo_fa (r : res FALRU) : FALRU :=
  match r with
  | Ret f => f
  | Err _ => mkFALRU 0 0 [] 0 0 0 [] 0 None ∅ 0 0 false 0 0 [] [] 0
  end.
Definition demo_fa0 : FALRU := Eval vm_compute in demo_fa (FALRU_new (2 ^ 18) (2 ^ 16) 2 0).
Definition demo_fa1 : FALRU := Eval vm_compute in demo_fa ('(_, f) ← fa_findVictim demo_fa0 0x30000 5; Ret f).
Definition demo_blk : CacheBlk := with_status (with_tag (CacheBlk_new 0) 0x30000) BlkValid.
Definition demo_fa2 : FALRU := Eval vm_compute in demo_fa (fa_setBlk demo_fa1 3 demo_blk).

Lemma demo_fa_reach : fa_reach 18 16 demo_fa2 [3; 0; 1; 2]%nat.
Proof.
  apply (fr_set 18 16 demo_fa1 _ 3 demo_blk); [|vm_compute; reflexivity].
  apply (fr_victim 18 16 demo_fa0 [0; 1; 2; 3]%nat 0x30000 5 3 demo_fa1); [|vm_compute; reflexivity].
  apply (fr_new 18 16 2 0). vm_compute. reflexivity.
Qed.


(** C40. [insertBlock] does not set the tag, and nothing else does: after the first
    miss is filled (a victim is found, inserted and marked valid) the next access to
    the same block fails the assertion that compares the tag, unless the block
    address is 0, the tag a block is constructed with. *)
Theorem falru_hit_asserts s b lat uninit addr curTick pkt f :
  (b <= 16)%nat -> (17 <= s < 32)%nat ->
  FALRU_new (2 ^ Z.of_nat s) (2 ^ Z.of_nat b) lat uninit = Ret f -> fa_blkAlign f addr <> 0 ->
  exists p f1 c f2, fa_findVictim f addr curTick = Ret (p, f1) /\ fa_blks f1 !! p = Some c /\
    fa_setBlk (fa_insertBlock f1 pkt p) p (with_status (fb_blk c) BlkValid) = Ret f2 /\
    fa_accessBlock f2 addr = Err AssertFailed /\ fa_findBlock f2 addr = Err AssertFailed.
Proof.
  intros Hb Hs Hnew Ha. assert (Hsz : (b <= 16)%nat /\ (17 <= s < 32)%nat) by lia.
  destruct (fa_reach_ok s b Hsz f _ (fr_new s b lat uninit f Hnew)) as [Hok Hbs].
  destruct (findVictim_ok _ _ _ (fa_bound_ok s b Hsz) (n_two s b Hsz) f _ addr curTick Hok)
    as (p & c & f1 & _ & Hc & Hv & Hok1 & Hsame & Hhash & Hbs1 & _ & _).
  assert (Htag : tag (fb_blk c) = 0).
  { destruct (FALRU_new_ok s b Hsz lat uninit) as (f0 & Hf0 & _ & _ & _ & _ & _ & Hblank). rewrite Hnew in Hf0.
    injection Hf0 as <-. destruct (Hblank p c Hc) as [u ->]. done. }
  pose proof (Hsame p) as Hp. rewrite Hc in Hp. destruct (fa_blks f1 !! p) as [c1|] eqn:Hc1; [|done].
  cbn in Hp. injection Hp as Hp. exists p, f1, c1. unfold fa_setBlk, fa_insertBlock.
  rewrite (upd_blk_ok _ _ _ _ Hc1). bsimpl. set (c2 := fb_with_blk c1 _).
  assert (Hfv : forall g, tagHash g = tagHash f1 -> fa_blks g = <[p:=c2]> (fa_blks f1) ->
            find_valid g (fa_blkAlign f addr) = Err AssertFailed).
  { intros g Eh Eb. unfold find_valid, hashLookup. rewrite Eh, Hhash, lookup_insert_eq, Eb.
    rewrite (vread_some _ p c2) by (apply list_lookup_insert_eq; by eapply lookup_lt_Some). bsimpl.
    change (isValid (fb_blk c2)) with true. change (tag (fb_blk c2)) with (tag (fb_blk c1)). rewrite Hp, Htag.
    by rewrite (proj2 (Z.eqb_neq _ _)) by congruence. }
  eexists. split_and!; [done|done|done|..].
  - unfold fa_accessBlock.
    replace (fa_blkAlign _ addr) with (fa_blkAlign f addr) by (unfold fa_blkAlign; cbn; by rewrite Hbs1).
    by rewrite Hfv.
  - unfold fa_findBlock. replace (fa_blkAlign (with_fa_blks _ _) addr) with (fa_blkAlign f addr) by (unfold
      fa_blkAlign; cbn; by rewrite Hbs1).
    by rewrite Hfv.
Qed.

Lemma falru_hit_asserts_witness :
  exists p f1 c f2, fa_findVictim demo_fa0 0x30000 5 = Ret (p, f1) /\ fa_blks f1 !! p = Some c /\
    fa_setBlk (fa_insertBlock f1 (Packet_new (mkRequest 0 0x30000 4 0 0 0 0) ReadReq) p) p
      (with_status (fb_blk c) BlkValid) = Ret f2 /\
    fa_accessBlock f2 0x30000 = Err AssertFailed /\ fa_findBlock f2 0x30000 = Err AssertFailed.
Proof.
  apply (falru_hit_asserts 18 16 2 0 0x30000 5 (Packet_new (mkRequest 0 0x30000 4 0 0 0 0) ReadReq) demo_fa0);
    [lia|lia|vm_compute; reflexivity|vm_compute; discriminate].
Defined.
