(* ===== verification/RegRename.v ===== *)
(** * Register renaming of the out-of-order processor: [cpu/o3/], [cpu/reg_class.hh]

    The free lists, the rename maps, the scoreboard, and what the rename and commit
    stages do with them: renaming the registers of an instruction with a history of
    its changes, undoing the history of squashed instructions, committing, and
    freeing the registers that committed instructions replaced.

    The constants of the instruction set and the flattening of its register indices
    are a parameter.  An instruction is its sequence number, its source and
    destination indices and the counts of its destinations by class. *)

From stdpp Require Import gmap.
From S2P Require Import Prelude.
Local Open Scope Z_scope.

(** ** Register indices *)

Inductive RegClass := IntRegClass | FloatRegClass | CCRegClass | MiscRegClass.

#[export] Instance RegClass_eq_dec : EqDecision RegClass.
Proof. solve_decision. Defined.

Record RegISA := mkRegISA {
  NumIntRegs : nat;
  NumFloatRegs : nat;
  NumCCRegs : nat;
  NumMiscRegs : nat;
  FP_Reg_Base : Z;
  CC_Reg_Base : Z;
  Misc_Reg_Base : Z;
  Max_Reg_Index : Z;
  intZeroReg : Z;
  floatZeroReg : Z;
  flattenIndex : RegClass -> Z -> Z
}.

(** The class and the relative index. *)
Definition regIdxToClass (isa : RegISA) (reg_idx : Z) : res (RegClass * Z) :=
  _ ← cassert (reg_idx <? Max_Reg_Index isa);
  Ret (if reg_idx <? FP_Reg_Base isa then (IntRegClass, reg_idx)
       else if reg_idx <? CC_Reg_Base isa then (FloatRegClass, reg_idx - FP_Reg_Base isa)
       else if reg_idx <? Misc_Reg_Base isa then (CCRegClass, reg_idx - CC_Reg_Base isa)
       else (MiscRegClass, reg_idx - Misc_Reg_Base isa)).

(** ** Physical registers *)

Record PhysRegFile := mkPhysRegFile { baseFloatRegIndex : Z; baseCCRegIndex : Z; totalNumRegs : Z }.

Definition PhysRegFile_new (ints floats ccs : Z) : PhysRegFile :=
  mkPhysRegFile ints (ints + floats) (ints + floats + ccs).

Definition isIntPhysReg (f : PhysRegFile) (r : Z) : bool := (0 <=? r) && (r <? baseFloatRegIndex f).
Definition isFloatPhysReg (f : PhysRegFile) (r : Z) : bool := (baseFloatRegIndex f <=? r) && (r <? baseCCRegIndex f).
Definition isCCPhysReg (f : PhysRegFile) (r : Z) : bool := (baseCCRegIndex f <=? r) && (r <? totalNumRegs f).

(** ** Free lists *)

Definition getReg (l : list Z) : res (Z * list Z) :=
  match l with
  | [] => Err AssertFailed
  | r :: l => Ret (r, l)
  end.

Record UnifiedFreeList := mkUnifiedFreeList { intList : list Z; floatList : list Z; ccList : list Z }.

Definition addReg (f : PhysRegFile) (fl : UnifiedFreeList) (r : Z) : res UnifiedFreeList :=
  if isIntPhysReg f r then Ret (mkUnifiedFreeList (intList fl ++ [r]) (floatList fl) (ccList fl))
  else if isFloatPhysReg f r then Ret (mkUnifiedFreeList (intList fl) (floatList fl ++ [r]) (ccList fl))
  else
    _ ← cassert (isCCPhysReg f r);
    Ret (mkUnifiedFreeList (intList fl) (floatList fl) (ccList fl ++ [r])).

(** [initFreeList] from a register file: the indices of each class in order. *)
Definition initFreeList (f : PhysRegFile) : UnifiedFreeList :=
  mkUnifiedFreeList (seqZ 0 (baseFloatRegIndex f))
    (seqZ (baseFloatRegIndex f) (baseCCRegIndex f - baseFloatRegIndex f))
    (seqZ (baseCCRegIndex f) (totalNumRegs f - baseCCRegIndex f)).

(** ** Rename maps *)

Record SimpleRenameMap := mkSimpleRenameMap { sm_map : list Z; sm_zeroReg : Z }.

(** The vector is sized and filled with zeros. *)
Definition SimpleRenameMap_init (size : nat) (zero : Z) : SimpleRenameMap := mkSimpleRenameMap (replicate size 0) zero.

(** Indexing a vector. *)
Definition reg_index (r : Z) : nat := Z.to_nat r.
Definition sm_read (m : SimpleRenameMap) (r : Z) : res Z := if r <? 0 then Err OutOfBounds else vread (sm_map m) (reg_index r).
Definition sm_setEntry (m : SimpleRenameMap) (r phys : Z) : res SimpleRenameMap :=
  if r <? 0 then Err OutOfBounds
  else l ← vwrite (sm_map m) (reg_index r) phys; Ret (mkSimpleRenameMap l (sm_zeroReg m)).

Definition sm_lookup (m : SimpleRenameMap) (r : Z) : res Z :=
  _ ← cassert (r <? Z.of_nat (length (sm_map m)));
  sm_read m r.

(** The new and the previous register, the map and the free list. *)
Definition sm_rename (m : SimpleRenameMap) (free : list Z) (r : Z) : res (Z * Z * SimpleRenameMap * list Z) :=
  prev_reg ← sm_read m r;
  if negb (r =? sm_zeroReg m) then
    '(renamed_reg, free) ← getReg free;
    m ← sm_setEntry m r renamed_reg;
    Ret (renamed_reg, prev_reg, m, free)
  else
    _ ← cassert (prev_reg =? sm_zeroReg m);
    Ret (sm_zeroReg m, prev_reg, m, free).

Record UnifiedRenameMap := mkUnifiedRenameMap { intMap : SimpleRenameMap; floatMap : SimpleRenameMap; ccMap : SimpleRenameMap }.

(** The map of condition codes has the size of that of floating point. *)
Definition UnifiedRenameMap_init (isa : RegISA) : UnifiedRenameMap :=
  mkUnifiedRenameMap (SimpleRenameMap_init (NumIntRegs isa) (intZeroReg isa))
    (SimpleRenameMap_init (NumFloatRegs isa) (floatZeroReg isa)) (SimpleRenameMap_init (NumFloatRegs isa) (-1)).

Definition lookupMisc (f : PhysRegFile) (r : Z) : Z := r + totalNumRegs f.

Definition class_lookup (f : PhysRegFile) (m : UnifiedRenameMap) (cl : RegClass) (r : Z) : res Z :=
  match cl with
  | IntRegClass => p ← sm_lookup (intMap m) r; _ ← cassert (isIntPhysReg f p); Ret p
  | FloatRegClass => p ← sm_lookup (floatMap m) r; _ ← cassert (isFloatPhysReg f p); Ret p
  | CCRegClass => p ← sm_lookup (ccMap m) r; _ ← cassert (isCCPhysReg f p); Ret p
  | MiscRegClass => Ret (lookupMisc f r)
  end.

Definition class_rename (f : PhysRegFile) (m : UnifiedRenameMap) (fl : UnifiedFreeList) (cl : RegClass) (r : Z)
    : res (Z * Z * UnifiedRenameMap * UnifiedFreeList) :=
  match cl with
  | IntRegClass =>
      '(n, p, im, l) ← sm_rename (intMap m) (intList fl) r;
      _ ← cassert (isIntPhysReg f n);
      Ret (n, p, mkUnifiedRenameMap im (floatMap m) (ccMap m), mkUnifiedFreeList l (floatList fl) (ccList fl))
  | FloatRegClass =>
      '(n, p, fm, l) ← sm_rename (floatMap m) (floatList fl) r;
      _ ← cassert (isFloatPhysReg f n);
      Ret (n, p, mkUnifiedRenameMap (intMap m) fm (ccMap m), mkUnifiedFreeList (intList fl) l (ccList fl))
  | CCRegClass =>
      '(n, p, cm, l) ← sm_rename (ccMap m) (ccList fl) r;
      _ ← cassert (isCCPhysReg f n);
      Ret (n, p, mkUnifiedRenameMap (intMap m) (floatMap m) cm, mkUnifiedFreeList (intList fl) (floatList fl) l)
  | MiscRegClass => Ret (lookupMisc f r, lookupMisc f r, m, fl)
  end.

Definition class_setEntry (f : PhysRegFile) (m : UnifiedRenameMap) (cl : RegClass) (r phys : Z) : res UnifiedRenameMap :=
  match cl with
  | IntRegClass =>
      _ ← cassert (isIntPhysReg f phys); x ← sm_setEntry (intMap m) r phys; Ret (mkUnifiedRenameMap x (floatMap m) (ccMap m))
  | FloatRegClass =>
      _ ← cassert (isFloatPhysReg f phys); x ← sm_setEntry (floatMap m) r phys; Ret (mkUnifiedRenameMap (intMap m) x (ccMap m))
  | CCRegClass =>
      _ ← cassert (isCCPhysReg f phys); x ← sm_setEntry (ccMap m) r phys; Ret (mkUnifiedRenameMap (intMap m) (floatMap m) x)
  | MiscRegClass => _ ← cassert (phys =? lookupMisc f r); Ret m
  end.

(** The versions on unified indices. *)
Definition um_lookup (isa : RegISA) (f : PhysRegFile) (m : UnifiedRenameMap) (r : Z) : res Z :=
  '(cl, r) ← regIdxToClass isa r; class_lookup f m cl r.
Definition um_setEntry (isa : RegISA) (f : PhysRegFile) (m : UnifiedRenameMap) (r phys : Z) : res UnifiedRenameMap :=
  '(cl, r) ← regIdxToClass isa r; class_setEntry f m cl r phys.
Definition um_rename (isa : RegISA) (f : PhysRegFile) (m : UnifiedRenameMap) (fl : UnifiedFreeList) (r : Z)
    : res (Z * Z * UnifiedRenameMap * UnifiedFreeList) :=
  '(cl, r) ← regIdxToClass isa r; class_rename f m fl cl r.

Definition um_numFreeEntries (fl : UnifiedFreeList) : nat := Nat.min (length (intList fl)) (length (floatList fl)).

Definition canRename (fl : UnifiedFreeList) (intRegs floatRegs ccRegs : nat) : bool :=
  (intRegs <=? length (intList fl))%nat && (floatRegs <=? length (floatList fl))%nat && (ccRegs <=? length (ccList fl))%nat.

(** ** Scoreboard *)

(** [fpZero] is the index of the floating-point zero register, on Alpha. *)
Record Scoreboard := mkScoreboard {
  regScoreBoard : list bool;
  numTotalRegs : Z;
  zeroRegIdx : Z;
  fpZero : option Z
}.

Definition Scoreboard_new (phys misc : nat) (zero : Z) (fp : option Z) : Scoreboard :=
  mkScoreboard (replicate phys true) (Z.of_nat (phys + misc)) zero fp.

Definition isZeroReg (b : Scoreboard) (r : Z) : bool :=
  (r =? zeroRegIdx b) || match fpZero b with Some z => r =? z | None => false end.

Definition sb_get (b : Scoreboard) (r : Z) : res bool :=
  _ ← cassert (r <? numTotalRegs b);
  if Z.of_nat (length (regScoreBoard b)) <=? r then Ret true
  else
    ready ← (if r <? 0 then Err OutOfBounds else vread (regScoreBoard b) (reg_index r));
    _ ← (if isZeroReg b r then cassert ready else Ret tt);
    Ret ready.

Definition sb_write (b : Scoreboard) (r : Z) (x : bool) : res Scoreboard :=
  l ← (if r <? 0 then Err OutOfBounds else vwrite (regScoreBoard b) (reg_index r) x);
  Ret (mkScoreboard l (numTotalRegs b) (zeroRegIdx b) (fpZero b)).

Definition sb_set (b : Scoreboard) (r : Z) : res Scoreboard :=
  _ ← cassert (r <? numTotalRegs b);
  if Z.of_nat (length (regScoreBoard b)) <=? r then Ret b else sb_write b r true.

Definition sb_unset (b : Scoreboard) (r : Z) : res Scoreboard :=
  _ ← cassert (r <? numTotalRegs b);
  if Z.of_nat (length (regScoreBoard b)) <=? r then Ret b
  else if isZeroReg b r then Ret b else sb_write b r false.

(** ** The rename stage *)

Record RenameHistory := mkRenameHistory { instSeqNum : Z; archReg : Z; newPhysReg : Z; prevPhysReg : Z }.

Record RInst := mkRInst {
  ri_seq : Z;
  ri_srcs : list Z;
  ri_dests : list Z;
  numIntDestRegs : nat;
  numFPDestRegs : nat;
  numCCDestRegs : nat
}.

(** A thread: the maps of the rename and of the commit stage, and the history, the
    newest entry first. *)
Record RThread := mkRThread { rt_map : UnifiedRenameMap; rt_commit : UnifiedRenameMap; rt_history : list RenameHistory }.

Record RState := mkRState { rs_free : UnifiedFreeList; rs_score : Scoreboard; rs_threads : list RThread }.

Section stage.
Context (isa : RegISA) (f : PhysRegFile).

(** The flattened index within its class; misc registers are not flattened. *)
Definition flat_rel (cl : RegClass) (r : Z) : Z := match cl with MiscRegClass => r | _ => flattenIndex isa cl r end.

(** The flattened unified index. *)
Definition flat_uni (cl : RegClass) (r : Z) : Z :=
  match cl with
  | IntRegClass => r
  | FloatRegClass => r + FP_Reg_Base isa
  | CCRegClass => r + CC_Reg_Base isa
  | MiscRegClass => r + Misc_Reg_Base isa
  end.

(** For each source its physical register and whether it is ready. *)
Fixpoint renameSrcRegs (m : UnifiedRenameMap) (sb : Scoreboard) (srcs : list Z) : res (list (Z * bool)) :=
  match srcs with
  | [] => Ret []
  | src :: srcs =>
      '(cl, r) ← regIdxToClass isa src;
      p ← class_lookup f m cl (flat_rel cl r);
      ready ← sb_get sb p;
      l ← renameSrcRegs m sb srcs;
      Ret ((p, ready) :: l)
  end.

(** One destination: the history entry it leaves. *)
Definition renameDestReg (seq : Z) (m : UnifiedRenameMap) (fl : UnifiedFreeList) (sb : Scoreboard) (dest : Z)
    : res (RenameHistory * UnifiedRenameMap * UnifiedFreeList * Scoreboard) :=
  '(cl, r) ← regIdxToClass isa dest;
  let r := flat_rel cl r in
  '(new, prev, m, fl) ← class_rename f m fl cl r;
  sb ← sb_unset sb new;
  Ret (mkRenameHistory seq (flat_uni cl r) new prev, m, fl, sb).

Fixpoint renameDestRegs (seq : Z) (m : UnifiedRenameMap) (fl : UnifiedFreeList) (sb : Scoreboard) (h : list RenameHistory)
    (dests : list Z) : res (list RenameHistory * UnifiedRenameMap * UnifiedFreeList * Scoreboard) :=
  match dests with
  | [] => Ret (h, m, fl, sb)
  | dest :: dests =>
      '(e, m, fl, sb) ← renameDestReg seq m fl sb dest;
      renameDestRegs seq m fl sb (e :: h) dests
  end.

(** An instruction in [renameInsts]: [None] when it has to wait for registers. *)
Definition rename_inst (s : RState) (tid : nat) (inst : RInst) : res (option (list (Z * bool)) * RState) :=
  t ← vread (rs_threads s) tid;
  if negb (canRename (rs_free s) (numIntDestRegs inst) (numFPDestRegs inst) (numCCDestRegs inst)) then Ret (None, s)
  else
    srcs ← renameSrcRegs (rt_map t) (rs_score s) (ri_srcs inst);
    '(h, m, fl, sb) ← renameDestRegs (ri_seq inst) (rt_map t) (rs_free s) (rs_score s) (rt_history t) (ri_dests inst);
    Ret (Some srcs, mkRState fl sb (<[tid := mkRThread m (rt_commit t) h]> (rs_threads s))).

(** The loop of [doSquash] from the newest entry on. *)
Fixpoint doSquash_loop (n : Z) (m : UnifiedRenameMap) (fl : UnifiedFreeList) (h : list RenameHistory)
    : res (list RenameHistory * UnifiedRenameMap * UnifiedFreeList) :=
  match h with
  | [] => Ret ([], m, fl)
  | e :: h' =>
      if n <? instSeqNum e then
        '(m, fl) ← (if negb (newPhysReg e =? prevPhysReg e) then
                      m ← um_setEntry isa f m (archReg e) (prevPhysReg e);
                      fl ← addReg f fl (newPhysReg e);
                      Ret (m, fl)
                    else Ret (m, fl));
        doSquash_loop n m fl h'
      else Ret (h, m, fl)
  end.

Definition doSquash (s : RState) (tid : nat) (n : Z) : res RState :=
  t ← vread (rs_threads s) tid;
  '(h, m, fl) ← doSquash_loop n (rt_map t) (rs_free s) (rt_history t);
  Ret (mkRState fl (rs_score s) (<[tid := mkRThread m (rt_commit t) h]> (rs_threads s))).

(** The loop of [removeFromHistory]; the list has the oldest entry first. *)
Fixpoint remove_loop (n : Z) (fl : UnifiedFreeList) (h : list RenameHistory) : res (list RenameHistory * UnifiedFreeList) :=
  match h with
  | [] => Ret ([], fl)
  | e :: h' =>
      if instSeqNum e <=? n then
        fl ← (if negb (newPhysReg e =? prevPhysReg e) then addReg f fl (prevPhysReg e) else Ret fl);
        remove_loop n fl h'
      else Ret (h, fl)
  end.

Definition removeFromHistory (s : RState) (tid : nat) (n : Z) : res RState :=
  t ← vread (rs_threads s) tid;
  '(h, fl) ← remove_loop n (rs_free s) (reverse (rt_history t));
  Ret (mkRState fl (rs_score s) (<[tid := mkRThread (rt_map t) (rt_commit t) (reverse h)]> (rs_threads s))).

(** ** Commit: the destinations of the instruction at the head *)

Fixpoint commit_dests (m : UnifiedRenameMap) (ds : list (Z * Z)) : res UnifiedRenameMap :=
  match ds with
  | [] => Ret m
  | (r, p) :: ds => m ← um_setEntry isa f m r p; commit_dests m ds
  end.

Definition commit_head (s : RState) (tid : nat) (ds : list (Z * Z)) : res RState :=
  t ← vread (rs_threads s) tid;
  m ← commit_dests (rt_commit t) ds;
  Ret (mkRState (rs_free s) (rs_score s) (<[tid := mkRThread (rt_map t) m (rt_history t)]> (rs_threads s))).

(** An instruction writes back: its destinations become ready. *)
Fixpoint set_regs (sb : Scoreboard) (ps : list Z) : res Scoreboard :=
  match ps with
  | [] => Ret sb
  | p :: ps => sb ← sb_set sb p; set_regs sb ps
  end.

Definition writebackInst (s : RState) (ps : list Z) : res RState :=
  sb ← set_regs (rs_score s) ps;
  Ret (mkRState (rs_free s) sb (rs_threads s)).

(** ** Start *)

(** The registers [r] to [r + n - 1] of a class get the next free registers. *)
Fixpoint map_class (cl : RegClass) (n : nat) (r : Z) (m : UnifiedRenameMap) (free : list Z) : res (UnifiedRenameMap * list Z) :=
  match n with
  | O => Ret (m, free)
  | S n =>
      '(p, free) ← getReg free;
      m ← class_setEntry f m cl r p;
      map_class cl n (r + 1) m free
  end.

(** The maps of one thread; the commit map gets the same entries. *)
Definition map_thread (fl : UnifiedFreeList) : res (RThread * UnifiedFreeList) :=
  let m := UnifiedRenameMap_init isa in
  '(m, il) ← map_class IntRegClass (NumIntRegs isa) 0 m (intList fl);
  '(m, fll) ← map_class FloatRegClass (NumFloatRegs isa) 0 m (floatList fl);
  '(m, cl) ← map_class CCRegClass (NumCCRegs isa) 0 m (ccList fl);
  Ret (mkRThread m m [], mkUnifiedFreeList il fll cl).

Fixpoint map_threads (n : nat) (fl : UnifiedFreeList) : res (list RThread * UnifiedFreeList) :=
  match n with
  | O => Ret ([], fl)
  | S n =>
      '(t, fl) ← map_thread fl;
      '(ts, fl) ← map_threads n fl;
      Ret (t :: ts, fl)
  end.
End stage.

(** The start of the processor with its assertions; only the maps of the active
    threads are filled.  The scoreboard gets the same index for both zero registers,
    and looks at the second on Alpha. *)
Definition o3_start (isa : RegISA) (threads active : nat) (ints floats ccs : nat) (alpha : bool) : res (PhysRegFile * RState) :=
  let f := PhysRegFile_new (Z.of_nat ints) (Z.of_nat floats) (Z.of_nat ccs) in
  _ ← cassert (threads * NumIntRegs isa <=? ints)%nat;
  _ ← cassert (threads * NumFloatRegs isa <=? floats)%nat;
  _ ← cassert (threads * NumCCRegs isa <=? ccs)%nat;
  '(ts, fl) ← map_threads isa f active (initFreeList f);
  Ret (f, mkRState fl (Scoreboard_new (ints + floats + ccs) (NumMiscRegs isa) (intZeroReg isa)
                       (if alpha then Some (intZeroReg isa) else None)) ts).

(** ** Maps as lists *)

(** The layout of the register indices. *)
Record isa_ok (isa : RegISA) : Prop := {
  io_fp : Z.of_nat (NumIntRegs isa) <= FP_Reg_Base isa;
  io_cc : CC_Reg_Base isa = FP_Reg_Base isa + Z.of_nat (NumFloatRegs isa);
  io_misc : Misc_Reg_Base isa = CC_Reg_Base isa + Z.of_nat (NumCCRegs isa);
  io_max : Misc_Reg_Base isa + Z.of_nat (NumMiscRegs isa) <= Max_Reg_Index isa;
  io_ccs : (NumCCRegs isa <= NumFloatRegs isa)%nat
}.

Record file_ok (f : PhysRegFile) : Prop := { fo_float : 0 <= baseFloatRegIndex f <= baseCCRegIndex f; fo_total : baseCCRegIndex f <= totalNumRegs f }.

Section maps.
Context (isa : RegISA) (f : PhysRegFile) (Hisa : isa_ok isa) (Hf : file_ok f).

Definition class_size (cl : RegClass) : nat :=
  match cl with IntRegClass => NumIntRegs isa | FloatRegClass => NumFloatRegs isa | CCRegClass => NumCCRegs isa | MiscRegClass => NumMiscRegs isa end.
Definition in_class (cl : RegClass) (r : Z) : Prop := 0 <= r < Z.of_nat (class_size cl).

(** The physical registers of a class; misc registers have indices beyond. *)
Definition phys_class (cl : RegClass) (p : Z) : bool :=
  match cl with
  | IntRegClass => isIntPhysReg f p
  | FloatRegClass => isFloatPhysReg f p
  | CCRegClass => isCCPhysReg f p
  | MiscRegClass => totalNumRegs f <=? p
  end.

(** The place of a register in the list of all renamed registers. *)
Definition place (cl : RegClass) (r : Z) : option nat :=
  match cl with
  | IntRegClass => Some (Z.to_nat r)
  | FloatRegClass => Some (NumIntRegs isa + Z.to_nat r)%nat
  | CCRegClass => Some (NumIntRegs isa + NumFloatRegs isa + Z.to_nat r)%nat
  | MiscRegClass => None
  end.

(** The entries in use; the map of condition codes is longer. *)
Definition entries (m : UnifiedRenameMap) : list Z :=
  sm_map (intMap m) ++ sm_map (floatMap m) ++ take (NumCCRegs isa) (sm_map (ccMap m)).

Record map_ok (m : UnifiedRenameMap) : Prop := {
  mo_int : length (sm_map (intMap m)) = NumIntRegs isa;
  mo_float : length (sm_map (floatMap m)) = NumFloatRegs isa;
  mo_cc : length (sm_map (ccMap m)) = NumFloatRegs isa;
  mo_zint : sm_zeroReg (intMap m) = intZeroReg isa;
  mo_zfloat : sm_zeroReg (floatMap m) = floatZeroReg isa;
  mo_zcc : sm_zeroReg (ccMap m) = -1;
  mo_ints : Forall (fun p => isIntPhysReg f p = true) (sm_map (intMap m));
  mo_floats : Forall (fun p => isFloatPhysReg f p = true) (sm_map (floatMap m));
  mo_ccs : Forall (fun p => isCCPhysReg f p = true) (take (NumCCRegs isa) (sm_map (ccMap m)))
}.

Definition num_entries : nat := (NumIntRegs isa + NumFloatRegs isa + NumCCRegs isa)%nat.

Lemma entries_length m : map_ok m -> length (entries m) = num_entries.
Proof.
  intros []. pose proof (io_ccs _ Hisa). unfold entries, num_entries. rewrite !length_app, length_take. lia.
Qed.

Lemma place_lt cl r n : in_class cl r -> place cl r = Some n -> (n < num_entries)%nat.
Proof. unfold in_class, num_entries. destruct cl; cbn; intros ? H; try discriminate H; injection H as <-; lia. Qed.

Lemma place_inj cl r cl' r' n : in_class cl r -> in_class cl' r' -> place cl r = Some n -> place cl' r' = Some n -> cl = cl' /\ r = r'.
Proof. unfold in_class. destruct cl, cl'; cbn; intros ? ? H1 H2; try discriminate H1; try discriminate H2; injection H1 as <-; injection H2 as E; first [by split; [done|lia] | lia]. Qed.

(** Unified indices. *)
Lemma regIdx_flat cl r : in_class cl r -> regIdxToClass isa (flat_uni isa cl r) = Ret (cl, r).
Proof.
  intros Hr. destruct Hisa as [H1 H2 H3 H4 _]. unfold in_class, regIdxToClass, flat_uni in *.
  rewrite cassert_true by (apply Z.ltb_lt; destruct cl; cbn in Hr; lia). cbn [mbind res_bind].
  destruct cl; cbn in Hr.
  - by rewrite (proj2 (Z.ltb_lt _ _)) by lia.
  - rewrite (proj2 (Z.ltb_ge _ _)), (proj2 (Z.ltb_lt _ _)) by lia. do 2 f_equal. lia.
  - rewrite (proj2 (Z.ltb_ge _ (FP_Reg_Base isa))), (proj2 (Z.ltb_ge _ (CC_Reg_Base isa))), (proj2 (Z.ltb_lt _ _)) by lia. do 2 f_equal. lia.
  - rewrite (proj2 (Z.ltb_ge _ (FP_Reg_Base isa))), (proj2 (Z.ltb_ge _ (CC_Reg_Base isa))), (proj2 (Z.ltb_ge _ (Misc_Reg_Base isa))) by lia.
    do 2 f_equal. lia.
Qed.

(** The part of a class, and the list with that part replaced. *)
Definition class_map (m : UnifiedRenameMap) (cl : RegClass) : SimpleRenameMap :=
  match cl with FloatRegClass => floatMap m | CCRegClass => ccMap m | _ => intMap m end.
Definition set_class_map (m : UnifiedRenameMap) (cl : RegClass) (x : SimpleRenameMap) : UnifiedRenameMap :=
  match cl with
  | FloatRegClass => mkUnifiedRenameMap (intMap m) x (ccMap m)
  | CCRegClass => mkUnifiedRenameMap (intMap m) (floatMap m) x
  | _ => mkUnifiedRenameMap x (floatMap m) (ccMap m)
  end.

Lemma class_map_length m cl r : map_ok m -> cl <> MiscRegClass -> in_class cl r -> 0 <= r < Z.of_nat (length (sm_map (class_map m cl))).
Proof.
  intros [H1 H2 H3 _ _ _ _ _ _] Hcl Hr. pose proof (io_ccs _ Hisa). unfold in_class in Hr. destruct cl; cbn in *; try done; lia.
Qed.

Lemma entries_lookup m cl r n : map_ok m -> in_class cl r -> place cl r = Some n ->
  entries m !! n = sm_map (class_map m cl) !! Z.to_nat r.
Proof.
  intros [H1 H2 H3 _ _ _ _ _ _] Hr Hn. unfold in_class, entries in *. destruct cl; cbn in *; try discriminate Hn; injection Hn as <-.
  - by rewrite lookup_app_l by lia.
  - rewrite lookup_app_r, lookup_app_l by lia. f_equal. lia.
  - rewrite lookup_app_r, lookup_app_r by lia. rewrite lookup_take_lt by lia. f_equal. lia.
Qed.

Lemma entries_insert m cl r n p : map_ok m -> in_class cl r -> place cl r = Some n -> phys_class cl p = true ->
  let x := mkSimpleRenameMap (<[Z.to_nat r := p]> (sm_map (class_map m cl))) (sm_zeroReg (class_map m cl)) in
  entries (set_class_map m cl x) = <[n := p]> (entries m) /\ map_ok (set_class_map m cl x).
Proof.
  intros [H1 H2 H3 Z1 Z2 Z3 F1 F2 F3] Hr Hn Hp. unfold in_class, entries in *. destruct cl; cbn in *; try discriminate Hn; injection Hn as <-.
  - rewrite insert_app_l by lia. split; [done|]. split; cbn; rewrite ?length_insert; try done. by apply Forall_insert.
  - rewrite insert_app_r_alt, insert_app_l by lia. split; [do 3 f_equal; lia|].
    split; cbn; rewrite ?length_insert; try done. by apply Forall_insert.
  - rewrite insert_app_r_alt, insert_app_r_alt by lia. split.
    + do 2 f_equal. rewrite take_insert_lt by lia. f_equal. lia.
    + split; cbn; rewrite ?length_insert; try done. rewrite take_insert_lt by lia. by apply Forall_insert.
Qed.

(** An update of the list of entries. *)
Definition upd (n : option nat) (p : Z) (l : list Z) : list Z := match n with Some n => <[n := p]> l | None => l end.

(** The registers a class may map to: misc registers have one each. *)
Definition target (cl : RegClass) (r p : Z) : Prop := phys_class cl p = true /\ (cl = MiscRegClass -> p = lookupMisc f r).

(** What the map says of a register. *)
Definition maps_to (l : list Z) (cl : RegClass) (r p : Z) : Prop :=
  target cl r p /\ forall n, place cl r = Some n -> l !! n = Some p.

Lemma class_forall m cl : map_ok m -> cl <> MiscRegClass -> forall r p, in_class cl r -> sm_map (class_map m cl) !! Z.to_nat r = Some p -> phys_class cl p = true.
Proof.
  intros [_ _ _ _ _ _ F1 F2 F3] Hcl r p Hr Hp. unfold in_class in Hr. destruct cl; cbn in *; try done.
  - exact (Forall_lookup_1 _ _ _ _ F1 Hp).
  - exact (Forall_lookup_1 _ _ _ _ F2 Hp).
  - apply (Forall_lookup_1 _ _ (Z.to_nat r) _ F3). by rewrite lookup_take_lt by lia.
Qed.

Lemma sm_read_in m r : 0 <= r < Z.of_nat (length (sm_map m)) -> exists p, sm_map m !! Z.to_nat r = Some p /\ sm_read m r = Ret p.
Proof.
  intros Hr. destruct (lookup_lt_is_Some_2 (sm_map m) (Z.to_nat r)) as [p Hp]; [lia|]. exists p. split; [done|].
  unfold sm_read. rewrite (proj2 (Z.ltb_ge _ _)) by lia. by apply vread_some.
Qed.

Lemma sm_set_in m r p : 0 <= r < Z.of_nat (length (sm_map m)) ->
  sm_setEntry m r p = Ret (mkSimpleRenameMap (<[Z.to_nat r := p]> (sm_map m)) (sm_zeroReg m)).
Proof.
  intros Hr. unfold sm_setEntry. rewrite (proj2 (Z.ltb_ge _ _)) by lia. unfold reg_index. by rewrite vwrite_lt by lia.
Qed.

(** The classes as one operation. *)
Lemma class_lookup_eq m cl r : cl <> MiscRegClass ->
  class_lookup f m cl r = (p ← sm_lookup (class_map m cl) r; _ ← cassert (phys_class cl p); Ret p).
Proof. by destruct cl. Qed.

Lemma class_setEntry_eq m cl r p : cl <> MiscRegClass ->
  class_setEntry f m cl r p = (_ ← cassert (phys_class cl p); x ← sm_setEntry (class_map m cl) r p; Ret (set_class_map m cl x)).
Proof. by destruct cl. Qed.

Definition class_free (fl : UnifiedFreeList) (cl : RegClass) : list Z :=
  match cl with IntRegClass => intList fl | FloatRegClass => floatList fl | CCRegClass => ccList fl | MiscRegClass => [] end.
Definition set_class_free (fl : UnifiedFreeList) (cl : RegClass) (l : list Z) : UnifiedFreeList :=
  match cl with
  | FloatRegClass => mkUnifiedFreeList (intList fl) l (ccList fl)
  | CCRegClass => mkUnifiedFreeList (intList fl) (floatList fl) l
  | _ => mkUnifiedFreeList l (floatList fl) (ccList fl)
  end.

Lemma class_rename_eq m fl cl r : cl <> MiscRegClass ->
  class_rename f m fl cl r =
    ('(n, p, x, l) ← sm_rename (class_map m cl) (class_free fl cl) r;
     _ ← cassert (phys_class cl n); Ret (n, p, set_class_map m cl x, set_class_free fl cl l)).
Proof. by destruct cl. Qed.

Lemma class_lookup_ok m cl r : map_ok m -> in_class cl r -> exists p, class_lookup f m cl r = Ret p /\ maps_to (entries m) cl r p.
Proof.
  intros Hm Hr. destruct (decide (cl = MiscRegClass)) as [->|Hcl].
  - exists (lookupMisc f r). split; [done|]. split; [split; [|done]|done]. unfold in_class in Hr. cbn. unfold lookupMisc. apply Z.leb_le. lia.
  - pose proof (class_map_length m cl r Hm Hcl Hr) as Hl. destruct (sm_read_in _ _ Hl) as (p & Hp & Hrd). exists p.
    pose proof (class_forall m cl Hm Hcl r p Hr Hp) as Hc. split.
    + rewrite class_lookup_eq by done. unfold sm_lookup. rewrite cassert_true by (apply Z.ltb_lt; lia). cbn [mbind res_bind].
      rewrite Hrd. cbn. by rewrite Hc.
    + split; [done|]. intros n Hn. by rewrite (entries_lookup m cl r n).
Qed.

Lemma class_setEntry_ok m cl r p : map_ok m -> in_class cl r -> target cl r p ->
  exists m', class_setEntry f m cl r p = Ret m' /\ map_ok m' /\ entries m' = upd (place cl r) p (entries m).
Proof.
  intros Hm Hr [Hp Hmisc]. destruct (decide (cl = MiscRegClass)) as [->|Hcl].
  - exists m. cbn. by rewrite Hmisc, Z.eqb_refl.
  - pose proof (class_map_length m cl r Hm Hcl Hr) as Hl. rewrite class_setEntry_eq, Hp by done. cbn [cassert mbind res_bind].
    rewrite sm_set_in by done. eexists. split; [done|].
    assert (exists n, place cl r = Some n) as [n Hn] by (destruct cl; [by eexists..|done]).
    destruct (entries_insert m cl r n p Hm Hr Hn Hp) as [He Ho]. rewrite Hn. by split.
Qed.

Lemma um_setEntry_ok m cl r p : map_ok m -> in_class cl r -> target cl r p ->
  exists m', um_setEntry isa f m (flat_uni isa cl r) p = Ret m' /\ map_ok m' /\ entries m' = upd (place cl r) p (entries m).
Proof. intros Hm Hr Hp. unfold um_setEntry. rewrite regIdx_flat by done. by apply class_setEntry_ok. Qed.

(** ** Free lists and renaming *)

Definition free_all (fl : UnifiedFreeList) : list Z := intList fl ++ floatList fl ++ ccList fl.
Definition free_ok (fl : UnifiedFreeList) : Prop := forall cl, Forall (fun p => phys_class cl p = true) (class_free fl cl).

Lemma free_ok_set fl cl l : free_ok fl -> cl <> MiscRegClass -> Forall (fun p => phys_class cl p = true) l -> free_ok (set_class_free fl cl l).
Proof. intros H ? Hl cl'. pose proof (H cl'). destruct cl, cl'; cbn in *; done. Qed.

Lemma phys_class_cases p : 0 <= p < totalNumRegs f -> exists cl, cl <> MiscRegClass /\ phys_class cl p = true.
Proof.
  destruct Hf as [H1 H2]. intros Hp.
  destruct (Z.ltb_spec p (baseFloatRegIndex f)); [exists IntRegClass|destruct (Z.ltb_spec p (baseCCRegIndex f)); [exists FloatRegClass|exists CCRegClass]];
    (split; [done|]); cbn; unfold isIntPhysReg, isFloatPhysReg, isCCPhysReg; apply andb_true_intro; split; first [apply Z.leb_le|apply Z.ltb_lt]; lia.
Qed.

Lemma phys_class_range cl p : cl <> MiscRegClass -> phys_class cl p = true -> 0 <= p < totalNumRegs f.
Proof.
  destruct Hf as [H1 H2]. destruct cl; try done; cbn; unfold isIntPhysReg, isFloatPhysReg, isCCPhysReg;
    intros _ [Ha%Z.leb_le Hb%Z.ltb_lt]%andb_true_iff; lia.
Qed.

Lemma phys_class_inj cl cl' p : phys_class cl p = true -> phys_class cl' p = true -> cl = cl'.
Proof.
  destruct Hf as [H1 H2]. destruct cl, cl'; try done; cbn; unfold isIntPhysReg, isFloatPhysReg, isCCPhysReg;
    rewrite ?andb_true_iff, ?Z.leb_le, ?Z.ltb_lt; lia.
Qed.

(** A register goes to the list of its class. *)
Lemma addReg_class fl cl p : cl <> MiscRegClass -> phys_class cl p = true ->
  addReg f fl p = Ret (set_class_free fl cl (class_free fl cl ++ [p])).
Proof.
  intros Hcl Hp. unfold addReg.
  destruct (isIntPhysReg f p) eqn:E1; [by rewrite <- (phys_class_inj IntRegClass cl p E1 Hp)|].
  destruct (isFloatPhysReg f p) eqn:E2; [by rewrite <- (phys_class_inj FloatRegClass cl p E2 Hp)|].
  destruct cl; cbn in Hp; try congruence. by rewrite Hp.
Qed.

Lemma free_all_add fl cl p : cl <> MiscRegClass -> free_all (set_class_free fl cl (class_free fl cl ++ [p])) ≡ₚ p :: free_all fl.
Proof. intros Hcl. unfold free_all. destruct cl; try done; cbn; solve_Permutation. Qed.

Lemma addReg_ok fl cl p : free_ok fl -> cl <> MiscRegClass -> phys_class cl p = true ->
  exists fl', addReg f fl p = Ret fl' /\ free_ok fl' /\ free_all fl' ≡ₚ p :: free_all fl.
Proof.
  intros Hfl Hcl Hp. eexists. split; [by apply addReg_class|]. split; [|by apply free_all_add].
  apply free_ok_set; [done|done|]. apply Forall_app. split; [apply Hfl|]. by apply Forall_singleton.
Qed.

(** The zero register of a class. *)
Definition zero_reg (cl : RegClass) : Z :=
  match cl with IntRegClass => intZeroReg isa | FloatRegClass => floatZeroReg isa | _ => -1 end.

(** The integer zero register is mapped to the physical register of its number. *)
Definition zero_ok (l : list Z) : Prop := forall n, place IntRegClass (intZeroReg isa) = Some n -> 0 <= intZeroReg isa -> l !! n = Some (intZeroReg isa).

(** The destinations of a thread: a zero register only as the integer one of the
    first thread. *)
Definition dest_ok (tid : nat) (cl : RegClass) (r : Z) : Prop :=
  in_class cl r /\ (r = zero_reg cl -> cl = IntRegClass /\ tid = O).

(** What renaming one register does: nothing, or the next free register. *)
Inductive renamed (m : UnifiedRenameMap) (fl : UnifiedFreeList) (cl : RegClass) (r : Z) : Z -> Z -> UnifiedRenameMap -> UnifiedFreeList -> Prop :=
  | renamed_same p : maps_to (entries m) cl r p -> cl = MiscRegClass \/ r = zero_reg cl -> renamed m fl cl r p p m fl
  | renamed_new n p m' l : cl <> MiscRegClass -> r <> zero_reg cl -> class_free fl cl = n :: l ->
      maps_to (entries m) cl r p -> target cl r n -> map_ok m' -> entries m' = upd (place cl r) n (entries m) ->
      renamed m fl cl r n p m' (set_class_free fl cl l).

Lemma class_zero m cl : map_ok m -> cl <> MiscRegClass -> sm_zeroReg (class_map m cl) = zero_reg cl.
Proof. intros [_ _ _ Z1 Z2 Z3 _ _ _] ?. by destruct cl. Qed.

Lemma class_rename_ok tid m fl cl r : map_ok m -> free_ok fl -> (tid = O -> zero_ok (entries m)) -> dest_ok tid cl r ->
  (cl <> MiscRegClass -> r <> zero_reg cl -> class_free fl cl <> []) ->
  exists n p m' fl', class_rename f m fl cl r = Ret (n, p, m', fl') /\ renamed m fl cl r n p m' fl'.
Proof.
  intros Hm Hfl Hz [Hr Hzr] Hroom. destruct (class_lookup_ok m cl r Hm Hr) as (p & Hlk & Hp).
  destruct (decide (cl = MiscRegClass)) as [->|Hcl].
  { injection Hlk as <-. do 4 eexists. split; [done|]. apply renamed_same; [done|by left]. }
  rewrite class_rename_eq by done. unfold sm_rename. pose proof (class_map_length m cl r Hm Hcl Hr) as Hl.
  assert (exists i, place cl r = Some i) as [i Hi] by (destruct cl; [by eexists..|done]).
  destruct (sm_read_in _ _ Hl) as (p' & Hp' & ->). cbn [mbind res_bind].
  assert (p' = p) as ->.
  { destruct Hp as [_ Hp]. specialize (Hp _ Hi). rewrite (entries_lookup m cl r i) in Hp by done. congruence. }
  rewrite class_zero by done. destruct (Z.eqb_spec r (zero_reg cl)) as [Er|Er]; cbn [negb].
  - destruct (Hzr Er) as [-> ->]. cbn [zero_reg] in *. subst r.
    assert (p = intZeroReg isa) as ->.
    { destruct Hp as [_ Hp]. specialize (Hp _ Hi). rewrite (Hz eq_refl i Hi) in Hp; [by injection Hp|apply Hr]. }
    rewrite Z.eqb_refl. cbn [cassert mbind res_bind]. pose proof (proj1 (proj1 Hp)) as Hc. rewrite Hc. cbn [cassert mbind res_bind].
    do 4 eexists. split; [done|].
    replace (set_class_map _ _ _) with m by (by destruct m as [[] ? ?]).
    replace (set_class_free _ _ _) with fl by (by destruct fl).
    apply renamed_same; [done|by right].
  - destruct (class_free fl cl) as [|n l] eqn:El; [by destruct (Hroom Hcl Er)|]. cbn [getReg mbind res_bind].
    rewrite sm_set_in by done. cbn [mbind res_bind].
    assert (phys_class cl n = true) as Hn by (pose proof (Hfl cl) as H; rewrite El in H; by inversion H).
    rewrite Hn. cbn [cassert mbind res_bind]. do 4 eexists. split; [done|].
    destruct (entries_insert m cl r i n Hm Hr Hi Hn) as [He Ho]. rewrite (class_zero m cl Hm Hcl) in *.
    apply renamed_new; try done. by rewrite Hi.
Qed.

(** ** Scoreboard *)

Record sb_ok (sb : Scoreboard) : Prop := {
  so_len : Z.of_nat (length (regScoreBoard sb)) = totalNumRegs f;
  so_num : numTotalRegs sb = totalNumRegs f + Z.of_nat (NumMiscRegs isa);
  so_zero : forall z, isZeroReg sb z = true <-> z = intZeroReg isa;
  so_ready : forall z, isZeroReg sb z = true -> 0 <= z < totalNumRegs f -> regScoreBoard sb !! Z.to_nat z = Some true
}.

(** A register is ready; misc registers always are. *)
Definition ready (sb : Scoreboard) (p : Z) : bool := default true (regScoreBoard sb !! Z.to_nat p).

Definition phys_ok (p : Z) : Prop := 0 <= p < totalNumRegs f + Z.of_nat (NumMiscRegs isa).

Lemma target_phys cl r p : in_class cl r -> target cl r p -> phys_ok p.
Proof.
  intros Hr [Hp Hm]. unfold phys_ok. destruct (decide (cl = MiscRegClass)) as [->|Hcl].
  - rewrite Hm by done. unfold in_class, lookupMisc in *. cbn in Hr. destruct Hf. lia.
  - pose proof (phys_class_range cl p Hcl Hp). lia.
Qed.

Lemma sb_get_ok sb p : sb_ok sb -> phys_ok p -> sb_get sb p = Ret (ready sb p).
Proof.
  intros [Hl Hn Hz Hr] Hp. unfold phys_ok, sb_get, ready in *. rewrite cassert_true by (apply Z.ltb_lt; lia). cbn [mbind res_bind].
  rewrite Hl. destruct (Z.leb_spec (totalNumRegs f) p); [by rewrite lookup_ge_None_2 by lia|].
  rewrite (proj2 (Z.ltb_ge _ _)) by lia. unfold reg_index. destruct (lookup_lt_is_Some_2 (regScoreBoard sb) (Z.to_nat p)) as [b Hb]; [lia|].
  rewrite (vread_some _ _ _ Hb). cbn [mbind res_bind]. rewrite Hb. cbn [default].
  destruct (isZeroReg sb p) eqn:Ez; [|done]. rewrite (Hr p Ez) in Hb by lia. by injection Hb as <-.
Qed.

Definition put (sb : Scoreboard) (p : Z) (b : bool) : Scoreboard :=
  mkScoreboard (<[Z.to_nat p := b]> (regScoreBoard sb)) (numTotalRegs sb) (zeroRegIdx sb) (fpZero sb).

Lemma sb_write_ok sb p b : sb_ok sb -> 0 <= p < totalNumRegs f -> (isZeroReg sb p = true -> b = true) ->
  sb_write sb p b = Ret (put sb p b) /\ sb_ok (put sb p b).
Proof.
  intros [Hl Hn Hz Hr] Hp Hb. unfold sb_write. rewrite (proj2 (Z.ltb_ge _ _)) by lia. unfold reg_index. rewrite vwrite_lt by lia. split; [done|].
  split; [by cbn; rewrite length_insert|done|done|]. intros z Hz' Hzr. cbn. change (isZeroReg (put sb p b) z) with (isZeroReg sb z) in Hz'.
  destruct (decide (z = p)) as [->|Hne].
  - rewrite list_lookup_insert_eq by lia. by rewrite Hb.
  - rewrite list_lookup_insert_ne by lia. by apply Hr.
Qed.

Lemma ready_put sb p b q : sb_ok sb -> 0 <= p < totalNumRegs f -> 0 <= q -> ready (put sb p b) q = if decide (q = p) then b else ready sb q.
Proof.
  intros [Hl _ _ _] Hp Hq. unfold ready, put. cbn. case_decide as E.
  - subst. by rewrite list_lookup_insert_eq by lia.
  - by rewrite list_lookup_insert_ne by lia.
Qed.

(** The scoreboard after marking registers. *)
Definition marked (sb sb' : Scoreboard) (b : bool) (ps : list Z) : Prop :=
  sb_ok sb' /\ forall q, 0 <= q -> ready sb' q = if decide (q ∈ ps) then b else ready sb q.

Lemma marked_nil sb b : sb_ok sb -> marked sb sb b [].
Proof. intros H. split; [done|]. intros q _. rewrite decide_False by set_solver. done. Qed.

Lemma marked_trans sb sb' sb'' b ps ps' : marked sb sb' b ps -> marked sb' sb'' b ps' -> marked sb sb'' b (ps ++ ps').
Proof.
  intros (_ & R) (O' & R'). split; [done|]. intros q Hq. rewrite R', R by done.
  repeat case_decide; set_solver.
Qed.

Lemma marked_put sb p b : sb_ok sb -> 0 <= p < totalNumRegs f -> (isZeroReg sb p = true -> b = true) -> marked sb (put sb p b) b [p].
Proof.
  intros H Hp Hb. split; [by apply sb_write_ok|]. intros q Hq. rewrite ready_put by done.
  repeat case_decide; set_solver.
Qed.

(** A register that no list of marked ones names is as it was: a misc register or,
    for [unset], a zero register. *)
Lemma sb_unset_ok sb p : sb_ok sb -> phys_ok p ->
  exists sb', sb_unset sb p = Ret sb' /\ marked sb sb' false (if (totalNumRegs f <=? p) || (p =? intZeroReg isa) then [] else [p]).
Proof.
  intros H Hp. pose proof H as [Hl Hn _ _]. unfold phys_ok, sb_unset in *. rewrite cassert_true by (apply Z.ltb_lt; lia). cbn [mbind res_bind].
  rewrite Hl. destruct (Z.leb_spec (totalNumRegs f) p); cbn [orb]; [eexists; split; [done|by apply marked_nil]|].
  pose proof (so_zero _ H p) as Hz. destruct (Z.eqb_spec p (intZeroReg isa)) as [E|E].
  { rewrite (proj2 Hz E). eexists. split; [done|by apply marked_nil]. }
  destruct (isZeroReg sb p) eqn:Ez; [by destruct E; apply Hz|].
  exists (put sb p false). split; [apply sb_write_ok; [done|lia|congruence]|]. apply marked_put; [done|lia|congruence].
Qed.

Lemma sb_set_ok sb p : sb_ok sb -> phys_ok p ->
  exists sb', sb_set sb p = Ret sb' /\ marked sb sb' true (if totalNumRegs f <=? p then [] else [p]).
Proof.
  intros H Hp. pose proof H as [Hl Hn _ _]. unfold phys_ok, sb_set in *. rewrite cassert_true by (apply Z.ltb_lt; lia). cbn [mbind res_bind].
  rewrite Hl. destruct (Z.leb_spec (totalNumRegs f) p); [eexists; split; [done|by apply marked_nil]|].
  exists (put sb p true). split; [apply sb_write_ok; [done|lia|done]|]. apply marked_put; [done|lia|done].
Qed.

Lemma set_regs_ok ps : forall sb, sb_ok sb -> Forall phys_ok ps ->
  exists sb', set_regs sb ps = Ret sb' /\ marked sb sb' true (filter (fun p => p < totalNumRegs f) ps).
Proof.
  induction ps as [|p ps IH]; intros sb Hsb Hp; [exists sb; split; [done|by apply marked_nil]|]. apply Forall_cons in Hp as [Hp Hps]. cbn [set_regs].
  destruct (sb_set_ok sb p Hsb Hp) as (sb1 & -> & H1). cbn [mbind res_bind]. destruct (IH sb1 (proj1 H1) Hps) as (sb2 & -> & H2).
  exists sb2. split; [done|]. pose proof (marked_trans _ _ _ _ _ _ H1 H2) as H. rewrite filter_cons.
  destruct (Z.leb_spec (totalNumRegs f) p); [rewrite decide_False by lia|rewrite decide_True by lia]; exact H.
Qed.

(** The sources are what the map says, with their readiness. *)
Definition src_ok (d : Z) : Prop := exists cl r, regIdxToClass isa d = Ret (cl, r) /\ in_class cl (flat_rel isa cl r).

Definition reads (l : list Z) (sb : Scoreboard) (d : Z) (x : Z * bool) : Prop :=
  exists cl r, regIdxToClass isa d = Ret (cl, r) /\ maps_to l cl (flat_rel isa cl r) x.1 /\ x.2 = ready sb x.1.

Lemma renameSrcRegs_ok m sb srcs : map_ok m -> sb_ok sb -> Forall src_ok srcs ->
  exists l, renameSrcRegs isa f m sb srcs = Ret l /\ Forall2 (reads (entries m) sb) srcs l.
Proof.
  intros Hm Hs. induction 1 as [|d srcs (cl & r & Hd & Hr) _ (l & IH & IHl)]; [by exists []|]. cbn. rewrite Hd. cbn [mbind res_bind].
  destruct (class_lookup_ok m cl _ Hm Hr) as (p & -> & Hp). cbn [mbind res_bind].
  rewrite (sb_get_ok sb p Hs) by (eapply target_phys; [done|apply Hp]). cbn [mbind res_bind]. rewrite IH. cbn.
  eexists. split; [done|]. constructor; [|done]. by exists cl, r.
Qed.

(** ** Histories, the newest entry first *)

Definition aplace (a : Z) : option nat := match regIdxToClass isa a with Ret (cl, r) => place cl r | _ => None end.

Lemma aplace_flat cl r : in_class cl r -> aplace (flat_uni isa cl r) = place cl r.
Proof. intros H. unfold aplace. by rewrite regIdx_flat. Qed.

Definition entry_ok (e : RenameHistory) : Prop := exists cl r,
  archReg e = flat_uni isa cl r /\ in_class cl r /\ target cl r (newPhysReg e) /\ target cl r (prevPhysReg e) /\
  (r = zero_reg cl -> newPhysReg e = prevPhysReg e) /\
  (newPhysReg e = prevPhysReg e -> (totalNumRegs f <=? newPhysReg e) || (newPhysReg e =? intZeroReg isa) = true).

(** The entries before the changes of a history, and again after them. *)
Fixpoint undo (h : list RenameHistory) (l : list Z) : list Z :=
  match h with [] => l | e :: h => undo h (upd (aplace (archReg e)) (prevPhysReg e) l) end.
Fixpoint redo (h : list RenameHistory) (l : list Z) : list Z :=
  match h with [] => l | e :: h => upd (aplace (archReg e)) (newPhysReg e) (redo h l) end.

(** Each change is found in the map that the later ones left. *)
Fixpoint chain (h : list RenameHistory) (l : list Z) : Prop :=
  match h with
  | [] => True
  | e :: h => (forall n, aplace (archReg e) = Some n -> l !! n = Some (newPhysReg e)) /\ chain h (upd (aplace (archReg e)) (prevPhysReg e) l)
  end.

(** The registers a history holds and those it took. *)
Definition real (e : RenameHistory) : bool := negb (newPhysReg e =? prevPhysReg e).
Definition held (h : list RenameHistory) : list Z := prevPhysReg <$> filter real h.
Definition taken (h : list RenameHistory) : list Z := newPhysReg <$> filter real h.

Lemma upd_upd n p q l : upd n p (upd n q l) = upd n p l.
Proof. destruct n; cbn; [by rewrite list_insert_insert_eq|done]. Qed.
Lemma upd_id n p (l : list Z) : (forall i, n = Some i -> l !! i = Some p) -> upd n p l = l.
Proof. intros H. destruct n; cbn; [by apply list_insert_id, H|done]. Qed.
Lemma upd_length n p l : length (upd n p l) = length l.
Proof. destruct n; cbn; [by rewrite length_insert|done]. Qed.

Lemma upd_perm n (p q : Z) (l : list Z) : l !! n = Some p -> p :: <[n := q]> l ≡ₚ q :: l.
Proof.
  intros H. pose proof (take_drop_middle _ _ _ H) as E. pose proof (lookup_lt_Some _ _ _ H).
  rewrite insert_take_drop by done. rewrite <- E at 3. solve_Permutation.
Qed.

Lemma undo_app h h' l : undo (h ++ h') l = undo h' (undo h l).
Proof. revert l. by induction h as [|e h IH]; cbn; intros. Qed.
Lemma redo_app h h' l : redo (h ++ h') l = redo h (redo h' l).
Proof. induction h as [|e h IH]; cbn; [done|]. by rewrite IH. Qed.
Lemma undo_length h l : length (undo h l) = length l.
Proof. revert l. induction h as [|e h IH]; cbn; intros; [done|]. by rewrite IH, upd_length. Qed.
Lemma chain_app h h' l : chain (h ++ h') l <-> chain h l /\ chain h' (undo h l).
Proof. revert l. induction h as [|e h IH]; cbn; intros l; [tauto|]. rewrite IH. tauto. Qed.

Lemma redo_undo h l : chain h l -> redo h (undo h l) = l.
Proof.
  revert l. induction h as [|e h IH]; cbn; intros l; [done|]. intros [H1 H2]. rewrite IH by done. rewrite upd_upd. by apply upd_id.
Qed.

Lemma held_cons e h : held (e :: h) = if real e then prevPhysReg e :: held h else held h.
Proof. unfold held. rewrite filter_cons. by destruct (real e). Qed.
Lemma taken_cons e h : taken (e :: h) = if real e then newPhysReg e :: taken h else taken h.
Proof. unfold taken. rewrite filter_cons. by destruct (real e). Qed.
Lemma held_app h h' : held (h ++ h') = held h ++ held h'.
Proof. unfold held. by rewrite filter_app, fmap_app. Qed.
Lemma held_taken_app h h' : taken (h ++ h') = taken h ++ taken h'.
Proof. unfold taken. by rewrite filter_app, fmap_app. Qed.

Lemma real_class e cl r : target cl r (newPhysReg e) -> target cl r (prevPhysReg e) -> real e = true -> cl <> MiscRegClass.
Proof. intros [_ H1] [_ H2] Hr ->. unfold real in Hr. rewrite H1, H2, Z.eqb_refl in Hr by done. done. Qed.

(** Undoing keeps the multiset of registers. *)
Lemma undo_perm h l : Forall entry_ok h -> chain h l -> undo h l ++ taken h ≡ₚ l ++ held h.
Proof.
  intros Hh. revert l. induction Hh as [|e h (cl & r & Ea & Hr & Ht1 & Ht2 & _) _ IH]; intros l; cbn [undo chain]; [done|].
  intros [H1 H2]. specialize (IH _ H2). rewrite held_cons, taken_cons, Ea, aplace_flat in * by done.
  destruct (real e) eqn:Er.
  - assert (exists n, place cl r = Some n) as [n Hn]
      by (pose proof (real_class e cl r Ht1 Ht2 Er); destruct cl; [by eexists..|done]).
    rewrite Hn in *. specialize (H1 n eq_refl). pose proof (upd_perm n (newPhysReg e) (prevPhysReg e) l H1) as Hp. cbn [upd] in *.
    rewrite <- Permutation_middle, IH. rewrite <- (Permutation_middle l). exact (Permutation_app_tail (held h) Hp).
  - unfold real in Er. apply negb_false_iff, Z.eqb_eq in Er. rewrite upd_id in *; [done|..]; intros i Hi; rewrite <- Er; by apply H1.
Qed.

(** The zero register keeps its mapping. *)
Lemma zero_ok_undo h l : in_class IntRegClass (intZeroReg isa) -> Forall entry_ok h -> chain h l -> zero_ok (undo h l) <-> zero_ok l.
Proof.
  intros Hz Hh. revert l. induction Hh as [|e h (cl & r & Ea & Hr & Ht1 & Ht2 & Hzr & _) _ IH]; intros l; cbn [undo chain]; [done|].
  intros [H1 H2]. rewrite (IH _ H2), Ea, aplace_flat in * by done. clear IH H2.
  destruct (decide (cl = IntRegClass /\ r = intZeroReg isa)) as [[-> ->]|Hne].
  - rewrite upd_id; [done|]. intros i Hi. rewrite <- (Hzr eq_refl). by apply H1.
  - unfold zero_ok. destruct (place cl r) as [i|] eqn:Hi; [|done]. cbn [upd].
    enough (forall n, place IntRegClass (intZeroReg isa) = Some n -> i <> n) as Hin.
    { split; intros H n Hn Hp; specialize (H n Hn Hp); specialize (Hin n Hn); by rewrite list_lookup_insert_ne in *. }
    intros n Hn ->. apply Hne. by eapply place_inj.
Qed.

(** What a history that has just been made says. *)
Record made (seq : Z) (m : UnifiedRenameMap) (fl : UnifiedFreeList) (sb : Scoreboard) (h : list RenameHistory)
    (m' : UnifiedRenameMap) (fl' : UnifiedFreeList) (sb' : Scoreboard) : Prop := {
  md_entries : Forall entry_ok h;
  md_seq : Forall (fun e => instSeqNum e = seq) h;
  md_map : map_ok m';
  md_free : free_ok fl';
  md_chain : chain h (entries m');
  md_undo : undo h (entries m') = entries m;
  md_taken : free_all fl ≡ₚ taken h ++ free_all fl';
  md_marked : marked sb sb' false (taken h)
}.

Lemma made_nil seq m fl sb : map_ok m -> free_ok fl -> sb_ok sb -> made seq m fl sb [] m fl sb.
Proof. intros. split; try done. Qed.

Lemma made_app seq m fl sb h m' fl' sb' h' m'' fl'' sb'' :
  made seq m fl sb h m' fl' sb' -> made seq m' fl' sb' h' m'' fl'' sb'' -> made seq m fl sb (h' ++ h) m'' fl'' sb''.
Proof.
  intros [] []. split; try done.
  - by apply Forall_app.
  - by apply Forall_app.
  - apply chain_app. split; [done|]. congruence.
  - rewrite undo_app. congruence.
  - rewrite held_taken_app, md_taken0, md_taken1. solve_Permutation.
  - destruct (marked_trans _ _ _ _ _ _ md_marked0 md_marked1) as [Ho Hr]. split; [done|]. intros q Hq. rewrite Hr by done.
    rewrite held_taken_app. repeat case_decide; set_solver.
Qed.

Definition dst_ok (tid : nat) (d : Z) : Prop := exists cl r, regIdxToClass isa d = Ret (cl, r) /\ dest_ok tid cl (flat_rel isa cl r).
Definition dest_class (d : Z) : option RegClass := match regIdxToClass isa d with Ret (cl, _) => Some cl | _ => None end.
Definition dest_count (cl : RegClass) (ds : list Z) : nat := length (filter (fun d => dest_class d = Some cl) ds).

(** The unified index of a destination, flattened. *)
Definition dest_flat (d : Z) : Z := match regIdxToClass isa d with Ret (cl, r) => flat_uni isa cl (flat_rel isa cl r) | _ => d end.

Lemma class_free_set fl cl l cl' : cl <> MiscRegClass -> class_free (set_class_free fl cl l) cl' = if decide (cl' = cl) then l else class_free fl cl'.
Proof. intros. by destruct cl, cl'. Qed.

Lemma free_all_cons fl cl n l : class_free fl cl = n :: l -> free_all fl ≡ₚ n :: free_all (set_class_free fl cl l).
Proof. intros H. unfold free_all. destruct cl; cbn in *; try done; rewrite H; solve_Permutation. Qed.

Lemma free_all_class fl cl p : p ∈ class_free fl cl -> p ∈ free_all fl.
Proof. unfold free_all. destruct cl; cbn; set_solver. Qed.

(** A destination that is not renamed is a misc register or the zero register. *)
Lemma same_unmarked tid m cl r p : (tid = O -> zero_ok (entries m)) -> dest_ok tid cl r -> maps_to (entries m) cl r p ->
  cl = MiscRegClass \/ r = zero_reg cl -> (totalNumRegs f <=? p) || (p =? intZeroReg isa) = true.
Proof.
  intros Hz [Hr Hd] [[Ht Hm] Hp] [->|E].
  - cbn in Ht. by rewrite Ht.
  - destruct (Hd E) as [-> ->]. cbn in E. subst r. specialize (Hz eq_refl _ eq_refl (proj1 Hr)). specialize (Hp _ eq_refl).
    rewrite Hz in Hp. injection Hp as <-. by rewrite Z.eqb_refl, orb_true_r.
Qed.

Lemma renameDestReg_ok tid seq m fl sb d : map_ok m -> free_ok fl -> sb_ok sb -> (tid = O -> zero_ok (entries m)) ->
  dst_ok tid d -> (forall cl, cl <> MiscRegClass -> (dest_count cl [d] <= length (class_free fl cl))%nat) ->
  (forall p, p ∈ entries m -> p ∉ free_all fl) -> intZeroReg isa ∉ free_all fl ->
  exists e m' fl' sb', renameDestReg isa f seq m fl sb d = Ret (e, m', fl', sb') /\ made seq m fl sb [e] m' fl' sb' /\
    archReg e = dest_flat d /\
    forall cl, cl <> MiscRegClass -> (length (class_free fl cl) <= length (class_free fl' cl) + dest_count cl [d])%nat.
Proof.
  intros Hm Hfl Hsb Hz (cl & r & Hd & Hdst) Hroom Hdis Hzf. unfold renameDestReg, dest_flat, dest_count, dest_class in *. rewrite Hd. cbn [mbind res_bind].
  set (r' := flat_rel isa cl r) in *. pose proof (proj1 Hdst) as Hr.
  destruct (class_rename_ok tid m fl cl r' Hm Hfl Hz Hdst) as (n & p & m' & fl' & -> & Hren).
  { intros Hcl _ E. specialize (Hroom cl Hcl). rewrite E, filter_cons in Hroom. cbn in Hroom. rewrite Hd, decide_True in Hroom by done. cbn in Hroom. lia. }
  cbn [mbind res_bind].
  assert (target cl r' n) as Htn by (destruct Hren as [? Ht|]; [apply Ht|done]).
  destruct (sb_unset_ok sb n Hsb (target_phys cl r' n Hr Htn)) as (sb' & -> & Hmk). cbn [mbind res_bind].
  do 4 eexists. split; [done|]. destruct Hren as [p Hp Hwhy|n p m' l Hcl Hnz El Hp Hn Hm' He].
  - split; [|split; [done|intros; lia]]. split; try done.
    + apply Forall_singleton. exists cl, r'. split_and!; try done; try apply Hp. intros _. by apply (same_unmarked tid m cl r').
    + by apply Forall_singleton.
    + cbn. rewrite aplace_flat by done. split; [apply Hp|done].
    + cbn. rewrite aplace_flat by done. apply upd_id, Hp.
    + unfold taken. rewrite filter_cons. unfold real. cbn. by rewrite Z.eqb_refl.
    + assert (taken [mkRenameHistory seq (flat_uni isa cl r') p p] = []) as -> by (by rewrite taken_cons; unfold real; cbn; rewrite Z.eqb_refl).
      replace (if (totalNumRegs f <=? p) || (p =? intZeroReg isa) then [] else [p]) with (@nil Z) in Hmk; [done|].
      by rewrite (same_unmarked tid m cl r' p).
  - assert (n ∈ free_all fl) as Hnf by (apply (free_all_class fl cl); rewrite El; left).
    assert (exists i, place cl r' = Some i) as [i Hi] by (destruct cl; [by eexists..|done]).
    assert (n <> p) as Hnp.
    { intros ->. apply (Hdis p); [|done]. eapply list_elem_of_lookup_2. by apply Hp. }
    assert (real (mkRenameHistory seq (flat_uni isa cl r') n p) = true) as Hreal by (unfold real; cbn; by rewrite (proj2 (Z.eqb_neq _ _))).
    split; [|split; [done|]].
    + split; try done.
      * apply Forall_singleton. exists cl, r'. split_and!; try done; try apply Hp; apply Hn.
      * by apply Forall_singleton.
      * apply free_ok_set; [done|done|]. pose proof (Hfl cl) as H. rewrite El in H. by inversion H.
      * cbn. rewrite aplace_flat, He, Hi by done. split; [|done]. intros ? [= <-]. cbn. apply list_lookup_insert_eq.
        eapply lookup_lt_Some. by apply Hp.
      * cbn. rewrite aplace_flat, He, upd_upd by done. apply upd_id, Hp.
      * rewrite taken_cons, Hreal. cbn. by apply free_all_cons.
      * rewrite taken_cons, Hreal. cbn. pose proof (phys_class_range cl n Hcl (proj1 Hn)).
        rewrite (proj2 (Z.leb_gt _ _)), (proj2 (Z.eqb_neq _ _)) in Hmk by (lia || congruence). done.
    + intros cl' Hcl'. rewrite class_free_set by done. rewrite filter_cons. cbn. rewrite Hd. repeat case_decide; cbn; try lia; subst; rewrite ?El; cbn; try lia; congruence.
Qed.

Lemma made_disjoint seq m fl sb h m' fl' sb' : made seq m fl sb h m' fl' sb' -> NoDup (free_all fl) ->
  (forall p, p ∈ entries m -> p ∉ free_all fl) -> NoDup (free_all fl') /\ (forall p, p ∈ entries m' -> p ∉ free_all fl').
Proof.
  intros [He _ _ _ Hc Hu Ht _] Hnd Hdis. rewrite Ht in Hnd. apply NoDup_app in Hnd as (Hn1 & Hn2 & Hn3). split; [done|].
  intros p Hp Hpf. pose proof (undo_perm h _ He Hc) as Hperm. rewrite Hu in Hperm.
  assert (p ∈ entries m ++ taken h) as [Hin|Hin]%elem_of_app by (rewrite Hperm; set_solver).
  - apply (Hdis p Hin). rewrite Ht. set_solver.
  - by apply (Hn2 p Hin).
Qed.

Lemma renameDestRegs_ok tid seq ds : forall m fl sb h, map_ok m -> free_ok fl -> sb_ok sb -> in_class IntRegClass (intZeroReg isa) ->
  (tid = O -> zero_ok (entries m)) -> Forall (dst_ok tid) ds ->
  (forall cl, cl <> MiscRegClass -> (dest_count cl ds <= length (class_free fl cl))%nat) ->
  NoDup (free_all fl) -> (forall p, p ∈ entries m -> p ∉ free_all fl) -> intZeroReg isa ∉ free_all fl ->
  exists new m' fl' sb', renameDestRegs isa f seq m fl sb h ds = Ret (new ++ h, m', fl', sb') /\ made seq m fl sb new m' fl' sb' /\
    archReg <$> new = reverse (dest_flat <$> ds).
Proof.
  induction ds as [|d ds IH]; intros m fl sb h Hm Hfl Hsb Hzc Hz Hds Hroom Hnd Hdis Hzf; cbn [renameDestRegs].
  - exists [], m, fl, sb. split; [done|]. split; [by apply made_nil|done].
  - apply Forall_cons in Hds as [Hd Hds].
    assert (forall cl, dest_count cl (d :: ds) = dest_count cl [d] + dest_count cl ds)%nat as Hcnt.
    { intros cl. unfold dest_count. rewrite !filter_cons. case_decide; cbn; lia. }
    destruct (renameDestReg_ok tid seq m fl sb d) as (e & m' & fl' & sb' & -> & Hmade & Ha & Hlen); try done.
    { intros cl Hcl. specialize (Hroom cl Hcl). rewrite Hcnt in Hroom. lia. }
    cbn [mbind res_bind]. destruct (made_disjoint _ _ _ _ _ _ _ _ Hmade Hnd Hdis) as [Hnd' Hdis'].
    destruct (IH m' fl' sb' (e :: h)) as (new & m'' & fl'' & sb'' & -> & Hmade' & Hn); try apply Hmade; try done.
    { intros ->. apply (zero_ok_undo [e]); try apply Hmade; try done. rewrite (md_undo _ _ _ _ _ _ _ _ Hmade). by apply Hz. }
    { intros cl Hcl. specialize (Hroom cl Hcl). specialize (Hlen cl Hcl). rewrite Hcnt in Hroom. lia. }
    { intros Hin. apply Hzf. rewrite (md_taken _ _ _ _ _ _ _ _ Hmade). set_solver. }
    exists (new ++ [e]), m'', fl'', sb''. split; [by rewrite <- app_assoc|]. split; [by eapply made_app|].
    rewrite fmap_app, Hn, (fmap_cons dest_flat), reverse_cons. cbn. by rewrite Ha.
Qed.

(** Squashing undoes the newest part of the history and frees what it took. *)
Lemma doSquash_loop_ok n h h' : Forall (fun e => n < instSeqNum e) h -> Forall entry_ok h ->
  match h' with [] => True | e :: _ => instSeqNum e <= n end -> forall m fl, map_ok m -> free_ok fl ->
  exists m' fl', doSquash_loop isa f n m fl (h ++ h') = Ret (h', m', fl') /\ map_ok m' /\ free_ok fl' /\
    (chain h (entries m) -> entries m' = undo h (entries m)) /\ free_all fl' ≡ₚ taken h ++ free_all fl.
Proof.
  intros Hn He Hh'. induction h as [|e h IH]; intros m fl Hm Hfl.
  - exists m, fl. split; [|done]. destruct h' as [|e h']; [done|]. cbn. by rewrite (proj2 (Z.ltb_ge _ _)).
  - apply Forall_cons in Hn as [Hn1 Hn]. apply Forall_cons in He as [(cl & r & Ea & Hr & Ht1 & Ht2 & _) He]. specialize (IH Hn He).
    cbn [doSquash_loop app]. rewrite (proj2 (Z.ltb_lt _ _)) by done. rewrite taken_cons. unfold real. destruct (Z.eqb_spec (newPhysReg e) (prevPhysReg e)) as [E|E]; cbn [negb].
    + cbn [mbind res_bind]. destruct (IH m fl Hm Hfl) as (m' & fl' & -> & Hm' & Hfl' & Hu & Ht). exists m', fl'. split_and!; try done.
      cbn [chain undo]. intros [H1 H2]. rewrite upd_id in *; [by apply Hu|..]; intros i Hi; rewrite <- E; by apply H1.
    + rewrite Ea. destruct (um_setEntry_ok m cl r (prevPhysReg e) Hm Hr Ht2) as (m1 & -> & Hm1 & He1). cbn [mbind res_bind].
      assert (cl <> MiscRegClass) as Hcl by (apply (real_class e cl r); try done; unfold real; by rewrite (proj2 (Z.eqb_neq _ _))).
      destruct (addReg_ok fl cl (newPhysReg e) Hfl Hcl (proj1 Ht1)) as (fl1 & -> & Hfl1 & Hp). cbn [mbind res_bind].
      destruct (IH m1 fl1 Hm1 Hfl1) as (m' & fl' & -> & Hm' & Hfl' & Hu & Ht). exists m', fl'. split_and!; try done.
      * cbn [chain undo]. rewrite Ea, aplace_flat, <- He1 by done. intros [_ H2]. by apply Hu.
      * rewrite Ht, Hp. solve_Permutation.
Qed.

(** Removal frees what the oldest part of the history held. *)
Lemma remove_loop_ok n h h' : Forall (fun e => instSeqNum e <= n) h -> Forall entry_ok h ->
  match h' with [] => True | e :: _ => n < instSeqNum e end -> forall fl, free_ok fl ->
  exists fl', remove_loop f n fl (h ++ h') = Ret (h', fl') /\ free_ok fl' /\ free_all fl' ≡ₚ held h ++ free_all fl.
Proof.
  intros Hn He Hh'. induction h as [|e h IH]; intros fl Hfl.
  - exists fl. split; [|done]. destruct h' as [|e h']; [done|]. cbn. by rewrite (proj2 (Z.leb_gt _ _)).
  - apply Forall_cons in Hn as [Hn1 Hn]. apply Forall_cons in He as [(cl & r & Ea & Hr & Ht1 & Ht2 & _) He]. specialize (IH Hn He).
    cbn [remove_loop app]. rewrite (proj2 (Z.leb_le _ _)) by done. rewrite held_cons. unfold real. destruct (Z.eqb_spec (newPhysReg e) (prevPhysReg e)) as [E|E]; cbn [negb].
    + cbn [mbind res_bind]. by apply IH.
    + assert (cl <> MiscRegClass) as Hcl by (apply (real_class e cl r); try done; unfold real; by rewrite (proj2 (Z.eqb_neq _ _))).
      destruct (addReg_ok fl cl (prevPhysReg e) Hfl Hcl (proj1 Ht2)) as (fl1 & -> & Hfl1 & Hp). cbn [mbind res_bind].
      destruct (IH fl1 Hfl1) as (fl' & -> & Hfl' & Ht). exists fl'. split_and!; try done. rewrite Ht, Hp. solve_Permutation.
Qed.

(** Committing redoes the changes of the instruction. *)
Lemma commit_dests_ok h m : Forall entry_ok h -> map_ok m ->
  exists m', commit_dests isa f m (reverse ((fun e => (archReg e, newPhysReg e)) <$> h)) = Ret m' /\ map_ok m' /\ entries m' = redo h (entries m).
Proof.
  intros He Hm. rewrite <- fmap_reverse. assert (Forall entry_ok (reverse h)) as Hg by (by apply Forall_reverse).
  enough (exists m', commit_dests isa f m ((fun e => (archReg e, newPhysReg e)) <$> reverse h) = Ret m' /\ map_ok m' /\ entries m' = redo (reverse (reverse h)) (entries m))
    as H by (by rewrite reverse_involutive in H).
  clear He. generalize dependent (reverse h). clear h. intros g Hg. revert m Hm.
  induction Hg as [|e g (cl & r & Ea & Hr & Ht1 & _) _ IH]; intros m Hm; [by exists m|]. cbn [fmap list_fmap commit_dests].
  rewrite Ea. destruct (um_setEntry_ok m cl r (newPhysReg e) Hm Hr Ht1) as (m1 & -> & Hm1 & He1). cbn [mbind res_bind].
  destruct (IH m1 Hm1) as (m' & -> & Hm' & Hu). exists m'. split_and!; try done.
  rewrite reverse_cons, redo_app, Hu, He1. cbn [redo]. by rewrite Ea, aplace_flat.
Qed.
End maps.
