(* ===== verification/RegRenameSys.v ===== *)
(** * The out-of-order processor's registers over runs of the pipeline

    The rename stage, the reorder buffer as far as registers go, writeback and commit
    as steps of one system: instructions of several threads are renamed in order,
    written back in any order, committed in order, and squashed from any point.  The
    theorems say that no assertion fails, that every physical register is at each
    moment free or has exactly one use, that the rename map is the map of the
    committed state updated by the instructions in flight, and that the scoreboard
    shows exactly the registers that wait for a result. *)

From stdpp Require Import gmap sorting.
From S2P Require Import Prelude RegRename.
Local Open Scope Z_scope.

(** ** The system *)

(** An instruction in flight: what [renameDestReg] and [flattenDestReg] store in it for
    each destination, the last destination first, and whether it has written back. *)
Record RobInst := mkRobInst { ro_seq : Z; ro_regs : list RenameHistory; ro_done : bool }.

(** The reorder buffer of a thread, the newest instruction first, and the sequence
    number committed last. *)
Record RobThread := mkRobThread { rb_rob : list RobInst; rb_committed : Z }.

Record RSys := mkRSys { y_state : RState; y_robs : list RobThread; y_last : Z }.

Inductive ROp :=
  | ORename (tid : nat) (inst : RInst)
  | OSquash (tid : nat) (n : Z)
  | OWriteback (tid : nat) (seq : Z)
  | OCommit (tid : nat)
  | ORemove (tid : nat) (n : Z).

Section system.
Context (isa : RegISA) (f : PhysRegFile).

(** The entries that an instruction has added. *)
Definition added (inst : RInst) (h : list RenameHistory) : list RenameHistory := take (length (ri_dests inst)) h.

Definition mark_done (seq : Z) (i : RobInst) : RobInst :=
  if ro_seq i =? seq then mkRobInst (ro_seq i) (ro_regs i) true else i.

Definition rob_regs (seq : Z) (rob : list RobInst) : list Z := newPhysReg <$> concat (ro_regs <$> filter (fun i => ro_seq i = seq) rob).

(** One step of the system. *)
Definition apply_op (y : RSys) (op : ROp) : res RSys :=
  let s := y_state y in
  match op with
  | ORename tid inst =>
      b ← vread (y_robs y) tid;
      '(o, s') ← rename_inst isa f s tid inst;
      match o with
      | None => Ret y
      | Some _ =>
          t ← vread (rs_threads s') tid;
          let i := mkRobInst (ri_seq inst) (added inst (rt_history t)) false in
          Ret (mkRSys s' (<[tid := mkRobThread (i :: rb_rob b) (rb_committed b)]> (y_robs y)) (ri_seq inst))
      end
  | OSquash tid n =>
      b ← vread (y_robs y) tid;
      s' ← doSquash isa f s tid n;
      Ret (mkRSys s' (<[tid := mkRobThread (filter (fun i => ro_seq i <= n) (rb_rob b)) (rb_committed b)]> (y_robs y)) (y_last y))
  | OWriteback tid seq =>
      b ← vread (y_robs y) tid;
      s' ← writebackInst s (rob_regs seq (rb_rob b));
      Ret (mkRSys s' (<[tid := mkRobThread (mark_done seq <$> rb_rob b) (rb_committed b)]> (y_robs y)) (y_last y))
  | OCommit tid =>
      b ← vread (y_robs y) tid;
      match reverse (rb_rob b) with
      | [] => Ret y
      | i :: r =>
          if ro_done i then
            s' ← commit_head isa f s tid (reverse ((fun e => (archReg e, newPhysReg e)) <$> ro_regs i));
            Ret (mkRSys s' (<[tid := mkRobThread (reverse r) (ro_seq i)]> (y_robs y)) (y_last y))
          else Ret y
      end
  | ORemove tid n =>
      s' ← removeFromHistory f s tid n;
      Ret (mkRSys s' (y_robs y) (y_last y))
  end.

(** What the other stages promise: the counts of an instruction cover its destinations,
    sequence numbers grow, nothing committed is squashed and only committed entries are
    removed. *)
Definition inst_ok (tid : nat) (inst : RInst) : Prop :=
  Forall (src_ok isa) (ri_srcs inst) /\ Forall (dst_ok isa tid) (ri_dests inst) /\
  (dest_count isa IntRegClass (ri_dests inst) <= numIntDestRegs inst)%nat /\
  (dest_count isa FloatRegClass (ri_dests inst) <= numFPDestRegs inst)%nat /\
  (dest_count isa CCRegClass (ri_dests inst) <= numCCDestRegs inst)%nat.

Definition enabled (y : RSys) (op : ROp) : Prop :=
  match op with
  | ORename tid inst => (tid < length (y_robs y))%nat /\ y_last y < ri_seq inst /\ inst_ok tid inst
  | OSquash tid n => exists b, y_robs y !! tid = Some b /\ rb_committed b <= n
  | OWriteback tid _ | OCommit tid => (tid < length (y_robs y))%nat
  | ORemove tid n => exists b, y_robs y !! tid = Some b /\ n <= rb_committed b
  end.

Inductive reaches : RSys -> RSys -> Prop :=
  | reaches_refl y : reaches y y
  | reaches_step y y1 op y2 : reaches y y1 -> enabled y1 op -> apply_op y1 op = Ret y2 -> reaches y y2.

(** ** Invariant *)

Local Abbreviation entries := (entries isa).
Local Abbreviation map_ok := (map_ok isa f).
Local Abbreviation chain := (chain isa).
Local Abbreviation undo := (undo isa).
Local Abbreviation redo := (redo isa).
Local Abbreviation entry_ok := (entry_ok isa f).
Local Abbreviation target := (target f).

(** The changes of the instructions in flight. *)
Definition flight (rob : list RobInst) : list RenameHistory := concat (ro_regs <$> rob).

Record thread_ok (tid : nat) (last : Z) (t : RThread) (b : RobThread) (old : list RenameHistory) : Prop := {
  to_history : rt_history t = flight (rb_rob b) ++ old;
  to_entries : Forall entry_ok (rt_history t);
  to_map : map_ok (rt_map t);
  to_cmap : map_ok (rt_commit t);
  to_chain : chain (rt_history t) (entries (rt_map t));
  to_commit : entries (rt_commit t) = undo (flight (rb_rob b)) (entries (rt_map t));
  to_seqs : Forall (fun i => Forall (fun e => instSeqNum e = ro_seq i) (ro_regs i)) (rb_rob b);
  to_sorted : StronglySorted (fun i j => ro_seq j < ro_seq i) (rb_rob b);
  to_between : Forall (fun i => rb_committed b < ro_seq i <= last) (rb_rob b);
  to_old : Forall (fun e => instSeqNum e <= rb_committed b) old;
  to_old_sorted : StronglySorted (fun e e' => instSeqNum e' <= instSeqNum e) old;
  to_committed : rb_committed b <= last;
  to_zero : tid = O -> zero_ok isa (entries (rt_map t))
}.

(** The registers a thread uses. *)
Definition own (t : RThread) : list Z := entries (rt_map t) ++ held (rt_history t).

(** A register waits for the result of an instruction in flight. *)
Definition waits (rob : list RobInst) (p : Z) : Prop := exists i, i ∈ rob /\ ro_done i = false /\ p ∈ taken (ro_regs i).
Definition awaited (robs : list RobThread) (p : Z) : Prop := exists tid b, robs !! tid = Some b /\ waits (rb_rob b) p.

Record rsys_ok (y : RSys) : Prop := {
  yo_len : length (y_robs y) = length (rs_threads (y_state y));
  yo_pos : (0 < length (y_robs y))%nat;
  yo_threads : forall tid t b, rs_threads (y_state y) !! tid = Some t -> y_robs y !! tid = Some b -> exists old, thread_ok tid (y_last y) t b old;
  yo_free : free_ok f (rs_free (y_state y));
  yo_score : sb_ok isa f (rs_score (y_state y));
  yo_perm : free_all (rs_free (y_state y)) ++ concat (own <$> rs_threads (y_state y)) ≡ₚ seqZ 0 (totalNumRegs f);
  yo_ready : forall p, 0 <= p < totalNumRegs f -> p ∉ free_all (rs_free (y_state y)) ->
    ready (rs_score (y_state y)) p = false <-> awaited (y_robs y) p
}.

(** ** Generic facts *)

Lemma elem_of_concat_fmap {A B} (g : A -> list B) (l : list A) w : w ∈ concat (g <$> l) <-> exists x, x ∈ l /\ w ∈ g x.
Proof.
  rewrite list_elem_of_In, in_concat. setoid_rewrite <- list_elem_of_In. split.
  - intros (y & (x & -> & Hx)%list_elem_of_fmap & Hw). by exists x.
  - intros (x & Hx & Hw). exists (g x). split; [|done]. apply list_elem_of_fmap. by exists x.
Qed.

Lemma concat_update {A B} (g : A -> list B) (l : list A) i x : l !! i = Some x ->
  exists rest, concat (g <$> l) ≡ₚ g x ++ rest /\ (forall y, concat (g <$> <[i := y]> l) ≡ₚ g y ++ rest) /\
    forall j z, j <> i -> l !! j = Some z -> forall w, w ∈ g z -> w ∈ rest.
Proof.
  revert i. induction l as [|a l IH]; intros [|i] H; cbn in *; try done.
  - injection H as ->. exists (concat (g <$> l)). split_and!; [done|done|]. intros [|j] z Hj Hz w Hw; [done|]. cbn in Hz.
    apply elem_of_concat_fmap. exists z. split; [by eapply list_elem_of_lookup_2|done].
  - destruct (IH i H) as (rest & H1 & H2 & H3). exists (g a ++ rest). split_and!.
    + rewrite H1. solve_Permutation.
    + intros y. rewrite (H2 y). solve_Permutation.
    + intros [|j] z Hj Hz w Hw; cbn in Hz; [injection Hz as ->; set_solver|].
      apply elem_of_app. right. eapply (H3 j); [congruence|done|done].
Qed.

(** A list in decreasing order is cut by a bound. *)
Lemma sorted_cut {A} (key : A -> Z) (R : A -> A -> Prop) l n : (forall a b, R a b -> key b <= key a) -> StronglySorted R l ->
  l = filter (fun x => n < key x) l ++ filter (fun x => key x <= n) l.
Proof.
  intros HR. induction 1 as [|a l Hl IH Ha]; [done|]. rewrite !filter_cons. destruct (decide (n < key a)) as [E|E].
  - rewrite (decide_False (P := key a <= n)) by lia. cbn. by f_equal.
  - rewrite (decide_True (P := key a <= n)) by lia. assert (filter (fun x => n < key x) l = []) as E'.
    { destruct (filter _ l) as [|x t] eqn:Ef; [done|]. assert (x ∈ filter (fun x => n < key x) l) as [Hx Hin]%list_elem_of_filter by (rewrite Ef; left).
      pose proof (HR _ _ (proj1 (Forall_forall _ _) Ha x Hin)). lia. }
    rewrite E' in *. cbn in *. by f_equal.
Qed.

(** ** What the invariant gives *)

Context (Hisa : isa_ok isa) (Hf : file_ok f) (Hzero : in_class isa IntRegClass (intZeroReg isa)).

Lemma all_nodup (l : list Z) : l ≡ₚ seqZ 0 (totalNumRegs f) -> NoDup l.
Proof. intros ->. apply NoDup_seqZ. Qed.

Section view.
Context (y : RSys) (Hy : rsys_ok y) (tid : nat) (t : RThread) (b : RobThread) (old : list RenameHistory)
  (Ht : rs_threads (y_state y) !! tid = Some t) (Hb : y_robs y !! tid = Some b) (Hto : thread_ok tid (y_last y) t b old).

Lemma view_free : NoDup (free_all (rs_free (y_state y))).
Proof. pose proof (all_nodup _ (yo_perm _ Hy)) as H. by apply NoDup_app in H as (? & _). Qed.

Lemma view_own p : p ∈ own t -> p ∉ free_all (rs_free (y_state y)).
Proof.
  pose proof (all_nodup _ (yo_perm _ Hy)) as H. apply NoDup_app in H as (_ & H & _). intros Hp Hpf. apply (H p Hpf).
  apply elem_of_concat_fmap. exists t. split; [by eapply list_elem_of_lookup_2|done].
Qed.

Lemma view_own_nodup : NoDup (own t).
Proof.
  pose proof (all_nodup _ (yo_perm _ Hy)) as H. apply NoDup_app in H as (_ & _ & H).
  destruct (concat_update own _ _ _ Ht) as (rest & Hp & _). rewrite Hp in H. by apply NoDup_app in H as (? & _).
Qed.

Lemma view_other tid' t' p : tid' <> tid -> rs_threads (y_state y) !! tid' = Some t' -> p ∈ own t -> p ∉ own t'.
Proof.
  intros Hne Ht' Hp Hp'. pose proof (all_nodup _ (yo_perm _ Hy)) as H. apply NoDup_app in H as (_ & _ & H).
  destruct (concat_update own _ _ _ Ht) as (rest & Hperm & _ & Hr). rewrite Hperm in H. apply NoDup_app in H as (_ & H & _).
  apply (H p Hp). by eapply (Hr tid').
Qed.

Lemma view_taken : NoDup (taken (rt_history t)) /\ forall p, p ∈ taken (rt_history t) -> p ∈ own t.
Proof.
  pose proof (undo_perm isa f Hisa _ _ (to_entries _ _ _ _ _ Hto) (to_chain _ _ _ _ _ Hto)) as H. split.
  - pose proof view_own_nodup as Hn. unfold own in Hn. rewrite <- H in Hn. by apply NoDup_app in Hn as (_ & _ & ?).
  - intros p Hp. unfold own. rewrite <- H. set_solver.
Qed.

Lemma flight_taken i p : i ∈ rb_rob b -> p ∈ taken (ro_regs i) -> p ∈ own t.
Proof.
  intros Hi Hp. apply view_taken. rewrite (to_history _ _ _ _ _ Hto), held_taken_app. apply elem_of_app. left.
  unfold taken, flight in *. apply list_elem_of_fmap in Hp as (e & -> & [He Hin]%list_elem_of_filter). apply list_elem_of_fmap. exists e. split; [done|].
  apply list_elem_of_filter. split; [done|]. apply elem_of_concat_fmap. by exists i.
Qed.
End view.

Lemma zero_not_free y : rsys_ok y -> intZeroReg isa ∉ free_all (rs_free (y_state y)).
Proof.
  intros Hy. pose proof (yo_pos _ Hy) as Hpos. pose proof (yo_len _ Hy).
  destruct (lookup_lt_is_Some_2 (y_robs y) 0) as [b Hb]; [lia|]. destruct (lookup_lt_is_Some_2 (rs_threads (y_state y)) 0) as [t Ht]; [lia|].
  destruct (yo_threads _ Hy _ _ _ Ht Hb) as [old Hto]. apply (view_own y Hy 0 t Ht). unfold own. apply elem_of_app. left.
  eapply list_elem_of_lookup_2. eapply (to_zero _ _ _ _ _ Hto eq_refl _ eq_refl). apply Hzero.
Qed.

(** Updating one thread. *)
Lemma rsys_update y tid t b t' b' fl' sb' last' : rsys_ok y -> rs_threads (y_state y) !! tid = Some t -> y_robs y !! tid = Some b ->
  y_last y <= last' -> (exists old, thread_ok tid last' t' b' old) -> free_ok f fl' -> sb_ok isa f sb' ->
  free_all fl' ++ own t' ≡ₚ free_all (rs_free (y_state y)) ++ own t ->
  (forall p, 0 <= p < totalNumRegs f -> p ∉ free_all fl' -> ready sb' p = false <-> awaited (<[tid := b']> (y_robs y)) p) ->
  rsys_ok (mkRSys (mkRState fl' sb' (<[tid := t']> (rs_threads (y_state y)))) (<[tid := b']> (y_robs y)) last').
Proof.
  intros Hy Ht Hb Hlast Hto Hfl Hsb Hperm Hready. split; cbn; try done.
  - rewrite !length_insert. apply Hy.
  - rewrite length_insert. apply Hy.
  - intros j tj bj Htj Hbj. destruct (decide (j = tid)) as [->|Hne].
    + rewrite list_lookup_insert_eq in Htj by (by eapply lookup_lt_Some). rewrite list_lookup_insert_eq in Hbj by (by eapply lookup_lt_Some).
      by injection Htj as <-; injection Hbj as <-.
    + rewrite list_lookup_insert_ne in Htj by done. rewrite list_lookup_insert_ne in Hbj by done. destruct (yo_threads _ Hy _ _ _ Htj Hbj) as [old []]. exists old. split; try done; [|lia].
      eapply Forall_impl; [done|]. cbn. intros i ?. lia.
  - destruct (concat_update own _ _ _ Ht) as (rest & H1 & H2 & _). rewrite (H2 t'), app_assoc, Hperm, <- app_assoc, <- H1. apply Hy.
Qed.

Lemma awaited_insert robs tid b b' p : robs !! tid = Some b ->
  awaited (<[tid := b']> robs) p <-> waits (rb_rob b') p \/ exists j bj, j <> tid /\ robs !! j = Some bj /\ waits (rb_rob bj) p.
Proof.
  intros Hb. split.
  - intros (j & bj & Hj & Hw). destruct (decide (j = tid)) as [->|Hne].
    + rewrite list_lookup_insert_eq in Hj by (by eapply lookup_lt_Some). injection Hj as <-. by left.
    + rewrite list_lookup_insert_ne in Hj by done. right. by exists j, bj.
  - intros [Hw|(j & bj & Hne & Hj & Hw)].
    + exists tid, b'. by rewrite list_lookup_insert_eq by (by eapply lookup_lt_Some).
    + exists j, bj. by rewrite list_lookup_insert_ne.
Qed.

Lemma awaited_split robs tid b p : robs !! tid = Some b ->
  awaited robs p <-> waits (rb_rob b) p \/ exists j bj, j <> tid /\ robs !! j = Some bj /\ waits (rb_rob bj) p.
Proof. intros Hb. rewrite <- (awaited_insert robs tid b b p Hb). by rewrite list_insert_id. Qed.

Lemma awaited_same robs tid b b' p : robs !! tid = Some b -> (waits (rb_rob b') p <-> waits (rb_rob b) p) ->
  awaited (<[tid := b']> robs) p <-> awaited robs p.
Proof. intros Hb Hw. by rewrite (awaited_insert robs tid b b'), (awaited_split robs tid b), Hw. Qed.

(** ** Steps *)

Lemma rsys_thread y tid : rsys_ok y -> (tid < length (y_robs y))%nat -> exists t b old,
  rs_threads (y_state y) !! tid = Some t /\ y_robs y !! tid = Some b /\ thread_ok tid (y_last y) t b old.
Proof.
  intros Hy Hlt. pose proof (yo_len _ Hy). destruct (lookup_lt_is_Some_2 (y_robs y) tid) as [b Hb]; [lia|].
  destruct (lookup_lt_is_Some_2 (rs_threads (y_state y)) tid) as [t Ht]; [lia|].
  destruct (yo_threads _ Hy _ _ _ Ht Hb) as [old Hto]. by exists t, b, old.
Qed.

Lemma canRename_room tid inst fl : inst_ok tid inst ->
  canRename fl (numIntDestRegs inst) (numFPDestRegs inst) (numCCDestRegs inst) = true ->
  forall cl, cl <> MiscRegClass -> (dest_count isa cl (ri_dests inst) <= length (class_free fl cl))%nat.
Proof.
  intros (_ & _ & H1 & H2 & H3) Hc cl Hcl. unfold canRename in Hc. apply andb_true_iff in Hc as [[Ha Hb]%andb_true_iff Hd].
  apply Nat.leb_le in Ha, Hb, Hd. destruct cl; cbn; try done; lia.
Qed.

(** The thread after an instruction has been renamed. *)
Lemma thread_ok_made tid last t b old seq fl sb new m' fl' sb' : thread_ok tid last t b old -> last < seq ->
  made isa f seq (rt_map t) fl sb new m' fl' sb' ->
  thread_ok tid seq (mkRThread m' (rt_commit t) (new ++ rt_history t))
    (mkRobThread (mkRobInst seq new false :: rb_rob b) (rb_committed b)) old.
Proof.
  intros [H1 H2 H3 H4 H5 H6 H7 H8 H9 H10 H11 H12 H13] Hlt [M1 M2 M3 M4 M5 M6 M7 M8]. split; cbn [rt_map rt_commit rt_history rb_rob rb_committed]; try done.
  - cbn. fold (flight (rb_rob b)). by rewrite <- app_assoc, H1.
  - by apply Forall_app.
  - apply chain_app. split; [done|]. by rewrite M6.
  - cbn. fold (flight (rb_rob b)). by rewrite undo_app, M6.
  - by apply Forall_cons.
  - constructor; [done|]. eapply Forall_impl; [done|]. cbn. intros i ?. lia.
  - apply Forall_cons. cbn. split; [lia|]. eapply Forall_impl; [done|]. cbn. intros i ?. lia.
  - lia.
  - intros E. apply (zero_ok_undo isa f Hisa new); try done. rewrite M6. by apply H13.
Qed.

Lemma waits_cons i rob p : waits (i :: rob) p <-> (ro_done i = false /\ p ∈ taken (ro_regs i)) \/ waits rob p.
Proof.
  unfold waits. split.
  - intros (j & [->|Hj]%elem_of_cons & H); [by left|right; by exists j].
  - intros [H|(j & Hj & H)]; [exists i|exists j]; set_solver.
Qed.

(** Renaming an instruction: it waits for registers or gets them, and its sources are
    what the map says. *)
Lemma rename_step y tid inst : rsys_ok y -> enabled y (ORename tid inst) -> exists t b y',
  rs_threads (y_state y) !! tid = Some t /\ y_robs y !! tid = Some b /\ apply_op y (ORename tid inst) = Ret y' /\ rsys_ok y' /\
  (y' = y \/ exists l i t', rename_inst isa f (y_state y) tid inst = Ret (Some l, y_state y') /\
     Forall2 (reads isa f (entries (rt_map t)) (rs_score (y_state y))) (ri_srcs inst) l /\
     y_robs y' = <[tid := mkRobThread (i :: rb_rob b) (rb_committed b)]> (y_robs y) /\
     rs_threads (y_state y') !! tid = Some t' /\ entries (rt_map t') = redo (ro_regs i) (entries (rt_map t)) /\
     archReg <$> ro_regs i = reverse (dest_flat isa <$> ri_dests inst)).
Proof.
  intros Hy (Hlt & Hseq & Hi). destruct (rsys_thread y tid Hy Hlt) as (t & b & old & Ht & Hb & Hto). exists t, b.
  cbn [apply_op]. rewrite (vread_some _ _ _ Hb). cbn [mbind res_bind]. unfold rename_inst. rewrite (vread_some _ _ _ Ht). cbn [mbind res_bind].
  destruct (canRename _ _ _ _) eqn:Hc; cbn [negb]; [|exists y; cbn [mbind res_bind]; split_and!; try done; by left].
  pose proof (canRename_room tid inst _ Hi Hc) as Hroom. destruct Hi as (Hsrc & Hdst & _).
  destruct (renameSrcRegs_ok isa f Hisa Hf (rt_map t) _ (ri_srcs inst) (to_map _ _ _ _ _ Hto) (yo_score _ Hy) Hsrc) as (l & -> & Hl).
  cbn [mbind res_bind].
  destruct (renameDestRegs_ok isa f Hisa Hf tid (ri_seq inst) (ri_dests inst) (rt_map t) (rs_free (y_state y)) (rs_score (y_state y)) (rt_history t))
    as (new & m' & fl' & sb' & -> & Hmade & Hnew); try done; try apply Hy; try apply Hto.
  { by apply view_free. }
  { intros p Hp. apply (view_own y Hy tid t Ht). unfold own. set_solver. }
  { by apply zero_not_free. }
  cbn [mbind res_bind rs_threads].
  assert (added inst (new ++ rt_history t) = new) as Hadd.
  { unfold added. apply (f_equal length) in Hnew. rewrite length_reverse, !length_fmap in Hnew. rewrite <- Hnew. apply take_app_length. }
  rewrite (vread_some _ _ (mkRThread m' (rt_commit t) (new ++ rt_history t)))
    by (apply list_lookup_insert_eq; by eapply lookup_lt_Some).
  cbn [mbind res_bind rt_history]. rewrite Hadd. eexists. split; [done|]. split; [done|]. split; [done|]. split.
  - pose proof Hmade as [M1 M2 M3 M4 M5 M6 M7 M8]. eapply rsys_update; try done; [lia| | | |].
    + exists old. by eapply thread_ok_made.
    + apply M8.
    + unfold own. cbn [rt_map rt_history]. rewrite held_app, (app_assoc (entries m')), <- (undo_perm isa f Hisa new (entries m') M1 M5), M6, M7. solve_Permutation.
    + intros p Hp Hpf. rewrite (proj2 M8) by lia. rewrite (awaited_insert _ _ b) by done. cbn [rb_rob]. rewrite waits_cons. cbn [ro_done ro_regs].
      pose proof (awaited_split (y_robs y) tid b p Hb) as Hs. case_decide as Hin; [tauto|].
      rewrite (yo_ready _ Hy p Hp); [tauto|]. rewrite M7. set_solver.
  - right. eexists l, _, _. split_and!; try done; cbn.
    + apply list_lookup_insert_eq. by eapply lookup_lt_Some.
    + cbn. destruct Hmade as [M1 M2 M3 M4 M5 M6 M7 M8]. by rewrite <- M6, redo_undo.
Qed.

Lemma flight_app r r' : flight (r ++ r') = flight r ++ flight r'.
Proof. unfold flight. by rewrite fmap_app, concat_app. Qed.

Lemma flight_seqs (P : Z -> Prop) rob : Forall (fun i => Forall (fun e => instSeqNum e = ro_seq i) (ro_regs i)) rob ->
  Forall (fun i => P (ro_seq i)) rob -> Forall (fun e => P (instSeqNum e)) (flight rob).
Proof.
  rewrite !Forall_forall. intros Hs HP e (i & Hi & He)%elem_of_concat_fmap. specialize (Hs i Hi). rewrite Forall_forall in Hs. rewrite (Hs e He). by apply HP.
Qed.

Lemma taken_flight rob p : p ∈ taken (flight rob) <-> exists i, i ∈ rob /\ p ∈ taken (ro_regs i).
Proof.
  unfold taken, flight. rewrite list_elem_of_fmap. setoid_rewrite list_elem_of_filter. setoid_rewrite elem_of_concat_fmap.
  setoid_rewrite list_elem_of_fmap. setoid_rewrite list_elem_of_filter. naive_solver.
Qed.

Lemma head_of (P : RenameHistory -> Prop) l : Forall P l -> match l with [] => True | e :: _ => P e end.
Proof. by destruct 1. Qed.

(** Squashing. *)
Lemma squash_step y tid n : rsys_ok y -> enabled y (OSquash tid n) -> exists y', apply_op y (OSquash tid n) = Ret y' /\ rsys_ok y'.
Proof.
  intros Hy (b & Hb & Hn). destruct (rsys_thread y tid Hy (lookup_lt_Some _ _ _ Hb)) as (t & b' & old & Ht & Hb' & Hto).
  rewrite Hb in Hb'. injection Hb' as <-. pose proof Hto as [H1 H2 H3 H4 H5 H6 H7 H8 H9 H10 H11 H12 H13].
  cbn [apply_op]. rewrite (vread_some _ _ _ Hb). cbn [mbind res_bind]. unfold doSquash. rewrite (vread_some _ _ _ Ht). cbn [mbind res_bind].
  set (hi := filter (fun i => n < ro_seq i) (rb_rob b)). set (lo := filter (fun i => ro_seq i <= n) (rb_rob b)).
  assert (rb_rob b = hi ++ lo) as Hcut by (eapply (sorted_cut ro_seq); [|exact H8]; cbn; lia).
  rewrite Hcut in H1, H6, H7, H8, H9. rewrite flight_app in H1, H6.
  apply Forall_app in H7 as [H7h H7l]. apply Forall_app in H9 as [H9h H9l].
  rewrite H1, <- app_assoc in *. apply Forall_app in H2 as [H2h H2]. apply chain_app in H5 as [H5h H5].
  destruct (doSquash_loop_ok isa f Hisa Hf n (flight hi) (flight lo ++ old)) with (m := rt_map t) (fl := rs_free (y_state y)) as (m' & fl' & -> & Hm' & Hfl' & He & Hp); try done.
  { apply (flight_seqs (fun s => n < s)); [done|]. apply Forall_forall. by intros i [? _]%list_elem_of_filter. }
  { apply (head_of (fun e => instSeqNum e <= n)). apply Forall_app. split.
    - apply (flight_seqs (fun s => s <= n)); [done|]. apply Forall_forall. by intros i [? _]%list_elem_of_filter.
    - eapply Forall_impl; [done|]. cbn. intros; lia. }
  { apply Hy. }
  specialize (He H5h). cbn [mbind res_bind]. eexists. split; [done|].
  eapply rsys_update; try done.
  - exists old. split; cbn [rt_map rt_commit rt_history rb_rob rb_committed]; try done.
    + by rewrite He.
    + by rewrite H6, undo_app, He.
    + by apply StronglySorted_app in H8 as (_ & _ & ?).
    + intros E. rewrite He. apply (zero_ok_undo isa f Hisa); try done. by apply H13.
  - apply Hy.
  - unfold own. cbn [rt_map rt_history]. rewrite H1, (held_app (flight hi)), He, Hp.
    rewrite (app_assoc (entries (rt_map t))), <- (undo_perm isa f Hisa (flight hi) (entries (rt_map t)) H2h H5h). solve_Permutation.
  - intros p Hpr Hpf. rewrite Hp in Hpf. rewrite (awaited_same _ _ b); [apply Hy; set_solver|done|]. cbn [rb_rob]. rewrite Hcut.
    split; intros (i & Hi & Hd & Hti); exists i; (split; [|done]); [set_solver|]. apply elem_of_app in Hi as [Hi|Hi]; [|done].
    exfalso. apply Hpf, elem_of_app. left. apply taken_flight. by exists i.
Qed.

(** Removal of committed entries. *)
Lemma remove_step y tid n : rsys_ok y -> enabled y (ORemove tid n) -> exists y', apply_op y (ORemove tid n) = Ret y' /\ rsys_ok y'.
Proof.
  intros Hy (b & Hb & Hn). destruct (rsys_thread y tid Hy (lookup_lt_Some _ _ _ Hb)) as (t & b' & old & Ht & Hb' & Hto).
  rewrite Hb in Hb'. injection Hb' as <-. pose proof Hto as [H1 H2 H3 H4 H5 H6 H7 H8 H9 H10 H11 H12 H13].
  cbn [apply_op]. unfold removeFromHistory. rewrite (vread_some _ _ _ Ht). cbn [mbind res_bind].
  set (hi := filter (fun e => n < instSeqNum e) old). set (lo := filter (fun e => instSeqNum e <= n) old).
  assert (old = hi ++ lo) as Hcut by (eapply (sorted_cut instSeqNum); [|exact H11]; cbn; lia).
  rewrite Hcut in H1, H10, H11. rewrite H1 in H2, H5 |- *. rewrite app_assoc in H2, H5. apply Forall_app in H2 as [H2h H2]. apply chain_app in H5 as [H5h H5].
  rewrite !reverse_app, <- app_assoc.
  destruct (remove_loop_ok isa f Hf n (reverse lo) (reverse hi ++ reverse (flight (rb_rob b)))) with (fl := rs_free (y_state y)) as (fl' & -> & Hfl' & Hp).
  { apply Forall_reverse, Forall_forall. by intros e [? _]%list_elem_of_filter. }
  { by apply Forall_reverse. }
  { apply (head_of (fun e => n < instSeqNum e)). apply Forall_app. split; apply Forall_reverse.
    - apply Forall_forall. by intros e [? _]%list_elem_of_filter.
    - apply (flight_seqs (fun s => n < s)); [done|]. eapply Forall_impl; [done|]. cbn. intros; lia. }
  { apply (yo_free _ Hy). }
  cbn [mbind res_bind]. rewrite reverse_app, !reverse_involutive. eexists. split; [done|].
  rewrite <- (list_insert_id (y_robs y) tid b Hb). eapply rsys_update; try done.
  - exists hi. split; cbn [rt_map rt_commit rt_history]; try done.
    + by apply Forall_app in H10 as [? _].
    + by apply StronglySorted_app in H11 as (_ & ? & _).
  - apply (yo_score _ Hy).
  - unfold own. cbn [rt_map rt_history]. rewrite H1, Hp, !held_app. unfold held. rewrite (reverse_Permutation lo). solve_Permutation.
  - intros p Hpr Hpf. rewrite list_insert_id by done. apply Hy; [done|]. rewrite Hp in Hpf. set_solver.
Qed.

(** Commit of the head. *)
Lemma thread_ok_commit tid last t b old i r cm : thread_ok tid last t b old -> rb_rob b = r ++ [i] -> map_ok cm ->
  entries cm = redo (ro_regs i) (entries (rt_commit t)) ->
  thread_ok tid last (mkRThread (rt_map t) cm (rt_history t)) (mkRobThread r (ro_seq i)) (ro_regs i ++ old).
Proof.
  intros [H1 H2 H3 H4 H5 H6 H7 H8 H9 H10 H11 H12 H13] Hrob Hcm He.
  rewrite Hrob in H1, H6, H7, H8, H9. rewrite flight_app in H1, H6. cbn [flight fmap list_fmap concat] in H1, H6. rewrite app_nil_r in H1, H6.
  apply Forall_app in H7 as [H7 [H7i _]%Forall_cons]. apply Forall_app in H9 as [H9 [H9i _]%Forall_cons]. apply StronglySorted_app in H8 as (H8i & H8 & _).
  split; cbn [rt_map rt_commit rt_history rb_rob rb_committed]; try done.
  - by rewrite app_assoc.
  - rewrite He, H6, undo_app. apply redo_undo. rewrite H1 in H5. by apply chain_app in H5 as [[_ ?]%chain_app _].
  - apply Forall_forall. intros j Hj. specialize (H8i j i Hj). rewrite Forall_forall in H9. specialize (H9 j Hj). split; [apply H8i; set_solver|lia].
  - apply Forall_app. split; (eapply Forall_impl; [done|]); cbn; intros; lia.
  - apply StronglySorted_app. split_and!; [|clear -H7i|done].
    + intros e e' He1 He2. rewrite Forall_forall in H7i, H10. rewrite (H7i e He1). specialize (H10 e' He2). lia.
    + induction H7i as [|e g He Hg IH]; constructor; [done|]. eapply Forall_impl; [done|]. cbn. intros; lia.
  - lia.
Qed.

Lemma commit_step y tid : rsys_ok y -> enabled y (OCommit tid) -> exists y', apply_op y (OCommit tid) = Ret y' /\ rsys_ok y'.
Proof.
  intros Hy Hlt. destruct (rsys_thread y tid Hy Hlt) as (t & b & old & Ht & Hb & Hto).
  cbn [apply_op]. rewrite (vread_some _ _ _ Hb). cbn [mbind res_bind]. destruct (reverse (rb_rob b)) as [|i r] eqn:Er; [by exists y|].
  destruct (ro_done i) eqn:Ed; [|by exists y].
  assert (rb_rob b = reverse r ++ [i]) as Hrob by (rewrite <- (reverse_involutive (rb_rob b)), Er; by rewrite reverse_cons).
  unfold commit_head. rewrite (vread_some _ _ _ Ht). cbn [mbind res_bind].
  destruct (commit_dests_ok isa f Hisa (ro_regs i) (rt_commit t)) as (cm & -> & Hcm & He); [|apply Hto|].
  { pose proof (to_entries _ _ _ _ _ Hto) as H. rewrite (to_history _ _ _ _ _ Hto), Hrob, flight_app in H.
    apply Forall_app in H as [H _]. apply Forall_app in H as [_ H]. cbn in H. by rewrite app_nil_r in H. }
  cbn [mbind res_bind]. eexists. split; [done|]. eapply rsys_update; try done; try apply (yo_score _ Hy); try apply (yo_free _ Hy).
  - exists (ro_regs i ++ old). by eapply thread_ok_commit.
  - intros p Hpr Hpf. rewrite (awaited_same _ _ b); [by apply Hy|done|]. cbn [rb_rob]. rewrite Hrob.
    split; intros (j & Hj & Hd & Htj); exists j; (split; [|done]); [set_solver|].
    apply elem_of_app in Hj as [?|[->|?]%elem_of_cons]; [done|congruence|set_solver].
Qed.

(** Writeback. *)
Lemma thread_ok_mark tid last t b old seq : thread_ok tid last t b old ->
  thread_ok tid last t (mkRobThread (mark_done seq <$> rb_rob b) (rb_committed b)) old.
Proof.
  assert (forall i, ro_seq (mark_done seq i) = ro_seq i /\ ro_regs (mark_done seq i) = ro_regs i) as Hm by (intros i; unfold mark_done; by case_match).
  assert (flight (mark_done seq <$> rb_rob b) = flight (rb_rob b)) as Hfl.
  { unfold flight. rewrite <- list_fmap_compose. f_equal. apply list_fmap_ext. intros ? i _. cbn. apply Hm. }
  intros []. split; cbn [rb_rob rb_committed]; rewrite ?Hfl; try done.
  - apply Forall_fmap. eapply Forall_impl; [exact to_seqs0|]. cbn. intros i Hi. destruct (Hm i) as [Hq Hr]. by rewrite Hq, Hr.
  - clear -to_sorted0 Hm. induction to_sorted0 as [|i l _ IH Hi]; constructor; [done|]. apply Forall_fmap. eapply Forall_impl; [done|].
    cbn. intros j Hj. destruct (Hm i) as [-> _], (Hm j) as [-> _]. done.
  - apply Forall_fmap. eapply Forall_impl; [exact to_between0|]. cbn. intros i Hi. destruct (Hm i) as [-> _]. done.
Qed.

Lemma waits_mark seq rob p : waits (mark_done seq <$> rob) p <-> exists i, i ∈ rob /\ ro_seq i <> seq /\ ro_done i = false /\ p ∈ taken (ro_regs i).
Proof.
  unfold waits. setoid_rewrite list_elem_of_fmap. split.
  - intros (j & (i & -> & Hi) & Hd & Hp). exists i. unfold mark_done in *. destruct (Z.eqb_spec (ro_seq i) seq); by cbn in *.
  - intros (i & Hi & Hne & Hd & Hp). exists i. split; [|done]. exists i. split; [|done]. unfold mark_done. by rewrite (proj2 (Z.eqb_neq _ _)).
Qed.

Lemma nodup_concat_inj {A B} (g : A -> list B) l x x' w : NoDup (concat (g <$> l)) -> x ∈ l -> x' ∈ l -> w ∈ g x -> w ∈ g x' -> x = x'.
Proof.
  induction l as [|a l IH]; cbn; [set_solver|]. intros (Hn1 & Hn2 & Hn3)%NoDup_app [->|Hx]%elem_of_cons [->|Hx']%elem_of_cons Hw Hw'; [done|..|by apply IH].
  - destruct (Hn2 w Hw). apply elem_of_concat_fmap. by exists x'.
  - destruct (Hn2 w Hw'). apply elem_of_concat_fmap. by exists x.
Qed.

Lemma taken_flight_eq rob : taken (flight rob) = concat ((fun i => taken (ro_regs i)) <$> rob).
Proof. induction rob as [|i rob IH]; [done|]. unfold flight in *. cbn [fmap list_fmap concat]. by rewrite held_taken_app, IH. Qed.

Lemma elem_of_rob_regs seq rob p : p ∈ rob_regs seq rob <-> exists i e, i ∈ rob /\ ro_seq i = seq /\ e ∈ ro_regs i /\ p = newPhysReg e.
Proof.
  unfold rob_regs. rewrite list_elem_of_fmap. setoid_rewrite elem_of_concat_fmap. setoid_rewrite list_elem_of_filter. naive_solver.
Qed.

Lemma taken_new h p : p ∈ taken h -> exists e, e ∈ h /\ p = newPhysReg e.
Proof. unfold taken. intros (e & -> & [_ He]%list_elem_of_filter)%list_elem_of_fmap. by exists e. Qed.

(** The registers of an instruction that writes back are awaited by no other. *)
Lemma written_not_awaited y tid t b old seq p : rsys_ok y -> rs_threads (y_state y) !! tid = Some t -> y_robs y !! tid = Some b ->
  thread_ok tid (y_last y) t b old -> p < totalNumRegs f -> p ∈ rob_regs seq (rb_rob b) ->
  awaited (<[tid := mkRobThread (mark_done seq <$> rb_rob b) (rb_committed b)]> (y_robs y)) p -> False.
Proof.
  intros Hy Ht Hb Hto Hlt (i & e & Hi & Hseq & He & Hp)%elem_of_rob_regs Haw.
  rewrite (awaited_insert _ _ b) in Haw by done. cbn [rb_rob] in Haw. rewrite waits_mark in Haw.
  assert (entry_ok e) as (cl & r & _ & Hr & Htn & _ & _ & Hsame).
  { pose proof (to_entries _ _ _ _ _ Hto) as H. rewrite Forall_forall in H. apply H. rewrite (to_history _ _ _ _ _ Hto). apply elem_of_app. left.
    apply elem_of_concat_fmap. by exists i. }
  pose proof (target_phys isa f Hf cl r _ Hr Htn) as Hph. rewrite <- Hp in *.
  destruct (decide (p = prevPhysReg e)) as [E|E].
  - specialize (Hsame E). apply orb_true_iff in Hsame as [?%Z.leb_le|Hz%Z.eqb_eq]; [lia|].
    assert (awaited (y_robs y) p) as Ha.
    { apply (awaited_split _ tid b); [done|]. destruct Haw as [(j & Hj & _ & Hjw)|?]; [left; by exists j|by right]. }
    apply (yo_ready _ Hy) in Ha; [|unfold phys_ok in Hph; lia|rewrite Hz; by apply zero_not_free].
    pose proof (yo_score _ Hy) as [_ _ Hz' Hzr]. unfold ready in Ha. rewrite Hzr in Ha; [done|by apply Hz'|unfold phys_ok in Hph; lia].
  - assert (p ∈ taken (ro_regs i)) as Hti.
    { unfold taken. apply list_elem_of_fmap. exists e. split; [done|]. apply list_elem_of_filter. split; [|done]. unfold real.
      by rewrite <- Hp, (proj2 (Z.eqb_neq _ _)). }
    destruct Haw as [(j & Hj & Hne & _ & Hjt)|(j & bj & Hne & Hbj & (i' & Hi' & _ & Hit'))].
    + apply Hne. rewrite <- Hseq. f_equal. destruct (view_taken y Hy tid t b old Ht Hb Hto) as [Hnd _].
      rewrite (to_history _ _ _ _ _ Hto), held_taken_app in Hnd. apply NoDup_app in Hnd as (Hnd & _ & _). rewrite taken_flight_eq in Hnd.
      by eapply (nodup_concat_inj (fun i => taken (ro_regs i))).
    + destruct (rsys_thread y j Hy (lookup_lt_Some _ _ _ Hbj)) as (tj & bj' & oldj & Htj & Hbj' & Htoj). rewrite Hbj in Hbj'. injection Hbj' as <-.
      apply (view_other y Hy tid t Ht j tj p Hne Htj); [by apply (flight_taken y Hy tid t b old Ht Hb Hto i)|by apply (flight_taken y Hy j tj bj oldj Htj Hbj Htoj i')].
Qed.

Lemma writeback_step y tid seq : rsys_ok y -> enabled y (OWriteback tid seq) -> exists y', apply_op y (OWriteback tid seq) = Ret y' /\ rsys_ok y'.
Proof.
  intros Hy Hlt. destruct (rsys_thread y tid Hy Hlt) as (t & b & old & Ht & Hb & Hto).
  cbn [apply_op]. rewrite (vread_some _ _ _ Hb). cbn [mbind res_bind]. unfold writebackInst.
  destruct (set_regs_ok isa f Hisa Hf (rob_regs seq (rb_rob b)) (rs_score (y_state y)) (yo_score _ Hy)) as (sb' & -> & Hsb & Hrd).
  { apply Forall_forall. intros p (i & e & Hi & _ & He & ->)%elem_of_rob_regs. pose proof (to_entries _ _ _ _ _ Hto) as H. rewrite Forall_forall in H.
    destruct (H e) as (cl & r & _ & Hr & Htn & _); [|by eapply target_phys]. rewrite (to_history _ _ _ _ _ Hto). apply elem_of_app. left.
    apply elem_of_concat_fmap. by exists i. }
  cbn [mbind res_bind]. eexists. split; [done|]. rewrite <- (list_insert_id _ _ _ Ht). eapply rsys_update; try done.
  - exists old. by apply thread_ok_mark.
  - apply Hy.
  - intros p Hpr Hpf. rewrite Hrd by lia. case_decide as Hin.
    + apply list_elem_of_filter in Hin as [Hp Hin]. split; [done|]. intros Haw. by destruct (written_not_awaited y tid t b old seq p Hy Ht Hb Hto Hp Hin).
    + rewrite (awaited_same _ _ b); [by apply Hy|done|]. cbn [rb_rob]. rewrite waits_mark. split.
      * intros (i & Hi & _ & H). by exists i.
      * intros (i & Hi & Hd & Hp). exists i. split_and!; try done. intros Hs. apply Hin, list_elem_of_filter. split; [lia|].
        destruct (taken_new _ _ Hp) as (e & He & ->). apply elem_of_rob_regs. by exists i, e.
Qed.

(** Every step that the other stages may take succeeds and keeps the invariant. *)
Lemma step_ok y op : rsys_ok y -> enabled y op -> exists y', apply_op y op = Ret y' /\ rsys_ok y'.
Proof.
  intros Hy He. destruct op.
  - destruct (rename_step y tid inst Hy He) as (? & ? & y' & _ & _ & ? & ? & _). by exists y'.
  - by apply squash_step.
  - by apply writeback_step.
  - by apply commit_step.
  - by apply remove_step.
Qed.

Lemma reaches_ok y y' : rsys_ok y -> reaches y y' -> rsys_ok y'.
Proof.
  intros Hy H. revert Hy. induction H as [|y y1 op y2 _ IH Hen Hap]; [done|]. intros Hy. destruct (step_ok y1 op (IH Hy) Hen) as (y' & Hap' & ?). congruence.
Qed.

(** ** Start *)

Lemma set_set_class m cl x x' : cl <> MiscRegClass -> set_class_map (set_class_map m cl x) cl x' = set_class_map m cl x'.
Proof. by destruct cl. Qed.
Lemma class_set_class m cl x : cl <> MiscRegClass -> class_map (set_class_map m cl x) cl = x.
Proof. by destruct cl. Qed.
Lemma set_class_id m cl : cl <> MiscRegClass -> set_class_map m cl (mkSimpleRenameMap (sm_map (class_map m cl)) (sm_zeroReg (class_map m cl))) = m.
Proof. destruct m as [[] [] []]. by destruct cl. Qed.

Lemma map_class_ok cl ps : cl <> MiscRegClass -> Forall (fun p => phys_class f cl p = true) ps -> forall pre zs post m rest,
  length zs = length ps -> sm_map (class_map m cl) = pre ++ zs ++ post ->
  map_class f cl (length ps) (Z.of_nat (length pre)) m (ps ++ rest) =
    Ret (set_class_map m cl (mkSimpleRenameMap (pre ++ ps ++ post) (sm_zeroReg (class_map m cl))), rest).
Proof.
  intros Hcl. induction 1 as [|p ps Hp Hps IH]; intros pre zs post m rest Hlen Hm.
  - destruct zs; [|done]. cbn. cbn in Hm. by rewrite <- Hm, set_class_id.
  - destruct zs as [|z zs]; [done|]. cbn [length map_class app getReg mbind res_bind]. cbn [app] in Hm.
    rewrite class_setEntry_eq, Hp by done. cbn [cassert mbind res_bind].
    rewrite sm_set_in by (rewrite Hm, length_app; cbn; lia). cbn [mbind res_bind].
    rewrite Hm, Nat2Z.id. rewrite insert_app_r_alt, Nat.sub_diag by lia. cbn [insert list_insert].
    replace (Z.of_nat (length pre) + 1) with (Z.of_nat (length (pre ++ [p]))) by (rewrite length_app; cbn; lia).
    rewrite (IH (pre ++ [p]) zs post); [|by injection Hlen|rewrite class_set_class by done; cbn; by rewrite <- app_assoc].
    rewrite set_set_class, class_set_class by done. cbn. by rewrite <- app_assoc.
Qed.

Lemma split_at {A} (l : list A) n : (n <= length l)%nat -> exists a b, l = a ++ b /\ length a = n.
Proof. intros H. exists (take n l), (drop n l). by rewrite take_drop, length_take_le. Qed.

(** The maps of a thread at the start. *)
Record fresh_thread (t : RThread) (ints : list Z) : Prop := {
  ft_map : map_ok (rt_map t);
  ft_commit : rt_commit t = rt_map t;
  ft_history : rt_history t = [];
  ft_ints : sm_map (intMap (rt_map t)) = ints
}.

Lemma map_class_zeros cl ps rest m k : cl <> MiscRegClass -> Forall (fun p => phys_class f cl p = true) ps ->
  sm_map (class_map m cl) = replicate (length ps + k) 0 ->
  map_class f cl (length ps) 0 m (ps ++ rest) =
    Ret (set_class_map m cl (mkSimpleRenameMap (ps ++ replicate k 0) (sm_zeroReg (class_map m cl))), rest).
Proof.
  intros Hcl Hp Hm. rewrite replicate_add in Hm. exact (map_class_ok cl ps Hcl Hp [] _ _ m rest (length_replicate _ _) Hm).
Qed.

Lemma map_thread_ok fl : free_ok f fl -> (NumIntRegs isa <= length (intList fl))%nat -> (NumFloatRegs isa <= length (floatList fl))%nat ->
  (NumCCRegs isa <= length (ccList fl))%nat ->
  exists t fl', map_thread isa f fl = Ret (t, fl') /\ fresh_thread t (take (NumIntRegs isa) (intList fl)) /\ free_ok f fl' /\
    free_all fl ≡ₚ own t ++ free_all fl' /\
    forall cl, cl <> MiscRegClass -> length (class_free fl cl) = (class_size isa cl + length (class_free fl' cl))%nat.
Proof.
  intros Hfl L1 L2 L3. destruct fl as [il fll cl]. cbn in *. pose proof (io_ccs _ Hisa) as Hcc.
  pose proof (Hfl IntRegClass) as F1. pose proof (Hfl FloatRegClass) as F2. pose proof (Hfl CCRegClass) as F3. cbn in F1, F2, F3. clear Hfl.
  destruct (split_at il _ L1) as (i1 & i2 & -> & E1). destruct (split_at fll _ L2) as (f1 & f2 & -> & E2). destruct (split_at cl _ L3) as (c1 & c2 & -> & E3).
  apply Forall_app in F1 as [F1 G1]. apply Forall_app in F2 as [F2 G2]. apply Forall_app in F3 as [F3 G3].
  unfold map_thread. cbn [intList floatList ccList]. rewrite <- E1, <- E2, <- E3.
  rewrite (map_class_zeros IntRegClass i1 i2 _ 0) by (done || (cbn; by rewrite E1, Nat.add_0_r)). cbn [mbind res_bind].
  rewrite (map_class_zeros FloatRegClass f1 f2 _ 0) by (done || (cbn; by rewrite E2, Nat.add_0_r)). cbn [mbind res_bind].
  rewrite (map_class_zeros CCRegClass c1 c2 _ (NumFloatRegs isa - NumCCRegs isa)) by (done || (cbn; f_equal; lia)). cbn [mbind res_bind].
  do 2 eexists. split; [done|]. cbn. rewrite !app_nil_r. split_and!.
  - split; cbn; try done; [|by rewrite take_app_length]. split; cbn; try done.
    + rewrite length_app, length_replicate. lia.
    + by rewrite <- E3, take_app_length.
  - intros []; cbn; done.
  - unfold free_all, own, held, RegRename.entries. cbn. rewrite <- E3, take_app_length. solve_Permutation.
  - intros []; cbn; rewrite ?length_app; try done; lia.
Qed.

Lemma map_threads_ok n : forall fl, free_ok f fl -> (n * NumIntRegs isa <= length (intList fl))%nat ->
  (n * NumFloatRegs isa <= length (floatList fl))%nat -> (n * NumCCRegs isa <= length (ccList fl))%nat ->
  exists ts fl', map_threads isa f n fl = Ret (ts, fl') /\ length ts = n /\ (forall j t, ts !! j = Some t -> exists ints, fresh_thread t ints) /\
    (forall t, ts !! 0%nat = Some t -> fresh_thread t (take (NumIntRegs isa) (intList fl))) /\ free_ok f fl' /\
    free_all fl' ++ concat (own <$> ts) ≡ₚ free_all fl.
Proof.
  induction n as [|n IH]; intros fl Hfl L1 L2 L3; cbn [map_threads].
  - exists [], fl. split_and!; try done. by rewrite app_nil_r.
  - destruct (map_thread_ok fl Hfl) as (t & fl1 & -> & Ht & Hfl1 & Hp & Hl); [lia..|]. cbn [mbind res_bind].
    pose proof (Hl IntRegClass ltac:(done)) as K1. pose proof (Hl FloatRegClass ltac:(done)) as K2. pose proof (Hl CCRegClass ltac:(done)) as K3. cbn in K1, K2, K3.
    destruct (IH fl1 Hfl1) as (ts & fl' & -> & Hlen & Hts & _ & Hfl' & Hp'); [lia..|]. cbn [mbind res_bind].
    exists (t :: ts), fl'. split_and!; try done.
    + cbn. by rewrite Hlen.
    + intros [|j] t' Hj; cbn in Hj; [injection Hj as <-; by eexists|by eapply Hts].
    + intros t' Hj. by injection Hj as <-.
    + cbn. rewrite Hp, <- Hp'. solve_Permutation.
Qed.

(** The system at the start. *)
Definition rsys_start (s : RState) : RSys := mkRSys s (replicate (length (rs_threads s)) (mkRobThread [] 0)) 0.

Lemma fresh_thread_ok tid t ints : fresh_thread t ints -> (tid = O -> zero_ok isa (entries (rt_map t))) -> thread_ok tid 0 t (mkRobThread [] 0) [].
Proof. intros [H1 H2 H3 H4] Hz. split; cbn; rewrite ?H3, ?H2; try done; try constructor. Qed.

Lemma rsys_start_ok s : rs_threads s <> [] -> free_ok f (rs_free s) -> sb_ok isa f (rs_score s) ->
  (forall p, ready (rs_score s) p = true) ->
  (forall j t, rs_threads s !! j = Some t -> exists ints, fresh_thread t ints) ->
  (forall t, rs_threads s !! 0%nat = Some t -> sm_map (intMap (rt_map t)) !! Z.to_nat (intZeroReg isa) = Some (intZeroReg isa)) ->
  free_all (rs_free s) ++ concat (own <$> rs_threads s) ≡ₚ seqZ 0 (totalNumRegs f) -> rsys_ok (rsys_start s).
Proof.
  intros Hne Hfl Hsb Hrd Hts Hz Hp. split; cbn; try done.
  - apply length_replicate.
  - rewrite length_replicate. destruct (rs_threads s); [done|cbn; lia].
  - intros tid t b Ht [-> _]%lookup_replicate. exists []. destruct (Hts tid t Ht) as [ints Hft]. apply (fresh_thread_ok tid t ints Hft).
    intros -> n [= <-] _. unfold RegRename.entries. rewrite lookup_app_l; [by apply Hz|]. eapply lookup_lt_Some. by apply Hz.
  - intros p _ _. rewrite Hrd. split; [done|]. intros (tid & b & [-> _]%lookup_replicate & (i & Hi & _)). cbn in Hi. set_solver.
Qed.
End system.

Lemma initFreeList_all f : file_ok f -> free_all (initFreeList f) = seqZ 0 (totalNumRegs f).
Proof.
  intros [H1 H2]. unfold free_all, initFreeList. cbn. destruct f as [a b t]. cbn in *.
  pose proof (seqZ_app a (b - a) (t - b) ltac:(lia) ltac:(lia)) as E1. pose proof (seqZ_app 0 a (t - a) ltac:(lia) ltac:(lia)) as E2.
  replace (a + (b - a)) with b in E1 by lia. replace (b - a + (t - b)) with (t - a) in E1 by lia. replace (a + (t - a)) with t in E2 by lia.
  rewrite Z.add_0_l in E2. by rewrite E2, E1.
Qed.

Lemma initFreeList_ok f : file_ok f -> free_ok f (initFreeList f).
Proof.
  intros [H1 H2] cl. apply Forall_forall. destruct cl; cbn; unfold isIntPhysReg, isFloatPhysReg, isCCPhysReg;
    intros p Hp; [apply elem_of_seqZ in Hp..|by apply elem_of_nil in Hp]; rewrite andb_true_iff, Z.leb_le, Z.ltb_lt; lia.
Qed.

(** The assertions of the constructor are all that a start needs. *)
Lemma o3_start_ok isa threads active ints floats ccs alpha : isa_ok isa -> in_class isa IntRegClass (intZeroReg isa) ->
  (threads * NumIntRegs isa <= ints)%nat -> (threads * NumFloatRegs isa <= floats)%nat -> (threads * NumCCRegs isa <= ccs)%nat ->
  (0 < active <= threads)%nat ->
  exists f s, o3_start isa threads active ints floats ccs alpha = Ret (f, s) /\ file_ok f /\
    totalNumRegs f = Z.of_nat (ints + floats + ccs) /\ length (rs_threads s) = active /\ rsys_ok isa f (rsys_start s).
Proof.
  intros Hisa Hz L1 L2 L3 Ha. unfold o3_start. set (f := PhysRegFile_new _ _ _).
  assert (file_ok f) as Hf by (split; cbn; lia).
  rewrite !cassert_true by (by apply Nat.leb_le). cbn [mbind res_bind].
  destruct (map_threads_ok isa f Hisa active (initFreeList f)) as (ts & fl & -> & Hlen & Hts & Hfirst & Hfl & Hp).
  { by apply initFreeList_ok. }
  all: try (cbn; rewrite length_seqZ; nia).
  cbn [mbind res_bind]. exists f, (mkRState fl (Scoreboard_new (ints + floats + ccs) (NumMiscRegs isa) (intZeroReg isa)
    (if alpha then Some (intZeroReg isa) else None)) ts). split_and!; try done; [cbn; lia|]. apply rsys_start_ok; cbn [rs_threads rs_free rs_score]; try done.
  - intros ->. cbn in Hlen. lia.
  - split; cbn.
    + rewrite length_replicate. lia.
    + lia.
    + intros z. unfold isZeroReg. cbn. destruct alpha; rewrite ?orb_false_r, ?orb_diag; apply Z.eqb_eq.
    + intros z _ Hzr. apply lookup_replicate_2. lia.
  - intros p. unfold ready. cbn. destruct (replicate _ true !! _) as [b|] eqn:E; [|done]. by apply lookup_replicate in E as [-> _].
  - intros t Ht. rewrite (ft_ints _ _ _ _ (Hfirst t Ht)). unfold in_class in Hz. cbn in Hz. rewrite lookup_take_lt by lia. cbn.
    apply lookup_seqZ. nia.
  - rewrite Hp, initFreeList_all by done. done.
Qed.

(** ** The claims *)

(** C35. Registers are never lost, shared or freed twice, whatever the pipeline does: the
    processor starts once it has enough registers for its threads, and in every state that
    renaming, squashing, writeback, commit and removal of history reach, each step that
    the other stages may ask for succeeds without a failing assertion or an empty free
    list, and the physical registers are exactly those free, those the rename maps name
    and those the histories hold. *)
Theorem renaming_safe isa threads active ints floats ccs alpha : isa_ok isa -> in_class isa IntRegClass (intZeroReg isa) ->
  (threads * NumIntRegs isa <= ints)%nat -> (threads * NumFloatRegs isa <= floats)%nat -> (threads * NumCCRegs isa <= ccs)%nat ->
  (0 < active <= threads)%nat ->
  exists f s, o3_start isa threads active ints floats ccs alpha = Ret (f, s) /\
    forall y, reaches isa f (rsys_start s) y ->
      (forall op, enabled isa y op -> exists y', apply_op isa f y op = Ret y') /\
      free_all (rs_free (y_state y)) ++ concat (own isa <$> rs_threads (y_state y)) ≡ₚ seqZ 0 (Z.of_nat (ints + floats + ccs)).
Proof.
  intros Hisa Hz L1 L2 L3 Ha. destruct (o3_start_ok isa threads active ints floats ccs alpha Hisa Hz L1 L2 L3 Ha) as (f & s & Hs & Hf & Htot & _ & Hok).
  exists f, s. split; [done|]. intros y Hr. pose proof (reaches_ok isa f Hisa Hf Hz _ _ Hok Hr) as Hy. split.
  - intros op Hop. destruct (step_ok isa f Hisa Hf Hz y op Hy Hop) as (y' & ? & _). by exists y'.
  - rewrite <- Htot. apply Hy.
Qed.

Lemma awaited_range isa f y p : isa_ok isa -> file_ok f -> in_class isa IntRegClass (intZeroReg isa) -> rsys_ok isa f y -> awaited (y_robs y) p -> 0 <= p < totalNumRegs f.
Proof.
  intros Hisa Hf Hz Hy (tid & b & Hb & (i & Hi & _ & Hp)).
  destruct (rsys_thread isa f y tid Hy (lookup_lt_Some _ _ _ Hb)) as (t & b' & old & Ht & Hb' & Hto). rewrite Hb in Hb'. injection Hb' as <-.
  assert (p ∈ own isa t) as Hin by (by eapply flight_taken).
  assert (p ∈ seqZ 0 (totalNumRegs f)) as Hs%elem_of_seqZ; [|lia]. rewrite <- (yo_perm _ _ _ Hy). apply elem_of_app. right.
  apply elem_of_concat_fmap. exists t. split; [by eapply list_elem_of_lookup_2|done].
Qed.

(** The scoreboard on a source of a renamed instruction. *)
Lemma source_ready isa f y tid t d x : isa_ok isa -> file_ok f -> in_class isa IntRegClass (intZeroReg isa) -> rsys_ok isa f y -> rs_threads (y_state y) !! tid = Some t ->
  src_ok isa d -> reads isa f (entries isa (rt_map t)) (rs_score (y_state y)) d x -> x.2 = false <-> awaited (y_robs y) x.1.
Proof.
  intros Hisa Hf Hz Hy Ht (cl & r & Hd & Hr) (cl' & r' & Hd' & [Htg Hmp] & ->). rewrite Hd in Hd'. injection Hd' as <- <-.
  destruct (decide (cl = MiscRegClass)) as [->|Hcl].
  - destruct Htg as [Hge _]. cbn in Hge. apply Z.leb_le in Hge. split.
    + unfold ready. rewrite lookup_ge_None_2; [done|]. pose proof (so_len _ _ _ (yo_score _ _ _ Hy)). lia.
    + intros Haw. pose proof (awaited_range isa f y _ Hisa Hf Hz Hy Haw). lia.
  - apply (yo_ready _ _ _ Hy); [by eapply phys_class_range; [..|apply Htg]|]. eapply view_own; [done..|].
    assert (exists n, place isa cl (flat_rel isa cl r) = Some n) as [n Hn] by (destruct cl; [by eexists..|done]).
    unfold own. apply elem_of_app. left. eapply list_elem_of_lookup_2. by apply Hmp.
Qed.

(** C36. Renaming keeps the meaning of programs: in every state the pipeline reaches, the
    rename map of a thread is the map of its committed state updated, in program order,
    by the destinations of exactly its instructions in flight, so that after a squash no
    trace of the squashed ones is left; and an instruction that is renamed reads each
    source from the register this updated map names, which the scoreboard shows as not
    ready if and only if an instruction in flight has it as destination and has not yet
    written back. *)
Theorem rename_map_precise isa threads active ints floats ccs alpha f s y tid t b : isa_ok isa -> in_class isa IntRegClass (intZeroReg isa) ->
  (threads * NumIntRegs isa <= ints)%nat -> (threads * NumFloatRegs isa <= floats)%nat -> (threads * NumCCRegs isa <= ccs)%nat ->
  (0 < active <= threads)%nat -> o3_start isa threads active ints floats ccs alpha = Ret (f, s) -> reaches isa f (rsys_start s) y ->
  rs_threads (y_state y) !! tid = Some t -> y_robs y !! tid = Some b ->
  entries isa (rt_map t) = redo isa (flight (rb_rob b)) (entries isa (rt_commit t)) /\
  forall inst l s', enabled isa y (ORename tid inst) -> rename_inst isa f (y_state y) tid inst = Ret (Some l, s') ->
    Forall2 (fun d x => (exists cl r, regIdxToClass isa d = Ret (cl, r) /\
        maps_to isa f (redo isa (flight (rb_rob b)) (entries isa (rt_commit t))) cl (flat_rel isa cl r) x.1) /\
      (x.2 = false <-> awaited (y_robs y) x.1)) (ri_srcs inst) l.
Proof.
  intros Hisa Hz L1 L2 L3 Ha Hs Hr Ht Hb.
  destruct (o3_start_ok isa threads active ints floats ccs alpha Hisa Hz L1 L2 L3 Ha) as (f' & s0 & Hs' & Hf & _ & _ & Hok).
  rewrite Hs in Hs'. injection Hs' as <- <-. pose proof (reaches_ok isa f Hisa Hf Hz _ _ Hok Hr) as Hy.
  destruct (yo_threads _ _ _ Hy _ _ _ Ht Hb) as [old Hto].
  assert (redo isa (flight (rb_rob b)) (entries isa (rt_commit t)) = entries isa (rt_map t)) as Hredo.
  { rewrite (to_commit _ _ _ _ _ _ _ Hto). apply redo_undo. pose proof (to_chain _ _ _ _ _ _ _ Hto) as Hc.
    rewrite (to_history _ _ _ _ _ _ _ Hto) in Hc. by apply chain_app in Hc as [? _]. }
  split; [done|]. intros inst l s' Hen Hren. rewrite Hredo. pose proof Hen as (_ & _ & Hi & _).
  unfold rename_inst in Hren. rewrite (vread_some _ _ _ Ht) in Hren. cbn [mbind res_bind] in Hren. case_match; [done|].
  destruct (renameSrcRegs_ok isa f Hisa Hf (rt_map t) _ (ri_srcs inst) (to_map _ _ _ _ _ _ _ Hto) (yo_score _ _ _ Hy) Hi) as (l' & Hl & Hreads).
  rewrite Hl in Hren. cbn [mbind res_bind] in Hren. destruct (renameDestRegs _ _ _ _ _ _ _ _) as [[[[? ?] ?] ?]|]; [|done]. injection Hren as <- _.
  rewrite Forall_forall in Hi. clear Hl. induction Hreads as [|d x ds xs Hx _ IH]; constructor; [|apply IH; set_solver].
  split; [by destruct Hx as (cl & r & ? & ? & _); exists cl, r|]. eapply source_ready; try done. apply Hi. set_solver.
Qed.

(** ** Concrete runs *)

(** An instruction set with four integer registers, the last of them zero, two
    floating-point registers, one condition code and two misc registers. *)
Definition small_isa : RegISA := mkRegISA 4 2 1 2 4 6 7 9 3 3 (fun _ r => r).

Lemma small_isa_ok : isa_ok small_isa.
Proof. split; cbn; lia. Qed.

(** r0 := r1 + r2, setting the condition code. *)
Definition small_inst (seq : Z) : RInst := mkRInst seq [1; 2] [0; 6] 1 0 1.

Lemma small_inst_ok seq tid : inst_ok small_isa tid (small_inst seq).
Proof.
  split_and!; [|..|by vm_compute|by vm_compute|by vm_compute].
  - repeat constructor; (eexists; eexists; split; [reflexivity|]); unfold in_class; cbn; lia.
  - repeat constructor; (eexists; eexists; split; [reflexivity|]); unfold dest_ok, in_class; cbn; (split; [lia|]); intros; lia.
Qed.

Definition run_ops (f : PhysRegFile) (y : RSys) (ops : list ROp) : res RSys :=
  foldl (fun r op => y ← r; apply_op small_isa f y op) (Ret y) ops.

(** What a run leaves: the free integer registers and the integer map of thread 0. *)
Definition summary (ops : list ROp) : res (list Z * list Z * list Z) :=
  '(f, s) ← o3_start small_isa 2 2 10 6 3 false;
  y ← run_ops f (rsys_start s) ops;
  t ← vread (rs_threads (y_state y)) 0;
  Ret (intList (rs_free (y_state y)), sm_map (intMap (rt_map t)), sm_map (intMap (rt_commit t))).

Example summary_start : summary [] = Ret ([8; 9], [0; 1; 2; 3], [0; 1; 2; 3]).
Proof. vm_compute. reflexivity. Qed.
Example summary_rename : summary [ORename 0 (small_inst 5)] = Ret ([9], [8; 1; 2; 3], [0; 1; 2; 3]).
Proof. vm_compute. reflexivity. Qed.
Example summary_squash : summary [ORename 0 (small_inst 5); OSquash 0 4] = Ret ([9; 8], [0; 1; 2; 3], [0; 1; 2; 3]).
Proof. vm_compute. reflexivity. Qed.
Example summary_commit : summary [ORename 0 (small_inst 5); OWriteback 0 5; OCommit 0; ORemove 0 5] = Ret ([9; 0], [8; 1; 2; 3], [8; 1; 2; 3]).
Proof. vm_compute. reflexivity. Qed.

(** The zero register as a destination is renamed on the first thread and fails an
    assertion on the second, whose zero register has another physical one. *)
Example zero_first_thread : exists r, summary [ORename 0 (mkRInst 5 [] [3] 1 0 0)] = Ret r.
Proof. eexists. vm_compute. reflexivity. Qed.
Lemma zero_dest_other_thread : summary [ORename 1 (mkRInst 5 [] [3] 1 0 0)] = Err AssertFailed.
Proof. vm_compute. reflexivity. Qed.

Lemma renaming_safe_witness : exists f s, o3_start small_isa 2 2 10 6 3 false = Ret (f, s) /\
  forall y, reaches small_isa f (rsys_start s) y ->
    (forall op, enabled small_isa y op -> exists y', apply_op small_isa f y op = Ret y') /\
    free_all (rs_free (y_state y)) ++ concat (own small_isa <$> rs_threads (y_state y)) ≡ₚ seqZ 0 (Z.of_nat (10 + 6 + 3)).
Proof. apply (renaming_safe small_isa 2 2 10 6 3 false); [apply small_isa_ok|unfold in_class; cbn; lia..]. Defined.

(** The system after the first thread has renamed the instruction. *)
Definition small_start : PhysRegFile * RState := Eval vm_compute in
  match o3_start small_isa 2 2 10 6 3 false with Ret x => x | Err _ => (PhysRegFile_new 0 0 0, mkRState (mkUnifiedFreeList [] [] []) (Scoreboard_new 0 0 0 None) []) end.
Definition small_sys : RSys := Eval vm_compute in
  match apply_op small_isa small_start.1 (rsys_start small_start.2) (ORename 0 (small_inst 5)) with Ret y => y | Err _ => rsys_start small_start.2 end.

Lemma rename_map_precise_witness : exists t b, rs_threads (y_state small_sys) !! 0%nat = Some t /\ y_robs small_sys !! 0%nat = Some b /\
  length (flight (rb_rob b)) = 2%nat /\
  entries small_isa (rt_map t) = redo small_isa (flight (rb_rob b)) (entries small_isa (rt_commit t)).
Proof.
  do 2 eexists. split; [reflexivity|]. split; [reflexivity|]. split; [reflexivity|].
  apply (rename_map_precise small_isa 2 2 10 6 3 false small_start.1 small_start.2 small_sys 0);
    [apply small_isa_ok|unfold in_class; cbn; lia..|vm_compute; reflexivity| |reflexivity|reflexivity].
  eapply (reaches_step small_isa small_start.1 _ _ (ORename 0 (small_inst 5))); [apply reaches_refl| |vm_compute; reflexivity]. split; [cbn; lia|]. split; [cbn; lia|]. apply small_inst_ok.
Defined.
