(* ===== verification/StackDist.v ===== *)
(** * Stack distances: [mem/stack_dist_calc.hh], [mem/stack_dist_calc.cc]

    A calculator is told the addresses of requests and answers how many other addresses
    were seen since the last request for the same one.  It keeps a leaf per address that
    was seen, in the order of the last requests, below a binary tree of partial sums that
    grows with the number of requests; nodes whose leaves are all gone are deleted.

    A pointer to a node is its layer and its index there, the place the maps of [tree]
    have it at; a null pointer in a map is the same as no entry.  Following a pointer to
    a node that was deleted is undefined behaviour.  The histograms are the samples a
    request adds to them. *)

From stdpp Require Import gmap.
From S2P Require Import Prelude IntMath Packet.
Local Open Scope Z_scope.

Definition Infinity : Z := 2 ^ 64 - 1.

Record SDNode := mkSDNode {
  sumLeft : Z; sumRight : Z; discardLeft : bool; discardRight : bool;
  nodeIndex : Z; sd_parent : option (nat * Z); isLeftNode : bool; isMarked : bool
}.
Definition SDNode_new : SDNode := mkSDNode 0 0 false false 0 None true false.

Record StackDistCalc := mkStackDistCalc {
  sd_index : Z; sd_tree : list (gmap Z SDNode); aiMap : gmap Z Z; nextIndex : list Z; sd_stack : list Z;
  verifyStack : bool; disableLinearHists : bool; disableLogHists : bool
}.
Definition sd_with_index (s : StackDistCalc) (i : Z) : StackDistCalc :=
  mkStackDistCalc i (sd_tree s) (aiMap s) (nextIndex s) (sd_stack s) (verifyStack s) (disableLinearHists s) (disableLogHists s).
Definition sd_with_tree (s : StackDistCalc) (t : list (gmap Z SDNode)) : StackDistCalc :=
  mkStackDistCalc (sd_index s) t (aiMap s) (nextIndex s) (sd_stack s) (verifyStack s) (disableLinearHists s) (disableLogHists s).
Definition sd_with_aiMap (s : StackDistCalc) (m : gmap Z Z) : StackDistCalc :=
  mkStackDistCalc (sd_index s) (sd_tree s) m (nextIndex s) (sd_stack s) (verifyStack s) (disableLinearHists s) (disableLogHists s).
Definition sd_with_next (s : StackDistCalc) (l : list Z) : StackDistCalc :=
  mkStackDistCalc (sd_index s) (sd_tree s) (aiMap s) l (sd_stack s) (verifyStack s) (disableLinearHists s) (disableLogHists s).
Definition sd_with_stack (s : StackDistCalc) (l : list Z) : StackDistCalc :=
  mkStackDistCalc (sd_index s) (sd_tree s) (aiMap s) (nextIndex s) l (verifyStack s) (disableLinearHists s) (disableLogHists s).

(** The leaf layer and the root above it. *)
Definition StackDistCalc_new (verify no_linear no_log : bool) : StackDistCalc :=
  mkStackDistCalc 0 [∅; {[0 := SDNode_new]}] ∅ [0; 1] [] verify no_linear no_log.

(** ** Nodes *)

Definition node_at (s : StackDistCalc) (p : nat * Z) : res SDNode :=
  layer ← vread (sd_tree s) p.1;
  match layer !! p.2 with Some nd => Ret nd | None => Err OutOfBounds end.
Definition set_node (s : StackDistCalc) (p : nat * Z) (nd : SDNode) : res StackDistCalc :=
  layer ← vread (sd_tree s) p.1;
  t ← vwrite (sd_tree s) p.1 (<[p.2:=nd]> layer);
  Ret (sd_with_tree s t).
Definition erase_node (s : StackDistCalc) (p : nat * Z) : res StackDistCalc :=
  layer ← vread (sd_tree s) p.1;
  t ← vwrite (sd_tree s) p.1 (delete p.2 layer);
  Ret (sd_with_tree s t).
(** The pointer a map has for an index. *)
Definition pointer_at (s : StackDistCalc) (p : nat * Z) : res (option (nat * Z)) :=
  layer ← vread (sd_tree s) p.1;
  Ret (match layer !! p.2 with Some _ => Some p | None => None end).

Definition getTreeDepth (s : StackDistCalc) : nat := length (sd_tree s) - 1.

(** [1 << n] in an [int]. *)
Definition shift_one (n : Z) : res Z := if n <? 31 then Ret (2 ^ n) else Err SignedOverflow.
Definition panic_if (b : bool) : res unit := if b then Err Panic else Ret tt.

(** ** Sums *)

(** The sanity check of a node's sums. *)
Definition check_sums (s : StackDistCalc) (nd : SDNode) (level : Z) : res unit :=
  if verifyStack s then
    most ← shift_one (level - 1);
    _ ← panic_if (most <? sumLeft nd);
    panic_if (most <? sumRight nd)
  else Ret tt.

Fixpoint updateSum (fuel : nat) (s : StackDistCalc) (node : nat * Z) (from_left : bool) (sum_from_below level stack_dist : Z) (discard_node : bool) : res (Z * StackDistCalc) :=
  match fuel with
  | 0%nat => Err OutOfFuel
  | S fuel =>
      let level := u64 (level + 1) in
      nd ← node_at s node;
      _ ← check_sums s nd level;
      let sum_l := if from_left then sum_from_below else sumLeft nd in
      let sum_r := if from_left then sumRight nd else sum_from_below in
      let stack_dist := if from_left then u64 (stack_dist + sumRight nd) else stack_dist in
      let discarded := discard_node && (sum_from_below =? 0) in
      let discard_left := discardLeft nd || discarded && from_left in
      let discard_right := discardRight nd || discarded && negb from_left in
      s ← set_node s node (mkSDNode sum_l sum_r discard_left discard_right (nodeIndex nd) (sd_parent nd) (isLeftNode nd) (isMarked nd));
      let gone := discard_left && discard_right && discard_node && (match sd_parent nd with Some _ => true | None => false end) && (sum_from_below =? 0) in
      s ← (if gone then erase_node s (Z.to_nat level, nodeIndex nd) else Ret s);
      match sd_parent nd with
      | Some p => updateSum fuel s p (isLeftNode nd) (u64 (sum_l + sum_r)) level stack_dist gone
      | None => Ret (stack_dist, s)
      end
  end.

(** The recursion climbs a layer with each call. *)
Definition climb (s : StackDistCalc) : nat := length (sd_tree s).

Definition sd_deref (p : option (nat * Z)) : res (nat * Z) := match p with Some p => Ret p | None => Err OutOfBounds end.

Definition updateSumsLeavesToRoot (s : StackDistCalc) (node : nat * Z) (is_new_leaf : bool) : res (Z * StackDistCalc) :=
  nd ← node_at s node;
  let sum := if is_new_leaf then 1 else 0 in
  s ← set_node s node (mkSDNode sum (sumRight nd) (discardLeft nd) (discardRight nd) (nodeIndex nd) (sd_parent nd) (isLeftNode nd) (isMarked nd));
  p ← sd_deref (sd_parent nd);
  '(dist, s) ← updateSum (climb s) s p (isLeftNode nd) sum 0 0 (negb is_new_leaf);
  Ret (if is_new_leaf then Infinity else dist, s).

Fixpoint getSum (fuel : nat) (s : StackDistCalc) (node : nat * Z) (from_left : bool) (stack_dist : Z) : res Z :=
  match fuel with
  | 0%nat => Err OutOfFuel
  | S fuel =>
      nd ← node_at s node;
      let stack_dist := if from_left then u64 (stack_dist + sumRight nd) else stack_dist in
      match sd_parent nd with
      | Some p => getSum fuel s p (isLeftNode nd) stack_dist
      | None => Ret stack_dist
      end
  end.

Definition getSumsLeavesToRoot (s : StackDistCalc) (node : nat * Z) : res Z :=
  nd ← node_at s node;
  p ← sd_deref (sd_parent nd);
  getSum (climb s) s p (isLeftNode nd) 0.

(** ** Growth *)

(** A new node in the layer [i], below the last node of the layer above. *)
Definition add_inode (s : StackDistCalc) (i : nat) : res StackDistCalc :=
  n ← vread (nextIndex s) i;
  m ← vread (nextIndex s) (S i);
  p ← pointer_at s (S i, u64 (m - 1));
  next ← vwrite (nextIndex s) i (u64 (n + 1));
  set_node (sd_with_next s next) (i, u64 (u64 (n + 1) - 1))
    (mkSDNode 0 0 false false (u64 (u64 (n + 1) - 1)) p (n mod 2 =? 0) false).

(** The layers from [i] down to 1 get a node: [all] of them, or those whose turn it is. *)
Fixpoint add_inodes (all : bool) (i : nat) (s : StackDistCalc) : res StackDistCalc :=
  match i with
  | 0%nat => Ret s
  | S j =>
      s ← (if all then add_inode s i
           else width ← shift_one (Z.of_nat i); if sd_index s mod width =? 0 then add_inode s i else Ret s);
      add_inodes all j s
  end.

(** A new root above the old one. *)
Definition add_root (s : StackDistCalc) : res StackDistCalc :=
  let d := getTreeDepth s in
  old ← node_at s (d, 0);
  let root := mkSDNode (u64 (sumRight old + sumLeft old)) 0 (discardLeft old && discardRight old) false 0 None true false in
  let s := sd_with_next (sd_with_tree s (sd_tree s ++ [{[0 := root]}])) (nextIndex s ++ [1]) in
  set_node s (d, 0) (mkSDNode (sumLeft old) (sumRight old) (discardLeft old) (discardRight old) (nodeIndex old) (Some (S d, 0)) (isLeftNode old) (isMarked old)).

Definition updateTree (s : StackDistCalc) : res StackDistCalc :=
  if isPowerOf2 64 (sd_index s) then
    s ← add_root s;
    add_inodes true (getTreeDepth s - 1) s
  else add_inodes false (getTreeDepth s - 1) s.

(** ** Verification of the code at run time *)

(** The chain of parents of a leaf ends in the root layer. *)
Fixpoint climb_check (n : nat) (s : StackDistCalc) (p : nat * Z) : res (nat * Z) :=
  match n with
  | 0%nat => Ret p
  | S n =>
      nd ← node_at s p;
      _ ← panic_if (match sd_parent nd with Some _ => false | None => true end);
      q ← sd_deref (sd_parent nd);
      climb_check n s q
  end.
Definition sanityCheckTree (s : StackDistCalc) (node : nat * Z) : res unit :=
  nd ← node_at s node;
  p ← sd_deref (sd_parent nd);
  p ← climb_check (getTreeDepth s - 1) s p;
  nd ← node_at s p;
  panic_if (match sd_parent nd with Some _ => true | None => false end).

(** The position of an address from the top of the stack. *)
Fixpoint stack_find (a : Z) (l : list Z) (n : nat) : option nat :=
  match l with
  | [] => None
  | x :: l => if x =? a then Some n else stack_find a l (S n)
  end.
(** The top of the stack is the end of the vector. *)
Definition verifyStackDist (s : StackDistCalc) (a : Z) (update_stack : bool) : Z * StackDistCalc :=
  let found := stack_find a (reverse (sd_stack s)) 0 in
  let rest := match found with Some n => reverse (delete n (reverse (sd_stack s))) | None => sd_stack s end in
  (match found with Some n => Z.of_nat n | None => Infinity end,
   if update_stack then sd_with_stack s (rest ++ [a]) else s).

(** ** Requests *)

(** The leaf of the current request. *)
Definition add_leaf (s : StackDistCalc) : res StackDistCalc :=
  let left := sd_index s mod 2 =? 0 in
  s ← (if left then updateTree s else Ret s);
  n ← vread (nextIndex s) 0;
  next ← vwrite (nextIndex s) 0 (u64 (n + 1));
  let s := sd_with_next s next in
  m ← vread (nextIndex s) 1;
  p ← pointer_at s (1%nat, u64 (m - 1));
  s ← set_node s (0%nat, sd_index s) (mkSDNode 0 0 false false (sd_index s) p left false);
  '(_, s) ← updateSumsLeavesToRoot s (0%nat, sd_index s) true;
  Ret s.

(** The leaf of the last request for an address goes: the distance and its mark. *)
Definition remove_leaf (s : StackDistCalc) (r_index : Z) : res (Z * bool * StackDistCalc) :=
  '(dist, s) ← updateSumsLeavesToRoot s (0%nat, r_index) false;
  leaf ← node_at s (0%nat, r_index);
  s ← erase_node s (0%nat, r_index);
  Ret (dist, isMarked leaf, s).

Definition calcStackDistAndUpdate (s : StackDistCalc) (r_address : Z) (addNewNode : bool) : res (Z * bool * StackDistCalc) :=
  '(dist, mark, s) ←
    match aiMap s !! r_address with
    | Some r_index =>
        remove_leaf (sd_with_aiMap s (if addNewNode then <[r_address:=sd_index s]> (aiMap s) else delete r_address (aiMap s))) r_index
    | None => Ret (Infinity, false, if addNewNode then sd_with_aiMap s (<[r_address:=sd_index s]> (aiMap s)) else s)
    end;
  if (addNewNode : bool) then
    s ← add_leaf s;
    s ← (if verifyStack s then
           _ ← sanityCheckTree s (0%nat, sd_index s);
           let '(expected, s) := verifyStackDist s r_address true in
           _ ← panic_if (negb (expected =? dist));
           Ret s
         else Ret s);
    Ret (dist, mark, sd_with_index s (u64 (sd_index s + 1)))
  else Ret (dist, mark, s).

Definition calcStackDist (s : StackDistCalc) (r_address : Z) (mark : bool) : res (Z * bool * StackDistCalc) :=
  '(dist, old, s) ←
    match aiMap s !! r_address with
    | Some r_index =>
        nd ← node_at s (0%nat, r_index);
        s ← set_node s (0%nat, r_index)
              (mkSDNode (sumLeft nd) (sumRight nd) (discardLeft nd) (discardRight nd) (nodeIndex nd) (sd_parent nd) (isLeftNode nd) mark);
        dist ← getSumsLeavesToRoot s (0%nat, r_index);
        Ret (dist, isMarked nd, s)
    | None => Ret (Infinity, false, s)
    end;
  _ ← (if verifyStack s then panic_if (negb ((verifyStackDist s r_address false).1 =? dist)) else Ret tt);
  Ret (dist, old, s).

(** [update]: the samples of the linear and of the logarithmic histogram. *)
Record SDSample := mkSDSample { sample_read : bool; sample_linear : option Z; sample_log : option Z }.
Definition sd_update (s : StackDistCalc) (cmd : Command) (addr : Z) : res (option SDSample * StackDistCalc) :=
  if cmd_isRead cmd || cmd_isWrite cmd then
    '(dist, _, s) ← calcStackDistAndUpdate s addr true;
    if negb (dist =? Infinity) then
      lg ← (if disableLogHists s then Ret None else if dist =? 0 then Ret (Some 1) else x ← floorLog2_u64 dist; Ret (Some x));
      Ret (Some (mkSDSample (cmd_isRead cmd) (if disableLinearHists s then None else Some dist) lg), s)
    else Ret (None, s)
  else Ret (None, s).
