(* ===== verification/StackDistSpec.v ===== *)
(** * The tree of partial sums is a stack

    The calculator of stack distances answers as the naive stack of addresses does, for
    every sequence of requests, removals and inspections. *)

From stdpp Require Import gmap sorting.
From S2P Require Import Prelude IntMath Packet StackDist.
Local Open Scope Z_scope.

(** ** Counting leaves *)

(** The place of the ancestor of leaf [i] in layer [l]. *)
Definition anc (l : nat) (i : Z) : Z := i / 2 ^ Z.of_nat l.

(** The leaves of [P] below the node [k] of layer [l], and those right of [i] below its
    ancestor in layer [l]. *)
Fixpoint cnt (P : Z -> bool) (l : nat) (k : Z) : Z :=
  match l with
  | 0%nat => if P k then 1 else 0
  | S l => cnt P l (2 * k) + cnt P l (2 * k + 1)
  end.
Fixpoint above (P : Z -> bool) (l : nat) (i : Z) : Z :=
  match l with
  | 0%nat => 0
  | S l => above P l i + (if Z.even (anc l i) then cnt P l (anc l i + 1) else 0)
  end.

(** All leaves below the node were used and are gone. *)
Definition dead (P : Z -> bool) (n : Z) (l : nat) (k : Z) : Prop := cnt P l k = 0 /\ (k + 1) * 2 ^ Z.of_nat l <= n.

Lemma pow_S l : 2 ^ Z.of_nat (S l) = 2 * 2 ^ Z.of_nat l.
Proof. rewrite Nat2Z.inj_succ. apply Z.pow_succ_r. lia. Qed.
Lemma pow_pos l : 0 < 2 ^ Z.of_nat l.
Proof. apply pow2_pos. lia. Qed.

Lemma anc_0 i : anc 0 i = i.
Proof. apply Z.div_1_r. Qed.
Lemma anc_S l i : anc (S l) i = anc l i / 2.
Proof. unfold anc. pose proof (pow_pos l). rewrite pow_S, Z.mul_comm, Z.div_div by lia. done. Qed.
Lemma anc_nonneg l i : 0 <= i -> 0 <= anc l i.
Proof. intros. apply Z.div_pos; [done|]. apply pow_pos. Qed.
Lemma anc_split l i : anc l i = 2 * anc (S l) i + (if Z.even (anc l i) then 0 else 1).
Proof. rewrite anc_S. pose proof (Z.div_mod (anc l i) 2). rewrite Zmod_even in *. destruct (Z.even (anc l i)); lia. Qed.
Lemma anc_range l i : anc l i * 2 ^ Z.of_nat l <= i < (anc l i + 1) * 2 ^ Z.of_nat l.
Proof. unfold anc. pose proof (pow_pos l). pose proof (Z.div_mod i (2 ^ Z.of_nat l)). pose proof (Z.mod_pos_bound i (2 ^ Z.of_nat l)). lia. Qed.

Lemma cnt_range P l k : 0 <= cnt P l k <= 2 ^ Z.of_nat l.
Proof. revert k. induction l as [|l IH]; intros k; cbn [cnt]; [destruct (P k); cbn; lia|]. rewrite pow_S. pose proof (IH (2 * k)). pose proof (IH (2 * k + 1)). lia. Qed.
Lemma cnt_other P P' i l k : (forall j, j <> i -> P' j = P j) -> k <> anc l i -> cnt P' l k = cnt P l k.
Proof.
  intros Ha. revert k. induction l as [|l IH]; intros k Hk; cbn [cnt]; [rewrite anc_0 in Hk; by rewrite Ha|].
  pose proof (anc_split l i). rewrite !IH; [done|..]; destruct (Z.even (anc l i)); lia.
Qed.
Lemma cnt_pos P i l : P i = true -> 0 < cnt P l (anc l i).
Proof.
  intros Hi. induction l as [|l IH]; [rewrite anc_0; cbn; by rewrite Hi|]. cbn [cnt]. pose proof (anc_split l i) as E.
  pose proof (cnt_range P l (2 * anc (S l) i)). pose proof (cnt_range P l (2 * anc (S l) i + 1)). rewrite E in IH. destruct (Z.even (anc l i)); rewrite ?Z.add_0_r in IH; lia.
Qed.
Lemma cnt_zero P lo l k : (forall j, lo <= j -> P j = false) -> lo <= k * 2 ^ Z.of_nat l -> cnt P l k = 0.
Proof.
  intros Hp. revert k. induction l as [|l IH]; intros k Hk; cbn [cnt]; [rewrite Hp; [done|cbn in Hk; lia]|]. rewrite pow_S in Hk. pose proof (pow_pos l). rewrite !IH by nia. done.
Qed.
Lemma above_range P l i : 0 <= above P l i <= 2 ^ Z.of_nat l.
Proof.
  induction l as [|l IH]; cbn [above]; [cbn; lia|]. rewrite pow_S. pose proof (cnt_range P l (anc l i + 1)). destruct (Z.even _); lia.
Qed.
Lemma dead_parent P n l k : dead P n l (2 * k) -> dead P n l (2 * k + 1) -> dead P n (S l) k.
Proof. intros [C1 _] [C2 H2]. split; cbn [cnt]; [lia|]. rewrite pow_S. nia. Qed.
Lemma dead_mono P n P' n' i l k : (forall j, j <> i -> P' j = P j) -> k <> anc l i -> n <= n' -> dead P n l k -> dead P' n' l k.
Proof. intros Ha Hk Hn [H1 H2]. split; [by rewrite (cnt_other P P' i)|lia]. Qed.

(** ** Nodes *)

Definition nd (s : StackDistCalc) (l : nat) (k : Z) : option SDNode := sd_tree s !! l ≫= (.!! k).

Lemma node_at_nd s l k x : nd s l k = Some x -> node_at s (l, k) = Ret x.
Proof. unfold nd, node_at, vread. cbn. destruct (sd_tree s !! l) as [m|]; [|done]. cbn. by intros ->. Qed.
Lemma set_node_nd s l k x : (l < length (sd_tree s))%nat -> exists t, set_node s (l, k) x = Ret (sd_with_tree s t) /\ length t = length (sd_tree s) /\
  forall l' k', nd (sd_with_tree s t) l' k' = if decide (l' = l /\ k' = k) then Some x else nd s l' k'.
Proof.
  intros Hl. destruct (lookup_lt_is_Some_2 _ _ Hl) as [m Hm]. unfold set_node. cbn. rewrite (vread_some _ _ _ Hm). bsimpl. rewrite vwrite_lt by done. bsimpl.
  eexists. split; [done|]. split; [apply length_insert|]. intros l' k'. unfold nd. cbn. destruct (decide (l' = l)) as [->|Hne].
  - rewrite list_lookup_insert_eq by done. cbn. rewrite Hm. cbn. destruct (decide (k' = k)) as [->|Hk]; [rewrite lookup_insert_eq, decide_True by done; done|].
    rewrite lookup_insert_ne, decide_False by (done || tauto). done.
  - rewrite list_lookup_insert_ne, decide_False by (done || tauto). done.
Qed.
Lemma erase_node_nd s l k : (l < length (sd_tree s))%nat -> exists t, erase_node s (l, k) = Ret (sd_with_tree s t) /\ length t = length (sd_tree s) /\
  forall l' k', nd (sd_with_tree s t) l' k' = if decide (l' = l /\ k' = k) then None else nd s l' k'.
Proof.
  intros Hl. destruct (lookup_lt_is_Some_2 _ _ Hl) as [m Hm]. unfold erase_node. cbn. rewrite (vread_some _ _ _ Hm). bsimpl. rewrite vwrite_lt by done. bsimpl.
  eexists. split; [done|]. split; [apply length_insert|]. intros l' k'. unfold nd. cbn. destruct (decide (l' = l)) as [->|Hne].
  - rewrite list_lookup_insert_eq by done. cbn. rewrite Hm. cbn. destruct (decide (k' = k)) as [->|Hk]; [rewrite lookup_delete_eq, decide_True by done; done|].
    rewrite lookup_delete_ne, decide_False by (done || tauto). done.
  - rewrite list_lookup_insert_ne, decide_False by (done || tauto). done.
Qed.

(** The node [k] of layer [S l] of a tree with root layer [D], for the leaves [P] out of
    [n] that were added. *)
Record good (P : Z -> bool) (n : Z) (D l : nat) (k : Z) (x : SDNode) : Prop := {
  go_left : sumLeft x = cnt P l (2 * k);
  go_right : sumRight x = cnt P l (2 * k + 1);
  go_index : nodeIndex x = k;
  go_parent : sd_parent x = if decide (S l < D)%nat then Some (S (S l), k / 2) else None;
  go_side : isLeftNode x = Z.even k;
  go_dl : discardLeft x = true -> dead P n l (2 * k);
  go_dr : discardRight x = true -> dead P n l (2 * k + 1)
}.
Definition node_ok (s : StackDistCalc) (P : Z -> bool) (n : Z) (D l : nat) (k : Z) : Prop :=
  match nd s (S l) k with Some x => good P n D l k x | None => dead P n (S l) k end.

(** Off the path of leaf [i] nothing depends on it. *)
Lemma good_other P n P' n' D i l k x : (forall j, j <> i -> P' j = P j) -> n <= n' -> k <> anc (S l) i -> good P n D l k x -> good P' n' D l k x.
Proof.
  intros Ha Hn Hk []. pose proof (anc_split l i) as E. assert (2 * k <> anc l i /\ 2 * k + 1 <> anc l i) as [H1 H2] by (destruct (Z.even (anc l i)); lia).
  split; try done; [by rewrite (cnt_other P P' i)|by rewrite (cnt_other P P' i)|intros H; eapply dead_mono; eauto|intros H; eapply dead_mono; eauto].
Qed.
Lemma node_ok_other s P n P' n' D i l k : (forall j, j <> i -> P' j = P j) -> n <= n' -> k <> anc (S l) i -> node_ok s P n D l k -> node_ok s P' n' D l k.
Proof.
  intros Ha Hn Hk. unfold node_ok. destruct (nd s (S l) k); [by eapply good_other|]. by eapply dead_mono.
Qed.

(** ** A walk from a leaf to the root *)

Section walk.
Context (P P' : Z -> bool) (n n' : Z) (D : nat) (e : nat -> Z) (i : Z).
Context (Hagree : forall j, j <> i -> P' j = P j) (Hn : n <= n') (Hi : 0 <= i) (HD : (D <= 31)%nat).
Context (Hlive : forall m, (m <= D)%nat -> ~ dead P n m (anc m i)).
Context (Hpath : forall m, (m < D)%nat -> anc (S m) i * 2 ^ Z.of_nat (S m) < e m).

(** What a visit makes of a node on the path. *)
Definition visited (x : SDNode) (from_left : bool) (sum : Z) (disc : bool) : SDNode :=
  let gone := disc && (sum =? 0) in
  mkSDNode (if from_left then sum else sumLeft x) (if from_left then sumRight x else sum) (discardLeft x || gone && from_left) (discardRight x || gone && negb from_left)
    (nodeIndex x) (sd_parent x) (isLeftNode x) (isMarked x).

Lemma visited_good l x disc : (l < D)%nat -> good P n D l (anc (S l) i) x -> (disc = true -> cnt P' l (anc l i) = 0 -> dead P' n' l (anc l i)) ->
  good P' n' D l (anc (S l) i) (visited x (Z.even (anc l i)) (cnt P' l (anc l i)) disc).
Proof.
  intros Hl [] Hd. pose proof (anc_split l i) as E. pose proof (Hlive l ltac:(lia)) as Hlv. set (K := anc (S l) i) in *.
  assert (Hg : disc && (cnt P' l (anc l i) =? 0) = true -> dead P' n' l (anc l i)) by (intros [H1 H2%Z.eqb_eq]%andb_true_iff; auto).
  destruct (Z.even (anc l i)) eqn:Ev.
  - rewrite Z.add_0_r in E. rewrite E in *. split; cbn; try done.
    + rewrite go_right0. symmetry. apply (cnt_other P P' i); [done|lia].
    + rewrite andb_true_r. intros [H|H]%orb_true_iff; [|by apply Hg]. by destruct (Hlv (go_dl0 H)).
    + rewrite andb_false_r, orb_false_r. intros H. eapply (dead_mono P n P' n' i); [done|lia|done|by apply go_dr0].
  - rewrite E in *. split; cbn; try done.
    + rewrite go_left0. symmetry. apply (cnt_other P P' i); [done|lia].
    + rewrite andb_false_r, orb_false_r. intros H. eapply (dead_mono P n P' n' i); [done|lia|done|by apply go_dl0].
    + rewrite andb_true_r. intros [H|H]%orb_true_iff; [|by apply Hg]. by destruct (Hlv (go_dr0 H)).
Qed.

Definition layer_ok (s : StackDistCalc) (Q : Z -> bool) (m : Z) (l : nat) : Prop := forall k, 0 <= k -> k * 2 ^ Z.of_nat (S l) < e l -> node_ok s Q m D l k.

(** The sums fit their words and the checks of the code. *)
Lemma sums_fit s l x : (l < D)%nat -> good P n D l (anc (S l) i) x -> check_sums s x (Z.of_nat (S l)) = Ret tt.
Proof.
  intros Hl []. unfold check_sums, shift_one, panic_if. destruct (verifyStack s); [|done]. rewrite go_left0, go_right0.
  replace (Z.of_nat (S l) - 1) with (Z.of_nat l) by lia. rewrite (proj2 (Z.ltb_lt _ _)) by lia. bsimpl.
  pose proof (cnt_range P l (2 * anc (S l) i)). pose proof (cnt_range P l (2 * anc (S l) i + 1)). by rewrite !(proj2 (Z.ltb_ge _ _)) by lia.
Qed.

Lemma u64_small x : 0 <= x <= 2 ^ 33 -> u64 x = x.
Proof. intros H. apply wrap_small. unfold inword. lia. Qed.
Lemma pow_level l : (l <= D)%nat -> 2 ^ Z.of_nat l <= 2 ^ 31.
Proof. intros H. apply Z.pow_le_mono_r; lia. Qed.

Lemma dist_step l x : (l < D)%nat -> good P n D l (anc (S l) i) x -> (if Z.even (anc l i) then u64 (above P l i + sumRight x) else above P l i) = above P (S l) i.
Proof.
  intros Hl Hg. cbn [above]. rewrite (go_right _ _ _ _ _ _ Hg). pose proof (anc_split l i) as Ea. destruct (Z.even (anc l i)); [|lia]. rewrite Ea, Z.add_0_r.
  pose proof (above_range P l i). pose proof (cnt_range P l (2 * anc (S l) i + 1)). pose proof (pow_level l ltac:(lia)). apply u64_small. lia.
Qed.

(** The layer of the visited node, when it is kept and when it goes. *)
Lemma visit_layer s s' l (kept : bool) x : (l < D)%nat -> layer_ok s P n l ->
  (forall k, nd s' (S l) k = if decide (k = anc (S l) i) then (if kept then Some x else None) else nd s (S l) k) ->
  (if kept then good P' n' D l (anc (S l) i) x else dead P' n' (S l) (anc (S l) i)) -> layer_ok s' P' n' l.
Proof.
  intros Hl Hok Hnd Hx k Hk He. unfold node_ok. rewrite Hnd. destruct (decide (k = anc (S l) i)) as [->|Hne]; [by destruct kept|].
  exact (node_ok_other s P n P' n' D i l k Hagree Hn Hne (Hok k Hk He)).
Qed.
Lemma layer_same s s' Q m l : (forall k, nd s' (S l) k = nd s (S l) k) -> layer_ok s Q m l -> layer_ok s' Q m l.
Proof. intros H Hok k Hk He. unfold node_ok. rewrite H. by apply Hok. Qed.

(** A node that was written is kept or erased. *)
Lemma keep_or_drop s t1 l K v (gone : bool) : (l < length t1)%nat -> (forall m k, nd (sd_with_tree s t1) m k = if decide (m = l /\ k = K) then Some v else nd s m k) ->
  exists t2, (if gone then erase_node (sd_with_tree s t1) (l, K) else Ret (sd_with_tree s t1)) = Ret (sd_with_tree s t2) /\ length t2 = length t1 /\
    (forall k, nd (sd_with_tree s t2) l k = if decide (k = K) then (if negb gone then Some v else None) else nd s l k) /\
    forall m k, m <> l -> nd (sd_with_tree s t2) m k = nd s m k.
Proof.
  intros Hl N1. destruct gone.
  - destruct (erase_node_nd (sd_with_tree s t1) l K) as (t2 & E2 & L2 & N2); [done|]. exists t2. split; [exact E2|]. split; [done|].
    assert (N3 : forall m k, nd (sd_with_tree s t2) m k = if decide (m = l /\ k = K) then None else nd (sd_with_tree s t1) m k) by exact N2.
    split; [intros k|intros m k Hm]; rewrite N3, N1; repeat case_decide; try tauto; done.
  - exists t1. split_and!; [done|done|..]; [intros k|intros m k Hm]; rewrite N1; repeat case_decide; try tauto; done.
Qed.

Lemma updateSum_walk fuel s l disc : (D - l <= fuel)%nat -> (l < D)%nat -> length (sd_tree s) = S D ->
  (forall m, (m < l)%nat -> layer_ok s P' n' m) -> (forall m, (l <= m < D)%nat -> layer_ok s P n m) -> (disc = true -> cnt P' l (anc l i) = 0 -> dead P' n' l (anc l i)) ->
  exists t, updateSum fuel s (S l, anc (S l) i) (Z.even (anc l i)) (cnt P' l (anc l i)) (Z.of_nat l) (above P l i) disc = Ret (above P D i, sd_with_tree s t) /\ length t = S D /\
    (forall m, (m < D)%nat -> layer_ok (sd_with_tree s t) P' n' m) /\ (forall k, nd (sd_with_tree s t) 0 k = nd s 0 k) /\ is_Some (nd (sd_with_tree s t) D (anc D i)).
Proof.
  revert s l disc. induction fuel as [|fuel IH]; intros s l disc Hf Hl Hlen Hlow Hup Hd; [lia|]. set (K := anc (S l) i).
  assert (Hx : exists x, nd s (S l) K = Some x /\ good P n D l K x).
  { pose proof (Hup l ltac:(lia) K (anc_nonneg _ _ Hi) (Hpath l Hl)) as H. unfold node_ok in H. destruct (nd s (S l) K) as [x|]; [by exists x|]. by destruct (Hlive (S l) ltac:(lia)). }
  destruct Hx as (x & Hx & Hg). cbn [updateSum]. rewrite (u64_small (Z.of_nat l + 1)) by lia. replace (Z.of_nat l + 1) with (Z.of_nat (S l)) by lia.
  rewrite (node_at_nd _ _ _ _ Hx). bsimpl. rewrite (sums_fit s l x Hl Hg). bsimpl. rewrite Nat2Z.id.
  pose proof (visited_good l x disc Hl Hg Hd) as Hv. set (v := visited x (Z.even (anc l i)) (cnt P' l (anc l i)) disc) in Hv.
  destruct (set_node_nd s (S l) K v) as (t1 & E1 & L1 & N1); [lia|]. unfold v, visited in E1. cbv zeta in E1. rewrite E1. bsimpl. fold v in N1.
  rewrite (go_index _ _ _ _ _ _ Hg). match goal with |- context [if ?b then erase_node _ _ else _] => set (gone := b) end.
  assert (Hgone : gone = true -> dead P' n' (S l) K).
  { unfold gone. rewrite !andb_true_iff. intros ((((H1 & H2) & _) & _) & _). apply dead_parent; [by apply (go_dl _ _ _ _ _ _ Hv)|by apply (go_dr _ _ _ _ _ _ Hv)]. }
  assert (Hkeep : gone = true -> is_Some (sd_parent x)) by (unfold gone; rewrite !andb_true_iff; intros ((_ & H) & _); by destruct (sd_parent x)).
  destruct (keep_or_drop s t1 (S l) K v gone) as (t2 & -> & L2 & N2 & N2'); [cbn; lia|exact N1|]. bsimpl. clearbody gone. rewrite L1, Hlen in L2.
  assert (Hlay : layer_ok (sd_with_tree s t2) P' n' l).
  { eapply (visit_layer s _ l (negb gone) v Hl); [apply Hup; lia|exact N2|]. destruct gone; [by apply Hgone|exact Hv]. }
  assert (Hdist : (if Z.even (anc l i) then u64 (above P l i + sumRight x) else above P l i) = above P (S l) i) by (by apply (dist_step l x)).
  rewrite Hdist, (go_parent _ _ _ _ _ _ Hg), (go_side _ _ _ _ _ _ Hg).
  assert (Hsum : u64 ((if Z.even (anc l i) then cnt P' l (anc l i) else sumLeft x) + (if Z.even (anc l i) then sumRight x else cnt P' l (anc l i))) = cnt P' (S l) K).
  { pose proof (go_left _ _ _ _ _ _ Hv) as A. pose proof (go_right _ _ _ _ _ _ Hv) as B. cbn in A, B. rewrite A, B. cbn [cnt].
    pose proof (cnt_range P' l (2 * K)). pose proof (cnt_range P' l (2 * K + 1)). pose proof (pow_level l ltac:(lia)). apply u64_small. lia. }
  rewrite Hsum. destruct (decide (S l < D)%nat) as [HlD|HlD].
  - unfold K at 1 2 3. rewrite <- (anc_S (S l) i). destruct (IH (sd_with_tree s t2) (S l) gone) as (t & Et & Lt & Ht & H0 & Hroot); [lia|done|exact L2| | |by intros ? _; apply Hgone|].
    + intros m Hm. destruct (decide (m = l)) as [->|Hne]; [done|]. eapply layer_same; [|apply Hlow; lia]. intros k. apply N2'. lia.
    + intros m Hm. eapply layer_same; [|apply Hup; lia]. intros k. apply N2'. lia.
    + exists t. split; [exact Et|]. split; [done|]. split; [exact Ht|]. split; [|exact Hroot]. intros k. etransitivity; [apply H0|]. apply N2'. lia.
  - assert (D = S l) as -> by lia. exists t2. split; [done|]. split; [done|]. split; [|split; [intros k; apply N2'; lia|]].
    2:{ rewrite N2, decide_True by done. destruct gone; [|by eexists]. destruct (Hkeep eq_refl) as [q Hq]. by rewrite (go_parent _ _ _ _ _ _ Hg), decide_False in Hq. }
    intros m Hm. destruct (decide (m = l)) as [->|Hne]; [done|]. eapply layer_same; [|apply Hlow; lia]. intros k. apply N2'. lia.
Qed.

(** The same walk when nothing changes. *)
Lemma path_node s l : (l < D)%nat -> layer_ok s P n l -> exists x, nd s (S l) (anc (S l) i) = Some x /\ good P n D l (anc (S l) i) x.
Proof.
  intros Hl Hok. pose proof (Hok _ (anc_nonneg _ _ Hi) (Hpath l Hl)) as H. unfold node_ok in H. destruct (nd s (S l) _) as [x|]; [by exists x|]. by destruct (Hlive (S l) ltac:(lia)).
Qed.
Lemma getSum_walk fuel s l : (D - l <= fuel)%nat -> (l < D)%nat -> (forall m, (m < D)%nat -> layer_ok s P n m) ->
  getSum fuel s (S l, anc (S l) i) (Z.even (anc l i)) (above P l i) = Ret (above P D i).
Proof.
  revert l. induction fuel as [|fuel IH]; intros l Hf Hl Hok; [lia|]. destruct (path_node s l Hl (Hok l Hl)) as (x & Hx & Hg). set (K := anc (S l) i) in *.
  cbn [getSum]. rewrite (node_at_nd _ _ _ _ Hx). bsimpl.
  assert (Hdist : (if Z.even (anc l i) then u64 (above P l i + sumRight x) else above P l i) = above P (S l) i) by (by apply (dist_step l x)).
  rewrite Hdist, (go_parent _ _ _ _ _ _ Hg), (go_side _ _ _ _ _ _ Hg). destruct (decide (S l < D)%nat) as [HlD|HlD].
  - unfold K. rewrite <- (anc_S (S l) i). apply IH; [lia|done|done].
  - by assert (D = S l) as -> by lia.
Qed.
Lemma climb_walk s l c : (l + c < D)%nat -> (forall m, (m < D)%nat -> layer_ok s P n m) -> climb_check c s (S l, anc (S l) i) = Ret (S (l + c), anc (S (l + c)) i).
Proof.
  revert l. induction c as [|c IH]; intros l Hl Hok; cbn [climb_check]; [by rewrite Nat.add_0_r|]. destruct (path_node s l ltac:(lia) (Hok l ltac:(lia))) as (x & Hx & Hg).
  rewrite (node_at_nd _ _ _ _ Hx). bsimpl. rewrite (go_parent _ _ _ _ _ _ Hg), decide_True by lia. unfold panic_if. cbn [sd_deref]. bsimpl. rewrite <- (anc_S (S l) i), IH by (done || lia).
  by replace (S l + c)%nat with (l + S c)%nat by lia.
Qed.
End walk.

(** ** The invariant *)

Definition upd (P : Z -> bool) (i : Z) (b : bool) : Z -> bool := fun j => if j =? i then b else P j.
Lemma upd_eq P i b : upd P i b i = b.
Proof. unfold upd. by rewrite Z.eqb_refl. Qed.
Lemma upd_ne P i b j : j <> i -> upd P i b j = P j.
Proof. intros H. unfold upd. by rewrite (proj2 (Z.eqb_neq _ _) H). Qed.

Record leaf_ok (i : Z) (m : bool) (x : SDNode) : Prop := {
  lo_side : isLeftNode x = Z.even i; lo_parent : sd_parent x = Some (1%nat, anc 1 i); lo_mark : isMarked x = m
}.

(** A tree with root layer [D] for the leaves [P] with marks [mk], when [n] leaves have
    been added; layer [S m] has nodes for the leaves below [e m]. *)
Record tree_inv (s : StackDistCalc) (P mk : Z -> bool) (n : Z) (D : nat) (e : nat -> Z) : Prop := {
  ti_len : length (sd_tree s) = S D;
  ti_depth : (1 <= D <= 31)%nat;
  ti_layers : forall m, (m < D)%nat -> layer_ok D e s P n m;
  ti_leaves : forall i, P i = true -> exists x, nd s 0 i = Some x /\ leaf_ok i (mk i) x;
  ti_root : is_Some (nd s D 0);
  ti_P : forall i, P i = true -> 0 <= i < n;
  ti_n : 0 <= n <= 2 ^ Z.of_nat D;
  ti_e : forall m, (m < D)%nat -> n <= e m;
  ti_nextlen : length (nextIndex s) = S D;
  ti_leafnext : nextIndex s !! 0%nat = Some n;
  ti_next : forall m, (m < D)%nat -> nextIndex s !! S m = Some ((e m - 1) / 2 ^ Z.of_nat (S m) + 1)
}.

Lemma anc_top n D i : 0 <= i < n -> n <= 2 ^ Z.of_nat D -> anc D i = 0.
Proof. intros. unfold anc. apply Z.div_small. lia. Qed.
Lemma live_path P i n m : P i = true -> ~ dead P n m (anc m i).
Proof. intros Hp [Hc _]. pose proof (cnt_pos P i m Hp). lia. Qed.
Lemma path_below (e : nat -> Z) n i D : i < n -> (forall m, (m < D)%nat -> n <= e m) -> forall m, (m < D)%nat -> anc (S m) i * 2 ^ Z.of_nat (S m) < e m.
Proof. intros Hi He m Hm. pose proof (anc_range (S m) i). specialize (He m Hm). lia. Qed.

(** The distance of a leaf that stays. *)
Lemma sum_inv s P mk n D e i : tree_inv s P mk n D e -> P i = true -> getSumsLeavesToRoot s (0%nat, i) = Ret (above P D i).
Proof.
  intros H Hp. destruct (ti_leaves _ _ _ _ _ _ H i Hp) as (x & Hx & [Hs Hpar _]). destruct (ti_P _ _ _ _ _ _ H i Hp) as [Hi Hin]. destruct H.
  unfold getSumsLeavesToRoot. rewrite (node_at_nd _ _ _ _ Hx). bsimpl. rewrite Hpar. cbn [sd_deref]. bsimpl. rewrite Hs.
  pose proof (getSum_walk P n D e i Hi ltac:(lia) (fun m _ => live_path P i n m Hp) (path_below e n i D Hin ti_e0) (climb s) s 0) as G. rewrite anc_0 in G.
  apply G; [unfold climb; lia|lia|done].
Qed.

(** The leaf of [i] goes. *)
Lemma remove_inv s P mk n D e i : tree_inv s P mk n D e -> P i = true ->
  exists t, remove_leaf s i = Ret (above P D i, mk i, sd_with_tree s t) /\ tree_inv (sd_with_tree s t) (upd P i false) mk n D e.
Proof.
  intros H Hp. pose proof (anc_top n D i) as Htop. destruct (ti_leaves _ _ _ _ _ _ H i Hp) as (x & Hx & [Hs Hpar Hm]). destruct (ti_P _ _ _ _ _ _ H i Hp) as [Hi Hin]. destruct H.
  unfold remove_leaf, updateSumsLeavesToRoot. rewrite (node_at_nd _ _ _ _ Hx). bsimpl. cbn [negb].
  match goal with |- context [set_node s _ ?y] => destruct (set_node_nd s 0 i y) as (t1 & E1 & L1 & N1); [lia|]; set (x1 := y) in * end.
  rewrite E1. bsimpl. rewrite Hpar, Hs. cbn [sd_deref]. bsimpl.
  pose proof (updateSum_walk P (upd P i false) n n D e i (upd_ne P i false) ltac:(lia) Hi ltac:(lia) (fun m _ => live_path P i n m Hp) (path_below e n i D Hin ti_e0)
    (climb (sd_with_tree s t1)) (sd_with_tree s t1) 0 true) as W. rewrite anc_0 in W. cbn [cnt above] in W. rewrite upd_eq in W.
  destruct W as (t2 & E2 & L2 & K2 & N2 & R2); [unfold climb; cbn; lia|lia|cbn; lia|lia| |intros _ _; split; [cbn [cnt]; by rewrite upd_eq|cbn; lia]|].
  { intros m Hm'. eapply layer_same; [|apply ti_layers0; lia]. intros k. rewrite N1. by rewrite decide_False by lia. }
  change (Z.of_nat 0) with 0 in E2. rewrite E2. bsimpl. change (sd_with_tree (sd_with_tree s t1) t2) with (sd_with_tree s t2) in *.
  assert (N0 : nd (sd_with_tree s t2) 0 i = Some x1) by (rewrite N2, N1; by rewrite decide_True). rewrite (node_at_nd _ _ _ _ N0). bsimpl.
  destruct (erase_node_nd (sd_with_tree s t2) 0 i) as (t3 & E3 & L3 & N3); [cbn; lia|]. rewrite E3. bsimpl. change (sd_with_tree (sd_with_tree s t2) t3) with (sd_with_tree s t3) in *.
  exists t3. split; [cbn; by rewrite Hm|]. split; try done.
  - cbn in *. lia.
  - intros m Hm'. eapply layer_same; [|apply K2; done]. intros k. rewrite N3. by rewrite decide_False by lia.
  - intros j Hj. assert (Hne : j <> i) by (intros ->; by rewrite upd_eq in Hj). rewrite upd_ne in Hj by done. rewrite N3, decide_False by tauto. rewrite N2, N1, decide_False by tauto. by apply ti_leaves0.
  - rewrite N3, decide_False by lia. rewrite Htop in R2 by (done || lia). exact R2.
  - intros j Hj. apply ti_P0. destruct (decide (j = i)) as [->|Hne]; [done|]. by rewrite upd_ne in Hj.
Qed.

(** ** Growth *)

Lemma tree_inv_ext s P mk n D (e e' : nat -> Z) : (forall m, (m < D)%nat -> e m = e' m) -> tree_inv s P mk n D e -> tree_inv s P mk n D e'.
Proof.
  intros He []. split; try done.
  - intros m Hm k Hk Hke. rewrite <- He in Hke by done. by apply ti_layers0.
  - intros m Hm. rewrite <- He by done. by apply ti_e0.
  - intros m Hm. rewrite <- He by done. by apply ti_next0.
Qed.

Definition eset (e : nat -> Z) (m : nat) (v : Z) : nat -> Z := fun j => if decide (j = m) then v else e j.

(** The last node of a layer that has one for the next leaf. *)
Lemma next_anc m n : (n + 1 - 1) / 2 ^ Z.of_nat m + 1 = anc m n + 1.
Proof. by rewrite Z.add_simpl_r. Qed.
Lemma not_divides m n : 1 <= n -> n mod 2 ^ Z.of_nat m <> 0 -> (n - 1) / 2 ^ Z.of_nat m = n / 2 ^ Z.of_nat m.
Proof.
  intros Hn Hm. pose proof (pow_pos m) as Hp. set (w := 2 ^ Z.of_nat m) in *. pose proof (Z.div_mod n w). pose proof (Z.mod_pos_bound n w).
  symmetry. apply (Z.div_unique _ _ _ (n mod w - 1)); [left; lia|lia].
Qed.
Lemma divides_prev m n : 1 <= n -> n mod 2 ^ Z.of_nat m = 0 -> (n - 1) / 2 ^ Z.of_nat m + 1 = anc m n /\ anc m n * 2 ^ Z.of_nat m = n.
Proof.
  intros Hn Hm. pose proof (pow_pos m) as Hp. unfold anc. set (w := 2 ^ Z.of_nat m) in *. pose proof (Z.div_mod n w). split; [|lia].
  assert (E : n / w - 1 = (n - 1) / w) by (apply (Z.div_unique _ _ _ (w - 1)); [left; lia|lia]). lia.
Qed.
Lemma next_leaf_live P n m : ~ dead P n m (anc m n).
Proof. intros [_ H]. pose proof (anc_range m n). lia. Qed.

(** A layer whose turn it is not. *)
Lemma skip_inv s P mk n D e m : tree_inv s P mk n D e -> (m < D)%nat -> e m = n -> 1 <= n -> n mod 2 ^ Z.of_nat (S m) <> 0 -> tree_inv s P mk n D (eset e m (n + 1)).
Proof.
  intros [] Hm He Hn Hd. split; try done.
  - intros j Hj k Hk. unfold eset. destruct (decide (j = m)) as [->|Hne]; [|by apply ti_layers0]. intros Hke. apply ti_layers0; [done|done|]. rewrite He.
    destruct (decide (k * 2 ^ Z.of_nat (S m) = n)) as [E|]; [|lia]. destruct Hd. rewrite <- E. apply Z.mod_mul. pose proof (pow_pos (S m)). lia.
  - intros j Hj. unfold eset. specialize (ti_e0 j Hj). destruct (decide (j = m)); lia.
  - intros j Hj. unfold eset. destruct (decide (j = m)) as [->|Hne]; [|by apply ti_next0]. rewrite ti_next0, He, not_divides by done. by rewrite Z.add_simpl_r.
Qed.

Lemma u64_index x : 0 <= x < 2 ^ 32 -> u64 (u64 (x + 1) - 1) = x.
Proof. intros H. rewrite !wrap_small; unfold inword; rewrite ?wrap_small; unfold inword; lia. Qed.

(** A new node in layer [S m], below the node of layer [S (S m)] that covers the next leaf. *)
Lemma add_inode_inv s P mk n D e m : tree_inv s P mk n D e -> (S m < D)%nat -> e m = n -> e (S m) = n + 1 -> 1 <= n -> n mod 2 ^ Z.of_nat (S m) = 0 ->
  exists t nx, add_inode s (S m) = Ret (sd_with_tree (sd_with_next s nx) t) /\ tree_inv (sd_with_tree (sd_with_next s nx) t) P mk n D (eset e m (n + 1)).
Proof.
  intros [] Hm He He' Hn Hd. destruct (divides_prev (S m) n Hn Hd) as [Hprev Hk]. set (K := anc (S m) n) in *. unfold add_inode.
  rewrite (vread_some _ _ _ (ti_next0 m ltac:(lia))), He, Hprev. bsimpl. rewrite (vread_some _ _ _ (ti_next0 (S m) Hm)), He', next_anc. bsimpl.
  assert (HnD : 2 ^ Z.of_nat D <= 2 ^ 31) by (apply Z.pow_le_mono_r; lia).
  assert (HK : 0 <= K < 2 ^ 32) by (split; [apply anc_nonneg; lia|]; pose proof (pow_pos (S m)); nia).
  assert (HA : 0 <= anc (S (S m)) n < 2 ^ 32) by (rewrite anc_S; fold K; pose proof (Z.div_pos K 2); pose proof (Z.div_le_upper_bound K 2 K); lia).
  replace (u64 (anc (S (S m)) n + 1 - 1)) with (anc (S (S m)) n) by (rewrite Z.add_simpl_r; symmetry; apply wrap_small; unfold inword; lia).
  assert (Hp : exists x, nd s (S (S m)) (anc (S (S m)) n) = Some x).
  { assert (H : node_ok s P n D (S m) (anc (S (S m)) n)) by (apply ti_layers0; [done|lia|rewrite He'; pose proof (anc_range (S (S m)) n); lia]).
    unfold node_ok in H. destruct (nd s (S (S m)) (anc (S (S m)) n)) as [x|]; [by exists x|]. by destruct (next_leaf_live P n (S (S m))). }
  destruct Hp as [y Hy]. assert (Ep : pointer_at s (S (S m), anc (S (S m)) n) = Ret (Some (S (S m), anc (S (S m)) n))).
  { unfold nd in Hy. unfold pointer_at. cbn [fst snd]. destruct (sd_tree s !! S (S m)) as [layer|] eqn:El; [|done]. cbn in Hy. rewrite (vread_some _ _ _ El). bsimpl. by rewrite Hy. }
  rewrite Ep. bsimpl. rewrite vwrite_lt by lia. bsimpl. rewrite u64_index by done. set (nx := <[S m:=u64 (K + 1)]> (nextIndex s)).
  match goal with |- context [set_node _ _ ?x] => destruct (set_node_nd (sd_with_next s nx) (S m) K x) as (t & Et & Lt & Nt); [cbn; lia|]; set (x0 := x) in * end.
  exists t, nx. split; [exact Et|].
  assert (Nt' : forall l k, nd (sd_with_tree (sd_with_next s nx) t) l k = if decide (l = S m /\ k = K) then Some x0 else nd s l k) by exact Nt.
  split; try done; cbn [sd_with_tree sd_with_next sd_tree nextIndex] in *.
  - lia.
  - intros j Hj k Hk0. unfold eset, node_ok. rewrite Nt'. destruct (decide (j = m)) as [->|Hne].
    + intros Hke. destruct (decide (k = K)) as [->|HkK].
      * rewrite decide_True by done. assert (Hz : forall k', K * 2 <= k' -> cnt P m k' = 0).
        { intros k' Hk'. apply (cnt_zero P n); [intros i Hi; destruct (P i) eqn:Ei; [specialize (ti_P0 i Ei); lia|done]|]. rewrite pow_S in Hk. pose proof (pow_pos m). nia. }
        unfold x0. split; cbn; try done; [rewrite Hz by lia; done|rewrite Hz by lia; done| |by rewrite Zmod_even; destruct (Z.even K)].
        rewrite decide_True by done. by rewrite (anc_S (S m)).
      * rewrite decide_False by tauto. apply ti_layers0; [lia|done|]. rewrite He. destruct (decide (k * 2 ^ Z.of_nat (S m) = n)) as [E|]; [|lia].
        destruct HkK. pose proof (pow_pos (S m)). nia.
    + intros Hke. rewrite decide_False by (intros [? ?]; lia). by apply ti_layers0.
  - intros i Hi. rewrite Nt', decide_False by lia. by apply ti_leaves0.
  - rewrite Nt', decide_False by lia. done.
  - intros j Hj. unfold eset. specialize (ti_e0 j Hj). destruct (decide (j = m)); lia.
  - unfold nx. by rewrite length_insert.
  - unfold nx. by rewrite list_lookup_insert_ne.
  - intros j Hj. unfold nx, eset. destruct (decide (j = m)) as [->|Hne]; [|rewrite list_lookup_insert_ne by lia; by apply ti_next0].
    rewrite list_lookup_insert_eq by lia. rewrite next_anc. f_equal. apply wrap_small. unfold inword. fold K. lia.
Qed.

(** The layers below the first [i] have their node for the next leaf. *)
Lemma add_inodes_inv all i s P mk n D e : tree_inv s P mk n D e -> (i < D)%nat -> 1 <= n -> sd_index s = n -> (forall m, (m < D)%nat -> e m = if decide (m < i)%nat then n else n + 1) ->
  (all = true -> forall m, (m < i)%nat -> n mod 2 ^ Z.of_nat (S m) = 0) ->
  exists t nx, add_inodes all i s = Ret (sd_with_tree (sd_with_next s nx) t) /\ tree_inv (sd_with_tree (sd_with_next s nx) t) P mk n D (fun _ => n + 1).
Proof.
  revert s e. induction i as [|j IH]; intros s e Hs Hi Hn Hx He Hall.
  { exists (sd_tree s), (nextIndex s). split; [by destruct s|]. eapply tree_inv_ext; [|by destruct s]. intros m Hm. rewrite He by done. by rewrite decide_False by lia. }
  cbn [add_inodes]. rewrite Hx.
  assert (H1 : exists t nx, (if all then add_inode s (S j) else width ← shift_one (Z.of_nat (S j)); if n mod width =? 0 then add_inode s (S j) else Ret s) =
      Ret (sd_with_tree (sd_with_next s nx) t) /\ tree_inv (sd_with_tree (sd_with_next s nx) t) P mk n D (eset e j (n + 1))).
  { assert (Hj : e j = n) by (rewrite He, decide_True by lia; done). assert (Hj' : e (S j) = n + 1) by (rewrite He, decide_False by lia; done).
    assert (Hsk : n mod 2 ^ Z.of_nat (S j) <> 0 -> exists t nx, Ret s = Ret (sd_with_tree (sd_with_next s nx) t) /\ tree_inv (sd_with_tree (sd_with_next s nx) t) P mk n D (eset e j (n + 1))).
    { intros Hd. exists (sd_tree s), (nextIndex s). split; [by destruct s|]. pose proof (skip_inv s P mk n D e j Hs ltac:(lia) Hj Hn Hd). by destruct s. }
    destruct all; [apply add_inode_inv; auto with lia|]. unfold shift_one. pose proof (ti_depth _ _ _ _ _ _ Hs). rewrite (proj2 (Z.ltb_lt _ _)) by lia. bsimpl.
    destruct (Z.eqb_spec (n mod 2 ^ Z.of_nat (S j)) 0); [by apply add_inode_inv|by apply Hsk]. }
  destruct H1 as (t1 & nx1 & -> & H1). bsimpl. destruct (IH (sd_with_tree (sd_with_next s nx1) t1) (eset e j (n + 1)) H1) as (t & nx & E & Ht); [lia|done|done| |intros; apply Hall; auto with lia|].
  - intros m Hm. unfold eset. destruct (decide (m = j)) as [->|Hne]; [by rewrite decide_False by lia|]. rewrite He by done. repeat case_decide; lia || done.
  - exists t, nx. split; [exact E|exact Ht].
Qed.

(** A new root when the tree is full. *)
Lemma add_root_inv s P mk D : tree_inv s P mk (2 ^ Z.of_nat D) D (fun _ => 2 ^ Z.of_nat D) -> (D < 31)%nat ->
  exists t nx, add_root s = Ret (sd_with_tree (sd_with_next s nx) t) /\
    tree_inv (sd_with_tree (sd_with_next s nx) t) P mk (2 ^ Z.of_nat D) (S D) (fun m => if decide (m < D)%nat then 2 ^ Z.of_nat D else 2 ^ Z.of_nat D + 1).
Proof.
  set (n := 2 ^ Z.of_nat D). intros Hs HD. destruct (ti_root _ _ _ _ _ _ Hs) as [old Hold]. destruct D as [|d]; [by destruct Hs; lia|]. pose proof (pow_S d) as Hpow. pose proof (pow_pos d) as Hpd.
  assert (Hg : good P n (S d) d 0 old).
  { assert (H : node_ok s P n (S d) d 0) by (apply (ti_layers _ _ _ _ _ _ Hs); [lia|done|unfold n; lia]). unfold node_ok in H. by rewrite Hold in H. }
  unfold add_root, getTreeDepth. rewrite (ti_len _ _ _ _ _ _ Hs), Nat.sub_succ, Nat.sub_0_r, (node_at_nd _ _ _ _ Hold). bsimpl.
  match goal with |- context [[{[0 := ?r]}]] => set (root := r) end. set (s1 := sd_with_next (sd_with_tree s (sd_tree s ++ [{[0 := root]}])) (nextIndex s ++ [1])).
  match goal with |- context [set_node s1 _ ?x] => destruct (set_node_nd s1 (S d) 0 x) as (t & Et & Lt & Nt); [cbn; rewrite length_app; destruct Hs; lia|]; set (x0 := x) in * end.
  exists t, (nextIndex s ++ [1]). split; [exact Et|]. change (sd_with_tree s1 t) with (sd_with_tree (sd_with_next s (nextIndex s ++ [1])) t) in Nt. set (s2 := sd_with_tree _ t) in *.
  assert (N1 : forall l k, (l <= S d)%nat -> nd s1 l k = nd s l k) by (intros l k Hl; unfold nd, s1; cbn; rewrite lookup_app_l by (destruct Hs; lia); done).
  assert (N2 : forall k, nd s1 (S (S d)) k = ({[0 := root]} : gmap Z SDNode) !! k) by (intros k; unfold nd, s1; cbn; rewrite lookup_app_r by (destruct Hs; lia); rewrite (ti_len _ _ _ _ _ _ Hs), Nat.sub_diag; done).
  destruct Hs.
  assert (Hz : cnt P (S d) 1 = 0) by (apply (cnt_zero P n); [intros i Hi; destruct (P i) eqn:Ei; [specialize (ti_P0 i Ei); lia|done]|unfold n; lia]).
  split; try done.
  - cbn in *. rewrite Lt, length_app. cbn. lia.
  - lia.
  - intros m Hm k Hk. unfold node_ok. rewrite Nt. destruct (decide (m < S d)%nat) as [Hlt|Hge]; intros Hke.
    + destruct (decide (m = d)) as [->|Hne].
      * assert (k = 0) as -> by (unfold n in Hke; nia). rewrite decide_True by done. destruct Hg. unfold x0. split; cbn; try done. by rewrite decide_True by lia.
      * rewrite decide_False by lia. rewrite N1 by lia. pose proof (ti_layers0 m Hlt k Hk Hke) as H. unfold node_ok in H. destruct (nd s (S m) k) as [x|]; [|done].
        destruct H. split; try done. rewrite go_parent0. by rewrite !decide_True by lia.
    + assert (m = S d) as -> by lia. rewrite decide_False by lia. rewrite pow_S in Hke. assert (k = 0) as -> by (unfold n in Hke; nia). rewrite N2, lookup_singleton_eq. destruct Hg. unfold root. split; cbn [sumLeft sumRight discardLeft discardRight nodeIndex sd_parent isLeftNode]; try done.
      * rewrite go_left0, go_right0. change (2 * 0) with 0. cbn [cnt]. pose proof (cnt_range P d (2 * 0)). pose proof (cnt_range P d (2 * 0 + 1)). rewrite Z.add_comm. apply wrap_small. unfold inword.
        assert (2 ^ Z.of_nat d <= 2 ^ 31) by (apply Z.pow_le_mono_r; lia). lia.
      * by rewrite decide_False by lia.
      * intros [H1 H2]%andb_true_iff. apply dead_parent; auto.
  - intros i Hi. rewrite Nt, decide_False, N1 by lia. by apply ti_leaves0.
  - rewrite Nt, decide_False, N2 by lia. rewrite lookup_singleton_eq. by eexists.
  - rewrite (pow_S (S d)). lia.
  - intros m Hm. destruct (decide _); lia.
  - cbn. rewrite length_app. cbn. lia.
  - cbn. by rewrite lookup_app_l by lia.
  - intros m Hm. cbn. destruct (decide (m < S d)%nat) as [Hlt|Hge]; [rewrite lookup_app_l by lia; by apply ti_next0|]. assert (m = S d) as -> by lia.
    rewrite lookup_app_r, ti_nextlen0, Nat.sub_diag by lia. cbn. rewrite next_anc. f_equal. unfold anc, n. rewrite Z.div_small; [done|]. rewrite (pow_S (S d)). lia.
Qed.

Lemma skip_all s P mk n D : tree_inv s P mk n D (fun _ => n) -> 1 <= n -> (forall m, (m < D)%nat -> n mod 2 ^ Z.of_nat (S m) <> 0) -> tree_inv s P mk n D (fun _ => n + 1).
Proof.
  intros Hs Hn Hd. assert (H : forall i, (i <= D)%nat -> tree_inv s P mk n D (fun m => if decide (m < i)%nat then n + 1 else n)).
  - induction i as [|i IH]; intros Hi; [exact Hs|]. eapply tree_inv_ext; [|apply (skip_inv s P mk n D _ i (IH ltac:(lia)))]; [|lia|by rewrite decide_False by lia|done|apply Hd; lia].
    intros m Hm. unfold eset. repeat case_decide; lia || done.
  - eapply tree_inv_ext; [|exact (H D ltac:(lia))]. intros m Hm. cbv beta. by rewrite decide_True by done.
Qed.

(** The depth fits the number of leaves: before, and when the next one is to be added. *)
Definition at_rest (s : StackDistCalc) (P mk : Z -> bool) (n : Z) (D : nat) : Prop :=
  tree_inv s P mk n D (fun _ => Z.max n 1) /\ sd_index s = n /\ (D = 1%nat \/ 2 ^ (Z.of_nat D - 1) < n).
Definition has_room (s : StackDistCalc) (P mk : Z -> bool) (n : Z) (D : nat) : Prop :=
  tree_inv s P mk n D (fun _ => n + 1) /\ n < 2 ^ Z.of_nat D /\ (D = 1%nat \/ 2 ^ (Z.of_nat D - 1) <= n).

(** A state that differs in the tree and the counts of its layers only. *)
Definition with_nodes (s : StackDistCalc) (t : list (gmap Z SDNode)) (nx : list Z) : StackDistCalc := sd_with_tree (sd_with_next s nx) t.

Lemma power_depth n D : n <= 2 ^ Z.of_nat D -> (D = 1%nat \/ 2 ^ (Z.of_nat D - 1) < n) -> (1 <= D)%nat -> forall k, 0 <= k -> n = 2 ^ k -> 2 <= n -> k = Z.of_nat D.
Proof.
  intros Hn HD H1 k Hk -> H2. assert (Hle : k <= Z.of_nat D) by (apply (Z.pow_le_mono_r_iff 2); lia). assert (k <> 0) by (intros ->; cbn in H2; lia).
  destruct HD as [->|HD]; [lia|]. apply Z.pow_lt_mono_r_iff in HD; lia.
Qed.

Lemma grow_inv s P mk n D : at_rest s P mk n D -> n < 2 ^ 31 -> exists t nx D', (if n mod 2 =? 0 then updateTree s else Ret s) = Ret (with_nodes s t nx) /\ has_room (with_nodes s t nx) P mk n D'.
Proof.
  intros (Hs & Hx & HD) Hlt. pose proof (ti_n _ _ _ _ _ _ Hs) as Hn. pose proof (ti_depth _ _ _ _ _ _ Hs) as Hd.
  assert (Hself : forall e, tree_inv s P mk n D e -> tree_inv (with_nodes s (sd_tree s) (nextIndex s)) P mk n D e) by (intros e H; by destruct s).
  assert (Eself : s = with_nodes s (sd_tree s) (nextIndex s)) by (by destruct s).
  destruct (decide (n = 0)) as [->|Hn0].
  { exists (sd_tree s), (nextIndex s), D. destruct HD as [->|HD]; [|pose proof (pow2_pos (Z.of_nat D - 1)); lia]. unfold updateTree. rewrite Hx. change (isPowerOf2 64 0) with false. cbn [Z.eqb Z.modulo].
    unfold getTreeDepth. rewrite (ti_len _ _ _ _ _ _ Hs). split; [cbn; by rewrite <- Eself|]. split; [by apply Hself|]. split; [by cbn|by left]. }
  replace (Z.max n 1) with n in Hs by lia. destruct (Z.eqb_spec (n mod 2) 0) as [Hev|Hodd].
  2:{ exists (sd_tree s), (nextIndex s), D. split; [by rewrite <- Eself|]. assert (Hne : forall m, n mod 2 ^ Z.of_nat (S m) <> 0).
      { intros m E. apply Hodd. apply Z.mod_divide in E; [|pose proof (pow_pos (S m)); lia]. apply Z.mod_divide; [done|]. etransitivity; [|exact E]. rewrite pow_S. apply Z.divide_factor_l. }
      split; [apply Hself, skip_all; auto with lia|]. split; [|destruct HD; [by left|right; lia]]. destruct (decide (n = 2 ^ Z.of_nat D)) as [E|]; [|lia].
      destruct D as [|d]; [lia|]. destruct (Hne d). rewrite E. apply Z.mod_same. pose proof (pow_pos (S d)). lia. }
  assert (H2 : 2 <= n) by (destruct (decide (n = 1)) as [->|]; [done|lia]).
  unfold updateTree. rewrite Hx. destruct (isPowerOf2 64 n) eqn:Epow.
  - apply isPowerOf2_spec in Epow as (k & Hk & ->); [|lia|unfold inword; lia]. assert (k = Z.of_nat D) as -> by (eapply power_depth; [apply Hn|exact HD|lia|lia|done|done]).
    assert (HD31 : (D < 31)%nat) by (apply Z.pow_lt_mono_r_iff in Hlt; lia). destruct (add_root_inv s P mk D Hs HD31) as (t1 & nx1 & -> & H1). bsimpl.
    unfold getTreeDepth. rewrite (ti_len _ _ _ _ _ _ H1). replace (S (S D) - 1 - 1)%nat with D by lia.
    destruct (add_inodes_inv true D _ P mk _ (S D) _ H1) as (t & nx & E & Ht); [lia|lia|done| | |].
    + intros m Hm. done.
    + intros _ m Hm. replace (Z.of_nat D) with (Z.of_nat (D - S m) + Z.of_nat (S m)) by lia. rewrite Z.pow_add_r by lia. apply Z.mod_mul. pose proof (pow_pos (S m)). lia.
    + exists t, nx, (S D). split; [exact E|]. split; [exact Ht|]. split; [rewrite pow_S; pose proof (pow_pos D); lia|right]. replace (Z.of_nat (S D) - 1) with (Z.of_nat D) by lia. lia.
  - assert (HltD : n < 2 ^ Z.of_nat D).
    { destruct (decide (n = 2 ^ Z.of_nat D)) as [E|]; [|lia]. assert (isPowerOf2 64 n = true) as Ht by (apply isPowerOf2_spec; [lia|unfold inword; lia|exists (Z.of_nat D); lia]). congruence. }
    unfold getTreeDepth. rewrite (ti_len _ _ _ _ _ _ Hs). replace (S D - 1 - 1)%nat with (D - 1)%nat by lia.
    assert (H1 : tree_inv s P mk n D (eset (fun _ => n) (D - 1) (n + 1))).
    { apply skip_inv; try done; [lia|lia|]. replace (S (D - 1)) with D by lia. rewrite Z.mod_small by lia. lia. }
    destruct (add_inodes_inv false (D - 1) s P mk n D _ H1) as (t & nx & E & Ht); [lia|lia|done| |done|].
    + intros m Hm. unfold eset. repeat case_decide; lia || done.
    + exists t, nx, D. split; [exact E|]. split; [exact Ht|]. split; [done|]. destruct HD; [by left|right; lia].
Qed.

(** ** Leaves *)

Lemma pointer_nd s l k x : nd s l k = Some x -> pointer_at s (l, k) = Ret (Some (l, k)).
Proof. unfold nd, pointer_at. cbn [fst snd]. destruct (sd_tree s !! l) as [layer|] eqn:El; [|done]. cbn. intros Hy. rewrite (vread_some _ _ _ El). bsimpl. by rewrite Hy. Qed.

(** The leaf of the next request, and the tree above it. *)
Lemma add_leaf_inv s P mk n D : at_rest s P mk n D -> n < 2 ^ 31 - 1 ->
  exists t nx D', add_leaf s = Ret (with_nodes s t nx) /\ tree_inv (with_nodes s t nx) (upd P n true) (upd mk n false) (n + 1) D' (fun _ => n + 1) /\ (D' = 1%nat \/ 2 ^ (Z.of_nat D' - 1) < n + 1).
Proof.
  intros Hs Hlt. pose proof Hs as (_ & Hx & _). unfold add_leaf. rewrite Hx. destruct (grow_inv s P mk n D Hs ltac:(lia)) as (t1 & nx1 & D' & E1 & H1 & Hroom & HD'). rewrite E1. bsimpl.
  set (s1 := with_nodes s t1 nx1) in *. assert (Hx1 : sd_index s1 = n) by exact Hx. clear Hs E1. destruct H1.
  rewrite (vread_some _ _ _ ti_leafnext0). bsimpl. rewrite vwrite_lt by lia. bsimpl. set (nx2 := <[0%nat:=u64 (n + 1)]> (nextIndex s1)). set (s2 := sd_with_next s1 nx2).
  assert (Hnx : nextIndex s2 !! 1%nat = Some (anc 1 n + 1)) by (unfold s2, nx2; cbn; rewrite list_lookup_insert_ne, ti_next0 by lia; by rewrite next_anc).
  rewrite (vread_some _ _ _ Hnx). bsimpl. assert (HA : 0 <= anc 1 n <= n) by (unfold anc; split; [apply Z.div_pos; lia|apply Z.div_le_upper_bound; lia]).
  replace (u64 (anc 1 n + 1 - 1)) with (anc 1 n) by (rewrite Z.add_simpl_r; symmetry; apply wrap_small; unfold inword; lia).
  assert (Hy : exists y, nd s1 1 (anc 1 n) = Some y).
  { assert (H : node_ok s1 P n D' 0 (anc 1 n)) by (apply ti_layers0; [lia|lia|pose proof (anc_range 1 n); lia]). unfold node_ok in H. destruct (nd s1 1 (anc 1 n)) as [y|]; [by exists y|]. by destruct (next_leaf_live P n 1). }
  destruct Hy as [y Hy]. rewrite (pointer_nd s2 1 (anc 1 n) y) by exact Hy. bsimpl. assert (Hx2 : sd_index s2 = n) by exact Hx1. rewrite Hx2.
  match goal with |- context [set_node s2 _ ?x] => destruct (set_node_nd s2 0 n x) as (t3 & E3 & L3 & N3); [cbn in *; lia|]; set (x3 := x) in * end. rewrite E3. bsimpl. set (s3 := sd_with_tree s2 t3) in *.
  assert (Hx3 : sd_index s3 = n) by exact Hx1. rewrite Hx3. assert (N0 : nd s3 0 n = Some x3) by (rewrite N3; by rewrite decide_True).
  unfold updateSumsLeavesToRoot. rewrite (node_at_nd _ _ _ _ N0). bsimpl. cbn [negb].
  match goal with |- context [set_node s3 _ ?x] => destruct (set_node_nd s3 0 n x) as (t4 & E4 & L4 & N4); [cbn in *; lia|]; set (x4 := x) in * end. rewrite E4. bsimpl. set (s4 := sd_with_tree s3 t4) in *.
  cbn [x3 sd_parent isLeftNode sd_deref]. bsimpl.
  assert (Nup : forall l k, l <> 0%nat -> nd s4 l k = nd s1 l k) by (intros l k Hl; rewrite N4, decide_False by tauto; rewrite N3, decide_False by tauto; done).
  assert (Nlow : forall k, nd s4 0 k = if decide (k = n) then Some x4 else nd s1 0 k) by (intros k; rewrite N4, N3; repeat case_decide; tauto || done).
  pose proof (updateSum_walk P (upd P n true) n (n + 1) D' (fun _ => n + 1) n (upd_ne P n true) ltac:(lia) ltac:(lia) ltac:(lia) (fun m _ => next_leaf_live P n m)
    (path_below (fun _ => n + 1) (n + 1) n D' ltac:(lia) (fun m _ => Z.le_refl (n + 1))) (climb s4) s4 0 false) as W. rewrite anc_0 in W. cbn [cnt above] in W. rewrite upd_eq in W.
  destruct W as (t5 & E5 & L5 & K5 & N5 & R5); [unfold climb; cbn in *; lia|lia|cbn in *; lia|lia| |done|].
  { intros m Hm. eapply layer_same; [|apply ti_layers0; lia]. intros k. apply Nup. lia. }
  replace (n mod 2 =? 0) with (Z.even n) by (rewrite Zmod_even; by destruct (Z.even n)). change (Z.of_nat 0) with 0 in E5. rewrite E5. bsimpl. exists t5, nx2, D'. split; [done|]. split; [|destruct HD'; [by left|right; lia]].
  change (sd_with_tree s4 t5) with (with_nodes s t5 nx2) in *. split; try done.
  - intros i. destruct (decide (i = n)) as [->|Hne].
    + intros _. exists x4. rewrite N5, Nlow, decide_True by done. split; [done|]. rewrite upd_eq. split; [|done|done]. cbn. by rewrite Zmod_even; destruct (Z.even n).
    + rewrite !upd_ne, N5, Nlow, decide_False by done. apply ti_leaves0.
  - rewrite (anc_top (n + 1) D' n) in R5; [exact R5|lia|lia].
  - intros i. destruct (decide (i = n)) as [->|Hne]; [lia|]. rewrite upd_ne by done. intros Hi. specialize (ti_P0 i Hi). lia.
  - lia.
  - change (length nx2 = S D'). unfold nx2. by rewrite length_insert.
  - change (nx2 !! 0%nat = Some (n + 1)). unfold nx2. rewrite list_lookup_insert_eq by lia. f_equal. apply wrap_small. unfold inword. lia.
  - intros m Hm. change (nextIndex (with_nodes s t5 nx2)) with nx2. unfold nx2. rewrite list_lookup_insert_ne by lia. by apply ti_next0.
Qed.

(** ** Distances are positions *)

(** The leaves in a range. *)
Definition num (xs : list Z) (lo hi : Z) : Z := Z.of_nat (length (filter (fun x => lo <= x < hi) xs)).

Lemma num_split xs lo mid hi : lo <= mid <= hi -> num xs lo hi = num xs lo mid + num xs mid hi.
Proof.
  intros H. unfold num. induction xs as [|x xs IH]; [done|]. rewrite !filter_cons. repeat case_decide; cbn [length]; lia.
Qed.
Lemma num_one xs k : NoDup xs -> num xs k (k + 1) = if decide (k ∈ xs) then 1 else 0.
Proof.
  intros Hnd. unfold num. induction Hnd as [|x xs Hx Hnd IH]; [done|]. rewrite filter_cons. destruct (decide (k = x)) as [->|Hne].
  - rewrite (decide_True (P := x <= x < x + 1)) by lia. rewrite decide_True by left. rewrite decide_False in IH by done. cbn [length]. lia.
  - rewrite (decide_False (P := k <= x < k + 1)) by lia. rewrite IH. destruct (decide (k ∈ xs)) as [Hk|Hk]; [by rewrite decide_True by (by right)|]. by rewrite decide_False by (intros [?|?]%elem_of_cons; done).
Qed.
Lemma cnt_num P xs l k : NoDup xs -> (forall i, P i = true <-> i ∈ xs) -> cnt P l k = num xs (k * 2 ^ Z.of_nat l) ((k + 1) * 2 ^ Z.of_nat l).
Proof.
  intros Hnd HP. revert k. induction l as [|l IH]; intros k; cbn [cnt].
  - change (2 ^ Z.of_nat 0) with 1. rewrite !Z.mul_1_r, num_one by done. destruct (P k) eqn:E; [rewrite decide_True by (by apply HP); done|]. rewrite decide_False; [done|]. intros H%HP. congruence.
  - rewrite !IH, pow_S. pose proof (pow_pos l). rewrite <- num_split by nia. f_equal; lia.
Qed.
Lemma above_num P xs l i : NoDup xs -> (forall i, P i = true <-> i ∈ xs) -> above P l i = num xs (i + 1) ((anc l i + 1) * 2 ^ Z.of_nat l).
Proof.
  intros Hnd HP. induction l as [|l IH]; cbn [above].
  - rewrite anc_0. change (2 ^ Z.of_nat 0) with 1. rewrite Z.mul_1_r. pose proof (num_split xs (i + 1) (i + 1) (i + 1)). lia.
  - rewrite IH, pow_S. pose proof (anc_split l i) as E. pose proof (anc_range l i) as Hr. pose proof (pow_pos l). destruct (Z.even (anc l i)).
    + rewrite (cnt_num P xs) by done. rewrite <- num_split by nia. f_equal. lia.
    + rewrite Z.add_0_r. f_equal. lia.
Qed.

(** The entries of the stack, the top first: address, leaf and mark. *)
Record entry := mkEntry { en_addr : Z; en_leaf : Z; en_mark : bool }.
Definition newer_leaf (x y : entry) : Prop := en_leaf y < en_leaf x.

Lemma num_all xs lo hi : Forall (fun x => lo <= x < hi) xs -> num xs lo hi = Z.of_nat (length xs).
Proof. intros H. unfold num. f_equal. f_equal. induction H as [|x xs Hx _ IH]; [done|]. rewrite filter_cons_True by done. by rewrite IH. Qed.
Lemma num_none xs lo hi : Forall (fun x => x < lo) xs -> num xs lo hi = 0.
Proof. intros H. unfold num. induction H as [|x xs Hx _ IH]; [done|]. by rewrite filter_cons_False by lia. Qed.
Lemma num_app xs ys lo hi : num (xs ++ ys) lo hi = num xs lo hi + num ys lo hi.
Proof. unfold num. rewrite filter_app, length_app. lia. Qed.

Lemma newer_nodup L : StronglySorted newer_leaf L -> NoDup (en_leaf <$> L).
Proof.
  induction 1 as [|x L _ IH Hx]; cbn; constructor; [|done]. intros (y & E & Hy)%list_elem_of_fmap. rewrite Forall_forall in Hx. specialize (Hx y Hy). unfold newer_leaf in Hx. lia.
Qed.
Lemma above_position P n D pre x post : StronglySorted newer_leaf (pre ++ x :: post) -> (forall i, P i = true <-> i ∈ en_leaf <$> pre ++ x :: post) ->
  (forall i, P i = true -> 0 <= i < n) -> n <= 2 ^ Z.of_nat D -> above P D (en_leaf x) = Z.of_nat (length pre).
Proof.
  intros Hs HP Hb Hn. rewrite (above_num P (en_leaf <$> pre ++ x :: post)) by (done || by apply newer_nodup).
  assert (Hx : 0 <= en_leaf x < n) by (apply Hb, HP, list_elem_of_fmap_2, elem_of_app; right; left). rewrite (anc_top n D) by done. rewrite Z.mul_1_l.
  apply StronglySorted_app in Hs as (Hpre & _ & Hpost). apply StronglySorted_inv in Hpost as [_ Hpost]. rewrite fmap_app. cbn. rewrite num_app.
  rewrite num_all, num_none, length_fmap; [lia|..].
  - constructor; [lia|]. apply Forall_fmap. eapply Forall_impl; [exact Hpost|]. unfold newer_leaf. cbn. intros y Hy. lia.
  - apply Forall_fmap, Forall_forall. intros y Hy. specialize (Hpre y x Hy ltac:(left)). unfold newer_leaf in Hpre.
    assert (0 <= en_leaf y < n) by (apply Hb, HP, list_elem_of_fmap_2, elem_of_app; by left). cbn. lia.
Qed.

(** ** The naive stack *)

(** The addresses seen, the last one first, with their marks. *)
Abbreviation lru_stack := (list (Z * bool)).
Fixpoint lru_find (a : Z) (st : lru_stack) : option (Z * bool) :=
  match st with
  | [] => None
  | (x, m) :: st => if x =? a then Some (0, m) else (fun '(d, m) => (d + 1, m)) <$> lru_find a st
  end.
Definition lru_answer (a : Z) (st : lru_stack) : Z * bool := match lru_find a st with Some r => r | None => (Infinity, false) end.
Definition lru_remove (a : Z) (st : lru_stack) : lru_stack := filter (fun x => x.1 <> a) st.
Definition lru_mark (a : Z) (b : bool) (st : lru_stack) : lru_stack := (fun x => if x.1 =? a then (a, b) else x) <$> st.

Inductive sd_op := Touch (a : Z) | Forget (a : Z) | Inspect (a : Z) (mark : bool).
Definition lru_op (st : lru_stack) (o : sd_op) : Z * bool * lru_stack :=
  match o with
  | Touch a => (lru_answer a st, (a, false) :: lru_remove a st)
  | Forget a => (lru_answer a st, lru_remove a st)
  | Inspect a b => (lru_answer a st, lru_mark a b st)
  end.
Definition sd_call (s : StackDistCalc) (o : sd_op) : res (Z * bool * StackDistCalc) :=
  match o with
  | Touch a => calcStackDistAndUpdate s a true
  | Forget a => calcStackDistAndUpdate s a false
  | Inspect a b => calcStackDist s a b
  end.

Definition forget_entries (L : list entry) : lru_stack := (fun x => (en_addr x, en_mark x)) <$> L.

(** A calculator that holds the entries [L] after [n] requests. *)
Record holds (s : StackDistCalc) (L : list entry) (n : Z) : Prop := {
  ho_sorted : StronglySorted newer_leaf L;
  ho_nodup : NoDup (en_addr <$> L);
  ho_map : forall a i, aiMap s !! a = Some i <-> exists m, mkEntry a i m ∈ L;
  ho_tree : exists P mk D, at_rest s P mk n D /\ (forall i, P i = true <-> i ∈ en_leaf <$> L) /\ forall x, x ∈ L -> mk (en_leaf x) = en_mark x;
  ho_verify : verifyStack s = true -> reverse (sd_stack s) = en_addr <$> L
}.

(** An address is on the stack once or not at all. *)
Lemma lru_find_app a pre x post : a ∉ en_addr <$> pre -> en_addr x = a -> lru_find a (forget_entries (pre ++ x :: post)) = Some (Z.of_nat (length pre), en_mark x).
Proof.
  intros Hpre Hx. induction pre as [|y pre IH]; cbn in *; [by rewrite Hx, Z.eqb_refl|]. apply not_elem_of_cons in Hpre as [Hy Hpre].
  rewrite (proj2 (Z.eqb_neq _ _)) by congruence. unfold forget_entries in IH. rewrite IH by done. cbn. f_equal. f_equal. lia.
Qed.
Lemma lru_find_none a L : a ∉ en_addr <$> L -> lru_find a (forget_entries L) = None.
Proof. induction L as [|y L IH]; cbn; [done|]. intros [Hy HL]%not_elem_of_cons. rewrite (proj2 (Z.eqb_neq _ _)) by congruence. unfold forget_entries in IH. by rewrite IH. Qed.
Lemma stack_find_app a pre post n : a ∉ pre -> stack_find a (pre ++ a :: post) n = Some (n + length pre)%nat.
Proof.
  revert n. induction pre as [|y pre IH]; intros n H; cbn; [rewrite Z.eqb_refl; f_equal; lia|]. apply not_elem_of_cons in H as [Hy H]. rewrite (proj2 (Z.eqb_neq _ _)) by congruence.
  rewrite IH by done. f_equal. lia.
Qed.
Lemma stack_find_none a l n : a ∉ l -> stack_find a l n = None.
Proof. revert n. induction l as [|y l IH]; intros n; cbn; [done|]. intros [Hy H]%not_elem_of_cons. rewrite (proj2 (Z.eqb_neq _ _)) by congruence. by apply IH. Qed.
Lemma lru_remove_none a L : a ∉ en_addr <$> L -> lru_remove a (forget_entries L) = forget_entries L.
Proof.
  induction L as [|y L IH]; [done|]. intros [Hy H]%not_elem_of_cons. unfold lru_remove, forget_entries in *. rewrite fmap_cons, filter_cons_True by (cbn; congruence). f_equal. by apply IH.
Qed.
Lemma lru_remove_app a pre x post : NoDup (en_addr <$> pre ++ x :: post) -> en_addr x = a -> lru_remove a (forget_entries (pre ++ x :: post)) = forget_entries (pre ++ post).
Proof.
  intros Hnd Hx. rewrite fmap_app in Hnd. cbn in Hnd. apply NoDup_app in Hnd as (_ & H1 & H2). apply NoDup_cons in H2 as [H2 _]. unfold forget_entries. rewrite fmap_app, fmap_app, fmap_cons.
  unfold lru_remove. rewrite filter_app, filter_cons_False by (cbn; congruence). f_equal; [apply (lru_remove_none a pre)|apply (lru_remove_none a post); congruence].
  intros H. apply (H1 a H). rewrite Hx. left.
Qed.
Lemma holds_split s L n a i : holds s L n -> aiMap s !! a = Some i -> exists pre m post, L = pre ++ mkEntry a i m :: post /\ a ∉ en_addr <$> pre /\ a ∉ en_addr <$> post.
Proof.
  intros [] (m & Hm)%ho_map0. apply list_elem_of_split in Hm as (pre & post & ->). exists pre, m, post. split; [done|].
  rewrite fmap_app in ho_nodup0. cbn in ho_nodup0. apply NoDup_app in ho_nodup0 as (_ & H1 & H2). apply NoDup_cons in H2 as [H2 _]. split; [|done]. intros H. apply (H1 a H). left.
Qed.
Lemma holds_absent s L n a : holds s L n -> aiMap s !! a = None -> a ∉ en_addr <$> L.
Proof. intros [] Ha ([a' i m] & E & Hx)%list_elem_of_fmap. cbn in E. subst a'. assert (aiMap s !! a = Some i) by (apply ho_map0; by exists m). congruence. Qed.

(** ** The tree holds the stack *)

(** The tree has the leaves and marks of the entries [L]. *)
Definition tree_of (s : StackDistCalc) (L : list entry) (n : Z) : Prop :=
  exists P mk D, at_rest s P mk n D /\ (forall i, P i = true <-> i ∈ en_leaf <$> L) /\ forall x, x ∈ L -> mk (en_leaf x) = en_mark x.

Lemma tree_of_ext s s' L n : sd_tree s' = sd_tree s -> nextIndex s' = nextIndex s -> sd_index s' = sd_index s -> tree_of s L n -> tree_of s' L n.
Proof.
  intros E1 E2 E3 (P & mk & D & ([] & Hx & HD) & H1 & H2). exists P, mk, D. split; [|done]. split; [|by rewrite E3]. assert (En : forall l k, nd s' l k = nd s l k) by (intros; unfold nd; by rewrite E1).
  split; try done; rewrite ?E1, ?E2, ?En; try done.
  - intros m Hm. eapply layer_same; [|by apply ti_layers0]. intros k. apply En.
  - intros i Hi. rewrite En. by apply ti_leaves0.
Qed.
Lemma tree_of_below s L n x : tree_of s L n -> x ∈ L -> 0 <= en_leaf x < n.
Proof. intros (P & mk & D & (Ht & _ & _) & H1 & _) Hx. apply (ti_P _ _ _ _ _ _ Ht), H1. by apply list_elem_of_fmap_2. Qed.

Lemma remove_entry s pre x post n : StronglySorted newer_leaf (pre ++ x :: post) -> tree_of s (pre ++ x :: post) n ->
  exists t, remove_leaf s (en_leaf x) = Ret (Z.of_nat (length pre), en_mark x, sd_with_tree s t) /\ tree_of (sd_with_tree s t) (pre ++ post) n.
Proof.
  intros Hs (P & mk & D & (Ht & Hx & HD) & HP & Hmk). assert (Hin : x ∈ pre ++ x :: post) by (apply elem_of_app; right; left).
  destruct (remove_inv s P mk n D _ (en_leaf x) Ht) as (t & E & Hr); [by apply HP, list_elem_of_fmap_2|]. exists t.
  rewrite E, (above_position P n D pre x post), (Hmk x Hin) by (done || apply Ht). split; [done|]. exists (upd P (en_leaf x) false), mk, D. split; [done|].
  pose proof (newer_nodup _ Hs) as Hnd. rewrite fmap_app in Hnd. cbn in Hnd. split.
  - intros i. destruct (decide (i = en_leaf x)) as [->|Hne].
    + rewrite upd_eq, fmap_app. split; [done|]. intros Hi. apply NoDup_app in Hnd as (_ & H1 & H2). apply NoDup_cons in H2 as [H2 _]. apply elem_of_app in Hi as [Hi|Hi]; [|done]. by destruct (H1 _ Hi); left.
    + rewrite upd_ne by done. rewrite HP, !fmap_app. cbn. rewrite !elem_of_app, elem_of_cons. tauto.
  - intros y Hy. apply Hmk. rewrite elem_of_app in *. rewrite elem_of_cons. tauto.
Qed.

Lemma sanity_inv s P mk n D e i : tree_inv s P mk n D e -> P i = true -> sanityCheckTree s (0%nat, i) = Ret tt.
Proof.
  intros H Hp. destruct (ti_leaves _ _ _ _ _ _ H i Hp) as (x & Hx & [Hs Hpar _]). destruct (ti_P _ _ _ _ _ _ H i Hp) as [Hi Hin]. destruct H.
  unfold sanityCheckTree, getTreeDepth. rewrite (node_at_nd _ _ _ _ Hx). bsimpl. rewrite Hpar, ti_len0. cbn [sd_deref]. bsimpl. replace (S D - 1 - 1)%nat with (D - 1)%nat by lia.
  rewrite (climb_walk P n D e i Hi ltac:(lia) (fun m _ => live_path P i n m Hp) (path_below e n i D Hin ti_e0) s 0 (D - 1) ltac:(lia) ti_layers0). bsimpl.
  destruct (path_node P n D e i Hi ltac:(lia) (fun m _ => live_path P i n m Hp) (path_below e n i D Hin ti_e0) s (D - 1) ltac:(lia) (ti_layers0 (D - 1)%nat ltac:(lia))) as (y & Hy & Hg).
  change (0 + (D - 1))%nat with (D - 1)%nat. rewrite (node_at_nd _ _ _ _ Hy). bsimpl. by rewrite (go_parent _ _ _ _ _ _ Hg), decide_False by lia.
Qed.

Lemma push_entry s L n a : tree_of s L n -> n < 2 ^ 31 - 1 ->
  exists t nx, add_leaf s = Ret (with_nodes s t nx) /\ sanityCheckTree (with_nodes s t nx) (0%nat, n) = Ret tt /\
    tree_of (sd_with_index (with_nodes s t nx) (n + 1)) (mkEntry a n false :: L) (n + 1).
Proof.
  intros Hs Hn. pose proof Hs as (P & mk & D & Hr & HP & Hmk). destruct (add_leaf_inv s P mk n D Hr Hn) as (t & nx & D' & E & Ht & HD'). exists t, nx. split; [exact E|].
  split; [eapply sanity_inv; [exact Ht|apply upd_eq]|]. exists (upd P n true), (upd mk n false), D'. pose proof (ti_n _ _ _ _ _ _ (proj1 Hr)) as Hn0. split; [|split].
  - split; [|done]. replace (Z.max (n + 1) 1) with (n + 1) by lia. destruct Ht. by split.
  - intros i. cbn. rewrite elem_of_cons. destruct (decide (i = n)) as [->|Hne]; [rewrite upd_eq; tauto|]. rewrite upd_ne, HP by done. tauto.
  - intros x [->|Hx]%elem_of_cons; [cbn; by rewrite upd_eq|]. pose proof (tree_of_below s L n x Hs Hx). rewrite upd_ne by lia. by apply Hmk.
Qed.

(** The vector that checks the tree is the stack of addresses. *)
Lemma verify_found s a pre x post : reverse (sd_stack s) = en_addr <$> pre ++ x :: post -> a ∉ en_addr <$> pre -> en_addr x = a ->
  (verifyStackDist s a true).1 = Z.of_nat (length pre) /\ (verifyStackDist s a false).1 = Z.of_nat (length pre) /\
  reverse (sd_stack (verifyStackDist s a true).2) = a :: (en_addr <$> pre ++ post).
Proof.
  intros Hr Hpre <-. unfold verifyStackDist. rewrite Hr, fmap_app, fmap_cons, stack_find_app by done. rewrite length_fmap, Nat.add_0_l. split; [done|]. split; [done|].
  cbn [fst snd sd_stack sd_with_stack]. rewrite reverse_snoc, reverse_involutive. f_equal. rewrite <- (length_fmap en_addr pre), delete_middle, <- fmap_app. done.
Qed.
Lemma verify_absent s a L : reverse (sd_stack s) = en_addr <$> L -> a ∉ en_addr <$> L ->
  (verifyStackDist s a true).1 = Infinity /\ (verifyStackDist s a false).1 = Infinity /\ reverse (sd_stack (verifyStackDist s a true).2) = a :: (en_addr <$> L).
Proof. intros Hr Ha. unfold verifyStackDist. rewrite Hr, stack_find_none by done. split; [done|]. split; [done|]. cbn [fst snd sd_stack sd_with_stack]. by rewrite reverse_snoc, Hr. Qed.

(** The second half of a request: its leaf, and the check. *)
Lemma finish_touch s R n a (dist : Z) (mark : bool) : tree_of s R n -> n < 2 ^ 31 - 1 ->
  (verifyStack s = true -> (verifyStackDist s a true).1 = dist /\ reverse (sd_stack (verifyStackDist s a true).2) = a :: (en_addr <$> R)) ->
  exists s', (s ← add_leaf s;
              s ← (if verifyStack s then
                     _ ← sanityCheckTree s (0%nat, sd_index s);
                     let '(expected, s) := verifyStackDist s a true in
                     _ ← panic_if (negb (expected =? dist));
                     Ret s
                   else Ret s);
              Ret (dist, mark, sd_with_index s (u64 (sd_index s + 1)))) = Ret (dist, mark, s') /\
    tree_of s' (mkEntry a n false :: R) (n + 1) /\ aiMap s' = aiMap s /\ verifyStack s' = verifyStack s /\ (verifyStack s = true -> reverse (sd_stack s') = a :: (en_addr <$> R)).
Proof.
  intros Hs Hn Hv. destruct (push_entry s R n a Hs Hn) as (t & nx & E & Hsan & Ht). destruct Hs as (P & mk & D & (Hi & Hx & _) & _). pose proof (ti_n _ _ _ _ _ _ Hi) as Hn0.
  rewrite E. bsimpl. set (s1 := with_nodes s t nx) in *. assert (Hx1 : sd_index s1 = n) by exact Hx. rewrite Hx1. change (verifyStack s1) with (verifyStack s).
  assert (Hu : u64 (n + 1) = n + 1) by (apply wrap_small; unfold inword; lia). destruct (verifyStack s) eqn:Ev.
  - rewrite Hsan. bsimpl. destruct (Hv eq_refl) as [<- Hst]. unfold verifyStackDist in *. cbn [fst snd] in *. change (sd_stack s1) with (sd_stack s). rewrite Z.eqb_refl. cbn [negb panic_if]. bsimpl.
    cbn [sd_index sd_with_stack]. rewrite Hx1, Hu. eexists. split; [done|]. split; [|split; [done|split; [done|intros _; exact Hst]]]. by eapply tree_of_ext, Ht.
  - bsimpl. rewrite Hx1, Hu. eexists. split; [done|]. split; [exact Ht|]. done.
Qed.

Lemma touched s s' L R n a : tree_of s' (mkEntry a n false :: R) (n + 1) -> holds s L n -> StronglySorted newer_leaf R -> NoDup (en_addr <$> R) -> a ∉ en_addr <$> R ->
  (forall x, x ∈ R <-> x ∈ L /\ en_addr x <> a) -> aiMap s' = <[a:=n]> (aiMap s) -> verifyStack s' = verifyStack s ->
  (verifyStack s = true -> reverse (sd_stack s') = a :: (en_addr <$> R)) -> holds s' (mkEntry a n false :: R) (n + 1).
Proof.
  intros Ht Hs Hsort Hnd Ha HR Hm Hv Hst. destruct Hs. split; [|by constructor| |exact Ht|rewrite Hv; exact Hst].
  - constructor; [done|]. apply Forall_forall. intros y Hy. unfold newer_leaf. cbn. apply HR in Hy as [Hy _]. exact (proj2 (tree_of_below s L n y ho_tree0 Hy)).
  - intros b i. rewrite Hm. destruct (decide (b = a)) as [->|Hne].
    + rewrite lookup_insert_eq. split; [intros [= <-]; exists false; left|]. intros (m & [[= -> _]|Hin]%elem_of_cons); [done|]. apply HR in Hin as [_ Hin]. done.
    + rewrite lookup_insert_ne, ho_map0 by done. split; intros (m & Hin); exists m; [right; by apply HR|]. apply elem_of_cons in Hin as [[= -> _ _]|Hin]; [done|]. by apply HR in Hin as [? _].
Qed.

Lemma sorted_without pre (x : entry) post : StronglySorted newer_leaf (pre ++ x :: post) -> StronglySorted newer_leaf (pre ++ post).
Proof.
  intros (H1 & H2 & H3)%StronglySorted_app. apply StronglySorted_inv in H3 as [H3 _]. apply StronglySorted_app_2; [|done|done]. intros y z Hy Hz. apply H1; [done|by right].
Qed.
Lemma without_spec a pre i m post : a ∉ en_addr <$> pre -> a ∉ en_addr <$> post -> forall x, x ∈ pre ++ post <-> x ∈ pre ++ mkEntry a i m :: post /\ en_addr x <> a.
Proof.
  intros Hpre Hpost x. rewrite !elem_of_app, elem_of_cons. split; [|intros [[?|[->|?]] Hne]; cbn in *; tauto]. intros Hx. split; [tauto|]. intros <-.
  destruct Hx as [Hx|Hx]; [apply Hpre|apply Hpost]; by apply list_elem_of_fmap_2.
Qed.
Lemma without_nodup a pre i m post : NoDup (en_addr <$> pre ++ mkEntry a i m :: post) -> NoDup (en_addr <$> pre ++ post).
Proof. rewrite !fmap_app. cbn. intros (H1 & H2 & H3)%NoDup_app. apply NoDup_cons in H3 as [_ H3]. apply NoDup_app. split_and!; [done| |done]. intros b Hb Hc. apply (H2 b Hb). by right. Qed.
Lemma absent_without a pre post : a ∉ en_addr <$> pre -> a ∉ en_addr <$> post -> a ∉ en_addr <$> pre ++ post.
Proof. rewrite fmap_app, elem_of_app. tauto. Qed.

Lemma touch_holds s L n a : holds s L n -> n < 2 ^ 31 - 1 -> exists s' L', calcStackDistAndUpdate s a true = Ret (lru_answer a (forget_entries L), s') /\ holds s' L' (n + 1) /\
  forget_entries L' = (a, false) :: lru_remove a (forget_entries L) /\ verifyStack s' = verifyStack s.
Proof.
  intros Hs Hn. pose proof (ho_tree _ _ _ Hs) as Ht. assert (Hx : sd_index s = n) by (destruct Ht as (? & ? & ? & (_ & ? & _) & _); done).
  unfold calcStackDistAndUpdate, lru_answer. rewrite Hx. destruct (aiMap s !! a) as [i|] eqn:Ea.
  - destruct (holds_split s L n a i Hs Ea) as (pre & m & post & -> & Hpre & Hpost). pose proof (ho_sorted _ _ _ Hs) as Hsort.
    destruct (remove_entry (sd_with_aiMap s (<[a:=n]> (aiMap s))) pre (mkEntry a i m) post n Hsort) as (t & E & Ht1); [by eapply tree_of_ext, Ht|]. cbn [en_leaf en_mark] in E. rewrite E. bsimpl.
    destruct (finish_touch _ (pre ++ post) n a (Z.of_nat (length pre)) m Ht1 Hn) as (s' & E' & Ht' & Hm' & Hv' & Hst').
    { intros Hv. destruct (verify_found s a pre (mkEntry a i m) post (ho_verify _ _ _ Hs Hv) Hpre eq_refl) as (V1 & _ & V3). done. }
    rewrite (lru_find_app a pre (mkEntry a i m) post Hpre eq_refl). exists s', (mkEntry a n false :: pre ++ post). split; [exact E'|]. split.
    + eapply touched; [exact Ht'|exact Hs|by eapply sorted_without|by eapply without_nodup, (ho_nodup _ _ _ Hs)|by apply absent_without|by apply without_spec|done|done|done].
    + split; [|done]. rewrite (lru_remove_app a pre (mkEntry a i m) post (ho_nodup _ _ _ Hs) eq_refl). done.
  - pose proof (holds_absent s L n a Hs Ea) as Ha. bsimpl. assert (Ht1 : tree_of (sd_with_aiMap s (<[a:=n]> (aiMap s))) L n) by (by eapply tree_of_ext, Ht).
    destruct (finish_touch _ L n a Infinity false Ht1 Hn) as (s' & E' & Ht' & Hm' & Hv' & Hst').
    { intros Hv. destruct (verify_absent s a L (ho_verify _ _ _ Hs Hv) Ha) as (V1 & _ & V3). done. }
    rewrite (lru_find_none a L Ha). exists s', (mkEntry a n false :: L). split; [exact E'|]. split.
    + eapply touched; [exact Ht'|exact Hs|apply Hs|apply Hs|done| |done|done|done]. intros x. split; [|tauto]. intros Hin. split; [done|]. intros <-. apply Ha. by apply list_elem_of_fmap_2.
    + split; [|done]. by rewrite (lru_remove_none a L Ha).
Qed.

Lemma forget_holds s L n a : holds s L n -> verifyStack s = false -> exists s' L', calcStackDistAndUpdate s a false = Ret (lru_answer a (forget_entries L), s') /\ holds s' L' n /\
  forget_entries L' = lru_remove a (forget_entries L) /\ verifyStack s' = verifyStack s.
Proof.
  intros Hs Hv. pose proof (ho_tree _ _ _ Hs) as Ht. unfold calcStackDistAndUpdate, lru_answer. destruct (aiMap s !! a) as [i|] eqn:Ea.
  - destruct (holds_split s L n a i Hs Ea) as (pre & m & post & -> & Hpre & Hpost). pose proof (ho_sorted _ _ _ Hs) as Hsort.
    destruct (remove_entry (sd_with_aiMap s (delete a (aiMap s))) pre (mkEntry a i m) post n Hsort) as (t & E & Ht1); [by eapply tree_of_ext, Ht|]. cbn [en_leaf en_mark] in E. rewrite E. bsimpl.
    rewrite (lru_find_app a pre (mkEntry a i m) post Hpre eq_refl). eexists _, (pre ++ post). split; [done|]. split; [|split; [by rewrite (lru_remove_app a pre (mkEntry a i m) post (ho_nodup _ _ _ Hs) eq_refl)|done]].
    pose proof (without_spec a pre i m post Hpre Hpost) as Hw. destruct Hs. split; [by eapply sorted_without|by eapply without_nodup| |exact Ht1|cbn; congruence].
    intros b j. cbn. destruct (decide (b = a)) as [->|Hne].
    + rewrite lookup_delete_eq. split; [done|]. intros (m' & Hin). apply Hw in Hin as [_ Hin]. done.
    + rewrite lookup_delete_ne, ho_map0 by done. split; intros (m' & Hin); exists m'; [by apply Hw|by apply Hw in Hin as [? _]].
  - pose proof (holds_absent s L n a Hs Ea) as Ha. bsimpl. rewrite (lru_find_none a L Ha). exists s, L. split; [done|]. split; [done|]. by rewrite (lru_remove_none a L Ha).
Qed.

(** Setting the mark of a leaf. *)
Lemma mark_inv s P mk n D e i b : tree_inv s P mk n D e -> P i = true -> exists x t, node_at s (0%nat, i) = Ret x /\ isMarked x = mk i /\
  set_node s (0%nat, i) (mkSDNode (sumLeft x) (sumRight x) (discardLeft x) (discardRight x) (nodeIndex x) (sd_parent x) (isLeftNode x) b) = Ret (sd_with_tree s t) /\
  tree_inv (sd_with_tree s t) P (upd mk i b) n D e.
Proof.
  intros H Hp. destruct (ti_leaves _ _ _ _ _ _ H i Hp) as (x & Hx & [Hs Hpar Hm]). destruct H.
  destruct (set_node_nd s 0 i (mkSDNode (sumLeft x) (sumRight x) (discardLeft x) (discardRight x) (nodeIndex x) (sd_parent x) (isLeftNode x) b)) as (t & E & Lt & N); [lia|].
  exists x, t. split; [by apply node_at_nd|]. split; [done|]. split; [exact E|]. split; try done.
  - cbn. lia.
  - intros m Hlt. eapply layer_same; [|by apply ti_layers0]. intros k. by rewrite N, decide_False by lia.
  - intros j Hj. rewrite N. destruct (decide (j = i)) as [->|Hne]; [rewrite decide_True, upd_eq by done; eexists; split; [done|by split]|]. rewrite decide_False, upd_ne by tauto. by apply ti_leaves0.
  - by rewrite N, decide_False by lia.
Qed.

Lemma lru_mark_none a b L : a ∉ en_addr <$> L -> lru_mark a b (forget_entries L) = forget_entries L.
Proof. induction L as [|y L IH]; [done|]. intros [Hy H]%not_elem_of_cons. unfold lru_mark, forget_entries in *. rewrite !fmap_cons, (IH H). cbn. by rewrite (proj2 (Z.eqb_neq _ _)) by congruence. Qed.

(** The same entries with another mark. *)
Lemma remark_fmap (f : entry -> Z) pre a i m b post : f (mkEntry a i b) = f (mkEntry a i m) -> f <$> pre ++ mkEntry a i b :: post = f <$> pre ++ mkEntry a i m :: post.
Proof. intros Hf. by rewrite !fmap_app, !fmap_cons, Hf. Qed.
Lemma remark_holds s t pre a i m b post n : holds s (pre ++ mkEntry a i m :: post) n -> tree_of (sd_with_tree s t) (pre ++ mkEntry a i b :: post) n ->
  holds (sd_with_tree s t) (pre ++ mkEntry a i b :: post) n.
Proof.
  intros [] Ht. split; [|by rewrite (remark_fmap en_addr pre a i m b post)| |exact Ht|rewrite (remark_fmap en_addr pre a i m b post) by done; exact ho_verify0].
  - apply StronglySorted_app in ho_sorted0 as (S1 & S2 & S3). apply StronglySorted_inv in S3 as [S3 S4]. apply StronglySorted_app_2; [|done|by constructor].
    intros y z Hy [->|Hz]%elem_of_cons; [exact (S1 y _ Hy (list_elem_of_here _ _))|apply S1; [done|by right]].
  - intros c j. cbn. rewrite ho_map0. assert (Hd : forall u v, (exists w, mkEntry c j w ∈ pre ++ mkEntry a i u :: post) -> exists w, mkEntry c j w ∈ pre ++ mkEntry a i v :: post).
    { intros u v (w & Hw). rewrite elem_of_app, elem_of_cons in Hw. destruct Hw as [Hw|[[= -> -> _]|Hw]]; [exists w|exists v|exists w]; rewrite elem_of_app, elem_of_cons; tauto. }
    split; apply Hd.
Qed.
Lemma remark_marks (mk : Z -> bool) pre a i m b post : StronglySorted newer_leaf (pre ++ mkEntry a i m :: post) ->
  (forall x, x ∈ pre ++ mkEntry a i m :: post -> mk (en_leaf x) = en_mark x) -> forall x, x ∈ pre ++ mkEntry a i b :: post -> upd mk i b (en_leaf x) = en_mark x.
Proof.
  intros Hs Hmk. pose proof (newer_nodup _ Hs) as Hnl. rewrite fmap_app, fmap_cons in Hnl. apply NoDup_app in Hnl as (_ & N1 & N2). apply NoDup_cons in N2 as [N2 _].
  intros y [Hy|[->|Hy]%elem_of_cons]%elem_of_app; [|cbn; by rewrite upd_eq|].
  - rewrite upd_ne; [apply Hmk, elem_of_app; by left|]. intros E. apply (N1 (en_leaf y)); [by apply list_elem_of_fmap_2|]. rewrite E. left.
  - rewrite upd_ne; [apply Hmk, elem_of_app; right; by right|]. intros E. apply N2. cbn. rewrite <- E. by apply list_elem_of_fmap_2.
Qed.

Lemma inspect_holds s L n a b : holds s L n -> exists s' L', calcStackDist s a b = Ret (lru_answer a (forget_entries L), s') /\ holds s' L' n /\
  forget_entries L' = lru_mark a b (forget_entries L) /\ verifyStack s' = verifyStack s.
Proof.
  intros Hs. unfold calcStackDist, lru_answer. destruct (aiMap s !! a) as [i|] eqn:Ea.
  - destruct (holds_split s L n a i Hs Ea) as (pre & m & post & -> & Hpre & Hpost). destruct (ho_tree _ _ _ Hs) as (P & mk & D & (Ht & Hx & HD) & HP & Hmk). pose proof (ho_sorted _ _ _ Hs) as Hsort.
    assert (Hin : mkEntry a i m ∈ pre ++ mkEntry a i m :: post) by (apply elem_of_app; right; left). assert (Hp : P i = true) by (apply HP; exact (list_elem_of_fmap_2 en_leaf _ _ Hin)).
    destruct (mark_inv s P mk n D _ i b Ht Hp) as (x & t & E1 & Em & E2 & Ht2). rewrite E1. bsimpl. rewrite E2. bsimpl. rewrite (sum_inv _ _ _ _ _ _ i Ht2 Hp), Em. bsimpl.
    pose proof (above_position P n D pre (mkEntry a i m) post Hsort HP (ti_P _ _ _ _ _ _ Ht) (proj2 (ti_n _ _ _ _ _ _ Ht))) as Hpos. cbn [en_leaf] in Hpos. rewrite Hpos.
    pose proof (Hmk _ Hin) as Hmi. cbn [en_leaf en_mark] in Hmi. rewrite Hmi.
    assert (Ec : (if verifyStack (sd_with_tree s t) then panic_if (negb ((verifyStackDist (sd_with_tree s t) a false).1 =? Z.of_nat (length pre))) else Ret tt) = Ret tt).
    { cbn [verifyStack sd_with_tree]. destruct (verifyStack s) eqn:Ev; [|done]. destruct (verify_found s a pre (mkEntry a i m) post (ho_verify _ _ _ Hs Ev) Hpre eq_refl) as (_ & V & _).
      change ((verifyStackDist (sd_with_tree s t) a false).1) with ((verifyStackDist s a false).1). by rewrite V, Z.eqb_refl. }
    rewrite Ec. bsimpl. rewrite (lru_find_app a pre (mkEntry a i m) post Hpre eq_refl). eexists _, (pre ++ mkEntry a i b :: post). split; [done|].
    split; [|split; [|done]].
    + eapply remark_holds; [exact Hs|]. exists P, (upd mk i b), D. split; [done|]. split; [by rewrite (remark_fmap en_leaf pre a i m b post)|by eapply remark_marks].
    + unfold forget_entries, lru_mark. rewrite !fmap_app, !fmap_cons. cbn [fst en_addr en_mark]. rewrite Z.eqb_refl. f_equal; [|f_equal]; symmetry; by apply (lru_mark_none a b).
  - pose proof (holds_absent s L n a Hs Ea) as Ha. bsimpl. rewrite (lru_find_none a L Ha).
    assert (Ec : (if verifyStack s then panic_if (negb ((verifyStackDist s a false).1 =? Infinity)) else Ret tt) = Ret tt).
    { destruct (verifyStack s) eqn:Ev; [|done]. destruct (verify_absent s a L (ho_verify _ _ _ Hs Ev) Ha) as (_ & V & _). by rewrite V, Z.eqb_refl. }
    rewrite Ec. exists s, L. split; [done|]. split; [done|]. by rewrite (lru_mark_none a b L Ha).
Qed.

(** ** Runs *)

Lemma new_holds verify no_linear no_log : holds (StackDistCalc_new verify no_linear no_log) [] 0.
Proof.
  split; [constructor|constructor| | |done].
  - intros a i. cbn. rewrite lookup_empty. split; [done|]. by intros (m & H%elem_of_nil).
  - exists (fun _ => false), (fun _ => false), 1%nat. split; [|split; [|by intros x H%elem_of_nil]].
    + split; [|split; [done|by left]]. split; try done; [lia|..].
      * intros m Hm k Hk. assert (m = 0%nat) as -> by lia. change (2 ^ Z.of_nat 1) with 2. intros Hlt. assert (k = 0) as -> by lia. by split.
      * intros m Hm. assert (m = 0%nat) as -> by lia. done.
    + intros i. split; [done|]. by intros H%elem_of_nil.
Qed.

Fixpoint sd_run (s : StackDistCalc) (ops : list sd_op) : res (list (Z * bool) * StackDistCalc) :=
  match ops with
  | [] => Ret ([], s)
  | o :: ops => '(d, m, s) ← sd_call s o; '(l, s) ← sd_run s ops; Ret ((d, m) :: l, s)
  end.
Fixpoint lru_run (st : lru_stack) (ops : list sd_op) : list (Z * bool) :=
  match ops with
  | [] => []
  | o :: ops => let '(d, m, st) := lru_op st o in (d, m) :: lru_run st ops
  end.
Definition is_forget (o : sd_op) : bool := match o with Forget _ => true | _ => false end.

Lemma call_holds s L n o : holds s L n -> n < 2 ^ 31 - 1 -> (verifyStack s = true -> is_forget o = false) ->
  exists s' L' n', sd_call s o = Ret ((lru_op (forget_entries L) o).1, s') /\ holds s' L' n' /\ forget_entries L' = (lru_op (forget_entries L) o).2 /\ verifyStack s' = verifyStack s /\ n' <= n + 1.
Proof.
  intros Hs Hn Hf. destruct o as [a|a|a b]; cbn [sd_call lru_op fst snd].
  - destruct (touch_holds s L n a Hs Hn) as (s' & L' & H). exists s', L', (n + 1). intuition lia.
  - assert (Hv : verifyStack s = false) by (destruct (verifyStack s); [by specialize (Hf eq_refl)|done]). destruct (forget_holds s L n a Hs Hv) as (s' & L' & H). exists s', L', n. intuition lia.
  - destruct (inspect_holds s L n a b Hs) as (s' & L' & H). exists s', L', n. intuition lia.
Qed.

Lemma run_holds ops s L n : holds s L n -> n + Z.of_nat (length ops) < 2 ^ 31 -> (verifyStack s = true -> Forall (fun o => is_forget o = false) ops) ->
  exists s', sd_run s ops = Ret (lru_run (forget_entries L) ops, s').
Proof.
  revert s L n. induction ops as [|o ops IH]; intros s L n Hs Hn Hf; cbn [sd_run lru_run]; [by exists s|]. cbn [length] in Hn.
  destruct (call_holds s L n o Hs ltac:(lia)) as (s' & L' & n' & E & Hs' & EL & Ev & Hle); [intros Hv; specialize (Hf Hv); by apply Forall_cons in Hf as [? _]|]. rewrite E.
  destruct (lru_op (forget_entries L) o) as [[d m] st] eqn:Eo. cbn [fst snd] in *. bsimpl. destruct (IH s' L' n' Hs') as (s'' & E''); [lia|rewrite Ev; intros Hv; specialize (Hf Hv); by apply Forall_cons in Hf as [_ ?]|].
  rewrite E'', EL. bsimpl. by exists s''.
Qed.


Definition sd_example : list sd_op := [Touch 10; Touch 20; Touch 30; Inspect 20 true; Touch 10; Touch 20; Touch 20; Touch 40; Touch 30; Inspect 10 false].

(** A removal is not told the stack that checks the tree: the next request stops the
    simulation. *)
Theorem removal_breaks_check : sd_run (StackDistCalc_new true false false) [Touch 10; Forget 10; Touch 10] = Err Panic /\
  is_ret (sd_run (StackDistCalc_new false false false) [Touch 10; Forget 10; Touch 10]) = true.
Proof. by vm_compute. Qed.
